(* ===== verification/_CoqProject ===== *)
-Q . S2P
Prelude.v
Utf8.v
Delta.v
Lines.v
SeqMatch.v
History.v
PaneRows.v
AppHistory.v
SendBuffer.v
Lease.v
LeaseInvariant.v
JsonText.v
Json.v
UploadBinary.v
JsonWire.v
Civil.v
GoJson.v
Inbound.v
Protocol.v
WriteAudit.v
Attention.v
Topology.v
TopologyInvariant.v
Target.v
WatchFrame.v
Watch.v
WatchSync.v
E2eeCodec.v
E2eeSession.v
E2eeHandshake.v
DeviceStore.v
DeviceStoreInvariant.v
HandshakeDriver.v
SessionActor.v
DeviceAdmin.v
SessionGates.v
UploadTime.v
UploadSpec.v
Inflate.v
UploadZip.v
UploadFile.v
UploadDisk.v
UploadIndex.v
Uploads.v
UploadsInvariant.v
UploadsFinish.v
UploadsSteps.v
UploadsChunks.v
UploadsRestart.v
UploadHandlers.v
Registry.v
Fs.v
HerdrError.v
Outcome.v
Annotations.v
Activity.v
ActivityStore.v
ActivityFiles.v
ActivityReplay.v
ActivityCrash.v
ActivityClaims.v
ActivityHandlers.v
PushTime.v
PushTypes.v
PushDocs.v
PushState.v
PushManager.v
PushDelivery.v
PushSystem.v
PushOwners.v
PushDurable.v
QuestionInput.v
Questions.v
QuestionsClaims.v
ConvoSubs.v
Release.v
UpdateWorker.v
UpdateManager.v
PaneLease.v
Router.v
