(* ===== verification/Prelude.v ===== *)
(** * The lerdr relay: a verification development

    The relay (src/relay) is a Rust server between phones and the Herdr
    terminal multiplexer.  A phone opens a websocket; the relay runs a pairing
    handshake against its device store, then one session actor per client
    opens end-to-end encrypted frames, decides what the client may do, hands
    admitted actions to a router and drains a bounded buffer of replies and
    pane updates back as encrypted frames.  A hub keeps the live sessions so
    that revoking a device disconnects it.  Behind the router a coordinator
    mirrors Herdr's topology, streams watched panes, keeps their scrollback,
    stages attachments, answers prompts, pushes transcripts, journals what was
    done, notifies absent phones and updates the relay itself.

    Source paths below are relative to src/relay/crates.

    ** Files and what they model

    Shared:
    - [Prelude] (this file): Rust's [Result], machine integers, byte strings,
      big-endian integers, [BTreeMap] iteration order, generic list lemmas,
      the hint database [lerdr] and the tactics [each_of] and [u8s].
    - [Utf8], [Lines]: [String] as [char]s and back, [trim], char boundaries;
      the line methods of [str].
    - [JsonText], [Json], [JsonWire], [GoJson]: lerdr-core/src/json.rs and
      lerdr-e2ee/src/json.rs (Go-compatible string literals and value text),
      the JSON value type, flat objects on the wire with serde's defaults.
    - [Civil]: the date conversions of lerdr-core/src/audit.rs and
      lerdr-relay/src/session.rs.
    - [Fs]: a directory whose calls succeed, fail or tear a write, as a script
      of outcomes says; every step of the files is kept, so that a crash can be
      placed between any two of them.

    lerdr-core:
    - [Delta]: delta.rs, pane frames as copy/literal segments.
    - [SendBuffer]: sendbuffer.rs, the per-client queue.
    - [Lease], [LeaseInvariant]: lease.rs, who decides how wide a shared
      terminal is; the terminal host is the class [PaneHost].
    - [UploadBinary]: uploadbinary.rs, binary upload chunks.
    - [Inbound], [Protocol]: protocol/{inbound,types,outbound}.rs, the client
      message with all its fields, the action catalog and gates, the bounded
      [ApiError] and the replies the session layer builds.
    - [WriteAudit]: audit.rs, what a write leaves in the audit log.

    lerdr-e2ee and lerdr-relay:
    - [E2eeCodec], [E2eeSession], [E2eeHandshake]: lerdr-e2ee/src (errors,
      frame codecs, sealed sessions, the handshake core).  Module
      [E2eeInstances] is an executable base64 for which the laws assumed of
      the engine hold.
    - [DeviceStore], [DeviceStoreInvariant]: {auth,store}.rs, the credential
      and invitation document and every operation on it, with the invitation
      that lerdr-coord/src/bin/lerdr-relay/bootstrap.rs arms at start.
    - [HandshakeDriver]: handshake.rs, the four-frame exchange against a
      transport, a store and a deadline.
    - [SessionActor], [SessionGates]: session.rs, the actor's handlers over the
      store and router traits, and what they let through.
    - [DeviceAdmin]: [MemoryAuthStore] of store.rs as the store behind the
      actor; it discharges the laws [SessionGates] assumes.
    - [Registry]: the live-session registry of server.rs.

    lerdr-coord, panes:
    - [SeqMatch], [History]: history.rs, the difflib port and the transcript
      kept per pane.
    - [PaneRows]: pane_stream.rs and controlled_history.rs, rows of a pane.
    - [AppHistory]: application_history.rs, harvested scrollback.
    - [Attention]: classify/store.rs, the ledger of what needs attention.
    - [Topology], [TopologyInvariant]: topology.rs, the committed snapshot with
      its generations and revisions.
    - [Target]: actions/target.rs, admission of a pane target.
    - [WatchFrame], [Watch], [WatchSync]: watches.rs and fingerprint.rs, the
      watch of one pane as a state machine and its client.
    - [Annotations] (with its invariant): annotations.rs, the tokens a watched
      pane shows.

    lerdr-coord, actions:
    - [Outcome]: the result frames and receipts of actions/mod.rs.
    - [UploadTime], [UploadSpec], [Inflate], [UploadZip], [UploadFile],
      [UploadDisk], [UploadIndex], [Uploads], [UploadHandlers]:
      actions/uploads.rs, attachments from the first chunk to the index on
      disk, with the ZIP reader and the inflater that look into documents.
      [UploadsInvariant], [UploadsFinish], [UploadsSteps], [UploadsChunks],
      [UploadsRestart] are about them.
    - [Activity], [ActivityStore], [ActivityHandlers]: actions/activity.rs, the
      journal of what was done.  [ActivityFiles], [ActivityReplay],
      [ActivityCrash], [ActivityClaims] are about them.
    - [PushTime], [PushTypes], [PushDocs], [PushState], [PushManager]:
      actions/push.rs and push_queue.rs, notifications: policies,
      subscriptions, the durable queue, signed references.  [PushDelivery] is
      the worker of push_delivery.rs, [PushSystem] manager and worker
      interleaved; [PushOwners] and [PushDurable] are about them.
    - [QuestionInput], [Questions]: classify/{input,model}.rs and
      actions/questions.rs, answering an approval or a question on screen: the
      input plan of every agent, the ledger of answers, and the four handlers
      cut at their lock sections and await points.  [QuestionsClaims] is about
      them.
    - [ConvoSubs]: convo_subs.rs, the feed that pushes a transcript to a
      client; what it samples is a time-indexed [Environment].
    - [Release]: release.rs, manifests of release bundles over a directory
      tree.  [UpdateWorker]: update_worker.rs, the detached process that
      installs a release; its effects are a log.  [UpdateManager]: the update
      part of actions/misc.rs, which finds releases, schedules that worker and
      settles what a dead one left.

    - [PaneLease]: actions/leases.rs, pane-size leases over native controllers;
      what Herdr and the operating system answer is a script, and which
      controllers are dead changes under the manager.
    - [Router]: Module [Inventory], snapshot.rs with the publishing of actor.rs
      and the forwarder of router.rs: what a client is told of panes,
      workspaces, Herdr and capabilities, with the attention ledger as it is
      when a frame is composed; Module [Router], the routing table
      and the session state of router.rs.

    lerdr-herdr:
    - [HerdrError]: error.rs, how far a request to Herdr got; its Module
      [Singleflight], singleflight.rs, shared in-flight requests.

    ** How the code is rendered

    A struct is a Record, an enum an Inductive type, a method a function from
    the old state to the new state and its result.  [Result] keeps both arms;
    where the source can panic ([expect], indexing, slicing) the definition is
    partial and [None] is the panic, so theorems say that it does not happen.
    Integers are [Z] with their width written out where it matters
    (checked_add, saturating operations, [as] casts); a string is its UTF-8
    bytes.  A [HashMap] is a [gmap], a [BTreeMap] that is iterated is visited
    in key order.  Traits are classes ([PaneHost], [DeviceAuthStore],
    [DeviceAdminStore], [ActionRouter]) and what a client of the trait relies
    on is a separate class of laws, so that the client is proved against the
    interface and the implementation discharges it.  An [async] function that
    shares state is cut at its lock sections and await points and becomes a
    step relation ([Watch], [Singleflight], [PushDelivery], [Questions]); what an await or a
    file call answers is an argument, so theorems hold for every answer.

    Third-party code is a class parameter: the cipher [Aead], [Base64],
    [StandardBase64], [StrictBase64], [HandshakeCrypto] (P-256, HMAC, HKDF),
    [Digest] and [Sha256], the JSON grammar [WireJson], [SerdeJson],
    [DocumentJson], [PrettyJson], [StateJson] and [InventoryJson], serde_json's float text
    [FloatText] and error text [SerdeText], URL parsing [UrlParser], Unicode
    lower-casing [CaseMapping], Rust's debug text [DebugText], the text of an I/O error [StoreErrorText]; the
    terminal emulator and the order of hash maps are arguments.  Where a
    theorem needs a law of one of them the law is the documented behaviour
    (decrypting inverts encrypting under the same key, nonce and associated
    data, reading inverts writing, and so on) and a concrete instance in the
    development satisfies it.

    ** What the theorems show

    - Admission ([SessionGates]): whatever frame arrives, an action reaches
      the router only when every gate passed; a reader device changes nothing
      but its own credential; a session whose credential was revoked has no
      effect at all; taking away a credential arms the disconnect.  [Registry]
      continues from there: after the sweep, no interleaving of registrations
      and departures lets the revoked credential keep an open session.
    - Channel ([E2eeSession], [E2eeHandshake], [HandshakeDriver]): both sides
      of a handshake agree on keys; sealed streams open to what was sent, in
      order, once; nonces never repeat; the byte strings that are signed are
      unambiguous; the store commits only after both proofs.
    - Devices ([DeviceStoreInvariant]): the persisted document stays loadable
      as long as versions have room (the last u64 wraps to a refused 0),
      revocation is final, a controller remains, an invitation burns after
      five wrong proofs and gives one credential.
    - Panes ([LeaseInvariant], [Delta], [SendBuffer], [SeqMatch], [History],
      [TopologyInvariant], [Target], [WatchSync], [Annotations]): the recorded
      terminal sizes are the real ones whatever fails, no [expect] fires,
      originals are restored; deltas rebuild the frame; the buffer is bounded
      and loses only superseded snapshots; the matcher terminates with sound
      blocks and folding a snapshot is a splice; generations and revisions
      detect every change of what they cover (of an interaction its id, not its
      selection), so that a stale target is refused; a watch refines
      one shared screen with one frame in flight; pane tokens follow watchers.
    - Attachments ([UploadsFinish], [UploadsSteps], [UploadsChunks],
      [UploadsRestart], [UploadFile], [UploadHandlers]): what is published is
      what was sent, byte for byte and at most once; limits and well-formedness
      hold through every operation and outcome; a refused chunk closes its
      session; a finished upload survives a restart while the index is within
      the size that is read back; references resolve exactly
      while live and scoped; sniffing does not depend on chunk boundaries.
    - Journal ([ActivityClaims]): after any fault-free history a crash at any
      point of an operation leaves either the old or the new journal; the durable journal refines the one in memory; it is
      bounded; ids are not reissued.
    - Notifications ([PushOwners], [PushDurable]): a removed device gets
      nothing, every send is allowed by the policy of the device it goes to,
      and pending notifications survive a restart.
    - Answers ([QuestionInput], [QuestionsClaims]): an answer is typed by one
      request, only while the pane still shows what is answered, never mixed
      with another answer, and presses what was chosen; a duplicate request
      always gets a result.
    - Leases ([PaneLease], Module [PaneLeaseClaims]): every open controller is
      held for its pane at the size it confirmed, none survives a shutdown; a
      granted size is the minimum of the leases; a refused lease costs nobody a
      lease; a sweep ends expired leases and replaces dead controllers.
    - Inventory ([Router], Modules [InventoryClaims] and [RouterClaims]): a
      client shows the committed panes, workspaces, status and capabilities
      however the forwarder skips states after its first wake; a session that ends leaves no watch
      of a pane in the annotation ledger; every action of the catalogue has a handler.
    - Feeds ([ConvoSubs]): the window of a subscriber ends with the transcript,
      as far as stamps tell the pages of a source apart.
    - Updates ([Release], [UpdateWorker], [UpdateManager]): a verified bundle is
      pinned to the byte and a built one verifies; an update is reported as
      installed only when everything from the listed digest to the health of
      the new relay was checked; a failed one can be retried; a scheduled one
      was offered and its job passes the worker; a running one is left alone
      and a killed one is settled by the next start.
    - Requests to Herdr ([Outcome], [Singleflight]): a receipt never claims
      less than was dispatched; callers of one key share one request, are never
      stranded, and get a result that is not older than their call.
    - Texts ([JsonText], [UploadBinary], [Civil], [Protocol], [WriteAudit],
      [PushTime]): round trips, canonical forms, size bounds, calendar
      correctness, and the audit row of a secret reveals its length only.

    ** Bounds and fuel

    [Delta.build_loop] and [matching_loop] get the number of current lines
    plus one, and each round consumes a line; [build_loop_spec] proves that
    building finishes in that budget.  [SessionActor.drain_loop] gets the length
    of the buffer, each round popping one message; the drain theorem says it
    empties the buffer.  [SeqMatch.block_fuel] is twice the first sequence plus
    one, a bound on the work list that [matching_blocks_correct] proves enough.
    [History.strip_loop] and [PaneRows.comparable_loop] get the length of what
    they shorten.  [Inflate.bit_fuel] is eight times the input plus one: every
    round of the decoder reads at least a bit.  [UploadZip.read_records] gets
    the length of the directory plus one and the ZIP64 scan the length of the
    extra field, as each record takes at least one byte; [UploadFile.brand_loop]
    gets the size of the box.  [UploadIndex.hex_loop] gets 32, the digits of a
    128-bit number.  [Civil.strip_zeros] gets 9, the number of fractional
    digits.  [JsonWire.parse_members] and [PushDurable.take_json], parts of
    executable instances, get the length of their input.  The retry loops (the
    device store, the 1000 quarantine names of [UploadIndex] and [PushState],
    the 32 temporary names of [ActivityStore]) are bounded by constants of the
    source.
    [Questions.drop_overflow] gets the size of the ledger, each round removing
    an entry.  [UpdateWorker.verify_health] consumes the list of replies; [None]
    means that it is still polling, and [update_run_returns] that it ends once a
    reply comes at the deadline.  [UpdateManager.de_object] and [atom_entries]
    get the length of their text plus one, as a level of nesting and an entry
    take at least one byte; [resolve_object] has the three rounds of the source.

    ** Not modelled

    The tokio pumps and the [select!] loops around the handlers, sockets and
    the axum routes (I/O and scheduling; the handlers run one at a time, as in
    the actor); writing, rotating and syncing the audit log and the
    credential file; zstd frame compression; re-encoding of inbound messages;
    the HTTP side of notifications (VAPID keys, record encryption);
    process groups, timeouts and command lines of the update worker; reading
    transcripts; spawning the tasks of the router, speech, the slash commands of actions/misc.rs
    and the screen parsers of classify/{parse,matchers,attention}.rs, which are
    parameters of the parts that use them;
    the shadow and fixture tools and the Android application.

    ** Plan

    In this order: the screen parsers of classify/parse.rs, which would
    replace the parameters of [Attention] and [Questions]; the audit log's rotation as a file-state machine;
    the persistence of the credential file with its crash points;
    [Inbound::encode] and its round trip with [Inbound.decode_map]; the session
    pumps as a step relation around [SessionActor.handle_frame]. *)

From Stdlib Require Export ZArith Lia.
From stdpp Require Export base numbers option list gmap strings pretty sorting.

#[global] Open Scope Z_scope.

(** ** Rust results

    [Result<A, E>] keeps both arms: error paths are values. *)

Inductive result (E A : Type) : Type :=
| Ok (a : A)
| Err (e : E).
Arguments Ok {E A} a.
Arguments Err {E A} e.

#[export] Instance result_ret E : MRet (result E) := fun A a => Ok a.
#[export] Instance result_bind E : MBind (result E) := fun A B f r =>
  match r with Ok a => f a | Err e => Err e end.
#[export] Instance result_fmap E : FMap (result E) := fun A B f r =>
  match r with Ok a => Ok (f a) | Err e => Err e end.

#[export] Instance result_eq_dec {E A} `{EqDecision E} `{EqDecision A} : EqDecision (result E A).
Proof. solve_decision. Defined.

Definition ok_or {E A} (o : option A) (e : E) : result E A :=
  match o with Some a => Ok a | None => Err e end.

Definition map_err {E F A} (f : E -> F) (r : result E A) : result F A :=
  match r with Ok a => Ok a | Err e => Err (f e) end.

Definition is_ok {E A} (r : result E A) : bool :=
  match r with Ok _ => true | Err _ => false end.

(** ** Machine integers *)

Definition u8_max : Z := 2 ^ 8 - 1.
Definition u64_max : Z := 2 ^ 64 - 1.
Definition i64_max : Z := 2 ^ 63 - 1.
Definition i64_min : Z := - 2 ^ 63.

Definition is_u8 (z : Z) : Prop := 0 <= z <= u8_max.
Definition is_u64 (z : Z) : Prop := 0 <= z <= u64_max.
Definition is_i64 (z : Z) : Prop := i64_min <= z <= i64_max.

(** [i64::checked_add]. *)
Definition checked_add_i64 (a b : Z) : option Z :=
  if decide (i64_min <= a + b <= i64_max) then Some (a + b) else None.

(** [as i64] of a 64-bit pattern: two's complement reading. *)
Definition to_signed64 (z : Z) : Z :=
  if decide (z <= i64_max) then z else z - 2 ^ 64.

(** ** Bytes and strings

    [Vec<u8>]/[&[u8]] are lists of integers in [0, 255]; a Rust [String] is
    its UTF-8 byte sequence, a Stdlib [string], so [String.length] is the
    byte length [str::len]. *)

Abbreviation bytes := (list Z).

Definition ascii_byte (c : Ascii.ascii) : Z := Z.of_N (Ascii.N_of_ascii c).

Fixpoint as_bytes (s : string) : bytes :=
  match s with
  | EmptyString => []
  | String c s' => ascii_byte c :: as_bytes s'
  end.

Definition byte_ascii (z : Z) : Ascii.ascii := Ascii.ascii_of_N (Z.to_N z).

(** The string with the given bytes (used where the source already knows
    the bytes are UTF-8). *)
Fixpoint string_of_bytes (b : bytes) : string :=
  match b with
  | [] => EmptyString
  | z :: b' => String (byte_ascii z) (string_of_bytes b')
  end.

(** [std::str::from_utf8]: the bytes must be well-formed UTF-8 (no overlong
    forms, no surrogates, nothing above U+10FFFF). *)
Definition in_range (lo hi z : Z) : bool := bool_decide (lo <= z <= hi).
Definition is_cont (z : Z) : bool := in_range 0x80 0xBF z.

Fixpoint utf8_valid (b : bytes) : bool :=
  match b with
  | [] => true
  | x :: r1 =>
      if in_range 0 0x7F x then utf8_valid r1
      else match r1 with
      | [] => false
      | y :: r2 =>
          if in_range 0xC2 0xDF x && is_cont y then utf8_valid r2
          else match r2 with
          | [] => false
          | z :: r3 =>
              if is_cont z &&
                 ((in_range 0xE0 0xE0 x && in_range 0xA0 0xBF y) ||
                  (in_range 0xE1 0xEC x && is_cont y) ||
                  (in_range 0xED 0xED x && in_range 0x80 0x9F y) ||
                  (in_range 0xEE 0xEF x && is_cont y))
              then utf8_valid r3
              else match r3 with
              | [] => false
              | w :: r4 =>
                  if is_cont z && is_cont w &&
                     ((in_range 0xF0 0xF0 x && in_range 0x90 0xBF y) ||
                      (in_range 0xF1 0xF3 x && is_cont y) ||
                      (in_range 0xF4 0xF4 x && in_range 0x80 0x8F y))
                  then utf8_valid r4 else false
              end
          end
      end
  end.

Definition from_utf8 (b : bytes) : option string :=
  if utf8_valid b then Some (string_of_bytes b) else None.

(** [n] big-endian bytes of [z] ([to_be_bytes]); the value of a big-endian
    byte string ([from_be_bytes]). *)
Fixpoint be_bytes (n : nat) (z : Z) : bytes :=
  match n with
  | O => []
  | S n' => be_bytes n' (z / 256) ++ [z mod 256]
  end.

Definition be_value (b : bytes) : Z := fold_left (fun acc x => acc * 256 + x) b 0.

(** Decimal rendering of an unsigned integer ([u64::to_string]). *)
Definition decimal (z : Z) : string := pretty (Z.to_N z).

(** [BTreeMap<String, V>] is a finite map; its iteration order (ascending by
    key bytes) is [btree_list]. *)
Definition key_le {A} (p q : string * A) : Prop := String.le p.1 q.1.

#[export] Instance key_le_dec {A} : RelDecision (@key_le A).
Proof. intros p q. unfold key_le, String.le. apply _. Defined.

Definition btree_list {A} (m : gmap string A) : list (string * A) :=
  merge_sort key_le (map_to_list m).

(** [BTreeMap::keys]. *)
Definition btree_keys {A} (m : gmap string A) : list string := (btree_list m).*1.

(** ** Generic lemmas *)

Lemma decimal_inj y z : 0 <= y -> 0 <= z -> decimal y = decimal z -> y = z.
Proof. intros Hy Hz E. apply (inj (R := (=)) (S := (=)) (pretty (A := N)) (Z.to_N y) (Z.to_N z)) in E. lia. Qed.

Lemma btree_list_perm {A} (m : gmap string A) : btree_list m ≡ₚ map_to_list m.
Proof. apply merge_sort_Permutation. Qed.

Lemma elem_of_btree_list {A} (m : gmap string A) k v : (k, v) ∈ btree_list m <-> m !! k = Some v.
Proof. rewrite btree_list_perm. apply elem_of_map_to_list. Qed.

Lemma elem_of_btree_keys {A} (m : gmap string A) k : k ∈ btree_keys m <-> is_Some (m !! k).
Proof.
  unfold btree_keys. rewrite list_elem_of_fmap. split.
  - intros ([k' v] & -> & H). apply elem_of_btree_list in H. eauto.
  - intros [v H]. exists (k, v). split; [done|]. by apply elem_of_btree_list.
Qed.

Lemma NoDup_btree_keys {A} (m : gmap string A) : NoDup (btree_keys m).
Proof. unfold btree_keys. rewrite btree_list_perm. apply NoDup_fst_map_to_list. Qed.

Lemma ok_or_Ok {E A} (o : option A) (e : E) a : ok_or o e = Ok a <-> o = Some a.
Proof. destruct o; simpl; split; intros; congruence. Qed.

Lemma ascii_byte_u8 c : is_u8 (ascii_byte c).
Proof.
  unfold is_u8, ascii_byte, u8_max.
  pose proof (Ascii.N_ascii_bounded c). lia.
Qed.

Lemma byte_ascii_byte c : byte_ascii (ascii_byte c) = c.
Proof. unfold byte_ascii, ascii_byte. by rewrite N2Z.id, Ascii.ascii_N_embedding. Qed.

Lemma ascii_byte_ascii z : is_u8 z -> ascii_byte (byte_ascii z) = z.
Proof.
  unfold is_u8, u8_max, ascii_byte, byte_ascii. intros Hz.
  rewrite Ascii.N_ascii_embedding by lia. lia.
Qed.

Lemma as_bytes_u8 s : Forall is_u8 (as_bytes s).
Proof. induction s; simpl; constructor; auto using ascii_byte_u8. Qed.

Lemma string_of_as_bytes s : string_of_bytes (as_bytes s) = s.
Proof. induction s as [|c s IH]; simpl; [done|]. by rewrite IH, byte_ascii_byte. Qed.

Lemma as_bytes_of_bytes b : Forall is_u8 b -> as_bytes (string_of_bytes b) = b.
Proof. induction 1; simpl; [done|]. by rewrite IHForall, ascii_byte_ascii. Qed.

Lemma as_bytes_inj s t : as_bytes s = as_bytes t -> s = t.
Proof. intros H. rewrite <- (string_of_as_bytes s), <- (string_of_as_bytes t). congruence. Qed.

Lemma string_app_cons c s t : String c s +:+ t = String c (s +:+ t).
Proof. done. Qed.

Lemma as_bytes_app s t : as_bytes (s +:+ t) = as_bytes s ++ as_bytes t.
Proof. induction s as [|c s IH]; [done|]. rewrite string_app_cons. simpl. by rewrite IH. Qed.

Lemma as_bytes_length s : length (as_bytes s) = String.length s.
Proof. induction s; simpl; congruence. Qed.

Lemma string_app_nil_r s : s +:+ "" = s.
Proof. induction s as [|c s IH]; [done|]. by rewrite string_app_cons, IH. Qed.

Lemma string_app_assoc s t u : s +:+ (t +:+ u) = (s +:+ t) +:+ u.
Proof. induction s as [|c s IH]; [done|]. by rewrite !string_app_cons, IH. Qed.

Lemma string_app_inj_l s t u : s +:+ t = s +:+ u -> t = u.
Proof. induction s as [|c s IH]; [done|]. rewrite !string_app_cons. intros [= E]. by apply IH. Qed.

Lemma string_length_app s t : String.length (s +:+ t) = (String.length s + String.length t)%nat.
Proof. induction s as [|c s IH]; [done|]. rewrite string_app_cons. simpl. by rewrite IH. Qed.

Lemma utf8_valid_ascii b : Forall (fun z => 0 <= z <= 0x7F) b -> utf8_valid b = true.
Proof.
  induction 1 as [|z b Hz _ IH]; simpl; [done|].
  unfold in_range. by rewrite bool_decide_eq_true_2.
Qed.

Lemma from_utf8_ascii b : Forall (fun z => 0 <= z <= 0x7F) b -> from_utf8 b = Some (string_of_bytes b).
Proof. intros Hb. unfold from_utf8. by rewrite utf8_valid_ascii. Qed.

Lemma from_utf8_Some b s : Forall is_u8 b -> from_utf8 b = Some s -> as_bytes s = b.
Proof.
  intros Hb. unfold from_utf8. destruct (utf8_valid b); [|done]. intros [= <-]. by apply as_bytes_of_bytes.
Qed.

Lemma be_bytes_length n z : length (be_bytes n z) = n.
Proof.
  revert z. induction n as [|n IH]; intros z; simpl; [done|].
  rewrite length_app, IH. simpl. lia.
Qed.

Lemma be_bytes_u8 n z : Forall is_u8 (be_bytes n z).
Proof.
  revert z. induction n as [|n IH]; intros z; simpl; [constructor|].
  apply Forall_app. split; [apply IH|].
  constructor; [|constructor].
  unfold is_u8, u8_max. pose proof (Z.mod_pos_bound z 256). lia.
Qed.

Lemma be_value_app b x : be_value (b ++ [x]) = be_value b * 256 + x.
Proof. unfold be_value. by rewrite fold_left_app. Qed.

Lemma be_value_bytes n z : be_value (be_bytes n z) = z mod 256 ^ Z.of_nat n.
Proof.
  revert z. induction n as [|n IH]; intros z.
  - simpl. by rewrite Z.mod_1_r.
  - cbn [be_bytes]. rewrite be_value_app, IH.
    rewrite Nat2Z.inj_succ, Z.pow_succ_r by lia.
    rewrite Z.rem_mul_r by lia. lia.
Qed.

Lemma be_value_u64 z : is_u64 z -> be_value (be_bytes 8 z) = z.
Proof.
  unfold is_u64, u64_max. intros Hz. rewrite be_value_bytes.
  change (256 ^ Z.of_nat 8) with (2 ^ 64). rewrite Z.mod_small; lia.
Qed.

Lemma be_value_bound b : Forall is_u8 b -> 0 <= be_value b < 256 ^ Z.of_nat (length b).
Proof.
  induction b as [|x b IH] using rev_ind; intros Hb; [simpl; unfold be_value; simpl; lia|].
  apply Forall_app in Hb as [Hb Hx]. inversion_clear Hx as [|? ? Hx' _].
  unfold is_u8, u8_max in Hx'. specialize (IH Hb).
  rewrite be_value_app, length_app, Nat.add_comm. simpl length.
  rewrite Nat2Z.inj_succ, Z.pow_succ_r by lia. lia.
Qed.

Lemma be_bytes_inj n y z :
  0 <= y < 256 ^ Z.of_nat n -> 0 <= z < 256 ^ Z.of_nat n ->
  be_bytes n y = be_bytes n z -> y = z.
Proof.
  intros Hy Hz E. apply (f_equal be_value) in E.
  rewrite !be_value_bytes, !Z.mod_small in E; lia.
Qed.

Lemma be_value_inj a b :
  length a = length b -> Forall is_u8 a -> Forall is_u8 b -> be_value a = be_value b -> a = b.
Proof.
  revert b. induction a as [|x a IH] using rev_ind; intros b Hl Ha Hb E.
  - symmetry in Hl. by apply nil_length_inv in Hl as ->.
  - destruct b as [|y b _] using rev_ind; [by rewrite length_app, Nat.add_comm in Hl|].
    rewrite !length_app in Hl. simpl in Hl. rewrite !be_value_app in E.
    apply Forall_app in Ha as [Ha Hx]. apply Forall_app in Hb as [Hb Hy].
    inversion_clear Hx as [|? ? Hx' _]. inversion_clear Hy as [|? ? Hy' _].
    unfold is_u8, u8_max in Hx', Hy'. assert (be_value a = be_value b /\ x = y) as [Hv ->] by lia.
    f_equal. apply IH; [lia|done..].
Qed.

Lemma to_signed64_mod z : is_i64 z -> to_signed64 (z mod 2 ^ 64) = z.
Proof.
  unfold is_i64, to_signed64, i64_min, i64_max. intros Hz.
  destruct (Z_lt_dec z 0) as [Hneg|Hpos].
  - assert (z mod 2 ^ 64 = z + 2 ^ 64) as ->.
    { rewrite <- (Z_mod_plus_full z 1 (2 ^ 64)), Z.mul_1_l. apply Z.mod_small. lia. }
    case_decide; lia.
  - rewrite Z.mod_small by lia. case_decide; lia.
Qed.

Lemma take_drop_app {A} (l k : list A) n :
  length l = n -> take n (l ++ k) = l /\ drop n (l ++ k) = k.
Proof. intros <-. by rewrite take_app_length, drop_app_length. Qed.

Lemma app_eq_length_inv {A} (a b c d : list A) :
  length a = length c -> a ++ b = c ++ d -> a = c /\ b = d.
Proof. intros Hl E. by apply app_inj_1. Qed.

Lemma app_eq_length_inv_r {A} (a b c d : list A) :
  length b = length d -> a ++ b = c ++ d -> a = c /\ b = d.
Proof. intros Hl E. by apply app_inj_2. Qed.

Lemma list_filter_ext_in {A} (P Q : A -> Prop) `{!forall x, Decision (P x), !forall x, Decision (Q x)} (l : list A) :
  (forall x, x ∈ l -> P x <-> Q x) -> filter P l = filter Q l.
Proof.
  induction l as [|x l IH]; intros Hl; [done|]. rewrite !filter_cons.
  rewrite (decide_ext (P x) (Q x)) by (apply Hl; left). rewrite IH by (intros; apply Hl; by right). done.
Qed.

(** ** Automation *)

Create HintDb lerdr.
#[export] Hint Resolve ascii_byte_u8 as_bytes_u8 be_bytes_u8 : lerdr.
#[export] Hint Rewrite @be_bytes_length as_bytes_length as_bytes_app be_value_bytes : lerdr.

(** A property of each element of a literal list, one goal per element. *)
Ltac each_of := repeat (apply Forall_cons; split); try apply Forall_nil_2.

(** A literal list of bytes. *)
Ltac u8s := each_of; unfold is_u8, u8_max; lia.
