(* ===== verification/Utf8.v ===== *)
(** * UTF-8 — a Rust [String] as the list of its [char]s and back

    [str::chars] and [String::push], with the round trips between the byte and
    the scalar-value view of a string. *)

From S2P Require Import Prelude.

Module Utf8.

(** A Unicode scalar value. *)
Definition is_scalar (c : Z) : Prop := 0 <= c <= 0x10FFFF /\ ~ (0xD800 <= c <= 0xDFFF).

#[export] Instance is_scalar_dec c : Decision (is_scalar c).
Proof. unfold is_scalar. apply _. Defined.

(** [char::encode_utf8]. *)
Definition encode_char (c : Z) : bytes :=
  if decide (c < 0x80) then [c]
  else if decide (c < 0x800) then [0xC0 + c / 64; 0x80 + c mod 64]
  else if decide (c < 0x10000) then [0xE0 + c / 4096; 0x80 + c / 64 mod 64; 0x80 + c mod 64]
  else [0xF0 + c / 262144; 0x80 + c / 4096 mod 64; 0x80 + c / 64 mod 64; 0x80 + c mod 64].

Definition utf8_encode (cs : list Z) : bytes := cs ≫= encode_char.

(** [str::chars] on well-formed bytes. *)
Fixpoint utf8_chars (b : bytes) : list Z :=
  match b with
  | [] => []
  | x :: r1 =>
      if in_range 0 0x7F x then x :: utf8_chars r1
      else match r1 with
      | [] => []
      | y :: r2 =>
          if in_range 0xC2 0xDF x && is_cont y then ((x - 0xC0) * 64 + (y - 0x80)) :: utf8_chars r2
          else match r2 with
          | [] => []
          | z :: r3 =>
              if is_cont z &&
                 ((in_range 0xE0 0xE0 x && in_range 0xA0 0xBF y) ||
                  (in_range 0xE1 0xEC x && is_cont y) ||
                  (in_range 0xED 0xED x && in_range 0x80 0x9F y) ||
                  (in_range 0xEE 0xEF x && is_cont y))
              then ((x - 0xE0) * 4096 + (y - 0x80) * 64 + (z - 0x80)) :: utf8_chars r3
              else match r3 with
              | [] => []
              | w :: r4 =>
                  if is_cont z && is_cont w &&
                     ((in_range 0xF0 0xF0 x && in_range 0x90 0xBF y) ||
                      (in_range 0xF1 0xF3 x && is_cont y) ||
                      (in_range 0xF4 0xF4 x && in_range 0x80 0x8F y))
                  then ((x - 0xF0) * 262144 + (y - 0x80) * 4096 + (z - 0x80) * 64 + (w - 0x80)) :: utf8_chars r4
                  else []
              end
          end
      end
  end.

Definition chars (s : string) : list Z := utf8_chars (as_bytes s).

(** Every Rust string is well-formed. *)
Definition utf8_string (s : string) : Prop := utf8_valid (as_bytes s) = true.

#[export] Instance utf8_string_dec s : Decision (utf8_string s).
Proof. unfold utf8_string. apply _. Defined.

(** [char::is_whitespace] (Unicode White_Space). *)
Definition is_whitespace (c : Z) : bool :=
  in_range 9 13 c || bool_decide (c = 32) || bool_decide (c = 0x85) || bool_decide (c = 0xA0) ||
  bool_decide (c = 0x1680) || in_range 0x2000 0x200A c || bool_decide (c = 0x2028) || bool_decide (c = 0x2029) ||
  bool_decide (c = 0x202F) || bool_decide (c = 0x205F) || bool_decide (c = 0x3000).

Fixpoint drop_while (p : Z -> bool) (l : list Z) : list Z :=
  match l with
  | c :: r => if p c then drop_while p r else l
  | [] => []
  end.

(** [str::trim]. *)
Definition trim_chars (cs : list Z) : list Z :=
  reverse (drop_while is_whitespace (reverse (drop_while is_whitespace cs))).
Definition trim (s : string) : string := string_of_bytes (utf8_encode (trim_chars (chars s))).

(** [str::is_char_boundary]: an end of the text, or a byte that does not
    continue a character. *)
Definition is_char_boundary (b : bytes) (i : nat) : bool :=
  match b !! i with
  | None => bool_decide (i = length b)
  | Some z => bool_decide (i = 0%nat) || negb (is_cont z)
  end.

Lemma in_range_true lo hi z : lo <= z <= hi -> in_range lo hi z = true.
Proof. unfold in_range. apply bool_decide_eq_true_2. Qed.

Lemma in_range_false lo hi z : ~ (lo <= z <= hi) -> in_range lo hi z = false.
Proof. unfold in_range. apply bool_decide_eq_false_2. Qed.

Lemma in_range_iff lo hi z : in_range lo hi z = true <-> lo <= z <= hi.
Proof. unfold in_range. apply bool_decide_eq_true. Qed.

(** Rewrite the range tests that arithmetic decides. *)
Ltac ranges :=
  unfold is_cont in *;
  repeat match goal with
  | |- context [in_range ?a ?b ?c] =>
      first [rewrite (in_range_true a b c) by lia | rewrite (in_range_false a b c) by lia]
  end; cbn [andb orb].

Lemma div_mod_64 c : 0 <= c -> c = c / 64 * 64 + c mod 64 /\ 0 <= c mod 64 < 64 /\ 0 <= c / 64.
Proof. intros. Z.to_euclidean_division_equations; lia. Qed.

(** The base-64 digits of a scalar value. *)
Lemma digits c : 0 <= c ->
  exists d0 d1 d2 d3, c = d3 * 262144 + d2 * 4096 + d1 * 64 + d0 /\
    0 <= d0 < 64 /\ 0 <= d1 < 64 /\ 0 <= d2 < 64 /\ 0 <= d3 /\
    c mod 64 = d0 /\ c / 64 = d3 * 4096 + d2 * 64 + d1 /\ c / 64 mod 64 = d1 /\
    c / 4096 = d3 * 64 + d2 /\ c / 4096 mod 64 = d2 /\ c / 262144 = d3.
Proof.
  intros Hc. exists (c mod 64), (c / 64 mod 64), (c / 4096 mod 64), (c / 262144).
  replace (c / 4096) with (c / 64 / 64) by (rewrite Z.div_div by lia; done).
  replace (c / 262144) with (c / 64 / 64 / 64) by (rewrite !Z.div_div by lia; done).
  destruct (div_mod_64 c) as (H1 & H2 & H3); [done|].
  destruct (div_mod_64 (c / 64)) as (H4 & H5 & H6); [done|].
  destruct (div_mod_64 (c / 64 / 64)) as (H7 & H8 & H9); [done|].
  split_and!; try lia.
Qed.

Lemma chars_encode_char c r : is_scalar c ->
  utf8_chars (encode_char c ++ r) = c :: utf8_chars r /\ utf8_valid (encode_char c ++ r) = utf8_valid r.
Proof.
  intros [Hc Hs]. destruct (digits c) as (d0 & d1 & d2 & d3 & Hval & B0 & B1 & B2 & B3 & E0 & E1 & E2 & E3 & E4 & E5); [lia|].
  unfold encode_char. rewrite E0, E5, E4, E3, E2, E1. clear E0 E1 E2 E3 E4 E5.
  repeat case_decide; cbn [app utf8_chars utf8_valid].
  - ranges. done.
  - assert (d3 = 0 /\ d2 = 0) as [-> ->] by lia. ranges. split; [f_equal; lia|done].
  - assert (d3 = 0) as -> by lia. unfold is_cont.
    rewrite (in_range_false 0 127 (224 + (0 * 64 + d2))), (in_range_false 0xC2 0xDF (224 + (0 * 64 + d2))), (in_range_true 0x80 0xBF (0x80 + d0)),
      (in_range_true 0x80 0xBF (0x80 + d1)) by lia. cbn [andb]. rewrite !andb_true_r.
    assert (Htest : in_range 224 224 (224 + (0 * 64 + d2)) && in_range 160 191 (128 + d1)
      || in_range 225 236 (224 + (0 * 64 + d2))
      || in_range 237 237 (224 + (0 * 64 + d2)) && in_range 128 159 (128 + d1)
      || in_range 238 239 (224 + (0 * 64 + d2)) = true).
    { rewrite !orb_true_iff, !andb_true_iff, !in_range_iff. lia. }
    rewrite Htest. split; [f_equal; lia|done].
  - unfold is_cont.
    rewrite (in_range_false 0 127 (240 + d3)), (in_range_false 0xC2 0xDF (240 + d3)), (in_range_false 224 224 (240 + d3)), (in_range_false 225 236 (240 + d3)),
      (in_range_false 237 237 (240 + d3)), (in_range_false 238 239 (240 + d3)), (in_range_true 0x80 0xBF (0x80 + d0)),
      (in_range_true 0x80 0xBF (0x80 + d1)), (in_range_true 0x80 0xBF (0x80 + d2)) by lia.
    cbn [andb orb]. rewrite !andb_true_r.
    assert (Htest : in_range 240 240 (240 + d3) && in_range 144 191 (128 + d2)
      || in_range 241 243 (240 + d3)
      || in_range 244 244 (240 + d3) && in_range 128 143 (128 + d2) = true).
    { rewrite !orb_true_iff, !andb_true_iff, !in_range_iff. lia. }
    rewrite Htest. split; [f_equal; lia|done].
Qed.

Lemma chars_encode cs : Forall is_scalar cs ->
  utf8_chars (utf8_encode cs) = cs /\ utf8_valid (utf8_encode cs) = true.
Proof.
  induction 1 as [|c cs Hc _ [IH1 IH2]]; [done|].
  unfold utf8_encode in *. rewrite bind_cons.
  destruct (chars_encode_char c (cs ≫= encode_char) Hc) as [-> ->]. by rewrite IH1.
Qed.

(** Encoding the characters of a well-formed string gives its bytes back, and
    those characters are scalar values. *)
Lemma encode_chars_aux n b : (length b <= n)%nat -> utf8_valid b = true ->
  utf8_encode (utf8_chars b) = b /\ Forall is_scalar (utf8_chars b).
Proof.
  revert b. induction n as [|n IH]; intros b Hlen Hv; [by destruct b; [|simpl in Hlen; lia]|].
  assert (Hstep : forall pre c rest, b = pre ++ rest -> pre <> [] -> is_scalar c -> encode_char c = pre ->
    utf8_valid rest = true -> utf8_encode (c :: utf8_chars rest) = b /\ Forall is_scalar (c :: utf8_chars rest)).
  { intros pre c rest -> Hpre Hc Henc Hrest. rewrite length_app in Hlen. destruct pre as [|p0 pre]; [done|].
    destruct (IH rest) as [IH1 IH2]; [simpl in Hlen; lia|done|]. unfold utf8_encode in *.
    rewrite bind_cons, IH1, Henc. split; [done|]. by constructor. }
  destruct b as [|x r1]; [done|]. cbn [utf8_valid utf8_chars] in *.
  destruct (in_range 0 127 x) eqn:E1.
  { apply in_range_iff in E1. apply (Hstep [x]); try done; [split; lia|]. unfold encode_char. by rewrite decide_True by lia. }
  unfold in_range in E1. apply bool_decide_eq_false in E1.
  destruct r1 as [|y r2]; [done|].
  destruct (in_range 0xC2 0xDF x && is_cont y) eqn:E2.
  { unfold is_cont in E2. rewrite andb_true_iff, !in_range_iff in E2.
    apply (Hstep [x; y]); try done; [split; lia|]. unfold encode_char.
    rewrite decide_False, decide_True by lia.
    replace (((x - 192) * 64 + (y - 128)) / 64) with (x - 192) by (Z.to_euclidean_division_equations; lia).
    replace (((x - 192) * 64 + (y - 128)) mod 64) with (y - 128) by (Z.to_euclidean_division_equations; lia).
    f_equal; [lia|f_equal; lia]. }
  destruct r2 as [|z r3]; [done|].
  destruct (is_cont z && _) eqn:E3.
  { clear E2. unfold is_cont in E3. rewrite andb_true_iff, !orb_true_iff, !andb_true_iff, !in_range_iff in E3.
    assert (Hd : 0 <= x - 224 < 16 /\ 0 <= y - 128 < 64 /\ 0 <= z - 128 < 64) by lia.
    set (c := (x - 224) * 4096 + (y - 128) * 64 + (z - 128)).
    assert (Hc : 0x800 <= c < 0x10000 /\ is_scalar c) by (unfold is_scalar, c; lia).
    apply (Hstep [x; y; z]); try done; [apply Hc|]. unfold encode_char. rewrite !decide_False, decide_True by lia.
    replace (c / 4096) with (x - 224) by (unfold c; Z.to_euclidean_division_equations; lia).
    replace (c / 64) with ((x - 224) * 64 + (y - 128)) by (unfold c; Z.to_euclidean_division_equations; lia).
    replace (((x - 224) * 64 + (y - 128)) mod 64) with (y - 128) by (Z.to_euclidean_division_equations; lia).
    replace (c mod 64) with (z - 128) by (unfold c; Z.to_euclidean_division_equations; lia).
    f_equal; [lia|f_equal; [lia|f_equal; lia]]. }
  destruct r3 as [|w r4]; [done|]. clear E2 E3.
  destruct (is_cont z && is_cont w && _) eqn:E4; [|done].
  unfold is_cont in E4. rewrite !andb_true_iff, !orb_true_iff, !andb_true_iff, !in_range_iff in E4.
  assert (Hd : 0 <= x - 240 <= 4 /\ 0 <= y - 128 < 64 /\ 0 <= z - 128 < 64 /\ 0 <= w - 128 < 64) by lia.
  set (c := (x - 240) * 262144 + (y - 128) * 4096 + (z - 128) * 64 + (w - 128)).
  assert (Hc : 0x10000 <= c /\ is_scalar c) by (unfold is_scalar, c; lia).
  apply (Hstep [x; y; z; w]); try done; [apply Hc|]. unfold encode_char. rewrite !decide_False by lia.
  replace (c / 262144) with (x - 240) by (unfold c; Z.to_euclidean_division_equations; lia).
  replace (c / 4096) with ((x - 240) * 64 + (y - 128)) by (unfold c; Z.to_euclidean_division_equations; lia).
  replace (((x - 240) * 64 + (y - 128)) mod 64) with (y - 128) by (Z.to_euclidean_division_equations; lia).
  replace (c / 64) with ((x - 240) * 4096 + (y - 128) * 64 + (z - 128)) by (unfold c; Z.to_euclidean_division_equations; lia).
  replace (((x - 240) * 4096 + (y - 128) * 64 + (z - 128)) mod 64) with (z - 128) by (Z.to_euclidean_division_equations; lia).
  replace (c mod 64) with (w - 128) by (unfold c; Z.to_euclidean_division_equations; lia).
  f_equal; [lia|f_equal; [lia|f_equal; [lia|f_equal; lia]]].
Qed.

Lemma encode_chars s : utf8_string s -> utf8_encode (chars s) = as_bytes s.
Proof. intros Hs. by apply (encode_chars_aux (length (as_bytes s))). Qed.

Lemma chars_scalar s : utf8_string s -> Forall is_scalar (chars s).
Proof. intros Hs. by apply (encode_chars_aux (length (as_bytes s))). Qed.

Lemma utf8_encode_app a b : utf8_encode (a ++ b) = utf8_encode a ++ utf8_encode b.
Proof. apply bind_app. Qed.

Lemma utf8_encode_ascii cs : Forall (fun c => 0 <= c <= 0x7F) cs -> utf8_encode cs = cs.
Proof.
  induction 1 as [|c cs Hc _ IH]; [done|]. unfold utf8_encode in *. rewrite bind_cons, IH. unfold encode_char.
  by rewrite decide_True by lia.
Qed.

Lemma chars_ascii s : Forall (fun c => 0 <= c <= 0x7F) (as_bytes s) -> chars s = as_bytes s.
Proof.
  unfold chars. induction 1 as [|c cs Hc _ IH]; [done|]. cbn [utf8_chars]. rewrite in_range_true by lia. by rewrite IH.
Qed.

(** ** Cutting at a character boundary *)

Lemma encode_char_tail c i z : is_scalar c -> (0 < i)%nat -> encode_char c !! i = Some z -> is_cont z = true.
Proof.
  intros [Hc _] Hi. destruct (digits c ltac:(lia)) as (? & ? & ?). unfold is_cont, encode_char.
  repeat case_decide; destruct i as [|[|[|[|i]]]]; intros [= <-]; try lia; apply in_range_true;
    Z.to_euclidean_division_equations; lia.
Qed.

Lemma take_boundary cs n :
  Forall is_scalar cs -> is_char_boundary (utf8_encode cs) n = true ->
  exists k, take n (utf8_encode cs) = utf8_encode (take k cs).
Proof.
  intros Hcs. revert n. induction Hcs as [|c cs Hc _ IH]; intros n Hb; [exists 0%nat; unfold utf8_encode; cbn; by rewrite take_nil|].
  unfold utf8_encode in *. rewrite bind_cons in *. fold (utf8_encode cs) in *.
  destruct (decide (n = 0%nat)) as [->|Hn]; [by exists 0%nat|].
  destruct (decide (n < length (encode_char c))%nat) as [Hlt|Hge].
  - unfold is_char_boundary in Hb. rewrite lookup_app_l in Hb by done.
    destruct (lookup_lt_is_Some_2 _ _ Hlt) as [z Hz]. rewrite Hz, (encode_char_tail c n z) in Hb by (done || lia).
    rewrite bool_decide_eq_false_2 in Hb by done. done.
  - destruct (IH (n - length (encode_char c))%nat) as [k Hk].
    + unfold is_char_boundary in *. rewrite lookup_app_r in Hb by lia. rewrite length_app in Hb.
      destruct (utf8_encode cs !! (n - length (encode_char c))%nat).
      * rewrite bool_decide_eq_false_2 in Hb by done. by rewrite orb_false_l in Hb; rewrite Hb, orb_true_r.
      * apply bool_decide_eq_true in Hb. apply bool_decide_eq_true. lia.
    + exists (S k). rewrite take_app. cbn [take]. rewrite bind_cons. rewrite take_ge by lia. by rewrite Hk.
Qed.

Lemma utf8_take_boundary b n :
  utf8_valid b = true -> is_char_boundary b n = true -> utf8_valid (take n b) = true.
Proof.
  intros Hv Hb. destruct (encode_chars_aux (length b) b ltac:(done) Hv) as [He Hs].
  rewrite <- He in Hb |- *. destruct (take_boundary _ n Hs Hb) as [k ->]. apply chars_encode. by apply Forall_take.
Qed.

End Utf8.
