(* ===== verification/Delta.v ===== *)
(** * Pane delta codec — [lerdr-core/src/delta.rs]

    [build] compares two pane frames line by line and emits copy/literal
    segments; [apply] splices segments onto the previous frame; [efficient] is
    the sender's gate.  Indexing and slicing are partial ([None] is the Rust
    panic), so the theorems also say that no index is ever out of range. *)

From S2P Require Import Prelude.

Module Delta.

Definition MINIMUM_COPY_LINES : nat := 3.
Definition MAX_CANDIDATES : nat := 64.
Definition SEGMENT_OVERHEAD_BYTES : nat := 64.

Record Segment := mkSegment {
  copy_start : Z;
  copy_lines : Z;
  text : string;
}.

Definition default_segment : Segment := mkSegment 0 0 "".

#[export] Instance Segment_eq_dec : EqDecision Segment.
Proof. solve_decision. Defined.

Definition newline : Ascii.ascii := Ascii.ascii_of_nat 10.

(** [str::split_inclusive('\n')]. *)
Fixpoint split_inclusive (s : string) : list string :=
  match s with
  | EmptyString => []
  | String c s' =>
      if decide (c = newline) then String c "" :: split_inclusive s'
      else match split_inclusive s' with
           | [] => [String c ""]
           | l :: ls => String c l :: ls
           end
  end.

(** [str::ends_with('\n')]. *)
Fixpoint ends_with_newline (s : string) : bool :=
  match s with
  | EmptyString => false
  | String c EmptyString => bool_decide (c = newline)
  | String _ s' => ends_with_newline s'
  end.

Definition split_after (s : string) : list string :=
  let parts := split_inclusive s in
  if bool_decide (parts = []) || ends_with_newline s then parts ++ [""%string] else parts.

(** [<[&str]>::concat]. *)
Definition concat (l : list string) : string := foldr String.append "" l.

(** [&l[a..b]]: panics unless [a <= b <= len]. *)
Definition slice {A} (l : list A) (a b : nat) : option (list A) :=
  if decide (a <= b <= length l)%nat then Some (take (b - a) (drop a l)) else None.

Abbreviation LineKey := (string * string * string)%type.

Definition key_at (lines : list string) (index : nat) : option LineKey :=
  a ← lines !! index; b ← lines !! S index; c ← lines !! S (S index); Some (a, b, c).

(** The [while] loop of [matching_lines]; the fuel bounds [matched] by the
    length of [current]. *)
Fixpoint matching_loop (fuel : nat) (previous current : list string)
    (previous_index current_index matched : nat) : nat :=
  match fuel with
  | O => matched
  | S fuel' =>
      match previous !! (previous_index + matched)%nat, current !! (current_index + matched)%nat with
      | Some p, Some c =>
          if decide (p = c)
          then matching_loop fuel' previous current previous_index current_index (S matched)
          else matched
      | _, _ => matched
      end
  end.

Definition matching_lines (previous current : list string) (previous_index current_index : nat) : nat :=
  matching_loop (S (length current)) previous current previous_index current_index 0.

Definition add_candidate (matches : gmap LineKey (list nat)) (key : LineKey) (index : nat)
    : gmap LineKey (list nat) :=
  let candidates := default [] (matches !! key) in
  if decide (length candidates < MAX_CANDIDATES)%nat
  then <[key := candidates ++ [index]]> matches
  else <[key := candidates]> matches.

(** The anchor-indexing [for] loop over [0..len-2]. *)
Fixpoint index_anchors (lines : list string) (indices : list nat)
    (matches : gmap LineKey (list nat)) : option (gmap LineKey (list nat)) :=
  match indices with
  | [] => Some matches
  | i :: rest => key ← key_at lines i; index_anchors lines rest (add_candidate matches key i)
  end.

(** One round of the candidate loop: strict [>] keeps the earliest. *)
Definition better (previous current : list string) (current_index : nat)
    (best : nat * nat) (previous_index : nat) : nat * nat :=
  let matched := matching_lines previous current previous_index current_index in
  if decide (best.2 < matched)%nat then (previous_index, matched) else best.

Definition flush_literal (segments : list Segment) (current_lines : list string)
    (literal_start end_ : nat) : option (list Segment) :=
  if decide (end_ <= literal_start)%nat then Some segments
  else part ← slice current_lines literal_start end_;
       Some (segments ++ [mkSegment 0 0 (concat part)]).

(** The greedy [while] loop; [None] is a panic, running out of fuel is
    excluded by [build_loop_fuel]. *)
Fixpoint build_loop (fuel : nat) (matches : gmap LineKey (list nat))
    (previous current : list string) (segments : list Segment)
    (literal_start current_index : nat) : option (list Segment * nat) :=
  match fuel with
  | O => None
  | S fuel' =>
      if decide (length current <= current_index)%nat then Some (segments, literal_start)
      else if decide (length current < current_index + MINIMUM_COPY_LINES)%nat
      then Some (segments, literal_start)
      else
        key ← key_at current current_index;
        let '(best_start, best_lines) :=
          match matches !! key with
          | Some candidates => foldl (better previous current current_index) (0%nat, 0%nat) candidates
          | None => (0%nat, 0%nat)
          end in
        if decide (best_lines < MINIMUM_COPY_LINES)%nat
        then build_loop fuel' matches previous current segments literal_start (S current_index)
        else
          segments' ← flush_literal segments current literal_start current_index;
          let segments'' := segments' ++ [mkSegment (Z.of_nat best_start) (Z.of_nat best_lines) ""] in
          let next := (current_index + best_lines)%nat in
          build_loop fuel' matches previous current segments'' next next
  end.

Definition build (previous current : string) : option (list Segment) :=
  let previous_lines := split_after previous in
  let current_lines := split_after current in
  matches ← index_anchors previous_lines
              (seq 0 (length previous_lines - (MINIMUM_COPY_LINES - 1))) ∅;
  '(segments, literal_start) ←
    build_loop (S (length current_lines)) matches previous_lines current_lines [] 0 0;
  flush_literal segments current_lines literal_start (length current_lines).

Definition efficient (segments : list Segment) (current : string) : bool :=
  let literal_bytes := sum_list_with (fun s => String.length (text s)) segments in
  bool_decide (literal_bytes + length segments * SEGMENT_OVERHEAD_BYTES
               < (String.length current * 3) / 4)%nat.

Fixpoint apply_loop (lines : list string) (output : string) (segments : list Segment) : option string :=
  match segments with
  | [] => Some output
  | segment :: rest =>
      if decide (0 < copy_lines segment) then
        end_ ← checked_add_i64 (copy_start segment) (copy_lines segment);
        if decide (copy_start segment < 0 \/ end_ < copy_start segment \/ Z.of_nat (length lines) < end_)
        then None
        else
          copied ← slice lines (Z.to_nat (copy_start segment)) (Z.to_nat end_);
          apply_loop lines (output +:+ concat copied) rest
      else apply_loop lines (output +:+ text segment) rest
  end.

Definition apply (previous : string) (segments : list Segment) : option string :=
  apply_loop (split_after previous) "" segments.

(** ** Splitting *)

Lemma concat_app l k : concat (l ++ k) = concat l +:+ concat k.
Proof.
  induction l as [|s l IH]; simpl; [done|]. by rewrite IH, string_app_assoc.
Qed.

Lemma split_inclusive_concat s : concat (split_inclusive s) = s.
Proof.
  induction s as [|c s IH]; [done|]. cbn [split_inclusive].
  case_decide as Hc.
  - cbn [concat foldr]. change (foldr String.append "" ?l) with (concat l).
    by rewrite IH.
  - destruct (split_inclusive s) as [|l ls]; cbn [concat foldr] in *.
    + rewrite <- IH. done.
    + rewrite string_app_cons. f_equal. exact IH.
Qed.

(** The phantom tail line carries no text: splitting loses nothing. *)
Lemma split_after_concat s : concat (split_after s) = s.
Proof.
  unfold split_after. case_match; [|apply split_inclusive_concat].
  rewrite concat_app, split_inclusive_concat. cbn. apply string_app_nil_r.
Qed.

Lemma split_after_nonempty s : (1 <= length (split_after s))%nat.
Proof.
  unfold split_after. case_match eqn:E.
  - rewrite length_app. simpl. lia.
  - apply orb_false_iff in E as [E _]. apply bool_decide_eq_false in E.
    destruct (split_inclusive s); [done|simpl; lia].
Qed.

(** ** Slicing *)

Lemma slice_Some {A} (l : list A) a b :
  (a <= b <= length l)%nat -> slice l a b = Some (take (b - a) (drop a l)).
Proof. intros H. unfold slice. by rewrite decide_True. Qed.

Lemma slice_is_Some {A} (l : list A) a b : is_Some (slice l a b) <-> (a <= b <= length l)%nat.
Proof. unfold slice. case_decide; split; intros H'; [done|eauto|by destruct H'|done]. Qed.

Lemma concat_take_slice (l : list string) a b :
  (a <= b <= length l)%nat ->
  concat (take a l) +:+ concat (take (b - a) (drop a l)) = concat (take b l).
Proof.
  intros H. rewrite <- concat_app. f_equal.
  rewrite <- (take_drop a (take b l)), take_take, skipn_firstn_comm.
  by rewrite Nat.min_l by lia.
Qed.

Lemma key_at_Some lines i : (i + 3 <= length lines)%nat -> is_Some (key_at lines i).
Proof.
  intros H. unfold key_at.
  destruct (lookup_lt_is_Some_2 lines i) as [a ->]; [lia|].
  destruct (lookup_lt_is_Some_2 lines (S i)) as [b ->]; [lia|].
  destruct (lookup_lt_is_Some_2 lines (S (S i))) as [c ->]; [lia|].
  simpl. eauto.
Qed.

(** ** Matching runs *)

Lemma matching_loop_spec fuel previous current pi ci matched r :
  matching_loop fuel previous current pi ci matched = r ->
  (matched <= r)%nat /\
  (forall k, (matched <= k < r)%nat ->
     exists line, previous !! (pi + k)%nat = Some line /\ current !! (ci + k)%nat = Some line).
Proof.
  revert matched r. induction fuel as [|fuel IH]; intros matched r; simpl; [intros <-; split; [lia|intros; lia]|].
  destruct (previous !! (pi + matched)%nat) as [p|] eqn:Hp; [|intros <-; split; [lia|intros; lia]].
  destruct (current !! (ci + matched)%nat) as [c|] eqn:Hc; [|intros <-; split; [lia|intros; lia]].
  case_decide as Heq; [|intros <-; split; [lia|intros; lia]].
  intros H. apply IH in H as [Hle Hk]. split; [lia|].
  intros k Hrange. destruct (decide (k = matched)) as [->|Hne]; [subst; eauto|].
  apply Hk. lia.
Qed.

Lemma matching_lines_slices previous current pi ci n :
  matching_lines previous current pi ci = n -> (0 < n)%nat ->
  (pi + n <= length previous)%nat /\ (ci + n <= length current)%nat /\
  take n (drop pi previous) = take n (drop ci current).
Proof.
  intros H Hn. apply matching_loop_spec in H as [_ Hk].
  destruct (Hk (n - 1)%nat) as (l & Hp & Hc); [lia|].
  apply lookup_lt_Some in Hp. apply lookup_lt_Some in Hc.
  split; [lia|]. split; [lia|].
  apply list_eq. intros i. destruct (decide (i < n)%nat) as [Hi|Hi].
  - rewrite !lookup_take_lt, !lookup_drop by done.
    destruct (Hk i) as (l' & -> & ->); [lia|done].
  - rewrite !lookup_take_ge by lia. done.
Qed.

Lemma better_spec previous current ci candidates best :
  (best.2 <> 0%nat -> matching_lines previous current best.1 ci = best.2) ->
  let r := foldl (better previous current ci) best candidates in
  r.2 <> 0%nat -> matching_lines previous current r.1 ci = r.2.
Proof.
  revert best. induction candidates as [|c cs IH]; intros best Hb; simpl; [done|].
  apply IH. unfold better. case_decide; simpl; auto.
Qed.

(** ** Totality of the indexing loop *)

Lemma index_anchors_Some lines indices matches :
  Forall (fun i => (i + 3 <= length lines)%nat) indices ->
  is_Some (index_anchors lines indices matches).
Proof.
  revert matches. induction indices as [|i rest IH]; intros matches Hall; simpl; [eauto|].
  inversion_clear Hall as [|? ? Hi Htl].
  destruct (key_at_Some lines i Hi) as [key ->]. simpl. by apply IH.
Qed.

Lemma index_anchors_range_Some lines :
  is_Some (index_anchors lines (seq 0 (length lines - (MINIMUM_COPY_LINES - 1))) ∅).
Proof.
  apply index_anchors_Some, Forall_forall. intros i Hi.
  apply elem_of_seq in Hi. unfold MINIMUM_COPY_LINES in Hi. lia.
Qed.

(** ** Well-formed segments and their effect *)

(** A copy the receiver accepts: at least three lines, inside [lines]. *)
Definition segment_ok (lines : nat) (s : Segment) : Prop :=
  (copy_lines s = 0 /\ copy_start s = 0) \/
  (Z.of_nat MINIMUM_COPY_LINES <= copy_lines s /\ 0 <= copy_start s /\
   copy_start s + copy_lines s <= Z.of_nat lines).

(** The text a well-formed segment contributes. *)
Definition segment_text (lines : list string) (s : Segment) : string :=
  if decide (0 < copy_lines s)
  then concat (take (Z.to_nat (copy_lines s)) (drop (Z.to_nat (copy_start s)) lines))
  else text s.

Lemma apply_loop_ok lines output segments :
  Z.of_nat (length lines) <= i64_max ->
  Forall (segment_ok (length lines)) segments ->
  apply_loop lines output segments = Some (output +:+ concat (segment_text lines <$> segments)).
Proof.
  intros Hmax Hall. revert output.
  induction Hall as [|s rest Hs Hrest IH]; intros output; cbn [apply_loop fmap list_fmap].
  { by rewrite string_app_nil_r. }
  cbn [concat foldr]. change (foldr String.append "" ?l) with (concat l).
  unfold segment_text at 1. case_decide as Hpos; [|by rewrite IH, string_app_assoc].
  destruct Hs as [[Hz _]|(Hmin & Hstart & Hend)]; [lia|].
  unfold checked_add_i64. unfold i64_max, i64_min in *.
  rewrite decide_True by lia. cbn. rewrite decide_False by lia.
  rewrite slice_Some by lia. cbn. rewrite IH, string_app_assoc. do 5 f_equal. lia.
Qed.

Lemma concat_fmap_app lines l k :
  concat (segment_text lines <$> (l ++ k)) =
  concat (segment_text lines <$> l) +:+ concat (segment_text lines <$> k).
Proof. by rewrite fmap_app, concat_app. Qed.

Lemma flush_literal_spec segments previous current a b :
  (a <= b <= length current)%nat ->
  Forall (segment_ok (length previous)) segments ->
  concat (segment_text previous <$> segments) = concat (take a current) ->
  exists segments', flush_literal segments current a b = Some segments' /\
    Forall (segment_ok (length previous)) segments' /\
    concat (segment_text previous <$> segments') = concat (take b current).
Proof.
  intros Hab Hok Htext. unfold flush_literal. case_decide as Hle.
  - exists segments. assert (a = b) as -> by lia. done.
  - rewrite slice_Some by done. cbn. eexists. split; [done|]. split.
    + apply Forall_app. split; [done|]. constructor; [|constructor]. left. done.
    + rewrite concat_fmap_app, Htext. cbn -[concat take drop].
      cbn [concat foldr]. rewrite string_app_nil_r. by apply concat_take_slice.
Qed.

(** The invariant of the greedy loop: the segments emitted so far are well
    formed and reproduce the first [literal_start] lines; the loop returns
    within its fuel and never panics. *)
Lemma build_loop_spec fuel matches previous current segments ls ci :
  (length current < ci + fuel)%nat -> (ls <= ci <= length current)%nat ->
  Forall (segment_ok (length previous)) segments ->
  concat (segment_text previous <$> segments) = concat (take ls current) ->
  exists segments' ls', build_loop fuel matches previous current segments ls ci = Some (segments', ls') /\
    (ls' <= length current)%nat /\
    Forall (segment_ok (length previous)) segments' /\
    concat (segment_text previous <$> segments') = concat (take ls' current).
Proof.
  revert segments ls ci. induction fuel as [|fuel IH]; intros segments ls ci Hfuel Hls Hok Htext; [lia|].
  cbn [build_loop]. case_decide as Hend; [exists segments, ls; split_and!; [done|lia|done..]|].
  case_decide as Hshort; [exists segments, ls; split_and!; [done|lia|done..]|]. unfold MINIMUM_COPY_LINES in *.
  destruct (key_at_Some current ci) as [key ->]; [lia|]. cbn [mbind option_bind].
  set (best := match matches !! key with Some c => foldl _ _ c | None => _ end).
  assert (Hbest : best.2 <> 0%nat -> matching_lines previous current best.1 ci = best.2).
  { subst best. destruct (matches !! key); [apply better_spec|]; done. }
  clearbody best. destruct best as [bs bl]. simpl in Hbest.
  case_decide as Hbl; [apply IH; auto; lia|].
  destruct (matching_lines_slices previous current bs ci bl) as (Hp & Hc & Heq); [apply Hbest; lia|lia|].
  destruct (flush_literal_spec segments previous current ls ci) as (segments' & -> & Hok' & Htext');
    [lia|done..|]. cbn [mbind option_bind].
  apply IH; [lia|lia| |].
  - apply Forall_app. split; [done|]. constructor; [|constructor]. right. unfold MINIMUM_COPY_LINES. simpl. lia.
  - rewrite concat_fmap_app, Htext'. cbn -[concat take drop].
    cbn [concat foldr]. rewrite string_app_nil_r.
    unfold segment_text. cbn -[concat take drop]. rewrite decide_True by lia.
    rewrite !Nat2Z.id, Heq.
    replace bl with (ci + bl - ci)%nat at 1 by lia. apply concat_take_slice. lia.
Qed.

Lemma build_ok previous current :
  exists segments, build previous current = Some segments /\
    Forall (segment_ok (length (split_after previous))) segments /\
    concat (segment_text (split_after previous) <$> segments) = current.
Proof.
  unfold build. destruct (index_anchors_range_Some (split_after previous)) as [matches ->].
  cbn [mbind option_bind].
  destruct (build_loop_spec (S (length (split_after current))) matches (split_after previous)
              (split_after current) [] 0 0) as (segs & ls & -> & Hls & Hok & Htext); [lia|lia|done..|].
  cbn [mbind option_bind].
  destruct (flush_literal_spec segs (split_after previous) (split_after current) ls
              (length (split_after current))) as (segs' & -> & Hok' & Htext'); [lia|done..|].
  exists segs'. split; [done|]. split; [done|].
  by rewrite Htext', firstn_all, split_after_concat.
Qed.

(** ** Acceptance of arbitrary wire segments *)

(** The receiver's bounds check: a literal, or a copy inside [lines]. *)
Definition segment_in_range (lines : nat) (s : Segment) : Prop :=
  copy_lines s <= 0 \/ (0 <= copy_start s /\ copy_start s + copy_lines s <= Z.of_nat lines).

Lemma apply_loop_is_Some lines output segments :
  Z.of_nat (length lines) <= i64_max ->
  is_Some (apply_loop lines output segments) <-> Forall (segment_in_range (length lines)) segments.
Proof.
  intros Hmax. revert output. unfold i64_max in Hmax.
  induction segments as [|s rest IH]; intros output; cbn [apply_loop]; [split; eauto|].
  rewrite Forall_cons. unfold segment_in_range at 1.
  case_decide as Hpos; [|rewrite IH; intuition lia].
  unfold checked_add_i64, i64_min, i64_max. case_decide as Hadd; cbn [mbind option_bind].
  - case_decide as Hbad; [split; [by intros []|intros [? _]; lia]|].
    rewrite slice_Some by lia. cbn [mbind option_bind]. rewrite IH. intuition lia.
  - split; [by intros []|]. intros [? _]. lia.
Qed.

(** ** Properties *)

(** Round trip of the delta codec: for every pair of frames, [build]
    terminates without an out-of-range index, and applying its segments to the
    previous frame yields exactly the current frame (for a previous frame of at
    most [i64::MAX] lines, the width of the segment fields). *)
Theorem delta_roundtrip previous current :
  Z.of_nat (length (split_after previous)) <= i64_max ->
  exists segments, build previous current = Some segments /\ apply previous segments = Some current.
Proof.
  intros Hmax. destruct (build_ok previous current) as (segs & Hb & Hok & Htext).
  exists segs. split; [done|]. unfold apply. by rewrite apply_loop_ok, Htext by done.
Qed.

(** Two pane frames sharing their first four lines. *)
Definition frame_of (lines : list string) : string := concat ((fun l => l +:+ String newline "") <$> lines).
Definition previous_frame : string := frame_of ["one"; "two"; "three"; "four"; "five"].
Definition current_frame : string := frame_of ["zero"; "one"; "two"; "three"; "four"; "six"].

Example build_copies_shared_run :
  build previous_frame current_frame =
    Some [mkSegment 0 0 (frame_of ["zero"]); mkSegment 0 4 ""; mkSegment 0 0 (frame_of ["six"])].
Proof. vm_compute. reflexivity. Qed.

(** The phantom line after a trailing newline counts in the copy. *)
Example identical_frame_counts_phantom_line :
  build (frame_of ["one"; "two"; "three"; "four"]) (frame_of ["one"; "two"; "three"; "four"])
  = Some [mkSegment 0 5 ""].
Proof. vm_compute. reflexivity. Qed.

Example empty_to_empty_is_one_empty_literal : build "" "" = Some [default_segment].
Proof. vm_compute. reflexivity. Qed.

Lemma delta_roundtrip_witness :
  exists segments, build previous_frame current_frame = Some segments /\
    apply previous_frame segments = Some current_frame.
Proof. apply (delta_roundtrip previous_frame current_frame). vm_compute. discriminate. Defined.

(** [apply] rejects exactly the malformed wire deltas: it answers [Some]
    iff every copy segment starts at a non-negative line and ends inside the
    previous frame, so a negative start, a sum overflowing [i64] and an end past
    the last line are all refused, and nothing else is. *)
Theorem apply_accepts_iff previous segments :
  Z.of_nat (length (split_after previous)) <= i64_max ->
  is_Some (apply previous segments) <->
  Forall (segment_in_range (length (split_after previous))) segments.
Proof. apply apply_loop_is_Some. Qed.

Lemma apply_accepts_iff_witness :
  ~ is_Some (apply "a" [mkSegment i64_max 2 ""]).
Proof.
  intros H. apply apply_accepts_iff in H; [|vm_compute; discriminate].
  inversion_clear H as [|? ? [Hs|[_ Hs]] _]; vm_compute in Hs; congruence.
Defined.

End Delta.
