(* ===== verification/Lines.v ===== *)
(** * Lines of text

    The line-oriented [str] methods the coordinator uses: [split('\n')],
    [join("\n")] and [lines()], with the round trips between a text and its
    lines. *)

From S2P Require Import Prelude Delta.

Module Lines.

Abbreviation newline := Delta.newline.

(** [str::split('\n')]: never empty. *)
Fixpoint split_nl (s : string) : list string :=
  match s with
  | EmptyString => [""%string]
  | String c s' =>
      if decide (c = newline) then ""%string :: split_nl s'
      else match split_nl s' with
           | [] => [String c ""]
           | l :: ls => String c l :: ls
           end
  end.

(** [<[&str]>::join("\n")]. *)
Fixpoint join_nl (l : list string) : string :=
  match l with
  | [] => ""
  | [s] => s
  | s :: l' => s +:+ String newline (join_nl l')
  end.

(** [str::matches('\n').count()]. *)
Fixpoint count_nl (s : string) : nat :=
  match s with
  | EmptyString => 0
  | String c s' => (if decide (c = newline) then 1 else 0) + count_nl s'
  end.

(** The rows each followed by a newline: [format!("{row}\n")] collected. *)
Definition unlines (rows : list string) : string := foldr (fun r s => r +:+ String newline s) "" rows.

(** No newline inside. *)
Definition one_line (s : string) : Prop := count_nl s = 0%nat.

Lemma split_nl_cons s : exists l ls, split_nl s = l :: ls.
Proof. destruct s as [|c s]; simpl; [by eexists _, _|]. case_decide; [by eexists _, _|]. destruct (split_nl s); by eexists _, _. Qed.

Lemma join_nl_cons s l : l <> [] -> join_nl (s :: l) = s +:+ String newline (join_nl l).
Proof. by destruct l. Qed.

Lemma join_split s : join_nl (split_nl s) = s.
Proof.
  induction s as [|c s IH]; [done|]. cbn [split_nl]. destruct (split_nl_cons s) as (l & ls & E). rewrite E in *.
  case_decide as Hc.
  - subst c. rewrite join_nl_cons by done. by rewrite IH.
  - destruct ls as [|l' ls]; cbn [join_nl] in *; by rewrite <- IH.
Qed.

Lemma split_length s : length (split_nl s) = S (count_nl s).
Proof.
  induction s as [|c s IH]; [done|]. cbn [split_nl count_nl]. destruct (split_nl_cons s) as (l & ls & E). rewrite E in *.
  case_decide; simpl in *; lia.
Qed.

Lemma count_nl_app s t : count_nl (s +:+ t) = (count_nl s + count_nl t)%nat.
Proof. induction s as [|c s IH]; [done|]. rewrite string_app_cons. simpl. rewrite IH. lia. Qed.

Lemma split_one_line s : Forall one_line (split_nl s).
Proof.
  induction s as [|c s IH]; [by repeat constructor|]. cbn [split_nl]. destruct (split_nl_cons s) as (l & ls & E). rewrite E in *.
  case_decide as Hc; [constructor; done|]. apply Forall_cons in IH as [Hl Hls]. constructor; [|done].
  unfold one_line in *. simpl. by rewrite decide_False.
Qed.

Lemma split_app_nl s t : one_line s -> split_nl (s +:+ String newline t) = s :: split_nl t.
Proof.
  unfold one_line. induction s as [|c s IH]; intros Hs; [done|]. rewrite string_app_cons. cbn [split_nl count_nl] in *.
  case_decide; [lia|]. by rewrite IH.
Qed.

Lemma split_one s : one_line s -> split_nl s = [s].
Proof.
  unfold one_line. induction s as [|c s IH]; intros Hs; [done|]. cbn [split_nl count_nl] in *.
  case_decide; [lia|]. by rewrite IH.
Qed.

Lemma split_join l : l <> [] -> Forall one_line l -> split_nl (join_nl l) = l.
Proof.
  intros Hne Hl. induction Hl as [|s l Hs Hl IH]; [done|]. destruct l as [|s' l]; [by apply split_one|].
  rewrite join_nl_cons by done. rewrite split_app_nl by done. by rewrite IH.
Qed.

Lemma join_nl_app l k : l <> [] -> k <> [] -> join_nl (l ++ k) = join_nl l +:+ String newline (join_nl k).
Proof.
  intros Hl Hk. induction l as [|s l IH]; [done|]. destruct l as [|s' l].
  - cbn [app]. by rewrite join_nl_cons.
  - change ((s :: s' :: l) ++ k) with (s :: ((s' :: l) ++ k)). rewrite join_nl_cons by done.
    rewrite (IH ltac:(done)). rewrite (join_nl_cons s (s' :: l)) by done. by rewrite <- string_app_assoc, string_app_cons.
Qed.

Lemma unlines_app l k : unlines (l ++ k) = unlines l +:+ unlines k.
Proof. induction l as [|s l IH]; [done|]. simpl. by rewrite IH, <- string_app_assoc, string_app_cons. Qed.

Lemma split_unlines l : Forall one_line l -> split_nl (unlines l) = l ++ [""%string].
Proof. induction 1 as [|s l Hs _ IH]; [done|]. cbn [unlines foldr app]. rewrite split_app_nl by done. f_equal. exact IH. Qed.

End Lines.
