(* ===== verification/SeqMatch.v ===== *)
(** * Sequence matching — the [Matcher] of [lerdr-coord/src/history.rs]

    The port of Python's [difflib.SequenceMatcher] (no junk heuristic) the
    transcript history is merged with: the longest common run of two windows,
    and the matching blocks of two sequences found by splitting around it. *)

From S2P Require Import Prelude.

Module SeqMatch.

#[local] Open Scope nat_scope.

Record Match := mkMatch {
  m_a : nat;
  m_b : nat;
  m_size : nat;
}.

#[export] Instance Match_eq_dec : EqDecision Match.
Proof. solve_decision. Defined.

Definition default_match : Match := mkMatch 0 0 0.

(** ** [Matcher::new]: the positions of each line of [b], in order *)

Fixpoint index_from (j : nat) (b : list string) (b2j : gmap string (list nat)) : gmap string (list nat) :=
  match b with
  | [] => b2j
  | elem :: rest => index_from (S j) rest (<[elem := default [] (b2j !! elem) ++ [j]]> b2j)
  end.

Definition b2j_of (b : list string) : gmap string (list nat) := index_from 0 b ∅.

(** ** [find_longest_match] *)

(** [j2len.get(&(j - 1))]: [usize::MAX] is never a key. *)
Definition before (j2len : gmap nat nat) (j : nat) : nat :=
  match j with O => 0 | S j' => default 0 (j2len !! j') end.

(** The inner loop over the positions [js] of line [i]. *)
Fixpoint scan_js (blo bhi i : nat) (j2len : gmap nat nat) (js : list nat) (newj2len : gmap nat nat) (best : Match)
    : gmap nat nat * Match :=
  match js with
  | [] => (newj2len, best)
  | j :: js =>
      if j <? blo then scan_js blo bhi i j2len js newj2len best
      else if bhi <=? j then (newj2len, best)
      else
        let k := before j2len j + 1 in
        scan_js blo bhi i j2len js (<[j := k]> newj2len)
          (if m_size best <? k then mkMatch (i + 1 - k) (j + 1 - k) k else best)
  end.

Fixpoint scan_rows (b2j : gmap string (list nat)) (blo bhi i : nat) (rows : list string) (j2len : gmap nat nat)
    (best : Match) : Match :=
  match rows with
  | [] => best
  | elem :: rest =>
      let '(newj2len, best) := scan_js blo bhi i j2len (default [] (b2j !! elem)) ∅ best in
      scan_rows b2j blo bhi (S i) rest newj2len best
  end.

Abbreviation window := (nat * nat * nat * nat)%type.

Definition find_longest_match (a b : list string) (w : window) : Match :=
  let '(alo, ahi, blo, bhi) := w in
  scan_rows (b2j_of b) blo bhi alo (drop alo (take ahi a)) ∅ (mkMatch alo blo 0).

(** ** [matching_blocks] *)

(** The work list: a popped window contributes its longest match and the
    windows on both sides of it.  [None]: the bound on the rounds was too small. *)
Fixpoint block_loop (fuel : nat) (a b : list string) (queue : list window) (blocks : list Match)
    : option (list Match) :=
  match queue with
  | [] => Some blocks
  | (alo, ahi, blo, bhi) :: queue =>
      match fuel with
      | O => None
      | S fuel =>
          let m := find_longest_match a b (alo, ahi, blo, bhi) in
          if 0 <? m_size m then
            let queue := if (alo <? m_a m) && (blo <? m_b m) then (alo, m_a m, blo, m_b m) :: queue else queue in
            let queue := if (m_a m + m_size m <? ahi) && (m_b m + m_size m <? bhi)
                         then (m_a m + m_size m, ahi, m_b m + m_size m, bhi) :: queue else queue in
            block_loop fuel a b queue (blocks ++ [m])
          else block_loop fuel a b queue blocks
      end
  end.

(** [(x.a, x.b) > (y.a, y.b)]. *)
Definition pos_gt (x y : Match) : bool := (m_a y <? m_a x) || ((m_a x =? m_a y) && (m_b y <? m_b x)).

(** One round of [sortMatches]: [key] moves left past the greater blocks; the
    sorted part is kept reversed, so the next block to compare is its head. *)
Fixpoint insert_left (key : Match) (sorted_rev : list Match) : list Match :=
  match sorted_rev with
  | x :: rest => if pos_gt x key then x :: insert_left key rest else key :: sorted_rev
  | [] => [key]
  end.

Definition sort_matches (blocks : list Match) : list Match := reverse (foldl (fun acc key => insert_left key acc) [] blocks).

(** Merging adjacent blocks: [cur] is the run being extended, empty at first. *)
Fixpoint merge_adjacent (cur : Match) (blocks : list Match) : list Match :=
  match blocks with
  | [] => if 0 <? m_size cur then [cur] else []
  | m :: rest =>
      if (0 <? m_size cur) && (m_a cur + m_size cur =? m_a m) && (m_b cur + m_size cur =? m_b m)
      then merge_adjacent (mkMatch (m_a cur) (m_b cur) (m_size cur + m_size m)) rest
      else (if 0 <? m_size cur then [cur] else []) ++ merge_adjacent m rest
  end.

(** Rounds the work list can take: see [block_loop_total]. *)
Definition block_fuel (a : list string) : nat := 2 * length a + 1.

Definition matching_blocks (a b : list string) : option (list Match) :=
  blocks ← block_loop (block_fuel a) a b [(0, length a, 0, length b)] [];
  Some (merge_adjacent default_match (sort_matches blocks) ++ [mkMatch (length a) (length b) 0]).

(** ** Specification *)

(** [a] and [b] agree on [k] lines from [x] and [y]. *)
Definition common (a b : list string) (x y k : nat) : Prop :=
  forall t, t < k -> exists e, a !! (x + t) = Some e /\ b !! (y + t) = Some e.

Definition matched (a b : list string) (m : Match) : Prop := common a b (m_a m) (m_b m) (m_size m).

(** [m] ends before [n] starts, in both sequences. *)
Definition precedes (m n : Match) : Prop := m_a m + m_size m <= m_a n /\ m_b m + m_size m <= m_b n.

Lemma common_snoc a b x y k e :
  common a b x y k -> a !! (x + k) = Some e -> b !! (y + k) = Some e -> common a b x y (S k).
Proof. intros Hc Ha Hb t Ht. destruct (decide (t = k)) as [->|]; [by exists e|]. apply Hc. lia. Qed.

Lemma common_single a b i j x y e : a !! i = Some e -> b !! j = Some e -> x = i -> y = j -> common a b x y 1.
Proof. intros Ha Hb -> -> t Ht. exists e. by replace t with 0 by lia; rewrite !Nat.add_0_r. Qed.

Lemma common_app a b x y k l :
  common a b x y k -> common a b (x + k) (y + k) l -> common a b x y (k + l).
Proof.
  intros Hk Hl t Ht. destruct (decide (t < k)) as [|]; [by apply Hk|].
  destruct (Hl (t - k)) as (e & Ha & Hb); [lia|]. exists e. split; [rewrite <- Ha|rewrite <- Hb]; f_equal; lia.
Qed.

Lemma common_bound a b x y k : common a b x y k -> 0 < k -> x + k <= length a /\ y + k <= length b.
Proof.
  intros Hc Hk. destruct (Hc (k - 1)) as (e & Ha & Hb); [lia|].
  apply lookup_lt_Some in Ha, Hb. lia.
Qed.

Lemma common_slice a b x y k : common a b x y k -> x + k <= length a -> y + k <= length b ->
  take k (drop x a) = take k (drop y b).
Proof.
  intros Hc Ha Hb. apply list_eq. intros t. destruct (decide (t < k)) as [Ht|Ht].
  - rewrite !lookup_take_lt, !lookup_drop by done. destruct (Hc t Ht) as (e & -> & ->). done.
  - rewrite !lookup_take_ge by lia. done.
Qed.

(** *** The positions of a line *)

Lemma index_from_lookup j b m e :
  default [] (index_from j b m !! e) =
  default [] (m !! e) ++ filter (fun p => b !! (p - j) = Some e) (seq j (length b)).
Proof.
  revert j m. induction b as [|x b IH]; intros j m; simpl; [by rewrite app_nil_r|].
  rewrite IH. replace (j - j) with 0 by lia.
  assert (Htail : filter (fun p => (x :: b) !! (p - j) = Some e) (seq (S j) (length b))
                  = filter (fun p => b !! (p - S j) = Some e) (seq (S j) (length b))).
  { apply list_filter_ext_in. intros p Hp%elem_of_seq. by replace (p - j) with (S (p - S j)) by lia. }
  rewrite filter_cons, Htail. destruct (decide (x = e)) as [->|Hne].
  - rewrite lookup_insert_eq, decide_True by (by replace (j - j) with 0 by lia). simpl. by rewrite <- app_assoc.
  - rewrite lookup_insert_ne by done. rewrite decide_False; [done|].
    replace (j - j) with 0 by lia. simpl. congruence.
Qed.

Lemma b2j_of_lookup b e : default [] (b2j_of b !! e) = filter (fun j => b !! j = Some e) (seq 0 (length b)).
Proof.
  unfold b2j_of. rewrite index_from_lookup, lookup_empty. simpl. apply list_filter_ext_in. intros p _. by rewrite Nat.sub_0_r.
Qed.

Lemma StronglySorted_seq j n : StronglySorted lt (seq j n).
Proof.
  revert j. induction n as [|n IH]; intros j; simpl; constructor; [apply IH|].
  apply Forall_forall. intros p Hp%elem_of_seq. lia.
Qed.

Lemma StronglySorted_filter {A} (R : relation A) (P : A -> Prop) `{!forall x, Decision (P x)} l :
  StronglySorted R l -> StronglySorted R (filter P l).
Proof.
  induction 1 as [|x l _ IH Hx]; [constructor|]. rewrite filter_cons. case_decide; [|done].
  constructor; [done|]. rewrite Forall_forall in *. intros y [_ Hy]%list_elem_of_filter. by apply Hx.
Qed.

(** *** The longest run ending at a pair of lines *)

Section Window.
Context (a b : list string) (alo blo : nat).

(** Lines [i] and [j] agree and lie in the window. *)
Definition agree (i j : nat) : Prop := alo <= i /\ blo <= j /\ a !! i = b !! j /\ is_Some (a !! i).

#[local] Instance agree_dec i j : Decision (agree i j).
Proof. unfold agree. apply _. Defined.

Fixpoint run_to (i j : nat) {struct i} : nat :=
  if decide (agree i j)
  then match i, j with S i', S j' => S (run_to i' j') | _, _ => 1 end
  else 0.

Lemma run_to_no i j : ~ agree i j -> run_to i j = 0.
Proof. intros Hn. destruct i; cbn [run_to]; by rewrite (decide_False _ _ Hn). Qed.

Lemma run_to_yes i j : agree i j ->
  run_to i j = match i, j with S i', S j' => run_to i' j' + 1 | _, _ => 1 end.
Proof. intros Hy. destruct i, j; cbn [run_to]; rewrite (decide_True _ _ Hy); lia. Qed.

Lemma run_to_bound i j : run_to i j <= i + 1 - alo /\ run_to i j <= j + 1 - blo.
Proof.
  revert j. induction i as [|i IH]; intros j; simpl; case_decide as Hag; try lia; destruct Hag as (? & ? & _ & _);
    [lia|]. destruct j as [|j]; [lia|]. specialize (IH j).
  destruct (decide (agree i j)) as [(? & ? & _ & _)|Hn]; [lia|]. rewrite (run_to_no i j Hn). lia.
Qed.

Lemma run_to_common i j : common a b (i + 1 - run_to i j) (j + 1 - run_to i j) (run_to i j).
Proof.
  revert j. induction i as [|i IH]; intros j; simpl; (case_decide as Hag; [|intros t Ht; lia]);
    destruct Hag as (Hi & Hj & Heq & [e He]).
  - apply (common_single _ _ 0 j _ _ e); [done|by rewrite <- Heq|lia..].
  - destruct j as [|j]; [apply (common_single _ _ (S i) 0 _ _ e); [done|by rewrite <- Heq|lia..]|].
    pose proof (run_to_bound i j) as [Hb1 Hb2].
    replace (S i + 1 - S (run_to i j)) with (i + 1 - run_to i j) by lia.
    replace (S j + 1 - S (run_to i j)) with (j + 1 - run_to i j) by lia.
    apply (common_snoc _ _ _ _ _ e); [apply IH|rewrite <- He|rewrite <- He, Heq]; f_equal; lia.
Qed.

Lemma run_to_max x y k : alo <= x -> blo <= y -> common a b x y (S k) -> S k <= run_to (x + k) (y + k).
Proof.
  intros Hx Hy. induction k as [|k IH]; intros Hc.
  - destruct (Hc 0) as (e & Ha & Hb); [lia|]. rewrite run_to_yes; [destruct (x + 0), (y + 0); lia|].
    split_and!; [lia..|by rewrite Ha, Hb|by eexists].
  - destruct (Hc (S k)) as (e & Ha & Hb); [lia|].
    specialize (IH ltac:(intros t Ht; apply Hc; lia)).
    rewrite !Nat.add_succ_r in *. rewrite run_to_yes; [lia|].
    split_and!; [lia..|by rewrite Ha, Hb|by eexists].
Qed.

(** The table [j2len] before row [i] holds the runs ending on the row above. *)
Definition table_ok (bhi i : nat) (j2len : gmap nat nat) : Prop :=
  forall j, j < bhi -> default 0 (j2len !! j) = match i with O => 0 | S i' => run_to i' j end.

Lemma before_run bhi i j2len j :
  table_ok bhi i j2len -> j < bhi -> agree i j -> before j2len j + 1 = run_to i j.
Proof.
  intros Ht Hj Hag. rewrite run_to_yes by done. unfold before. destruct j as [|j].
  - destruct i; done.
  - rewrite (Ht j) by lia. by destruct i.
Qed.

(** A best match so far: empty, or the run ending somewhere in the window. *)
Definition best_ok (ahi bhi : nat) (m : Match) : Prop :=
  alo <= m_a m /\ m_a m + m_size m <= ahi /\ blo <= m_b m /\ m_b m + m_size m <= bhi /\ matched a b m.

Lemma scan_js_spec ahi bhi i j2len js newj2len best :
  table_ok bhi i j2len -> StronglySorted lt js -> alo <= i < ahi ->
  (forall j, j ∈ js -> a !! i = b !! j /\ is_Some (a !! i)) -> best_ok ahi bhi best ->
  let r := scan_js blo bhi i j2len js newj2len best in
  (forall j, j < bhi -> default 0 (r.1 !! j) = if decide (j ∈ js /\ blo <= j) then run_to i j else default 0 (newj2len !! j)) /\
  best_ok ahi bhi r.2 /\ m_size best <= m_size r.2 /\
  (forall j, j ∈ js -> blo <= j < bhi -> run_to i j <= m_size r.2).
Proof.
  intros Ht Hs Hi. revert newj2len best. induction Hs as [|j js Hs IH Hj]; intros new best Hjs Hbest; cbv zeta in *; cbn [scan_js].
  { split_and!; [|done|done|by intros j ?%elem_of_nil]. intros j _. rewrite decide_False; [done|].
    by intros [?%elem_of_nil _]. }
  rewrite Forall_forall in Hj.
  destruct (Nat.ltb_spec j blo) as [Hlt|Hge].
  { destruct (IH new best ltac:(intros; apply Hjs; by right) Hbest) as (Hr & Hb & Hm & Hx). split_and!; try done.
    - intros q Hq. rewrite Hr by done. apply decide_ext. rewrite elem_of_cons. naive_solver lia.
    - intros q [->|Hq]%elem_of_cons Hw; [lia|by apply Hx]. }
  destruct (Nat.leb_spec bhi j) as [Hle|Hgt].
  { split_and!; try done.
    - intros q Hq. rewrite decide_False; [done|]. intros [[->|Hin]%elem_of_cons _]; [lia|]. apply Hj in Hin. lia.
    - intros q [->|Hq]%elem_of_cons Hw; [lia|]. apply Hj in Hq. lia. }
  destruct (Hjs j ltac:(by left)) as [Hab Hsome].
  assert (Hag : agree i j) by (split; [lia|]; split; [lia|]; by split).
  rewrite (before_run bhi i) by done.
  pose proof (run_to_bound i j) as [Hb1 Hb2]. pose proof (run_to_common i j) as Hcm.
  set (best' := if _ <? _ then _ else _).
  assert (Hbest' : best_ok ahi bhi best' /\ m_size best <= m_size best' /\ run_to i j <= m_size best').
  { subst best'. destruct (Nat.ltb_spec (m_size best) (run_to i j)); simpl; [|split_and!; [done|lia|lia]].
    split_and!; [split_and!; simpl; [lia..|done]|lia|lia]. }
  destruct Hbest' as (Hbo & Hle & Hrun).
  destruct (IH (<[j := run_to i j]> new) best' ltac:(intros; apply Hjs; by right) Hbo) as (Hr & Hb & Hm & Hx).
  split_and!; [|done|lia|].
  - intros q Hq. rewrite Hr by done. destruct (decide (q = j)) as [->|Hne].
    + rewrite lookup_insert_eq. rewrite (decide_True (P := j ∈ j :: js /\ blo <= j)) by (split; [by left|lia]).
      by case_decide.
    + rewrite lookup_insert_ne by done. apply decide_ext. rewrite elem_of_cons. tauto.
  - intros q [->|Hq]%elem_of_cons Hw; [lia|by apply Hx].
Qed.

Lemma scan_rows_spec ahi bhi i rows j2len best :
  ahi <= length a -> bhi <= length b -> alo <= i -> rows = drop i (take ahi a) ->
  table_ok bhi i j2len -> best_ok ahi bhi best ->
  let m := scan_rows (b2j_of b) blo bhi i rows j2len best in
  best_ok ahi bhi m /\ m_size best <= m_size m /\
  (forall i' j, i <= i' < ahi -> blo <= j < bhi -> run_to i' j <= m_size m).
Proof.
  intros Hahi Hbhi. revert i j2len best. induction rows as [|e rest IH]; intros i j2len best Hi Hrows Ht Hbest; cbv zeta.
  { split_and!; [done|done|]. intros i' j Hi' _. apply (f_equal length) in Hrows.
    rewrite length_drop, length_take in Hrows. simpl in Hrows. lia. }
  assert (He : take ahi a !! i = Some e) by (rewrite <- (Nat.add_0_r i), <- lookup_drop, <- Hrows; done).
  apply lookup_take_Some in He as [He Hlt]. cbn [scan_rows].
  set (js := default [] _). assert (Hin : forall j, j ∈ js <-> b !! j = Some e).
  { intros j. subst js. rewrite b2j_of_lookup, list_elem_of_filter, elem_of_seq. split; [by intros [? _]|].
    intros Hj. split; [done|]. apply lookup_lt_Some in Hj. lia. }
  pose proof (scan_js_spec ahi bhi i j2len js ∅ best Ht) as Hscan. cbv zeta in Hscan.
  destruct (scan_js blo bhi i j2len js ∅ best) as [new best'].
  destruct Hscan as (Hnew & Hb & Hm & Hx); [| |intros j Hj%Hin; rewrite He, Hj; by eauto|done|]; cbn [fst snd] in *.
  { subst js. rewrite b2j_of_lookup. apply StronglySorted_filter, StronglySorted_seq. }
  { done. }
  assert (Hout : forall j, j ∉ js -> run_to i j = 0).
  { intros j Hj. apply run_to_no. intros (_ & _ & Heq & _). apply Hj, Hin. by rewrite <- Heq. }
  destruct (IH (S i) new best') as (Hb' & Hm' & Hx'); [lia| |..]; [| |done|].
  { rewrite <- Nat.add_1_r, <- drop_drop, <- Hrows. done. }
  { intros j Hj. rewrite Hnew by done. case_decide as Hd; [done|]. rewrite lookup_empty. simpl. symmetry.
    destruct (decide (j ∈ js)); [|by apply Hout]. apply run_to_no. intros (_ & ? & _). by apply Hd. }
  split_and!; [done|lia|]. intros i' j Hi' Hj. destruct (decide (i' = i)) as [->|]; [|apply Hx'; lia].
  destruct (decide (j ∈ js)) as [Hj'|Hj']; [|rewrite Hout by done; lia]. specialize (Hx j Hj' Hj). lia.
Qed.

End Window.

(** [find_longest_match] stays in its window, returns a common run, and none in
    the window is longer. *)
Lemma find_longest_match_spec a b alo ahi blo bhi :
  alo <= ahi <= length a -> blo <= bhi <= length b ->
  let m := find_longest_match a b (alo, ahi, blo, bhi) in
  best_ok a b alo blo ahi bhi m /\
  (forall x y k, alo <= x -> x + k <= ahi -> blo <= y -> y + k <= bhi -> common a b x y k -> k <= m_size m).
Proof.
  intros Ha Hb m. destruct (scan_rows_spec a b alo blo ahi bhi alo (drop alo (take ahi a)) ∅ (mkMatch alo blo 0))
    as (Hok & _ & Hmax); try done; try lia.
  - intros j Hj. rewrite lookup_empty. simpl. destruct alo as [|n]; [done|]. symmetry. apply run_to_no.
    intros (? & _). lia.
  - split_and!; simpl; try lia. intros t Ht. simpl in Ht. lia.
  - split; [exact Hok|]. intros x y [|k] Hx Hxk Hy Hyk Hc; [lia|].
    pose proof (run_to_max a b alo blo x y k Hx Hy Hc). specialize (Hmax (x + k) (y + k)). subst m. unfold find_longest_match. lia.
Qed.

(** *** The work list *)

Definition rect (m : Match) : window := (m_a m, m_a m + m_size m, m_b m, m_b m + m_size m).

Definition inside (v w : window) : Prop :=
  let '(alo, ahi, blo, bhi) := v in let '(alo', ahi', blo', bhi') := w in
  alo' <= alo /\ alo <= ahi /\ ahi <= ahi' /\ blo' <= blo /\ blo <= bhi /\ bhi <= bhi'.

(** One window lies wholly before the other, in both sequences. *)
Definition ordered (v w : window) : Prop :=
  let '(alo, ahi, blo, bhi) := v in let '(alo', ahi', blo', bhi') := w in
  (ahi <= alo' /\ bhi <= blo') \/ (ahi' <= alo /\ bhi' <= blo).

Abbreviation apart := (StronglySorted ordered).

Lemma ordered_sym v w : ordered v w -> ordered w v.
Proof. destruct v as [[[? ?] ?] ?], w as [[[? ?] ?] ?]. simpl. lia. Qed.

Lemma ordered_inside u v w : ordered v w -> inside u v -> ordered u w.
Proof. destruct u as [[[? ?] ?] ?], v as [[[? ?] ?] ?], w as [[[? ?] ?] ?]. simpl. lia. Qed.

Lemma StronglySorted_sym_perm {A} (R : relation A) `{!Symmetric R} l k : l ≡ₚ k -> StronglySorted R l -> StronglySorted R k.
Proof.
  induction 1 as [|x l k Hp IH|x y l|l k m _ IH1 _ IH2]; intros Hs; [done| | |auto].
  - apply StronglySorted_inv in Hs as [Hs Hx]. constructor; [auto|]. by rewrite <- Hp.
  - apply StronglySorted_inv in Hs as [Hs Hy]. apply StronglySorted_inv in Hs as [Hs Hx].
    apply Forall_cons in Hy as [Hyx Hy]. by repeat constructor.
Qed.

#[local] Instance ordered_symmetric : Symmetric ordered := ordered_sym.

Record loop_inv (a b : list string) (blocks : list Match) (queue : list window) : Prop := {
  li_apart : apart ((rect <$> blocks) ++ queue);
  li_blocks : Forall (fun m => matched a b m /\ 0 < m_size m) blocks;
  li_queue : Forall (fun w => inside w (0, length a, 0, length b)) queue;
}.

Definition weight (queue : list window) : nat :=
  sum_list_with (fun w : window => let '(alo, ahi, _, _) := w in 2 * (ahi - alo) + 1) queue.

(** Splitting a window around a match inside it: the parts replace it. *)
Lemma apart_split l w parts q :
  apart (l ++ w :: q) -> apart parts -> Forall (fun v => inside v w) parts -> apart (l ++ parts ++ q).
Proof.
  rewrite !StronglySorted_app. intros (Hlw & Hl & Hw) Hp Hin. rewrite Forall_forall in Hin.
  apply StronglySorted_inv in Hw as [Hq Hwq]. rewrite Forall_forall in Hwq. split_and!; try done.
  - intros x y Hx [Hy|Hy]%elem_of_app; [|apply Hlw; [done|by right]].
    symmetry. apply (ordered_inside y w x); [|by apply Hin]. symmetry. apply Hlw; [done|by left].
  - intros x y Hx Hy. apply (ordered_inside x w y); [by apply Hwq|by apply Hin].
Qed.

(** The windows pushed after a match: right of it (next to be popped) and left. *)
Definition left_part (w : window) (m : Match) : list window :=
  let '(alo, ahi, blo, bhi) := w in if (alo <? m_a m) && (blo <? m_b m) then [(alo, m_a m, blo, m_b m)] else [].
Definition right_part (w : window) (m : Match) : list window :=
  let '(alo, ahi, blo, bhi) := w in
  if (m_a m + m_size m <? ahi) && (m_b m + m_size m <? bhi) then [(m_a m + m_size m, ahi, m_b m + m_size m, bhi)] else [].

Lemma parts_spec w m : inside (rect m) w -> 0 < m_size m ->
  apart (rect m :: right_part w m ++ left_part w m) /\
  Forall (fun v => inside v w) (rect m :: right_part w m ++ left_part w m) /\
  weight (right_part w m ++ left_part w m) < weight [w].
Proof.
  destruct w as [[[alo ahi] blo] bhi], m as [x y k]. cbn [rect m_a m_b m_size inside]. intros Hin Hk.
  unfold left_part, right_part. cbn [m_a m_b m_size].
  destruct (Nat.ltb_spec alo x), (Nat.ltb_spec blo y), (Nat.ltb_spec (x + k) ahi), (Nat.ltb_spec (y + k) bhi);
    cbn [andb app]; (split; [|split; [|unfold weight; cbn [sum_list_with]; lia]]);
    repeat first [apply SSorted_nil | apply SSorted_cons | apply Forall_nil_2 | apply Forall_cons_2]; cbn [ordered inside rect m_a m_b m_size]; lia.
Qed.

Lemma weight_app q q' : weight (q ++ q') = weight q + weight q'.
Proof. unfold weight. by rewrite sum_list_with_app. Qed.

Lemma loop_inv_push a b blocks w q m :
  loop_inv a b blocks (w :: q) -> inside (rect m) w -> matched a b m -> 0 < m_size m ->
  loop_inv a b (blocks ++ [m]) (right_part w m ++ left_part w m ++ q).
Proof.
  intros [Ha Hb Hq] Hin Hm Hk. destruct (parts_spec w m Hin Hk) as (Hap & Hins & _).
  apply Forall_cons in Hq as [Hw Hq]. split.
  - rewrite fmap_app, <- app_assoc. simpl. pose proof (apart_split _ _ _ _ Ha Hap Hins) as Hs.
    cbn [app] in Hs. by rewrite <- app_assoc in Hs.
  - apply Forall_app. split; [done|]. by apply Forall_singleton.
  - apply Forall_cons in Hins as [_ Hins]. rewrite app_assoc. apply Forall_app. split; [|done].
    eapply Forall_impl; [exact Hins|]. intros v Hv. destruct v as [[[? ?] ?] ?], w as [[[? ?] ?] ?]. simpl in *. lia.
Qed.

Lemma loop_inv_drop a b blocks w q : loop_inv a b blocks (w :: q) -> loop_inv a b blocks q.
Proof.
  intros [Ha Hb Hq]. apply Forall_cons in Hq as [_ Hq]. split; [|done..].
  rewrite StronglySorted_app in Ha. destruct Ha as (Hc & Hl & Hw). apply StronglySorted_inv in Hw as [Hw _].
  apply StronglySorted_app. split_and!; [|done..]. intros x y Hx Hy. apply Hc; [done|by right].
Qed.

(** The loop ends within its bound and leaves ordered matches. *)
Lemma block_loop_total a b fuel queue blocks :
  weight queue <= fuel -> loop_inv a b blocks queue ->
  exists bs, block_loop fuel a b queue blocks = Some bs /\ loop_inv a b bs [].
Proof.
  revert queue blocks. induction fuel as [|fuel IH]; intros [|[[[alo ahi] blo] bhi] q] blocks Hw Hinv.
  - by exists blocks.
  - unfold weight in Hw. simpl in Hw. lia.
  - by exists blocks.
  - cbn [block_loop]. pose proof (li_queue _ _ _ _ Hinv) as [Hin _]%Forall_cons. cbn [inside] in Hin.
    destruct (find_longest_match_spec a b alo ahi blo bhi) as [(H1 & H2 & H3 & H4 & Hm) _]; [lia..|].
    set (m := find_longest_match a b (alo, ahi, blo, bhi)) in *.
    change (weight ((alo, ahi, blo, bhi) :: q)) with (weight ([(alo, ahi, blo, bhi)] ++ q)) in Hw. rewrite weight_app in Hw.
    destruct (Nat.ltb_spec 0 (m_size m)) as [Hk|Hk].
    + assert (Hrect : inside (rect m) (alo, ahi, blo, bhi)) by (cbn [inside rect]; lia).
      destruct (parts_spec _ m Hrect Hk) as (_ & _ & Hlt). rewrite weight_app in Hlt.
      pose proof (loop_inv_push _ _ _ _ _ _ Hinv Hrect Hm Hk) as Hinv'.
      destruct (IH (right_part (alo, ahi, blo, bhi) m ++ left_part (alo, ahi, blo, bhi) m ++ q) (blocks ++ [m]))
        as (bs & Hbs & Hdone); [rewrite !weight_app; lia|done|].
      exists bs. split; [|done]. rewrite <- Hbs. unfold left_part, right_part.
      by destruct ((alo <? m_a m) && _), ((m_a m + m_size m <? ahi) && _).
    + apply loop_inv_drop in Hinv. apply IH; [|done]. change (weight [(alo, ahi, blo, bhi)]) with (2 * (ahi - alo) + 1 + 0) in Hw. lia.
Qed.

(** *** Sorting and merging *)

Definition pos_le (x y : Match) : Prop := pos_gt x y = false.

Lemma pos_le_iff x y : pos_le x y <-> m_a x < m_a y \/ (m_a x = m_a y /\ m_b x <= m_b y).
Proof.
  unfold pos_le, pos_gt. destruct (Nat.ltb_spec (m_a y) (m_a x)), (Nat.eqb_spec (m_a x) (m_a y)),
    (Nat.ltb_spec (m_b y) (m_b x)); simpl; split; intros; try done; lia.
Qed.

Lemma insert_left_perm key l : insert_left key l ≡ₚ key :: l.
Proof. induction l as [|x l IH]; simpl; [done|]. case_match; [|done]. rewrite IH. apply Permutation_swap. Qed.

Lemma insert_left_sorted key l : StronglySorted (flip pos_le) l -> StronglySorted (flip pos_le) (insert_left key l).
Proof.
  induction 1 as [|x l Hl IH Hx]; simpl; [repeat constructor|]. destruct (pos_gt x key) eqn:E.
  - constructor; [done|]. rewrite insert_left_perm. constructor; [|done].
    unfold pos_gt, flip in *. rewrite pos_le_iff.
    destruct (Nat.ltb_spec (m_a key) (m_a x)), (Nat.eqb_spec (m_a x) (m_a key)), (Nat.ltb_spec (m_b key) (m_b x)); simpl in E; try done; lia.
  - constructor; [by constructor|]. constructor; [done|]. eapply Forall_impl; [exact Hx|]. unfold flip.
    intros y Hy. change (pos_le x key) in E. rewrite pos_le_iff in *. lia.
Qed.

Lemma sort_matches_perm l : sort_matches l ≡ₚ l.
Proof.
  unfold sort_matches. rewrite reverse_Permutation.
  enough (forall acc, foldl (fun acc key => insert_left key acc) acc l ≡ₚ acc ++ l) as H by apply H.
  induction l as [|x l IH]; intros acc; simpl; [by rewrite app_nil_r|]. rewrite IH, insert_left_perm.
  apply (Permutation_middle acc l x).
Qed.

Lemma StronglySorted_reverse {A} (R : relation A) l : StronglySorted (flip R) l -> StronglySorted R (reverse l).
Proof.
  induction 1 as [|x l Hl IH Hx]; [constructor|]. rewrite reverse_cons. apply StronglySorted_app.
  split_and!; [|done|repeat constructor]. rewrite Forall_forall in Hx.
  intros y z Hy ->%list_elem_of_singleton. rewrite elem_of_reverse in Hy. exact (Hx y Hy).
Qed.

Lemma sort_matches_sorted l : StronglySorted pos_le (sort_matches l).
Proof.
  unfold sort_matches. apply StronglySorted_reverse.
  enough (forall acc, StronglySorted (flip pos_le) acc ->
            StronglySorted (flip pos_le) (foldl (fun acc key => insert_left key acc) acc l)) as H by (apply H; constructor).
  induction l as [|x l IH]; intros acc Hacc; simpl; [done|]. by apply IH, insert_left_sorted.
Qed.

(** Non-empty matches that are ordered pairwise and sorted by position follow
    each other in both sequences. *)
Lemma sorted_precedes l :
  apart (rect <$> l) -> StronglySorted pos_le l -> Forall (fun m => 0 < m_size m) l -> StronglySorted precedes l.
Proof.
  induction l as [|x l IH]; intros Ha Hs Hp; [constructor|]. cbn [fmap list_fmap] in Ha.
  apply StronglySorted_inv in Ha as [Ha Hax], Hs as [Hs Hsx]. apply Forall_cons in Hp as [Hx Hp].
  constructor; [auto|]. rewrite Forall_fmap in Hax. rewrite Forall_forall in *. intros y Hy.
  specialize (Hax y Hy). specialize (Hsx y Hy). specialize (Hp y Hy). apply pos_le_iff in Hsx.
  cbn [compose ordered rect] in Hax. unfold precedes. simpl in Hax. lia.
Qed.

(** A block list: ordered non-empty matches. *)
Definition block_list (a b : list string) (l : list Match) : Prop :=
  StronglySorted precedes l /\ Forall (fun m => matched a b m /\ 0 < m_size m) l.

Lemma merge_adjacent_spec a b cur l :
  matched a b cur -> Forall (precedes cur) l -> block_list a b l ->
  block_list a b (merge_adjacent cur l) /\
  (forall x, Forall (precedes x) l -> (0 < m_size cur -> precedes x cur) -> Forall (precedes x) (merge_adjacent cur l)).
Proof.
  revert cur. induction l as [|m l IH]; intros cur Hc Hcl [Hs Hm]; cbn [merge_adjacent].
  { destruct (Nat.ltb_spec 0 (m_size cur)).
    - split; [by repeat constructor|]. intros x _ Hx. repeat constructor; by apply Hx.
    - repeat split; constructor. }
  apply StronglySorted_inv in Hs as [Hs Hms]. apply Forall_cons in Hm as [[Hm Hmk] Hml], Hcl as [Hcm Hcl].
  destruct ((0 <? m_size cur) && _ && _) eqn:E.
  - apply andb_true_iff in E as [[Ek%Nat.ltb_lt Ea%Nat.eqb_eq]%andb_true_iff Eb%Nat.eqb_eq].
    destruct (IH (mkMatch (m_a cur) (m_b cur) (m_size cur + m_size m))) as [H1 H2].
    + unfold matched. cbn [m_a m_b m_size]. apply common_app; [done|]. rewrite Ea, Eb. done.
    + eapply Forall_impl; [exact Hms|]. intros y. unfold precedes. simpl. lia.
    + done.
    + split; [done|]. intros x Hx Hxc. apply Forall_cons in Hx as [Hxm Hx]. apply H2; [done|].
      intros _. specialize (Hxc Ek). unfold precedes in *. simpl. lia.
  - destruct (IH m Hm Hms (conj Hs Hml)) as [[H1 H1'] H2]; clear IH.
    destruct (Nat.ltb_spec 0 (m_size cur)) as [Hk|Hk]; cbn [app].
    + split; [split; [constructor; [done|]; by apply H2|by constructor]|].
      intros x Hx Hxc. apply Forall_cons in Hx as [Hxm Hx]. constructor; [by apply Hxc|]. by apply H2.
    + split; [done|]. intros x Hx _. apply Forall_cons in Hx as [Hxm Hx]. by apply H2.
Qed.

Lemma block_loop_keeps a b fuel queue blocks bs m :
  block_loop fuel a b queue blocks = Some bs -> m ∈ blocks -> m ∈ bs.
Proof.
  revert queue blocks. induction fuel as [|fuel IH]; intros [|[[[alo ahi] blo] bhi] q] blocks; cbn [block_loop];
    [by intros [= ->]|done|by intros [= ->]|].
  intros Hbs Hm. destruct (0 <? _); eapply IH; try exact Hbs; [|done]. apply elem_of_app. by left.
Qed.

Lemma merge_adjacent_keeps l cur m : m ∈ cur :: l -> 0 < m_size m ->
  exists m', m' ∈ merge_adjacent cur l /\ m_size m <= m_size m'.
Proof.
  revert cur m. induction l as [|x l IH]; intros cur m Hm Hk; cbn [merge_adjacent].
  { apply list_elem_of_singleton in Hm as ->. exists cur. split; [|done].
    destruct (Nat.ltb_spec 0 (m_size cur)); [by left|lia]. }
  destruct ((0 <? m_size cur) && _ && _).
  - set (cur' := mkMatch _ _ _).
    assert (Hcase : m ∈ l \/ m_size m <= m_size cur').
    { apply elem_of_cons in Hm as [->|[->|Hm]%elem_of_cons]; [right; subst cur'; simpl; lia..|by left]. }
    destruct Hcase as [Hin|Hle].
    + apply (IH cur'); [|done]. by right.
    + destruct (IH cur' cur') as (m' & Hm' & Hle'); [by left|lia|]. exists m'. split; [done|lia].
  - assert (Happ : forall m', m' ∈ merge_adjacent x l -> m' ∈ (if 0 <? m_size cur then [cur] else []) ++ merge_adjacent x l)
      by (intros; apply elem_of_app; by right).
    apply elem_of_cons in Hm as [->|Hm].
    + exists cur. split; [|done]. apply elem_of_app. left. destruct (Nat.ltb_spec 0 (m_size cur)); [by left|lia].
    + destruct (IH x m Hm Hk) as (m' & Hin & Hle). exists m'. split; [by apply Happ|done].
Qed.

(** [matching_blocks] always returns: ordered non-empty matches followed by
    the sentinel. *)
Lemma matching_blocks_spec a b :
  exists l, matching_blocks a b = Some (l ++ [mkMatch (length a) (length b) 0]) /\ block_list a b l /\
    forall x y k, 0 < k -> common a b x y k -> exists m, m ∈ l /\ k <= m_size m.
Proof.
  destruct (block_loop_total a b (block_fuel a) [(0, length a, 0, length b)] []) as (bs & Hbs & [Ha Hb _]).
  - unfold weight, block_fuel. simpl. lia.
  - split; [repeat constructor|constructor|repeat constructor; simpl; lia].
  - unfold matching_blocks. rewrite Hbs. cbn [mbind option_bind]. eexists. split; [done|]. split; cycle 1.
    { intros x y k Hk Hc. destruct (common_bound _ _ _ _ _ Hc Hk).
      destruct (find_longest_match_spec a b 0 (length a) 0 (length b)) as [_ Hmax]; [lia..|].
      specialize (Hmax x y k ltac:(lia) ltac:(lia) ltac:(lia) ltac:(lia) Hc).
      set (m := find_longest_match a b (0, length a, 0, length b)) in *.
      destruct (merge_adjacent_keeps (sort_matches bs) default_match m) as (m' & Hm' & Hle); [|lia|exists m'; split; [done|lia]].
      right. rewrite sort_matches_perm. revert Hbs. unfold block_fuel. rewrite Nat.add_1_r. cbn [block_loop]. fold m.
      rewrite (proj2 (Nat.ltb_lt 0 (m_size m))) by lia. intros Hbs. eapply block_loop_keeps; [exact Hbs|].
      apply list_elem_of_singleton. done. }
    rewrite app_nil_r in Ha. assert (Hb' : Forall (fun m => matched a b m /\ 0 < m_size m) (sort_matches bs)) by by rewrite sort_matches_perm.
    apply merge_adjacent_spec.
    + intros t Ht. simpl in Ht. lia.
    + apply Forall_forall. intros m _. unfold precedes. simpl. lia.
    + split; [|done]. apply sorted_precedes.
      * eapply StronglySorted_sym_perm; [apply _| |exact Ha]. by rewrite sort_matches_perm.
      * apply sort_matches_sorted.
      * eapply Forall_impl; [exact Hb'|]. by intros m [_ ?].
Qed.

(** C35 — the difflib matcher is total and right: on any two sequences the work
    list finishes within its bound and yields non-empty matching blocks, each
    before the next in both sequences, then the sentinel; and no common run of
    lines is longer than the longest block. *)
Theorem matching_blocks_correct (a b : list string) :
  exists l, matching_blocks a b = Some (l ++ [mkMatch (length a) (length b) 0]) /\
    StronglySorted precedes l /\ Forall (fun m => matched a b m /\ 0 < m_size m) l /\
    forall x y k, 0 < k -> common a b x y k -> exists m, m ∈ l /\ k <= m_size m.
Proof. destruct (matching_blocks_spec a b) as (l & Hl & [Hs Hm] & Hmax). by exists l. Qed.

Lemma matched_slice a b m : matched a b m -> 0 < m_size m ->
  m_a m + m_size m <= length a /\ m_b m + m_size m <= length b /\
  take (m_size m) (drop (m_a m) a) = take (m_size m) (drop (m_b m) b).
Proof. intros Hm Hk. destruct (common_bound _ _ _ _ _ Hm Hk). split_and!; [done..|]. by apply common_slice. Qed.

End SeqMatch.
