(* ===== verification/History.v ===== *)
(** * Per-pane transcript history — [lerdr-coord/src/history.rs]

    Each snapshot of a pane is folded into the pane's history: identical
    bodies are skipped, a snapshot overlapping the tail extends it, otherwise
    the best matching block rebases the divergent tail, and failing both the
    body is appended.  Indexing and slicing are partial ([None] is the Rust
    panic).  The directory of state files is a map from names to contents;
    JSON encoding of a state is serde's (class [StateJson]). *)

From S2P Require Import Prelude Utf8 Delta Lines SeqMatch.
Import Utf8 Lines SeqMatch.

Module History.

#[local] Open Scope nat_scope.

Definition MAX_LINES : nat := Z.to_nat 10000.
Definition FOOTER_LINES : nat := 6.
(** Milliseconds. *)
Definition CAPTURE_INTERVAL : Z := 4000.
Definition SAVE_INTERVAL : Z := 10000.

Record PaneState := mkPaneState {
  history : list string;
  footer : list string;
  stale_refusals : Z;
  last_hash : string;
}.

#[export] Instance PaneState_eq_dec : EqDecision PaneState.
Proof. solve_decision. Defined.

Definition default_state : PaneState := mkPaneState [] [] 0 "".

(** ** Normalising a line *)

(** [utf8_len]: the length of the scalar a lead byte starts. *)
Definition utf8_len (lead : Z) : nat :=
  if in_range 0x00 0x7f lead then 1 else if in_range 0xc0 0xdf lead then 2 else if in_range 0xe0 0xef lead then 3 else 4.

Definition is_digit (b : Z) : bool := in_range 48 57 b.
Definition is_alphabetic (b : Z) : bool := in_range 65 90 b || in_range 97 122 b.
(** [[0-9;]]. *)
Definition is_param (b : Z) : bool := is_digit b || bool_decide (b = 59)%Z.

(** The remainder after an escape sequence that starts with [ESC], or [None]
    when the escape stays in the text: CSI with a letter, CSI with an optional
    question mark and one of [hlJKHfG], OSC up to BEL, charset selects, and
    [ESC] followed by [>], [=] or [<]. *)
Definition after_escape (rest : bytes) : option bytes :=
  match rest with
  | 91 :: r =>
      match drop_while is_param r with
      | c :: r' =>
          if is_alphabetic c then Some r'
          else
            match drop_while is_param (match r with 63 :: t => t | _ => r end) with
            | c :: r' => if bool_decide (c ∈ [104; 108; 74; 75; 72; 102; 71])%Z then Some r' else None
            | [] => None
            end
      | [] =>
          match drop_while is_param (match r with 63 :: t => t | _ => r end) with
          | c :: r' => if bool_decide (c ∈ [104; 108; 74; 75; 72; 102; 71])%Z then Some r' else None
          | [] => None
          end
      end
  | 93 :: r => match drop_while (fun b => negb (bool_decide (b = 7))%Z) r with _ :: r' => Some r' | [] => None end
  | c1 :: c2 :: r' =>
      if bool_decide (c1 ∈ [40; 41])%Z && (is_digit c2 || in_range 65 66 c2) then Some r'
      else if bool_decide (c1 ∈ [62; 61; 60])%Z then Some (c2 :: r') else None
  | [c1] => if bool_decide (c1 ∈ [62; 61; 60])%Z then Some [] else None
  | [] => None
  end%Z.

(** The scan of [strip_ansi_history]; each round consumes a byte. *)
Fixpoint strip_loop (fuel : nat) (b : bytes) : bytes :=
  match fuel, b with
  | S fuel, 27%Z :: rest =>
      match after_escape rest with
      | Some r => strip_loop fuel r
      | None => 27%Z :: strip_loop fuel rest
      end
  | S fuel, c :: _ => take (utf8_len c) b ++ strip_loop fuel (drop (utf8_len c) b)
  | _, _ => []
  end.

Definition strip_ansi_history (line : string) : string := string_of_bytes (strip_loop (length (as_bytes line)) (as_bytes line)).

(** [trim_end_matches] of a byte class. *)
Definition trim_end_bytes (p : Z -> bool) (b : bytes) : bytes := reverse (drop_while p (reverse b)).

Definition normalize_line (line : string) : string :=
  string_of_bytes (trim_end_bytes (fun c => bool_decide (c ∈ [32; 9; 10])%Z)
    (filter (fun c => c <> 13%Z) (as_bytes (strip_ansi_history line)))).

Definition normalize_lines (lines : list string) : list string := normalize_line <$> lines.

(** ** Snapshots *)

Definition split_snapshot (raw : string) : list string * list string :=
  let lines := split_nl raw in
  if length lines <=? FOOTER_LINES then (lines, [])
  else (take (length lines - FOOTER_LINES) lines, drop (length lines - FOOTER_LINES) lines).

Fixpoint tail_overlap_from (k : nat) (history current : list string) : nat :=
  match k with
  | O => 0
  | S k' => if decide (drop (length history - k) history = take k current) then k else tail_overlap_from k' history current
  end.

Definition tail_overlap (history current : list string) : nat :=
  tail_overlap_from (min (length history) (length current)) history current.

(** The selection loop of [sequence_match]. *)
Fixpoint best_block (history : list string) (blocks : list Match) (best : Match) : option Match :=
  match blocks with
  | [] => Some best
  | block :: rest =>
      if m_size block <? 2 then best_block history rest best
      else
        lines ← Delta.slice history (m_a block) (m_a block + m_size block);
        if length (filter (fun l => l <> ""%string) lines) <? 2 then best_block history rest best
        else if (m_size best <? m_size block) || ((m_size block =? m_size best) && (m_a best <? m_a block))
        then best_block history rest block
        else best_block history rest best
  end.

Definition sequence_match (history current : list string) : option Match :=
  if bool_decide (history = []) || bool_decide (current = []) then Some default_match
  else blocks ← matching_blocks history current; best_block history blocks default_match.

(** [h * 31 + c] on 64 bits. *)
Definition hash_step (h c : Z) : Z := ((h * 31 + c) mod 2 ^ 64)%Z.
Definition hash_value (lines : list string) : Z :=
  foldl (fun h line => hash_step (foldl hash_step h (chars line)) 10) 0%Z lines.

Definition hex_digit (d : Z) : Ascii.ascii := byte_ascii (if decide (d < 10)%Z then (48 + d)%Z else (87 + d)%Z).
(** [{h:016x}]. *)
Fixpoint hex (n : nat) (h : Z) : string :=
  match n with O => "" | S n => hex n (h / 16) +:+ String (hex_digit (h mod 16)) "" end%Z.
Definition hash_lines (lines : list string) : string := hex 16 (hash_value lines).

(** [history] and [footer] joined, clipped to the last [limit] lines when positive. *)
Definition join_content (st : PaneState) (limit : nat) : string * bool :=
  let truncated := (0 <? limit) && (limit <? length (history st) + length (footer st)) in
  let '(history_lines, footer_lines) :=
    if truncated then
      if limit <=? length (footer st) then ([], drop (length (footer st) - limit) (footer st))
      else (drop (length (history st) - (limit - length (footer st))) (history st), footer st)
    else (history st, footer st) in
  let parts := (if decide (history_lines = []) then [] else [join_nl history_lines]) ++
               (if decide (footer_lines = []) then [] else [join_nl footer_lines]) in
  (join_nl parts, truncated).

(** ** Folding a snapshot *)

(** [a - b] on [usize]. *)
Definition checked_sub (a b : nat) : option nat := if decide (b <= a) then Some (a - b) else None.

(** [l[lo..hi].clone_from_slice(src)]. *)
Definition copy_slice {A} (l : list A) (lo hi : nat) (src : list A) : option (list A) :=
  if decide (lo <= hi <= length l /\ hi - lo = length src) then Some (take lo l ++ src ++ drop hi l) else None.

Definition set_history (st : PaneState) (h : list string) : PaneState := mkPaneState h (footer st) (stale_refusals st) (last_hash st).
Definition set_refusals (st : PaneState) (n : Z) : PaneState := mkPaneState (history st) (footer st) n (last_hash st).

Definition apply_match (st : PaneState) (body : list string) (m : Match) : option PaneState :=
  let history_end := m_a m + m_size m in
  let current_end := m_b m + m_size m in
  below ← checked_sub (length body) (m_b m);
  above ← checked_sub (length (history st)) (m_a m);
  let size := min (min (m_size m) below) above in
  src ← Delta.slice body (m_b m) (m_b m + size);
  h ← copy_slice (history st) (m_a m) (m_a m + size) src;
  current_suffix ← Delta.slice body current_end (length body);
  history_tail ← checked_sub (length h) history_end;
  let rebased := take history_end h ++ current_suffix in
  Some (if decide (current_suffix = []) then set_refusals (set_history st h) 0
        else if decide (length body <= history_tail) then set_refusals (set_history st (h ++ body)) 0
        else if decide (history_tail <= 3) then set_refusals (set_history st rebased) 0
        else let n := (stale_refusals st + 1)%Z in
             if decide (2 <= n)%Z then set_refusals (set_history st rebased) 0
             else set_refusals (set_history st h) n).

(** The merge of one snapshot body into the history. *)
Definition merge_body (st : PaneState) (body : list string) : option PaneState :=
  let normalized := normalize_lines body in
  let hist_norm := normalize_lines (history st) in
  let overlap := tail_overlap hist_norm normalized in
  if 0 <? overlap then
    history_start ← checked_sub (length (history st)) overlap;
    front ← Delta.slice body 0 overlap;
    h ← copy_slice (history st) history_start (length (history st)) front;
    rest ← Delta.slice body overlap (length body);
    Some (set_history st (h ++ rest))
  else
    m ← sequence_match hist_norm normalized;
    if 2 <=? m_size m then apply_match st body m
    else Some (set_refusals (set_history st (history st ++ body)) 0).

Definition clip (st : PaneState) : PaneState :=
  if MAX_LINES <? length (history st) then set_history st (drop (length (history st) - MAX_LINES) (history st)) else st.

(** The pane's new state, and whether the snapshot was folded (the early
    returns leave the state alone and skip the save). *)
Definition fold_snapshot (st : PaneState) (raw : string) : option (PaneState * bool) :=
  let '(body, foot) := split_snapshot raw in
  if decide (body = []) then Some (st, false)
  else
    let hash := hash_lines body in
    if decide (hash = last_hash st /\ stale_refusals st = 0%Z) then Some (st, false)
    else
      st' ← merge_body (mkPaneState (history st) foot (stale_refusals st) hash) body;
      Some (clip st', true).

(** ** The manager *)

Class StateJson := {
  state_to_vec : PaneState -> option bytes;
  state_from_slice : bytes -> option PaneState;
}.

(** What is written is read back. *)
Class StateJsonLaws `{StateJson} := {
  state_roundtrip st data : state_to_vec st = Some data -> state_from_slice data = Some st;
}.

(** [mg_files] is the state directory, [None] when it could not be created. *)
Record Manager := mkManager {
  mg_states : gmap string PaneState;
  mg_last_save : gmap string Z;
  mg_files : option (gmap string bytes);
}.

(** Whether a write and the rename after it succeed. *)
Record FsOutcome := mkFs { write_ok : bool; rename_ok : bool }.

Definition new (dir : option (gmap string bytes)) : Manager := mkManager ∅ ∅ dir.

Fixpoint string_map (f : Ascii.ascii -> Ascii.ascii) (s : string) : string :=
  match s with EmptyString => "" | String c s' => String (f c) (string_map f s') end.

(** [pane_id.replace(['/', ':'], "_")]. *)
Definition flatten (pane_id : string) : string :=
  string_map (fun c => if decide (ascii_byte c = 47 \/ ascii_byte c = 58)%Z then byte_ascii 95 else c) pane_id.
Definition state_file (pane_id : string) : string := flatten pane_id +:+ ".json".

Section Files.
Context `{StateJson}.

Definition load_state (mg : Manager) (pane_id : string) : PaneState :=
  match mg_states mg !! pane_id with
  | Some st => st
  | None => default default_state (files ← mg_files mg; data ← files !! state_file pane_id; state_from_slice data)
  end.

(** Write [name.tmp], then rename it over [name]. *)
Definition save_state (files : gmap string bytes) (name : string) (st : PaneState) (fs : FsOutcome) : gmap string bytes :=
  match state_to_vec st with
  | None => files
  | Some data =>
      if negb (write_ok fs) then files
      else let files := <[name +:+ ".tmp" := data]> files in
           if rename_ok fs then <[name := data]> (delete (name +:+ ".tmp") files) else files
  end.

(** [merge_limited]; [now] is the clock, the result [None] a panic. *)
Definition merge_limited (mg : Manager) (pane_id raw_content : string) (limit : nat) (now : Z) (fs : FsOutcome)
    : option (Manager * (string * bool)) :=
  let st := load_state mg pane_id in
  '(st', folded) ← fold_snapshot st raw_content;
  let states := <[pane_id := st']> (mg_states mg) in
  let due := match mg_last_save mg !! pane_id with None => true | Some last => bool_decide (SAVE_INTERVAL <= now - last)%Z end in
  Some (match mg_files mg with
        | Some files =>
            if folded && due
            then mkManager states (<[pane_id := now]> (mg_last_save mg)) (Some (save_state files (state_file pane_id) st' fs))
            else mkManager states (mg_last_save mg) (Some files)
        | None => mkManager states (mg_last_save mg) None
        end, join_content st' limit).

Definition merge (mg : Manager) (pane_id raw_content : string) (now : Z) (fs : FsOutcome) : option (Manager * string) :=
  '(mg', (text, _)) ← merge_limited mg pane_id raw_content 0 now fs; Some (mg', text).

Definition content (mg : Manager) (pane_id : string) (limit : nat) : Manager * string :=
  let st := load_state mg pane_id in
  (mkManager (<[pane_id := st]> (mg_states mg)) (mg_last_save mg) (mg_files mg), (join_content st limit).1).

Definition discard (mg : Manager) (pane_id : string) : Manager :=
  mkManager (delete pane_id (mg_states mg)) (delete pane_id (mg_last_save mg)) (delete (state_file pane_id) <$> mg_files mg).

Definition save_all (mg : Manager) (fs : FsOutcome) : Manager :=
  mkManager (mg_states mg) (mg_last_save mg)
    ((fun files => foldl (fun files '(pane_id, st) => save_state files (state_file pane_id) st fs) files (map_to_list (mg_states mg)))
       <$> mg_files mg).

(** [name.ends_with(".json")]. *)
Definition ends_with (suffix s : string) : bool :=
  bool_decide (drop (length (as_bytes s) - length (as_bytes suffix)) (as_bytes s) = as_bytes suffix).

Definition reconcile (mg : Manager) (active : gset string) : Manager :=
  let active_files : gset string := set_map state_file active in
  mkManager (filter (fun p : string * PaneState => p.1 ∈ active) (mg_states mg))
    (filter (fun p : string * Z => p.1 ∈ active) (mg_last_save mg))
    (filter (fun p : string * bytes => ends_with ".json" p.1 = false \/ p.1 ∈ active_files) <$> mg_files mg).
End Files.

(** ** Lemmas *)

(** The last [n] elements. *)
Definition last_n {A} (n : nat) (l : list A) : list A := drop (length l - n) l.

Lemma last_n_app_r {A} n (l k : list A) : n <= length k -> last_n n (l ++ k) = last_n n k.
Proof.
  intros Hn. unfold last_n. rewrite length_app, drop_app. rewrite drop_ge by lia.
  simpl. f_equal. lia.
Qed.

Lemma last_n_app_l {A} n (l k : list A) : length k <= n -> last_n n (l ++ k) = last_n (n - length k) l ++ k.
Proof.
  intros Hn. unfold last_n. rewrite length_app, drop_app.
  replace (length l + length k - n) with (length l - (n - length k)) by lia.
  replace (length l - (n - length k) - length l) with 0 by lia. done.
Qed.

(** Clipping and joining two parts is joining the tail of their concatenation. *)
Lemma join_parts h f :
  join_nl ((if decide (h = []) then [] else [join_nl h]) ++ (if decide (f = []) then [] else [join_nl f])) = join_nl (h ++ f).
Proof.
  destruct (decide (h = [])) as [->|Hh], (decide (f = [])) as [->|Hf]; cbn [app]; try done.
  - by rewrite app_nil_r.
  - rewrite join_nl_app by done. done.
Qed.

Lemma join_content_tail st limit :
  join_content st limit =
  (join_nl (if 0 <? limit then last_n limit (history st ++ footer st) else history st ++ footer st),
   (0 <? limit) && (limit <? length (history st ++ footer st))).
Proof.
  unfold join_content. rewrite length_app. destruct (Nat.ltb_spec 0 limit) as [Hl|Hl]; cbn [andb].
  2: { by rewrite join_parts. }
  destruct (Nat.ltb_spec limit (length (history st) + length (footer st))) as [Ht|Ht].
  - destruct (Nat.leb_spec limit (length (footer st))) as [Hf|Hf]; rewrite join_parts.
    + cbn [app]. rewrite last_n_app_r by done. done.
    + rewrite last_n_app_l by lia. done.
  - rewrite join_parts. unfold last_n. rewrite length_app.
    replace (length (history st) + length (footer st) - limit) with 0 by lia. done.
Qed.

(** *** Normalised rows *)

Lemma normalize_lines_app l k : normalize_lines (l ++ k) = normalize_lines l ++ normalize_lines k.
Proof. apply fmap_app. Qed.
Lemma normalize_lines_take n l : normalize_lines (take n l) = take n (normalize_lines l).
Proof. apply fmap_take. Qed.
Lemma normalize_lines_drop n l : normalize_lines (drop n l) = drop n (normalize_lines l).
Proof. apply fmap_drop. Qed.
Lemma normalize_lines_length l : length (normalize_lines l) = length l.
Proof. apply length_fmap. Qed.

#[local] Hint Rewrite normalize_lines_app normalize_lines_take normalize_lines_drop normalize_lines_length : history.

(** *** Overlap and best block *)

Lemma tail_overlap_from_spec k h c : k <= length h -> k <= length c ->
  let o := tail_overlap_from k h c in o <= k /\ drop (length h - o) h = take o c.
Proof.
  intros Hh Hc. induction k as [|k IH]; cbn [tail_overlap_from].
  - cbv zeta. split; [done|]. by rewrite Nat.sub_0_r, drop_all.
  - case_decide as Hd; [done|]. cbv zeta in IH. destruct IH as [? ?]; [lia..|]. split; [lia|done].
Qed.

Lemma tail_overlap_spec h c :
  let o := tail_overlap h c in o <= length h /\ o <= length c /\ drop (length h - o) h = take o c.
Proof.
  cbv zeta. destruct (tail_overlap_from_spec (min (length h) (length c)) h c) as [Hle Heq]; [lia..|].
  unfold tail_overlap. split_and!; [lia..|done].
Qed.

(** The best block is none, or one of the blocks. *)
Lemma best_block_spec h blocks best (P : Match -> Prop) :
  Forall (fun m => m_a m + m_size m <= length h) blocks -> P best -> Forall P blocks ->
  exists m, best_block h blocks best = Some m /\ P m.
Proof.
  intros Hb. revert best. induction Hb as [|m blocks Hm _ IH]; intros best Hbest HP; cbn [best_block].
  { by exists best. }
  apply Forall_cons in HP as [HPm HP]. case_match; [by apply IH|].
  unfold Delta.slice. rewrite decide_True by lia. cbn [mbind option_bind].
  case_match; [by apply IH|]. case_match; by apply IH.
Qed.

Lemma sequence_match_spec h c :
  exists m, sequence_match h c = Some m /\ (0 < m_size m -> matched h c m).
Proof.
  unfold sequence_match. destruct (bool_decide (h = []) || bool_decide (c = [])); [exists default_match; split; [done|simpl; lia]|].
  destruct (matching_blocks_spec h c) as (l & -> & [_ Hl] & _). cbn [mbind option_bind].
  apply best_block_spec; [|simpl; lia|].
  - apply Forall_app. split; [|apply Forall_singleton; simpl; lia]. eapply Forall_impl; [exact Hl|].
    intros m [Hm Hk]. by destruct (matched_slice h c m Hm Hk).
  - apply Forall_app. split; [|apply Forall_singleton; simpl; lia]. eapply Forall_impl; [exact Hl|].
    by intros m [Hm Hk] _.
Qed.

(** ** What a merge does

    Up to normalisation of rows, the new history is the first [p] rows of the
    old one followed by the body from row [q] on. *)
Definition spliced (st st' : PaneState) (body : list string) (p q : nat) : Prop :=
  p <= length (history st) /\ q <= length body /\
  normalize_lines (history st') = take p (normalize_lines (history st)) ++ drop q (normalize_lines body).

(** The last rows of the body (two or more) are already in the history. *)
Definition tail_known (st : PaneState) (body : list string) : Prop :=
  exists x n, 2 <= n <= length body /\ x + n <= length (history st) /\
    take n (drop x (normalize_lines (history st))) = drop (length body - n) (normalize_lines body).

(** A merge keeps the old state's rows and shows the body's last row, unless
    the body only re-shows known rows or the divergence is refused once. *)
Definition merged (st st' : PaneState) (body : list string) : Prop :=
  exists p q, spliced st st' body p q /\
    (q < length body \/ p = length (history st) /\ (tail_known st body \/ stale_refusals st' = (stale_refusals st + 1)%Z)).

Lemma copy_slice_norm h body m h' :
  matched (normalize_lines h) (normalize_lines body) m -> 0 < m_size m ->
  copy_slice h (m_a m) (m_a m + m_size m) (take (m_size m) (drop (m_b m) body)) = Some h' ->
  normalize_lines h' = normalize_lines h /\ length h' = length h.
Proof.
  intros Hm Hk. destruct (matched_slice _ _ _ Hm Hk) as (Ha & Hb & Heq). autorewrite with history in *.
  unfold copy_slice. case_decide as Hd; [|done]. intros [= <-]. split.
  - autorewrite with history. rewrite <- Heq. rewrite <- drop_drop. rewrite (take_drop (m_size m)). apply take_drop.
  - rewrite !length_app, !length_take, !length_drop in *. lia.
Qed.

Lemma apply_match_spec st body m :
  matched (normalize_lines (history st)) (normalize_lines body) m -> 2 <= m_size m -> (0 <= stale_refusals st <= 1)%Z ->
  exists st', apply_match st body m = Some st' /\ merged st st' body /\ (0 <= stale_refusals st' <= 1)%Z /\
    footer st' = footer st /\ last_hash st' = last_hash st.
Proof.
  intros Hm Hk Hst. destruct (matched_slice _ _ _ Hm ltac:(lia)) as (Ha & Hb & Heq). autorewrite with history in Ha, Hb.
  unfold apply_match, checked_sub, Delta.slice. rewrite !(decide_True (P := _ <= _)) by lia. cbn [mbind option_bind].
  replace (min (min (m_size m) (length body - m_b m)) (length (history st) - m_a m)) with (m_size m) by lia.
  rewrite (decide_True (P := m_b m <= m_b m + m_size m <= length body)) by lia. cbn [mbind option_bind].
  replace (m_b m + m_size m - m_b m) with (m_size m) by lia.
  destruct (copy_slice _ _ _ _) as [h|] eqn:Hcopy; cbn [mbind option_bind].
  2: { unfold copy_slice in Hcopy. rewrite decide_True in Hcopy; [done|]. rewrite length_take, length_drop. lia. }
  destruct (copy_slice_norm _ _ _ _ Hm ltac:(lia) Hcopy) as [Hnorm Hlen].
  rewrite (decide_True (P := m_b m + m_size m <= length body <= length body)) by lia. cbn [mbind option_bind].
  rewrite (decide_True (P := m_a m + m_size m <= length h)) by lia. cbn [mbind option_bind]. eexists. split; [done|].
  set (suffix := take _ (drop (m_b m + m_size m) body)).
  assert (Hsuf : normalize_lines suffix = drop (m_b m + m_size m) (normalize_lines body)).
  { subst suffix. autorewrite with history. apply take_ge. rewrite length_drop, normalize_lines_length. lia. }
  assert (Hreb : forall n, merged st (set_refusals (set_history st (take (m_a m + m_size m) h ++ suffix)) n) body \/ suffix = []).
  { intros n. destruct (decide (suffix = [])) as [|Hne]; [by right|left].
    exists (m_a m + m_size m), (m_b m + m_size m). split; [split_and!; [lia..|]|left].
    - cbn [history set_refusals set_history]. autorewrite with history. by rewrite Hnorm, Hsuf.
    - destruct (decide (m_b m + m_size m < length body)); [done|]. destruct Hne. subst suffix.
      rewrite drop_ge by lia. by rewrite take_nil. }
  repeat case_decide; cbn [stale_refusals set_refusals set_history footer last_hash];
    (split; [|split_and!; try done; lia]).
  - exists (length (history st)), (length body). split; [split_and!; [done..|]|right].
    + cbn [history set_refusals set_history]. rewrite Hnorm, take_ge, drop_ge by (rewrite normalize_lines_length; lia). by rewrite app_nil_r.
    + split; [done|]. left. exists (m_a m), (m_size m). split_and!; [lia..|].
      assert (length suffix = 0) as Hl0 by by rewrite H. subst suffix. rewrite length_take, length_drop in Hl0.
      rewrite Heq. replace (length body - m_size m) with (m_b m) by lia. apply take_ge. rewrite length_drop, normalize_lines_length. lia.
  - exists (length (history st)), 0. split; [split_and!; [done|lia|]|left; lia].
    cbn [history set_refusals set_history]. autorewrite with history. rewrite Hnorm, take_ge by (rewrite normalize_lines_length; lia). by rewrite drop_0.
  - by destruct (Hreb 0%Z).
  - by destruct (Hreb 0%Z).
  - exists (length (history st)), (length body). split; [split_and!; [done..|]|right].
    + cbn [history set_refusals set_history]. rewrite Hnorm, take_ge, drop_ge by (rewrite normalize_lines_length; lia). by rewrite app_nil_r.
    + split; [done|]. right. done.
Qed.

Definition refusals_ok (st : PaneState) : Prop := (0 <= stale_refusals st <= 1)%Z.

Lemma merge_body_spec st body :
  body <> [] -> refusals_ok st ->
  exists st', merge_body st body = Some st' /\ merged st st' body /\ refusals_ok st' /\
    footer st' = footer st /\ last_hash st' = last_hash st.
Proof.
  intros Hne Hst. unfold merge_body. assert (Hlen : 0 < length body) by (destruct body; simpl; [done|lia]).
  pose proof (tail_overlap_spec (normalize_lines (history st)) (normalize_lines body)) as (Ho1 & Ho2 & Ho3).
  set (o := tail_overlap _ _) in *. autorewrite with history in *.
  destruct (Nat.ltb_spec 0 o) as [Ho|Ho].
  - unfold checked_sub, Delta.slice, copy_slice. rewrite (decide_True (P := o <= length (history st))) by lia.
    cbn [mbind option_bind]. rewrite (decide_True (P := 0 <= o <= length body)) by lia. cbn [mbind option_bind].
    rewrite drop_0, Nat.sub_0_r. rewrite (decide_True (P := _ /\ _ = _)) by (rewrite length_take; lia). cbn [mbind option_bind].
    rewrite (decide_True (P := o <= length body <= length body)) by lia. cbn [mbind option_bind]. eexists. split; [done|]. split_and!; try done.
    exists (length (history st) - o), 0. split; [split_and!; [lia..|]|by left].
    cbn [history set_history]. rewrite drop_all, app_nil_r, (take_ge (drop o body)) by (rewrite length_drop; lia).
    rewrite <- app_assoc, take_drop. autorewrite with history. by rewrite drop_0.
  - destruct (sequence_match_spec (normalize_lines (history st)) (normalize_lines body)) as (m & -> & Hm).
    cbn [mbind option_bind]. destruct (Nat.leb_spec 2 (m_size m)) as [Hk|Hk].
    + apply apply_match_spec; [apply Hm; lia|lia|done].
    + eexists. split; [done|]. split_and!; try done.
      exists (length (history st)), 0. split; [split_and!; [lia..|]|by left].
      cbn [history set_history set_refusals]. autorewrite with history.
      rewrite take_ge by (rewrite normalize_lines_length; lia). by rewrite drop_0.
Qed.

Lemma split_snapshot_body raw : (split_snapshot raw).1 <> [].
Proof.
  unfold split_snapshot. destruct (split_nl_cons raw) as (l & ls & E). case_match; cbn [fst]; [by rewrite E|].
  apply Nat.leb_gt in H. intros Hn%(f_equal length). rewrite length_take in Hn. simpl in Hn. lia.
Qed.

Lemma clip_spec st :
  length (history (clip st)) <= MAX_LINES /\ history (clip st) = last_n MAX_LINES (history st) /\
  footer (clip st) = footer st /\ last_hash (clip st) = last_hash st /\ stale_refusals (clip st) = stale_refusals st.
Proof.
  unfold clip. destruct (Nat.ltb_spec MAX_LINES (length (history st))) as [Hl|Hl].
  - split_and!; [|done..]. cbn [history set_history]. rewrite length_drop. lia.
  - split_and!; [done| |done..]. unfold last_n. by replace (length (history st) - MAX_LINES) with 0 by lia.
Qed.

Lemma fold_snapshot_spec st raw : refusals_ok st ->
  exists st' folded, fold_snapshot st raw = Some (st', folded) /\ refusals_ok st' /\
  if folded : bool then
    length (history st') <= MAX_LINES /\ footer st' = (split_snapshot raw).2 /\
    exists st1, history st' = last_n MAX_LINES (history st1) /\ stale_refusals st' = stale_refusals st1 /\
      merged st st1 (split_snapshot raw).1
  else st' = st.
Proof.
  intros Hst. unfold fold_snapshot. pose proof (split_snapshot_body raw) as Hb.
  destruct (split_snapshot raw) as [body foot]. cbn [fst snd] in *. rewrite decide_False by done.
  case_decide; [by eexists _, false|].
  destruct (merge_body_spec (mkPaneState (history st) foot (stale_refusals st) (hash_lines body)) body Hb Hst)
    as (st1 & -> & Hm & Hr & Hf & Hh). cbn [mbind option_bind]. exists (clip st1), true.
  destruct (clip_spec st1) as (Hlen & Hhist & Hfo & _ & Hst1). unfold refusals_ok in *. rewrite Hst1, Hfo.
  do 4 (split; [done|]). exists st1. split; [done|]. by split.
Qed.

(** ** The manager's invariant *)

Definition state_ok (st : PaneState) : Prop := refusals_ok st /\ length (history st) <= MAX_LINES.

Lemma default_state_ok : state_ok default_state.
Proof. split; [unfold refusals_ok; simpl; lia|simpl; lia]. Qed.

Section Manager.
Context `{StateJson}.

(** Every state, in memory or decodable from a file, is well-formed. *)
Definition manager_ok (mg : Manager) : Prop :=
  map_Forall (fun _ st => state_ok st) (mg_states mg) /\
  forall files, mg_files mg = Some files -> map_Forall (fun _ data => forall st, state_from_slice data = Some st -> state_ok st) files.

Lemma load_state_ok mg p : manager_ok mg -> state_ok (load_state mg p).
Proof.
  intros [Hs Hf]. unfold load_state. destruct (mg_states mg !! p) as [st|] eqn:E; [by apply (Hs p)|].
  pose proof default_state_ok.
  destruct (mg_files mg) as [files|] eqn:Ef; [|done].
  cbn [mbind option_bind]. destruct (files !! state_file p) as [data|] eqn:Ed; [|done].
  cbn [mbind option_bind]. destruct (state_from_slice data) as [st|] eqn:Es; [|done]. exact (Hf files eq_refl (state_file p) data Ed st Es).
Qed.

Context `{!StateJsonLaws}.

Lemma save_state_ok files name st fs :
  map_Forall (fun _ data => forall st, state_from_slice data = Some st -> state_ok st) files -> state_ok st ->
  map_Forall (fun _ data => forall st, state_from_slice data = Some st -> state_ok st) (save_state files name st fs).
Proof.
  intros Hf Hst. unfold save_state. destruct (state_to_vec st) as [data|] eqn:E; [|done].
  apply state_roundtrip in E. destruct (write_ok fs); [|done]. cbn [negb].
  assert (Hd : forall st0, state_from_slice data = Some st0 -> state_ok st0) by (intros st0; rewrite E; by intros [= <-]).
  destruct (rename_ok fs); [|by apply map_Forall_insert_2]. apply map_Forall_insert_2; [done|].
  apply map_Forall_delete. by apply map_Forall_insert_2.
Qed.

Lemma map_Forall_filter_keep {A} (P : string -> A -> Prop) (Q : string * A -> Prop) `{!forall x, Decision (Q x)} (m : gmap string A) :
  map_Forall P m -> map_Forall P (filter Q m).
Proof. intros Hm k x [Hk _]%map_lookup_filter_Some. by apply Hm. Qed.

(** The operations of the manager. *)
Inductive op :=
| OpMerge (pane raw : string) (limit : nat) (now : Z) (fs : FsOutcome)
| OpContent (pane : string) (limit : nat)
| OpDiscard (pane : string)
| OpSaveAll (fs : FsOutcome)
| OpReconcile (active : gset string).

Definition run_op (mg : Manager) (o : op) : option Manager :=
  match o with
  | OpMerge p raw limit now fs => fst <$> merge_limited mg p raw limit now fs
  | OpContent p limit => Some (content mg p limit).1
  | OpDiscard p => Some (discard mg p)
  | OpSaveAll fs => Some (save_all mg fs)
  | OpReconcile active => Some (reconcile mg active)
  end.

Lemma merge_limited_ok mg p raw limit now fs : manager_ok mg ->
  exists mg' st', merge_limited mg p raw limit now fs = Some (mg', join_content st' limit) /\
    mg_states mg' = <[p := st']> (mg_states mg) /\ manager_ok mg' /\
    exists folded, fold_snapshot (load_state mg p) raw = Some (st', folded).
Proof.
  intros Hok. destruct (load_state_ok mg p Hok) as [Hr Hl]. destruct Hok as [Hs Hf].
  destruct (fold_snapshot_spec _ raw Hr) as (st' & folded & E & Hr' & Hfold).
  assert (Hst' : state_ok st') by (split; [done|]; destruct folded; [apply Hfold|by subst st']).
  unfold merge_limited. rewrite E. cbn [mbind option_bind]. cbv zeta.
  assert (Hins : map_Forall (fun _ st => state_ok st) (<[p := st']> (mg_states mg))) by (by apply map_Forall_insert_2).
  destruct (mg_files mg) as [files|] eqn:Ef; [destruct (folded && _)|];
    (eexists _, st'; split; [done|]; split; [done|]; split; [|by exists folded]); (split; [done|]); cbn [mg_files]; [..|done].
  - intros fls [= <-]. apply save_state_ok; [by apply Hf|done].
  - intros fls [= <-]. by apply Hf.
Qed.

Lemma save_all_files_ok files l fs :
  map_Forall (fun _ data => forall st, state_from_slice data = Some st -> state_ok st) files ->
  Forall (fun p : string * PaneState => state_ok p.2) l ->
  map_Forall (fun _ data => forall st, state_from_slice data = Some st -> state_ok st)
    (foldl (fun files '(pane_id, st) => save_state files (state_file pane_id) st fs) files l).
Proof.
  intros Hf Hl. revert files Hf. induction Hl as [|[p st] l Hst _ IH]; intros files Hf; simpl; [done|].
  apply IH. by apply save_state_ok.
Qed.

Lemma run_op_ok mg o : manager_ok mg -> exists mg', run_op mg o = Some mg' /\ manager_ok mg'.
Proof.
  intros Hok. pose proof Hok as [Hs Hf]. destruct o as [p raw limit now fs|p limit|p|fs|active]; cbn [run_op].
  - destruct (merge_limited_ok mg p raw limit now fs Hok) as (mg' & st' & -> & _ & Hok' & _). by exists mg'.
  - eexists. split; [done|]. split; [|done]. apply map_Forall_insert_2; [by apply load_state_ok|done].
  - eexists. split; [done|]. split; [by apply map_Forall_delete|]. cbn [discard mg_files].
    intros files. destruct (mg_files mg) as [f|]; [|done]. intros [= <-]. apply map_Forall_delete. by apply Hf.
  - eexists. split; [done|]. split; [done|]. cbn [save_all mg_files].
    intros files. destruct (mg_files mg) as [f|]; [|done]. intros [= <-]. apply save_all_files_ok; [by apply Hf|].
    apply Forall_forall. intros [p st] Hin%elem_of_map_to_list. by apply (Hs p).
  - eexists. split; [done|]. split; [by apply map_Forall_filter_keep|]. cbn [reconcile mg_files].
    intros files. destruct (mg_files mg) as [f|]; [|done]. intros [= <-]. apply map_Forall_filter_keep. by apply Hf.
Qed.

Fixpoint run_ops (mg : Manager) (ops : list op) : option Manager :=
  match ops with [] => Some mg | o :: ops => mg' ← run_op mg o; run_ops mg' ops end.

Lemma run_ops_ok mg ops : manager_ok mg -> exists mg', run_ops mg ops = Some mg' /\ manager_ok mg'.
Proof.
  revert mg. induction ops as [|o ops IH]; intros mg Hok; [by exists mg|]. cbn [run_ops].
  destruct (run_op_ok mg o Hok) as (mg' & -> & Hok'). by apply IH.
Qed.

(** *** Restart *)

Lemma tmp_not_state p q : state_file p <> state_file q +:+ ".tmp".
Proof.
  unfold state_file. intros E%(f_equal as_bytes). rewrite !as_bytes_app in E. apply (f_equal last) in E.
  rewrite <- app_assoc in E. change (as_bytes ".json") with ([46; 106; 115; 111] ++ [110])%Z in E at 1.
  change (as_bytes ".tmp") with ([46; 116; 109] ++ [112])%Z in E. rewrite !app_assoc, !last_snoc in E. done.
Qed.

Definition good_fs : FsOutcome := mkFs true true.

Lemma save_state_lookup files p q st data :
  state_to_vec st = Some data ->
  save_state files (state_file p) st good_fs !! state_file q =
    if decide (state_file p = state_file q) then Some data else files !! state_file q.
Proof.
  intros E. unfold save_state. rewrite E. cbn [negb write_ok rename_ok good_fs]. case_decide as Hd.
  - rewrite Hd, lookup_insert_eq. done.
  - rewrite lookup_insert_ne by done. pose proof (tmp_not_state q p) as Ht.
    rewrite lookup_delete_ne, lookup_insert_ne by congruence. done.
Qed.

Lemma saves_lookup l files p st data :
  NoDup l.*1 -> (p, st) ∈ l -> state_to_vec st = Some data ->
  (forall q st', (q, st') ∈ l -> is_Some (state_to_vec st') /\ (state_file q = state_file p -> q = p)) ->
  foldl (fun files '(pane_id, st) => save_state files (state_file pane_id) st good_fs) files l !! state_file p = Some data.
Proof.
  intros Hnd Hin Hst Hinj. induction l as [|[q st'] l IH] using rev_ind; [by apply elem_of_nil in Hin|].
  rewrite foldl_app. cbn [foldl]. rewrite fmap_app, NoDup_app in Hnd. destruct Hnd as (Hnd & Hdis & _).
  destruct (Hinj q st') as [[data' E'] Hq]; [apply elem_of_app; right; by left|].
  rewrite (save_state_lookup _ q p st' data' E'). case_decide as Hd.
  - apply Hq in Hd as ->. apply elem_of_app in Hin as [Hin|Hin].
    + exfalso. apply (Hdis p); [apply list_elem_of_fmap; by exists (p, st)|simpl; by left].
    + apply list_elem_of_singleton in Hin as [= ->]. congruence.
  - apply elem_of_app in Hin as [Hin|Hin]; [|apply list_elem_of_singleton in Hin as [= -> _]; done].
    apply IH; [done|done|]. intros r sr Hr. apply Hinj. apply elem_of_app. by left.
Qed.

(** C14 — after any sequence of merges, reads, discards, saves and reconciles,
    folding a snapshot never panics; the history stays within 10,000 rows and
    is, up to normalised rows, a prefix of the old history continued by the
    snapshot's body — ending on its last row unless the body only re-shows
    known rows or the divergence is refused once — and the text returned is
    the last [limit] rows of history and footer. *)
Theorem history_merge_is_splice (mg mg1 : Manager) (ops : list op) (p raw : string) (limit : nat) (now : Z) (fs : FsOutcome) :
  manager_ok mg -> run_ops mg ops = Some mg1 ->
  let st := load_state mg1 p in
  exists mg2 st' shown, merge_limited mg1 p raw limit now fs = Some (mg2, shown) /\ mg_states mg2 !! p = Some st' /\
    length (history st') <= MAX_LINES /\
    (st' = st \/ footer st' = (split_snapshot raw).2 /\
       exists st1, history st' = last_n MAX_LINES (history st1) /\ merged st st1 (split_snapshot raw).1) /\
    shown = (join_nl (if 0 <? limit then last_n limit (history st' ++ footer st') else history st' ++ footer st'),
             (0 <? limit) && (limit <? length (history st' ++ footer st'))).
Proof.
  intros Hok Hrun st. destruct (run_ops_ok mg ops Hok) as (mg' & Hrun' & Hok1). rewrite Hrun in Hrun'. injection Hrun' as <-.
  destruct (merge_limited_ok mg1 p raw limit now fs Hok1) as (mg2 & st' & Hm & Hs & Hok2 & folded & Hfold).
  exists mg2, st', (join_content st' limit). rewrite Hs, lookup_insert_eq. split_and!; [done..| | |apply join_content_tail].
  - destruct Hok2 as [Hall _]. rewrite Hs in Hall. by destruct (Hall p st' (lookup_insert_eq _ _ _)).
  - destruct (load_state_ok mg1 p Hok1) as [Hr _].
    destruct (fold_snapshot_spec _ raw Hr) as (st2 & f2 & E & _ & Hspec). rewrite Hfold in E. injection E as <- <-.
    destruct folded; [right|by left]. destruct Hspec as (_ & Hf & st1 & Hh & _ & Hmg). split; [done|]. by exists st1.
Qed.

(** A restart loses no saved history: when the directory works, every pane's
    state is read back from its file by a fresh manager, provided no two panes
    flatten to the same file name. *)
Theorem restart_keeps_history (mg : Manager) (files : gmap string bytes) (p : string) (st : PaneState) :
  mg_files mg = Some files -> mg_states mg !! p = Some st ->
  (forall q st', mg_states mg !! q = Some st' -> is_Some (state_to_vec st') /\ (state_file q = state_file p -> q = p)) ->
  load_state (new (mg_files (save_all mg good_fs))) p = st.
Proof.
  intros Hf Hp Hall. destruct (Hall p st Hp) as [[data Hd] _].
  unfold load_state, save_all. cbn [new mg_states mg_files]. rewrite lookup_empty, Hf. cbn [fmap option_fmap option_map mbind option_bind].
  rewrite (saves_lookup (map_to_list (mg_states mg)) files p st data).
  - cbn [mbind option_bind]. by rewrite (state_roundtrip st data Hd).
  - apply NoDup_fst_map_to_list.
  - by apply elem_of_map_to_list.
  - done.
  - intros q st' Hq%elem_of_map_to_list. by apply Hall.
Qed.

End Manager.

(** ** A concrete codec and an example *)

#[export] Instance PaneState_countable : Countable PaneState.
Proof.
  apply (inj_countable' (fun st => (history st, footer st, stale_refusals st, last_hash st))
           (fun '(h, f, n, l) => mkPaneState h f n l)). by intros [].
Defined.

(** The bits of a positive number, one byte each. *)
Fixpoint bits (p : positive) : bytes := match p with xH => [] | xO p => 0 :: bits p | xI p => 1 :: bits p end%Z.
Fixpoint of_bits (b : bytes) : positive := match b with [] => xH | z :: b => if decide (z = 0)%Z then xO (of_bits b) else xI (of_bits b) end.

Lemma of_bits_bits p : of_bits (bits p) = p.
Proof. induction p as [p IH|p IH|]; simpl; by rewrite ?IH. Qed.

#[export] Instance demo_state_json : StateJson := {
  state_to_vec st := Some (bits (encode st));
  state_from_slice data := decode (of_bits data);
}.

#[export] Instance demo_state_laws : StateJsonLaws.
Proof. constructor. intros st data [= <-]. cbn [state_from_slice demo_state_json]. rewrite of_bits_bits. apply decode_encode. Qed.

Definition demo_frame (rows : list string) : string := join_nl (rows ++ ["f1"; "f2"; "f3"; "f4"; "f5"; "f6"]%string).

Definition demo_ops : list op :=
  [OpMerge "w1:p1" (demo_frame ["a"; "b"; "c"; "d"]%string) 0 0 good_fs].

(** A second snapshot overlapping the tail extends the history in place. *)
Example history_extends :
  (fun r => r.2) <$> (mg ← run_ops (new (Some ∅)) demo_ops; merge_limited mg "w1:p1" (demo_frame ["c"; "d"; "e"]%string) 9 5 good_fs)
  = Some (join_nl ["c"; "d"; "e"; "f1"; "f2"; "f3"; "f4"; "f5"; "f6"]%string, true).
Proof. vm_compute. reflexivity. Qed.

Lemma history_merge_is_splice_witness :
  exists mg2 st' shown,
    (mg ← run_ops (new (Some ∅)) demo_ops; merge_limited mg "w1:p1" (demo_frame ["c"; "d"; "e"]%string) 9 5 good_fs) = Some (mg2, shown) /\
    length (history st') <= MAX_LINES.
Proof.
  destruct (run_ops (new (Some ∅)) demo_ops) as [mg1|] eqn:E; [|vm_compute in E; discriminate E].
  destruct (history_merge_is_splice (new (Some ∅)) mg1 demo_ops "w1:p1" (demo_frame ["c"; "d"; "e"]%string) 9 5 good_fs)
    as (mg2 & st' & shown & Hm & _ & Hl & _).
  - split; [apply map_Forall_empty|]. intros files [= <-]. apply map_Forall_empty.
  - exact E.
  - exists mg2, st', shown. split; [exact Hm|exact Hl].
Defined.

Lemma restart_keeps_history_witness :
  load_state (new (mg_files (save_all (mkManager {["w1:p1" := default_state]} ∅ (Some ∅)) good_fs))) "w1:p1" = default_state.
Proof.
  apply (restart_keeps_history (mkManager {["w1:p1" := default_state]} ∅ (Some ∅)) ∅); [done|by apply lookup_singleton_eq|].
  cbn [mg_states]. intros q st' Hq. apply lookup_singleton_Some in Hq as [<- <-]. split; [by eexists|done].
Defined.

End History.
