(* ===== verification/PaneRows.v ===== *)
(** * Rows of a pane: scrollback above the live screen

    The text side of [lerdr-coord/src/pane_stream.rs] (locating the screen
    inside a scrollback read, rendering history above the screen),
    [cap_pane_content_lines] of [lerdr-coord/src/watches.rs] and the row
    merging of [lerdr-coord/src/controlled_history.rs].  The terminal emulator
    ([vt100]) is an argument: the function that renders its screen.  Slicing is
    partial, [None] is the Rust panic. *)

From S2P Require Import Prelude Utf8 Delta Lines.
Import Utf8 Lines.

Module PaneRows.

#[local] Open Scope nat_scope.

(** ** Comparing rows *)

Definition of_chars (cs : list Z) : string := string_of_bytes (utf8_encode cs).

Definition trim_end_chars (cs : list Z) : list Z := reverse (drop_while is_whitespace (reverse cs)).

(** What is left after a CSI sequence: parameters up to a final byte. *)
Fixpoint skip_csi (cs : list Z) : list Z :=
  match cs with
  | [] => []
  | c :: r => if in_range 64 126 c then r else skip_csi r
  end.

(** What is left after an OSC sequence: up to BEL or [ESC \]. *)
Fixpoint skip_osc (cs : list Z) : list Z :=
  match cs with
  | [] => []
  | c :: r =>
      if decide (c = 7%Z) then r
      else if decide (c = 27%Z) then match r with 92%Z :: r' => r' | _ => skip_osc r end
      else skip_osc r
  end.

(** The scan of [comparable_row]; each round consumes a character. *)
Fixpoint comparable_loop (fuel : nat) (cs : list Z) : list Z :=
  match fuel, cs with
  | S fuel, c :: r =>
      if decide (c = 27%Z) then
        match r with
        | [] => []
        | e :: r' =>
            if decide (e = 91%Z) then comparable_loop fuel (skip_csi r')
            else if decide (e = 93%Z) then comparable_loop fuel (skip_osc r')
            else comparable_loop fuel r'
        end
      else if decide (c = 13%Z) then comparable_loop fuel r
      else c :: comparable_loop fuel r
  | _, _ => []
  end.

Definition comparable_chars (row : string) : list Z := trim_end_chars (comparable_loop (length (chars row)) (chars row)).
Definition comparable_row (row : string) : string := of_chars (comparable_chars row).

(** Drops a scrollbar cell set off by two spaces. *)
Definition application_row (row : string) : string :=
  let cs := comparable_chars row in
  match reverse cs with
  | bar :: body =>
      if decide (bar = 0x2502%Z \/ bar = 0x2503%Z) then
        match body with
        | 32%Z :: 32%Z :: _ => of_chars (trim_end_chars (reverse body))
        | _ => of_chars cs
        end
      else of_chars cs
  | [] => of_chars cs
  end.

(** ** Rows of a text *)

Definition text_rows (text : string) : list string :=
  let rows := split_nl text in
  match last rows with Some ""%string => take (length rows - 1) rows | _ => rows end.

(** The backward scan of [cap_pane_content_lines]: the start of the kept tail. *)
Fixpoint cap_scan (b : bytes) (index : nat) (remaining : nat) : option nat :=
  match index with
  | O => None
  | S i =>
      if decide (b !! i = Some 10%Z)
      then if decide (remaining - 1 = 0) then Some (S i) else cap_scan b i (remaining - 1)
      else cap_scan b i remaining
  end.

Definition cap_pane_content_lines (content : string) (limit : nat) : string :=
  if decide (limit < 1 \/ content = ""%string) then content
  else
    let b := as_bytes content in
    let stop := if Delta.ends_with_newline content then length b - 1 else length b in
    match cap_scan b stop limit with
    | Some i => string_of_bytes (drop i b)
    | None => content
    end.

(** ** Locating the screen in a scrollback read *)

Record HostHistory := mkHostHistory { text : string; truncated : bool }.

#[export] Instance HostHistory_eq_dec : EqDecision HostHistory.
Proof. solve_decision. Defined.

Definition default_history : HostHistory := mkHostHistory "" false.
Definition SCREEN_MATCH_ROWS : nat := 3.

(** The shortest prefix with [SCREEN_MATCH_ROWS] rows that are not blank. *)
Fixpoint anchor_span (nonblank : nat) (rows : list string) : option nat :=
  match rows with
  | [] => None
  | row :: rest =>
      let nonblank := nonblank + (if decide (row = ""%string) then 0 else 1) in
      if nonblank =? SCREEN_MATCH_ROWS then Some 1 else S <$> anchor_span nonblank rest
  end.

(** Where [anchor] occurs in [rows]: [windows(anchor.len())] filtered. *)
Definition occurrences (anchor rows : list string) : list nat :=
  filter (fun i => take (length anchor) (drop i rows) = anchor) (seq 0 (S (length rows) - length anchor)).

(** One start row of the screen: the cut its unique anchor gives. *)
Definition anchor_cut (rows screen : list string) (start : nat) : option nat :=
  span ← anchor_span 0 (drop start screen);
  match occurrences (take span (drop start screen)) rows with
  | [cut] => Some cut
  | _ => None
  end.

Definition better_cut (best : option (nat * nat)) (start cut : nat) : option (nat * nat) :=
  let offset := cut - start in
  match best with
  | None => Some (offset, cut)
  | Some (largest, _) => if largest <? offset then Some (offset, cut) else best
  end.

Definition best_cut (rows screen : list string) : option (nat * nat) :=
  foldl (fun best start => match anchor_cut rows screen start with Some cut => better_cut best start cut | None => best end)
    None (seq 0 (length screen)).

(** Outer [None]: [raw[..cut]] out of range. *)
Definition split_application_history (recent : string) (trunc : bool) (visible : string) : option (option HostHistory) :=
  let raw := text_rows recent in
  match best_cut (application_row <$> raw) (application_row <$> text_rows visible) with
  | None => Some None
  | Some (_, cut) => above ← Delta.slice raw 0 cut; Some (Some (mkHostHistory (unlines above) trunc))
  end.

Fixpoint drop_blank (rows : list string) : list string :=
  match rows with
  | ""%string :: rest => drop_blank rest
  | _ => rows
  end.
(** [while screen.last().is_some_and(String::is_empty) { screen.pop() }]. *)
Definition pop_blank (rows : list string) : list string := reverse (drop_blank (reverse rows)).

Definition probe_of (screen : list string) : list (nat * string) :=
  take SCREEN_MATCH_ROWS (filter (fun p => p.2 <> ""%string) (imap pair screen)).

(** [matches_at]: rows past the end of [recent] are not checked, at least one row is. *)
Definition row_agrees (recent_rows : list string) (start : nat) (p : nat * string) : bool :=
  match recent_rows !! (start + p.1) with
  | None => true
  | Some row => bool_decide (comparable_row row = p.2)
  end.
Definition row_checked (recent_rows : list string) (start : nat) (p : nat * string) : bool :=
  bool_decide (is_Some (recent_rows !! (start + p.1))).
Definition matches_at (recent_rows : list string) (probe : list (nat * string)) (start : nat) : bool :=
  forallb (row_agrees recent_rows start) probe && existsb (row_checked recent_rows start) probe.

Definition near (expected distance : nat) : list nat :=
  (if decide (distance <= expected) then [expected - distance] else []) ++ [expected + distance].

Definition screen_start (recent_rows screen : list string) : option nat :=
  if decide (screen = []) then Some (length recent_rows)
  else if decide (length screen <= length recent_rows) then
    let expected := length recent_rows - length screen in
    snd <$> list_find (fun start => matches_at recent_rows (probe_of screen) start = true)
      (seq 0 (S (length screen)) ≫= near expected)
  else None.

(** Outer [None]: [recent_rows[..cut]] out of range. *)
Definition split_host_history (recent : string) (recent_truncated : bool) (visible : string) : option (option HostHistory) :=
  let recent_rows := text_rows recent in
  match screen_start recent_rows (pop_blank (comparable_row <$> text_rows visible)) with
  | None => Some None
  | Some cut => above ← Delta.slice recent_rows 0 cut; Some (Some (mkHostHistory (unlines above) recent_truncated))
  end.

(** ** The stream of one watch *)

Inductive ReadSource := Visible | Recent | RecentUnwrapped.

(** Milliseconds. *)
Definition HOST_HISTORY_REFRESH : Z := 1000.
Definition HOST_HISTORY_MIN_INTERVAL : Z := 200.

Record PaneStream := mkPaneStream {
  ps_size : option (Z * Z);
  ps_history : option HostHistory;
  ps_history_attempt : option Z;
  ps_history_screen : option string;
  ps_application_history : option HostHistory;
}.

Definition history_refresh_due (elapsed : option Z) (screen_changed : bool) : bool :=
  match elapsed with
  | None => true
  | Some elapsed =>
      bool_decide (HOST_HISTORY_REFRESH <= elapsed)%Z
      || (bool_decide (HOST_HISTORY_MIN_INTERVAL <= elapsed)%Z && screen_changed)
  end.

Section Emulator.

(** [PaneEmulator::render_parts] on the emulator's current screen. *)
Context (emu_render_parts : ReadSource -> bool -> nat -> string * bool).

(** The largest [u32], the line budget of [screen_text]. *)
Context (u32_max : nat).

Definition screen_text : string := (emu_render_parts Visible false u32_max).1.

(** [now] is not before the last attempt. *)
Definition history_due (ps : PaneStream) (now : Z) : bool :=
  history_refresh_due ((fun at_ => (now - at_)%Z) <$> ps_history_attempt ps) (bool_decide (ps_history_screen ps <> Some screen_text)).

Definition note_history (ps : PaneStream) (history : option HostHistory) (now : Z) : PaneStream :=
  mkPaneStream (ps_size ps) (match history with Some _ => history | None => ps_history ps end)
    (Some now) (Some screen_text) (ps_application_history ps).

Definition set_application_history (ps : PaneStream) (history : option HostHistory) : PaneStream :=
  mkPaneStream (ps_size ps) (ps_history ps) (ps_history_attempt ps) (ps_history_screen ps) history.

Definition render_with_history (history : HostHistory) (ansi : bool) (lines : nat) : string * bool :=
  let screen := (emu_render_parts Visible ansi lines).1 in
  let content := text history +:+ screen in
  let capped := cap_pane_content_lines content lines in
  (capped, truncated history || bool_decide (String.length capped < String.length content)).

Definition choose_history (native application : option HostHistory) : option HostHistory :=
  match native, application with
  | Some native, Some app => if length (text_rows (text app)) <=? length (text_rows (text native)) then Some native else Some app
  | _, Some app => Some app
  | native, None => native
  end.

Definition render_parts (ps : PaneStream) (source : ReadSource) (ansi : bool) (lines : nat) : option (string * bool) :=
  application ← match ps_application_history ps with
                | Some recent => split_application_history (text recent) (truncated recent) screen_text
                | None => Some None
                end;
  Some match choose_history (ps_history ps) application, source with
       | Some history, Recent => render_with_history history ansi lines
       | _, _ => emu_render_parts source ansi lines
       end.

End Emulator.

(** ** Merging scrolled viewports *)

(** [str::lines]. *)
Definition strip_cr (s : string) : string :=
  match reverse (as_bytes s) with
  | 13%Z :: r => string_of_bytes (reverse r)
  | _ => s
  end.
Definition str_lines (s : string) : list string :=
  let rows := split_nl s in
  let ended := strip_cr <$> take (length rows - 1) rows in
  match last rows with
  | Some ""%string | None => ended
  | Some row => ended ++ [row]
  end.

Definition plain (rows : list string) : list string := application_row <$> rows.

Definition starts_with (l prefix : list string) : bool := bool_decide (take (length prefix) l = prefix).

Definition restored_view (initial current : list string) : bool :=
  let body := (length initial - 8) `max` 3 in
  bool_decide (length initial = length current)
  && match Delta.slice initial 0 body with Some rows => starts_with current rows | None => false end.

Fixpoint common_prefix (a b : list string) : nat :=
  match a, b with
  | x :: a, y :: b => if decide (x = y) then S (common_prefix a b) else 0
  | _, _ => 0
  end.

(** [splice(lo..hi, src)]. *)
Definition splice {A} (l : list A) (lo hi : nat) (src : list A) : option (list A) :=
  if decide (lo <= hi <= length l) then Some (take lo l ++ src ++ drop hi l) else None.

(** The loop over early body runs; the inner option is [merge_up]'s answer. *)
Fixpoint merge_early (history old new next : list string) (starts : list nat) : option (list string * option nat) :=
  match starts with
  | [] => Some (history, None)
  | start :: rest =>
      anchor ← Delta.slice old start (start + 3);
      if existsb (fun r => bool_decide (r = ""%string)) anchor then merge_early history old new next rest
      else
        match occurrences anchor new with
        | [] => merge_early history old new next rest
        | at_ :: more =>
            prefix ← Delta.slice old 0 start;
            if bool_decide (more = []) && (start <? at_) && starts_with (plain history) prefix then
              exposed ← Delta.slice next 0 at_;
              history' ← splice history 0 start exposed;
              Some (history', Some (at_ - start))
            else merge_early history old new next rest
        end
  end.

Definition merge_up (history previous next : list string) : option (list string * option nat) :=
  let old := plain previous in
  let new := plain next in
  if decide (old = new) then Some (history, Some 0)
  else
    let header := common_prefix old new in
    old_body ← Delta.slice old header (length old);
    match anchor_span 0 old_body with
    | None => Some (history, None)
    | Some span =>
        anchor ← Delta.slice old header (header + span);
        new_body ← Delta.slice new header (length new);
        match occurrences anchor new_body with
        | [] => merge_early history old new next (seq 1 (length old / 2 - 1))
        | added :: more =>
            if negb (bool_decide (more = [])) || (added =? 0) then Some (history, None)
            else
              prefix ← Delta.slice old 0 header;
              let insertion := if starts_with (plain history) prefix then header else 0 in
              exposed ← Delta.slice next header (header + added);
              history' ← splice history insertion insertion exposed;
              Some (history', Some added)
        end
    end.

(** ** Lemmas: anchors *)

Lemma anchor_span_bounds nonblank rows span : anchor_span nonblank rows = Some span -> 1 <= span <= length rows.
Proof.
  revert nonblank span. induction rows as [|r rows IH]; intros nb span; cbn [anchor_span length]; [done|].
  destruct (_ =? _); [intros [= <-]; lia|]. intros (k & Hk & ->)%fmap_Some. apply IH in Hk. lia.
Qed.

Lemma occurrences_spec anchor rows i : i ∈ occurrences anchor rows ->
  i + length anchor <= length rows /\ take (length anchor) (drop i rows) = anchor.
Proof. unfold occurrences. rewrite list_elem_of_filter. intros [Ht Hi%elem_of_seq]. split; [lia|done]. Qed.

Lemma occurrences_complete anchor rows i : i + length anchor <= length rows ->
  take (length anchor) (drop i rows) = anchor -> i ∈ occurrences anchor rows.
Proof. intros Hi Ht. unfold occurrences. rewrite list_elem_of_filter. split; [done|]. apply elem_of_seq. lia. Qed.

Lemma common_prefix_spec a b :
  common_prefix a b <= length a /\ common_prefix a b <= length b /\ take (common_prefix a b) a = take (common_prefix a b) b.
Proof.
  revert b. induction a as [|x a IH]; intros b; [by repeat split; simpl; lia|].
  destruct b as [|y b]; [by repeat split; simpl; lia|]. cbn [common_prefix]. destruct (IH b) as (H1 & H2 & H3).
  case_decide as E; [|by repeat split; simpl; lia]. subst. cbn [length take]. rewrite H3. repeat split; lia.
Qed.

Lemma splice_ok {A} (l src : list A) lo hi : lo <= hi <= length l -> splice l lo hi src = Some (take lo l ++ src ++ drop hi l).
Proof. intros. unfold splice. by rewrite decide_True. Qed.

Lemma starts_with_length l prefix : starts_with l prefix = true -> length prefix <= length l.
Proof. unfold starts_with. rewrite bool_decide_eq_true. intros <-. rewrite length_take. lia. Qed.

Lemma plain_length rows : length (plain rows) = length rows.
Proof. apply length_fmap. Qed.

(** What a scroll step may do to the collected history: nothing, or replace a
    prefix it shares with the old viewport by rows of the new viewport. *)
Definition extends (history history' next : list string) (answer : option nat) : Prop :=
  match answer with
  | None | Some 0 => history' = history
  | Some added => exists lo hi from exposed,
      lo <= hi <= length history /\ exposed = take (hi - lo + added) (drop from next) /\ length exposed = hi - lo + added /\
      history' = take lo history ++ exposed ++ drop hi history
  end.

Lemma merge_early_spec history old new next starts :
  length new = length next -> Forall (fun start => start + 3 <= length old) starts ->
  exists history' answer, merge_early history old new next starts = Some (history', answer) /\ extends history history' next answer.
Proof.
  intros Hnew. induction 1 as [|start rest Hs _ IH]; [by exists history, None|]. cbn [merge_early].
  rewrite (Delta.slice_Some old start (start + 3)) by lia. cbn [mbind option_bind]. case_match; [exact IH|].
  destruct (occurrences _ new) as [|at_ more] eqn:Eo; [exact IH|]. rewrite (Delta.slice_Some old 0 start) by lia. cbn [mbind option_bind].
  destruct (_ && _) eqn:Ec; [|exact IH]. apply andb_true_iff in Ec as [[_ Hlt%Nat.ltb_lt]%andb_true_iff Hsw%starts_with_length].
  assert (at_ ∈ occurrences (take (start + 3 - start) (drop start old)) new) as [Hat _]%occurrences_spec by (rewrite Eo; apply list_elem_of_here).
  rewrite plain_length, !length_take, length_drop in *. rewrite Delta.slice_Some by lia. cbn [mbind option_bind].
  rewrite splice_ok by lia. cbn [mbind option_bind]. eexists _, _. split; [done|].
  destruct (at_ - start) as [|k] eqn:Ek; [lia|]. cbn [extends].
  exists 0, start, 0, (take (at_ - 0) (drop 0 next)). split; [lia|]. rewrite !Nat.sub_0_r.
  replace (start + S k) with at_ by lia. split; [done|]. split; [|done]. rewrite length_take, length_drop. lia.
Qed.

Lemma merge_up_spec history previous next :
  exists history' answer, merge_up history previous next = Some (history', answer) /\ extends history history' next answer.
Proof.
  unfold merge_up. case_decide; [by exists history, (Some 0)|].
  destruct (common_prefix_spec (plain previous) (plain next)) as (H1 & H2 & _).
  set (h := common_prefix _ _) in *. rewrite !plain_length in *.
  rewrite (Delta.slice_Some (plain previous) h (length previous)) by (rewrite plain_length; lia). cbn [mbind option_bind].
  destruct (anchor_span 0 _) as [span|] eqn:Es; [|by exists history, None]. apply anchor_span_bounds in Es.
  rewrite length_take, length_drop, plain_length in Es.
  rewrite (Delta.slice_Some (plain previous) h (h + span)) by (rewrite plain_length; lia). cbn [mbind option_bind].
  rewrite (Delta.slice_Some (plain next) h (length next)) by (rewrite plain_length; lia). cbn [mbind option_bind].
  destruct (occurrences _ _) as [|added more] eqn:Eo.
  { apply merge_early_spec; [apply plain_length|]. apply Forall_seq. intros j Hj. rewrite plain_length.
    pose proof (Nat.div_mod (length previous) 2). lia. }
  destruct (_ || _) eqn:Ec; [by exists history, None|]. apply orb_false_iff in Ec as [_ Hadd%Nat.eqb_neq].
  rewrite (Delta.slice_Some (plain previous) 0 h) by (rewrite plain_length; lia). cbn [mbind option_bind].
  match type of Eo with occurrences ?a ?r = _ =>
    assert (added ∈ occurrences a r) as [Hat _]%occurrences_spec by (rewrite Eo; apply list_elem_of_here) end.
  rewrite !length_take, !length_drop, !plain_length in Hat.
  rewrite (Delta.slice_Some next h (h + added)) by lia. cbn [mbind option_bind].
  set (ins := if starts_with _ _ then _ else _).
  assert (ins <= length history) as Hins.
  { subst ins. destruct (starts_with _ _) eqn:Esw; [|lia]. apply starts_with_length in Esw.
    rewrite length_take, length_drop, !plain_length in Esw. lia. }
  rewrite splice_ok by lia. cbn [mbind option_bind]. eexists _, _. split; [done|].
  destruct added as [|k]; [lia|]. cbn [extends].
  exists ins, ins, h, (take (S k) (drop h next)). rewrite Nat.sub_diag, Nat.add_0_l.
  replace (h + S k - h) with (S k) by lia. split; [lia|]. split; [done|]. split; [|done].
  rewrite length_take, length_drop. lia.
Qed.

(** ** Lemmas: rows and capping *)

Lemma one_line_bytes s : one_line s -> Forall (fun b => b <> 10%Z) (as_bytes s).
Proof.
  unfold one_line. induction s as [|c s IH]; [constructor|]. cbn [count_nl as_bytes]. case_decide as Hc; [lia|].
  intros Hs. constructor; [|by apply IH]. intros Hb. apply Hc. rewrite <- (byte_ascii_byte c), Hb. done.
Qed.

Lemma text_rows_unlines l : Forall one_line l -> text_rows (unlines l) = l.
Proof. intros Hl. unfold text_rows. rewrite split_unlines by done. rewrite last_snoc, length_app, take_app_le by (simpl; lia). simpl. by rewrite Nat.add_sub, firstn_all. Qed.

Lemma text_rows_one_line s : Forall one_line (text_rows s).
Proof. pose proof (split_one_line s) as H. unfold text_rows. repeat case_match; try done. by apply Forall_take. Qed.

(** A text is its rows joined, with or without a final newline. *)
Lemma text_rows_join s : s <> ""%string ->
  (exists l, l <> [] /\ s = join_nl l +:+ String newline "" /\ text_rows s = l /\ Forall one_line l) \/
  (exists l, l <> [] /\ s = join_nl l /\ last l <> Some ""%string /\ text_rows s = l /\ Forall one_line l).
Proof.
  intros Hs. pose proof (text_rows_one_line s) as Hol. unfold text_rows in *.
  destruct (split_nl_cons s) as (r & rs & E).
  destruct (decide (last (split_nl s) = Some ""%string)) as [Hl|Hl].
  - left. rewrite Hl in *. apply last_Some in Hl as [k Ek]. rewrite Ek in *. rewrite length_app, take_app_le in * by (simpl; lia).
    cbn [length] in *. rewrite Nat.add_sub, firstn_all in *. exists k.
    assert (k <> []) as Hk by (intros ->; apply Hs; by rewrite <- (join_split s), Ek). split; [done|]. split; [|done].
    rewrite <- (join_split s), Ek, join_nl_app by done. done.
  - right. exists (split_nl s). rewrite join_split. split; [by rewrite E|]. split; [done|]. split; [done|].
    assert (last (split_nl s) <> None) by (rewrite last_None; by rewrite E).
    split; [destruct (last (split_nl s)) as [[|? ?]|]; done|apply split_one_line].
Qed.

Lemma cap_scan_prefix b t i r : i <= length b -> cap_scan (b ++ t) i r = cap_scan b i r.
Proof.
  revert r. induction i as [|i IH]; intros r Hi; [done|]. cbn [cap_scan]. rewrite lookup_app_l by lia.
  rewrite !IH by lia. done.
Qed.

Lemma cap_scan_line b t r : Forall (fun c => c <> 10%Z) t -> cap_scan (b ++ t) (length b + length t) r = cap_scan b (length b) r.
Proof.
  intros Ht. induction t as [|c t IH] using rev_ind; [by rewrite app_nil_r, Nat.add_0_r|].
  apply Forall_app in Ht as [Ht Hc]. rewrite Forall_singleton in Hc. rewrite length_app, Nat.add_comm. cbn [length].
  replace (length t + 1 + length b) with (S (length (b ++ t))) by (rewrite length_app; lia). cbn [cap_scan].
  rewrite app_assoc, list_lookup_middle by done. rewrite decide_False by (intros [= E]; exact (Hc E)).
  rewrite cap_scan_prefix by lia. rewrite length_app. by apply IH.
Qed.

Lemma cap_scan_bound b i r k : cap_scan b i r = Some k -> k <= i.
Proof.
  revert r. induction i as [|i IH]; intros r; cbn [cap_scan]; [done|].
  repeat case_decide; [intros [= <-]; lia|intros H1%IH; lia..].
Qed.

Lemma as_bytes_cons c s : as_bytes (String c s) = ascii_byte c :: as_bytes s.
Proof. done. Qed.

(** The backward scan finds the start of the last [r] rows. *)
Lemma cap_scan_join l r : 1 <= r -> l <> [] -> Forall one_line l ->
  match cap_scan (as_bytes (join_nl l)) (length (as_bytes (join_nl l))) r with
  | Some i => r < length l /\ drop i (as_bytes (join_nl l)) = as_bytes (join_nl (drop (length l - r) l))
  | None => length l <= r
  end.
Proof.
  revert r. induction l as [|s l IH] using rev_ind; intros r Hr Hne Hl; [done|]. apply Forall_app in Hl as [Hl Hs]. rewrite Forall_singleton in Hs.
  apply one_line_bytes in Hs. destruct (decide (l = [])) as [->|Hl0].
  { cbn [app join_nl]. pose proof (cap_scan_line [] (as_bytes s) r Hs) as Hc. cbn [app length Nat.add cap_scan] in Hc. rewrite Hc. cbn [length]. lia. }
  rewrite join_nl_app by done. cbn [join_nl]. rewrite as_bytes_app, as_bytes_cons. change (ascii_byte newline) with 10%Z.
  set (a := as_bytes (join_nl l)) in *. rewrite (cons_middle 10%Z), app_assoc. rewrite (length_app (a ++ [10%Z])).
  rewrite cap_scan_line by done. rewrite length_app, Nat.add_comm. cbn [length Nat.add cap_scan].
  rewrite list_lookup_middle by done. rewrite decide_True by done. rewrite length_app. cbn [length]. case_decide as Hr1.
  - assert (r = 1) as -> by lia. split; [destruct l; simpl in *; [done|lia]|]. rewrite Nat.add_sub, drop_app_length. cbn [join_nl].
    by rewrite drop_app_length' by (rewrite length_app; simpl; lia).
  - rewrite cap_scan_prefix by lia. specialize (IH (r - 1) ltac:(lia) Hl0 Hl). destruct (cap_scan a _ _) as [i|] eqn:Ei; [|lia].
    destruct IH as [Hlt IH]. split; [lia|]. rewrite (drop_app_le l) by lia. rewrite join_nl_app; [|by intros E%(f_equal length); rewrite length_drop in E; simpl in E; lia|done].
    replace (length l + 1 - r) with (length l - (r - 1)) by lia. cbn [join_nl]. rewrite as_bytes_app, as_bytes_cons, <- IH.
    assert (i <= length a) as Hi.
    { by apply cap_scan_bound in Ei. }
    rewrite drop_app_le by (rewrite length_app; simpl; lia). rewrite drop_app_le by lia. by rewrite <- app_assoc.
Qed.

Lemma ends_with_newline_snoc s : Delta.ends_with_newline (s +:+ String newline "") = true.
Proof. induction s as [|c s IH]; [done|]. rewrite string_app_cons. cbn [Delta.ends_with_newline]. destruct (s +:+ _) eqn:E; [by destruct s|done]. Qed.

Lemma ends_with_newline_last s : Delta.ends_with_newline s = true -> last (split_nl s) = Some ""%string.
Proof.
  induction s as [|c s IH]; [done|]. cbn [Delta.ends_with_newline split_nl]. destruct s as [|c' s].
  - intros Hc%bool_decide_eq_true. subst. done.
  - intros H. specialize (IH H). destruct (split_nl_cons (String c' s)) as (l & ls & E). rewrite E in *.
    case_decide; [done|]. destruct ls; [|done]. cbn [last] in *. injection IH as ->.
    pose proof (join_split (String c' s)) as Hj. by rewrite E in Hj.
Qed.

Lemma text_rows_of_join k : k <> [] -> Forall one_line k -> text_rows (join_nl k +:+ String newline "") = k.
Proof.
  intros Hk Hl. unfold text_rows.
  assert (split_nl (join_nl k +:+ String newline "") = k ++ [""%string]) as ->.
  { change (String newline "") with (String newline (join_nl [""%string])). rewrite <- join_nl_app by done.
    apply split_join; [by destruct k|]. apply Forall_app. split; [done|]. by repeat constructor. }
  rewrite last_snoc, length_app. cbn [length]. by rewrite Nat.add_sub, take_app_length.
Qed.

Lemma text_rows_of_join_open k : k <> [] -> Forall one_line k -> last k <> Some ""%string -> text_rows (join_nl k) = k.
Proof. intros Hk Hl Hn. unfold text_rows. rewrite split_join by done. destruct (last k) as [[|? ?]|]; done. Qed.

Lemma last_of_drop {A} n (l : list A) : drop n l <> [] -> last (drop n l) = last l.
Proof.
  intros Hd. rewrite <- (take_drop n l) at 2. rewrite last_app. destruct (last (drop n l)) eqn:E; [done|].
  by apply last_None in E.
Qed.

(** [cap_pane_content_lines] keeps the last [limit] rows, and is a suffix of the text. *)
Lemma cap_pane_content_lines_spec content limit : 1 <= limit ->
  text_rows (cap_pane_content_lines content limit) = drop (length (text_rows content) - limit) (text_rows content) /\
  (exists above, content = above +:+ cap_pane_content_lines content limit) /\
  (length (text_rows content) <= limit <-> cap_pane_content_lines content limit = content).
Proof.
  intros Hlim. unfold cap_pane_content_lines. case_decide as H0.
  { destruct H0 as [?| ->]; [lia|]. split; [done|]. split; [by exists ""%string|]. change (length (text_rows "")) with 0. split; [done|lia]. }
  assert (content <> ""%string) as Hne by tauto. set (b := as_bytes content).
  assert (exists l tl, l <> [] /\ text_rows content = l /\ Forall one_line l /\ b = as_bytes (join_nl l) ++ tl /\
    (if Delta.ends_with_newline content then length b - 1 else length b) = length (as_bytes (join_nl l)) /\
    forall k n, k = drop n l -> k <> [] -> text_rows (string_of_bytes (as_bytes (join_nl k) ++ tl)) = k) as (l & tl & Hl & Hr & Hol & Hb & Hstop & Htail).
  { subst b. destruct (text_rows_join content Hne) as [(l & Hl & Hc & Hr & Hol)|(l & Hl & Hc & Hla & Hr & Hol)].
    - exists l, [10%Z]. split; [done|]. split; [done|]. split; [done|]. rewrite Hc, ends_with_newline_snoc, as_bytes_app.
      split; [done|]. split; [rewrite length_app; cbn [length as_bytes]; lia|]. intros k n -> Hk.
      change [10%Z] with (as_bytes (String newline "")). rewrite <- as_bytes_app, string_of_as_bytes.
      apply text_rows_of_join; [done|]. by apply Forall_drop.
    - exists l, []. split; [done|]. split; [done|]. split; [done|]. rewrite <- Hc, app_nil_r. split; [done|].
      destruct (Delta.ends_with_newline content) eqn:Ee.
      { apply ends_with_newline_last in Ee. rewrite Hc, split_join in Ee by done. done. }
      split; [done|]. intros k n -> Hk. rewrite app_nil_r, string_of_as_bytes.
      apply text_rows_of_join_open; [done|by apply Forall_drop|]. by rewrite last_of_drop. }
  rewrite Hstop, Hr. pose proof (cap_scan_join l limit Hlim Hl Hol) as Hscan. rewrite Hb, cap_scan_prefix by lia.
  destruct (cap_scan _ _ limit) as [i|] eqn:Ei.
  - destruct Hscan as [Hlt Hd]. apply cap_scan_bound in Ei as Hi. rewrite drop_app_le by done. rewrite Hd.
    split; [apply (Htail _ _ eq_refl); intros E%(f_equal length); rewrite length_drop in E; simpl in E; lia|].
    rewrite <- Hd, <- drop_app_le, <- Hb by done. split.
    + exists (string_of_bytes (take i b)). apply as_bytes_inj. rewrite as_bytes_app, !as_bytes_of_bytes; [by rewrite take_drop|apply Forall_drop, as_bytes_u8|apply Forall_take, as_bytes_u8].
    + split; [lia|]. intros E%(f_equal as_bytes). rewrite as_bytes_of_bytes in E by apply Forall_drop, as_bytes_u8. fold b in E.
      exfalso. assert (text_rows (string_of_bytes (drop i b)) = l) as Hx by (rewrite E; subst b; by rewrite string_of_as_bytes).
      rewrite Hb, drop_app_le, Hd in Hx by done. rewrite (Htail _ _ eq_refl) in Hx; [apply (f_equal length) in Hx; rewrite length_drop in Hx; lia|].
      intros E'%(f_equal length); rewrite length_drop in E'; simpl in E'; lia.
  - rewrite Hr. replace (length l - limit) with 0 by lia. rewrite drop_0. split; [done|]. split; [by exists ""%string|]. done.
Qed.

Lemma text_rows_unlines_app l s : Forall one_line l -> text_rows (unlines l +:+ s) = l ++ text_rows s.
Proof.
  intros Hl. unfold text_rows.
  assert (split_nl (unlines l +:+ s) = l ++ split_nl s) as ->.
  { induction Hl as [|r l Hr _ IH]; [done|]. cbn [unlines foldr app]. rewrite <- string_app_assoc, string_app_cons.
    rewrite split_app_nl by done. f_equal. exact IH. }
  destruct (split_nl_cons s) as (r & rs & E). rewrite last_app. rewrite E.
  destruct (last (r :: rs)) as [z|] eqn:El; [|by apply last_None in El].
  destruct z; [|done]. rewrite length_app, take_app_ge by (cbn [length]; lia). f_equal. f_equal. cbn [length]. lia.
Qed.

(** ** Lemmas: locating the screen *)

Lemma anchor_cut_spec rows screen start cut : anchor_cut rows screen start = Some cut ->
  exists span, start + span <= length screen /\ 1 <= span /\ occurrences (take span (drop start screen)) rows = [cut].
Proof.
  unfold anchor_cut. destruct (anchor_span _ _) as [span|] eqn:Es; [|done]. apply anchor_span_bounds in Es. rewrite length_drop in Es.
  cbn [mbind option_bind]. destruct (occurrences _ _) as [|c [|]] eqn:Eo; try done. intros [= ->]. exists span. split; [lia|]. by split; [lia|].
Qed.

Lemma best_cut_spec rows screen :
  match best_cut rows screen with
  | Some (offset, cut) =>
      (exists start, start < length screen /\ anchor_cut rows screen start = Some cut /\ offset = cut - start) /\
      forall start cut', start < length screen -> anchor_cut rows screen start = Some cut' -> cut' - start <= offset
  | None => forall start, start < length screen -> anchor_cut rows screen start = None
  end.
Proof.
  unfold best_cut. generalize (length screen) as n. induction n as [|n IH]; [by intros ? ?%Nat.nlt_0_r|].
  rewrite seq_S, foldl_app. cbn [foldl Nat.add]. set (best := foldl _ _ (seq 0 n)) in *.
  destruct (anchor_cut rows screen n) as [cut|] eqn:En.
  - destruct best as [[off c]|]; cbn [better_cut].
    + destruct IH as [(s & Hs & Ha & Ho) Hmax]. destruct (off <? cut - n) eqn:Elt.
      * apply Nat.ltb_lt in Elt. split; [exists n; split; [lia|done]|]. intros s' c' Hs' Ha'.
        destruct (decide (s' = n)) as [->|]; [naive_solver lia|]. specialize (Hmax s' c' ltac:(lia) Ha'). lia.
      * apply Nat.ltb_ge in Elt. split; [exists s; split; [lia|done]|]. intros s' c' Hs' Ha'.
        destruct (decide (s' = n)) as [->|]; [rewrite En in Ha'; injection Ha' as <-; lia|]. apply (Hmax s' c'); [lia|done].
    + split; [exists n; split; [lia|done]|]. intros s' c' Hs' Ha'. destruct (decide (s' = n)) as [->|]; [rewrite En in Ha'; by injection Ha' as <-|].
      rewrite IH in Ha' by lia. done.
  - destruct best as [[off c]|].
    + destruct IH as [(s & Hs & Ha & Ho) Hmax]. split; [exists s; split; [lia|done]|]. intros s' c' Hs' Ha'.
      destruct (decide (s' = n)) as [->|]; [congruence|]. apply (Hmax s' c'); [lia|done].
    + intros s' Hs'. destruct (decide (s' = n)) as [->|]; [done|]. apply IH. lia.
Qed.

Lemma drop_blank_suffix rows : exists k, rows = k ++ drop_blank rows.
Proof.
  induction rows as [|r rows IH]; [by exists []|]. cbn [drop_blank]. destruct r; [|by exists []].
  destruct IH as [k Hk]. exists (""%string :: k). cbn [app]. by f_equal.
Qed.

Lemma pop_blank_prefix rows : exists k, rows = pop_blank rows ++ k.
Proof.
  unfold pop_blank. destruct (drop_blank_suffix (reverse rows)) as [k Hk]. exists (reverse k).
  rewrite <- reverse_app, <- Hk. by rewrite reverse_involutive.
Qed.

Lemma probe_of_spec screen o row : (o, row) ∈ probe_of screen -> screen !! o = Some row /\ row <> ""%string.
Proof.
  unfold probe_of. intros H%elem_of_take%(fun H => let '(ex_intro _ i (conj Hi _)) := H in list_elem_of_lookup_2 _ _ _ Hi).
  apply list_elem_of_filter in H as [Hne H]. apply elem_of_lookup_imap in H as (i & x & [= -> ->] & Hx). done.
Qed.

Lemma matches_at_spec recent screen start : matches_at recent (probe_of screen) start = true ->
  exists o row text_row, screen !! o = Some row /\ row <> ""%string /\ recent !! (start + o) = Some text_row /\ comparable_row text_row = row.
Proof.
  unfold matches_at. intros [Hall Hex]%andb_true_iff. apply existsb_exists in Hex as ([o row] & Hin & Hc).
  rewrite forallb_forall in Hall. specialize (Hall _ Hin). apply list_elem_of_In in Hin. apply probe_of_spec in Hin as [Hs Hne].
  unfold row_checked in Hc. apply bool_decide_eq_true in Hc as [t Ht]. unfold row_agrees in Hall. cbn [fst snd] in *. rewrite Ht in Hall.
  apply bool_decide_eq_true in Hall. by exists o, row, t.
Qed.

(** The rows of [history] are the first [cut] rows of [recent]. *)
Definition rows_above (recent : string) (cut : nat) (h : HostHistory) : Prop :=
  cut <= length (text_rows recent) /\ text h = unlines (take cut (text_rows recent)).

Lemma split_host_history_spec recent tr visible :
  let screen := pop_blank (comparable_row <$> text_rows visible) in
  (split_host_history recent tr visible = Some None \/
   exists cut h, split_host_history recent tr visible = Some (Some h) /\ truncated h = tr /\ rows_above recent cut h /\
     ((screen = [] /\ cut = length (text_rows recent)) \/
      exists o row live, screen !! o = Some row /\ row <> ""%string /\ text_rows recent !! (cut + o) = Some live /\ comparable_row live = row)).
Proof.
  intros screen. unfold split_host_history. fold screen. unfold screen_start. case_decide as H0.
  { right. exists (length (text_rows recent)), (mkHostHistory (unlines (text_rows recent)) tr).
    rewrite Delta.slice_Some by lia. cbn [mbind option_bind]. rewrite Nat.sub_0_r, drop_0, firstn_all. split; [done|]. split; [done|].
    split; [|by left]. split; [done|]. by rewrite firstn_all. }
  case_decide as Hle; [|by left]. destruct (list_find _ _) as [[i cut]|] eqn:Ef; cbn [fmap option_fmap option_map snd]; [|by left].
  apply list_find_Some in Ef as (_ & Hm & _). apply matches_at_spec in Hm as (o & row & live & Ho & Hne & Hlive & Hc).
  right. assert (cut + o < length (text_rows recent)) by (by eapply lookup_lt_Some). rewrite Delta.slice_Some by lia. cbn [mbind option_bind].
  rewrite Nat.sub_0_r, drop_0. eexists cut, _. split; [done|]. split; [done|]. split; [split; [lia|done]|]. right. by exists o, row, live.
Qed.

Lemma split_application_history_spec recent tr visible :
  let rows := plain (text_rows recent) in
  let screen := plain (text_rows visible) in
  (split_application_history recent tr visible = Some None /\ forall start, start < length screen -> anchor_cut rows screen start = None) \/
  exists cut h start span, split_application_history recent tr visible = Some (Some h) /\ truncated h = tr /\ rows_above recent cut h /\
    start + span <= length screen /\ 1 <= span /\ occurrences (take span (drop start screen)) rows = [cut].
Proof.
  intros rows screen. unfold split_application_history. fold (plain (text_rows recent)) (plain (text_rows visible)). fold rows screen.
  pose proof (best_cut_spec rows screen) as Hb. destruct (best_cut rows screen) as [[off cut]|]; [|by left].
  right. destruct Hb as [(start & Hs & Ha & _) _]. apply anchor_cut_spec in Ha as (span & Hsp & H1 & Ho).
  assert (cut ∈ occurrences (take span (drop start screen)) rows) as [Hc _]%occurrences_spec by (rewrite Ho; apply list_elem_of_here).
  subst rows. rewrite plain_length in Hc. rewrite Delta.slice_Some by lia. cbn [mbind option_bind]. rewrite Nat.sub_0_r, drop_0.
  eexists cut, _, start, span. split; [done|]. split; [done|]. split; [split; [lia|done]|]. done.
Qed.

(** ** Theorems *)

(** Recovering the rows above a live screen never slices out of range, and
    what is recovered is a prefix of the rows read: for Herdr's own scrollback
    the cut is either the whole read under a blank screen or a place where a
    row of the screen is really found; for an application transcript the run
    of rows that starts at the cut occurs exactly once in it, and when no such
    run exists nothing is prepended. *)
Theorem recovered_history_is_prefix (recent visible : string) (tr : bool) :
  let screen := pop_blank (comparable_row <$> text_rows visible) in
  (split_host_history recent tr visible = Some None \/
   exists cut h, split_host_history recent tr visible = Some (Some h) /\ truncated h = tr /\ rows_above recent cut h /\
     ((screen = [] /\ cut = length (text_rows recent)) \/
      exists o row live, screen !! o = Some row /\ row <> ""%string /\ text_rows recent !! (cut + o) = Some live /\ comparable_row live = row)) /\
  ((split_application_history recent tr visible = Some None /\
    forall start, start < length (text_rows visible) -> anchor_cut (plain (text_rows recent)) (plain (text_rows visible)) start = None) \/
   exists cut h start span, split_application_history recent tr visible = Some (Some h) /\ truncated h = tr /\ rows_above recent cut h /\
     start + span <= length (text_rows visible) /\ 1 <= span /\
     forall i, i ∈ occurrences (take span (drop start (plain (text_rows visible)))) (plain (text_rows recent)) <-> i = cut).
Proof.
  split; [apply split_host_history_spec|]. destruct (split_application_history_spec recent tr visible) as [[H1 H2]|H].
  - left. split; [done|]. intros start Hs. apply H2. by rewrite plain_length.
  - right. destruct H as (cut & h & start & span & H1 & H2 & H3 & H4 & H5 & H6). exists cut, h, start, span. rewrite plain_length in H4.
    do 5 (split; [done|]). intros i. rewrite H6. apply list_elem_of_singleton.
Qed.

(** A [recent] render with recovered history never panics and shows
    exactly the last [lines] rows of that history followed by the live screen:
    the kept text is a suffix of the whole, and the truncation flag is raised
    exactly when rows were dropped here or the history was itself cut. *)
Theorem recent_render_is_tail (render : ReadSource -> bool -> nat -> string * bool) (umax : nat) (ps : PaneStream) (ansi : bool)
    (lines : nat) (l : list string) (tr : bool) :
  1 <= lines -> Forall one_line l -> ps_history ps = Some (mkHostHistory (unlines l) tr) -> ps_application_history ps = None ->
  let rows := l ++ text_rows (render Visible ansi lines).1 in
  exists content flag, render_parts render umax ps Recent ansi lines = Some (content, flag) /\
    text_rows content = drop (length rows - lines) rows /\
    (exists above, unlines l +:+ (render Visible ansi lines).1 = above +:+ content) /\
    (flag = true <-> tr = true \/ lines < length rows).
Proof.
  intros Hlines Hl Hh Ha rows. unfold render_parts. rewrite Ha, Hh. cbn [mbind option_bind choose_history].
  eexists _, _. split; [done|]. unfold render_with_history. cbn [text truncated].
  set (whole := unlines l +:+ (render Visible ansi lines).1).
  destruct (cap_pane_content_lines_spec whole lines Hlines) as (Hrows & [above Habove] & Hkept).
  assert (text_rows whole = rows) as Hw by (by apply text_rows_unlines_app). rewrite Hw in *.
  split; [exact Hrows|]. split; [by exists above|]. rewrite orb_true_iff, bool_decide_eq_true. apply or_iff_compat_l.
  pose proof (f_equal String.length Habove) as Hlen. rewrite string_length_app in Hlen. split; intros H.
  - apply Nat.nle_gt. intros Hle. apply Hkept in Hle. rewrite Hle in H. lia.
  - destruct above as [|c above]; [|simpl in Hlen; lia]. exfalso. assert (length rows <= lines); [|lia]. apply Hkept. by rewrite Habove at 2.
Qed.

(** A scroll step of the history harvest never slices out of range; it
    either leaves the collected rows alone or grows them by exactly the number
    it reports, replacing at most the rows up to the seam by consecutive rows of the
    new viewport. *)
Theorem scroll_step_extends (history previous next : list string) :
  exists history' answer, merge_up history previous next = Some (history', answer) /\ extends history history' next answer /\
    length history' = length history + default 0 answer.
Proof.
  destruct (merge_up_spec history previous next) as (h' & a & Hm & He). exists h', a. do 2 (split; [done|]).
  destruct a as [[|added]|]; cbn [extends default from_option id] in *; [by subst; cbn; lia| |by subst; cbn; lia].
  destruct He as (lo & hi & from & exposed & Hle & _ & Hlen & ->). rewrite !length_app, Hlen, length_take, length_drop. cbn. lia.
Qed.

(** ** Concrete runs *)

Definition demo_render : ReadSource -> bool -> nat -> string * bool := fun _ _ _ => (join_nl ["three"; "four"]%string, false).
Definition demo_stream : PaneStream := mkPaneStream None (Some (mkHostHistory (unlines ["one"; "two"]%string) false)) None None None.

Lemma recent_render_is_tail_witness :
  exists content flag, render_parts demo_render 10 demo_stream Recent true 3 = Some (content, flag) /\
    text_rows content = ["two"; "three"; "four"]%string.
Proof.
  destruct (recent_render_is_tail demo_render 10 demo_stream true 3 ["one"; "two"]%string false) as (c & f & Hr & Hrows & _);
    [lia|by repeat constructor|done|done|]. exists c, f. split; [exact Hr|]. rewrite Hrows. vm_compute. reflexivity.
Defined.

Example split_host_demo :
  split_host_history (unlines ["a"; "b"; "c"; "d"]%string) false (unlines ["c"; "d"; ""]%string)
  = Some (Some (mkHostHistory (unlines ["a"; "b"]%string) false)).
Proof. vm_compute. reflexivity. Qed.

Example merge_up_demo :
  merge_up ["c"; "d"; "e"; "f"]%string ["c"; "d"; "e"; "f"]%string ["a"; "b"; "c"; "d"; "e"]%string
  = Some (["a"; "b"; "c"; "d"; "e"; "f"]%string, Some 2).
Proof. vm_compute. reflexivity. Qed.

End PaneRows.
