(* ===== verification/AppHistory.v ===== *)
(** * Shared recovery of application history — [lerdr-coord/src/application_history.rs]

    One store per coordinator: at most [MAX_PANES] entries, one read in flight
    per pane.  A watcher that is told to harvest holds a [Reservation]; the
    reservations in flight are the second component of [System], and finishing
    or dropping one gives it up.  The store's version counter is a [u64] that is
    incremented once per call and is modelled without its bound. *)

From S2P Require Import Prelude PaneRows.

Module AppHistory.

Definition MAX_PANES : nat := 32.
Definition MAX_ATTEMPTS : Z := 3.
(** Milliseconds. *)
Definition RETRY_DELAY : Z := 5000.

Record Epoch := mkEpoch {
  generation : Z;
  terminal : string;
  session : string;
  activity : Z;
  size : option (Z * Z);
}.

#[export] Instance Epoch_eq_dec : EqDecision Epoch.
Proof. solve_decision. Defined.

Definition same_terminal (a b : Epoch) : bool :=
  bool_decide (generation a = generation b) && bool_decide (terminal a = terminal b)
  && bool_decide (session a = session b) && bool_decide (size a = size b).

Record Entry := mkEntry {
  en_epoch : Epoch;
  en_snapshot : option PaneRows.HostHistory;
  en_version : Z;
  en_busy : bool;
  en_complete : bool;
  en_lines : Z;
  en_attempts : Z;
  en_attempted : option Z;
  en_touched : Z;
}.

Record State := mkState { entries : gmap string Entry; version : Z }.

Record View := mkView { vw_snapshot : option PaneRows.HostHistory; vw_version : Z; vw_busy : bool }.
Definition default_view : View := mkView None 0 false.

Record Reservation := mkReservation { rs_pane : string; rs_lines : Z }.

#[export] Instance Reservation_eq_dec : EqDecision Reservation.
Proof. solve_decision. Defined.

Definition new_store : State := mkState ∅ 0.

Definition read_version (st : State) (pane : string) : option Z :=
  match entries st !! pane with
  | Some entry => if en_busy entry then None else Some (en_version entry)
  | None => Some 0
  end.

(** [Instant::duration_since], which saturates at zero. *)
Definition duration_since (now at_ : Z) : Z := Z.max 0 (now - at_).

Definition fresh_entry (epoch : Epoch) (ver lines now : Z) : Entry := mkEntry epoch None ver false false lines 0 None now.

(** Touching an entry: a new epoch or a larger window starts over. *)
Definition refresh (entry : Entry) (epoch : Epoch) (lines now : Z) : Entry :=
  if negb (en_busy entry) && (negb (bool_decide (en_epoch entry = epoch)) || bool_decide (en_lines entry < lines))
  then mkEntry epoch (if same_terminal (en_epoch entry) epoch then en_snapshot entry else None) (en_version entry) (en_busy entry)
         false (Z.max (en_lines entry) lines) 0 None now
  else mkEntry (en_epoch entry) (en_snapshot entry) (en_version entry) (en_busy entry) (en_complete entry) (en_lines entry)
         (en_attempts entry) (en_attempted entry) now.

Definition read_due (entry : Entry) (eligible : bool) (now : Z) : bool :=
  eligible && negb (en_busy entry) && negb (en_complete entry) && bool_decide (en_attempts entry < MAX_ATTEMPTS)
  && match en_attempted entry with None => true | Some at_ => bool_decide (RETRY_DELAY <= duration_since now at_) end.

Definition mark_busy (entry : Entry) (now : Z) : Entry :=
  mkEntry (en_epoch entry) (en_snapshot entry) (en_version entry) true (en_complete entry) (en_lines entry)
    (en_attempts entry + 1) (Some now) (en_touched entry).

(** The entry is in the map: touch it and reserve a read when one is due. *)
Definition observe_entry (st : State) (pane : string) (entry : Entry) (epoch : Epoch) (lines : Z) (eligible : bool) (now : Z)
    : State * View * option Reservation :=
  let entry := refresh entry epoch lines now in
  let due := read_due entry eligible now in
  let entry := if due then mark_busy entry now else entry in
  (mkState (<[pane := entry]> (entries st)) (version st),
   mkView (en_snapshot entry) (en_version entry) (en_busy entry),
   if due then Some (mkReservation pane (en_lines entry)) else None).

(** [min_by_key]: the first entry whose key is smallest. *)
Fixpoint min_by_touched (l : list (string * Entry)) : option (string * Entry) :=
  match l with
  | [] => None
  | x :: l' =>
      match min_by_touched l' with
      | Some y => if bool_decide (en_touched y.2 < en_touched x.2) then Some y else Some x
      | None => Some x
      end
  end.

Section Store.

(** The iteration order of the [HashMap]. *)
Context (iter : gmap string Entry -> list (string * Entry)).

Definition oldest (m : gmap string Entry) : option string :=
  fst <$> min_by_touched (filter (fun p => en_busy p.2 = false) (iter m)).

(** Room for one more entry, evicting the oldest idle one when full. *)
Definition make_room (m : gmap string Entry) : option (gmap string Entry) :=
  if decide (MAX_PANES <= base.size m)%nat then (fun key => delete key m) <$> oldest m else Some m.

Definition observe (st : State) (pane : string) (epoch : Epoch) (lines : Z) (eligible : bool) (now : Z)
    : State * View * option Reservation :=
  match entries st !! pane with
  | Some entry => observe_entry st pane entry epoch lines eligible now
  | None =>
      match make_room (entries st) with
      | None => (st, default_view, None)
      | Some m =>
          let ver := version st + 1 in
          observe_entry (mkState m ver) pane (fresh_entry epoch ver lines now) epoch lines eligible now
      end
  end.

Definition release (st : State) (pane : string) (history : option PaneRows.HostHistory) : State :=
  let ver := version st + 1 in
  match entries st !! pane with
  | None => mkState (entries st) ver
  | Some e =>
      let '(snapshot, complete) := match history with Some h => (Some h, true) | None => (en_snapshot e, en_complete e) end in
      mkState (<[pane := mkEntry (en_epoch e) snapshot ver false complete (en_lines e) (en_attempts e) (en_attempted e) (en_touched e)]> (entries st)) ver
  end.

(** [finish] releases and clears the name, so the drop that follows does nothing. *)
Definition finish (st : State) (r : Reservation) (history : option PaneRows.HostHistory) : State := release st (rs_pane r) history.

Definition drop_reservation (st : State) (r : Reservation) : State :=
  if decide (rs_pane r = ""%string) then st else release st (rs_pane r) None.

(** ** The store with the reservations in flight *)

Record System := mkSystem { sy_state : State; sy_flight : list Reservation }.

Inductive op :=
| Observe (pane : string) (epoch : Epoch) (lines : Z) (eligible : bool) (now : Z)
| Finish (r : Reservation) (history : option PaneRows.HostHistory)
| DropReservation (r : Reservation).

Fixpoint remove_one (r : Reservation) (l : list Reservation) : list Reservation :=
  match l with
  | [] => []
  | x :: l' => if decide (x = r) then l' else x :: remove_one r l'
  end.

(** A step, with the pane a read was granted for; only a reservation in
    flight can be finished or dropped. *)
Definition step (s : System) (o : op) : option (System * list string) :=
  match o with
  | Observe pane epoch lines eligible now =>
      let '(st, _, r) := observe (sy_state s) pane epoch lines eligible now in
      Some (mkSystem st (match r with Some r => r :: sy_flight s | None => sy_flight s end), match r with Some _ => [pane] | None => [] end)
  | Finish r history =>
      if decide (r ∈ sy_flight s) then Some (mkSystem (finish (sy_state s) r history) (remove_one r (sy_flight s)), []) else None
  | DropReservation r =>
      if decide (r ∈ sy_flight s) then Some (mkSystem (drop_reservation (sy_state s) r) (remove_one r (sy_flight s)), []) else None
  end.

Fixpoint run (s : System) (ops : list op) : option (System * list string) :=
  match ops with
  | [] => Some (s, [])
  | o :: ops => '(s', granted) ← step s o; '(s'', more) ← run s' ops; Some (s'', granted ++ more)
  end.

Definition start : System := mkSystem new_store [].

(** ** The invariant *)

Definition entry_ok (ver : Z) (e : Entry) : Prop := 1 <= en_version e <= ver /\ 0 <= en_attempts e <= MAX_ATTEMPTS.

Definition inv (s : System) : Prop :=
  0 <= version (sy_state s) /\
  map_Forall (fun _ e => entry_ok (version (sy_state s)) e) (entries (sy_state s)) /\
  (base.size (entries (sy_state s)) <= MAX_PANES)%nat /\
  NoDup (rs_pane <$> sy_flight s) /\
  (forall p, p ∈ rs_pane <$> sy_flight s -> exists e, entries (sy_state s) !! p = Some e /\ en_busy e = true) /\
  (forall p e, p <> ""%string -> entries (sy_state s) !! p = Some e -> en_busy e = true -> p ∈ rs_pane <$> sy_flight s).

Hypothesis iter_perm : forall m, iter m ≡ₚ map_to_list m.

Lemma min_by_touched_in l x : min_by_touched l = Some x -> x ∈ l.
Proof.
  revert x. induction l as [|y l IH]; intros x; cbn [min_by_touched]; [done|].
  destruct (min_by_touched l) as [z|]; [|intros [= ->]; left]. case_bool_decide; intros [= <-]; [right; by apply IH|left].
Qed.

Lemma min_by_touched_least l x y : min_by_touched l = Some x -> y ∈ l -> en_touched x.2 <= en_touched y.2.
Proof.
  revert x. induction l as [|z l IH]; intros x; cbn [min_by_touched]; [done|].
  destruct (min_by_touched l) as [w|] eqn:E; rewrite elem_of_cons.
  - case_bool_decide; intros [= <-] [->|Hy]; [lia|by apply IH|lia|]. specialize (IH w eq_refl Hy). lia.
  - intros [= <-] [->|Hy]; [lia|]. destruct l as [|a l]; [by apply elem_of_nil in Hy|]. cbn [min_by_touched] in E.
    destruct (min_by_touched l); [case_bool_decide|]; done.
Qed.

Lemma oldest_spec m key : oldest m = Some key ->
  exists e, m !! key = Some e /\ en_busy e = false /\
    forall k e', m !! k = Some e' -> en_busy e' = false -> en_touched e <= en_touched e'.
Proof.
  unfold oldest. intros ([k e] & Hm & ->)%fmap_Some. pose proof (min_by_touched_in _ _ Hm) as Hin.
  apply list_elem_of_filter in Hin as [Hb Hin]. cbn [snd fst] in *. rewrite (iter_perm m), elem_of_map_to_list in Hin.
  exists e. do 2 (split; [done|]). intros k' e' Hk' Hb'. apply (min_by_touched_least _ _ (k', e') Hm). apply list_elem_of_filter.
  split; [done|]. by rewrite (iter_perm m), elem_of_map_to_list.
Qed.

(** Room is made by at most one eviction, of an entry no read is running for. *)
Lemma make_room_spec m m' : make_room m = Some m' -> (base.size m <= MAX_PANES)%nat ->
  (base.size m' < MAX_PANES)%nat /\ (m' = m \/ exists key e, m !! key = Some e /\ en_busy e = false /\ m' = delete key m).
Proof.
  unfold make_room. case_decide as Hs; intros Hm Hle.
  - apply fmap_Some in Hm as (key & Ho & ->). apply oldest_spec in Ho as (e & He & Hb & _). split; [|by right; exists key, e].
    rewrite map_size_delete_Some by done. unfold MAX_PANES in *. lia.
  - injection Hm as <-. split; [lia|by left].
Qed.

Lemma make_room_lookup m m' p e : make_room m = Some m' -> m' !! p = Some e -> m !! p = Some e.
Proof.
  unfold make_room. case_decide; [|congruence]. intros (key & _ & ->)%fmap_Some. rewrite lookup_delete_Some. tauto.
Qed.

Lemma make_room_busy m m' p e : make_room m = Some m' -> m !! p = Some e -> en_busy e = true -> m' !! p = Some e.
Proof.
  unfold make_room. case_decide; [|congruence]. intros (key & Ho & ->)%fmap_Some Hp Hb.
  apply oldest_spec in Ho as (e' & He' & Hb' & _). rewrite lookup_delete_ne; [done|]. intros ->. congruence.
Qed.

Lemma refresh_keeps entry epoch lines now :
  en_version (refresh entry epoch lines now) = en_version entry /\ en_busy (refresh entry epoch lines now) = en_busy entry /\
  (0 <= en_attempts entry <= MAX_ATTEMPTS -> 0 <= en_attempts (refresh entry epoch lines now) <= MAX_ATTEMPTS).
Proof. unfold refresh. case_match; cbn; repeat split; unfold MAX_ATTEMPTS in *; lia. Qed.

Lemma read_due_spec e eligible now : read_due e eligible now = true -> en_busy e = false /\ en_attempts e < MAX_ATTEMPTS.
Proof. unfold read_due. rewrite !andb_true_iff, negb_true_iff, bool_decide_eq_true. tauto. Qed.

Lemma fmap_remove_one r l : NoDup (rs_pane <$> l) -> r ∈ l ->
  NoDup (rs_pane <$> remove_one r l) /\ forall p, p ∈ rs_pane <$> remove_one r l <-> p ∈ rs_pane <$> l /\ p <> rs_pane r.
Proof.
  induction l as [|x l IH]; [by intros _ ?%elem_of_nil|]. rewrite fmap_cons, NoDup_cons. intros [Hx Hnd] Hr. cbn [remove_one].
  case_decide as E.
  - subst x. split; [done|]. intros p. rewrite elem_of_cons. split; [intros Hp; split; [by right|intros ->; done]|intros [[->|Hp] Hne]; done].
  - apply elem_of_cons in Hr as [->|Hr]; [done|]. destruct (IH Hnd Hr) as [IH1 IH2]. rewrite fmap_cons, NoDup_cons. split.
    + split; [|done]. rewrite IH2. tauto.
    + intros p. rewrite !elem_of_cons, IH2. split; [|tauto]. intros [->|[Hp Hne]]; [|tauto]. split; [by left|]. intros Heq.
      apply Hx. rewrite Heq. by apply list_elem_of_fmap_2.
Qed.

(** ** Preservation *)

Lemma entry_ok_mono ver ver' e : ver <= ver' -> entry_ok ver e -> entry_ok ver' e.
Proof. unfold entry_ok. lia. Qed.

Lemma observed_entry_ok ver e epoch lines now eligible : entry_ok ver e ->
  let e1 := refresh e epoch lines now in
  let e2 := if read_due e1 eligible now then mark_busy e1 now else e1 in
  entry_ok ver e2 /\ en_version e2 = en_version e /\ en_busy e2 = read_due e1 eligible now || en_busy e /\
  (read_due e1 eligible now = true -> en_busy e = false).
Proof.
  intros [Hv Ha] e1 e2. destruct (refresh_keeps e epoch lines now) as (Rv & Rb & Ra). fold e1 in Rv, Rb, Ra. specialize (Ra Ha).
  subst e2. destruct (read_due e1 eligible now) eqn:Ed.
  - apply read_due_spec in Ed as [Hb Hlt]. unfold entry_ok. cbn. rewrite Rv. rewrite <- Rb, Hb. repeat split; lia || done.
  - unfold entry_ok. rewrite Rv, Rb. repeat split; lia || done.
Qed.

Lemma observe_entry_inv st fl pane e epoch lines eligible now st' vw r :
  inv (mkSystem st fl) -> entry_ok (version st) e ->
  (entries st !! pane = Some e \/ (entries st !! pane = None /\ en_busy e = false /\ (base.size (entries st) < MAX_PANES)%nat)) ->
  observe_entry st pane e epoch lines eligible now = (st', vw, r) ->
  inv (mkSystem st' (match r with Some r => r :: fl | None => fl end)).
Proof.
  intros (Hv & Hok & Hsz & Hnd & Hfl & Hbz) He Hin. unfold observe_entry. intros [= <- <- <-].
  destruct (observed_entry_ok (version st) e epoch lines now eligible He) as (Hok2 & _ & Hb2 & Hidle). cbn in Hok2, Hb2, Hidle.
  set (e2 := if read_due _ _ _ then _ else _) in *. set (due := read_due _ _ _) in *.
  assert (en_busy e = false -> pane ∉ rs_pane <$> fl) as Hnot.
  { intros Hb Hp. apply Hfl in Hp as (e' & He' & Hb'). cbn [sy_state] in He'. destruct Hin as [Hin|[Hin _]]; congruence. }
  assert (en_busy e = true -> pane ∈ rs_pane <$> fl \/ pane = ""%string) as Hyes.
  { intros Hb. destruct (decide (pane = ""%string)); [by right|left]. destruct Hin as [Hin|(_ & Hb' & _)]; [|congruence]. by apply (Hbz pane e). }
  unfold inv. cbn [sy_state sy_flight entries version] in *. split; [done|]. split; [by apply map_Forall_insert_2|]. split.
  { destruct Hin as [Hin|(Hin & _ & Hlt)]; [rewrite map_size_insert_Some by done; done|rewrite map_size_insert_None by done; lia]. }
  assert (rs_pane <$> match (if due then Some (mkReservation pane (en_lines e2)) else None) with Some r => r :: fl | None => fl end
          = (if due then [pane] else []) ++ (rs_pane <$> fl)) as -> by (by destruct due).
  split; [destruct due; [cbn; constructor; [by apply Hnot, Hidle|done]|done]|]. split.
  - intros p. rewrite elem_of_app. intros Hp. destruct (decide (p = pane)) as [->|Hne].
    + exists e2. rewrite lookup_insert_eq. split; [done|]. rewrite Hb2. destruct due; [done|]. destruct Hp as [Hp%elem_of_nil|Hp]; [done|].
      destruct (en_busy e) eqn:Eb; [done|]. by apply Hnot in Hp.
    + rewrite lookup_insert_ne by done. apply Hfl. destruct Hp as [Hp|Hp]; [|done]. destruct due; [by apply list_elem_of_singleton in Hp|by apply elem_of_nil in Hp].
  - intros p e' Hp He' Hb'. rewrite elem_of_app. destruct (decide (p = pane)) as [->|Hne].
    + rewrite lookup_insert_eq in He'. injection He' as <-. rewrite Hb2 in Hb'. destruct due; [left; apply list_elem_of_here|right].
      cbn in Hb'. destruct (Hyes Hb') as [|]; done.
    + rewrite lookup_insert_ne in He' by done. right. by apply (Hbz p e').
Qed.

Lemma make_room_inv s m : inv s -> make_room (entries (sy_state s)) = Some m -> inv (mkSystem (mkState m (version (sy_state s) + 1)) (sy_flight s)).
Proof.
  intros (Hv & Hok & Hsz & Hnd & Hfl & Hbz) Hm. unfold inv. cbn [sy_state sy_flight entries version].
  split; [lia|]. split.
  { intros p e Hp. eapply entry_ok_mono; [|by eapply Hok, make_room_lookup]. lia. }
  split; [apply make_room_spec in Hm as [? _]; [lia|done]|]. split; [done|]. split.
  - intros p Hp. destruct (Hfl p Hp) as (e & He & Hb). exists e. split; [by eapply make_room_busy|done].
  - intros p e Hp He Hb. apply (Hbz p e); [done|by eapply make_room_lookup|done].
Qed.

Lemma release_keeps s r history : inv s -> r ∈ sy_flight s -> inv (mkSystem (release (sy_state s) (rs_pane r) history) (remove_one r (sy_flight s))).
Proof.
  intros (Hv & Hok & Hsz & Hnd & Hfl & Hbz) Hr. destruct (fmap_remove_one r (sy_flight s) Hnd Hr) as [Hnd' Hrem].
  destruct (Hfl (rs_pane r)) as (e & He & Hb); [by apply list_elem_of_fmap_2|]. unfold release. rewrite He.
  set (sc := match history with Some h => _ | None => _ end). destruct sc as [snap compl]. unfold inv. cbn [sy_state sy_flight entries version].
  split; [lia|]. split.
  { apply map_Forall_insert_2; [|intros p x Hx; eapply entry_ok_mono; [|by eapply Hok]; lia].
    specialize (Hok _ _ He). cbn in Hok. unfold entry_ok in *. cbn. lia. }
  split; [by rewrite map_size_insert_Some|]. split; [done|]. split.
  - intros p [Hp Hne]%Hrem. rewrite lookup_insert_ne by done. by apply Hfl.
  - intros p x Hp Hx Hbx. apply Hrem. destruct (decide (p = rs_pane r)) as [->|Hne].
    + rewrite lookup_insert_eq in Hx. injection Hx as <-. done.
    + rewrite lookup_insert_ne in Hx by done. split; [by apply (Hbz p x)|done].
Qed.

Lemma remove_blank_inv s r : inv s -> r ∈ sy_flight s -> rs_pane r = ""%string -> inv (mkSystem (sy_state s) (remove_one r (sy_flight s))).
Proof.
  intros (Hv & Hok & Hsz & Hnd & Hfl & Hbz) Hr Hblank. destruct (fmap_remove_one r (sy_flight s) Hnd Hr) as [Hnd' Hrem].
  unfold inv. cbn [sy_state sy_flight]. do 4 (split; [done|]). split.
  - intros p [Hp _]%Hrem. by apply Hfl.
  - intros p x Hp Hx Hbx. apply Hrem. split; [by apply (Hbz p x)|]. by rewrite Hblank.
Qed.

Lemma step_keeps s o s' granted : inv s -> step s o = Some (s', granted) -> inv s'.
Proof.
  intros Hinv. destruct o as [pane epoch lines eligible now|r history|r]; cbn [step].
  - destruct (observe _ _ _ _ _ _) as [[st vw] r] eqn:Eo. intros [= <- <-]. unfold observe in Eo. destruct s as [st0 fl]. cbn [sy_state sy_flight] in *.
    destruct (entries st0 !! pane) as [e|] eqn:Ee.
    + eapply observe_entry_inv; [done| |by left|done]. destruct Hinv as (_ & Hok & _). by apply (Hok pane).
    + destruct (make_room (entries st0)) as [m|] eqn:Em; [|by injection Eo as <- <- <-].
      eapply observe_entry_inv; [by apply (make_room_inv (mkSystem st0 fl))| | |done].
      * destruct Hinv as (Hv & _). cbn in *. unfold entry_ok, fresh_entry, MAX_ATTEMPTS. cbn. lia.
      * right. cbn [entries]. split; [|split; [done|]].
        -- destruct (m !! pane) eqn:Ep; [|done]. eapply make_room_lookup in Ep; [|done]. congruence.
        -- apply make_room_spec in Em as [? _]; [done|]. by destruct Hinv as (_ & _ & Hsz & _).
  - case_decide; [|done]. intros [= <- <-]. by apply release_keeps.
  - case_decide; [|done]. intros [= <- <-]. unfold drop_reservation. case_decide; [by apply remove_blank_inv|by apply release_keeps].
Qed.

Lemma start_inv : inv start.
Proof. split; [done|]. split; [apply map_Forall_empty|]. split; [cbn [sy_state start new_store entries]; rewrite map_size_empty; unfold MAX_PANES; lia|]. split; [constructor|]. split; [by intros p ?%elem_of_nil|by intros p e _ ?]. Qed.

Lemma run_inv s ops s' granted : inv s -> run s ops = Some (s', granted) -> inv s'.
Proof.
  revert s granted. induction ops as [|o ops IH]; intros s granted Hinv; cbn [run]; [by intros [= <- <-]|].
  destruct (step s o) as [[s1 g]|] eqn:Es; [|done]. cbn [mbind option_bind]. destruct (run s1 ops) as [[s2 g']|] eqn:Er; [|done].
  intros [= <- <-]. eapply IH; [by eapply step_keeps|done].
Qed.

(** ** The read fence *)

(** Since a read at version [v], the pane was harvested or dropped. *)
Definition dirty (v : Z) (st : State) (p : string) : Prop :=
  v <= version st /\ match entries st !! p with Some e => en_busy e = true \/ v < en_version e | None => True end.

Lemma observe_entry_lookup st pane e epoch lines eligible now st' vw r p : entry_ok (version st) e ->
  observe_entry st pane e epoch lines eligible now = (st', vw, r) ->
  version st' = version st /\ (p <> pane -> entries st' !! p = entries st !! p) /\
  exists e', entries st' !! pane = Some e' /\ en_version e' = en_version e /\ (en_busy e = true -> en_busy e' = true) /\
    (if r then en_busy e' = true else en_busy e' = en_busy e).
Proof.
  intros He. unfold observe_entry. intros [= <- <- <-]. cbn [version entries].
  destruct (observed_entry_ok (version st) e epoch lines now eligible He) as (_ & Hv2 & Hb2 & _). cbn in Hv2, Hb2.
  split; [done|]. split; [intros; by rewrite lookup_insert_ne|]. eexists. split; [by rewrite lookup_insert_eq|]. split; [done|].
  rewrite Hb2. destruct (read_due _ _ _); [done|]. done.
Qed.

Lemma release_lookup st q history p :
  version (release st q history) = version st + 1 /\ (p <> q -> entries (release st q history) !! p = entries st !! p) /\
  match entries st !! q with
  | Some _ => exists e', entries (release st q history) !! q = Some e' /\ en_version e' = version st + 1 /\ en_busy e' = false
  | None => entries (release st q history) !! q = None
  end.
Proof.
  unfold release. destruct (entries st !! q) as [e|] eqn:Eq; [|done]. destruct history as [h|]; cbn [version entries].
  all: split; [done|]; split; [intros; by rewrite lookup_insert_ne|]; rewrite lookup_insert_eq; by eexists.
Qed.

Lemma release_dirty v st q history p : dirty v st p -> dirty v (release st q history) p.
Proof.
  intros [Hle Hd]. destruct (release_lookup st q history p) as (Hver & Hother & Hq). unfold dirty. rewrite Hver. split; [lia|].
  destruct (decide (p = q)) as [->|]; [|by rewrite Hother]. destruct (entries st !! q); [|by rewrite Hq].
  destruct Hq as (e' & -> & -> & _). right. lia.
Qed.

Lemma release_clean s r history p v : inv s -> r ∈ sy_flight s -> read_version (sy_state s) p = Some v ->
  read_version (release (sy_state s) (rs_pane r) history) p = Some v.
Proof.
  intros (_ & _ & _ & _ & Hfl & _) Hr. destruct (Hfl (rs_pane r)) as (e & He & Hb); [by apply list_elem_of_fmap_2|].
  destruct (release_lookup (sy_state s) (rs_pane r) history p) as (_ & Hother & _). unfold read_version.
  destruct (decide (p = rs_pane r)) as [->|]; [by rewrite He, Hb|by rewrite Hother].
Qed.

(** Looking at a pane keeps another pane as it is, or evicts it. *)
Lemma observe_lookup s pane epoch lines eligible now st vw r p : inv s ->
  observe (sy_state s) pane epoch lines eligible now = (st, vw, r) ->
  version (sy_state s) <= version st /\
  (p <> pane -> entries st !! p = entries (sy_state s) !! p \/ entries st !! p = None) /\
  match entries (sy_state s) !! pane, entries st !! pane with
  | Some e, Some e' => en_version e' = en_version e /\ (en_busy e = true -> en_busy e' = true) /\ en_busy e' = bool_decide (is_Some r) || en_busy e
  | Some _, None => False
  | None, Some e' => version (sy_state s) < en_version e'
  | None, None => r = None
  end.
Proof.
  intros Hinv Eo. unfold observe in Eo. destruct (entries (sy_state s) !! pane) as [e|] eqn:Ee.
  - eapply (observe_entry_lookup _ _ _ _ _ _ _ _ _ _ p) in Eo as (Hver & Hother & e' & He' & Hve & Hbe & Hre); [|destruct Hinv as (_ & Hok & _); by apply (Hok pane)].
    rewrite He', Hver. split; [lia|]. split; [intros; left; by apply Hother|]. split; [done|]. split; [done|]. by destruct r.
  - destruct (make_room _) as [m|] eqn:Em; [|injection Eo as <- <- <-; rewrite Ee; split; [lia|]; split; [by left|done]].
    eapply (observe_entry_lookup _ _ _ _ _ _ _ _ _ _ p) in Eo as (Hver & Hother & e' & He' & Hve & _);
      [|destruct Hinv as (? & _); unfold entry_ok, fresh_entry, MAX_ATTEMPTS; cbn; lia].
    cbn [version entries fresh_entry en_version] in *. rewrite He', Hver. split; [lia|]. split; [|lia].
    intros Hne. rewrite Hother by done. destruct (m !! p) as [x|] eqn:Ex; [|by right]. left. by rewrite (make_room_lookup _ _ _ _ Em Ex).
Qed.

Lemma read_version_le s p v : inv s -> read_version (sy_state s) p = Some v -> v <= version (sy_state s).
Proof.
  intros (Hv & Hok & _). unfold read_version. destruct (entries (sy_state s) !! p) as [e|] eqn:E; [|intros [= <-]; lia].
  destruct (en_busy e); [done|]. intros [= <-]. specialize (Hok p e E). unfold entry_ok in Hok. lia.
Qed.

(** Each step leaves a clean pane clean or makes it dirty, and a dirty pane stays dirty. *)
Lemma step_dirty s o s' granted p v : inv s -> step s o = Some (s', granted) -> 1 <= v ->
  (dirty v (sy_state s) p -> dirty v (sy_state s') p) /\
  (read_version (sy_state s) p = Some v -> dirty v (sy_state s') p \/ (read_version (sy_state s') p = Some v /\ p ∉ granted)).
Proof.
  intros Hinv Hs Hv. destruct o as [pane epoch lines eligible now|r history|r]; cbn [step] in Hs.
  - destruct (observe _ _ _ _ _ _) as [[st vw] r] eqn:Eo. injection Hs as <- <-. cbn [sy_state].
    eapply (observe_lookup _ _ _ _ _ _ _ _ _ p) in Eo as (Hver & Hother & Hpane); [|done]. unfold dirty. split.
    + intros [Hle Hd]. split; [lia|]. destruct (decide (p = pane)) as [->|Hne]; [|by destruct (Hother Hne) as [-> | ->]].
      destruct (entries (sy_state s) !! pane), (entries st !! pane); naive_solver lia.
    + intros H0. pose proof (read_version_le s p v Hinv H0) as Hle. unfold read_version in *. destruct (decide (p = pane)) as [->|Hne].
      * destruct (entries (sy_state s) !! pane) as [e|], (entries st !! pane) as [e'|]; try done; [|injection H0 as <-; lia..].
        destruct (en_busy e); [done|]. injection H0 as <-. destruct Hpane as (-> & _ & ->). destruct r; [left; split; [lia|by left]|].
        right. split; [done|apply not_elem_of_nil].
      * destruct (Hother Hne) as [-> | ->]; [|left; split; [lia|done]]. right. split; [done|]. destruct r; [by rewrite list_elem_of_singleton|apply not_elem_of_nil].
  - case_decide as Hin; [|done]. injection Hs as <- <-. cbn [sy_state]. split; [apply release_dirty|]. intros H0. right.
    split; [by apply release_clean|apply not_elem_of_nil].
  - case_decide as Hin; [|done]. injection Hs as <- <-. cbn [sy_state]. unfold drop_reservation. case_decide.
    + split; [done|]. intros. right. split; [done|apply not_elem_of_nil].
    + split; [apply release_dirty|]. intros H0. right. split; [by apply release_clean|apply not_elem_of_nil].
Qed.

Lemma run_dirty s ops s' granted p v : inv s -> run s ops = Some (s', granted) -> 1 <= v ->
  (dirty v (sy_state s) p -> dirty v (sy_state s') p) /\
  (read_version (sy_state s) p = Some v -> dirty v (sy_state s') p \/ p ∉ granted).
Proof.
  revert s granted. induction ops as [|o ops IH]; intros s granted Hinv; cbn [run].
  { intros [= <- <-] _. split; [done|]. right. apply not_elem_of_nil. }
  destruct (step s o) as [[s1 g]|] eqn:Es; [|done]. cbn [mbind option_bind]. destruct (run s1 ops) as [[s2 g']|] eqn:Er; [|done].
  intros [= <- <-] Hv. destruct (step_dirty s o s1 g p v Hinv Es Hv) as [Hd Hc]. destruct (IH s1 g' (step_keeps _ _ _ _ Hinv Es) Er Hv) as [IHd IHc].
  split; [tauto|]. intros H0. destruct (Hc H0) as [?|[H1 Hg]]; [tauto|]. destruct (IHc H1); [tauto|]. right. by rewrite elem_of_app; intros [|].
Qed.

Lemma clean_not_dirty st p v : 1 <= v -> read_version st p = Some v -> dirty v st p -> False.
Proof.
  unfold read_version, dirty. intros Hv H [_ Hd]. destruct (entries st !! p) as [e|]; [|injection H as <-; lia].
  destruct (en_busy e); [done|]. injection H as <-. destruct Hd; [done|lia].
Qed.

(** ** Theorems *)

(** From an empty store, whatever watchers observe, finish and drop: no
    pane has two harvests in flight, a (named) pane is reported busy exactly
    while its reservation is in flight, the store holds at most 32 panes and
    no pane has been tried more than three times in its epoch. *)
Theorem one_harvest_per_pane (ops : list op) (s : System) (granted : list string) :
  run start ops = Some (s, granted) ->
  NoDup (rs_pane <$> sy_flight s) /\
  (forall p, p <> ""%string -> p ∈ rs_pane <$> sy_flight s <-> read_version (sy_state s) p = None) /\
  (base.size (entries (sy_state s)) <= MAX_PANES)%nat /\
  (forall p e, entries (sy_state s) !! p = Some e -> 0 <= en_attempts e <= MAX_ATTEMPTS).
Proof.
  intros Hrun. apply (run_inv _ _ _ _ start_inv) in Hrun as (Hv & Hok & Hsz & Hnd & Hfl & Hbz).
  split; [done|]. split; [|split; [done|by intros p e He; apply (Hok p e He)]]. intros p Hp. unfold read_version. split.
  - intros (e & -> & ->)%Hfl. done.
  - destruct (entries (sy_state s) !! p) as [e|] eqn:E; [|done]. destruct (en_busy e) eqn:Eb; [|done]. intros _. by apply (Hbz p e).
Qed.

(** The version fence around a pane read is sound: if a pane that has an
    entry reports the same version before and after, then no harvest of it was
    in flight before and none was granted in between, so the frame that was
    read cannot show a scrolled viewport. *)
Theorem read_fence_sound (s s' : System) (ops : list op) (granted : list string) (p : string) (v : Z) :
  inv s -> run s ops = Some (s', granted) -> p <> ""%string -> 1 <= v ->
  read_version (sy_state s) p = Some v -> read_version (sy_state s') p = Some v ->
  p ∉ granted /\ p ∉ rs_pane <$> sy_flight s /\ p ∉ rs_pane <$> sy_flight s'.
Proof.
  intros Hinv Hrun Hp Hv H0 H1. pose proof (run_inv _ _ _ _ Hinv Hrun) as Hinv'.
  destruct (run_dirty s ops s' granted p v Hinv Hrun Hv) as [_ Hc]. split.
  { destruct (Hc H0) as [Hd|]; [|done]. exfalso. by eapply clean_not_dirty. }
  assert (forall t, inv t -> read_version (sy_state t) p = Some v -> p ∉ rs_pane <$> sy_flight t) as Hidle; [|by split; apply Hidle].
  intros t (_ & _ & _ & _ & Hfl & _) Ht (e & He & Hb)%Hfl. unfold read_version in Ht. by rewrite He, Hb in Ht.
Qed.

End Store.

(** ** Concrete runs *)

Definition demo_epoch : Epoch := mkEpoch 1 "t" "s" 7 (Some (80, 24)).
Definition demo_run : option (System * list string) :=
  run map_to_list start [Observe "w1:p1" demo_epoch 200 true 0].

Lemma one_harvest_per_pane_witness :
  exists s granted, demo_run = Some (s, granted) /\ "w1:p1"%string ∈ rs_pane <$> sy_flight s /\ NoDup (rs_pane <$> sy_flight s).
Proof.
  destruct demo_run as [[s granted]|] eqn:E; [|vm_compute in E; discriminate E]. exists s, granted. split; [done|].
  destruct (one_harvest_per_pane map_to_list (fun m => reflexivity _) [Observe "w1:p1" demo_epoch 200 true 0] s granted E) as (Hnd & Hbusy & _).
  split; [|exact Hnd]. apply Hbusy; [done|]. vm_compute in E. injection E as <- <-. reflexivity.
Defined.

Definition demo_finished : list op :=
  [Observe "w1:p1" demo_epoch 200 true 0; Finish (mkReservation "w1:p1" 200) None].

Lemma read_fence_sound_witness :
  exists s s' granted, run map_to_list start demo_finished = Some (s, ["w1:p1"%string]) /\
    run map_to_list s [Observe "w1:p1" demo_epoch 200 true 10] = Some (s', granted) /\ "w1:p1"%string ∉ granted.
Proof.
  destruct (run map_to_list start demo_finished) as [[s g]|] eqn:E; [|vm_compute in E; discriminate E].
  destruct (run map_to_list s [Observe "w1:p1" demo_epoch 200 true 10]) as [[s' g']|] eqn:E'; [|vm_compute in E; injection E as <- <-; vm_compute in E'; discriminate E'].
  exists s, s', g'. assert (g = ["w1:p1"%string]) as -> by (vm_compute in E; by injection E as <- <-). split; [done|]. split; [done|].
  apply (read_fence_sound map_to_list (fun m => reflexivity _) s s' [Observe "w1:p1" demo_epoch 200 true 10] g' "w1:p1" 2).
  - by eapply (run_inv map_to_list (fun m => reflexivity _)), E; apply start_inv.
  - exact E'.
  - done.
  - lia.
  - vm_compute in E. injection E as <-. reflexivity.
  - vm_compute in E. injection E as <-. vm_compute in E'. injection E' as <- <-. reflexivity.
Defined.

(** A pane without an entry always reports version 0: when a harvest runs to
    its end and 32 other panes then push the entry out, the two equal versions
    around it do not show that it ran. *)
Definition crowd : list op := (fun i => Observe (pretty i) demo_epoch 200 false (Z.of_nat i + 100)) <$> seq 1 32.

Example absent_pane_fence_gap :
  read_version new_store "w1:p1" = Some 0 /\
  (fun r => (read_version (sy_state r.1) "w1:p1", r.2)) <$> run map_to_list start (demo_finished ++ crowd)
  = Some (Some 0, ["w1:p1"%string]).
Proof. split; vm_compute; reflexivity. Qed.

End AppHistory.
