(* ===== verification/SendBuffer.v ===== *)
(** * Per-client send buffer — [lerdr-core/src/sendbuffer.rs]

    A bounded FIFO of serialized messages.  A replaceable message overwrites a
    replaceable tail of the same type; any other overflow is refused and leaves
    the queue untouched.  Byte counters are integers, so an underflow of
    [usize] would show; the invariant excludes it. *)

From S2P Require Import Prelude.

Module SendBuffer.

Definition DEFAULT_MAX_ITEMS : nat := 64.
Definition MAX_OUTBOUND_MESSAGE_BYTES : Z := 4 * 1024 * 1024.
Definition DEFAULT_MAX_BYTES : Z := MAX_OUTBOUND_MESSAGE_BYTES.

Definition REPLACEABLE_TYPES : list string :=
  ["agents"; "inventory_status"; "update_status"; "app_deploy_status"; "herdr_status";
   "pane_content"; "pane_unchanged"; "pane_resync"; "caps_update"; "conversation_update"]%string.

Definition is_replaceable (kind : string) : bool := bool_decide (kind ∈ REPLACEABLE_TYPES).

Inductive RejectReason := Closed | ItemLimit | ByteLimit | CoalesceByteLimit.
Inductive PushResult := Rejected (reason : RejectReason) | Queued | Coalesced.

#[export] Instance RejectReason_eq_dec : EqDecision RejectReason.
Proof. solve_decision. Defined.
#[export] Instance PushResult_eq_dec : EqDecision PushResult.
Proof. solve_decision. Defined.

Definition admitted (r : PushResult) : bool :=
  match r with Rejected _ => false | _ => true end.

Record BufferedMessage := mkMessage {
  data : bytes;
  kind : string;
  replaceable : bool;
}.

Record SendBuffer := mkBuffer {
  items : list BufferedMessage;
  nbytes : Z;
  max_items : nat;
  max_bytes : Z;
  closed : bool;
}.

(** [data.len()]. *)
Definition size (m : BufferedMessage) : Z := Z.of_nat (length (data m)).

Definition with_capacity (max_items : nat) (max_bytes : Z) : SendBuffer :=
  mkBuffer [] 0 max_items max_bytes false.

Definition new : SendBuffer := with_capacity DEFAULT_MAX_ITEMS DEFAULT_MAX_BYTES.

(** [self.items.back()] of a non-empty queue together with the items before it. *)
Fixpoint unsnoc {A} (l : list A) : option (list A * A) :=
  match l with
  | [] => None
  | x :: l' => match unsnoc l' with
               | None => Some ([], x)
               | Some (init, last) => Some (x :: init, last)
               end
  end.

(** The tail a replaceable push of type [k] merges with: [replaceable &&
    !items.is_empty()], then [tail.replaceable && tail.kind == kind]. *)
Definition coalescing_tail (b : SendBuffer) (k : string) (r : bool)
    : option (list BufferedMessage * BufferedMessage) :=
  match (if r then unsnoc (items b) else None) with
  | Some (init, tail) =>
      if decide (replaceable tail = true /\ kind tail = k) then Some (init, tail) else None
  | None => None
  end.

Definition push_typed (b : SendBuffer) (d : bytes) (k : string) (r : bool) : SendBuffer * PushResult :=
  if closed b then (b, Rejected Closed)
  else match coalescing_tail b k r with
  | Some (init, tail) =>
      let next_bytes := nbytes b - size tail + Z.of_nat (length d) in
      if decide (max_bytes b < next_bytes) then (b, Rejected CoalesceByteLimit)
      else (mkBuffer (init ++ [mkMessage d (kind tail) (replaceable tail)]) next_bytes
                     (max_items b) (max_bytes b) (closed b), Coalesced)
  | None =>
      if decide (max_items b <= length (items b))%nat then (b, Rejected ItemLimit)
      else if decide (max_bytes b < nbytes b + Z.of_nat (length d)) then (b, Rejected ByteLimit)
      else (mkBuffer (items b ++ [mkMessage d k r]) (nbytes b + Z.of_nat (length d))
                     (max_items b) (max_bytes b) (closed b), Queued)
  end.

(** [push]: the type is sniffed from the JSON envelope, whose parser
    ([serde_json]) is the parameter [sniff_message_type]. *)
Definition push (sniff_message_type : bytes -> option string) (b : SendBuffer) (d : bytes)
    : SendBuffer * PushResult :=
  push_typed b d (default ""%string (sniff_message_type d)) false.

Definition pop (b : SendBuffer) : SendBuffer * option bytes :=
  match items b with
  | [] => (b, None)
  | m :: rest =>
      (mkBuffer rest (nbytes b - size m) (max_items b) (max_bytes b) (closed b), Some (data m))
  end.

Definition close (b : SendBuffer) : SendBuffer :=
  mkBuffer (items b) (nbytes b) (max_items b) (max_bytes b) true.

Definition len (b : SendBuffer) : nat := length (items b).

(** ** Runs of operations *)

Inductive op := Push (d : bytes) (k : string) (r : bool) | Pop | Close.

(** What a run has produced: the messages admitted by pushes (in push order)
    and the messages handed out by pops. *)
Record run_state := mkRun {
  buffer : SendBuffer;
  accepted : list BufferedMessage;
  popped : list BufferedMessage;
}.

Definition do_op (s : run_state) (o : op) : run_state :=
  match o with
  | Push d k r =>
      let '(b, result) := push_typed (buffer s) d k r in
      mkRun b (if admitted result then accepted s ++ [mkMessage d k r] else accepted s) (popped s)
  | Pop =>
      let '(b, result) := pop (buffer s) in
      mkRun b (accepted s)
        (match result, items (buffer s) with
         | Some _, m :: _ => popped s ++ [m]
         | _, _ => popped s
         end)
  | Close => mkRun (close (buffer s)) (accepted s) (popped s)
  end.

Definition run (b : SendBuffer) (ops : list op) : run_state :=
  foldl do_op (mkRun b [] []) ops.

(** ** Invariant *)

Definition total (l : list BufferedMessage) : Z := foldr (fun m acc => size m + acc) 0 l.

Record wf (b : SendBuffer) : Prop := {
  wf_bytes : nbytes b = total (items b);
  wf_items : (length (items b) <= max_items b)%nat;
  wf_budget : nbytes b <= max_bytes b;
}.

Lemma total_app l k : total (l ++ k) = total l + total k.
Proof. induction l as [|m l IH]; simpl; lia. Qed.

Lemma total_nonneg l : 0 <= total l.
Proof. induction l as [|m l IH]; simpl; unfold size; lia. Qed.

Lemma unsnoc_Some {A} (l : list A) init last : unsnoc l = Some (init, last) -> l = init ++ [last].
Proof.
  revert init. induction l as [|x l IH]; simpl; intros init; [done|].
  destruct (unsnoc l) as [[i t]|] eqn:E; intros [= <- <-]; [by rewrite (IH i)|].
  destruct l as [|y l']; [done|]. simpl in E. by destruct (unsnoc l') as [[? ?]|].
Qed.

Lemma coalescing_tail_Some b k r init tail :
  coalescing_tail b k r = Some (init, tail) ->
  items b = init ++ [tail] /\ r = true /\ replaceable tail = true /\ kind tail = k.
Proof.
  unfold coalescing_tail. destruct r; [|done].
  destruct (unsnoc (items b)) as [[i t]|] eqn:E; [|done].
  case_decide as H; [|done]. intros [= <- <-]. by apply unsnoc_Some in E.
Qed.

Lemma coalescing_tail_snoc b k init tail :
  items b = init ++ [tail] -> replaceable tail = true -> kind tail = k ->
  coalescing_tail b k true = Some (init, tail).
Proof.
  intros Hi Hr Hk. unfold coalescing_tail. rewrite Hi.
  assert (unsnoc (init ++ [tail]) = Some (init, tail)) as ->; [|by rewrite decide_True].
  clear. induction init as [|x l IH]; [done|]. simpl. by rewrite IH.
Qed.

(** The three outcomes of a push, with the buffer each one leaves. *)
Lemma push_typed_cases b d k r :
  (exists reason, push_typed b d k r = (b, Rejected reason)) \/
  (push_typed b d k r =
     (mkBuffer (items b ++ [mkMessage d k r]) (nbytes b + Z.of_nat (length d))
        (max_items b) (max_bytes b) (closed b), Queued) /\
   (length (items b) < max_items b)%nat /\ nbytes b + Z.of_nat (length d) <= max_bytes b) \/
  (exists init tail, items b = init ++ [tail] /\ replaceable tail = true /\ kind tail = k /\ r = true /\
   push_typed b d k r =
     (mkBuffer (init ++ [mkMessage d k r]) (nbytes b - size tail + Z.of_nat (length d))
        (max_items b) (max_bytes b) (closed b), Coalesced) /\
   nbytes b - size tail + Z.of_nat (length d) <= max_bytes b).
Proof.
  unfold push_typed. destruct (closed b) eqn:Hc; [eauto|].
  destruct (coalescing_tail b k r) as [[init tail]|] eqn:E.
  - apply coalescing_tail_Some in E as (Hi & -> & Hr & Hk).
    case_decide; [eauto|]. right. right. exists init, tail.
    rewrite Hr, Hk. do 5 (split; [done|]). lia.
  - do 2 (case_decide; [eauto|]). right. left. split; [done|]. lia.
Qed.

Lemma wf_with_capacity mi mb : 0 <= mb -> wf (with_capacity mi mb).
Proof. intros H. split; simpl; lia. Qed.

Lemma wf_push_typed b d k r : wf b -> wf (push_typed b d k r).1.
Proof.
  intros [Hb Hi Hm].
  destruct (push_typed_cases b d k r) as [[? ->]|[(-> & Hlt & Hle)|(init & tail & Hit & _ & _ & _ & -> & Hle)]].
  - done.
  - split; simpl; [rewrite total_app|rewrite length_app|]; simpl; unfold size; simpl; lia.
  - rewrite Hit, total_app in Hb. rewrite Hit, length_app in Hi. simpl in *.
    split; simpl; [rewrite total_app|rewrite length_app|]; simpl; unfold size in *; simpl; lia.
Qed.

Lemma wf_pop b : wf b -> wf (pop b).1.
Proof.
  intros [Hb Hi Hm]. unfold pop. destruct (items b) as [|m rest] eqn:E; simpl; [by split; rewrite ?E|].
  rewrite ?E in *. simpl in *. pose proof (total_nonneg rest).
  split; simpl; unfold size in *; lia.
Qed.

Lemma wf_close b : wf b -> wf (close b).
Proof. intros [? ? ?]. by split. Qed.

#[export] Hint Resolve wf_with_capacity wf_push_typed wf_pop wf_close : lerdr.

Lemma wf_do_op s o : wf (buffer s) -> wf (buffer (do_op s o)).
Proof.
  intros H. destruct o as [d k r| |]; simpl.
  - pose proof (wf_push_typed (buffer s) d k r H). by destruct (push_typed _ _ _ _).
  - pose proof (wf_pop (buffer s) H). by destruct (pop _).
  - auto with lerdr.
Qed.

Lemma wf_run_from s ops : wf (buffer s) -> wf (buffer (foldl do_op s ops)).
Proof. revert s. induction ops as [|o ops IH]; intros s H; simpl; auto using wf_do_op. Qed.

(** ** Conservation: nothing that matters is dropped or reordered *)

Abbreviation durable := (filter (fun m : BufferedMessage => replaceable m = false)).

(** The history of a run: everything popped, then everything still queued. *)
Definition history (s : run_state) : list BufferedMessage := popped s ++ items (buffer s).

Definition conserved (s : run_state) : Prop :=
  sublist (history s) (accepted s) /\ durable (history s) = durable (accepted s).

Lemma sublist_replace_last {A} (h a : list A) x y :
  sublist (h ++ [x]) a -> sublist (h ++ [y]) (a ++ [y]).
Proof.
  intros H. apply sublist_app; [|done].
  etrans; [|exact H]. by apply sublist_inserts_r.
Qed.

Lemma conserved_push s d k r : conserved s -> conserved (do_op s (Push d k r)).
Proof.
  intros [Hsub Hdur]. unfold conserved, history in *. cbn [do_op].
  destruct (push_typed_cases (buffer s) d k r)
    as [[? ->]|[(-> & _)|(init & tail & Hit & Hrep & Hk & -> & -> & _)]]; cbn [buffer accepted popped items admitted].
  - done.
  - rewrite app_assoc. split; [by apply sublist_app|]. by rewrite !filter_app, <- filter_app, Hdur.
  - rewrite Hit, app_assoc in Hsub, Hdur. rewrite app_assoc. split; [by eapply sublist_replace_last|].
    rewrite filter_app, (filter_cons_False _ tail) in Hdur by congruence.
    rewrite (filter_app _ (popped s ++ init)), (filter_app _ (accepted s)).
    rewrite (filter_cons_False _ (mkMessage d k true)) by done.
    rewrite <- Hdur. change (durable []) with (@nil BufferedMessage). by rewrite !app_nil_r.
Qed.

Lemma conserved_pop s : conserved s -> conserved (do_op s Pop).
Proof.
  intros H. unfold conserved, history in *. cbn [do_op]. unfold pop.
  destruct (items (buffer s)) as [|m rest] eqn:E; cbn [buffer accepted popped items].
  - by rewrite E.
  - by rewrite <- app_assoc.
Qed.

Lemma conserved_run s ops : conserved s -> conserved (foldl do_op s ops).
Proof.
  revert s. induction ops as [|o ops IH]; intros s H; simpl; [done|].
  apply IH. destruct o; [by apply conserved_push|by apply conserved_pop|done].
Qed.

(** ** Properties *)

(** The buffer's bounds hold after any sequence of pushes, pops and
    closes: the byte counter is exactly the sum of the queued payloads, the
    queue never exceeds its item cap nor its byte budget. *)
Theorem buffer_bounded mi mb ops :
  0 <= mb -> wf (buffer (run (with_capacity mi mb) ops)).
Proof. intros H. apply wf_run_from, wf_with_capacity, H. Qed.

Lemma buffer_bounded_witness :
  wf (buffer (run (with_capacity 2 10)
    [Push (replicate 6 0) "pane_delta" false; Push (replicate 5 0) "pane_delta" false;
     Push (replicate 4 1) "agents" true; Push (replicate 3 1) "agents" true; Pop])).
Proof. apply (buffer_bounded 2 10). lia. Defined.

(** Admission is lossless and FIFO: after any run, what was popped
    followed by what is queued is a subsequence of the admitted messages in
    push order, and it contains every admitted message that is not
    replaceable, in order.  Only superseded replaceable snapshots disappear. *)
Theorem admitted_messages_survive mi mb ops :
  let s := run (with_capacity mi mb) ops in
  sublist (popped s ++ items (buffer s)) (accepted s) /\
  durable (popped s ++ items (buffer s)) = durable (accepted s).
Proof. apply (conserved_run (mkRun (with_capacity mi mb) [] [])). by split. Qed.

(** A refused push changes nothing: the queue, its byte count and its
    flags are untouched whatever the reason. *)
Theorem rejected_push_is_noop b d k r reason b' :
  push_typed b d k r = (b', Rejected reason) -> b' = b.
Proof.
  intros H.
  destruct (push_typed_cases b d k r) as [[? E]|[(E & _)|(? & ? & _ & _ & _ & _ & E & _)]];
    rewrite E in H; congruence.
Qed.

Lemma rejected_push_is_noop_witness :
  (push_typed (with_capacity 0 5) [1] "a" false).1 = with_capacity 0 5.
Proof. apply (rejected_push_is_noop (with_capacity 0 5) [1] "a" false ItemLimit). reflexivity. Defined.

(** Coalescing replaces in place: a replaceable push onto a replaceable
    tail of the same type never grows the queue; it either overwrites the tail's
    payload or is refused because the merged bytes exceed the budget, even when
    the item cap is already reached. *)
Theorem coalesce_in_place b d k init tail :
  closed b = false -> items b = init ++ [tail] -> replaceable tail = true -> kind tail = k ->
  push_typed b d k true =
    if decide (max_bytes b < nbytes b - size tail + Z.of_nat (length d))
    then (b, Rejected CoalesceByteLimit)
    else (mkBuffer (init ++ [mkMessage d k true]) (nbytes b - size tail + Z.of_nat (length d))
            (max_items b) (max_bytes b) false, Coalesced).
Proof.
  intros Hc Hi Hr Hk. unfold push_typed. rewrite Hc, (coalescing_tail_snoc b k init tail) by done.
  by rewrite Hr, Hk.
Qed.

Lemma coalesce_in_place_witness :
  push_typed (mkBuffer [mkMessage [1; 2] "agents" true] 2 1 3 false) [7; 8; 9] "agents" true =
    (mkBuffer [mkMessage [7; 8; 9] "agents" true] 3 1 3 false, Coalesced).
Proof.
  rewrite (coalesce_in_place _ _ _ [] (mkMessage [1; 2] "agents" true)); reflexivity.
Defined.

End SendBuffer.
