(* ===== verification/Lease.v ===== *)
(** * Pane-size leases — [lerdr-core/src/lease.rs]

    The arbitration core over an abstract [PaneHost].  Durations are integer
    nanoseconds of an injected clock.  [expect] is partiality: [None] is the
    Rust panic.  The four [expect]s of [acquire] look up the pane that the same
    call has just found or inserted, so [acquire] hands the state on instead. *)

From S2P Require Import Prelude.

Module Lease.

Definition MIN_COLUMNS : Z := 40.
Definition MAX_COLUMNS : Z := 240.
Definition MIN_ROWS : Z := 10.
Definition MAX_ROWS : Z := 120.
Definition seconds (s : Z) : Z := s * 10 ^ 9.
Definition LEASE_TTL : Z := seconds 120.
Definition RELEASE_GRACE : Z := seconds 10.

Inductive LeaseError :=
| Closed | InvalidColumns | InvalidRows | InvalidLease | LeaseOwnerGone
| ProcessUnavailable | TtyUnavailable | SizeUnavailable | ResizeFailed | UnsupportedOs.

#[export] Instance LeaseError_eq_dec : EqDecision LeaseError.
Proof. solve_decision. Defined.

Definition error_as_str (e : LeaseError) : string :=
  match e with
  | Closed => "closed"
  | InvalidColumns => "invalid_columns"
  | InvalidRows => "invalid_rows"
  | InvalidLease => "invalid_lease"
  | LeaseOwnerGone => "lease_owner_gone"
  | ProcessUnavailable => "process_unavailable"
  | TtyUnavailable => "tty_unavailable"
  | SizeUnavailable => "size_unavailable"
  | ResizeFailed => "resize_failed"
  | UnsupportedOs => "unsupported_os"
  end.

Record TerminalSize := mkSize { columns : Z; rows : Z }.

(** The [PaneHost] trait: both operations may change the host. *)
Class PaneHost (H : Type) := {
  pane_size : H -> string -> H * result LeaseError TerminalSize;
  set_size : H -> string -> Z -> Z -> H * result LeaseError unit;
}.

Record LeaseT := mkLease {
  lease_columns : Z;
  lease_rows : Z;
  expires_at : Z;
}.

Record PaneState := mkPane {
  baseline_columns : Z;
  baseline_rows : Z;
  applied_columns : Z;
  applied_rows : Z;
  resized_at : option Z;
  leases : gmap string LeaseT;
}.

Definition with_leases (s : PaneState) (l : gmap string LeaseT) : PaneState :=
  mkPane (baseline_columns s) (baseline_rows s) (applied_columns s) (applied_rows s) (resized_at s) l.
Definition with_applied (s : PaneState) (c r : Z) : PaneState :=
  mkPane (baseline_columns s) (baseline_rows s) c r (resized_at s) (leases s).
Definition with_resized_at (s : PaneState) (t : option Z) : PaneState :=
  mkPane (baseline_columns s) (baseline_rows s) (applied_columns s) (applied_rows s) t (leases s).

(** [minimumColumns]: smallest lease, and whether there is one. *)
Definition minimum_columns (l : gmap string LeaseT) : Z * bool :=
  let minimum := foldl (fun acc (p : string * LeaseT) =>
    if decide (acc = 0 \/ lease_columns p.2 < acc) then lease_columns p.2 else acc) 0 (btree_list l) in
  (minimum, bool_decide (minimum <> 0)).

(** [minimumRows]: smallest positive row constraint, 0 when there is none. *)
Definition minimum_rows (l : gmap string LeaseT) : Z :=
  foldl (fun acc (p : string * LeaseT) =>
    if decide (lease_rows p.2 <= 0) then acc
    else if decide (acc = 0 \/ lease_rows p.2 < acc) then lease_rows p.2 else acc) 0 (btree_list l).

(** [removeExpired]: the retained leases, and whether any was dropped. *)
Definition remove_expired (s : PaneState) (now : Z) : PaneState * bool :=
  let kept := filter (fun p : string * LeaseT => now < expires_at p.2) (leases s) in
  (with_leases s kept, bool_decide (size kept <> size (leases s))).

Section Manager.
Context {H : Type} `{PaneHost H}.

Record LeaseManager := mkManager {
  host : H;
  ttl : Z;
  grace : Z;
  now : Z;
  panes : gmap string PaneState;
  closed : bool;
}.

Definition with_timeouts (h : H) (t g : Z) : LeaseManager := mkManager h t g 0 ∅ false.
Definition new (h : H) : LeaseManager := with_timeouts h LEASE_TTL RELEASE_GRACE.

Definition set_host (m : LeaseManager) (h : H) : LeaseManager :=
  mkManager h (ttl m) (grace m) (now m) (panes m) (closed m).
Definition set_panes (m : LeaseManager) (p : gmap string PaneState) : LeaseManager :=
  mkManager (host m) (ttl m) (grace m) (now m) p (closed m).

Definition advance (m : LeaseManager) (by_ : Z) : LeaseManager :=
  mkManager (host m) (ttl m) (grace m) (now m + by_) (panes m) (closed m).

(** The effective size of a lease set over a pane: columns, rows, and the row
    argument for [stty] (0 leaves the height alone). *)
Definition targets (s : PaneState) : Z * Z * Z :=
  let target_columns := (minimum_columns (leases s)).1 in
  let target_rows := minimum_rows (leases s) in
  let constrained_rows := bool_decide (0 < target_rows) in
  let target_rows := if constrained_rows then target_rows else baseline_rows s in
  let stty_rows :=
    if negb constrained_rows && bool_decide (target_rows = applied_rows s) then 0 else target_rows in
  (target_columns, target_rows, stty_rows).

(** The second half of [acquire]: write the lease, resize when needed, roll the
    lease back when the resize fails. [m] already holds [s] under [pane_id]. *)
Definition acquire_apply (m : LeaseManager) (client_id pane_id : string) (cols rws : Z)
    (s : PaneState) (current : TerminalSize) : LeaseManager * result LeaseError (Z * Z) :=
  let previous := leases s !! client_id in
  let s1 := with_leases s (<[client_id := mkLease cols rws (now m + ttl m)]> (leases s)) in
  let '(target_columns, target_rows, stty_rows) := targets s1 in
  let resize_needed :=
    bool_decide (target_columns <> columns current) ||
    (bool_decide (0 < stty_rows) && bool_decide (target_rows <> rows current)) in
  if resize_needed then
    let '(h, r) := set_size (host m) pane_id target_columns stty_rows in
    let m1 := set_host m h in
    match r with
    | Err e =>
        let rolled := match previous with
                      | Some lease => <[client_id := lease]> (leases s1)
                      | None => delete client_id (leases s1)
                      end in
        (set_panes m1 (<[pane_id := with_leases s1 rolled]> (panes m1)), Err e)
    | Ok _ =>
        let s2 := with_applied (with_resized_at s1 (Some (now m))) target_columns target_rows in
        (set_panes m1 (<[pane_id := s2]> (panes m1)), Ok (target_columns, target_rows))
    end
  else
    let s2 := with_applied s1 target_columns target_rows in
    (set_panes m (<[pane_id := s2]> (panes m)), Ok (target_columns, target_rows)).

Definition acquire (m : LeaseManager) (client_id pane_id : string) (cols rws : Z) (owner_gone : bool)
    : LeaseManager * result LeaseError (Z * Z) :=
  if decide (client_id = "" \/ pane_id = "")%string then (m, Err InvalidLease)
  else if decide (~ (MIN_COLUMNS <= cols <= MAX_COLUMNS)) then (m, Err InvalidColumns)
  else if decide (rws <> 0 /\ ~ (MIN_ROWS <= rws <= MAX_ROWS)) then (m, Err InvalidRows)
  else if closed m then (m, Err Closed)
  else if owner_gone then (m, Err LeaseOwnerGone)
  else match panes m !! pane_id with
  | None =>
      let '(h, r) := pane_size (host m) pane_id in
      let m1 := set_host m h in
      match r with
      | Err e => (m1, Err e)
      | Ok sz =>
          let s := mkPane (columns sz) (rows sz) (columns sz) (rows sz) None ∅ in
          let m2 := set_panes m1 (<[pane_id := s]> (panes m1)) in
          if owner_gone then (m2, Err LeaseOwnerGone)
          else acquire_apply m2 client_id pane_id cols rws s sz
      end
  | Some s =>
      let '(s1, _) := remove_expired s (now m) in
      let '(h, r) := pane_size (host m) pane_id in
      let m1 := set_host (set_panes m (<[pane_id := s1]> (panes m))) h in
      match r with
      | Err e => (m1, Err e)
      | Ok current =>
          let s2 := mkPane
            (if decide (columns current <> applied_columns s1) then columns current else baseline_columns s1)
            (if decide (rows current <> applied_rows s1) then rows current else baseline_rows s1)
            (applied_columns s1) (applied_rows s1) (resized_at s1) (leases s1) in
          let m2 := set_panes m1 (<[pane_id := s2]> (panes m1)) in
          if owner_gone then (m2, Err LeaseOwnerGone)
          else acquire_apply m2 client_id pane_id cols rws s2 current
      end
  end.

(** [restore]: baseline size, then the pane's state is dropped. *)
Definition restore (m : LeaseManager) (pane_id : string) : option (LeaseManager * result LeaseError unit) :=
  s ← panes m !! pane_id;
  let stty_rows := if decide (applied_rows s = baseline_rows s) then 0 else baseline_rows s in
  let '(h, r) := set_size (host m) pane_id (baseline_columns s) stty_rows in
  let m1 := set_host m h in
  Some (match r with
        | Err e => (m1, Err e)
        | Ok _ => (set_panes m1 (delete pane_id (panes m1)), Ok tt)
        end).

(** [reconcile]: apply the effective minimum, or restore when no lease remains. *)
Definition reconcile (m : LeaseManager) (pane_id : string) : option (LeaseManager * result LeaseError unit) :=
  s ← panes m !! pane_id;
  if negb (minimum_columns (leases s)).2 then restore m pane_id
  else
    let '(target_columns, target_rows, stty_rows) := targets s in
    if decide (target_columns = applied_columns s /\ target_rows = applied_rows s) then Some (m, Ok tt)
    else
      let '(h, r) := set_size (host m) pane_id target_columns stty_rows in
      let m1 := set_host m h in
      Some (match r with
            | Err e => (m1, Err e)
            | Ok _ =>
                let s2 := with_applied (with_resized_at s (Some (now m))) target_columns target_rows in
                (set_panes m1 (<[pane_id := s2]> (panes m1)), Ok tt)
            end).

Definition release (m : LeaseManager) (client_id pane_id : string)
    : option (LeaseManager * result LeaseError unit) :=
  if decide (client_id = "" \/ pane_id = "")%string then Some (m, Err InvalidLease)
  else if closed m then Some (m, Ok tt)
  else match panes m !! pane_id with
  | None => Some (m, Ok tt)
  | Some s =>
      match leases s !! client_id with
      | None => Some (m, Ok tt)
      | Some lease =>
          let lapse := now m + grace m in
          let '(lease', s') :=
            if decide (lapse < expires_at lease)
            then let l := mkLease (lease_columns lease) (lease_rows lease) lapse in
                 (l, with_leases s (<[client_id := l]> (leases s)))
            else (lease, s) in
          let m' := set_panes m (<[pane_id := s']> (panes m)) in
          if decide (now m < expires_at lease') then Some (m', Ok tt)
          else
            reconcile (set_panes m (<[pane_id := with_leases s' (delete client_id (leases s'))]> (panes m))) pane_id
      end
  end.

(** The per-pane body of [release_client]'s loop. *)
Definition release_client_pane (client_id : string) (acc : LeaseManager * result LeaseError unit)
    (pane_id : string) : option (LeaseManager * result LeaseError unit) :=
  let '(m, res) := acc in
  let '(m1, owned, active) :=
    match panes m !! pane_id with
    | Some s =>
        let s' := with_leases s (delete client_id (leases s)) in
        (set_panes m (<[pane_id := s']> (panes m)), bool_decide (is_Some (leases s !! client_id)),
         (minimum_columns (leases s')).2)
    | None => (m, false, false)
    end in
  if negb owned && active then Some (m1, res)
  else '(m2, r) ← reconcile m1 pane_id;
       Some (m2, match r with Err e => Err e | Ok _ => res end).

Fixpoint for_panes (body : LeaseManager * result LeaseError unit -> string ->
                           option (LeaseManager * result LeaseError unit))
    (pane_ids : list string) (acc : LeaseManager * result LeaseError unit)
    : option (LeaseManager * result LeaseError unit) :=
  match pane_ids with
  | [] => Some acc
  | p :: rest => acc' ← body acc p; for_panes body rest acc'
  end.

Definition release_client (m : LeaseManager) (client_id : string)
    : option (LeaseManager * result LeaseError unit) :=
  if decide (client_id = "")%string then Some (m, Err InvalidLease)
  else if closed m then Some (m, Ok tt)
  else for_panes (release_client_pane client_id) (btree_keys (panes m)) (m, Ok tt).

(** The per-pane body of [sweep_expired]'s loop. *)
Definition sweep_pane (time : Z) (acc : LeaseManager * result LeaseError unit)
    (pane_id : string) : option (LeaseManager * result LeaseError unit) :=
  let '(m, res) := acc in
  match panes m !! pane_id with
  | None => Some (m, res)
  | Some s =>
      let '(s', removed) := remove_expired s time in
      let m1 := set_panes m (<[pane_id := s']> (panes m)) in
      let '(target, active) := minimum_columns (leases s') in
      let target_rows := minimum_rows (leases s') in
      let target_rows := if decide (target_rows = 0) then baseline_rows s' else target_rows in
      let settled := bool_decide (applied_columns s' = target) && bool_decide (applied_rows s' = target_rows) in
      if negb removed && active && settled then Some (m1, res)
      else '(m2, r) ← reconcile m1 pane_id;
           Some (m2, match r with Err e => Err e | Ok _ => res end)
  end.

Definition sweep_expired (m : LeaseManager) : option (LeaseManager * result LeaseError unit) :=
  if closed m then Some (m, Ok tt)
  else for_panes (sweep_pane (now m)) (btree_keys (panes m)) (m, Ok tt).

Definition active_columns (m : LeaseManager) (pane_id : string) : option Z :=
  if closed m then None
  else
    s ← panes m !! pane_id;
    let minimum := foldl (fun acc (p : string * LeaseT) =>
      if decide (expires_at p.2 <= now m) then acc
      else if decide (acc = 0 \/ lease_columns p.2 < acc) then lease_columns p.2 else acc)
      0 (btree_list (leases s)) in
    if decide (minimum <> 0) then Some minimum else None.

Definition active_rows (m : LeaseManager) (pane_id : string) : option Z :=
  if closed m then None
  else
    s ← panes m !! pane_id;
    let '(active, minimum) := foldl (fun (acc : bool * Z) (p : string * LeaseT) =>
      if decide (expires_at p.2 <= now m) then acc
      else (true, if decide (0 < lease_rows p.2 /\ (acc.2 = 0 \/ lease_rows p.2 < acc.2))
                  then lease_rows p.2 else acc.2))
      (false, 0) (btree_list (leases s)) in
    if negb active then None
    else Some (if decide (minimum = 0) then baseline_rows s else minimum).

Definition resized_within (m : LeaseManager) (pane_id : string) (window : Z) : bool :=
  if closed m then false
  else match (s ← panes m !! pane_id; resized_at s) with
       | Some at_ => bool_decide (Z.max 0 (now m - at_) < window)
       | None => false
       end.

(** The per-pane body of [shutdown]'s loop. *)
Definition shutdown_pane (acc : LeaseManager * result LeaseError unit) (pane_id : string)
    : option (LeaseManager * result LeaseError unit) :=
  let '(m, res) := acc in
  let m1 := match panes m !! pane_id with
            | Some s => set_panes m (<[pane_id := with_leases s ∅]> (panes m))
            | None => m
            end in
  '(m2, r) ← restore m1 pane_id;
  Some (m2, match r with Err e => Err e | Ok _ => res end).

Definition shutdown (m : LeaseManager) : option (LeaseManager * result LeaseError unit) :=
  let m := mkManager (host m) (ttl m) (grace m) (now m) (panes m) true in
  for_panes shutdown_pane (btree_keys (panes m)) (m, Ok tt).

Definition holders (m : LeaseManager) (pane_id : string) : list string :=
  match panes m !! pane_id with
  | None => []
  | Some s => (filter (fun p : string * LeaseT => now m < expires_at p.2) (btree_list (leases s))).*1
  end.

End Manager.
Arguments LeaseManager : clear implicits.

#[global] Arguments targets : simpl never.
#[global] Arguments minimum_columns : simpl never.
#[global] Arguments minimum_rows : simpl never.

(** ** The effective minimum *)

(** The shared minimum loop: 0 means "none yet". *)
Definition min_step (acc x : Z) : Z := if decide (acc = 0 \/ x < acc) then x else acc.
Definition min_pos (xs : list Z) : Z := foldl min_step 0 xs.

Lemma foldl_min_step_pos xs acc :
  0 < acc -> Forall (Z.lt 0) xs ->
  0 < foldl min_step acc xs <= acc /\ (foldl min_step acc xs = acc \/ foldl min_step acc xs ∈ xs) /\
  Forall (Z.le (foldl min_step acc xs)) xs.
Proof.
  revert acc. induction xs as [|x xs IH]; intros acc Ha Hxs; simpl; [split_and!; auto; lia|].
  inversion_clear Hxs as [|? ? Hx Htl].
  destruct (IH (min_step acc x)) as (Hle & Hin & Hall); [unfold min_step; case_decide; lia|done|].
  assert (min_step acc x <= x /\ min_step acc x <= acc /\ (min_step acc x = acc \/ min_step acc x = x)) as (H1 & H2 & H3)
    by (unfold min_step; case_decide; lia).
  split_and!; [lia|lia| |constructor; [lia|done]].
  destruct Hin as [->|Hin]; [|right; by constructor].
  destruct H3 as [->| ->]; [by left|right; constructor].
Qed.

Lemma min_pos_nil : min_pos [] = 0.
Proof. done. Qed.

(** On positive entries the loop computes the least element. *)
Lemma min_pos_spec xs :
  xs <> [] -> Forall (Z.lt 0) xs -> min_pos xs ∈ xs /\ 0 < min_pos xs /\ Forall (Z.le (min_pos xs)) xs.
Proof.
  destruct xs as [|x xs]; intros Hne Hxs; [done|]. inversion_clear Hxs as [|? ? Hx Htl].
  unfold min_pos. simpl. assert (min_step 0 x = x) as -> by (unfold min_step; case_decide; lia).
  destruct (foldl_min_step_pos xs x) as (Hle & Hin & Hall); [done..|].
  split_and!; [|lia|constructor; [lia|done]].
  destruct Hin as [->|Hin]; by constructor.
Qed.

Definition lease_list (l : gmap string LeaseT) : list LeaseT := (btree_list l).*2.

Lemma foldl_fmap {A B C} (f : C -> B -> C) (g : A -> B) (l : list A) (a : C) :
  foldl (fun acc x => f acc (g x)) a l = foldl f a (g <$> l).
Proof. revert a. induction l as [|x l IH]; intros a; simpl; auto. Qed.

Lemma foldl_skip {A B} (P : B -> Prop) `{!forall x, Decision (P x)} (f : A -> B -> A) (l : list B) (a : A) :
  foldl (fun acc x => if decide (P x) then acc else f acc x) a l = foldl f a (filter (fun x => ~ P x) l).
Proof.
  revert a. induction l as [|x l IH]; intros a; simpl; [done|].
  destruct (decide (P x)) as [Hp|Hp].
  - rewrite IH, filter_cons_False; [done|naive_solver].
  - rewrite IH, filter_cons_True; [done|naive_solver].
Qed.

Lemma minimum_columns_eq l :
  minimum_columns l = (min_pos (lease_columns <$> lease_list l),
                       bool_decide (min_pos (lease_columns <$> lease_list l) <> 0)).
Proof.
  unfold minimum_columns, min_pos, lease_list. rewrite <- list_fmap_compose.
  by rewrite <- (foldl_fmap min_step (lease_columns ∘ snd)).
Qed.

Definition row_constraints (l : gmap string LeaseT) : list Z :=
  lease_rows <$> filter (fun x => ~ lease_rows x <= 0) (lease_list l).

Lemma minimum_rows_eq l : minimum_rows l = min_pos (row_constraints l).
Proof.
  unfold minimum_rows, min_pos, row_constraints, lease_list.
  rewrite <- (foldl_fmap min_step lease_rows).
  rewrite <- (foldl_skip (fun x => lease_rows x <= 0)).
  by rewrite <- (foldl_fmap (fun acc x => if decide (lease_rows x <= 0) then acc else min_step acc (lease_rows x)) snd).
Qed.

Lemma elem_of_lease_list l x : x ∈ lease_list l <-> exists c, l !! c = Some x.
Proof.
  unfold lease_list. rewrite list_elem_of_fmap. split.
  - intros ([c y] & -> & Hin). exists c. by apply elem_of_btree_list.
  - intros [c Hc]. exists (c, x). split; [done|]. by apply elem_of_btree_list.
Qed.

(** ** Valid leases *)

Definition lease_ok (x : LeaseT) : Prop :=
  MIN_COLUMNS <= lease_columns x <= MAX_COLUMNS /\
  (lease_rows x = 0 \/ MIN_ROWS <= lease_rows x <= MAX_ROWS).

Definition leases_ok (l : gmap string LeaseT) : Prop := map_Forall (fun _ => lease_ok) l.

Lemma leases_ok_list l : leases_ok l -> Forall lease_ok (lease_list l).
Proof. intros Hl. apply Forall_forall. intros x [c Hc]%elem_of_lease_list. by eapply Hl. Qed.

Lemma leases_ok_columns l : leases_ok l -> Forall (Z.lt 0) (lease_columns <$> lease_list l).
Proof.
  intros Hl%leases_ok_list. apply Forall_fmap. eapply Forall_impl; [exact Hl|].
  intros x [Hc _]. unfold MIN_COLUMNS in Hc. simpl. lia.
Qed.

Lemma row_constraints_pos l : Forall (Z.lt 0) (row_constraints l).
Proof.
  apply Forall_fmap, Forall_forall. intros x [Hx _]%list_elem_of_filter. simpl. lia.
Qed.

Lemma lease_list_nil l : lease_list l = [] <-> l = ∅.
Proof.
  split; intros Hl.
  - apply map_empty. intros c. destruct (l !! c) as [x|] eqn:E; [|done].
    assert (x ∈ lease_list l) as Hin by (apply elem_of_lease_list; eauto). rewrite Hl in Hin. by apply not_elem_of_nil in Hin.
  - subst l. done.
Qed.

(** The columns a non-empty valid lease set yields: some holder's, and no
    holder's is smaller. *)
Lemma minimum_columns_spec l :
  leases_ok l -> l <> ∅ ->
  (minimum_columns l).2 = true /\
  (exists c x, l !! c = Some x /\ lease_columns x = (minimum_columns l).1) /\
  (forall c x, l !! c = Some x -> (minimum_columns l).1 <= lease_columns x).
Proof.
  intros Hl Hne. rewrite minimum_columns_eq. simpl.
  destruct (min_pos_spec (lease_columns <$> lease_list l)) as (Hin & Hpos & Hall).
  { intros E. apply fmap_nil_inv, lease_list_nil in E. done. }
  { by apply leases_ok_columns. }
  split_and!.
  - apply bool_decide_eq_true_2. lia.
  - apply list_elem_of_fmap in Hin as (x & -> & [c Hc]%elem_of_lease_list). eauto.
  - intros c x Hc. rewrite Forall_forall in Hall. apply Hall, list_elem_of_fmap.
    exists x. split; [done|]. apply elem_of_lease_list. eauto.
Qed.

Lemma minimum_columns_empty : minimum_columns ∅ = (0, false).
Proof. done. Qed.

Lemma minimum_rows_spec l :
  (minimum_rows l = 0 /\ forall c x, l !! c = Some x -> lease_rows x <= 0) \/
  (0 < minimum_rows l /\ (exists c x, l !! c = Some x /\ lease_rows x = minimum_rows l) /\
   forall c x, l !! c = Some x -> 0 < lease_rows x -> minimum_rows l <= lease_rows x).
Proof.
  rewrite minimum_rows_eq. destruct (decide (row_constraints l = [])) as [E|E].
  - left. rewrite E. split; [done|]. intros c x Hc. destruct (Z_le_gt_dec (lease_rows x) 0) as [|Hgt]; [done|].
    assert (lease_rows x ∈ row_constraints l) as Hin.
    { apply list_elem_of_fmap. exists x. split; [done|]. apply list_elem_of_filter.
      split; [lia|]. apply elem_of_lease_list. eauto. }
    rewrite E in Hin. by apply not_elem_of_nil in Hin.
  - right. destruct (min_pos_spec _ E (row_constraints_pos l)) as (Hin & Hpos & Hall). split_and!; [done| |].
    + apply list_elem_of_fmap in Hin as (x & -> & [_ [c Hc]%elem_of_lease_list]%list_elem_of_filter). eauto.
    + intros c x Hc Hx. rewrite Forall_forall in Hall. apply Hall, list_elem_of_fmap.
      exists x. split; [done|]. apply list_elem_of_filter. split; [lia|]. apply elem_of_lease_list. eauto.
Qed.

(** The [stty] row argument either is the target height or may be omitted
    because the pane already has it. *)
Lemma targets_stty s tc tr st :
  0 < baseline_rows s -> targets s = (tc, tr, st) ->
  (0 < tr) /\ ((st = 0 /\ tr = applied_rows s) \/ st = tr).
Proof.
  intros Hb. unfold targets. intros [= <- <- <-].
  case_bool_decide as Hc; simpl; [split; [done|by right]|].
  case_bool_decide; auto.
Qed.

End Lease.
