(* ===== verification/LeaseInvariant.v ===== *)
(** * Pane-size leases: invariants over every reachable state

    The laws a terminal host must satisfy, the invariant that ties the manager
    to the host's real sizes, and its consequences: no operation panics, an
    acquired size is the minimum over the holders, and shutting down gives every
    pane its original size back. *)

From S2P Require Import Prelude Lease.
Import Lease.

Module LeaseInvariant.

(** What [stty] promises: reading a size changes no size; a successful resize
    changes only that pane, and leaves its height alone for a row argument of 0;
    a failed resize changes nothing. *)
Class PaneHostLaws (H : Type) `{PaneHost H} := {
  size_of : H -> string -> option TerminalSize;
  pane_size_frame h p h' r : pane_size h p = (h', r) ->
    (forall q, size_of h' q = size_of h q) /\ (forall sz, r = Ok sz -> size_of h p = Some sz);
  set_size_ok h p c r h' : set_size h p c r = (h', Ok tt) ->
    (exists old, size_of h p = Some old /\
       size_of h' p = Some (mkSize c (if decide (0 < r) then r else rows old))) /\
    (forall q, q <> p -> size_of h' q = size_of h q);
  set_size_err h p c r h' e : set_size h p c r = (h', Err e) ->
    forall q, size_of h' q = size_of h q;
}.

Section Invariant.
Context {H : Type} `{PaneHostLaws H}.
Implicit Types m : LeaseManager H.

(** The sizes the panes had before any lease. *)
Variable orig : string -> option TerminalSize.
Hypothesis orig_pos : forall p sz, orig p = Some sz -> 0 < columns sz /\ 0 < rows sz.

(** A leased pane: valid leases, the host at the applied size, the baseline
    still the original size. *)
Record pane_inv (h : H) (p : string) (s : PaneState) : Prop := {
  pi_leases : leases_ok (leases s);
  pi_applied : size_of h p = Some (mkSize (applied_columns s) (applied_rows s));
  pi_baseline : orig p = Some (mkSize (baseline_columns s) (baseline_rows s));
}.

Definition slot_inv (h : H) (p : string) (o : option PaneState) : Prop :=
  match o with
  | Some s => pane_inv h p s
  | None => size_of h p = orig p
  end.

Definition inv m : Prop := forall p, slot_inv (host m) p (panes m !! p).

Lemma pane_inv_host h h' p s : size_of h' p = size_of h p -> pane_inv h p s -> pane_inv h' p s.
Proof. intros Hs [? ? ?]. split; [done|by rewrite Hs|done]. Qed.

Lemma slot_inv_host h h' p o : size_of h' p = size_of h p -> slot_inv h p o -> slot_inv h' p o.
Proof. intros Hs. destruct o; simpl; [by apply pane_inv_host|by rewrite Hs]. Qed.

Lemma pane_inv_rows h p s : pane_inv h p s -> 0 < baseline_rows s.
Proof. intros [_ _ Hb]. by apply orig_pos in Hb as [_ ?]. Qed.

Lemma pane_inv_with_leases h p s l : leases_ok l -> pane_inv h p s -> pane_inv h p (with_leases s l).
Proof. intros Hl [? ? ?]. by split. Qed.

(** Changing one pane and only that pane's size. *)
Lemma inv_update m p h' ps' t g n cl :
  inv m -> (forall q, q <> p -> size_of h' q = size_of (host m) q /\ ps' !! q = panes m !! q) ->
  slot_inv h' p (ps' !! p) -> inv (mkManager h' t g n ps' cl).
Proof.
  intros Hinv Hother Hp q. simpl. destruct (decide (q = p)) as [->|Hne]; [done|].
  destruct (Hother q Hne) as [Hs ->]. eapply slot_inv_host; [exact Hs|apply Hinv].
Qed.

Lemma inv_same_host m h' t g n cl :
  inv m -> (forall q, size_of h' q = size_of (host m) q) -> inv (mkManager h' t g n (panes m) cl).
Proof. intros Hinv Hs q. simpl. eapply slot_inv_host; [apply Hs|apply Hinv]. Qed.

(** Swapping in a new lease set for a pane. *)
Lemma inv_set_leases m p s l :
  inv m -> panes m !! p = Some s -> leases_ok l ->
  inv (set_panes m (<[p := with_leases s l]> (panes m))).
Proof.
  intros Hinv Hp Hl. apply (inv_update m p); [done| |].
  - intros q Hq. simpl. by rewrite lookup_insert_ne.
  - simpl. rewrite lookup_insert_eq. apply pane_inv_with_leases; [done|].
    specialize (Hinv p). by rewrite Hp in Hinv.
Qed.

Lemma leases_ok_delete l c : leases_ok l -> leases_ok (delete c l).
Proof. apply map_Forall_delete. Qed.

Lemma leases_ok_filter l (P : string * LeaseT -> Prop) `{!forall x, Decision (P x)} :
  leases_ok l -> leases_ok (filter P l).
Proof. intros Hl c x [Hx _]%map_lookup_filter_Some. by eapply Hl. Qed.

Lemma leases_ok_insert l c x : lease_ok x -> leases_ok l -> leases_ok (<[c := x]> l).
Proof. intros Hx Hl. by apply map_Forall_insert_2. Qed.

Lemma inv_pane m p s : inv m -> panes m !! p = Some s -> pane_inv (host m) p s.
Proof. intros Hinv Hp. specialize (Hinv p). by rewrite Hp in Hinv. Qed.

(** A successful resize to a lease set's targets keeps manager and host in step. *)
Lemma resize_ok h p s tc tr st h' :
  pane_inv h p s -> targets s = (tc, tr, st) -> set_size h p tc st = (h', Ok tt) ->
  size_of h' p = Some (mkSize tc tr) /\ (forall q, q <> p -> size_of h' q = size_of h q).
Proof.
  intros Hs Ht Hset. destruct (targets_stty s tc tr st) as [Hpos Hst]; [by eapply pane_inv_rows|done|].
  apply set_size_ok in Hset as ((old & Hold & Hnew) & Hother). split; [|done].
  rewrite Hnew. rewrite (pi_applied _ _ _ Hs) in Hold. injection Hold as <-. simpl.
  destruct Hst as [[-> ->]| ->]; case_decide; try lia; done.
Qed.

Lemma restore_inv m p m' r :
  inv m -> restore m p = Some (m', r) -> inv m'.
Proof.
  intros Hinv. unfold restore. destruct (panes m !! p) as [s|] eqn:Hp; [|done]. cbn [mbind option_bind].
  pose proof (inv_pane m p s Hinv Hp) as Hs.
  destruct (set_size _ _ _ _) as [h' [[]|e]] eqn:Hset; intros [= <- <-].
  - apply set_size_ok in Hset as ((old & Hold & Hnew) & Hother).
    apply (inv_update m p); [done| |].
    + intros q Hq. simpl. rewrite lookup_delete_ne by done. auto.
    + simpl. rewrite lookup_delete_eq. simpl. rewrite Hnew, (pi_baseline _ _ _ Hs).
      rewrite (pi_applied _ _ _ Hs) in Hold. injection Hold as <-. simpl.
      pose proof (pane_inv_rows _ _ _ Hs). do 2 f_equal. repeat case_decide; lia.
  - apply inv_same_host; [done|]. by eapply set_size_err.
Qed.

Lemma reconcile_inv m p m' r :
  inv m -> reconcile m p = Some (m', r) -> inv m'.
Proof.
  intros Hinv. unfold reconcile. destruct (panes m !! p) as [s|] eqn:Hp; [|done]. cbn [mbind option_bind].
  destruct (minimum_columns (leases s)).2; cbn [negb]; [|by apply restore_inv].
  pose proof (inv_pane m p s Hinv Hp) as Hs.
  destruct (targets s) as [[tc tr] st] eqn:Ht.
  case_decide; [by intros [= <- <-]|].
  destruct (set_size _ _ _ _) as [h' [[]|e]] eqn:Hset; intros [= <- <-].
  - destruct (resize_ok _ _ _ _ _ _ _ Hs Ht Hset) as [Hnew Hother].
    apply (inv_update m p); [done| |].
    + intros q Hq. simpl. rewrite lookup_insert_ne by done. auto.
    + simpl. rewrite lookup_insert_eq. destruct Hs. by split.
  - apply inv_same_host; [done|]. by eapply set_size_err.
Qed.

(** The size just read is the applied size; the targets of the extended lease
    set are applied or the lease is rolled back. *)
Lemma acquire_apply_inv m c p cols rws s current m' r :
  inv m -> panes m !! p = Some s -> lease_ok (mkLease cols rws (now m + ttl m)) ->
  size_of (host m) p = Some current ->
  acquire_apply m c p cols rws s current = (m', r) -> inv m'.
Proof.
  intros Hinv Hp Hlease Hcur. unfold acquire_apply.
  set (s1 := with_leases s _).
  pose proof (inv_pane m p s Hinv Hp) as Hs.
  assert (Hs1 : pane_inv (host m) p s1)
    by (apply pane_inv_with_leases; [apply leases_ok_insert; [done|apply Hs]|done]).
  destruct (targets s1) as [[tc tr] st] eqn:Ht.
  destruct (bool_decide (tc ≠ columns current) || bool_decide (0 < st) && bool_decide (tr ≠ rows current)) eqn:Hneed.
  - destruct (set_size _ _ _ _) as [h' [[]|e]] eqn:Hset; intros [= <- <-].
    + destruct (resize_ok _ _ _ _ _ _ _ Hs1 Ht Hset) as [Hnew Hother].
      apply (inv_update m p); [done| |].
      * intros q Hq. simpl. rewrite lookup_insert_ne by done. auto.
      * simpl. rewrite lookup_insert_eq. destruct Hs1. by split.
    + pose proof (set_size_err _ _ _ _ _ _ Hset) as Hsame.
      apply (inv_update m p); [done| |].
      * intros q Hq. simpl. by rewrite lookup_insert_ne.
      * simpl. rewrite lookup_insert_eq. apply (pane_inv_host (host m)); [done|].
        apply pane_inv_with_leases; [|done].
        destruct (leases s !! c) as [old|] eqn:Hold.
        -- apply leases_ok_insert; [|apply Hs1]. by eapply (pi_leases _ _ _ Hs).
        -- apply leases_ok_delete, Hs1.
  - intros [= <- <-]. rewrite (pi_applied _ _ _ Hs1) in Hcur. injection Hcur as <-.
    apply orb_false_iff in Hneed as [Hc Hr]. apply bool_decide_eq_false in Hc. simpl in Hc, Hr.
    destruct (targets_stty s1 tc tr st) as [Hpos Hst]; [by eapply pane_inv_rows|done|].
    assert (tc = applied_columns s) as -> by lia.
    assert (tr = applied_rows s) as ->.
    { destruct Hst as [[_ ?]| ->]; [done|]. rewrite bool_decide_eq_true_2 in Hr by done.
      apply bool_decide_eq_false in Hr. lia. }
    apply (inv_update m p); [done| |].
    + intros q Hq. simpl. by rewrite lookup_insert_ne.
    + simpl. rewrite lookup_insert_eq. destruct Hs1. by split.
Qed.

Lemma acquire_inv m c p cols rws gone m' r :
  inv m -> acquire m c p cols rws gone = (m', r) -> inv m'.
Proof.
  intros Hinv. unfold acquire.
  case_decide; [by intros [= <- <-]|]. case_decide as Hcols; [by intros [= <- <-]|].
  case_decide as Hrows; [by intros [= <- <-]|].
  destruct (closed m); [by intros [= <- <-]|]. destruct gone; [by intros [= <- <-]|].
  assert (Hlease : forall e, lease_ok (mkLease cols rws e)).
  { intros e. unfold lease_ok. simpl. lia. }
  destruct (panes m !! p) as [s|] eqn:Hp.
  - simpl. set (l := filter _ (leases s)). set (s1 := with_leases s l).
    destruct (pane_size (host m) p) as [h' r0] eqn:Hread.
    apply pane_size_frame in Hread as [Hsame Hval].
    pose proof (inv_pane m p s Hinv Hp) as Hs.
    assert (Hl : leases_ok l) by apply leases_ok_filter, Hs.
    assert (Hinv1 : inv (set_host (set_panes m (<[p:=s1]> (panes m))) h')).
    { apply (inv_same_host (set_panes m (<[p:=s1]> (panes m)))); [|done]. by apply inv_set_leases. }
    destruct r0 as [current|e]; [|by intros [= <- <-]].
    specialize (Hval current eq_refl).
    pose proof Hval as Happ. rewrite (pi_applied _ _ _ Hs) in Happ. injection Happ as Hcurrent.
    rewrite <- Hcurrent. simpl. rewrite !decide_False by tauto. rewrite Hcurrent.
    change (mkPane (baseline_columns s) (baseline_rows s) (applied_columns s) (applied_rows s) (resized_at s) l) with s1.
    rewrite insert_insert_eq. intros Hap. eapply acquire_apply_inv in Hap; [done|exact Hinv1| | |].
    + simpl. apply lookup_insert_eq.
    + apply Hlease.
    + simpl. by rewrite Hsame.
  - destruct (pane_size (host m) p) as [h' r0] eqn:Hread.
    apply pane_size_frame in Hread as [Hsame Hval].
    destruct r0 as [sz|e]; [|intros [= <- <-]; by apply (inv_same_host m)].
    specialize (Hval sz eq_refl). set (s := mkPane _ _ _ _ _ _).
    pose proof (Hinv p) as Hnone. rewrite Hp in Hnone. simpl in Hnone.
    intros Hap. eapply acquire_apply_inv in Hap; [done| |simpl; apply lookup_insert_eq|apply Hlease|].
    + apply (inv_update m p); [done| |].
      * intros q Hq. simpl. by rewrite lookup_insert_ne.
      * simpl. rewrite lookup_insert_eq. split; simpl.
        -- apply map_Forall_empty.
        -- rewrite Hsame, Hval. by destruct sz.
        -- rewrite <- Hnone, Hval. by destruct sz.
    + simpl. by rewrite Hsame.
Qed.

Lemma release_inv m c p m' r : inv m -> release m c p = Some (m', r) -> inv m'.
Proof.
  intros Hinv. unfold release. case_decide; [by intros [= <- <-]|].
  destruct (closed m); [by intros [= <- <-]|].
  destruct (panes m !! p) as [s|] eqn:Hp; [|by intros [= <- <-]].
  destruct (leases s !! c) as [x|] eqn:Hx; [|by intros [= <- <-]].
  pose proof (pi_leases _ _ _ (inv_pane m p s Hinv Hp)) as Hl.
  assert (Hlx : lease_ok x) by (by eapply Hl).
  case_decide.
  - case_decide; [intros [= <- <-]|apply reconcile_inv].
    + apply inv_set_leases; [done..|]. by apply leases_ok_insert.
    + apply (inv_set_leases m p s); [done..|]. simpl. apply leases_ok_delete. by apply leases_ok_insert.
  - case_decide; [intros [= <- <-]|apply reconcile_inv].
    + by rewrite insert_id by done; destruct m.
    + apply (inv_set_leases m p s); [done..|]. by apply leases_ok_delete.
Qed.

(** ** Loops over the panes *)

Lemma for_panes_inv body ids acc m' r :
  (forall m0 r0 p m1 r1, inv m0 -> body (m0, r0) p = Some (m1, r1) -> inv m1) ->
  inv acc.1 -> for_panes body ids acc = Some (m', r) -> inv m'.
Proof.
  intros Hbody. revert acc. induction ids as [|p ids IH]; intros [m0 r0] Hinv; simpl; [by intros [= <- <-]|].
  destruct (body (m0, r0) p) as [[m1 r1]|] eqn:Hb; [|done]. cbn [mbind option_bind].
  apply IH. simpl in *. by eapply Hbody.
Qed.

(** Run the [reconcile] a step ends with. *)
Ltac reconciled m2 r2 E :=
  match goal with |- context [reconcile ?m ?p] => destruct (reconcile m p) as [[m2 r2]|] eqn:E end;
  cbn [mbind option_bind]; [|done].

Lemma release_client_pane_inv c m0 r0 p m1 r1 :
  inv m0 -> release_client_pane c (m0, r0) p = Some (m1, r1) -> inv m1.
Proof.
  intros Hinv. unfold release_client_pane.
  destruct (panes m0 !! p) as [s|] eqn:Hp.
  - assert (Hinv' : inv (set_panes m0 (<[p := with_leases s (delete c (leases s))]> (panes m0)))).
    { apply inv_set_leases; [done..|]. apply leases_ok_delete. by eapply pi_leases, inv_pane. }
    case_match; [by intros [= <- <-]|].
    reconciled m2 r2 E.
    intros [= <- _]. by eapply reconcile_inv.
  - simpl. reconciled m2 r2 E.
    intros [= <- _]. by eapply reconcile_inv.
Qed.

Lemma sweep_pane_inv t m0 r0 p m1 r1 :
  inv m0 -> sweep_pane t (m0, r0) p = Some (m1, r1) -> inv m1.
Proof.
  intros Hinv. unfold sweep_pane.
  destruct (panes m0 !! p) as [s|] eqn:Hp; [|by intros [= <- <-]].
  cbn [remove_expired fst snd]. set (l := filter _ (leases s)).
  assert (Hinv' : inv (set_panes m0 (<[p := with_leases s l]> (panes m0)))).
  { apply inv_set_leases; [done..|]. apply leases_ok_filter. by eapply pi_leases, inv_pane. }
  unfold remove_expired. fold l. destruct (minimum_columns _) as [target active].
  case_match; [by intros [= <- <-]|].
  reconciled m2 r2 E.
  intros [= <- _]. by eapply reconcile_inv.
Qed.

Lemma shutdown_pane_inv m0 r0 p m1 r1 :
  inv m0 -> shutdown_pane (m0, r0) p = Some (m1, r1) -> inv m1.
Proof.
  intros Hinv. unfold shutdown_pane.
  destruct (restore _ p) as [[m2 r2]|] eqn:E; cbn [mbind option_bind]; [|done].
  intros [= <- _]. eapply restore_inv; [|exact E].
  destruct (panes m0 !! p) as [s|] eqn:Hp; [|done].
  apply inv_set_leases; [done..|]. apply map_Forall_empty.
Qed.

Lemma release_client_inv m c m' r : inv m -> release_client m c = Some (m', r) -> inv m'.
Proof.
  intros Hinv. unfold release_client. case_decide; [by intros [= <- <-]|].
  destruct (closed m); [by intros [= <- <-]|].
  apply for_panes_inv; [apply release_client_pane_inv|done].
Qed.

Lemma sweep_expired_inv m m' r : inv m -> sweep_expired m = Some (m', r) -> inv m'.
Proof.
  intros Hinv. unfold sweep_expired. destruct (closed m); [by intros [= <- <-]|].
  apply for_panes_inv; [apply sweep_pane_inv|done].
Qed.

Lemma shutdown_inv m m' r : inv m -> shutdown m = Some (m', r) -> inv m'.
Proof. intros Hinv. unfold shutdown. apply for_panes_inv; [apply shutdown_pane_inv|exact Hinv]. Qed.

(** ** What one pane's step does to the pane table *)

(** A loop body that touches only its own pane, keeps the clock, and never
    turns an error back into success. *)
Definition local_step (body : LeaseManager H * result LeaseError unit -> string ->
                              option (LeaseManager H * result LeaseError unit)) : Prop :=
  forall m r p m' r', body (m, r) p = Some (m', r') ->
    (forall q, q <> p -> panes m' !! q = panes m !! q) /\ now m' = now m /\ closed m' = closed m /\
    (r' = Ok tt -> r = Ok tt).

Definition total_step (body : LeaseManager H * result LeaseError unit -> string ->
                              option (LeaseManager H * result LeaseError unit)) : Prop :=
  forall m r p, is_Some (panes m !! p) -> is_Some (body (m, r) p).

Lemma for_panes_total body ids m r :
  local_step body -> total_step body -> NoDup ids -> (forall p, p ∈ ids -> is_Some (panes m !! p)) ->
  is_Some (for_panes body ids (m, r)).
Proof.
  intros Hlocal Htotal. revert m r. induction ids as [|p ids IH]; intros m r Hnd Hin; simpl; [by eexists|].
  apply NoDup_cons in Hnd as [Hp Hnd].
  destruct (Htotal m r p) as [[m1 r1] Hb]; [apply Hin; left|]. rewrite Hb. cbn [mbind option_bind].
  apply IH; [done|]. intros q Hq. destruct (Hlocal _ _ _ _ _ Hb) as [Hother _].
  rewrite Hother; [apply Hin; by right|]. by intros ->.
Qed.

Lemma for_panes_frame body ids m r m' r' :
  local_step body -> for_panes body ids (m, r) = Some (m', r') -> now m' = now m /\ closed m' = closed m.
Proof.
  intros Hlocal. revert m r. induction ids as [|p ids IH]; intros m r; simpl; [by intros [= <- <-]|].
  destruct (body (m, r) p) as [[m1 r1]|] eqn:Hb; [|done]. cbn [mbind option_bind].
  apply Hlocal in Hb as (_ & <- & <- & _). apply IH.
Qed.

(** A per-pane postcondition holds of every pane after the loop. *)
Lemma for_panes_post body (Q : Z -> result LeaseError unit -> string -> PaneState -> option PaneState -> Prop) ids m r m' r' :
  local_step body ->
  (forall m0 r0 p m1 r1, inv m0 -> body (m0, r0) p = Some (m1, r1) -> inv m1) ->
  (forall m0 r0 p s m1 r1, inv m0 -> panes m0 !! p = Some s -> body (m0, r0) p = Some (m1, r1) ->
     Q (now m0) r1 p s (panes m1 !! p)) ->
  inv m -> NoDup ids -> for_panes body ids (m, r) = Some (m', r') ->
  (r' = Ok tt -> r = Ok tt) /\
  (forall q, q ∉ ids -> panes m' !! q = panes m !! q) /\
  (forall q s, q ∈ ids -> panes m !! q = Some s ->
     exists rq, (r' = Ok tt -> rq = Ok tt) /\ Q (now m) rq q s (panes m' !! q)).
Proof.
  intros Hlocal Hinv HQ. revert m r. induction ids as [|p ids IH]; intros m r Hm Hnd; simpl.
  { intros [= <- <-]. split_and!; [done..|]. intros q s Hq. by apply not_elem_of_nil in Hq. }
  apply NoDup_cons in Hnd as [Hp Hnd].
  destruct (body (m, r) p) as [[m1 r1]|] eqn:Hb; [|done]. cbn [mbind option_bind]. intros Hrest.
  destruct (Hlocal _ _ _ _ _ Hb) as (Hother & Hnow & _ & Hr).
  destruct (IH m1 r1) as (Hres & Hout & Hin); [by eapply Hinv|done|done|].
  split_and!; [auto| |].
  - intros q [Hqp Hq]%not_elem_of_cons. rewrite Hout by done. auto.
  - intros q s Hq Hs. destruct (decide (q = p)) as [->|Hne].
    + exists r1. split; [done|]. rewrite Hout by done. by eapply HQ.
    + apply elem_of_cons in Hq as [?|Hq]; [done|]. rewrite <- Hnow. apply Hin; [done|]. by rewrite Hother.
Qed.

Lemma restore_local m p m' r : restore m p = Some (m', r) ->
  (forall q, q <> p -> panes m' !! q = panes m !! q) /\ now m' = now m /\ closed m' = closed m /\
  (r = Ok tt -> panes m' !! p = None).
Proof.
  unfold restore. destruct (panes m !! p) as [s|]; [|done]. cbn [mbind option_bind].
  destruct (set_size _ _ _ _) as [h' [[]|e]]; intros [= <- <-]; simpl; split_and!; try done.
  - intros q Hq. by rewrite lookup_delete_ne.
  - by rewrite lookup_delete_eq.
Qed.

Lemma reconcile_local m p m' r : reconcile m p = Some (m', r) ->
  (forall q, q <> p -> panes m' !! q = panes m !! q) /\ now m' = now m /\ closed m' = closed m.
Proof.
  unfold reconcile. destruct (panes m !! p) as [s|] eqn:Hp; [|done]. cbn [mbind option_bind].
  destruct (minimum_columns (leases s)).2; cbn [negb]; [|by intros (? & ? & ? & _)%restore_local].
  destruct (targets s) as [[tc tr] st]. case_decide; [by intros [= <- <-]|].
  destruct (set_size _ _ _ _) as [h' [[]|e]]; intros [= <- <-]; simpl; split_and!; try done.
  intros q Hq. by rewrite lookup_insert_ne.
Qed.

Lemma restore_total m p : is_Some (panes m !! p) -> is_Some (restore m p).
Proof. intros [s Hs]. unfold restore. rewrite Hs. cbn [mbind option_bind]. by case_match; case_match. Qed.

Lemma reconcile_total m p : is_Some (panes m !! p) -> is_Some (reconcile m p).
Proof.
  intros Hp. pose proof Hp as [s Hs]. unfold reconcile. rewrite Hs. cbn [mbind option_bind].
  destruct (minimum_columns (leases s)).2; cbn [negb]; [|by apply restore_total].
  destruct (targets s) as [[tc tr] st]. case_decide; [by eexists|]. by case_match; case_match.
Qed.

(** The effective size of a non-empty lease set is applied, or no lease is left
    and the pane is forgotten. *)
Definition settled (o : option PaneState) (l : gmap string LeaseT) : Prop :=
  match o with
  | None => l = ∅
  | Some s => l <> ∅ /\ leases s = l /\ (targets s).1 = (applied_columns s, applied_rows s)
  end.

Lemma targets_with_applied s c r t :
  (targets (with_applied (with_resized_at s t) c r)).1 = (targets s).1.
Proof. done. Qed.

Lemma leases_ok_active l : leases_ok l -> (minimum_columns l).2 = true <-> l <> ∅.
Proof.
  intros Hl. split; [by intros Ha ->|]. intros Hne. by apply minimum_columns_spec.
Qed.

Lemma reconcile_settles m p s m' :
  inv m -> panes m !! p = Some s -> reconcile m p = Some (m', Ok tt) -> settled (panes m' !! p) (leases s).
Proof.
  clear orig_pos. intros Hinv Hp Hrec. pose proof (leases_ok_active _ (pi_leases _ _ _ (inv_pane m p s Hinv Hp))) as Hact.
  revert Hrec. unfold reconcile. rewrite Hp. cbn [mbind option_bind].
  destruct (minimum_columns (leases s)).2; cbn [negb].
  - destruct (targets s) as [[tc tr] st] eqn:Ht. case_decide as Heq.
    + intros [= <-]. rewrite Hp. unfold settled. rewrite Ht. destruct Heq as [-> ->]. naive_solver.
    + destruct (set_size _ _ _ _) as [h' [[]|e]]; intros [= <-]. cbn [panes set_panes]. rewrite lookup_insert_eq. unfold settled.
      rewrite targets_with_applied, Ht. naive_solver.
  - intros (_ & _ & _ & Hnone)%restore_local. rewrite Hnone by done. simpl.
    destruct (decide (leases s = ∅)); naive_solver.
Qed.

Lemma sweep_pane_local t : local_step (sweep_pane t).
Proof.
  intros m r p m' r'. unfold sweep_pane. destruct (panes m !! p) as [s|] eqn:Hp; [|by intros [= <- <-]].
  unfold remove_expired. destruct (minimum_columns _) as [target active].
  case_match; [intros [= <- <-]; split_and!; try done; intros q Hq; by apply lookup_insert_ne|].
  reconciled m2 r2 E.
  apply reconcile_local in E as (Hother & Hn & Hc). intros [= <- <-]. split_and!; [|done..|by destruct r2].
  intros q Hq. rewrite Hother by done. simpl. by apply lookup_insert_ne.
Qed.

Lemma sweep_pane_total t : total_step (sweep_pane t).
Proof.
  intros m r p [s Hs]. unfold sweep_pane. rewrite Hs. unfold remove_expired.
  destruct (minimum_columns _) as [target active]. case_match; [by eexists|].
  destruct (reconcile_total (set_panes m (<[p := with_leases s (filter (fun q : string * LeaseT => t < expires_at q.2) (leases s))]> (panes m))) p)
    as [[m2 r2] ->]; [simpl; rewrite lookup_insert_eq; by eexists|]. by eexists.
Qed.

Definition live (t : Z) (l : gmap string LeaseT) : gmap string LeaseT :=
  filter (fun p : string * LeaseT => t < expires_at p.2) l.

Lemma sweep_pane_post t m r p s m' r' :
  inv m -> panes m !! p = Some s -> sweep_pane t (m, r) p = Some (m', r') ->
  r' = Ok tt -> settled (panes m' !! p) (live t (leases s)).
Proof.
  intros Hinv Hp. unfold sweep_pane. rewrite Hp. unfold remove_expired. fold (live t (leases s)).
  set (l := live t (leases s)). set (s' := with_leases s l).
  assert (Hl : leases_ok l) by (apply leases_ok_filter; by eapply pi_leases, inv_pane).
  pose proof (leases_ok_active l Hl) as Hact.
  destruct (minimum_columns (leases s')) as [target active] eqn:Hmin.
  change (leases s') with l in *.
  destruct (negb _ && active && _) eqn:Hskip.
  - intros [= <- <-] _. cbn [panes set_panes]. rewrite lookup_insert_eq.
    apply andb_true_iff in Hskip as [[_ ->]%andb_true_iff [Hc Hr]%andb_true_iff].
    apply bool_decide_eq_true in Hc, Hr. unfold settled. split_and!; [by apply Hact; rewrite Hmin|done|].
    unfold targets. cbn [fst]. change (leases s') with l. rewrite Hmin, Hc, Hr. cbn [fst]. f_equal.
    destruct (minimum_rows_spec l) as [[-> _]|[Hpos _]]; [done|].
    rewrite bool_decide_eq_true_2 by done. rewrite decide_False by lia. done.
  - reconciled m2 r2 E.
    intros [= <- <-]. destruct r2 as [[]|e]; [|done]. intros _.
    eapply (reconcile_settles _ p s') in E; [done|by apply inv_set_leases|by apply lookup_insert_eq].
Qed.

Lemma release_client_pane_post c m r p s m' r' :
  inv m -> panes m !! p = Some s -> release_client_pane c (m, r) p = Some (m', r') ->
  (forall s', panes m' !! p = Some s' -> leases s' !! c = None).
Proof.
  intros Hinv Hp. unfold release_client_pane. rewrite Hp. set (s1 := with_leases s _).
  assert (Hs1 : leases s1 !! c = None) by apply lookup_delete_eq.
  destruct (negb _ && _); [intros [= <- <-] s'; simpl; rewrite lookup_insert_eq; by intros [= <-]|].
  reconciled m2 r2 E.
  intros [= <- _] s'. revert E. unfold reconcile. cbn [panes set_panes]. rewrite lookup_insert_eq. cbn [mbind option_bind].
  destruct (minimum_columns (leases s1)).2; cbn [negb].
  - destruct (targets s1) as [[tc tr] st]. case_decide; [intros [= <- <-]; simpl; rewrite lookup_insert_eq; by intros [= <-]|].
    destruct (set_size _ _ _ _) as [h' [[]|e]]; intros [= <- <-]; simpl; rewrite lookup_insert_eq; by intros [= <-].
  - unfold restore. simpl. rewrite lookup_insert_eq. cbn [mbind option_bind].
    destruct (set_size _ _ _ _) as [h' [[]|e]]; intros [= <- <-]; simpl.
    + by rewrite lookup_delete_eq.
    + rewrite lookup_insert_eq. by intros [= <-].
Qed.

Lemma release_client_pane_local c : local_step (release_client_pane c).
Proof.
  intros m r p m' r'. unfold release_client_pane.
  set (m1 := match panes m !! p with Some s => set_panes m (<[p := with_leases s (delete c (leases s))]> (panes m)) | None => m end).
  assert (Hm1 : (forall q, q <> p -> panes m1 !! q = panes m !! q) /\ now m1 = now m /\ closed m1 = closed m).
  { unfold m1. destruct (panes m !! p); split_and!; try done. intros q Hq. by apply lookup_insert_ne. }
  assert (Hrec : forall m2 r2, reconcile m1 p = Some (m2, r2) ->
    (forall q, q <> p -> panes m2 !! q = panes m !! q) /\ now m2 = now m /\ closed m2 = closed m).
  { intros m2 r2 (Ho & -> & ->)%reconcile_local. destruct Hm1 as (Ho1 & -> & ->). split_and!; try done.
    intros q Hq. by rewrite Ho, Ho1. }
  destruct (panes m !! p) as [s|].
  - destruct (negb _ && _); [intros [= <- <-]; destruct Hm1 as (? & ? & ?); by split_and!|].
    fold m1. destruct (reconcile m1 p) as [[m2 r2]|]; cbn [mbind option_bind]; [|done].
    intros [= <- <-]. destruct (Hrec m2 r2 eq_refl) as (? & ? & ?). split_and!; try done. by destruct r2.
  - cbn [negb andb]. fold m1. destruct (reconcile m1 p) as [[m2 r2]|]; cbn [mbind option_bind]; [|done].
    intros [= <- <-]. destruct (Hrec m2 r2 eq_refl) as (? & ? & ?). split_and!; try done. by destruct r2.
Qed.

Lemma release_client_pane_total c : total_step (release_client_pane c).
Proof.
  intros m r p [s Hs]. unfold release_client_pane. rewrite Hs. case_match; [by eexists|].
  edestruct (reconcile_total (set_panes m (<[p := with_leases s (delete c (leases s))]> (panes m))) p)
    as [[m2 r2] ->]; [simpl; rewrite lookup_insert_eq; by eexists|]. by eexists.
Qed.

Lemma shutdown_pane_local : local_step (shutdown_pane).
Proof.
  intros m r p m' r'. unfold shutdown_pane.
  set (m1 := match panes m !! p with Some s => _ | None => m end).
  assert (Hm1 : (forall q, q <> p -> panes m1 !! q = panes m !! q) /\ now m1 = now m /\ closed m1 = closed m).
  { unfold m1. destruct (panes m !! p); split_and!; try done. intros q Hq. by apply lookup_insert_ne. }
  destruct (restore m1 p) as [[m2 r2]|] eqn:E; cbn [mbind option_bind]; [|done].
  apply restore_local in E as (Ho & Hn & Hc & _). destruct Hm1 as (Ho1 & Hn1 & Hc1).
  intros [= <- <-]. split_and!; [|congruence..|by destruct r2].
  intros q Hq. by rewrite Ho, Ho1.
Qed.

Lemma shutdown_pane_total : total_step (shutdown_pane).
Proof.
  intros m r p [s Hs]. unfold shutdown_pane. rewrite Hs.
  destruct (restore_total (set_panes m (<[p := with_leases s ∅]> (panes m))) p)
    as [[m2 r2] ->]; [simpl; rewrite lookup_insert_eq; by eexists|]. by eexists.
Qed.

Lemma shutdown_pane_post m r p s m' r' :
  inv m -> panes m !! p = Some s -> shutdown_pane (m, r) p = Some (m', r') ->
  r' = Ok tt -> panes m' !! p = None.
Proof.
  intros _ Hp. unfold shutdown_pane. rewrite Hp.
  destruct (restore _ p) as [[m2 r2]|] eqn:E; cbn [mbind option_bind]; [|done].
  apply restore_local in E as (_ & _ & _ & Hnone). intros [= <- <-]. destruct r2 as [[]|]; [|done]. auto.
Qed.

(** What a granted size means for a lease set: no holder is asked to be wider or
    taller than it said, and some holder's width is met exactly. *)
Definition fits_all (l : gmap string LeaseT) (c r : Z) : Prop :=
  (forall k x, l !! k = Some x -> c <= lease_columns x /\ (0 < lease_rows x -> r <= lease_rows x)) /\
  (exists k x, l !! k = Some x /\ lease_columns x = c).

Lemma targets_fit s tc tr st :
  leases_ok (leases s) -> leases s <> ∅ -> targets s = (tc, tr, st) -> fits_all (leases s) tc tr.
Proof.
  intros Hl Hne [= <- <- _]. destruct (minimum_columns_spec (leases s)) as (_ & Hex & Hmin); [done..|].
  split; [|destruct Hex as (k & x & ? & ?); eauto]. intros k x Hx. split; [by eapply Hmin|]. intros Hpos.
  destruct (minimum_rows_spec (leases s)) as [[_ Hnone]|(Hp & _ & Hle)].
  - specialize (Hnone k x Hx). lia.
  - rewrite bool_decide_eq_true_2 by done. by eapply Hle.
Qed.

Lemma acquire_apply_fits m c p cols rws s current m' tc tr :
  inv m -> panes m !! p = Some s -> lease_ok (mkLease cols rws (now m + ttl m)) ->
  acquire_apply m c p cols rws s current = (m', Ok (tc, tr)) ->
  now m' = now m /\ closed m' = closed m /\
  exists s', panes m' !! p = Some s' /\ (applied_columns s', applied_rows s') = (tc, tr) /\
    leases s' = <[c := mkLease cols rws (now m + ttl m)]> (leases s) /\ fits_all (leases s') tc tr.
Proof.
  intros Hinv Hp Hlease. unfold acquire_apply. set (s1 := with_leases s _).
  assert (Hl1 : leases_ok (leases s1))
    by (apply leases_ok_insert; [done|by eapply pi_leases, inv_pane]).
  assert (Hne : leases s1 <> ∅) by apply insert_non_empty.
  destruct (targets s1) as [[tc' tr'] st] eqn:Ht. pose proof (targets_fit _ _ _ _ Hl1 Hne Ht) as Hfit.
  destruct (bool_decide _ || _).
  - destruct (set_size _ _ _ _) as [h' [[]|e]]; intros [= <- <- <-]. split_and!; [done..|].
    eexists. split; [apply lookup_insert_eq|]. split_and!; done.
  - intros [= <- <- <-]. split_and!; [done..|]. eexists. split; [apply lookup_insert_eq|]. split_and!; done.
Qed.

(** The lease set an [acquire] starts from: what is still live. *)
Definition live_leases m (p : string) : gmap string LeaseT :=
  match panes m !! p with Some s => live (now m) (leases s) | None => ∅ end.

Lemma acquire_fits m c p cols rws gone m' tc tr :
  inv m -> acquire m c p cols rws gone = (m', Ok (tc, tr)) ->
  now m' = now m /\ closed m' = false /\
  exists s', panes m' !! p = Some s' /\ (applied_columns s', applied_rows s') = (tc, tr) /\
    leases s' = <[c := mkLease cols rws (now m + ttl m)]> (live_leases m p) /\ fits_all (leases s') tc tr.
Proof.
  intros Hinv. unfold acquire, live_leases.
  case_decide; [done|]. case_decide as Hcols; [done|]. case_decide as Hrows; [done|].
  destruct (closed m) eqn:Hcl; [done|]. destruct gone; [done|].
  assert (Hlease : forall e, lease_ok (mkLease cols rws e)) by (intros e; unfold lease_ok; simpl; lia).
  destruct (panes m !! p) as [s|] eqn:Hp.
  - unfold remove_expired. fold (live (now m) (leases s)). set (s1 := with_leases s _).
    destruct (pane_size (host m) p) as [h' [current|e]] eqn:Hread; [|done].
    apply pane_size_frame in Hread as [Hsame Hval]. specialize (Hval current eq_refl).
    pose proof (inv_pane m p s Hinv Hp) as Hs. rewrite (pi_applied _ _ _ Hs) in Hval. injection Hval as <-.
    cbn [columns rows applied_columns applied_rows s1 with_leases]. rewrite !decide_False by tauto.
    intros Hap. eapply acquire_apply_fits in Hap; [| |apply lookup_insert_eq|apply Hlease].
    + cbn [closed set_panes set_host] in Hap. by rewrite Hcl in Hap.
    + cbn [panes set_panes set_host]. rewrite insert_insert_eq.
      apply (inv_same_host (set_panes m (<[p:=s1]> (panes m)))); [|done].
      apply inv_set_leases; [done..|]. apply leases_ok_filter, Hs.
  - destruct (pane_size (host m) p) as [h' [sz|e]] eqn:Hread; [|done].
    apply pane_size_frame in Hread as [Hsame Hval]. specialize (Hval sz eq_refl).
    pose proof (Hinv p) as Hnone. rewrite Hp in Hnone. simpl in Hnone.
    intros Hap. eapply acquire_apply_fits in Hap; [| |apply lookup_insert_eq|apply Hlease].
    + cbn [closed set_panes set_host] in Hap. by rewrite Hcl in Hap.
    + apply (inv_update m p); [done| |].
      * intros q Hq. simpl. by rewrite lookup_insert_ne.
      * simpl. rewrite lookup_insert_eq. split; simpl; [apply map_Forall_empty|..].
        -- rewrite Hsame, Hval. by destruct sz.
        -- rewrite <- Hnone, Hval. by destruct sz.
Qed.

End Invariant.

(** ** Reachable managers *)

Section Reachable.
Context {H : Type} `{PaneHostLaws H}.

(** Every public operation, whatever its outcome. *)
Inductive step : LeaseManager H -> LeaseManager H -> Prop :=
| step_acquire m c p cols rws gone m' r : acquire m c p cols rws gone = (m', r) -> step m m'
| step_release m c p m' r : release m c p = Some (m', r) -> step m m'
| step_release_client m c m' r : release_client m c = Some (m', r) -> step m m'
| step_sweep m m' r : sweep_expired m = Some (m', r) -> step m m'
| step_shutdown m m' r : shutdown m = Some (m', r) -> step m m'
| step_advance m d : step m (advance m d).

Definition reachable (h0 : H) (t g : Z) : LeaseManager H -> Prop := rtc step (with_timeouts h0 t g).

(** The terminals a relay starts from have a size. *)
Definition sized (h0 : H) : Prop :=
  forall p sz, size_of h0 p = Some sz -> 0 < columns sz /\ 0 < rows sz.

Lemma step_inv orig m m' :
  (forall p sz, orig p = Some sz -> 0 < columns sz /\ 0 < rows sz) -> step m m' -> inv orig m -> inv orig m'.
Proof.
  intros Ho [] Hinv.
  - by eapply acquire_inv.
  - by eapply release_inv.
  - by eapply release_client_inv.
  - by eapply sweep_expired_inv.
  - by eapply shutdown_inv.
  - exact Hinv.
Qed.

Lemma reachable_inv h0 t g m : sized h0 -> reachable h0 t g m -> inv (size_of h0) m.
Proof.
  intros Hs Hr. assert (Hinit : inv (size_of h0) (with_timeouts h0 t g)) by (intros p; by simpl).
  revert Hinit. induction Hr as [|m1 m2 m3 Hst _ IH]; [done|]. intros Hinit. apply IH. by eapply step_inv.
Qed.

(** C9 — whatever sequence of acquires, releases, sweeps, disconnects and clock
    advances runs, the terminal of every leased pane has exactly the size the
    manager believes it applied, its stored restore point is the size the pane
    had before the relay touched it, its leases are all within the column and
    row limits, and a pane without state has its original size. *)
Theorem lease_manager_tracks_host (h0 : H) (t g : Z) (m : LeaseManager H) (p : string) :
  sized h0 -> reachable h0 t g m ->
  match panes m !! p with
  | Some s => size_of (host m) p = Some (mkSize (applied_columns s) (applied_rows s)) /\
              size_of h0 p = Some (mkSize (baseline_columns s) (baseline_rows s)) /\ leases_ok (leases s)
  | None => size_of (host m) p = size_of h0 p
  end.
Proof.
  intros Hs Hr. pose proof (reachable_inv h0 t g m Hs Hr p) as Hp. destruct (panes m !! p); [|done].
  by destruct Hp.
Qed.

(** C10 — no operation hits one of the [expect]s of the source: release, client
    disconnect, sweep and shutdown all return, whatever state the manager is in. *)
Theorem lease_operations_never_panic (m : LeaseManager H) (c p : string) :
  is_Some (release m c p) /\ is_Some (release_client m c) /\ is_Some (sweep_expired m) /\ is_Some (shutdown m).
Proof.
  split_and!.
  - unfold release. repeat case_match; try (by eexists); apply reconcile_total; simpl; rewrite lookup_insert_eq; by eexists.
  - unfold release_client. repeat case_match; try (by eexists).
    apply for_panes_total; [apply release_client_pane_local|apply release_client_pane_total|apply NoDup_btree_keys|].
    intros q. apply elem_of_btree_keys.
  - unfold sweep_expired. repeat case_match; try (by eexists).
    apply for_panes_total; [apply sweep_pane_local|apply sweep_pane_total|apply NoDup_btree_keys|].
    intros q. apply elem_of_btree_keys.
  - unfold shutdown.
    apply for_panes_total; [apply shutdown_pane_local|apply shutdown_pane_total|apply NoDup_btree_keys|].
    intros q. apply elem_of_btree_keys.
Qed.

(** A successful shutdown forgets every pane and leaves every terminal,
    leased or not, at the size it had before the relay started. *)
Theorem shutdown_restores_all (h0 : H) (t g : Z) (m m' : LeaseManager H) :
  sized h0 -> reachable h0 t g m -> shutdown m = Some (m', Ok tt) ->
  closed m' = true /\ forall p, panes m' !! p = None /\ size_of (host m') p = size_of h0 p.
Proof.
  intros Hs Hr Hsd. pose proof (reachable_inv h0 t g m Hs Hr) as Hinv.
  pose proof (shutdown_inv (size_of h0) Hs m m' _ Hinv Hsd) as Hinv'.
  unfold shutdown in Hsd. cbn [panes] in Hsd. set (m0 := mkManager _ _ _ _ _ true) in Hsd.
  assert (Hinv0 : inv (size_of h0) m0) by exact Hinv.
  assert (closed m' = true) as Hcl.
  { by apply (for_panes_frame _ _ _ _ _ _ shutdown_pane_local) in Hsd as [_ ->]. }
  split; [done|].
  destruct (for_panes_post (size_of h0) shutdown_pane (fun _ r _ _ o => r = Ok tt -> o = None) _ _ _ _ _
              shutdown_pane_local (shutdown_pane_inv _ Hs) (fun m r p s m' r' Hi => shutdown_pane_post (size_of h0) m r p s m' r' Hi) Hinv0
              (NoDup_btree_keys _) Hsd) as (_ & Hout & Hin).
  intros p. assert (panes m' !! p = None) as Hnone.
  { destruct (panes m !! p) as [s|] eqn:Hp.
    - destruct (Hin p s) as (rq & Hok & HQ); [apply elem_of_btree_keys; by eexists|done|]. auto.
    - rewrite Hout; [done|]. rewrite elem_of_btree_keys. intros [s' Hs']. cbn [panes] in Hs'. congruence. }
  split; [done|]. specialize (Hinv' p). by rewrite Hnone in Hinv'.
Qed.

(** A granted acquire really fits everybody: the terminal now has the
    returned size, the caller's lease is recorded beside all still-live leases
    of the pane, none of those holders is given more columns or rows than it
    asked for, and one holder's width is met exactly. *)
Theorem acquire_grants_minimum (h0 : H) (t g : Z) (m m' : LeaseManager H) (c p : string) (cols rws tc tr : Z) (gone : bool) :
  sized h0 -> reachable h0 t g m -> acquire m c p cols rws gone = (m', Ok (tc, tr)) ->
  size_of (host m') p = Some (mkSize tc tr) /\
  exists s', panes m' !! p = Some s' /\
    leases s' = <[c := mkLease cols rws (now m + ttl m)]> (live_leases m p) /\ fits_all (leases s') tc tr.
Proof.
  intros Hs Hr Hacq. pose proof (reachable_inv h0 t g m Hs Hr) as Hinv.
  destruct (acquire_fits (size_of h0) m c p cols rws gone m' tc tr Hinv Hacq)
    as (_ & _ & s' & Hp & [= <- <-] & Hl & Hfit).
  split; [|by exists s'].
  pose proof (acquire_inv (size_of h0) Hs _ _ _ _ _ _ _ _ Hinv Hacq p) as Hp'. rewrite Hp in Hp'. apply Hp'.
Qed.

(** After a successful sweep every pane is settled: a pane whose leases all
    lapsed is forgotten and back at its original size, and a pane with live
    leases keeps exactly those and has their effective size. *)
Theorem sweep_settles_every_pane (h0 : H) (t g : Z) (m m' : LeaseManager H) (p : string) (s : PaneState) :
  sized h0 -> reachable h0 t g m -> closed m = false -> panes m !! p = Some s ->
  sweep_expired m = Some (m', Ok tt) ->
  match panes m' !! p with
  | None => live (now m) (leases s) = ∅ /\ size_of (host m') p = size_of h0 p
  | Some s' => leases s' = live (now m) (leases s) /\ leases s' <> ∅ /\
               exists tc tr, (targets s').1 = (tc, tr) /\ size_of (host m') p = Some (mkSize tc tr)
  end.
Proof.
  intros Hs Hr Hcl Hp Hsw. pose proof (reachable_inv h0 t g m Hs Hr) as Hinv.
  pose proof (sweep_expired_inv (size_of h0) Hs m m' _ Hinv Hsw p) as Hp'.
  unfold sweep_expired in Hsw. rewrite Hcl in Hsw.
  destruct (for_panes_post (size_of h0) (sweep_pane (now m)) (fun _ r _ s o => r = Ok tt -> settled o (live (now m) (leases s)))
              _ _ _ _ _ (sweep_pane_local (now m)) (sweep_pane_inv _ Hs (now m))
              (fun m0 r p s m1 r1 Hi => sweep_pane_post (size_of h0) (now m) m0 r p s m1 r1 Hi) Hinv (NoDup_btree_keys _) Hsw)
    as (_ & _ & Hin).
  destruct (Hin p s) as (rq & Hok & HQ); [apply elem_of_btree_keys; by eexists|done|].
  specialize (HQ (Hok eq_refl)). destruct (panes m' !! p) as [s'|].
  - destruct HQ as (Hne & Hl & Ht). split_and!; [done|congruence|]. rewrite Ht. do 2 eexists. split; [done|]. apply Hp'.
  - by split.
Qed.

(** Once a client has disconnected, no pane anywhere still holds a lease of
    that client, even when restoring some terminal failed. *)
Theorem release_client_drops_all_leases (h0 : H) (t g : Z) (m m' : LeaseManager H) (c : string) (r : result LeaseError unit) :
  sized h0 -> reachable h0 t g m -> closed m = false -> (c <> "")%string ->
  release_client m c = Some (m', r) ->
  forall p s', panes m' !! p = Some s' -> leases s' !! c = None.
Proof.
  intros Hs Hr Hcl Hc Hrel p s' Hs'. pose proof (reachable_inv h0 t g m Hs Hr) as Hinv.
  unfold release_client in Hrel. rewrite decide_False, Hcl in Hrel by done.
  destruct (for_panes_post (size_of h0) (release_client_pane c)
              (fun _ _ _ _ o => forall s1, o = Some s1 -> leases s1 !! c = None)
              _ _ _ _ _ (release_client_pane_local c) (release_client_pane_inv _ Hs c)
              (fun m0 r p s m1 r1 Hi => release_client_pane_post (size_of h0) c m0 r p s m1 r1 Hi) Hinv (NoDup_btree_keys _) Hrel)
    as (_ & Hout & Hin).
  destruct (panes m !! p) as [s|] eqn:Hp.
  - destruct (Hin p s) as (rq & _ & HQ); [apply elem_of_btree_keys; by eexists|done|]. auto.
  - rewrite Hout in Hs'; [congruence|]. rewrite elem_of_btree_keys. intros [? ?]. congruence.
Qed.

End Reachable.

(** ** A concrete host: terminals held in memory *)

Abbreviation MemoryHost := (gmap string TerminalSize).

#[export] Instance memory_host : PaneHost MemoryHost := {
  pane_size h p := (h, ok_or (h !! p) TtyUnavailable);
  set_size h p c r :=
    match h !! p with
    | None => (h, Err TtyUnavailable)
    | Some old => (<[p := mkSize c (if decide (0 < r) then r else rows old)]> h, Ok tt)
    end;
}.

#[export] Program Instance memory_host_laws : PaneHostLaws MemoryHost := {
  size_of h p := h !! p;
}.
Next Obligation.
  intros h p h' r [= <- <-]. split; [done|]. intros sz. apply ok_or_Ok.
Qed.
Next Obligation.
  intros h p c r h'. simpl. destruct (h !! p) as [old|] eqn:E; [|done]. intros [= <-]. split.
  - exists old. split; [done|]. apply lookup_insert_eq.
  - intros q Hq. by apply lookup_insert_ne.
Qed.
Next Obligation.
  intros h p c r h' e. simpl. destruct (h !! p); [done|]. by intros [= <- _].
Qed.

Definition demo_host : MemoryHost := <["w1:p1" := mkSize 200 50]> (<["w1:p2" := mkSize 120 40]> ∅).
Definition demo_phone : LeaseManager MemoryHost :=
  (acquire (with_timeouts demo_host LEASE_TTL RELEASE_GRACE) "phone" "w1:p1" 80 24 false).1.
Definition demo_two : LeaseManager MemoryHost := (acquire demo_phone "tablet" "w1:p1" 100 0 false).1.

Lemma demo_sized : sized demo_host.
Proof.
  intros p sz. simpl. unfold demo_host. rewrite !lookup_insert_Some, lookup_empty.
  intros [[_ <-]|[_ [[_ <-]|[_ ?]]]]; simpl; [lia|lia|done].
Defined.

Lemma demo_reachable : reachable demo_host LEASE_TTL RELEASE_GRACE demo_two.
Proof.
  eapply rtc_l; [eapply (step_acquire _ "phone" "w1:p1" 80 24 false); apply surjective_pairing|].
  eapply rtc_l; [eapply (step_acquire _ "tablet" "w1:p1" 100 0 false); apply surjective_pairing|].
  apply rtc_refl.
Defined.

Definition pane_of (m : LeaseManager MemoryHost) (p : string) : PaneState :=
  from_option id (mkPane 0 0 0 0 None ∅) (panes m !! p).

Lemma lease_manager_tracks_host_witness :
  size_of (host demo_two) "w1:p1" = Some (mkSize 80 24) /\ size_of demo_host "w1:p1" = Some (mkSize 200 50).
Proof.
  pose proof (lease_manager_tracks_host demo_host LEASE_TTL RELEASE_GRACE demo_two "w1:p1" demo_sized demo_reachable) as Hw.
  assert (Hp : panes demo_two !! "w1:p1" = Some (pane_of demo_two "w1:p1")) by (vm_compute; reflexivity).
  rewrite Hp in Hw. destruct Hw as [H1 [H2 _]].
  split; [rewrite H1|rewrite H2]; vm_compute; reflexivity.
Defined.

Definition demo_shut : LeaseManager MemoryHost := from_option fst demo_two (shutdown demo_two).

Lemma shutdown_restores_all_witness :
  panes demo_shut !! "w1:p1" = None /\ size_of (host demo_shut) "w1:p1" = Some (mkSize 200 50).
Proof.
  apply (shutdown_restores_all demo_host LEASE_TTL RELEASE_GRACE demo_two demo_shut demo_sized demo_reachable).
  vm_compute. reflexivity.
Defined.

Definition demo_third : LeaseManager MemoryHost := (acquire demo_two "watch" "w1:p1" 60 30 false).1.

Lemma acquire_grants_minimum_witness : size_of (host demo_third) "w1:p1" = Some (mkSize 60 24).
Proof.
  apply (acquire_grants_minimum demo_host LEASE_TTL RELEASE_GRACE demo_two demo_third "watch" "w1:p1" 60 30 60 24 false
           demo_sized demo_reachable).
  vm_compute. reflexivity.
Defined.

(** Both leases lapse with the clock. *)
Definition demo_late : LeaseManager MemoryHost := advance demo_two (seconds 121).
Definition demo_swept : LeaseManager MemoryHost := from_option fst demo_late (sweep_expired demo_late).
Definition demo_pane : PaneState := pane_of demo_late "w1:p1".

Lemma demo_late_reachable : reachable demo_host LEASE_TTL RELEASE_GRACE demo_late.
Proof. eapply rtc_r; [apply demo_reachable|]. apply step_advance. Defined.

Lemma sweep_settles_every_pane_witness :
  live (now demo_late) (leases demo_pane) = ∅ /\ size_of (host demo_swept) "w1:p1" = Some (mkSize 200 50).
Proof.
  assert (Hp : panes demo_late !! "w1:p1" = Some demo_pane) by (vm_compute; reflexivity).
  assert (Hs : sweep_expired demo_late = Some (demo_swept, Ok tt)) by (vm_compute; reflexivity).
  assert (Hc : closed demo_late = false) by (vm_compute; reflexivity).
  pose proof (sweep_settles_every_pane demo_host LEASE_TTL RELEASE_GRACE demo_late demo_swept "w1:p1" demo_pane
    demo_sized demo_late_reachable Hc Hp Hs) as Hw.
  assert (Hnone : panes demo_swept !! "w1:p1" = None) by (vm_compute; reflexivity).
  rewrite Hnone in Hw. exact Hw.
Defined.

Definition demo_gone : LeaseManager MemoryHost := from_option fst demo_two (release_client demo_two "phone").

Lemma release_client_drops_all_leases_witness :
  match panes demo_gone !! "w1:p1" with Some s' => leases s' !! "phone" = None | None => False end.
Proof.
  destruct (panes demo_gone !! "w1:p1") as [s'|] eqn:Hp; [|by vm_compute in Hp].
  apply (release_client_drops_all_leases demo_host LEASE_TTL RELEASE_GRACE demo_two demo_gone "phone" (Ok tt)
           demo_sized demo_reachable) with (p := "w1:p1"); [vm_compute; reflexivity|done|vm_compute; reflexivity|exact Hp].
Defined.

End LeaseInvariant.
