(* ===== verification/JsonText.v ===== *)
(** * JSON string literals — [lerdr-e2ee/src/json.rs] and [lerdr-core/src/json.rs]

    The two encoders of the repository write string literals the way Go's
    [json.Marshal] does: one appends characters directly ([escape_string]), the
    other overrides two callbacks of the serde_json formatter ([GoFormatter]).
    A Rust [char] is its scalar value, an integer. *)

From S2P Require Import Prelude.

Module JsonText.

Abbreviation chars := (list Z).

(** Literal text as scalar values (ASCII only). *)
Definition lit (s : string) : chars := as_bytes s.

(** JSON source text: an apostrophe below stands for a double quote. *)
Definition jlit (s : string) : chars := (fun c => if decide (c = 39) then 34 else c) <$> as_bytes s.

Definition hex_digit (n : Z) : Z := if decide (n < 10) then 48 + n else 87 + n.

(** [write!(out, "\\u{:04x}", n)] for n < 2^16. *)
Definition hex4 (n : Z) : chars :=
  [hex_digit (n / 4096 mod 16); hex_digit (n / 256 mod 16); hex_digit (n / 16 mod 16); hex_digit (n mod 16)].

Definition quote : Z := 34.
Definition backslash : Z := 92.

(** ** [escape_string] *)

Definition escape_char (c : Z) : chars :=
  if decide (c = 34) then [backslash; 34]
  else if decide (c = 92) then [backslash; 92]
  else if decide (c = 10) then [backslash; 110]
  else if decide (c = 13) then [backslash; 114]
  else if decide (c = 9) then [backslash; 116]
  else if decide (c = 60) then backslash :: lit "u003c"
  else if decide (c = 62) then backslash :: lit "u003e"
  else if decide (c = 38) then backslash :: lit "u0026"
  else if decide (c = 0x2028) then backslash :: lit "u2028"
  else if decide (c = 0x2029) then backslash :: lit "u2029"
  else if decide (c < 0x20) then backslash :: 117 :: hex4 c
  else [c].

Definition escape_string (out s : chars) : chars :=
  out ++ [quote] ++ (s ≫= escape_char) ++ [quote].

(** ** [GoFormatter] *)

(** [write_string_fragment]: copy a run serde_json considers safe, re-escaping
    what Go escapes for HTML safety. [start] is the first byte not yet written;
    [pending] is the text between [start] and the current character. *)
Definition html_escape (c : Z) : option chars :=
  if decide (c = 60) then Some (backslash :: lit "u003c")
  else if decide (c = 62) then Some (backslash :: lit "u003e")
  else if decide (c = 38) then Some (backslash :: lit "u0026")
  else if decide (c = 0x2028) then Some (backslash :: lit "u2028")
  else if decide (c = 0x2029) then Some (backslash :: lit "u2029")
  else None.

Fixpoint write_fragment_loop (writer pending fragment : chars) : chars :=
  match fragment with
  | [] => writer ++ pending
  | ch :: rest =>
      match html_escape ch with
      | None => write_fragment_loop writer (pending ++ [ch]) rest
      | Some escape => write_fragment_loop (writer ++ pending ++ escape) [] rest
      end
  end.

Definition write_string_fragment (writer fragment : chars) : chars :=
  write_fragment_loop writer [] fragment.

Inductive CharEscape :=
| Quote | ReverseSolidus | Solidus | Backspace | FormFeed | LineFeed | CarriageReturn | Tab
| AsciiControl (byte : Z).

Definition write_char_escape (writer : chars) (escape : CharEscape) : chars :=
  writer ++ match escape with
  | Quote => [backslash; 34]
  | ReverseSolidus => [backslash; 92]
  | Solidus => [47]
  | Backspace => backslash :: lit "u0008"
  | FormFeed => backslash :: lit "u000c"
  | LineFeed => [backslash; 110]
  | CarriageReturn => [backslash; 114]
  | Tab => [backslash; 116]
  | AsciiControl byte => backslash :: 117 :: hex4 byte
  end.

(** The serializer that drives the formatter is serde_json's: it cuts a string
    into safe runs and escape requests. *)
Inductive piece := Fragment (f : chars) | Escape (e : CharEscape).

(** The character an escape request stands for (serde_json's documentation of
    [CharEscape]). *)
Definition escaped_char (e : CharEscape) : Z :=
  match e with
  | Quote => 34 | ReverseSolidus => 92 | Solidus => 47 | Backspace => 8 | FormFeed => 12
  | LineFeed => 10 | CarriageReturn => 13 | Tab => 9 | AsciiControl byte => byte
  end.

Definition piece_text (p : piece) : chars :=
  match p with Fragment f => f | Escape e => [escaped_char e] end.

(** What serde_json promises about its calls: it only requests escapes for the
    quote, the backslash and control bytes (a slash is never escaped), it uses
    the short name where one exists, and a run contains none of these. *)
Definition piece_ok (p : piece) : Prop :=
  match p with
  | Fragment f => Forall (fun c => 0x20 <= c /\ c <> 34 /\ c <> 92) f
  | Escape Solidus => False
  | Escape (AsciiControl b) => 0 <= b < 0x20 /\ b <> 8 /\ b <> 9 /\ b <> 10 /\ b <> 12 /\ b <> 13
  | Escape _ => True
  end.

Definition write_piece (writer : chars) (p : piece) : chars :=
  match p with
  | Fragment f => write_string_fragment writer f
  | Escape e => write_char_escape writer e
  end.

(** [serialize_str]: quote, pieces, quote. *)
Definition serialize_str (split : chars -> list piece) (writer s : chars) : chars :=
  foldl write_piece (writer ++ [quote]) (split s) ++ [quote].

(** ** Reading a literal back

    The reference reader of RFC 8259 string literals, for the escapes above. *)

Definition hex_value (c : Z) : option Z :=
  if decide (48 <= c <= 57) then Some (c - 48)
  else if decide (97 <= c <= 102) then Some (c - 87)
  else if decide (65 <= c <= 70) then Some (c - 55)
  else None.

Definition simple_escape (c : Z) : option Z :=
  if decide (c = 34) then Some 34
  else if decide (c = 92) then Some 92
  else if decide (c = 47) then Some 47
  else if decide (c = 98) then Some 8
  else if decide (c = 102) then Some 12
  else if decide (c = 110) then Some 10
  else if decide (c = 114) then Some 13
  else if decide (c = 116) then Some 9
  else None.

(** The body of a literal up to its closing quote, and what follows it. *)
Fixpoint read_body (s : chars) : option (chars * chars) :=
  match s with
  | [] => None
  | c :: rest =>
      if decide (c = quote) then Some ([], rest)
      else if decide (c < 0x20) then None
      else if decide (c = backslash) then
        match rest with
        | 117 :: a :: b :: d :: e :: rest' =>
            wa ← hex_value a; wb ← hex_value b; wd ← hex_value d; we ← hex_value e;
            '(body, tail) ← read_body rest';
            Some ((wa * 4096 + wb * 256 + wd * 16 + we) :: body, tail)
        | x :: rest' =>
            v ← simple_escape x;
            '(body, tail) ← read_body rest';
            Some (v :: body, tail)
        | [] => None
        end
      else '(body, tail) ← read_body rest; Some (c :: body, tail)
  end.

Definition read_string (s : chars) : option (chars * chars) :=
  match s with
  | c :: rest => if decide (c = quote) then read_body rest else None
  | [] => None
  end.

(** ** Lemmas *)

Lemma write_fragment_loop_spec writer pending fragment :
  write_fragment_loop writer pending fragment =
  writer ++ pending ++ (fragment ≫= fun c => match html_escape c with Some e => e | None => [c] end).
Proof.
  revert writer pending. induction fragment as [|c f IH]; intros writer pending; simpl.
  - by rewrite app_nil_r.
  - destruct (html_escape c) as [e|]; rewrite IH; simpl; by rewrite <- !app_assoc.
Qed.

(** On the runs serde_json passes, the HTML rewrite is [escape_char]. *)
Lemma html_escape_safe c :
  0x20 <= c -> c <> 34 -> c <> 92 ->
  match html_escape c with Some e => e | None => [c] end = escape_char c.
Proof.
  intros H1 H2 H3. unfold html_escape, escape_char.
  rewrite (decide_False (P := c = 34)), (decide_False (P := c = 92)), (decide_False (P := c = 10)),
    (decide_False (P := c = 13)), (decide_False (P := c = 9)) by lia.
  repeat (case_decide; [done|]). rewrite decide_False by lia. done.
Qed.

Lemma write_piece_spec writer p :
  piece_ok p -> write_piece writer p = writer ++ (piece_text p ≫= escape_char).
Proof.
  destruct p as [f|e]; cbn [write_piece piece_text piece_ok]; intros Hp.
  - unfold write_string_fragment. rewrite write_fragment_loop_spec, app_nil_l. f_equal.
    induction Hp as [|c f (H1 & H2 & H3) _ IH]; [done|].
    by rewrite !bind_cons, IH, html_escape_safe.
  - unfold write_char_escape. f_equal. rewrite bind_singleton.
    destruct e; try done. simpl. unfold escape_char.
    repeat (case_decide; [lia|]). case_decide; [done|lia].
Qed.

Lemma foldl_write_pieces ps writer :
  Forall piece_ok ps -> foldl write_piece writer ps = writer ++ ((ps ≫= piece_text) ≫= escape_char).
Proof.
  intros Hps. revert writer. induction Hps as [|p ps Hp _ IH]; intros writer; simpl; [by rewrite app_nil_r|].
  rewrite IH, write_piece_spec by done. by rewrite bind_app, app_assoc.
Qed.

Lemma read_body_plain c rest :
  0x20 <= c -> c <> quote -> c <> backslash ->
  read_body (c :: rest) = '(body, tail) ← read_body rest; Some (c :: body, tail).
Proof. intros H1 H2 H3. simpl. rewrite !decide_False by lia. done. Qed.

(** One escaped character reads back as itself. *)
Lemma read_body_escape_char c rest :
  0 <= c -> read_body (escape_char c ++ rest) = '(body, tail) ← read_body rest; Some (c :: body, tail).
Proof.
  intros Hc. unfold escape_char.
  repeat (case_decide; [subst c; reflexivity|]).
  case_decide as H20; [|by apply read_body_plain; unfold quote, backslash; lia].
  assert (Hin : c ∈ seqZ 0 32) by (apply elem_of_seqZ; lia).
  repeat (apply elem_of_cons in Hin as [->|Hin]; [reflexivity|]). by apply not_elem_of_nil in Hin.
Qed.

Lemma read_body_escape s rest :
  Forall (Z.le 0) s -> read_body ((s ≫= escape_char) ++ quote :: rest) = Some (s, rest).
Proof.
  induction 1 as [|c s Hc _ IH]; [done|].
  by rewrite bind_cons, <- app_assoc, read_body_escape_char, IH.
Qed.

(** ** Properties *)

(** A literal written by [escape_string] reads back, by the JSON grammar, as
    exactly the string that was written, and whatever follows the literal is
    left untouched: no string content can break out of its quotes. *)
Theorem escape_string_roundtrip (out s rest : chars) :
  Forall (Z.le 0) s ->
  exists text, escape_string out s = out ++ text /\ read_string (text ++ rest) = Some (s, rest).
Proof.
  intros Hs. exists ([quote] ++ (s ≫= escape_char) ++ [quote]). split; [done|]. simpl.
  rewrite <- app_assoc. by apply read_body_escape.
Qed.

Lemma escape_string_roundtrip_witness :
  exists text, escape_string [] (lit "<a> & \b") = text /\ read_string (text ++ [44]) = Some (lit "<a> & \b", [44]).
Proof.
  destruct (escape_string_roundtrip [] (lit "<a> & \b") [44]) as (t & H1 & H2).
  - repeat constructor; vm_compute; discriminate.
  - exists t. split; [exact H1|exact H2].
Defined.

(** The two encoders agree byte for byte: whatever way serde_json splits a
    string into safe runs and escape requests, the bytes [GoFormatter] writes
    are those of [escape_string]. *)
Theorem go_formatter_is_escape_string (split : chars -> list piece) (out s : chars) :
  Forall piece_ok (split s) -> (split s ≫= piece_text) = s ->
  serialize_str split out s = escape_string out s.
Proof.
  intros Hok Htext. unfold serialize_str, escape_string.
  rewrite foldl_write_pieces, Htext by done. by rewrite <- !app_assoc.
Qed.

(** A splitter that meets serde_json's contract: one piece per character. *)
Definition split_each (s : chars) : list piece :=
  (fun c =>
     if decide (c = 34) then Escape Quote
     else if decide (c = 92) then Escape ReverseSolidus
     else if decide (c = 8) then Escape Backspace
     else if decide (c = 9) then Escape Tab
     else if decide (c = 10) then Escape LineFeed
     else if decide (c = 12) then Escape FormFeed
     else if decide (c = 13) then Escape CarriageReturn
     else if decide (0 <= c < 0x20) then Escape (AsciiControl c)
     else Fragment [c]) <$> s.

Lemma go_formatter_is_escape_string_witness :
  serialize_str split_each [] [65; 34; 8; 60; 31; 0x2028] = escape_string [] [65; 34; 8; 60; 31; 0x2028].
Proof.
  apply (go_formatter_is_escape_string split_each).
  - vm_compute. repeat constructor; discriminate.
  - reflexivity.
Defined.

End JsonText.
