(* ===== verification/Json.v ===== *)
(** * JSON values — the part of serde_json's [Value] the sources build and read

    Parsing and printing are serde_json's own and stay abstract (class
    [SerdeJson]); the object type is its default [BTreeMap], a list sorted by
    key. *)

From S2P Require Import Prelude.

Module Json.

(** [serde_json::Number]: unsigned, negative, or the bits of a finite float. *)
Inductive number := PosInt (z : Z) | NegInt (z : Z) | Float (bits : Z).

Inductive json :=
| JNull
| JBool (b : bool)
| JNumber (n : number)
| JString (s : string)
| JArray (items : list json)
| JObject (members : list (string * json)).

#[export] Instance json_inhabited : Inhabited json := populate JNull.

(** [Map::get] and [Map::insert]. *)
Fixpoint obj_get (o : list (string * json)) (k : string) : option json :=
  match o with
  | [] => None
  | (k', v) :: rest => if decide (k' = k) then Some v else obj_get rest k
  end.

Fixpoint obj_insert (o : list (string * json)) (k : string) (v : json) : list (string * json) :=
  match o with
  | [] => [(k, v)]
  | (k', v') :: rest =>
      if decide (k' = k) then (k, v) :: rest
      else if decide (String.le k k') then (k, v) :: (k', v') :: rest
      else (k', v') :: obj_insert rest k v
  end.

(** [Value::get] with a string index, [as_str], [as_i64], [as_u64], [as_bool]. *)
Definition get (v : json) (k : string) : option json :=
  match v with JObject o => obj_get o k | _ => None end.

Definition as_str (v : json) : option string :=
  match v with JString s => Some s | _ => None end.

Definition as_i64 (v : json) : option Z :=
  match v with
  | JNumber (PosInt z) => if decide (z <= i64_max) then Some z else None
  | JNumber (NegInt z) => Some z
  | _ => None
  end.

Definition as_u64 (v : json) : option Z :=
  match v with JNumber (PosInt z) => Some z | _ => None end.

Definition as_bool (v : json) : option bool :=
  match v with JBool b => Some b | _ => None end.

Definition as_array (v : json) : option (list json) :=
  match v with JArray l => Some l | _ => None end.

Definition as_object (v : json) : option (list (string * json)) :=
  match v with JObject o => Some o | _ => None end.

(** [Value::from] of the integer types. *)
Definition json_int (z : Z) : json := if decide (0 <= z) then JNumber (PosInt z) else JNumber (NegInt z).

(** Parsing and printing. *)
Class SerdeJson := {
  from_str : string -> option json;
  to_string : json -> option string;
}.

Lemma obj_get_insert_eq o k v : obj_get (obj_insert o k v) k = Some v.
Proof.
  induction o as [|[k' v'] o IH]; simpl; [by rewrite decide_True|].
  destruct (decide (k' = k)) as [|Hne]; simpl; [by rewrite decide_True|].
  case_decide; simpl; [by rewrite decide_True|]. by rewrite decide_False.
Qed.

Lemma obj_get_insert_ne o k k' v : k <> k' -> obj_get (obj_insert o k v) k' = obj_get o k'.
Proof.
  intros Hk. induction o as [|[k1 v1] o IH]; simpl; [by rewrite decide_False|].
  destruct (decide (k1 = k)) as [->|Hne]; simpl; [by rewrite !(decide_False (P := k = k'))|].
  case_decide; simpl; [by rewrite (decide_False (P := k = k'))|]. by rewrite IH.
Qed.

End Json.
