(* ===== verification/UploadBinary.v ===== *)
(** * Binary upload chunks — [lerdr-core/src/uploadbinary.rs]

    The negotiated [0x03] carrier: fixed header, verbatim upload id, signed
    big-endian sequence, raw bytes; and the marker on the begin result. *)

From S2P Require Import Prelude Json.
Import Json.

Module UploadBinary.

Definition CAPABILITY : string := "upload_binary".
Definition TYPE_BYTE : Z := 3.
Definition UPLOAD_ID_BYTES : nat := 32.
Definition HEADER_BYTES : nat := 1 + UPLOAD_ID_BYTES + 8.
Definition ENCODING : string := "binary".

Record BinaryChunk := mkChunk {
  upload_id : string;
  sequence : Z;
  data : bytes;
}.

Definition is_binary_frame (plaintext : bytes) : bool :=
  bool_decide (head plaintext = Some TYPE_BYTE).

(** [u8::is_ascii_alphanumeric]. *)
Definition is_ascii_alphanumeric (b : Z) : bool :=
  in_range 48 57 b || in_range 65 90 b || in_range 97 122 b.

Definition is_id_byte (b : Z) : bool :=
  is_ascii_alphanumeric b || bool_decide (b = 45) || bool_decide (b = 95).

Definition is_upload_id (value : string) : bool :=
  bool_decide (String.length value = UPLOAD_ID_BYTES) && forallb is_id_byte (as_bytes value).

(** [split_at_checked]. *)
Definition split_at_checked (n : nat) (b : bytes) : option (bytes * bytes) :=
  if decide (n <= length b)%nat then Some (take n b, drop n b) else None.

Definition decode_chunk (plaintext : bytes) : option BinaryChunk :=
  '(header, rest) ← split_at_checked HEADER_BYTES plaintext;
  if decide (head header <> Some TYPE_BYTE) then None
  else
    id ← from_utf8 (take UPLOAD_ID_BYTES (drop 1 header));
    if negb (is_upload_id id) then None
    else Some (mkChunk id (to_signed64 (be_value (drop (1 + UPLOAD_ID_BYTES) header))) rest).

Definition encode_chunk (id : string) (seq : Z) (payload : bytes) : option bytes :=
  if negb (is_upload_id id) then None
  else Some ([TYPE_BYTE] ++ as_bytes id ++ be_bytes 8 seq ++ payload).

(** ** The marker on [upload_begin_result] *)

Inductive MaybeNull (A : Type) := Null | Value (a : A).
Arguments Null {A}.
Arguments Value {A} a.

(** [UploadResultMessage]: the [result] member is raw JSON text; [error] keeps
    its abstract payload. *)
Record UploadResultMessage (ApiError : Type) := mkUploadResult {
  error : option ApiError;
  request_id : option string;
  result_ : option (MaybeNull string);
  type_ : string;
}.
Arguments mkUploadResult {ApiError}.
Arguments error {ApiError}.
Arguments request_id {ApiError}.
Arguments result_ {ApiError}.
Arguments type_ {ApiError}.

Section Mark.
Context `{SerdeJson} {ApiError : Type}.
(** [RawValue::from_string]: accepts exactly JSON text, keeping it verbatim. *)
Context (raw_from_string : string -> option string).

Definition mark_chunk_encoding (message : UploadResultMessage ApiError) : UploadResultMessage ApiError * bool :=
  match result_ message with
  | Some (Value raw) =>
      match from_str raw with
      | Some (JObject o) =>
          match to_string (JObject (obj_insert o "chunk_encoding" (JString ENCODING))) ≫= raw_from_string with
          | Some encoded =>
              (mkUploadResult (error message) (request_id message) (Some (Value encoded)) (type_ message), true)
          | None => (message, false)
          end
      | _ => (message, false)
      end
  | _ => (message, false)
  end.
End Mark.

(** ** Lemmas *)

Lemma is_id_byte_ascii b : is_id_byte b = true -> 0 <= b <= 0x7F.
Proof.
  unfold is_id_byte, is_ascii_alphanumeric, in_range. rewrite !orb_true_iff, !bool_decide_eq_true. lia.
Qed.

Lemma is_upload_id_bytes id : is_upload_id id = true ->
  length (as_bytes id) = UPLOAD_ID_BYTES /\ Forall (fun z => 0 <= z <= 0x7F) (as_bytes id).
Proof.
  unfold is_upload_id. rewrite andb_true_iff, bool_decide_eq_true, forallb_forall. intros [Hl Ha].
  split; [by autorewrite with lerdr|]. apply Forall_forall. intros z Hz. apply is_id_byte_ascii, Ha.
  by apply list_elem_of_In.
Qed.

Lemma to_signed64_be z : is_i64 z -> to_signed64 (be_value (be_bytes 8 z)) = z.
Proof. intros Hz. rewrite be_value_bytes. change (256 ^ Z.of_nat 8) with (2 ^ 64). by apply to_signed64_mod. Qed.

Lemma to_signed64_i64 z : is_u64 z -> is_i64 (to_signed64 z).
Proof. unfold is_u64, is_i64, to_signed64, u64_max, i64_min, i64_max. case_decide; lia. Qed.

Lemma be_bytes_signed b : length b = 8%nat -> Forall is_u8 b -> be_bytes 8 (to_signed64 (be_value b)) = b.
Proof.
  intros Hl Hb. pose proof (be_value_bound b Hb) as Hbound. rewrite Hl in Hbound.
  change (256 ^ Z.of_nat 8) with (2 ^ 64) in Hbound.
  assert (be_bytes 8 (to_signed64 (be_value b)) = be_bytes 8 (be_value b)) as ->.
  { apply be_value_inj; [by autorewrite with lerdr|auto with lerdr..|].
    rewrite !be_value_bytes. change (256 ^ Z.of_nat 8) with (2 ^ 64).
    unfold to_signed64. case_decide; [done|]. by rewrite <- (Z_mod_plus_full _ 1 (2 ^ 64)), Z.mul_1_l, Z.sub_add. }
  apply be_value_inj; [by autorewrite with lerdr|auto with lerdr|done|].
  rewrite be_value_bytes. change (256 ^ Z.of_nat 8) with (2 ^ 64). by rewrite Z.mod_small.
Qed.

(** ** Properties *)

(** A chunk encoded for the binary carrier decodes to the same upload id,
    sequence (over the whole signed 64-bit range) and payload, and it is
    recognised as a binary frame. *)
Theorem chunk_roundtrip (id : string) (seq : Z) (payload frame : bytes) :
  is_i64 seq -> encode_chunk id seq payload = Some frame ->
  decode_chunk frame = Some (mkChunk id seq payload) /\ is_binary_frame frame = true.
Proof.
  intros Hseq. unfold encode_chunk. destruct (is_upload_id id) eqn:Hid; [|done]. cbn [negb]. intros Hf. apply (inj Some) in Hf as <-.
  destruct (is_upload_id_bytes id Hid) as [Hlen Hasc]. split; [|done].
  set (header := [TYPE_BYTE] ++ as_bytes id ++ be_bytes 8 seq).
  assert (Hhead : length header = HEADER_BYTES)
    by (unfold header; rewrite !length_app, Hlen, be_bytes_length; done).
  replace ([TYPE_BYTE] ++ as_bytes id ++ be_bytes 8 seq ++ payload) with (header ++ payload)
    by (unfold header; by rewrite <- !(assoc_L (++))).
  destruct (take_drop_app header payload _ Hhead) as [Ht Hd].
  unfold decode_chunk, split_at_checked.
  rewrite decide_True by (rewrite length_app, Hhead; lia).
  cbn [mbind option_bind]. rewrite Ht, Hd. 
  change (head header) with (Some TYPE_BYTE). change (drop 1 header) with (as_bytes id ++ be_bytes 8 seq).
  rewrite decide_False by naive_solver.
  destruct (take_drop_app (as_bytes id) (be_bytes 8 seq) _ Hlen) as [-> Hdd].
  rewrite from_utf8_ascii by done. cbn [mbind option_bind]. rewrite string_of_as_bytes, Hid. cbn [negb].
  change (drop (1 + UPLOAD_ID_BYTES) header)
    with (drop UPLOAD_ID_BYTES (as_bytes id ++ be_bytes 8 seq)).
  by rewrite Hdd, to_signed64_be.
Qed.

Lemma chunk_roundtrip_witness :
  decode_chunk ([3] ++ as_bytes "abcdefghijklmnopqrstuvwxyz123456" ++ be_bytes 8 (-1) ++ [0; 255])
  = Some (mkChunk "abcdefghijklmnopqrstuvwxyz123456" (-1) [0; 255]).
Proof.
  apply (chunk_roundtrip "abcdefghijklmnopqrstuvwxyz123456" (-1) [0; 255]).
  - unfold is_i64, i64_min, i64_max. lia.
  - vm_compute. reflexivity.
Defined.

(** The decoder accepts nothing but encodings: a frame it accepts is exactly
    the encoding of the chunk it returns, so no two frames stand for one chunk
    and every other byte string, JSON text included, is rejected. *)
Theorem decode_chunk_canonical (frame : bytes) (c : BinaryChunk) :
  Forall is_u8 frame -> decode_chunk frame = Some c ->
  encode_chunk (upload_id c) (sequence c) (data c) = Some frame /\ is_i64 (sequence c) /\
  head frame = Some TYPE_BYTE.
Proof.
  intros Hu8. unfold decode_chunk, split_at_checked. case_decide as Hlen; [|done]. cbn [mbind option_bind].
  case_decide as Hty; [done|].
  pose proof (length_take_le frame HEADER_BYTES Hlen) as Hhl.
  assert (Hsplit : frame = take HEADER_BYTES frame ++ drop HEADER_BYTES frame) by (by rewrite take_drop).
  set (header := take HEADER_BYTES frame) in *. set (rest := drop HEADER_BYTES frame) in *.
  clearbody header rest. subst frame. apply Forall_app in Hu8 as [Hhu _].
  destruct header as [|t body]; [done|]. injection Hty as ->.
  change (drop 1 (TYPE_BYTE :: body)) with body. apply Forall_cons in Hhu as [_ Hbody].
  destruct (from_utf8 (take UPLOAD_ID_BYTES body)) as [id|] eqn:Hutf; cbn [mbind option_bind]; [|done].
  apply from_utf8_Some in Hutf; [|by apply Forall_take].
  destruct (is_upload_id id) eqn:Hid; cbn [negb]; [|done]. intros [= <-]. cbn [upload_id sequence data].
  assert (Hsl : length (drop UPLOAD_ID_BYTES body) = 8%nat)
    by (rewrite length_drop; cbn [length] in Hhl; unfold HEADER_BYTES, UPLOAD_ID_BYTES in *; lia).
  assert (Hsu : Forall is_u8 (drop UPLOAD_ID_BYTES body)) by (by apply Forall_drop).
  change (drop (1 + UPLOAD_ID_BYTES) (TYPE_BYTE :: body)) with (drop UPLOAD_ID_BYTES body).
  split_and!.
  - unfold encode_chunk. rewrite Hid. cbn [negb]. rewrite be_bytes_signed, Hutf by done. f_equal.
    by rewrite (assoc_L (++) (take _ _)), take_drop.
  - apply to_signed64_i64. pose proof (be_value_bound _ Hsu) as Hb. rewrite Hsl in Hb.
    change (256 ^ Z.of_nat 8) with (2 ^ 64) in Hb. unfold is_u64, u64_max. lia.
  - done.
Qed.

Lemma decode_chunk_canonical_witness :
  let f := [3] ++ as_bytes "abcdefghijklmnopqrstuvwxyz123456" ++ be_bytes 8 7 ++ [1; 2] in
  encode_chunk "abcdefghijklmnopqrstuvwxyz123456" 7 [1; 2] = Some f.
Proof.
  intros f. apply (decode_chunk_canonical f (mkChunk "abcdefghijklmnopqrstuvwxyz123456" 7 [1; 2])).
  - vm_compute. repeat constructor; discriminate.
  - vm_compute. reflexivity.
Defined.

End UploadBinary.
