(* ===== verification/JsonWire.v ===== *)
(** * JSON objects on the wire

    What the hand-written encoders of the end-to-end layer and serde's derived
    decoders do with flat objects: text building with escaped literals, and
    struct deserialisation with serde's defaults.  The JSON grammar itself is
    serde_json's (class [WireJson]); an executable parser for the texts the
    encoders produce shows its law can hold. *)

From S2P Require Import Prelude Utf8 JsonText Json.
Import Utf8 JsonText Json.

Module JsonWire.

(** ** Building text *)

(** [out.push_str(..)] and [json::escape_string(&mut out, s)] on the bytes of a
    [String]. *)
Definition push_str (out : bytes) (s : bytes) : bytes := out ++ s.
Definition push_json (out : bytes) (s : string) : bytes := out ++ utf8_encode (escape_string [] (Utf8.chars s)).

(** The canonical text of a flat object, as characters. *)
Definition value_chars (v : json) : list Z :=
  match v with
  | JString s => escape_string [] (Utf8.chars s)
  | JNumber (PosInt z) => as_bytes (decimal z)
  | _ => []
  end.

Definition member_chars (m : string * json) : list Z :=
  escape_string [] (Utf8.chars m.1) ++ [58] ++ value_chars m.2.

Fixpoint members_chars (ms : list (string * json)) : list Z :=
  match ms with
  | [] => []
  | [m] => member_chars m
  | m :: rest => member_chars m ++ [44] ++ members_chars rest
  end.

Definition object_chars (ms : list (string * json)) : list Z := [123] ++ members_chars ms ++ [125].
Definition object_text (ms : list (string * json)) : bytes := utf8_encode (object_chars ms).

(** ** Reading structs *)

(** [serde_json::from_slice] up to the value: members in text order, duplicates
    kept. *)
Class WireJson := {
  from_slice : bytes -> option json;
}.

(** A value the encoders write. *)
Definition value_ok (v : json) : Prop :=
  match v with
  | JString s => utf8_string s
  | JNumber (PosInt z) => is_u64 z
  | _ => False
  end.
Definition member_ok (m : string * json) : Prop := utf8_string m.1 /\ value_ok m.2.

(** [Forall member_ok] of a literal object: one goal per value left open. *)
Ltac each_member := each_of; (split; [done|]); cbn [value_ok snd]; try done.

Class WireJsonLaws `{WireJson} := {
  from_slice_text ms : Forall member_ok ms -> from_slice (object_text ms) = Some (JObject ms);
}.

(** A derived [Deserialize]: an object gives each field its member (a repeated
    one is an error, unknown ones are ignored); an array gives fields by
    position, and may be short because every field has a default. *)
Definition member (ms : list (string * json)) (k : string) : option (option json) :=
  match filter (fun m : string * json => m.1 = k) ms with
  | [] => Some None
  | [m] => Some (Some m.2)
  | _ => None
  end.

Definition de_struct (names : list string) (v : json) : option (list (option json)) :=
  match v with
  | JObject ms => mapM (member ms) names
  | JArray items =>
      if decide (length items <= length names)%nat
      then Some ((Some <$> items) ++ replicate (length names - length items) None) else None
  | _ => None
  end.

(** Fields with [default] and [null_default]: absent or null is the zero value,
    another type is an error. *)
Definition de_string (f : option json) : option string :=
  match f with None | Some JNull => Some ""%string | Some (JString s) => Some s | _ => None end.
Definition de_u64 (f : option json) : option Z :=
  match f with None | Some JNull => Some 0 | Some v => as_u64 v end.
Definition de_i64 (f : option json) : option Z :=
  match f with None | Some JNull => Some 0 | Some v => as_i64 v end.
(** A plain [Option<String>] field. *)
Definition de_opt_string (f : option json) : option (option string) :=
  match f with None | Some JNull => Some None | Some (JString s) => Some (Some s) | _ => None end.

(** ** Lemmas *)

Lemma push_json_ascii out s : Forall (fun c => 0 <= c <= 0x7F) (as_bytes s) -> (as_bytes s ≫= escape_char) = as_bytes s ->
  push_json out s = out ++ [34] ++ as_bytes s ++ [34].
Proof.
  intros Ha He. unfold push_json, escape_string. rewrite chars_ascii, He, app_nil_l by done.
  by rewrite !utf8_encode_app, (utf8_encode_ascii (as_bytes s)).
Qed.

Lemma escape_char_scalar c : is_scalar c -> Forall is_scalar (escape_char c).
Proof.
  intros Hc. unfold escape_char.
  do 10 (case_decide; [apply (bool_decide_unpack (Forall is_scalar _)); vm_compute; exact I|]).
  case_decide as H20; [|by constructor].
  assert (Hin : c ∈ seqZ 0 32) by (apply elem_of_seqZ; unfold is_scalar in Hc; lia).
  repeat (apply elem_of_cons in Hin as [->|Hin]; [apply (bool_decide_unpack (Forall is_scalar _)); vm_compute; exact I|]).
  by apply not_elem_of_nil in Hin.
Qed.

Lemma escape_string_scalar s : Forall is_scalar s -> Forall is_scalar (escape_string [] s).
Proof.
  intros Hs. unfold escape_string. cbn [app]. constructor; [unfold is_scalar, quote; lia|].
  apply Forall_app. split; [|repeat constructor; unfold quote; lia].
  induction Hs as [|c s Hc _ IH]; [constructor|]. rewrite bind_cons. apply Forall_app. split; [by apply escape_char_scalar|done].
Qed.

Lemma scalar_nonneg s : Forall is_scalar s -> Forall (Z.le 0) s.
Proof. intros Hs. eapply Forall_impl; [exact Hs|]. intros c [? _]. lia. Qed.

Lemma read_string_escape s rest :
  Forall is_scalar s -> read_string (escape_string [] s ++ rest) = Some (s, rest).
Proof.
  intros Hs%scalar_nonneg. unfold escape_string. cbn [app]. cbn [read_string].
  rewrite decide_True by done. rewrite <- app_assoc. by apply read_body_escape.
Qed.

(** ** Decimal numbers *)

Fixpoint read_dec (acc : Z) (b : bytes) : Z * bytes :=
  match b with
  | c :: r => if decide (48 <= c <= 57) then read_dec (acc * 10 + (c - 48)) r else (acc, b)
  | [] => (acc, [])
  end.

Lemma pretty_char_byte x : (x < 10)%N -> ascii_byte (pretty_N_char x) = 48 + Z.of_N x.
Proof.
  intros Hx. assert (x = 0 ∨ x = 1 ∨ x = 2 ∨ x = 3 ∨ x = 4 ∨ x = 5 ∨ x = 6 ∨ x = 7 ∨ x = 8 ∨ x = 9)%N by lia.
  destruct_or!; subst; done.
Qed.

Lemma read_dec_go x s b :
  read_dec 0 (as_bytes (pretty_N_go x s) ++ b) = read_dec (Z.of_N x) (as_bytes s ++ b).
Proof.
  revert s. induction (N.lt_wf_0 x) as [x _ IH]; intros s.
  assert (x = 0 \/ 0 < x)%N as [->|Hx] by lia; [done|].
  rewrite pretty_N_go_step by done. rewrite IH by (by apply N.div_lt). cbn [as_bytes app read_dec].
  rewrite pretty_char_byte by (by apply N.mod_lt).
  rewrite N2Z.inj_div, N2Z.inj_mod. change (Z.of_N 10) with 10.
  pose proof (Z.mod_pos_bound (Z.of_N x) 10 ltac:(lia)) as Hm.
  rewrite decide_True by lia. f_equal. pose proof (Z.div_mod (Z.of_N x) 10). lia.
Qed.

Lemma read_dec_decimal z c b :
  0 <= z -> ~ 48 <= c <= 57 -> read_dec 0 (as_bytes (decimal z) ++ c :: b) = (z, c :: b).
Proof.
  intros Hz Hc. assert (Hstop : forall n, read_dec n (c :: b) = (n, c :: b)) by (intros n; simpl; by rewrite decide_False).
  unfold decimal, pretty, pretty_N. case_decide as H0.
  - change (as_bytes "0" ++ c :: b) with (48 :: c :: b). cbn [read_dec]. rewrite decide_True by lia.
    rewrite decide_False by done. f_equal. lia.
  - rewrite read_dec_go. simpl app. rewrite Z2N.id by done. apply Hstop.
Qed.


(** ** An executable parser for flat objects *)

Definition str (cs : list Z) : string := string_of_bytes (utf8_encode cs).

Definition parse_value (s : list Z) : option (json * list Z) :=
  match s with
  | [] => None
  | c :: _ =>
      if decide (c = 34) then '(t, r) ← read_string s; Some (JString (str t), r)
      else if decide (48 <= c <= 57) then let '(z, r) := read_dec 0 s in Some (JNumber (PosInt z), r)
      else None
  end.

Fixpoint parse_members (fuel : nat) (s : list Z) : option (list (string * json)) :=
  match fuel with
  | O => None
  | S fuel =>
      '(k, r) ← read_string s;
      match r with
      | c :: r =>
          if decide (c = 58) then
            '(v, r) ← parse_value r;
            match r with
            | c' :: r' =>
                if decide (c' = 44) then rest ← parse_members fuel r'; Some ((str k, v) :: rest)
                else if decide (c' = 125 /\ r' = []) then Some [(str k, v)]
                else None
            | [] => None
            end
          else None
      | [] => None
      end
  end.

#[export] Instance flat_json : WireJson := {
  from_slice b :=
    if utf8_valid b then
      match utf8_chars b with
      | c :: r =>
          if decide (c = 123) then
            if decide (r = [125]) then Some (JObject []) else JObject <$> parse_members (length r) r
          else None
      | [] => None
      end
    else None;
}.

Lemma str_chars s : utf8_string s -> str (Utf8.chars s) = s.
Proof. intros Hs. unfold str. rewrite encode_chars by done. apply string_of_as_bytes. Qed.

Lemma decimal_ascii z : Forall (fun c => 48 <= c <= 57) (as_bytes (decimal z)).
Proof.
  unfold decimal, pretty, pretty_N. case_decide; [repeat constructor; vm_compute; intuition congruence|].
  assert (Hgo : forall x s, Forall (fun c => 48 <= c <= 57) (as_bytes s) ->
                            Forall (fun c => 48 <= c <= 57) (as_bytes (pretty_N_go x s))).
  { intros x. induction (N.lt_wf_0 x) as [x _ IH]; intros s Hs.
    assert (x = 0 \/ 0 < x)%N as [->|Hx] by lia; [done|]. rewrite pretty_N_go_step by done.
    apply IH; [by apply N.div_lt|]. cbn [as_bytes]. constructor; [|done].
    rewrite pretty_char_byte by (by apply N.mod_lt). rewrite N2Z.inj_mod. change (Z.of_N 10) with 10.
    pose proof (Z.mod_pos_bound (Z.of_N x) 10). lia. }
  apply Hgo. constructor.
Qed.

Lemma decimal_head z : exists c r, as_bytes (decimal z) = c :: r /\ 48 <= c <= 57.
Proof.
  pose proof (decimal_ascii z) as Hd. destruct (as_bytes (decimal z)) as [|c r] eqn:E.
  - apply (f_equal string_of_bytes) in E. rewrite string_of_as_bytes in E. exfalso.
    unfold decimal, pretty, pretty_N in E. case_decide; [done|].
    assert (Hgo : forall x s, s <> ""%string \/ (0 < x)%N -> pretty_N_go x s <> ""%string).
    { intros x. induction (N.lt_wf_0 x) as [x _ IH]; intros s Hs.
      assert (x = 0 \/ 0 < x)%N as [->|Hx] by lia; [destruct Hs; [done|lia]|].
      rewrite pretty_N_go_step by done. apply IH; [by apply N.div_lt|]. by left. }
    revert E. apply Hgo. right. lia.
  - exists c, r. split; [done|]. by inversion Hd.
Qed.

Lemma value_chars_scalar v : value_ok v -> Forall is_scalar (value_chars v).
Proof.
  destruct v as [| |[z|z|z]|s| |]; try done; cbn [value_ok value_chars].
  - intros _. eapply Forall_impl; [apply decimal_ascii|]. intros c Hc. simpl in Hc. split; lia.
  - intros Hs. by apply escape_string_scalar, chars_scalar.
Qed.

Lemma member_chars_scalar m : member_ok m -> Forall is_scalar (member_chars m).
Proof.
  intros [Hk Hv]. unfold member_chars. apply Forall_app. split; [by apply escape_string_scalar, chars_scalar|].
  constructor; [split; lia|]. by apply value_chars_scalar.
Qed.

Lemma members_chars_scalar ms : Forall member_ok ms -> Forall is_scalar (members_chars ms).
Proof.
  induction 1 as [|m ms Hm Hms IH]; [constructor|]. cbn [members_chars].
  destruct ms as [|m' ms]; [by apply member_chars_scalar|].
  apply Forall_app. split; [by apply member_chars_scalar|]. constructor; [split; lia|done].
Qed.

Lemma parse_value_chars v c r :
  value_ok v -> ~ 48 <= c <= 57 -> parse_value (value_chars v ++ c :: r) = Some (v, c :: r).
Proof.
  destruct v as [| |[z|z|z]|s| |]; try done; cbn [value_ok value_chars].
  - intros Hz Hc. destruct (decimal_head z) as (d & ds & E & Hd). unfold parse_value.
    pose proof (read_dec_decimal z c r ltac:(destruct Hz; lia) Hc) as Hread. rewrite E in *. cbn [app] in *.
    rewrite decide_False, decide_True by lia. by rewrite Hread.
  - intros Hs _. pose proof (read_string_escape (Utf8.chars s) (c :: r) (chars_scalar s Hs)) as Hread.
    unfold parse_value. unfold escape_string in *. cbn [app] in *. rewrite decide_True by done. rewrite Hread.
    cbn [mbind option_bind]. by rewrite str_chars.
Qed.

Lemma parse_members_chars ms fuel :
  ms <> [] -> Forall member_ok ms -> (length ms <= fuel)%nat ->
  parse_members fuel (members_chars ms ++ [125]) = Some ms.
Proof.
  intros Hne Hms. revert fuel. induction Hms as [|[k v] ms [Hk Hv] Hms IH]; intros fuel Hf; [done|].
  destruct fuel as [|fuel]; [simpl in Hf; lia|]. cbn [parse_members members_chars].
  destruct ms as [|m' ms'].
  - unfold member_chars. rewrite <- !app_assoc. rewrite read_string_escape by (by apply chars_scalar).
    cbn [app mbind option_bind]. rewrite decide_True by done. rewrite parse_value_chars by (done || lia).
    cbn [mbind option_bind]. rewrite decide_False, decide_True by done. cbn [snd]. by rewrite str_chars.
  - set (rest := members_chars (m' :: ms')) in *. unfold member_chars. rewrite <- !app_assoc.
    rewrite read_string_escape by (by apply chars_scalar).
    cbn [app mbind option_bind]. rewrite decide_True by done. rewrite parse_value_chars by (done || lia).
    cbn [mbind option_bind]. rewrite decide_True by done. rewrite IH by (done || (simpl in *; lia)).
    cbn [mbind option_bind snd]. by rewrite str_chars.
Qed.

Lemma members_chars_length ms : (length ms <= length (members_chars ms))%nat.
Proof.
  induction ms as [|m ms IH]; [done|]. cbn [members_chars length].
  destruct ms as [|m' ms]; [unfold member_chars; rewrite length_app; simpl; lia|].
  rewrite !length_app. cbn [length] in *. lia.
Qed.

#[export] Instance flat_json_laws : WireJsonLaws.
Proof.
  split. intros ms Hms. unfold from_slice, flat_json, object_text.
  destruct (chars_encode (object_chars ms)) as [Hchars Hvalid].
  { unfold object_chars. constructor; [split; lia|]. apply Forall_app.
    split; [by apply members_chars_scalar|]. repeat constructor; lia. }
  rewrite Hvalid, Hchars. unfold object_chars. cbn [app]. rewrite decide_True by done.
  destruct ms as [|m ms]; [done|]. case_decide as E.
  - apply (f_equal length) in E. rewrite length_app in E. pose proof (members_chars_length (m :: ms)). simpl in *. lia.
  - rewrite parse_members_chars; [done|done|done|]. rewrite length_app. pose proof (members_chars_length (m :: ms)). lia.
Qed.

End JsonWire.
