(* ===== verification/Civil.v ===== *)
(** * Civil dates

    The two copies of the days-to-date conversion: [civil_from_days] of
    [lerdr-core/src/audit.rs] and the inline one of [wire_time] in
    [lerdr-relay/src/session.rs], with the RFC 3339 texts built on them. *)

From S2P Require Import Prelude.

Module Civil.

(** ** [civil_from_days] (audit.rs): [/] truncates toward zero *)

Definition civil_from_days (days : Z) : Z * Z * Z :=
  let z := days + 719468 in
  let era := Z.quot (if decide (0 <= z) then z else z - 146096) 146097 in
  let doe := z - era * 146097 in
  let yoe := Z.quot (doe - Z.quot doe 1460 + Z.quot doe 36524 - Z.quot doe 146096) 365 in
  let year := yoe + era * 400 in
  let doy := doe - (365 * yoe + Z.quot yoe 4 - Z.quot yoe 100) in
  let mp := Z.quot (5 * doy + 2) 153 in
  let day := doy - Z.quot (153 * mp + 2) 5 + 1 in
  let month := if decide (mp < 10) then mp + 3 else mp - 9 in
  (if decide (month <= 2) then year + 1 else year, month, day).

(** ** The inline copy of [wire_time] (session.rs) *)

Definition wire_date (days : Z) : Z * Z * Z :=
  let z := days + 719468 in
  let era := z / 146097 in
  let doe := z mod 146097 in
  let yoe := Z.quot (doe - Z.quot doe 1460 + Z.quot doe 36524 - Z.quot doe 146096) 365 in
  let y := yoe + era * 400 in
  let doy := doe - (365 * yoe + Z.quot yoe 4 - Z.quot yoe 100) in
  let mp := Z.quot (5 * doy + 2) 153 in
  let d := doy - Z.quot (153 * mp + 2) 5 + 1 in
  let mo := if decide (mp < 10) then mp + 3 else mp - 9 in
  (if decide (mo <= 2) then y + 1 else y, mo, d).

(** [{:0w}] of an integer: zero padding to a width that counts the sign. *)
Fixpoint zeros (n : nat) : string := match n with O => "" | S n => String (byte_ascii 48) (zeros n) end.
Definition pad_nat (w : nat) (z : Z) : string :=
  let s := decimal z in zeros (w - String.length s) +:+ s.
Definition pad (w : nat) (z : Z) : string :=
  if decide (0 <= z) then pad_nat w z else "-" +:+ pad_nat (w - 1) (- z).

Definition clock_text (tod : Z) : string :=
  pad 2 (tod / 3600) +:+ ":" +:+ pad 2 (tod mod 3600 / 60) +:+ ":" +:+ pad 2 (tod mod 60).

Definition date_text (d : Z * Z * Z) : string :=
  let '(y, mo, d) := d in pad 4 y +:+ "-" +:+ pad 2 mo +:+ "-" +:+ pad 2 d.

Definition wire_time (ms : Z) : string :=
  if decide (ms = 0) then "0001-01-01T00:00:00Z"
  else
    let secs := ms / 1000 in
    let millis := ms mod 1000 in
    let days := secs / 86400 in
    let tod := secs mod 86400 in
    let fraction :=
      if decide (millis = 0) then ""
      else if decide (millis mod 100 = 0) then "." +:+ decimal (millis / 100)
      else if decide (millis mod 10 = 0) then "." +:+ pad 2 (millis / 10)
      else "." +:+ pad 3 millis in
    date_text (wire_date days) +:+ "T" +:+ clock_text tod +:+ fraction +:+ "Z".

(** [rfc3339_nano] from the seconds and nanoseconds since the epoch. *)
Fixpoint strip_zeros (fuel : nat) (digits : list Z) : list Z :=
  match fuel with
  | O => digits
  | S fuel =>
      match reverse digits with
      | 48 :: rest => strip_zeros fuel (reverse rest)
      | _ => digits
      end
  end.

Definition rfc3339_nano (secs nanos : Z) : string :=
  let days := secs / 86400 in
  let seconds_of_day := secs mod 86400 in
  let fraction :=
    if decide (nanos = 0) then ""
    else "." +:+ string_of_bytes (strip_zeros 9 (as_bytes (pad 9 nanos))) in
  date_text (civil_from_days days) +:+ "T" +:+ clock_text seconds_of_day +:+ fraction +:+ "Z".

Example wire_time_2024 : wire_time 1709210096120 = "2024-02-29T12:34:56.12Z"%string.
Proof. vm_compute. reflexivity. Qed.
Example rfc3339_2024 : rfc3339_nano 1709210096 120000000 = "2024-02-29T12:34:56.12Z"%string.
Proof. vm_compute. reflexivity. Qed.

(** ** The proleptic Gregorian calendar *)

Definition leap (y : Z) : bool :=
  bool_decide (y mod 4 = 0) && (negb (bool_decide (y mod 100 = 0)) || bool_decide (y mod 400 = 0)).

Definition month_length (y m : Z) : Z :=
  if decide (m = 2) then if leap y then 29 else 28
  else if decide (m = 4 \/ m = 6 \/ m = 9 \/ m = 11) then 30 else 31.

(** Days of the year before its month [m]. *)
Definition days_before_month (y m : Z) : Z :=
  foldr (fun k acc => month_length y k + acc) 0 (seqZ 1 (m - 1)).

(** Days before the year [y], counted from 0001-01-01. *)
Definition days_before_year (y : Z) : Z := 365 * (y - 1) + (y - 1) / 4 - (y - 1) / 100 + (y - 1) / 400.

(** 1970-01-01 is day 0. *)
Definition days_from_civil (d : Z * Z * Z) : Z :=
  let '(y, m, d) := d in days_before_year y + days_before_month y m + (d - 1) - 719162.

Definition valid_date (d : Z * Z * Z) : bool :=
  let '(y, m, d) := d in bool_decide (1 <= m <= 12) && bool_decide (1 <= d <= month_length y m).

(** ** Both conversions agree and are periodic *)

Lemma era_floor z : Z.quot (if decide (0 <= z) then z else z - 146096) 146097 = z / 146097.
Proof. case_decide; Z.to_euclidean_division_equations; lia. Qed.

Lemma civil_is_wire days : civil_from_days days = wire_date days.
Proof.
  unfold civil_from_days, wire_date. rewrite era_floor. cbv zeta.
  replace (days + 719468 - (days + 719468) / 146097 * 146097) with ((days + 719468) mod 146097); [done|].
  rewrite Z.mod_eq by lia. lia.
Qed.

Definition shift_years (n : Z) (d : Z * Z * Z) : Z * Z * Z := let '(y, m, d) := d in (y + n, m, d).

Lemma wire_date_era days e : wire_date (days + e * 146097) = shift_years (e * 400) (wire_date days).
Proof.
  unfold wire_date, shift_years. cbv zeta.
  replace (days + e * 146097 + 719468) with (days + 719468 + e * 146097) by lia.
  rewrite Z.div_add, Z.mod_add by lia. repeat case_decide; f_equal; try lia; f_equal; lia.
Qed.

Lemma leap_era y e : leap (y + e * 400) = leap y.
Proof.
  unfold leap.
  replace ((y + e * 400) mod 4) with (y mod 4) by (Z.to_euclidean_division_equations; lia).
  replace ((y + e * 400) mod 100) with (y mod 100) by (Z.to_euclidean_division_equations; lia).
  by rewrite Z.mod_add by lia.
Qed.

Lemma month_length_era y e m : month_length (y + e * 400) m = month_length y m.
Proof. unfold month_length. by rewrite leap_era. Qed.

Lemma days_before_month_era y e m : days_before_month (y + e * 400) m = days_before_month y m.
Proof.
  unfold days_before_month. induction (seqZ 1 (m - 1)) as [|k l IH]; [done|]. cbn [foldr]. by rewrite month_length_era, IH.
Qed.

Lemma days_from_civil_era d e : days_from_civil (shift_years (e * 400) d) = days_from_civil d + e * 146097.
Proof.
  destruct d as [[y m] d]. unfold days_from_civil, shift_years, days_before_year. rewrite days_before_month_era.
  replace (y + e * 400 - 1) with (y - 1 + e * 400) by lia.
  replace ((y - 1 + e * 400) / 4) with ((y - 1) / 4 + e * 100) by (Z.to_euclidean_division_equations; lia).
  replace ((y - 1 + e * 400) / 100) with ((y - 1) / 100 + e * 4) by (Z.to_euclidean_division_equations; lia).
  rewrite Z.div_add by lia. lia.
Qed.

Lemma valid_date_era d e : valid_date (shift_years (e * 400) d) = valid_date d.
Proof. destruct d as [[y m] d]. unfold valid_date, shift_years. by rewrite month_length_era. Qed.

(** ** One 400-year era

    Years of an era start in March.  [era_start y] is the day of the era on
    which year [y] starts; [era_year] is the year the conversions compute. *)

Definition era_start (y : Z) : Z := 365 * y + y / 4 - y / 100 + y / 400.

Definition era_year (doe : Z) : Z :=
  Z.quot (doe - Z.quot doe 1460 + Z.quot doe 36524 - Z.quot doe 146096) 365.

Definition days_upto (n : nat) : list Z := seqZ 0 (Z.of_nat n).

Lemma forallb_upto (f : Z -> bool) n : forallb f (days_upto n) = true -> forall d, 0 <= d < Z.of_nat n -> f d = true.
Proof. intros Hall d Hd. rewrite forallb_forall in Hall. apply Hall, list_elem_of_In, elem_of_seqZ. lia. Qed.

Lemma era_year_step doe : 0 <= doe -> era_year doe <= era_year (doe + 1).
Proof. intros Hd. unfold era_year. apply Z.quot_le_mono; [lia|]. Z.to_euclidean_division_equations; lia. Qed.

Lemma era_year_mono a b : 0 <= a <= b -> era_year a <= era_year b.
Proof.
  intros [Ha Hb]. replace b with (a + Z.of_nat (Z.to_nat (b - a))) by lia.
  induction (Z.to_nat (b - a)) as [|n IH]; [by rewrite Z.add_0_r|].
  etrans; [exact IH|]. replace (a + Z.of_nat (S n)) with (a + Z.of_nat n + 1) by lia. apply era_year_step. lia.
Qed.

(** The first and the last day of each year. *)
Lemma era_year_bounds y : 0 <= y < 400 -> era_year (era_start y) = y /\ era_year (era_start (y + 1) - 1) = y.
Proof.
  intros Hy.
  pose proof (forallb_upto (fun y => Z.eqb (era_year (era_start y)) y && Z.eqb (era_year (era_start (y + 1) - 1)) y)
    400 ltac:(vm_compute; reflexivity) y ltac:(lia)) as Hb.
  apply andb_true_iff in Hb as [H1 H2]. split; by apply Z.eqb_eq.
Qed.

Lemma era_year_spec doe : 0 <= doe < 146097 ->
  0 <= era_year doe < 400 /\ era_start (era_year doe) <= doe < era_start (era_year doe + 1).
Proof.
  intros Hd. assert (Hr : 0 <= era_year doe < 400).
  { pose proof (era_year_mono 0 doe ltac:(lia)). pose proof (era_year_mono doe 146096 ltac:(lia)) as Hm.
    change (era_year 146096) with 399 in Hm. change (era_year 0) with 0 in *. lia. }
  split; [done|]. remember (era_year doe) as y eqn:Hyd.
  assert (Hpos : forall n, 0 <= n -> 0 <= era_start n) by (intros n Hn; unfold era_start; Z.to_euclidean_division_equations; lia).
  destruct (Z_lt_le_dec doe (era_start y)) as [Hlt|Hge].
  - destruct (decide (y = 0)) as [H0|Hne]; [rewrite H0 in Hlt; change (era_start 0) with 0 in Hlt; lia|].
    pose proof (era_year_bounds (y - 1) ltac:(lia)) as [_ Hlast]. replace (y - 1 + 1) with y in Hlast by lia.
    pose proof (era_year_mono doe (era_start y - 1) ltac:(lia)). lia.
  - split; [done|]. destruct (Z_lt_le_dec doe (era_start (y + 1))) as [|Hover]; [done|]. exfalso.
    destruct (decide (y = 399)) as [H399|Hne]; [rewrite H399 in Hover; change (era_start (399 + 1)) with 146097 in Hover; lia|].
    pose proof (era_year_bounds (y + 1) ltac:(lia)) as [Hfirst _].
    pose proof (era_year_mono (era_start (y + 1)) doe ltac:(split; [apply Hpos|]; lia)). lia.
Qed.

(** *** Months, by the leap flag of the date's year *)

Definition month_len (b : bool) (m : Z) : Z :=
  if decide (m = 2) then if b then 29 else 28
  else if decide (m = 4 \/ m = 6 \/ m = 9 \/ m = 11) then 30 else 31.
Definition before_month (b : bool) (m : Z) : Z := foldr (fun k acc => month_len b k + acc) 0 (seqZ 1 (m - 1)).

Definition month_of (doy : Z) : Z := let mp := Z.quot (5 * doy + 2) 153 in if decide (mp < 10) then mp + 3 else mp - 9.
Definition day_of (doy : Z) : Z := let mp := Z.quot (5 * doy + 2) 153 in doy - Z.quot (153 * mp + 2) 5 + 1.

Definition month_ok (b : bool) (doy : Z) : bool :=
  let m := month_of doy in
  let d := day_of doy in
  bool_decide (1 <= m <= 12) && bool_decide (1 <= d) &&
  (bool_decide (doy = 365) && negb b || bool_decide (d <= month_len b m)) &&
  bool_decide (before_month b m + d - 1 = if decide (m <= 2) then doy - 306 else doy + 59 + (if b then 1 else 0)).

Lemma months_ok b doy : 0 <= doy < 366 -> month_ok b doy = true.
Proof.
  intros Hd. destruct b; [apply (forallb_upto (month_ok true) 366)|apply (forallb_upto (month_ok false) 366)];
    (lia || (vm_compute; reflexivity)).
Qed.

Lemma leap_days y : (if leap y then 1 else 0) = (y / 4 - (y - 1) / 4) - (y / 100 - (y - 1) / 100) + (y / 400 - (y - 1) / 400).
Proof.
  unfold leap. repeat case_bool_decide; cbn; Z.to_euclidean_division_equations; lia.
Qed.

Lemma wire_date_split days : 0 <= days + 719468 < 146097 ->
  let doe := days + 719468 in
  let y := era_year doe in
  let doy := doe - era_start y in
  wire_date days = (if decide (month_of doy <= 2) then y + 1 else y, month_of doy, day_of doy) /\ 0 <= y /\
  (0 <= doy < 366) /\ (doy = 365 -> leap (y + 1) = true).
Proof.
  intros Hd. cbv zeta. destruct (era_year_spec (days + 719468) Hd) as [Hy Hb].
  unfold wire_date. rewrite Z.div_small, Z.mod_small by done. cbv zeta.
  change (Z.quot (_ - _ + _ - _) 365) with (era_year (days + 719468)). set (y := era_year (days + 719468)) in *.
  replace (365 * y + Z.quot y 4 - Z.quot y 100) with (era_start y)
    by (unfold era_start; Z.to_euclidean_division_equations; lia).
  replace (y + 0 * 400) with y by lia. set (doy := days + 719468 - era_start y).
  split; [done|]. split; [lia|].
  pose proof (leap_days (y + 1)) as Hl. replace (y + 1 - 1) with y in Hl by lia.
  assert (Hnext : era_start (y + 1) = era_start y + 365 + (if leap (y + 1) then 1 else 0)) by (unfold era_start; lia).
  unfold doy. split; [destruct (leap (y + 1)); lia|]. destruct (leap (y + 1)); [done|lia].
Qed.

Lemma wire_date_ok_era days : 0 <= days + 719468 < 146097 ->
  days_from_civil (wire_date days) = days /\ valid_date (wire_date days) = true.
Proof.
  intros Hd. destruct (wire_date_split days Hd) as (-> & Hy0 & Hdoy & Hleap).
  set (y := era_year (days + 719468)) in *. set (doy := days + 719468 - era_start y) in *.
  set (y' := if decide (month_of doy <= 2) then y + 1 else y).
  pose proof (months_ok (leap y') doy Hdoy) as Hm. unfold month_ok in Hm. rewrite !andb_true_iff, orb_true_iff, andb_true_iff in Hm.
  destruct Hm as (((Hm12 & Hd1) & Hdlen) & Hsum). apply bool_decide_eq_true in Hm12, Hd1, Hsum.
  unfold days_from_civil, valid_date. change (days_before_month y' (month_of doy)) with (before_month (leap y') (month_of doy)).
  change (month_length y' (month_of doy)) with (month_len (leap y') (month_of doy)).
  pose proof (leap_days y). unfold y' in *. split.
  - unfold days_before_year. unfold doy, era_start in *. case_decide; [replace (y + 1 - 1) with y by lia|]; lia.
  - rewrite bool_decide_eq_true_2 by done. apply bool_decide_eq_true_2. split; [done|].
    destruct Hdlen as [[H365 Hn]|Hle]; [|by apply bool_decide_eq_true in Hle].
    apply bool_decide_eq_true in H365. rewrite H365 in Hn. change (month_of 365) with 2 in Hn.
    rewrite decide_True in Hn by lia. by rewrite (Hleap H365) in Hn.
Qed.

Lemma wire_date_ok days : days_from_civil (wire_date days) = days /\ valid_date (wire_date days) = true.
Proof.
  pose (e := (days + 719468) / 146097). pose (r := (days + 719468) mod 146097 - 719468).
  assert (Hd : days = r + e * 146097) by (unfold r, e; rewrite Z.mod_eq by lia; lia).
  destruct (wire_date_ok_era r) as [H1 H2].
  { pose proof (Z.mod_pos_bound (days + 719468) 146097 ltac:(lia)). unfold r. lia. }
  rewrite Hd, wire_date_era, days_from_civil_era, valid_date_era, H1. done.
Qed.

(** Both date conversions of the relay (audit timestamps and device wire
    times) give, for every day before or after the epoch, the one valid
    proleptic-Gregorian date that many days from 1970-01-01. *)
Theorem civil_dates_correct (days : Z) :
  civil_from_days days = wire_date days /\
  days_from_civil (civil_from_days days) = days /\ valid_date (civil_from_days days) = true.
Proof. rewrite civil_is_wire. split; [done|]. apply wire_date_ok. Qed.

End Civil.
