(* ===== verification/GoJson.v ===== *)
(** * Go-compatible JSON text and numbers

    [lerdr-core/src/json.rs]'s [to_vec] on a [serde_json::Value], and the
    floating-point readings of a JSON number the protocol and audit layers
    use.  Printing a non-integral float is serde_json's own (class
    [FloatText]). *)

From S2P Require Import Prelude Utf8 JsonText Json.
Import Utf8 JsonText Json.

Module GoJson.

Class FloatText := { float_text : Z -> list Z }.

Fixpoint join (sep : list Z) (parts : list (list Z)) : list Z :=
  match parts with
  | [] => []
  | [p] => p
  | p :: rest => p ++ sep ++ join sep rest
  end.

Section Text.
Context `{FloatText}.

(** The characters [to_vec] writes: compact, one literal per string (the text
    of [GoFormatter], see [JsonText]), objects in key order. *)
Fixpoint value_text (v : json) : list Z :=
  match v with
  | JNull => lit "null"
  | JBool b => lit (if b then "true" else "false")
  | JNumber (PosInt z) => as_bytes (decimal z)
  | JNumber (NegInt z) => 45 :: as_bytes (decimal (- z))
  | JNumber (Float bits) => float_text bits
  | JString s => escape_string [] (Utf8.chars s)
  | JArray items => [91] ++ join [44] (value_text <$> items) ++ [93]
  | JObject ms =>
      [123] ++ join [44] ((fun m => escape_string [] (Utf8.chars m.1) ++ [58] ++ value_text m.2) <$> ms) ++ [125]
  end.

Definition to_vec (v : json) : bytes := utf8_encode (value_text v).

Definition member_text (m : string * json) : list Z := escape_string [] (Utf8.chars m.1) ++ [58] ++ value_text m.2.

(** [to_vec] of a [BTreeMap<String, Value>]. *)
Definition map_to_vec (m : gmap string json) : bytes := to_vec (JObject (btree_list m)).

End Text.

(** ** Numbers

    [f64] of a JSON number, as far as integrality sees it: [None] is a value
    with a fraction. *)

(** Rounding a nonnegative integer to the nearest [f64], ties to even. *)
Definition round_f64 (z : Z) : Z :=
  if decide (z < 2 ^ 53) then z
  else
    let s := Z.log2 z - 52 in
    let q := z / 2 ^ s in
    let r := z mod 2 ^ s in
    let half := 2 ^ (s - 1) in
    let q' := if decide (half < r \/ (r = half /\ Z.odd q = true)) then q + 1 else q in
    q' * 2 ^ s.

(** The integer a finite [f64] with these bits is, if it is one. *)
Definition float_int (bits : Z) : option Z :=
  let sign := if Z.testbit bits 63 then -1 else 1 in
  let e := Z.shiftr bits 52 mod 2048 in
  let frac := bits mod 2 ^ 52 in
  let '(m, x) := if decide (e = 0) then (frac, -1074) else (frac + 2 ^ 52, e - 1075) in
  if decide (e = 2047) then None
  else if decide (0 <= x) then Some (sign * (m * 2 ^ x))
  else if decide (m mod 2 ^ (- x) = 0) then Some (sign * (m / 2 ^ (- x))) else None.

(** [n.as_f64()] when it has no fraction. *)
Definition as_f64_int (n : number) : option Z :=
  match n with
  | PosInt z => Some (round_f64 z)
  | NegInt z => Some (- round_f64 (- z))
  | Float bits => float_int bits
  end.

(** Rewriting every number of a value ([values_mut().for_each]). *)
Fixpoint map_numbers (f : number -> json) (v : json) : json :=
  match v with
  | JNumber n => f n
  | JArray items => JArray (map_numbers f <$> items)
  | JObject ms => JObject ((fun m => (m.1, map_numbers f m.2)) <$> ms)
  | _ => v
  end.

Example float_250 : float_int 0x406F400000000000 = Some 250.
Proof. reflexivity. Qed.
Example float_half : float_int 0x3FE0000000000000 = None.
Proof. reflexivity. Qed.
Example float_minus_zero : float_int 0x8000000000000000 = Some 0.
Proof. reflexivity. Qed.
Example round_above_2_53 : round_f64 9007199254740993 = 2 ^ 53.
Proof. reflexivity. Qed.

(** ** Lengths of object texts *)

Definition sum (l : list nat) : nat := foldr Nat.add 0%nat l.

Lemma utf8_encode_length_app a b :
  length (utf8_encode (a ++ b)) = (length (utf8_encode a) + length (utf8_encode b))%nat.
Proof. by rewrite utf8_encode_app, length_app. Qed.

Lemma join_length parts :
  length (utf8_encode (join [44] parts)) =
  (sum ((fun p => length (utf8_encode p)) <$> parts) + (length parts - 1))%nat.
Proof.
  induction parts as [|p rest IH]; [done|]. destruct rest as [|p' rest].
  - cbn [join fmap list_fmap sum foldr length]. lia.
  - change (join [44] (p :: p' :: rest)) with (p ++ [44] ++ join [44] (p' :: rest)).
    rewrite !utf8_encode_length_app, IH. change (length (utf8_encode [44])) with 1%nat.
    cbn [fmap list_fmap sum foldr length]. lia.
Qed.

Lemma sum_cons x l : sum (x :: l) = (x + sum l)%nat.
Proof. done. Qed.

Lemma sum_Permutation l k : l ≡ₚ k -> sum l = sum k.
Proof. unfold sum. induction 1; simpl; lia. Qed.

Section Lengths.
Context `{FloatText}.

Definition member_len (m : string * json) : nat := length (utf8_encode (member_text m)).

Lemma map_to_vec_length (m : gmap string json) :
  length (map_to_vec m) = (2 + sum (member_len <$> map_to_list m) + (size m - 1))%nat.
Proof.
  unfold map_to_vec, to_vec. cbn [value_text]. rewrite !utf8_encode_length_app, join_length, <- list_fmap_compose, length_fmap.
  change (length (utf8_encode [123])) with 1%nat. change (length (utf8_encode [125])) with 1%nat.
  rewrite (sum_Permutation _ (member_len <$> map_to_list m)) by (apply fmap_Permutation, btree_list_perm).
  rewrite (Permutation_length (btree_list_perm m)), length_map_to_list. lia.
Qed.

(** Removing a member never lengthens the text. *)
Lemma map_to_vec_delete (m : gmap string json) k : (length (map_to_vec (delete k m)) <= length (map_to_vec m))%nat.
Proof.
  destruct (m !! k) as [v|] eqn:Hk; [|by rewrite delete_id].
  rewrite !map_to_vec_length. pose proof (map_to_list_delete m k v Hk) as Hp.
  rewrite <- (sum_Permutation _ _ (fmap_Permutation member_len _ _ Hp)).
  rewrite (map_size_delete_Some k m) by eauto. rewrite fmap_cons.
  rewrite sum_cons. lia.
Qed.

End Lengths.

End GoJson.
