(* ===== verification/Inbound.v ===== *)
(** * Inbound messages

    [lerdr-core/src/protocol/inbound.rs]: the flat client-to-server action
    message, its decoding from a parsed JSON object (missing and null fields
    take the zero value, integral floats read as integers, the "command"
    envelope takes its type from "action") and the raw accessors. *)

From S2P Require Import Prelude Utf8 JsonText Json JsonWire GoJson.
Import Utf8 JsonText Json JsonWire GoJson.

Module Inbound.

Record TargetRef := mkTarget {
  t_server_session_id : string;
  t_pane_id : string;
  t_terminal_id : string;
  t_generation : Z;
  t_agent_session_id : string;
  t_workspace_id : string;
  t_tab_id : string;
}.

Inductive DecodeError := Invalid | MissingType.

Record Inbound := mkInbound {
  in_type : string;
  in_protocol : Z;
  in_request_id : string;
  in_target : option TargetRef;
  in_action_id : string;
  in_server_session_id : string;
  in_session_id : string;
  in_pane_id : string;
  in_text : string;
  in_name : string;
  in_device_id : string;
  in_role : string;
  in_locale : string;
  in_profile_id : string;
  in_label : string;
  in_workspace_id : string;
  in_workspace_ids : list string;
  in_expected_workspace_ids : list string;
  in_close_group : bool;
  in_before_workspace_id : string;
  in_branch : string;
  in_base : string;
  in_force : bool;
  in_cwd : string;
  in_prompt : string;
  in_event_id : string;
  in_approval_fingerprint : string;
  in_choice : string;
  in_interaction_id : string;
  in_insert_index : option Z;
  in_index : option Z;
  in_total : option Z;
  in_keys : list string;
  in_selected_indices : list Z;
  in_other_selected : bool;
  in_other_text : string;
  in_direction : string;
  in_lines : Z;
  in_before : string;
  in_cursor : string;
  in_retry : bool;
  in_limit : Z;
  in_columns : Z;
  in_rows : Z;
  in_format : string;
  in_path : string;
  in_filename : string;
  in_mime : string;
  in_data : string;
  in_client_id : string;
  in_replace_endpoints : list string;
  in_notify_finished : bool;
  in_endpoints : list string;
  in_origin : string;
  in_expected_origin : string;
  in_expected_version : string;
  in_expected_revision : string;
  in_subscription : option json;
  in_policy : option json;
  in_event_ref : string;
  in_snooze_until : string;
  in_snoozed : bool;
  in_visible : bool;
  in_unlocked : bool;
  in_capabilities : list string;
  raw_fields : list (string * json);
}.

(** ** Field decoders

    [de_default] (the zero value for a missing or null field), [de_str_loose]
    and [raw_field]; strings and integers are [JsonWire.de_string] and
    [JsonWire.de_i64]. *)

Definition de_bool (f : option json) : option bool :=
  match f with None | Some JNull => Some false | Some v => as_bool v end.
Definition de_strings (f : option json) : option (list string) :=
  match f with
  | None | Some JNull => Some []
  | Some (JArray items) => mapM as_str items
  | Some _ => None
  end.
Definition de_ints (f : option json) : option (list Z) :=
  match f with
  | None | Some JNull => Some []
  | Some (JArray items) => mapM as_i64 items
  | Some _ => None
  end.
Definition de_opt_i64 (f : option json) : option (option Z) :=
  match f with None | Some JNull => Some None | Some v => Some <$> as_i64 v end.
Definition de_str_loose (f : option json) : option string :=
  Some (match f with Some (JString s) => s | _ => ""%string end).
(** A [RawMessage] field keeps null as a value. *)
Definition raw_field (f : option json) : option (option json) := Some f.

Definition target_fields : list string :=
  ["server_session_id"; "pane_id"; "terminal_id"; "generation"; "agent_session_id"; "workspace_id"; "tab_id"]%string.

Definition de_target (f : option json) : option (option TargetRef) :=
  match f with
  | None | Some JNull => Some None
  | Some v =>
      fs ← de_struct target_fields v;
      match fs with
      | [a; b; c; d; e; g; h] =>
          a ← de_string a; b ← de_string b; c ← de_string c; d ← de_i64 d; e ← de_string e;
          g ← de_string g; h ← de_string h;
          Some (Some (mkTarget a b c d e g h))
      | _ => None
      end
  end.

(** ** The typed decode *)

Definition de_inbound (o : list (string * json)) : option Inbound :=
  in_type ← de_string (obj_get o "type");
  in_protocol ← de_i64 (obj_get o "protocol");
  in_request_id ← de_string (obj_get o "request_id");
  in_target ← de_target (obj_get o "target");
  in_action_id ← de_string (obj_get o "action_id");
  in_server_session_id ← de_string (obj_get o "server_session_id");
  in_session_id ← de_string (obj_get o "session_id");
  in_pane_id ← de_string (obj_get o "pane_id");
  in_text ← de_string (obj_get o "text");
  in_name ← de_string (obj_get o "name");
  in_device_id ← de_string (obj_get o "device_id");
  in_role ← de_string (obj_get o "role");
  in_locale ← de_string (obj_get o "locale");
  in_profile_id ← de_string (obj_get o "profile_id");
  in_label ← de_string (obj_get o "label");
  in_workspace_id ← de_string (obj_get o "workspace_id");
  in_workspace_ids ← de_strings (obj_get o "workspace_ids");
  in_expected_workspace_ids ← de_strings (obj_get o "expected_workspace_ids");
  in_close_group ← de_bool (obj_get o "close_group");
  in_before_workspace_id ← de_string (obj_get o "before_workspace_id");
  in_branch ← de_string (obj_get o "branch");
  in_base ← de_string (obj_get o "base");
  in_force ← de_bool (obj_get o "force");
  in_cwd ← de_string (obj_get o "cwd");
  in_prompt ← de_string (obj_get o "prompt");
  in_event_id ← de_string (obj_get o "event_id");
  in_approval_fingerprint ← de_string (obj_get o "approval_fingerprint");
  in_choice ← de_string (obj_get o "choice");
  in_interaction_id ← de_string (obj_get o "interaction_id");
  in_insert_index ← de_opt_i64 (obj_get o "insert_index");
  in_index ← de_opt_i64 (obj_get o "index");
  in_total ← de_opt_i64 (obj_get o "total");
  in_keys ← de_strings (obj_get o "keys");
  in_selected_indices ← de_ints (obj_get o "selected_indices");
  in_other_selected ← de_bool (obj_get o "other_selected");
  in_other_text ← de_string (obj_get o "other_text");
  in_direction ← de_string (obj_get o "direction");
  in_lines ← de_i64 (obj_get o "lines");
  in_before ← de_string (obj_get o "before");
  in_cursor ← de_str_loose (obj_get o "cursor");
  in_retry ← de_bool (obj_get o "retry");
  in_limit ← de_i64 (obj_get o "limit");
  in_columns ← de_i64 (obj_get o "columns");
  in_rows ← de_i64 (obj_get o "rows");
  in_format ← de_string (obj_get o "format");
  in_path ← de_string (obj_get o "path");
  in_filename ← de_string (obj_get o "filename");
  in_mime ← de_string (obj_get o "mime");
  in_data ← de_string (obj_get o "data");
  in_client_id ← de_string (obj_get o "client_id");
  in_replace_endpoints ← de_strings (obj_get o "replace_endpoints");
  in_notify_finished ← de_bool (obj_get o "notify_finished");
  in_endpoints ← de_strings (obj_get o "endpoints");
  in_origin ← de_string (obj_get o "origin");
  in_expected_origin ← de_string (obj_get o "expected_origin");
  in_expected_version ← de_string (obj_get o "expected_version");
  in_expected_revision ← de_string (obj_get o "expected_revision");
  in_subscription ← raw_field (obj_get o "subscription");
  in_policy ← raw_field (obj_get o "policy");
  in_event_ref ← de_string (obj_get o "event_ref");
  in_snooze_until ← de_string (obj_get o "snooze_until");
  in_snoozed ← de_bool (obj_get o "snoozed");
  in_visible ← de_bool (obj_get o "visible");
  in_unlocked ← de_bool (obj_get o "unlocked");
  in_capabilities ← de_strings (obj_get o "capabilities");
  Some (mkInbound in_type in_protocol in_request_id in_target in_action_id in_server_session_id in_session_id
    in_pane_id in_text in_name in_device_id in_role in_locale in_profile_id in_label in_workspace_id
    in_workspace_ids in_expected_workspace_ids in_close_group in_before_workspace_id in_branch in_base
    in_force in_cwd in_prompt in_event_id in_approval_fingerprint in_choice in_interaction_id
    in_insert_index in_index in_total in_keys in_selected_indices in_other_selected in_other_text
    in_direction in_lines in_before in_cursor in_retry in_limit in_columns in_rows in_format in_path
    in_filename in_mime in_data in_client_id in_replace_endpoints in_notify_finished in_endpoints
    in_origin in_expected_origin in_expected_version in_expected_revision in_subscription in_policy
    in_event_ref in_snooze_until in_snoozed in_visible in_unlocked in_capabilities []).

Definition set_type (m : Inbound) (t : string) : Inbound :=
  mkInbound t (in_protocol m) (in_request_id m) (in_target m) (in_action_id m) (in_server_session_id m) (in_session_id m)
    (in_pane_id m) (in_text m) (in_name m) (in_device_id m) (in_role m) (in_locale m) (in_profile_id m) (in_label
    m) (in_workspace_id m) (in_workspace_ids m) (in_expected_workspace_ids m) (in_close_group m)
    (in_before_workspace_id m) (in_branch m) (in_base m) (in_force m) (in_cwd m) (in_prompt m) (in_event_id m)
    (in_approval_fingerprint m) (in_choice m) (in_interaction_id m) (in_insert_index m) (in_index m) (in_total m)
    (in_keys m) (in_selected_indices m) (in_other_selected m) (in_other_text m) (in_direction m) (in_lines m)
    (in_before m) (in_cursor m) (in_retry m) (in_limit m) (in_columns m) (in_rows m) (in_format m) (in_path m)
    (in_filename m) (in_mime m) (in_data m) (in_client_id m) (in_replace_endpoints m) (in_notify_finished m)
    (in_endpoints m) (in_origin m) (in_expected_origin m) (in_expected_version m) (in_expected_revision m)
    (in_subscription m) (in_policy m) (in_event_ref m) (in_snooze_until m) (in_snoozed m) (in_visible m)
    (in_unlocked m) (in_capabilities m)
    (raw_fields m).

Definition set_raw (m : Inbound) (raw : list (string * json)) : Inbound :=
  mkInbound (in_type m) (in_protocol m) (in_request_id m) (in_target m) (in_action_id m) (in_server_session_id m) (in_session_id m)
    (in_pane_id m) (in_text m) (in_name m) (in_device_id m) (in_role m) (in_locale m) (in_profile_id m) (in_label
    m) (in_workspace_id m) (in_workspace_ids m) (in_expected_workspace_ids m) (in_close_group m)
    (in_before_workspace_id m) (in_branch m) (in_base m) (in_force m) (in_cwd m) (in_prompt m) (in_event_id m)
    (in_approval_fingerprint m) (in_choice m) (in_interaction_id m) (in_insert_index m) (in_index m) (in_total m)
    (in_keys m) (in_selected_indices m) (in_other_selected m) (in_other_text m) (in_direction m) (in_lines m)
    (in_before m) (in_cursor m) (in_retry m) (in_limit m) (in_columns m) (in_rows m) (in_format m) (in_path m)
    (in_filename m) (in_mime m) (in_data m) (in_client_id m) (in_replace_endpoints m) (in_notify_finished m)
    (in_endpoints m) (in_origin m) (in_expected_origin m) (in_expected_version m) (in_expected_revision m)
    (in_subscription m) (in_policy m) (in_event_ref m) (in_snooze_until m) (in_snoozed m) (in_visible m)
    (in_unlocked m) (in_capabilities m)
    raw.

(** The largest magnitude a float may have to be read as an integer. *)
Definition MAX_SAFE_INT : Z := 2 ^ 53 - 1.

(** [normalize_numbers]. *)
Definition normalize_number (n : number) : json :=
  match as_f64_int n with
  | Some z => if decide (Z.abs z <= MAX_SAFE_INT) then json_int z else JNumber n
  | None => JNumber n
  end.
Definition normalize_numbers : json -> json := map_numbers normalize_number.

(** [decode_map]: the map is normalised and read through its own text, which
    gives the normalised values back; the command envelope is rewritten last. *)
Definition decode_map (raw : list (string * json)) : result DecodeError Inbound :=
  let normalized := (fun m : string * json => (m.1, normalize_numbers m.2)) <$> raw in
  match de_inbound normalized with
  | None => Err Invalid
  | Some message =>
      let message := set_raw message raw in
      let message :=
        match obj_get raw "action" ≫= as_str with
        | Some action =>
            if negb (bool_decide (action = ""%string)) &&
               (bool_decide (in_type message = ""%string) || bool_decide (in_type message = "command"%string))
            then set_type message action else message
        | None => message
        end in
      if bool_decide (in_type message = ""%string) then Err MissingType else Ok message
  end.

(** [serde_json::from_slice::<Map<_, _>>]: an object, a repeated key keeping
    its last value. *)
Fixpoint to_value (v : json) : json :=
  match v with
  | JArray items => JArray (to_value <$> items)
  | JObject ms => JObject (foldl (fun o m => obj_insert o m.1 m.2) [] ((fun m => (m.1, to_value m.2)) <$> ms))
  | _ => v
  end.

Definition from_slice_map `{WireJson} (plaintext : bytes) : option (list (string * json)) :=
  match to_value <$> from_slice plaintext with Some (JObject o) => Some o | _ => None end.

Definition decode `{WireJson} (b : bytes) : result DecodeError Inbound :=
  match from_slice_map b with Some raw => decode_map raw | None => Err Invalid end.

(** ** Raw accessors *)

Definition raw (m : Inbound) (key : string) : option json := obj_get (raw_fields m) key.
Definition raw_str (m : Inbound) (key : string) : option string := raw m key ≫= as_str.
Definition raw_int (m : Inbound) (key : string) : option Z :=
  v ← raw m key;
  match v with
  | JNumber n =>
      match as_i64 v with
      | Some z => Some z
      | None => z ← as_f64_int n; if decide (Z.abs z <= MAX_SAFE_INT) then Some z else None
      end
  | _ => None
  end.
Definition content_fingerprint (m : Inbound) : option string := raw_str m "content_fingerprint".
Definition interval_ms (m : Inbound) : option Z := raw_int m "interval_ms".

Example float_field :
  (in_lines <$> match decode_map [("lines", JNumber (Float 0x4054000000000000)); ("type", JString "watch_pane")]%string with
                | Ok m => Some m | Err _ => None end) = Some 80.
Proof. vm_compute. reflexivity. Qed.
Example command_envelope :
  (in_type <$> match decode_map [("action", JString "submit_prompt"); ("type", JString "command")]%string with
               | Ok m => Some m | Err _ => None end) = Some "submit_prompt"%string.
Proof. vm_compute. reflexivity. Qed.
Example missing_type : match decode_map [("protocol", JNumber (PosInt 3))]%string with Err MissingType => true | _ => false end = true.
Proof. vm_compute. reflexivity. Qed.

(** ** What a successful decode says *)

Lemma decode_map_Ok raw m :
  decode_map raw = Ok m ->
  in_type m <> ""%string /\ raw_fields m = raw /\
  exists t0, de_inbound ((fun m : string * json => (m.1, normalize_numbers m.2)) <$> raw) = Some t0 /\
    (m = set_raw t0 raw \/
     exists action, obj_get raw "action" = Some (JString action) /\ action <> ""%string /\
       (in_type t0 = ""%string \/ in_type t0 = "command"%string) /\ m = set_type (set_raw t0 raw) action).
Proof.
  unfold decode_map. destruct (de_inbound _) as [t0|] eqn:Ht0; [|done]. cbv zeta.
  destruct (obj_get raw "action" ≫= as_str) as [action|] eqn:Ha.
  - assert (Hg : obj_get raw "action" = Some (JString action)).
    { destruct (obj_get raw "action") as [v|]; [|done]. destruct v; try discriminate Ha. by injection Ha as ->. }
    destruct (negb _ && _) eqn:Hc.
    + apply andb_true_iff in Hc as [Hn Ho]. apply negb_true_iff, bool_decide_eq_false in Hn.
      match goal with |- context [bool_decide ?P] => destruct (bool_decide P) eqn:Ht end; [discriminate|].
      apply bool_decide_eq_false in Ht. intros Heq. injection Heq as <-. split; [exact Ht|]. split; [done|].
      exists t0. split; [done|]. right. exists action. split; [done|]. split; [done|]. split; [|done].
      apply orb_true_iff in Ho as [Ho|Ho]; apply bool_decide_eq_true in Ho; [by left|by right].
    + match goal with |- context [bool_decide ?P] => destruct (bool_decide P) eqn:Ht end; [discriminate|].
      apply bool_decide_eq_false in Ht. intros Heq. injection Heq as <-. split; [exact Ht|]. split; [done|]. exists t0. split; [done|by left].
  - match goal with |- context [bool_decide ?P] => destruct (bool_decide P) eqn:Ht end; [discriminate|].
      apply bool_decide_eq_false in Ht. intros Heq. injection Heq as <-. split; [exact Ht|]. split; [done|]. exists t0. split; [done|by left].
Qed.

End Inbound.
