(* ===== verification/Protocol.v ===== *)
(** * Protocol vocabulary

    [lerdr-core/src/protocol/types.rs] and the response constructors of
    [protocol/outbound.rs]: the action catalog and the gates read from it, the
    bounded [ApiError], request scopes, and the messages the session layer
    answers with. *)

From S2P Require Import Prelude Utf8 JsonText Json JsonWire GoJson Inbound UploadBinary.
Import Utf8 JsonText Json JsonWire GoJson Inbound.

Module Protocol.

Definition VERSION : Z := 3.

Definition CAPABILITIES : list string :=
  ["attention_classification"; "clear_activities"; "directory_browser"; "workspace_management";
   "worktree_management"; "self_update"; "structured_questions"; "slash_commands"; "conversation_history";
   "pane_size_lease"; "pane_size_lease_rows"; "workspace_inspection"; "semantic_input"; "secret_input";
   "invitation_qr"; "typed_push"; "push_policy"; "device_management"; "pane_realtime_delta"; "tab_reorder";
   "workspace_reorder_block"; "speech_synthesis"; "speech_voice_management"; "focus"; "pane_search";
   "pane_links"; "layout"; "convo_sub"; "frame_zstd"; "upload_binary"]%string.

Definition INVALID_REQUEST : string := "invalid_request".
Definition UNKNOWN_ACTION : string := "unknown_action".
Definition INCOMPATIBLE_PROTOCOL : string := "incompatible_protocol".
Definition READER_DENIED : string := "reader_denied".
Definition CAPABILITY_UNSUPPORTED : string := "capability_unsupported".

Definition CONFIRMED : string := "confirmed".
Definition FAILED_BEFORE_DISPATCH : string := "failed_before_dispatch".
Definition DISPATCHED_UNKNOWN : string := "dispatched_unknown".

(** ** The action catalog *)

Inductive ActionClass := ReadOnly | Mutating.

#[export] Instance class_eq_dec : EqDecision ActionClass.
Proof. solve_decision. Defined.

Record ActionMetadata := mkAction {
  operation : string;
  class : ActionClass;
  a_requires_protocol : bool;
  coordinated : bool;
  audited : bool;
}.

Definition read_action (op : string) : ActionMetadata := mkAction op ReadOnly false false false.
Definition mutate_action (op : string) (coordinated audited : bool) : ActionMetadata :=
  mkAction op Mutating true coordinated audited.
Definition mutate_action_unversioned (op : string) (coordinated audited : bool) : ActionMetadata :=
  mkAction op Mutating false coordinated audited.

Definition catalog : list (string * ActionMetadata) :=
  [("acknowledge_pane", mutate_action "acknowledge_pane" true false);
   ("agent_clear", mutate_action "agent_clear" true true);
   ("agent_rename", mutate_action "agent_rename" true true);
   ("agent_restart", mutate_action "agent_restart" true true);
   ("agent_start", mutate_action "agent_start" true true);
   ("agent_stop", mutate_action "agent_stop" true true);
   ("answer_question", mutate_action "answer_question" true true);
   ("cancel_speech", read_action "cancel_speech");
   ("caps_update", read_action "caps_update");
   ("check_update", read_action "check_update");
   ("clarify_question", mutate_action "clarify_question" true true);
   ("clear_activities", mutate_action "clear_activities" false false);
   ("client_caps", read_action "client_caps");
   ("copy_agent_response", mutate_action "copy_agent_response" false false);
   ("deploy_app_update", mutate_action "deploy_app_update" false false);
   ("create_device_invitation", mutate_action "create_device_invitation" false true);
   ("device_list", read_action "device_list");
   ("focus_agent", mutate_action "focus_agent" true false);
   ("focus_pane", mutate_action "focus_pane" true false);
   ("focus_tab", mutate_action "focus_tab" true false);
   ("focus_workspace", mutate_action "focus_workspace" true false);
   ("get_activity", read_action "get_activity");
   ("get_conversation_history", read_action "get_conversation_history");
   ("install_update", mutate_action_unversioned "install_update" false false);
   ("lease_pane_size", mutate_action "lease_pane_size" true false);
   ("list_directories", read_action "list_directories");
   ("list_slash_commands", read_action "list_slash_commands");
   ("layout_apply", mutate_action "layout_apply" true true);
   ("layout_export", read_action "layout_export");
   ("navigate_question", mutate_action "navigate_question" true true);
   ("pane_applied", read_action "pane_applied");
   ("pane_link_activate", mutate_action "pane_link_activate" true false);
   ("pane_link_resolve", read_action "pane_link_resolve");
   ("pane_search", read_action "pane_search");
   ("pane_selection_read", read_action "pane_selection_read");
   ("push_open_ref", read_action "push_open_ref");
   ("push_policy_get", read_action "push_policy_get");
   ("push_policy_set", mutate_action "push_policy_set" false false);
   ("push_snooze", mutate_action "push_snooze" false false);
   ("push_subscribe", mutate_action "push_subscribe" false false);
   ("push_test_device", mutate_action "push_test_device" false true);
   ("push_unsubscribe", mutate_action "push_unsubscribe" false false);
   ("push_viewed_pane", mutate_action "push_viewed_pane" false false);
   ("qr_code", read_action "qr_code");
   ("read_pane", read_action "read_pane");
   ("refresh_agents", read_action "refresh_agents");
   ("register_app_origin", mutate_action "register_app_origin" false false);
   ("release_pane_size", mutate_action "release_pane_size" true false);
   ("rename_device", mutate_action "rename_device" false true);
   ("respond", mutate_action "respond" true true);
   ("send_keys", mutate_action "send_keys" true true);
   ("send_input", mutate_action "send_input" true true);
   ("send_secret", mutate_action "send_secret" true true);
   ("reset_devices", mutate_action "reset_devices" false true);
   ("revoke_device", mutate_action "revoke_device" false true);
   ("send_text", mutate_action "send_text" true true);
   ("speak_text", read_action "speak_text");
   ("speech_voice_install", mutate_action "speech_voice_install" false true);
   ("speech_voice_remove", mutate_action "speech_voice_remove" false true);
   ("speech_voices_list", read_action "speech_voices_list");
   ("subscribe_conversation", read_action "subscribe_conversation");
   ("submit_prompt", mutate_action "submit_prompt" true true);
   ("tab_reorder", mutate_action "tab_reorder" true true);
   ("unsubscribe_conversation", read_action "unsubscribe_conversation");
   ("unwatch_pane", read_action "unwatch_pane");
   ("upload_begin", mutate_action "upload_begin" false true);
   ("upload_cancel", mutate_action "upload_cancel" false true);
   ("upload_chunk", mutate_action "upload_chunk" false true);
   ("upload_finish", mutate_action "upload_finish" false true);
   ("watch_pane", read_action "watch_pane");
   ("webrtc_close", read_action "webrtc_close");
   ("webrtc_ice", read_action "webrtc_ice");
   ("webrtc_offer", read_action "webrtc_offer");
   ("workspace_close", mutate_action "workspace_close" true true);
   ("workspace_create", mutate_action "workspace_create" true true);
   ("workspace_file", read_action "workspace_file");
   ("workspace_git_diff", read_action "workspace_git_diff");
   ("workspace_git_status", read_action "workspace_git_status");
   ("workspace_rename", mutate_action "workspace_rename" true true);
   ("workspace_reorder", mutate_action "workspace_reorder" true true);
   ("workspace_tree", read_action "workspace_tree");
   ("worktree_create", mutate_action "worktree_create" true true);
   ("worktree_list", read_action "worktree_list");
   ("worktree_open", mutate_action "worktree_open" true true);
   ("worktree_remove", mutate_action "worktree_remove" true true)]%string.

Definition classify_action (op : string) : option ActionMetadata :=
  '(_, row) ← list_find (fun row => row.1 = op) catalog; Some row.2.

Definition requires_protocol (message_type : string) : bool :=
  match classify_action message_type with None => true | Some m => a_requires_protocol m end.

Definition required_capability (op : string) : option string :=
  if decide (op ∈ ["focus_pane"; "focus_tab"; "focus_workspace"; "focus_agent"])%string then Some "focus"
  else if decide (op ∈ ["pane_search"; "pane_selection_read"])%string then Some "pane_search"
  else if decide (op ∈ ["pane_link_resolve"; "pane_link_activate"])%string then Some "pane_links"
  else if decide (op ∈ ["layout_export"; "layout_apply"])%string then Some "layout"
  else if decide (op ∈ ["subscribe_conversation"; "unsubscribe_conversation"])%string then Some "convo_sub"
  else None.

Record RequestScope := mkScope {
  action : ActionMetadata;
  target : option TargetRef;
  action_id : string;
  server_session_id : string;
  session_id : string;
}.

Definition for_message (message : Inbound) : option RequestScope :=
  action ← classify_action (in_type message);
  Some (mkScope action (in_target message) (in_action_id message) (in_server_session_id message) (in_session_id message)).

Definition compatible (message : Inbound) : bool :=
  negb (requires_protocol (in_type message)) || bool_decide (in_protocol message = VERSION).

(** ** Bounded strings and [ApiError] *)

Fixpoint back_off (value : bytes) (last : nat) : nat :=
  if is_char_boundary value last then last
  else match last with O => O | S last' => back_off value last' end.

Definition bounded_utf8 (value : string) (limit : nat) : string :=
  let b := as_bytes value in
  if decide (length b <= limit)%nat then value else string_of_bytes (take (back_off b limit) b).

Record ApiError := mkError {
  code : string;
  args : option (gmap string json);
}.

Definition MAX_ERROR_ARGS : nat := 8.
Definition MAX_ERROR_ARG_KEY : nat := 32.
Definition MAX_ERROR_ARG_STRING : nat := 256.
Definition MAX_ERROR_ARGS_JSON : nat := 1024.
Definition MAX_ERROR_CODE : nat := 64.

Definition bounded_error_arg (value : json) : option json :=
  match value with
  | JString s => Some (JString (bounded_utf8 s MAX_ERROR_ARG_STRING))
  | JBool _ => Some value
  | JNumber n =>
      match as_i64 value with
      | Some i => if decide (- MAX_SAFE_INT <= i <= MAX_SAFE_INT) then Some value else None
      | None =>
          match as_u64 value with
          | Some u => if decide (u <= MAX_SAFE_INT) then Some value else None
          | None =>
              z ← as_f64_int n; if decide (- MAX_SAFE_INT <= z <= MAX_SAFE_INT) then Some (json_int z) else None
          end
      end
  | _ => None
  end.

(** Unicode lower-casing is the standard library's table. *)
Class CaseMapping := { to_lowercase : string -> string }.

Section Errors.
Context `{FloatText} `{CaseMapping}.

Definition error_key (key : string) : string := bounded_utf8 (to_lowercase (trim key)) MAX_ERROR_ARG_KEY.

Fixpoint bound_args (bounded : gmap string json) (args : list (string * json)) : gmap string json :=
  match args with
  | [] => bounded
  | (key, value) :: rest =>
      if decide (size bounded = MAX_ERROR_ARGS) then bounded
      else
        let key := error_key key in
        if decide (key = ""%string) then bound_args bounded rest
        else match bounded_error_arg value with
        | None => bound_args bounded rest
        | Some value =>
            let bounded' := <[key := value]> bounded in
            if decide (MAX_ERROR_ARGS_JSON < length (map_to_vec bounded'))%nat then delete key bounded'
            else bound_args bounded' rest
        end
  end.

(** [ApiError::new]. *)
Definition ApiError_new (error_code : string) (error_args : gmap string json) : ApiError :=
  let code := bounded_utf8 (to_lowercase (trim error_code)) MAX_ERROR_CODE in
  if decide (error_args = ∅) then mkError code None
  else
    let bounded := bound_args ∅ (btree_list error_args) in
    mkError code (if decide (bounded = ∅) then None else Some bounded).

End Errors.

(** ** Messages to the client *)

Record ActionReceipt := mkReceipt {
  r_action_id : string;
  r_phase : string;
  r_error : option ApiError;
}.

Record ErrorMessage := mkErrorMessage {
  e_error : option ApiError;
  e_request_id : option string;
  e_type : string;
}.

Record ActionReceiptMessage := mkReceiptMessage {
  m_receipt : option ActionReceipt;
  m_request_id : option string;
  m_type : string;
}.

Record CapsUpdateMessage := mkCapsUpdate {
  cu_capabilities : option (UploadBinary.MaybeNull (list string));
  cu_type : string;
}.

(** [data] is raw JSON text. *)
Record CommandResultMessage := mkCommandResult {
  cr_action : option string;
  cr_data : option (UploadBinary.MaybeNull string);
  cr_error : option string;
  cr_ok : option bool;
  cr_pane_id : option string;
  cr_phase : option string;
  cr_request_id : option string;
  cr_type : string;
}.

Record Negotiated := mkNegotiated {
  frame_zstd : bool;
  upload_binary : bool;
}.

(** The variants the session layer builds or inspects; the others it only
    forwards are known by what [encode_negotiated] makes of them. *)
Inductive Outbound :=
| OActionReceipt (m : ActionReceiptMessage)
| OCapsUpdate (m : CapsUpdateMessage)
| OCommandResult (m : CommandResultMessage)
| OError (m : ErrorMessage)
| OForwarded (encoded : Negotiated -> bytes).

Definition non_empty (s : string) : option string := if decide (s = ""%string) then None else Some s.

Definition error_response (request_id : string) (error : ApiError) : ErrorMessage :=
  mkErrorMessage (Some error) (non_empty request_id) "error".

Definition action_receipt_response (request_id : string) (receipt : ActionReceipt) : ActionReceiptMessage :=
  mkReceiptMessage (Some receipt) (non_empty request_id) "action_receipt".

(** [i64::to_string]. *)
Definition z_string (z : Z) : string := if decide (0 <= z) then decimal z else "-" +:+ decimal (- z).

Section Responses.
Context `{FloatText} `{CaseMapping}.

Definition incompatible_response (message : Inbound) : ActionReceiptMessage :=
  let received := if decide (in_protocol message = 0) then "invalid"%string else z_string (in_protocol message) in
  let args := <["required"%string := JString (z_string VERSION)]> (<["received"%string := JString received]> ∅) in
  action_receipt_response (in_request_id message)
    (mkReceipt (in_action_id message) FAILED_BEFORE_DISPATCH (Some (ApiError_new INCOMPATIBLE_PROTOCOL args))).

Definition decode_failure_response (raw : list (string * json)) : ErrorMessage :=
  let request_id := default ""%string (obj_get raw "request_id" ≫= as_str) in
  error_response request_id (ApiError_new INVALID_REQUEST ∅).

(** *** Encoding: fields in declaration order, absent ones skipped *)

Definition field (name : string) (text : option (list Z)) : list (list Z) :=
  match text with
  | Some t => [escape_string [] (Utf8.chars name) ++ [58] ++ t]
  | None => []
  end.
Definition struct_text (fields : list (list (list Z))) : list Z := [123] ++ join [44] (concat fields) ++ [125].
Definition string_text (s : string) : list Z := value_text (JString s).
Definition nullable_text {A} (f : A -> list Z) (o : option (UploadBinary.MaybeNull A)) : option (list Z) :=
  (fun n => match n with UploadBinary.Null => lit "null" | UploadBinary.Value a => f a end) <$> o.

Definition api_error_text (e : ApiError) : list Z :=
  struct_text [field "code" (Some (string_text (code e)));
               field "args" (m ← args e; if decide (m = ∅) then None else Some (value_text (JObject (btree_list m))))].
Definition receipt_text (r : ActionReceipt) : list Z :=
  struct_text [field "action_id" (Some (string_text (r_action_id r)));
               field "phase" (Some (string_text (r_phase r)));
               field "error" (api_error_text <$> r_error r)].

Definition encode (message : Outbound) : bytes :=
  match message with
  | OActionReceipt m =>
      utf8_encode (struct_text [field "receipt" (receipt_text <$> m_receipt m);
        field "request_id" (string_text <$> m_request_id m); field "type" (Some (string_text (m_type m)))])
  | OCapsUpdate m =>
      utf8_encode (struct_text [
        field "capabilities" (nullable_text (fun l => value_text (JArray (JString <$> l))) (cu_capabilities m));
        field "type" (Some (string_text (cu_type m)))])
  | OCommandResult m =>
      utf8_encode (struct_text [field "action" (string_text <$> cr_action m);
        field "data" (nullable_text Utf8.chars (cr_data m)); field "error" (string_text <$> cr_error m);
        field "ok" ((fun b => value_text (JBool b)) <$> cr_ok m); field "pane_id" (string_text <$> cr_pane_id m);
        field "phase" (string_text <$> cr_phase m); field "request_id" (string_text <$> cr_request_id m);
        field "type" (Some (string_text (cr_type m)))])
  | OError m =>
      utf8_encode (struct_text [field "error" (api_error_text <$> e_error m);
        field "request_id" (string_text <$> e_request_id m); field "type" (Some (string_text (e_type m)))])
  | OForwarded encoded => encoded (mkNegotiated false false)
  end.

(** The transforms touch none of the four typed variants. *)
Definition encode_negotiated (message : Outbound) (negotiated : Negotiated) : bytes :=
  match message with
  | OForwarded encoded => encoded negotiated
  | _ => encode message
  end.

End Responses.

(** ** The catalog *)

Lemma classify_in_catalog op m : classify_action op = Some m -> (op, m) ∈ catalog.
Proof.
  unfold classify_action. destruct (list_find _ _) as [[i [k m']]|] eqn:Hf; [|done].
  apply list_find_Some in Hf as (Hl & Hk & _). intros [= <-]. simpl in Hk. subst k.
  by eapply list_elem_of_lookup_2.
Qed.

(** A decidable fact about every row holds of what [classify_action] returns. *)
Lemma catalog_forall (P : string * ActionMetadata -> bool) op m :
  forallb P catalog = true -> classify_action op = Some m -> P (op, m) = true.
Proof. intros Hall Hc%classify_in_catalog. rewrite forallb_forall in Hall. by apply Hall, list_elem_of_In. Qed.

Lemma classify_operation op m : classify_action op = Some m -> operation m = op.
Proof.
  intros Hc. apply (catalog_forall (fun r => bool_decide (operation r.2 = r.1))) in Hc; [|by vm_compute].
  by apply bool_decide_eq_true in Hc.
Qed.

(** Every catalogued mutation but [install_update] is versioned. *)
Lemma mutating_requires_protocol op m :
  classify_action op = Some m -> class m = Mutating -> op <> "install_update"%string -> a_requires_protocol m = true.
Proof.
  intros Hc Hm Hop.
  apply (catalog_forall (fun r => bool_decide (class r.2 = Mutating -> r.1 <> "install_update"%string -> a_requires_protocol r.2 = true)))
    in Hc; [|by vm_compute]. by apply bool_decide_eq_true in Hc; auto.
Qed.

(** ** Bounds *)

Lemma back_off_le b n : (back_off b n <= n)%nat.
Proof. induction n as [|n IH]; simpl; case_match; lia. Qed.

Lemma back_off_boundary b n : is_char_boundary b (back_off b n) = true.
Proof.
  induction n as [|n IH]; cbn [back_off].
  - assert (E : is_char_boundary b 0 = true) by (unfold is_char_boundary; by destruct b). by rewrite !E.
  - by destruct (is_char_boundary b (S n)) eqn:E.
Qed.

Lemma bounded_utf8_bytes s n :
  as_bytes (bounded_utf8 s n) = if decide (length (as_bytes s) <= n)%nat then as_bytes s
                                else take (back_off (as_bytes s) n) (as_bytes s).
Proof.
  unfold bounded_utf8. case_decide; [done|]. apply as_bytes_of_bytes, Forall_take, as_bytes_u8.
Qed.

Lemma bounded_utf8_length s n : (String.length (bounded_utf8 s n) <= n)%nat.
Proof.
  rewrite <- as_bytes_length, bounded_utf8_bytes. case_decide; [done|]. rewrite length_take.
  pose proof (back_off_le (as_bytes s) n). lia.
Qed.

Lemma bounded_utf8_valid s n : utf8_string s -> utf8_string (bounded_utf8 s n).
Proof.
  unfold utf8_string. intros Hs. rewrite bounded_utf8_bytes. case_decide; [done|].
  apply utf8_take_boundary; [done|]. apply back_off_boundary.
Qed.

(** What an argument of an error may be on the wire. *)
Definition bounded_value (v : json) : Prop :=
  match v with
  | JString s => (String.length s <= MAX_ERROR_ARG_STRING)%nat
  | JBool _ => True
  | JNumber (PosInt z) => z <= MAX_SAFE_INT
  | JNumber (NegInt z) => - MAX_SAFE_INT <= z
  | _ => False
  end.

Lemma bounded_error_arg_bounded v v' : bounded_error_arg v = Some v' -> bounded_value v'.
Proof.
  destruct v as [|b|[z|z|bits]|s|l|o]; cbn [bounded_error_arg as_i64 as_u64]; try done.
  - by intros [= <-].
  - repeat case_decide; intros [= <-]; simpl; lia.
  - case_decide; intros [= <-]; simpl; lia.
  - destruct (as_f64_int _) as [z|]; cbn; [|done]. case_decide; [|done]. intros [= <-].
    unfold json_int. case_decide; simpl; lia.
  - intros [= <-]. apply bounded_utf8_length.
Qed.

Section ErrorBounds.
Context `{FloatText} `{CaseMapping}.

Record args_ok (m : gmap string json) : Prop := {
  ao_count : (size m <= MAX_ERROR_ARGS)%nat;
  ao_json : (length (map_to_vec m) <= MAX_ERROR_ARGS_JSON)%nat;
  ao_keys : forall k v, m !! k = Some v -> k <> ""%string /\ (String.length k <= MAX_ERROR_ARG_KEY)%nat /\ bounded_value v;
}.

Lemma args_ok_empty : args_ok ∅.
Proof.
  split; [rewrite map_size_empty; unfold MAX_ERROR_ARGS; lia| |by intros k v ?%lookup_empty_Some]. rewrite map_to_vec_length, map_to_list_empty, map_size_empty.
  unfold MAX_ERROR_ARGS_JSON. cbn. lia.
Qed.

Lemma args_ok_delete m k : args_ok m -> args_ok (delete k m).
Proof.
  intros [Hc Hj Hk]. split.
  - destruct (m !! k) as [v|] eqn:Hm; [|by rewrite delete_id]. rewrite (map_size_delete_Some k m) by eauto. lia.
  - etrans; [apply map_to_vec_delete|done].
  - intros k' v [_ Hl]%lookup_delete_Some. eauto.
Qed.

Lemma bound_args_ok m l : args_ok m -> args_ok (bound_args m l).
Proof.
  revert m. induction l as [|[k v] l IH]; intros m Hm; [done|]. cbn [bound_args].
  case_decide as Hfull; [done|]. case_decide as Hkey; [by apply IH|].
  destruct (bounded_error_arg v) as [v'|] eqn:Hv; [|by apply IH].
  case_decide as Hlen.
  - rewrite delete_insert_eq. by apply args_ok_delete.
  - apply IH. destruct Hm as [Hc Hj Hk]. split; [|lia|].
    + rewrite map_size_insert. destruct (m !! error_key k); unfold id; lia.
    + intros k' w [[<- <-]|[? ?]]%lookup_insert_Some; [|eauto].
      split; [done|]. split; [apply bounded_utf8_length|by eapply bounded_error_arg_bounded].
Qed.

(** An [ApiError] built from arbitrary, client-influenced text and
    arguments is bounded whatever the input: the code has at most 64 bytes, at
    most 8 arguments survive, their JSON object has at most 1024 bytes, every
    key is non-empty with at most 32 bytes, and every value is a string of at
    most 256 bytes, a boolean or an integer within the exactly representable
    range. *)
Theorem api_error_bounded (error_code : string) (error_args : gmap string json) :
  let e := ApiError_new error_code error_args in
  (String.length (code e) <= MAX_ERROR_CODE)%nat /\
  match args e with
  | None => True
  | Some m => m <> ∅ /\ args_ok m
  end.
Proof.
  cbv zeta. unfold ApiError_new. case_decide; [split; [apply bounded_utf8_length|done]|].
  split; [apply bounded_utf8_length|]. cbn [args]. case_decide; [done|]. split; [done|].
  apply bound_args_ok, args_ok_empty.
Qed.

End ErrorBounds.

End Protocol.
