(* ===== verification/WriteAudit.v ===== *)
(** * The write-audit records

    [lerdr-core/src/audit.rs]: which fields of a message an audit row keeps,
    how they are bounded, and the row [AuditLog::append] serialises.  The file
    handling around the row (open, rotate, fsync) is not modelled.  SHA-256
    and its hex form are a parameter. *)

From S2P Require Import Prelude Utf8 JsonText Json JsonWire GoJson Civil Inbound Protocol.
Import Utf8 JsonText Json JsonWire GoJson Civil Inbound Protocol.

Module WriteAudit.

Class Digest := { sha256_hex : bytes -> string }.

Definition MAX_RECORD_BYTES : nat := Z.to_nat (128 * 1024).

Record AuditRecord := mkAudit {
  timestamp : string;
  stage : string;
  a_action : string;
  a_request_id : string;
  a_client_id : string;
  connection_id : string;
  a_pane_id : string;
  agent : string;
  project : string;
  session : string;
  host : string;
  ok : option bool;
  phase : string;
  a_error : string;
  details : gmap string json;
}.

Record Attribution := mkAttribution {
  at_agent : string;
  at_project : string;
  at_session : string;
  at_host : string;
}.

Record RequestContext := mkContext {
  rc_action : string;
  rc_request_id : string;
  rc_client_id : string;
  rc_connection_id : string;
  rc_pane_id : string;
}.

Abbreviation message_map := (list (string * json)).

Definition is_audited (op : string) : bool :=
  match classify_action op with Some m => audited m | None => false end.

(** [message.get(key).and_then(Value::as_str)]. *)
Definition str_member (message : message_map) (key : string) : option string := obj_get message key ≫= as_str.
Definition str_field (message : message_map) (key : string) : string := default ""%string (str_member message key).

Definition action_of (message : message_map) : string :=
  let action := str_field message "type" in
  if bool_decide (action = ""%string) || bool_decide (action = "command"%string)
  then str_field message "action" else action.

(** Trim, then keep at most [limit] characters. *)
Definition clamp (value : string) (limit : nat) : string :=
  let trimmed := trim_chars (Utf8.chars value) in
  string_of_bytes (utf8_encode (if decide (length trimmed <= limit)%nat then trimmed else take limit trimmed)).
Definition bounded_audit_string : string -> nat -> string := clamp.

Definition bounded_str_list (value : option json) (runes cap : nat) (skip_empty : bool) : list string :=
  match value ≫= as_array with
  | Some items =>
      take cap ((fun s => bounded_audit_string s runes) <$>
        filter (fun s => skip_empty && bool_decide (s = ""%string) = false) (omap as_str items))
  | None => []
  end.

Definition audit_integer (value : json) : option Z :=
  match value with
  | JNumber n => z ← as_f64_int n; if decide (0 <= z <= 2 ^ 53) then Some z else None
  | _ => None
  end.

(** The audit twin of [normalize_numbers]: bounded by exactness in [i64]. *)
Definition audit_normalize_number (n : number) : json :=
  match as_f64_int n with
  | Some z => if decide (- 2 ^ 63 <= z < 2 ^ 63) then json_int z else JNumber n
  | None => JNumber n
  end.
Definition audit_normalize : json -> json := map_numbers audit_normalize_number.

Definition STRING_LIMITS : list (string * nat) :=
  [("name", 256); ("label", 256); ("profile_id", 160); ("workspace_id", 160); ("before_workspace_id", 160);
   ("cwd", 1024); ("path", 1024); ("branch", 512); ("base", 512); ("filename", 512); ("mime", 128);
   ("activity_label", 256)]%string%nat.

Section Records.
Context `{FloatText} `{Digest}.

Definition set_opt (o : option json) (key : string) (d : gmap string json) : gmap string json :=
  match o with Some v => <[key := v]> d | None => d end.

(** The non-empty string at [key], through [f]. *)
Definition non_empty_member (message : message_map) (key : string) (f : string -> json) : option json :=
  s ← str_member message key; if decide (s = ""%string) then None else Some (f s).

Definition write_details (message : message_map) : gmap string json :=
  if decide (action_of message = "send_secret"%string) then
    match str_member message "text" with
    | Some text => {["text_bytes"%string := JNumber (PosInt (Z.of_nat (String.length text)))]}
    | None => ∅
    end
  else
    let encoded := to_vec (JObject ((fun m : string * json => (m.1, audit_normalize m.2)) <$> message)) in
    let d := <["payload_sha256"%string := JString (sha256_hex encoded)]> ∅ in
    let d := <["payload_bytes"%string := JNumber (PosInt (Z.of_nat (length encoded)))]> d in
    let d := foldl (fun d kl => set_opt (non_empty_member message kl.1 (fun s => JString (bounded_audit_string s kl.2))) kl.1 d)
               d STRING_LIMITS in
    let d := foldl (fun d key => set_opt (non_empty_member message key (fun s => JNumber (PosInt (Z.of_nat (String.length s)))))
                                   (key +:+ "_bytes") d) d ["text"; "prompt"; "choice"; "data"]%string in
    let d := foldl (fun d key => set_opt (json_int <$> (obj_get message key ≫= audit_integer)) key d)
               d ["index"; "insert_index"; "total"; "_server_sequence"]%string in
    let d := foldl (fun d key => set_opt (JBool <$> (obj_get message key ≫= as_bool)) key d) d ["force"; "close_group"]%string in
    let list_detail key runes skip d :=
      match bounded_str_list (obj_get message key) runes 32 skip with
      | [] => d
      | l => <[key := JArray (JString <$> l)]> d
      end in
    let d := list_detail "workspace_ids"%string 160%nat true d in
    let d := list_detail "expected_workspace_ids"%string 160%nat true d in
    let d := list_detail "keys"%string 64%nat false d in
    match take 128 (omap audit_integer (default [] (obj_get message "selected_indices" ≫= as_array))) with
    | [] => d
    | l => <["selected_indices"%string := JArray (json_int <$> l)]> d
    end.

(** *** The request context *)

Definition from_message (message : message_map) (conn : string) : RequestContext :=
  let pane := str_field message "pane_id" in
  let pane := if decide (pane = ""%string) then
                match obj_get message "target" ≫= as_object with
                | Some target => str_field target "pane_id"
                | None => pane
                end
              else pane in
  let client := str_field message "client_id" in
  let client := if decide (client = ""%string) then "connection:" +:+ conn else client in
  mkContext (action_of message) (str_field message "request_id") client conn pane.

Definition from_inbound (inbound : Inbound) (conn : string) : RequestContext :=
  let pane := in_pane_id inbound in
  let pane := if decide (pane = ""%string) then
                match in_target inbound with Some target => t_pane_id target | None => pane end
              else pane in
  let client := in_client_id inbound in
  let client := if decide (client = ""%string) then "connection:" +:+ conn else client in
  mkContext (in_type inbound) (in_request_id inbound) client conn pane.

Definition base (ctx : RequestContext) (stage : string) (a : Attribution) : AuditRecord :=
  mkAudit "" stage (rc_action ctx) (rc_request_id ctx) (rc_client_id ctx) (rc_connection_id ctx) (rc_pane_id ctx)
    (at_agent a) (at_project a) (at_session a) (at_host a) None "" "" ∅.

Definition with_details (r : AuditRecord) (d : gmap string json) : AuditRecord :=
  mkAudit (timestamp r) (stage r) (a_action r) (a_request_id r) (a_client_id r) (connection_id r) (a_pane_id r)
    (agent r) (project r) (session r) (host r) (ok r) (phase r) (a_error r) d.

Definition attempt_record (ctx : RequestContext) (message : message_map) (a : Attribution) : AuditRecord :=
  with_details (base ctx "attempt" a) (write_details message).

Definition result_record (ctx : RequestContext) (result : CommandResultMessage) (a : Attribution) : AuditRecord :=
  let r := base ctx "result" a in
  let pane := match cr_pane_id result with
              | Some p => if decide (p = ""%string) then a_pane_id r else p
              | None => a_pane_id r
              end in
  mkAudit (timestamp r) (stage r) (a_action r) (a_request_id r) (a_client_id r) (connection_id r) pane
    (agent r) (project r) (session r) (host r) (cr_ok result) (default ""%string (cr_phase result))
    (default ""%string (cr_error result)) (details r).

(** *** The line [append] writes: stamped, clamped, at most 128 KiB *)

Definition stamped (r : AuditRecord) (secs nanos : Z) : AuditRecord :=
  mkAudit (rfc3339_nano secs nanos) (clamp (stage r) 32) (clamp (a_action r) 80) (clamp (a_request_id r) 160)
    (clamp (a_client_id r) 160) (clamp (connection_id r) 160) (clamp (a_pane_id r) 160) (clamp (agent r) 160)
    (clamp (project r) 512) (clamp (session r) 512) (clamp (host r) 255) (ok r) (clamp (phase r) 80)
    (clamp (a_error r) 1000) (details r).

Definition text_field (name value : string) : list (list Z) := field name (string_text <$> non_empty value).

Definition record_line (r : AuditRecord) : option bytes :=
  let line := utf8_encode (struct_text [
    field "timestamp" (Some (string_text (timestamp r))); field "stage" (Some (string_text (stage r)));
    field "action" (Some (string_text (a_action r))); text_field "request_id" (a_request_id r);
    field "client_id" (Some (string_text (a_client_id r))); text_field "connection_id" (connection_id r);
    text_field "pane_id" (a_pane_id r); text_field "agent" (agent r); text_field "project" (project r);
    text_field "session" (session r); text_field "host" (host r);
    field "ok" ((fun b => value_text (JBool b)) <$> ok r); text_field "phase" (phase r); text_field "error" (a_error r);
    field "details" (if decide (details r = ∅) then None else Some (value_text (JObject (btree_list (details r)))))]) ++ [10] in
  if decide (MAX_RECORD_BYTES < length line)%nat then None else Some line.

(** ** Secret safety *)

Lemma de_inbound_type o m : de_inbound o = Some m -> de_string (obj_get o "type") = Some (in_type m).
Proof.
  unfold de_inbound.
  destruct (de_string (obj_get o "type")) as [t|]; [|discriminate]. cbn [mbind option_bind].
  repeat match goal with |- ?e ≫= _ = _ -> _ => destruct e; [|discriminate]; cbn [mbind option_bind] end.
  intros Heq. apply (inj Some) in Heq. by rewrite <- Heq.
Qed.

Lemma obj_get_fmap (f : json -> json) o k :
  obj_get ((fun m : string * json => (m.1, f m.2)) <$> o) k = f <$> obj_get o k.
Proof. induction o as [|[k' v] o IH]; [done|]. cbn. case_decide; [done|]. exact IH. Qed.

Lemma normalize_string v s : normalize_numbers v = JString s -> v = JString s.
Proof.
  destruct v as [|b|n|s'|l|ms]; cbn; try discriminate; [|by intros [= ->]].
  unfold normalize_number. destruct (as_f64_int n); [case_decide|]; try discriminate.
  unfold json_int. by case_decide.
Qed.

(** The typed decode reads the same type as the audit does. *)
Lemma type_field_agrees raw t :
  de_string (obj_get ((fun m : string * json => (m.1, normalize_numbers m.2)) <$> raw) "type") = Some t ->
  str_field raw "type" = t.
Proof.
  rewrite obj_get_fmap. unfold str_field, str_member. destruct (obj_get raw "type") as [v|]; cbn; [|by intros [= <-]].
  destruct (normalize_numbers v) as [| | |s| |] eqn:Hn; try discriminate.
  - intros [= <-]. destruct v; try done; cbn in Hn; try discriminate.
  - intros [= <-]. by apply normalize_string in Hn as ->.
Qed.

(** A message dispatched as [send_secret] is one to the audit. *)
Lemma action_of_send_secret raw m :
  decode_map raw = Ok m -> in_type m = "send_secret"%string -> action_of raw = "send_secret"%string.
Proof.
  intros (_ & _ & t0 & Hde & Hm)%decode_map_Ok Ht. apply de_inbound_type in Hde. apply type_field_agrees in Hde.
  unfold action_of. rewrite Hde. destruct Hm as [->|(action & Ha & _ & Ht0 & ->)].
  - change (in_type (set_raw t0 raw)) with (in_type t0) in Ht. by rewrite Ht.
  - change (in_type (set_type (set_raw t0 raw) action)) with action in Ht. subst action.
    assert (Hf : str_field raw "action" = "send_secret"%string) by (unfold str_field, str_member; by rewrite Ha).
    rewrite Hf. by destruct Ht0 as [-> | ->].
Qed.

(** The members an audit row of a secret may show in full. *)
Definition public_members : list string := ["type"; "action"; "request_id"; "client_id"; "pane_id"; "target"]%string.

(** The audit row of a dispatched [send_secret] reveals nothing of the
    secret but its length: two such messages that agree on the envelope fields
    and whose [text] has the same byte length produce the same row (same
    attribution and connection), whatever their text, keys or other members
    are; and that row is the same once stamped and serialised. *)
Theorem secret_audit_reveals_length_only (raw1 raw2 : message_map) (m1 m2 : Inbound) (conn : string) (a : Attribution) (secs nanos : Z) :
  decode_map raw1 = Ok m1 -> in_type m1 = "send_secret"%string ->
  decode_map raw2 = Ok m2 -> in_type m2 = "send_secret"%string ->
  Forall (fun k => obj_get raw1 k = obj_get raw2 k) public_members ->
  (String.length <$> str_member raw1 "text") = (String.length <$> str_member raw2 "text") ->
  attempt_record (from_message raw1 conn) raw1 a = attempt_record (from_message raw2 conn) raw2 a /\
  record_line (stamped (attempt_record (from_message raw1 conn) raw1 a) secs nanos) =
    record_line (stamped (attempt_record (from_message raw2 conn) raw2 a) secs nanos).
Proof.
  intros Hd1 Ht1 Hd2 Ht2 Hpub Hlen.
  pose proof (action_of_send_secret _ _ Hd1 Ht1) as Ha1. pose proof (action_of_send_secret _ _ Hd2 Ht2) as Ha2.
  assert (Hwd : write_details raw1 = write_details raw2).
  { unfold write_details. rewrite !decide_True by done.
    destruct (str_member raw1 "text"), (str_member raw2 "text"); cbn in Hlen; try discriminate; [|done].
    injection Hlen as Hlen. by rewrite Hlen. }
  repeat (apply Forall_cons in Hpub as [? Hpub]).
  assert (Hctx : from_message raw1 conn = from_message raw2 conn).
  { unfold from_message. rewrite Ha1, Ha2. unfold str_field, str_member. by repeat match goal with H : obj_get _ _ = _ |- _ => rewrite H; clear H end. }
  assert (Hrec : attempt_record (from_message raw1 conn) raw1 a = attempt_record (from_message raw2 conn) raw2 a)
    by (unfold attempt_record; by rewrite Hwd, Hctx).
  split; [done|]. by rewrite Hrec.
Qed.

End Records.

#[local] Instance demo_float : FloatText := {| float_text := fun _ => [48] |}.
#[local] Instance demo_digest : Digest := {| sha256_hex := fun b => decimal (Z.of_nat (length b)) |}.

Definition secret_message (text : string) : message_map :=
  [("keys", JArray [JString text]); ("pane_id", JString "p1"); ("text", JString text); ("type", JString "send_secret")]%string.

Lemma secret_audit_reveals_length_only_witness :
  attempt_record (from_message (secret_message "hunter2") "client-1") (secret_message "hunter2") (mkAttribution "" "" "" "") =
  attempt_record (from_message (secret_message "letme1n") "client-1") (secret_message "letme1n") (mkAttribution "" "" "" "").
Proof.
  destruct (decode_map (secret_message "hunter2")) as [m1|] eqn:H1; [|vm_compute in H1; discriminate].
  destruct (decode_map (secret_message "letme1n")) as [m2|] eqn:H2; [|vm_compute in H2; discriminate].
  apply (secret_audit_reveals_length_only (secret_message "hunter2") (secret_message "letme1n") m1 m2
           "client-1" (mkAttribution "" "" "" "") 0 0); try done.
  - vm_compute in H1. injection H1 as <-. reflexivity.
  - vm_compute in H2. injection H2 as <-. reflexivity.
  - repeat constructor.
Defined.

End WriteAudit.
