(* ===== verification/Attention.v ===== *)
(** * The attention ledger — [lerdr-coord/src/classify/store.rs]

    Per pane: the committed blocked cycle, the revision counters the fences
    read and the done/acknowledged bookkeeping, with the operations a commit
    runs on them.  The approval fingerprint is a parameter (it hashes the
    classification); a minted event id and the wall clock are arguments. *)

From S2P Require Import Prelude.

Module Attention.

(** ** The question model — [classify/model.rs] *)

Record SummaryEntry := mkSummary { se_question : string; se_answer : string }.
Record QuestionOption := mkOption {
  qo_index : Z; qo_label : string; qo_description : string; qo_selected : bool; qo_summary : list SummaryEntry;
}.
Record QuestionOther := mkOther {
  ot_selected : bool; ot_text : string; ot_label : string; ot_placeholder : string; ot_allow_empty : bool; ot_hidden : bool;
}.
Inductive FocusKind := FocusOption | FocusOther | FocusSubmit | FocusChat.
Record QuestionFocus := mkFocus { fo_kind : FocusKind; fo_index : Z }.
Record Interaction := mkInteraction {
  i_id : string;
  i_kind : string;
  i_question : string;
  i_options : list QuestionOption;
  i_other : QuestionOther;
  i_submit_label : string;
  i_can_chat : bool;
  i_can_go_back : bool;
  i_question_index : Z;
  i_question_total : Z;
  i_focus : QuestionFocus;
  i_all_option_count : Z;
  i_agent : string;
  i_notes_active : bool;
  i_omp_space_toggle : bool;
}.

Inductive AttentionKind := Approval | Question | Chat | Unknown.

#[export] Instance SummaryEntry_eq_dec : EqDecision SummaryEntry.
Proof. solve_decision. Defined.
#[export] Instance QuestionOption_eq_dec : EqDecision QuestionOption.
Proof. solve_decision. Defined.
#[export] Instance QuestionOther_eq_dec : EqDecision QuestionOther.
Proof. solve_decision. Defined.
#[export] Instance FocusKind_eq_dec : EqDecision FocusKind.
Proof. solve_decision. Defined.
#[export] Instance QuestionFocus_eq_dec : EqDecision QuestionFocus.
Proof. solve_decision. Defined.
#[export] Instance Interaction_eq_dec : EqDecision Interaction.
Proof. solve_decision. Defined.
#[export] Instance AttentionKind_eq_dec : EqDecision AttentionKind.
Proof. solve_decision. Defined.

Record Classification := mkClassification {
  cl_kind : AttentionKind;
  cl_prompt : string;
  cl_command : string;
  cl_options : list string;
  cl_approval_focus : Z;
  cl_interaction : option Interaction;
  cl_question_layout : bool;
  cl_approval_identity : string;
  cl_approval_source : string;
}.

Definition kind_str (kind : AttentionKind) : string :=
  match kind with Approval => "approval" | Question => "question" | Chat => "chat" | Unknown => "unknown" end.

(** ** Statuses *)

Definition is_attention_status (status : string) : bool := bool_decide (status ∈ ["working"; "blocked"]%string).
Definition is_done_status (status : string) : bool :=
  bool_decide (status ∈ ["done"; "complete"; "completed"; "finished"; "success"; "succeeded"; "unread"]%string).

(** ** The cell *)

Record BlockedDetails := mkBlocked {
  event_id : string;
  kind : option AttentionKind;
  prompt : string;
  command : string;
  options : list string;
  approval_fp : string;
  interaction : option Interaction;
  question_layout : bool;
  interaction_id : string;
}.

#[export] Instance BlockedDetails_eq_dec : EqDecision BlockedDetails.
Proof. solve_decision. Defined.

Definition no_details : BlockedDetails := mkBlocked "" None "" "" [] "" None false "".

Record AttentionCell := mkCell {
  blocked : BlockedDetails;
  state_rev : Z;
  content_rev : Z;
  attention_rev : Z;
  completion_rev : Z;
  prev_status : string;
  unseen_done : bool;
  ack_done : bool;
  finished_notif : bool;
  last_seen_at : Z;
  session_name : string;
}.

Definition default_cell : AttentionCell := mkCell no_details 0 0 0 0 "" false false false 0 "".

Definition set_blocked (c : AttentionCell) (b : BlockedDetails) : AttentionCell :=
  mkCell b (state_rev c) (content_rev c) (attention_rev c) (completion_rev c) (prev_status c) (unseen_done c) (ack_done c) (finished_notif c) (last_seen_at c) (session_name c).
(** The done/acknowledged bookkeeping. *)
Definition set_done (c : AttentionCell) (unseen ack finished : bool) (completion : Z) : AttentionCell :=
  mkCell (blocked c) (state_rev c) (content_rev c) (attention_rev c) completion (prev_status c) unseen ack finished (last_seen_at c) (session_name c).
(** The commit's revisions and recorded status. *)
Definition set_revs (c : AttentionCell) (srev crev arev : Z) (prev name : string) : AttentionCell :=
  mkCell (blocked c) srev crev arev (completion_rev c) prev (unseen_done c) (ack_done c) (finished_notif c) (last_seen_at c) name.

Definition clear_blocked (c : AttentionCell) : AttentionCell * bool :=
  (set_blocked c no_details, negb (bool_decide (blocked c = no_details))).

Definition reset_on_replacement (c : AttentionCell) : AttentionCell :=
  mkCell no_details (state_rev c) (content_rev c) (attention_rev c) 0 "" false false false (last_seen_at c) "".

(** [mint]: the id [mint_blocked_event_id] draws. *)
Definition sync_cycle (c : AttentionCell) (status mint : string) : AttentionCell * bool :=
  if decide (status <> "blocked"%string) then clear_blocked c
  else
    let b := blocked c in
    let k := match kind b with None => Some Unknown | k => k end in
    let e := if decide (event_id b = ""%string) then mint else event_id b in
    (set_blocked c (mkBlocked e k (prompt b) (command b) (options b) (approval_fp b) (interaction b) (question_layout b) (interaction_id b)),
     bool_decide (kind b = None) || bool_decide (event_id b = ""%string)).

(** [interactionsEqual]: identity by id. *)
Definition same_interaction (a b : option Interaction) : bool :=
  match a, b with
  | None, None => true
  | Some x, Some y => bool_decide (i_id x = i_id y)
  | _, _ => false
  end.

Section Cell.
Context (approval_fingerprint : Classification -> string).

(** The details a classification commits, on the given event. *)
Definition classified (event : string) (cl : Classification) : BlockedDetails :=
  let approval := bool_decide (cl_kind cl = Approval) in
  let question := bool_decide (cl_kind cl = Question) in
  mkBlocked event (Some (cl_kind cl)) (cl_prompt cl) (cl_command cl)
    (if approval then cl_options cl else []) (if approval then approval_fingerprint cl else "")
    (if question then cl_interaction cl else None) (question && cl_question_layout cl)
    (if question then match cl_interaction cl with Some i => i_id i | None => "" end else "").

(** What [changed] compares: everything but the event id, interactions by id. *)
Definition details_moved (a b : BlockedDetails) : bool :=
  negb (bool_decide (kind a = kind b) && bool_decide (prompt a = prompt b) && bool_decide (command a = command b)
        && bool_decide (options a = options b) && bool_decide (approval_fp a = approval_fp b)
        && same_interaction (interaction a) (interaction b) && bool_decide (question_layout a = question_layout b)
        && bool_decide (interaction_id a = interaction_id b)).

Definition apply_classification (c : AttentionCell) (cl : Classification) : AttentionCell * bool :=
  let b := classified (event_id (blocked c)) cl in
  (set_blocked c b, details_moved (blocked c) b).

Definition sync_attention_completion (c : AttentionCell) (previous current : option AttentionKind) (srev : Z) : AttentionCell :=
  if decide (current = Some Chat) then
    if decide (previous = Some Chat) then c else set_done c (unseen_done c) (ack_done c) false srev
  else if decide (previous = Some Chat) then set_done c (unseen_done c) (ack_done c) false 0
  else c.

Definition displayed_status (c : AttentionCell) (status : string) : string :=
  if is_done_status status && ack_done c then "idle"
  else if bool_decide (status = "idle"%string) && unseen_done c then "done"
  else status.

Definition acknowledge_cell (c : AttentionCell) (status : string) (last_active_at now : Z) : AttentionCell :=
  let seen := Z.max now last_active_at in
  let consumed := unseen_done c || is_done_status status in
  mkCell (blocked c) (state_rev c) (content_rev c) (attention_rev c) (completion_rev c) (prev_status c)
    (if consumed then false else unseen_done c) (if consumed then true else ack_done c) (finished_notif c) seen (session_name c).

Record PaneTransition := mkTransition {
  tr_pane_id : string;
  tr_agent : string;
  tr_project : string;
  tr_status : string;
  tr_revision : Z;
  tr_observed_at : Z;
}.

Definition register_transition (c : AttentionCell) (pane_id agent project prev status : string)
    (previous_attention : option AttentionKind) (revision now : Z) : AttentionCell * option PaneTransition :=
  let transition := Some (mkTransition pane_id agent project status revision now) in
  if is_attention_status status then
    (if decide (prev <> status) then set_done c false false false 0 else c,
     if decide ((status = "blocked"%string /\ prev <> "blocked"%string) \/ (status = "working"%string /\ prev <> "working"%string))
     then transition else None)
  else if is_done_status status then
    if is_attention_status prev then (set_done c true false (finished_notif c) revision, transition) else (c, None)
  else if bool_decide (status = "idle"%string) && is_attention_status prev then
    if decide (prev = "blocked"%string /\ previous_attention = Some Chat) then (c, None)
    else (set_done c true false (finished_notif c) revision, transition)
  else (c, None).

Definition preserves_chat_completion (previous_status current_status : string) (previous_attention : option AttentionKind) : bool :=
  bool_decide (previous_status = "blocked"%string) && bool_decide (current_status = "idle"%string) && bool_decide (previous_attention = Some Chat).

(** ** The ledger *)

Record AttentionLedger := mkLedger { cells : gmap string AttentionCell; upstream_revs : gmap string Z }.
Definition empty_ledger : AttentionLedger := mkLedger ∅ ∅.

(** [cell_mut] reads a cell, inserting the default; [put] writes it back. *)
Definition cell_mut (l : AttentionLedger) (pane_id : string) : AttentionCell := default default_cell (cells l !! pane_id).
Definition put (l : AttentionLedger) (pane_id : string) (c : AttentionCell) : AttentionLedger := mkLedger (<[pane_id := c]> (cells l)) (upstream_revs l).
Definition cell (l : AttentionLedger) (pane_id : string) : option AttentionCell := cells l !! pane_id.
Definition remove (l : AttentionLedger) (pane_id : string) : AttentionLedger := mkLedger (delete pane_id (cells l)) (upstream_revs l).

Definition upstream_rev (l : AttentionLedger) (pane_id : string) : Z := default 0 (upstream_revs l !! pane_id).
Definition note_upstream_rev (l : AttentionLedger) (pane_id : string) (revision : Z) : AttentionLedger :=
  if decide (revision = 0) then l
  else mkLedger (cells l) (<[pane_id := Z.max (default 0 (upstream_revs l !! pane_id)) revision]> (upstream_revs l)).
Definition reset_upstream_rev (l : AttentionLedger) (pane_id : string) : AttentionLedger := mkLedger (cells l) (delete pane_id (upstream_revs l)).
Definition retain_upstream (l : AttentionLedger) (keep : string -> bool) : AttentionLedger :=
  mkLedger (cells l) (filter (fun p => keep p.1 = true) (upstream_revs l)).

End Cell.

End Attention.
