(* ===== verification/Topology.v ===== *)
(** * The committed topology — [lerdr-coord/src/topology.rs]

    The coordinator's materialised view of Herdr: the last snapshot accepted,
    per-pane generations and observation times, and the attention ledger.  A
    commit is a fold over the incoming agent rows.  The wall clock, the minted
    event ids and the resolved session titles are arguments of a commit;
    Herdr's snapshot is the argument type [SessionSnapshot] (fields the
    projection does not read are left out).  The ledger is shared between
    published clones: operations on it are operations on the one record.

    A commit and its publication are one step here.  In the code
    [acknowledge], [commit_attention] and [register_finished_notification] run
    on the clone published last, whose snapshot is older than the shared ledger
    between [accept_enriched] and [publish] of actor.rs; an operation that
    falls into that short window is not a run of this model. *)

From S2P Require Import Prelude Lines Utf8 Attention.
Import Attention.

Module Topology.

(** ** Herdr's records — [lerdr-herdr/src/types.rs] *)

Inductive AgentStatus := SUnknown | Idle | Working | Blocked | Done | Unrecognized.

#[export] Instance AgentStatus_eq_dec : EqDecision AgentStatus.
Proof. solve_decision. Defined.

Definition status_str (s : AgentStatus) : string :=
  match s with Idle => "idle" | Working => "working" | Blocked => "blocked" | Done => "done" | SUnknown | Unrecognized => "unknown" end.

Record AgentInfo := mkAgent {
  a_pane_id : string;
  a_terminal_id : string;
  a_workspace_id : string;
  a_tab_id : string;
  a_focused : bool;
  a_status : AgentStatus;
  a_agent : option string;
  a_name : option string;
  a_display_agent : option string;
  a_title : option string;
  a_cwd : option string;
  a_foreground_cwd : option string;
  a_revision : Z;
  a_state_change_seq : Z;
  a_interactive_ready : bool;
  a_session : option string;
  a_tokens : gmap string string;
  a_state_labels : gmap string string;
}.

Record PaneInfo := mkPane {
  p_pane_id : string;
  p_terminal_id : string;
  p_workspace_id : string;
  p_tab_id : string;
  p_revision : Z;
  (** offset and maximal offset from the bottom *)
  p_scroll : option (Z * Z);
}.

Record TabInfo := mkTab { tb_tab_id : string; tb_workspace_id : string; tb_number : Z; tb_label : string }.

Record SessionSnapshot := mkSnapshot {
  agents : list AgentInfo;
  panes : list PaneInfo;
  tabs : list TabInfo;
  (** cell geometry per laid-out pane *)
  layouts : list (string * (Z * Z));
}.

(** ** The projection's own records *)

Record ChangeKey := mkKey {
  k_status : string;
  k_name : string;
  k_cwd : string;
  k_agent : string;
  k_activity_seq : Z;
  k_pane_revision : Z;
  k_scroll_max_offset : Z;
  k_foreground_cwd : string;
}.

#[export] Instance ChangeKey_eq_dec : EqDecision ChangeKey.
Proof. solve_decision. Defined.

Definition default_key : ChangeKey := mkKey "" "" "" "" 0 0 0 "".
Definition key_of (a : AgentInfo) (scroll_max_offset : Z) : ChangeKey :=
  mkKey (status_str (a_status a)) (default ""%string (a_name a)) (default ""%string (a_cwd a)) (default ""%string (a_agent a))
    (a_state_change_seq a) (a_revision a) scroll_max_offset (default ""%string (a_foreground_cwd a)).

Record AgentTimes := mkTimes { updated_at : Z; last_active_at : Z; change_key : ChangeKey; seen : bool }.
Definition default_times : AgentTimes := mkTimes 0 0 default_key false.

Record Topology := mkTopology {
  snapshot : SessionSnapshot;
  revision : Z;
  stale : bool;
  generations : gmap string Z;
  agent_times : gmap string AgentTimes;
  attention : AttentionLedger;
  accepted_at : Z;
  attempted_at : Z;
  inventory_ready : bool;
  inventory_error_code : string;
  inventory_message : string;
}.

Definition new : Topology := mkTopology (mkSnapshot [] [] [] []) 0 true ∅ ∅ empty_ledger 0 0 false "" "".

Inductive CommitKind := Event | Poll.

#[export] Instance CommitKind_eq_dec : EqDecision CommitKind.
Proof. solve_decision. Defined.

Definition identity_moved (existing incoming : list string) : bool :=
  existsb (fun p => negb (bool_decide (p.1 = ""%string)) && negb (bool_decide (p.2 = ""%string)) && negb (bool_decide (p.1 = p.2)))
    (zip existing incoming).

Definition agent_identity (a : AgentInfo) : list string := [a_terminal_id a; a_tab_id a; a_workspace_id a].
Definition pane_identity (p : PaneInfo) : list string := [p_terminal_id p; p_tab_id p; p_workspace_id p].

Definition pane_session_replaced (existing incoming : AgentInfo) : bool := identity_moved (agent_identity existing) (agent_identity incoming).

(** [BTreeMap] collected from rows: the last row of a pane wins. *)
Definition by_pane {A} (key : A -> string) (rows : list A) : gmap string A := list_to_map (reverse ((fun r => (key r, r)) <$> rows)).

Definition bump (gens : gmap string Z) (pane_id : string) : gmap string Z := <[pane_id := default 0 (gens !! pane_id) + 1]> gens.

Definition set_status (a : AgentInfo) (s : AgentStatus) : AgentInfo :=
  mkAgent (a_pane_id a) (a_terminal_id a) (a_workspace_id a) (a_tab_id a) (a_focused a) s (a_agent a) (a_name a) (a_display_agent a)
    (a_title a) (a_cwd a) (a_foreground_cwd a) (a_revision a) (a_state_change_seq a) (a_interactive_ready a) (a_session a) (a_tokens a) (a_state_labels a).

(** The event path keeps the committed status of a pane that was not replaced. *)
Definition preserve_status (old : gmap string AgentInfo) (a : AgentInfo) : AgentInfo :=
  match old !! a_pane_id a with
  | Some existing => if pane_session_replaced existing a then a else set_status a (a_status existing)
  | None => a
  end.

(** The components of a [/]-separated path. *)
Fixpoint split_char (sep : Ascii.ascii) (s : string) : list string :=
  match s with
  | EmptyString => [""%string]
  | String c s' =>
      if decide (c = sep) then ""%string :: split_char sep s'
      else match split_char sep s' with
           | [] => [String c ""]
           | l :: ls => String c l :: ls
           end
  end.
Definition slash : Ascii.ascii := byte_ascii 47.

(** [Path::file_name]: the last component, unless it is [..]. *)
Definition project_of (cwd : string) : string :=
  if decide (cwd = ""%string) then ""
  else
    match last (filter (fun c => c <> ""%string /\ c <> "."%string) (split_char slash cwd)) with
    | Some name => if decide (name = ".."%string) then "" else name
    | None => ""
    end.

(** ** Committing one row *)

(** What a commit threads through the rows. *)
Record Commit := mkCommit {
  cm_generations : gmap string Z;
  cm_times : gmap string AgentTimes;
  cm_ledger : AttentionLedger;
  cm_transitions : list PaneTransition;
}.

Section Commit.
Context (approval_fingerprint : Classification -> string).

(** The arguments of one commit. *)
Record Args := mkArgs {
  g_kind : CommitKind;
  g_epoch : Z;
  g_now : Z;
  g_initial : bool;
  g_enrich : gmap string Classification;
  g_titles : gmap string string;
  g_mint : string -> string;
}.

Definition row_generations (g : Args) (gens : gmap string Z) (pane_id : string) (fresh replaced : bool) : gmap string Z :=
  if replaced then bump gens pane_id
  else if fresh && negb (g_initial g) && bool_decide (0 < default 0 (gens !! pane_id)) then bump gens pane_id
  else gens.

(** [UpdatedAt] and [LastActiveAt]. *)
Definition row_times (g : Args) (existing : option AgentInfo) (a : AgentInfo) (scroll : Z) (t : AgentTimes) : AgentTimes :=
  let key := key_of a scroll in
  let t :=
    match existing with
    | None => mkTimes (if g_initial g then 0 else g_now g) (last_active_at t) key true
    | Some _ => if negb (seen t) || negb (bool_decide (change_key t = key)) then mkTimes (g_now g) (last_active_at t) key true else t
    end in
  let advanced := match existing with
                  | Some e => negb (bool_decide (a_status e = a_status a)) || negb (bool_decide (a_state_change_seq e = a_state_change_seq a))
                  | None => false
                  end in
  if advanced && bool_decide (last_active_at t < updated_at t) then mkTimes (updated_at t) (updated_at t) (change_key t) (seen t) else t.

(** The same-fields tuple [content_rev] follows. *)
Definition row_moved (existing : option AgentInfo) (a : AgentInfo) : bool :=
  match existing with
  | None => true
  | Some e => negb (bool_decide (a_status e = a_status a) && bool_decide (a_name e = a_name a) && bool_decide (a_cwd e = a_cwd a)
                    && bool_decide (a_agent e = a_agent a) && bool_decide (a_state_change_seq e = a_state_change_seq a))
  end.

Definition refire (prev status : string) (previous : option AttentionKind) (changed : bool) (c : AttentionCell) : bool :=
  bool_decide (prev = "blocked"%string) && bool_decide (status = "blocked"%string)
  && (negb (bool_decide (previous = kind (blocked c))) || (changed && bool_decide (kind (blocked c) = Some Approval))).

(** [!exists && (done || idle)] seeding. *)
Definition seed_done (existing : option AgentInfo) (status : string) (t : AgentTimes) (c : AttentionCell) : AttentionCell :=
  match existing with
  | Some _ => c
  | None =>
      if is_done_status status || bool_decide (status = "idle"%string) then
        if decide (last_seen_at c < last_active_at t) then set_done c true false (finished_notif c) (completion_rev c)
        else if is_done_status status && (bool_decide (0 < last_active_at t) || bool_decide (0 < last_seen_at c))
        then set_done c (unseen_done c) true (finished_notif c) (completion_rev c)
        else c
      else c
  end.

(** Revisions, session title and recorded status of a commit. *)
Definition stamp (c : AttentionCell) (epoch : Z) (moved changed : bool) (status title : string) : AttentionCell :=
  set_revs c epoch (if moved || changed then content_rev c + 1 else content_rev c)
    (if changed then attention_rev c + 1 else attention_rev c) status title.

Definition opt_list {A} (o : option A) : list A := match o with Some a => [a] | None => [] end.

Definition complete_cell (c : AttentionCell) (prev status : string) (previous : option AttentionKind) (epoch : Z) : AttentionCell :=
  if preserves_chat_completion prev status previous then c else sync_attention_completion c previous (kind (blocked c)) epoch.

(** The cell of one incoming row, and the transitions it records. *)
Definition row_cell (g : Args) (existing : option AgentInfo) (a : AgentInfo) (t : AgentTimes) (c : AttentionCell)
    : AttentionCell * list PaneTransition :=
  let pane_id := a_pane_id a in
  let status := status_str (a_status a) in
  let agent := default ""%string (a_agent a) in
  let project := project_of (default ""%string (a_cwd a)) in
  let prev := prev_status c in
  let previous := kind (blocked c) in
  let '(c, changed) := sync_cycle c status (g_mint g pane_id) in
  let adopts := bool_decide (g_kind g = Poll) || bool_decide (existing = None) in
  let '(c, changed) :=
    match (if bool_decide (status = "blocked"%string) && adopts then g_enrich g !! pane_id else None) with
    | Some cl => let '(c, moved) := apply_classification approval_fingerprint c cl in (c, changed || moved)
    | None => (c, changed)
    end in
  let c := stamp c (g_epoch g) (row_moved existing a) changed status (default ""%string (g_titles g !! pane_id)) in
  let '(c, tr) := register_transition c pane_id agent project prev status previous (g_epoch g) (g_now g) in
  let c := seed_done existing status t c in
  let c := complete_cell c prev status previous (g_epoch g) in
  (c, opt_list tr ++
      if refire prev status previous changed c then [mkTransition pane_id agent project status (g_epoch g) (g_now g)] else []).

Definition scroll_max (panes : gmap string PaneInfo) (pane_id : string) : Z :=
  match panes !! pane_id with Some p => match p_scroll p with Some (_, m) => m | None => 0 end | None => 0 end.

Definition commit_row (g : Args) (old : gmap string AgentInfo) (panes : gmap string PaneInfo) (m : Commit) (a : AgentInfo) : Commit :=
  let pane_id := a_pane_id a in
  let existing := old !! pane_id in
  let replaced := match existing with Some e => pane_session_replaced e a | None => false end in
  let existing := if replaced then None else existing in
  let ledger := if replaced then
                  let l := reset_upstream_rev (cm_ledger m) pane_id in put l pane_id (reset_on_replacement (cell_mut l pane_id))
                else cm_ledger m in
  let gens := row_generations g (cm_generations m) pane_id (bool_decide (existing = None)) replaced in
  let t := row_times g existing a (scroll_max panes pane_id) (default default_times (cm_times m !! pane_id)) in
  let '(c, tr) := row_cell g existing a t (cell_mut ledger pane_id) in
  mkCommit gens (<[pane_id := t]> (cm_times m)) (note_upstream_rev (put ledger pane_id c) pane_id (a_revision a)) (cm_transitions m ++ tr).

(** ** Committing a snapshot *)

(** The [!seen] pass over one pane of the old snapshot. *)
Definition drop_pane (live : gset string) (mr : Commit * list string) (pane_id : string) : Commit * list string :=
  let '(m, removed) := mr in
  if decide (pane_id ∈ live) then mr
  else (mkCommit (bump (cm_generations m) pane_id) (delete pane_id (cm_times m)) (remove (cm_ledger m) pane_id) (cm_transitions m), removed ++ [pane_id]).

Definition seed_pane (old_panes : gmap string PaneInfo) (l : AttentionLedger) (p : PaneInfo) : AttentionLedger :=
  let respawned := match old_panes !! p_pane_id p with Some e => identity_moved (pane_identity e) (pane_identity p) | None => false end in
  note_upstream_rev (if respawned then reset_upstream_rev l (p_pane_id p) else l) (p_pane_id p) (p_revision p).

Record AcceptOutcome := mkOutcome { transitions : list PaneTransition; removed : list string }.

(** The incoming rows as the commit sees them. *)
Definition incoming_agents (kind : CommitKind) (old : gmap string AgentInfo) (s : SessionSnapshot) : list AgentInfo :=
  if decide (kind = Event) then preserve_status old <$> agents s else agents s.

Definition live_agents (s : SessionSnapshot) : gset string := list_to_set (a_pane_id <$> agents s).
Definition live_panes (s : SessionSnapshot) : gset string := list_to_set (p_pane_id <$> panes s) ∪ live_agents s.

Definition accept_enriched (t : Topology) (s : SessionSnapshot) (enrich : gmap string Classification) (kind : CommitKind)
    (now : Z) (titles : gmap string string) (mint : string -> string) : Topology * AcceptOutcome :=
  let epoch := revision t + 1 in
  let old := by_pane a_pane_id (agents (snapshot t)) in
  let rows := incoming_agents kind old s in
  let s := mkSnapshot rows (panes s) (tabs s) (layouts s) in
  let g := mkArgs kind epoch now (bool_decide (accepted_at t = 0)) enrich titles mint in
  let m := foldl (commit_row g old (by_pane p_pane_id (panes s))) (mkCommit (generations t) (agent_times t) (attention t) []) rows in
  let '(m, removed) := foldl (drop_pane (live_agents s)) (m, []) (btree_keys old) in
  let ledger := foldl (seed_pane (by_pane p_pane_id (panes (snapshot t)))) (cm_ledger m) (panes s) in
  let ledger := retain_upstream ledger (fun p => bool_decide (p ∈ live_panes s)) in
  (mkTopology s epoch false (cm_generations m) (cm_times m) ledger now now true "" "", mkOutcome (cm_transitions m) removed).

(** ** The status event *)

Record StatusChanged := mkStatusChanged {
  sc_pane_id : string;
  sc_status : AgentStatus;
  sc_agent : option string;
  sc_display_agent : option string;
  sc_title : option string;
  sc_state_labels : gmap string string;
}.

(** A carried field that adds nothing to the committed one. *)
Definition carried (new_ old : option string) : bool := match new_ with None => true | Some v => bool_decide (old = Some v) end.

Definition status_unchanged (a : AgentInfo) (e : StatusChanged) : bool :=
  bool_decide (a_status a = sc_status e) && carried (sc_agent e) (a_agent a) && carried (sc_display_agent e) (a_display_agent a)
  && carried (sc_title e) (a_title a) && (bool_decide (sc_state_labels e = ∅) || bool_decide (a_state_labels a = sc_state_labels e)).

Definition or_keep (new_ old : option string) : option string := match new_ with Some v => Some v | None => old end.

Definition adopt_status (a : AgentInfo) (e : StatusChanged) : AgentInfo :=
  mkAgent (a_pane_id a) (a_terminal_id a) (a_workspace_id a) (a_tab_id a) (a_focused a) (sc_status e) (or_keep (sc_agent e) (a_agent a)) (a_name a)
    (or_keep (sc_display_agent e) (a_display_agent a)) (or_keep (sc_title e) (a_title a)) (a_cwd a) (a_foreground_cwd a) (a_revision a)
    (a_state_change_seq a) (a_interactive_ready a) (a_session a) (a_tokens a)
    (if decide (sc_state_labels e = ∅) then a_state_labels a else sc_state_labels e).

Definition status_times (now : Z) (a : AgentInfo) (scroll : Z) (t : AgentTimes) : AgentTimes :=
  let key := key_of a scroll in
  let t := if negb (seen t) || negb (bool_decide (change_key t = key)) then mkTimes now (last_active_at t) key true else t in
  if decide (last_active_at t < updated_at t) then mkTimes (updated_at t) (updated_at t) (change_key t) (seen t) else t.

Definition status_cell (epoch now : Z) (mint : string) (prev_agent : option string) (a : AgentInfo) (c : AttentionCell)
    : AttentionCell * list PaneTransition :=
  let pane_id := a_pane_id a in
  let status := status_str (a_status a) in
  let agent := default ""%string (a_agent a) in
  let project := project_of (default ""%string (a_cwd a)) in
  let prev := prev_status c in
  let previous := kind (blocked c) in
  let moved := negb (bool_decide (prev = status)) || negb (bool_decide (a_agent a = prev_agent)) in
  let '(c, changed) := sync_cycle c status mint in
  let c := stamp c epoch moved changed status (session_name c) in
  let '(c, tr) := register_transition c pane_id agent project prev status previous epoch now in
  let c := complete_cell c prev status previous epoch in
  (c, opt_list tr ++ if refire prev status previous changed c then [mkTransition pane_id agent project status epoch now] else []).

Definition find_agent (pane_id : string) (l : list AgentInfo) : option (nat * AgentInfo) := list_find (fun a => a_pane_id a = pane_id) l.

(** The first scroll record of the pane. *)
Definition find_scroll (pane_id : string) (l : list PaneInfo) : option (Z * Z) :=
  match list_find (fun p => p_pane_id p = pane_id) l with Some (_, p) => p_scroll p | None => None end.

Definition commit_agent_status (t : Topology) (e : StatusChanged) (now : Z) (mint : string) : option (Topology * AcceptOutcome) :=
  '(i, committed) ← find_agent (sc_pane_id e) (agents (snapshot t));
  if status_unchanged committed e then None
  else
    let pane_id := sc_pane_id e in
    let epoch := revision t + 1 in
    let a := adopt_status committed e in
    let scroll := match find_scroll pane_id (panes (snapshot t)) with Some (_, m) => m | None => 0 end in
    let times := status_times now a scroll (default default_times (agent_times t !! pane_id)) in
    let '(c, tr) := status_cell epoch now mint (a_agent committed) a (cell_mut (attention t) pane_id) in
    let s := mkSnapshot (<[i := a]> (agents (snapshot t))) (panes (snapshot t)) (tabs (snapshot t)) (layouts (snapshot t)) in
    Some (mkTopology s epoch (stale t) (generations t) (<[pane_id := times]> (agent_times t)) (put (attention t) pane_id c)
            (accepted_at t) (attempted_at t) (inventory_ready t) (inventory_error_code t) (inventory_message t), mkOutcome tr []).

(** ** Other writes *)

Definition bump_generation (t : Topology) (pane_id : string) (now : Z) : Topology :=
  let times := default default_times (agent_times t !! pane_id) in
  mkTopology (snapshot t) (revision t + 1) (stale t) (bump (generations t) pane_id)
    (<[pane_id := mkTimes now (last_active_at times) (change_key times) true]> (agent_times t))
    (reset_upstream_rev (attention t) pane_id) (accepted_at t) (attempted_at t) (inventory_ready t) (inventory_error_code t) (inventory_message t).

Definition mark_stale (t : Topology) : Topology * bool :=
  if stale t then (t, false)
  else (mkTopology (snapshot t) (revision t + 1) true (generations t) (agent_times t) (attention t) (accepted_at t) (attempted_at t)
          (inventory_ready t) (inventory_error_code t) (inventory_message t), true).

Definition mark_inventory_failure (t : Topology) (now : Z) : Topology * bool :=
  if negb (inventory_ready t) && bool_decide (inventory_error_code t = "command_failed"%string)
  then (mkTopology (snapshot t) (revision t) (stale t) (generations t) (agent_times t) (attention t) (accepted_at t) now
          (inventory_ready t) (inventory_error_code t) (inventory_message t), false)
  else (mkTopology (snapshot t) (revision t + 1) (stale t) (generations t) (agent_times t) (attention t) (accepted_at t) now
          false "command_failed" "Unable to read the current Herdr agent inventory.", true).

Definition set_ledger (t : Topology) (l : AttentionLedger) : Topology :=
  mkTopology (snapshot t) (revision t) (stale t) (generations t) (agent_times t) l (accepted_at t) (attempted_at t)
    (inventory_ready t) (inventory_error_code t) (inventory_message t).

(** ** Reads *)

Definition pane_of (t : Topology) (pane_id : string) : option AgentInfo := snd <$> find_agent pane_id (agents (snapshot t)).
Definition generation_of (t : Topology) (pane_id : string) : Z := default 0 (generations t !! pane_id).
Definition pane_session (t : Topology) (pane_id : string) : Z * bool := (generation_of t pane_id, bool_decide (is_Some (pane_of t pane_id))).
Definition attention_cell (t : Topology) (pane_id : string) : AttentionCell := default default_cell (cell (attention t) pane_id).
Definition state_rev_of (t : Topology) (pane_id : string) : Z := state_rev (attention_cell t pane_id).
Definition content_rev_of (t : Topology) (pane_id : string) : Z := content_rev (attention_cell t pane_id).
Definition attention_rev_of (t : Topology) (pane_id : string) : Z := attention_rev (attention_cell t pane_id).
Definition upstream_rev_of (t : Topology) (pane_id : string) : Z := upstream_rev (attention t) pane_id.
Definition pane_scroll_offset (t : Topology) (pane_id : string) : option Z := fst <$> find_scroll pane_id (panes (snapshot t)).
Definition pane_cell_size (t : Topology) (pane_id : string) : option (Z * Z) :=
  match list_find (fun l => l.1 = pane_id) (layouts (snapshot t)) with Some (_, l) => Some l.2 | None => None end.
Definition classification_agent (t : Topology) (pane_id : string) : string := default ""%string (pane_of t pane_id ≫= a_agent).
Definition pane_for_session (t : Topology) (agent_session_id : string) : option AgentInfo :=
  if decide (agent_session_id = ""%string) then None
  else snd <$> list_find (fun a => Utf8.trim <$> a_session a = Some agent_session_id) (agents (snapshot t)).

(** The [tab_*] projection: label, number and ordinal inside the workspace. *)
Fixpoint tab_scan (ws tab : string) (index ordinal : Z) (acc : string * Z * Z) (l : list TabInfo) : string * Z * Z :=
  match l with
  | [] => acc
  | tb :: l =>
      let ordinal := if decide (tb_workspace_id tb = ws) then ordinal + 1 else ordinal in
      let acc := if decide (tb_tab_id tb = tab) then (tb_label tb, if decide (tb_number tb <> 0) then tb_number tb else index + 1, ordinal) else acc in
      tab_scan ws tab (index + 1) ordinal acc l
  end.
Definition tab_context (t : Topology) (a : AgentInfo) : string * Z * Z :=
  tab_scan (a_workspace_id a) (a_tab_id a) 0 0 (""%string, 0, 0) (tabs (snapshot t)).

(** ** Fenced operations *)

Definition note_upstream (t : Topology) (pane_id : string) (rev : Z) : Topology := set_ledger t (note_upstream_rev (attention t) pane_id rev).

(** Statuses displayed before and after, and the pane's revision. *)
Definition acknowledge (t : Topology) (pane_id : string) (now : Z) : option (Topology * (string * string * Z)) :=
  a ← pane_of t pane_id;
  let status := status_str (a_status a) in
  let active := match agent_times t !! pane_id with Some times => last_active_at times | None => 0 end in
  let c := cell_mut (attention t) pane_id in
  let c' := acknowledge_cell c status active now in
  Some (set_ledger t (put (attention t) pane_id c'), (displayed_status c status, displayed_status c' status, state_rev c')).

Definition transition_current (t : Topology) (pane_id status : string) (rev : Z) : bool :=
  match pane_of t pane_id with
  | Some a => bool_decide (status_str (a_status a) = status) && bool_decide (state_rev_of t pane_id = rev)
  | None => false
  end.

Definition blocked_transition_current (t : Topology) (pane_id event : string) (generation : Z) : bool :=
  match pane_of t pane_id with
  | Some a => bool_decide (status_str (a_status a) = "blocked"%string) && bool_decide (generation_of t pane_id = generation)
              && bool_decide (event_id (blocked (attention_cell t pane_id)) = event)
  | None => false
  end.

Definition attention_transition_current (t : Topology) (pane_id event : string) (generation : Z) (k : string) (arev : Z) : bool :=
  blocked_transition_current t pane_id event generation
  && bool_decide (kind_str <$> kind (blocked (attention_cell t pane_id)) = Some k)
  && bool_decide (attention_rev (attention_cell t pane_id) = arev).

(** Past attention, or blocked on a chat prompt. *)
Definition past_attention (status : string) (c : AttentionCell) : bool :=
  negb (is_attention_status status) || (bool_decide (status = "blocked"%string) && bool_decide (kind (blocked c) = Some Chat)).

Definition completion_current (t : Topology) (pane_id : string) (rev : Z) : bool :=
  match pane_of t pane_id with
  | Some a => past_attention (status_str (a_status a)) (attention_cell t pane_id) && bool_decide (completion_rev (attention_cell t pane_id) = rev)
  | None => false
  end.

Definition register_finished_notification (t : Topology) (pane_id : string) (rev : Z) : Topology * bool :=
  match pane_of t pane_id with
  | None => (t, false)
  | Some a =>
      let c := cell_mut (attention t) pane_id in
      if negb (past_attention (status_str (a_status a)) c) || negb (bool_decide (completion_rev c = rev)) || finished_notif c
      then (set_ledger t (put (attention t) pane_id c), false)
      else (set_ledger t (put (attention t) pane_id (set_done c (unseen_done c) (ack_done c) true (completion_rev c))), true)
  end.

(** The committed cell when the classification landed or was already there. *)
Definition commit_attention (t : Topology) (pane_id event : string) (generation crev : Z) (cl : Classification) : Topology * option AttentionCell :=
  match pane_of t pane_id with
  | None => (t, None)
  | Some a =>
      if decide (status_str (a_status a) <> "blocked"%string \/ generation_of t pane_id <> generation) then (t, None)
      else
        let c := cell_mut (attention t) pane_id in
        if decide (event_id (blocked c) <> event \/ content_rev c <> crev) then (set_ledger t (put (attention t) pane_id c), None)
        else
          let previous := kind (blocked c) in
          let '(c, changed) := apply_classification approval_fingerprint c cl in
          let c := if changed then
                     let c := set_revs c (state_rev c + 1) (content_rev c + 1) (attention_rev c + 1) (prev_status c) (session_name c) in
                     sync_attention_completion c previous (kind (blocked c)) (state_rev c)
                   else c in
          (set_ledger t (put (attention t) pane_id c), Some c)
  end.

(** ** The row clients see *)

Record AgentState := mkState {
  as_pane_id : string;
  as_terminal_id : string;
  as_server_session_id : string;
  as_generation : Z;
  as_agent_session_id : string;
  as_tab_id : string;
  as_tab : string * Z * Z;
  as_workspace_id : string;
  as_agent : string;
  as_name : string;
  as_status : string;
  as_focused : bool;
  as_cwd : string;
  as_project : string;
  as_session : string;
  as_session_name : string;
  as_times : Z * Z * Z;
  as_activity_seq : Z;
  as_blocked : BlockedDetails;
  as_history_available : bool;
  as_pane_revision : Z;
}.

(** [supported]: whether the agent's transcripts can be read. *)
Definition agent_state (supported : string -> bool) (t : Topology) (a : AgentInfo) : AgentState :=
  let raw := default ""%string (a_session a) in
  let sid := match a_session a with Some s => Utf8.trim s | None => ""%string end in
  let times := default default_times (agent_times t !! a_pane_id a) in
  let c := attention_cell t (a_pane_id a) in
  let cwd := default ""%string (a_cwd a) in
  let agent := default ""%string (a_agent a) in
  mkState (a_pane_id a) (a_terminal_id a) "primary" (generation_of t (a_pane_id a)) sid (a_tab_id a) (tab_context t a) (a_workspace_id a)
    agent (default ""%string (a_name a)) (displayed_status c (status_str (a_status a))) (a_focused a) cwd (project_of cwd)
    (if decide (session_name c = ""%string) then raw else session_name c) (session_name c)
    (updated_at times, last_active_at times, last_seen_at c) (a_state_change_seq a) (blocked c)
    (negb (bool_decide (sid = ""%string)) && supported agent) (state_rev c).

(** ** The topology as a transition system *)

Inductive op :=
| OpAccept (s : SessionSnapshot) (enrich : gmap string Classification) (kind : CommitKind) (now : Z) (titles : gmap string string) (mint : string -> string)
| OpStatus (e : StatusChanged) (now : Z) (mint : string)
| OpBump (pane_id : string) (now : Z)
| OpStale
| OpInventoryFailure (now : Z)
| OpNote (pane_id : string) (rev : Z)
| OpAcknowledge (pane_id : string) (now : Z)
| OpFinished (pane_id : string) (rev : Z)
| OpClassify (pane_id event : string) (generation crev : Z) (cl : Classification).

Definition run_op (t : Topology) (o : op) : Topology :=
  match o with
  | OpAccept s enrich kind now titles mint => (accept_enriched t s enrich kind now titles mint).1
  | OpStatus e now mint => match commit_agent_status t e now mint with Some (t', _) => t' | None => t end
  | OpBump p now => bump_generation t p now
  | OpStale => (mark_stale t).1
  | OpInventoryFailure now => (mark_inventory_failure t now).1
  | OpNote p rev => note_upstream t p rev
  | OpAcknowledge p now => match acknowledge t p now with Some (t', _) => t' | None => t end
  | OpFinished p rev => (register_finished_notification t p rev).1
  | OpClassify p event generation crev cl => (commit_attention t p event generation crev cl).1
  end.

Definition run (t : Topology) (ops : list op) : Topology := foldl run_op t ops.
End Commit.

End Topology.
