(* ===== verification/TopologyInvariant.v ===== *)
(** * What the committed topology guarantees

    The invariant of [Topology.Topology] and its preservation by every write:
    one attention cell per live pane, recording exactly the status committed
    for it; generations that never go back and advance whenever a pane session
    ends; and the (generation, content revision) pair as a fence around reads. *)

From S2P Require Import Prelude Attention Topology.
Import Attention Topology.

Module TopologyInvariant.

Section Invariant.
Context (approval_fingerprint : Classification -> string).

Abbreviation row_cell := (Topology.row_cell approval_fingerprint).
Abbreviation commit_row := (Topology.commit_row approval_fingerprint).
Abbreviation accept_enriched := (Topology.accept_enriched approval_fingerprint).
Abbreviation run_op := (Topology.run_op approval_fingerprint).
Abbreviation run := (Topology.run approval_fingerprint).

(** ** Cells *)

(** The part of a cell the done/acknowledged bookkeeping never touches. *)
Definition core (c : AttentionCell) : BlockedDetails * Z * Z * Z * string * string :=
  (blocked c, state_rev c, content_rev c, attention_rev c, prev_status c, session_name c).

(** Details that only differ in the body of an interaction with the same id. *)
Definition similar (a b : BlockedDetails) : Prop := event_id a = event_id b /\ details_moved a b = false.

Lemma same_interaction_refl i : same_interaction i i = true.
Proof. destruct i; cbn; [by rewrite bool_decide_eq_true_2|done]. Qed.

Lemma similar_refl b : similar b b.
Proof. split; [done|]. unfold details_moved. rewrite same_interaction_refl, !bool_decide_eq_true_2 by done. done. Qed.

Lemma details_moved_spec a b : details_moved a b = false <->
  kind a = kind b /\ prompt a = prompt b /\ command a = command b /\ options a = options b /\ approval_fp a = approval_fp b /\
  same_interaction (interaction a) (interaction b) = true /\ question_layout a = question_layout b /\ interaction_id a = interaction_id b.
Proof. unfold details_moved. rewrite negb_false_iff, !andb_true_iff, !bool_decide_eq_true. tauto. Qed.

Lemma same_interaction_trans i j k : same_interaction i j = true -> same_interaction j k = true -> same_interaction i k = true.
Proof. destruct i, j, k; cbn; try done. rewrite !bool_decide_eq_true. congruence. Qed.

Lemma similar_trans a b c : similar a b -> similar b c -> similar a c.
Proof.
  unfold similar. rewrite !details_moved_spec. intros (He & H1 & H2 & H3 & H4 & H5 & H6 & H7 & H8) (He' & G1 & G2 & G3 & G4 & G5 & G6 & G7 & G8).
  pose proof (same_interaction_trans _ _ _ H6 G6). split; [congruence|]. repeat split; congruence.
Qed.

Lemma register_transition_core c p ag pr prev st pa rev now : core (register_transition c p ag pr prev st pa rev now).1 = core c.
Proof. unfold register_transition. repeat case_match; done. Qed.
Lemma sync_completion_core c p q rev : core (sync_attention_completion c p q rev) = core c.
Proof. unfold sync_attention_completion. repeat case_match; done. Qed.
Lemma complete_core c prev st p e : core (complete_cell c prev st p e) = core c.
Proof. unfold complete_cell. case_match; [done|apply sync_completion_core]. Qed.
Lemma seed_core e st t c : core (seed_done e st t c) = core c.
Proof. unfold seed_done. repeat case_match; done. Qed.

(** The blocked details a status demands. *)
Definition cycle_ok (status : string) (b : BlockedDetails) : Prop :=
  if decide (status = "blocked"%string) then is_Some (kind b) else b = no_details.

Lemma sync_cycle_spec c status mint c' changed : sync_cycle c status mint = (c', changed) ->
  c' = set_blocked c (blocked c') /\ cycle_ok status (blocked c') /\ (changed = false -> blocked c' = blocked c).
Proof.
  unfold sync_cycle, clear_blocked, cycle_ok. case_decide as Hst; intros [= <- <-]; cbn.
  - rewrite (decide_False (P := status = "blocked"%string)) by done. split; [done|]. split; [done|]. rewrite negb_false_iff, bool_decide_eq_true. done.
  - rewrite (decide_True (P := status = "blocked"%string)) by done. split; [done|]. split; [destruct (kind (blocked c)); by eexists|].
    rewrite orb_false_iff, !bool_decide_eq_false. intros [Hk He]. rewrite decide_False by done. destruct (blocked c) as [? k ? ? ? ? ? ? ?]; cbn in *. by destruct k.
Qed.

(** The first half of a row's commit: cycle sync and classification. *)
Definition row_details (g : Args) (existing : option AgentInfo) (a : AgentInfo) (c : AttentionCell) : AttentionCell * bool :=
  let status := status_str (a_status a) in
  let '(c, changed) := sync_cycle c status (g_mint g (a_pane_id a)) in
  match (if bool_decide (status = "blocked"%string) && (bool_decide (g_kind g = Poll) || bool_decide (existing = None)) then g_enrich g !! a_pane_id a else None) with
  | Some cl => let '(c, moved) := apply_classification approval_fingerprint c cl in (c, changed || moved)
  | None => (c, changed)
  end.

Lemma row_details_spec g existing a c c' changed : row_details g existing a c = (c', changed) ->
  c' = set_blocked c (blocked c') /\ cycle_ok (status_str (a_status a)) (blocked c') /\ (changed = false -> similar (blocked c) (blocked c')).
Proof.
  unfold row_details. destruct (sync_cycle _ _ _) as [c1 ch1] eqn:Es. apply sync_cycle_spec in Es as (H1 & H2 & H3).
  set (en := if _ && _ then _ else _). destruct en as [cl|] eqn:Ee.
  - unfold apply_classification. intros [= <- <-]. cbn. split; [by rewrite H1|]. split.
    + unfold cycle_ok. subst en. destruct (bool_decide (_ = "blocked"%string)) eqn:Eb; [|done]. apply bool_decide_eq_true in Eb.
      rewrite decide_True by done. by eexists.
    + rewrite orb_false_iff. intros [-> Hm]. rewrite <- (H3 eq_refl). by split.
  - intros [= <- <-]. split; [done|]. split; [done|]. intros ->. rewrite H3 by done. apply similar_refl.
Qed.

Lemma row_cell_spec g existing a t c :
  let c' := (row_cell g existing a t c).1 in
  prev_status c' = status_str (a_status a) /\ state_rev c' = g_epoch g /\ cycle_ok (status_str (a_status a)) (blocked c') /\
  content_rev c <= content_rev c' /\ (content_rev c' = content_rev c -> row_moved existing a = false /\ similar (blocked c) (blocked c')).
Proof.
  intros c'.
  assert (exists c1 changed, row_details g existing a c = (c1, changed) /\
    core c' = core (stamp c1 (g_epoch g) (row_moved existing a) changed (status_str (a_status a)) (default ""%string (g_titles g !! a_pane_id a)))) as (c1 & changed & Hd & Hcore).
  { subst c'. unfold Topology.row_cell, row_details. destruct (sync_cycle _ _ _) as [c1 ch1].
    destruct (if _ && _ then _ else _) as [cl|]; [unfold apply_classification|].
    all: eexists _, _; split; [done|]; cbv zeta; destruct (register_transition _ _ _ _ _ _ _ _ _) as [c2 tr] eqn:Er; cbn [fst];
      rewrite complete_core, seed_core; change c2 with (c2, tr).1; by rewrite <- Er, register_transition_core. }
  apply row_details_spec in Hd as (H1 & H2 & H3). unfold core, stamp in Hcore. cbn in Hcore. injection Hcore as -> -> -> _ -> _.
  split; [done|]. split; [done|]. split; [done|].
  assert (content_rev c1 = content_rev c) as Hcr by (by rewrite H1). rewrite Hcr.
  destruct (row_moved existing a); cbn; [split; [lia|intros; lia]|]. destruct changed; [split; [lia|intros; lia]|]. split; [lia|]. intros _. by split; [|apply H3].
Qed.

(** ** Rows *)

Lemma note_cells l p r : cells (note_upstream_rev l p r) = cells l.
Proof. unfold note_upstream_rev. by case_decide. Qed.

Lemma bump_at gens p : bump gens p !! p = Some (default 0 (gens !! p) + 1).
Proof. apply lookup_insert_eq. Qed.
Lemma bump_other gens p q : p <> q -> bump gens p !! q = gens !! q.
Proof. apply lookup_insert_ne. Qed.

Lemma cell_mut_put l p c : cell_mut (put l p c) p = c.
Proof. unfold cell_mut, put. cbn. by rewrite lookup_insert_eq. Qed.

(** What a commit holds for one pane. *)
Definition at_pane (m : Commit) (p : string) : option Z * option AttentionCell := (cm_generations m !! p, cells (cm_ledger m) !! p).

Lemma commit_row_other g old panes m a p : p <> a_pane_id a -> at_pane (commit_row g old panes m a) p = at_pane m p.
Proof.
  intros Hp. unfold Topology.commit_row, at_pane. set (replaced := match old !! _ with Some _ => _ | None => _ end).
  destruct (row_cell _ _ _ _ _) as [c tr]. cbn [cm_generations cm_ledger]. rewrite note_cells. f_equal.
  - unfold row_generations. repeat case_match; [by apply bump_other|by apply bump_other|done].
  - unfold put. cbn [cells]. rewrite lookup_insert_ne by done. destruct replaced; [|done]. cbn. by rewrite lookup_insert_ne.
Qed.

(** The generation and cell a row leaves, from those it finds. *)
Definition row_effect (g : Args) (existing : option AgentInfo) (a : AgentInfo) (gen : Z) (c : AttentionCell) (gen' : Z) (c' : AttentionCell) : Prop :=
  match existing with
  | Some e =>
      if pane_session_replaced e a then gen' = gen + 1 /\ exists t, c' = (row_cell g None a t (reset_on_replacement c)).1
      else gen' = gen /\ exists t, c' = (row_cell g (Some e) a t c).1
  | None => gen' = (if negb (g_initial g) && bool_decide (0 < gen) then gen + 1 else gen) /\ exists t, c' = (row_cell g None a t c).1
  end.

Lemma commit_row_at g old panes m a :
  exists gen' c', cells (cm_ledger (commit_row g old panes m a)) !! a_pane_id a = Some c' /\
    default 0 (cm_generations (commit_row g old panes m a) !! a_pane_id a) = gen' /\
    row_effect g (old !! a_pane_id a) a (default 0 (cm_generations m !! a_pane_id a)) (default default_cell (cells (cm_ledger m) !! a_pane_id a)) gen' c'.
Proof.
  unfold Topology.commit_row, row_effect. set (p := a_pane_id a).
  destruct (old !! p) as [e|]; [destruct (pane_session_replaced e a)|]; cbv zeta.
  all: destruct (row_cell _ _ _ _ _) as [c tr] eqn:Er; cbn [cm_generations cm_ledger]; eexists _, c; rewrite note_cells; cbn [cells put];
    rewrite lookup_insert_eq; split; [done|]; split; [done|].
  - unfold row_generations. rewrite bump_at. split; [done|]. eexists. rewrite cell_mut_put in Er. symmetry. exact (f_equal fst Er).
  - unfold row_generations. rewrite bool_decide_eq_false_2 by done. cbn [andb]. split; [done|]. eexists. symmetry. exact (f_equal fst Er).
  - unfold row_generations. rewrite bool_decide_eq_true_2 by done. cbn [andb]. split; [|eexists; symmetry; exact (f_equal fst Er)].
    destruct (negb _ && _); [by rewrite bump_at|done].
Qed.

Lemma fold_rows_other g old panes rows m p : p ∉ a_pane_id <$> rows -> at_pane (foldl (commit_row g old panes) m rows) p = at_pane m p.
Proof.
  revert m. induction rows as [|a rows IH]; intros m; cbn [foldl]; [done|]. rewrite fmap_cons, not_elem_of_cons. intros [Ha Hr].
  rewrite IH by done. by apply commit_row_other.
Qed.

Lemma fold_rows_at g old panes rows m a : NoDup (a_pane_id <$> rows) -> a ∈ rows ->
  let m' := foldl (commit_row g old panes) m rows in let p := a_pane_id a in
  exists gen' c', cells (cm_ledger m') !! p = Some c' /\ default 0 (cm_generations m' !! p) = gen' /\
    row_effect g (old !! p) a (default 0 (cm_generations m !! p)) (default default_cell (cells (cm_ledger m) !! p)) gen' c'.
Proof.
  revert m. induction rows as [|b rows IH]; intros m; [by intros _ ?%elem_of_nil|]. rewrite fmap_cons, NoDup_cons. intros [Hb Hnd] Ha. cbn [foldl].
  apply elem_of_cons in Ha as [->|Ha].
  - destruct (commit_row_at g old panes m b) as (gen' & c' & Hc & Hg & He). exists gen', c'. pose proof (fold_rows_other g old panes rows (commit_row g old panes m b) _ Hb) as Ho.
    unfold at_pane in Ho. injection Ho as -> ->. done.
  - assert (a_pane_id a <> a_pane_id b) as Hne by (intros E; apply Hb; rewrite <- E; by apply list_elem_of_fmap_2).
    destruct (IH (commit_row g old panes m b) Hnd Ha) as (gen' & c' & Hc & Hg & He). exists gen', c'.
    pose proof (commit_row_other g old panes m b _ Hne) as Ho. unfold at_pane in Ho. injection Ho as Ho1 Ho2. rewrite Ho1, Ho2 in He. done.
Qed.

(** ** Removal and seeding *)

Lemma drop_pane_at live m r q p :
  at_pane (drop_pane live (m, r) q).1 p =
  if decide (p = q /\ q ∉ live) then (Some (default 0 (cm_generations m !! p) + 1), None) else at_pane m p.
Proof.
  unfold drop_pane, at_pane. destruct (decide (q ∈ live)) as [Hq|Hq]; cbn [fst cm_generations cm_ledger].
  - by rewrite decide_False by tauto.
  - destruct (decide (p = q)) as [->|Hne].
    + rewrite decide_True by done. rewrite bump_at. cbn. by rewrite lookup_delete_eq.
    + rewrite decide_False by tauto. rewrite bump_other by done. cbn. by rewrite lookup_delete_ne.
Qed.

Lemma drop_panes_at live ks m r p : NoDup ks ->
  at_pane (foldl (drop_pane live) (m, r) ks).1 p =
  if decide (p ∈ ks /\ p ∉ live) then (Some (default 0 (cm_generations m !! p) + 1), None) else at_pane m p.
Proof.
  revert m r. induction ks as [|q ks IH]; intros m r; cbn [foldl].
  { intros _. rewrite decide_False; [done|]. intros [?%elem_of_nil _]. done. }
  rewrite NoDup_cons. intros [Hq Hnd]. destruct (drop_pane live (m, r) q) as [m1 r1] eqn:E. rewrite IH by done.
  pose proof (drop_pane_at live m r q p) as H1. rewrite E in H1. cbn [fst] in H1. destruct (decide (p = q)) as [->|Hne].
  - rewrite (decide_False (P := q ∈ ks /\ _)) by tauto. rewrite H1. destruct (decide (q ∈ live)); [rewrite !decide_False by tauto; done|].
    rewrite !decide_True; [done|split; [apply list_elem_of_here|done]|done].
  - rewrite (decide_False (P := p = q /\ _)) in H1 by tauto. unfold at_pane in H1 at 1. injection H1 as Hg Hc.
    destruct (decide (p ∈ ks /\ p ∉ live)) as [[Hk Hl]|Hn].
    + rewrite decide_True by (split; [by right|done]). by rewrite Hg.
    + rewrite decide_False by (rewrite elem_of_cons; tauto). unfold at_pane. by rewrite Hg, Hc.
Qed.

Lemma seed_panes_cells old ps l : cells (foldl (seed_pane old) l ps) = cells l.
Proof. revert l. induction ps as [|p ps IH]; intros l; cbn [foldl]; [done|]. rewrite IH. unfold seed_pane. rewrite note_cells. by case_match. Qed.

(** ** Looking panes up *)

Definition snapshot_ok (s : SessionSnapshot) : Prop := NoDup (a_pane_id <$> agents s).

Lemma by_pane_lookup {A} (key : A -> string) rows p r : NoDup (key <$> rows) -> by_pane key rows !! p = Some r <-> r ∈ rows /\ key r = p.
Proof.
  intros Hnd. unfold by_pane. rewrite <- elem_of_list_to_map, elem_of_reverse, list_elem_of_fmap.
  - split; [intros (x & [= -> ->] & Hx); done|]. intros [Hr <-]. by exists r.
  - rewrite fmap_reverse, <- list_fmap_compose. change (NoDup (reverse (key <$> rows))). by rewrite reverse_Permutation.
Qed.

Lemma find_agent_Some l p a : NoDup (a_pane_id <$> l) -> snd <$> find_agent p l = Some a <-> a ∈ l /\ a_pane_id a = p.
Proof.
  intros Hnd. unfold find_agent. rewrite fmap_Some. split.
  - intros ([i x] & (Hi & Hx & _)%list_find_Some & ->). cbn. split; [by eapply list_elem_of_lookup_2|done].
  - intros [Ha Hp]. destruct (list_find_elem_of (fun x => a_pane_id x = p) l a Ha Hp) as [[i x] Hx]. exists (i, x). split; [done|].
    apply list_find_Some in Hx as (Hi & Hx & _). cbn. apply list_elem_of_lookup in Ha as [j Hj].
    assert (i = j) as <-; [|congruence]. apply (NoDup_lookup (a_pane_id <$> l) i j p Hnd); rewrite list_lookup_fmap.
    + rewrite Hi. cbn. congruence.
    + rewrite Hj. cbn. congruence.
Qed.

Lemma pane_of_spec t p a : snapshot_ok (snapshot t) -> pane_of t p = Some a <-> a ∈ agents (snapshot t) /\ a_pane_id a = p.
Proof. intros. by apply find_agent_Some. Qed.

Lemma pane_of_None t p : snapshot_ok (snapshot t) -> pane_of t p = None <-> p ∉ a_pane_id <$> agents (snapshot t).
Proof.
  intros Hok. rewrite list_elem_of_fmap, eq_None_not_Some. split.
  - intros Hn (a & -> & Ha). apply Hn. exists a. by apply pane_of_spec.
  - intros Hn [a [Ha <-]%pane_of_spec]; [|done]. apply Hn. by exists a.
Qed.

Lemma old_pane_of t p : snapshot_ok (snapshot t) -> by_pane a_pane_id (agents (snapshot t)) !! p = pane_of t p.
Proof.
  intros Hok. apply option_eq. intros a. rewrite by_pane_lookup by done. by rewrite pane_of_spec.
Qed.

Lemma preserve_pane_id old a : a_pane_id (preserve_status old a) = a_pane_id a.
Proof. unfold preserve_status. by repeat case_match. Qed.

Lemma incoming_ids kind old s : a_pane_id <$> incoming_agents kind old s = a_pane_id <$> agents s.
Proof.
  unfold incoming_agents. case_decide; [|done]. rewrite <- list_fmap_compose. apply list_fmap_ext. intros i a _. apply preserve_pane_id.
Qed.

(** The rows committed for [p]. *)
Definition accept_args (t : Topology) (enrich : gmap string Classification) (kind : CommitKind) (now : Z) (titles : gmap string string) (mint : string -> string) : Args :=
  mkArgs kind (revision t + 1) now (bool_decide (accepted_at t = 0)) enrich titles mint.

Lemma accept_pane t s enrich kind now titles mint p :
  snapshot_ok (snapshot t) -> snapshot_ok s ->
  let t' := (accept_enriched t s enrich kind now titles mint).1 in
  snapshot_ok (snapshot t') /\
  match pane_of t' p with
  | None => cells (attention t') !! p = (if pane_of t p then None else cells (attention t) !! p) /\
            generation_of t' p = (if pane_of t p then generation_of t p + 1 else generation_of t p)
  | Some a => exists c', cells (attention t') !! p = Some c' /\
      row_effect (accept_args t enrich kind now titles mint) (pane_of t p) a (generation_of t p) (attention_cell t p) (generation_of t' p) c'
  end.
Proof.
  intros Hok Hs. set (rows := incoming_agents kind (by_pane a_pane_id (agents (snapshot t))) s).
  assert (NoDup (a_pane_id <$> rows)) as Hnd by (subst rows; by rewrite incoming_ids).
  unfold Topology.accept_enriched. fold rows. cbv zeta. cbn [panes].
  set (g := mkArgs _ _ _ _ _ _ _). set (old := by_pane a_pane_id (agents (snapshot t))).
  set (m := foldl (commit_row g old _) _ rows). destruct (foldl (drop_pane _) (m, []) (btree_keys old)) as [m' removed] eqn:Ed. cbn [fst].
  set (t' := mkTopology _ _ _ _ _ _ _ _ _ _ _).
  assert (snapshot_ok (snapshot t')) as Hok' by exact Hnd. split; [done|].
  assert (at_pane m' p = if decide (is_Some (pane_of t p) /\ pane_of t' p = None) then (Some (default 0 (cm_generations m !! p) + 1), None) else at_pane m p) as Hm'.
  { change m' with (m', removed).1. rewrite <- Ed. rewrite drop_panes_at by apply NoDup_btree_keys.
    apply decide_ext. rewrite elem_of_btree_keys. subst old. rewrite old_pane_of by done. unfold live_agents. cbn [agents].
    rewrite elem_of_list_to_set. rewrite (pane_of_None t' p Hok'). done. }
  assert (generation_of t' p = default 0 (at_pane m' p).1) as Hgen by done.
  assert (cells (attention t') !! p = (at_pane m' p).2) as Hcell by (cbn; by rewrite seed_panes_cells).
  rewrite Hgen, Hcell, Hm'. destruct (pane_of t' p) as [a|] eqn:Ea.
  - rewrite decide_False by (intros [_ ?]; done). apply pane_of_spec in Ea as [Ha <-]; [|done].
    destruct (fold_rows_at g old (by_pane p_pane_id (panes s)) rows (mkCommit (generations t) (agent_times t) (attention t) []) a Hnd Ha) as (gen' & c' & Hc & Hg & He).
    exists c'. split; [exact Hc|]. subst old. rewrite old_pane_of in He by done. rewrite <- Hg in He. exact He.
  - apply pane_of_None in Ea; [|done]. assert (at_pane m p = (generations t !! p, cells (attention t) !! p)) as Hmp by (subst m; by rewrite fold_rows_other).
    destruct (pane_of t p) as [e|] eqn:Ee.
    + rewrite decide_True by (split; [by eexists|done]). cbn. unfold at_pane in Hmp. injection Hmp as -> _. done.
    + rewrite decide_False by (by intros [[] _]). by rewrite Hmp.
Qed.

(** ** The invariant *)

Definition cell_ok (a : AgentInfo) (c : AttentionCell) : Prop :=
  prev_status c = status_str (a_status a) /\ cycle_ok (status_str (a_status a)) (blocked c).

Definition inv (t : Topology) : Prop :=
  snapshot_ok (snapshot t) /\
  forall p, match pane_of t p with
            | Some a => exists c, cells (attention t) !! p = Some c /\ cell_ok a c
            | None => cells (attention t) !! p = None
            end.

Definition op_ok (o : op) : Prop := match o with OpAccept s _ _ _ _ _ => snapshot_ok s | _ => True end.

Lemma new_inv : inv new.
Proof. split; [apply NoDup_nil_2|]. done. Qed.

Lemma row_effect_cell g ex a gen c gen' c' : row_effect g ex a gen c gen' c' -> cell_ok a c'.
Proof.
  unfold row_effect, cell_ok. destruct ex as [e|]; [destruct (pane_session_replaced e a)|]; intros [_ [t ->]].
  all: match goal with |- context [Topology.row_cell _ ?g ?x ?a ?t ?c] => destruct (row_cell_spec g x a t c) as (? & _ & ? & _) end; done.
Qed.

Lemma accept_inv t s enrich kind now titles mint : inv t -> snapshot_ok s -> inv (accept_enriched t s enrich kind now titles mint).1.
Proof.
  intros [Hok Hc] Hs. split; [by destruct (accept_pane t s enrich kind now titles mint "" Hok Hs)|]. intros p.
  destruct (accept_pane t s enrich kind now titles mint p Hok Hs) as [_ Hp]. specialize (Hc p).
  destruct (pane_of (accept_enriched t s enrich kind now titles mint).1 p) as [a|].
  - destruct Hp as (c' & H1 & H2). exists c'. split; [done|]. by eapply row_effect_cell.
  - destruct Hp as [-> _]. destruct (pane_of t p); [done|exact Hc].
Qed.

Lemma status_cell_spec epoch now mint pa a c :
  let c' := (status_cell epoch now mint pa a c).1 in
  prev_status c' = status_str (a_status a) /\ cycle_ok (status_str (a_status a)) (blocked c') /\
  content_rev c <= content_rev c' /\
  (content_rev c' = content_rev c -> prev_status c = status_str (a_status a) /\ a_agent a = pa /\ similar (blocked c) (blocked c')).
Proof.
  intros c'. assert (exists c1 changed, sync_cycle c (status_str (a_status a)) mint = (c1, changed) /\
    core c' = core (stamp c1 epoch (negb (bool_decide (prev_status c = status_str (a_status a))) || negb (bool_decide (a_agent a = pa))) changed
                      (status_str (a_status a)) (session_name c1))) as (c1 & changed & Hd & Hcore).
  { subst c'. unfold status_cell. destruct (sync_cycle _ _ _) as [c1 ch1]. eexists _, _. split; [done|]. cbv zeta.
    destruct (register_transition _ _ _ _ _ _ _ _ _) as [c2 tr] eqn:Er. cbn [fst]. rewrite complete_core.
    change c2 with (c2, tr).1. by rewrite <- Er, register_transition_core. }
  apply sync_cycle_spec in Hd as (H1 & H2 & H3). unfold core, stamp in Hcore. cbn in Hcore. injection Hcore as -> _ -> _ -> _.
  split; [done|]. split; [done|]. assert (content_rev c1 = content_rev c) as -> by (by rewrite H1).
  destruct (bool_decide (prev_status c = _)) eqn:E1; [apply bool_decide_eq_true in E1|cbn; split; [lia|intros; lia]].
  destruct (bool_decide (a_agent a = pa)) eqn:E2; [apply bool_decide_eq_true in E2|cbn; split; [lia|intros; lia]].
  destruct changed; cbn; [split; [lia|intros; lia]|]. split; [lia|]. intros _. do 2 (split; [done|]). rewrite H3 by done. apply similar_refl.
Qed.

Lemma adopt_pane_id a e : a_pane_id (adopt_status a e) = a_pane_id a.
Proof. done. Qed.

Lemma status_pane t e now mint t' out p : snapshot_ok (snapshot t) -> commit_agent_status t e now mint = Some (t', out) ->
  snapshot_ok (snapshot t') /\ generation_of t' p = generation_of t p /\
  if decide (p = sc_pane_id e) then
    exists a, pane_of t p = Some a /\ pane_of t' p = Some (adopt_status a e) /\
      cells (attention t') !! p = Some (status_cell (revision t + 1) now mint (a_agent a) (adopt_status a e) (attention_cell t p)).1
  else pane_of t' p = pane_of t p /\ cells (attention t') !! p = cells (attention t) !! p.
Proof.
  intros Hok. unfold commit_agent_status. destruct (find_agent _ _) as [[i a]|] eqn:Ef; [|done]. cbn [mbind option_bind].
  destruct (status_unchanged a e); [done|]. cbv zeta. destruct (status_cell _ _ _ _ _ _) as [c tr] eqn:Ec. intros [= <- <-].
  assert (pane_of t (sc_pane_id e) = Some a) as Ha by (unfold pane_of; by rewrite Ef).
  apply list_find_Some in Ef as (Hi & Hp & _). set (t' := mkTopology _ _ _ _ _ _ _ _ _ _ _).
  assert (a_pane_id <$> agents (snapshot t') = a_pane_id <$> agents (snapshot t)) as Hids.
  { cbn. rewrite list_fmap_insert. apply list_insert_id. by rewrite list_lookup_fmap, Hi. }
  assert (snapshot_ok (snapshot t')) as Hok' by (unfold snapshot_ok; by rewrite Hids). split; [done|]. split; [done|].
  assert (i < length (agents (snapshot t)))%nat as Hlt by (by eapply lookup_lt_Some). case_decide as Hpe.
  - subst p. exists a. split; [done|]. split.
    + apply pane_of_spec; [done|]. split; [|done]. apply (list_elem_of_lookup_2 _ i). cbn. by rewrite list_lookup_insert_eq.
    + cbn. rewrite lookup_insert_eq. f_equal. symmetry. exact (f_equal fst Ec).
  - split; [|cbn; by rewrite lookup_insert_ne]. apply option_eq. intros b. rewrite !pane_of_spec by done. cbn.
    split; (intros [[j Hj]%list_elem_of_lookup Hb]; split; [|done]; apply (list_elem_of_lookup_2 _ j)).
    + rewrite list_lookup_insert_ne in Hj; [done|]. intros <-. rewrite list_lookup_insert_eq in Hj by done. injection Hj as <-. rewrite adopt_pane_id in Hb. congruence.
    + rewrite list_lookup_insert_ne; [done|]. intros <-. congruence.
Qed.

(** ** The fence *)

(** The fields a read of the pane is fenced on. *)
Definition content_same (a b : AgentInfo) : Prop :=
  status_str (a_status a) = status_str (a_status b) /\ a_name a = a_name b /\ a_cwd a = a_cwd b /\ a_agent a = a_agent b /\ a_state_change_seq a = a_state_change_seq b.

(** What happened to [p] between two topologies: its generation never goes
    back; while it stays, the pane stays, its content revision never goes back, and
    while that stays too the committed row and blocked details are the same. *)
Definition held (t t' : Topology) (p : string) : Prop :=
  generation_of t p <= generation_of t' p /\
  forall a, pane_of t p = Some a -> generation_of t' p = generation_of t p ->
    exists a', pane_of t' p = Some a' /\ content_rev_of t p <= content_rev_of t' p /\
      (content_rev_of t' p = content_rev_of t p ->
       content_same a a' /\ similar (blocked (attention_cell t p)) (blocked (attention_cell t' p))).

Lemma held_refl t p : held t t p.
Proof. split; [lia|]. intros a Ha _. exists a. split; [done|]. split; [lia|]. intros _. split; [done|apply similar_refl]. Qed.

Lemma held_trans t1 t2 t3 p : held t1 t2 p -> held t2 t3 p -> held t1 t3 p.
Proof.
  intros [Hg1 H1] [Hg2 H2]. split; [lia|]. intros a Ha Hg. destruct (H1 a Ha ltac:(lia)) as (a2 & Ha2 & Hc1 & Hs1).
  destruct (H2 a2 Ha2 ltac:(lia)) as (a3 & Ha3 & Hc2 & Hs2). exists a3. split; [done|]. split; [lia|]. intros Hc.
  destruct (Hs1 ltac:(lia)) as [Hsame1 Hsim1]. destruct (Hs2 ltac:(lia)) as [Hsame2 Hsim2].
  split; [|by eapply similar_trans]. unfold content_same in *. intuition congruence.
Qed.

(** A write that leaves the pane, its generation, revision and details alone. *)
Lemma held_same t t' p : pane_of t' p = pane_of t p -> generation_of t' p = generation_of t p ->
  content_rev_of t' p = content_rev_of t p -> blocked (attention_cell t' p) = blocked (attention_cell t p) -> held t t' p.
Proof.
  intros Hp Hg Hc Hb. split; [lia|]. intros a Ha _. exists a. split; [congruence|]. split; [lia|]. intros _. split; [done|]. rewrite Hb. apply similar_refl.
Qed.

Lemma row_moved_same e a : row_moved (Some e) a = false -> content_same e a.
Proof.
  unfold row_moved, content_same. rewrite negb_false_iff, !andb_true_iff, !bool_decide_eq_true. intros ((((-> & ->) & ->) & ->) & ->). done.
Qed.

Lemma cell_of t p c : cells (attention t) !! p = Some c -> attention_cell t p = c.
Proof. unfold attention_cell, cell. by intros ->. Qed.

Lemma accept_held t s enrich kind now titles mint p : snapshot_ok (snapshot t) -> snapshot_ok s ->
  held t (accept_enriched t s enrich kind now titles mint).1 p.
Proof.
  intros Hok Hs. destruct (accept_pane t s enrich kind now titles mint p Hok Hs) as [_ Hp]. set (t' := (accept_enriched _ _ _ _ _ _ _).1) in *.
  destruct (pane_of t' p) as [a|] eqn:Ea.
  - destruct Hp as (c' & Hc & He). unfold row_effect in He. destruct (pane_of t p) as [e|] eqn:Ee; [destruct (pane_session_replaced e a)|].
    + destruct He as [Hg _]. split; [lia|]. intros; lia.
    + destruct He as [Hg [tm ->]]. split; [lia|]. intros e0 He0 _. assert (e0 = e) as -> by congruence. exists a. split; [done|].
      destruct (row_cell_spec (accept_args t enrich kind now titles mint) (Some e) a tm (attention_cell t p)) as (_ & _ & _ & Hle & Heq).
      unfold content_rev_of. rewrite (cell_of t' p _ Hc). split; [done|]. intros E. destruct (Heq E) as [Hm Hsim]. split; [by apply row_moved_same|done].
    + destruct He as [Hg _]. split; [|intros e0; congruence]. rewrite Hg. case_match; lia.
  - destruct Hp as [_ Hg]. destruct (pane_of t p) as [e|] eqn:Ee.
    + split; [lia|]. intros; lia.
    + split; [lia|]. intros e0. congruence.
Qed.

Lemma put_held t p q c : pane_of t p = None \/ p <> q \/
  (content_rev c = content_rev_of t p /\ blocked c = blocked (attention_cell t p)) -> held t (set_ledger t (put (attention t) q c)) p.
Proof.
  intros H. destruct (decide (p = q)) as [->|Hne].
  - destruct H as [H|[H|[H1 H2]]]; [|done|].
    + split; [done|]. intros a. congruence.
    + apply held_same; try done; unfold content_rev_of, attention_cell, cell; cbn; by rewrite lookup_insert_eq.
  - apply held_same; try done; unfold content_rev_of, attention_cell, cell; cbn; by rewrite lookup_insert_ne.
Qed.

(** ** Every write *)

Lemma put_inv t q a c : inv t -> pane_of t q = Some a -> cell_ok a c -> inv (set_ledger t (put (attention t) q c)).
Proof.
  intros [Hok Hc] Hq Hcell. split; [done|]. intros p. specialize (Hc p). change (pane_of (set_ledger t (put (attention t) q c)) p) with (pane_of t p). cbn.
  destruct (decide (p = q)) as [->|Hne].
  - rewrite Hq. exists c. by rewrite lookup_insert_eq.
  - by rewrite lookup_insert_ne.
Qed.

Lemma live_cell t p a : inv t -> pane_of t p = Some a -> cell_ok a (attention_cell t p).
Proof. intros [_ Hc] Hp. specialize (Hc p). rewrite Hp in Hc. destruct Hc as (c & Hl & Hcell). by rewrite (cell_of t p c Hl). Qed.

(** A cell that keeps the status, the details and the content revision. *)
Definition same_core (c c' : AttentionCell) : Prop := prev_status c' = prev_status c /\ blocked c' = blocked c /\ content_rev c' = content_rev c.

Lemma put_same_core t q a c : inv t -> pane_of t q = Some a -> same_core (attention_cell t q) c ->
  inv (set_ledger t (put (attention t) q c)) /\ forall p, held t (set_ledger t (put (attention t) q c)) p.
Proof.
  intros Hinv Hq (H1 & H2 & H3). split.
  - eapply put_inv; [done..|]. unfold cell_ok. rewrite H1, H2. by apply live_cell.
  - intros p. apply put_held. destruct (decide (p = q)) as [->|]; [|tauto]. right. right. by split.
Qed.

Lemma same_core_refl c : same_core c c.
Proof. done. Qed.

Lemma commit_attention_step t q event gen crev cl : inv t ->
  inv (commit_attention approval_fingerprint t q event gen crev cl).1 /\ forall p, held t (commit_attention approval_fingerprint t q event gen crev cl).1 p.
Proof.
  intros Hinv. unfold commit_attention. destruct (pane_of t q) as [a|] eqn:Ea; [|split; [done|intros; apply held_refl]].
  case_decide as Hst; [split; [done|intros; apply held_refl]|]. case_decide as Hev; [cbn; eapply put_same_core; [done..|apply same_core_refl]|].
  assert (status_str (a_status a) = "blocked"%string) as Hbl by (destruct (decide (status_str (a_status a) = "blocked"%string)); tauto).
  unfold apply_classification. change (cell_mut (attention t) q) with (attention_cell t q). set (c := attention_cell t q).
  set (d := classified approval_fingerprint (event_id (blocked c)) cl).
  destruct (live_cell t q a Hinv Ea) as [Hprev _]. destruct (details_moved (blocked c) d) eqn:Em; cbn [fst].
  - set (c1 := set_revs _ _ _ _ _ _). set (c2 := sync_attention_completion c1 _ _ _).
    assert (core c2 = core c1) as Hcore by apply sync_completion_core. unfold core in Hcore. injection Hcore as Hb _ Hcr _ Hp _. split.
    + eapply put_inv; [done..|]. unfold cell_ok, cycle_ok. rewrite Hp, Hb. split; [done|]. rewrite decide_True by done. by eexists.
    + intros p. destruct (decide (p = q)) as [->|Hne]; [|apply put_held; tauto]. split; [done|]. intros a0 Ha0 _. exists a0. split; [done|].
      unfold content_rev_of, attention_cell, cell. cbn. rewrite lookup_insert_eq. cbn [default from_option id]. rewrite Hcr. subst c1. cbn. fold (cell (attention t) q).
      fold (attention_cell t q). fold c. split; [lia|]. intros; lia.
  - split.
    + eapply put_inv; [done..|]. unfold cell_ok, cycle_ok. cbn. split; [done|]. rewrite decide_True by done. by eexists.
    + intros p. destruct (decide (p = q)) as [->|Hne]; [|apply put_held; tauto]. split; [done|]. intros a0 Ha0 _. exists a0. split; [done|].
      unfold content_rev_of, attention_cell, cell. cbn. rewrite lookup_insert_eq. cbn. split; [done|]. intros _. split; [done|]. by split.
Qed.

Lemma status_step t e now mint t' out : inv t -> commit_agent_status t e now mint = Some (t', out) -> inv t' /\ forall p, held t t' p.
Proof.
  intros Hinv Hs. pose proof Hinv as [Hok Hc]. split.
  - split; [by destruct (status_pane t e now mint t' out "" Hok Hs)|]. intros p. specialize (Hc p).
    destruct (status_pane t e now mint t' out p Hok Hs) as (_ & _ & Hp). case_decide.
    + destruct Hp as (a & Ha & -> & Hcell). eexists. split; [done|]. destruct (status_cell_spec (revision t + 1) now mint (a_agent a) (adopt_status a e) (attention_cell t p)) as (? & ? & _). done.
    + by destruct Hp as [-> ->].
  - intros p. destruct (status_pane t e now mint t' out p Hok Hs) as (_ & Hg & Hp). case_decide as Hpe.
    + destruct Hp as (a & Ha & Ha' & Hcell). split; [lia|]. intros a0 Ha0 _. assert (a0 = a) as -> by congruence. eexists. split; [done|].
      destruct (status_cell_spec (revision t + 1) now mint (a_agent a) (adopt_status a e) (attention_cell t p)) as (_ & _ & Hle & Heq).
      unfold content_rev_of. rewrite (cell_of t' p _ Hcell). split; [done|]. intros E. destruct (Heq E) as (Hprev & Hag & Hsim). split; [|done].
      destruct (live_cell t p a Hinv Ha) as [Hcur _]. unfold content_same. cbn in *. split; [congruence|]. done.
    + destruct Hp as [Hpo Hce]. apply held_same; [done..| |]; unfold content_rev_of, attention_cell, cell; by rewrite Hce.
Qed.

Lemma run_op_step t o : inv t -> op_ok o -> inv (run_op t o) /\ forall p, held t (run_op t o) p.
Proof.
  intros Hinv Ho. destruct o as [s enrich kind now titles mint|e now mint|q now| |now|q rev|q now|q rev|q event gen crev cl]; cbn [Topology.run_op].
  - split; [by apply accept_inv|]. intros p. apply accept_held; [apply Hinv|done].
  - destruct (commit_agent_status t e now mint) as [[t' out]|] eqn:Es; [by eapply status_step|]. split; [done|intros; apply held_refl].
  - split; [exact Hinv|]. intros p. unfold bump_generation. destruct (decide (p = q)) as [->|Hne].
    + assert (generation_of (bump_generation t q now) q = generation_of t q + 1) as Hg by (unfold generation_of; cbn; by rewrite bump_at).
      split; [unfold bump_generation in Hg; lia|]. unfold bump_generation in Hg. intros; lia.
    + apply held_same; try done. unfold generation_of. cbn. by rewrite bump_other.
  - unfold mark_stale. destruct (stale t); (split; [exact Hinv|]; intros p; by apply held_same).
  - unfold mark_inventory_failure. destruct (_ && _); (split; [exact Hinv|]; intros p; by apply held_same).
  - assert (cells (note_upstream_rev (attention t) q rev) = cells (attention t)) as Hc by apply note_cells. split.
    + destruct Hinv as [Hok Hi]. split; [done|]. intros p. specialize (Hi p). change (pane_of (note_upstream t q rev) p) with (pane_of t p). cbn. by rewrite Hc.
    + intros p. apply held_same; try done; unfold content_rev_of, attention_cell, cell; cbn; by rewrite Hc.
  - unfold acknowledge. destruct (pane_of t q) as [a|] eqn:Ea; [|split; [done|intros; apply held_refl]]. cbn. by eapply put_same_core.
  - unfold register_finished_notification. destruct (pane_of t q) as [a|] eqn:Ea; [|split; [done|intros; apply held_refl]].
    destruct (_ || _); cbn; by eapply put_same_core.
  - by apply commit_attention_step.
Qed.

Lemma run_step t ops : inv t -> Forall op_ok ops -> inv (run t ops) /\ forall p, held t (run t ops) p.
Proof.
  intros Hinv Hops. revert t Hinv. induction Hops as [|o ops Ho _ IH]; intros t Hinv; [split; [done|intros; apply held_refl]|].
  cbn. destruct (run_op_step t o Hinv Ho) as [Hi Hh]. destruct (IH _ Hi) as [Hi' Hh']. split; [done|]. intros p. by eapply held_trans.
Qed.

(** ** Session ends *)

(** The writes that end the session of a live pane. *)
Definition ends_session (t : Topology) (p : string) (o : op) : Prop :=
  match o with
  | OpAccept s _ _ _ _ _ => p ∉ a_pane_id <$> agents s \/ exists e a, pane_of t p = Some e /\ a ∈ agents s /\ a_pane_id a = p /\ pane_session_replaced e a = true
  | OpBump q _ => q = p
  | _ => False
  end.

Lemma preserve_replaced old a e : pane_session_replaced e (preserve_status old a) = pane_session_replaced e a.
Proof. unfold preserve_status. by repeat case_match. Qed.

Lemma incoming_row kind old s a : a ∈ agents s -> exists b, b ∈ incoming_agents kind old s /\ a_pane_id b = a_pane_id a /\
  forall e, pane_session_replaced e b = pane_session_replaced e a.
Proof.
  intros Ha. unfold incoming_agents. case_decide; [|by exists a].
  exists (preserve_status old a). split; [by apply list_elem_of_fmap_2|]. split; [apply preserve_pane_id|]. intros e. apply preserve_replaced.
Qed.

Lemma accept_agents t s enrich kind now titles mint :
  agents (snapshot (accept_enriched t s enrich kind now titles mint).1) = incoming_agents kind (by_pane a_pane_id (agents (snapshot t))) s.
Proof. unfold Topology.accept_enriched. cbv zeta. destruct (foldl (drop_pane _) _ _) as [m r]. done. Qed.

Lemma ends_session_generation t o p e : inv t -> op_ok o -> pane_of t p = Some e -> ends_session t p o -> generation_of (run_op t o) p = generation_of t p + 1.
Proof.
  intros [Hok _] Ho Hp. destruct o as [s enrich kind now titles mint| |q now| | | | | |]; cbn [ends_session Topology.run_op]; try done.
  - intros Hend. destruct (accept_pane t s enrich kind now titles mint p Hok Ho) as [Hok' Hq]. set (t' := (accept_enriched _ _ _ _ _ _ _).1) in *.
    assert (agents (snapshot t') = incoming_agents kind (by_pane a_pane_id (agents (snapshot t))) s) as Hag by apply accept_agents.
    rewrite Hp in Hq. destruct Hend as [Habs|(e0 & a & He0 & Ha & Hid & Hrep)].
    + assert (pane_of t' p = None) as Hn by (apply pane_of_None; [done|]; by rewrite Hag, incoming_ids). rewrite Hn in Hq. by destruct Hq as [_ ->].
    + assert (e0 = e) as -> by congruence. destruct (incoming_row kind (by_pane a_pane_id (agents (snapshot t))) s a Ha) as (b & Hb & Hbid & Hbrep).
      assert (pane_of t' p = Some b) as Hb' by (apply pane_of_spec; [done|]; rewrite Hag; split; [done|congruence]). rewrite Hb' in Hq.
      destruct Hq as (c' & _ & He). unfold row_effect in He. rewrite Hbrep, Hrep in He. by destruct He as [-> _].
  - intros ->. unfold generation_of. cbn. by rewrite bump_at.
Qed.

(** A pane whose session ended on the way has a later generation. *)
Lemma ended_later t ops p k o : inv t -> Forall op_ok ops -> ops !! k = Some o ->
  ends_session (run t (take k ops)) p o -> is_Some (pane_of (run t (take k ops)) p) -> generation_of t p < generation_of (run t ops) p.
Proof.
  intros Hinv Hops Hk Hend [e He]. pose proof (take_drop_middle ops k o Hk) as Hsplit.
  assert (Forall op_ok (take k ops) /\ op_ok o /\ Forall op_ok (drop (S k) ops)) as (H1 & H2 & H3).
  { rewrite <- Hsplit in Hops. rewrite Forall_app, Forall_cons in Hops. tauto. }
  destruct (run_step t (take k ops) Hinv H1) as [Hi1 Hh1]. pose proof (ends_session_generation _ o p e Hi1 H2 He Hend) as Hg.
  destruct (run_op_step _ o Hi1 H2) as [Hi2 _]. destruct (run_step _ (drop (S k) ops) Hi2 H3) as [_ Hh3].
  assert (run t ops = run (run_op (run t (take k ops)) o) (drop (S k) ops)) as ->.
  { rewrite <- Hsplit at 1. unfold Topology.run. by rewrite foldl_app. }
  destruct (Hh1 p) as [Hle1 _], (Hh3 p) as [Hle3 _]. lia.
Qed.

(** A pane whose generation is the same after the run was live all along, and
    no write of the run ended its session. *)
Lemma same_generation_live t ops p a k o : inv t -> Forall op_ok ops -> pane_of t p = Some a -> generation_of (run t ops) p = generation_of t p ->
  ops !! k = Some o -> is_Some (pane_of (run t (take k ops)) p) /\ ~ ends_session (run t (take k ops)) p o.
Proof.
  intros Hinv Hops Ha Hg Hk. assert (is_Some (pane_of (run t (take k ops)) p)) as Hlive.
  { assert (Forall op_ok (take k ops) /\ Forall op_ok (drop k ops)) as [H1 H2] by (split; [by apply Forall_take|by apply Forall_drop]).
    destruct (run_step t (take k ops) Hinv H1) as [Hi1 Hh1]. destruct (run_step _ (drop k ops) Hi1 H2) as [_ Hh2].
    assert (run t ops = run (run t (take k ops)) (drop k ops)) as Hrun by (unfold Topology.run; by rewrite <- foldl_app, take_drop).
    rewrite Hrun in Hg. destruct (Hh1 p) as [Hle1 Hheld], (Hh2 p) as [Hle2 _]. destruct (Hheld a Ha ltac:(lia)) as (a' & Ha' & _). by exists a'. }
  split; [done|]. intros Hend. pose proof (ended_later t ops p k o Hinv Hops Hk Hend Hlive). lia.
Qed.

(** ** Theorems *)

(** C13 — The attention ledger mirrors the committed snapshot: whatever is
    accepted, committed by status event, bumped, acknowledged, notified or
    classified, exactly the live panes have a cell, a cell records the status
    committed for its pane, and it carries blocked details exactly when that status is
    blocked. *)
Theorem ledger_mirrors_snapshot (ops : list op) (p : string) :
  Forall op_ok ops ->
  let t := run new ops in
  match pane_of t p with
  | None => cells (attention t) !! p = None
  | Some a => exists c, cells (attention t) !! p = Some c /\ prev_status c = status_str (a_status a) /\
      (a_status a = Blocked -> is_Some (kind (blocked c))) /\ (a_status a <> Blocked -> blocked c = no_details)
  end.
Proof.
  intros Hops t. destruct (run_step new ops new_inv Hops) as [[_ Hc] _]. specialize (Hc p). fold t in Hc.
  destruct (pane_of t p) as [a|]; [|done]. destruct Hc as (c & Hl & Hprev & Hcy). exists c. split; [done|]. split; [done|]. unfold cycle_ok in Hcy.
  split; intros Hst; [rewrite Hst in Hcy; by rewrite decide_True in Hcy|]. rewrite decide_False in Hcy; [done|]. by destruct (a_status a).
Qed.

Lemma same_interaction_id i j : same_interaction i j = true -> i_id <$> i = i_id <$> j.
Proof. destruct i, j; cbn; [rewrite bool_decide_eq_true; by intros ->|done..]. Qed.

(** C12 — The fence every pane read is checked against is sound: if generation
    and content revision of a live pane are the same after any sequence of
    writes, the pane stayed live in the same session, with the same status, name,
    directory, agent and activity sequence, and its blocked details are the same
    event with the same kind, prompt, command, options, approval fingerprint,
    question layout and interaction id.  Of an interaction only the id is
    covered: what the id leaves out (selection, focus, descriptions) may have
    changed, as [selection_keeps_fence] shows. *)
Theorem read_fence_detects_change (ops1 ops2 : list op) (p : string) (a : AgentInfo) :
  Forall op_ok ops1 -> Forall op_ok ops2 ->
  let t := run new ops1 in let t' := run t ops2 in
  pane_of t p = Some a -> generation_of t' p = generation_of t p -> content_rev_of t' p = content_rev_of t p ->
  (exists a', pane_of t' p = Some a' /\ content_same a a') /\
  (let b := blocked (attention_cell t p) in let b' := blocked (attention_cell t' p) in
   event_id b = event_id b' /\ kind b = kind b' /\ prompt b = prompt b' /\ command b = command b' /\ options b = options b' /\ approval_fp b = approval_fp b' /\
   question_layout b = question_layout b' /\ interaction_id b = interaction_id b' /\ i_id <$> interaction b = i_id <$> interaction b') /\
  forall k o, ops2 !! k = Some o -> is_Some (pane_of (run t (take k ops2)) p) /\ ~ ends_session (run t (take k ops2)) p o.
Proof.
  intros H1 H2 t t' Ha Hg Hc. destruct (run_step new ops1 new_inv H1) as [Hi _]. fold t in Hi. destruct (run_step t ops2 Hi H2) as [_ Hh].
  destruct (Hh p) as [_ Hheld]. destruct (Hheld a Ha Hg) as (a' & Ha' & _ & Hsame). destruct (Hsame Hc) as [Hs1 [He Hs2]]. split; [by exists a'|].
  apply details_moved_spec in Hs2 as (? & ? & ? & ? & ? & Hi' & ? & ?). apply same_interaction_id in Hi'. split; [done|]. intros k o Hk. by apply (same_generation_live t ops2 p a).
Qed.

(** On the event path the sampled status is never adopted: a snapshot
    accepted for an event leaves the committed status of every pane whose
    session was not replaced. *)
Theorem event_commit_keeps_status (t : Topology) (s : SessionSnapshot) (enrich : gmap string Classification) (now : Z)
    (titles : gmap string string) (mint : string -> string) (p : string) (e a : AgentInfo) :
  inv t -> snapshot_ok s -> pane_of t p = Some e -> a ∈ agents s -> a_pane_id a = p -> pane_session_replaced e a = false ->
  exists a', pane_of (accept_enriched t s enrich Event now titles mint).1 p = Some a' /\ a_status a' = a_status e /\
    generation_of (accept_enriched t s enrich Event now titles mint).1 p = generation_of t p.
Proof.
  intros [Hok _] Hs He Ha Hid Hrep. destruct (accept_pane t s enrich Event now titles mint p Hok Hs) as [Hok' Hp].
  set (t' := (accept_enriched _ _ _ _ _ _ _).1) in *. set (b := preserve_status (by_pane a_pane_id (agents (snapshot t))) a).
  assert (b = set_status a (a_status e)) as Hb by (subst b; unfold preserve_status; by rewrite old_pane_of, Hid, He, Hrep).
  assert (pane_of t' p = Some b) as Hb'.
  { apply pane_of_spec; [done|]. unfold t'. rewrite accept_agents. unfold incoming_agents. rewrite decide_True by done.
    split; [by apply list_elem_of_fmap_2|]. by rewrite Hb. }
  exists b. split; [done|]. split; [by rewrite Hb|]. rewrite Hb', He in Hp. destruct Hp as (c' & _ & Heff). unfold row_effect in Heff.
  assert (pane_session_replaced e b = false) as Hrb by (subst b; by rewrite preserve_replaced). rewrite Hrb in Heff. by destruct Heff.
Qed.

End Invariant.

(** ** A concrete run *)

Definition demo_agent (terminal : string) (status : AgentStatus) : AgentInfo :=
  mkAgent "w1:p1" terminal "w1" "w1:t1" true status (Some "claude"%string) None None None (Some "/src/app"%string) None 0 1 true (Some " sid "%string) ∅ ∅.
Definition demo_snapshot (l : list AgentInfo) : SessionSnapshot := mkSnapshot l [] [] [].
Definition no_fingerprint (cl : Classification) : string := "".
Definition demo_mint (p : string) : string := "ev1".
Definition demo_accept (l : list AgentInfo) (kind : CommitKind) (now : Z) : op := OpAccept (demo_snapshot l) ∅ kind now ∅ demo_mint.

Definition demo_ops : list op := [demo_accept [demo_agent "t1" Working] Poll 10; demo_accept [demo_agent "t1" Blocked] Poll 20].
Definition quiet_ops : list op := [OpAcknowledge "w1:p1" 25; demo_accept [demo_agent "t1" Blocked] Event 30; OpStale].

Lemma demo_ops_ok : Forall op_ok demo_ops.
Proof. repeat constructor; apply not_elem_of_nil. Qed.
Lemma quiet_ops_ok : Forall op_ok quiet_ops.
Proof. repeat constructor; apply not_elem_of_nil. Qed.

(** A question whose selected option changes on the screen keeps its id, and so
    the fence: a reclassification writes the new selection into the cell without
    a revision. *)
Definition demo_question (selected : bool) : Interaction :=
  mkInteraction "q1" "single_select" "Which?" [mkOption 1 "a" "" selected []] (mkOther false "" "" "" false true) "" false false 0 0 (mkFocus FocusOption 1) 1 "claude" false false.
Definition demo_classify (crev : Z) (selected : bool) : op :=
  OpClassify "w1:p1" "ev1" 0 crev (mkClassification Question "Which?" "" [] 0 (Some (demo_question selected)) true "" "").
Example selection_keeps_fence :
  let t := Topology.run no_fingerprint new (demo_ops ++ [demo_classify 2 false]) in let t' := Topology.run no_fingerprint t [demo_classify 3 true] in
  interaction (blocked (attention_cell t "w1:p1")) = Some (demo_question false) /\ interaction (blocked (attention_cell t' "w1:p1")) = Some (demo_question true) /\
  generation_of t' "w1:p1" = generation_of t "w1:p1" /\ content_rev_of t' "w1:p1" = content_rev_of t "w1:p1".
Proof. vm_compute. repeat split. Qed.

Lemma ledger_mirrors_snapshot_witness :
  exists c, cells (attention (Topology.run no_fingerprint new demo_ops)) !! "w1:p1"%string = Some c /\ prev_status c = "blocked"%string /\ is_Some (kind (blocked c)).
Proof.
  pose proof (ledger_mirrors_snapshot no_fingerprint demo_ops "w1:p1" demo_ops_ok) as H. cbv zeta in H.
  destruct (pane_of (Topology.run no_fingerprint new demo_ops) "w1:p1") as [a|] eqn:E; [|vm_compute in E; discriminate E].
  destruct H as (c & Hc & Hp & Hb & _). exists c. assert (a_status a = Blocked) as Hs by (vm_compute in E; by injection E as <-).
  rewrite Hs in Hp. split; [exact Hc|]. split; [exact Hp|exact (Hb Hs)].
Defined.

Lemma read_fence_detects_change_witness :
  exists a', pane_of (Topology.run no_fingerprint (Topology.run no_fingerprint new demo_ops) quiet_ops) "w1:p1" = Some a' /\ content_same (demo_agent "t1" Blocked) a'.
Proof.
  apply (read_fence_detects_change no_fingerprint demo_ops quiet_ops "w1:p1" (demo_agent "t1" Blocked) demo_ops_ok quiet_ops_ok); vm_compute; reflexivity.
Defined.

Lemma event_commit_keeps_status_witness :
  exists a', pane_of (accept_enriched no_fingerprint (Topology.run no_fingerprint new demo_ops) (demo_snapshot [demo_agent "t1" Idle]) ∅ Event 30 ∅ demo_mint).1 "w1:p1" = Some a' /\
    a_status a' = Blocked.
Proof.
  destruct (event_commit_keeps_status no_fingerprint (Topology.run no_fingerprint new demo_ops) (demo_snapshot [demo_agent "t1" Idle]) ∅ 30 ∅ demo_mint
    "w1:p1" (demo_agent "t1" Blocked) (demo_agent "t1" Idle)) as (a' & Ha & Hs & _).
  - apply (run_step no_fingerprint new demo_ops new_inv demo_ops_ok).
  - repeat constructor; apply not_elem_of_nil.
  - vm_compute. reflexivity.
  - apply list_elem_of_here.
  - reflexivity.
  - vm_compute. reflexivity.
  - exists a'. split; [exact Ha|exact Hs].
Defined.

End TopologyInvariant.
