(* ===== verification/Target.v ===== *)
(** * Exact pane targets — [lerdr-coord/src/actions/target.rs]

    Every pane-directed action echoes the tuple the client last saw for the
    pane.  [None] admits the action; a refusal is [invalid_request] with the
    offending field. *)

From S2P Require Import Prelude Inbound Protocol Attention Topology TopologyInvariant.
Import Topology TopologyInvariant.

Module Target.

(** [ApiError::new(INVALID_REQUEST, {"field": ...})]. *)
Definition invalid_field (field : string) : string * (string * string) := (Protocol.INVALID_REQUEST, ("field"%string, field)).

Definition addressed_elsewhere : list string := ["focus_tab"; "focus_workspace"; "focus_agent"; "layout_apply"]%string.
Definition releases_own_state : list string := ["unwatch_pane"; "release_pane_size"; "cancel_speech"; "unsubscribe_conversation"]%string.

Definition validate_exact_pane_target (supported : string -> bool) (t : Topology) (action_type pane_id : string)
    (target : option Inbound.TargetRef) (authenticated : bool) : option (string * (string * string)) :=
  if decide (pane_id = ""%string) then None
  else if decide (action_type ∈ addressed_elsewhere) then None
  else if decide (action_type ∈ releases_own_state) then
    match target with
    | Some tg => if decide (Inbound.t_pane_id tg <> pane_id) then Some (invalid_field "target.pane_id") else None
    | None => None
    end
  else
    match target with
    | None => if negb authenticated then None else Some (invalid_field "target")
    | Some tg =>
        if decide (Inbound.t_pane_id tg <> pane_id) then Some (invalid_field "target.pane_id")
        else
          match pane_of t pane_id with
          | None => Some (invalid_field "target")
          | Some info =>
              let agent := agent_state supported t info in
              let server := if decide (as_server_session_id agent = ""%string) then "primary"%string else as_server_session_id agent in
              if decide (Inbound.t_server_session_id tg <> server \/ Inbound.t_terminal_id tg = ""%string \/
                         Inbound.t_terminal_id tg <> as_terminal_id agent \/ Inbound.t_generation tg <> as_generation agent \/
                         Inbound.t_agent_session_id tg <> as_agent_session_id agent)
              then Some (invalid_field "target")
              else None
          end
    end.

(** The tuple a client echoes for a row it was shown. *)
Definition target_of (supported : string -> bool) (t : Topology) (info : AgentInfo) : Inbound.TargetRef :=
  let agent := agent_state supported t info in
  Inbound.mkTarget (as_server_session_id agent) (as_pane_id agent) (as_terminal_id agent) (as_generation agent) (as_agent_session_id agent)
    (as_workspace_id agent) (as_tab_id agent).

(** An action whose address is the pane itself. *)
Definition pane_directed (action_type : string) : Prop := action_type ∉ addressed_elsewhere /\ action_type ∉ releases_own_state.

Section Target.
Context (approval_fingerprint : Attention.Classification -> string) (supported : string -> bool).

Lemma find_agent_id t p a : pane_of t p = Some a -> a_pane_id a = p.
Proof. unfold pane_of. intros ([i x] & (_ & Hx & _)%list_find_Some & ->)%fmap_Some. done. Qed.

Lemma admitted_tuple t action p tg : p <> ""%string -> pane_directed action -> validate_exact_pane_target supported t action p (Some tg) true = None ->
  exists a, pane_of t p = Some a /\ Inbound.t_pane_id tg = p /\ Inbound.t_terminal_id tg = a_terminal_id a /\ Inbound.t_generation tg = generation_of t p.
Proof.
  intros Hp [H1 H2]. unfold validate_exact_pane_target. rewrite (decide_False (P := p = ""%string)), !(decide_False (P := action ∈ _)) by done.
  case_decide as Hid; [done|]. destruct (pane_of t p) as [a|] eqn:Ea; [|done]. case_decide as Hbad; [done|]. intros _. exists a.
  apply find_agent_id in Ea as Hpa. unfold agent_state in Hbad. cbn in Hbad. rewrite Hpa in Hbad.
  assert (Inbound.t_terminal_id tg = a_terminal_id a /\ Inbound.t_generation tg = generation_of t p) as [? ?]; [|done].
  split; apply dec_stable; tauto.
Qed.

(** C11 — A stale target is never admitted: if a client echoes the tuple it was
    shown for a pane, and after any sequence of commits, status events,
    generation bumps and other writes the tuple is still admitted for a
    pane-directed action, then the pane has been live throughout, none of
    those writes ended its session (removal, replacement or lifecycle bump), and it
    is still the same terminal. *)
Theorem stale_target_is_refused (ops1 ops2 : list op) (p action : string) (a : AgentInfo) :
  Forall op_ok ops1 -> Forall op_ok ops2 -> p <> ""%string -> pane_directed action ->
  let t := run approval_fingerprint new ops1 in let t' := run approval_fingerprint t ops2 in
  pane_of t p = Some a ->
  validate_exact_pane_target supported t' action p (Some (target_of supported t a)) true = None ->
  (exists a', pane_of t' p = Some a' /\ a_terminal_id a' = a_terminal_id a) /\ generation_of t' p = generation_of t p /\
  forall k o, ops2 !! k = Some o ->
    is_Some (pane_of (run approval_fingerprint t (take k ops2)) p) /\ ~ ends_session (run approval_fingerprint t (take k ops2)) p o.
Proof.
  intros H1 H2 Hp Hact t t' Ha Hadm. destruct (admitted_tuple _ _ _ _ Hp Hact Hadm) as (a' & Ha' & _ & Hterm & Hgen).
  cbn in Hterm, Hgen. apply find_agent_id in Ha as Hid. rewrite Hid in Hgen.
  split; [exists a'; by split|]. split; [done|]. intros k o Hk.
  apply (same_generation_live approval_fingerprint t ops2 p a); [|done|done|done|done].
  by apply (run_step approval_fingerprint new ops1 new_inv H1).
Qed.

(** A current target is admitted: the tuple projected for a live pane
    passes every pane-directed action on the topology it was projected from, as
    long as Herdr names the pane's terminal. *)
Theorem current_target_is_admitted (t : Topology) (p action : string) (a : AgentInfo) :
  pane_of t p = Some a -> a_terminal_id a <> ""%string ->
  validate_exact_pane_target supported t action p (Some (target_of supported t a)) true = None.
Proof.
  intros Ha Hterm. apply find_agent_id in Ha as Hid. unfold validate_exact_pane_target. case_decide; [done|]. case_decide; [done|].
  assert (Inbound.t_pane_id (target_of supported t a) = p) as Hpid by done. case_decide; [by rewrite decide_False by (rewrite Hpid; tauto)|].
  rewrite decide_False by (rewrite Hpid; tauto). rewrite Ha. apply decide_False. cbn. rewrite Hid. intros Hbad. tauto.
Qed.

End Target.

(** ** Concrete runs *)

Definition always (s : string) : bool := true.
Definition demo_target : Inbound.TargetRef := target_of always (run no_fingerprint new demo_ops) (demo_agent "t1" Blocked).

Lemma stale_target_is_refused_witness :
  exists a', pane_of (run no_fingerprint (run no_fingerprint new demo_ops) quiet_ops) "w1:p1" = Some a' /\ a_terminal_id a' = "t1"%string.
Proof.
  apply (stale_target_is_refused no_fingerprint always demo_ops quiet_ops "w1:p1" "submit_prompt" (demo_agent "t1" Blocked) demo_ops_ok quiet_ops_ok).
  - done.
  - split; vm_compute; set_solver.
  - vm_compute. reflexivity.
  - vm_compute. reflexivity.
Defined.

Lemma current_target_is_admitted_witness :
  validate_exact_pane_target always (run no_fingerprint new demo_ops) "submit_prompt" "w1:p1" (Some demo_target) true = None.
Proof. apply (current_target_is_admitted always (run no_fingerprint new demo_ops) "w1:p1" "submit_prompt" (demo_agent "t1" Blocked)); [vm_compute; reflexivity|done]. Defined.

(** The same tuple after the terminal was replaced under the pane id. *)
Example replaced_target_is_refused :
  validate_exact_pane_target always (run no_fingerprint new (demo_ops ++ [demo_accept [demo_agent "t2" Idle] Poll 30])) "submit_prompt" "w1:p1" (Some demo_target) true
  = Some (invalid_field "target").
Proof. vm_compute. reflexivity. Qed.

End Target.
