(* ===== verification/WatchFrame.v ===== *)
(** * Pane watch frames — [lerdr-coord/src/watches.rs], [fingerprint.rs]

    What a watch reads and what it sends: the request parameters, the frame
    distilled from a read, its two fingerprints and the wire messages.  SHA-256
    and serde's JSON text are parameters (class [Digest]); the classifier and
    the no-echo matcher are arguments of [prepare_pane_response]. *)

From S2P Require Import Prelude Delta Lines History Json Inbound Protocol PaneRows UploadBinary.
Import PaneRows.

Module WatchFrame.

(** ** Request parameters *)

Inductive ReadFormat := Text | Ansi.

#[export] Instance ReadFormat_eq_dec : EqDecision ReadFormat.
Proof. solve_decision. Defined.
#[export] Instance ReadSource_eq_dec : EqDecision ReadSource.
Proof. solve_decision. Defined.

(** Milliseconds. *)
Definition ACK_TIMEOUT : Z := 4000.
Definition DEFAULT_PANE_LINES : Z := 30.
Definition MAX_PANE_LINES : Z := 10000.
Definition DEFAULT_WATCH_INTERVAL : Z := 250.
Definition PROBE_LINES : nat := 500.

Definition watch_interval (interval_ms : option Z) : Z :=
  match interval_ms with
  | Some ms => if decide (ms ∈ [100; 250; 500; 1000]) then ms else DEFAULT_WATCH_INTERVAL
  | None => DEFAULT_WATCH_INTERVAL
  end.

Definition clamp (z lo hi : Z) : Z := Z.min (Z.max z lo) hi.

Definition pane_lines (message : Inbound.Inbound) : Z :=
  match Inbound.raw_int message "lines" with
  | Some n => clamp n 1 MAX_PANE_LINES
  | None => if decide (Inbound.in_lines message = 0) then DEFAULT_PANE_LINES else clamp (Inbound.in_lines message) 1 MAX_PANE_LINES
  end.

Definition read_format (message : Inbound.Inbound) : ReadFormat :=
  if decide (Inbound.raw_str message "format" = Some "ansi"%string) then Ansi else Text.

Definition format_wire (format : ReadFormat) : string := match format with Ansi => "ansi" | Text => "text" end.

(** [str::contains]. *)
Definition str_contains (s needle : string) : bool := match String.index 0 needle s with Some _ => true | None => false end.

Definition display_source `{Protocol.CaseMapping} (format : ReadFormat) (resized : bool) (agent : string) : ReadSource :=
  match format with
  | Text => Visible
  | Ansi => if negb resized && str_contains (Protocol.to_lowercase agent) "claude" then RecentUnwrapped else Recent
  end.

Definition merge_stream_size (controlled native : option (Z * Z)) : option (Z * Z) :=
  let valid o := match o with Some (cols, rows) => if decide (0 < cols /\ 0 < rows) then o else None | None => None end in
  match valid controlled with Some s => Some s | None => valid native end.

(** ** Frames *)

Section Frames.
Context {Interaction : Type}.

Record PaneSemantics := mkSemantics {
  attention_kind : string;
  prompt : string;
  command : string;
  options : list string;
  interaction : option Interaction;
  question_layout : bool;
  no_echo : bool;
  no_echo_prompt : option string;
}.

Record Frame := mkFrame {
  content : string;
  content_fp : string;
  frame_fp : string;
  classification_agent : string;
  truncated : bool;
  viewport_only : bool;
  viewport_rows : option Z;
  resize_settling : bool;
  semantics : PaneSemantics;
}.

Class Digest := {
  sha256 : bytes -> bytes;
  (** [serde_json::to_vec]. *)
  options_json : list string -> bytes;
  interaction_json : Interaction -> bytes;
}.

Context `{Digest}.

(** [hex::encode]. *)
Definition hex_encode (b : bytes) : string :=
  foldr (fun x s => String (History.hex_digit (x / 16)) (String (History.hex_digit (x mod 16)) s)) "" b.

Definition short_digest (b : bytes) : string := hex_encode (take 8 (sha256 b)).

(** The wire fingerprint of a frame's content. *)
Definition content_fingerprint (text : string) : string := short_digest (as_bytes text).

Definition null_json : bytes := as_bytes "null".

(** [write_field]: tag, length as eight little-endian bytes, data. *)
Definition write_field (tag : Z) (data : bytes) : bytes := tag :: reverse (be_bytes 8 (Z.of_nat (length data))) ++ data.

Definition flag_byte (b : bool) : bytes := [if b then 1 else 0].

Definition rows_field (rows : option Z) : bytes :=
  match rows with
  | Some r => if decide (0 < r) then write_field 3 (as_bytes (decimal r)) else write_field 0 []
  | None => write_field 0 []
  end.

Definition settling_field (b : bool) : bytes := if b then write_field 2 [1] else write_field 0 [].

Definition options_bytes (o : list string) : bytes := if decide (o = []) then null_json else options_json o.
Definition interaction_bytes (i : option Interaction) : bytes := match i with Some i => interaction_json i | None => null_json end.

(** Everything [frame_fingerprint] feeds the digest, in order. *)
Definition frame_preimage (f : Frame) (format : ReadFormat) : bytes :=
  write_field 1 (as_bytes (content f)) ++ write_field 1 (as_bytes (format_wire format)) ++
  write_field 2 (flag_byte (truncated f)) ++ write_field 2 (flag_byte (viewport_only f)) ++
  rows_field (viewport_rows f) ++ settling_field (resize_settling f) ++
  write_field 1 (as_bytes (attention_kind (semantics f))) ++ write_field 1 (as_bytes (prompt (semantics f))) ++
  write_field 1 (as_bytes (command (semantics f))) ++
  write_field 3 (options_bytes (options (semantics f))) ++ write_field 3 (interaction_bytes (interaction (semantics f))) ++
  write_field 2 (flag_byte (question_layout (semantics f))).

Definition frame_fingerprint (f : Frame) (format : ReadFormat) : string := short_digest (frame_preimage f format).

(** ** Wire messages *)

Record WatchSpec := mkSpec {
  lines : nat;
  format : ReadFormat;
  interval : Z;
  known_fingerprint : option string;
  target : Inbound.TargetRef;
}.

(** The keys [pane_content] and [pane_delta] share. *)
Record Meta := mkMeta {
  m_content_fingerprint : string;
  m_format : string;
  m_truncated : bool;
  m_viewport_only : bool;
  m_viewport_rows : option Z;
  m_resize_settling : option bool;
  m_attention_kind : string;
  m_prompt : string;
  m_command : string;
  m_options : UploadBinary.MaybeNull (list string);
  m_interaction : UploadBinary.MaybeNull Interaction;
  m_question_layout : bool;
  m_no_echo : bool;
  m_no_echo_prompt : option string;
}.

Inductive Outbound :=
| PaneContent (pane_id : string) (meta : Meta) (body : string) (ack_required : bool) (to : Inbound.TargetRef)
| PaneGone (pane_id : string) (error : string) (to : Inbound.TargetRef)
| PaneDelta (pane_id : string) (meta : Meta) (base_fingerprint : string) (segments : list Delta.Segment) (to : Inbound.TargetRef)
| PaneResync (pane_id : string) (to : Inbound.TargetRef)
| PaneUnchanged (pane_id : string) (fingerprint : string) (to : UploadBinary.MaybeNull Inbound.TargetRef).

Definition nullable {A} (o : option A) : UploadBinary.MaybeNull A :=
  match o with Some a => UploadBinary.Value a | None => UploadBinary.Null end.

Definition meta_of (spec : WatchSpec) (f : Frame) : Meta :=
  let s := semantics f in
  mkMeta (content_fp f) (format_wire (format spec)) (truncated f) (viewport_only f)
    (if viewport_only f then viewport_rows f else None) (if resize_settling f then Some true else None)
    (attention_kind s) (prompt s) (command s)
    (if decide (options s = []) then UploadBinary.Null else UploadBinary.Value (options s))
    (nullable (interaction s)) (question_layout s) (no_echo s) (no_echo_prompt s).

Definition full_frame (pane_id : string) (spec : WatchSpec) (f : Frame) : Outbound :=
  PaneContent pane_id (meta_of spec f) (content f) true (target spec).

Definition delta_frame (pane_id : string) (spec : WatchSpec) (f : Frame) (base : string) (segments : list Delta.Segment) : Outbound :=
  PaneDelta pane_id (meta_of spec f) base segments (target spec).

(** [copy_lines = count('\n') + 1], the whole base. *)
Definition copy_all (text : string) : list Delta.Segment := [Delta.mkSegment 0 (Z.of_nat (Lines.count_nl text + 1)) ""].

Definition pane_unchanged (pane_id fingerprint : string) (to : option Inbound.TargetRef) : Outbound :=
  PaneUnchanged pane_id fingerprint (nullable to).

(** ** Preparing a read *)

Record Prepared := mkPrepared { p_content : string; p_truncated : bool; p_semantics : PaneSemantics }.

Definition is_claude_like `{Protocol.CaseMapping} (agent : string) : bool :=
  let lower := Protocol.to_lowercase agent in str_contains lower "claude" || str_contains lower "qoder".

Definition no_echo_semantics (match_prompt : string -> option string) (rendered : string) : bool * option string :=
  match match_prompt rendered with Some p => (true, Some p) | None => (false, None) end.

(** [classify] is [semantics_of (classify_semantics ...)], [merge] the
    transcript merge of the pane at this line budget. *)
Definition prepare_pane_response `{Protocol.CaseMapping} (match_prompt : string -> option string)
    (classify : string -> string -> PaneSemantics) (merge : string -> string * bool)
    (classified : string) (trunc : bool) (agent : string) (viewport : bool) : Prepared :=
  let s := classify classified agent in
  let '(body, merged_truncated) :=
    if (match interaction s with None => true | Some _ => false end) && is_claude_like agent && negb viewport
    then merge classified else (classified, false) in
  let '(ne, nep) := no_echo_semantics match_prompt body in
  mkPrepared body (trunc || merged_truncated)
    (mkSemantics (attention_kind s) (prompt s) (command s) (options s) (interaction s) (question_layout s) ne nep).

(** ** The digest input determines the frame *)

(** Documented behaviour of serde_json on these types: distinct values have
    distinct texts, and an array or an object is not [null]. *)
Class DigestLaws := {
  options_json_inj : forall a b, options_json a = options_json b -> a = b;
  options_json_null : forall a, options_json a <> null_json;
  interaction_json_inj : forall a b, interaction_json a = interaction_json b -> a = b;
  interaction_json_null : forall a, interaction_json a <> null_json;
}.

Definition short (b : bytes) : Prop := Z.of_nat (length b) < 2 ^ 64.

(** Frames as the reader builds them: a row count is positive and only on a
    leased viewport; no field is longer than a 64-bit length. *)
Record frame_ok (f : Frame) : Prop := {
  rows_positive : forall r, viewport_rows f = Some r -> 0 < r /\ viewport_only f = true;
  short_rows : forall r, viewport_rows f = Some r -> short (as_bytes (decimal r));
  short_content : short (as_bytes (content f));
  short_kind : short (as_bytes (attention_kind (semantics f)));
  short_prompt : short (as_bytes (prompt (semantics f)));
  short_command : short (as_bytes (command (semantics f)));
  short_options : short (options_bytes (options (semantics f)));
  short_interaction : short (interaction_bytes (interaction (semantics f)));
}.

Lemma cons_eq_both {A} (x y : A) l k : x :: l = y :: k -> x = y /\ l = k.
Proof. intros H1. by injection H1. Qed.

Lemma write_field_inj t t' d d' r r' : short d -> short d' ->
  write_field t d ++ r = write_field t' d' ++ r' -> t = t' /\ d = d' /\ r = r'.
Proof.
  unfold write_field, short. intros Hd Hd'. rewrite <- !app_comm_cons, <- !app_assoc. intros [-> E]%cons_eq_both. split; [done|].
  apply app_eq_length_inv in E as [Hlen E]; [|by rewrite !length_reverse, !be_bytes_length].
  apply (inj reverse) in Hlen. apply be_bytes_inj in Hlen; [|change (256 ^ Z.of_nat 8) with (2 ^ 64); lia..].
  apply app_eq_length_inv in E as [-> ->]; [done|lia].
Qed.

Lemma flag_byte_inj a b : flag_byte a = flag_byte b -> a = b.
Proof. by destruct a, b. Qed.

Lemma short_small b : (length b < 1000)%nat -> short b.
Proof. unfold short. lia. Qed.

Lemma settling_field_inj a b r r' : settling_field a ++ r = settling_field b ++ r' -> a = b /\ r = r'.
Proof.
  destruct a, b; unfold settling_field; intros E; apply write_field_inj in E as (Ht & _ & ->); try by apply short_small; cbn; lia. all: done.
Qed.

Lemma format_wire_inj a b : format_wire a = format_wire b -> a = b.
Proof. by destruct a, b. Qed.

Lemma options_bytes_inj `{!DigestLaws} a b : options_bytes a = options_bytes b -> a = b.
Proof.
  unfold options_bytes. repeat case_decide; subst; intros E; [done| | |by apply options_json_inj].
  - by apply (eq_sym (x := _)), options_json_null in E.
  - by apply options_json_null in E.
Qed.

Lemma interaction_bytes_inj `{!DigestLaws} a b : interaction_bytes a = interaction_bytes b -> a = b.
Proof.
  destruct a, b; cbn; intros E; [f_equal; by apply interaction_json_inj| | |done].
  - by apply interaction_json_null in E.
  - by apply (eq_sym (x := _)), interaction_json_null in E.
Qed.

(** The tag and data [rows_field] writes. *)
Definition rows_data (rows : option Z) : Z * bytes := match rows with Some r => (3, as_bytes (decimal r)) | None => (0, []) end.

Lemma rows_field_data f : frame_ok f -> rows_field (viewport_rows f) = write_field (rows_data (viewport_rows f)).1 (rows_data (viewport_rows f)).2.
Proof. intros Hok. unfold rows_field. destruct (viewport_rows f) as [r|] eqn:E; [|done]. apply (rows_positive f Hok) in E as [Hr _]. by rewrite decide_True. Qed.

Lemma rows_data_inj f g : frame_ok f -> frame_ok g ->
  (rows_data (viewport_rows f)).1 = (rows_data (viewport_rows g)).1 -> (rows_data (viewport_rows f)).2 = (rows_data (viewport_rows g)).2 ->
  viewport_rows f = viewport_rows g.
Proof.
  intros Hf Hg. destruct (viewport_rows f) as [r|] eqn:Ef, (viewport_rows g) as [r'|] eqn:Eg; cbn; try done. intros _ E%as_bytes_inj.
  apply (rows_positive f Hf) in Ef as [Hr _]. apply (rows_positive g Hg) in Eg as [Hr' _]. f_equal. apply decimal_inj; [lia..|done].
Qed.

(** What a phone shows of a frame: content and metadata, less the fingerprints
    and the no-echo pair, which is computed from the content. *)
Definition visible (f : Frame) (fm : ReadFormat) :=
  (content f, fm, (truncated f, viewport_only f, viewport_rows f, resize_settling f),
   (attention_kind (semantics f), prompt (semantics f), command (semantics f)),
   (options (semantics f), interaction (semantics f), question_layout (semantics f))).

Lemma frame_preimage_inj `{!DigestLaws} f g fm gm : frame_ok f -> frame_ok g ->
  frame_preimage f fm = frame_preimage g gm -> visible f fm = visible g gm.
Proof.
  intros Hf Hg. unfold frame_preimage, visible. rewrite !rows_field_data by done.
  intros E. pose proof Hf as [? Hr1 H1 H2 H3 H4 H5 H6]. pose proof Hg as [? Hr2 G1 G2 G3 G4 G5 G6].
  assert (forall fm, short (as_bytes (format_wire fm))) as Hfm by (intros []; apply short_small; cbn; lia).
  assert (forall b, short (flag_byte b)) as Hfl by (intros []; apply short_small; cbn; lia).
  assert (forall f : Frame, (forall r, viewport_rows f = Some r -> short (as_bytes (decimal r))) -> short (rows_data (viewport_rows f)).2) as Hrows.
  { intros h Hh. destruct (viewport_rows h) as [r|]; cbn [rows_data snd]; [by apply Hh|apply short_small; cbn; lia]. }
  apply write_field_inj in E as (_ & ->%as_bytes_inj & E); [|done..].
  apply write_field_inj in E as (_ & ->%as_bytes_inj%format_wire_inj & E); [|done..].
  apply write_field_inj in E as (_ & ->%flag_byte_inj & E); [|done..].
  apply write_field_inj in E as (_ & ->%flag_byte_inj & E); [|done..].
  apply write_field_inj in E as (Et & Ed & E); [|by apply Hrows..]. rewrite (rows_data_inj f g Hf Hg Et Ed).
  apply settling_field_inj in E as [-> E].
  apply write_field_inj in E as (_ & ->%as_bytes_inj & E); [|done..].
  apply write_field_inj in E as (_ & ->%as_bytes_inj & E); [|done..].
  apply write_field_inj in E as (_ & ->%as_bytes_inj & E); [|done..].
  apply write_field_inj in E as (_ & ->%options_bytes_inj & E); [|done..].
  apply write_field_inj in E as (_ & ->%interaction_bytes_inj & E); [|done..].
  rewrite <- (app_nil_r (write_field _ _)), <- (app_nil_r (write_field 2 (flag_byte (question_layout (semantics g))))) in E.
  by apply write_field_inj in E as (_ & ->%flag_byte_inj & _).
Qed.

(** ** The copy-everything delta *)

Lemma split_after_length s : length (Delta.split_after s) = S (Lines.count_nl s).
Proof.
  assert (forall s, length (Delta.split_inclusive s) =
    if bool_decide (s = ""%string) || Delta.ends_with_newline s then Lines.count_nl s else S (Lines.count_nl s)) as Hsi.
  { intros u. induction u as [|c t IH]; [by rewrite bool_decide_eq_true_2|]. cbn [Delta.split_inclusive Lines.count_nl Delta.ends_with_newline].
    rewrite (bool_decide_eq_false_2 (String c t = ""%string)) by done. cbn [orb]. destruct t as [|c' t].
    { cbn [Delta.split_inclusive Lines.count_nl]. destruct (decide (c = Delta.newline)) as [Hc|Hc]; [rewrite (bool_decide_eq_true_2 (c = Delta.newline)) by exact Hc|rewrite (bool_decide_eq_false_2 (c = Delta.newline)) by exact Hc]; done. }
    rewrite (bool_decide_eq_false_2 (String c' t = ""%string)) in IH by done. cbn [orb] in IH.
    destruct (decide (c = Delta.newline)).
    - cbn [length]. rewrite IH. destruct (Delta.ends_with_newline _); lia.
    - destruct (Delta.split_inclusive (String c' t)) as [|l ls] eqn:E; cbn [length] in *; [|rewrite IH; done].
      pose proof (Delta.split_inclusive_concat (String c' t)) as Hc. by rewrite E in Hc. }
  unfold Delta.split_after. specialize (Hsi s). destruct (decide (s = ""%string)) as [->|Hne]; [done|].
  rewrite (bool_decide_eq_false_2 (Delta.split_inclusive s = [])).
  2:{ intros E. pose proof (Delta.split_inclusive_concat s) as Hc. rewrite E in Hc. by symmetry in Hc. }
  rewrite (bool_decide_eq_false_2 (s = ""%string)) in Hsi by done. cbn [orb] in *.
  destruct (Delta.ends_with_newline s); [rewrite length_app; cbn [length]; lia|lia].
Qed.

(** A content whose lines a 64-bit segment field can count. *)
Definition countable_lines (s : string) : Prop := Z.of_nat (S (Lines.count_nl s)) <= i64_max.

Lemma apply_copy_all s : countable_lines s -> Delta.apply s (copy_all s) = Some s.
Proof.
  intros Hs. unfold countable_lines in Hs. unfold Delta.apply, copy_all. cbn [Delta.apply_loop Delta.copy_lines Delta.copy_start].
  rewrite decide_True by lia. unfold checked_add_i64. rewrite decide_True by (unfold i64_max, i64_min in *; lia).
  cbn [mbind option_bind]. rewrite split_after_length. rewrite decide_False by lia.
  rewrite Delta.slice_Some by (rewrite split_after_length; lia). cbn [mbind option_bind].
  change (""%string +:+ ?x) with x. f_equal. rewrite drop_0, take_ge by (rewrite split_after_length; lia).
  apply Delta.split_after_concat.
Qed.

Lemma apply_build previous current segments : countable_lines previous ->
  Delta.build previous current = Some segments -> Delta.apply previous segments = Some current.
Proof.
  intros Hp Hb. destruct (Delta.build_ok previous current) as (segs & Hs & Hok & Htext). rewrite Hb in Hs. injection Hs as <-.
  unfold Delta.apply. rewrite Delta.apply_loop_ok; [by rewrite Htext|rewrite split_after_length; exact Hp|done].
Qed.

(** ** Theorems *)

(** The frame fingerprint ranges over everything the phone shows: two
    frames that feed the digest the same bytes have the same content, format,
    truncation and viewport flags, row count, settle flag, attention kind,
    prompt, command, options, interaction and question layout. *)
Theorem frame_digest_input_injective `{!DigestLaws} (f g : Frame) (fm gm : ReadFormat) :
  frame_ok f -> frame_ok g -> frame_preimage f fm = frame_preimage g gm ->
  visible f fm = visible g gm.
Proof. apply frame_preimage_inj. Qed.

End Frames.

Arguments PaneSemantics : clear implicits.
Arguments Frame : clear implicits.
Arguments Outbound : clear implicits.
Arguments Meta : clear implicits.
Arguments Digest : clear implicits.
Arguments DigestLaws : clear implicits.

(** ** Concrete instances *)

#[export] Instance demo_digest : Digest string := {|
  sha256 b := [foldl (fun h x => (h * 31 + x) mod 256) 7 b; Z.of_nat (length b) mod 256];
  options_json o := 91 :: (o ≫= (fun s => 34 :: ((fun c => c + 1000) <$> as_bytes s)));
  interaction_json i := 123 :: as_bytes i;
|}.

Lemma demo_options_inj a b : a ≫= (fun s => 34 :: ((fun c => c + 1000) <$> as_bytes s)) = b ≫= (fun s => 34 :: ((fun c => c + 1000) <$> as_bytes s)) -> a = b.
Proof.
  assert (forall s k k', ((fun c => c + 1000) <$> as_bytes s) ++ k = k' -> (k = [] \/ head k = Some 34) -> (k' = [] \/ head k' = Some 34) -> s = ""%string) as Hnil.
  { intros s k k' <- _ Hk'. destruct s as [|c s]; [done|]. exfalso. cbn in Hk'. destruct Hk' as [|[= Hc]]; [done|].
    pose proof (ascii_byte_u8 c) as Hu. unfold is_u8 in Hu. lia. }
  assert (forall l : list string, (l ≫= (fun s => 34 :: ((fun c => c + 1000) <$> as_bytes s))) = [] \/ head (l ≫= (fun s => 34 :: ((fun c => c + 1000) <$> as_bytes s))) = Some 34) as Hh.
  { intros [|]; [by left|by right]. }
  assert (forall s t k k', (k = [] \/ head k = Some 34) -> (k' = [] \/ head k' = Some 34) ->
    ((fun c => c + 1000) <$> as_bytes s) ++ k = ((fun c => c + 1000) <$> as_bytes t) ++ k' -> s = t /\ k = k') as Hs.
  { induction s as [|c s IH]; intros t k k' Hk Hk' E.
    - cbn in E. symmetry in E. pose proof (Hnil t k' k E Hk' Hk) as ->. cbn in E. by subst.
    - destruct t as [|d t]; [cbn in E; by apply (Hnil (String c s) k k') in E|]. cbn in E. injection E as Hc E.
      destruct (IH t k k' Hk Hk' E) as [-> ->]. split; [|done]. f_equal. rewrite <- (byte_ascii_byte c), <- (byte_ascii_byte d). f_equal. lia. }
  revert b. induction a as [|s a IH]; intros [|t b]; cbn; try done. intros [= E]. apply Hs in E as [-> E]; [|apply Hh..]. f_equal. by apply IH.
Qed.

#[export] Instance demo_digest_laws : DigestLaws string demo_digest.
Proof.
  split; cbn.
  - intros a b [= E]. by apply demo_options_inj.
  - intros a E. by injection E.
  - intros a b [= E]. by apply as_bytes_inj.
  - intros a E. by injection E.
Qed.

Definition demo_semantics : PaneSemantics string := mkSemantics "chat" "" "" [] None false false None.
Definition demo_watch_frame (text : string) : Frame string :=
  let f := mkFrame text (content_fingerprint text) "" "claude" false false None false demo_semantics in
  mkFrame text (content_fp f) (frame_fingerprint f Ansi) "claude" false false None false demo_semantics.

Lemma demo_frame_ok text : (String.length text < 1000)%nat -> frame_ok (demo_watch_frame text).
Proof. intros Hs. split; cbn; try done; apply short_small; rewrite ?as_bytes_length; cbn; lia. Qed.

(** The same frame classified a moment later: only the no-echo pair moved. *)
Definition demo_echo_frame : Frame string :=
  let f := demo_watch_frame "Password:" in
  mkFrame (content f) (content_fp f) (frame_fp f) "codex" false false None false (mkSemantics "chat" "" "" [] None false true (Some "Password:"%string)).

Lemma frame_digest_input_injective_witness : visible (demo_watch_frame "Password:") Ansi = visible demo_echo_frame Ansi.
Proof.
  apply (frame_digest_input_injective (demo_watch_frame "Password:") demo_echo_frame); [apply demo_frame_ok; cbn; lia| |reflexivity].
  split; cbn; try done; apply short_small; cbn; lia.
Defined.

End WatchFrame.
