(* ===== verification/Watch.v ===== *)
(** * The watch of one pane — [lerdr-coord/src/watches.rs]

    The watch task as a state machine: its frame state, the stream slot, the
    reads behind a frame and the arms of the loop's [select!].  What the
    coordinator samples while a read runs (topology, leases, history version,
    Herdr's answers, whether the client's queue takes the message) is the
    environment of a step, so each operation is a function of the state and of
    its samples.  Instants are milliseconds. *)

From S2P Require Import Prelude Delta Protocol PaneRows AppHistory WatchFrame.
Import PaneRows WatchFrame.

Module Watch.

Section Watch.
Context {Interaction : Type} `{Digest Interaction} `{Protocol.CaseMapping}.

Abbreviation Frame := (WatchFrame.Frame Interaction).
Abbreviation Outbound := (WatchFrame.Outbound Interaction).

(** ** Frame state *)

Record WatchState := mkWatch {
  sent_fingerprint : string;
  sent_content : string;
  sent_frame_fingerprint : string;
  sent_resize_settling : bool;
  sent_classification_agent : string;
  probe_fingerprint : string;
  acked_fingerprint : string;
  pending_ack : bool;
  ack_deadline : option Z;
  force_full : bool;
  upstream_rev : Z;
  upstream_rev_generation : Z;
  gone : bool;
}.

Definition new : WatchState := mkWatch "" "" "" false "" "" "" false None false 0 (-1) false.

Definition set_gate (s : WatchState) (p : bool) (d : option Z) : WatchState :=
  mkWatch (sent_fingerprint s) (sent_content s) (sent_frame_fingerprint s) (sent_resize_settling s) (sent_classification_agent s)
    (probe_fingerprint s) (acked_fingerprint s) p d (force_full s) (upstream_rev s) (upstream_rev_generation s) (gone s).
Definition set_acked (s : WatchState) (a : string) : WatchState :=
  mkWatch (sent_fingerprint s) (sent_content s) (sent_frame_fingerprint s) (sent_resize_settling s) (sent_classification_agent s)
    (probe_fingerprint s) a (pending_ack s) (ack_deadline s) (force_full s) (upstream_rev s) (upstream_rev_generation s) (gone s).
Definition set_probe (s : WatchState) (p : string) : WatchState :=
  mkWatch (sent_fingerprint s) (sent_content s) (sent_frame_fingerprint s) (sent_resize_settling s) (sent_classification_agent s)
    p (acked_fingerprint s) (pending_ack s) (ack_deadline s) (force_full s) (upstream_rev s) (upstream_rev_generation s) (gone s).
Definition set_force (s : WatchState) (f : bool) : WatchState :=
  mkWatch (sent_fingerprint s) (sent_content s) (sent_frame_fingerprint s) (sent_resize_settling s) (sent_classification_agent s)
    (probe_fingerprint s) (acked_fingerprint s) (pending_ack s) (ack_deadline s) f (upstream_rev s) (upstream_rev_generation s) (gone s).
Definition set_gone (s : WatchState) (g : bool) : WatchState :=
  mkWatch (sent_fingerprint s) (sent_content s) (sent_frame_fingerprint s) (sent_resize_settling s) (sent_classification_agent s)
    (probe_fingerprint s) (acked_fingerprint s) (pending_ack s) (ack_deadline s) (force_full s) (upstream_rev s) (upstream_rev_generation s) g.

Definition fold_upstream (s : WatchState) (generation revision : Z) : WatchState :=
  let rev := if decide (generation <> upstream_rev_generation s) then 0 else upstream_rev s in
  let gen := if decide (generation <> upstream_rev_generation s) then generation else upstream_rev_generation s in
  mkWatch (sent_fingerprint s) (sent_content s) (sent_frame_fingerprint s) (sent_resize_settling s) (sent_classification_agent s)
    (probe_fingerprint s) (acked_fingerprint s) (pending_ack s) (ack_deadline s) (force_full s) (Z.max rev revision) gen (gone s).

Definition gate (s : WatchState) (now : Z) : WatchState := set_gate s true (Some (now + ACK_TIMEOUT)).
Definition ungate (s : WatchState) : WatchState := set_gate s false None.

Definition sent (s : WatchState) (f : Frame) (now : Z) : WatchState :=
  gate (mkWatch (content_fp f) (content f) (frame_fp f) (resize_settling f) (classification_agent f)
    (probe_fingerprint s) (acked_fingerprint s) (pending_ack s) (ack_deadline s) (force_full s) (upstream_rev s) (upstream_rev_generation s) (gone s)) now.

(** The reset an ack timeout and a resync share. *)
Definition reset_chain (s : WatchState) : WatchState := set_force (set_probe (set_acked (ungate s) "") "") true.

(** ** Sending *)

Abbreviation Step := (WatchState * list Outbound)%type.

(** [sink_ok]: whether [try_send] takes the message; [now]: when the gate shuts. *)
Record Sink := mkSink { sink_ok : bool; now : Z }.

Definition send_gone (pane_id : string) (spec : WatchSpec) (k : Sink) (s : WatchState) : Step :=
  if gone s then (s, [])
  else (ungate (set_gone s true), if sink_ok k then [PaneGone pane_id "pane_not_found" (target spec)] else []).

(** The message [send_frame] picks; [None] is [delta::build] panicking. *)
Definition pick_message (pane_id : string) (spec : WatchSpec) (s : WatchState) (f : Frame) : option Outbound :=
  if force_full s || bool_decide (sent_fingerprint s = ""%string) then Some (full_frame pane_id spec f)
  else if decide (content_fp f = sent_fingerprint s) then
    Some (delta_frame pane_id spec f (sent_fingerprint s) (copy_all (content f)))
  else
    segments ← Delta.build (sent_content s) (content f);
    Some (if Delta.efficient segments (content f) then delta_frame pane_id spec f (sent_fingerprint s) segments
          else full_frame pane_id spec f).

Definition same_frame (s : WatchState) (f : Frame) : bool :=
  negb (force_full s) && negb (bool_decide (sent_frame_fingerprint s = ""%string))
  && bool_decide (frame_fp f = sent_frame_fingerprint s).

(** An identical frame is adopted as acknowledged without being sent. *)
Definition adopt (s : WatchState) (f : Frame) : WatchState :=
  mkWatch (sent_fingerprint s) (sent_content s) (sent_frame_fingerprint s) (resize_settling f) (classification_agent f)
    (probe_fingerprint s) (content_fp f) (pending_ack s) (ack_deadline s) (force_full s) (upstream_rev s) (upstream_rev_generation s) (gone s).

Definition send_frame (pane_id : string) (spec : WatchSpec) (k : Sink) (s : WatchState) (f : Frame) : option Step :=
  if pending_ack s then Some (s, [])
  else if same_frame s f then Some (adopt s f, [])
  else
    message ← pick_message pane_id spec s f;
    Some (if sink_ok k then (set_force (sent s f (now k)) false, [message]) else (s, [])).

(** ** Reading *)

Record TopoView := mkView {
  v_generation : Z;
  v_content_rev : Z;
  v_agent : string;
  v_classification_agent : string;
  v_upstream_rev : Z;
}.

Record PaneReadResult := mkRead { r_text : string; r_revision : Z; r_truncated : bool }.

(** [HerdrError], by its refusal code. *)
Record HerdrError := mkHerdrError { refusal_code : option string }.

(** One attempt of [pane_read_fresh]: the samples around the read. *)
Record Attempt := mkAttempt {
  at_generation : Z;
  at_watermark : Z;
  at_read : result HerdrError PaneReadResult;
  at_observed : Z;
  at_generation_now : Z;
}.

Definition stale_read (a : Attempt) (r : PaneReadResult) : bool :=
  bool_decide (Z.max (at_watermark a) (r_revision r) < at_observed a)
  || (negb (bool_decide (r_revision r = 0))
      && (bool_decide (r_revision r mod 2 = 1) || bool_decide (r_revision r < at_watermark a))).

(** The revision an attempt folds into the shared watermark. *)
Definition noted (a : Attempt) (r : PaneReadResult) : list Z :=
  if decide (at_generation_now a = at_generation a) then [r_revision r] else [].

(** The read and the revisions noted; at most one re-read. *)
Definition pane_read_fresh (first second : Attempt) : result HerdrError PaneReadResult * list Z :=
  match at_read first with
  | Err e => (Err e, [])
  | Ok r =>
      if negb (stale_read first r) || negb (bool_decide (at_generation_now first = at_generation first)) then (Ok r, noted first r)
      else
        match at_read second with
        | Err e => (Err e, noted first r)
        | Ok r' => (Ok r', noted first r ++ noted second r')
        end
  end.

Inductive FrameRead := FFrame (f : Frame) | FRetry | FGone.

(** What [read_watch_frame] samples. *)
Record ReadEnv := mkReadEnv {
  e_version_before : option Z;
  e_before : TopoView;
  e_active_columns : option Z;
  e_active_rows : option Z;
  (** the live stream's render, once initialised *)
  e_stream : option (ReadSource -> bool -> nat -> string * bool);
  e_socket : ReadSource -> Attempt * Attempt;
  e_after : TopoView;
  e_resized : bool;
  e_classify : string -> string -> PaneSemantics Interaction;
  e_merge : string -> string * bool;
  e_match_prompt : string -> option string;
  e_version_after : option Z;
}.

Definition pane_not_found (e : HerdrError) : bool := bool_decide (refusal_code e = Some "pane_not_found"%string).

(** The text, its truncation flag and the socket revision. *)
Definition read_text (spec : WatchSpec) (source : ReadSource) (e : ReadEnv) : result FrameRead (string * bool * option Z) :=
  match e_stream e with
  | Some render => let '(text, tr) := render source (bool_decide (format spec = Ansi)) (lines spec) in Ok (text, tr, None)
  | None =>
      match (pane_read_fresh (e_socket e source).1 (e_socket e source).2).1 with
      | Ok r => Ok (r_text r, r_truncated r, Some (r_revision r))
      | Err err => Err (if pane_not_found err then FGone else FRetry)
      end
  end.

Definition build_frame (spec : WatchSpec) (e : ReadEnv) (viewport : bool) (text : string) (tr : bool) : Frame :=
  let capped := cap_pane_content_lines text (lines spec) in
  let agent := v_classification_agent (e_before e) in
  let p := prepare_pane_response (e_match_prompt e) (e_classify e) (e_merge e) capped tr agent viewport in
  let f := mkFrame (p_content p) (content_fingerprint (p_content p)) "" agent (p_truncated p) viewport
             (if viewport then e_active_rows e else None) (viewport && e_resized e) (p_semantics p) in
  mkFrame (content f) (content_fp f) (frame_fingerprint f (format spec)) agent (WatchFrame.truncated f) viewport
    (WatchFrame.viewport_rows f) (resize_settling f) (semantics f).

Definition read_watch_frame (spec : WatchSpec) (e : ReadEnv) (s : WatchState) : WatchState * FrameRead :=
  match e_version_before e with
  | None => (s, FRetry)
  | Some history_version =>
      let viewport := bool_decide (is_Some (e_active_columns e)) in
      let source := display_source (format spec) viewport (v_agent (e_before e)) in
      match read_text spec source e with
      | Err r => (s, r)
      | Ok (text, tr, revision) =>
          if decide (v_generation (e_after e) <> v_generation (e_before e) \/ v_content_rev (e_after e) <> v_content_rev (e_before e))
          then (s, FRetry)
          else
            let s := set_gone s false in
            let s := match revision with Some rev => fold_upstream s (v_generation (e_before e)) rev | None => s end in
            if decide (e_version_after e <> Some history_version) then (s, FRetry)
            else (s, FFrame (build_frame spec e viewport text tr))
      end
  end.

(** ** The stream slot *)

Record Stream := mkStream { st_initialized : bool; st_size : option (Z * Z) }.

Record StreamSlot := mkSlot {
  stream : option Stream;
  failed : bool;
  dirty : bool;
  application_version : Z;
  resume_pending : bool;
}.

Definition stream_ready (sl : StreamSlot) : bool := match stream sl with Some st => st_initialized st | None => false end.
Definition set_dirty (sl : StreamSlot) (d : bool) : StreamSlot :=
  mkSlot (stream sl) (failed sl) d (application_version sl) (resume_pending sl).

(** A fresh observer at [size], or a failed spawn. *)
Definition spawn (ok : bool) (size : option (Z * Z)) : option Stream := if ok then Some (mkStream false size) else None.

Definition sync_stream_geometry (sl : StreamSlot) (target : option (Z * Z)) (spawn_ok : bool) : StreamSlot :=
  match stream sl with
  | None => sl
  | Some st =>
      if decide (st_size st = target) then sl
      else mkSlot (spawn spawn_ok target) (negb spawn_ok) false (application_version sl) (resume_pending sl)
  end.

(** What [refresh_application_history] learns: nothing when the pane is
    unknown, else the store's view and whether this watch took the reservation. *)
Record HistoryEnv := mkHistoryEnv {
  h_view : option (AppHistory.View * bool);
  h_restart_ok : bool;
}.

Definition set_version (sl : StreamSlot) (v : Z) : StreamSlot := mkSlot (stream sl) (failed sl) (dirty sl) v (resume_pending sl).

Definition refresh_application_history (sl : StreamSlot) (e : HistoryEnv) : StreamSlot * bool :=
  match h_view e with
  | None => (sl, true)
  | Some (view, reserved) =>
      let sl := if AppHistory.vw_busy view then set_version sl (AppHistory.vw_version view) else sl in
      if reserved || AppHistory.vw_busy view then (sl, false)
      else
        match stream sl with
        | None => (sl, false)
        | Some st =>
            if decide (application_version sl = AppHistory.vw_version view) then (sl, true)
            else
              let restart := negb (bool_decide (application_version sl = 0)) || bool_decide (is_Some (AppHistory.vw_snapshot view)) in
              let sl := set_version sl (AppHistory.vw_version view) in
              if restart then
                if h_restart_ok e
                then (mkSlot (Some (mkStream false (st_size st))) (failed sl) (dirty sl) (application_version sl) true, false)
                else (mkSlot None true (dirty sl) (application_version sl) (resume_pending sl), false)
              else (sl, true)
        end
  end.

(** ** Polling *)

Record PollEnv := mkPollEnv {
  p_target : option (Z * Z);
  p_spawn_ok : bool;
  p_history : HistoryEnv;
  (** the topology's classification agent as [try_poll_stream] samples it *)
  p_stream_agent : string;
  p_probe_before : TopoView;
  p_probe : Attempt * Attempt;
  p_revive_size : option (Z * Z);
  p_revive_ok : bool;
  p_probe_after : TopoView;
  p_read : ReadEnv;
  p_sink : Sink;
}.

Abbreviation Polled := (WatchState * StreamSlot * list Outbound)%type.

Definition metadata_moved (s : WatchState) (agent : string) : bool :=
  sent_resize_settling s || (negb (bool_decide (sent_frame_fingerprint s = ""%string)) && negb (bool_decide (sent_classification_agent s = agent))).

Definition with_slot (sl : StreamSlot) (r : Step) : Polled := (r.1, sl, r.2).

Definition try_poll_stream (pane_id : string) (spec : WatchSpec) (e : PollEnv) (s : WatchState) (sl : StreamSlot) : option Polled :=
  if pending_ack s then Some (s, sl, [])
  else if negb (stream_ready sl) then Some (s, sl, [])
  else
    let '(sl, go) := refresh_application_history sl (p_history e) in
    if negb go then Some (s, sl, [])
    else if negb (dirty sl) && negb (metadata_moved s (p_stream_agent e)) then Some (s, sl, [])
    else
      match read_watch_frame spec (p_read e) s with
      | (s, FFrame f) => with_slot (set_dirty sl false) <$> send_frame pane_id spec (p_sink e) s f
      | (s, _) => Some (s, sl, [])
      end.

Definition needs_read (s : WatchState) (probe : PaneReadResult) (before after : TopoView) : bool :=
  bool_decide (probe_fingerprint s = ""%string)
  || negb (bool_decide (content_fingerprint (r_text probe) = probe_fingerprint s))
  || sent_resize_settling s
  || (negb (bool_decide (sent_frame_fingerprint s = ""%string)) && negb (bool_decide (sent_classification_agent s = v_classification_agent after)))
  || (bool_decide (Z.max (v_upstream_rev before) (r_revision probe) < v_upstream_rev after)
      || bool_decide (upstream_rev s < r_revision probe)).

Definition poll (pane_id : string) (spec : WatchSpec) (e : PollEnv) (s : WatchState) (sl : StreamSlot) : option Polled :=
  let sl := sync_stream_geometry sl (p_target e) (p_spawn_ok e) in
  if resume_pending sl && bool_decide (is_Some (stream sl)) then Some (s, sl, [])
  else if stream_ready sl then try_poll_stream pane_id spec e s sl
  else
    match (pane_read_fresh (p_probe e).1 (p_probe e).2).1 with
    | Err err => Some (with_slot sl (if pane_not_found err then send_gone pane_id spec (p_sink e) s else (s, [])))
    | Ok probe =>
        let sl := if gone s && negb (failed sl) && bool_decide (stream sl = None)
                  then mkSlot (spawn (p_revive_ok e) (p_revive_size e)) (negb (p_revive_ok e)) (dirty sl) (application_version sl) (resume_pending sl)
                  else sl in
        let s := set_gone s false in
        let before := p_probe_before e in
        let after := p_probe_after e in
        if decide (v_generation after <> v_generation before \/ v_content_rev after <> v_content_rev before) then Some (s, sl, [])
        else
          let fp := content_fingerprint (r_text probe) in
          let need := needs_read s probe before after in
          let s := fold_upstream s (v_generation before) (r_revision probe) in
          if negb need then Some (s, sl, [])
          else
            match read_watch_frame spec (p_read e) s with
            | (s, FFrame f) => with_slot sl <$> send_frame pane_id spec (p_sink e) (set_probe s fp) f
            | (s, FRetry) => Some (s, sl, [])
            | (s, FGone) => Some (with_slot sl (send_gone pane_id spec (p_sink e) s))
            end
    end.

(** ** The loop *)

Record Watching := mkWatching {
  w_state : WatchState;
  w_slot : StreamSlot;
  w_next_tick : Z;
  w_next_read : Z;
  w_live : bool;
}.

Record Invalidation := mkInvalidation { inv_name : string; inv_pane_id : option string; inv_output_revision : option Z }.

Inductive Event :=
| Cancelled
| Ack (fingerprint : string)
| Resync
| Stop
| StreamUpdated
| StreamClosed
| StreamEnded
| AckTimeout
| Tick
| Invalidated (inv : Invalidation)
| Lagged
| FeedClosed.

(** The initial read of [watch_loop], before the loop starts. *)
Definition start (pane_id : string) (spec : WatchSpec) (size : option (Z * Z)) (spawn_ok : bool) (e : ReadEnv) (k : Sink)
    : option (Watching * list Outbound) :=
  let sl := mkSlot (spawn spawn_ok size) (negb spawn_ok) false 0 false in
  let done_ (r : Step) := (mkWatching r.1 sl (now k + interval spec) (now k + interval spec) true, r.2) in
  match read_watch_frame spec e new with
  | (s, FFrame f) =>
      if decide (known_fingerprint spec = Some (content_fp f)) then
        Some (done_ (if sink_ok k then (sent s f (now k), [delta_frame pane_id spec f (content_fp f) (copy_all (content f))]) else (s, [])))
      else done_ <$> send_frame pane_id spec k s f
  | (s, FGone) => Some (done_ (send_gone pane_id spec k s))
  | (s, FRetry) => Some (done_ (s, []))
  end.

Definition triggers (pane_id : string) (s : WatchState) (inv : Invalidation) : bool :=
  (bool_decide (inv_pane_id inv = Some pane_id) || bool_decide (inv_pane_id inv = None))
  && match inv_output_revision inv with
     | Some revision => if decide (inv_name inv = "pane.output_changed"%string) then bool_decide (upstream_rev s < revision) else true
     | None => true
     end.

Definition polled (w : Watching) (tick read : Z) (r : Polled) : Watching * list Outbound :=
  (mkWatching r.1.1 r.1.2 tick read (w_live w), r.2).
Definition stopped (w : Watching) : Watching := mkWatching (w_state w) (w_slot w) (w_next_tick w) (w_next_read w) false.

(** One turn of the loop: [None] when the arm cannot fire. *)
Definition step (pane_id : string) (spec : WatchSpec) (w : Watching) (ev : Event) (e : PollEnv) : option (Watching * list Outbound) :=
  let s := w_state w in
  let sl := w_slot w in
  let t := now (p_sink e) in
  let fresh := t + interval spec in
  let keep := polled w (w_next_tick w) (w_next_read w) in
  if negb (w_live w) then None
  else
    match ev with
    | Cancelled | Stop | FeedClosed => Some (stopped w, [])
    | Ack fp =>
        if decide (fp = ""%string) then Some (w, [])
        else if pending_ack s && bool_decide (fp = sent_fingerprint s) then
          keep <$> try_poll_stream pane_id spec e (ungate (set_acked s fp)) sl
        else if negb (bool_decide (acked_fingerprint s = ""%string)) && bool_decide (fp = acked_fingerprint s) then Some (w, [])
        else Some (w, if sink_ok (p_sink e) then [PaneResync pane_id (target spec)] else [])
    | Resync =>
        let done_ r := polled w (w_next_tick w) fresh (with_slot sl r) in
        match read_watch_frame spec (p_read e) (reset_chain s) with
        | (s, FFrame f) => done_ <$> send_frame pane_id spec (p_sink e) s f
        | (s, FGone) => Some (done_ (send_gone pane_id spec (p_sink e) s))
        | (s, FRetry) => Some (done_ (s, []))
        end
    | StreamUpdated =>
        match stream sl with
        | None => None
        | Some st =>
            let sl := mkSlot (Some (mkStream true (st_size st))) (failed sl) true (application_version sl) false in
            polled w (w_next_tick w) fresh <$> try_poll_stream pane_id spec e s sl
        end
    | StreamClosed =>
        match stream sl with
        | None => None
        | Some _ =>
            let sl := mkSlot None (failed sl) (dirty sl) (application_version sl) (resume_pending sl) in
            Some (keep (with_slot sl (send_gone pane_id spec (p_sink e) s)))
        end
    | StreamEnded =>
        match stream sl with
        | None => None
        | Some _ => Some (keep (set_probe s "", mkSlot None true (dirty sl) (application_version sl) (resume_pending sl), []))
        end
    | AckTimeout =>
        match ack_deadline s with
        | Some deadline => if decide (deadline <= t) then Some (keep (reset_chain s, sl, [])) else None
        | None => None
        end
    | Tick =>
        if decide (t < w_next_tick w) then None
        else if pending_ack s then Some (mkWatching s sl fresh (w_next_read w) true, [])
        else polled w fresh fresh <$> poll pane_id spec e s sl
    | Invalidated inv =>
        if triggers pane_id s inv && negb (pending_ack s) && bool_decide (w_next_read w <= t)
        then polled w (w_next_tick w) fresh <$> poll pane_id spec e s sl else Some (w, [])
    | Lagged =>
        if negb (pending_ack s) && bool_decide (w_next_read w <= t)
        then polled w (w_next_tick w) fresh <$> poll pane_id spec e s sl else Some (w, [])
    end.

(** ** What each operation leaves alone *)

(** The part of the state a receiver's base depends on. *)
Definition chain (s : WatchState) : string * string * string := (sent_fingerprint s, sent_content s, sent_frame_fingerprint s).
Definition gate_state (s : WatchState) : bool * option Z * bool := (pending_ack s, ack_deadline s, force_full s).
Definition gate_ok (s : WatchState) : Prop := pending_ack s = true <-> is_Some (ack_deadline s).

Lemma read_watch_frame_keeps spec e s s' r : read_watch_frame spec e s = (s', r) -> chain s' = chain s /\ gate_state s' = gate_state s.
Proof.
  unfold read_watch_frame. destruct (e_version_before e); [|by intros [= <- <-]]. destruct (read_text _ _ _) as [[[text tr] rev]|]; [|by intros [= <- <-]].
  case_decide; [by intros [= <- <-]|]. destruct rev; case_decide; by intros [= <- <-].
Qed.

Lemma prepare_no_echo mp classify merge text tr agent viewport :
  let p := prepare_pane_response (Interaction := Interaction) mp classify merge text tr agent viewport in
  (no_echo (p_semantics p), no_echo_prompt (p_semantics p)) = no_echo_semantics mp (p_content p).
Proof.
  unfold prepare_pane_response. set (bm := if match _ with Some _ => _ | None => _ end && _ && _ then _ else _). destruct bm as [body mt].
  by destruct (no_echo_semantics mp body) eqn:E.
Qed.

(** A frame built from a read carries the fingerprints of its own fields. *)
Definition genuine (spec : WatchSpec) (mp : string -> option string) (f : Frame) : Prop :=
  content_fp f = content_fingerprint (content f) /\ frame_fp f = frame_fingerprint f (format spec) /\
  (no_echo (semantics f), no_echo_prompt (semantics f)) = no_echo_semantics mp (content f).

Lemma read_watch_frame_genuine spec e s s' f : read_watch_frame spec e s = (s', FFrame f) -> genuine spec (e_match_prompt e) f.
Proof.
  unfold read_watch_frame. destruct (e_version_before e); [|done]. destruct (read_text _ _ _) as [[[text tr] rev]|r] eqn:Et.
  2:{ unfold read_text in Et. destruct (e_stream e); [by case_match|]. destruct (_.1) as [|err]; [done|]. injection Et as <-. by destruct (pane_not_found err). }
  case_decide; [done|]. case_decide; [done|]. intros [= _ <-]. unfold build_frame. split; [done|]. split; [done|]. apply prepare_no_echo.
Qed.

(** The frame does not depend on the watch's state. *)
Definition frame_of (spec : WatchSpec) (e : ReadEnv) : FrameRead := (read_watch_frame spec e new).2.

Lemma read_watch_frame_of spec e s : (read_watch_frame spec e s).2 = frame_of spec e.
Proof.
  unfold frame_of, read_watch_frame. destruct (e_version_before e); [|done]. destruct (read_text _ _ _) as [[[text tr] rev]|]; [|done].
  case_decide; [done|]. by destruct rev; case_decide.
Qed.

(** A read served on the first attempt either belongs to a replaced pane (the
    caller's generation fence rejects it) or is settled: not overtaken while it
    ran and, where Herdr reports revisions, even and not behind the watermark. *)
Lemma pane_read_fresh_first first second r :
  at_read first = Ok r -> (forall r', at_read second = Ok r' -> r' <> r) -> (pane_read_fresh first second).1 = Ok r ->
  at_generation_now first <> at_generation first \/
  (at_observed first <= Z.max (at_watermark first) (r_revision r) /\
   (r_revision r = 0 \/ (r_revision r mod 2 <> 1 /\ at_watermark first <= r_revision r))).
Proof.
  unfold pane_read_fresh. intros Hr Hsec. rewrite Hr. destruct (decide (at_generation_now first = at_generation first)) as [Hg|Hg]; [|by left].
  rewrite (bool_decide_eq_true_2 _ Hg), orb_false_r. destruct (stale_read first r) eqn:Es; cbn [negb].
  - destruct (at_read second) as [r'|]; [|done]. intros [= ->]. by destruct (Hsec r eq_refl).
  - intros _. right. unfold stale_read in Es. apply orb_false_iff in Es as [E1 E2]. rewrite bool_decide_eq_false in E1. split; [lia|].
    destruct (decide (r_revision r = 0)); [by left|right]. rewrite bool_decide_eq_false_2 in E2 by done. cbn in E2.
    apply orb_false_iff in E2 as [E2 E3]. rewrite !bool_decide_eq_false in *. lia.
Qed.

End Watch.

Arguments WatchState : clear implicits.
Arguments ReadEnv : clear implicits.
Arguments PollEnv : clear implicits.
Arguments FrameRead : clear implicits.

End Watch.
