(* ===== verification/WatchSync.v ===== *)
(** * A watch and its client

    The specification of a pane watch: a receiver that applies every frame it
    is sent, full or delta, holds exactly the content and the metadata of the
    last frame the watch sent.  The receiver is abstract: it keeps one screen,
    replaces it on [pane_content], patches it on a [pane_delta] whose base is
    the screen it holds, and may lose its screen at any time and ask for a
    resync.  Frames accepted by the client's queue arrive in order. *)

From S2P Require Import Prelude Delta Protocol PaneRows WatchFrame Watch.
Import PaneRows WatchFrame Watch.

Module WatchSync.

(** ** Flow control *)

Section Gate.
Context {Interaction : Type} `{Digest Interaction} `{Protocol.CaseMapping} (pane_id : string) (spec : WatchSpec).

Abbreviation Outbound := (WatchFrame.Outbound Interaction).

(** ** The gate *)

(** Frames that show the pane (and want an acknowledgement). *)
Definition is_frame (m : Outbound) : bool := match m with PaneContent _ _ _ _ _ | PaneDelta _ _ _ _ _ => true | _ => false end.
Definition is_full (m : Outbound) : bool := match m with PaneContent _ _ _ ack _ => ack | _ => false end.
Definition frames (ms : list Outbound) : list Outbound := filter (fun m => is_frame m = true) ms.

(** What a turn does to the gate once the event itself is accounted for. *)
Definition evolves (s s' : WatchState) (ms : list Outbound) : Prop :=
  (frames ms = [] /\ pending_ack s' = pending_ack s /\ force_full s' = force_full s) \/
  (pending_ack s = false /\ pending_ack s' = true /\ force_full s' = false /\
   exists m, ms = [m] /\ is_frame m = true /\ (force_full s = true -> is_full m = true)).

Lemma send_frame_evolves s s' f k ms : send_frame pane_id spec k s f = Some (s', ms) -> evolves s s' ms.
Proof.
  unfold send_frame. destruct (pending_ack s) eqn:Ep; [intros [= <- <-]; by left|]. destruct (same_frame s f); [intros [= <- <-]; by left|].
  destruct (pick_message _ _ _ _) as [m|] eqn:Em; [|done]. cbn [mbind option_bind]. destruct (sink_ok k); intros [= <- <-]; [|by left].
  right. split; [done|]. split; [done|]. split; [done|]. exists m. split; [done|]. revert Em. unfold pick_message.
  destruct (force_full s); cbn [orb]; [intros [= <-]; done|]. case_bool_decide; [intros [= <-]; done|]. case_decide; [intros [= <-]; done|].
  destruct (Delta.build _ _); [|done]. cbn. intros [= <-]. destruct (Delta.efficient _ _); done.
Qed.

Lemma send_gone_evolves s k : pending_ack s = false ->
  evolves s (send_gone (Interaction := Interaction) pane_id spec k s).1 (send_gone (Interaction := Interaction) pane_id spec k s).2.
Proof. intros Hp. unfold send_gone. destruct (gone s); [by left|]. left. cbn. split; [by destruct (sink_ok k)|]. by rewrite Hp. Qed.

Lemma evolves_from s0 s s' ms : pending_ack s = pending_ack s0 -> force_full s = force_full s0 -> evolves s s' ms -> evolves s0 s' ms.
Proof. unfold evolves. by intros -> ->. Qed.

Lemma read_evolves s e s' r : read_watch_frame spec e s = (s', r) -> pending_ack s' = pending_ack s /\ force_full s' = force_full s.
Proof. intros Hr. destruct (read_watch_frame_keeps _ _ _ _ _ Hr) as [_ Hg]. unfold gate_state in Hg. by injection Hg. Qed.

Lemma silent s s' : pending_ack s' = pending_ack s -> force_full s' = force_full s -> evolves s s' [].
Proof. intros. by left. Qed.

Lemma try_poll_stream_evolves s e sl s' sl' ms : try_poll_stream pane_id spec e s sl = Some (s', sl', ms) -> evolves s s' ms.
Proof.
  unfold try_poll_stream. destruct (pending_ack s); [intros [= <- <- <-]; by apply silent|]. destruct (negb _); [intros [= <- <- <-]; by apply silent|].
  destruct (refresh_application_history _ _) as [sl1 go]. destruct (negb go); [intros [= <- <- <-]; by apply silent|].
  destruct (_ && _); [intros [= <- <- <-]; by apply silent|]. destruct (read_watch_frame _ _ _) as [s1 r] eqn:Er. apply read_evolves in Er as [Hp Hf].
  destruct r as [f| |]; [|intros [= <- <- <-]; by apply silent..]. destruct (send_frame _ _ _ _ _) as [[s2 ms2]|] eqn:Es; [|done].
  intros [= <- <- <-]. apply send_frame_evolves in Es. by eapply evolves_from, Es.
Qed.

Lemma poll_evolves s e sl s' sl' ms : pending_ack s = false -> poll pane_id spec e s sl = Some (s', sl', ms) -> evolves s s' ms.
Proof.
  intros Hp0. unfold poll. set (sl1 := sync_stream_geometry _ _ _). destruct (_ && _); [intros [= <- <- <-]; by apply silent|].
  destruct (stream_ready sl1); [apply try_poll_stream_evolves|]. destruct (_.1) as [probe|err].
  2:{ destruct (pane_not_found err); intros [= <- <- <-]; [by apply send_gone_evolves|by apply silent]. }
  case_decide; [intros [= <- <- <-]; by apply silent|]. destruct (negb _); [intros [= <- <- <-]; by apply silent|].
  destruct (read_watch_frame _ _ _) as [s1 r] eqn:Er. apply read_evolves in Er as [Hp Hf]. cbn in Hp, Hf. destruct r as [f| |].
  - destruct (send_frame _ _ _ _ _) as [[s2 ms2]|] eqn:Es; [|done]. intros [= <- <- <-]. apply send_frame_evolves in Es. by eapply evolves_from, Es.
  - intros [= <- <- <-]. by apply silent.
  - intros [= <- <- <-]. eapply evolves_from; [done..|]. apply send_gone_evolves. congruence.
Qed.

(** The events that take the frame in flight off the gate, and the state they leave. *)
Definition after_event (s : WatchState) (ev : Event) : WatchState :=
  match ev with
  | Ack fp => if negb (bool_decide (fp = ""%string)) && pending_ack s && bool_decide (fp = sent_fingerprint s) then ungate (set_acked s fp) else s
  | Resync | AckTimeout => reset_chain s
  | StreamClosed => if gone s then s else ungate (set_gone s true)
  | _ => s
  end.

Lemma step_evolves w ev e w' ms : step pane_id spec w ev e = Some (w', ms) -> evolves (after_event (w_state w) ev) (w_state w') ms.
Proof.
  unfold step. destruct (negb (w_live w)); [done|].
  assert (forall t r s sl, pending_ack s = false -> polled w t r <$> poll pane_id spec e s sl = Some (w', ms) -> evolves s (w_state w') ms) as Hpoll.
  { intros t r s sl Hp. destruct (poll _ _ _ _ _) as [[[s' sl'] ms']|] eqn:E; [|done]. intros [= <- <-]. by eapply poll_evolves. }
  assert (forall t r s sl, polled w t r <$> try_poll_stream pane_id spec e s sl = Some (w', ms) -> evolves s (w_state w') ms) as Htry.
  { intros t r s sl. destruct (try_poll_stream _ _ _ _ _) as [[[s' sl'] ms']|] eqn:E; [|done]. intros [= <- <-]. by eapply try_poll_stream_evolves. }
  destruct ev as [|fp| | | | | | | |inv| |]; cbn [after_event]; try (intros [= <- <-]; by apply silent).
  - case_decide as E0; [rewrite (bool_decide_eq_true_2 (fp = ""%string)) by done; cbn [negb andb]; intros [= <- <-]; by apply silent|]. rewrite (bool_decide_eq_false_2 (fp = ""%string)) by done. cbn [negb andb].
    destruct (pending_ack _ && _); [apply Htry|]. destruct (_ && _); [intros [= <- <-]; by apply silent|]. intros [= <- <-]. left. split; [by destruct (sink_ok _)|done].
  - destruct (read_watch_frame _ _ _) as [s1 r] eqn:Er. apply read_evolves in Er as [Hp Hf]. destruct r as [f| |].
    + destruct (send_frame _ _ _ _ _) as [[s2 ms2]|] eqn:Es; [|done]. intros [= <- <-]. apply send_frame_evolves in Es. by eapply evolves_from, Es.
    + intros [= <- <-]. by apply silent.
    + intros [= <- <-]. eapply evolves_from; [done..|]. by apply send_gone_evolves.
  - destruct (stream _); [|done]. apply Htry.
  - destruct (stream _); [|done]. intros [= <- <-]. unfold send_gone. cbn. destruct (gone _); [by apply silent|]. left. split; [by destruct (sink_ok _)|done].
  - destruct (stream _); [|done]. intros [= <- <-]. by apply silent.
  - destruct (ack_deadline _); [|done]. case_decide; [|done]. intros [= <- <-]. by apply silent.
  - case_decide; [done|]. destruct (pending_ack _) eqn:Ep; [intros [= <- <-]; by apply silent|]. by apply Hpoll.
  - destruct (_ && _) eqn:Ec; [|intros [= <- <-]; by apply silent]. rewrite !andb_true_iff, negb_true_iff in Ec. apply Hpoll. tauto.
  - destruct (_ && _) eqn:Ec; [|intros [= <- <-]; by apply silent]. rewrite !andb_true_iff, negb_true_iff in Ec. apply Hpoll. tauto.
Qed.

(** A run of the loop. *)
Fixpoint run (w : Watching) (l : list (Event * PollEnv Interaction)) : option (Watching * list (Event * list Outbound)) :=
  match l with
  | [] => Some (w, [])
  | (ev, e) :: l => '(w1, ms) ← step pane_id spec w ev e; '(w2, tr) ← run w1 l; Some (w2, (ev, ms) :: tr)
  end.

(** The number of frames in flight along a run: an event that opens the gate
    clears it, a frame sent adds one. *)
Fixpoint in_flight (n : nat) (w : Watching) (l : list (Event * PollEnv Interaction)) : list nat :=
  match l with
  | [] => [n]
  | (ev, e) :: l =>
      match step pane_id spec w ev e with
      | None => [n]
      | Some (w1, ms) => n :: in_flight ((if pending_ack (after_event (w_state w) ev) then n else 0) + length (frames ms))%nat w1 l
      end
  end.

Lemma in_flight_bound l n w : (n <= 1)%nat -> (n = 1%nat -> pending_ack (w_state w) = true) -> Forall (fun k => (k <= 1)%nat) (in_flight n w l).
Proof.
  revert n w. induction l as [|[ev e] l IH]; intros n w Hn Hp; cbn [in_flight]; [by constructor|].
  destruct (step _ _ _ _ _) as [[w1 ms]|] eqn:Es; [|by constructor]. constructor; [done|].
  apply step_evolves in Es. destruct Es as [(Hf & Hp1 & _)|(Hp0 & Hp1 & _ & m & -> & Hm & _)].
  - rewrite Hf, <- Hp1. cbn [length]. rewrite Nat.add_0_r. apply IH; destruct (pending_ack (w_state w1)); auto with lia.
  - rewrite Hp0. unfold frames. rewrite filter_cons_True by done. cbn. apply IH; [lia|done].
Qed.

Lemma after_event_force s ev : force_full s = true -> force_full (after_event s ev) = true.
Proof. intros Hf. destruct ev; cbn; try done; by case_match. Qed.

Lemma run_first_frame w l w' tr : force_full (w_state w) = true -> run w l = Some (w', tr) ->
  match frames (tr.*2 ≫= id) with m :: _ => is_full m = true | [] => force_full (w_state w') = true end.
Proof.
  revert w tr. induction l as [|[ev e] l IH]; intros w tr Hf; cbn [run]; [by intros [= <- <-]|].
  destruct (step _ _ _ _ _) as [[w1 ms]|] eqn:Es; [|done]. cbn [mbind option_bind]. destruct (run w1 l) as [[w2 tr2]|] eqn:Er; [|done].
  intros [= <- <-]. cbn [fmap list_fmap snd mbind list_bind id]. unfold frames. rewrite filter_app. apply step_evolves in Es.
  pose proof (after_event_force _ ev Hf) as Hf1. destruct Es as [(Hn & _ & Hf2)|(_ & _ & _ & m & -> & Hm & Hfull)].
  - unfold frames in Hn. rewrite Hn. cbn [app]. apply (IH w1); [congruence|done].
  - rewrite filter_cons_True by done. cbn. by apply Hfull.
Qed.

Lemma start_evolves size ok e k w ms : start pane_id spec size ok e k = Some (w, ms) -> evolves new (w_state w) ms.
Proof.
  unfold start. destruct (read_watch_frame _ _ _) as [s1 r] eqn:Er. apply read_evolves in Er as [Hp Hf]. cbn in Hp, Hf. destruct r as [f| |].
  - case_decide.
    + intros [= <- <-]. destruct (sink_ok k); [|by apply silent]. right. cbn. split; [done|]. split; [done|]. split; [done|]. eexists. by split; [|split].
    + destruct (send_frame _ _ _ _ _) as [[s2 ms2]|] eqn:Es; [|done]. intros [= <- <-]. apply send_frame_evolves in Es. by eapply evolves_from, Es.
  - intros [= <- <-]. by apply silent.
  - intros [= <- <-]. cbn [w_state]. eapply evolves_from; [done..|]. by apply send_gone_evolves.
Qed.

(** Flow control: from the start of a watch and along every run, at most
    one frame is in flight; a second is sent only after the first was
    acknowledged by its own fingerprint, timed out, was superseded by a
    resync, or the pane died. *)
Theorem one_frame_in_flight (size : option (Z * Z)) (ok : bool) (e : ReadEnv Interaction) (k : Sink) (w : Watching) (ms : list Outbound)
    (l : list (Event * PollEnv Interaction)) :
  start pane_id spec size ok e k = Some (w, ms) -> Forall (fun n => (n <= 1)%nat) (in_flight (length (frames ms)) w l).
Proof.
  intros Hs%start_evolves. destruct Hs as [(Hf & _)|(_ & Hp & _ & m & -> & Hm & _)].
  - rewrite Hf. by apply in_flight_bound; [cbn; lia|].
  - unfold frames. rewrite filter_cons_True by done. cbn. by apply in_flight_bound.
Qed.

(** After an acknowledgement times out (or a resync is asked for), the
    first frame the watch sends, whenever that is, is a full frame that asks
    for an acknowledgement: a lost base is never patched. *)
Theorem recovery_starts_full (w w1 w' : Watching) (ev : Event) (e : PollEnv Interaction) (ms : list Outbound)
    (l : list (Event * PollEnv Interaction)) (tr : list (Event * list Outbound)) :
  ev = AckTimeout \/ ev = Resync -> step pane_id spec w ev e = Some (w1, ms) -> run w1 l = Some (w', tr) ->
  match frames (ms ++ (tr.*2 ≫= id)) with m :: _ => is_full m = true | [] => True end.
Proof.
  intros Hev Hs Hr. unfold frames. rewrite filter_app. apply step_evolves in Hs.
  assert (force_full (after_event (w_state w) ev) = true) as Hff by (by destruct Hev as [-> | ->]).
  destruct Hs as [(Hn & _ & Hf)|(_ & _ & _ & m & -> & Hm & Hfull)].
  - unfold frames in Hn. rewrite Hn. cbn [app]. pose proof (run_first_frame w1 l w' tr ltac:(congruence) Hr) as H1. unfold frames in H1. by case_match.
  - rewrite filter_cons_True by done. cbn. by apply Hfull.
Qed.

End Gate.

Section Sync.
Context {Interaction : Type} `{Digest Interaction} `{!DigestLaws Interaction _} `{Protocol.CaseMapping}.

Abbreviation Frame := (WatchFrame.Frame Interaction).
Abbreviation Outbound := (WatchFrame.Outbound Interaction).

(** ** The receiver *)

Inductive Client :=
| Lost
| Holds (fingerprint : string) (body : string) (meta : option (Meta Interaction))
| Broken.

(** A delta that does not fit the screen held breaks the receiver. *)
Definition receive (c : Client) (m : Outbound) : Client :=
  match m with
  | PaneContent _ meta body _ _ => Holds (m_content_fingerprint meta) body (Some meta)
  | PaneDelta _ meta base segments _ =>
      match c with
      | Holds fp body _ =>
          if decide (base = fp) then
            match Delta.apply body segments with
            | Some body' => Holds (m_content_fingerprint meta) body' (Some meta)
            | None => Broken
            end
          else Broken
      | Lost => Lost
      | Broken => Broken
      end
  | _ => c
  end.

Definition receive_all (c : Client) (ms : list Outbound) : Client := foldl receive c ms.

(** The frame a receiver shows. *)
Definition shows (spec : WatchSpec) (f : Frame) : Client := Holds (content_fp f) (content f) (Some (meta_of spec f)).

(** ** The frames of a run *)

Context (pane_id : string) (spec : WatchSpec) (mp : string -> option string).

(** The frames that can be read in the run: their contents and digest inputs
    do not collide under the 64-bit fingerprints. *)
Context (V : Frame -> Prop).
Record no_collisions : Prop := {
  content_collision : forall f g, V f -> V g -> content_fingerprint (content f) = content_fingerprint (content g) -> content f = content g;
  frame_collision : forall f g, V f -> V g -> frame_fingerprint f (format spec) = frame_fingerprint g (format spec) ->
    frame_preimage f (format spec) = frame_preimage g (format spec);
  frames_ok : forall f, V f -> frame_ok f /\ countable_lines (content f);
}.

Definition env_ok (e : ReadEnv Interaction) : Prop :=
  e_match_prompt e = mp /\ forall f, frame_of spec e = FFrame f -> V f.

Hypothesis HV : no_collisions.

(** ** The invariant *)

Definition holds_frame (s : WatchState) (c : Client) (f : Frame) : Prop :=
  V f /\ genuine spec mp f /\ chain s = (content_fp f, content f, frame_fp f) /\ (c = Lost \/ c = shows spec f).

Definition sync (s : WatchState) (c : Client) : Prop :=
  gate_ok s /\ c <> Broken /\ (chain s = (""%string, ""%string, ""%string) \/ exists f, holds_frame s c f).

Lemma sync_chain s s' c : chain s' = chain s -> gate_ok s' -> sync s c -> sync s' c.
Proof. unfold sync, holds_frame. intros -> Hg (_ & Hb & Hc). done. Qed.

Lemma gate_state_ok s s' : gate_state s' = gate_state s -> gate_ok s -> gate_ok s'.
Proof. unfold gate_state, gate_ok. by intros [= -> -> _]. Qed.

Lemma visible_meta f g : genuine spec mp f -> genuine spec mp g -> visible f (format spec) = visible g (format spec) -> meta_of spec f = meta_of spec g.
Proof.
  intros (Hf & _ & Hnf) (Hg & _ & Hng). unfold visible, meta_of. destruct f as [cf ff gf af tf vf rf zf [kf pf mf of_ i_f qf nf ef]], g as [cg fg gg ag tg vg rg zg [kg pg mg og ig qg ng eg]].
  cbn in *. intros [= -> -> -> -> -> -> -> -> -> -> ->]. rewrite Hf, Hg. rewrite <- Hng in Hnf. by injection Hnf as -> ->.
Qed.

Lemma full_frame_receive c f : receive c (full_frame pane_id spec f) = shows spec f.
Proof. done. Qed.

Lemma delta_frame_receive f0 f segments : genuine spec mp f0 -> Delta.apply (content f0) segments = Some (content f) ->
  receive (shows spec f0) (delta_frame pane_id spec f (content_fp f0) segments) = shows spec f.
Proof. intros Hg0 Ha. cbn [receive delta_frame shows]. rewrite decide_True by done. by rewrite Ha. Qed.

Lemma sent_gate_ok s (f : Frame) t : gate_ok (set_force (sent s f t) false).
Proof. unfold gate_ok. cbn. split; [by intros _; eexists|done]. Qed.

(** The message picked for a frame brings any receiver in sync to that frame. *)
Lemma pick_message_receive s c f : sync s c -> V f -> genuine spec mp f ->
  exists m, pick_message pane_id spec s f = Some m /\ (receive c m = Lost \/ receive c m = shows spec f) /\
    ((c <> Lost \/ force_full s = true) -> receive c m = shows spec f).
Proof.
  intros (_ & Hb & Hc) HVf Hgf. unfold pick_message. destruct (force_full s || _) eqn:Ef.
  { eexists. split; [done|]. split; [by right|done]. }
  apply orb_false_iff in Ef as [Eff Efp%bool_decide_eq_false]. destruct Hc as [Hc|(f0 & HV0 & Hg0 & Hch & Hcl)].
  { exfalso. apply Efp. unfold chain in Hc. by injection Hc. }
  unfold chain in Hch. injection Hch as Hfp Hco Hfr. rewrite Hfp, Hco.
  assert (forall segs, Delta.apply (content f0) segs = Some (content f) ->
    (receive c (delta_frame pane_id spec f (content_fp f0) segs) = Lost \/ receive c (delta_frame pane_id spec f (content_fp f0) segs) = shows spec f) /\
    ((c <> Lost \/ force_full s = true) -> receive c (delta_frame pane_id spec f (content_fp f0) segs) = shows spec f)) as Hdelta.
  { intros segs Ha. destruct Hcl as [->| ->]; [split; [by left|rewrite Eff; by intros [?|?]]|]. split; [right|intros _]; by apply delta_frame_receive. }
  case_decide as Hsame.
  - eexists. split; [done|]. apply Hdelta. destruct Hg0 as (Hc0 & _), Hgf as (Hcf & _).
    rewrite (content_collision HV f f0 HVf HV0) by congruence. apply apply_copy_all. by apply (frames_ok HV).
  - destruct (Delta.build_ok (content f0) (content f)) as (segs & Hbuild & _). rewrite Hbuild. cbn [mbind option_bind]. destruct (Delta.efficient _ _).
    + eexists. split; [done|]. apply Hdelta. eapply apply_build; [|done]. by apply (frames_ok HV).
    + eexists. split; [done|]. split; [by right|done].
Qed.

Lemma same_frame_shows s c f : sync s c -> V f -> genuine spec mp f -> same_frame s f = true ->
  c <> Lost -> c = shows spec f.
Proof.
  intros (_ & Hb & Hc) HVf Hgf Hs Hl. unfold same_frame in Hs. rewrite !andb_true_iff, !negb_true_iff, bool_decide_eq_true, bool_decide_eq_false in Hs.
  destruct Hs as [[_ Hne] Hfr]. destruct Hc as [Hc|(f0 & HV0 & Hg0 & Hch & Hcl)]; [exfalso; apply Hne; unfold chain in Hc; by injection Hc|].
  destruct Hcl as [->| ->]; [done|]. unfold chain in Hch. injection Hch as Hfp Hco Hfr0. rewrite Hfr0 in Hfr.
  assert (visible f (format spec) = visible f0 (format spec)) as Hv.
  { apply frame_preimage_inj; [by apply (frames_ok HV)..|]. apply (frame_collision HV); [done..|]. destruct Hgf as (_ & <- & _), Hg0 as (_ & <- & _). done. }
  unfold shows. rewrite (visible_meta f f0 Hgf Hg0 Hv). unfold visible in Hv. injection Hv as Hcf _ _ _ _ _ _ _ _ _ _.
  destruct Hgf as (-> & _), Hg0 as (-> & _). by rewrite Hcf.
Qed.

(** ** Sending keeps the receiver in sync *)

Lemma send_frame_sync s c f k : sync s c -> V f -> genuine spec mp f ->
  exists s' ms, send_frame pane_id spec k s f = Some (s', ms) /\ sync s' (receive_all c ms) /\
    (pending_ack s = false -> sink_ok k = true -> c <> Lost \/ force_full s = true -> receive_all c ms = shows spec f).
Proof.
  intros Hs HVf Hgf. unfold send_frame. destruct (pending_ack s) eqn:Ep; [by eexists _, _|].
  destruct (same_frame s f) eqn:Es.
  { eexists _, _. split; [done|]. split; [by apply (sync_chain s); [done|destruct Hs|]|]. intros _ _ Hc. apply (same_frame_shows s); try done.
    unfold same_frame in Es. rewrite !andb_true_iff, !negb_true_iff in Es. destruct Es as [[Eff _] _], Hc as [|]; [done|congruence]. }
  destruct (pick_message_receive s c f Hs HVf Hgf) as (m & -> & Hm & Hm'). cbn [mbind option_bind]. destruct (sink_ok k).
  - eexists _, _. split; [done|]. cbn [receive_all foldl]. split; [|by intros; apply Hm'].
    split; [apply sent_gate_ok|]. split; [by destruct Hm as [-> | ->]|]. right. exists f. by repeat split; try apply Hgf.
  - eexists _, _. split; [done|]. by split; [|intros; done].
Qed.

Lemma send_gone_sync s c k : sync s c ->
  sync (send_gone (Interaction := Interaction) pane_id spec k s).1 (receive_all c (send_gone (Interaction := Interaction) pane_id spec k s).2).
Proof.
  intros Hs. unfold send_gone. destruct (gone s); [done|]. cbn [fst snd].
  assert (receive_all c (if sink_ok k then [PaneGone pane_id "pane_not_found" (target spec)] else []) = c) as -> by (by destruct (sink_ok k)).
  apply (sync_chain s); [done| |done]. unfold gate_ok. cbn. split; [done|by intros []].
Qed.

Lemma read_sync s c e s' r : sync s c -> read_watch_frame spec e s = (s', r) -> sync s' c.
Proof. intros Hs Hr. destruct (read_watch_frame_keeps _ _ _ _ _ Hr) as [Hc Hg]. apply (sync_chain s); [done|by eapply gate_state_ok, Hs|done]. Qed.

Lemma read_genuine s e s' f : env_ok e -> read_watch_frame spec e s = (s', FFrame f) -> V f /\ genuine spec mp f.
Proof.
  intros [Hmp HVe] Hr. split; [|rewrite <- Hmp; by eapply read_watch_frame_genuine]. apply HVe. by rewrite <- (read_watch_frame_of spec e s), Hr.
Qed.

Lemma reset_chain_sync s c : sync s c -> sync (reset_chain s) c.
Proof. intros Hs. apply (sync_chain s); [done| |done]. unfold gate_ok. cbn. split; [done|by intros []]. Qed.

Lemma frame_sync s c e s' f k : sync s c -> env_ok e -> read_watch_frame spec e s = (s', FFrame f) ->
  exists s2 ms, send_frame pane_id spec k s' f = Some (s2, ms) /\ sync s2 (receive_all c ms).
Proof.
  intros Hs He Hr. destruct (read_genuine _ _ _ _ He Hr) as [HVf Hgf]. pose proof (read_sync _ _ _ _ _ Hs Hr) as Hs'.
  destruct (send_frame_sync s' c f k Hs' HVf Hgf) as (s2 & ms & H1 & H2 & _). by exists s2, ms.
Qed.

Definition poll_env_ok (e : PollEnv Interaction) : Prop := env_ok (p_read e).

Lemma try_poll_stream_sync s c e sl : sync s c -> poll_env_ok e ->
  exists s' sl' ms, try_poll_stream pane_id spec e s sl = Some (s', sl', ms) /\ sync s' (receive_all c ms).
Proof.
  intros Hs He. unfold try_poll_stream. destruct (pending_ack s); [by eexists _, _, _|]. destruct (negb _); [by eexists _, _, _|].
  destruct (refresh_application_history _ _) as [sl' go]. destruct (negb go); [by eexists _, _, _|]. destruct (_ && _); [by eexists _, _, _|].
  destruct (read_watch_frame _ _ _) as [s1 r] eqn:Er. destruct r as [f| |]; [|by eexists _, _, _; split; [done|]; eapply read_sync..].
  destruct (frame_sync s c (p_read e) s1 f (p_sink e) Hs He Er) as (s2 & ms & -> & Hs2). by eexists _, _, _.
Qed.

Lemma fold_upstream_sync s c g r : sync s c -> sync (fold_upstream s g r) c.
Proof. intros Hs. apply (sync_chain s); [done|by destruct Hs|done]. Qed.
Lemma set_gone_sync s c b : sync s c -> sync (set_gone s b) c.
Proof. intros Hs. apply (sync_chain s); [done|by destruct Hs|done]. Qed.
Lemma set_probe_sync s c p : sync s c -> sync (set_probe s p) c.
Proof. intros Hs. apply (sync_chain s); [done|by destruct Hs|done]. Qed.

Lemma with_slot_gone_sync s c k sl : sync s c ->
  exists s' sl' ms, Some (with_slot (Interaction := Interaction) sl (send_gone pane_id spec k s)) = Some (s', sl', ms) /\ sync s' (receive_all c ms).
Proof. intros Hs. unfold with_slot. eexists _, _, _. split; [done|]. by apply send_gone_sync. Qed.

Lemma poll_sync s c e sl : sync s c -> poll_env_ok e ->
  exists s' sl' ms, poll pane_id spec e s sl = Some (s', sl', ms) /\ sync s' (receive_all c ms).
Proof.
  intros Hs He. unfold poll. set (sl1 := sync_stream_geometry _ _ _). destruct (_ && _); [by eexists _, _, _|].
  destruct (stream_ready sl1); [by apply try_poll_stream_sync|]. destruct (_.1) as [probe|err].
  2:{ destruct (pane_not_found err); [by apply with_slot_gone_sync|by eexists _, _, _]. }
  apply (set_gone_sync _ _ false) in Hs. case_decide; [by eexists _, _, _|].
  apply (fold_upstream_sync _ _ (v_generation (p_probe_before e)) (r_revision probe)) in Hs. destruct (negb _); [by eexists _, _, _|].
  destruct (read_watch_frame _ _ _) as [s1 r] eqn:Er. pose proof (read_sync _ _ _ _ _ Hs Er) as Hs1. destruct r as [f| |].
  - destruct (read_genuine _ _ _ _ He Er) as [HVf Hgf]. apply (set_probe_sync _ _ (content_fingerprint (r_text probe))) in Hs1.
    destruct (send_frame_sync _ _ f (p_sink e) Hs1 HVf Hgf) as (s2 & ms & -> & Hs2 & _). by eexists _, _, _.
  - by eexists _, _, _.
  - by apply with_slot_gone_sync.
Qed.

Lemma polled_sync w c t r o : (exists s' sl' ms, o = Some (s', sl', ms) /\ sync s' (receive_all c ms)) ->
  exists w' ms, polled (Interaction := Interaction) w t r <$> o = Some (w', ms) /\ sync (w_state w') (receive_all c ms).
Proof. intros (s' & sl' & ms & -> & Hs). eexists _, ms. split; [done|]. done. Qed.

(** ** Every turn of the loop *)

Lemma step_sync w c ev e w' ms : sync (w_state w) c -> poll_env_ok e -> step pane_id spec w ev e = Some (w', ms) ->
  sync (w_state w') (receive_all c ms).
Proof.
  intros Hs He. unfold step. destruct (negb (w_live w)); [done|].
  assert (forall t r s, sync s c -> forall sl, polled w t r <$> poll pane_id spec e s sl = Some (w', ms) -> sync (w_state w') (receive_all c ms)) as Hpoll.
  { intros t r s Hs1 sl E. destruct (polled_sync w c t r _ (poll_sync s c e sl Hs1 He)) as (w1 & ms1 & E1 & H1). rewrite E in E1. by injection E1 as -> ->. }
  assert (forall t r s, sync s c -> forall sl, polled w t r <$> try_poll_stream pane_id spec e s sl = Some (w', ms) -> sync (w_state w') (receive_all c ms)) as Htry.
  { intros t r s Hs1 sl E. destruct (polled_sync w c t r _ (try_poll_stream_sync s c e sl Hs1 He)) as (w1 & ms1 & E1 & H1). rewrite E in E1. by injection E1 as -> ->. }
  destruct ev as [|fp| | | | | | | |inv| |]; try (by intros [= <- <-]).
  - case_decide; [by intros [= <- <-]|]. destruct (_ && _).
    { apply Htry. apply (sync_chain (w_state w)); [done| |done]. unfold gate_ok. cbn. split; [done|by intros []]. }
    destruct (_ && _); [by intros [= <- <-]|]. intros [= <- <-]. by destruct (sink_ok _).
  - destruct (read_watch_frame _ _ _) as [s1 r] eqn:Er. pose proof (reset_chain_sync _ _ Hs) as Hs0. pose proof (read_sync _ _ _ _ _ Hs0 Er) as Hs1.
    destruct r as [f| |]; [| |].
    + destruct (frame_sync _ c (p_read e) s1 f (p_sink e) Hs0 He Er) as (s2 & ms2 & -> & Hs2). by intros [= <- <-].
    + by intros [= <- <-].
    + intros [= <- <-]. cbn. by apply send_gone_sync.
  - destruct (stream (w_slot w)); [|done]. by apply Htry.
  - destruct (stream (w_slot w)); [|done]. intros [= <- <-]. cbn. by apply send_gone_sync.
  - destruct (stream (w_slot w)); [|done]. intros [= <- <-]. by apply set_probe_sync.
  - destruct (ack_deadline _); [|done]. case_decide; [|done]. intros [= <- <-]. by apply reset_chain_sync.
  - case_decide; [done|]. destruct (pending_ack _); [by intros [= <- <-]|]. by apply Hpoll.
  - destruct (_ && _); [by apply Hpoll|by intros [= <- <-]].
  - destruct (_ && _); [by apply Hpoll|by intros [= <- <-]].
Qed.

(** ** The system: watch and receiver *)

(** What the client held when it asked for the watch. *)
Definition known_ok (c : Client) : Prop :=
  c = Lost \/ exists k body meta, c = Holds k body meta /\ known_fingerprint spec = Some k /\ k = content_fingerprint body /\
    forall f, V f -> content_fingerprint (content f) = k -> content f = body.

Lemma start_sync c size ok e k : known_ok c -> env_ok e ->
  exists w ms, start pane_id spec size ok e k = Some (w, ms) /\ sync (w_state w) (receive_all c ms) /\ w_live w = true.
Proof.
  intros Hk He. assert (sync new c) as Hs.
  { split; [split; [done|by intros []]|]. split; [|by left]. destruct Hk as [->|(? & ? & ? & -> & _)]; done. }
  unfold start. destruct (read_watch_frame _ _ _) as [s1 r] eqn:Er. pose proof (read_sync _ _ _ _ _ Hs Er) as Hs1. destruct r as [f| |].
  - destruct (read_genuine _ _ _ _ He Er) as [HVf Hgf]. case_decide as Hknown.
    + eexists _, _. split; [done|]. cbn [w_state w_live]. split; [|done]. destruct (sink_ok k); [|done]. cbn [fst snd receive_all foldl].
      assert (receive c (delta_frame pane_id spec f (content_fp f) (copy_all (content f))) = Lost \/
              receive c (delta_frame pane_id spec f (content_fp f) (copy_all (content f))) = shows spec f) as Hr.
      { destruct Hk as [->|(kf & body & meta & -> & Hkn & Hkf & Hbody)]; [by left|right]. rewrite Hknown in Hkn. injection Hkn as Hkn.
        assert (content f = body) as Hc by (apply Hbody; [done|]; destruct Hgf as (<- & _); done).
        cbn [receive delta_frame]. rewrite decide_True by done. rewrite <- Hc, apply_copy_all by apply (frames_ok HV f HVf). done. }
      split; [unfold gate_ok; cbn; split; [by intros _; eexists|done]|]. split; [by destruct Hr as [-> | ->]|]. right. exists f. by repeat split; try apply Hgf.
    + destruct (send_frame_sync s1 c f k Hs1 HVf Hgf) as (s2 & ms & -> & Hs2 & _). by eexists _, _.
  - by eexists _, _.
  - eexists _, _. split; [done|]. split; [|done]. by apply send_gone_sync.
Qed.

(** A client that lost its screen keeps what it knows of nothing. *)
Inductive reach (c0 : Client) : Watching -> Client -> Prop :=
| reach_start size ok e k w ms : known_ok c0 -> env_ok e -> start pane_id spec size ok e k = Some (w, ms) -> reach c0 w (receive_all c0 ms)
| reach_step w c ev e w' ms : reach c0 w c -> poll_env_ok e -> step pane_id spec w ev e = Some (w', ms) -> reach c0 w' (receive_all c ms)
| reach_lose w c : reach c0 w c -> reach c0 w Lost.

Lemma lose_sync s c : sync s c -> sync s Lost.
Proof. intros (Hg & _ & Hc). split; [done|]. split; [done|]. destruct Hc as [|(f & Hv & Hgf & Hch & _)]; [by left|right]. exists f. by repeat split; try apply Hgf; try left. Qed.

Lemma reach_sync c0 w c : reach c0 w c -> sync (w_state w) c.
Proof.
  induction 1 as [size ok e k w ms Hk He Hs|w c ev e w' ms _ IH He Hstep|w c _ IH].
  - destruct (start_sync c0 size ok e k Hk He) as (w' & ms' & E & Hs' & _). rewrite Hs in E. by injection E as <- <-.
  - by eapply step_sync.
  - by eapply lose_sync.
Qed.

(** ** Theorems *)

(** A resync always restores the receiver: whatever it held, if the read
    succeeds and the queue takes the message, the loop answers with exactly one
    full frame that asks for an acknowledgement, the receiver then shows the
    frame read, and the gate is shut. *)
Theorem resync_restores (c0 : Client) (w : Watching) (c : Client) (e : PollEnv Interaction) (f : Frame) :
  reach c0 w c -> w_live w = true -> poll_env_ok e -> frame_of spec (p_read e) = FFrame f -> sink_ok (p_sink e) = true ->
  exists w', step pane_id spec w Resync e = Some (w', [full_frame pane_id spec f]) /\
    receive_all c [full_frame pane_id spec f] = shows spec f /\ is_full (full_frame pane_id spec f) = true /\ pending_ack (w_state w') = true.
Proof.
  intros Hr Hl He Hf Hk. unfold step. rewrite Hl. cbn [negb]. destruct (read_watch_frame _ _ _) as [s1 r] eqn:Er.
  pose proof (read_watch_frame_of spec (p_read e) (reset_chain (w_state w))) as Ho. rewrite Er, Hf in Ho. cbn in Ho. subst r.
  destruct (read_evolves _ _ _ _ _ Er) as [Hp Hff]. cbn in Hp, Hff. unfold send_frame, same_frame, pick_message. rewrite Hp, Hff, Hk. cbn.
  eexists. split; [done|]. done.
Qed.

(** C8 — A pane watch refines one shared screen.  In every run of the loop
    (ticks, invalidations, stream output, acks, timeouts, resyncs, deaths and
    refused sends in any order, the client losing its screen at any time), whose
    frames do not collide under their fingerprints and whose client names as
    known only the fingerprint of the screen it holds: a receiver that has a
    screen is never handed a delta for another base or one that does not apply
    to it; the screen a receiver holds after a frame was sent is exactly the
    content the watch recorded as sent, under that content's fingerprint, with
    that frame's metadata; and whatever the receiver holds, a screen it lost
    included (it ignores deltas meanwhile), a resync whose read succeeds and
    whose message is taken answers with one full frame after which the receiver
    shows the frame read. *)
Theorem watch_refines_screen (c0 : Client) (w : Watching) (c : Client) :
  reach c0 w c ->
  c <> Broken /\
  (forall fp body meta, c = Holds fp body meta -> sent_fingerprint (w_state w) <> ""%string ->
    fp = sent_fingerprint (w_state w) /\ body = sent_content (w_state w) /\ fp = content_fingerprint body /\
    exists f, V f /\ content f = body /\ sent_frame_fingerprint (w_state w) = frame_fp f /\ meta = Some (meta_of spec f)) /\
  (forall e f, w_live w = true -> poll_env_ok e -> frame_of spec (p_read e) = FFrame f -> sink_ok (p_sink e) = true ->
    exists w', step pane_id spec w Resync e = Some (w', [full_frame pane_id spec f]) /\ receive_all c [full_frame pane_id spec f] = shows spec f).
Proof.
  intros Hr. split_and!; [by apply reach_sync in Hr as (_ & Hb & _)| |].
  - apply reach_sync in Hr as (_ & Hb & Hc). intros fp body meta -> Hne.
    destruct Hc as [Hc|(f & HVf & Hgf & Hch & Hcl)]; [exfalso; apply Hne; unfold chain in Hc; by injection Hc|].
    unfold chain in Hch. injection Hch as -> -> ->. destruct Hcl as [|[= -> -> ->]]; [done|]. destruct Hgf as (Hfp & _).
    split; [done|]. split; [done|]. split; [done|]. by exists f.
  - intros e f Hl He Hf Hk. destruct (resync_restores c0 w c e f Hr Hl He Hf Hk) as (w' & Hs & Hc & _). by exists w'.
Qed.

(** A due tick shows the client the pane: with the gate open, no
    stream attached, a fresh probe that asks for a read, and a read that
    succeeds, the receiver that has not lost its screen shows exactly the frame
    read, whether that took a full frame, a delta or nothing at all. *)
Theorem tick_shows_current (c0 : Client) (w : Watching) (c : Client) (e : PollEnv Interaction) (probe : PaneReadResult) (f : Frame) :
  reach c0 w c -> c <> Lost -> w_live w = true -> poll_env_ok e ->
  pending_ack (w_state w) = false -> w_next_tick w <= now (p_sink e) -> stream (w_slot w) = None ->
  (pane_read_fresh (p_probe e).1 (p_probe e).2).1 = Ok probe ->
  v_generation (p_probe_after e) = v_generation (p_probe_before e) -> v_content_rev (p_probe_after e) = v_content_rev (p_probe_before e) ->
  needs_read (set_gone (w_state w) false) probe (p_probe_before e) (p_probe_after e) = true ->
  frame_of spec (p_read e) = FFrame f -> sink_ok (p_sink e) = true ->
  exists w' ms, step pane_id spec w Tick e = Some (w', ms) /\ receive_all c ms = shows spec f.
Proof.
  intros Hr Hlost Hl He Hp Ht Hstream Hprobe Hg Hc Hneed Hf Hk. apply reach_sync in Hr. unfold step. rewrite Hl, Hp. cbn [negb].
  rewrite decide_False by lia. unfold poll.
  assert (sync_stream_geometry (w_slot w) (p_target e) (p_spawn_ok e) = w_slot w) as -> by (unfold sync_stream_geometry; by rewrite Hstream).
  assert (bool_decide (is_Some (stream (w_slot w))) = false) as -> by (apply bool_decide_eq_false_2; rewrite Hstream; by intros []).
  rewrite andb_false_r. unfold stream_ready. rewrite Hstream, Hprobe, Hneed. rewrite decide_False by (rewrite Hg, Hc; tauto). cbn [negb].
  apply (set_gone_sync _ _ false) in Hr. apply (fold_upstream_sync _ _ (v_generation (p_probe_before e)) (r_revision probe)) in Hr.
  destruct (read_watch_frame _ _ _) as [s1 r] eqn:Er.
  pose proof (read_watch_frame_of spec (p_read e) (fold_upstream (set_gone (w_state w) false) (v_generation (p_probe_before e)) (r_revision probe))) as Ho.
  rewrite Er, Hf in Ho. cbn in Ho. subst r. destruct (read_genuine _ _ _ _ He Er) as [HVf Hgf]. pose proof (read_sync _ _ _ _ _ Hr Er) as Hs1.
  apply (set_probe_sync _ _ (content_fingerprint (r_text probe))) in Hs1. apply read_evolves in Er as [Hp1 _]. cbn in Hp1.
  destruct (send_frame_sync _ _ f (p_sink e) Hs1 HVf Hgf) as (s2 & ms & -> & _ & Hshow). cbn [fmap option_fmap option_map].
  eexists _, ms. split; [done|]. apply Hshow; [cbn; congruence|done|by left].
Qed.

End Sync.

(** ** A concrete run *)

#[local] Instance demo_case : Protocol.CaseMapping := {| Protocol.to_lowercase := id |}.

Definition demo_target : Inbound.Inbound.TargetRef := Inbound.Inbound.mkTarget "primary" "w1:p1" "" 0 "" "" "".
Definition demo_spec : WatchSpec := mkSpec 30 Ansi 250 None demo_target.
Definition demo_view : TopoView := mkView 1 1 "codex" "codex" 0.
Definition demo_attempt (text : string) : Attempt := mkAttempt 1 0 (Ok (mkRead text 0 false)) 0 1.
Definition no_prompt (s : string) : option string := None.
Definition demo_read (text : string) : ReadEnv string :=
  mkReadEnv (Some 0) demo_view None None None (fun _ => (demo_attempt text, demo_attempt text)) demo_view false
    (fun _ _ => demo_semantics) (fun c => (c, false)) no_prompt (Some 0).
Definition demo_sink (t : Z) : Sink := mkSink true t.
Definition demo_poll (text : string) (t : Z) : PollEnv string :=
  mkPollEnv None false (mkHistoryEnv None false) "codex" demo_view (demo_attempt text, demo_attempt text) None false demo_view (demo_read text) (demo_sink t).

Definition demo_built (text : string) : Frame string := build_frame demo_spec (demo_read text) false text false.
Definition demo_frames (f : Frame string) : Prop := f = demo_built "one" \/ f = demo_built "two".

Lemma demo_frame_of text : frame_of demo_spec (demo_read text) = FFrame (demo_built text).
Proof. reflexivity. Qed.

Lemma demo_no_collisions : no_collisions demo_spec demo_frames.
Proof.
  split.
  - intros f g [-> | ->] [-> | ->]; [intros _; reflexivity|intros E; vm_compute in E; discriminate E..|intros _; reflexivity].
  - intros f g [-> | ->] [-> | ->]; [intros _; reflexivity|intros E; vm_compute in E; discriminate E..|intros _; reflexivity].
  - intros f [-> | ->]; (split; [split; try (by intros r ?); apply short_small; vm_compute; lia|unfold countable_lines; vm_compute; done]).
Qed.

Lemma demo_env_ok text : demo_frames (demo_built text) -> env_ok demo_spec no_prompt demo_frames (demo_read text).
Proof. intros Hf. split; [done|]. intros f. rewrite demo_frame_of. by intros [= <-]. Qed.

Definition demo_start : option (Watching * list (Outbound string)) := start "w1:p1" demo_spec None false (demo_read "one") (demo_sink 0).

Lemma demo_reach : exists w ms, demo_start = Some (w, ms) /\ reach "w1:p1" demo_spec no_prompt demo_frames Lost w (receive_all Lost ms) /\
  w_live w = true /\ receive_all Lost ms = shows demo_spec (demo_built "one").
Proof.
  destruct demo_start as [[w ms]|] eqn:E; [|vm_compute in E; discriminate E]. exists w, ms. split; [done|]. split.
  - eapply (reach_start _ _ _ _ _ None false (demo_read "one") (demo_sink 0)); [by left|apply demo_env_ok; by left|exact E].
  - vm_compute in E. injection E as <- <-. by vm_compute.
Qed.

Lemma watch_refines_screen_witness :
  exists w ms w', demo_start = Some (w, ms) /\ receive_all Lost ms <> Broken /\ sent_content (w_state w) = "one"%string /\
    step "w1:p1" demo_spec w Resync (demo_poll "two" 100) = Some (w', [full_frame "w1:p1" demo_spec (demo_built "two")]).
Proof.
  destruct demo_reach as (w & ms & E & Hr & Hl & _).
  destruct (watch_refines_screen "w1:p1" demo_spec no_prompt demo_frames demo_no_collisions Lost w _ Hr) as (Hb & _ & Hres).
  destruct (Hres (demo_poll "two" 100) (demo_built "two")) as (w' & Hs & _); [exact Hl|apply demo_env_ok; by right|reflexivity|reflexivity|].
  exists w, ms, w'. split; [exact E|]. split; [exact Hb|]. split; [|exact Hs].
  vm_compute in E. injection E as <- _. reflexivity.
Defined.

Lemma resync_restores_witness :
  exists w ms w', demo_start = Some (w, ms) /\
    step "w1:p1" demo_spec w Resync (demo_poll "two" 100) = Some (w', [full_frame "w1:p1" demo_spec (demo_built "two")]) /\
    receive_all Lost [full_frame "w1:p1" demo_spec (demo_built "two")] = shows demo_spec (demo_built "two").
Proof.
  destruct demo_reach as (w & ms & E & Hr & Hl & _).
  destruct (resync_restores "w1:p1" demo_spec no_prompt demo_frames Lost w Lost (demo_poll "two" 100) (demo_built "two"))
    as (w' & Hs & Hc & _); [by eapply reach_lose|exact Hl|apply demo_env_ok; by right|reflexivity|reflexivity|].
  exists w, ms, w'. split; [exact E|]. split; [exact Hs|exact Hc].
Defined.

(** The first frame acknowledged, then a tick that finds new text. *)
Definition demo_acked : option (Watching * list (Outbound string)) :=
  r ← demo_start; step "w1:p1" demo_spec r.1 (Ack (content_fingerprint "one")) (demo_poll "one" 50).

Lemma demo_acked_reach : exists w, demo_acked = Some (w, []) /\
  reach "w1:p1" demo_spec no_prompt demo_frames Lost w (shows demo_spec (demo_built "one")) /\
  w_live w = true /\ pending_ack (w_state w) = false /\ w_next_tick w = 250 /\ stream (w_slot w) = None /\ probe_fingerprint (w_state w) = ""%string.
Proof.
  destruct demo_reach as (w0 & ms & E & Hr & Hl & Hc). unfold demo_acked. rewrite E. cbn [mbind option_bind fst].
  destruct (step "w1:p1" demo_spec w0 (Ack (content_fingerprint "one")) (demo_poll "one" 50)) as [[w ms']|] eqn:Es;
    [|vm_compute in E; injection E as <- <-; vm_compute in Es; discriminate Es].
  assert (ms' = []) as -> by (vm_compute in E; injection E as <- <-; vm_compute in Es; by injection Es as <- <-).
  exists w. split; [done|]. split.
  - rewrite <- Hc. apply (reach_step _ _ _ _ Lost w0 (receive_all Lost ms) (Ack (content_fingerprint "one")) (demo_poll "one" 50) w [] Hr); [apply demo_env_ok; by left|exact Es].
  - vm_compute in E. injection E as <- <-. vm_compute in Es. injection Es as <-. by vm_compute.
Qed.

Lemma tick_shows_current_witness :
  exists w w' ms, demo_acked = Some (w, []) /\ step "w1:p1" demo_spec w Tick (demo_poll "two" 300) = Some (w', ms) /\
    receive_all (shows demo_spec (demo_built "one")) ms = shows demo_spec (demo_built "two").
Proof.
  destruct demo_acked_reach as (w & E & Hr & Hl & Hp & Ht & Hst & Hpr).
  destruct (tick_shows_current "w1:p1" demo_spec no_prompt demo_frames demo_no_collisions Lost w (shows demo_spec (demo_built "one")) (demo_poll "two" 300) (mkRead "two" 0 false) (demo_built "two"))
    as (w' & ms & Hs & Hc); [exact Hr|discriminate|exact Hl|apply demo_env_ok; by right|exact Hp|rewrite Ht; discriminate|exact Hst|reflexivity..| |reflexivity|reflexivity|].
  { unfold needs_read. cbn [set_gone probe_fingerprint]. rewrite Hpr. reflexivity. }
  exists w, w', ms. split; [exact E|]. split; [exact Hs|exact Hc].
Defined.

Lemma one_frame_in_flight_witness :
  exists w ms, demo_start = Some (w, ms) /\ in_flight "w1:p1" demo_spec (length (frames ms)) w [(Tick, demo_poll "two" 300)] = [1%nat; 1%nat].
Proof.
  destruct demo_reach as (w & ms & E & _). exists w, ms. split; [exact E|].
  pose proof (one_frame_in_flight "w1:p1" demo_spec None false (demo_read "one") (demo_sink 0) w ms [(Tick, demo_poll "two" 300)] E) as Hb.
  vm_compute in E. injection E as <- <-. vm_compute. reflexivity.
Defined.

Lemma recovery_starts_full_witness :
  exists w ms w1 w' tr, demo_start = Some (w, ms) /\ step "w1:p1" demo_spec w AckTimeout (demo_poll "one" 4000) = Some (w1, []) /\
    run "w1:p1" demo_spec w1 [(Tick, demo_poll "two" 4300)] = Some (w', tr) /\
    match frames ([] ++ (tr.*2 ≫= id)) with m :: _ => is_full m = true | [] => True end.
Proof.
  destruct demo_reach as (w & ms & E & _).
  destruct (step "w1:p1" demo_spec w AckTimeout (demo_poll "one" 4000)) as [[w1 ms1]|] eqn:E1;
    [|vm_compute in E; injection E as <- <-; vm_compute in E1; discriminate E1].
  assert (ms1 = []) as -> by (vm_compute in E; injection E as <- <-; vm_compute in E1; by injection E1 as <- <-).
  destruct (run "w1:p1" demo_spec w1 [(Tick, demo_poll "two" 4300)]) as [[w' tr]|] eqn:E2.
  - exists w, ms, w1, w', tr. split; [exact E|]. split; [exact E1|]. split; [exact E2|].
    apply (recovery_starts_full "w1:p1" demo_spec w w1 w' AckTimeout (demo_poll "one" 4000) [] [(Tick, demo_poll "two" 4300)] tr); [by left|exact E1|exact E2].
  - exfalso. vm_compute in E. injection E as <- <-. vm_compute in E1. injection E1 as <-. vm_compute in E2. discriminate E2.
Defined.

End WatchSync.
