(* ===== verification/E2eeCodec.v ===== *)
(** * End-to-end frame codecs — [lerdr-e2ee/src/{error,codec}.rs]

    The error taxonomy and the two wire envelopes.  Base64 and the JSON grammar
    are libraries: they are classes, with what the codec relies on as laws;
    [JsonText.escape_string] is the crate's own string writer. *)

From S2P Require Import Prelude Utf8 JsonText Json JsonWire.
Import Utf8 JsonText Json JsonWire.

Module E2eeCodec.

(** ** Errors *)

Inductive ErrorClass := Format | Replay | Seq | Auth.

Definition class_as_str (c : ErrorClass) : string :=
  match c with Format => "format" | Replay => "replay" | Seq => "seq" | Auth => "auth" end.

Inductive E2eeError :=
| InvalidFrame | UnsupportedFrame | InvalidCiphertext
| InvalidSequence (expected received : Z) | SequenceExhausted | Authentication
| InvalidClientHello | UnsupportedClientHello | InvalidAuthSelector | InvalidClientNonce
| InvalidClientPublicKey | InvalidClientProof
| InvalidServerHello | UnsupportedServerHello | InvalidServerNonce | InvalidServerPublicKey
| InvalidServerProof | InvalidClientFinish | InvalidServerFinish
| ClientProofFailed | InvalidKeyMaterial | EcdhFailed.

#[export] Instance E2eeError_eq_dec : EqDecision E2eeError.
Proof. solve_decision. Defined.

Definition class (e : E2eeError) : ErrorClass :=
  match e with
  | InvalidFrame | UnsupportedFrame | InvalidCiphertext => Format
  | InvalidSequence expected received => if decide (received < expected) then Replay else Seq
  | SequenceExhausted => Seq
  | Authentication | ClientProofFailed => Auth
  | _ => Format
  end.

(** ** Libraries *)

(** The unpadded URL-safe engine. *)
Class Base64 := {
  b64_encode : bytes -> string;
  b64_decode : string -> option bytes;
}.

Definition url_safe (c : Z) : Prop :=
  48 <= c <= 57 \/ 65 <= c <= 90 \/ 97 <= c <= 122 \/ c = 45 \/ c = 95.

Class Base64Laws `{Base64} := {
  b64_roundtrip b : Forall is_u8 b -> b64_decode (b64_encode b) = Some b;
  b64_alphabet b : Forall is_u8 b -> Forall url_safe (as_bytes (b64_encode b));
  b64_decode_empty : b64_decode ""%string = Some [];
}.

(** ** The codec *)

Definition VERSION : Z := 2.
Definition BINARY_FRAME_KIND_DATA : Z := 0.
Definition BINARY_FRAME_HEADER_SIZE : nat := 10.

Inductive Codec := CodecJson | CodecBinary.

#[export] Instance Codec_eq_dec : EqDecision Codec.
Proof. solve_decision. Defined.

Definition codec_from_label (label : string) : option Codec :=
  if decide (label = "json") then Some CodecJson
  else if decide (label = "binary") then Some CodecBinary
  else None.

(** [JsonFrame] as serde's derive reads it. *)
Record JsonFrame := mkJsonFrame {
  type_ : string;
  version : Z;
  sequence : Z;
  ciphertext : string;
}.

Definition de_json_frame (v : json) : option JsonFrame :=
  fields ← de_struct ["type"; "version"; "sequence"; "ciphertext"] v;
  match fields with
  | [t; ve; sq; ct] =>
      t ← de_string t; ve ← de_i64 ve; sq ← de_u64 sq; ct ← de_string ct;
      Some (mkJsonFrame t ve sq ct)
  | _ => None
  end.

Section Codec.
Context `{Base64} `{WireJson}.

Definition encode (c : Codec) (seq : Z) (ct : bytes) : bytes :=
  match c with
  | CodecBinary => [VERSION; BINARY_FRAME_KIND_DATA] ++ be_bytes 8 seq ++ ct
  | CodecJson =>
      let out := push_str [] (jlit "{'type':'e2ee','version':2,'sequence':") in
      let out := push_str out (as_bytes (decimal seq)) in
      let out := push_str out (jlit ",'ciphertext':") in
      let out := push_json out (b64_encode ct) in
      push_str out [125]
  end.

Definition decode (c : Codec) (raw_frame : bytes) : result E2eeError (Z * bytes) :=
  match c with
  | CodecBinary =>
      if decide (length raw_frame < BINARY_FRAME_HEADER_SIZE)%nat then Err InvalidFrame
      else if decide (raw_frame !! 0%nat <> Some VERSION \/ raw_frame !! 1%nat <> Some BINARY_FRAME_KIND_DATA)
      then Err UnsupportedFrame
      else Ok (be_value (take 8 (drop 2 raw_frame)), drop BINARY_FRAME_HEADER_SIZE raw_frame)
  | CodecJson =>
      match from_slice raw_frame ≫= de_json_frame with
      | None => Err InvalidFrame
      | Some frame =>
          if decide (type_ frame <> "e2ee" \/ version frame <> VERSION) then Err UnsupportedFrame
          else match b64_decode (ciphertext frame) with
               | None => Err InvalidCiphertext
               | Some ct => Ok (sequence frame, ct)
               end
      end
  end.
End Codec.

(** ** Round trips *)

Lemma url_safe_ascii s : Forall url_safe s -> Forall (fun c => 0 <= c <= 0x7F) s.
Proof. intros Hs. eapply Forall_impl; [exact Hs|]. unfold url_safe. simpl. lia. Qed.

Lemma url_safe_utf8 s : Forall url_safe (as_bytes s) -> utf8_string s.
Proof. intros Hs. by apply utf8_valid_ascii, url_safe_ascii. Qed.

(** A library function that keeps text building in character form. *)
Lemma utf8_encode_decimal z : utf8_encode (as_bytes (decimal z)) = as_bytes (decimal z).
Proof. apply utf8_encode_ascii. eapply Forall_impl; [apply decimal_ascii|]. simpl. lia. Qed.

Lemma encode_json_text `{Base64} seq ct :
  encode CodecJson seq ct = object_text
    [("type", JString "e2ee"); ("version", JNumber (PosInt 2)); ("sequence", JNumber (PosInt seq));
     ("ciphertext", JString (b64_encode ct))].
Proof.
  unfold encode, object_text, object_chars, members_chars, member_chars, value_chars, push_str, push_json. cbn [fst snd].
  rewrite !utf8_encode_app, !utf8_encode_decimal, <- !(assoc_L (++)). reflexivity.
Qed.

Lemma de_json_frame_text seq text :
  de_json_frame (JObject
    [("type", JString "e2ee"); ("version", JNumber (PosInt 2)); ("sequence", JNumber (PosInt seq));
     ("ciphertext", JString text)]) = Some (mkJsonFrame "e2ee" 2 seq text).
Proof. reflexivity. Qed.

Section Laws.
Context `{Base64Laws} `{WireJsonLaws}.

Lemma decode_encode c seq ct :
  is_u64 seq -> Forall is_u8 ct -> decode c (encode c seq ct) = Ok (seq, ct).
Proof.
  intros Hseq Hct. destruct c; cbn [decode encode].
  - change (from_slice ?t) with (from_slice (encode CodecJson seq ct)). rewrite encode_json_text, from_slice_text.
    + cbn [mbind option_bind]. rewrite de_json_frame_text. cbn [type_ version ciphertext sequence].
      rewrite decide_False by (intros []; done). by rewrite b64_roundtrip.
    + each_member.
      by apply url_safe_utf8, b64_alphabet.
  - set (body := be_bytes 8 seq ++ ct).
    assert (Hlen : (8 <= length body)%nat) by (unfold body; rewrite length_app; autorewrite with lerdr; lia).
    destruct (take_drop_app (be_bytes 8 seq) ct 8 (be_bytes_length 8 seq)) as [Ht Hd]. fold body in Ht, Hd.
    rewrite decide_False by (rewrite length_app; simpl; unfold BINARY_FRAME_HEADER_SIZE; lia).
    rewrite decide_False by (intros []; done).
    change (drop 2 ([VERSION; BINARY_FRAME_KIND_DATA] ++ body)) with body.
    change (drop BINARY_FRAME_HEADER_SIZE ([VERSION; BINARY_FRAME_KIND_DATA] ++ body)) with (drop 8 body).
    by rewrite Ht, Hd, be_value_u64.
Qed.
End Laws.

End E2eeCodec.

(** * Concrete libraries for the end-to-end layer

    An executable unpadded URL-safe base64 that satisfies the laws the codec is
    proved against, so those laws are consistent and the theorems can be run. *)

From S2P Require Import Prelude.
Import E2eeCodec.

Module E2eeInstances.

(** ** Base64 *)

Definition enc6 (n : Z) : Z :=
  if decide (n < 26) then 65 + n
  else if decide (n < 52) then 71 + n
  else if decide (n < 62) then n - 4
  else if decide (n = 62) then 45 else 95.

Definition dec6 (c : Z) : option Z :=
  if decide (65 <= c <= 90) then Some (c - 65)
  else if decide (97 <= c <= 122) then Some (c - 71)
  else if decide (48 <= c <= 57) then Some (c + 4)
  else if decide (c = 45) then Some 62
  else if decide (c = 95) then Some 63
  else None.

Fixpoint url_encode (b : bytes) : bytes :=
  match b with
  | x :: y :: z :: r =>
      enc6 (x / 4) :: enc6 (x mod 4 * 16 + y / 16) :: enc6 (y mod 16 * 4 + z / 64) :: enc6 (z mod 64) :: url_encode r
  | [x; y] => [enc6 (x / 4); enc6 (x mod 4 * 16 + y / 16); enc6 (y mod 16 * 4)]
  | [x] => [enc6 (x / 4); enc6 (x mod 4 * 16)]
  | [] => []
  end.

Fixpoint url_decode (b : bytes) : option bytes :=
  match b with
  | a :: b :: c :: d :: r =>
      na ← dec6 a; nb ← dec6 b; nc ← dec6 c; nd ← dec6 d; rest ← url_decode r;
      Some ((na * 4 + nb / 16) :: (nb mod 16 * 16 + nc / 4) :: (nc mod 4 * 64 + nd) :: rest)
  | [a; b; c] =>
      na ← dec6 a; nb ← dec6 b; nc ← dec6 c;
      Some [na * 4 + nb / 16; nb mod 16 * 16 + nc / 4]
  | [a; b] => na ← dec6 a; nb ← dec6 b; Some [na * 4 + nb / 16]
  | [a] => None
  | [] => Some []
  end.

#[export] Instance url_base64 : Base64 := {
  b64_encode b := string_of_bytes (url_encode b);
  b64_decode s := url_decode (as_bytes s);
}.

Lemma dec6_enc6 n : 0 <= n < 64 -> dec6 (enc6 n) = Some n.
Proof.
  intros Hn. unfold enc6, dec6.
  repeat case_decide; try lia; f_equal; lia.
Qed.

Lemma enc6_url_safe n : 0 <= n < 64 -> url_safe (enc6 n).
Proof. intros Hn. unfold enc6, url_safe. repeat case_decide; lia. Qed.

Ltac bits := unfold is_u8, u8_max in *; Z.to_euclidean_division_equations; lia.

(** Bytes come in threes. *)
Lemma triples_ind (P : bytes -> Prop) :
  P [] -> (forall x, P [x]) -> (forall x y, P [x; y]) ->
  (forall x y z r, P r -> P (x :: y :: z :: r)) -> forall b, P b.
Proof.
  intros H0 H1 H2 H3. fix IH 1. intros [|x [|y [|z r]]]; [done|apply H1|apply H2|apply H3, IH].
Qed.

Lemma url_encode_safe b : Forall is_u8 b -> Forall url_safe (url_encode b).
Proof.
  induction b as [|x|x y|x y z r IH] using triples_ind; intros Hb;
    repeat match goal with H : Forall _ (_ :: _) |- _ => apply Forall_cons in H as [? H] end;
    cbn [url_encode]; repeat (apply Forall_cons; split); try (apply enc6_url_safe; bits); auto.
Qed.

Lemma url_roundtrip b : Forall is_u8 b -> url_decode (url_encode b) = Some b.
Proof.
  induction b as [|x|x y|x y z r IH] using triples_ind; intros Hb;
    repeat match goal with H : Forall _ (_ :: _) |- _ => apply Forall_cons in H as [? H] end;
    cbn [url_encode url_decode]; [done|..];
    rewrite !dec6_enc6 by bits; cbn [mbind option_bind].
  - do 2 f_equal; bits.
  - do 2 f_equal; [bits|]. f_equal; bits.
  - rewrite IH by done. cbn [mbind option_bind]. do 2 f_equal; [bits|]. f_equal; [bits|]. f_equal; bits.
Qed.

Lemma url_safe_u8 c : url_safe c -> is_u8 c.
Proof. unfold url_safe, is_u8, u8_max. lia. Qed.

Lemma url_encode_u8 b : Forall is_u8 b -> Forall is_u8 (url_encode b).
Proof. intros Hb. eapply Forall_impl; [by apply url_encode_safe|]. apply url_safe_u8. Qed.

#[export] Instance url_base64_laws : Base64Laws.
Proof.
  split; [| |done]; intros b Hb; simpl; rewrite as_bytes_of_bytes by (by apply url_encode_u8).
  - by apply url_roundtrip.
  - by apply url_encode_safe.
Qed.

(** ** Prefixes *)

Fixpoint strip_prefix (p b : bytes) : option bytes :=
  match p, b with
  | [], _ => Some b
  | x :: p', y :: b' => if decide (x = y) then strip_prefix p' b' else None
  | _ :: _, [] => None
  end.

Lemma strip_prefix_Some p b r : strip_prefix p b = Some r <-> b = p ++ r.
Proof.
  split.
  - revert b. induction p as [|x p IH]; intros b; simpl; [by intros [= ->]|].
    destruct b as [|y b]; [done|]. case_decide; [subst|done]. intros ->%IH. done.
  - intros ->. induction p as [|x p IH]; simpl; [done|]. by rewrite decide_True.
Qed.

End E2eeInstances.
