(* ===== verification/E2eeSession.v ===== *)
(** * The sealed session — [lerdr-e2ee/src/session.rs]

    Per-direction AES-256-GCM channels with strictly ordered frames.  The
    cipher is a class; its law is that decryption accepts exactly what
    encryption produces under the same key, nonce and associated data. *)

From S2P Require Import Prelude JsonWire E2eeCodec.
Import JsonWire E2eeCodec E2eeInstances.

Module E2eeSession.

(** ** The cipher *)

Class Aead := {
  cipher : Type;
  new_from_slice : bytes -> option cipher;
  encrypt : cipher -> bytes -> bytes -> bytes -> option bytes;   (* nonce, aad, message *)
  decrypt : cipher -> bytes -> bytes -> bytes -> option bytes;   (* nonce, aad, ciphertext *)
}.

(** GCM refuses only messages of more than 2^36 - 32 bytes. *)
Definition MAX_MESSAGE : Z := 2 ^ 36 - 32.

Class AeadLaws `{Aead} := {
  new_from_slice_len k : length k = 32%nat -> is_Some (new_from_slice k);
  decrypt_iff k n a c m : decrypt k n a c = Some m <-> encrypt k n a m = Some c;
  encrypt_u8 k n a m c : Forall is_u8 m -> encrypt k n a m = Some c -> Forall is_u8 c;
  encrypt_total k n a m : Z.of_nat (length m) <= MAX_MESSAGE -> is_Some (encrypt k n a m);
}.

(** ** Constants, directions, nonces *)

Definition MAX_SEQUENCE : Z := 2 ^ 53 - 1.
Definition NONCE_BYTES : nat := 12.
Definition KEY_BYTES : nat := 32.
Definition AAD_PREFIX : bytes := as_bytes "herdr-e2ee-v2 ".

Inductive Direction := C2S | S2C.

#[export] Instance Direction_eq_dec : EqDecision Direction.
Proof. solve_decision. Defined.

Definition direction_as_str (d : Direction) : string :=
  match d with C2S => "c2s" | S2C => "s2c" end.

Definition peer (d : Direction) : Direction :=
  match d with C2S => S2C | S2C => C2S end.

Definition direction_from_label (label : string) : option Direction :=
  if decide (label = "c2s") then Some C2S
  else if decide (label = "s2c") then Some S2C
  else None.

Definition frame_nonce (sequence : Z) : bytes := replicate 4 0 ++ be_bytes 8 sequence.

Definition aad (d : Direction) (sequence : Z) : bytes :=
  AAD_PREFIX ++ as_bytes (direction_as_str d) ++ [0] ++ be_bytes 8 sequence.

(** [SessionKeys] of the handshake. *)
Record SessionKeys := mkKeys {
  c2s : bytes;
  s2c : bytes;
}.

Section Session.
Context `{Base64} `{WireJson} `{Aead}.

Record Session := mkSession {
  send : cipher;
  receive : cipher;
  codec : Codec;
  send_direction : Direction;
  receive_direction : Direction;
  send_sequence : Z;
  receive_sequence : Z;
}.

Definition new (send_key receive_key : bytes) (sd rd : Direction) (c : Codec) : result E2eeError Session :=
  if decide (length send_key <> KEY_BYTES \/ length receive_key <> KEY_BYTES) then Err InvalidKeyMaterial
  else
    s ← ok_or (new_from_slice send_key) InvalidKeyMaterial;
    r ← ok_or (new_from_slice receive_key) InvalidKeyMaterial;
    Ok (mkSession s r c sd rd 0 0).

Definition server (keys : SessionKeys) (c : Codec) : result E2eeError Session :=
  new (s2c keys) (c2s keys) S2C C2S c.

Definition client (keys : SessionKeys) (c : Codec) : result E2eeError Session :=
  new (c2s keys) (s2c keys) C2S S2C c.

Definition receiver (keys : SessionKeys) (d : Direction) (c : Codec) : result E2eeError Session :=
  match d with C2S => server keys c | S2C => client keys c end.

Definition sender (keys : SessionKeys) (d : Direction) (c : Codec) : result E2eeError Session :=
  match d with C2S => client keys c | S2C => server keys c end.

Definition set_codec (s : Session) (c : Codec) : Session :=
  mkSession (send s) (receive s) c (send_direction s) (receive_direction s) (send_sequence s) (receive_sequence s).
Definition set_send_sequence (s : Session) (n : Z) : Session :=
  mkSession (send s) (receive s) (codec s) (send_direction s) (receive_direction s) n (receive_sequence s).
Definition set_receive_sequence (s : Session) (n : Z) : Session :=
  mkSession (send s) (receive s) (codec s) (send_direction s) (receive_direction s) (send_sequence s) n.

Definition seal (s : Session) (plaintext : bytes) : Session * result E2eeError bytes :=
  if decide (MAX_SEQUENCE < send_sequence s) then (s, Err SequenceExhausted)
  else
    let sequence := send_sequence s in
    match encrypt (send s) (frame_nonce sequence) (aad (send_direction s) sequence) plaintext with
    | None => (s, Err Authentication)
    | Some ct => (set_send_sequence s (sequence + 1), Ok (encode (codec s) sequence ct))
    end.

Definition open (s : Session) (raw_frame : bytes) : Session * result E2eeError bytes :=
  match decode (codec s) raw_frame with
  | Err e => (s, Err e)
  | Ok (sequence, ct) =>
      if decide (MAX_SEQUENCE < sequence \/ sequence <> receive_sequence s)
      then (s, Err (InvalidSequence (receive_sequence s) sequence))
      else match decrypt (receive s) (frame_nonce sequence) (aad (receive_direction s) sequence) ct with
           | None => (s, Err Authentication)
           | Some plaintext => (set_receive_sequence s (receive_sequence s + 1), Ok plaintext)
           end
  end.

(** ** Runs *)

(** Seal a list of messages, one result per message. *)
Fixpoint seal_all (s : Session) (ms : list bytes) : Session * list (result E2eeError bytes) :=
  match ms with
  | [] => (s, [])
  | m :: rest => let '(s1, r) := seal s m in let '(s2, rs) := seal_all s1 rest in (s2, r :: rs)
  end.

(** Feed raw frames as they come off the network, one result per frame. *)
Fixpoint open_all (s : Session) (raws : list bytes) : Session * list (result E2eeError bytes) :=
  match raws with
  | [] => (s, [])
  | f :: rest => let '(s1, r) := open s f in let '(s2, rs) := open_all s1 rest in (s2, r :: rs)
  end.

(** The nonces handed to the cipher by the seals that produced a frame. *)
Fixpoint nonces_used (s : Session) (ms : list bytes) : list bytes :=
  match ms with
  | [] => []
  | m :: rest =>
      let '(s1, r) := seal s m in
      match r with Ok _ => frame_nonce (send_sequence s) :: nonces_used s1 rest | Err _ => nonces_used s1 rest end
  end.

(** [r] receives what [s] sends, and is in step with it. *)
Definition paired (s r : Session) : Prop :=
  receive r = send s /\ receive_direction r = send_direction s /\ codec r = codec s /\
  receive_sequence r = send_sequence s.

End Session.

(** ** Nonces and associated data are injective *)

Lemma u64_range n : is_u64 n -> 0 <= n < 256 ^ Z.of_nat 8.
Proof. unfold is_u64, u64_max. change (256 ^ Z.of_nat 8) with (2 ^ 64). lia. Qed.

Lemma frame_nonce_inj n n' : is_u64 n -> is_u64 n' -> frame_nonce n = frame_nonce n' -> n = n'.
Proof.
  intros Hn Hn' E. apply app_inv_head in E. by apply be_bytes_inj in E; [|by apply u64_range..].
Qed.

Lemma aad_inj d d' n n' : is_u64 n -> is_u64 n' -> aad d n = aad d' n' -> d = d' /\ n = n'.
Proof.
  intros Hn Hn' E. apply app_inv_head in E.
  apply app_eq_length_inv in E as [Hd E]; [|by destruct d, d'].
  apply app_inv_head in E. apply be_bytes_inj in E; [|by apply u64_range..].
  split; [by destruct d, d'|done].
Qed.

Lemma max_sequence_u64 n : 0 <= n -> n <= MAX_SEQUENCE -> is_u64 n.
Proof. unfold MAX_SEQUENCE, is_u64, u64_max. lia. Qed.

Section Laws.
Context `{Base64Laws} `{WireJsonLaws} `{AeadLaws}.
Implicit Types s r : Session.

Lemma seal_Ok s m s' f :
  0 <= send_sequence s -> Forall is_u8 m -> seal s m = (s', Ok f) ->
  send_sequence s <= MAX_SEQUENCE /\ s' = set_send_sequence s (send_sequence s + 1) /\
  exists ct, encrypt (send s) (frame_nonce (send_sequence s)) (aad (send_direction s) (send_sequence s)) m = Some ct /\
    f = encode (codec s) (send_sequence s) ct /\ decode (codec s) f = Ok (send_sequence s, ct).
Proof.
  intros Hpos Hm. unfold seal. case_decide as Hmax; [done|].
  destruct (encrypt _ _ _ _) as [ct|] eqn:E; [|done]. intros [= <- <-].
  split_and!; [lia|done|]. exists ct. split_and!; [done..|].
  apply decode_encode; [apply max_sequence_u64; lia|by eapply encrypt_u8].
Qed.

Lemma seal_Err s m s' e : seal s m = (s', Err e) -> s' = s.
Proof. unfold seal. case_decide; [by intros [= <- _]|]. destruct (encrypt _ _ _ _); [done|]. by intros [= <- _]. Qed.

Lemma open_Ok s f s' m :
  open s f = (s', Ok m) ->
  receive_sequence s <= MAX_SEQUENCE /\ s' = set_receive_sequence s (receive_sequence s + 1) /\
  exists ct, decode (codec s) f = Ok (receive_sequence s, ct) /\
    encrypt (receive s) (frame_nonce (receive_sequence s)) (aad (receive_direction s) (receive_sequence s)) m = Some ct.
Proof.
  unfold open. destruct (decode _ _) as [[seq ct]|e] eqn:Hd; [|done].
  case_decide as Hseq; [done|]. assert (seq = receive_sequence s) as -> by lia.
  destruct (decrypt _ _ _ _) as [p|] eqn:E; [|done]. intros [= <- <-]. apply decrypt_iff in E.
  split_and!; [lia|done|]. by exists ct.
Qed.

Lemma open_Err s f s' e : open s f = (s', Err e) -> s' = s.
Proof.
  unfold open. destruct (decode _ _) as [[seq ct]|]; [|by intros [= <- _]].
  case_decide; [by intros [= <- _]|]. destruct (decrypt _ _ _ _); [done|]. by intros [= <- _].
Qed.

(** Sealing succeeds below the ceiling. *)
Lemma seal_total s m :
  0 <= send_sequence s <= MAX_SEQUENCE -> Z.of_nat (length m) <= MAX_MESSAGE ->
  exists f, seal s m = (set_send_sequence s (send_sequence s + 1), Ok f).
Proof.
  intros Hs Hm. unfold seal. rewrite decide_False by lia.
  destruct (encrypt_total (send s) (frame_nonce (send_sequence s)) (aad (send_direction s) (send_sequence s)) m Hm) as [ct ->].
  by eexists.
Qed.

Lemma paired_step s r m s' f :
  0 <= send_sequence s -> Forall is_u8 m -> paired s r -> seal s m = (s', Ok f) ->
  exists r', open r f = (r', Ok m) /\ paired s' r'.
Proof.
  intros Hpos Hm (Hk & Hd & Hc & Hs) Hseal.
  apply seal_Ok in Hseal as (Hmax & -> & ct & Henc & -> & Hdec); [|done..].
  apply decrypt_iff in Henc. exists (set_receive_sequence r (receive_sequence r + 1)). split.
  - unfold open. rewrite Hc, Hdec, Hs, decide_False by lia. by rewrite Hk, Hd, Henc.
  - split_and!; simpl; [done..|lia].
Qed.

(** Same, with the reverse direction left in step. *)
Lemma paired_both s r m s' f :
  0 <= send_sequence s -> Forall is_u8 m -> paired s r -> paired r s -> seal s m = (s', Ok f) ->
  exists r', open r f = (r', Ok m) /\ paired s' r' /\ paired r' s' /\ send_sequence r' = send_sequence r.
Proof.
  intros Hpos Hm Hp Hp' Hseal. destruct (paired_step s r m s' f Hpos Hm Hp Hseal) as (r' & Ho & Hp1).
  exists r'. split; [done|]. split; [done|]. apply open_Ok in Ho as (_ & -> & _).
  apply seal_Ok in Hseal as (_ & -> & _); [|done..]. by destruct Hp' as (? & ? & ? & ?).
Qed.

Lemma open_step_frame s f s' o :
  open s f = (s', o) -> codec s' = codec s /\ receive s' = receive s /\ receive_direction s' = receive_direction s /\
  receive_sequence s <= receive_sequence s'.
Proof.
  destruct o as [m|e]; intros Ho.
  - apply open_Ok in Ho as (_ & -> & _). simpl. split_and!; [done..|lia].
  - by apply open_Err in Ho as ->.
Qed.

Lemma open_all_frame s fs s' rs :
  open_all s fs = (s', rs) -> codec s' = codec s /\ receive_sequence s <= receive_sequence s'.
Proof.
  revert s rs. induction fs as [|f fs IH]; intros s rs; simpl; [by intros [= <- <-]|].
  destruct (open s f) as [s1 r] eqn:Ho. destruct (open_all s1 fs) as [s2 rs2] eqn:Hr. intros [= <- <-].
  apply open_step_frame in Ho as (Hc & _ & _ & Hle). apply IH in Hr as [Hc' Hle']. split; [congruence|lia].
Qed.

(** ** Properties *)

(** C4 — reliable delivery: when a sender seals any list of messages and the
    paired receiver opens the resulting frames in order, it gets exactly those
    messages back and the two ends are still in step. *)
Theorem session_stream_roundtrip s r s' (ms frames : list bytes) :
  0 <= send_sequence s -> Forall (Forall is_u8) ms -> paired s r ->
  seal_all s ms = (s', Ok <$> frames) ->
  exists r', open_all r frames = (r', Ok <$> ms) /\ paired s' r'.
Proof.
  intros Hpos Hms. revert s r frames Hpos. induction Hms as [|m ms Hm _ IH]; intros s r frames Hpos Hp; simpl.
  { destruct frames; [|done]. intros [= <-]. by exists r. }
  destruct (seal s m) as [s1 [f|e]] eqn:Hseal; destruct (seal_all s1 ms) as [s2 rs] eqn:Hall;
    destruct frames as [|f' frames]; try done. intros [= -> -> ->].
  destruct (paired_step s r m s1 f') as (r1 & Hopen & Hp1); [done..|].
  apply seal_Ok in Hseal as (Hmax & -> & _); [|done..].
  destruct (IH (set_send_sequence s (send_sequence s + 1)) r1 frames ltac:(simpl; lia) Hp1 Hall) as (r2 & Hopen2 & Hp2).
  exists r2. simpl. by rewrite Hopen, Hopen2.
Qed.

(** C5 — no replay: once a frame has been accepted, that same frame is refused
    for ever after, whatever else arrives in between, with an error of class
    [Replay] and without touching the session. *)
Theorem accepted_frame_never_reopens s s1 s2 (f p : bytes) (between : list bytes) rs :
  open s f = (s1, Ok p) -> open_all s1 between = (s2, rs) ->
  exists e, open s2 f = (s2, Err e) /\ class e = Replay.
Proof.
  intros Hopen Hall. apply open_Ok in Hopen as (_ & -> & ct & Hd & _).
  apply open_all_frame in Hall as [Hc Hle]. simpl in Hc, Hle.
  exists (InvalidSequence (receive_sequence s2) (receive_sequence s)). split.
  - unfold open. rewrite Hc, Hd. by rewrite decide_True by lia.
  - simpl. rewrite decide_True by lia. done.
Qed.

(** The frames accepted out of a run. *)
Fixpoint accepted (raws : list bytes) (rs : list (result E2eeError bytes)) : list (bytes * bytes) :=
  match raws, rs with
  | f :: raws', Ok p :: rs' => (f, p) :: accepted raws' rs'
  | _ :: raws', Err _ :: rs' => accepted raws' rs'
  | _, _ => []
  end.

(** Integrity against an arbitrary network: whatever bytes are fed to a
    session, the frames it accepts are, in order and without gaps, genuine
    encryptions under its key for its own direction at the next sequence
    numbers; reordering, dropping, replaying, forging or reflecting frames
    yields errors, never plaintext. *)
Theorem accepted_stream_is_consecutive s s' (raws : list bytes) rs :
  open_all s raws = (s', rs) ->
  receive_sequence s' = receive_sequence s + Z.of_nat (length (accepted raws rs)) /\
  forall i f p, accepted raws rs !! i = Some (f, p) ->
    let n := receive_sequence s + Z.of_nat i in
    n <= MAX_SEQUENCE /\
    exists ct, decode (codec s) f = Ok (n, ct) /\
      encrypt (receive s) (frame_nonce n) (aad (receive_direction s) n) p = Some ct.
Proof.
  revert s rs. induction raws as [|f raws IH]; intros s rs; cbn [open_all].
  { intros [= <- <-]. simpl. split; [lia|done]. }
  destruct (open s f) as [s1 r] eqn:Ho. destruct (open_all s1 raws) as [s2 rs2] eqn:Hr. intros [= <- <-].
  apply IH in Hr as [Hlen Hall]. pose proof (open_step_frame _ _ _ _ Ho) as (Hc & Hk & Hd & _).
  destruct r as [p|e]; cbn [accepted].
  - apply open_Ok in Ho as (Hmax & -> & ct & Hdec & Henc). simpl in *. split; [lia|].
    intros [|i] f' p'; simpl.
    + intros [= <- <-]. rewrite Z.add_0_r. split; [done|]. by exists ct.
    + intros Hi. destruct (Hall i f' p' Hi) as (Hm & ct' & Hd' & He').
      replace (receive_sequence s + Z.of_nat (S i)) with (receive_sequence s + 1 + Z.of_nat i) by lia.
      split; [lia|]. exists ct'. done.
  - apply open_Err in Ho as ->. split; [lia|]. intros i f' p' Hi. by apply Hall.
Qed.

Lemma nonces_used_later s ms n :
  0 <= send_sequence s -> n ∈ nonces_used s ms ->
  exists q, send_sequence s <= q <= MAX_SEQUENCE /\ n = frame_nonce q.
Proof.
  revert s. induction ms as [|m ms IH]; intros s Hpos; simpl; [by intros ?%not_elem_of_nil|].
  unfold seal. case_decide as Hmax; [by apply IH|].
  destruct (encrypt _ _ _ _) as [ct|]; [|by apply IH].
  intros [->|Hin]%elem_of_cons; [exists (send_sequence s); split; [lia|done]|].
  apply IH in Hin as (q & Hq & ->); simpl in *; [exists q; split; [lia|done]|lia].
Qed.

(** Nonce uniqueness: over the lifetime of a session no two sealed frames
    are encrypted under the same nonce (the condition AES-GCM's security rests
    on), because sealing stops at the 2^53-1 ceiling instead of wrapping. *)
Theorem seal_nonces_unique s (ms : list bytes) :
  0 <= send_sequence s -> NoDup (nonces_used s ms).
Proof.
  revert s. induction ms as [|m ms IH]; intros s Hpos; simpl; [constructor|].
  unfold seal. case_decide as Hmax; [by apply IH|].
  destruct (encrypt _ _ _ _) as [ct|]; [|by apply IH].
  apply NoDup_cons. split; [|apply IH; simpl; lia].
  intros (q & Hq & E)%nonces_used_later; simpl in *; [|lia].
  apply frame_nonce_inj in E; [lia|apply max_sequence_u64; lia..].
Qed.

(** The sequence ceiling: a seal succeeds only at a sequence of at most
    2^53-1, which is the number the frame carries, advances the counter by one
    within 64 bits, and past the ceiling every seal fails with
    [SequenceExhausted] and leaves the session alone. *)
Theorem seal_sequence_bounds s (m : bytes) :
  0 <= send_sequence s -> Forall is_u8 m ->
  match seal s m with
  | (s', Ok f) => send_sequence s <= MAX_SEQUENCE /\ send_sequence s' = send_sequence s + 1 /\
                  is_u64 (send_sequence s') /\ exists ct, decode (codec s) f = Ok (send_sequence s, ct)
  | (s', Err e) => s' = s /\ (MAX_SEQUENCE < send_sequence s -> e = SequenceExhausted)
  end.
Proof.
  intros Hpos Hm. destruct (seal s m) as [s' [f|e]] eqn:Hs.
  - apply seal_Ok in Hs as (Hmax & -> & ct & _ & _ & Hd); [|done..]. simpl. split_and!; [done..| |by exists ct].
    unfold is_u64, u64_max, MAX_SEQUENCE in *. lia.
  - split; [by eapply seal_Err|]. revert Hs. unfold seal. case_decide; [by intros [= _ <-]|]. lia.
Qed.

Lemma server_client_pair (keys : SessionKeys) (c : Codec) sv cl :
  server keys c = Ok sv -> client keys c = Ok cl ->
  paired sv cl /\ paired cl sv /\ send_direction sv = S2C /\ send_direction cl = C2S.
Proof.
  unfold server, client, new. case_decide; [done|]. rewrite decide_False by tauto.
  destruct (new_from_slice (s2c keys)) as [k1|]; [|done].
  destruct (new_from_slice (c2s keys)) as [k2|]; [|done]. intros [= <-] [= <-]. split_and!; done.
Qed.

Lemma new_zero k1 k2 d1 d2 c s : new k1 k2 d1 d2 c = Ok s -> send_sequence s = 0.
Proof.
  unfold new. case_decide; [done|]. destruct (new_from_slice k1); [|done]. destruct (new_from_slice k2); [|done]. by intros [= <-].
Qed.

Lemma new_total k1 k2 d1 d2 c :
  length k1 = KEY_BYTES -> length k2 = KEY_BYTES -> exists s, new k1 k2 d1 d2 c = Ok s.
Proof.
  intros H1' H2'. unfold new. rewrite decide_False by tauto.
  destruct (new_from_slice_len k1 H1') as [a ->], (new_from_slice_len k2 H2') as [b ->]. by eexists.
Qed.

(** One key agreement gives two independent channels: the server and the
    client built from the same session keys are paired in both directions, and
    the associated data of the two directions never coincide. *)
Theorem server_client_paired (keys : SessionKeys) (c : Codec) sv cl :
  server keys c = Ok sv -> client keys c = Ok cl ->
  paired sv cl /\ paired cl sv /\
  forall n n', is_u64 n -> is_u64 n' -> aad (send_direction sv) n <> aad (send_direction cl) n'.
Proof.
  intros Hsv Hcl. destruct (server_client_pair keys c sv cl Hsv Hcl) as (Hp & Hp' & Hd & Hd').
  split; [done|]. split; [done|]. intros n n' Hn Hn' E. apply aad_inj in E as [E _]; [|done..]. congruence.
Qed.

End Laws.

(** ** A run with a toy cipher *)

(** Prefixes the message with key, nonce and associated data: the laws hold. *)
Definition toy_tag (k n a : bytes) : bytes := (fun z => z mod 256) <$> k ++ n ++ a.

#[export] Instance toy_aead : Aead := {
  cipher := bytes;
  new_from_slice k := if decide (length k = 32%nat) then Some k else None;
  encrypt k n a m := Some (toy_tag k n a ++ m);
  decrypt k n a c := strip_prefix (toy_tag k n a) c;
}.

#[export] Instance toy_aead_laws : AeadLaws.
Proof.
  split; simpl.
  - intros k Hk. rewrite decide_True by done. by eexists.
  - intros k n a c m. rewrite strip_prefix_Some. naive_solver.
  - intros k n a m c Hm [= <-]. apply Forall_app. split; [|done]. apply Forall_fmap, Forall_forall. intros z _.
    unfold is_u8, u8_max. simpl. pose proof (Z.mod_pos_bound z 256). lia.
  - by eexists.
Qed.

Definition demo_keys : SessionKeys := mkKeys (replicate 32 1) (replicate 32 2).
Definition demo_server : Session := mkSession (replicate 32 2 : cipher) (replicate 32 1 : cipher) CodecBinary S2C C2S 0 0.
Definition demo_client : Session := mkSession (replicate 32 1 : cipher) (replicate 32 2 : cipher) CodecBinary C2S S2C 0 0.

Lemma server_client_paired_witness : paired demo_server demo_client.
Proof.
  apply (server_client_paired demo_keys CodecBinary demo_server demo_client); vm_compute; reflexivity.
Defined.

Definition sealed (s : Session) (ms : list bytes) : list bytes :=
  (fun r : result E2eeError bytes => match r with Ok f => f | Err _ => [] end) <$> (seal_all s ms).2.

Lemma session_stream_roundtrip_witness :
  exists r', open_all (set_codec demo_client CodecJson) (sealed (set_codec demo_server CodecJson) [[104; 105]; [0; 255]])
    = (r', [Ok [104; 105]; Ok [0; 255]]).
Proof.
  destruct (session_stream_roundtrip (set_codec demo_server CodecJson) (set_codec demo_client CodecJson)
     (set_send_sequence (set_codec demo_server CodecJson) 2)
     [[104; 105]; [0; 255]] (sealed (set_codec demo_server CodecJson) [[104; 105]; [0; 255]])) as (r' & H & _).
  - simpl. lia.
  - u8s.
  - split_and!; reflexivity.
  - vm_compute. reflexivity.
  - exists r'. exact H.
Defined.

Definition demo_frame : bytes := from_option id [] (sealed demo_server [[104; 105]] !! 0%nat).

Lemma accepted_frame_never_reopens_witness :
  exists e, open (set_receive_sequence demo_client 1) demo_frame = (set_receive_sequence demo_client 1, Err e) /\ class e = Replay.
Proof.
  apply (accepted_frame_never_reopens demo_client (set_receive_sequence demo_client 1) (set_receive_sequence demo_client 1)
           demo_frame [104; 105] [[9; 9]] [Err InvalidFrame]); vm_compute; reflexivity.
Defined.

Lemma accepted_stream_is_consecutive_witness :
  receive_sequence (set_receive_sequence demo_client 1) = 0 + Z.of_nat (length [(demo_frame, [104; 105])]).
Proof.
  apply (accepted_stream_is_consecutive demo_client (set_receive_sequence demo_client 1) [[1]; demo_frame; demo_frame]
           [Err InvalidFrame; Ok [104; 105]; Err (InvalidSequence 1 0)]).
  vm_compute. reflexivity.
Defined.

Lemma seal_nonces_unique_witness : NoDup (nonces_used demo_server [[1]; [2]; [3]]).
Proof. apply (seal_nonces_unique demo_server [[1]; [2]; [3]]). simpl. lia. Defined.

Lemma seal_sequence_bounds_witness :
  (seal (set_send_sequence demo_server (2 ^ 53)) [1]).1 = set_send_sequence demo_server (2 ^ 53).
Proof.
  pose proof (seal_sequence_bounds (set_send_sequence demo_server (2 ^ 53)) [1]) as Hb.
  assert (Hs : seal (set_send_sequence demo_server (2 ^ 53)) [1] = (set_send_sequence demo_server (2 ^ 53), Err SequenceExhausted))
    by (vm_compute; reflexivity).
  rewrite Hs in Hb. rewrite Hs. apply Hb; [simpl; lia|].
  u8s.
Defined.

End E2eeSession.
