(* ===== verification/E2eeHandshake.v ===== *)
(** * The handshake core — [lerdr-e2ee/src/handshake.rs]

    Auth binding, transcript proofs, key derivation, and the hello and finish
    messages.  HMAC, HKDF and P-256 are a class; [None] is the error arm of the
    optional parsers. *)

From S2P Require Import Prelude Utf8 JsonText Json JsonWire E2eeCodec E2eeSession.
Import Utf8 JsonText Json JsonWire E2eeCodec E2eeInstances E2eeSession.

Module E2eeHandshake.

Definition NONCE_BYTES : nat := 32.
Definition PUBLIC_KEY_BYTES : nat := 65.
Definition SECRET_BYTES : nat := 32.
Definition PROOF_BYTES : nat := 32.
Definition MAX_AUTH_ID_BYTES : nat := 128.
Definition MAX_LOCALE_BYTES : nat := 32.

Definition CLIENT_PROOF_LABEL : bytes := as_bytes "herdr-e2ee-v2 client" ++ [0].
Definition SERVER_PROOF_LABEL : bytes := as_bytes "herdr-e2ee-v2 server" ++ [0].
Definition KEY_SALT_LABEL : bytes := as_bytes "herdr-e2ee-v2 key" ++ [0].
Definition BINDING_PREFIX : bytes := as_bytes "herdr-e2ee-v2 auth" ++ [0].
Definition HKDF_INFO_C2S : bytes := as_bytes "herdr-e2ee-v2 c2s".
Definition HKDF_INFO_S2C : bytes := as_bytes "herdr-e2ee-v2 s2c".

(** ** Selectors *)

Inductive AuthKind := Credential | Invitation.

#[export] Instance AuthKind_eq_dec : EqDecision AuthKind.
Proof. solve_decision. Defined.

Definition kind_as_str (k : AuthKind) : string :=
  match k with Credential => "credential" | Invitation => "invitation" end.

Definition kind_from_label (label : string) : option AuthKind :=
  if decide (label = "credential") then Some Credential
  else if decide (label = "invitation") then Some Invitation
  else None.

Record AuthSelector := mkSelector {
  kind : AuthKind;
  id : string;
  sel_version : Z;
  locale : string;
}.

Definition binding (s : AuthSelector) : bytes :=
  BINDING_PREFIX ++ as_bytes (kind_as_str (kind s)) ++ [0] ++ as_bytes (id s) ++ [0] ++
  as_bytes (decimal (sel_version s)) ++ [0].

Definition selector_is_valid (s : AuthSelector) : bool :=
  negb (bool_decide (id s = ""))%string &&
  bool_decide (String.length (id s) <= MAX_AUTH_ID_BYTES)%nat &&
  bool_decide (sel_version s <> 0) &&
  bool_decide (String.length (locale s) <= MAX_LOCALE_BYTES)%nat.

Definition transcript (bind client_nonce client_public server_nonce server_public : bytes) : bytes :=
  bind ++ client_nonce ++ client_public ++ server_nonce ++ server_public.

(** ** The libraries *)

Class HandshakeCrypto := {
  SecretKey : Type;
  PublicKey : Type;
  hmac_sha256 : bytes -> bytes -> bytes;            (* key, message *)
  hkdf_sha256 : bytes -> bytes -> bytes -> bytes;   (* salt, input key, info; 32 bytes *)
  public_key_of : SecretKey -> PublicKey;
  to_sec1_point : PublicKey -> bytes;               (* uncompressed *)
  from_sec1_bytes : bytes -> option PublicKey;
  diffie_hellman : SecretKey -> PublicKey -> bytes; (* raw x coordinate *)
}.

Class HandshakeCryptoLaws `{HandshakeCrypto} := {
  hmac_shape k m : length (hmac_sha256 k m) = 32%nat /\ Forall is_u8 (hmac_sha256 k m);
  hkdf_length s k i : length (hkdf_sha256 s k i) = 32%nat;
  sec1_shape p : length (to_sec1_point p) = 65%nat /\ head (to_sec1_point p) = Some 4 /\ Forall is_u8 (to_sec1_point p);
  sec1_roundtrip p : from_sec1_bytes (to_sec1_point p) = Some p;
  dh_commutes a b : diffie_hellman a (public_key_of b) = diffie_hellman b (public_key_of a);
}.

Section Handshake.
Context `{Base64} `{WireJson} `{HandshakeCrypto}.

Definition auth_tag (secret : bytes) (parts : list bytes) : bytes := hmac_sha256 secret (concat parts).

Definition client_proof (secret bind client_nonce client_public : bytes) : bytes :=
  auth_tag secret [CLIENT_PROOF_LABEL; bind; client_nonce; client_public].
Definition server_proof (secret tr : bytes) : bytes := auth_tag secret [SERVER_PROOF_LABEL; tr].
Definition key_salt (secret tr : bytes) : bytes := auth_tag secret [KEY_SALT_LABEL; tr].

Definition derive_session_keys (shared_secret salt : bytes) : SessionKeys :=
  mkKeys (hkdf_sha256 salt shared_secret HKDF_INFO_C2S) (hkdf_sha256 salt shared_secret HKDF_INFO_S2C).

(** ** Messages *)

Record ClientHello := mkClientHello {
  selector : AuthSelector;
  ch_nonce : bytes;
  ch_public_bytes : bytes;
  ch_public_key : PublicKey;
  ch_proof : bytes;
}.

Record ServerHello := mkServerHello {
  sh_nonce : bytes;
  sh_public_bytes : bytes;
  sh_public_key : PublicKey;
  sh_proof : bytes;
}.

Record ServerFinish := mkServerFinish {
  device_id : string;
  credential_id : string;
  role : string;
  fin_locale : string;
  credential_version : Z;
  credential_secret : option string;
}.

(** [ClientHelloWire]: type, version, auth_kind, auth_id, auth_version, locale,
    nonce, public_key, proof. *)
Definition de_client_hello (v : json) : option (string * Z * string * string * Z * string * string * string * string) :=
  fields ← de_struct ["type"; "version"; "auth_kind"; "auth_id"; "auth_version"; "locale"; "nonce"; "public_key"; "proof"] v;
  match fields with
  | [t; ve; k; i; av; lo; n; pk; pr] =>
      t ← de_string t; ve ← de_i64 ve; k ← de_string k; i ← de_string i; av ← de_u64 av;
      lo ← de_string lo; n ← de_string n; pk ← de_string pk; pr ← de_string pr;
      Some (t, ve, k, i, av, lo, n, pk, pr)
  | _ => None
  end.

(** [ServerHelloWire]. *)
Definition de_server_hello (v : json) : option (string * Z * string * string * string) :=
  fields ← de_struct ["type"; "version"; "nonce"; "public_key"; "proof"] v;
  match fields with
  | [t; ve; n; pk; pr] =>
      t ← de_string t; ve ← de_i64 ve; n ← de_string n; pk ← de_string pk; pr ← de_string pr;
      Some (t, ve, n, pk, pr)
  | _ => None
  end.

(** [FinishWire]. *)
Definition de_finish (v : json) : option (string * Z) :=
  fields ← de_struct ["type"; "version"] v;
  match fields with
  | [t; ve] => t ← de_string t; ve ← de_i64 ve; Some (t, ve)
  | _ => None
  end.

(** [ServerFinishWire]. *)
Definition de_server_finish (v : json) : option (string * Z * ServerFinish) :=
  fields ← de_struct ["type"; "version"; "device_id"; "credential_id"; "role"; "locale"; "credential_version"; "credential_secret"] v;
  match fields with
  | [t; ve; d; c; r; lo; cv; cs] =>
      t ← de_string t; ve ← de_i64 ve; d ← de_string d; c ← de_string c; r ← de_string r;
      lo ← de_string lo; cv ← de_u64 cv; cs ← de_opt_string cs;
      Some (t, ve, mkServerFinish d c r lo cv cs)
  | _ => None
  end.

Definition decode_field (n : nat) (value : string) : option bytes :=
  b ← b64_decode value;
  if decide (length b = n) then Some b else None.

Definition parse_uncompressed_p256 (b : bytes) : option PublicKey :=
  if decide (head b <> Some 4) then None else from_sec1_bytes b.

Definition parse_client_hello (raw_hello : bytes) : result E2eeError ClientHello :=
  '(t, ve, k, i, av, lo, n, pk, pr) ← ok_or (from_slice raw_hello ≫= de_client_hello) InvalidClientHello;
  if decide (t <> "e2ee_client_hello" \/ ve <> VERSION) then Err UnsupportedClientHello
  else
    let sel := (fun kd => mkSelector kd i av lo) <$> kind_from_label k in
    match sel with
    | Some sel =>
        if selector_is_valid sel then
          nonce ← ok_or (decode_field NONCE_BYTES n) InvalidClientNonce;
          public_bytes ← ok_or (decode_field PUBLIC_KEY_BYTES pk) InvalidClientPublicKey;
          proof ← ok_or (decode_field PROOF_BYTES pr) InvalidClientProof;
          public_key ← ok_or (parse_uncompressed_p256 public_bytes) InvalidClientPublicKey;
          Ok (mkClientHello sel nonce public_bytes public_key proof)
        else Err InvalidAuthSelector
    | None => Err InvalidAuthSelector
    end.

Definition parse_server_hello (raw_hello : bytes) : result E2eeError ServerHello :=
  '(t, ve, n, pk, pr) ← ok_or (from_slice raw_hello ≫= de_server_hello) InvalidServerHello;
  if decide (t <> "e2ee_server_hello" \/ ve <> VERSION) then Err UnsupportedServerHello
  else
    nonce ← ok_or (decode_field NONCE_BYTES n) InvalidServerNonce;
    public_bytes ← ok_or (decode_field PUBLIC_KEY_BYTES pk) InvalidServerPublicKey;
    proof ← ok_or (decode_field PROOF_BYTES pr) InvalidServerProof;
    public_key ← ok_or (parse_uncompressed_p256 public_bytes) InvalidServerPublicKey;
    Ok (mkServerHello nonce public_bytes public_key proof).

Definition verify_client_proof (secret : bytes) (hello : ClientHello) : bool :=
  bool_decide (hmac_sha256 secret
    (CLIENT_PROOF_LABEL ++ binding (selector hello) ++ ch_nonce hello ++ ch_public_bytes hello) = ch_proof hello).

Definition encode_client_hello (s : AuthSelector) (nonce public_bytes proof : bytes) : bytes :=
  let out := push_str [] (jlit "{'type':'e2ee_client_hello','version':2,'auth_kind':") in
  let out := push_json out (kind_as_str (kind s)) in
  let out := push_str out (jlit ",'auth_id':") in
  let out := push_json out (id s) in
  let out := push_str out (jlit ",'auth_version':") in
  let out := push_str out (as_bytes (decimal (sel_version s))) in
  let out := push_str out (jlit ",'locale':") in
  let out := push_json out (locale s) in
  let out := push_str out (jlit ",'nonce':") in
  let out := push_json out (b64_encode nonce) in
  let out := push_str out (jlit ",'public_key':") in
  let out := push_json out (b64_encode public_bytes) in
  let out := push_str out (jlit ",'proof':") in
  let out := push_json out (b64_encode proof) in
  push_str out [125].

Definition encode_server_hello (nonce public_bytes proof : bytes) : bytes :=
  let out := push_str [] (jlit "{'type':'e2ee_server_hello','version':2,'nonce':") in
  let out := push_json out (b64_encode nonce) in
  let out := push_str out (jlit ",'public_key':") in
  let out := push_json out (b64_encode public_bytes) in
  let out := push_str out (jlit ",'proof':") in
  let out := push_json out (b64_encode proof) in
  push_str out [125].

Definition CLIENT_FINISH_JSON : bytes := jlit "{'type':'e2ee_client_finish','version':2}".

Definition parse_client_finish (plaintext : bytes) : result E2eeError unit :=
  text ← ok_or (from_utf8 plaintext) InvalidClientFinish;
  '(t, ve) ← ok_or (from_slice (as_bytes text) ≫= de_finish) InvalidClientFinish;
  if decide (t <> "e2ee_client_finish" \/ ve <> VERSION) then Err InvalidClientFinish else Ok tt.

Definition encode_server_finish (f : ServerFinish) : bytes :=
  let out := push_str [] (jlit "{'type':'e2ee_server_finish','version':2,'device_id':") in
  let out := push_json out (device_id f) in
  let out := push_str out (jlit ",'credential_id':") in
  let out := push_json out (credential_id f) in
  let out := push_str out (jlit ",'role':") in
  let out := push_json out (role f) in
  let out := push_str out (jlit ",'locale':") in
  let out := push_json out (fin_locale f) in
  let out := push_str out (jlit ",'credential_version':") in
  let out := push_str out (as_bytes (decimal (credential_version f))) in
  let out := match credential_secret f with
             | Some secret => push_json (push_str out (jlit ",'credential_secret':")) secret
             | None => out
             end in
  push_str out [125].

Definition parse_server_finish (plaintext : bytes) : result E2eeError ServerFinish :=
  text ← ok_or (from_utf8 plaintext) InvalidServerFinish;
  '(t, ve, f) ← ok_or (from_slice (as_bytes text) ≫= de_server_finish) InvalidServerFinish;
  if decide (t <> "e2ee_server_finish" \/ ve <> VERSION) then Err InvalidServerFinish else Ok f.

(** ** The server state machine *)

Record ServerHandshake := mkServerHandshake {
  hello : ClientHello;
  hs_binding : bytes;
}.

Record Established := mkEstablished {
  est_transcript : bytes;
  est_shared_secret : bytes;
  est_key_salt : bytes;
  est_keys : SessionKeys;
}.

Definition begin (raw_hello secret : bytes) : result E2eeError ServerHandshake :=
  h ← parse_client_hello raw_hello;
  if negb (verify_client_proof secret h) then Err ClientProofFailed
  else Ok (mkServerHandshake h (binding (selector h))).

Definition respond (hs : ServerHandshake) (secret : bytes) (server_private : SecretKey) (server_nonce : bytes)
    : result E2eeError (bytes * Established) :=
  let server_public_bytes := to_sec1_point (public_key_of server_private) in
  if decide (length server_public_bytes <> PUBLIC_KEY_BYTES) then Err InvalidKeyMaterial
  else
    let shared_secret := diffie_hellman server_private (ch_public_key (hello hs)) in
    let tr := transcript (hs_binding hs) (ch_nonce (hello hs)) (ch_public_bytes (hello hs)) server_nonce server_public_bytes in
    let proof := server_proof secret tr in
    let salt := key_salt secret tr in
    let keys := derive_session_keys shared_secret salt in
    Ok (encode_server_hello server_nonce server_public_bytes proof, mkEstablished tr shared_secret salt keys).

Context `{Aead}.

(** [None] is the [expect] on the key lengths. *)
Definition server_session (e : Established) (c : Codec) : option Session :=
  match server (est_keys e) c with Ok s => Some s | Err _ => None end.
Definition client_session (e : Established) (c : Codec) : option Session :=
  match client (est_keys e) c with Ok s => Some s | Err _ => None end.

(** ** The client's half, from the same functions *)

Definition client_hello_bytes (secret : bytes) (s : AuthSelector) (private : SecretKey) (nonce : bytes) : bytes :=
  let public_bytes := to_sec1_point (public_key_of private) in
  encode_client_hello s nonce public_bytes (client_proof secret (binding s) nonce public_bytes).

Definition client_establish (secret : bytes) (s : AuthSelector) (private : SecretKey) (nonce raw_server_hello : bytes)
    : result E2eeError Established :=
  sh ← parse_server_hello raw_server_hello;
  let tr := transcript (binding s) nonce (to_sec1_point (public_key_of private)) (sh_nonce sh) (sh_public_bytes sh) in
  if decide (server_proof secret tr <> sh_proof sh) then Err InvalidServerProof
  else
    let shared_secret := diffie_hellman private (sh_public_key sh) in
    let salt := key_salt secret tr in
    Ok (mkEstablished tr shared_secret salt (derive_session_keys shared_secret salt)).

End Handshake.

(** ** The authenticated texts are unambiguous *)

(** Two byte strings cut at their last zero. *)
Lemma cut_last_zero (a b c d : bytes) :
  0 ∉ b -> 0 ∉ d -> a ++ [0] ++ b = c ++ [0] ++ d -> a = c /\ b = d.
Proof.
  revert c. induction a as [|x a IH]; intros c Hb Hd E.
  - destruct c as [|y c]; [by injection E as ->|]. injection E as _ ->. exfalso. apply Hb. set_solver.
  - destruct c as [|y c].
    + injection E as _ <-. exfalso. apply Hd. set_solver.
    + injection E as -> E. apply IH in E as [-> ->]; done.
Qed.

Lemma decimal_no_zero z : 0 ∉ as_bytes (decimal z).
Proof. intros Hin. pose proof (decimal_ascii z) as Hd. rewrite Forall_forall in Hd. apply Hd in Hin. lia. Qed.

Lemma binding_inj s s' :
  0 <= sel_version s -> 0 <= sel_version s' -> binding s = binding s' ->
  kind s = kind s' /\ id s = id s' /\ sel_version s = sel_version s'.
Proof.
  intros Hv Hv' E. unfold binding in E. apply app_inv_head in E.
  apply app_eq_length_inv in E as [Hk E]; [|by destruct (kind s), (kind s')].
  apply app_inv_head in E.
  assert (E' : (as_bytes (id s) ++ [0] ++ as_bytes (decimal (sel_version s))) ++ [0] =
               (as_bytes (id s') ++ [0] ++ as_bytes (decimal (sel_version s'))) ++ [0])
    by (rewrite <- !(assoc_L (++)); exact E).
  apply app_eq_length_inv_r in E' as [E' _]; [|done].
  apply cut_last_zero in E' as [Hid Hdec]; [|apply decimal_no_zero..].
  split_and!; [by destruct (kind s), (kind s')|by apply as_bytes_inj|by apply decimal_inj, as_bytes_inj].
Qed.

Lemma transcript_inj b cn cp sn sp b' cn' cp' sn' sp' :
  length cn = length cn' -> length cp = length cp' -> length sn = length sn' -> length sp = length sp' ->
  transcript b cn cp sn sp = transcript b' cn' cp' sn' sp' ->
  b = b' /\ cn = cn' /\ cp = cp' /\ sn = sn' /\ sp = sp'.
Proof.
  intros H1 H2 H3 H4 E. unfold transcript in E.
  apply app_eq_length_inv_r in E as [-> E]; [|rewrite !length_app; lia].
  apply app_eq_length_inv in E as [-> E]; [|done].
  apply app_eq_length_inv in E as [-> E]; [|done].
  by apply app_eq_length_inv in E as [-> ->].
Qed.

(** Everything the pairing secret ever authenticates. *)
Inductive auth_input :=
| ClientProofInput (s : AuthSelector) (client_nonce client_public : bytes)
| ServerProofInput (s : AuthSelector) (client_nonce client_public server_nonce server_public : bytes)
| KeySaltInput (s : AuthSelector) (client_nonce client_public server_nonce server_public : bytes).

Definition auth_message (i : auth_input) : bytes :=
  match i with
  | ClientProofInput s cn cp => List.concat [CLIENT_PROOF_LABEL; binding s; cn; cp]
  | ServerProofInput s cn cp sn sp => List.concat [SERVER_PROOF_LABEL; transcript (binding s) cn cp sn sp]
  | KeySaltInput s cn cp sn sp => List.concat [KEY_SALT_LABEL; transcript (binding s) cn cp sn sp]
  end.

Definition selector_key (s : AuthSelector) : AuthKind * string * Z := (kind s, id s, sel_version s).

(** The parts of an input that are authenticated: everything but the locale. *)
Definition auth_fields (i : auth_input) : nat * (AuthKind * string * Z) * list bytes :=
  match i with
  | ClientProofInput s cn cp => (0%nat, selector_key s, [cn; cp])
  | ServerProofInput s cn cp sn sp => (1%nat, selector_key s, [cn; cp; sn; sp])
  | KeySaltInput s cn cp sn sp => (2%nat, selector_key s, [cn; cp; sn; sp])
  end.

Definition auth_input_ok (i : auth_input) : Prop :=
  match i with
  | ClientProofInput s cn cp => 0 <= sel_version s /\ length cn = NONCE_BYTES /\ length cp = PUBLIC_KEY_BYTES
  | ServerProofInput s cn cp sn sp | KeySaltInput s cn cp sn sp =>
      0 <= sel_version s /\ length cn = NONCE_BYTES /\ length cp = PUBLIC_KEY_BYTES /\
      length sn = NONCE_BYTES /\ length sp = PUBLIC_KEY_BYTES
  end.

Lemma server_input_inj s cn cp sn sp s' cn' cp' sn' sp' label :
  auth_input_ok (ServerProofInput s cn cp sn sp) -> auth_input_ok (ServerProofInput s' cn' cp' sn' sp') ->
  List.concat [label; transcript (binding s) cn cp sn sp] = List.concat [label; transcript (binding s') cn' cp' sn' sp'] ->
  selector_key s = selector_key s' /\ [cn; cp; sn; sp] = [cn'; cp'; sn'; sp'].
Proof.
  intros (V & L1 & L2 & L3 & L4) (V' & M1 & M2 & M3 & M4) E. cbn [List.concat] in E. rewrite !app_nil_r in E.
  apply app_inv_head in E. apply transcript_inj in E as (B & -> & -> & -> & ->); [|congruence..].
  apply binding_inj in B as (Hk & Hi & Hv); [|done..]. unfold selector_key. by rewrite Hk, Hi, Hv.
Qed.

(** What the code computes for each input. *)
Definition auth_call `{HandshakeCrypto} (secret : bytes) (i : auth_input) : bytes :=
  match i with
  | ClientProofInput s cn cp => client_proof secret (binding s) cn cp
  | ServerProofInput s cn cp sn sp => server_proof secret (transcript (binding s) cn cp sn sp)
  | KeySaltInput s cn cp sn sp => key_salt secret (transcript (binding s) cn cp sn sp)
  end.

Lemma auth_message_inj (i j : auth_input) :
  auth_input_ok i -> auth_input_ok j -> auth_message i = auth_message j -> auth_fields i = auth_fields j.
Proof.
  destruct i as [s cn cp|s cn cp sn sp|s cn cp sn sp], j as [s' cn' cp'|s' cn' cp' sn' sp'|s' cn' cp' sn' sp'];
    cbn [auth_message auth_fields]; intros Hi Hj E; try discriminate E.
  - destruct Hi as (V & L1 & L2), Hj as (V' & M1 & M2). cbn [List.concat] in E. rewrite !app_nil_r in E. apply app_inv_head in E.
    apply app_eq_length_inv_r in E as [B E]; [|rewrite !length_app; congruence].
    apply app_eq_length_inv in E as [-> ->]; [|congruence].
    apply binding_inj in B as (Hk & Hid & Hv); [|done..]. unfold selector_key. by rewrite Hk, Hid, Hv.
  - apply server_input_inj in E as [-> ->]; done.
  - apply server_input_inj in E as [-> ->]; done.
Qed.

(** ** Message texts *)

Section Texts.
Context `{Base64Laws} `{WireJsonLaws}.

Ltac text_eq :=
  unfold object_text, object_chars, members_chars, member_chars, value_chars, push_str, push_json; cbn [fst snd];
  rewrite !utf8_encode_app, ?utf8_encode_decimal, <- !(assoc_L (++)); reflexivity.

Lemma encode_client_hello_text s nonce pb proof :
  encode_client_hello s nonce pb proof = object_text
    [("type", JString "e2ee_client_hello"); ("version", JNumber (PosInt 2)); ("auth_kind", JString (kind_as_str (kind s)));
     ("auth_id", JString (id s)); ("auth_version", JNumber (PosInt (sel_version s))); ("locale", JString (locale s));
     ("nonce", JString (b64_encode nonce)); ("public_key", JString (b64_encode pb)); ("proof", JString (b64_encode proof))].
Proof. unfold encode_client_hello. text_eq. Qed.

Lemma encode_server_hello_text nonce pb proof :
  encode_server_hello nonce pb proof = object_text
    [("type", JString "e2ee_server_hello"); ("version", JNumber (PosInt 2)); ("nonce", JString (b64_encode nonce));
     ("public_key", JString (b64_encode pb)); ("proof", JString (b64_encode proof))].
Proof. unfold encode_server_hello. text_eq. Qed.

Definition finish_members (f : ServerFinish) : list (string * json) :=
  [("type", JString "e2ee_server_finish"); ("version", JNumber (PosInt 2)); ("device_id", JString (device_id f));
   ("credential_id", JString (credential_id f)); ("role", JString (role f)); ("locale", JString (fin_locale f));
   ("credential_version", JNumber (PosInt (credential_version f)))] ++
  match credential_secret f with Some x => [("credential_secret", JString x)] | None => [] end.

Lemma encode_server_finish_text f : encode_server_finish f = object_text (finish_members f).
Proof.
  unfold encode_server_finish, finish_members. destruct (credential_secret f); cbn [app]; text_eq.
Qed.

Lemma b64_utf8 b : Forall is_u8 b -> utf8_string (b64_encode b).
Proof. intros Hb. by apply url_safe_utf8, b64_alphabet. Qed.

Lemma decode_field_encode n b : Forall is_u8 b -> length b = n -> decode_field n (b64_encode b) = Some b.
Proof.
  intros Hb Hl. unfold decode_field. rewrite b64_roundtrip by done. cbn [mbind option_bind]. by rewrite decide_True.
Qed.

Lemma utf8_encode_valid cs : Forall is_scalar cs -> from_utf8 (utf8_encode cs) = Some (string_of_bytes (utf8_encode cs)).
Proof. intros Hcs. unfold from_utf8. by destruct (chars_encode cs Hcs) as [_ ->]. Qed.

Lemma encode_char_u8 c : is_scalar c -> Forall is_u8 (encode_char c).
Proof.
  intros [Hc _]. unfold encode_char, is_u8, u8_max.
  repeat case_decide; each_of; Z.to_euclidean_division_equations; lia.
Qed.

Lemma utf8_encode_u8 cs : Forall is_scalar cs -> Forall is_u8 (utf8_encode cs).
Proof.
  induction 1 as [|c cs Hc _ IH]; [constructor|]. unfold utf8_encode in *. rewrite bind_cons.
  apply Forall_app. split; [by apply encode_char_u8|done].
Qed.

Lemma object_chars_scalar ms : Forall member_ok ms -> Forall is_scalar (object_chars ms).
Proof.
  intros Hms. unfold object_chars. constructor; [split; lia|]. apply Forall_app.
  split; [by apply members_chars_scalar|]. repeat constructor; lia.
Qed.

(** Object text survives the plaintext's UTF-8 check. *)
Lemma from_utf8_object ms : Forall member_ok ms ->
  exists t, from_utf8 (object_text ms) = Some t /\ as_bytes t = object_text ms.
Proof.
  intros Hms%object_chars_scalar. eexists. split; [by apply utf8_encode_valid|].
  by apply as_bytes_of_bytes, utf8_encode_u8.
Qed.

Context `{HandshakeCryptoLaws}.

Definition selector_ok (s : AuthSelector) : Prop :=
  selector_is_valid s = true /\ is_u64 (sel_version s) /\ utf8_string (id s) /\ utf8_string (locale s).

Lemma parse_encoded_client_hello s nonce pk proof :
  selector_ok s -> length nonce = NONCE_BYTES -> Forall is_u8 nonce -> length proof = PROOF_BYTES -> Forall is_u8 proof ->
  parse_client_hello (encode_client_hello s nonce (to_sec1_point pk) proof) =
  Ok (mkClientHello s nonce (to_sec1_point pk) pk proof).
Proof.
  intros (Hs & Hv & Hid & Hloc) Hn Hnu Hp Hpu. destruct (sec1_shape pk) as (Hl & Hh & Hu).
  unfold parse_client_hello. rewrite encode_client_hello_text, from_slice_text.
  2: { each_member;
       try (by apply b64_utf8). by destruct (kind s). }
  assert (Hde : de_client_hello (JObject
    [("type", JString "e2ee_client_hello"); ("version", JNumber (PosInt 2)); ("auth_kind", JString (kind_as_str (kind s)));
     ("auth_id", JString (id s)); ("auth_version", JNumber (PosInt (sel_version s))); ("locale", JString (locale s));
     ("nonce", JString (b64_encode nonce)); ("public_key", JString (b64_encode (to_sec1_point pk))); ("proof", JString (b64_encode proof))])
    = Some ("e2ee_client_hello"%string, 2, kind_as_str (kind s), id s, sel_version s, locale s, b64_encode nonce,
            b64_encode (to_sec1_point pk), b64_encode proof)) by reflexivity.
  cbn [mbind option_bind]. rewrite Hde. cbn [ok_or mbind result_bind]. rewrite decide_False by (intros []; done).
  assert (Hk : kind_from_label (kind_as_str (kind s)) = Some (kind s)) by (by destruct (kind s)). rewrite Hk.
  cbn [fmap option_fmap option_map]. replace (mkSelector (kind s) (id s) (sel_version s) (locale s)) with s by (by destruct s).
  rewrite Hs, !decode_field_encode by done. cbn [ok_or mbind result_bind]. unfold parse_uncompressed_p256.
  rewrite decide_False by (rewrite Hh; naive_solver). by rewrite sec1_roundtrip.
Qed.

Lemma parse_encoded_server_hello nonce pk proof :
  length nonce = NONCE_BYTES -> Forall is_u8 nonce -> length proof = PROOF_BYTES -> Forall is_u8 proof ->
  parse_server_hello (encode_server_hello nonce (to_sec1_point pk) proof) =
  Ok (mkServerHello nonce (to_sec1_point pk) pk proof).
Proof.
  intros Hn Hnu Hp Hpu. destruct (sec1_shape pk) as (Hl & Hh & Hu).
  unfold parse_server_hello. rewrite encode_server_hello_text, from_slice_text.
  2: { each_member;
       by apply b64_utf8. }
  assert (Hde : de_server_hello (JObject
    [("type", JString "e2ee_server_hello"); ("version", JNumber (PosInt 2)); ("nonce", JString (b64_encode nonce));
     ("public_key", JString (b64_encode (to_sec1_point pk))); ("proof", JString (b64_encode proof))])
    = Some ("e2ee_server_hello"%string, 2, b64_encode nonce, b64_encode (to_sec1_point pk), b64_encode proof)) by reflexivity.
  cbn [mbind option_bind]. rewrite Hde. cbn [ok_or mbind result_bind]. rewrite decide_False by (intros []; done).
  rewrite !decode_field_encode by done. cbn [ok_or mbind result_bind]. unfold parse_uncompressed_p256.
  rewrite decide_False by (rewrite Hh; naive_solver). by rewrite sec1_roundtrip.
Qed.

Lemma verify_own_proof secret s nonce pk :
  verify_client_proof secret (mkClientHello s nonce (to_sec1_point pk) pk (client_proof secret (binding s) nonce (to_sec1_point pk))) = true.
Proof.
  apply bool_decide_eq_true_2. unfold client_proof, auth_tag. cbn [selector ch_nonce ch_public_bytes ch_proof List.concat].
  by rewrite app_nil_r.
Qed.

Definition finish_ok (f : ServerFinish) : Prop :=
  utf8_string (device_id f) /\ utf8_string (credential_id f) /\ utf8_string (role f) /\ utf8_string (fin_locale f) /\
  is_u64 (credential_version f) /\ match credential_secret f with Some x => utf8_string x | None => True end.

Lemma finish_members_ok f : finish_ok f -> Forall member_ok (finish_members f).
Proof.
  intros (Hd & Hc & Hr & Hl & Hv & Hs). unfold finish_members. apply Forall_app. split.
  - each_member; done.
  - destruct (credential_secret f); [|constructor]. apply Forall_singleton. done.
Qed.

Lemma encode_server_finish_u8 f : finish_ok f -> Forall is_u8 (encode_server_finish f).
Proof.
  intros Hf. rewrite encode_server_finish_text. by apply utf8_encode_u8, object_chars_scalar, finish_members_ok.
Qed.

Lemma parse_encoded_finish f : finish_ok f -> parse_server_finish (encode_server_finish f) = Ok f.
Proof.
  intros Hms%finish_members_ok.
  unfold parse_server_finish. rewrite encode_server_finish_text.
  destruct (from_utf8_object (finish_members f) Hms) as (t & -> & Ht). cbn [ok_or mbind result_bind].
  rewrite Ht, from_slice_text by done. cbn [mbind option_bind].
  assert (Hde : de_server_finish (JObject (finish_members f)) = Some ("e2ee_server_finish"%string, 2, f)).
  { unfold finish_members. destruct f as [d cr r lo cv [x|]]; reflexivity. }
  rewrite Hde. cbn [ok_or mbind result_bind]. by rewrite decide_False by (intros []; done).
Qed.

(** A hello made with the secret is accepted. *)
Lemma begin_own_hello secret s private nonce :
  selector_ok s -> length nonce = NONCE_BYTES -> Forall is_u8 nonce ->
  begin (client_hello_bytes secret s private nonce) secret =
  Ok (mkServerHandshake (mkClientHello s nonce (to_sec1_point (public_key_of private)) (public_key_of private)
        (client_proof secret (binding s) nonce (to_sec1_point (public_key_of private)))) (binding s)).
Proof.
  intros Hs Hn Hu. unfold begin, client_hello_bytes. rewrite parse_encoded_client_hello by (try done; apply hmac_shape).
  cbn [mbind result_bind]. by rewrite verify_own_proof.
Qed.

End Texts.

(** ** Properties *)

Section Properties.
Context `{Base64Laws} `{WireJsonLaws} `{HandshakeCryptoLaws} `{AeadLaws}.

Lemma agreement (secret : bytes) (s : AuthSelector) (client_private server_private : SecretKey)
    (client_nonce server_nonce : bytes) (c : Codec) :
  selector_ok s ->
  length client_nonce = NONCE_BYTES -> Forall is_u8 client_nonce ->
  length server_nonce = NONCE_BYTES -> Forall is_u8 server_nonce ->
  exists hs server_hello est sv cl,
    begin (client_hello_bytes secret s client_private client_nonce) secret = Ok hs /\
    respond hs secret server_private server_nonce = Ok (server_hello, est) /\
    client_establish secret s client_private client_nonce server_hello = Ok est /\
    server_session est c = Some sv /\ client_session est c = Some cl /\ paired sv cl /\ paired cl sv /\
    send_sequence sv = 0 /\ send_sequence cl = 0.
Proof.
  intros Hs Hcn Hcu Hsn Hsu. set (pub := to_sec1_point (public_key_of client_private)).
  set (spub := to_sec1_point (public_key_of server_private)).
  set (tr := transcript (binding s) client_nonce pub server_nonce spub).
  set (shared := diffie_hellman server_private (public_key_of client_private)).
  set (keys := derive_session_keys shared (key_salt secret tr)).
  destruct (new_total (s2c keys) (c2s keys) S2C C2S c) as [sv Hsv]; [apply hkdf_length..|].
  destruct (new_total (c2s keys) (s2c keys) C2S S2C c) as [cl Hcl]; [apply hkdf_length..|].
  destruct (server_client_pair keys c sv cl Hsv Hcl) as (Hp & Hp' & _).
  pose proof (new_zero _ _ _ _ _ _ Hsv) as Hz. pose proof (new_zero _ _ _ _ _ _ Hcl) as Hz'.
  eexists _, _, (mkEstablished tr shared (key_salt secret tr) keys), sv, cl. split_and!.
  - by apply begin_own_hello.
  - unfold respond. cbn [hello ch_public_key ch_nonce ch_public_bytes hs_binding selector].
    rewrite decide_False; [done|]. pose proof (sec1_shape (public_key_of server_private)) as (? & _). unfold PUBLIC_KEY_BYTES. lia.
  - unfold client_establish. rewrite parse_encoded_server_hello by (try done; apply hmac_shape).
    cbn [mbind result_bind sh_nonce sh_public_bytes sh_public_key sh_proof]. rewrite decide_False by tauto.
    by rewrite (dh_commutes client_private server_private).
  - unfold server_session. cbn [est_keys]. unfold server. by rewrite Hsv.
  - unfold client_session. cbn [est_keys]. unfold client. by rewrite Hcl.
  - done.
  - done.
  - done.
  - done.
Qed.

Lemma begin_parse raw secret hs : begin raw secret = Ok hs -> parse_client_hello raw = Ok (hello hs).
Proof.
  unfold begin. destruct (parse_client_hello raw) as [h|]; [|done]. cbn [mbind result_bind].
  destruct (verify_client_proof secret h); cbn [negb]; [by intros [= <-]|done].
Qed.

Lemma begin_selector secret s private nonce hs :
  selector_ok s -> length nonce = NONCE_BYTES -> Forall is_u8 nonce ->
  begin (client_hello_bytes secret s private nonce) secret = Ok hs -> selector (hello hs) = s.
Proof. intros Hs Hn Hu. rewrite begin_own_hello by done. by intros [= <-]. Qed.

(** The texts authenticated with a pairing secret are unambiguous: the
    client proof, the server proof and the key salt are keyed hashes of messages
    that never coincide across the three uses, and equal messages mean the same
    credential kind, id, version, nonces and public keys, even though an id may
    itself contain zero bytes. *)
Theorem auth_messages_unambiguous (secret : bytes) (i j : auth_input) :
  auth_input_ok i -> auth_input_ok j ->
  exists mi mj, auth_call secret i = hmac_sha256 secret mi /\ auth_call secret j = hmac_sha256 secret mj /\
    (mi = mj -> auth_fields i = auth_fields j).
Proof.
  intros Hi Hj. exists (auth_message i), (auth_message j). split; [by destruct i|]. split; [by destruct j|].
  by apply auth_message_inj.
Qed.

(** A hello that passes [begin] is well-formed and proven: its selector is
    within the length limits with a non-zero version, nonce, point and proof
    have their exact lengths, the point is an uncompressed one that decodes to
    the key used later, and the proof is the keyed hash of exactly these fields
    under the pairing secret. *)
Theorem begin_sound (raw secret : bytes) (hs : ServerHandshake) :
  begin raw secret = Ok hs ->
  let h := hello hs in
  selector_is_valid (selector h) = true /\ hs_binding hs = binding (selector h) /\
  length (ch_nonce h) = NONCE_BYTES /\ length (ch_public_bytes h) = PUBLIC_KEY_BYTES /\
  head (ch_public_bytes h) = Some 4 /\ from_sec1_bytes (ch_public_bytes h) = Some (ch_public_key h) /\
  ch_proof h = client_proof secret (binding (selector h)) (ch_nonce h) (ch_public_bytes h).
Proof.
  unfold begin. destruct (parse_client_hello raw) as [h|e] eqn:Hp; [|done]. cbn [mbind result_bind].
  destruct (verify_client_proof secret h) eqn:Hver; [|done]. cbn [negb]. intros [= <-]. cbn [hello hs_binding].
  apply bool_decide_eq_true in Hver. rewrite <- Hver. revert Hp. unfold parse_client_hello.
  destruct (from_slice raw ≫= de_client_hello) as [[[[[[[[[t ve] k] i] av] lo] n] pk] pr]|]; [|done].
  cbn [ok_or mbind result_bind]. case_decide; [done|].
  destruct (kind_from_label k) as [kd|]; [|done]. cbn [fmap option_fmap option_map].
  destruct (selector_is_valid _) eqn:Hsel; [|done]. unfold decode_field.
  destruct (b64_decode n) as [bn|]; [|done]. cbn [mbind option_bind]. case_decide; [|done].
  destruct (b64_decode pk) as [bp|]; [|done]. cbn [mbind option_bind]. case_decide; [|done].
  destruct (b64_decode pr) as [br|]; [|done]. cbn [mbind option_bind]. case_decide; [|done].
  cbn [ok_or mbind result_bind]. unfold parse_uncompressed_p256. case_decide as Hh; [done|].
  destruct (from_sec1_bytes bp) as [pub|] eqn:Hpub; [|done]. intros [= <-]. cbn [selector ch_nonce ch_public_bytes ch_public_key].
  split_and!; try done. unfold client_proof, auth_tag. cbn [List.concat]. by rewrite app_nil_r.
Qed.

(** C6 — the handshake agrees: from one pairing secret, whatever keys and nonces
    the two sides draw, the server accepts the client's hello, the client
    accepts the server's answer, both end with the same transcript, shared
    secret and session keys, and the two sessions built from them are in step in
    both directions. *)
Theorem handshake_agreement (secret : bytes) (s : AuthSelector) (client_private server_private : SecretKey)
    (client_nonce server_nonce : bytes) (c : Codec) :
  selector_ok s ->
  length client_nonce = NONCE_BYTES -> Forall is_u8 client_nonce ->
  length server_nonce = NONCE_BYTES -> Forall is_u8 server_nonce ->
  exists hs server_hello est sv cl,
    begin (client_hello_bytes secret s client_private client_nonce) secret = Ok hs /\
    respond hs secret server_private server_nonce = Ok (server_hello, est) /\
    client_establish secret s client_private client_nonce server_hello = Ok est /\
    server_session est c = Some sv /\ client_session est c = Some cl /\ paired sv cl /\ paired cl sv.
Proof.
  intros Hs Hcn Hcu Hsn Hsu.
  destruct (agreement secret s client_private server_private client_nonce server_nonce c Hs Hcn Hcu Hsn Hsu)
    as (hs & sh & est & sv & cl & H1' & H2' & H3' & H4' & H5' & H6' & H7' & _).
  by exists hs, sh, est, sv, cl.
Qed.

(** The server finish round-trips: whatever identity the store committed,
    and with or without a fresh credential secret, the plaintext parses back to
    exactly that identity. *)
Theorem server_finish_roundtrip (f : ServerFinish) :
  finish_ok f -> parse_server_finish (encode_server_finish f) = Ok f.
Proof. apply parse_encoded_finish. Qed.

End Properties.

(** ** A run with toy primitives *)

#[export] Instance toy_crypto : HandshakeCrypto := {
  SecretKey := Ascii.ascii;
  PublicKey := Ascii.ascii;
  hmac_sha256 k m := be_bytes 32 (be_value (k ++ m));
  hkdf_sha256 s k i := be_bytes 32 (be_value (s ++ k ++ i));
  public_key_of k := k;
  to_sec1_point p := 4 :: replicate 63 0 ++ [ascii_byte p];
  from_sec1_bytes b :=
    match b !! 64%nat with
    | Some z => if decide (b = 4 :: replicate 63 0 ++ [ascii_byte (byte_ascii z)]) then Some (byte_ascii z) else None
    | None => None
    end;
  diffie_hellman a b := be_bytes 32 (ascii_byte a * ascii_byte b);
}.

#[export] Instance toy_crypto_laws : HandshakeCryptoLaws.
Proof.
  split.
  - intros k m. split; [apply be_bytes_length|apply be_bytes_u8].
  - intros s k i. apply be_bytes_length.
  - intros p. split_and!; [done..|]. simpl.
    each_of; try (unfold is_u8, u8_max; lia). apply ascii_byte_u8.
  - intros p. unfold from_sec1_bytes, to_sec1_point, toy_crypto.
    change ((4 :: replicate 63 0 ++ [ascii_byte p]) !! 64%nat) with (Some (ascii_byte p)). cbv beta iota.
    rewrite byte_ascii_byte. by rewrite decide_True.
  - intros a b. unfold diffie_hellman, public_key_of, toy_crypto. f_equal. lia.
Qed.

Definition demo_selector : AuthSelector := mkSelector Invitation "inv-1" 3 "en".
Definition demo_secret : bytes := replicate 32 9.

Lemma demo_selector_ok : selector_ok demo_selector.
Proof. split_and!; [reflexivity| |reflexivity..]. unfold is_u64, u64_max. simpl. lia. Defined.

Lemma auth_messages_unambiguous_witness :
  exists mi mj,
    client_proof demo_secret (binding demo_selector) (replicate 32 1) (replicate 65 4) = hmac_sha256 demo_secret mi /\
    client_proof demo_secret (binding (mkSelector Credential "inv-1" 3 "en")) (replicate 32 1) (replicate 65 4) = hmac_sha256 demo_secret mj /\
    (mi = mj -> Invitation = Credential).
Proof.
  destruct (auth_messages_unambiguous demo_secret (ClientProofInput demo_selector (replicate 32 1) (replicate 65 4))
    (ClientProofInput (mkSelector Credential "inv-1" 3 "en") (replicate 32 1) (replicate 65 4))) as (mi & mj & H1 & H2 & H3).
  - split_and!; [simpl; lia|reflexivity..].
  - split_and!; [simpl; lia|reflexivity..].
  - exists mi, mj. split; [exact H1|]. split; [exact H2|]. intros E. apply H3 in E. discriminate E.
Defined.

Definition demo_private : SecretKey := byte_ascii 5.
Definition demo_server_private : SecretKey := byte_ascii 11.
Definition demo_nonce : bytes := replicate 32 7.
Definition demo_hello : bytes := client_hello_bytes demo_secret demo_selector demo_private demo_nonce.
Definition demo_begun : ServerHandshake :=
  mkServerHandshake
    (mkClientHello demo_selector demo_nonce (to_sec1_point (public_key_of demo_private)) (public_key_of demo_private)
       (client_proof demo_secret (binding demo_selector) demo_nonce (to_sec1_point (public_key_of demo_private))))
    (binding demo_selector).

Lemma begin_sound_witness : head (ch_public_bytes (hello demo_begun)) = Some 4.
Proof.
  apply (begin_sound demo_hello demo_secret demo_begun). unfold demo_hello, demo_begun.
  apply begin_own_hello; [exact demo_selector_ok|reflexivity|u8s].
Defined.

Lemma handshake_agreement_witness :
  exists hs server_hello est sv cl,
    begin demo_hello demo_secret = Ok hs /\
    respond hs demo_secret demo_server_private (replicate 32 8) = Ok (server_hello, est) /\
    client_establish demo_secret demo_selector demo_private demo_nonce server_hello = Ok est /\
    server_session est CodecBinary = Some sv /\ client_session est CodecBinary = Some cl /\ paired sv cl /\ paired cl sv.
Proof.
  apply (handshake_agreement demo_secret demo_selector demo_private demo_server_private demo_nonce (replicate 32 8) CodecBinary).
  - exact demo_selector_ok.
  - reflexivity.
  - u8s.
  - reflexivity.
  - u8s.
Defined.

Lemma server_finish_roundtrip_witness :
  parse_server_finish (encode_server_finish (mkServerFinish "dev-1" "cred-1" "controller" "en" 1 (Some "c2VjcmV0"%string)))
  = Ok (mkServerFinish "dev-1" "cred-1" "controller" "en" 1 (Some "c2VjcmV0"%string)).
Proof.
  apply (server_finish_roundtrip (mkServerFinish "dev-1" "cred-1" "controller" "en" 1 (Some "c2VjcmV0"%string))).
  split_and!; try reflexivity. unfold is_u64, u64_max. simpl. lia.
Defined.

End E2eeHandshake.
