(* ===== verification/DeviceStore.v ===== *)
(** * Device credentials and invitations — [lerdr-relay/src/{auth,store}.rs]

    The in-memory document of the device store and every operation on it, with
    an abstract byte source for minted ids and secrets and an abstract
    persistence step.  Times are Unix milliseconds. *)

From S2P Require Import Prelude Utf8 E2eeCodec E2eeHandshake.
Import Utf8 E2eeCodec E2eeHandshake.

Module DeviceStore.

(** ** [auth.rs] *)

Inductive Role := Controller | Reader.

#[export] Instance Role_eq_dec : EqDecision Role.
Proof. solve_decision. Defined.

Definition role_as_str (r : Role) : string :=
  match r with Controller => "controller" | Reader => "reader" end.

Record AuthenticatedIdentity := mkIdentity {
  id_device : string;
  id_credential : string;
  id_role : Role;
  id_locale : string;
  id_version : Z;
}.

Definition identity_is_valid (i : AuthenticatedIdentity) : bool :=
  negb (bool_decide (id_device i = "")) && negb (bool_decide (id_credential i = "")) &&
  bool_decide (id_version i <> 0) && negb (bool_decide (id_locale i = ""))%string.

Record AuthOutcome := mkOutcome {
  identity : AuthenticatedIdentity;
  outcome_secret : option bytes;
}.

Record Credential := mkCredential {
  c_device_id : string;
  c_credential_id : string;
  c_name : string;
  c_role : Role;
  c_locale : string;
  c_paired_at_ms : Z;
  c_last_seen_at_ms : Z;
  c_version : Z;
  c_revoked : bool;
}.

Record IssuedInvitation := mkIssued {
  iss_id : string;
  iss_version : Z;
  iss_secret : string;
  iss_expires_at_ms : Z;
  iss_name : string;
  iss_role : Role;
  iss_locale : string;
}.

Record BootstrapRearm := mkRearm {
  rearm_secret : bytes;
  rearm_name : string;
}.

Inductive StoreError :=
| StoreIo | StoreJson | StoreSchema (v : Z) | StoreInvalid (msg : string).

Inductive AuthError :=
| Failed | Revoked | InvitationExpired | InvitationBurned | RateLimited | NotFound
| LastController | InvalidName | InvalidRole | InvalidLocale | Unsupported | Store (e : StoreError).

Definition is_rejected (e : AuthError) : bool :=
  match e with
  | Failed | Revoked | InvitationExpired | InvitationBurned => true
  | _ => false
  end.

(** ** [store.rs]: constants and text checks *)

Definition STORE_SCHEMA_VERSION : Z := 1.
Definition INVITATION_LIFETIME_MS : Z := 10 * 60 * 1000.
Definition MAX_INVITE_ATTEMPTS : Z := 5.
Definition BOOTSTRAP_INVITATION_ID : string := "bootstrap".
Definition MAX_NAME_BYTES : nat := 80.
Definition MAX_LOCALE_BYTES : nat := 32.
Definition IDENTIFIER_BYTES : nat := 18.

(** [char::is_control] (Cc). *)
Definition is_control (c : Z) : bool := in_range 0 0x1F c || in_range 0x7F 0x9F c.

(** [to_lowercase] as far as a comparison with "zh-cn" sees it: outside ASCII
    only U+212A and U+0130 lower to ASCII letters (k and i), which that tag does
    not contain. *)
Definition lower_char (c : Z) : Z := if decide (65 <= c <= 90) then c + 32 else c.

Definition starts_with (p s : list Z) : bool := bool_decide (take (length p) s = p).

Definition normalize_locale (value : string) : string :=
  let tag := (fun c => if decide (c = 95) then 45 else c) <$> (lower_char <$> chars (trim value)) in
  if bool_decide (tag = as_bytes "zh-cn") || starts_with (as_bytes "zh-cn-") tag then "zh-CN" else "en".

Definition valid_text (value : string) (max_bytes : nat) : bool :=
  negb (bool_decide (value = ""%string)) && bool_decide (String.length value <= max_bytes)%nat &&
  negb (existsb is_control (chars value)).

Definition validate_metadata (name role locale : string) : result AuthError (string * Role * string) :=
  let name := trim name in
  let locale := trim locale in
  if negb (valid_text name MAX_NAME_BYTES) then Err InvalidName
  else
    role ← (if decide (role = "controller") then Ok Controller
            else if decide (role = "reader") then Ok Reader else Err InvalidRole);
    if negb (valid_text locale MAX_LOCALE_BYTES) ||
       existsb (fun c => bool_decide (c = 32) || bool_decide (c = 47) || bool_decide (c = 92)) (chars locale)
    then Err InvalidLocale
    else Ok (name, role, locale).

(** ** The document *)

Record InvitationRec := mkInvitation {
  invitation_id : string;
  inv_version : Z;
  inv_secret : string;
  expires_at_ms : Z;
  inv_name : string;
  inv_role : Role;
  inv_locale : string;
  failed_attempts : Z;
  next_attempt_at_ms : Z;
  pending_credential_id : string;
}.

Definition issued (i : InvitationRec) : IssuedInvitation :=
  mkIssued (invitation_id i) (inv_version i) (inv_secret i) (expires_at_ms i) (inv_name i) (inv_role i) (inv_locale i).

Record CredentialRecord := mkRecord {
  credential : Credential;
  secret : string;
}.

Record AuthState := mkState {
  schema_version : Z;
  invitation : option InvitationRec;
  credentials : list CredentialRecord;
  rearm_bootstrap : bool;
}.

Definition default_state : AuthState := mkState STORE_SCHEMA_VERSION None [] false.

Definition set_invitation (st : AuthState) (i : option InvitationRec) : AuthState :=
  mkState (schema_version st) i (credentials st) (rearm_bootstrap st).
Definition set_credentials (st : AuthState) (l : list CredentialRecord) : AuthState :=
  mkState (schema_version st) (invitation st) l (rearm_bootstrap st).

Definition with_expiry (i : InvitationRec) (t : Z) : InvitationRec :=
  mkInvitation (invitation_id i) (inv_version i) (inv_secret i) t (inv_name i) (inv_role i) (inv_locale i)
    (failed_attempts i) (next_attempt_at_ms i) (pending_credential_id i).
Definition with_attempts (i : InvitationRec) (n t : Z) : InvitationRec :=
  mkInvitation (invitation_id i) (inv_version i) (inv_secret i) (expires_at_ms i) (inv_name i) (inv_role i) (inv_locale i)
    n t (pending_credential_id i).
Definition with_pending (i : InvitationRec) (c : string) : InvitationRec :=
  mkInvitation (invitation_id i) (inv_version i) (inv_secret i) (expires_at_ms i) (inv_name i) (inv_role i) (inv_locale i)
    (failed_attempts i) (next_attempt_at_ms i) c.

Definition identity_of (c : Credential) : AuthenticatedIdentity :=
  mkIdentity (c_device_id c) (c_credential_id c) (c_role c) (c_locale c) (c_version c).

Definition has_id (cid : string) (r : CredentialRecord) : Prop := c_credential_id (credential r) = cid.

#[export] Instance has_id_dec cid r : Decision (has_id cid r).
Proof. unfold has_id. apply _. Defined.

Section Store.
Context `{Base64}.
(** The byte source: a state and a draw of n bytes. *)
Context {F : Type} (fill : F -> nat -> F * bytes).

Definition credential_index (st : AuthState) (cid : string) : option nat :=
  fst <$> list_find (has_id cid) (credentials st).

Definition decode_secret (encoded : string) : result AuthError bytes :=
  ok_or (b ← b64_decode encoded; if decide (length b = SECRET_BYTES) then Some b else None) Failed.

(** *** Resolving a selector to its secret *)

Definition resolve_invitation (st : AuthState) (sel : AuthSelector) (now_ms : Z)
    : AuthState * result AuthError bytes * bool :=
  match invitation st with
  | None => (st, Err Failed, false)
  | Some record =>
      if decide (invitation_id record <> id sel \/ inv_version record <> sel_version sel) then (st, Err Failed, false)
      else
        let after (st : AuthState) (record : InvitationRec) (mutated : bool) :=
          if decide (MAX_INVITE_ATTEMPTS <= failed_attempts record) then (st, Err InvitationBurned, mutated)
          else if decide (now_ms < next_attempt_at_ms record) then (st, Err RateLimited, mutated)
          else (st, decode_secret (inv_secret record), mutated) in
        if decide (expires_at_ms record <= now_ms) then
          if decide (invitation_id record = BOOTSTRAP_INVITATION_ID /\
                     (credentials st = [] \/ rearm_bootstrap st = true))
          then let record := with_expiry record (now_ms + INVITATION_LIFETIME_MS) in
               after (set_invitation st (Some record)) record true
          else (set_invitation st None, Err InvitationExpired, true)
        else after st record false
  end.

Definition resolve_credential (st : AuthState) (sel : AuthSelector) : result AuthError bytes :=
  match credential_index st (id sel) ≫= fun i => credentials st !! i with
  | None => Err Failed
  | Some record =>
      if c_revoked (credential record) then Err Revoked
      else if decide (c_version (credential record) <> sel_version sel) then Err Failed
      else decode_secret (secret record)
  end.

Definition resolve (st : AuthState) (sel : AuthSelector) (now_ms : Z) : AuthState * result AuthError bytes * bool :=
  match kind sel with
  | Invitation => resolve_invitation st sel now_ms
  | E2eeHandshake.Credential => (st, resolve_credential st sel, false)
  end.

(** *** Completing an authentication *)

Definition record_failed_invitation (st : AuthState) (sel : AuthSelector) (now_ms : Z)
    : AuthState * result AuthError AuthOutcome * bool :=
  match invitation st with
  | None => (st, Err Failed, false)
  | Some record =>
      if decide (invitation_id record <> id sel \/ inv_version record <> sel_version sel) then (st, Err Failed, false)
      else if decide (invitation_id record = BOOTSTRAP_INVITATION_ID) then (st, Err Failed, false)
      else if decide (expires_at_ms record <= now_ms) then (set_invitation st None, Err InvitationExpired, true)
      else
        let attempts := failed_attempts record + 1 in
        if decide (MAX_INVITE_ATTEMPTS <= attempts) then (set_invitation st None, Err InvitationBurned, true)
        else
          let record := with_attempts record attempts (now_ms + Z.shiftl 1000 (attempts - 1)) in
          (set_invitation st (Some record), Err Failed, true)
  end.

(** [unique_id]: up to eight draws. *)
Fixpoint unique_id_loop (n : nat) (st : AuthState) (device : bool) (rng : F) : F * option string :=
  match n with
  | O => (rng, None)
  | S n' =>
      let '(rng, raw) := fill rng IDENTIFIER_BYTES in
      let candidate := b64_encode raw in
      let taken := if device
                   then existsb (fun r => bool_decide (c_device_id (credential r) = candidate)) (credentials st)
                   else bool_decide (is_Some (credential_index st candidate)) in
      if negb taken then (rng, Some candidate) else unique_id_loop n' st device rng
  end.

Definition unique_id (st : AuthState) (device : bool) (rng : F) : F * option string :=
  unique_id_loop 8 st device rng.

Definition issued_outcome (record : CredentialRecord) : result AuthError AuthOutcome :=
  s ← decode_secret (secret record);
  Ok (mkOutcome (identity_of (credential record)) (Some s)).

Definition redeem_invitation (st : AuthState) (sel : AuthSelector) (now_ms : Z) (rng : F)
    : F * AuthState * result AuthError AuthOutcome * bool :=
  match invitation st with
  | None => (rng, st, Err Failed, false)
  | Some record =>
      if decide (invitation_id record <> id sel \/ inv_version record <> sel_version sel) then (rng, st, Err Failed, false)
      else if decide (expires_at_ms record <= now_ms) then (rng, set_invitation st None, Err InvitationExpired, true)
      else
        let pending := pending_credential_id record in
        if decide (pending <> ""%string) then
          let res := match credential_index st pending ≫= fun i => credentials st !! i with
                     | Some r => issued_outcome r
                     | None => Err Failed
                     end in
          (rng, st, res, false)
        else
          let '(rng, device_id) := unique_id st true rng in
          let '(rng, credential_id) := unique_id st false rng in
          let '(rng, raw) := fill rng SECRET_BYTES in
          match device_id, credential_id with
          | Some device_id, Some credential_id =>
              let c := mkCredential device_id credential_id (inv_name record) (inv_role record)
                         (normalize_locale (locale sel)) now_ms now_ms 1 false in
              let st1 := set_credentials st (credentials st ++ [mkRecord c (b64_encode raw)]) in
              let st2 := set_invitation st1 (Some (with_pending record credential_id)) in
              (rng, st2, Ok (mkOutcome (identity_of c) (Some raw)), true)
          | _, _ => (rng, st, Err Failed, false)
          end
  end.

Definition refresh (c : Credential) (now_ms : Z) (loc : string) : Credential :=
  mkCredential (c_device_id c) (c_credential_id c) (c_name c) (c_role c) loc (c_paired_at_ms c) now_ms
    (c_version c) (c_revoked c).

(** Drop the invitation pending on [cid]. *)
Definition drop_pending (st : AuthState) (cid : string) : AuthState :=
  match invitation st with
  | Some i => if decide (pending_credential_id i = cid) then set_invitation st None else st
  | None => st
  end.

Definition complete_credential (st : AuthState) (sel : AuthSelector) (now_ms : Z)
    : AuthState * result AuthError AuthOutcome :=
  match credential_index st (id sel) with
  | None => (st, Err Failed)
  | Some index =>
      match credentials st !! index with
      | None => (st, Err Failed)
      | Some record =>
          if c_revoked (credential record) || bool_decide (c_version (credential record) <> sel_version sel)
          then (st, Err Failed)
          else
            let c := refresh (credential record) now_ms (normalize_locale (locale sel)) in
            let st1 := set_credentials st (<[index := mkRecord c (secret record)]> (credentials st)) in
            (drop_pending st1 (c_credential_id c), Ok (mkOutcome (identity_of c) None))
      end
  end.

Definition complete (st : AuthState) (sel : AuthSelector) (authenticated : bool) (now_ms : Z) (rng : F)
    : F * AuthState * result AuthError AuthOutcome * bool :=
  if negb authenticated then
    match kind sel with
    | Invitation => let '(st', r, m) := record_failed_invitation st sel now_ms in (rng, st', r, m)
    | E2eeHandshake.Credential => (rng, st, Err Failed, false)
    end
  else
    match kind sel with
    | Invitation => redeem_invitation st sel now_ms rng
    | E2eeHandshake.Credential => let '(st', r) := complete_credential st sel now_ms in (rng, st', r, is_ok r)
    end.

(** *** Administration *)

Definition authorize (st : AuthState) (cid : string) (version : Z) : option Credential :=
  i ← credential_index st cid;
  record ← credentials st !! i;
  if c_revoked (credential record) || bool_decide (c_version (credential record) <> version) then None
  else Some (credential record).

Definition list_credentials (st : AuthState) : list Credential := credential <$> credentials st.

Definition with_name (c : Credential) (n : string) : Credential :=
  mkCredential (c_device_id c) (c_credential_id c) n (c_role c) (c_locale c) (c_paired_at_ms c) (c_last_seen_at_ms c)
    (c_version c) (c_revoked c).

Definition rename (st : AuthState) (cid name : string) : AuthState * result AuthError Credential * bool :=
  let name := trim name in
  if negb (valid_text name MAX_NAME_BYTES) then (st, Err InvalidName, false)
  else match credential_index st cid with
  | None => (st, Err NotFound, false)
  | Some index =>
      match credentials st !! index with
      | None => (st, Err NotFound, false)
      | Some record =>
          let c := with_name (credential record) name in
          (set_credentials st (<[index := mkRecord c (secret record)]> (credentials st)), Ok c, true)
      end
  end.

Definition active (r : CredentialRecord) : bool :=
  negb (c_revoked (credential r)) && bool_decide (c_role (credential r) = Controller).

Definition active_controllers (st : AuthState) : nat := length (filter (fun r => active r = true) (credentials st)).

(** [u64] increment of the version. *)
Definition tombstone (r : CredentialRecord) : CredentialRecord :=
  if c_revoked (credential r) then r
  else
    let c := credential r in
    mkRecord (mkCredential (c_device_id c) (c_credential_id c) (c_name c) (c_role c) (c_locale c) (c_paired_at_ms c)
                (c_last_seen_at_ms c) ((c_version c + 1) mod 2 ^ 64) true) "".

Definition revoke (st : AuthState) (cid : string) : AuthState * result AuthError Credential * bool :=
  match credential_index st cid with
  | None => (st, Err NotFound, false)
  | Some index =>
      match credentials st !! index with
      | None => (st, Err NotFound, false)
      | Some record =>
          if active record && bool_decide (active_controllers st = 1%nat) then (st, Err LastController, false)
          else
            let record' := tombstone record in
            let st1 := set_credentials st (<[index := record']> (credentials st)) in
            (drop_pending st1 cid, Ok (credential record'), true)
      end
  end.

Definition create (st : AuthState) (name role locale : string) (now_ms : Z) (rng : F)
    : F * AuthState * result AuthError InvitationRec * bool :=
  match validate_metadata name role locale with
  | Err e => (rng, st, Err e, false)
  | Ok (name, role, locale) =>
      let '(rng, raw_id) := fill rng IDENTIFIER_BYTES in
      let '(rng, raw) := fill rng SECRET_BYTES in
      let inv := mkInvitation (b64_encode raw_id) 1 (b64_encode raw) (now_ms + INVITATION_LIFETIME_MS)
                   name role locale 0 0 "" in
      (rng, set_invitation st (Some inv), Ok inv, true)
  end.

Definition reset (st : AuthState) (rearm : option BootstrapRearm) (locale : string) (now_ms : Z)
    : AuthState * result AuthError unit * bool :=
  let inv := match rearm with
             | Some rearm =>
                 '(name, _, locale) ← validate_metadata (rearm_name rearm) "controller" locale;
                 Ok (Some (mkInvitation BOOTSTRAP_INVITATION_ID 1 (b64_encode (rearm_secret rearm))
                             (now_ms + INVITATION_LIFETIME_MS) name Controller locale 0 0 ""))
             | None => Ok None
             end in
  match inv with
  | Err e => (st, Err e, false)
  | Ok inv => (mkState STORE_SCHEMA_VERSION inv [] (rearm_bootstrap st), Ok tt, true)
  end.

(** The two verbatim writes of [FileAuthStore], neither of which checks
    anything. *)
Definition add_credential (st : AuthState) (c : Credential) (s : string) : AuthState * result AuthError unit * bool :=
  (set_credentials st (credentials st ++ [mkRecord c s]), Ok tt, true).
Definition install_invitation (st : AuthState) (i : InvitationRec) : AuthState * result AuthError unit * bool := (set_invitation st (Some i), Ok tt, true).

(** [mint_invitation] of the relay binary: the relay key, or a fresh secret. *)
Definition mint_invitation (label : string) (token : option bytes) (now_ms : Z) (rng : F) : F * InvitationRec :=
  let '(rng, id, s) := match token with
                       | Some t => (rng, BOOTSTRAP_INVITATION_ID, b64_encode t)
                       | None => let '(rng, raw_id) := fill rng IDENTIFIER_BYTES in let '(rng, raw) := fill rng SECRET_BYTES in (rng, b64_encode raw_id, b64_encode raw)
                       end in
  (rng, mkInvitation id 1 s (now_ms + INVITATION_LIFETIME_MS) label Controller "en" 0 0 "").
Definition arm_invitation (st : AuthState) (label : string) (token : option bytes) (now_ms : Z) (rng : F) : F * AuthState * result AuthError unit * bool :=
  let '(rng, i) := mint_invitation label token now_ms rng in let '(st, r, m) := install_invitation st i in (rng, st, r, m).

(** *** Loading and persisting *)

Definition scrub_record (r : CredentialRecord) : CredentialRecord :=
  if c_revoked (credential r) then mkRecord (credential r) "" else r.

Definition scrub_revoked_secrets (st : AuthState) : AuthState * nat :=
  (set_credentials st (scrub_record <$> credentials st),
   length (filter (fun r => c_revoked (credential r) = true /\ secret r <> ""%string) (credentials st))).

Fixpoint validate_credentials (devices creds : gset string) (l : list CredentialRecord) : result StoreError unit :=
  match l with
  | [] => Ok tt
  | r :: rest =>
      let c := credential r in
      if decide (c_device_id c = "" \/ c_credential_id c = "" \/ c_version c = 0)%string
      then Err (StoreInvalid "credential identity is incomplete")
      else if decide (c_device_id c ∈ devices \/ c_credential_id c ∈ creds)
      then Err (StoreInvalid "duplicate device or credential identifier")
      else
        let next := validate_credentials ({[c_device_id c]} ∪ devices) ({[c_credential_id c]} ∪ creds) rest in
        if c_revoked c then
          if decide (secret r <> ""%string) then Err (StoreInvalid "revoked credential retains a secret") else next
        else if negb (is_ok (decode_secret (secret r))) then Err (StoreInvalid "credential secret is invalid")
        else next
  end.

Definition validate (st : AuthState) : result StoreError unit :=
  _ ← validate_credentials ∅ ∅ (credentials st);
  match invitation st with
  | None => Ok tt
  | Some inv =>
      if decide (invitation_id inv = ""%string \/ inv_version inv = 0) then Err (StoreInvalid "invitation identity is invalid")
      else if negb (is_ok (decode_secret (inv_secret inv))) then Err (StoreInvalid "invitation secret is invalid")
      else if decide (MAX_INVITE_ATTEMPTS <= failed_attempts inv) then Err (StoreInvalid "invitation attempt count is invalid")
      else Ok tt
  end.

(** What [FileAuthStore::open] does with the parsed document; that it refuses a
    file above [MAX_STORE_BYTES] before parsing it is left out. *)
Definition load (parsed : AuthState) : result StoreError AuthState :=
  if decide (schema_version parsed <> STORE_SCHEMA_VERSION) then Err (StoreSchema (schema_version parsed))
  else
    let st := (scrub_revoked_secrets parsed).1 in
    _ ← validate st; Ok st.

(** [transact]: a failed persist replaces the result; the state keeps the
    change. *)
Definition transact {T} (persist : option (AuthState -> result StoreError unit))
    (out : AuthState * result AuthError T * bool) : AuthState * result AuthError T :=
  let '(st', res, mutated) := out in
  if mutated then
    match persist with
    | Some p => match p st' with Err e => (st', Err (Store e)) | Ok _ => (st', res) end
    | None => (st', res)
    end
  else (st', res).

End Store.

End DeviceStore.
