(* ===== verification/DeviceStoreInvariant.v ===== *)
(** * Device store: invariant and properties

    What the persisted-schema check accepts, that every operation keeps it, and
    the promises built on it: tombstones are final, a controller always remains,
    an invitation burns after five wrong proofs and yields one credential. *)

From S2P Require Import Prelude Utf8 E2eeCodec E2eeHandshake DeviceStore.
Import Utf8 E2eeCodec E2eeInstances E2eeHandshake DeviceStore.

Module DeviceStoreInvariant.

Abbreviation did := (fun r => c_device_id (credential r)).
Abbreviation cid_of := (fun r => c_credential_id (credential r)).

(** ** Operations as data *)

Inductive op :=
| OpResolve (sel : AuthSelector) (now_ms : Z)
| OpComplete (sel : AuthSelector) (authenticated : bool) (now_ms : Z)
| OpRename (cid name : string)
| OpRevoke (cid : string)
| OpCreate (name role locale : string) (now_ms : Z)
| OpReset (rearm : option BootstrapRearm) (locale : string) (now_ms : Z)
| OpArm (label : string) (token : option bytes) (now_ms : Z)
| OpSetInvitation (i : InvitationRec)
| OpAddCredential (c : Credential) (s : string).

Definition is_reset (o : op) : bool := match o with OpReset _ _ _ => true | _ => false end.

Definition op_ok (o : op) : Prop :=
  match o with
  | OpReset (Some r) _ _ => length (rearm_secret r) = SECRET_BYTES /\ Forall is_u8 (rearm_secret r)
  | OpArm _ (Some t) _ => length t = SECRET_BYTES /\ Forall is_u8 t
  | _ => True
  end.

Section Invariant.
Context `{Base64Laws}.
Context {F : Type} (fill : F -> nat -> F * bytes).
Hypothesis fill_ok : forall f n, length (fill f n).2 = n /\ Forall is_u8 (fill f n).2.

(** The state after one operation, whatever its result. *)
Definition run_op (s : F * AuthState) (o : op) : F * AuthState :=
  let '(rng, st) := s in
  match o with
  | OpResolve sel now_ms => (rng, (resolve st sel now_ms).1.1)
  | OpComplete sel auth now_ms => (complete fill st sel auth now_ms rng).1.1
  | OpRename cid name => (rng, (rename st cid name).1.1)
  | OpRevoke cid => (rng, (revoke st cid).1.1)
  | OpCreate name role locale now_ms => (create fill st name role locale now_ms rng).1.1
  | OpReset rearm locale now_ms => (rng, (reset st rearm locale now_ms).1.1)
  | OpArm label token now_ms => (arm_invitation fill st label token now_ms rng).1.1
  | OpSetInvitation i => (rng, (install_invitation st i).1.1)
  | OpAddCredential c s => (rng, (add_credential st c s).1.1)
  end.

Definition run (s : F * AuthState) (os : list op) : F * AuthState := foldl run_op s os.

(** ** What [validate] accepts *)

Definition secret_ok (s : string) : Prop := exists b, decode_secret s = Ok b.

Definition record_ok (r : CredentialRecord) : Prop :=
  (did r <> "" /\ cid_of r <> "" /\ c_version (credential r) <> 0)%string /\
  (if c_revoked (credential r) then secret r = ""%string else secret_ok (secret r)).

Definition invitation_ok (i : InvitationRec) : Prop :=
  (invitation_id i <> "")%string /\ inv_version i <> 0 /\ secret_ok (inv_secret i) /\
  failed_attempts i < MAX_INVITE_ATTEMPTS.

Definition state_ok (st : AuthState) : Prop :=
  Forall record_ok (credentials st) /\ NoDup (did <$> credentials st) /\ NoDup (cid_of <$> credentials st) /\
  (forall i, invitation st = Some i -> invitation_ok i).

Lemma secret_ok_iff s : is_ok (decode_secret s) = true <-> secret_ok s.
Proof. unfold secret_ok. destruct (decode_secret s) as [b|e]; simpl; split; eauto; [done|]. intros [b ?]. done. Qed.

Lemma validate_credentials_iff devices creds l :
  validate_credentials devices creds l = Ok tt <->
  Forall record_ok l /\ NoDup (did <$> l) /\ NoDup (cid_of <$> l) /\
  Forall (fun r => did r ∉ devices /\ cid_of r ∉ creds) l.
Proof.
  revert devices creds. induction l as [|r l IH]; intros devices creds; cbn [validate_credentials].
  { split; [|done]. intros _. split_and!; constructor. }
  rewrite !fmap_cons, !NoDup_cons, !Forall_cons.
  assert (Hstep : validate_credentials ({[did r]} ∪ devices) ({[cid_of r]} ∪ creds) l = Ok tt <->
    Forall record_ok l /\ NoDup (did <$> l) /\ NoDup (cid_of <$> l) /\
    Forall (fun x => did x ∉ devices /\ cid_of x ∉ creds) l /\ did r ∉ did <$> l /\ cid_of r ∉ cid_of <$> l).
  { rewrite IH. split.
    - intros (A & B & C & D). rewrite Forall_forall in D. split_and!; try done.
      + apply Forall_forall. intros x Hx. destruct (D x Hx). set_solver.
      + rewrite list_elem_of_fmap. intros (x & E & Hx). destruct (D x Hx) as [D1 _]. apply D1. rewrite E. set_solver.
      + rewrite list_elem_of_fmap. intros (x & E & Hx). destruct (D x Hx) as [_ D2]. apply D2. rewrite E. set_solver.
    - intros (A & B & C & D & E1 & E2). rewrite Forall_forall in D. split_and!; try done.
      apply Forall_forall. intros x Hx. destruct (D x Hx) as [D1 D2]. rewrite !elem_of_union, !elem_of_singleton.
      split; intros [Heq|?]; try done; [apply E1|apply E2]; rewrite <- Heq; apply list_elem_of_fmap; by exists x. }
  unfold record_ok at 1. case_decide as H1; [split; [done|tauto]|].
  case_decide as H2; [split; [done|tauto]|].
  destruct (c_revoked (credential r)).
  - case_decide as H3; [split; [done|]; intuition congruence|]. rewrite Hstep. tauto.
  - destruct (is_ok (decode_secret (secret r))) eqn:Hs; cbn [negb].
    + apply secret_ok_iff in Hs. rewrite Hstep. tauto.
    + split; [done|]. intros (((_ & Hok) & _) & _). apply secret_ok_iff in Hok. congruence.
Qed.

Lemma validate_iff st : validate st = Ok tt <-> state_ok st.
Proof.
  unfold validate, state_ok.
  destruct (validate_credentials ∅ ∅ (credentials st)) as [[]|e] eqn:Hv; cbn [mbind result_bind].
  - apply validate_credentials_iff in Hv as (H1 & H2 & H3 & _).
    destruct (invitation st) as [i|]; [|split; [|done]; intros _; split_and!; done].
    transitivity (invitation_ok i); [|split; [intros Hi; split_and!; try done; by intros j [= <-]|by intros (_ & _ & _ & Hi); apply Hi]].
    unfold invitation_ok. rewrite <- secret_ok_iff.
    case_decide; [split; [done|tauto]|].
    destruct (is_ok (decode_secret (inv_secret i))); cbn [negb]; [|split; [done|]; intros (_ & _ & ? & _); done].
    case_decide; split; try done; [intros (_ & _ & _ & ?); lia|]. intros _. split_and!; [tauto|tauto|done|lia].
  - split; [done|]. intros (H1 & H2 & H3 & _). exfalso.
    assert (validate_credentials ∅ ∅ (credentials st) = Ok tt); [|congruence].
    apply validate_credentials_iff. split_and!; [done..|]. apply Forall_forall. intros r _. set_solver.
Qed.

(** ** The invariant *)

(** Versions fit in 64 bits, and a live one can still be bumped. *)
Definition version_ok (r : CredentialRecord) : Prop :=
  0 <= c_version (credential r) <= u64_max /\
  (c_revoked (credential r) = false -> c_version (credential r) < u64_max).

Definition store_inv (st : AuthState) : Prop := state_ok st /\ Forall version_ok (credentials st).

Lemma index_lookup st c i :
  credential_index st c = Some i -> exists r, credentials st !! i = Some r /\ cid_of r = c.
Proof.
  unfold credential_index. intros ([j r] & Hf & ->)%fmap_Some. apply list_find_Some in Hf as (Hl & Hid & _). by exists r.
Qed.

Lemma index_None st c : credential_index st c = None -> c ∉ cid_of <$> credentials st.
Proof.
  unfold credential_index. rewrite fmap_None, list_find_None, Forall_forall. intros Hn.
  rewrite list_elem_of_fmap. intros (r & -> & Hr). by apply (Hn r Hr).
Qed.

Lemma inv_set_invitation st o :
  store_inv st -> (forall i, o = Some i -> invitation_ok i) -> store_inv (set_invitation st o).
Proof. intros [(H1 & H2 & H3 & _) Hv] Ho. by split. Qed.

Lemma store_inv_update st i r r' :
  store_inv st -> credentials st !! i = Some r -> did r' = did r -> cid_of r' = cid_of r ->
  record_ok r' -> version_ok r' -> store_inv (set_credentials st (<[i := r']> (credentials st))).
Proof.
  intros [(H1 & H2 & H3 & H4) Hv] Hi Hd Hc Hr Hv'.
  assert (Hids : forall f : CredentialRecord -> string, f r' = f r -> f <$> <[i := r']> (credentials st) = f <$> credentials st).
  { intros f Hf. rewrite list_fmap_insert, Hf. apply list_insert_id. by rewrite list_lookup_fmap, Hi. }
  split; [split_and!; cbn [credentials set_credentials]|].
  - by apply Forall_insert.
  - rewrite (Hids did) by done. done.
  - rewrite (Hids cid_of) by done. done.
  - done.
  - by apply Forall_insert.
Qed.

Lemma inv_lookup st i r : store_inv st -> credentials st !! i = Some r -> record_ok r /\ version_ok r.
Proof. intros [(H1 & _) Hv] Hi. split; by eapply Forall_lookup_1. Qed.

Lemma inv_drop_pending st c : store_inv st -> store_inv (drop_pending st c).
Proof.
  intros Hinv. unfold drop_pending. destruct (invitation st); [|done]. case_decide; [|done]. by apply inv_set_invitation.
Qed.

Lemma fresh_secret_ok f : secret_ok (b64_encode (fill f SECRET_BYTES).2).
Proof.
  destruct (fill_ok f SECRET_BYTES) as [Hl Hu]. exists (fill f SECRET_BYTES).2.
  unfold decode_secret. rewrite b64_roundtrip by done. cbn [mbind option_bind]. by rewrite decide_True.
Qed.

Lemma b64_nonempty b : Forall is_u8 b -> b <> [] -> b64_encode b <> ""%string.
Proof. intros Hu Hb E. apply b64_roundtrip in Hu. rewrite E, b64_decode_empty in Hu. congruence. Qed.

Lemma fresh_id_nonempty f : b64_encode (fill f IDENTIFIER_BYTES).2 <> ""%string.
Proof.
  destruct (fill_ok f IDENTIFIER_BYTES) as [Hl Hu]. apply b64_nonempty; [done|].
  intros E. by rewrite E in Hl.
Qed.

Lemma unique_id_spec n st device rng rng' c :
  unique_id_loop fill n st device rng = (rng', Some c) ->
  c <> ""%string /\ (if device then c ∉ did <$> credentials st else c ∉ cid_of <$> credentials st).
Proof.
  revert rng. induction n as [|n IH]; intros rng; cbn [unique_id_loop]; [done|].
  destruct (fill rng IDENTIFIER_BYTES) as [rng1 raw] eqn:Hf.
  pose proof (fresh_id_nonempty rng) as Hne. rewrite Hf in Hne. simpl in Hne.
  set (taken := if device then _ else _). destruct taken eqn:Ht; cbn [negb]; [apply IH|].
  intros [= _ <-]. split; [done|]. unfold taken in Ht. destruct device.
  - rewrite list_elem_of_fmap. intros (r & E & Hr). apply not_true_iff_false in Ht. apply Ht.
    apply existsb_exists. exists r. split; [by apply list_elem_of_In|]. by apply bool_decide_eq_true_2.
  - apply bool_decide_eq_false in Ht. apply index_None. by apply eq_None_not_Some.
Qed.

Lemma resolve_inv st sel now_ms : store_inv st -> store_inv (resolve st sel now_ms).1.1.
Proof.
  intros Hinv. unfold resolve. destruct (kind sel); [done|]. unfold resolve_invitation.
  destruct (invitation st) as [i|] eqn:Hi; [|done]. case_decide; [done|].
  assert (Hok : invitation_ok i) by (by apply Hinv).
  case_decide; [case_decide|].
  - repeat case_decide; cbn [fst]; apply inv_set_invitation; try done; by intros j [= <-].
  - by apply inv_set_invitation.
  - repeat case_decide; done.
Qed.

Lemma record_failed_inv st sel now_ms : store_inv st -> store_inv (record_failed_invitation st sel now_ms).1.1.
Proof.
  intros Hinv. unfold record_failed_invitation. destruct (invitation st) as [i|] eqn:Hi; [|done].
  assert (Hok : invitation_ok i) by (by apply Hinv).
  repeat (case_decide; [done || by apply inv_set_invitation|]).
  apply inv_set_invitation; [done|]. intros j [= <-]. destruct Hok as (? & ? & ? & ?). split_and!; simpl; try done. lia.
Qed.

Lemma redeem_inv st sel now_ms rng : store_inv st -> store_inv (redeem_invitation fill st sel now_ms rng).1.1.2.
Proof.
  intros Hinv. unfold redeem_invitation. destruct (invitation st) as [i|] eqn:Hi; [|done].
  assert (Hok : invitation_ok i) by (by apply Hinv).
  case_decide; [done|]. case_decide; [by apply inv_set_invitation|]. case_decide; [done|].
  unfold unique_id. destruct (unique_id_loop fill 8 st true rng) as [rng1 [d|]] eqn:Hd;
    destruct (unique_id_loop fill 8 st false rng1) as [rng2 [c|]] eqn:Hc;
    destruct (fill rng2 SECRET_BYTES) as [rng3 raw] eqn:Hf; try done.
  apply unique_id_spec in Hd as [Hd0 Hd1]. apply unique_id_spec in Hc as [Hc0 Hc1].
  pose proof (fresh_secret_ok rng2) as Hs. rewrite Hf in Hs. simpl in Hs.
  destruct Hinv as [(HA & HB & HC & HD) Hv]. cbn [fst snd].
  apply inv_set_invitation; [|by intros j [= <-]].
  split; [split_and!; cbn [credentials set_credentials]|].
  - apply Forall_app. split; [done|]. apply Forall_singleton. split; [|done]. split_and!; simpl; done.
  - rewrite fmap_app. apply NoDup_app. split_and!; [done| |by apply NoDup_singleton]. set_solver.
  - rewrite fmap_app. apply NoDup_app. split_and!; [done| |by apply NoDup_singleton]. set_solver.
  - done.
  - apply Forall_app. split; [done|]. apply Forall_singleton. split; simpl; unfold u64_max; lia.
Qed.

(** The record an operation addresses: its index [i] and value [r]; the
    operation fails without one. *)
Tactic Notation "find_record" constr(c) ident(r) ident(Hr) :=
  let i := fresh "i" in
  destruct (credential_index _ c) as [i|]; [|done];
  destruct (credentials _ !! i) as [r|] eqn:Hr; [|done].

Lemma complete_credential_inv st sel now_ms : store_inv st -> store_inv (complete_credential st sel now_ms).1.
Proof.
  intros Hinv. unfold complete_credential. find_record (id sel) r Hr. case_match; [done|]. cbn [fst].
  destruct (inv_lookup st i r Hinv Hr) as [[Hid Hsec] Hv]. apply inv_drop_pending. by eapply store_inv_update.
Qed.

Lemma complete_inv st sel auth now_ms rng : store_inv st -> store_inv (complete fill st sel auth now_ms rng).1.1.2.
Proof.
  intros Hinv. unfold complete. destruct auth, (kind sel); cbn [negb].
  - pose proof (complete_credential_inv st sel now_ms Hinv). by destruct (complete_credential st sel now_ms).
  - by apply redeem_inv.
  - done.
  - pose proof (record_failed_inv st sel now_ms Hinv). by destruct (record_failed_invitation st sel now_ms) as [[? ?] ?].
Qed.

Lemma rename_inv st c name : store_inv st -> store_inv (rename st c name).1.1.
Proof.
  intros Hinv. unfold rename. case_match; [done|]. find_record c r Hr. destruct (inv_lookup st i r Hinv Hr) as [[Hid Hsec] Hv].
  by eapply store_inv_update.
Qed.

Lemma tombstone_ids r : did (tombstone r) = did r /\ cid_of (tombstone r) = cid_of r.
Proof. unfold tombstone. by destruct (c_revoked (credential r)). Qed.

Lemma tombstone_ok r : record_ok r -> version_ok r -> record_ok (tombstone r) /\ version_ok (tombstone r).
Proof.
  intros [(Hd & Hc & Hv0) Hs] [Hv Hlt]. unfold tombstone. destruct (c_revoked (credential r)) eqn:E.
  - split; [split; [done|by rewrite E]|]. split; [done|congruence].
  - specialize (Hlt eq_refl). unfold u64_max in *. rewrite Z.mod_small by lia.
    split; [split; [split_and!; simpl; [done..|lia]|done]|]. split; simpl; [unfold u64_max; lia|done].
Qed.

Lemma revoke_inv st c : store_inv st -> store_inv (revoke st c).1.1.
Proof.
  intros Hinv. unfold revoke. find_record c r Hr. case_match; [done|]. cbn [fst].
  destruct (inv_lookup st i r Hinv Hr) as [Hok Hv]. destruct (tombstone_ok r Hok Hv) as [Hok' Hv'].
  apply inv_drop_pending. eapply store_inv_update; [done..| | | |]; try done; apply tombstone_ids.
Qed.

Lemma create_inv st name role loc now_ms rng : store_inv st -> store_inv (create fill st name role loc now_ms rng).1.1.2.
Proof.
  intros Hinv. unfold create. destruct (validate_metadata name role loc) as [[[n ro] l]|e]; [|done].
  destruct (fill rng IDENTIFIER_BYTES) as [rng1 raw_id] eqn:H1. destruct (fill rng1 SECRET_BYTES) as [rng2 raw] eqn:H2.
  pose proof (fresh_id_nonempty rng) as Hid. rewrite H1 in Hid. pose proof (fresh_secret_ok rng1) as Hs. rewrite H2 in Hs.
  cbn [fst snd] in *. apply inv_set_invitation; [done|]. intros j [= <-]. split_and!; simpl; try done.
Qed.

Lemma reset_inv st rearm loc now_ms : op_ok (OpReset rearm loc now_ms) -> store_inv st -> store_inv (reset st rearm loc now_ms).1.1.
Proof.
  intros Hr Hinv. unfold reset.
  assert (Hempty : forall o b, (forall i, o = Some i -> invitation_ok i) -> store_inv (mkState STORE_SCHEMA_VERSION o [] b)).
  { intros o b Ho. split; [|constructor]. split_and!; [constructor..|done]. }
  destruct rearm as [r|]; [|by apply Hempty].
  destruct (validate_metadata _ _ _) as [[[n ro] l]|e]; cbn [mbind result_bind]; [|done].
  apply Hempty. intros i [= <-]. destruct Hr as [Hl Hu]. split_and!; simpl; try done.
  exists (rearm_secret r). unfold decode_secret. rewrite b64_roundtrip by done. cbn [mbind option_bind]. by rewrite decide_True.
Qed.

(** The 32 bytes of a secret, encoded. *)
Lemma encoded_secret_ok b : length b = SECRET_BYTES -> Forall is_u8 b -> secret_ok (b64_encode b).
Proof. intros Hl Hu. exists b. unfold decode_secret. rewrite b64_roundtrip by done. cbn [mbind option_bind]. by rewrite decide_True. Qed.

Lemma arm_inv st label token now_ms rng : op_ok (OpArm label token now_ms) -> store_inv st -> store_inv (arm_invitation fill st label token now_ms rng).1.1.2.
Proof.
  intros Ht Hinv. unfold arm_invitation, mint_invitation. destruct token as [t|].
  - cbn [fst snd install_invitation]. apply inv_set_invitation; [done|]. intros j [= <-]. destruct Ht as [Hl Hu]. split_and!; cbn; try done. by apply encoded_secret_ok.
  - pose proof (fresh_id_nonempty rng) as Hid. destruct (fill rng IDENTIFIER_BYTES) as [rng1 raw_id]. pose proof (fresh_secret_ok rng1) as Hs. destruct (fill rng1 SECRET_BYTES) as [rng2 raw].
    cbn [fst snd install_invitation] in *. apply inv_set_invitation; [done|]. intros j [= <-]. by split_and!.
Qed.

(** What the verbatim writes leave to their callers: an invitation, or a
    credential, that the persisted-schema check accepts, with a version that can
    still be bumped and ids the store does not have. *)
Definition writes_ok (st : AuthState) (o : op) : Prop :=
  match o with
  | OpSetInvitation i => invitation_ok i
  | OpAddCredential c s => record_ok (mkRecord c s) /\ version_ok (mkRecord c s) /\ c_device_id c ∉ did <$> credentials st /\ c_credential_id c ∉ cid_of <$> credentials st
  | _ => True
  end.

Lemma add_credential_inv st c s : writes_ok st (OpAddCredential c s) -> store_inv st -> store_inv (add_credential st c s).1.1.
Proof.
  intros (Hr & Hv & Hd & Hc) [(HA & HB & HC & HD) HV]. cbn [add_credential fst]. split; [split_and!; cbn [credentials set_credentials]|].
  - apply Forall_app. split; [done|]. by apply Forall_singleton.
  - rewrite fmap_app. apply NoDup_app. split_and!; [done| |by apply NoDup_singleton]. set_solver.
  - rewrite fmap_app. apply NoDup_app. split_and!; [done| |by apply NoDup_singleton]. set_solver.
  - done.
  - apply Forall_app. split; [done|]. by apply Forall_singleton.
Qed.
Lemma install_inv st i : writes_ok st (OpSetInvitation i) -> store_inv st -> store_inv (install_invitation st i).1.1.
Proof. intros Hi Hinv. apply inv_set_invitation; [done|]. by intros j [= <-]. Qed.

#[local] Hint Resolve resolve_inv complete_inv rename_inv revoke_inv create_inv reset_inv arm_inv install_inv add_credential_inv : lerdr.

Lemma run_op_inv s o : op_ok o -> writes_ok s.2 o -> store_inv s.2 -> store_inv (run_op s o).2.
Proof. destruct s as [rng st]. intros Hok Hw Hinv. destruct o; cbn [run_op snd]; auto with lerdr. Qed.

(** The schema version is left alone, or made the current one. *)
Lemma drop_pending_schema st c : schema_version (drop_pending st c) = schema_version st.
Proof. unfold drop_pending. destruct (invitation st); [|done]. by case_decide. Qed.
Lemma run_op_schema s o : schema_version s.2 = STORE_SCHEMA_VERSION -> schema_version (run_op s o).2 = STORE_SCHEMA_VERSION.
Proof.
  destruct s as [rng st]. cbn [snd]. intros Hs. destruct o as [sel t|sel auth t|c' name|c'|n ro lo t|rearm lo t|label token t|i|c s]; cbn [run_op snd]; [..|done|done].
  - unfold resolve. destruct (kind sel); [done|]. unfold resolve_invitation. destruct (invitation st); [|done]. repeat case_decide; done.
  - unfold complete. destruct auth, (kind sel); cbn [negb].
    + unfold complete_credential. find_record (id sel) r Hi. destruct (c_revoked (credential r) || _); [done|]. cbn [fst snd]. by rewrite drop_pending_schema.
    + unfold redeem_invitation. destruct (invitation st); [|done]. do 3 (case_decide; [done|]). destruct (unique_id _ _ _ _) as [? [d|]], (unique_id _ _ _ _) as [? [d'|]], (fill _ _); done.
    + done.
    + unfold record_failed_invitation. destruct (invitation st); [|done]. repeat case_decide; done.
  - unfold rename. case_match; [done|]. find_record c' r Hi. done.
  - unfold revoke. find_record c' r Hi. case_match; [done|]. cbn [fst]. by rewrite drop_pending_schema.
  - unfold create. destruct (validate_metadata _ _ _) as [[[? ?] ?]|]; [|done]. destruct (fill rng _) as [? ?], (fill _ _). done.
  - unfold reset. destruct rearm; [|done]. destruct (validate_metadata _ _ _) as [[[? ?] ?]|]; done.
  - unfold arm_invitation, mint_invitation. destruct token; [done|]. destruct (fill rng _) as [? ?], (fill _ _). done.
Qed.

(** An accepted document of the current schema is loaded as it is. *)
Lemma load_accepted st : state_ok st -> schema_version st = STORE_SCHEMA_VERSION -> load st = Ok st.
Proof.
  intros Hst Hs. unfold load. rewrite decide_False by (by intros Hn; apply Hn). assert (E : (scrub_revoked_secrets st).1 = st).
  { unfold scrub_revoked_secrets. cbn [fst]. destruct st as [v i l r]. unfold set_credentials. cbn [schema_version invitation credentials rearm_bootstrap] in *. f_equal.
    destruct Hst as (Hr & _). cbn [credentials] in Hr. clear -Hr. induction Hr as [|x l [_ Hx] _ IH]; [done|]. rewrite fmap_cons, IH. f_equal. unfold scrub_record. destruct (c_revoked (credential x)); [|done]. destruct x. cbn in *. by subst. }
  cbv zeta. rewrite E. apply validate_iff in Hst. rewrite Hst. done.
Qed.

(** ** Looking records up *)

(** The index depends only on the sequence of credential ids. *)
Lemma index_by_ids st c :
  credential_index st c = fst <$> list_find (fun x => x = c) (cid_of <$> credentials st).
Proof.
  unfold credential_index. induction (credentials st) as [|r l IH]; [done|].
  rewrite fmap_cons. cbn [list_find]. unfold has_id at 1. case_decide as H1'; case_decide as H2'; try done.
  destruct (list_find (has_id c) l) as [[? ?]|], (list_find _ (cid_of <$> l)) as [[? ?]|]; simpl in *; congruence.
Qed.

Lemma index_update st i r r' c :
  credentials st !! i = Some r -> cid_of r' = cid_of r ->
  credential_index (set_credentials st (<[i := r']> (credentials st))) c = credential_index st c.
Proof.
  intros Hi Hc. rewrite !index_by_ids. cbn [credentials set_credentials].
  rewrite list_fmap_insert, Hc, list_insert_id; [done|]. by rewrite list_lookup_fmap, Hi.
Qed.

Lemma index_app st l c i :
  credential_index st c = Some i -> credential_index (set_credentials st (credentials st ++ l)) c = Some i.
Proof.
  unfold credential_index. cbn [credentials set_credentials]. intros ([j r] & Hf & ->)%fmap_Some.
  by rewrite (list_find_app_l _ _ _ _ _ Hf).
Qed.

Lemma index_fresh st r :
  cid_of r ∉ cid_of <$> credentials st ->
  credential_index (set_credentials st (credentials st ++ [r])) (cid_of r) = Some (length (credentials st)).
Proof.
  intros Hn. unfold credential_index. cbn [credentials set_credentials].
  assert (Hnone : list_find (has_id (cid_of r)) (credentials st) = None).
  { apply list_find_None, Forall_forall. intros x Hx E. apply Hn, list_elem_of_fmap. by exists x. }
  rewrite list_find_app_r by done. cbn [list_find]. by rewrite decide_True.
Qed.

(** ** Tombstones *)

Definition tombstoned (st : AuthState) (c : string) : Prop :=
  exists i r, credential_index st c = Some i /\ credentials st !! i = Some r /\ c_revoked (credential r) = true.

Lemma tombstoned_set_invitation st o c : tombstoned st c -> tombstoned (set_invitation st o) c.
Proof. done. Qed.

Lemma tombstoned_drop st c' c : tombstoned st c -> tombstoned (drop_pending st c') c.
Proof. intros Ht. unfold drop_pending. destruct (invitation st); [|done]. by case_decide. Qed.

Lemma tombstoned_update st i r r' c :
  credentials st !! i = Some r -> cid_of r' = cid_of r ->
  (c_revoked (credential r) = true -> c_revoked (credential r') = true) ->
  tombstoned st c -> tombstoned (set_credentials st (<[i := r']> (credentials st))) c.
Proof.
  intros Hi Hc Hrev (j & x & Hj & Hx & Hxr). destruct (decide (i = j)) as [<-|Hne].
  - rewrite Hi in Hx. injection Hx as <-. exists i, r'. split_and!.
    + by rewrite (index_update _ _ r).
    + cbn [credentials set_credentials]. apply list_lookup_insert_eq. by eapply lookup_lt_Some.
    + auto.
  - exists j, x. split_and!; [by rewrite (index_update _ _ r)| |done].
    cbn [credentials set_credentials]. by rewrite list_lookup_insert_ne.
Qed.

Lemma tombstoned_app st l c : tombstoned st c -> tombstoned (set_credentials st (credentials st ++ l)) c.
Proof.
  intros (j & x & Hj & Hx & Hxr). exists j, x. split_and!; [by apply index_app| |done].
  cbn [credentials set_credentials]. by apply lookup_app_l_Some.
Qed.

Lemma run_op_tombstoned s o c : is_reset o = false -> tombstoned s.2 c -> tombstoned (run_op s o).2 c.
Proof.
  destruct s as [rng st]. intros Hr Ht. destruct o as [sel t|sel auth t|c' name|c'|n ro lo t|? ? ?|label token t|i|c0 s]; [..|done| | |]; cbn [run_op snd] in *.
  - unfold resolve. destruct (kind sel); [done|]. unfold resolve_invitation. destruct (invitation st); [|done].
    repeat case_decide; done.
  - unfold complete. destruct auth, (kind sel); cbn [negb].
    + unfold complete_credential. find_record (id sel) r Hi. destruct (c_revoked (credential r) || _); [done|].
      by apply tombstoned_drop, (tombstoned_update _ _ r).
    + unfold redeem_invitation. destruct (invitation st); [|done]. do 3 (case_decide; [done|]).
      destruct (unique_id _ _ _ _) as [? [d|]], (unique_id _ _ _ _) as [? [d'|]], (fill _ _); try done.
      by apply tombstoned_set_invitation, tombstoned_app.
    + done.
    + unfold record_failed_invitation. destruct (invitation st); [|done]. repeat case_decide; done.
  - unfold rename. case_match; [done|]. find_record c' r Hi. by apply (tombstoned_update _ _ r).
  - unfold revoke. find_record c' r Hi. case_match; [done|].
    apply tombstoned_drop, (tombstoned_update _ _ r); [done|apply tombstone_ids| |done].
    intros Hrev. unfold tombstone. by rewrite Hrev.
  - unfold create. destruct (validate_metadata _ _ _) as [[[? ?] ?]|]; [|done].
    destruct (fill rng _) as [? ?], (fill _ _). done.
  - unfold arm_invitation, mint_invitation. destruct token; [done|]. destruct (fill rng _) as [? ?], (fill _ _). done.
  - done.
  - by apply tombstoned_app.
Qed.

(** What a tombstone means to the outside. *)
Lemma tombstoned_denied st c : tombstoned st c ->
  (forall v, authorize st c v = None) /\
  (forall sel t, kind sel = E2eeHandshake.Credential -> id sel = c ->
     resolve st sel t = (st, Err Revoked, false) /\
     forall rng, complete fill st sel true t rng = (rng, st, Err Failed, false)).
Proof.
  intros (i & r & Hi & Hr & Hrev). split.
  - intros v. unfold authorize. rewrite Hi. cbn [mbind option_bind]. rewrite Hr. cbn [mbind option_bind]. by rewrite Hrev.
  - intros sel t Hk Hid. split.
    + unfold resolve. rewrite Hk. unfold resolve_credential. rewrite Hid, Hi. cbn [mbind option_bind]. by rewrite Hr, Hrev.
    + intros rng. unfold complete. rewrite Hk. cbn [negb]. unfold complete_credential. by rewrite Hid, Hi, Hr, Hrev.
Qed.

Lemma revoke_tombstones st c st' cr m : revoke st c = (st', Ok cr, m) -> tombstoned st' c /\ c_revoked cr = true.
Proof.
  unfold revoke. destruct (credential_index st c) as [i|] eqn:Hi; [|done].
  destruct (credentials st !! i) as [r|] eqn:Hr; [|done]. case_match; [done|]. intros [= <- <- <-].
  assert (Hrev : c_revoked (credential (tombstone r)) = true) by (unfold tombstone; by destruct (c_revoked (credential r)) eqn:?).
  split; [|done]. apply tombstoned_drop. exists i, (tombstone r). split_and!.
  - by rewrite (index_update _ _ r) by (done || apply tombstone_ids).
  - cbn [credentials set_credentials]. apply list_lookup_insert_eq. by eapply lookup_lt_Some.
  - done.
Qed.

(** ** Controllers *)

Lemma filter_insert_count (P : CredentialRecord -> Prop) `{!forall r, Decision (P r)} l i r r' :
  l !! i = Some r ->
  (length (filter P (<[i := r']> l)) + (if decide (P r) then 1 else 0) =
   length (filter P l) + (if decide (P r') then 1 else 0))%nat.
Proof.
  intros Hi. pose proof (lookup_lt_Some _ _ _ Hi) as Hlt.
  rewrite insert_take_drop by done. rewrite <- (take_drop_middle l i r Hi) at 3.
  rewrite !filter_app, !filter_cons, !length_app. repeat case_decide; simpl; lia.
Qed.

Lemma active_controllers_update st i r r' :
  credentials st !! i = Some r -> active r' = active r ->
  active_controllers (set_credentials st (<[i := r']> (credentials st))) = active_controllers st.
Proof.
  intros Hi Ha. unfold active_controllers. cbn [credentials set_credentials].
  pose proof (filter_insert_count (fun x => active x = true) _ i r r' Hi) as Hc. cbn beta in Hc.
  repeat case_decide; first [lia|congruence].
Qed.

Lemma active_controllers_drop st c : active_controllers (drop_pending st c) = active_controllers st.
Proof. unfold drop_pending. destruct (invitation st); [|done]. by case_decide. Qed.

Lemma run_op_controllers s o :
  is_reset o = false -> (0 < active_controllers s.2)%nat -> (0 < active_controllers (run_op s o).2)%nat.
Proof.
  destruct s as [rng st]. intros Hr Ht. destruct o as [sel t|sel auth t|c' name|c'|n ro lo t|? ? ?|label token t|i|c0 s]; [..|done| | |]; cbn [run_op snd] in *.
  - unfold resolve. destruct (kind sel); [done|]. unfold resolve_invitation. destruct (invitation st); [|done].
    repeat case_decide; done.
  - unfold complete. destruct auth, (kind sel); cbn [negb].
    + unfold complete_credential. find_record (id sel) r Hi. destruct (c_revoked (credential r) || _); [done|].
      cbn [fst snd]. by rewrite active_controllers_drop, (active_controllers_update _ _ r).
    + unfold redeem_invitation. destruct (invitation st); [|done]. do 3 (case_decide; [done|]).
      destruct (unique_id _ _ _ _) as [? [d|]], (unique_id _ _ _ _) as [? [d'|]], (fill _ _); try done.
      cbn [fst snd]. unfold active_controllers in *. cbn [credentials set_credentials set_invitation].
      rewrite filter_app, length_app. lia.
    + done.
    + unfold record_failed_invitation. destruct (invitation st); [|done]. repeat case_decide; done.
  - unfold rename. case_match; [done|]. find_record c' r Hi. cbn [fst snd]. by rewrite (active_controllers_update _ _ r).
  - unfold revoke. find_record c' r Hi.
    destruct (active r) eqn:Ha; cbn [andb].
    + case_bool_decide as H1'; [done|]. cbn [fst snd]. rewrite active_controllers_drop. unfold active_controllers in *.
      cbn [credentials set_credentials].
      pose proof (filter_insert_count (fun x => active x = true) _ i r (tombstone r) Hi) as Hc. cbn beta in Hc.
      rewrite (decide_True (P := active r = true)) in Hc by done. lia.
    + cbn [fst snd]. rewrite active_controllers_drop, (active_controllers_update _ _ r); [done|done|].
      rewrite Ha. unfold tombstone. destruct (c_revoked (credential r)) eqn:E; [|done]. done.
  - unfold create. destruct (validate_metadata _ _ _) as [[[? ?] ?]|]; [|done].
    destruct (fill rng _) as [? ?], (fill _ _). done.
  - unfold arm_invitation, mint_invitation. destruct token; [done|]. destruct (fill rng _) as [? ?], (fill _ _). done.
  - done.
  - cbn [add_credential fst]. unfold active_controllers in *. cbn [credentials set_credentials]. rewrite filter_app, length_app. lia.
Qed.

Lemma run_ind (P : AuthState -> Prop) s os :
  (forall s o, o ∈ os -> P s.2 -> P (run_op s o).2) -> P s.2 -> P (run s os).2.
Proof.
  revert s. induction os as [|o os IH]; intros s Hstep Hs; [done|]. unfold run. cbn [foldl].
  apply IH; [intros s' o' Ho'; apply Hstep; by right|]. apply Hstep; [by left|done].
Qed.

(** ** Properties *)

(** The verbatim writes of a run are in order where they happen. *)
Definition all_writes_ok (s : F * AuthState) (os : list op) : Prop := forall n o, os !! n = Some o -> writes_ok (run s (take n os)).2 o.

Lemma run_store_inv s os : Forall op_ok os -> all_writes_ok s os -> store_inv s.2 -> store_inv (run s os).2.
Proof.
  revert s. induction os as [|o os IH]; intros s Hos Hw Hs; [done|]. apply Forall_cons in Hos as [Ho Hos]. unfold run. cbn [foldl]. apply IH; [done| |apply run_op_inv; [done|exact (Hw 0%nat o eq_refl)|done]].
  intros n o' Hn. exact (Hw (S n) o' Hn).
Qed.
Lemma run_schema s os : schema_version s.2 = STORE_SCHEMA_VERSION -> schema_version (run s os).2 = STORE_SCHEMA_VERSION.
Proof. apply (run_ind (fun st => schema_version st = STORE_SCHEMA_VERSION)). intros s' o _. apply run_op_schema. Qed.

(** C33 — The store never corrupts itself.  Start from a document the loader
    accepts whose versions fit in 64 bits and leave room for one more (the check
    takes 2^64-1 too, and [last_version_breaks_the_store] revokes such a
    credential).  Then after any sequence of resolves, completions, renames,
    revocations, invitations, resets, re-armings and verbatim writes, whatever
    selectors and times they carry, the document still passes the
    persisted-schema check and is loaded as it is, provided that its text is
    within the size the loader reads; relay keys are 32 bytes, and what is
    written verbatim is itself acceptable and brings new ids. *)
Theorem store_stays_loadable (rng : F) (st : AuthState) (os : list op) :
  validate st = Ok tt -> schema_version st = STORE_SCHEMA_VERSION -> Forall version_ok (credentials st) -> Forall op_ok os -> all_writes_ok (rng, st) os ->
  let st' := (run (rng, st) os).2 in validate st' = Ok tt /\ load st' = Ok st'.
Proof.
  intros Hv Hs Hver Hos Hw st'. apply validate_iff in Hv. assert (Hok : state_ok st') by (apply (run_store_inv (rng, st) os Hos Hw); by split).
  split; [by apply validate_iff|]. apply load_accepted; [done|]. by apply run_schema.
Qed.

(** C34 — revocation is final: once a credential is revoked, no later sequence of
    operations short of a full reset lets it act again; every authorization of
    it is refused, whatever version is claimed, and every handshake with it ends
    in an error that tells the device to stop. *)
Theorem revocation_is_final (rng : F) (st st' : AuthState) (c : string) (cr : Credential) (m : bool) (os : list op) :
  revoke st c = (st', Ok cr, m) -> Forall (fun o => is_reset o = false) os ->
  let after := (run (rng, st') os).2 in
  (forall v, authorize after c v = None) /\
  (forall sel t, kind sel = E2eeHandshake.Credential -> id sel = c ->
     resolve after sel t = (after, Err Revoked, false) /\
     forall rng', complete fill after sel true t rng' = (rng', after, Err Failed, false)).
Proof.
  intros Hrev Hos after. apply tombstoned_denied. apply revoke_tombstones in Hrev as [Ht _].
  apply (run_ind (fun st => tombstoned st c) (rng, st') os); [|done].
  intros s o Ho. apply run_op_tombstoned. rewrite Forall_forall in Hos. by apply Hos.
Qed.

(** The relay stays manageable: while at least one unrevoked controller is
    enrolled, no sequence of operations short of a full reset can remove the
    last one, whichever credentials it tries to revoke. *)
Theorem a_controller_remains (rng : F) (st : AuthState) (os : list op) :
  (0 < active_controllers st)%nat -> Forall (fun o => is_reset o = false) os ->
  (0 < active_controllers (run (rng, st) os).2)%nat.
Proof.
  intros Hc Hos. apply (run_ind (fun st => 0 < active_controllers st)%nat (rng, st) os); [|done].
  intros s o Ho. apply run_op_controllers. rewrite Forall_forall in Hos. by apply Hos.
Qed.

(** *** Wrong proofs *)

Definition wrong_proofs (st : AuthState) (sel : AuthSelector) (ts : list Z) : AuthState :=
  foldl (fun st t => (record_failed_invitation st sel t).1.1) st ts.

Definition names (sel : AuthSelector) (i : InvitationRec) : Prop :=
  invitation_id i = id sel /\ inv_version i = sel_version sel /\ invitation_id i <> BOOTSTRAP_INVITATION_ID.

Lemma wrong_proof_step st sel i t :
  invitation st = Some i -> names sel i -> t < expires_at_ms i -> 0 <= failed_attempts i ->
  (record_failed_invitation st sel t).1.1 =
  set_invitation st (if decide (failed_attempts i + 1 < MAX_INVITE_ATTEMPTS)
                     then Some (with_attempts i (failed_attempts i + 1) (t + 1000 * 2 ^ failed_attempts i)) else None).
Proof.
  intros Hi (H1' & H2' & H3') Ht Hpos. unfold record_failed_invitation. rewrite Hi.
  rewrite decide_False by tauto. rewrite decide_False by done. rewrite decide_False by lia.
  unfold MAX_INVITE_ATTEMPTS. case_decide; case_decide; try lia; [done|]. cbn [fst].
  do 3 f_equal. rewrite Z.shiftl_mul_pow2 by lia. do 2 f_equal. f_equal. lia.
Qed.

Lemma set_invitation_twice st a b : set_invitation (set_invitation st a) b = set_invitation st b.
Proof. done. Qed.

Lemma wrong_proofs_none st sel ts : invitation st = None -> wrong_proofs st sel ts = st.
Proof.
  intros Hn. unfold wrong_proofs. induction ts as [|t ts IH]; [done|]. cbn [foldl].
  unfold record_failed_invitation at 2. by rewrite Hn.
Qed.

(** Attempts count up to four, then the invitation is gone. *)
Lemma wrong_proofs_count st sel i ts :
  invitation st = Some i -> names sel i -> Forall (fun t => t < expires_at_ms i) ts ->
  0 <= failed_attempts i < MAX_INVITE_ATTEMPTS ->
  let n := failed_attempts i + Z.of_nat (length ts) in
  match last ts with
  | None => wrong_proofs st sel ts = st
  | Some t => invitation (wrong_proofs st sel ts) =
                (if decide (n < MAX_INVITE_ATTEMPTS) then Some (with_attempts i n (t + 1000 * 2 ^ (n - 1))) else None)
  end.
Proof.
  intros Hi Hn Hts. revert st i Hi Hn Hts. induction ts as [|t ts IH]; intros st i Hi Hn Hts Hatt; [done|].
  apply Forall_cons in Hts as [Ht Hts]. cbn zeta. unfold wrong_proofs. cbn [foldl].
  fold (wrong_proofs (record_failed_invitation st sel t).1.1 sel ts).
  rewrite (wrong_proof_step st sel i t) by (done || lia).
  case_decide as Hmore.
  - set (i1 := with_attempts i (failed_attempts i + 1) (t + 1000 * 2 ^ failed_attempts i)).
    specialize (IH (set_invitation st (Some i1)) i1 eq_refl Hn Hts). cbn zeta in IH.
    destruct ts as [|t' ts].
    + cbn [wrong_proofs foldl invitation set_invitation last length].
      change (Z.of_nat 1) with 1. rewrite decide_True by lia.
      replace (failed_attempts i + 1 - 1) with (failed_attempts i) by lia. done.
    + rewrite last_cons_cons. specialize (IH ltac:(unfold i1; simpl; lia)).
      destruct (last (t' :: ts)) as [t''|] eqn:Hl; [|by apply last_None in Hl].
      rewrite IH. unfold i1. cbn [failed_attempts with_attempts length].
      replace (failed_attempts i + 1 + Z.of_nat (S (length ts))) with (failed_attempts i + Z.of_nat (S (S (length ts)))) by lia.
      done.
  - rewrite wrong_proofs_none by done. cbn [invitation set_invitation].
    destruct (last (t :: ts)) as [t''|] eqn:Hl; [|by apply last_None in Hl].
    rewrite decide_False; [done|]. simpl. lia.
Qed.

(** Guessing an invitation is bounded: after n wrong proofs (n < 5) the
    invitation is locked for 1, 2, 4 or 8 seconds from the last one and every
    resolve in that window is rate limited, and the fifth wrong proof destroys
    it, after which nobody can resolve or redeem it. *)
Theorem five_wrong_proofs_burn (st : AuthState) (sel : AuthSelector) (i : InvitationRec) (ts : list Z) (t now_ms : Z) :
  kind sel = Invitation -> invitation st = Some i -> names sel i -> failed_attempts i = 0 ->
  Forall (fun u => u < expires_at_ms i) (ts ++ [t]) -> now_ms < expires_at_ms i ->
  let st' := wrong_proofs st sel (ts ++ [t]) in
  let n := Z.of_nat (length ts) + 1 in
  if decide (n < 5)
  then now_ms < t + 1000 * 2 ^ (n - 1) -> resolve st' sel now_ms = (st', Err RateLimited, false)
  else invitation st' = None /\ resolve st' sel now_ms = (st', Err Failed, false) /\
       forall rng, redeem_invitation fill st' sel now_ms rng = (rng, st', Err Failed, false).
Proof.
  intros Hk Hi Hn H0' Hts Hnow st' n.
  pose proof (wrong_proofs_count st sel i (ts ++ [t]) Hi Hn Hts) as Hc. rewrite last_snoc, length_app in Hc. cbn [length] in Hc.
  specialize (Hc ltac:(unfold MAX_INVITE_ATTEMPTS; lia)). cbn zeta in Hc.
  replace (failed_attempts i + Z.of_nat (length ts + 1)) with n in Hc by (unfold n; lia). fold st' in Hc.
  unfold MAX_INVITE_ATTEMPTS in Hc. case_decide as Hlt.
  - intros Hwait. unfold resolve. rewrite Hk. unfold resolve_invitation. rewrite Hc. destruct Hn as (HA & HB & _).
    cbn [invitation_id inv_version with_attempts expires_at_ms failed_attempts next_attempt_at_ms].
    rewrite decide_False by tauto. rewrite decide_False by lia. rewrite decide_False by (unfold MAX_INVITE_ATTEMPTS; lia).
    by rewrite decide_True.
  - split; [done|]. split.
    + unfold resolve. rewrite Hk. unfold resolve_invitation. by rewrite Hc.
    + intros rng. unfold redeem_invitation. by rewrite Hc.
Qed.

(** An invitation yields one credential: the first redemption enrols a fresh
    credential with the invitation's role that authorizes at once; every later
    redemption before expiry, from whatever device, returns that same identity
    and secret and changes nothing; and the credential's first own handshake
    consumes the invitation. *)
Theorem redemption_is_single (st st1 : AuthState) (sel : AuthSelector) (now_ms : Z) (rng rng1 : F) (o : AuthOutcome) :
  redeem_invitation fill st sel now_ms rng = (rng1, st1, Ok o, true) ->
  let cid := id_credential (identity o) in
  (exists i, invitation st = Some i /\ id_role (identity o) = inv_role i) /\
  (exists c, authorize st1 cid 1 = Some c /\ identity_of c = identity o) /\
  (forall sel2 t2 rng2, id sel2 = id sel -> sel_version sel2 = sel_version sel ->
     (forall i, invitation st = Some i -> t2 < expires_at_ms i) ->
     redeem_invitation fill st1 sel2 t2 rng2 = (rng2, st1, Ok o, false)) /\
  (forall loc t3 st3 o3, complete_credential st1 (mkSelector E2eeHandshake.Credential cid 1 loc) t3 = (st3, Ok o3) ->
     invitation st3 = None).
Proof.
  unfold redeem_invitation at 1. destruct (invitation st) as [i|] eqn:Hi; [|done].
  case_decide as Hsel; [done|]. case_decide; [done|]. case_decide as Hpend; [done|].
  unfold unique_id. destruct (unique_id_loop fill 8 st true rng) as [r1 d] eqn:Hd.
  destruct (unique_id_loop fill 8 st false r1) as [r2 [c|]] eqn:Hc; destruct (fill r2 SECRET_BYTES) as [r3 raw] eqn:Hf;
    destruct d as [d|]; try done.
  apply unique_id_spec in Hc as [Hc0 Hc1]. destruct (fill_ok r2 SECRET_BYTES) as [Hl Hu]. rewrite Hf in Hl, Hu. cbn [snd] in Hl, Hu.
  set (cr := mkCredential d c _ _ _ _ _ _ _). set (rec := mkRecord cr (b64_encode raw)).
  intros [= _ <- <-]. cbn [identity id_credential identity_of c_credential_id cr id_role c_role].
  set (st1 := set_invitation _ _).
  assert (Hidx : credential_index st1 c = Some (length (credentials st))) by (apply (index_fresh st rec); exact Hc1).
  assert (Hlook : credentials st1 !! length (credentials st) = Some rec) by (apply list_lookup_middle; done).
  split_and!.
  - by exists i.
  - exists cr. split; [|done]. unfold authorize. rewrite Hidx. cbn [mbind option_bind]. rewrite Hlook. done.
  - intros sel2 t2 rng2 Hid2 Hv2 Ht2. unfold redeem_invitation. cbn [invitation st1 set_invitation].
    cbn [invitation_id inv_version with_pending expires_at_ms pending_credential_id].
    rewrite Hid2, Hv2, decide_False by done. specialize (Ht2 i eq_refl). rewrite decide_False by lia.
    rewrite decide_True by done. fold st1. rewrite Hidx. cbn [mbind option_bind]. rewrite Hlook.
    unfold issued_outcome, decode_secret. cbn [secret rec]. rewrite b64_roundtrip by done. cbn [mbind option_bind].
    rewrite decide_True by done. done.
  - intros loc t3 st3 o3. unfold complete_credential. cbn [id]. rewrite Hidx, Hlook.
    case_match; [done|]. intros [= <- _]. unfold drop_pending. cbn [invitation set_credentials st1 set_invitation].
    cbn [pending_credential_id with_pending refresh c_credential_id credential rec cr]. by rewrite decide_True.
Qed.

(** An authorization is current: the store authorizes an action only for an
    enrolled, unrevoked credential whose id and version are exactly the claimed
    ones, and an unknown or stale claim is refused. *)
Theorem authorize_iff_current (st : AuthState) (c : string) (v : Z) (cr : Credential) :
  NoDup (cid_of <$> credentials st) ->
  authorize st c v = Some cr <->
  (cr ∈ list_credentials st /\ c_credential_id cr = c /\ c_version cr = v /\ c_revoked cr = false).
Proof.
  intros Hnd. unfold authorize. split.
  - destruct (credential_index st c) as [i|] eqn:Hi; [|done]. cbn [mbind option_bind].
    destruct (credentials st !! i) as [r|] eqn:Hr; [|done]. cbn [mbind option_bind].
    destruct (c_revoked (credential r)) eqn:Hrev; cbn [orb]; [done|]. case_bool_decide as Hv; [done|].
    intros [= <-]. apply index_lookup in Hi as (r' & Hr' & Hid). rewrite Hr in Hr'. injection Hr' as <-.
    split_and!; try done. apply list_elem_of_fmap. exists r. split; [done|]. by eapply list_elem_of_lookup_2.
  - intros ((r & -> & Hin)%list_elem_of_fmap & Hid & Hv & Hrev).
    destruct (credential_index st c) as [i|] eqn:Hi.
    + cbn [mbind option_bind]. apply index_lookup in Hi as (r' & Hr' & Hid').
      assert (r' = r) as ->.
      { apply list_elem_of_lookup in Hin as [j Hj]. assert (i = j) as ->; [|congruence].
        apply (NoDup_lookup (cid_of <$> credentials st) i j c Hnd); rewrite list_lookup_fmap; [by rewrite Hr', <- Hid'|by rewrite Hj, <- Hid]. }
      rewrite Hr'. cbn [mbind option_bind]. rewrite Hrev, bool_decide_eq_false_2 by (by intros []). done.
    + apply index_None in Hi. exfalso. apply Hi, list_elem_of_fmap. by exists r.
Qed.

End Invariant.

(** ** A concrete store *)

(** A counter as byte source. *)
Definition counter_fill (f : Z) (n : nat) : Z * bytes := (f + 1, replicate n (f mod 256)).

Lemma counter_fill_ok f n : length (counter_fill f n).2 = n /\ Forall is_u8 (counter_fill f n).2.
Proof.
  split; [apply length_replicate|]. apply Forall_replicate. unfold is_u8, u8_max.
  pose proof (Z.mod_pos_bound f 256). lia.
Defined.

Definition demo_cred (d c : string) (r : Role) : CredentialRecord :=
  mkRecord (mkCredential d c "phone" r "en" 0 0 1 false) (b64_encode (replicate 32 1)).
Definition demo_inv : InvitationRec :=
  mkInvitation "inv" 1 (b64_encode (replicate 32 2)) 600000 "tablet" Reader "en" 0 0 "".
Definition demo_store : AuthState :=
  mkState 1 (Some demo_inv) [demo_cred "d1" "c1" Controller; demo_cred "d2" "c2" Reader] false.
Definition inv_sel : AuthSelector := mkSelector Invitation "inv" 1 "zh_CN".
Definition cred_sel (c : string) : AuthSelector := mkSelector E2eeHandshake.Credential c 1 "en".

Definition demo_ops : list op :=
  [OpComplete inv_sel true 5; OpComplete (cred_sel "c1") true 6; OpRevoke "c1"; OpRevoke "c2";
   OpCreate "watch" "reader" "en" 7; OpResolve inv_sel 8].

Lemma demo_versions : Forall version_ok (credentials demo_store).
Proof. repeat constructor; unfold u64_max; simpl; lia. Defined.

(** The store re-armed, and a credential imported. *)
Definition import_ops : list op := demo_ops ++ [OpArm "host" (Some (replicate 32 7)) 9; OpAddCredential (credential (demo_cred "d9" "c9" Reader)) (b64_encode (replicate 32 1)); OpRevoke "c9"].
Lemma import_writes_ok : all_writes_ok counter_fill (7, demo_store) import_ops.
Proof.
  intros n o Hn. do 7 (destruct n as [|n]; [injection Hn as <-; exact Logic.I|]). destruct n as [|[|n]]; [|injection Hn as <-; exact Logic.I|discriminate Hn]. injection Hn as <-. split_and!.
  - split; [split_and!; discriminate|]. cbn. eexists. vm_compute. reflexivity.
  - split; cbn; unfold u64_max; lia.
  - apply (bool_decide_unpack _). vm_compute. exact Logic.I.
  - apply (bool_decide_unpack _). vm_compute. exact Logic.I.
Qed.
Lemma store_stays_loadable_witness : validate (run counter_fill (7, demo_store) import_ops).2 = Ok tt /\ load (run counter_fill (7, demo_store) import_ops).2 = Ok (run counter_fill (7, demo_store) import_ops).2.
Proof.
  apply (store_stays_loadable counter_fill counter_fill_ok 7 demo_store import_ops).
  - vm_compute. reflexivity.
  - reflexivity.
  - exact demo_versions.
  - unfold import_ops, demo_ops. cbn [app]. repeat (apply Forall_cons; split; [try exact Logic.I|]); [|apply Forall_nil_2]. split; [reflexivity|]. apply Forall_replicate. unfold is_u8, u8_max. lia.
  - exact import_writes_ok.
Defined.

(** The largest version passes the check; revoking its credential wraps it to 0,
    which does not. *)
Definition last_version : AuthState := mkState 1 None [demo_cred "d1" "c1" Controller; mkRecord (mkCredential "d2" "c2" "phone" Reader "en" 0 0 (2 ^ 64 - 1) false) (b64_encode (replicate 32 1))] false.
Example last_version_breaks_the_store : validate last_version = Ok tt /\ validate (revoke last_version "c2").1.1 = Err (StoreInvalid "credential identity is incomplete").
Proof. vm_compute. done. Qed.

Lemma revocation_is_final_witness :
  authorize (run counter_fill (7, (revoke demo_store "c2").1.1) demo_ops).2 "c2" 2 = None.
Proof.
  destruct (revoke demo_store "c2") as [[st' [cr|e]] m] eqn:E; [|vm_compute in E; discriminate E].
  pose proof (revocation_is_final counter_fill 7 demo_store st' "c2" cr m demo_ops E) as Hr.
  apply Hr. repeat constructor.
Defined.

Lemma a_controller_remains_witness : (0 < active_controllers (run counter_fill (7%Z, demo_store) demo_ops).2)%nat.
Proof.
  apply (a_controller_remains counter_fill 7 demo_store demo_ops).
  - vm_compute. lia.
  - repeat constructor.
Defined.

Lemma five_wrong_proofs_burn_witness :
  invitation (wrong_proofs demo_store inv_sel ([1; 2000; 5000; 10000] ++ [20000])) = None /\
  resolve (wrong_proofs demo_store inv_sel ([1] ++ [2000])) inv_sel 3999 =
    (wrong_proofs demo_store inv_sel ([1] ++ [2000]), Err RateLimited, false).
Proof.
  split.
  - apply (five_wrong_proofs_burn counter_fill demo_store inv_sel demo_inv [1; 2000; 5000; 10000] 20000 30000);
      [reflexivity|reflexivity|by split_and!|reflexivity|repeat constructor; simpl; lia|simpl; lia].
  - apply (five_wrong_proofs_burn counter_fill demo_store inv_sel demo_inv [1] 2000 3999);
      [reflexivity|reflexivity|by split_and!|reflexivity|repeat constructor; simpl; lia|simpl; lia|simpl; lia].
Defined.

Definition redeemed : Z * AuthState * result AuthError AuthOutcome * bool :=
  redeem_invitation counter_fill demo_store inv_sel 5 7.
Definition redeemed_outcome : AuthOutcome :=
  match redeemed.1.2 with Ok o => o | Err _ => mkOutcome (mkIdentity "" "" Reader "" 0) None end.

Lemma redemption_is_single_witness :
  redeem_invitation counter_fill redeemed.1.1.2 inv_sel 9 100 = (100, redeemed.1.1.2, Ok redeemed_outcome, false).
Proof.
  apply (redemption_is_single counter_fill counter_fill_ok demo_store redeemed.1.1.2 inv_sel 5 7 redeemed.1.1.1 redeemed_outcome);
    [vm_compute; reflexivity|reflexivity|reflexivity|]. intros i [= <-]. simpl. lia.
Defined.

Lemma authorize_iff_current_witness : authorize demo_store "c2" 1 = Some (credential (demo_cred "d2" "c2" Reader)).
Proof.
  apply (authorize_iff_current demo_store "c2" 1 (credential (demo_cred "d2" "c2" Reader))).
  - apply (bool_decide_unpack (NoDup _)). vm_compute. exact I.
  - split_and!; try reflexivity. right. left.
Defined.

End DeviceStoreInvariant.
