(* ===== verification/HandshakeDriver.v ===== *)
(** * The handshake driver — [lerdr-relay/src/handshake.rs]

    The whole four-frame exchange against a transport and a device store, in a
    small monad: a world with the frames to come, the frames written, the store
    and the log of calls made to it, and a budget of await points after which
    the ten-second deadline fires.  [None] is a panic. *)

From S2P Require Import Prelude Utf8 JsonText Json JsonWire E2eeCodec E2eeSession E2eeHandshake DeviceStore DeviceStoreInvariant.
Import Utf8 JsonText Json JsonWire E2eeCodec E2eeInstances E2eeSession E2eeHandshake DeviceStore DeviceStoreInvariant.

Module HandshakeDriver.

(** [frame.rs] *)
Inductive ReadError := ReadClosed (code : option Z) (reason : string) | ReadFailed.
Inductive WriteError := WriteClosed | WriteFailed.

Definition read_is_closed (e : ReadError) : bool := match e with ReadClosed _ _ => true | ReadFailed => false end.

Inductive HandshakeError :=
| Timeout | Rejected | Read (e : ReadError) | Write (e : WriteError) | Malformed (e : E2eeError)
| Resolve (e : AuthError) | RecordFailure (e : AuthError) | Complete (e : AuthError)
| InvalidAuthResult | KeyMaterial (e : E2eeError).

Definition hs_is_rejected (e : HandshakeError) : bool := match e with Rejected => true | _ => false end.
Definition peer_closed (e : HandshakeError) : bool := match e with Read e => read_is_closed e | _ => false end.

(** The [DeviceAuthStore] trait, as far as the handshake uses it. *)
Class DeviceAuthStore (S : Type) := {
  store_resolve : S -> AuthSelector -> S * result AuthError bytes;
  store_complete : S -> AuthSelector -> bool -> S * result AuthError AuthOutcome;
}.

Inductive store_call := CallResolve (sel : AuthSelector) | CallComplete (sel : AuthSelector) (authenticated : bool).

(** ** The monad *)

Record World (S : Type) := mkWorld {
  budget : nat;
  inbox : list (result ReadError bytes);
  sink : list (result WriteError unit);
  store : S;
  written : list bytes;
  calls : list store_call;
}.
Arguments mkWorld {S}.
Arguments budget {S}.
Arguments inbox {S}.
Arguments sink {S}.
Arguments store {S}.
Arguments written {S}.
Arguments calls {S}.

Definition HS (S A : Type) : Type := World S -> World S * option (result HandshakeError A).

#[export] Instance hs_ret S : MRet (HS S) := fun A a w => (w, Some (Ok a)).
#[export] Instance hs_bind S : MBind (HS S) := fun A B f m w =>
  match m w with
  | (w', Some (Ok a)) => f a w'
  | (w', Some (Err e)) => (w', Some (Err e))
  | (w', None) => (w', None)
  end.

Definition fail {S A} (e : HandshakeError) : HS S A := fun w => (w, Some (Err e)).
Definition lift {S A} (r : result HandshakeError A) : HS S A := fun w => (w, Some r).
Definition expect {S A} (o : option A) : HS S A :=
  fun w => match o with Some a => (w, Some (Ok a)) | None => (w, None) end.

Definition on_world {S A} (f : World S -> World S * option (result HandshakeError A)) : HS S A := f.

(** One await point: the deadline may fire here. *)
Definition await {S} : HS S unit := fun w =>
  match budget w with
  | O => (w, Some (Err Timeout))
  | Datatypes.S n => (mkWorld n (inbox w) (sink w) (store w) (written w) (calls w), Some (Ok tt))
  end.

(** [reader.read_frame().await]: nothing left to read means waiting for the
    deadline. *)
Definition read_frame {S} : HS S bytes :=
  _ ← await;
  on_world (fun w => match inbox w with
           | [] => (w, Some (Err Timeout))
           | r :: rest =>
               (mkWorld (budget w) rest (sink w) (store w) (written w) (calls w), Some (map_err Read r))
           end).

Definition write_frame {S} (frame : bytes) : HS S unit :=
  _ ← await;
  on_world (fun w => match sink w with
           | Err e :: rest => (mkWorld (budget w) (inbox w) rest (store w) (written w) (calls w), Some (Err (Write e)))
           | Ok _ :: rest => (mkWorld (budget w) (inbox w) rest (store w) (written w ++ [frame]) (calls w), Some (Ok tt))
           | [] => (mkWorld (budget w) (inbox w) [] (store w) (written w ++ [frame]) (calls w), Some (Ok tt))
           end).

Definition call_resolve {S} `{DeviceAuthStore S} (sel : AuthSelector) : HS S (result AuthError bytes) :=
  _ ← await;
  on_world (fun w => let '(s, r) := store_resolve (store w) sel in
           (mkWorld (budget w) (inbox w) (sink w) s (written w) (calls w ++ [CallResolve sel]), Some (Ok r))).

Definition call_complete {S} `{DeviceAuthStore S} (sel : AuthSelector) (b : bool) : HS S (result AuthError AuthOutcome) :=
  _ ← await;
  on_world (fun w => let '(s, r) := store_complete (store w) sel b in
           (mkWorld (budget w) (inbox w) (sink w) s (written w) (calls w ++ [CallComplete sel b]), Some (Ok r))).

(** ** The exchange *)

Section Exchange.
Context `{Base64} `{WireJson} `{HandshakeCrypto} `{Aead}.
Context {S : Type} `{DeviceAuthStore S}.

Record HandshakeSuccess := mkSuccess {
  hs_session : Session;
  hs_identity : AuthenticatedIdentity;
  hs_selector : AuthSelector;
}.

Definition encode_finish (i : AuthenticatedIdentity) (credential_secret : option string) : bytes :=
  encode_server_finish (mkServerFinish (id_device i) (id_credential i) (role_as_str (id_role i)) (id_locale i)
                          (id_version i) credential_secret).

(** Steps 1 to 3: hello, secret, proof. *)
Definition authenticate : HS S (AuthSelector * bytes * ServerHandshake) :=
  raw_hello ← read_frame;
  client_hello ← lift (map_err Malformed (parse_client_hello raw_hello));
  let sel := selector client_hello in
  resolved ← call_resolve sel;
  secret ← match resolved with
           | Ok secret => mret secret
           | Err e => if is_rejected e then fail Rejected else fail (Resolve e)
           end;
  hs ← match begin raw_hello secret with
       | Ok hs => mret hs
       | Err ClientProofFailed =>
           r ← call_complete sel false;
           match r with
           | Err e => if negb (is_rejected e) then fail (RecordFailure e) else fail Rejected
           | Ok _ => fail Rejected
           end
       | Err e => fail (Malformed e)
       end;
  mret (sel, secret, hs).

(** Steps 4 and 5: server hello, client finish. *)
Definition establish (secret : bytes) (hs : ServerHandshake) (server_private : SecretKey) (server_nonce : bytes) (c : Codec)
    : HS S Session :=
  '(hello_json, est) ← lift (map_err KeyMaterial (respond hs secret server_private server_nonce));
  session ← expect (server_session est c);
  _ ← write_frame hello_json;
  raw_finish ← read_frame;
  match open session raw_finish with
  | (session, Ok plaintext) =>
      _ ← lift (map_err Malformed (parse_client_finish plaintext));
      mret session
  | (_, Err _) => fail (Malformed InvalidClientFinish)
  end.

(** Steps 6 and 7: commit, server finish. *)
Definition commit (sel : AuthSelector) (session : Session) : HS S HandshakeSuccess :=
  completed ← call_complete sel true;
  outcome ← match completed with
            | Ok outcome => mret outcome
            | Err e => if is_rejected e then fail Rejected else fail (Complete e)
            end;
  let i := identity outcome in
  if negb (identity_is_valid i) then fail InvalidAuthResult
  else
    credential_secret ← match outcome_secret outcome with
                        | Some secret =>
                            if decide (kind sel = Invitation) then mret (Some (b64_encode secret)) else fail InvalidAuthResult
                        | None => mret None
                        end;
    match seal session (encode_finish i credential_secret) with
    | (session, Ok frame) => _ ← write_frame frame; mret (mkSuccess session i sel)
    | (_, Err e) => fail (KeyMaterial e)
    end.

Definition exchange (server_private : SecretKey) (server_nonce : bytes) (c : Codec) : HS S HandshakeSuccess :=
  '(sel, secret, hs) ← authenticate;
  session ← establish secret hs server_private server_nonce c;
  commit sel session.

End Exchange.

(** ** Executing the monad *)

Lemma bind_inv {S A B} (m : HS S A) (f : A -> HS S B) w w' r :
  (m ≫= f) w = (w', r) ->
  (exists w1 a, m w = (w1, Some (Ok a)) /\ f a w1 = (w', r)) \/
  (exists e, m w = (w', Some (Err e)) /\ r = Some (Err e)) \/ (m w = (w', None) /\ r = None).
Proof.
  unfold mbind, hs_bind. destruct (m w) as [w1 [[a|e]|]]; intros E.
  - left. by exists w1, a.
  - injection E as <- <-. right. left. by exists e.
  - injection E as <- <-. by right; right.
Qed.

(** Unchanged parts of the world: the primitives only touch what they name. *)
Definition quiet {S} (w w' : World S) : Prop := calls w' = calls w /\ written w' = written w /\ store w' = store w.

(** A primitive waits once: either the budget lasted and [E] is the primitive
    itself, or the deadline fired. *)
Ltac after_await w E :=
  intros [(? & [] & Ha & E)|[(? & Ha & ->)|[Ha ->]]]%bind_inv; revert Ha; unfold await;
    destruct (budget w); intros [= <-]; try done.

Lemma read_frame_inv {S} (w w' : World S) r :
  read_frame w = (w', r) -> quiet w w' /\
  ((exists f rest, r = Some (Ok f) /\ inbox w = Ok f :: rest /\ inbox w' = rest) \/ exists e, r = Some (Err e)).
Proof.
  after_await w E; [..|split; [done|by right; eexists]].
  unfold on_world in E. simpl in E. destruct (inbox w) as [|[f|e] rest] eqn:Hi; injection E as <- <-; (split; [done|]).
  - by right; eexists.
  - left. by exists f, rest.
  - by right; eexists.
Qed.

Lemma write_frame_inv {S} f (w w' : World S) r :
  write_frame f w = (w', r) -> calls w' = calls w /\ store w' = store w /\ inbox w' = inbox w /\
  ((r = Some (Ok tt) /\ written w' = written w ++ [f]) \/ (exists e, r = Some (Err e)) /\ written w' = written w).
Proof.
  after_await w E; [..|split_and!; [done..|right; split; [by eexists|done]]].
  unfold on_world in E. simpl in E. destruct (sink w) as [|[[]|e] rest]; injection E as <- <-; split_and!; try done.
  - by left.
  - by left.
  - right. split; [by eexists|done].
Qed.

Lemma call_resolve_inv {S} `{DeviceAuthStore S} sel (w w' : World S) r :
  call_resolve sel w = (w', r) -> written w' = written w /\ inbox w' = inbox w /\
  ((exists x, r = Some (Ok x) /\ store_resolve (store w) sel = (store w', x) /\ calls w' = calls w ++ [CallResolve sel]) \/
   (exists e, r = Some (Err e)) /\ calls w' = calls w /\ store w' = store w).
Proof.
  after_await w E; [..|split_and!; [done..|right; split; [by eexists|done]]].
  unfold on_world in E. simpl in E. destruct (store_resolve (store w) sel) as [s x] eqn:Hs. injection E as <- <-.
  split_and!; [done..|]. left. by exists x.
Qed.

Lemma call_complete_inv {S} `{DeviceAuthStore S} sel b (w w' : World S) r :
  call_complete sel b w = (w', r) -> written w' = written w /\ inbox w' = inbox w /\
  ((exists x, r = Some (Ok x) /\ store_complete (store w) sel b = (store w', x) /\ calls w' = calls w ++ [CallComplete sel b]) \/
   (exists e, r = Some (Err e)) /\ calls w' = calls w /\ store w' = store w).
Proof.
  after_await w E; [..|split_and!; [done..|right; split; [by eexists|done]]].
  unfold on_world in E. simpl in E. destruct (store_complete (store w) sel b) as [s x] eqn:Hs. injection E as <- <-.
  split_and!; [done..|]. left. by exists x.
Qed.

Section Specs.
Context `{Base64} `{WireJson} `{HandshakeCryptoLaws} `{AeadLaws}.
Context {S : Type} `{DeviceAuthStore S}.
Implicit Types w : World S.

(** No commit among the new calls. *)
Definition uncommitted w w' : Prop :=
  exists l, calls w' = calls w ++ l /\ forall sel, CallComplete sel true ∉ l.

Lemma uncommitted_refl w w' : calls w' = calls w -> uncommitted w w'.
Proof. intros E. exists []. rewrite app_nil_r. split; [done|]. intros sel Hin. by apply not_elem_of_nil in Hin. Qed.

Lemma uncommitted_snoc w w1 w' c :
  uncommitted w w1 -> calls w' = calls w1 ++ [c] -> (forall sel, c <> CallComplete sel true) -> uncommitted w w'.
Proof.
  intros (l & Hl & Hn) Hc Hne. exists (l ++ [c]). rewrite Hc, Hl, app_assoc. split; [done|].
  intros sel [Hin|Hin%list_elem_of_singleton]%elem_of_app; [by eapply Hn|]. by eapply Hne.
Qed.

Lemma uncommitted_same w w1 w' : uncommitted w w1 -> calls w' = calls w1 -> uncommitted w w'.
Proof. intros (l & Hl & Hn) Hc. exists l. by rewrite Hc. Qed.

Lemma authenticate_spec w w' r :
  authenticate w = (w', r) -> uncommitted w w' /\ written w' = written w /\
  ((exists sel secret hs raw, r = Some (Ok (sel, secret, hs)) /\ inbox w = Ok raw :: inbox w' /\
      calls w' = calls w ++ [CallResolve sel] /\ store_resolve (store w) sel = (store w', Ok secret) /\
      begin raw secret = Ok hs /\ selector (hello hs) = sel) \/
   exists e, r = Some (Err e)).
Proof.
  unfold authenticate.
  intros [(w1 & raw & E1 & E)|[(e & E1 & ->)|[E1 ->]]]%bind_inv; apply read_frame_inv in E1 as [(Q1 & Q2 & Q3) E1];
    destruct E1 as [(f & rest & [= <-] & I1 & I2)|[e' Ee]]; try discriminate;
    [|split_and!; [by apply uncommitted_refl|done|by right; eexists]].
  apply bind_inv in E as [(w2 & h & E2 & E)|[(e & E2 & ->)|[E2 ->]]]; try (unfold lift in E2; discriminate E2);
    unfold lift in E2; injection E2 as <- E2;
    [|split_and!; [by apply uncommitted_refl|done|by right; eexists]].
  destruct (parse_client_hello raw) as [ch|] eqn:Hparse; [|done]. injection E2 as <-.
  apply bind_inv in E as [(w3 & x & E3 & E)|[(e & E3 & ->)|[E3 ->]]]; apply call_resolve_inv in E3 as (W3 & I3 & E3);
    destruct E3 as [(y & [= <-] & S3 & C3)|[[e' Ee] [C3 S3]]]; try discriminate.
  2: { split_and!; [apply uncommitted_refl; congruence|congruence|by right; eexists]. }
  assert (U3 : uncommitted w w3).
  { eapply uncommitted_snoc; [by apply (uncommitted_refl w w1)|exact C3|done]. }
  destruct x as [secret|e].
  2: { destruct (is_rejected e); apply bind_inv in E as [(w4 & ? & E4 & E)|[(e4 & E4 & ->)|[E4 ->]]];
       unfold fail in E4; try discriminate E4; injection E4 as <- <-; (split_and!; [done|congruence|by right; eexists]). }
  apply bind_inv in E as [(w4 & sec & E4 & E)|[(e4 & E4 & ->)|[E4 ->]]]; try discriminate E4. injection E4 as <- <-.
  assert (Hbegin : forall hs, begin raw secret = Ok hs -> selector (hello hs) = selector ch).
  { intros hs. unfold begin. rewrite Hparse. cbn [mbind result_bind].
    destruct (verify_client_proof secret ch); cbn [negb]; [by intros [= <-]|done]. }
  destruct (begin raw secret) as [hs|e] eqn:Hb.
  - apply bind_inv in E as [(w5 & x & E5 & E)|[(e5 & E5 & ->)|[E5 ->]]]; try discriminate E5. injection E5 as <- <-.
    injection E as <- <-. split_and!; [done|congruence|]. left. exists (selector ch), secret, hs, raw.
    split_and!; try done; [congruence|congruence|by rewrite <- Q3|by apply Hbegin].
  - apply bind_inv in E as [(w5 & x & E5 & E)|[(e5 & E5 & ->)|[E5 ->]]].
    + exfalso. destruct e; try discriminate E5.
      apply bind_inv in E5 as [(w6 & [y|e6] & E6 & E7)|[(e6 & E6 & ?)|[E6 ?]]]; try discriminate; destruct (is_rejected e6); discriminate.
    + assert (Hfin : uncommitted w w' /\ written w' = written w3).
      { destruct e; try (injection E5 as <- <-; done).
        apply bind_inv in E5 as [(w6 & y & E6 & E7)|[(e6 & E6 & ?)|[E6 ?]]]; try discriminate;
          apply call_complete_inv in E6 as (W6 & I6 & E6);
          destruct E6 as [(z & [= <-] & S6 & C6)|[[e' Ee] [C6 S6]]]; try discriminate.
        - assert (w' = w6) as -> by (destruct y as [y|ey]; [|destruct (is_rejected ey)]; injection E7 as <- _; done).
          split; [|congruence]. eapply uncommitted_snoc; [exact U3|exact C6|]. intros sel [=].
        - split; [|congruence]. by eapply uncommitted_same. }
      destruct Hfin as [Hu Hw]. split_and!; [done|congruence|by right; eexists].
    + exfalso. destruct e; try discriminate E5.
      apply bind_inv in E5 as [(w6 & [y|e6] & E6 & E7)|[(e6 & E6 & ?)|[E6 ?]]]; try discriminate;
        [destruct (is_rejected e6); discriminate|]. apply call_complete_inv in E6 as (_ & _ & [(? & ? & _)|[[? ?] _]]); discriminate.
Qed.

Lemma server_session_total hs secret sk n text est c :
  respond hs secret sk n = Ok (text, est) -> is_Some (server_session est c).
Proof.
  unfold respond. case_decide; [done|]. intros [= _ <-]. unfold server_session. cbn [est_keys].
  destruct (new_total (s2c (derive_session_keys
    (diffie_hellman sk (ch_public_key (hello hs)))
    (key_salt secret (transcript (hs_binding hs) (ch_nonce (hello hs)) (ch_public_bytes (hello hs)) n (to_sec1_point (public_key_of sk))))))
    (c2s (derive_session_keys
    (diffie_hellman sk (ch_public_key (hello hs)))
    (key_salt secret (transcript (hs_binding hs) (ch_nonce (hello hs)) (ch_public_bytes (hello hs)) n (to_sec1_point (public_key_of sk))))))
    S2C C2S c) as [s Hs]; [apply hkdf_length..|]. unfold server. rewrite Hs. by eexists.
Qed.

Lemma establish_spec secret hs sk n c w w' r :
  establish secret hs sk n c w = (w', r) -> calls w' = calls w /\ store w' = store w /\
  ((exists text est s0 session raw p, r = Some (Ok session) /\ respond hs secret sk n = Ok (text, est) /\
      server_session est c = Some s0 /\ open s0 raw = (session, Ok p) /\ parse_client_finish p = Ok tt /\
      inbox w = Ok raw :: inbox w' /\ written w' = written w ++ [text]) \/
   exists e, r = Some (Err e)).
Proof.
  unfold establish.
  intros [(w1 & [text est] & E1 & E)|[(e & E1 & ->)|[E1 ->]]]%bind_inv; unfold lift in E1; try discriminate E1;
    injection E1 as <- E1; [|split_and!; [done..|by right; eexists]].
  destruct (respond hs secret sk n) as [[text' est']|] eqn:Hr; [|done]. injection E1 as <- <-.
  destruct (server_session_total _ _ _ _ _ _ c Hr) as [s0 Hs0]. rewrite Hs0 in E.
  apply bind_inv in E as [(w2 & x & E2 & E)|[(e & E2 & ->)|[E2 ->]]]; try discriminate E2. injection E2 as <- <-.
  apply bind_inv in E as [(w3 & [] & E3 & E)|[(e & E3 & ->)|[E3 ->]]]; apply write_frame_inv in E3 as (C3 & S3 & I3 & E3);
    destruct E3 as [[E3 W3]|[[e' Ee] W3]]; try discriminate; [|split_and!; [done..|by right; eexists]].
  apply bind_inv in E as [(w4 & raw & E4 & E)|[(e & E4 & ->)|[E4 ->]]]; apply read_frame_inv in E4 as [(C4 & W4 & S4) E4];
    destruct E4 as [(f & rest & [= <-] & I4 & I4')|[e' Ee]]; try discriminate;
    [|split_and!; [congruence..|by right; eexists]].
  destruct (open s0 raw) as [session [p|e]] eqn:Ho.
  - apply bind_inv in E as [(w5 & [] & E5 & E)|[(e5 & E5 & ->)|[E5 ->]]]; unfold lift in E5; try discriminate E5;
      injection E5 as <- E5; [|split_and!; [congruence..|by right; eexists]].
    injection E as <- <-. destruct (parse_client_finish p) as [[]|] eqn:Hp; [|done].
    split_and!; [congruence..|]. left. exists text', est', s0, session, raw, p.
    split_and!; try done; congruence.
  - injection E as <- <-. split_and!; [congruence..|by right; eexists].
Qed.

Lemma commit_spec sel session w w' r :
  commit sel session w = (w', r) ->
  (exists s1 i cs frame, r = Some (Ok (mkSuccess s1 i sel)) /\ calls w' = calls w ++ [CallComplete sel true] /\
     (exists o, store_complete (store w) sel true = (store w', Ok o) /\ identity o = i /\
        identity_is_valid i = true /\ cs = (b64_encode <$> outcome_secret o) /\ (is_Some cs -> kind sel = Invitation)) /\
     seal session (encode_finish i cs) = (s1, Ok frame) /\ written w' = written w ++ [frame]) \/
  (exists e, r = Some (Err e)) /\ (calls w' = calls w ++ [CallComplete sel true] \/ calls w' = calls w) /\ written w' = written w.
Proof.
  unfold commit.
  intros [(w1 & x & E1 & E)|[(e & E1 & ->)|[E1 ->]]]%bind_inv; apply call_complete_inv in E1 as (W1 & I1 & E1);
    destruct E1 as [(y & [= <-] & S1 & C1)|[[e' Ee] [C1 S1]]]; try discriminate.
  2: { right. split; [by eexists|]. split; [by right|congruence]. }
  destruct x as [o|e].
  2: { right. destruct (is_rejected e); apply bind_inv in E as [(w4 & ? & E4 & E)|[(e4 & E4 & ->)|[E4 ->]]];
       unfold fail in E4; try discriminate E4; injection E4 as <- <-; (split; [by eexists|]); split; [by left|congruence|by left|congruence]. }
  apply bind_inv in E as [(w2 & x & E2 & E)|[(e2 & E2 & ->)|[E2 ->]]]; try discriminate E2. injection E2 as <- <-.
  destruct (identity_is_valid (identity o)) eqn:Hv; cbn [negb] in E.
  2: { injection E as <- <-. right. split; [by eexists|]. split; [by left|congruence]. }
  apply bind_inv in E as [(w3 & cs & E3 & E)|[(e3 & E3 & ->)|[E3 ->]]].
  2: { assert (w' = w1) as -> by (destruct (outcome_secret o); [case_decide|]; injection E3 as <- _; done).
       right. split; [by eexists|]. split; [by left|congruence]. }
  2: { exfalso. destruct (outcome_secret o); [case_decide|]; discriminate E3. }
  assert (w3 = w1 /\ cs = (b64_encode <$> outcome_secret o) /\ (is_Some cs -> kind sel = Invitation)) as (-> & Hcs & Hinv).
  { destruct (outcome_secret o); [case_decide|]; try discriminate E3; injection E3 as <- <-; split_and!; try done. }
  destruct (seal session _) as [s1 [frame|e]] eqn:Hseal.
  2: { injection E as <- <-. right. split; [by eexists|]. split; [by left|congruence]. }
  apply bind_inv in E as [(w4 & [] & E4 & E)|[(e4 & E4 & ->)|[E4 ->]]]; apply write_frame_inv in E4 as (C4 & S4 & I4 & E4);
    destruct E4 as [[E4 W4]|[[e' Ee] W4]]; try discriminate.
  2: { right. split; [by eexists|]. split; [left; congruence|congruence]. }
  injection E as <- <-. left. exists s1, (identity o), cs, frame. split_and!; [done|congruence| |done|congruence].
  exists o. split_and!; try done. by rewrite S4.
Qed.

End Specs.

(** ** Successful steps *)

Lemma bind_ok {S A B} (m : HS S A) (f : A -> HS S B) w w1 a : m w = (w1, Some (Ok a)) -> (m ≫= f) w = f a w1.
Proof. intros E. unfold mbind, hs_bind. by rewrite E. Qed.

Lemma read_frame_ok {S} n f rest k st wr cl :
  read_frame (mkWorld (Datatypes.S n) (Ok f :: rest) k st wr cl : World S) = (mkWorld n rest k st wr cl, Some (Ok f)).
Proof. done. Qed.

Lemma write_frame_ok {S} n f ib st wr cl :
  write_frame f (mkWorld (Datatypes.S n) ib [] st wr cl : World S) = (mkWorld n ib [] st (wr ++ [f]) cl, Some (Ok tt)).
Proof. done. Qed.

Lemma call_resolve_ok {S} `{DeviceAuthStore S} sel n ib k st wr cl st' x :
  store_resolve st sel = (st', x) ->
  call_resolve sel (mkWorld (Datatypes.S n) ib k st wr cl) = (mkWorld n ib k st' wr (cl ++ [CallResolve sel]), Some (Ok x)).
Proof. intros E. unfold call_resolve, mbind, hs_bind, await, on_world. cbn [budget store]. by rewrite E. Qed.

Lemma call_complete_ok {S} `{DeviceAuthStore S} sel b n ib k st wr cl st' x :
  store_complete st sel b = (st', x) ->
  call_complete sel b (mkWorld (Datatypes.S n) ib k st wr cl) = (mkWorld n ib k st' wr (cl ++ [CallComplete sel b]), Some (Ok x)).
Proof. intros E. unfold call_complete, mbind, hs_bind, await, on_world. cbn [budget store]. by rewrite E. Qed.

Section Runs.
Context `{Base64Laws} `{WireJsonLaws} `{HandshakeCryptoLaws} `{AeadLaws}.
Context {S : Type} `{DeviceAuthStore S}.

Lemma parse_own_finish : parse_client_finish CLIENT_FINISH_JSON = Ok tt.
Proof.
  assert (Ht : CLIENT_FINISH_JSON = object_text [("type", JString "e2ee_client_finish"); ("version", JNumber (PosInt 2))])
    by reflexivity.
  assert (Hms : Forall member_ok [("type", JString "e2ee_client_finish"); ("version", JNumber (PosInt 2))])
    by (each_member; done).
  unfold parse_client_finish. rewrite Ht. destruct (from_utf8_object _ Hms) as (t & -> & Hb). cbn [ok_or mbind result_bind].
  by rewrite Hb, from_slice_text.
Qed.

Lemma authenticate_run raw secret h hs n rest k st wr cl st' :
  parse_client_hello raw = Ok h -> begin raw secret = Ok hs -> store_resolve st (selector h) = (st', Ok secret) ->
  authenticate (mkWorld (2 + n) (Ok raw :: rest) k st wr cl : World S) =
    (mkWorld n rest k st' wr (cl ++ [CallResolve (selector h)]), Some (Ok (selector h, secret, hs))).
Proof.
  intros Hp Hb Hr. unfold authenticate. rewrite (bind_ok _ _ _ _ _ (read_frame_ok (Datatypes.S n) raw rest k st wr cl)).
  rewrite Hp. cbn [map_err]. rewrite (bind_ok _ _ _ _ h) by done.
  rewrite (bind_ok _ _ _ _ _ (call_resolve_ok (selector h) n rest k st wr cl st' _ Hr)).
  rewrite (bind_ok _ _ _ _ secret) by done. rewrite Hb. by rewrite (bind_ok _ _ _ _ hs) by done.
Qed.

Lemma establish_run secret hs sk nonce c text est s0 s1 raw p n rest st wr cl :
  respond hs secret sk nonce = Ok (text, est) -> server_session est c = Some s0 ->
  open s0 raw = (s1, Ok p) -> parse_client_finish p = Ok tt ->
  establish secret hs sk nonce c (mkWorld (2 + n) (Ok raw :: rest) [] st wr cl : World S) =
    (mkWorld n rest [] st (wr ++ [text]) cl, Some (Ok s1)).
Proof.
  intros Hr Hs Ho Hp. unfold establish. rewrite Hr. cbn [map_err]. rewrite (bind_ok _ _ _ _ (text, est)) by done.
  rewrite Hs. rewrite (bind_ok _ _ _ _ s0) by done.
  rewrite (bind_ok _ _ _ _ _ (write_frame_ok (Datatypes.S n) text (Ok raw :: rest) st wr cl)).
  rewrite (bind_ok _ _ _ _ _ (read_frame_ok n raw rest [] st (wr ++ [text]) cl)). rewrite Ho, Hp. done.
Qed.

Lemma commit_run sel session o cs frame s1 n ib st wr cl st' :
  store_complete st sel true = (st', Ok o) -> identity_is_valid (identity o) = true ->
  (is_Some (outcome_secret o) -> kind sel = Invitation) -> cs = (b64_encode <$> outcome_secret o) ->
  seal session (encode_finish (identity o) cs) = (s1, Ok frame) ->
  commit sel session (mkWorld (2 + n) ib [] st wr cl : World S) =
    (mkWorld n ib [] st' (wr ++ [frame]) (cl ++ [CallComplete sel true]), Some (Ok (mkSuccess s1 (identity o) sel))).
Proof.
  intros Hc Hv Hk -> Hs. unfold commit.
  rewrite (bind_ok _ _ _ _ _ (call_complete_ok sel true (Datatypes.S n) ib [] st wr cl st' _ Hc)).
  rewrite (bind_ok _ _ _ _ o) by done. rewrite Hv. cbn [negb].
  rewrite (bind_ok _ _ _ (mkWorld (Datatypes.S n) ib [] st' wr (cl ++ [CallComplete sel true])) (b64_encode <$> outcome_secret o)).
  2: { destruct (outcome_secret o); [|done]. rewrite decide_True by eauto. done. }
  by rewrite Hs, (bind_ok _ _ _ _ _ (write_frame_ok n frame ib st' wr (cl ++ [CallComplete sel true]))).
Qed.

End Runs.

(** ** Properties *)

Section Properties.
Context `{Base64Laws} `{WireJsonLaws} `{HandshakeCryptoLaws} `{AeadLaws}.
Context {S : Type} `{DeviceAuthStore S}.
Implicit Types w : World S.

(** C7 — an authentication is committed to the store only after both proofs: if
    a run of the exchange asks the store to complete a selector as
    authenticated, then the first frame read was a hello for that very selector
    whose proof verifies under the secret the store resolved for it, and the
    second frame read opened under the session keys derived from it and parsed
    as the client finish.  No deadline, transport or store behaviour can commit
    earlier. *)
Theorem commit_requires_both_proofs (server_private : SecretKey) (server_nonce : bytes) (c : Codec) w w' r sel :
  exchange server_private server_nonce c w = (w', r) ->
  CallComplete sel true ∉ calls w -> CallComplete sel true ∈ calls w' ->
  exists raw_hello raw_finish rest secret hs text est s0 s1 plaintext,
    inbox w = Ok raw_hello :: Ok raw_finish :: rest /\
    (store_resolve (store w) sel).2 = Ok secret /\
    begin raw_hello secret = Ok hs /\ selector (hello hs) = sel /\
    respond hs secret server_private server_nonce = Ok (text, est) /\ server_session est c = Some s0 /\
    open s0 raw_finish = (s1, Ok plaintext) /\ parse_client_finish plaintext = Ok tt.
Proof.
  intros E Hnot Hin.
  assert (Hno : forall w0, uncommitted w w0 -> CallComplete sel true ∈ calls w0 -> False).
  { intros w0 (l & -> & Hl) [Hw|Hw]%elem_of_app; [done|by eapply Hl]. }
  unfold exchange in E.
  apply bind_inv in E as [(w1 & [[sel1 secret] hs] & E1 & E)|[(e & E1 & ->)|[E1 ->]]]; apply authenticate_spec in E1 as (U1 & W1 & E1);
    [|by exfalso; eapply Hno..].
  destruct E1 as [(? & ? & ? & raw & [= <- <- <-] & I1 & C1 & S1 & Hb & Hsel)|[? ?]]; [|done].
  apply bind_inv in E as [(w2 & session & E2 & E)|[(e & E2 & ->)|[E2 ->]]]; apply establish_spec in E2 as (C2 & S2 & E2);
    [|by exfalso; eapply Hno; [eapply uncommitted_same|]..].
  destruct E2 as [(text & est & s0 & s1 & raw2 & p & [= <-] & Hr & Hs0 & Ho & Hp & I2 & W2)|[? ?]]; [|done].
  assert (sel1 = sel) as ->.
  { apply commit_spec in E as [(s2 & i & cs & frame & -> & C3 & _)|(_ & [C3|C3] & _)];
      rewrite C3, ?C2, C1 in Hin; repeat (rewrite elem_of_app in Hin); rewrite ?list_elem_of_singleton in Hin;
      destruct_or?; naive_solver. }
  exists raw, raw2, (inbox w2), secret, hs, text, est, s0, session, p. split_and!; try done.
  - by rewrite I1, I2.
  - by rewrite S1.
Qed.

(** A hello that does not parse never reaches the store: no call is made, no
    frame is written, the store is as it was, and the connection ends with the
    parse error. *)
Theorem malformed_hello_touches_nothing (server_private : SecretKey) (server_nonce : bytes) (c : Codec) w raw rest n (e : E2eeError) :
  inbox w = Ok raw :: rest -> budget w = Datatypes.S n -> parse_client_hello raw = Err e ->
  exchange server_private server_nonce c w =
    (mkWorld n rest (sink w) (store w) (written w) (calls w), Some (Err (Malformed e))).
Proof.
  intros Hi Hb Hp. unfold exchange, authenticate, read_frame, await, on_world, mbind, hs_bind.
  rewrite Hb. cbn [inbox]. rewrite Hi. cbn [map_err]. unfold lift. by rewrite Hp.
Qed.


(** What the finish must carry for the store's outcome. *)
Definition finish_of (o : AuthOutcome) : ServerFinish :=
  mkServerFinish (id_device (identity o)) (id_credential (identity o)) (role_as_str (id_role (identity o)))
    (id_locale (identity o)) (id_version (identity o)) (b64_encode <$> outcome_secret o).

(** The honest handshake delivers the identity: a device that knows the
    pairing secret answers the first frame the relay writes, and then, provided
    the transport works and the store accepts the selector, the exchange
    succeeds with the store's identity, the device opens the relay's last frame
    to exactly that identity and credential, and the two sessions stay in step
    in both directions. *)
Theorem honest_handshake_delivers_identity (secret : bytes) (sel : AuthSelector) (client_private server_private : SecretKey)
    (client_nonce server_nonce : bytes) (c : Codec) :
  selector_ok sel -> length client_nonce = NONCE_BYTES -> Forall is_u8 client_nonce ->
  length server_nonce = NONCE_BYTES -> Forall is_u8 server_nonce ->
  exists text est cl0 cl1 finish_frame,
    client_establish secret sel client_private client_nonce text = Ok est /\
    client_session est c = Some cl0 /\ seal cl0 CLIENT_FINISH_JSON = (cl1, Ok finish_frame) /\
    forall n rest st st1 st2 wr cl (o : AuthOutcome),
      store_resolve st sel = (st1, Ok secret) -> store_complete st1 sel true = (st2, Ok o) ->
      identity_is_valid (identity o) = true -> (is_Some (outcome_secret o) -> kind sel = Invitation) ->
      finish_ok (finish_of o) -> Z.of_nat (length (encode_server_finish (finish_of o))) <= MAX_MESSAGE ->
      exists sv frame cl2 p,
        exchange server_private server_nonce c
          (mkWorld (6 + n) (Ok (client_hello_bytes secret sel client_private client_nonce) :: Ok finish_frame :: rest) [] st wr cl) =
          (mkWorld n rest [] st2 ((wr ++ [text]) ++ [frame]) ((cl ++ [CallResolve sel]) ++ [CallComplete sel true]),
           Some (Ok (mkSuccess sv (identity o) sel))) /\
        open cl1 frame = (cl2, Ok p) /\ parse_server_finish p = Ok (finish_of o) /\ paired sv cl2 /\ paired cl2 sv.
Proof.
  intros Hsel Hcn Hcu Hsn Hsu.
  destruct (agreement secret sel client_private server_private client_nonce server_nonce c Hsel Hcn Hcu Hsn Hsu)
    as (hs & text & est & sv0 & cl0 & Hb & Hr & He & Hsv & Hcl & P1 & P2 & Z1 & Z2).
  destruct (seal_total cl0 CLIENT_FINISH_JSON) as [finish_frame Hfin]; [rewrite Z2; unfold MAX_SEQUENCE; lia|unfold MAX_MESSAGE; simpl; lia|].
  exists text, est, cl0, (set_send_sequence cl0 (send_sequence cl0 + 1)), finish_frame. split_and!; try done.
  intros n rest st st1 st2 wr cl o Hres Hcomp Hval Hk Hok Hlen.
  assert (Hsent : Forall is_u8 CLIENT_FINISH_JSON) by (apply (bool_decide_unpack (Forall is_u8 _)); vm_compute; exact I).
  destruct (paired_both cl0 sv0 CLIENT_FINISH_JSON _ finish_frame ltac:(lia) Hsent P2 P1 Hfin) as (sv1 & Ho1 & P3 & P4 & Zs).
  destruct (seal_total sv1 (encode_server_finish (finish_of o))) as [frame Hseal];
    [rewrite Zs, Z1; unfold MAX_SEQUENCE; lia|done|].
  destruct (paired_both sv1 _ (encode_server_finish (finish_of o)) _ frame ltac:(lia) (encode_server_finish_u8 _ Hok) P4 P3 Hseal)
    as (cl2 & Ho2 & P5 & P6 & _).
  exists (set_send_sequence sv1 (send_sequence sv1 + 1)), frame, cl2, (encode_server_finish (finish_of o)).
  split_and!; [|done|by apply parse_encoded_finish|done|done].
  unfold exchange. pose proof (begin_parse _ _ _ Hb) as Hparse.
  rewrite (bind_ok _ _ _ _ _ (authenticate_run _ secret (hello hs) hs (4 + n) _ _ _ _ _ st1 Hparse Hb
             ltac:(by rewrite (begin_selector _ _ _ _ _ Hsel Hcn Hcu Hb)))).
  rewrite (begin_selector _ _ _ _ _ Hsel Hcn Hcu Hb).
  rewrite (bind_ok _ _ _ _ _ (establish_run secret hs server_private server_nonce c text est sv0 sv1 finish_frame
             CLIENT_FINISH_JSON (2 + n) rest st1 wr _ Hr Hsv Ho1 parse_own_finish)).
  by apply (commit_run sel sv1 o (b64_encode <$> outcome_secret o)).
Qed.

End Properties.

(** ** The in-memory store behind the interface *)

(** [MemoryAuthStore]: the document, a clock and a byte source. *)
Record LiveStore := mkLive {
  ls_now : Z;
  ls_rng : Z;
  ls_state : AuthState;
}.

#[export] Instance live_store : DeviceAuthStore LiveStore := {
  store_resolve s sel :=
    let '(st, r) := transact None (resolve (ls_state s) sel (ls_now s)) in
    (mkLive (ls_now s) (ls_rng s) st, r);
  store_complete s sel b :=
    let '(rng, st, r, m) := complete counter_fill (ls_state s) sel b (ls_now s) (ls_rng s) in
    let '(st, r) := transact None (st, r, m) in
    (mkLive (ls_now s) rng st, r);
}.

Definition live_demo : LiveStore := mkLive 5 7 demo_store.
Definition pairing_secret : bytes := replicate 32 2.
Definition relay_private : SecretKey := byte_ascii 11.
Definition device_private : SecretKey := byte_ascii 5.
Definition relay_nonce : bytes := replicate 32 8.
Definition device_nonce : bytes := replicate 32 7.
Definition device_hello : bytes := client_hello_bytes pairing_secret inv_sel device_private device_nonce.

(** The device's second frame, computed from the relay's answer. *)
Definition device_finish : bytes :=
  match begin device_hello pairing_secret with
  | Err _ => []
  | Ok hs =>
      match respond hs pairing_secret relay_private relay_nonce with
      | Err _ => []
      | Ok (text, _) =>
          match client_establish pairing_secret inv_sel device_private device_nonce text with
          | Err _ => []
          | Ok est =>
              match client_session est CodecBinary with
              | None => []
              | Some cl => match seal cl CLIENT_FINISH_JSON with (_, Ok f) => f | _ => [] end
              end
          end
      end
  end.

Definition demo_world : World LiveStore := mkWorld 10 [Ok device_hello; Ok device_finish] [] live_demo [] [].
Definition demo_run := exchange relay_private relay_nonce CodecBinary demo_world.

Lemma commit_requires_both_proofs_witness :
  exists raw_hello raw_finish rest secret hs,
    inbox demo_world = Ok raw_hello :: Ok raw_finish :: rest /\ begin raw_hello secret = Ok hs /\ selector (hello hs) = inv_sel.
Proof.
  destruct (commit_requires_both_proofs relay_private relay_nonce CodecBinary demo_world demo_run.1 demo_run.2 inv_sel)
    as (a & b & c & d & e & ? & ? & ? & ? & ? & H1 & _ & H2 & H3 & _).
  - apply surjective_pairing.
  - apply not_elem_of_nil.
  - assert (Hc : calls demo_run.1 = [CallResolve inv_sel; CallComplete inv_sel true]) by (vm_compute; reflexivity).
    rewrite Hc. right. left.
  - exists a, b, c, d, e. split; [exact H1|]. split; [exact H2|exact H3].
Defined.

Lemma malformed_hello_touches_nothing_witness :
  exchange relay_private relay_nonce CodecBinary (mkWorld 10 [Ok (as_bytes "{}")] [] live_demo [] [])
  = (mkWorld 9 [] [] live_demo [] [], Some (Err (Malformed UnsupportedClientHello))).
Proof.
  apply (malformed_hello_touches_nothing relay_private relay_nonce CodecBinary
           (mkWorld 10 [Ok (as_bytes "{}")] [] live_demo [] []) (as_bytes "{}") [] 9); reflexivity.
Defined.

Definition demo_outcome : AuthOutcome := redeemed_outcome.

Lemma honest_handshake_delivers_identity_witness :
  exists cl1 frame cl2 p, open cl1 frame = (cl2, Ok p) /\ parse_server_finish p = Ok (finish_of demo_outcome).
Proof.
  destruct (honest_handshake_delivers_identity (S := LiveStore) pairing_secret inv_sel device_private relay_private device_nonce relay_nonce CodecJson)
    as (text & est & cl0 & cl1 & ff & _ & _ & _ & Hrun).
  - split_and!; [reflexivity| |reflexivity..]. unfold is_u64, u64_max. simpl. lia.
  - reflexivity.
  - u8s.
  - reflexivity.
  - u8s.
  - destruct (Hrun 0%nat [] live_demo live_demo (mkLive 5 redeemed.1.1.1 redeemed.1.1.2) [] [] demo_outcome) as (sv & frame & cl2 & p & _ & H1 & H2 & _).
    + vm_compute. reflexivity.
    + vm_compute. reflexivity.
    + vm_compute. reflexivity.
    + reflexivity.
    + split_and!; try (vm_compute; reflexivity). unfold is_u64, u64_max. vm_compute. split; discriminate.
    + vm_compute. discriminate.
    + exists cl1, frame, cl2, p. split; [exact H1|exact H2].
Defined.

End HandshakeDriver.
