(* ===== verification/SessionActor.v ===== *)
(** * The session actor

    [lerdr-relay/src/session.rs]: one actor per authenticated client.  It
    opens encrypted frames, runs the admission gates (catalog, protocol,
    negotiated capability, server-session fence, credential and role, pane
    target), answers the device-administration actions out of the store, hands
    every other admitted action to the router, and drains its send buffer into
    sealed frames.  The store and the router are the traits the source is
    generic in; what the actor does to its hooks is the log [x_events].

    The actor's [select!] loop runs one of these handlers at a time; the pumps
    around it own the socket and are not modelled. *)

From S2P Require Import Prelude Utf8 JsonText Json JsonWire GoJson Civil Inbound Protocol WriteAudit SendBuffer UploadBinary.
From S2P Require Import E2eeCodec E2eeSession E2eeHandshake DeviceStore.
Import Utf8 JsonText Json JsonWire GoJson Civil Inbound Protocol WriteAudit SendBuffer.
Import E2eeCodec E2eeSession E2eeHandshake DeviceStore.

Module SessionActor.

(** ** Interfaces *)

(** [DeviceAuthStore]: the currency check and the administration surface. *)
Class DeviceAdminStore (S : Type) := {
  store_authorize : S -> string -> Z -> option Credential;
  list_devices : S -> result AuthError (list Credential);
  rename_device : S -> string -> string -> S * result AuthError Credential;
  revoke_device : S -> string -> S * result AuthError Credential;
  create_invitation : S -> string -> string -> string -> S * result AuthError IssuedInvitation;
  reset_devices : S -> option BootstrapRearm -> string -> S * result AuthError unit;
}.

Record ClientContext := mkClientContext {
  cx_client_id : string;
  cx_identity : AuthenticatedIdentity;
  cx_transport : string;
}.

(** [ActionRouter]. *)
Class ActionRouter (R : Type) := {
  route : R -> ClientContext -> RequestScope -> Inbound -> R * list Outbound;
  route_binary_chunk : R -> ClientContext -> UploadBinary.BinaryChunk -> R * list Outbound;
  validate_pane_target : R -> Inbound -> option ApiError;
}.

(** [StubRouter]: every routed action gets a [dispatched_unknown] receipt. *)
Inductive StubRouter := stub_router.

#[export] Instance stub_action_router : ActionRouter StubRouter := {
  route r _ scope message :=
    (r, [OActionReceipt (action_receipt_response (in_request_id message)
           (mkReceipt (action_id scope) DISPATCHED_UNKNOWN None))]);
  route_binary_chunk r _ _ := (r, [OActionReceipt (action_receipt_response "" (mkReceipt "" DISPATCHED_UNKNOWN None))]);
  validate_pane_target _ _ := None;
}.

(** [serde_json::to_string] of a wire DTO, and the text of a store failure. *)
Class SerdeText := { serde_text : json -> string }.
Class StoreErrorText := { store_error_text : StoreError -> string }.

(** ** Constants *)

Definition REVOKED_DISCONNECT_DELAY : Z := 250.

Definition DEVICE_BOUND_PUSH : list string :=
  ["push_open_ref"; "push_policy_get"; "push_policy_set"; "push_snooze"; "push_subscribe"; "push_test_device";
   "push_unsubscribe"; "push_viewed_pane"]%string.

(** [framezstd::CAPABILITY]. *)
Definition FRAME_ZSTD : string := "frame_zstd".

(** ** Ending a session *)

Inductive CloseStatus := Normal | GoingAway | Unauthorized.
Inductive CloseMode := Now | Graceful (status : CloseStatus).

Inductive EvictReason :=
| SendBufferFull (reason : RejectReason) | WriterLag | InboundLag | DecryptFailed | SealFailed | MalformedMessage
| CredentialRevoked.

Inductive EndKind :=
| PeerClosed (code : option Z) (reason : string) | Evicted (reason : EvictReason) | TransportFailed | Shutdown.

Record Directive := mkDirective {
  d_mode : CloseMode;
  d_reason : string;
  d_end : EndKind;
}.

(** The kill switch: the first directive stands, cancellation always
    propagates. *)
Record Signal := mkSignal {
  cancelled : bool;
  directive : option Directive;
}.

Definition new_signal : Signal := mkSignal false None.

Definition fire (s : Signal) (mode : CloseMode) (reason : string) (e : EndKind) : Signal :=
  mkSignal true (match directive s with Some d => Some d | None => Some (mkDirective mode reason e) end).

(** ** Negotiated capabilities *)

Record NegotiatedCaps := mkCaps {
  caps_server : gset string;
  caps_client : option (gset string);
  caps_gates : Negotiated;
}.

Definition default_caps : NegotiatedCaps := mkCaps (list_to_set CAPABILITIES) None (mkNegotiated false false).

Definition live (c : NegotiatedCaps) (capability : string) : bool :=
  bool_decide (capability ∈ caps_server c) &&
  match caps_client c with Some set => bool_decide (capability ∈ set) | None => false end.

Definition negotiated (c : NegotiatedCaps) : Negotiated :=
  mkNegotiated (live c FRAME_ZSTD) (live c UploadBinary.CAPABILITY).

Definition sync_gate (c : NegotiatedCaps) : NegotiatedCaps := mkCaps (caps_server c) (caps_client c) (negotiated c).

Definition announce (c : NegotiatedCaps) (inbound : Inbound) : NegotiatedCaps :=
  sync_gate (mkCaps (caps_server c) (Some (list_to_set (in_capabilities inbound))) (caps_gates c)).

Record OutboundPush := mkPush {
  p_data : bytes;
  p_kind : string;
  p_replaceable : bool;
}.

(** A [BTreeSet]'s elements in order. *)
Definition btree_set_list (s : gset string) : list string := merge_sort String.le (elements s).

Section Frames.
Context `{WireJson} `{FloatText} `{CaseMapping}.

(** [CapsFields]: absent and null both read as no list. *)
Definition de_caps (data : bytes) : option (option (list string)) :=
  v ← from_slice data;
  fs ← de_struct ["capabilities"%string] v;
  match fs with
  | [None] | [Some JNull] => Some None
  | [Some (JArray items)] => Some <$> mapM as_str items
  | _ => None
  end.

Definition observe (c : NegotiatedCaps) (push : OutboundPush) : NegotiatedCaps :=
  if negb (bool_decide (p_kind push = "push_config"%string)) && negb (bool_decide (p_kind push = "caps_update"%string)) then c
  else match de_caps (p_data push) with
  | Some (Some list) => sync_gate (mkCaps (list_to_set list) (caps_client c) (caps_gates c))
  | _ => c
  end.

Definition sniff_message_type (data : bytes) : option string :=
  v ← from_slice data;
  fs ← de_struct ["type"%string] v;
  match fs with [Some (JString s)] => Some s | _ => None end.

Definition of_negotiated (message : Outbound) (n : Negotiated) : OutboundPush :=
  let data := encode_negotiated message n in
  let kind := default ""%string (sniff_message_type data) in
  mkPush data kind (is_replaceable kind).
End Frames.

(** ** The actor *)

Inductive DevicePrune := PruneDevice (device_id : string) | PruneAll.

(** The parts of [SessionConfig] the actor consults; [Some] lookups stand for
    installed hooks, whose calls are logged as events. *)
Record SessionConfig := mkConfig {
  reset_bootstrap : option BootstrapRearm;
  disconnect_hook : bool;
  audit_hook : option (string -> Attribution);
  prune_hook : bool;
}.

Inductive event :=
| EvRoute (scope : RequestScope) (message : Inbound)
| EvRouteBinary (chunk : UploadBinary.BinaryChunk)
| EvAudit (record : AuditRecord)
| EvPrune (p : DevicePrune)
| EvDisconnect (requester : string) (pairs : list (string * Z)).

Section Actor.
Context `{Base64} `{WireJson} `{Aead} `{FloatText} `{CaseMapping} `{Digest} `{SerdeText} `{StoreErrorText}.
Context {S R : Type} `{DeviceAdminStore S} `{ActionRouter R}.

(** [x_sealed] are the frames handed to the writer pump, [x_room] how many more
    its channel takes before the writer catches up. *)
Record Actor := mkActor {
  x_session : Session;
  x_ident : AuthenticatedIdentity;
  x_auth : S;
  x_router : R;
  x_buffer : SendBuffer;
  x_client_id : string;
  x_transport : string;
  x_sealed : list bytes;
  x_room : nat;
  x_signal : Signal;
  x_config : SessionConfig;
  x_revoked_at : option Z;
  x_pending_disconnects : list (string * Z);
  x_self_disconnect : bool;
  x_caps : NegotiatedCaps;
  x_events : list event;
}.

Definition set_session (x : Actor) (s : Session) : Actor :=
  mkActor s (x_ident x) (x_auth x) (x_router x) (x_buffer x) (x_client_id x) (x_transport x) (x_sealed x) (x_room x) (x_signal x) (x_config x) (x_revoked_at x) (x_pending_disconnects x) (x_self_disconnect x) (x_caps x) (x_events x).
Definition set_auth (x : Actor) (s : S) : Actor :=
  mkActor (x_session x) (x_ident x) s (x_router x) (x_buffer x) (x_client_id x) (x_transport x) (x_sealed x) (x_room x) (x_signal x) (x_config x) (x_revoked_at x) (x_pending_disconnects x) (x_self_disconnect x) (x_caps x) (x_events x).
Definition set_router (x : Actor) (r : R) : Actor :=
  mkActor (x_session x) (x_ident x) (x_auth x) r (x_buffer x) (x_client_id x) (x_transport x) (x_sealed x) (x_room x) (x_signal x) (x_config x) (x_revoked_at x) (x_pending_disconnects x) (x_self_disconnect x) (x_caps x) (x_events x).
Definition set_buffer (x : Actor) (b : SendBuffer) : Actor :=
  mkActor (x_session x) (x_ident x) (x_auth x) (x_router x) b (x_client_id x) (x_transport x) (x_sealed x) (x_room x) (x_signal x) (x_config x) (x_revoked_at x) (x_pending_disconnects x) (x_self_disconnect x) (x_caps x) (x_events x).
Definition set_sealed (x : Actor) (l : list bytes) (n : nat) : Actor :=
  mkActor (x_session x) (x_ident x) (x_auth x) (x_router x) (x_buffer x) (x_client_id x) (x_transport x) l n (x_signal x) (x_config x) (x_revoked_at x) (x_pending_disconnects x) (x_self_disconnect x) (x_caps x) (x_events x).
Definition set_signal (x : Actor) (s : Signal) : Actor :=
  mkActor (x_session x) (x_ident x) (x_auth x) (x_router x) (x_buffer x) (x_client_id x) (x_transport x) (x_sealed x) (x_room x) s (x_config x) (x_revoked_at x) (x_pending_disconnects x) (x_self_disconnect x) (x_caps x) (x_events x).
Definition set_caps (x : Actor) (c : NegotiatedCaps) : Actor :=
  mkActor (x_session x) (x_ident x) (x_auth x) (x_router x) (x_buffer x) (x_client_id x) (x_transport x) (x_sealed x) (x_room x) (x_signal x) (x_config x) (x_revoked_at x) (x_pending_disconnects x) (x_self_disconnect x) c (x_events x).
Definition set_disconnects (x : Actor) (at_ : option Z) (l : list (string * Z)) (b : bool) : Actor :=
  mkActor (x_session x) (x_ident x) (x_auth x) (x_router x) (x_buffer x) (x_client_id x) (x_transport x) (x_sealed x) (x_room x) (x_signal x) (x_config x) at_ l b (x_caps x) (x_events x).
Definition emit (x : Actor) (l : list event) : Actor :=
  mkActor (x_session x) (x_ident x) (x_auth x) (x_router x) (x_buffer x) (x_client_id x) (x_transport x) (x_sealed x) (x_room x) (x_signal x) (x_config x) (x_revoked_at x) (x_pending_disconnects x) (x_self_disconnect x) (x_caps x) (x_events x ++ l).

(** Loop control: [false] stops the actor. *)
Definition CONTINUE : bool := true.
Definition STOP : bool := false.

Definition evict (x : Actor) (reason : EvictReason) : Actor * bool :=
  (set_signal x (fire (x_signal x) (Graceful Normal) "" (Evicted reason)), STOP).

(** *** Sending *)

Definition handle_push (x : Actor) (push : OutboundPush) : Actor * bool :=
  let x := set_caps x (observe (x_caps x) push) in
  match push_typed (x_buffer x) (p_data push) (p_kind push) (p_replaceable push) with
  | (b, Rejected reason) => evict (set_buffer x b) (SendBufferFull reason)
  | (b, Queued) | (b, Coalesced) => (set_buffer x b, CONTINUE)
  end.

Definition enqueue (x : Actor) (message : Outbound) : Actor * bool :=
  handle_push x (of_negotiated message (negotiated (x_caps x))).

Fixpoint enqueue_all (x : Actor) (messages : list Outbound) : Actor * bool :=
  match messages with
  | [] => (x, CONTINUE)
  | m :: rest =>
      match enqueue x m with
      | (x, true) => enqueue_all x rest
      | (x, false) => (x, STOP)
      end
  end.

(** The [while let Some(..) = pop()] loop; [n] bounds the iterations. *)
Fixpoint drain_loop (n : nat) (x : Actor) : Actor * bool :=
  match pop (x_buffer x) with
  | (_, None) => (x, CONTINUE)
  | (b, Some plaintext) =>
      match n with
      | O => (x, CONTINUE)
      | Datatypes.S n =>
          let x := set_buffer x b in
          match seal (x_session x) plaintext with
          | (s, Err _) => evict (set_session x s) SealFailed
          | (s, Ok frame) =>
              let x := set_session x s in
              match x_room x with
              | O => evict x WriterLag
              | Datatypes.S room => drain_loop n (set_sealed x (x_sealed x ++ [frame]) room)
              end
          end
      end
  end.

Definition drain (x : Actor) : Actor * bool := drain_loop (len (x_buffer x)) x.

(** *** Errors *)

Definition arg (k v : string) (m : gmap string json) : gmap string json := <[k := JString v]> m.

Definition reader_denied (op : string) : ApiError := ApiError_new READER_DENIED (arg "operation" op ∅).

Definition send_error (x : Actor) (request_id : string) (e : ApiError) : Actor * bool :=
  enqueue x (OError (error_response request_id e)).

Definition field_error (x : Actor) (inbound : Inbound) (f : string) : Actor * bool :=
  send_error x (in_request_id inbound) (ApiError_new INVALID_REQUEST (arg "field" f ∅)).

(** *** Authorization *)

Definition authorize (x : Actor) (action : ActionMetadata) (device_id : string) : option ApiError :=
  let i := x_ident x in
  let current := store_authorize (x_auth x) (id_credential i) (id_version i) in
  let role := match current with
              | Some c => if decide (c_device_id c = id_device i) then Some (c_role c) else None
              | None => None
              end in
  match role with
  | None => Some (ApiError_new READER_DENIED (arg "reason" "credential_revoked" (arg "operation" (operation action) ∅)))
  | Some role =>
      if decide (operation action ∈ DEVICE_BOUND_PUSH) then
        if decide (id_device i = ""%string) then Some (reader_denied (operation action)) else None
      else if decide (Protocol.class action = ReadOnly \/ role = Controller) then None
      else if decide (operation action = "revoke_device"%string /\ device_id <> ""%string /\ device_id = id_device i) then None
      else Some (reader_denied (operation action))
  end.

(** *** Device administration *)

Definition auth_error_text (e : AuthError) : string :=
  match e with
  | Failed => "device authentication failed"
  | Revoked => "device credential revoked"
  | InvitationExpired => "invitation expired"
  | InvitationBurned => "invitation burned"
  | RateLimited => "invitation attempt rate limited"
  | NotFound => "device credential not found"
  | LastController => "cannot revoke the last controller"
  | InvalidName => "invalid device name"
  | InvalidRole => "invalid device role"
  | InvalidLocale => "invalid device locale"
  | Unsupported => "Device management is unavailable"
  | Store e => "device store failure: " +:+ store_error_text e
  end.

Record AdminOutcome := mkOutcome {
  ao_result : result string (option string);
  ao_disconnects : list (string * Z);
  ao_self_disconnect : bool;
}.

Definition outcome_ok (data : json) : AdminOutcome := mkOutcome (Ok (Some (serde_text data))) [] false.
Definition outcome_ok_empty : AdminOutcome := mkOutcome (Ok None) [] false.
Definition outcome_failed (e : string) : AdminOutcome := mkOutcome (Err e) [] false.
Definition disconnecting (o : AdminOutcome) : AdminOutcome := mkOutcome (ao_result o) (ao_disconnects o) true.
Definition with_disconnects (o : AdminOutcome) (l : list (string * Z)) : AdminOutcome :=
  mkOutcome (ao_result o) l (ao_self_disconnect o).

Definition device_wire (c : Credential) (current : bool) : json :=
  JObject ([("device_id", JString (c_device_id c)); ("credential_id", JString (c_credential_id c));
    ("name", JString (c_name c)); ("role", JString (role_as_str (c_role c))); ("locale", JString (c_locale c));
    ("paired_at", JString (wire_time (c_paired_at_ms c))); ("last_seen_at", JString (wire_time (c_last_seen_at_ms c)));
    ("version", JNumber (PosInt (c_version c))); ("revoked", JBool (c_revoked c))]%string ++
    if current then [("current"%string, JBool true)] else []).

Definition invitation_wire (i : IssuedInvitation) : json :=
  JObject [("invitation_id", JString (iss_id i)); ("version", JNumber (PosInt (iss_version i)));
    ("secret", JString (iss_secret i)); ("expires_at", JString (wire_time (iss_expires_at_ms i)));
    ("name", JString (iss_name i)); ("role", JString (role_as_str (iss_role i))); ("locale", JString (iss_locale i))]%string.

Definition admin_list (x : Actor) : AdminOutcome :=
  match list_devices (x_auth x) with
  | Err e => outcome_failed (auth_error_text e)
  | Ok credentials =>
      let devices := (fun c => device_wire c (bool_decide (c_credential_id c = id_credential (x_ident x)))) <$>
                     filter (fun c => c_revoked c = false) credentials in
      outcome_ok (JObject [("current_device_id", JString (id_device (x_ident x))); ("devices", JArray devices);
                           ("role", JString (role_as_str (id_role (x_ident x))))]%string)
  end.

Definition admin_create_invitation (x : Actor) (inbound : Inbound) : Actor * AdminOutcome :=
  match create_invitation (x_auth x) (in_name inbound) (in_role inbound) (id_locale (x_ident x)) with
  | (s, Ok invitation) => (set_auth x s, outcome_ok (JObject [("invitation"%string, invitation_wire invitation)]))
  | (s, Err e) => (set_auth x s, outcome_failed (auth_error_text e))
  end.

Definition credential_id_for (x : Actor) (device_id : string) : result AuthError (option string) :=
  if decide (trim device_id = ""%string) then Ok None
  else
    credentials ← list_devices (x_auth x);
    Ok (c_credential_id <$> (snd <$> list_find (fun c => c_device_id c = device_id) credentials)).

Definition admin_rename (x : Actor) (inbound : Inbound) : Actor * AdminOutcome :=
  match credential_id_for x (in_device_id inbound) with
  | Err e => (x, outcome_failed (auth_error_text e))
  | Ok None => (x, outcome_failed "Device credential was not found")
  | Ok (Some cid) =>
      match rename_device (x_auth x) cid (in_name inbound) with
      | (s, Ok c) => (set_auth x s, outcome_ok (JObject [("device"%string, device_wire c false)]))
      | (s, Err e) => (set_auth x s, outcome_failed (auth_error_text e))
      end
  end.

Definition prune (x : Actor) (p : DevicePrune) : Actor := if prune_hook (x_config x) then emit x [EvPrune p] else x.

Definition admin_revoke (x : Actor) (inbound : Inbound) : Actor * AdminOutcome :=
  match credential_id_for x (in_device_id inbound) with
  | Err e => (x, outcome_failed (auth_error_text e))
  | Ok None => (x, outcome_failed "Device credential was not found")
  | Ok (Some cid) =>
      match revoke_device (x_auth x) cid with
      | (s, Ok c) =>
          let x := prune (set_auth x s) (PruneDevice (c_device_id c)) in
          let outcome := with_disconnects (outcome_ok (JObject [("device"%string, device_wire c false)]))
                           [(c_credential_id c, c_version c)] in
          (x, if decide (c_credential_id c = id_credential (x_ident x)) then disconnecting outcome else outcome)
      | (s, Err e) => (set_auth x s, outcome_failed (auth_error_text e))
      end
  end.

Definition admin_reset (x : Actor) : Actor * AdminOutcome :=
  match list_devices (x_auth x) with
  | Err e => (x, outcome_failed (auth_error_text e))
  | Ok active =>
      match reset_devices (x_auth x) (reset_bootstrap (x_config x)) (id_locale (x_ident x)) with
      | (s, Ok _) =>
          (prune (set_auth x s) PruneAll,
           with_disconnects (disconnecting outcome_ok_empty)
             ((fun c => (c_credential_id c, c_version c)) <$> filter (fun c => c_revoked c = false) active))
      | (s, Err e) => (set_auth x s, outcome_failed (auth_error_text e))
      end
  end.

Definition command_result (request_id action : string) (ok : bool) (error : string) (data : option string) : Outbound :=
  OCommandResult (mkCommandResult (Some action) (UploadBinary.Value <$> data) (Some error) (Some ok) (Some ""%string)
    (Some (if ok then "completed" else "failed")%string) (Some request_id) "command_result").

(** The dispatch of [device_admin]: the outcome, or [None] for an action the
    router sees. *)
Definition admin_action (x : Actor) (scope : RequestScope) (inbound : Inbound) : option (Actor * AdminOutcome) :=
  let op := operation (action scope) in
  if decide (op = "device_list"%string) then Some (x, admin_list x)
  else if decide (op = "create_device_invitation"%string) then Some (admin_create_invitation x inbound)
  else if decide (op = "rename_device"%string) then Some (admin_rename x inbound)
  else if decide (op = "revoke_device"%string) then Some (admin_revoke x inbound)
  else if decide (op = "reset_devices"%string) then Some (admin_reset x)
  else None.

(** Arming the deferred sweep: back-to-back actions keep the earliest
    deadline. *)
Definition arm_disconnect (x : Actor) (o : AdminOutcome) (now : Z) : Actor :=
  if ao_self_disconnect o || negb (bool_decide (ao_disconnects o = [])) then
    let at_ := now + REVOKED_DISCONNECT_DELAY in
    set_disconnects x (Some (match x_revoked_at x with Some armed => Z.min armed at_ | None => at_ end))
      (x_pending_disconnects x ++ ao_disconnects o) (x_self_disconnect x || ao_self_disconnect o)
  else x.

Definition device_admin (x : Actor) (scope : RequestScope) (inbound : Inbound) (now : Z) : option (Actor * list Outbound) :=
  '(x, outcome) ← admin_action x scope inbound;
  let op := operation (action scope) in
  match ao_result outcome with
  | Ok data =>
      Some (arm_disconnect x outcome now,
        [command_result (in_request_id inbound) op true "" data;
         OActionReceipt (action_receipt_response (in_request_id inbound) (mkReceipt (action_id scope) CONFIRMED None))])
  | Err e => Some (x, [command_result (in_request_id inbound) op false e None])
  end.

(** *** Auditing *)

(** One [result] row per [command_result] of a reply. *)
Definition audit_results (ctx : option (RequestContext * (string -> Attribution))) (reply : list Outbound) : list event :=
  match ctx with
  | None => []
  | Some (ctx, attribution) =>
      omap (fun m => match m with
                     | OCommandResult r => Some (EvAudit (result_record ctx r (attribution (rc_pane_id ctx))))
                     | _ => None
                     end) reply
  end.

(** The [attempt] row, written at admission. *)
Definition audit_attempt (x : Actor) (op : string) (raw_map : message_map)
    : Actor * option (RequestContext * (string -> Attribution)) :=
  match audit_hook (x_config x) with
  | Some attribution =>
      if is_audited op then
        let ctx := from_message raw_map (x_client_id x) in
        (emit x [EvAudit (attempt_record ctx raw_map (attribution (rc_pane_id ctx)))], Some (ctx, attribution))
      else (x, None)
  | None => (x, None)
  end.

Definition client_context (x : Actor) : ClientContext := mkClientContext (x_client_id x) (x_ident x) (x_transport x).

(** *** Dispatch *)

(** The [server_session_id] fence: message and target must agree, and only
    "primary" is a destination. *)
Definition session_fence (scope : RequestScope) : bool :=
  let requested := server_session_id scope in
  let agree := match target scope with
               | Some t => bool_decide (requested = ""%string) || bool_decide (t_server_session_id t = ""%string) ||
                           bool_decide (requested = t_server_session_id t)
               | None => true
               end in
  let requested := match target scope with
                   | Some t => if decide (requested = ""%string) then t_server_session_id t else requested
                   | None => requested
                   end in
  agree && (bool_decide (requested = ""%string) || bool_decide (requested = "primary"%string)).

(** The admitted action: audit, then the store or the router, then the replies
    in order. *)
Definition execute (x : Actor) (scope : RequestScope) (inbound : Inbound) (raw_map : message_map) (now : Z) : Actor * bool :=
  let '(x, audit_ctx) := audit_attempt x (operation (action scope)) raw_map in
  match device_admin x scope inbound now with
  | Some (x, reply) => enqueue_all (emit x (audit_results audit_ctx reply)) reply
  | None =>
      let '(r, reply) := route (x_router x) (client_context x) scope inbound in
      let x := emit (set_router x r) [EvRoute scope inbound] in
      enqueue_all (emit x (audit_results audit_ctx reply)) reply
  end.

(** The gates after negotiation. *)
Definition pass_gates (x : Actor) (scope : RequestScope) (inbound : Inbound) (raw_map : message_map) (now : Z) : Actor * bool :=
  if negb (session_fence scope) then field_error x inbound "server_session_id"
  else match authorize x (action scope) (in_device_id inbound) with
  | Some e => send_error x (in_request_id inbound) e
  | None =>
      match validate_pane_target (x_router x) inbound with
      | Some e => send_error x (in_request_id inbound) e
      | None => execute x scope inbound raw_map now
      end
  end.

Definition dispatch (x : Actor) (inbound : Inbound) (raw_map : message_map) (now : Z) : Actor * bool :=
  match for_message inbound with
  | None => send_error x (in_request_id inbound) (ApiError_new UNKNOWN_ACTION (arg "operation" (in_type inbound) ∅))
  | Some scope =>
      let op := operation (action scope) in
      if negb (compatible inbound) then enqueue x (OActionReceipt (incompatible_response inbound))
      else if decide (op = "client_caps"%string \/ op = "caps_update"%string) then
        let x := set_caps x (announce (x_caps x) inbound) in
        if decide (op = "client_caps"%string) then
          enqueue x (OCapsUpdate (mkCapsUpdate (Some (UploadBinary.Value (btree_set_list (caps_server (x_caps x))))) "caps_update"))
        else (x, CONTINUE)
      else
        match required_capability op with
        | Some capability =>
            if negb (live (x_caps x) capability)
            then send_error x (in_request_id inbound)
                   (ApiError_new CAPABILITY_UNSUPPORTED (arg "capability" capability (arg "operation" op ∅)))
            else pass_gates x scope inbound raw_map now
        | None => pass_gates x scope inbound raw_map now
        end
  end.

(** An [upload_chunk] on the binary carrier; the action is catalogued (lemma
    [upload_chunk_cataloged]). *)
Definition dispatch_binary (x : Actor) (plaintext : bytes) : Actor * bool :=
  if negb (live (x_caps x) UploadBinary.CAPABILITY) then
    send_error x "" (ApiError_new CAPABILITY_UNSUPPORTED
      (arg "capability" UploadBinary.CAPABILITY (arg "operation" "upload_chunk" ∅)))
  else match UploadBinary.decode_chunk plaintext with
  | None => evict x MalformedMessage
  | Some chunk =>
      let action := default (mutate_action "upload_chunk" false true) (classify_action "upload_chunk") in
      match authorize x action (id_device (x_ident x)) with
      | Some e => send_error x "" e
      | None =>
          let '(r, reply) := route_binary_chunk (x_router x) (client_context x) chunk in
          enqueue_all (emit (set_router x r) [EvRouteBinary chunk]) reply
      end
  end.

Definition handle_frame (x : Actor) (raw : bytes) (now : Z) : Actor * bool :=
  match E2eeSession.open (x_session x) raw with
  | (s, Err _) => evict (set_session x s) DecryptFailed
  | (s, Ok plaintext) =>
      let x := set_session x s in
      if UploadBinary.is_binary_frame plaintext then dispatch_binary x plaintext
      else match from_slice_map plaintext with
      | None => evict x MalformedMessage
      | Some raw_map =>
          match decode_map raw_map with
          | Err _ => enqueue x (OError (decode_failure_response raw_map))
          | Ok inbound => dispatch x inbound raw_map now
          end
      end
  end.

Definition disconnect_revoked (x : Actor) : Actor * bool :=
  let pairs := x_pending_disconnects x in
  let self := x_self_disconnect x in
  let x := set_disconnects x None [] self in
  let x := if disconnect_hook (x_config x) then emit x [EvDisconnect (x_client_id x) pairs] else x in
  if negb self then (x, CONTINUE)
  else
    let x := set_disconnects x None [] false in
    (set_signal x (fire (x_signal x) (Graceful GoingAway) "device credential revoked" (Evicted CredentialRevoked)), STOP).

End Actor.

End SessionActor.
