(* ===== verification/DeviceAdmin.v ===== *)
(** * The device store behind the session actor

    [MemoryAuthStore] ([lerdr-relay/src/store.rs]) as a [DeviceAdminStore]:
    each method is the corresponding operation of the store core run through
    [transact].  [DeviceAdminStoreLaws] states what the session layer relies
    on — which credentials an administration call can take away — and the
    memory store is proved to satisfy it. *)

From S2P Require Import Prelude Utf8 JsonText Json JsonWire GoJson Inbound Protocol WriteAudit SendBuffer E2eeCodec.
From S2P Require Import E2eeSession E2eeHandshake DeviceStore DeviceStoreInvariant HandshakeDriver SessionActor.
Import Utf8 Json JsonWire GoJson Inbound Protocol WriteAudit SendBuffer E2eeCodec E2eeInstances E2eeSession E2eeHandshake DeviceStore DeviceStoreInvariant HandshakeDriver SessionActor.

Module DeviceAdmin.

(** ** The instance *)

Definition with_state (s : LiveStore) (st : AuthState) : LiveStore := mkLive (ls_now s) (ls_rng s) st.

Definition through {T} (s : LiveStore) (out : AuthState * result AuthError T * bool) : LiveStore * result AuthError T :=
  let '(st, r) := transact None out in (with_state s st, r).

Definition memory_create_invitation (s : LiveStore) (name role locale : string) : LiveStore * result AuthError IssuedInvitation :=
  let '(rng, st, r, m) := create counter_fill (ls_state s) name role locale (ls_now s) (ls_rng s) in
  let r := match r with Ok i => Ok (issued i) | Err e => Err e end in
  let '(st, r) := transact None (st, r, m) in
  (mkLive (ls_now s) rng st, r).

#[export] Instance memory_admin : DeviceAdminStore LiveStore := {
  store_authorize s cid v := DeviceStore.authorize (ls_state s) cid v;
  list_devices s := Ok (list_credentials (ls_state s));
  rename_device s cid name := through s (rename (ls_state s) cid name);
  revoke_device s cid := through s (revoke (ls_state s) cid);
  create_invitation := memory_create_invitation;
  reset_devices s rearm locale := through s (reset (ls_state s) rearm locale (ls_now s));
}.

(** ** Laws *)

Class DeviceAdminStoreLaws (S : Type) `{DeviceAdminStore S} := {
  store_wf : S -> Prop;
  (** An authorized credential is listed, active, at that version. *)
  authorized_listed s cid v c :
    store_authorize s cid v = Some c ->
    c_credential_id c = cid /\ c_version c = v /\ c_revoked c = false /\
    forall l, list_devices s = Ok l -> c ∈ l;
  (** Renaming and inviting take no credential away. *)
  rename_keeps s cid name c v :
    is_Some (store_authorize s c v) -> is_Some (store_authorize (rename_device s cid name).1 c v);
  create_keeps s name role locale c v :
    is_Some (store_authorize s c v) -> is_Some (store_authorize (create_invitation s name role locale).1 c v);
  (** Revoking takes at most its target away, reporting a version past it. *)
  revoke_keeps s cid c v :
    store_wf s -> is_Some (store_authorize s c v) ->
    is_Some (store_authorize (revoke_device s cid).1 c v) \/
    (c = cid /\ exists cr, (revoke_device s cid).2 = Ok cr /\ c_credential_id cr = cid /\ v <= c_version cr);
  (** A refused reset takes nothing away. *)
  reset_keeps s rearm locale c v :
    is_Some (store_authorize s c v) ->
    is_Some (store_authorize (reset_devices s rearm locale).1 c v) \/ (reset_devices s rearm locale).2 = Ok tt;
}.

(** ** The memory store satisfies them *)

Lemma authorize_Some st cid v c :
  DeviceStore.authorize st cid v = Some c <->
  exists i r, credential_index st cid = Some i /\ credentials st !! i = Some r /\ credential r = c /\
    c_revoked c = false /\ c_version c = v.
Proof.
  unfold DeviceStore.authorize. split.
  - destruct (credential_index st cid) as [i|]; [|done]. cbn [mbind option_bind].
    destruct (credentials st !! i) as [r|] eqn:Hr; [|done]. cbn [mbind option_bind].
    destruct (c_revoked (credential r)) eqn:Hv; cbn [orb]; [done|]. case_bool_decide as Hver; [done|].
    intros [= <-]. exists i, r. by split_and!.
  - intros (i & r & Hi & Hr & Hc & Hv & Hver). rewrite Hi. cbn [mbind option_bind]. rewrite Hr. cbn [mbind option_bind].
    rewrite Hc, Hv, bool_decide_eq_false_2 by tauto. done.
Qed.

Lemma authorize_same st st' cid v :
  credentials st' = credentials st -> DeviceStore.authorize st' cid v = DeviceStore.authorize st cid v.
Proof. intros Hc. unfold DeviceStore.authorize, credential_index. by rewrite Hc. Qed.

Lemma credentials_drop st c : credentials (drop_pending st c) = credentials st.
Proof. unfold drop_pending. destruct (invitation st); [|done]. by case_decide. Qed.

(** Updating one record keeps the authorization of every other credential, and
    of its own when version and activity stay. *)
Lemma authorize_update st i r r' c v :
  credentials st !! i = Some r -> cid_of r' = cid_of r ->
  (c = cid_of r -> c_revoked (credential r') = c_revoked (credential r) /\ c_version (credential r') = c_version (credential r)) ->
  is_Some (DeviceStore.authorize st c v) ->
  is_Some (DeviceStore.authorize (set_credentials st (<[i := r']> (credentials st))) c v).
Proof.
  intros Hi Hid Hsame [cr Hc]. apply authorize_Some in Hc as (j & x & Hj & Hx & <- & Hrev & Hver).
  destruct (index_lookup _ _ _ Hj) as (x' & Hx' & Hcid). rewrite Hx in Hx'. injection Hx' as <-.
  destruct (decide (i = j)) as [<-|Hne].
  - rewrite Hi in Hx. injection Hx as <-. destruct (Hsame (eq_sym Hcid)) as [H1 H2].
    exists (credential r'). apply authorize_Some. exists i, r'. rewrite (index_update st i r) by done.
    split_and!; [done|apply list_lookup_insert_eq; by eapply lookup_lt_Some|done|congruence|congruence].
  - exists (credential x). apply authorize_Some. exists j, x. rewrite (index_update st i r) by done.
    split_and!; [done| |done..]. cbn [credentials set_credentials]. by rewrite list_lookup_insert_ne.
Qed.

Lemma through_state {T} s (out : AuthState * result AuthError T * bool) : ls_state (through s out).1 = out.1.1.
Proof. destruct out as [[st r] []]; done. Qed.
Lemma through_result {T} s (out : AuthState * result AuthError T * bool) : (through s out).2 = out.1.2.
Proof. destruct out as [[st r] []]; done. Qed.

Lemma revoke_authorized st cid c v :
  Forall version_ok (credentials st) -> is_Some (DeviceStore.authorize st c v) ->
  is_Some (DeviceStore.authorize (revoke st cid).1.1 c v) \/
  (c = cid /\ exists cr, (revoke st cid).1.2 = Ok cr /\ c_credential_id cr = cid /\ v <= c_version cr).
Proof.
  intros Hver Ha. unfold revoke. destruct (credential_index st cid) as [i|] eqn:Hi; [|by left].
  destruct (index_lookup _ _ _ Hi) as (r & Hr & Hcid). rewrite Hr.
  destruct (active r && _); [by left|]. cbv zeta. cbn [fst snd].
  rewrite (authorize_same _ _ c v (credentials_drop _ cid)).
  destruct (decide (c = cid)) as [->|Hne].
  - right. split; [done|]. exists (credential (tombstone r)). split; [done|].
    destruct (tombstone_ids r) as [_ ->]. split; [done|].
    destruct Ha as [cr Hc]. apply authorize_Some in Hc as (j & x & Hj & Hx & <- & Hrev & <-).
    rewrite Hi in Hj. injection Hj as <-. rewrite Hr in Hx. injection Hx as <-.
    unfold tombstone. rewrite Hrev. cbn [credential c_version].
    pose proof (Forall_lookup_1 _ _ _ _ Hver Hr) as [[Hlo _] Hlt]. specialize (Hlt Hrev). unfold u64_max in Hlt.
    rewrite Z.mod_small by lia. lia.
  - left. apply (authorize_update st i r); [done|apply tombstone_ids|congruence|done].
Qed.

#[export] Program Instance memory_admin_laws : DeviceAdminStoreLaws LiveStore := {
  store_wf s := Forall version_ok (credentials (ls_state s));
}.
Next Obligation.
  intros s cid v c Ha. apply authorize_Some in Ha as (i & r & Hi & Hr & <- & Hrev & Hver).
  destruct (index_lookup _ _ _ Hi) as (r' & Hr' & Hcid). rewrite Hr in Hr'. injection Hr' as <-.
  split_and!; try done. intros l. cbn. intros [= <-]. unfold list_credentials. apply list_elem_of_fmap. exists r.
  split; [done|]. by eapply list_elem_of_lookup_2.
Qed.
Next Obligation.
  intros s cid name c v Ha. cbn [store_authorize memory_admin rename_device] in *. rewrite through_state.
  unfold rename. cbv zeta. destruct (negb _); [done|]. destruct (credential_index (ls_state s) cid) as [i|]; [|done].
  destruct (credentials (ls_state s) !! i) as [r|] eqn:Hr; [|done]. by apply (authorize_update _ i r).
Qed.
Next Obligation.
  intros s name role locale c v Ha. cbn [store_authorize memory_admin create_invitation] in *.
  unfold memory_create_invitation, create. destruct (validate_metadata _ _ _) as [[[n ro] l]|e]; [|done].
  destruct (counter_fill _ _) as [rng1 raw1]. by destruct (counter_fill rng1 _) as [rng2 raw2].
Qed.
Next Obligation.
  intros s cid c v Hwf Ha. cbn [store_authorize memory_admin revoke_device] in *. rewrite through_state, through_result.
  by apply revoke_authorized.
Qed.
Next Obligation.
  intros s rearm locale c v Ha. cbn [store_authorize memory_admin reset_devices] in *. rewrite through_state, through_result.
  unfold reset. cbv zeta.
  match goal with |- context [match ?m with Ok _ => _ | Err _ => _ end] => destruct m as [inv|e] end; [by right|by left].
Qed.

(** ** Concrete parameters for closed examples *)

#[export] Instance demo_float_text : FloatText := {| float_text := fun _ => [48] |}.
#[export] Instance demo_sha : Digest := {| sha256_hex := fun b => decimal (Z.of_nat (length b)) |}.
#[export] Instance ascii_case : CaseMapping :=
  {| to_lowercase := fun s => string_of_bytes (lower_char <$> as_bytes s) |}.
#[export] Instance demo_serde : SerdeText := {| serde_text := fun v => string_of_bytes (to_vec v) |}.
#[export] Instance demo_store_text : StoreErrorText := {| store_error_text := fun _ => "store" |}.

(** The session of device [d], credential [c], over the demo store. *)
Definition demo_actor (d c : string) (role : Role) : Actor (S := LiveStore) (R := StubRouter) :=
  mkActor demo_server (mkIdentity d c role "en" 1) live_demo stub_router SendBuffer.new "client-1" "ws" [] 64
    new_signal (mkConfig None true (Some (fun _ => mkAttribution "" "" "" "")) true) None [] false default_caps [].

(** A frame of the client holding [m]. *)
Definition client_frame (m : bytes) : bytes := from_option (fun b => b) [] (sealed demo_client [m] !! 0%nat).

End DeviceAdmin.
