(* ===== verification/SessionGates.v ===== *)
(** * What the session actor lets through

    Theorems about [SessionActor]: an effect on the store, the router, the
    audit log or the hooks implies that every admission gate passed; a reader
    changes nothing but its own credential; a session whose credential is no
    longer current does nothing; draining delivers the buffered messages, in
    order, to the paired peer. *)

From S2P Require Import Prelude Utf8 JsonText Json JsonWire GoJson Civil Inbound Protocol WriteAudit SendBuffer UploadBinary.
From S2P Require Import E2eeCodec E2eeSession E2eeHandshake DeviceStore DeviceStoreInvariant HandshakeDriver SessionActor DeviceAdmin.
Import Utf8 JsonText Json JsonWire GoJson Civil Inbound Protocol WriteAudit SendBuffer.
Import E2eeCodec E2eeSession E2eeHandshake DeviceStore DeviceStoreInvariant HandshakeDriver SessionActor DeviceAdmin.

Module SessionGates.

Lemma upload_chunk_cataloged : classify_action "upload_chunk" = Some (mutate_action "upload_chunk" false true).
Proof. vm_compute. reflexivity. Qed.

Section Gates.
Context `{Base64} `{WireJson} `{Aead} `{FloatText} `{CaseMapping} `{Digest} `{SerdeText} `{StoreErrorText}.
Context {S R : Type} `{DeviceAdminStore S} `{ActionRouter R}.
Implicit Types (x : Actor (S := S) (R := R)).

(** ** Sending has no other effect *)

(** [x'] differs from [x] at most in its buffer, capabilities, kill switch and
    session counters. *)
Record inert x x' : Prop := {
  in_auth : x_auth x' = x_auth x;
  in_router : x_router x' = x_router x;
  in_events : x_events x' = x_events x;
  in_ident : x_ident x' = x_ident x;
  in_config : x_config x' = x_config x;
  in_client : x_client_id x' = x_client_id x;
  in_disconnects : x_pending_disconnects x' = x_pending_disconnects x;
  in_deadline : x_revoked_at x' = x_revoked_at x;
  in_self : x_self_disconnect x' = x_self_disconnect x;
}.

Lemma inert_refl x : inert x x.
Proof. by split. Qed.

Lemma inert_trans x y z : inert x y -> inert y z -> inert x z.
Proof. intros [] []. split; congruence. Qed.

Lemma inert_set_session x s : inert x (set_session x s).
Proof. by split. Qed.
Lemma inert_set_caps x c : inert x (set_caps x c).
Proof. by split. Qed.
Lemma inert_evict x r : inert x (evict x r).1.
Proof. by split. Qed.

Lemma inert_handle_push x p : inert x (handle_push x p).1.
Proof. unfold handle_push. cbv zeta. destruct (push_typed _ _ _ _) as [b [r| |]]; by split. Qed.

Lemma inert_enqueue x m : inert x (enqueue x m).1.
Proof. apply inert_handle_push. Qed.

Lemma inert_enqueue_all x ms : inert x (enqueue_all x ms).1.
Proof.
  revert x. induction ms as [|m ms IH]; intros x; [apply inert_refl|]. cbn [enqueue_all].
  pose proof (inert_enqueue x m) as He. destruct (enqueue x m) as [y [|]]; [|done]. eapply inert_trans; [exact He|apply IH].
Qed.

Lemma inert_send_error x r e : inert x (send_error x r e).1.
Proof. apply inert_enqueue. Qed.

Lemma inert_field_error x inbound f : inert x (field_error x inbound f).1.
Proof. apply inert_send_error. Qed.

#[local] Hint Resolve inert_refl inert_set_session inert_set_caps inert_evict inert_enqueue inert_enqueue_all inert_send_error inert_field_error : lerdr.

(** ** Authorization *)

(** The credential behind the session is current and of the session's device. *)
Definition current x (c : Credential) : Prop :=
  store_authorize (x_auth x) (id_credential (x_ident x)) (id_version (x_ident x)) = Some c /\
  c_device_id c = id_device (x_ident x).

(** The role gates for one action. *)
Definition permitted x (a : ActionMetadata) (device_id : string) : Prop :=
  exists c, current x c /\
    ((operation a ∈ DEVICE_BOUND_PUSH /\ id_device (x_ident x) <> ""%string) \/
     Protocol.class a = ReadOnly \/ c_role c = Controller \/
     (operation a = "revoke_device"%string /\ device_id = id_device (x_ident x))).

Lemma authorize_None x a d : authorize x a d = None -> permitted x a d.
Proof.
  unfold authorize, permitted, current. cbv zeta. destruct (store_authorize _ _ _) as [c|]; [|done].
  case_decide as Hdev; [|done]. case_decide as Hpush.
  { case_decide as Hd; [done|]. intros _. exists c. split; [done|]. by left. }
  case_decide as Hro; [intros _; exists c; split; [done|]; tauto|].
  case_decide as Hself; [|done]. intros _. exists c. split; [done|]. tauto.
Qed.

Lemma authorize_not_current x a d : (forall c, ~ current x c) -> exists e, authorize x a d = Some e.
Proof.
  intros Hn. destruct (authorize x a d) as [e|] eqn:Ha; [by exists e|].
  apply authorize_None in Ha as (c & Hc & _). by apply Hn in Hc.
Qed.

(** ** Every effect is admitted *)

(** A JSON action that passed each gate, in the state [x] that handles it. *)
Record admitted_action x (raw_map : message_map) (inbound : Inbound) (scope : RequestScope) : Prop := {
  ad_decoded : decode_map raw_map = Ok inbound;
  ad_known : for_message inbound = Some scope;
  ad_compatible : compatible inbound = true;
  ad_capability : forall cap, required_capability (operation (action scope)) = Some cap -> live (x_caps x) cap = true;
  ad_fence : session_fence scope = true;
  ad_permitted : permitted x (action scope) (in_device_id inbound);
  ad_target : validate_pane_target (x_router x) inbound = None;
}.

Record admitted_chunk x (plaintext : bytes) (chunk : UploadBinary.BinaryChunk) : Prop := {
  ac_live : live (x_caps x) UploadBinary.CAPABILITY = true;
  ac_chunk : UploadBinary.decode_chunk plaintext = Some chunk;
  ac_permitted : permitted x (mutate_action "upload_chunk" false true) (id_device (x_ident x));
}.

(** Handling a frame is inert, executes one admitted action, or routes one
    admitted chunk. *)
Inductive handled x raw now : Actor (S := S) (R := R) * bool -> Prop :=
| HandledInert y step : inert x y -> handled x raw now (y, step)
| HandledAction s plaintext raw_map inbound scope :
    E2eeSession.open (x_session x) raw = (s, Ok plaintext) -> from_slice_map plaintext = Some raw_map ->
    admitted_action (set_session x s) raw_map inbound scope ->
    handled x raw now (execute (set_session x s) scope inbound raw_map now)
| HandledChunk s plaintext chunk r reply :
    E2eeSession.open (x_session x) raw = (s, Ok plaintext) -> admitted_chunk (set_session x s) plaintext chunk ->
    route_binary_chunk (x_router x) (client_context x) chunk = (r, reply) ->
    handled x raw now (enqueue_all (emit (set_router (set_session x s) r) [EvRouteBinary chunk]) reply).

Lemma handled_inert x raw now p : inert x p.1 -> handled x raw now p.
Proof. destruct p. apply HandledInert. Qed.

Lemma inert_after_session x s (p : Actor (S := S) (R := R) * bool) : inert (set_session x s) p.1 -> inert x p.1.
Proof. apply inert_trans, inert_set_session. Qed.

(** A frame refused after it was opened: the answer or the eviction is inert. *)
Ltac refused x s := apply handled_inert, (inert_after_session x s); auto with lerdr.

(** The state component of a returned pair. *)
Ltac yields := let Heq := fresh in intros Heq; injection Heq as <- _.

Lemma pass_gates_cases x scope inbound raw_map now :
  inert x (pass_gates x scope inbound raw_map now).1 \/
  (session_fence scope = true /\ permitted x (action scope) (in_device_id inbound) /\
   validate_pane_target (x_router x) inbound = None /\
   pass_gates x scope inbound raw_map now = execute x scope inbound raw_map now).
Proof.
  unfold pass_gates. destruct (session_fence scope) eqn:Hf; cbn [negb]; [|left; auto with lerdr].
  destruct (authorize _ _ _) eqn:Ha; [left; auto with lerdr|].
  destruct (validate_pane_target _ _) eqn:Hv; [left; auto with lerdr|].
  right. split_and!; try done. by apply authorize_None.
Qed.

Lemma dispatch_cases x inbound raw_map now :
  decode_map raw_map = Ok inbound ->
  inert x (dispatch x inbound raw_map now).1 \/
  exists scope, admitted_action x raw_map inbound scope /\
    dispatch x inbound raw_map now = execute x scope inbound raw_map now.
Proof.
  intros Hdec. unfold dispatch. destruct (for_message inbound) as [scope|] eqn:Hs; [|left; auto with lerdr].
  cbv zeta. destruct (compatible inbound) eqn:Hc; cbn [negb]; [|left; auto with lerdr].
  case_decide as Hcaps.
  { left. case_decide; [|apply inert_set_caps]. eapply inert_trans; [apply inert_set_caps|apply inert_enqueue]. }
  destruct (required_capability _) as [cap|] eqn:Hcap.
  - destruct (live (x_caps x) cap) eqn:Hl; cbn [negb]; [|left; auto with lerdr].
    destruct (pass_gates_cases x scope inbound raw_map now) as [Hi|(H1' & H2' & H3' & H4')]; [by left|]. right. exists scope.
    split; [|done]. split; try done. intros cap'. rewrite Hcap. by intros [= <-].
  - destruct (pass_gates_cases x scope inbound raw_map now) as [Hi|(H1' & H2' & H3' & H4')]; [by left|]. right. exists scope.
    split; [|done]. split; try done. intros cap'. by rewrite Hcap.
Qed.

Lemma handle_frame_handled x raw now : handled x raw now (handle_frame x raw now).
Proof.
  unfold handle_frame. destruct (E2eeSession.open (x_session x) raw) as [s [plaintext|e]] eqn:Ho.
  2: { refused x s. }
  cbv zeta. destruct (UploadBinary.is_binary_frame plaintext).
  - unfold dispatch_binary. destruct (live _ _) eqn:Hl; cbn [negb].
    2: { refused x s. }
    destruct (UploadBinary.decode_chunk plaintext) as [chunk|] eqn:Hk.
    2: { refused x s. }
    rewrite upload_chunk_cataloged. cbn [default]. cbv zeta.
    destruct (authorize _ _ _) eqn:Ha.
    { refused x s. }
    destruct (route_binary_chunk _ _ _) as [r reply] eqn:Hr.
    eapply HandledChunk; [exact Ho| |exact Hr]. split; [done..|]. by apply authorize_None.
  - destruct (from_slice_map plaintext) as [raw_map|] eqn:Hm.
    2: { refused x s. }
    destruct (decode_map raw_map) as [inbound|err] eqn:Hd.
    2: { refused x s. }
    destruct (dispatch_cases (set_session x s) inbound raw_map now Hd) as [Hi|(scope & Had & ->)].
    { by apply handled_inert, (inert_after_session x s). }
    by eapply HandledAction.
Qed.

(** ** What executing an admitted action does *)

Definition admin_ops : list string :=
  ["create_device_invitation"; "rename_device"; "revoke_device"; "reset_devices"]%string.

Definition admitted_event (scope : RequestScope) (inbound : Inbound) (e : event) : Prop :=
  match e with
  | EvRoute sc m => sc = scope /\ m = inbound /\ operation (action scope) ∉ admin_ops
  | EvAudit _ => True
  | EvPrune _ => operation (action scope) ∈ admin_ops
  | EvRouteBinary _ | EvDisconnect _ _ => False
  end.

(** The store after an admitted action. *)
Definition admin_store x (op : string) (inbound : Inbound) (s : S) : Prop :=
  s = x_auth x \/
  (op = "create_device_invitation"%string /\
     s = (create_invitation (x_auth x) (in_name inbound) (in_role inbound) (id_locale (x_ident x))).1) \/
  (op = "rename_device"%string /\ exists cid, s = (rename_device (x_auth x) cid (in_name inbound)).1) \/
  (op = "revoke_device"%string /\
     exists cid, credential_id_for x (in_device_id inbound) = Ok (Some cid) /\ s = (revoke_device (x_auth x) cid).1) \/
  (op = "reset_devices"%string /\
     s = (reset_devices (x_auth x) (reset_bootstrap (x_config x)) (id_locale (x_ident x))).1).

Record executed x (scope : RequestScope) (inbound : Inbound) (y : Actor (S := S) (R := R)) : Prop := {
  ex_events : exists new, x_events y = x_events x ++ new /\ Forall (admitted_event scope inbound) new;
  ex_store : admin_store x (operation (action scope)) inbound (x_auth y);
  ex_ident : x_ident y = x_ident x;
}.

Lemma executed_inert x scope inbound y z : executed x scope inbound y -> inert y z -> executed x scope inbound z.
Proof. intros [(new & He & Hf) Hs Hi] Hz. split; [exists new; by rewrite (in_events y z Hz)|by rewrite (in_auth y z Hz)|by rewrite (in_ident y z Hz)]. Qed.

Lemma executed_emit x scope inbound y l :
  executed x scope inbound y -> Forall (admitted_event scope inbound) l -> executed x scope inbound (emit y l).
Proof.
  intros [(new & He & Hf) Hs Hi] Hl. split; [|done..]. exists (new ++ l). cbn [x_events emit].
  by rewrite He, app_assoc, Forall_app.
Qed.

Lemma prune_executed x scope inbound y p :
  operation (action scope) ∈ admin_ops -> executed x scope inbound y -> executed x scope inbound (prune y p).
Proof. intros Hop He. unfold prune. destruct (prune_hook _); [|done]. apply executed_emit; [done|]. by constructor. Qed.

Lemma executed_set_auth x scope inbound s :
  admin_store x (operation (action scope)) inbound s -> executed x scope inbound (set_auth x s).
Proof. intros Hs. split; [|done..]. exists []. by rewrite app_nil_r. Qed.

Lemma executed_refl x scope inbound : executed x scope inbound x.
Proof. split; [exists []; by rewrite app_nil_r|by left|done]. Qed.

(** One store call and its two arms. *)
Lemma admin_action_executed x scope inbound y o :
  admin_action x scope inbound = Some (y, o) -> executed x scope inbound y.
Proof.
  unfold admin_action, admin_store. cbv zeta.
  case_decide as H1'; [yields; apply executed_refl|].
  case_decide as H2'.
  { unfold admin_create_invitation. destruct (create_invitation _ _ _ _) as [s [i|e]] eqn:E; yields;
      apply executed_set_auth; right; left; by rewrite E. }
  case_decide as H3'.
  { unfold admin_rename. destruct (credential_id_for _ _) as [[cid|]|e] eqn:Hc;
      [|yields; apply executed_refl..].
    destruct (rename_device _ _ _) as [s [i|e]] eqn:E; yields;
      apply executed_set_auth; right; right; left; (split; [done|]; exists cid; by rewrite E). }
  case_decide as H4'.
  { unfold admin_revoke. destruct (credential_id_for _ _) as [[cid|]|e] eqn:Hc;
      [|yields; apply executed_refl..].
    assert (Hs : executed x scope inbound (set_auth x (revoke_device (x_auth x) cid).1)).
    { apply executed_set_auth. do 3 right. left. split; [done|]. by exists cid. }
    destruct (revoke_device _ _) as [s [i|e]] eqn:E; yields; [|done].
    apply prune_executed; [|done]. rewrite H4'. unfold admin_ops. set_solver. }
  case_decide as H5'; [|done].
  unfold admin_reset. destruct (list_devices _) as [l|e]; [|yields; apply executed_refl].
  assert (Hs : executed x scope inbound (set_auth x (reset_devices (x_auth x) (reset_bootstrap (x_config x)) (id_locale (x_ident x))).1)).
  { apply executed_set_auth. by do 4 right. }
  destruct (reset_devices _ _ _) as [s [i|e]] eqn:E; yields; [|done].
  apply prune_executed; [|done]. rewrite H5'. unfold admin_ops. set_solver.
Qed.

Lemma device_admin_executed x scope inbound now y reply :
  device_admin x scope inbound now = Some (y, reply) -> executed x scope inbound y.
Proof.
  unfold device_admin. destruct (admin_action x scope inbound) as [[z o]|] eqn:Ha; [|done]. cbn [mbind option_bind].
  apply admin_action_executed in Ha as [He Hs Hi].
  destruct (ao_result o); yields; [|by split].
  unfold arm_disconnect. destruct (_ || _); by split.
Qed.

Lemma device_admin_None x scope inbound now : device_admin x scope inbound now = None -> operation (action scope) ∉ admin_ops.
Proof.
  unfold device_admin. destruct (admin_action x scope inbound) as [[z o]|] eqn:Ha; cbn [mbind option_bind].
  { by destruct (ao_result o). }
  intros _. unfold admin_action in Ha. cbv zeta in Ha. repeat (case_decide; [discriminate|]). unfold admin_ops. set_solver.
Qed.

Lemma audit_results_admitted scope inbound ctx reply : Forall (admitted_event scope inbound) (audit_results ctx reply).
Proof.
  destruct ctx as [[ctx attr]|]; [|constructor]. apply Forall_forall. intros e.
  cbn [audit_results]. rewrite list_elem_of_omap. intros (m & _ & Hm). destruct m; try discriminate. by injection Hm as <-.
Qed.

Lemma audit_attempt_spec x op raw_map :
  exists l ctx, audit_attempt x op raw_map = (emit x l, ctx) /\ forall scope inbound, Forall (admitted_event scope inbound) l.
Proof.
  assert (Hid : x = emit x []) by (destruct x; unfold emit; cbn; by rewrite app_nil_r).
  unfold audit_attempt. destruct (audit_hook _) as [attr|]; [destruct (is_audited op)|].
  - eexists _, _. split; [done|]. intros. by repeat constructor.
  - exists [], None. rewrite <- Hid. split; [done|constructor].
  - exists [], None. rewrite <- Hid. split; [done|constructor].
Qed.

(** [execute] after its attempt row. *)
Lemma executed_of_emit x l scope inbound y :
  Forall (admitted_event scope inbound) l -> executed (emit x l) scope inbound y -> executed x scope inbound y.
Proof.
  intros Hl [(new & He & Hf) Hs Hi]. split; [|exact Hs|exact Hi]. exists (l ++ new).
  cbn [x_events emit] in He. by rewrite He, <- app_assoc, Forall_app.
Qed.

Lemma execute_executed x scope inbound raw_map now : executed x scope inbound (execute x scope inbound raw_map now).1.
Proof.
  unfold execute. destruct (audit_attempt_spec x (operation (action scope)) raw_map) as (l & ctx & -> & Hl).
  apply (executed_of_emit x l); [done|]. set (z := emit x l). clearbody z. clear x l Hl. rename z into x.
  destruct (device_admin x scope inbound now) as [[y reply]|] eqn:Hd.
  - eapply executed_inert; [|apply inert_enqueue_all]. apply executed_emit; [|apply audit_results_admitted].
    by eapply device_admin_executed.
  - destruct (route _ _ _ _) as [r reply]. cbv zeta. eapply executed_inert; [|apply inert_enqueue_all].
    apply executed_emit; [|apply audit_results_admitted]. split; [|by left|done].
    exists [EvRoute scope inbound]. split; [done|]. constructor; [|constructor]. split_and!; try done.
    by eapply device_admin_None.
Qed.

(** C1 — Nothing reaches the router past a closed gate: whatever frame
    arrives, each action the actor hands to the router (or to the binary-chunk
    route) is the authenticated content of that frame, is catalogued and
    protocol-compatible, has its negotiated capability live on both lists,
    passes the server-session fence and the pane-target check, and is permitted
    by the credential that is current in the store when the frame is
    handled. *)
Theorem routed_actions_are_admitted (x : Actor (S := S) (R := R)) (raw : bytes) (now : Z) :
  exists new, x_events (handle_frame x raw now).1 = x_events x ++ new /\
    (forall scope inbound, EvRoute scope inbound ∈ new ->
       exists s plaintext raw_map, E2eeSession.open (x_session x) raw = (s, Ok plaintext) /\
         from_slice_map plaintext = Some raw_map /\ admitted_action (set_session x s) raw_map inbound scope) /\
    (forall chunk, EvRouteBinary chunk ∈ new ->
       exists s plaintext, E2eeSession.open (x_session x) raw = (s, Ok plaintext) /\
         admitted_chunk (set_session x s) plaintext chunk).
Proof.
  destruct (handle_frame_handled x raw now) as [y step Hi|s p rm inbound scope Ho Hm Had|s p chunk r reply Ho Had Hr].
  - exists []. rewrite app_nil_r. split; [apply Hi|]. split; intros; set_solver.
  - destruct (ex_events _ _ _ _ (execute_executed (set_session x s) scope inbound rm now)) as (new & He & Hf).
    exists new. split; [exact He|]. rewrite Forall_forall in Hf. split.
    + intros sc m Hin. apply Hf in Hin as (-> & -> & _). by exists s, p, rm.
    + intros chunk Hin. by apply Hf in Hin.
  - exists [EvRouteBinary chunk]. split; [by rewrite (in_events _ _ (inert_enqueue_all _ _))|]. split.
    + intros sc m Hin. apply list_elem_of_singleton in Hin. discriminate.
    + intros chunk' Hin. apply list_elem_of_singleton in Hin. injection Hin as ->. by exists s, p.
Qed.

(** ** Readers *)

Lemma admin_ops_mutating inbound scope :
  for_message inbound = Some scope -> operation (action scope) ∈ admin_ops ->
  Protocol.class (action scope) = Mutating /\ operation (action scope) ∉ DEVICE_BOUND_PUSH.
Proof.
  unfold for_message. destruct (classify_action (in_type inbound)) as [m|] eqn:Hc; [|done]. cbn [mbind option_bind].
  intros Heq. injection Heq as <-. cbn [action]. rewrite (classify_operation _ _ Hc). intros Hop.
  apply (catalog_forall (fun r => bool_decide (r.1 ∈ admin_ops -> Protocol.class r.2 = Mutating /\ r.1 ∉ DEVICE_BOUND_PUSH)))
    in Hc; [|by vm_compute]. by apply bool_decide_eq_true in Hc; apply Hc.
Qed.

Lemma reader_permitted x c a d :
  current x c -> c_role c = Reader -> permitted x a d ->
  Protocol.class a = ReadOnly \/ operation a ∈ DEVICE_BOUND_PUSH \/
  (operation a = "revoke_device"%string /\ d = id_device (x_ident x)).
Proof.
  intros [Hc _] Hr (c' & [Hc' _] & Hp). rewrite Hc in Hc'. injection Hc' as <-. rewrite Hr in Hp.
  destruct Hp as [[? _]|[?|[?|?]]]; [tauto|tauto|discriminate|tauto].
Qed.

(** C2 — A reader device changes nothing but its own credential: whatever it
    sends, the router only ever sees read-only actions or the push settings of
    the device itself, never an upload chunk, and the device store is either
    untouched or is the one in which exactly the reader's own credential was
    revoked at its own request. *)
Theorem reader_changes_only_itself (x : Actor (S := S) (R := R)) (c : Credential) (raw : bytes) (now : Z) :
  current x c -> c_role c = Reader ->
  exists new, x_events (handle_frame x raw now).1 = x_events x ++ new /\
    (forall scope inbound, EvRoute scope inbound ∈ new ->
       Protocol.class (action scope) = ReadOnly \/ operation (action scope) ∈ DEVICE_BOUND_PUSH) /\
    (forall chunk, EvRouteBinary chunk ∉ new) /\
    (x_auth (handle_frame x raw now).1 = x_auth x \/
     exists cid, credential_id_for x (id_device (x_ident x)) = Ok (Some cid) /\
       x_auth (handle_frame x raw now).1 = (revoke_device (x_auth x) cid).1).
Proof.
  intros Hcur Hrole.
  destruct (handle_frame_handled x raw now) as [y step Hi|s p rm inbound scope Ho Hm Had|s p chunk r reply Ho Had Hr].
  - exists []. rewrite app_nil_r. split; [apply Hi|]. split; [intros; set_solver|]. split; [set_solver|left; apply Hi].
  - destruct (execute_executed (set_session x s) scope inbound rm now) as [(new & He & Hf) Hst _].
    rewrite Forall_forall in Hf. pose proof (ad_permitted _ _ _ _ Had) as Hp.
    apply (reader_permitted _ c) in Hp; [|done..].
    exists new. split; [exact He|]. split; [|split; [intros chunk Hin; by apply Hf in Hin|]].
    + intros sc m Hin. apply Hf in Hin as (-> & -> & Hna). destruct Hp as [?|[?|[Hop _]]]; [tauto|tauto|].
      destruct Hna. rewrite Hop. unfold admin_ops. set_solver.
    + assert (Hno : operation (action scope) ∈ admin_ops -> operation (action scope) = "revoke_device"%string /\ in_device_id inbound = id_device (x_ident x)).
      { intros Hop. destruct (admin_ops_mutating inbound scope (ad_known _ _ _ _ Had) Hop) as [Hmut Hnp].
        destruct Hp as [Hro|[Hpush|Hrev]]; [congruence|done|exact Hrev]. }
      destruct Hst as [->|[[Hop _]|[[Hop _]|[[Hop (cid & Hcid & ->)]|[Hop _]]]]]; [by left|..];
        (destruct Hno as [Hop' Hdev]; [rewrite Hop; unfold admin_ops; set_solver|]); try congruence.
      right. exists cid. rewrite <- Hdev. by split.
  - exfalso. pose proof (ac_permitted _ _ _ Had) as Hp. apply (reader_permitted _ c) in Hp; [|done..].
    destruct Hp as [Hp|[Hp|[Hp _]]]; [done| |done].
    apply (bool_decide_eq_true_2 _) in Hp. vm_compute in Hp. discriminate.
Qed.

(** ** Sessions whose credential is gone *)

Fixpoint handle_frames x (frames : list (bytes * Z)) : Actor (S := S) (R := R) * bool :=
  match frames with
  | [] => (x, CONTINUE)
  | (raw, now) :: rest =>
      match handle_frame x raw now with
      | (y, true) => handle_frames y rest
      | (y, false) => (y, STOP)
      end
  end.

Lemma not_current_inert x raw now : (forall c, ~ current x c) -> inert x (handle_frame x raw now).1.
Proof.
  intros Hn.
  destruct (handle_frame_handled x raw now) as [y step Hi|s p rm inbound scope Ho Hm Had|s p chunk r reply Ho Had Hr]; [done|..]; exfalso.
  - destruct (ad_permitted _ _ _ _ Had) as (c & Hc & _). by apply (Hn c).
  - destruct (ac_permitted _ _ _ Had) as (c & Hc & _). by apply (Hn c).
Qed.

(** C3 — A session whose credential was revoked, rotated or moved to another
    device is inert at once: no sequence of frames it sends makes the actor
    call the router, touch the device store, write an audit row, prune push
    state or arm a disconnect. *)
Theorem revoked_session_is_inert (x : Actor (S := S) (R := R)) (frames : list (bytes * Z)) :
  (forall c, ~ current x c) -> inert x (handle_frames x frames).1.
Proof.
  revert x. induction frames as [|[raw now] rest IH]; intros x Hn; [apply inert_refl|]. cbn [handle_frames].
  pose proof (not_current_inert x raw now Hn) as Hi. destruct (handle_frame x raw now) as [y [|]]; [|done].
  eapply inert_trans; [exact Hi|]. apply IH. unfold current in *. cbn [fst] in Hi.
  rewrite (in_auth _ _ Hi), (in_ident _ _ Hi). exact Hn.
Qed.

End Gates.

(** ** Draining *)

Section Drain.
Context `{Base64Laws} `{WireJsonLaws} `{AeadLaws}.
Context {S R : Type}.
Implicit Types (x : Actor (S := S) (R := R)).

Definition sealable (m : BufferedMessage) : Prop := Forall is_u8 (data m) /\ size m <= MAX_MESSAGE.

Lemma drain_loop_delivers l n x (peer : Session) :
  items (x_buffer x) = l -> (length l <= n)%nat -> (length l <= x_room x)%nat ->
  0 <= send_sequence (x_session x) -> send_sequence (x_session x) + Z.of_nat (length l) <= MAX_SEQUENCE + 1 ->
  Forall sealable l -> paired (x_session x) peer ->
  exists y frames peer', drain_loop n x = (y, CONTINUE) /\ items (x_buffer y) = [] /\
    x_sealed y = x_sealed x ++ frames /\ open_all peer frames = (peer', Ok <$> (data <$> l)) /\ paired (x_session y) peer'.
Proof.
  revert n x peer. induction l as [|m l IH]; intros n x peer Hl Hn Hroom Hpos Hmax Hok Hp.
  { exists x, [], peer. rewrite app_nil_r. unfold pop. split_and!; try done. destruct n; cbn [drain_loop]; unfold pop; by rewrite Hl. }
  destruct n as [|n]; [simpl in Hn; lia|]. apply Forall_cons in Hok as [[Hu Hsz] Hok]. cbn [length] in Hn, Hroom, Hmax.
  cbn [drain_loop]. unfold pop at 1. rewrite Hl. cbv zeta. cbn [x_session set_buffer].
  destruct (seal_total (x_session x) (data m)) as [f Hseal]; [lia|exact Hsz|]. rewrite Hseal.
  destruct (paired_step (x_session x) peer (data m) _ f Hpos Hu Hp Hseal) as (peer1 & Hopen & Hp1).
  cbn [x_room set_session set_buffer]. destruct (x_room x) as [|room] eqn:Hr; [lia|].
  match goal with |- context [drain_loop n ?z] => destruct (IH n z peer1) as (y & frames & peer' & Hd & Hb & Hs & Ho & Hpp) end;
    [done|lia|cbn; lia|cbn; lia|cbn; lia|done|exact Hp1|].
  exists y, (f :: frames), peer'. split_and!; [exact Hd|done| |by cbn; rewrite Hopen, Ho|done].
  rewrite Hs. cbn [x_sealed set_sealed set_session set_buffer]. by rewrite <- app_assoc.
Qed.

(** Draining delivers: when the writer channel has room and the sequence
    space is not exhausted, draining terminates without evicting, empties the
    buffer, and the frames it hands to the writer open, at the peer paired with
    this session, to exactly the buffered messages in buffer order, leaving the
    two sides paired. *)
Theorem drain_delivers_in_order (x : Actor (S := S) (R := R)) (peer : Session) :
  (len (x_buffer x) <= x_room x)%nat ->
  0 <= send_sequence (x_session x) -> send_sequence (x_session x) + Z.of_nat (len (x_buffer x)) <= MAX_SEQUENCE + 1 ->
  Forall sealable (items (x_buffer x)) -> paired (x_session x) peer ->
  exists y frames peer', drain x = (y, CONTINUE) /\ items (x_buffer y) = [] /\ x_sealed y = x_sealed x ++ frames /\
    open_all peer frames = (peer', Ok <$> (data <$> items (x_buffer x))) /\ paired (x_session y) peer'.
Proof. intros Hroom Hpos Hmax Hok Hp. unfold drain. by apply drain_loop_delivers. Qed.

End Drain.

(** ** Destroyed credentials are scheduled for disconnection *)

Section Sweep.
Context `{Base64} `{WireJson} `{Aead} `{FloatText} `{CaseMapping} `{Digest} `{SerdeText} `{StoreErrorText}.
Context {S R : Type} `{DeviceAdminStoreLaws S} `{ActionRouter R}.
Implicit Types (x : Actor (S := S) (R := R)).

(** The credential [cid] at version [v] was lost between the two stores. *)
Definition lost (s s' : S) (cid : string) (v : Z) : Prop :=
  is_Some (store_authorize s cid v) /\ store_authorize s' cid v = None.

Lemma not_lost (s s' : S) cid v : is_Some (store_authorize s' cid v) -> ~ lost s s' cid v.
Proof. intros [c Hc] [_ Hn]. congruence. Qed.

Lemma x_auth_prune x s p : x_auth (prune (set_auth x s) p) = s.
Proof. unfold prune. by destruct (prune_hook _). Qed.
Lemma x_ident_prune x s p : x_ident (prune (set_auth x s) p) = x_ident x.
Proof. unfold prune. by destruct (prune_hook _). Qed.
Lemma x_pending_prune x s p : x_pending_disconnects (prune (set_auth x s) p) = x_pending_disconnects x.
Proof. unfold prune. by destruct (prune_hook _). Qed.

(** What an outcome must fence for a lost credential. *)
Definition fences (o : AdminOutcome) (own : string) (cid : string) (v : Z) : Prop :=
  (exists a, ao_result o = Ok a) /\ (exists v', (cid, v') ∈ ao_disconnects o /\ v <= v') /\
  (cid = own -> ao_self_disconnect o = true).

Lemma revoke_fences x inbound y o cid v :
  store_wf (x_auth x) -> admin_revoke x inbound = (y, o) -> lost (x_auth x) (x_auth y) cid v ->
  fences o (id_credential (x_ident x)) cid v.
Proof.
  intros Hwf Ha. unfold admin_revoke in Ha.
  destruct (credential_id_for _ _) as [[target|]|e]; [|injection Ha as <- <-; intros Hl; exfalso; by apply (not_lost _ _ _ _ (proj1 Hl) Hl)..].
  pose proof (revoke_keeps (x_auth x) target cid v Hwf) as Hk.
  destruct (revoke_device (x_auth x) target) as [s [cr|e]]; cbn [fst snd] in Hk; injection Ha as <- <-.
  - rewrite x_auth_prune, x_ident_prune. intros Hl. destruct (Hk (proj1 Hl)) as [Hs|(-> & cr' & Hcr & Hid & Hv)].
    { by destruct (not_lost _ _ _ _ Hs Hl). }
    injection Hcr as <-. unfold fences. case_decide as Hown; cbn [ao_result ao_disconnects ao_self_disconnect disconnecting with_disconnects outcome_ok].
    + split; [by eexists|]. split; [|done]. exists (c_version cr). rewrite Hid. split; [by left|done].
    + split; [by eexists|]. split; [|congruence]. exists (c_version cr). rewrite Hid. split; [by left|done].
  - intros Hl. destruct (Hk (proj1 Hl)) as [Hs|(_ & cr' & Hcr & _)]; [by destruct (not_lost _ _ _ _ Hs Hl)|done].
Qed.

Lemma reset_fences x y o cid v :
  admin_reset x = (y, o) -> lost (x_auth x) (x_auth y) cid v -> fences o (id_credential (x_ident x)) cid v.
Proof.
  intros Ha. unfold admin_reset in Ha.
  destruct (list_devices (x_auth x)) as [l|e] eqn:Hlist; [|injection Ha as <- <-; intros Hl; exfalso; by apply (not_lost _ _ _ _ (proj1 Hl) Hl)].
  pose proof (reset_keeps (x_auth x) (reset_bootstrap (x_config x)) (id_locale (x_ident x)) cid v) as Hk.
  destruct (reset_devices _ _ _) as [s [u|e]]; cbn [fst snd] in Hk; injection Ha as <- <-.
  - rewrite x_auth_prune. intros [[c Hc] _]. apply authorized_listed in Hc as (Hid & Hver & Hrev & Hin).
    split; [by eexists|]. split; [|done]. exists v. split; [|done]. cbn [ao_disconnects with_disconnects].
    apply list_elem_of_fmap. exists c. split; [congruence|]. apply list_elem_of_filter. split; [done|]. by apply Hin.
  - intros Hl. destruct (Hk (proj1 Hl)) as [Hs|Hr]; [by destruct (not_lost _ _ _ _ Hs Hl)|done].
Qed.

Lemma admin_action_fences x scope inbound y o cid v :
  store_wf (x_auth x) -> admin_action x scope inbound = Some (y, o) -> lost (x_auth x) (x_auth y) cid v ->
  fences o (id_credential (x_ident x)) cid v.
Proof.
  intros Hwf. unfold admin_action. cbv zeta.
  case_decide; [intros Heq; injection Heq as <- <-; intros Hl; exfalso; by apply (not_lost _ _ _ _ (proj1 Hl) Hl)|].
  case_decide.
  { unfold admin_create_invitation.
    pose proof (create_keeps (x_auth x) (in_name inbound) (in_role inbound) (id_locale (x_ident x)) cid v) as Hk.
    destruct (create_invitation _ _ _ _) as [s [i|e]]; intros Heq; injection Heq as <- <-; intros Hl; exfalso;
      by apply (not_lost _ _ _ _ (Hk (proj1 Hl)) Hl). }
  case_decide.
  { unfold admin_rename. destruct (credential_id_for _ _) as [[t|]|e];
      [|intros Heq; injection Heq as <- <-; intros Hl; exfalso; by apply (not_lost _ _ _ _ (proj1 Hl) Hl)..].
    pose proof (rename_keeps (x_auth x) t (in_name inbound) cid v) as Hk.
    destruct (rename_device _ _ _) as [s [i|e]]; intros Heq; injection Heq as <- <-; intros Hl; exfalso;
      by apply (not_lost _ _ _ _ (Hk (proj1 Hl)) Hl). }
  case_decide; [intros Heq; apply (inj Some) in Heq; by apply (revoke_fences x inbound)|].
  case_decide; [intros Heq; apply (inj Some) in Heq; by apply (reset_fences x y)|done].
Qed.

(** No destroyed credential is forgotten: when a device-administration
    action takes away a credential that was valid, the actor has queued a
    disconnect fence for it at or past its version, armed the sweep for at most
    250 ms from now, and, if the credential is the session's own, marked itself
    for closing. *)
Theorem destroyed_credentials_are_scheduled (x y : Actor (S := S) (R := R)) (scope : RequestScope) (inbound : Inbound)
    (now : Z) (reply : list Outbound) (cid : string) (v : Z) :
  store_wf (x_auth x) -> device_admin x scope inbound now = Some (y, reply) ->
  is_Some (store_authorize (x_auth x) cid v) -> store_authorize (x_auth y) cid v = None ->
  (exists v', (cid, v') ∈ x_pending_disconnects y /\ v <= v') /\
  (exists deadline, x_revoked_at y = Some deadline /\ deadline <= now + REVOKED_DISCONNECT_DELAY) /\
  (cid = id_credential (x_ident x) -> x_self_disconnect y = true).
Proof.
  intros Hwf Hd Hsome Hnone. unfold device_admin in Hd.
  destruct (admin_action x scope inbound) as [[z o]|] eqn:Ha; [|done]. cbn [mbind option_bind] in Hd.
  assert (Hauth : x_auth y = x_auth z).
  { destruct (ao_result o); apply (inj Some) in Hd; injection Hd as <- _; [|done]. unfold arm_disconnect. by destruct (_ || _). }
  destruct (admin_action_fences x scope inbound z o cid v Hwf Ha) as ((a & Hok) & (v' & Hin & Hv) & Hself).
  { split; [done|]. by rewrite <- Hauth. }
  rewrite Hok in Hd. apply (inj Some) in Hd. injection Hd as <- _. unfold arm_disconnect.
  rewrite (bool_decide_eq_false_2 (ao_disconnects o = [])) by (intros E; rewrite E in Hin; by apply not_elem_of_nil in Hin).
  rewrite orb_true_r. cbn [x_pending_disconnects x_revoked_at x_self_disconnect set_disconnects]. split_and!.
  - exists v'. split; [|done]. apply elem_of_app. by right.
  - eexists. split; [done|]. destruct (x_revoked_at z); lia.
  - intros Hown. by rewrite (Hself Hown), orb_true_r.
Qed.

End Sweep.

(** ** Closed examples *)

Import E2eeInstances.

Definition reader_actor := demo_actor "d2" "c2" Reader.
Definition controller_actor := demo_actor "d1" "c1" Controller.
Definition stale_actor := demo_actor "d2" "gone" Reader.

Definition revoke_message : list (string * json) :=
  [("device_id", JString "d2"); ("protocol", JNumber (PosInt 3)); ("type", JString "revoke_device")]%string.
Definition revoke_frame : bytes := client_frame (object_text revoke_message).
Definition reset_frame : bytes :=
  client_frame (object_text [("protocol", JNumber (PosInt 3)); ("type", JString "reset_devices")]%string).

(** A controller's frame revokes the reader; the same frame from a session
    without a current credential does not, and a reader cannot reset. *)
Example controller_revokes :
  DeviceStore.authorize (ls_state (x_auth (handle_frame controller_actor revoke_frame 0).1)) "c2" 1 = None.
Proof. vm_compute. reflexivity. Qed.
Example stale_session_does_not :
  is_Some (DeviceStore.authorize (ls_state (x_auth (handle_frame stale_actor revoke_frame 0).1)) "c2" 1).
Proof. vm_compute. by eexists. Qed.
Example reader_cannot_reset :
  is_Some (DeviceStore.authorize (ls_state (x_auth (handle_frame reader_actor reset_frame 0).1)) "c1" 1).
Proof. vm_compute. by eexists. Qed.

Lemma reader_changes_only_itself_witness :
  exists new, x_events (handle_frame reader_actor reset_frame 0).1 = x_events reader_actor ++ new /\
    forall chunk, EvRouteBinary chunk ∉ new.
Proof.
  destruct (DeviceStore.authorize (ls_state live_demo) "c2" 1) as [c|] eqn:Hc; [|vm_compute in Hc; discriminate Hc].
  destruct (reader_changes_only_itself reader_actor c reset_frame 0) as (new & He & _ & Hb & _).
  - split; [exact Hc|]. vm_compute in Hc. injection Hc as <-. reflexivity.
  - vm_compute in Hc. injection Hc as <-. reflexivity.
  - exists new. by split.
Defined.

Lemma revoked_session_is_inert_witness : inert stale_actor (handle_frames stale_actor [(revoke_frame, 0); (reset_frame, 1)]).1.
Proof.
  apply (revoked_session_is_inert stale_actor [(revoke_frame, 0); (reset_frame, 1)]).
  intros c [Hc _]. vm_compute in Hc. discriminate Hc.
Defined.

Definition sending_actor :=
  set_buffer controller_actor
    (push_typed (push_typed SendBuffer.new [123; 125] "activity" false).1 [1; 2; 3] "agents" false).1.

Lemma drain_delivers_in_order_witness :
  exists y frames peer', drain sending_actor = (y, CONTINUE) /\ items (x_buffer y) = [] /\
    x_sealed y = x_sealed sending_actor ++ frames /\
    open_all demo_client frames = (peer', Ok <$> [[123; 125]; [1; 2; 3]]) /\ paired (x_session y) peer'.
Proof.
  apply (drain_delivers_in_order sending_actor demo_client).
  - vm_compute. lia.
  - vm_compute. discriminate.
  - vm_compute. discriminate.
  - repeat (constructor; [split; [repeat constructor|]|]); unfold size, MAX_MESSAGE; cbn; unfold is_u8, u8_max; lia || constructor.
  - by split_and!.
Defined.

Lemma destroyed_credentials_are_scheduled_witness :
  match decode_map revoke_message with
  | Err _ => False
  | Ok inbound =>
      match for_message inbound with
      | None => False
      | Some scope =>
          match device_admin controller_actor scope inbound 1000 with
          | None => False
          | Some (y, _) => exists v', ("c2"%string, v') ∈ x_pending_disconnects y /\ 1 <= v'
          end
      end
  end.
Proof.
  destruct (decode_map revoke_message) as [inbound|e] eqn:Hd; [|vm_compute in Hd; discriminate Hd].
  vm_compute in Hd. injection Hd as <-.
  destruct (for_message _) as [scope|] eqn:Hs; [|vm_compute in Hs; discriminate Hs].
  vm_compute in Hs. injection Hs as <-.
  destruct (device_admin controller_actor _ _ 1000) as [[y reply]|] eqn:Ha; [|vm_compute in Ha; discriminate Ha].
  refine (proj1 (destroyed_credentials_are_scheduled controller_actor y _ _ 1000 reply "c2" 1 _ Ha _ _)).
  - exact demo_versions.
  - vm_compute. by eexists.
  - match type of Ha with ?l = _ =>
      assert (Hn : (fun p => store_authorize (x_auth p.1) "c2"%string 1) <$> l = Some None) by (vm_compute; reflexivity) end.
    rewrite Ha in Hn. by injection Hn.
Defined.

End SessionGates.
