(* ===== verification/UploadTime.v ===== *)
(** * Timestamps of the attachment index

    [Timestamp] of [lerdr-coord/src/actions/uploads.rs]: the RFC 3339 text an
    attachment's expiry is written with, the parser that reads it back from
    [attachments.json], and the calendar conversions between them.  A
    [SystemTime] is its signed number of nanoseconds since the epoch. *)

From S2P Require Import Prelude Utf8 Civil Delta JsonWire.

Module UploadTime.

(** ** Conversions *)

(** [civil_from_days]: the era by [div_euclid], the rest by [/]. *)
Definition civil_from_days (days : Z) : Z * Z * Z :=
  let z := days + 719468 in
  let era := z / 146097 in
  let day_of_era := z - era * 146097 in
  let year_of_era := Z.quot (day_of_era - Z.quot day_of_era 1460 + Z.quot day_of_era 36524 - Z.quot day_of_era 146096) 365 in
  let year := year_of_era + era * 400 in
  let day_of_year := day_of_era - (365 * year_of_era + Z.quot year_of_era 4 - Z.quot year_of_era 100) in
  let month_prime := Z.quot (5 * day_of_year + 2) 153 in
  let day := day_of_year - Z.quot (153 * month_prime + 2) 5 + 1 in
  let month := if decide (month_prime < 10) then month_prime + 3 else month_prime - 9 in
  (if decide (month <= 2) then year + 1 else year, month, day).

Definition days_from_civil (year month day : Z) : Z :=
  let year := if decide (month <= 2) then year - 1 else year in
  let era := year / 400 in
  let year_of_era := year - era * 400 in
  let month_prime := if decide (2 < month) then month - 3 else month + 9 in
  let day_of_year := Z.quot (153 * month_prime + 2) 5 + day - 1 in
  let day_of_era := year_of_era * 365 + Z.quot year_of_era 4 - Z.quot year_of_era 100 + day_of_year in
  era * 146097 + day_of_era - 719468.

Definition days_in_month (month year : Z) : Z :=
  if decide (month = 1 \/ month = 3 \/ month = 5 \/ month = 7 \/ month = 8 \/ month = 10 \/ month = 12) then 31
  else if decide (month = 4 \/ month = 6 \/ month = 9 \/ month = 11) then 30
  else if decide (month = 2) then
    if decide (Z.rem year 4 = 0 /\ (Z.rem year 100 <> 0 \/ Z.rem year 400 = 0)) then 29 else 28
  else 0.

(** [nanos as u64]. *)
Definition as_u64 (z : Z) : Z := z mod 2 ^ 64.

Definition time_from_nanos (nanos : Z) : Z := if decide (0 <= nanos) then as_u64 nanos else - as_u64 (- nanos).

(** The Go zero time is 62,135,596,800 s before the epoch. *)
Definition is_zero_time (time : Z) : bool := bool_decide (time = - (62135596800 * 1000000000)).

(** ** Writing *)

(** [while fraction.ends_with('0')] pops. *)
Definition pop_zeros (digits : bytes) : bytes := reverse (Utf8.drop_while (fun c => bool_decide (c = 48)) (reverse digits)).

Definition format_timestamp (time : Z) : string :=
  let seconds := time / 1000000000 in
  let sub := time mod 1000000000 in
  let days := seconds / 86400 in
  let day_seconds := seconds mod 86400 in
  Civil.date_text (civil_from_days days) +:+ "T" +:+ Civil.clock_text day_seconds
  +:+ (if decide (sub = 0) then "" else "." +:+ string_of_bytes (pop_zeros (as_bytes (Civil.pad 9 sub)))) +:+ "Z".

(** ** Reading *)

Definition is_digit (b : Z) : bool := bool_decide (48 <= b <= 57).
Definition digits_value (l : bytes) : Z := fold_left (fun acc b => acc * 10 + (b - 48)) l 0.

Definition digits (b : bytes) (offset count : nat) : option Z :=
  slice ← Delta.slice b offset (offset + count);
  if forallb is_digit slice then Some (digits_value slice) else None.

Definition byte_is (b : bytes) (i : nat) (c : Z) : bool := bool_decide (b !! i = Some c).

(** The digits after the dot: how many there are, how many count and their value. *)
Fixpoint fraction (b : bytes) (seen : nat) (sub : Z) : nat * nat * Z :=
  match b with
  | c :: rest =>
      if is_digit c then
        let '(n, seen', sub') := if (seen <? 9)%nat then fraction rest (S seen) (sub * 10 + (c - 48)) else fraction rest seen sub in
        (S n, seen', sub')
      else (0%nat, seen, sub)
  | [] => (0%nat, seen, sub)
  end.

(** The optional fraction at [index]: where it ends and its nanoseconds. *)
Definition fraction_at (b : bytes) (index : nat) : option (nat * Z) :=
  if byte_is b index 46 then
    let '(n, seen, sub) := fraction (drop (S index) b) 0 0 in
    if decide (n = 0%nat) then None else Some ((S index + n)%nat, sub * 10 ^ Z.of_nat (9 - seen))
  else Some (index, 0).

(** The zone at [index]: where it ends and its offset in seconds. *)
Definition zone_at (b : bytes) (index : nat) : option (nat * Z) :=
  if byte_is b index 90 || byte_is b index 122 then Some (S index, 0)
  else if byte_is b index 43 || byte_is b index 45 then
    let sign := if byte_is b index 45 then -1 else 1 in
    offset_hour ← digits b (index + 1) 2;
    if negb (byte_is b (index + 3) 58) then None
    else
      offset_minute ← digits b (index + 4) 2;
      if decide (23 < offset_hour \/ 59 < offset_minute) then None
      else Some ((index + 6)%nat, sign * (offset_hour * 3600 + offset_minute))
  else None.

Definition parse_timestamp (value : string) : option Z :=
  let b := as_bytes value in
  if (length b <? 20)%nat then None
  else if negb (byte_is b 4 45 && byte_is b 7 45) then None
  else
    year ← digits b 0 4;
    month ← digits b 5 2;
    day ← digits b 8 2;
    if decide (~ (1 <= month <= 12) \/ day < 1 \/ days_in_month month year < day) then None
    else if negb (byte_is b 10 84 || byte_is b 10 116) then None
    else if negb (byte_is b 13 58 && byte_is b 16 58) then None
    else
      hour ← digits b 11 2;
      minute ← digits b 14 2;
      second ← digits b 17 2;
      if decide (23 < hour \/ 59 < minute \/ 59 < second) then None
      else
        '(index, sub) ← fraction_at b 19;
        '(index, offset_seconds) ← zone_at b index;
        if decide (index = length b) then
          let seconds := days_from_civil year month day * 86400 + hour * 3600 + minute * 60 + second - offset_seconds in
          Some (time_from_nanos (seconds * 1000000000 + sub))
        else None.

Example format_2024 : format_timestamp 1709210096120000000 = "2024-02-29T12:34:56.12Z"%string.
Proof. vm_compute. reflexivity. Qed.
Example parse_2024 : parse_timestamp "2024-02-29T12:34:56.12Z" = Some 1709210096120000000.
Proof. vm_compute. reflexivity. Qed.
Example parse_refuses : parse_timestamp "2023-02-29T12:34:56Z" = None.
Proof. vm_compute. reflexivity. Qed.

(** ** The calendar *)

Lemma civil_is_date days : civil_from_days days = Civil.wire_date days.
Proof.
  unfold civil_from_days, Civil.wire_date. cbv zeta.
  replace (days + 719468 - (days + 719468) / 146097 * 146097) with ((days + 719468) mod 146097); [done|].
  rewrite Z.mod_eq by lia. lia.
Qed.

Lemma era_days y : let e := y / 400 in let r := y - e * 400 in
  e * 146097 + (r * 365 + Z.quot r 4 - Z.quot r 100) = 365 * y + y / 4 - y / 100 + y / 400.
Proof.
  cbv zeta. pose proof (Z.mod_pos_bound y 400 ltac:(lia)) as Hr. rewrite Z.mod_eq in Hr by lia.
  replace (y - y / 400 * 400) with (y - 400 * (y / 400)) by lia. set (e := y / 400) in *. set (r := y - 400 * e) in *.
  replace y with (r + e * 400) by (unfold r; lia).
  replace ((r + e * 400) / 4) with (r / 4 + e * 100) by (Z.to_euclidean_division_equations; lia).
  replace ((r + e * 400) / 100) with (r / 100 + e * 4) by (Z.to_euclidean_division_equations; lia).
  rewrite !Z.quot_div_nonneg by lia. lia.
Qed.

(** Days of the year before a month, by its leap flag. *)
Definition before_month (leap : bool) (month : Z) : Z := nth (Z.to_nat (month - 1))
  (if leap then [0; 31; 60; 91; 121; 152; 182; 213; 244; 274; 305; 335] else [0; 31; 59; 90; 120; 151; 181; 212; 243; 273; 304; 334]) 0.

Lemma month_cases month : 1 <= month <= 12 -> month ∈ [1; 2; 3; 4; 5; 6; 7; 8; 9; 10; 11; 12].
Proof. intros Hm. change [1; 2; 3; 4; 5; 6; 7; 8; 9; 10; 11; 12] with (seqZ 1 12). apply elem_of_seqZ. lia. Qed.

Lemma before_month_ok year month : 1 <= month <= 12 -> Civil.days_before_month year month = before_month (Civil.leap year) month.
Proof.
  intros Hm%month_cases. change (Civil.days_before_month year month) with (Civil.before_month (Civil.leap year) month).
  destruct (Civil.leap year); repeat (apply elem_of_cons in Hm as [->|Hm]; [vm_compute; reflexivity|]); by apply not_elem_of_nil in Hm.
Qed.

Lemma month_days month (leap : bool) : 1 <= month <= 12 ->
  Z.quot (153 * (if decide (2 < month) then month - 3 else month + 9) + 2) 5 =
  before_month leap month + (if decide (month <= 2) then 306 else - 59 - if leap then 1 else 0).
Proof. intros Hm%month_cases. destruct leap; repeat (apply elem_of_cons in Hm as [->|Hm]; [vm_compute; reflexivity|]); by apply not_elem_of_nil in Hm. Qed.

Lemma days_is_date year month day : 1 <= month <= 12 -> days_from_civil year month day = Civil.days_from_civil (year, month, day).
Proof.
  intros Hm. unfold days_from_civil, Civil.days_from_civil, Civil.days_before_year. rewrite (before_month_ok _ _ Hm). cbv zeta.
  rewrite (month_days month (Civil.leap year) Hm). pose proof (Civil.leap_days year) as Hl. case_decide.
  - pose proof (era_days (year - 1)) as He. cbv zeta in He. lia.
  - pose proof (era_days year) as He. cbv zeta in He. destruct (Civil.leap year); lia.
Qed.

(** ** Zero-padded numbers *)

(** The last [w] decimal digits of a number. *)
Fixpoint dec (w : nat) (z : Z) : bytes := match w with O => [] | S w => dec w (z / 10) ++ [48 + z mod 10] end.

Lemma dec_length w z : length (dec w z) = w.
Proof. revert z. induction w as [|w IH]; intros z; [done|]. cbn [dec]. rewrite length_app, IH. cbn. lia. Qed.

Lemma dec_digits w z : Forall (fun c => 48 <= c <= 57) (dec w z).
Proof.
  revert z. induction w as [|w IH]; intros z; [done|]. cbn [dec]. apply Forall_app. split; [apply IH|].
  repeat constructor; pose proof (Z.mod_pos_bound z 10 ltac:(lia)); lia.
Qed.

Lemma forallb_digits l : Forall (fun c => 48 <= c <= 57) l -> forallb is_digit l = true.
Proof. induction 1 as [|c l Hc _ IH]; [done|]. cbn [forallb]. rewrite IH. unfold is_digit. by rewrite bool_decide_eq_true_2. Qed.

Lemma digits_value_app l c : digits_value (l ++ [c]) = digits_value l * 10 + (c - 48).
Proof. unfold digits_value. by rewrite fold_left_app. Qed.

Lemma dec_value w z : 0 <= z < 10 ^ Z.of_nat w -> digits_value (dec w z) = z.
Proof.
  revert z. induction w as [|w IH]; intros z Hz; [cbn in *; unfold digits_value; cbn; lia|]. cbn [dec]. rewrite digits_value_app, IH.
  - pose proof (Z.div_mod z 10 ltac:(lia)). lia.
  - replace (10 ^ Z.of_nat (S w)) with (10 * 10 ^ Z.of_nat w) in Hz by (rewrite Nat2Z.inj_succ, Z.pow_succ_r; lia).
    split; [apply Z.div_pos; lia|]. apply Z.div_lt_upper_bound; lia.
Qed.

Lemma pretty_go_app x s : pretty_N_go x s = pretty_N_go x "" +:+ s.
Proof.
  revert s. induction (N.lt_wf_0 x) as [x _ IH]; intros s. assert (x = 0 \/ 0 < x)%N as [->|Hx] by lia; [done|].
  rewrite (pretty_N_go_step x s), (pretty_N_go_step x "") by done. rewrite (IH (x / 10)%N) by (by apply N.div_lt).
  rewrite (IH (x / 10)%N (N.div_lt x 10 Hx eq_refl) (String _ "")). by rewrite <- string_app_assoc.
Qed.

Lemma pretty_char_byte' x : (x < 10)%N -> as_bytes (String (pretty_N_char x) "") = [48 + Z.of_N x].
Proof. intros Hx. cbn [as_bytes]. by rewrite JsonWire.pretty_char_byte. Qed.

Lemma decimal_small z : 0 <= z < 10 -> as_bytes (decimal z) = [48 + z].
Proof.
  intros Hz. unfold decimal, pretty, pretty_N. case_decide as H0; [replace z with 0 by lia; done|].
  rewrite pretty_N_go_step, N.div_small, pretty_N_go_0, N.mod_small by lia. rewrite pretty_char_byte' by lia. f_equal. lia.
Qed.

Lemma decimal_step z : 10 <= z -> as_bytes (decimal z) = as_bytes (decimal (z / 10)) ++ [48 + z mod 10].
Proof.
  intros Hz. assert (0 < z / 10) by (apply Z.div_str_pos; lia). unfold decimal, pretty, pretty_N. rewrite !decide_False by lia.
  rewrite pretty_N_go_step, pretty_go_app, as_bytes_app, pretty_char_byte' by (apply N.mod_lt || lia; lia).
  rewrite Z2N.inj_div by lia. f_equal. f_equal. rewrite <- (Z2N.id (z mod 10)) by (apply Z.mod_pos_bound; lia). rewrite Z2N.inj_mod by lia. done.
Qed.

Lemma zeros_bytes n : as_bytes (Civil.zeros n) = replicate n 48.
Proof. induction n as [|n IH]; [done|]. cbn [Civil.zeros as_bytes replicate]. by rewrite IH. Qed.

Lemma dec_zero w : dec w 0 = replicate w 48.
Proof. induction w as [|w IH]; [done|]. cbn [dec]. change (0 / 10) with 0. rewrite IH. change [48 + 0 mod 10] with (replicate 1 48). by rewrite <- replicate_add, Nat.add_comm. Qed.

Lemma pad_nat_bytes w z : as_bytes (Civil.pad_nat w z) = replicate (w - length (as_bytes (decimal z))) 48 ++ as_bytes (decimal z).
Proof. unfold Civil.pad_nat. by rewrite as_bytes_app, zeros_bytes, as_bytes_length. Qed.

Lemma pad_dec w z : 0 <= z < 10 ^ Z.of_nat (S w) -> as_bytes (Civil.pad (S w) z) = dec (S w) z.
Proof.
  unfold Civil.pad. intros Hz. rewrite decide_True, pad_nat_bytes by lia. revert z Hz.
  induction w as [|w IH]; intros z Hz.
  - cbn in Hz. rewrite decimal_small by lia. cbn [length dec app Nat.sub replicate]. by rewrite Z.mod_small by lia.
  - destruct (Z_lt_le_dec z 10) as [Hs|Hs].
    + rewrite decimal_small by lia. change (dec (S (S w)) z) with (dec (S w) (z / 10) ++ [48 + z mod 10]).
      rewrite (Z.mod_small z), Z.div_small, dec_zero by lia. done.
    + rewrite decimal_step by done. change (dec (S (S w)) z) with (dec (S w) (z / 10) ++ [48 + z mod 10]). rewrite length_app, app_assoc. f_equal.
      replace (10 ^ Z.of_nat (S (S w))) with (10 * 10 ^ Z.of_nat (S w)) in Hz by (rewrite (Nat2Z.inj_succ (S w)), Z.pow_succ_r; lia).
      rewrite <- (IH (z / 10)) by (split; [apply Z.div_pos|apply Z.div_lt_upper_bound]; lia). f_equal. f_equal. cbn. lia.
Qed.

(** Reading a padded number back at its offset. *)
Lemma digits_dec pre w z post offset : offset = length pre -> 0 <= z < 10 ^ Z.of_nat w -> digits (pre ++ dec w z ++ post) offset w = Some z.
Proof.
  intros -> Hz. unfold digits. rewrite (Delta.slice_Some _ (length pre) (length pre + w)) by (rewrite !length_app, dec_length; lia).
  cbn. rewrite drop_app_length, Nat.add_comm, Nat.add_sub. rewrite take_app_le by (rewrite dec_length; lia).
  rewrite take_ge by (rewrite dec_length; lia). rewrite forallb_digits by apply dec_digits. by rewrite dec_value.
Qed.

Lemma byte_at pre c post i : i = length pre -> byte_is (pre ++ c :: post) i c = true.
Proof. intros ->. unfold byte_is. rewrite list_lookup_middle by done. by rewrite bool_decide_eq_true_2. Qed.

(** ** The fraction *)

Lemma fraction_digits l c rest seen sub : Forall (fun c => 48 <= c <= 57) l -> is_digit c = false -> (seen + length l <= 9)%nat ->
  fraction (l ++ c :: rest) seen sub = (length l, (seen + length l)%nat, fold_left (fun acc b => acc * 10 + (b - 48)) l sub).
Proof.
  revert seen sub. induction l as [|d l IH]; intros seen sub Hl Hc Hn; cbn [app fraction length fold_left].
  - rewrite Hc. by rewrite Nat.add_0_r.
  - apply Forall_cons in Hl as [Hd Hl]. unfold is_digit at 1. rewrite bool_decide_eq_true_2 by done. cbn [length] in Hn.
    rewrite (proj2 (Nat.ltb_lt seen 9)) by lia. rewrite IH by (done || lia). by rewrite Nat.add_succ_comm.
Qed.

Lemma drop_zeros_split l : exists k, l = replicate k 48 ++ Utf8.drop_while (fun c => bool_decide (c = 48)) l.
Proof.
  induction l as [|c l [k IH]]; [by exists 0%nat|]. cbn [Utf8.drop_while]. case_bool_decide as Hc; [|by exists 0%nat].
  exists (S k). cbn. by rewrite <- IH, Hc.
Qed.

Lemma pop_zeros_split l : exists k, l = pop_zeros l ++ replicate k 48.
Proof.
  destruct (drop_zeros_split (reverse l)) as [k E]. exists k. unfold pop_zeros. apply (f_equal reverse) in E.
  rewrite reverse_involutive, reverse_app, reverse_replicate in E. exact E.
Qed.

Lemma digits_value_zeros l k : digits_value (l ++ replicate k 48) = digits_value l * 10 ^ Z.of_nat k.
Proof.
  induction k as [|k IH]; [rewrite app_nil_r; cbn; lia|]. replace (S k) with (k + 1)%nat by lia.
  rewrite replicate_add, app_assoc. change (replicate 1 48) with [48]. rewrite digits_value_app, IH, Nat2Z.inj_add, Z.pow_add_r by lia. lia.
Qed.

Lemma pop_zeros_value w z : 0 < z < 10 ^ Z.of_nat w ->
  let l := pop_zeros (dec w z) in
  l <> [] /\ (length l <= w)%nat /\ Forall (fun c => 48 <= c <= 57) l /\ digits_value l * 10 ^ Z.of_nat (w - length l) = z.
Proof.
  intros Hz l. destruct (pop_zeros_split (dec w z)) as [k E]. fold l in E.
  pose proof (dec_value w z ltac:(lia)) as Hv. rewrite E, digits_value_zeros in Hv.
  pose proof (dec_digits w z) as Hd. rewrite E, Forall_app in Hd. destruct Hd as [Hd _].
  pose proof (dec_length w z) as Hlen. rewrite E, length_app, length_replicate in Hlen.
  split_and!; [|lia|done|].
  - intros Hnil. rewrite Hnil in Hv. cbn in Hv. lia.
  - by replace (w - length l)%nat with k by lia.
Qed.

Definition fraction_bytes (sub : Z) : bytes := if decide (sub = 0) then [] else 46 :: pop_zeros (dec 9 sub).

Lemma fraction_back pre sub : 0 <= sub < 1000000000 ->
  fraction_at (pre ++ fraction_bytes sub ++ [90]) (length pre) = Some ((length pre + length (fraction_bytes sub))%nat, sub).
Proof.
  intros Hs. unfold fraction_at, fraction_bytes. case_decide as H0.
  - cbn [app length]. unfold byte_is. rewrite list_lookup_middle by done. rewrite bool_decide_eq_false_2 by done. by rewrite Nat.add_0_r, H0.
  - destruct (pop_zeros_value 9 sub ltac:(change (10 ^ Z.of_nat 9) with 1000000000; lia)) as (Hne & Hlen & Hd & Hv).
    set (l := pop_zeros (dec 9 sub)) in *. rewrite <- app_comm_cons, byte_at by done.
    replace (drop (S (length pre)) (pre ++ 46 :: l ++ [90])) with (l ++ [90])
      by (by rewrite <- Nat.add_1_r, drop_app_add).
    rewrite fraction_digits by (done || lia). rewrite decide_False by (destruct l; [done|cbn; lia]). cbn [length].
    f_equal. f_equal; [lia|exact Hv].
Qed.

(** ** The round trip *)

Lemma date_valid days : let '(y, m, d) := civil_from_days days in
  1 <= m <= 12 /\ 1 <= d <= Civil.month_length y m /\ Civil.days_from_civil (y, m, d) = days.
Proof.
  rewrite civil_is_date. destruct (Civil.wire_date_ok days) as [Hd Hv]. destruct (Civil.wire_date days) as [[y m] d].
  unfold Civil.valid_date in Hv. apply andb_true_iff in Hv as [Hm%bool_decide_eq_true Hday%bool_decide_eq_true]. exact (conj Hm (conj Hday Hd)).
Qed.

Lemma before_month_bound leap month : 1 <= month <= 12 -> 0 <= before_month leap month <= 335.
Proof. intros Hm%month_cases. destruct leap; repeat (apply elem_of_cons in Hm as [->|Hm]; [vm_compute; split; discriminate|]); by apply not_elem_of_nil in Hm. Qed.

Lemma month_length_bound y m : Civil.month_length y m <= 31.
Proof. unfold Civil.month_length. repeat case_decide; [destruct (Civil.leap y)|..]; lia. Qed.

Lemma date_year days : - 719162 <= days <= 2932896 -> let '(y, m, d) := civil_from_days days in 0 <= y <= 9999.
Proof.
  pose proof (date_valid days) as Hv. destruct (civil_from_days days) as [[y m] d]. destruct Hv as (Hm & Hd & Hdays). intros Hr.
  unfold Civil.days_from_civil, Civil.days_before_year in Hdays. rewrite before_month_ok in Hdays by done.
  pose proof (before_month_bound (Civil.leap y) m Hm). pose proof (month_length_bound y m).
  split; Z.to_euclidean_division_equations; lia.
Qed.

Lemma days_in_month_ok m y : 1 <= m <= 12 -> 0 <= y -> days_in_month m y = Civil.month_length y m.
Proof.
  intros Hm Hy. unfold days_in_month, Civil.month_length. rewrite !Z.rem_mod_nonneg by lia.
  assert (Hl : Civil.leap y = bool_decide (y mod 4 = 0 /\ (y mod 100 <> 0 \/ y mod 400 = 0))).
  { unfold Civil.leap. repeat case_bool_decide; cbn; tauto. }
  rewrite Hl. repeat case_decide; repeat case_bool_decide; try lia; tauto.
Qed.

(** The bytes of a timestamp whose parts are in range. *)
Lemma format_bytes time y m d : civil_from_days (time / 1000000000 / 86400) = (y, m, d) ->
  0 <= y <= 9999 -> 1 <= m <= 12 -> 1 <= d <= 31 ->
  let tod := time / 1000000000 mod 86400 in
  as_bytes (format_timestamp time) =
    dec 4 y ++ 45 :: dec 2 m ++ 45 :: dec 2 d ++ 84 :: dec 2 (tod / 3600) ++ 58 :: dec 2 (tod mod 3600 / 60) ++ 58 :: dec 2 (tod mod 60)
    ++ fraction_bytes (time mod 1000000000) ++ [90].
Proof.
  intros E Hy Hm Hd tod. unfold format_timestamp. fold tod. rewrite E. unfold Civil.date_text, Civil.clock_text.
  pose proof (Z.mod_pos_bound (time / 1000000000) 86400 ltac:(lia)) as Ht. fold tod in Ht.
  pose proof (Z.mod_pos_bound time 1000000000 ltac:(lia)) as Hn.
  rewrite !as_bytes_app, !pad_dec by (change (10 ^ Z.of_nat 2) with 100; change (10 ^ Z.of_nat 4) with 10000; Z.to_euclidean_division_equations; lia).
  rewrite <- !app_assoc. cbn [as_bytes app]. repeat (f_equal; cbn [app]). unfold fraction_bytes. case_decide as H0; [done|].
  rewrite as_bytes_app. cbn [as_bytes app]. f_equal.
  apply as_bytes_of_bytes. destruct (pop_zeros_value 9 (time mod 1000000000)) as (_ & _ & Hds & _); [change (10 ^ Z.of_nat 9) with 1000000000; lia|].
  eapply Forall_impl; [exact Hds|]. intros c Hc. cbn in Hc. unfold is_u8, u8_max. lia.
Qed.

(** What [parse_timestamp] reads when every part is where it is written. *)
Lemma parse_parts (y m d h mi s sub : Z) (value : string) :
  0 <= y <= 9999 -> 1 <= m <= 12 -> 1 <= d <= Civil.month_length y m -> 0 <= h <= 23 -> 0 <= mi <= 59 -> 0 <= s <= 59 -> 0 <= sub < 1000000000 ->
  as_bytes value = dec 4 y ++ 45 :: dec 2 m ++ 45 :: dec 2 d ++ 84 :: dec 2 h ++ 58 :: dec 2 mi ++ 58 :: dec 2 s ++ fraction_bytes sub ++ [90] ->
  parse_timestamp value =
    Some (time_from_nanos ((Civil.days_from_civil (y, m, d) * 86400 + h * 3600 + mi * 60 + s) * 1000000000 + sub)).
Proof.
  intros Hy Hm Hd Hh Hmi Hs Hsub E. unfold parse_timestamp. rewrite E. clear E. pose proof (month_length_bound y m) as Hml.
  assert (Hp2 : forall z, 0 <= z <= 99 -> 0 <= z < 10 ^ Z.of_nat 2) by (intros z; change (10 ^ Z.of_nat 2) with 100; lia).
  set (b := dec 4 y ++ _). set (y4 := dec 4 y ++ [45]). set (m2 := y4 ++ dec 2 m ++ [45]). set (d2 := m2 ++ dec 2 d ++ [84]).
  set (h2 := d2 ++ dec 2 h ++ [58]). set (i2 := h2 ++ dec 2 mi ++ [58]). set (s2 := i2 ++ dec 2 s).
  assert (Hlen : length b = (19 + (length (fraction_bytes sub) + 1))%nat) by (change 1%nat with (length [90]); by rewrite <- length_app).
  rewrite (proj2 (Nat.ltb_ge _ _)) by lia.
  assert (Hb : forall i c, b !! i = Some c -> byte_is b i c = true) by (intros i c Hi; unfold byte_is; by rewrite Hi, bool_decide_eq_true_2).
  rewrite !(Hb 4%nat), !(Hb 7%nat) by done. cbn [negb andb].
  assert (Hy4 : digits b 0 4 = Some y) by (apply (digits_dec [] 4 y _ 0 eq_refl); change (10 ^ Z.of_nat 4) with 10000; lia).
  assert (Hm2 : digits b 5 2 = Some m) by exact (digits_dec y4 2 m _ 5 eq_refl (Hp2 m ltac:(lia))).
  assert (Hd2 : digits b 8 2 = Some d) by exact (digits_dec m2 2 d _ 8 eq_refl (Hp2 d ltac:(lia))).
  assert (Hh2 : digits b 11 2 = Some h) by exact (digits_dec d2 2 h _ 11 eq_refl (Hp2 h ltac:(lia))).
  assert (Hi2 : digits b 14 2 = Some mi) by exact (digits_dec h2 2 mi _ 14 eq_refl (Hp2 mi ltac:(lia))).
  assert (Hs2 : digits b 17 2 = Some s) by exact (digits_dec i2 2 s _ 17 eq_refl (Hp2 s ltac:(lia))).
  rewrite Hy4, Hm2, Hd2. cbn [mbind option_bind].
  rewrite decide_False by (rewrite days_in_month_ok by lia; lia).
  rewrite !(Hb 10%nat 84), !(Hb 13%nat), !(Hb 16%nat) by done. cbn [negb andb orb].
  rewrite Hh2, Hi2, Hs2. cbn [mbind option_bind].
  rewrite decide_False by lia. change b with (s2 ++ fraction_bytes sub ++ [90]). change 19%nat with (length s2).
  rewrite fraction_back by done. cbn [mbind option_bind]. unfold zone_at. rewrite app_assoc, byte_at by (by rewrite length_app).
  cbn [orb mbind option_bind]. rewrite decide_True by (rewrite !length_app; cbn [length]; lia).
  rewrite days_is_date by done. do 3 f_equal. lia.
Qed.

Lemma time_back time : - 2 ^ 64 < time < 2 ^ 64 -> time_from_nanos time = time.
Proof. intros Ht. unfold time_from_nanos, as_u64. case_decide; rewrite Z.mod_small; lia. Qed.

(** An expiry written to the attachment index is read back exactly, to the
    nanosecond, for every instant a 64-bit count of nanoseconds reaches on
    either side of the epoch (the years 1385 to 2554). *)
Lemma parse_format (time : Z) : - 2 ^ 64 < time < 2 ^ 64 -> parse_timestamp (format_timestamp time) = Some time.
Proof.
  intros Ht. set (seconds := time / 1000000000). set (days := seconds / 86400). set (tod := seconds mod 86400).
  assert (Hdays : - 719162 <= days <= 2932896) by (unfold days, seconds; Z.to_euclidean_division_equations; lia).
  pose proof (date_valid days) as Hv. pose proof (date_year days Hdays) as Hy. destruct (civil_from_days days) as [[y m] d] eqn:E.
  destruct Hv as (Hm & Hd & Hsum). pose proof (month_length_bound y m).
  pose proof (Z.mod_pos_bound seconds 86400 ltac:(lia)) as Htod. fold tod in Htod.
  pose proof (Z.mod_pos_bound time 1000000000 ltac:(lia)) as Hsub.
  rewrite (parse_parts y m d (tod / 3600) (tod mod 3600 / 60) (tod mod 60) (time mod 1000000000));
    [|try done; Z.to_euclidean_division_equations; lia..|apply (format_bytes time y m d); [exact E|done..|lia]].
  assert (Hn : (days * 86400 + tod / 3600 * 3600 + tod mod 3600 / 60 * 60 + tod mod 60) * 1000000000 + time mod 1000000000 = time).
  { unfold tod, days, seconds. Z.to_euclidean_division_equations; lia. }
  by rewrite Hsum, Hn, time_back.
Qed.

Example demo_timestamp : format_timestamp (-1500) = "1969-12-31T23:59:59.9999985Z"%string.
Proof. vm_compute; reflexivity. Qed.

(** The minutes of a zone offset are counted as seconds: half past five ahead
    of UTC is read as 5 h 0 min 30 s, so the instant is 29 min 30 s late. *)
Example offset_minutes_are_seconds :
  parse_timestamp "2024-01-01T05:30:00+05:30" = Some (1704067200000000000 + (29 * 60 + 30) * 1000000000) /\
  parse_timestamp "2024-01-01T00:00:00Z" = Some 1704067200000000000.
Proof. split; vm_compute; reflexivity. Qed.

(** The Go zero time is outside the 64-bit range, so the parser wraps it into
    the 18th century and [is_zero_time] never recognises a parsed value. *)
Example zero_time_unrecognised :
  exists time, parse_timestamp "0001-01-01T00:00:00Z" = Some time /\ is_zero_time time = false /\ is_zero_time (- (62135596800 * 1000000000)) = true.
Proof. eexists. split; [vm_compute; reflexivity|]. split; vm_compute; reflexivity. Qed.

End UploadTime.
