(* ===== verification/UploadSpec.v ===== *)
(** * What an attachment may be

    The limits, error codes, media types and validation helpers of
    [lerdr-coord/src/actions/uploads.rs]: everything that is checked about a
    file before and while it is staged, without the state it is staged in. *)

From S2P Require Import Prelude Utf8 Inbound Protocol WriteAudit Topology.

Module UploadSpec.
Import Utf8 Inbound.

Definition CHUNK_BYTES : Z := 256 * 1024.
Definition MAX_FILES : nat := 8.
Definition MAX_FILE_BYTES : Z := 20 * 1024 * 1024.
Definition MAX_BATCH_BYTES : Z := 50 * 1024 * 1024.
Definition MAX_SESSIONS : nat := 64.
Definition MAX_SESSIONS_PER_OWNER : nat := 4.
(** Instants and durations are nanoseconds. *)
Definition SESSION_TTL : Z := 30 * 60 * 1000000000.
Definition ATTACHMENT_TTL : Z := 7 * 24 * 60 * 60 * 1000000000.
Definition INDEX_VERSION : Z := 1.
Definition PREFIX_BYTES : nat := 512.
Definition SUFFIX_BYTES : nat := 1024.
Definition MAX_NAME_BYTES : nat := 128.
Definition SESSIONS_DIR : string := "sessions".
Definition OBJECTS_DIR : string := "objects".
Definition ATTACHMENTS_UNAVAILABLE : string := "One or more attachments are no longer available for this agent".

(** ** Errors *)

Record UploadError := mkUploadError { ue_code : string; ue_args : gmap string Z }.
#[export] Instance UploadError_eq_dec : EqDecision UploadError.
Proof. solve_decision. Defined.

Definition upload_error (code : string) : UploadError := mkUploadError code ∅.
Definition with_args (code : string) (args : list (string * Z)) : UploadError := mkUploadError code (list_to_map args).

Definition public_upload_error_code (code : string) : string :=
  if decide (code = "upload_batch_count_invalid") then "attachment_batch_limit"
  else if decide (code = "upload_batch_too_large") then "attachment_batch_too_large"
  else if decide (code ∈ ["upload_file_size_invalid"; "upload_file_too_large"]) then "attachment_file_too_large"
  else if decide (code = "upload_name_invalid") then "attachment_invalid_name"
  else if decide (code ∈ ["upload_type_unsupported"; "upload_extension_mismatch"; "upload_content_type_mismatch"]) then "attachment_unknown_mime"
  else if decide (code = "upload_session_expired") then "attachment_upload_expired"
  else if decide (code = "upload_session_limit") then "attachment_upload_busy"
  else if decide (code ∈ ["upload_chunk_out_of_order"; "upload_chunk_digest_mismatch"; "upload_final_digest_mismatch"; "upload_incomplete";
                          "upload_scope_mismatch"; "upload_session_not_found"]) then "attachment_upload_state_unknown"
  else "attachment_upload_failed".

(** ** Media types *)

Definition DOCX : string := "application/vnd.openxmlformats-officedocument.wordprocessingml.document".
Definition XLSX : string := "application/vnd.openxmlformats-officedocument.spreadsheetml.sheet".
Definition PPTX : string := "application/vnd.openxmlformats-officedocument.presentationml.presentation".
Definition ODT : string := "application/vnd.oasis.opendocument.text".
Definition ODS : string := "application/vnd.oasis.opendocument.spreadsheet".
Definition ODP : string := "application/vnd.oasis.opendocument.presentation".

Definition media_types : list (string * list string) :=
  [("image/png", [".png"]); ("image/jpeg", [".jpg"; ".jpeg"]); ("image/gif", [".gif"]); ("image/webp", [".webp"]); ("image/heic", [".heic"]);
   ("image/heif", [".heif"]); ("application/pdf", [".pdf"]); ("application/json", [".json"]); ("text/plain", [".txt"; ".text"; ".log"]);
   ("text/markdown", [".md"; ".markdown"]); ("text/csv", [".csv"]); (DOCX, [".docx"]); (XLSX, [".xlsx"]); (PPTX, [".pptx"]); (ODT, [".odt"]);
   (ODS, [".ods"]); (ODP, [".odp"])].

Definition allowed_extensions (media_type : string) : option (list string) :=
  match list_find (fun e => e.1 = media_type) media_types with Some (_, e) => Some e.2 | None => None end.

Definition extension_table : list (string * string) :=
  [("image/png", ".png"); ("image/jpeg", ".jpg"); ("image/gif", ".gif"); ("image/webp", ".webp"); ("image/heic", ".heic"); ("image/heif", ".heif");
   ("application/pdf", ".pdf"); ("application/json", ".json"); ("text/plain", ".txt"); ("text/markdown", ".md"); ("text/csv", ".csv");
   (DOCX, ".docx"); (XLSX, ".xlsx"); (PPTX, ".pptx"); (ODT, ".odt"); (ODS, ".ods"); (ODP, ".odp")].

Definition canonical_extension (media_type : string) : string :=
  match list_find (fun e => e.1 = media_type) extension_table with Some (_, e) => e.2 | None => ".data" end.

(** ** A file as the client declares it *)

Record FileSpec := mkSpec { fs_name : string; fs_media_type : string; fs_bytes : Z }.
#[export] Instance FileSpec_eq_dec : EqDecision FileSpec.
Proof. solve_decision. Defined.

(** The text before the first occurrence of a byte ([split(c).next()]). *)
Fixpoint before (c : Z) (b : bytes) : bytes :=
  match b with x :: r => if decide (x = c) then [] else x :: before c r | [] => [] end.

(** [name[rfind('.')..]]. *)
Fixpoint from_last (c : Z) (b : bytes) : option bytes :=
  match b with
  | x :: r => match from_last c r with Some s => Some s | None => if decide (x = c) then Some b else None end
  | [] => None
  end.

Section Checks.
Context `{Protocol.CaseMapping} `{WriteAudit.Digest}.

Definition path_ext (name : string) : string :=
  match from_last 46 (as_bytes name) with Some s => Protocol.to_lowercase (string_of_bytes s) | None => "" end.

(** Characters a name may not have: [/], [\], NUL, CR and LF. *)
Definition bad_name_byte (b : Z) : bool := bool_decide (b ∈ [47; 92; 0; 13; 10]).

Definition normalize_spec (spec : FileSpec) : result UploadError FileSpec :=
  let media_type := Protocol.to_lowercase (trim (string_of_bytes (before 59 (as_bytes (fs_media_type spec))))) in
  let name := fs_name spec in
  if decide (trim name = "" \/ (MAX_NAME_BYTES < String.length name)%nat \/ name = "." \/ name = ".."
             \/ existsb bad_name_byte (as_bytes name) = true) then Err (upload_error "upload_name_invalid")
  else if decide (fs_bytes spec < 1 \/ MAX_FILE_BYTES < fs_bytes spec) then
    Err (with_args "upload_file_size_invalid" [("max_bytes", MAX_FILE_BYTES)])
  else match allowed_extensions media_type with
  | None => Err (upload_error "upload_type_unsupported")
  | Some allowed =>
      if decide (path_ext name ∈ allowed) then Ok (mkSpec name media_type (fs_bytes spec)) else Err (upload_error "upload_extension_mismatch")
  end.

(** [hex::decode] accepts an even number of hex digits. *)
Definition is_hex (b : Z) : bool := in_range 48 57 b || in_range 65 70 b || in_range 97 102 b.
Definition valid_digest (value : string) : bool := bool_decide (String.length value = 64%nat) && forallb is_hex (as_bytes value).

(** [subtle.ConstantTimeCompare]: the differences or-ed together. *)
Definition ct_eq (a b : bytes) : bool :=
  if decide (length a <> length b) then false
  else bool_decide (fold_left (fun acc xy => Z.lor acc (Z.lxor xy.1 xy.2)) (zip a b) 0 = 0).

Definition digest_matches (data : bytes) (claimed : string) : bool :=
  ct_eq (as_bytes (WriteAudit.sha256_hex data)) (as_bytes (Protocol.to_lowercase claimed)).

(** ** Identifiers and targets *)

Definition is_alnum (b : Z) : bool := in_range 48 57 b || in_range 65 90 b || in_range 97 122 b.
Definition valid_attachment_reference (value : string) : bool :=
  bool_decide (String.length value = 32%nat) && forallb (fun b => is_alnum b || bool_decide (b = 45) || bool_decide (b = 95)) (as_bytes value).

Definition ends_with (b suffix : bytes) : bool := bool_decide (drop (length b - length suffix) b = suffix).

Definition legacy_upload_filename (name : string) : bool :=
  let b := as_bytes name in
  let digit b := in_range 48 57 b in
  if decide (length b < 26)%nat then false
  else
    forallb digit (take 8 b) && bool_decide (b !! 8%nat = Some 45) && forallb digit (take 6 (drop 9 b)) && bool_decide (b !! 15%nat = Some 45)
    && forallb is_hex (take 8 (drop 16 b)) && bool_decide (b !! 24%nat = Some 45)
    && let rest := drop 25 b in
       existsb (fun ext => bool_decide (length (as_bytes ext) + 1 < length rest)%nat && ends_with rest (46 :: as_bytes ext))
         ["png"; "jpg"; "jpeg"; "webp"; "gif"; "heic"; "heif"; "img"].

Definition blank (s : string) : bool := bool_decide (trim s = ""%string).

Definition valid_target (target : TargetRef) : bool :=
  negb (blank (t_server_session_id target)) && negb (blank (t_pane_id target)) && negb (blank (t_terminal_id target))
  && bool_decide (0 <= t_generation target).

(** [validateUploadTarget]: the live tuple the topology projects. *)
Definition validate_upload_target (t : Topology.Topology) (target : TargetRef) : result UploadError unit :=
  let mismatch := Err (upload_error "upload_scope_mismatch") in
  if decide (t_server_session_id target <> "primary") then mismatch
  else match Topology.pane_of t (t_pane_id target) with
  | None => mismatch
  | Some agent =>
      if decide (t_terminal_id target <> Topology.a_terminal_id agent) then mismatch
      else if decide (t_generation target <> Topology.generation_of t (t_pane_id target)) then mismatch
      else if decide (t_agent_session_id target <> default "" (trim <$> Topology.a_session agent)) then mismatch
      else Ok tt
  end.

(** ** Facts *)

Lemma or_zero acc (l : list (Z * Z)) : fold_left (fun acc xy => Z.lor acc (Z.lxor xy.1 xy.2)) l acc = 0 <-> acc = 0 /\ Forall (fun xy => xy.1 = xy.2) l.
Proof.
  revert acc. induction l as [|[x y] l IH]; intros acc; cbn [fold_left fst snd]; [intuition|].
  rewrite IH, Z.lor_eq_0_iff, Z.lxor_eq_0_iff, Forall_cons. cbn. tauto.
Qed.

(** The constant-time comparison is equality. *)
Lemma ct_eq_spec a b : ct_eq a b = true <-> a = b.
Proof.
  unfold ct_eq. case_decide as Hl; [split; [done|]; by intros ->|]. rewrite bool_decide_eq_true, or_zero.
  assert (Hlen : length a = length b) by lia. clear Hl. split; [|intros ->; split; [done|]; clear; by induction b; constructor].
  intros [_ Hall]. revert b Hlen Hall. induction a as [|x a IH]; intros [|y b] Hlen Hall; try done. cbn in Hall.
  apply Forall_cons in Hall as [Hxy Hall]. cbn in Hxy. subst y. f_equal. apply IH; [by injection Hlen|done].
Qed.

Lemma digest_matches_spec data claimed : digest_matches data claimed = true <-> WriteAudit.sha256_hex data = Protocol.to_lowercase claimed.
Proof. unfold digest_matches. rewrite ct_eq_spec. split; [apply as_bytes_inj|by intros ->]. Qed.

(** What an accepted declaration is. *)
Lemma normalize_spec_ok spec s : normalize_spec spec = Ok s ->
  fs_name s = fs_name spec /\ fs_bytes s = fs_bytes spec /\ trim (fs_name s) <> ""%string /\ (String.length (fs_name s) <= MAX_NAME_BYTES)%nat /\
  1 <= fs_bytes s <= MAX_FILE_BYTES /\ Forall (fun b => bad_name_byte b = false) (as_bytes (fs_name s)) /\
  exists allowed, allowed_extensions (fs_media_type s) = Some allowed /\ path_ext (fs_name s) ∈ allowed.
Proof.
  unfold normalize_spec. case_decide as Hn; [done|]. case_decide as Hb; [done|]. case_match eqn:Ea; [|done]. case_decide as He; [|done].
  intros [= <-]. cbn. split_and!; [done..|tauto|lia|lia|lia| |eauto].
  apply Forall_forall. intros b Hin. destruct (bad_name_byte b) eqn:Ebad; [|done]. exfalso. apply Hn. do 4 right.
  apply existsb_exists. exists b. split; [by apply list_elem_of_In|done].
Qed.

(** Every accepted type has a storage extension of its own list. *)
Lemma canonical_extension_allowed media_type allowed :
  allowed_extensions media_type = Some allowed -> canonical_extension media_type ∈ allowed.
Proof.
  unfold allowed_extensions. destruct (list_find _ _) as [[i [m exts]]|] eqn:E; [|done]. intros [= <-]. apply list_find_Some in E as (Hi & <- & _). cbn in *.
  assert (Hin : (m, exts) ∈ media_types) by (by eapply list_elem_of_lookup_2). clear Hi i.
  unfold media_types in Hin. repeat (apply elem_of_cons in Hin as [[= -> ->]|Hin]; [vm_compute; left|]). by apply not_elem_of_nil in Hin.
Qed.

End Checks.

End UploadSpec.
