(* ===== verification/Inflate.v ===== *)
(** * The bounded inflate of the attachment sniffer

    [inflate] of [lerdr-coord/src/actions/uploads.rs] (RFC 1951): the bit
    reader, the canonical Huffman tables, the dynamic-table header, and the
    block loop.  A run either answers [Got], is [Rejected] (the source's
    [None]) or is [Stuck]: an index out of range, or fuel that ran out.
    [inflate_total] shows that the last never happens. *)

From S2P Require Import Prelude Delta.

Module Inflate.

#[local] Open Scope nat_scope.

(** ** Runs *)

Inductive run (A : Type) := Got (a : A) | Rejected | Stuck.
#[global] Arguments Got {A} _.
#[global] Arguments Rejected {A}.
#[global] Arguments Stuck {A}.

#[export] Instance run_ret : MRet run := @Got.
#[export] Instance run_bind : MBind run := fun A B k m => match m with Got a => k a | Rejected => Rejected | Stuck => Stuck end.

(** [?] on an [Option], and an index that must be in range. *)
Definition ask {A} (o : option A) : run A := match o with Some a => Got a | None => Rejected end.
Definition must {A} (o : option A) : run A := match o with Some a => Got a | None => Stuck end.

(** ** Bits *)

Record Bits := mkBits { byte : nat; bit : nat }.

Section Reader.
Context (data : bytes).

Definition next (b : Bits) : run (Z * Bits) :=
  if decide (length data <= byte b) then Rejected
  else
    x ← must (data !! byte b);
    let value := Z.land (Z.shiftr x (Z.of_nat (bit b))) 1 in
    Got (value, if decide (S (bit b) = 8) then mkBits (S (byte b)) 0 else mkBits (byte b) (S (bit b))).

(** [take]: [count] bits, the first one lowest; [shift] of them are done. *)
Fixpoint take_from (shift count : nat) (value : Z) (b : Bits) : run (Z * Bits) :=
  match count with
  | O => Got (value, b)
  | S count =>
      '(x, b') ← next b;
      take_from (S shift) count (Z.lor value (Z.shiftl x (Z.of_nat shift))) b'
  end.
Definition take (count : nat) (b : Bits) : run (Z * Bits) := take_from 0 count 0%Z b.

Definition align (b : Bits) : Bits := if decide (bit b = 0) then b else mkBits (S (byte b)) 0.

(** ** Canonical Huffman tables *)

Record Table := mkTable { counts : list nat; symbols : list nat }.

(** [array[i] += 1]. *)
Definition incr (l : list nat) (i : nat) : option (list nat) := x ← l !! i; Some (<[i := S x]> l).

Definition count_lengths (lengths : list nat) : option (list nat) :=
  foldl (fun acc len => counts ← acc; if decide (0 < len) then incr counts len else Some counts) (Some (replicate 16 0)) lengths.

(** [offsets[len] = offsets[len - 1] + counts[len - 1]], with [counts[0]] zero. *)
Fixpoint prefix_sums (acc : nat) (counts : list nat) : list nat :=
  match counts with [] => [] | c :: counts => acc :: prefix_sums (acc + c) counts end.

(** [l[i] = x], which panics out of range. *)
Definition store {A} (l : list A) (i : nat) (x : A) : option (list A) := if decide (i < length l) then Some (<[i := x]> l) else None.

Definition place (acc : option (list nat * list nat)) (sl : nat * nat) : option (list nat * list nat) :=
  '(offsets, symbols) ← acc;
  let '(symbol, len) := sl in
  if decide (0 < len) then
    at_ ← offsets !! len;
    symbols' ← store symbols at_ symbol;
    offsets' ← incr offsets len;
    Some (offsets', symbols')
  else Some (offsets, symbols).

Definition Table_new (lengths : list nat) : option Table :=
  counts ← count_lengths lengths;
  let offsets := prefix_sums 0 counts in
  '(_, symbols) ← foldl place (Some (offsets, replicate (length (filter (fun len => 0 < len) lengths)) 0)) (imap pair lengths);
  Some (mkTable counts symbols).

(** The canonical walk over the code lengths [len .. 15]. *)
Fixpoint decode_from (n len : nat) (t : Table) (code first index : Z) (b : Bits) : run (nat * Bits) :=
  match n with
  | O => Rejected
  | S n =>
      '(x, b') ← next b;
      let code := Z.lor code x in
      count ← must (counts t !! len);
      if decide (code - first < Z.of_nat count)%Z then
        let i := (index + (code - first))%Z in
        symbol ← ask (if decide (0 <= i)%Z then symbols t !! Z.to_nat i else None);
        Got (symbol, b')
      else decode_from n (S len) t (2 * code) (2 * (first + Z.of_nat count)) (index + Z.of_nat count) b'
  end.
Definition decode (t : Table) (b : Bits) : run (nat * Bits) := decode_from 15 1 t 0 0 0 b.

(** ** Tables of a block *)

Definition LEN_BASE : list Z := (
  [3; 4; 5; 6; 7; 8; 9; 10; 11; 13; 15; 17; 19; 23; 27; 31; 35; 43; 51; 59; 67; 83; 99; 115; 131; 163; 195; 227; 258])%Z.
Definition LEN_EXTRA : list nat := [0; 0; 0; 0; 0; 0; 0; 0; 1; 1; 1; 1; 2; 2; 2; 2; 3; 3; 3; 3; 4; 4; 4; 4; 5; 5; 5; 5; 0].
Definition DIST_BASE : list Z := (
  [1; 2; 3; 4; 5; 7; 9; 13; 17; 25; 33; 49; 65; 97; 129; 193; 257; 385; 513; 769; 1025; 1537; 2049; 3073; 4097; 6145; 8193; 12289; 16385; 24577])%Z.
Definition DIST_EXTRA : list nat := [0; 0; 0; 0; 1; 1; 2; 2; 3; 3; 4; 4; 5; 5; 6; 6; 7; 7; 8; 8; 9; 9; 10; 10; 11; 11; 12; 12; 13; 13].
Definition ORDER : list nat := [16; 17; 18; 0; 8; 7; 9; 6; 10; 5; 11; 4; 12; 3; 13; 2; 14; 1; 15].

Definition fixed_lit : option Table := Table_new (replicate 144 8 ++ replicate 112 9 ++ replicate 24 7 ++ replicate 8 8).
Definition fixed_dist : option Table := Table_new (replicate 30 5).

Fixpoint read_cl (slots : list nat) (cl : list nat) (b : Bits) : run (list nat * Bits) :=
  match slots with
  | [] => Got (cl, b)
  | slot :: slots =>
      '(x, b') ← take 3 b;
      cl' ← must (store cl slot (Z.to_nat x));
      read_cl slots cl' b'
  end.

(** [for _ in 0..repeat { lengths[filled] = prev; filled += 1 }]. *)
Fixpoint fill (repeat : nat) (lengths : list nat) (filled prev : nat) : option (list nat) :=
  match repeat with
  | O => Some lengths
  | S repeat => lengths' ← store lengths filled prev; fill repeat lengths' (S filled) prev
  end.

Fixpoint fill_lengths (fuel : nat) (cl : Table) (total : nat) (lengths : list nat) (filled : nat) (b : Bits) : run (list nat * Bits) :=
  if decide (total <= filled) then Got (lengths, b)
  else match fuel with
  | O => Stuck
  | S fuel =>
      '(symbol, b1) ← decode cl b;
      if decide (symbol <= 15) then
        lengths' ← must (store lengths filled symbol);
        fill_lengths fuel cl total lengths' (S filled) b1
      else if decide (symbol = 16) then
        if decide (filled = 0) then Rejected
        else
          prev ← must (lengths !! (filled - 1));
          '(x, b2) ← take 2 b1;
          let repeat := 3 + Z.to_nat x in
          if decide (total < filled + repeat) then Rejected
          else
            lengths' ← must (fill repeat lengths filled prev);
            fill_lengths fuel cl total lengths' (filled + repeat) b2
      else if decide (symbol = 17) then
        '(x, b2) ← take 3 b1;
        let repeat := 3 + Z.to_nat x in
        if decide (total < filled + repeat) then Rejected else fill_lengths fuel cl total lengths (filled + repeat) b2
      else if decide (symbol = 18) then
        '(x, b2) ← take 7 b1;
        let repeat := 11 + Z.to_nat x in
        if decide (total < filled + repeat) then Rejected else fill_lengths fuel cl total lengths (filled + repeat) b2
      else Rejected
  end.

Definition bit_fuel : nat := S (8 * length data).

Definition dynamic (b : Bits) : run (Table * Table * Bits) :=
  '(x, b) ← take 5 b;
  let hlit := Z.to_nat x + 257 in
  '(x, b) ← take 5 b;
  let hdist := Z.to_nat x + 1 in
  '(x, b) ← take 4 b;
  let hclen := Z.to_nat x + 4 in
  if decide (286 < hlit \/ 30 < hdist) then Rejected
  else
    '(cl_lengths, b) ← read_cl (list.take hclen ORDER) (replicate 19 0) b;
    cl ← must (Table_new cl_lengths);
    let total := hlit + hdist in
    '(lengths, b) ← fill_lengths bit_fuel cl total (replicate total 0) 0 b;
    lit ← must (Table_new (list.take hlit lengths));
    dist ← must (Table_new (drop hlit lengths));
    Got (lit, dist, b).

(** ** Blocks *)

(** [for _ in 0..length { out.push(out[out.len() - distance]) }]. *)
Fixpoint copy_back (n distance : nat) (out : bytes) : option bytes :=
  match n with
  | O => Some out
  | S n => if decide (1 <= distance <= length out) then byte ← out !! (length out - distance); copy_back n distance (out ++ [byte]) else None
  end.

Definition copy_match (dist : Table) (symbol : nat) (out : bytes) (b : Bits) : run (bytes * Bits) :=
  base ← must (LEN_BASE !! (symbol - 257));
  extra ← must (LEN_EXTRA !! (symbol - 257));
  '(x, b) ← take extra b;
  let length_ := Z.to_nat (base + x) in
  '(dist_symbol, b) ← decode dist b;
  if decide (30 <= dist_symbol) then Rejected
  else
    dbase ← must (DIST_BASE !! dist_symbol);
    dextra ← must (DIST_EXTRA !! dist_symbol);
    '(y, b) ← take dextra b;
    let distance := Z.to_nat (dbase + y) in
    if decide (length out < distance) then Rejected
    else out' ← must (copy_back length_ distance out); Got (out', b).

Fixpoint symbol_loop (fuel limit : nat) (lit dist : Table) (out : bytes) (b : Bits) : run (bytes * Bits) :=
  match fuel with
  | O => Stuck
  | S fuel =>
      '(symbol, b) ← decode lit b;
      if decide (symbol = 256) then Got (out, b)
      else
        '(out, b) ← (if decide (symbol <= 255) then Got (out ++ [Z.of_nat symbol], b)
                     else if decide (symbol <= 285) then copy_match dist symbol out b
                     else Rejected);
        if decide (limit < length out) then Rejected else symbol_loop fuel limit lit dist out b
  end.

Definition le_value (b : bytes) : Z := be_value (reverse b).

(** A stored block: the length, its complement, the bytes. *)
Definition stored (out : bytes) (b : Bits) : run (bytes * Bits) :=
  let b := align b in
  header ← ask (Delta.slice data (byte b) (byte b + 4));
  let len := le_value (list.take 2 header) in
  let nlen := le_value (drop 2 header) in
  if decide (len <> Z.land (Z.lnot nlen) 0xFFFF) then Rejected
  else
    let at_ := byte b + 4 in
    block ← ask (Delta.slice data at_ (at_ + Z.to_nat len));
    Got (out ++ block, mkBits (at_ + Z.to_nat len) (bit b)).

Definition block (limit : nat) (out : bytes) (b : Bits) : run (bytes * Bits) :=
  '(kind, b) ← take 2 b;
  if decide (kind = 0%Z) then stored out b
  else if decide (kind = 1%Z) then
    lit ← must fixed_lit;
    dist ← must fixed_dist;
    symbol_loop bit_fuel limit lit dist out b
  else if decide (kind = 2%Z) then
    '(lit, dist, b) ← dynamic b;
    symbol_loop bit_fuel limit lit dist out b
  else Rejected.

Fixpoint block_loop (fuel limit : nat) (out : bytes) (b : Bits) : run bytes :=
  match fuel with
  | O => Stuck
  | S fuel =>
      '(last, b) ← next b;
      '(out, b) ← block limit out b;
      if decide (limit < length out) then Rejected
      else if decide (last = 1%Z) then Got out
      else block_loop fuel limit out b
  end.

End Reader.

Definition inflate (data : bytes) (limit : nat) : run bytes := block_loop data (bit_fuel data) limit [] (mkBits 0 0).

(** ["hello hello hello"] as [zlib] compresses it (a fixed block with a match). *)
Example inflate_fixed :
  inflate [0xCB; 0x48; 0xCD; 0xC9; 0xC9; 0x57; 0xC8; 0x40; 0x90; 0x00]%Z 129 = Got (as_bytes "hello hello hello").
Proof. vm_compute. reflexivity. Qed.
(** A dynamic block of the same library. *)
Example inflate_dynamic :
  inflate [61; 138; 193; 9; 0; 64; 12; 131; 102; 213; 116; 255; 25; 238; 154; 71; 3; 130; 66; 144; 191; 9; 3; 153; 117; 44; 54; 210; 194; 172; 89; 191; 15; 62]%Z 129 =
  Got (as_bytes "abaaaadcadaacdaaaaabaaababdaaaacabaaaabcacabbbaaaaaaaaabaaaab").
Proof. vm_compute. reflexivity. Qed.
Example inflate_stored : inflate [1; 2; 0; 0xFD; 0xFF; 104; 105]%Z 129 = Got (as_bytes "hi").
Proof. vm_compute. reflexivity. Qed.
Example inflate_limit : inflate [1; 2; 0; 0xFD; 0xFF; 104; 105]%Z 1 = Rejected.
Proof. vm_compute. reflexivity. Qed.

(** ** Runs that are never stuck *)

(** [safe P r]: the run is not stuck, and an answer satisfies [P]. *)
Definition safe {A} (P : A -> Prop) (r : run A) : Prop := match r with Got a => P a | Rejected => True | Stuck => False end.

Lemma safe_bind {A B} (P : A -> Prop) (Q : B -> Prop) (m : run A) (k : A -> run B) :
  safe P m -> (forall a, P a -> safe Q (k a)) -> safe Q (m ≫= k).
Proof. destruct m; cbn; auto. Qed.

Lemma safe_mono {A} (P Q : A -> Prop) (m : run A) : safe P m -> (forall a, P a -> Q a) -> safe Q m.
Proof. destruct m; cbn; auto. Qed.

Lemma safe_ask {A} (o : option A) (P : A -> Prop) : (forall a, o = Some a -> P a) -> safe P (ask o).
Proof. destruct o; cbn; auto. Qed.

Lemma safe_must {A} (o : option A) (P : A -> Prop) : (exists a, o = Some a /\ P a) -> safe P (must o).
Proof. intros (a & -> & Ha). exact Ha. Qed.

Section Reading.
Context (data : bytes).

Definition pos (b : Bits) : nat := 8 * byte b + bit b.
Definition wf (b : Bits) : Prop := bit b < 8 /\ pos b <= 8 * length data.
#[local] Arguments pos : simpl never.
#[local] Arguments Nat.mul : simpl never.

Lemma next_safe b : wf b -> safe (fun r => (0 <= r.1 < 2)%Z /\ wf r.2 /\ pos r.2 = S (pos b) /\ pos b < 8 * length data) (next data b).
Proof.
  intros Hw. unfold next. case_decide as Hb; [done|]. destruct (lookup_lt_is_Some_2 data (byte b)) as [x Hx]; [lia|]. rewrite Hx. cbn.
  change 1%Z with (Z.ones 1). rewrite Z.land_ones by lia. unfold wf, pos in *.
  split; [apply Z.mod_pos_bound; done|]. case_decide; cbn [byte bit]; lia.
Qed.

Lemma take_from_safe count shift value b : wf b -> (0 <= value < 2 ^ Z.of_nat shift)%Z ->
  safe (fun r => (0 <= r.1 < 2 ^ Z.of_nat (shift + count))%Z /\ wf r.2 /\ pos r.2 = pos b + count) (take_from data shift count value b).
Proof.
  revert shift value b. induction count as [|count IH]; intros shift value b Hw Hv; cbn [take_from].
  - cbn. rewrite !Nat.add_0_r. done.
  - eapply safe_bind; [by apply next_safe|]. intros [x b'] (Hx & Hw' & Hp & _). cbn in *. eapply safe_mono.
    + apply IH; [done|]. rewrite Nat2Z.inj_succ, Z.pow_succ_r, Z.shiftl_mul_pow2 by lia.
      assert (0 <= x * 2 ^ Z.of_nat shift <= 2 ^ Z.of_nat shift)%Z by nia.
      pose proof (Z.add_lor_land value (x * 2 ^ Z.of_nat shift)) as Hsum.
      assert (0 <= Z.land value (x * 2 ^ Z.of_nat shift))%Z by (apply Z.land_nonneg; lia).
      split; [apply Z.lor_nonneg; lia|]. lia.
    + intros [v b2] (Hv2 & Hw2 & Hp2). cbn in *. replace (shift + S count) with (S shift + count) by lia. split; [exact Hv2|]. split; [done|lia].
Qed.

Lemma take_safe count b : wf b -> safe (fun r => (0 <= r.1 < 2 ^ Z.of_nat count)%Z /\ wf r.2 /\ pos r.2 = pos b + count) (take data count b).
Proof. intros Hw. apply (take_from_safe count 0 0 b Hw). cbn. lia. Qed.

(** ** Tables *)

Definition table_ok (t : Table) : Prop := length (counts t) = 16.

Lemma decode_from_safe n len t code first index b : table_ok t -> wf b -> n + len = 16 ->
  safe (fun r => wf r.2 /\ pos b < pos r.2 /\ pos b < 8 * length data) (decode_from data n len t code first index b).
Proof.
  intros Ht. revert len code first index b. induction n as [|n IH]; intros len code first index b Hw Hn; cbn [decode_from]; [done|].
  eapply safe_bind; [by apply next_safe|]. intros [x b'] (_ & Hw' & Hp & Hlt). cbn in Hw', Hp.
  eapply (safe_bind (fun _ => True)).
  - apply safe_must. unfold table_ok in Ht. destruct (lookup_lt_is_Some_2 (counts t) len) as [c Hc]; [lia|]. by exists c.
  - intros count _. case_decide.
    + apply (safe_bind (fun _ => True)); [by apply safe_ask|]. intros symbol _. cbn. split; [done|lia].
    + eapply safe_mono; [apply IH; [done|lia]|]. intros [y b2] (Hw2 & Hp2 & _). cbn in *. split_and!; [done|lia..].
Qed.

Lemma decode_safe t b : table_ok t -> wf b -> safe (fun r => wf r.2 /\ pos b < pos r.2 /\ pos b < 8 * length data) (decode data t b).
Proof. intros Ht Hw. by apply decode_from_safe. Qed.

End Reading.

Section Tables.

(** How many of [l] are [k] (and count), how many are below [k]. *)
Definition occurs (l : list nat) (k : nat) : nat := length (filter (fun x => 0 < x /\ x = k) l).
Definition below (l : list nat) (k : nat) : nat := length (filter (fun x => 0 < x /\ x < k) l).

Lemma below_succ l k : below l (S k) = below l k + occurs l k.
Proof.
  unfold below, occurs. induction l as [|x l IH]; [done|]. rewrite !filter_cons. repeat case_decide; cbn [length]; lia.
Qed.

Lemma below_total l k : below l k <= length (filter (fun x => 0 < x) l).
Proof. unfold below. induction l as [|x l IH]; [done|]. rewrite !filter_cons. repeat case_decide; cbn [length]; lia. Qed.

Lemma occurs_snoc l x k : occurs (l ++ [x]) k = occurs l k + (if decide (0 < x /\ x = k) then 1 else 0).
Proof. unfold occurs. rewrite filter_app, length_app, filter_cons. by case_decide. Qed.

(** An array of the sixteen lengths whose entry at each [k > 0] is [f k]. *)
Definition array (f : nat -> nat) (l : list nat) : Prop := length l = 16 /\ forall k, 0 < k < 16 -> l !! k = Some (f k).

Lemma incr_array f l i : array f l -> 0 < i < 16 -> exists l', incr l i = Some l' /\ array (fun k => f k + if decide (i = k) then 1 else 0) l'.
Proof.
  intros [Hlen Hl] Hi. unfold incr. rewrite (Hl i Hi). cbn. eexists. split; [done|]. split; [by rewrite length_insert|].
  intros k Hk. case_decide as E; [subst k; rewrite list_lookup_insert_eq by lia; f_equal; lia|].
  rewrite list_lookup_insert_ne by done. rewrite (Hl k Hk). f_equal. lia.
Qed.

Lemma count_array l : Forall (fun x => x <= 15) l -> exists c, count_lengths l = Some c /\ array (occurs l) c /\ c !! 0 = Some 0.
Proof.
  unfold count_lengths. induction l as [|x l IH] using rev_ind.
  - intros _. exists (replicate 16 0). split; [done|]. split; [split; [done|]|done]. intros k Hk. rewrite lookup_replicate_2 by lia. done.
  - intros [Hl Hx]%Forall_app. rewrite Forall_singleton in Hx. destruct (IH Hl) as (c & Hc & Ha & H0). rewrite foldl_app, Hc. cbn.
    case_decide as Hp.
    + destruct (incr_array (occurs l) c x Ha ltac:(lia)) as (c' & Hc' & Ha'). exists c'. split; [done|]. split.
      * destruct Ha' as [Hlen Hk]. split; [done|]. intros k Hk'. rewrite (Hk k Hk'), occurs_snoc. repeat case_decide; f_equal; lia.
      * unfold incr in Hc'. rewrite (proj2 Ha x ltac:(lia)) in Hc'. cbn in Hc'. injection Hc' as <-. by rewrite list_lookup_insert_ne by lia.
    + exists c. split; [done|]. split; [|done]. destruct Ha as [Hlen Hk]. split; [done|]. intros k Hk'. rewrite (Hk k Hk'), occurs_snoc.
      rewrite decide_False by lia. f_equal. lia.
Qed.

Lemma prefix_sums_lookup (f : nat -> nat) c acc n : (forall k, k < length c -> c !! k = Some (f (n + k))) ->
  forall k, k < length c -> prefix_sums acc c !! k = Some (acc + sum_list_with f (seq n k)).
Proof.
  revert acc n. induction c as [|x c IH]; intros acc n Hc k Hk; cbn in Hk; [lia|]. pose proof (Hc 0 ltac:(cbn; lia)) as H0.
  cbn in H0. rewrite Nat.add_0_r in H0. injection H0 as ->. cbn [prefix_sums]. destruct k as [|k]; [cbn; f_equal; lia|]. cbn [lookup list_lookup].
  rewrite (IH (acc + f n) (S n)) by (lia || (intros j Hj; pose proof (Hc (S j) ltac:(cbn; lia)) as Hj'; cbn in Hj'; by rewrite <- Nat.add_succ_comm in Hj')).
  cbn. f_equal. lia.
Qed.

Lemma below_sums l k : sum_list_with (occurs l) (seq 0 k) = below l k.
Proof.
  induction k as [|k IH].
  - cbn. unfold below. induction l as [|x l IHl]; [done|]. rewrite filter_cons, decide_False by lia. exact IHl.
  - rewrite seq_S, sum_list_with_app, IH, below_succ. cbn. lia.
Qed.

Lemma imap_snd {A B} (f : nat -> A -> B * A) (l : list A) : (forall i x, (f i x).2 = x) -> (imap f l).*2 = l.
Proof. revert f. induction l as [|x l IH]; intros f Hf; [done|]. rewrite imap_cons, fmap_cons, Hf. f_equal. apply IH. intros i y. apply Hf. Qed.

Lemma place_total all done sl offsets syms : Forall (fun x => x <= 15) all -> done ++ sl.*2 = all ->
  array (fun k => below all k + occurs done k) offsets -> length syms = length (filter (fun x => 0 < x) all) ->
  exists r, foldl place (Some (offsets, syms)) sl = Some r.
Proof.
  intros Hall. revert done offsets syms. induction sl as [|[i len] sl IH]; intros done offsets syms Hd Ha Hs; cbn [foldl fmap list_fmap] in *; [by eexists|].
  cbn [snd] in Hd. assert (Hnext : (done ++ [len]) ++ sl.*2 = all) by (by rewrite <- app_assoc). cbn [place mbind option_bind].
  assert (Hlen : len <= 15). { rewrite Forall_forall in Hall. apply Hall. rewrite <- Hd. set_solver. }
  case_decide as Hp.
  - pose proof (proj2 Ha len ltac:(lia)) as Hat. rewrite Hat. cbn [mbind option_bind]. unfold store. rewrite decide_True.
    + cbn [mbind option_bind]. destruct (incr_array _ _ len Ha ltac:(lia)) as (o' & -> & Ha'). cbn [mbind option_bind].
      apply (IH (done ++ [len])); [done| |by rewrite length_insert]. destruct Ha' as [Hl' Hk']. split; [done|].
      intros k Hk. rewrite (Hk' k Hk), occurs_snoc. repeat case_decide; f_equal; lia.
    + rewrite Hs. pose proof (below_total all (S len)) as Ht. rewrite below_succ in Ht.
      assert (occurs done len < occurs all len); [|lia]. rewrite <- Hd. unfold occurs. rewrite filter_app, length_app, filter_cons, decide_True by lia.
      cbn [length]. lia.
  - apply (IH (done ++ [len])); [done| |done]. destruct Ha as [Hl' Hk']. split; [done|].
    intros k Hk. rewrite (Hk' k Hk), occurs_snoc, decide_False by lia. f_equal. lia.
Qed.

Lemma Table_new_total lengths : Forall (fun x => x <= 15) lengths -> exists t, Table_new lengths = Some t /\ table_ok t.
Proof.
  intros Hall. unfold Table_new. destruct (count_array lengths Hall) as (c & -> & [Hlen Hc] & H0). cbn [mbind option_bind].
  assert (Hall_c : forall k, k < length c -> c !! k = Some (occurs lengths (0 + k))).
  { intros k Hk. destruct k as [|k]; [|apply Hc; lia]. rewrite H0. f_equal. unfold occurs.
    clear. induction lengths as [|x l IH]; [done|]. by rewrite filter_cons, decide_False by lia. }
  destruct (place_total lengths [] (imap pair lengths) (prefix_sums 0 c) (replicate (length (filter (fun x => 0 < x) lengths)) 0)) as [[o syms] Hr].
  - done.
  - cbn [app]. by apply imap_snd.
  - split; [|intros k Hk; rewrite (prefix_sums_lookup (occurs lengths) c 0 0 Hall_c k) by lia; rewrite below_sums; unfold occurs; cbn; f_equal; lia].
    transitivity (length c); [|done]. generalize 0. clear. induction c as [|x c IH]; intros acc; [done|]. cbn. by rewrite IH.
  - by rewrite length_replicate.
  - rewrite Hr. cbn. eexists. split; [done|]. exact Hlen.
Qed.

Lemma fixed_tables : exists lit dist, fixed_lit = Some lit /\ fixed_dist = Some dist /\ table_ok lit /\ table_ok dist.
Proof.
  destruct (Table_new_total (replicate 144 8 ++ replicate 112 9 ++ replicate 24 7 ++ replicate 8 8)) as (lit & Hl & Hlok).
  { rewrite !Forall_app. split_and!; apply Forall_replicate; lia. }
  destruct (Table_new_total (replicate 30 5)) as (dist & Hd & Hdok); [apply Forall_replicate; lia|].
  exists lit, dist. unfold fixed_lit, fixed_dist. split; [exact Hl|]. split; [exact Hd|]. by split.
Qed.

End Tables.

Section Totality.
Context (data : bytes).
#[local] Arguments pos : simpl never.
#[local] Arguments Nat.mul : simpl never.

Lemma store_some {A} (l : list A) i x : i < length l -> store l i x = Some (<[i := x]> l).
Proof. intros Hi. unfold store. by rewrite decide_True. Qed.

Lemma small_insert l i x : Forall (fun y => y <= 15) l -> x <= 15 -> Forall (fun y => y <= 15) (<[i := x]> l).
Proof. intros Hl Hx. by apply Forall_insert. Qed.

Lemma read_cl_safe slots cl b : wf data b -> Forall (fun s => s < length cl) slots -> Forall (fun y => y <= 15) cl ->
  safe (fun r => Forall (fun y => y <= 15) r.1 /\ wf data r.2 /\ pos b <= pos r.2) (read_cl data slots cl b).
Proof.
  revert cl b. induction slots as [|slot slots IH]; intros cl b Hw Hs Hcl; cbn [read_cl]; [cbn; split_and!; [done|done|lia]|].
  apply Forall_cons in Hs as [Hslot Hs]. eapply safe_bind; [by apply (take_safe data 3)|]. intros [x b'] (Hx & Hw' & Hp). cbn in Hx, Hw', Hp.
  rewrite store_some by done. cbn [must mbind run_bind]. eapply safe_mono.
  - apply IH; [done|by rewrite length_insert|]. apply small_insert; [done|]. change (Z.pow_pos 2 3) with 8%Z in Hx. lia.
  - intros [cl' b2] (Hc & Hw2 & Hp2). cbn in *. split_and!; [done|done|lia].
Qed.

Lemma fill_some repeat lengths filled prev : filled + repeat <= length lengths -> Forall (fun y => y <= 15) lengths -> prev <= 15 ->
  exists l, fill repeat lengths filled prev = Some l /\ length l = length lengths /\ Forall (fun y => y <= 15) l.
Proof.
  revert lengths filled. induction repeat as [|n IH]; intros lengths filled Hn Hl Hp; cbn [fill]; [by eexists|].
  rewrite store_some by lia. cbn [mbind option_bind]. destruct (IH (<[filled := prev]> lengths) (S filled)) as (l & -> & Hlen & Hf).
  - rewrite length_insert. lia.
  - by apply small_insert.
  - done.
  - exists l. split; [done|]. by rewrite length_insert in Hlen.
Qed.

Lemma fill_lengths_safe fuel cl total lengths filled b : table_ok cl -> wf data b -> length lengths = total -> Forall (fun y => y <= 15) lengths ->
  8 * length data < fuel + pos b ->
  safe (fun r => length r.1 = total /\ Forall (fun y => y <= 15) r.1 /\ wf data r.2 /\ pos b <= pos r.2) (fill_lengths data fuel cl total lengths filled b).
Proof.
  intros Hcl. revert lengths filled b. induction fuel as [|fuel IH]; intros lengths filled b Hw Hlen Hl Hf; cbn [fill_lengths]; case_decide as Hfull;
    [cbn; split_and!; [done|done|done|lia]| |cbn; split_and!; [done|done|done|lia]|].
  { destruct Hw. lia. }
  eapply safe_bind; [by apply decode_safe|]. intros [symbol b1] (Hw1 & Hp1 & Hlt). cbn in Hw1, Hp1.
  repeat case_decide; cbn; try done.
  - rewrite store_some by lia. cbn. eapply safe_mono; [apply IH; [done|by rewrite length_insert|by apply small_insert|lia]|].
    intros [l b2] (? & ? & ? & ?). cbn in *. split_and!; [done|done|done|lia].
  - destruct (lookup_lt_is_Some_2 lengths (filled - 1)) as [prev Hprev]; [lia|]. rewrite Hprev. cbn.
    eapply safe_bind; [by apply (take_safe data 2)|]. intros [x b2] (_ & Hw2 & Hp2). cbn in Hw2, Hp2. case_decide; [done|].
    destruct (fill_some (3 + Z.to_nat x) lengths filled prev) as (l & Hfl & Hll & Hls);
      [lia|done|by eapply (Forall_lookup_1 (fun y => y <= 15))|]. cbn [fill Nat.add] in Hfl |- *. rewrite Hfl. cbn.
    eapply safe_mono; [apply IH; [done|lia|done|lia]|]. intros [l2 b3] (? & ? & ? & ?). cbn in *. split_and!; [done|done|done|lia].
  - eapply safe_bind; [by apply (take_safe data 3)|]. intros [x b2] (_ & Hw2 & Hp2). cbn in Hw2, Hp2. case_decide; [done|].
    eapply safe_mono; [apply IH; [done|lia|done|lia]|]. intros [l2 b3] (? & ? & ? & ?). cbn in *. split_and!; [done|done|done|lia].
  - eapply safe_bind; [by apply (take_safe data 7)|]. intros [x b2] (_ & Hw2 & Hp2). cbn in Hw2, Hp2. case_decide; [done|].
    eapply safe_mono; [apply IH; [done|lia|done|lia]|]. intros [l2 b3] (? & ? & ? & ?). cbn in *. split_and!; [done|done|done|lia].
Qed.

Lemma dynamic_safe b : wf data b -> safe (fun r => table_ok r.1.1 /\ table_ok r.1.2 /\ wf data r.2 /\ pos b <= pos r.2) (dynamic data b).
Proof.
  intros Hw. unfold dynamic. eapply safe_bind; [by apply (take_safe data 5)|]. intros [x1 b1] (_ & Hw1 & Hp1). cbn in Hw1, Hp1.
  eapply safe_bind; [by apply (take_safe data 5)|]. intros [x2 b2] (_ & Hw2 & Hp2). cbn in Hw2, Hp2.
  eapply safe_bind; [by apply (take_safe data 4)|]. intros [x3 b3] (_ & Hw3 & Hp3). cbn in Hw3, Hp3.
  case_decide; [done|]. eapply safe_bind.
  { apply read_cl_safe; [done| |by apply Forall_replicate; lia]. apply Forall_take. rewrite length_replicate. repeat constructor; lia. }
  intros [cl b4] (Hcl & Hw4 & Hp4). cbn in Hcl, Hw4, Hp4. destruct (Table_new_total cl Hcl) as (t & -> & Ht). cbn [must mbind run_bind].
  eapply safe_bind.
  { apply fill_lengths_safe; [done|done|apply length_replicate|by apply Forall_replicate; lia|unfold bit_fuel; lia]. }
  intros [lengths b5] (_ & Hl & Hw5 & Hp5). cbn in Hl, Hw5, Hp5.
  destruct (Table_new_total (list.take (Z.to_nat x1 + 257) lengths)) as (lit & -> & Hlit); [by apply Forall_take|].
  destruct (Table_new_total (drop (Z.to_nat x1 + 257) lengths)) as (dist & -> & Hdist); [by apply Forall_drop|].
  cbn. split_and!; [done|done|done|lia].
Qed.

Lemma copy_back_some n distance out : 1 <= distance <= length out -> exists out', copy_back n distance out = Some out'.
Proof.
  revert out. induction n as [|n IH]; intros out Hd; cbn [copy_back]; [by eexists|]. rewrite decide_True by done.
  destruct (lookup_lt_is_Some_2 out (length out - distance)) as [y ->]; [lia|]. cbn. apply IH. rewrite length_app. cbn. lia.
Qed.

Lemma lookup_all {A} (P : A -> Prop) (l : list A) i : i < length l -> Forall P l -> exists x, l !! i = Some x /\ P x.
Proof. intros Hi Hl. destruct (lookup_lt_is_Some_2 l i Hi) as [x Hx]. exists x. split; [done|]. by eapply (Forall_lookup_1 P). Qed.

Lemma copy_match_safe dist symbol out b : table_ok dist -> wf data b -> 257 <= symbol <= 285 ->
  safe (fun r => wf data r.2 /\ pos b <= pos r.2) (copy_match data dist symbol out b).
Proof.
  intros Ht Hw Hs. unfold copy_match.
  destruct (lookup_all (fun _ => True) LEN_BASE (symbol - 257)) as (base & -> & _); [cbn; lia|by apply Forall_true|].
  destruct (lookup_all (fun _ => True) LEN_EXTRA (symbol - 257)) as (extra & -> & _); [cbn; lia|by apply Forall_true|]. cbn [must mbind run_bind].
  eapply safe_bind; [by apply take_safe|]. intros [x b1] (_ & Hw1 & Hp1). cbn in Hw1, Hp1.
  eapply safe_bind; [by apply decode_safe|]. intros [ds b2] (Hw2 & Hp2 & _). cbn in Hw2, Hp2. case_decide; [done|].
  destruct (lookup_all (fun d => 1 <= d)%Z DIST_BASE ds) as (dbase & -> & Hdb); [cbn; lia|repeat constructor; lia|].
  destruct (lookup_all (fun _ => True) DIST_EXTRA ds) as (dextra & -> & _); [cbn; lia|by apply Forall_true|]. cbn [must mbind run_bind].
  eapply safe_bind; [by apply take_safe|]. intros [y b3] (Hy & Hw3 & Hp3). cbn in Hy, Hw3, Hp3. case_decide; [done|].
  destruct (copy_back_some (Z.to_nat (base + x)) (Z.to_nat (dbase + y)) out) as [out' ->]; [lia|]. cbn. split; [done|lia].
Qed.

Lemma symbol_loop_safe fuel limit lit dist out b : table_ok lit -> table_ok dist -> wf data b -> 8 * length data < fuel + pos b ->
  safe (fun r => wf data r.2 /\ pos b <= pos r.2) (symbol_loop data fuel limit lit dist out b).
Proof.
  intros Hlit Hdist. revert out b. induction fuel as [|fuel IH]; intros out b Hw Hf; cbn [symbol_loop]; [destruct Hw; cbn; lia|].
  eapply safe_bind; [by apply decode_safe|]. intros [symbol b1] (Hw1 & Hp1 & _). cbn in Hw1, Hp1. case_decide; [cbn; split; [done|lia]|].
  eapply (safe_bind (fun r => wf data r.2 /\ pos b1 <= pos r.2)).
  - repeat case_decide; [cbn; split; [done|lia]|apply copy_match_safe; [done|done|lia]|done].
  - intros [out' b2] [Hw2 Hp2]. cbn in Hw2, Hp2. case_decide; [done|]. eapply safe_mono; [apply IH; [done|lia]|].
    intros [o b3] [Hw3 Hp3]. cbn in *. split; [done|lia].
Qed.

Lemma align_wf b : wf data b -> wf data (align b) /\ bit (align b) = 0 /\ pos b <= pos (align b).
Proof. unfold wf, align, pos. intros [Hb Hp]. case_decide; cbn [byte bit]; lia. Qed.

Lemma stored_safe out b : wf data b -> safe (fun r => wf data r.2 /\ pos b <= pos r.2) (stored data out b).
Proof.
  intros Hw. unfold stored. destruct (align_wf b Hw) as (Hwa & H0 & Hp). apply (safe_bind (fun _ => True)); [by apply safe_ask|].
  intros header _. case_decide; [done|]. apply (safe_bind (fun _ => byte (align b) + 4 + Z.to_nat (le_value (list.take 2 header)) <= length data)).
  - apply safe_ask. intros blk Hblk. unfold Delta.slice in Hblk. case_decide; [lia|done].
  - intros blk Hle. cbn. unfold wf, pos in *. cbn [byte bit]. rewrite H0 in *. lia.
Qed.

Lemma block_safe limit out b : wf data b -> safe (fun r => wf data r.2 /\ pos b <= pos r.2) (block data limit out b).
Proof.
  intros Hw. unfold block. eapply safe_bind; [by apply (take_safe data 2)|]. intros [kind b1] (_ & Hw1 & Hp1). cbn in Hw1, Hp1.
  assert (Hmono : forall r, safe (fun r : bytes * Bits => wf data r.2 /\ pos b1 <= pos r.2) r -> safe (fun r : bytes * Bits => wf data r.2 /\ pos b <= pos r.2) r).
  { intros r Hr. eapply safe_mono; [exact Hr|]. intros [o b2] [? ?]. cbn in *. split; [done|lia]. }
  repeat case_decide; [apply Hmono, stored_safe, Hw1| | |done].
  - destruct fixed_tables as (lit & dist & -> & -> & Hlit & Hdist). cbn [must mbind run_bind]. apply Hmono, symbol_loop_safe; [done..|unfold bit_fuel; lia].
  - eapply safe_bind; [by apply dynamic_safe|]. intros [[lit dist] b2] (Hlit & Hdist & Hw2 & Hp2). cbn in Hlit, Hdist, Hw2, Hp2.
    eapply safe_mono; [apply symbol_loop_safe; [done..|unfold bit_fuel; lia]|]. intros [o b3] [? ?]. cbn in *. split; [done|lia].
Qed.

Lemma block_loop_safe fuel limit out b : wf data b -> 8 * length data < fuel + pos b -> safe (fun out => length out <= limit) (block_loop data fuel limit out b).
Proof.
  revert out b. induction fuel as [|fuel IH]; intros out b Hw Hf; cbn [block_loop]; [destruct Hw; cbn; lia|].
  eapply safe_bind; [by apply next_safe|]. intros [last b1] (_ & Hw1 & Hp1 & _). cbn in Hw1, Hp1.
  eapply safe_bind; [by apply block_safe|]. intros [out' b2] [Hw2 Hp2]. cbn in Hw2, Hp2. case_decide; [done|]. case_decide; [cbn; lia|].
  apply IH; [done|lia].
Qed.

End Totality.

Lemma inflate_safe data limit : safe (fun out => length out <= limit) (inflate data limit).
Proof. apply block_loop_safe; [|unfold bit_fuel, pos; cbn; lia]. unfold wf, pos. cbn. lia. Qed.

Lemma inflate_never_stuck data limit : inflate data limit = Stuck -> False.
Proof. intros E. pose proof (inflate_safe data limit) as Hs. by rewrite E in Hs. Qed.

(** The inflate loop is total: on any bytes and any limit it ends within
    one step per input bit, never indexes out of range, and what it answers is no
    longer than the limit. *)
Theorem inflate_total (data : bytes) (limit : nat) :
  inflate data limit = Rejected \/ exists out, inflate data limit = Got out /\ length out <= limit.
Proof.
  pose proof (inflate_safe data limit) as Hs.
  destruct (inflate data limit) as [out| |]; [right; by exists out|by left|done].
Qed.

End Inflate.
