(* ===== verification/UploadZip.v ===== *)
(** * ZIP containers

    The document-container check of [lerdr-coord/src/actions/uploads.rs]: the
    central directory of a ZIP file with its ZIP64 records, the data of one
    member, [filepath.Clean] on member names, and [valid_document_container].
    The staged file is its bytes; [Inflate.run] is the result of a read
    ([Rejected] is the source's [None]). *)

From S2P Require Import Prelude Delta UploadSpec Inflate.

Module UploadZip.
Import Inflate.

Definition MAX_CONTAINER_ENTRIES : nat := Z.to_nat 4096.
Definition MAX_EXPANDED_BYTES : Z := 200 * 1024 * 1024.

Definition u16_max : Z := 2 ^ 16 - 1.
Definition u32_max : Z := 2 ^ 32 - 1.

Record ZipEntry := mkEntry { z_name : bytes; z_method : Z; z_compressed : Z; z_uncompressed : Z; z_local_offset : Z; z_symlink : bool }.

(** ** Reading *)

(** [seek] to [off] and [read_exact] of [n] bytes. *)
Definition read_at (file : bytes) (off n : Z) : option bytes :=
  if decide (off + n <= Z.of_nat (length file)) then Some (list.take (Z.to_nat n) (drop (Z.to_nat off) file)) else None.

Definition uint_le (n : nat) (buf : bytes) (at_ : nat) : option Z := le_value <$> Delta.slice buf at_ (at_ + n).
Definition u16le : bytes -> nat -> option Z := uint_le 2.
Definition u32le : bytes -> nat -> option Z := uint_le 4.
Definition u64le : bytes -> nat -> option Z := uint_le 8.

Definition EOCD_SIG : Z := 0x06054b50.
Definition EOCD64_SIG : Z := 0x06064b50.
Definition EOCD64_LOCATOR_SIG : Z := 0x07064b50.
Definition CD_SIG : Z := 0x02014b50.
Definition LOCAL_SIG : Z := 0x04034b50.

(** The end record, searched from [index] down; its comment must end the file. *)
Fixpoint find_eocd (tail : bytes) (index : nat) : option nat :=
  sig ← u32le tail index;
  let skip := match index with O => None | S index => find_eocd tail index end in
  if decide (sig <> EOCD_SIG) then skip
  else
    comment ← u16le tail (index + 20);
    if decide (index + 22 + Z.to_nat comment = length tail)%nat then Some index else skip.

(** Number, size and offset of the directory, from the ZIP64 record when one
    of the fields is saturated. *)
Definition directory_place (file tail : bytes) (eocd : nat) : option (Z * Z * Z) :=
  count ← u16le tail (eocd + 10);
  cd_size ← u32le tail (eocd + 12);
  cd_offset ← u32le tail (eocd + 16);
  if decide (count = u16_max \/ cd_size = u32_max \/ cd_offset = u32_max) then
    if decide (eocd < 20)%nat then None
    else
      sig ← u32le tail (eocd - 20);
      if decide (sig <> EOCD64_LOCATOR_SIG) then None
      else
        eocd64_offset ← u64le tail (eocd - 12);
        record ← read_at file eocd64_offset 56;
        sig ← u32le record 0;
        if decide (sig <> EOCD64_SIG) then None
        else
          count ← u64le record 32;
          cd_size ← u64le record 40;
          cd_offset ← u64le record 48;
          Some (count, cd_size, cd_offset)
  else Some (count, cd_size, cd_offset).

(** The saturated sizes resolved from the ZIP64 extra field. *)
Definition zip64_body (body : bytes) (uncompressed compressed local_offset : Z) : option (Z * Z * Z) :=
  '(u, field) ← (if decide (uncompressed = u32_max) then v ← u64le body 0; Some (v, 8%nat) else Some (uncompressed, 0%nat));
  '(c, field) ← (if decide (compressed = u32_max) then v ← u64le body field; Some (v, field + 8)%nat else Some (compressed, field));
  o ← (if decide (local_offset = u32_max) then u64le body field else Some local_offset);
  Some (u, c, o).

Fixpoint zip64_extra (fuel : nat) (extra : bytes) (cursor : nat) (uncompressed compressed local_offset : Z) : run (Z * Z * Z) :=
  if decide (length extra < cursor + 4)%nat then Rejected
  else match fuel with
  | O => Stuck
  | S fuel =>
      tag ← ask (u16le extra cursor);
      size ← ask (u16le extra (cursor + 2));
      body ← ask (Delta.slice extra (cursor + 4) (cursor + 4 + Z.to_nat size));
      if decide (tag = 1) then ask (zip64_body body uncompressed compressed local_offset)
      else zip64_extra fuel extra (cursor + (4 + Z.to_nat size)) uncompressed compressed local_offset
  end.

(** One central record and the offset of the next. *)
Definition read_record (directory : bytes) (at_ : nat) : run (ZipEntry * nat) :=
  sig ← ask (u32le directory at_);
  if decide (sig <> CD_SIG) then Rejected
  else
    version_made ← ask (u16le directory (at_ + 4));
    method ← ask (u16le directory (at_ + 10));
    compressed ← ask (u32le directory (at_ + 20));
    uncompressed ← ask (u32le directory (at_ + 24));
    name_len ← ask (u16le directory (at_ + 28));
    extra_len ← ask (u16le directory (at_ + 30));
    comment_len ← ask (u16le directory (at_ + 32));
    external ← ask (u32le directory (at_ + 38));
    local_offset ← ask (u32le directory (at_ + 42));
    let name_end := (at_ + 46 + Z.to_nat name_len)%nat in
    name ← ask (Delta.slice directory (at_ + 46) name_end);
    extra ← ask (Delta.slice directory name_end (name_end + Z.to_nat extra_len));
    '(uncompressed, compressed, local_offset) ←
      (if decide (uncompressed = u32_max \/ compressed = u32_max \/ local_offset = u32_max)
       then zip64_extra (length extra) extra 0 uncompressed compressed local_offset
       else Got (uncompressed, compressed, local_offset));
    let creator := Z.shiftr version_made 8 in
    let symlink := bool_decide (creator = 3 \/ creator = 19) && bool_decide (Z.land (Z.shiftr external 16) 0xF000 = 0xA000) in
    Got (mkEntry name method compressed uncompressed local_offset symlink,
         (at_ + (46 + Z.to_nat name_len + Z.to_nat extra_len + Z.to_nat comment_len))%nat).

Fixpoint read_records (fuel : nat) (directory : bytes) (count : Z) (at_ : nat) (entries : list ZipEntry) : run (list ZipEntry) :=
  if decide (count <= 0) then Got entries
  else match fuel with
  | O => Stuck
  | S fuel =>
      '(entry, at_) ← read_record directory at_;
      read_records fuel directory (count - 1) at_ (entries ++ [entry])
  end.

Definition read_central_directory (file : bytes) (size : Z) : run (list ZipEntry) :=
  if decide (size < 22) then Rejected
  else
    let tail_len := Z.min size (22 + u16_max) in
    tail ← ask (read_at file (size - tail_len) tail_len);
    eocd ← ask (find_eocd tail (length tail - 22));
    '(count, cd_size, cd_offset) ← ask (directory_place file tail eocd);
    if decide (u64_max < cd_offset + cd_size \/ size < cd_offset + cd_size) then Rejected
    else
      directory ← ask (read_at file cd_offset cd_size);
      read_records (S (length directory)) directory count 0 [].

Definition read_entry_data (file : bytes) (entry : ZipEntry) (limit : nat) : run bytes :=
  header ← ask (read_at file (z_local_offset entry) 30);
  if decide (le_value (list.take 4 header) <> LOCAL_SIG) then Rejected
  else
    let name_len := le_value (list.take 2 (drop 26 header)) in
    let extra_len := le_value (list.take 2 (drop 28 header)) in
    let data_start := z_local_offset entry + (30 + name_len + extra_len) in
    if decide (u64_max < data_start \/ u64_max < data_start + z_compressed entry) then Rejected
    else if decide (Z.of_nat (length file) < data_start + z_compressed entry) then Rejected
    else
      compressed ← ask (read_at file data_start (z_compressed entry));
      if decide (z_method entry = 0) then Got compressed
      else if decide (z_method entry = 8) then inflate compressed limit
      else Rejected.

(** ** Member names *)

(** [split(|byte| *byte == b'/')]. *)
Fixpoint split_slash (path : bytes) : list bytes :=
  match path with
  | [] => [[]]
  | c :: path =>
      match split_slash path with
      | seg :: segs => if decide (c = 47) then [] :: seg :: segs else (c :: seg) :: segs
      | [] => [[c]]
      end
  end.

Fixpoint join_slash (segs : list bytes) : bytes :=
  match segs with [] => [] | [s] => s | s :: segs => s ++ 47 :: join_slash segs end.

(** The stack, top first. *)
Definition clean_step (rooted : bool) (stack : list bytes) (segment : bytes) : list bytes :=
  if decide (segment = [] \/ segment = [46]) then stack
  else if decide (segment = [46; 46]) then
    match stack with
    | last :: rest => if decide (last <> [46; 46]) then rest else if rooted then stack else [46; 46] :: stack
    | [] => if rooted then stack else [[46; 46]]
    end
  else segment :: stack.

Definition clean_path (path : bytes) : bytes :=
  if decide (path = []) then [46]
  else
    let rooted := bool_decide (head path = Some 47) in
    let stack := reverse (foldl (clean_step rooted) [] (split_slash path)) in
    let out := (if rooted then [47] else []) ++ join_slash stack in
    if decide (out = []) then [46] else out.

(** ** The container check *)

Definition name_ok (name : bytes) : bool :=
  let clean := clean_path name in
  bool_decide (0 ∉ name) && bool_decide (clean = name) && negb (bool_decide (head clean = Some 47))
  && negb (bool_decide (list.take 3 clean = [46; 46; 47])) && negb (bool_decide (clean = [46; 46])).

Definition entry_ok (e : ZipEntry) : bool := name_ok (z_name e) && negb (z_symlink e) && bool_decide (z_uncompressed e <= MAX_EXPANDED_BYTES).

(** [present]: the last entry of a name. *)
Definition find_entry (entries : list ZipEntry) (name : bytes) : option ZipEntry := snd <$> list_find (fun e => z_name e = name) (reverse entries).

(** The running sum of the expanded sizes stays under the cap. *)
Fixpoint expansion_ok (expanded : Z) (entries : list ZipEntry) : bool :=
  match entries with
  | [] => true
  | e :: entries => bool_decide (expanded + z_uncompressed e <= MAX_EXPANDED_BYTES) && expansion_ok (expanded + z_uncompressed e) entries
  end.

Definition mismatch : UploadSpec.UploadError := UploadSpec.upload_error "upload_content_type_mismatch".

(** The stored [mimetype] member must be the media type. *)
Definition mime_ok (file : bytes) (entries : list ZipEntry) (mime : option string) : run bool :=
  match mime with
  | None => Got true
  | Some mime =>
      entry ← ask (find_entry entries (as_bytes "mimetype"));
      if decide (z_method entry <> 0 \/ 128 < z_uncompressed entry) then Rejected
      else content ← read_entry_data file entry 129; Got (bool_decide (content = as_bytes mime))
  end.

(** [None] is a panic. *)
Definition valid_document_container (file : option bytes) (size : Z) (required : list string) (mime : option string)
    : option (result UploadSpec.UploadError unit) :=
  match file with
  | None => Some (Err (UploadSpec.upload_error "upload_staging_failed"))
  | Some file =>
      match read_central_directory file size with
      | Stuck => None
      | Rejected => Some (Err mismatch)
      | Got entries =>
          if decide (entries = [] \/ (MAX_CONTAINER_ENTRIES < length entries)%nat) then Some (Err mismatch)
          else if negb (forallb entry_ok entries) then Some (Err mismatch)
          else if negb (forallb (fun name => bool_decide (is_Some (find_entry entries (as_bytes name)))) required) then Some (Err mismatch)
          else match mime_ok file entries mime with
          | Stuck => None
          | Got true => Some (if expansion_ok 0 entries then Ok tt else Err mismatch)
          | _ => Some (Err mismatch)
          end
      end
  end.

Example clean_examples :
  (clean_path (as_bytes "word/document.xml"), clean_path (as_bytes "a/./b/../c"), clean_path (as_bytes "../x"), clean_path (as_bytes "/../a"), clean_path (as_bytes "a/"))
  = (as_bytes "word/document.xml", as_bytes "a/c", as_bytes "../x", as_bytes "/a", as_bytes "a").
Proof. vm_compute. reflexivity. Qed.

(** ** Sizes are not negative *)

Lemma be_value_nonneg b : Forall is_u8 b -> 0 <= be_value b.
Proof.
  intros Hb. unfold be_value. enough (forall acc, 0 <= acc -> 0 <= fold_left (fun acc x => acc * 256 + x) b acc) as Hacc by by apply Hacc.
  induction Hb as [|x b Hx _ IH]; intros acc Hacc; cbn; [done|]. apply IH. unfold is_u8 in Hx. lia.
Qed.

Lemma slice_u8 b x y l : Forall is_u8 b -> Delta.slice b x y = Some l -> Forall is_u8 l.
Proof. unfold Delta.slice. case_decide; [|done]. intros Hb [= <-]. by apply Forall_take, Forall_drop. Qed.

Lemma read_at_u8 file off n l : Forall is_u8 file -> read_at file off n = Some l -> Forall is_u8 l.
Proof. unfold read_at. case_decide; [|done]. intros Hb [= <-]. by apply Forall_take, Forall_drop. Qed.

Lemma uint_le_nonneg n buf at_ v : Forall is_u8 buf -> uint_le n buf at_ = Some v -> 0 <= v.
Proof. unfold uint_le. intros Hb (l & Hl & ->)%fmap_Some. apply be_value_nonneg, Forall_reverse. by eapply slice_u8. Qed.

(** ** Reading never gets stuck *)

Lemma slice_inv {A} (l : list A) a b x : Delta.slice l a b = Some x -> (a <= b <= length l)%nat.
Proof. unfold Delta.slice. by case_decide. Qed.

Lemma uint_le_inv n buf at_ v : uint_le n buf at_ = Some v -> (at_ + n <= length buf)%nat.
Proof. unfold uint_le. intros (x & Hx%slice_inv & _)%fmap_Some. lia. Qed.

Lemma zip64_body_nonneg body u c o r : Forall is_u8 body -> 0 <= u -> zip64_body body u c o = Some r -> 0 <= r.1.1.
Proof.
  intros Hb Hu E. unfold zip64_body in E. apply bind_Some in E as ([u' f] & Eu & E). apply bind_Some in E as ([c' f'] & _ & E).
  apply bind_Some in E as (o' & _ & [= <-]). cbn. case_decide; [|by injection Eu as <- _]. apply bind_Some in Eu as (v & Ev & [= <- <-]). by eapply uint_le_nonneg.
Qed.

Lemma zip64_extra_safe fuel extra cursor u c o : (length extra - cursor <= fuel)%nat -> Forall is_u8 extra -> 0 <= u ->
  safe (fun r => 0 <= r.1.1) (zip64_extra fuel extra cursor u c o).
Proof.
  intros Hf Hu8 Hu. revert cursor Hf. induction fuel as [|fuel IH]; intros cursor Hf; cbn [zip64_extra]; case_decide; [done|lia|done|].
  apply (safe_bind (fun _ => True)); [by apply safe_ask|]. intros tag _. apply (safe_bind (fun _ => True)); [by apply safe_ask|]. intros size _.
  apply (safe_bind (Forall is_u8)); [apply safe_ask; intros l Hl; by eapply slice_u8|]. intros body Hb.
  case_decide; [apply safe_ask; intros r Hr; by eapply zip64_body_nonneg|]. apply IH. lia.
Qed.

(** A record read advances, starts inside the directory and has a size. *)
Lemma read_record_safe directory at_ : Forall is_u8 directory ->
  safe (fun r => (at_ < r.2)%nat /\ (at_ < length directory)%nat /\ 0 <= z_uncompressed r.1) (read_record directory at_).
Proof.
  intros Hd. unfold read_record. eapply (safe_bind (fun _ => (at_ < length directory)%nat)).
  { apply safe_ask. intros v Hv%uint_le_inv. lia. }
  intros sig Hat. case_decide; [done|].
  do 3 (apply (safe_bind (fun _ => True)); [by apply safe_ask|]; intros ? _).
  apply (safe_bind (fun v => 0 <= v)); [apply safe_ask; intros v Hv; by eapply uint_le_nonneg|]. intros u Hu.
  do 6 (apply (safe_bind (fun _ => True)); [by apply safe_ask|]; intros ? _).
  apply (safe_bind (Forall is_u8)); [apply safe_ask; intros l Hl; by eapply slice_u8|]. intros extra Hextra.
  apply (safe_bind (fun r => 0 <= r.1.1)); [|intros [[u' c] o] Hu'; cbn in *; lia]. case_decide; [|done]. apply zip64_extra_safe; [lia|done..].
Qed.

Lemma read_records_safe fuel directory count at_ entries : Forall is_u8 directory -> (length directory - at_ < fuel)%nat ->
  Forall (fun e => 0 <= z_uncompressed e) entries -> safe (Forall (fun e => 0 <= z_uncompressed e)) (read_records fuel directory count at_ entries).
Proof.
  intros Hd. revert count at_ entries. induction fuel as [|fuel IH]; intros count at_ entries Hf He; cbn [read_records]; case_decide; [done|lia|done|].
  eapply safe_bind; [by apply read_record_safe|]. intros [e at'] (Hlt & Hin & Hz). cbn in Hlt, Hin, Hz. apply IH; [lia|]. apply Forall_app. by repeat constructor.
Qed.

Lemma read_central_directory_safe file size : Forall is_u8 file -> safe (Forall (fun e => 0 <= z_uncompressed e)) (read_central_directory file size).
Proof.
  intros Hu8.
  unfold read_central_directory. case_decide; [done|]. do 2 (apply (safe_bind (fun _ => True)); [by apply safe_ask|]; intros ? _).
  apply (safe_bind (fun _ => True)); [by apply safe_ask|]. intros [[count cd_size] cd_offset] _. case_decide; [done|].
  apply (safe_bind (Forall is_u8)); [apply safe_ask; intros l Hl; by eapply read_at_u8|]. intros directory Hd. apply read_records_safe; [done|lia|done].
Qed.

Lemma read_entry_data_safe file entry limit : safe (fun _ => True) (read_entry_data file entry limit).
Proof.
  unfold read_entry_data. apply (safe_bind (fun _ => True)); [by apply safe_ask|]. intros header _. repeat (case_decide; [done|]).
  apply (safe_bind (fun _ => True)); [by apply safe_ask|]. intros data _. repeat case_decide; [done| |done].
  destruct (inflate data limit) eqn:E; [done..|]. apply (inflate_never_stuck _ _ E).
Qed.

Lemma mime_ok_safe file entries mime : safe (fun _ => True) (mime_ok file entries mime).
Proof.
  unfold mime_ok. destruct mime as [mime|]; [|done]. apply (safe_bind (fun _ => True)); [by apply safe_ask|]. intros entry _. case_decide; [done|].
  apply (safe_bind (fun _ => True)); [apply read_entry_data_safe|done].
Qed.

(** The container check always answers. *)
Lemma container_total file size required mime : Forall is_u8 file -> is_Some (valid_document_container (Some file) size required mime).
Proof.
  intros Hu8. unfold valid_document_container. pose proof (read_central_directory_safe file size Hu8).
  destruct (read_central_directory file size) as [entries| |]; [|done..]. repeat (case_decide || case_match); try done.
  pose proof (mime_ok_safe file entries mime) as Hm. by destruct (mime_ok file entries mime).
Qed.

(** ** Accepted names stay inside *)

Lemma split_slash_ne path : split_slash path <> [].
Proof. destruct path as [|c path]; [done|]. cbn. destruct (split_slash path); [done|]. by case_decide. Qed.

Lemma split_slash_free path : Forall (fun s => 47 ∉ s) (split_slash path).
Proof.
  induction path as [|c path IH]; cbn [split_slash]; [repeat constructor; set_solver|].
  destruct (split_slash path) as [|seg segs] eqn:E; [by apply split_slash_ne in E|]. apply Forall_cons in IH as [Hs Hss].
  case_decide; repeat constructor; set_solver.
Qed.

Lemma split_segment s rest : 47 ∉ s -> split_slash (s ++ 47 :: rest) = s :: split_slash rest.
Proof.
  induction s as [|c s IH]; intros Hs; cbn [app split_slash].
  - destruct (split_slash rest) eqn:E; [by apply split_slash_ne in E|]. by rewrite decide_True.
  - rewrite IH by set_solver. rewrite decide_False by set_solver. done.
Qed.

Lemma split_last s : 47 ∉ s -> split_slash s = [s].
Proof. induction s as [|c s IH]; intros Hs; [done|]. cbn [split_slash]. rewrite IH by set_solver. by rewrite decide_False by set_solver. Qed.

Lemma slash_split_join segs : segs <> [] -> Forall (fun s => 47 ∉ s) segs -> split_slash (join_slash segs) = segs.
Proof.
  induction segs as [|s segs IH]; [done|]. intros _ [Hs Hss]%Forall_cons. destruct segs as [|s2 segs]; [by apply split_last|].
  cbn [join_slash]. rewrite split_segment by done. f_equal. by apply IH.
Qed.

(** A segment that names something inside its directory. *)
Definition proper (s : bytes) : Prop := s <> [] /\ s <> [46] /\ s <> [46; 46].

Definition stack_ok (stack : list bytes) : Prop := Forall (fun s => 47 ∉ s) stack /\ exists inner k, stack = inner ++ replicate k [46; 46] /\ Forall proper inner.

Lemma clean_step_ok stack segment : stack_ok stack -> 47 ∉ segment -> stack_ok (clean_step false stack segment).
Proof.
  intros [Hf (inner & k & -> & Hp)] Hseg. unfold clean_step. case_decide as H0; [split; [done|]; by exists inner, k|].
  assert (Hdd : 47 ∉ [46; 46]) by set_solver. case_decide as H1.
  - subst segment. destruct inner as [|s inner]; cbn [app].
    + assert (Hk : stack_ok ([46; 46] :: replicate k [46; 46])) by (split; [by constructor|]; by exists [], (S k)).
      destruct k as [|k]; cbn [replicate] in *; [done|]. by rewrite decide_False by tauto.
    + apply Forall_cons in Hp as [Hs Hp]. rewrite decide_True by apply Hs. cbn [app] in Hf. apply Forall_cons in Hf as [_ Hf]. split; [done|]. by exists inner, k.
  - split; [by constructor|]. exists (segment :: inner), k. split; [done|]. constructor; [|done]. unfold proper. tauto.
Qed.

Lemma clean_stack_ok segs stack : stack_ok stack -> Forall (fun s => 47 ∉ s) segs -> stack_ok (foldl (clean_step false) stack segs).
Proof. revert stack. induction segs as [|s segs IH]; intros stack Hs Hf; [done|]. apply Forall_cons in Hf as [H1 H2]. cbn. apply IH; [by apply clean_step_ok|done]. Qed.

(** An accepted member name is [.] or a path of proper segments: extracted
    below any directory, it stays there. *)
Lemma name_ok_inside name : name_ok name = true -> 0 ∉ name /\ (name = [46] \/ Forall proper (split_slash name)).
Proof.
  unfold name_ok. rewrite !andb_true_iff, !negb_true_iff. intros ((((Hnul%bool_decide_eq_true & Hc%bool_decide_eq_true) & Hr) & Hdir) & Hdd).
  split; [done|]. rewrite Hc in *. apply bool_decide_eq_false in Hr, Hdir, Hdd. revert Hc. unfold clean_path. case_decide as Hne; [by intros <-; left|].
  rewrite bool_decide_eq_false_2 by done. cbn [app].
  destruct (clean_stack_ok (split_slash name) [] ltac:(split; [done|by exists [], 0%nat]) (split_slash_free name)) as [Hf (inner & k & Hst & Hp)].
  set (stack := foldl (clean_step false) [] (split_slash name)) in *. case_decide as Hout; [intros <-; by left|]. intros Hname. right.
  assert (Hsne : reverse stack <> []) by (intros E; by rewrite E in Hout).
  rewrite <- Hname, slash_split_join by (done || by apply Forall_reverse). rewrite Hst, reverse_app, reverse_replicate in *.
  destruct k as [|k]; [by apply Forall_reverse|]. exfalso. cbn [replicate app] in *.
  destruct (replicate k [46; 46] ++ reverse inner) as [|s2 segs] eqn:E; cbn [join_slash] in Hname; [by apply Hdd|].
  apply Hdir. rewrite <- Hname. done.
Qed.

(** ** What the container check accepts *)

Lemma expansion_bound expanded entries : Forall (fun e => 0 <= z_uncompressed e) entries -> expanded <= MAX_EXPANDED_BYTES -> expansion_ok expanded entries = true ->
  expanded + foldr Z.add 0 (z_uncompressed <$> entries) <= MAX_EXPANDED_BYTES.
Proof.
  revert expanded. induction entries as [|e entries IH]; intros expanded Hp He Hok; cbn in *; [lia|]. apply Forall_cons in Hp as [Hz Hp].
  apply andb_true_iff in Hok as [Hle%bool_decide_eq_true Hok]. specialize (IH _ Hp Hle Hok). lia.
Qed.

(** The document-container check always answers (no read out of range, no
    loop without end), and a file it accepts is a ZIP of 1 to 4096 members,
    none a symlink, every name a path that stays inside its directory, with the
    required members present, at most 200 MiB when expanded, and, for
    OpenDocument types, a stored [mimetype] member that is exactly that type. *)
Theorem container_check_sound (file : bytes) (size : Z) (required : list string) (mime : option string) :
  Forall is_u8 file ->
  is_Some (valid_document_container (Some file) size required mime) /\
  (valid_document_container (Some file) size required mime = Some (Ok tt) ->
   exists entries, read_central_directory file size = Got entries /\ (1 <= length entries <= MAX_CONTAINER_ENTRIES)%nat /\
     Forall (fun e => z_symlink e = false /\ 0 ∉ z_name e /\ (z_name e = [46] \/ Forall proper (split_slash (z_name e)))) entries /\
     Forall (fun name => exists e, e ∈ entries /\ z_name e = as_bytes name) required /\
     0 <= foldr Z.add 0 (z_uncompressed <$> entries) <= MAX_EXPANDED_BYTES /\
     forall m, mime = Some m -> exists e, e ∈ entries /\ z_name e = as_bytes "mimetype" /\ z_method e = 0 /\ read_entry_data file e 129 = Got (as_bytes m)).
Proof.
  intros Hu8. split; [by apply container_total|]. unfold valid_document_container. pose proof (read_central_directory_safe file size Hu8) as Hpos.
  destruct (read_central_directory file size) as [entries| |]; [|done..]. cbn in Hpos.
  assert (Hfind : forall n e, find_entry entries n = Some e -> e ∈ entries /\ z_name e = n).
  { intros n e. unfold find_entry. intros ([i e'] & (Hi & Hn & _)%list_find_Some & ->)%fmap_Some. split; [|done]. apply elem_of_reverse. by eapply list_elem_of_lookup_2. }
  case_decide as Hlen; [done|]. destruct (forallb entry_ok entries) eqn:Hok; cbn [negb]; [|done]. destruct (forallb _ required) eqn:Hreq; cbn [negb]; [|done].
  destruct (mime_ok file entries mime) as [[|]| |] eqn:Hm; [|done..]. destruct (expansion_ok 0 entries) eqn:Hx; [|done]. intros _. exists entries.
  split; [done|]. split; [destruct entries; [by destruct Hlen; left|]; cbn in *; lia|]. split.
  { apply Forall_forall. intros e He. rewrite forallb_forall in Hok. specialize (Hok e (proj1 (list_elem_of_In _ _) He)). unfold entry_ok in Hok.
    rewrite !andb_true_iff, negb_true_iff in Hok. destruct Hok as [[Hn Hsym] _]. split; [done|]. by apply name_ok_inside. }
  split. { apply Forall_forall. intros n Hn. rewrite forallb_forall in Hreq. specialize (Hreq n (proj1 (list_elem_of_In _ _) Hn)).
    apply bool_decide_eq_true in Hreq as [e He]. exists e. by apply Hfind. }
  split; [split; [|apply (expansion_bound 0); [done|vm_compute; discriminate|done]]; clear -Hpos; induction Hpos; cbn; lia|].
  intros m ->. unfold mime_ok in Hm. destruct (find_entry entries (as_bytes "mimetype")) as [e|] eqn:He; [|done]. cbn in Hm. case_decide as Hmeth; [done|].
  destruct (read_entry_data file e 129) as [content| |] eqn:Hread; [|done..]. cbn in Hm. injection Hm as Hc%bool_decide_eq_true. subst content.
  exists e. destruct (Hfind _ _ He). split_and!; [done|done|lia|done].
Qed.

(** An OpenDocument text of two stored members, as Python's [zipfile] writes it. *)
Definition demo_odt : bytes :=
  [80; 75; 3; 4; 20; 0; 0; 0; 0; 0; 0; 0; 33; 0; 94; 198; 50; 12; 39; 0; 0; 0; 39; 0; 0; 0; 8; 0; 0; 0; 109; 105; 109; 101; 116; 121; 112; 101; 97; 112; 112; 108; 105; 99; 97; 116; 105; 111; 110; 47; 118; 110; 100; 46; 111; 97; 115; 105; 115; 46; 111; 112; 101; 110; 100; 111; 99; 117; 109; 101; 110; 116; 46; 116; 101; 120; 116; 80; 75; 3; 4; 20; 0; 0; 0; 0; 0; 0; 0; 33; 0; 212; 28; 209; 1; 4; 0; 0; 0; 4; 0; 0; 0; 11; 0; 0; 0; 99; 111; 110; 116; 101; 110; 116; 46; 120; 109; 108; 60; 97; 47; 62; 80; 75; 1; 2; 20; 3; 20; 0; 0; 0; 0; 0; 0; 0; 33; 0; 94; 198; 50; 12; 39; 0; 0; 0; 39; 0; 0; 0; 8; 0; 0; 0; 0; 0; 0; 0; 0; 0; 0; 0; 128; 1; 0; 0; 0; 0; 109; 105; 109; 101; 116; 121; 112; 101; 80; 75; 1; 2; 20; 3; 20; 0; 0; 0; 0; 0; 0; 0; 33; 0; 212; 28; 209; 1; 4; 0; 0; 0; 4; 0; 0; 0; 11; 0; 0; 0; 0; 0; 0; 0; 0; 0; 0; 0; 128; 1; 77; 0; 0; 0; 99; 111; 110; 116; 101; 110; 116; 46; 120; 109; 108; 80; 75; 5; 6; 0; 0; 0; 0; 2; 0; 2; 0; 111; 0; 0; 0; 122; 0; 0; 0; 0; 0].

Lemma container_check_sound_witness :
  valid_document_container (Some demo_odt) 255 ["mimetype"; "content.xml"]%string (Some UploadSpec.ODT) = Some (Ok tt) /\
  exists entries, read_central_directory demo_odt 255 = Got entries /\ (1 <= length entries <= MAX_CONTAINER_ENTRIES)%nat.
Proof.
  assert (Hu8 : Forall is_u8 demo_odt) by (apply (bool_decide_unpack _); vm_compute; exact I).
  assert (Hok : valid_document_container (Some demo_odt) 255 ["mimetype"; "content.xml"]%string (Some UploadSpec.ODT) = Some (Ok tt)) by (vm_compute; reflexivity).
  split; [exact Hok|]. destruct (container_check_sound demo_odt 255 ["mimetype"; "content.xml"]%string (Some UploadSpec.ODT) Hu8) as [_ Hs].
  destruct (Hs Hok) as (entries & He & Hl & _). exists entries. exact (conj He Hl).
Defined.

End UploadZip.
