(* ===== verification/UploadFile.v ===== *)
(** * A staged file and its content checks

    [SessionFile] of [lerdr-coord/src/actions/uploads.rs] with the sniff
    buffers that are kept while chunks stream ([capture], [capture_utf8]) and
    the content check at the end ([validate_content]).  [std::str::from_utf8]
    is written out with the two positions of its error; the JSON reader is a
    parameter.

    The main result is that the way a file is cut into chunks does not matter:
    the buffers are those of the whole file. *)

From S2P Require Import Prelude Delta UploadSpec Inflate UploadZip.

Module UploadFile.
Import UploadSpec.

Record SessionFile := mkFile {
  f_spec : FileSpec;
  f_rel_path : string;
  f_file : option bytes;      (** the open handle: what was written through it *)
  f_received : Z;
  f_hash : bytes;             (** what the running digest was fed *)
  f_prefix : bytes;
  f_suffix : bytes;
  f_utf8_tail : bytes;
  f_invalid_utf : bool;
  f_has_nul : bool;
}.

Definition new (spec : FileSpec) : SessionFile := mkFile spec "" None 0 [] [] [] [] false false.

(** ** [std::str::from_utf8] *)

(** [utf8_error b at_] is [None] on valid text, otherwise [valid_up_to] and
    [error_len]; [at_] bytes were consumed. *)
Definition second3 (x y : Z) : bool :=
  (in_range 0xE0 0xE0 x && in_range 0xA0 0xBF y) || (in_range 0xE1 0xEC x && is_cont y)
  || (in_range 0xED 0xED x && in_range 0x80 0x9F y) || (in_range 0xEE 0xEF x && is_cont y).
Definition second4 (x y : Z) : bool :=
  (in_range 0xF0 0xF0 x && in_range 0x90 0xBF y) || (in_range 0xF1 0xF3 x && is_cont y) || (in_range 0xF4 0xF4 x && in_range 0x80 0x8F y).

Fixpoint utf8_error (b : bytes) (at_ : nat) : option (nat * option nat) :=
  match b with
  | [] => None
  | x :: r1 =>
      if in_range 0 0x7F x then utf8_error r1 (S at_)
      else if in_range 0xC2 0xDF x then
        match r1 with
        | [] => Some (at_, None)
        | y :: r2 => if is_cont y then utf8_error r2 (2 + at_) else Some (at_, Some 1%nat)
        end
      else if in_range 0xE0 0xEF x then
        match r1 with
        | [] => Some (at_, None)
        | y :: r2 =>
            if second3 x y then
              match r2 with
              | [] => Some (at_, None)
              | z :: r3 => if is_cont z then utf8_error r3 (3 + at_) else Some (at_, Some 2%nat)
              end
            else Some (at_, Some 1%nat)
        end
      else if in_range 0xF0 0xF4 x then
        match r1 with
        | [] => Some (at_, None)
        | y :: r2 =>
            if second4 x y then
              match r2 with
              | [] => Some (at_, None)
              | z :: r3 =>
                  if is_cont z then
                    match r3 with
                    | [] => Some (at_, None)
                    | w :: r4 => if is_cont w then utf8_error r4 (4 + at_) else Some (at_, Some 3%nat)
                    end
                  else Some (at_, Some 2%nat)
              end
            else Some (at_, Some 1%nat)
        end
      else Some (at_, Some 1%nat)
  end.

(** ** The sniff buffers *)

Definition capture_utf8 (item : SessionFile) (data : bytes) : SessionFile :=
  let combined := f_utf8_tail item ++ data in
  let tail_invalid :=
    match utf8_error combined 0 with
    | None => ([], f_invalid_utf item)
    | Some (valid_up_to, Some _) => ([], true)
    | Some (valid_up_to, None) => (drop valid_up_to combined, f_invalid_utf item)
    end in
  mkFile (f_spec item) (f_rel_path item) (f_file item) (f_received item) (f_hash item) (f_prefix item) (f_suffix item) tail_invalid.1 tail_invalid.2 (f_has_nul item).

Definition is_text (media_type : string) : bool :=
  bool_decide (take 5 (as_bytes media_type) = as_bytes "text/") || bool_decide (media_type = "application/json"%string).

Definition next_prefix (prefix data : bytes) : bytes :=
  if (length prefix <? PREFIX_BYTES)%nat then prefix ++ take (min (PREFIX_BYTES - length prefix) (length data)) data else prefix.

Definition next_suffix (suffix data : bytes) : bytes :=
  if (SUFFIX_BYTES <=? length data)%nat then drop (length data - SUFFIX_BYTES) data
  else
    let suffix := suffix ++ data in
    if (SUFFIX_BYTES <? length suffix)%nat then drop (length suffix - SUFFIX_BYTES) suffix else suffix.

Definition capture (item : SessionFile) (data : bytes) : SessionFile :=
  let item' := mkFile (f_spec item) (f_rel_path item) (f_file item) (f_received item) (f_hash item) (next_prefix (f_prefix item) data)
                 (next_suffix (f_suffix item) data) (f_utf8_tail item) (f_invalid_utf item)
                 (f_has_nul item || is_text (fs_media_type (f_spec item)) && bool_decide (0 ∈ data)) in
  if is_text (fs_media_type (f_spec item)) then capture_utf8 item' data else item'.

Definition valid_text_content (item : SessionFile) : bool :=
  negb (f_invalid_utf item) && bool_decide (f_utf8_tail item = []) && negb (f_has_nul item).

(** ** Content *)

Definition PNG_MAGIC : bytes := [0x89; 80; 78; 71; 13; 10; 26; 10].
Definition JPEG_MAGIC : bytes := [0xFF; 0xD8; 0xFF].
Definition GIF87_MAGIC : bytes := as_bytes "GIF87a".
Definition GIF89_MAGIC : bytes := as_bytes "GIF89a".
Definition BRANDS : list bytes := as_bytes <$> ["heic"; "heix"; "hevc"; "hevx"; "heim"; "heis"; "mif1"; "msf1"]%string.

Definition starts_with (b prefix : bytes) : bool := bool_decide (take (length prefix) b = prefix).

(** [windows(n).any(== needle)]. *)
Fixpoint contains (b needle : bytes) : bool :=
  starts_with b needle || match b with _ :: r => contains r needle | [] => false end.

(** The compatible brands from [offset]; [None] is a slice out of range. *)
Fixpoint brand_loop (fuel : nat) (data : bytes) (offset box_size : nat) : option bool :=
  if decide (box_size < offset + 4)%nat then Some false
  else match fuel with
  | O => None
  | S fuel =>
      brand ← Delta.slice data offset (offset + 4);
      if decide (brand ∈ BRANDS) then Some true else brand_loop fuel data (offset + 4) box_size
  end.

Definition valid_iso_image (data : bytes) : option bool :=
  if decide (length data < 16)%nat then Some false
  else
    ftyp ← Delta.slice data 4 8;
    if decide (ftyp <> as_bytes "ftyp") then Some false
    else
      size ← Delta.slice data 0 4;
      let box_size := Z.to_nat (be_value size) in
      if decide (box_size < 16 \/ length data < box_size)%nat then Some false
      else
        major ← Delta.slice data 8 12;
        if decide (major ∈ BRANDS) then Some true else brand_loop box_size data 16 box_size.

Section Content.
(** [serde_json::from_reader::<_, Value>] succeeding on the staged file. *)
Context (json_ok : bytes -> bool).

Definition content_mismatch : UploadError := with_args "upload_content_type_mismatch" [("file_index"%string, -1)].

Definition check (ok : bool) : option (result UploadError unit) := Some (if ok then Ok tt else Err content_mismatch).

(** [None] is a panic. *)
Definition validate_content (item : SessionFile) : option (result UploadError unit) :=
  let m := fs_media_type (f_spec item) in
  let container := UploadZip.valid_document_container (f_file item) (fs_bytes (f_spec item)) in
  if decide (m = "image/png"%string) then check (starts_with (f_prefix item) PNG_MAGIC)
  else if decide (m = "image/jpeg"%string) then check (starts_with (f_prefix item) JPEG_MAGIC)
  else if decide (m = "image/gif"%string) then check (starts_with (f_prefix item) GIF87_MAGIC || starts_with (f_prefix item) GIF89_MAGIC)
  else if decide (m = "image/webp"%string) then
    if decide (length (f_prefix item) < 12)%nat then check false
    else
      riff ← Delta.slice (f_prefix item) 0 4;
      webp ← Delta.slice (f_prefix item) 8 12;
      check (bool_decide (riff = as_bytes "RIFF") && bool_decide (webp = as_bytes "WEBP"))
  else if decide (m = "image/heic"%string \/ m = "image/heif"%string) then ok ← valid_iso_image (f_prefix item); check ok
  else if decide (m = "application/pdf"%string) then check (starts_with (f_prefix item) (as_bytes "%PDF-") && contains (f_suffix item) (as_bytes "%%EOF"))
  else if decide (m = "application/json"%string) then
    check (valid_text_content item && match f_file item with Some file => json_ok file | None => false end)
  else if decide (m ∈ ["text/plain"; "text/markdown"; "text/csv"]%string) then check (valid_text_content item)
  else if decide (m = DOCX) then container ["[Content_Types].xml"; "word/document.xml"]%string None
  else if decide (m = XLSX) then container ["[Content_Types].xml"; "xl/workbook.xml"]%string None
  else if decide (m = PPTX) then container ["[Content_Types].xml"; "ppt/presentation.xml"]%string None
  else if decide (m = ODT) then container ["mimetype"; "content.xml"]%string (Some ODT)
  else if decide (m = ODS) then container ["mimetype"; "content.xml"]%string (Some ODS)
  else if decide (m = ODP) then container ["mimetype"; "content.xml"]%string (Some ODP)
  else Some (Ok tt).

End Content.

(** ** The buffers of the whole file *)

Definition last_n (n : nat) (l : bytes) : bytes := drop (length l - n) l.

Lemma prefix_whole all data : next_prefix (take PREFIX_BYTES all) data = take PREFIX_BYTES (all ++ data).
Proof.
  unfold next_prefix. rewrite length_take, take_app. case_match eqn:E; [apply Nat.ltb_lt in E|apply Nat.ltb_ge in E].
  - rewrite (take_ge all) by lia. f_equal. destruct (decide (PREFIX_BYTES - length all <= length data)%nat).
    + f_equal. lia.
    + rewrite (take_ge data) by lia. rewrite take_ge; [done|lia].
  - replace (PREFIX_BYTES - length all)%nat with 0%nat by lia. by rewrite take_0, app_nil_r.
Qed.

Lemma suffix_whole all data : next_suffix (last_n SUFFIX_BYTES all) data = last_n SUFFIX_BYTES (all ++ data).
Proof.
  unfold next_suffix, last_n. rewrite (length_app all data). case_match eqn:E; [apply Nat.leb_le in E|apply Nat.leb_gt in E].
  - rewrite drop_app_ge by lia. f_equal. lia.
  - rewrite length_app, length_drop. case_match eqn:E2; [apply Nat.ltb_lt in E2|apply Nat.ltb_ge in E2].
    + destruct (decide (length all <= SUFFIX_BYTES)%nat).
      * replace (length all - SUFFIX_BYTES)%nat with 0%nat by lia. rewrite drop_0. f_equal. lia.
      * rewrite <- drop_app_le by lia. rewrite drop_drop. f_equal. lia.
    + rewrite <- drop_app_le by lia. f_equal. lia.
Qed.

(** ** UTF-8 across chunks *)

Lemma utf8_valid_app a b : utf8_valid a = true -> utf8_valid (a ++ b) = utf8_valid b.
Proof.
  remember (length a) as n eqn:Hn. assert (Hle : (length a <= n)%nat) by lia. clear Hn. revert a Hle.
  induction n as [|n IH]; intros a Hle Ha; (destruct a as [|x r1]; [done|]); cbn [length] in Hle; [lia|].
  cbn [utf8_valid app] in *. destruct (in_range 0 0x7F x); [apply IH; [lia|done]|].
  destruct r1 as [|y r2]; [done|]. cbn [app length] in *. destruct (in_range 0xC2 0xDF x && is_cont y); [apply IH; [lia|done]|].
  destruct r2 as [|z r3]; [done|]. cbn [app length] in *. destruct (is_cont z && _); [apply IH; [lia|done]|].
  destruct r3 as [|w r4]; [done|]. cbn [app length] in *. destruct (is_cont z && _ && _); [apply IH; [lia|done]|done].
Qed.

(** What an error says of the text from [valid_up_to] on. *)
Definition broken (rest : bytes) (e : option nat) : Prop :=
  rest <> [] /\ match e with
  | None => utf8_error rest 0 = Some (0%nat, None) /\ utf8_valid rest = false
  | Some _ => forall more, utf8_valid (rest ++ more) = false
  end.

Lemma utf8_error_shift b at_ : utf8_error b at_ = (fun e => ((at_ + e.1)%nat, e.2)) <$> utf8_error b 0.
Proof.
  remember (length b) as n eqn:Hn. assert (Hle : (length b <= n)%nat) by lia. clear Hn. revert b at_ Hle.
  assert (Hgo : forall (n k : nat) r at_, (forall (b : bytes) (at_ : nat), (length b <= n)%nat -> utf8_error b at_ = (fun e => ((at_ + e.1)%nat, e.2)) <$> utf8_error b 0) ->
    (length r <= n)%nat -> utf8_error r (k + at_) = (fun e => ((at_ + e.1)%nat, e.2)) <$> utf8_error r k).
  { intros n' k r at_ IH Hr. rewrite (IH r (k + at_)%nat Hr), (IH r k Hr). destruct (utf8_error r 0) as [[v e]|]; cbn; [|done]. do 2 f_equal. lia. }
  induction n as [|n IH]; intros b at_ Hle; (destruct b as [|x r1]; [done|]); cbn [length] in Hle; [lia|].
  cbn [utf8_error]. destruct (in_range 0 0x7F x); [apply (Hgo n 1%nat); [done|lia]|].
  destruct (in_range 0xC2 0xDF x).
  { destruct r1 as [|y r2]; [cbn; by rewrite Nat.add_0_r|]. destruct (is_cont y); [apply (Hgo n 2%nat); [done|cbn in *; lia]|cbn; by rewrite Nat.add_0_r]. }
  destruct (in_range 0xE0 0xEF x).
  { destruct r1 as [|y r2]; [cbn; by rewrite Nat.add_0_r|]. destruct (second3 x y); [|cbn; by rewrite Nat.add_0_r].
    destruct r2 as [|z r3]; [cbn; by rewrite Nat.add_0_r|]. destruct (is_cont z); [apply (Hgo n 3%nat); [done|cbn in *; lia]|cbn; by rewrite Nat.add_0_r]. }
  destruct (in_range 0xF0 0xF4 x); [|cbn; by rewrite Nat.add_0_r].
  destruct r1 as [|y r2]; [cbn; by rewrite Nat.add_0_r|]. destruct (second4 x y); [|cbn; by rewrite Nat.add_0_r].
  destruct r2 as [|z r3]; [cbn; by rewrite Nat.add_0_r|]. destruct (is_cont z); [|cbn; by rewrite Nat.add_0_r].
  destruct r3 as [|w r4]; [cbn; by rewrite Nat.add_0_r|]. destruct (is_cont w); [apply (Hgo n 4%nat); [done|cbn in *; lia]|cbn; by rewrite Nat.add_0_r].
Qed.

(** Validity by the lead byte. *)
Lemma out_of lo hi lo' hi' x : in_range lo hi x = true -> hi < lo' \/ hi' < lo -> in_range lo' hi' x = false.
Proof. unfold in_range. rewrite bool_decide_eq_true, bool_decide_eq_false. lia. Qed.

Ltac outside H x :=
  repeat match goal with
  | |- context [in_range ?lo ?hi x] => rewrite (out_of _ _ lo hi x H) by lia
  end; cbn [andb orb]; rewrite ?andb_false_r, ?orb_false_r; cbn [andb orb].

Lemma valid_lead2 x l : in_range 0xC2 0xDF x = true -> utf8_valid (x :: l) = match l with y :: r => is_cont y && utf8_valid r | [] => false end.
Proof.
  intros Hx. destruct l as [|y r]; cbn [utf8_valid]; rewrite (out_of _ _ 0 0x7F x Hx) by lia; [done|]. rewrite Hx. cbn [andb].
  destruct (is_cont y); [done|]. cbn [andb]. destruct r as [|z r]; [done|]. outside Hx x. destruct r as [|w r]; [done|]. outside Hx x. done.
Qed.

Lemma valid_lead3 x l : in_range 0xE0 0xEF x = true ->
  utf8_valid (x :: l) = match l with y :: z :: r => second3 x y && is_cont z && utf8_valid r | _ => false end.
Proof.
  intros Hx. destruct l as [|y r]; cbn [utf8_valid]; rewrite (out_of _ _ 0 0x7F x Hx) by lia; [done|]. rewrite (out_of _ _ 0xC2 0xDF x Hx) by lia. cbn [andb].
  destruct r as [|z r]; [done|]. fold (second3 x y). rewrite (andb_comm (second3 x y)). destruct (is_cont z && second3 x y); [done|]. cbn [andb].
  destruct r as [|w r]; [done|]. outside Hx x. done.
Qed.

Lemma valid_lead4 x l : in_range 0xF0 0xF4 x = true ->
  utf8_valid (x :: l) = match l with y :: z :: w :: r => second4 x y && is_cont z && is_cont w && utf8_valid r | _ => false end.
Proof.
  intros Hx. destruct l as [|y r]; cbn [utf8_valid]; rewrite (out_of _ _ 0 0x7F x Hx) by lia; [done|]. rewrite (out_of _ _ 0xC2 0xDF x Hx) by lia. cbn [andb].
  destruct r as [|z r]; [done|]. outside Hx x. destruct r as [|w r]; [done|]. fold (second4 x y).
  destruct (second4 x y), (is_cont z), (is_cont w); cbn [andb]; done.
Qed.

Lemma valid_bad x l : in_range 0 0x7F x = false -> in_range 0xC2 0xDF x = false -> in_range 0xE0 0xEF x = false -> in_range 0xF0 0xF4 x = false ->
  utf8_valid (x :: l) = false.
Proof.
  intros H1 H2 H3 H4. destruct l as [|y r]; cbn [utf8_valid]; rewrite H1; [done|]. rewrite H2. cbn [andb].
  assert (Hout : forall lo hi, 0xE0 <= lo /\ hi <= 0xEF \/ 0xF0 <= lo /\ hi <= 0xF4 -> in_range lo hi x = false).
  { intros lo hi. unfold in_range in *. rewrite !bool_decide_eq_false in *. lia. }
  repeat match goal with |- context [in_range ?lo ?hi x] => rewrite (Hout lo hi) by lia end. cbn [andb orb].
  destruct r as [|z r]; [done|]. rewrite andb_false_r. destruct r as [|w r]; [done|]. by rewrite andb_false_r.
Qed.

(** The scan agrees with validity and cuts the text at its error. *)
Definition scan_ok (b : bytes) : Prop :=
  match utf8_error b 0 with
  | None => utf8_valid b = true
  | Some (v, e) => (v <= length b)%nat /\ utf8_valid (take v b) = true /\ broken (drop v b) e
  end.

Lemma scan_step p r : utf8_valid p = true -> utf8_error (p ++ r) 0 = utf8_error r (length p) -> scan_ok r -> scan_ok (p ++ r).
Proof.
  unfold scan_ok. intros Hp -> Hr. rewrite utf8_error_shift. destruct (utf8_error r 0) as [[v e]|]; cbn; [|by rewrite utf8_valid_app].
  destruct Hr as (Hv & Ht & Hb). rewrite length_app. split; [lia|]. rewrite take_app_add, drop_app_add. split; [|done]. by rewrite utf8_valid_app.
Qed.

Lemma scan_error b e : utf8_error b 0 = Some (0%nat, e) -> broken b e -> scan_ok b.
Proof. intros He Hb. unfold scan_ok. rewrite He. split; [lia|]. by rewrite take_0, drop_0. Qed.

Lemma scan_short b : utf8_error b 0 = Some (0%nat, None) -> b <> [] -> utf8_valid b = false -> scan_ok b.
Proof. intros He Hne Hv. by apply (scan_error b None). Qed.

Lemma scan_bad b k : utf8_error b 0 = Some (0%nat, Some k) -> b <> [] -> (forall more, utf8_valid (b ++ more) = false) -> scan_ok b.
Proof. intros He Hne Hv. by apply (scan_error b (Some k)). Qed.

Lemma utf8_error_spec b : scan_ok b.
Proof.
  remember (length b) as n eqn:Hn. assert (Hle : (length b <= n)%nat) by lia. clear Hn. revert b Hle.
  induction n as [|n IH]; intros b Hle; (destruct b as [|x r1]; [done|]); cbn [length] in Hle; [lia|].
  destruct (in_range 0 0x7F x) eqn:H1.
  { apply (scan_step [x] r1); [cbn; by rewrite H1|cbn; by rewrite H1|apply IH; lia]. }
  destruct (in_range 0xC2 0xDF x) eqn:H2.
  { pose proof (valid_lead2 x) as Hv. specialize (fun l => Hv l H2). destruct r1 as [|y r2].
    { apply scan_short; [cbn; by rewrite H1, H2|done|by rewrite Hv]. }
    destruct (is_cont y) eqn:Hy.
    - apply (scan_step [x; y] r2); [by rewrite Hv, Hy|cbn; by rewrite H1, H2, Hy|apply IH; cbn in Hle; lia].
    - apply (scan_bad _ 1); [cbn; by rewrite H1, H2, Hy|done|]. intros more. cbn [app]. by rewrite Hv, Hy. }
  destruct (in_range 0xE0 0xEF x) eqn:H3.
  { pose proof (valid_lead3 x) as Hv. specialize (fun l => Hv l H3). destruct r1 as [|y r2].
    { apply scan_short; [cbn; by rewrite H1, H2, H3|done|by rewrite Hv]. }
    destruct (second3 x y) eqn:Hy; [|apply (scan_bad _ 1); [cbn; by rewrite H1, H2, H3, Hy|done|]; intros more; cbn [app]; rewrite Hv, Hy; by destruct (r2 ++ more)].
    destruct r2 as [|z r3]; [apply scan_short; [cbn; by rewrite H1, H2, H3, Hy|done|by rewrite Hv]|]. destruct (is_cont z) eqn:Hz.
    - apply (scan_step [x; y; z] r3); [by rewrite Hv, Hy, Hz|cbn; by rewrite H1, H2, H3, Hy, Hz|apply IH; cbn in Hle; lia].
    - apply (scan_bad _ 2); [cbn; by rewrite H1, H2, H3, Hy, Hz|done|]. intros more. cbn [app]. by rewrite Hv, Hy, Hz. }
  destruct (in_range 0xF0 0xF4 x) eqn:H4; [|apply (scan_bad _ 1); [cbn; by rewrite H1, H2, H3, H4|done|]; intros more; by apply valid_bad].
  pose proof (valid_lead4 x) as Hv. specialize (fun l => Hv l H4). destruct r1 as [|y r2].
  { apply scan_short; [cbn; by rewrite H1, H2, H3, H4|done|by rewrite Hv]. }
  destruct (second4 x y) eqn:Hy;
    [|apply (scan_bad _ 1); [cbn; by rewrite H1, H2, H3, H4, Hy|done|]; intros more; cbn [app]; rewrite Hv, Hy; by destruct (r2 ++ more) as [|? [|? ?]]].
  destruct r2 as [|z r3]; [apply scan_short; [cbn; by rewrite H1, H2, H3, H4, Hy|done|by rewrite Hv]|].
  destruct (is_cont z) eqn:Hz;
    [|apply (scan_bad _ 2); [cbn; by rewrite H1, H2, H3, H4, Hy, Hz|done|]; intros more; cbn [app]; rewrite Hv, Hy, Hz; by destruct (r3 ++ more)].
  destruct r3 as [|w r4]; [apply scan_short; [cbn; by rewrite H1, H2, H3, H4, Hy, Hz|done|by rewrite Hv]|]. destruct (is_cont w) eqn:Hw.
  - apply (scan_step [x; y; z; w] r4); [by rewrite Hv, Hy, Hz, Hw|cbn; by rewrite H1, H2, H3, H4, Hy, Hz, Hw|apply IH; cbn in Hle; lia].
  - apply (scan_bad _ 3); [cbn; by rewrite H1, H2, H3, H4, Hy, Hz, Hw|done|]. intros more. cbn [app]. by rewrite Hv, Hy, Hz, Hw.
Qed.

(** ** The content check always answers *)

Lemma brand_loop_total fuel data offset box_size : (box_size <= length data)%nat -> (box_size - offset <= fuel)%nat -> is_Some (brand_loop fuel data offset box_size).
Proof.
  intros Hb. revert offset. induction fuel as [|fuel IH]; intros offset Hf; cbn [brand_loop]; case_decide; [done|lia|done|].
  rewrite Delta.slice_Some by lia. cbn. case_decide; [done|]. apply IH. lia.
Qed.

Lemma iso_total data : is_Some (valid_iso_image data).
Proof.
  unfold valid_iso_image. case_decide; [done|]. rewrite (Delta.slice_Some data 4 8) by lia. cbn. case_decide; [done|].
  rewrite (Delta.slice_Some data 0 4) by lia. cbn. case_decide; [done|]. rewrite (Delta.slice_Some data 8 12) by lia. cbn. case_decide; [done|].
  apply brand_loop_total; lia.
Qed.

Lemma validate_content_total json_ok item : (forall file, f_file item = Some file -> Forall is_u8 file) -> is_Some (validate_content json_ok item).
Proof.
  intros Hu8. unfold validate_content, check.
  assert (Hc : forall req mime, is_Some (UploadZip.valid_document_container (f_file item) (fs_bytes (f_spec item)) req mime)).
  { intros req mime. destruct (f_file item) as [file|]; [|done]. by apply UploadZip.container_total, Hu8. }
  repeat (case_decide; [first [done|apply Hc|idtac]|]).
  - rewrite (Delta.slice_Some _ 0 4), (Delta.slice_Some _ 8 12) by lia. done.
  - destruct (iso_total (f_prefix item)) as [ok ->]. done.
  - done.
Qed.

(** ** Chunks do not matter *)

(** The carried tail and the flag describe the text so far. *)
Definition text_state (all tail : bytes) (invalid : bool) : Prop :=
  if invalid then forall more, utf8_valid (all ++ more) = false
  else exists good, all = good ++ tail /\ utf8_valid good = true /\ (tail = [] \/ utf8_valid tail = false).

Lemma text_state_next all tail invalid data item : text_state all tail invalid -> f_utf8_tail item = tail -> f_invalid_utf item = invalid ->
  text_state (all ++ data) (f_utf8_tail (capture_utf8 item data)) (f_invalid_utf (capture_utf8 item data)).
Proof.
  intros Hs Ht Hi. unfold capture_utf8. rewrite Ht, Hi. pose proof (utf8_error_spec (tail ++ data)) as Hspec. unfold scan_ok in Hspec. destruct invalid.
  - assert (Hbad : forall more, utf8_valid ((all ++ data) ++ more) = false) by (intros more; rewrite <- app_assoc; apply Hs).
    destruct (utf8_error (tail ++ data) 0) as [[v [k|]]|]; exact Hbad.
  - destruct Hs as (good & -> & Hg & _). rewrite <- app_assoc. set (rest := tail ++ data) in *.
    destruct (utf8_error rest 0) as [[v [k|]]|]; cbn.
    + destruct Hspec as (Hv & Hpre & _ & Hb). intros more. rewrite <- app_assoc, utf8_valid_app by done. rewrite <- (take_drop v rest), <- app_assoc.
      by rewrite utf8_valid_app.
    + destruct Hspec as (Hv & Hpre & _ & _ & Hb). exists (good ++ take v rest). rewrite <- app_assoc, take_drop. split; [done|].
      rewrite utf8_valid_app by done. split; [done|by right].
    + exists (good ++ rest). rewrite app_nil_r, utf8_valid_app by done. split; [done|]. split; [done|by left].
Qed.

(** The state of an item after the bytes [all]. *)
Record sniffed (spec : FileSpec) (all : bytes) (item : SessionFile) : Prop := {
  sn_spec : f_spec item = spec;
  sn_prefix : f_prefix item = take PREFIX_BYTES all;
  sn_suffix : f_suffix item = last_n SUFFIX_BYTES all;
  sn_nul : is_text (fs_media_type spec) = true -> f_has_nul item = bool_decide (0 ∈ all);
  sn_text : is_text (fs_media_type spec) = true -> text_state all (f_utf8_tail item) (f_invalid_utf item);
}.

Lemma new_sniffed spec : sniffed spec [] (new spec).
Proof. split; [done..| |]; intros _; [by rewrite bool_decide_eq_false_2 by set_solver|]. exists []. split; [done|]. split; [done|by left]. Qed.

Lemma capture_sniffed spec all item data : sniffed spec all item -> sniffed spec (all ++ data) (capture item data).
Proof.
  intros [Hs Hp Hsuf Hn Ht]. unfold capture. rewrite Hs. destruct (is_text (fs_media_type spec)) eqn:E.
  - split; cbn; [done|by rewrite Hp, prefix_whole|by rewrite Hsuf, suffix_whole| |].
    + intros _. rewrite (Hn eq_refl). cbn. rewrite <- bool_decide_or. apply bool_decide_ext. by rewrite elem_of_app.
    + intros _. by eapply text_state_next; [apply Ht|..].
  - split; cbn; [done|by rewrite Hp, prefix_whole|by rewrite Hsuf, suffix_whole|by rewrite E..].
Qed.

Lemma sniffed_text spec all item : sniffed spec all item -> is_text (fs_media_type spec) = true ->
  valid_text_content item = true <-> utf8_valid all = true /\ 0 ∉ all.
Proof.
  intros [_ _ _ Hn Ht] E. specialize (Hn E). specialize (Ht E). unfold valid_text_content. rewrite !andb_true_iff, !negb_true_iff, Hn, bool_decide_eq_false, bool_decide_eq_true.
  unfold text_state in Ht. destruct (f_invalid_utf item).
  - specialize (Ht []). rewrite app_nil_r in Ht. rewrite Ht. naive_solver.
  - destruct Ht as (good & -> & Hg & Htail). rewrite utf8_valid_app by done. split; [intros ((_ & Et) & H0); rewrite Et in *; done|]. intros [Hv H0].
    destruct Htail as [Et|Hbad]; [rewrite Et in *; done|congruence].
Qed.

Lemma captured_sniffed spec chunks : sniffed spec (mjoin chunks) (foldl capture (new spec) chunks).
Proof.
  induction chunks as [|c chunks IH] using rev_ind; [apply new_sniffed|]. rewrite foldl_app, join_app. cbn. rewrite app_nil_r. by apply capture_sniffed.
Qed.

(** C32 — How a file is cut into chunks does not matter to the content check:
    after any chunks, in any sizes, the sniff buffers hold the first 512 and
    the last 1024 bytes of the whole file, and a text file passes exactly when
    the whole file is UTF-8 without NUL, even where a character was cut apart. *)
Theorem sniffing_ignores_chunking (spec : FileSpec) (chunks : list bytes) :
  let item := foldl capture (new spec) chunks in
  f_prefix item = take PREFIX_BYTES (mjoin chunks) /\ f_suffix item = last_n SUFFIX_BYTES (mjoin chunks) /\
  (is_text (fs_media_type spec) = true -> valid_text_content item = true <-> utf8_valid (mjoin chunks) = true /\ 0 ∉ mjoin chunks).
Proof. pose proof (captured_sniffed spec chunks) as [_ Hp Hs _ _]. split; [exact Hp|]. split; [exact Hs|]. apply sniffed_text, captured_sniffed. Qed.

Definition demo_spec : FileSpec := mkSpec "a.txt" "text/plain" 4.
Definition demo_chunks : list bytes := [[0x61; 0xE2]; [0x82]; [0xAC]].

Lemma sniffing_ignores_chunking_witness : valid_text_content (foldl capture (new demo_spec) demo_chunks) = true.
Proof.
  assert (Ht : is_text (fs_media_type demo_spec) = true) by (vm_compute; reflexivity).
  assert (Hv : utf8_valid (mjoin demo_chunks) = true) by (vm_compute; reflexivity).
  assert (Hn : 0 ∉ mjoin demo_chunks) by (apply (proj1 (bool_decide_eq_false (0 ∈ mjoin demo_chunks))); vm_compute; reflexivity).
  exact (proj2 (proj2 (proj2 (sniffing_ignores_chunking demo_spec demo_chunks)) Ht) (conj Hv Hn)).
Defined.

End UploadFile.
