(* ===== verification/UploadDisk.v ===== *)
(** * The upload directory and the calls on it

    What [lerdr-coord/src/actions/uploads.rs] uses of [std::fs] below
    [<runtime-dir>/uploads].  A path is relative to that directory, as in
    [Uploads::root]; the directory itself is the empty path.  Each call may
    fail for a reason of its own: [io_ok] of an operation's [Io] answers that,
    next to the clock readings and the random draws of the operation. *)

From S2P Require Import Prelude.

Module UploadDisk.

(** A regular file which the session that staged it still has open ([NOpen])
    holds what was written through that handle; the session has the bytes. *)
Inductive Node := NDir | NLink | NOther | NFile (data : bytes) | NOpen.
#[export] Instance Node_eq_dec : EqDecision Node.
Proof. solve_decision. Defined.

Abbreviation Disk := (gmap string Node).

Inductive Call :=
| Mkdir (path : string) | Chmod (path : string) | Create (path : string) | WriteAll (path : string) | SyncAll (path : string)
| Lstat (path : string) | OpenRead (path : string) | Fstat (path : string) | Rename (from to_ : string)
| Unlink (path : string) | RemoveAll (path : string) | ReadDir (path : string).

(** Where an operation reads the clock. *)
Inductive Moment := AtCleanup | AtSession | AtPublish | AtStamp | AtLoad | AtQuarantine.

Record Io := mkIo {
  io_ok : Call -> bool;
  io_clock : Moment -> Z;
  io_random : nat -> option bytes;     (** the [n]-th draw of 24 bytes *)
  io_modified : string -> Z;           (** the modification time of a path *)
  io_survives : string -> bool;        (** what a failed [remove_dir_all] left behind *)
  io_same : string -> bool;            (** [lstat] and [fstat] name one inode *)
}.

(** ** Paths *)

Definition slash : string := "/".
Definition join (dir name : string) : string := dir +:+ slash +:+ name.

Fixpoint strip_prefix (p s : string) : option string :=
  match p, s with
  | EmptyString, _ => Some s
  | String a p, String b s => if decide (a = b) then strip_prefix p s else None
  | _, EmptyString => None
  end.

(** Everything below [dir]. *)
Definition under (dir path : string) : bool := bool_decide (is_Some (strip_prefix (dir +:+ slash) path)).

Definition plain_name (name : string) : bool := bool_decide (name <> ""%string /\ 47 ∉ as_bytes name).

(** The name of an entry of [dir]; the root's entries are the bare names. *)
Definition entry_name (dir path : string) : option string :=
  if decide (dir = ""%string) then if plain_name path then Some path else None
  else name ← strip_prefix (dir +:+ slash) path; if plain_name name then Some name else None.

Definition entries (d : Disk) (dir : string) : list (string * Node) :=
  omap (fun e => (fun name => (name, e.2)) <$> entry_name dir e.1) (map_to_list d).

(** ** Calls *)

Section Calls.
Context (io : Io).

Inductive CreateError := AlreadyExists | OtherError.

Definition create_dir (d : Disk) (path : string) : Disk * result CreateError unit :=
  if negb (io_ok io (Mkdir path)) then (d, Err OtherError)
  else match d !! path with Some _ => (d, Err AlreadyExists) | None => (<[path := NDir]> d, Ok tt) end.

Definition set_permissions (path : string) : bool := io_ok io (Chmod path).

(** [OpenOptions::create_new]: the new file is open in the caller. *)
Definition create_new (d : Disk) (path : string) : option Disk :=
  if negb (io_ok io (Create path)) then None
  else match d !! path with Some _ => None | None => Some (<[path := NOpen]> d) end.

(** The last handle of [path] goes away; the bytes stay. *)
Definition close (d : Disk) (path : string) (data : bytes) : Disk :=
  match d !! path with Some NOpen => <[path := NFile data]> d | _ => d end.

Definition remove_file (d : Disk) (path : string) : Disk * bool :=
  match d !! path with
  | None | Some NDir => (d, false)
  | Some _ => if io_ok io (Unlink path) then (delete path d, true) else (d, false)
  end.

Definition in_tree (path k : string) : bool := bool_decide (k = path) || under path k.

Definition remove_dir_all (d : Disk) (path : string) : Disk * bool :=
  match d !! path with
  | Some NDir =>
      if io_ok io (RemoveAll path) then (filter (fun e => in_tree path e.1 = false) d, true)
      else (filter (fun e => in_tree path e.1 = false \/ io_survives io e.1 = true) d, false)
  | Some NLink => if io_ok io (RemoveAll path) then (delete path d, true) else (d, false)
  | _ => (d, false)
  end.

Definition rename (d : Disk) (from to_ : string) : option Disk :=
  node ← d !! from;
  if io_ok io (Rename from to_) then
    match d !! to_ with Some NDir => None | _ => Some (<[to_ := node]> (delete from d)) end
  else None.

(** [symlink_metadata]: [NotFound] is [Ok None]. *)
Definition lstat (d : Disk) (path : string) : result unit (option Node) :=
  if io_ok io (Lstat path) then Ok (d !! path) else Err tt.

End Calls.

(** ** What a call leaves alone *)

Lemma strip_path_Some p s t : strip_prefix p s = Some t <-> s = p +:+ t.
Proof.
  revert s. induction p as [|a p IH]; intros s; cbn [strip_prefix]; [split; [by intros [= ->]|by intros ->]|].
  rewrite string_app_cons. destruct s as [|b s]; [done|]. case_decide as E; [subst; rewrite IH; split; [by intros ->|by intros [= ->]]|].
  split; [done|]. intros [= -> ->]. done.
Qed.

Lemma under_spec dir path : under dir path = true <-> exists rest, path = join dir rest.
Proof.
  unfold under, join. rewrite bool_decide_eq_true. unfold is_Some. setoid_rewrite strip_path_Some. by setoid_rewrite <- string_app_assoc.
Qed.

Lemma in_tree_head a b p s : a <> b -> in_tree (String a p) (String b s) = false.
Proof.
  intros Hne. unfold in_tree. rewrite bool_decide_eq_false_2 by congruence. cbn [orb]. unfold under. rewrite bool_decide_eq_false.
  rewrite string_app_cons. cbn [strip_prefix]. by rewrite decide_False by congruence; intros [? ?].
Qed.

Lemma remove_dir_all_other io d path k : in_tree path k = false -> (remove_dir_all io d path).1 !! k = d !! k.
Proof.
  intros Hk. assert (Hne : path <> k) by (intros ->; unfold in_tree in Hk; by rewrite bool_decide_eq_true_2 in Hk).
  unfold remove_dir_all. destruct (d !! path) as [[]|]; try done; case_match; cbn [fst]; rewrite ?lookup_delete_ne by done; [..|done|done].
  - rewrite map_lookup_filter. destruct (d !! k); [|done]. cbn. by rewrite option_guard_True.
  - rewrite map_lookup_filter. destruct (d !! k); [|done]. cbn. rewrite option_guard_True; [done|by left].
Qed.

Lemma remove_file_other io d path k : path <> k -> (remove_file io d path).1 !! k = d !! k.
Proof. intros Hne. unfold remove_file. repeat case_match; cbn [fst]; rewrite ?lookup_delete_ne; done. Qed.

Lemma close_other d path data k : path <> k -> close d path data !! k = d !! k.
Proof. intros Hne. unfold close. repeat case_match; rewrite ?lookup_insert_ne; done. Qed.

Lemma create_new_Some io d path d' : create_new io d path = Some d' -> d !! path = None /\ d' = <[path := NOpen]> d.
Proof. unfold create_new. repeat case_match; naive_solver. Qed.

Lemma rename_Some io d from to_ d' : rename io d from to_ = Some d' -> exists node, d !! from = Some node /\ d' = <[to_ := node]> (delete from d).
Proof. unfold rename. destruct (d !! from) as [node|]; cbn; [|done]. repeat case_match; naive_solver. Qed.

End UploadDisk.

(** * The state of the attachment manager

    [Shared], [Session], [Tombstone], [Attachment] and [AttachmentRecord] of
    [lerdr-coord/src/actions/uploads.rs], with the upload directory they
    describe. *)

From S2P Require Import Prelude Inbound UploadSpec UploadFile.

Module UploadState.
Import Inbound UploadSpec UploadFile UploadDisk.

#[export] Instance TargetRef_eq_dec : EqDecision TargetRef.
Proof. solve_decision. Defined.

Record Session := mkSession {
  s_target : TargetRef;
  s_owner : string;
  s_expires_at : Z;
  s_files : list SessionFile;
  s_current : nat;
  s_sequence : Z;
}.

Record Tombstone := mkTombstone { ts_target : TargetRef; ts_expires_at : Z }.

Record Attachment := mkAttachment {
  at_reference : string;
  at_name : string;
  at_media_type : string;
  at_bytes : Z;
  at_sha256 : string;
  at_expires_at : Z;
  at_path : string;
}.

Record AttachmentRecord := mkRecord {
  r_attachment : Attachment;
  r_target : TargetRef;
  r_rel_path : string;
  r_persisted_scope : bool;
}.

(** [Shared] with the directory it is kept in and the counter of temporary
    names. *)
Record World := mkWorld {
  sessions : gmap string Session;
  tombstones : gmap string Tombstone;
  attachments : gmap string AttachmentRecord;
  disk : Disk;
  temp_seq : Z;
}.

Definition set_sessions (m : gmap string Session) (w : World) : World := mkWorld m (tombstones w) (attachments w) (disk w) (temp_seq w).
Definition set_tombstones (m : gmap string Tombstone) (w : World) : World := mkWorld (sessions w) m (attachments w) (disk w) (temp_seq w).
Definition set_attachments (m : gmap string AttachmentRecord) (w : World) : World := mkWorld (sessions w) (tombstones w) m (disk w) (temp_seq w).
Definition set_disk (d : Disk) (w : World) : World := mkWorld (sessions w) (tombstones w) (attachments w) d (temp_seq w).

Record PersistFailure := mkFailure { pf_error : UploadError; pf_published : bool }.

(** ** Objects *)

Definition object_path (reference media_type : string) : string := join OBJECTS_DIR (reference +:+ canonical_extension media_type).

Section Open.
Context (io : Io).

(** The length of the regular file at [rel_path]; a file that is still open
    has its bytes in its session and is never an object. *)
Definition open_attachment (d : Disk) (rel_path : string) : result UploadError nat :=
  let changed := Err (upload_error "attachment_changed") in
  match lstat io d rel_path with
  | Ok (Some (NFile data)) =>
      if io_ok io (OpenRead rel_path) && io_ok io (Fstat rel_path) && io_same io rel_path then Ok (length data) else changed
  | _ => changed
  end.

End Open.

End UploadState.
