(* ===== verification/UploadIndex.v ===== *)
(** * The attachment index on disk

    [DiskIndex] of [lerdr-coord/src/actions/uploads.rs], its JSON text, the
    write through a temporary file ([persist_locked]) and the read at start
    ([load_attachments]).  The text is written with [GoJson.to_vec]; reading
    JSON is serde_json's ([DocumentJson]). *)

From S2P Require Import Prelude Utf8 Json JsonWire GoJson Inbound Protocol WriteAudit E2eeCodec UploadTime UploadSpec UploadFile UploadDisk.

Module UploadIndex.
Import Utf8 Json Inbound UploadSpec UploadFile UploadDisk UploadState.

Definition INDEX_FILENAME : string := "attachments.json".
Definition MAX_INDEX_BYTES : Z := Z.shiftl 16 20.

Record DiskAttachment := mkDiskAttachment {
  da_reference : string;
  da_name : string;
  da_media_type : string;
  da_bytes : Z;
  da_sha256 : string;
  da_expires_at : Z;
}.

Record DiskAttachmentTarget := mkDiskTarget {
  dt_server_session_id : string;
  dt_pane_id : string;
  dt_terminal_id : string;
  dt_agent_session_id : string;
}.

Record DiskAttachmentRecord := mkDiskRecord {
  dr_attachment : DiskAttachment;
  dr_target : DiskAttachmentTarget;
  dr_rel_path : string;
}.

Record DiskIndex := mkIndex { di_schema_version : Z; di_attachments : list DiskAttachmentRecord }.

Definition to_target_ref (t : DiskAttachmentTarget) : TargetRef :=
  mkTarget (dt_server_session_id t) (dt_pane_id t) (dt_terminal_id t) 0 (dt_agent_session_id t) "" "".

Definition disk_record (record : AttachmentRecord) : DiskAttachmentRecord :=
  let a := r_attachment record in
  let t := r_target record in
  mkDiskRecord (mkDiskAttachment (at_reference a) (at_name a) (at_media_type a) (at_bytes a) (at_sha256 a) (at_expires_at a))
    (mkDiskTarget (t_server_session_id t) (t_pane_id t) (t_terminal_id t) (t_agent_session_id t)) (r_rel_path record).

Definition valid_disk_target (t : DiskAttachmentTarget) : bool :=
  negb (blank (dt_server_session_id t)) && negb (blank (dt_pane_id t)) && negb (blank (dt_terminal_id t)).

(** ** The document *)

Definition attachment_json (a : DiskAttachment) : json :=
  JObject [("ref", JString (da_reference a)); ("name", JString (da_name a)); ("media_type", JString (da_media_type a)); ("bytes", json_int (da_bytes a));
           ("sha256", JString (da_sha256 a)); ("expires_at", JString (UploadTime.format_timestamp (da_expires_at a)))].
Definition target_json (t : DiskAttachmentTarget) : json :=
  JObject [("server_session_id", JString (dt_server_session_id t)); ("pane_id", JString (dt_pane_id t)); ("terminal_id", JString (dt_terminal_id t));
           ("agent_session_id", JString (dt_agent_session_id t))].
Definition record_json (r : DiskAttachmentRecord) : json :=
  JObject [("attachment", attachment_json (dr_attachment r)); ("target", target_json (dr_target r)); ("rel_path", JString (dr_rel_path r))].
Definition index_json (i : DiskIndex) : json :=
  JObject [("schema_version", json_int (di_schema_version i)); ("attachments", JArray (record_json <$> di_attachments i))].

(** [deny_unknown_fields] on top of the usual reading of a struct. *)
Definition de_closed (names : list string) (v : json) : option (list (option json)) :=
  match v with
  | JObject ms => if decide (Forall (fun m => m.1 ∈ names) ms) then JsonWire.de_struct names v else None
  | _ => JsonWire.de_struct names v
  end.

(** [default] with [de_default]: a missing or null field is the default. *)
Definition de_or {A} (zero : A) (read : json -> option A) (f : option json) : option A :=
  match f with None | Some JNull => Some zero | Some v => read v end.

Definition de_timestamp (v : json) : option Z := s ← as_str v; UploadTime.parse_timestamp s.

Definition no_attachment : DiskAttachment := mkDiskAttachment "" "" "" 0 "" 0.
Definition no_target : DiskAttachmentTarget := mkDiskTarget "" "" "" "".

Definition de_attachment (v : json) : option DiskAttachment :=
  fs ← de_closed ["ref"; "name"; "media_type"; "bytes"; "sha256"; "expires_at"]%string v;
  match fs with
  | [a; b; c; d; e; g] =>
      a ← JsonWire.de_string a; b ← JsonWire.de_string b; c ← JsonWire.de_string c; d ← JsonWire.de_i64 d; e ← JsonWire.de_string e;
      g ← de_or 0 de_timestamp g;
      Some (mkDiskAttachment a b c d e g)
  | _ => None
  end.

Definition de_disk_target (v : json) : option DiskAttachmentTarget :=
  fs ← de_closed ["server_session_id"; "pane_id"; "terminal_id"; "agent_session_id"]%string v;
  match fs with
  | [a; b; c; d] =>
      a ← JsonWire.de_string a; b ← JsonWire.de_string b; c ← JsonWire.de_string c; d ← JsonWire.de_string d; Some (mkDiskTarget a b c d)
  | _ => None
  end.

Definition de_record (v : json) : option DiskAttachmentRecord :=
  fs ← de_closed ["attachment"; "target"; "rel_path"]%string v;
  match fs with
  | [a; t; p] =>
      a ← de_or no_attachment de_attachment a; t ← de_or no_target de_disk_target t; p ← JsonWire.de_string p; Some (mkDiskRecord a t p)
  | _ => None
  end.

Definition de_index (v : json) : option DiskIndex :=
  fs ← de_closed ["schema_version"; "attachments"]%string v;
  match fs with
  | [n; a] => n ← JsonWire.de_i64 n; a ← de_or [] (fun v => items ← as_array v; mapM de_record items) a; Some (mkIndex n a)
  | _ => None
  end.

(** [serde_json::from_slice] up to the typed reading; members keep the order
    and the duplicates of the text. *)
Class DocumentJson := { from_slice : bytes -> option json }.

(** ** Writing *)

Definition by_reference (a b : DiskAttachmentRecord) : Prop := String.le (da_reference (dr_attachment a)) (da_reference (dr_attachment b)).
#[export] Instance by_reference_dec : RelDecision by_reference.
Proof. intros a b. unfold by_reference, String.le. apply _. Defined.

Definition index_of (m : gmap string AttachmentRecord) : DiskIndex :=
  mkIndex INDEX_VERSION (merge_sort by_reference (disk_record <$> (map_to_list m).*2)).

(** [{:x}] of an [i128] or a [u64]. *)
Definition hex_digit (n : Z) : Ascii.ascii := byte_ascii (if decide (n < 10) then 48 + n else 87 + n).
Fixpoint hex_loop (fuel : nat) (n : Z) (acc : string) : string :=
  match fuel with
  | O => acc
  | S fuel => let acc := String (hex_digit (n mod 16)) acc in if decide (n / 16 = 0) then acc else hex_loop fuel (n / 16) acc
  end.
Definition lower_hex (n : Z) : string := hex_loop 32 (n mod 2 ^ 128) "".

Section Index.
Context `{Protocol.CaseMapping} `{E2eeCodec.Base64} `{GoJson.FloatText}.
Context (dir : string) (io : Io).

Definition index_text (m : gmap string AttachmentRecord) : bytes := GoJson.to_vec (index_json (index_of m)) ++ [10].

Definition unavailable : UploadError := upload_error "upload_metadata_unavailable".

Definition persist_locked (w : World) : World * result PersistFailure unit :=
  let data := index_text (attachments w) in
  let temp_path := ".attachments-" +:+ lower_hex (io_clock io AtStamp) +:+ "-" +:+ lower_hex (temp_seq w) +:+ ".tmp" in
  let w := mkWorld (sessions w) (tombstones w) (attachments w) (disk w) ((temp_seq w + 1) mod 2 ^ 64) in
  let fail d published := (set_disk (remove_file io d temp_path).1 w, Err (mkFailure unavailable published)) in
  match create_new io (disk w) temp_path with
  | None => (w, Err (mkFailure unavailable false))
  | Some d =>
      if negb (io_ok io (WriteAll temp_path)) then fail (close d temp_path []) false
      else if negb (io_ok io (SyncAll temp_path)) then fail (close d temp_path data) false
      else match rename io (close d temp_path data) temp_path INDEX_FILENAME with
      | None => fail (close d temp_path data) false
      | Some d =>
          if negb (io_ok io (OpenRead "")) then fail d true
          else if negb (io_ok io (SyncAll "")) then fail d true
          else (set_disk d w, Ok tt)
      end
  end.

(** ** Reading *)

Definition invalid : UploadError := upload_error "upload_metadata_invalid".

(** What a stored record must be to be considered at all. *)
Definition record_usable (stored : DiskAttachmentRecord) : bool :=
  let a := dr_attachment stored in
  let id_ok := match E2eeCodec.b64_decode (da_reference a) with Some decoded => bool_decide (length decoded = 24%nat) | None => false end in
  let spec_ok := is_ok (normalize_spec (mkSpec (da_name a) (da_media_type a) (da_bytes a))) in
  id_ok && spec_ok && valid_digest (da_sha256 a) && valid_disk_target (dr_target stored)
  && bool_decide (dr_rel_path stored = object_path (da_reference a) (da_media_type a)) && negb (UploadTime.is_zero_time (da_expires_at a)).

Definition restored (stored : DiskAttachmentRecord) : AttachmentRecord :=
  let a := dr_attachment stored in
  mkRecord (mkAttachment (da_reference a) (da_name a) (da_media_type a) (da_bytes a) (da_sha256 a) (da_expires_at a) (join dir (dr_rel_path stored)))
    (to_target_ref (dr_target stored)) (dr_rel_path stored) true.

Definition load_record (now : Z) (acc : World * nat) (stored : DiskAttachmentRecord) : World * nat :=
  let (w, dropped) := acc in
  let a := dr_attachment stored in
  if negb (record_usable stored) then (w, S dropped)
  else if decide (da_expires_at a <= now) then (set_disk (remove_file io (disk w) (dr_rel_path stored)).1 w, dropped)
  else if decide (is_Some (attachments w !! da_reference a)) then (w, S dropped)
  else match open_attachment io (disk w) (dr_rel_path stored) with
  | Err _ => (w, S dropped)
  | Ok len =>
      if decide (Z.of_nat len <> da_bytes a) then (w, S dropped)
      else (set_attachments (<[da_reference a := restored stored]> (attachments w)) w, dropped)
  end.

Definition load_attachments `{DocumentJson} (w : World) : World * result UploadError nat :=
  match lstat io (disk w) INDEX_FILENAME with
  | Err _ => (w, Err invalid)
  | Ok None => (w, Ok 0%nat)
  | Ok (Some (NFile data)) =>
      if negb (io_ok io (OpenRead INDEX_FILENAME)) then (w, Err invalid)
      else if decide (MAX_INDEX_BYTES < Z.of_nat (length data)) then (w, Err invalid)
      else match from_slice data ≫= de_index with
      | None => (w, Err invalid)
      | Some index =>
          if decide (di_schema_version index <> INDEX_VERSION) then (w, Err invalid)
          else let (w, dropped) := foldl (load_record (io_clock io AtLoad)) (w, 0%nat) (di_attachments index) in (w, Ok dropped)
      end
  | Ok (Some _) => (w, Err invalid)
  end.

(** [quarantineIndex]: the corrupt index is renamed aside; the 1000 names. *)
Fixpoint quarantine_loop (tries : nat) (attempt : nat) (d : Disk) : Disk * result UploadError unit :=
  match tries with
  | O => (d, Err invalid)
  | S tries =>
      let stamp := Protocol.z_string (io_clock io AtQuarantine) in
      let name := "attachments.invalid-" +:+ stamp +:+ (if decide (attempt = 0%nat) then "" else "-" +:+ decimal (Z.of_nat attempt)) +:+ ".json" in
      match lstat io d name with
      | Ok (Some _) => quarantine_loop tries (S attempt) d
      | Ok None => match rename io d INDEX_FILENAME name with Some d => (d, Ok tt) | None => (d, Err invalid) end
      | Err _ => (d, Err invalid)
      end
  end.
Definition quarantine_index (d : Disk) : Disk * result UploadError unit := quarantine_loop 1000 0 d.

End Index.

End UploadIndex.
