(* ===== verification/Uploads.v ===== *)
(** * The attachment manager

    [Uploads] of [lerdr-coord/src/actions/uploads.rs]: staged sessions, the
    chunks that fill them, the checks that publish their files as attachments,
    cancelling, resolving and the sweep.  Every public operation holds the one
    lock from its first read to its last write, so an operation is a function
    from the old to the new [World] ([UploadState]). *)

From S2P Require Import Prelude Utf8 Json Inbound Protocol WriteAudit E2eeCodec GoJson UploadSpec UploadFile UploadDisk UploadIndex.

Module Uploads.
Import Utf8 Inbound UploadSpec UploadFile UploadDisk UploadState UploadIndex.

(** ** Requests and results *)

Record BeginRequest := mkBegin { b_target : TargetRef; b_files : list FileSpec }.
Record ChunkRequest := mkChunk {
  c_target : TargetRef;
  c_upload_id : string;
  c_file_index : Z;
  c_sequence : Z;
  c_data : bytes;
  c_sha256 : string;
}.
Record FileDigest := mkDigest { fd_file_index : Z; fd_sha256 : string }.
Record FinishRequest := mkFinish { fr_target : TargetRef; fr_upload_id : string; fr_files : list FileDigest }.

Record BeginResult := mkBeginResult { br_upload_id : string; br_chunk_bytes : Z; br_expires_at : Z; br_max_files : Z; br_max_file_bytes : Z; br_max_batch_bytes : Z }.
Record ChunkResult := mkChunkResult { cr_file_index : Z; cr_next_sequence : Z; cr_received_bytes : Z }.

(** ** Sessions *)

Definition session_dir (upload_id : string) : string := join SESSIONS_DIR upload_id.

(** [{index:04}]. *)
Definition pad4 (n : nat) : string := let s := decimal (Z.of_nat n) in String.concat "" (replicate (4 - String.length s) "0"%string) +:+ s.
Definition part_path (upload_id : string) (index : nat) : string := join (session_dir upload_id) (pad4 index +:+ ".part").

(** [drop(item.file.take())]. *)
Definition take_file (d : Disk) (item : SessionFile) : Disk * SessionFile :=
  match f_file item with
  | None => (d, item)
  | Some data =>
      (close d (f_rel_path item) data,
       mkFile (f_spec item) (f_rel_path item) None (f_received item) (f_hash item) (f_prefix item) (f_suffix item) (f_utf8_tail item)
         (f_invalid_utf item) (f_has_nul item))
  end.

Definition close_files (d : Disk) (session : Session) : Disk := foldl (fun d item => (take_file d item).1) d (s_files session).

Section Manager.
Context `{CM : Protocol.CaseMapping} `{DG : WriteAudit.Digest} `{B64 : E2eeCodec.Base64} `{FT : GoJson.FloatText}.
(** The directory's own path and the JSON reader of the content check. *)
Context (dir : string) (json_ok : bytes -> bool).
Context (io : Io).

Definition remove_session_dir (upload_id : string) (session : Session) (w : World) : World :=
  set_disk (remove_dir_all io (close_files (disk w) session) (session_dir upload_id)).1 w.

Definition lock_session (w : World) (now : Z) (upload_id : string) (target : TargetRef) : World * result UploadError Session :=
  match sessions w !! upload_id with
  | None => (w, Err (upload_error "upload_session_not_found"))
  | Some session =>
      if decide (s_expires_at session <= now) then
        (remove_session_dir upload_id session (set_sessions (delete upload_id (sessions w)) w), Err (upload_error "upload_session_expired"))
      else if decide (s_target session <> target) then (w, Err (upload_error "upload_scope_mismatch"))
      else (w, Ok session)
  end.

Definition discard_locked (w : World) (upload_id : string) (tombstone : bool) : World :=
  match sessions w !! upload_id with
  | None => w
  | Some session =>
      let w := remove_session_dir upload_id session (set_sessions (delete upload_id (sessions w)) w) in
      if tombstone then set_tombstones (<[upload_id := mkTombstone (s_target session) (s_expires_at session)]> (tombstones w)) w else w
  end.

(** *** [begin] *)

Definition opaque_id (draw : nat) : result UploadError string :=
  match io_random io draw with Some b => Ok (E2eeCodec.b64_encode b) | None => Err (upload_error "upload_id_unavailable") end.

(** The declared files, one after the other, under the batch limit. *)
Fixpoint accept_files (total : Z) (specs : list FileSpec) : result UploadError (list SessionFile) :=
  match specs with
  | [] => Ok []
  | spec :: specs =>
      normalized ← normalize_spec spec;
      if decide (MAX_BATCH_BYTES - fs_bytes normalized < total) then Err (with_args "upload_batch_too_large" [("max_bytes"%string, MAX_BATCH_BYTES)])
      else files ← accept_files (total + fs_bytes normalized) specs; Ok (new normalized :: files)
  end.

(** The part files; the files staged before a failure are closed again with
    the rest, so the disk is what a failure leaves. *)
Fixpoint stage_files (d : Disk) (upload_id : string) (index : nat) (files : list SessionFile) : Disk * list SessionFile * bool :=
  match files with
  | [] => (d, [], true)
  | item :: rest =>
      let path := part_path upload_id index in
      let staged file := mkFile (f_spec item) path file (f_received item) (f_hash item) (f_prefix item) (f_suffix item) (f_utf8_tail item)
                           (f_invalid_utf item) (f_has_nul item) in
      match create_new io d path with
      | None => (d, staged (f_file item) :: rest, false)
      | Some d => let '(d, rest, ok) := stage_files d upload_id (S index) rest in (d, staged (Some []) :: rest, ok)
      end
  end.

Definition set_files (files : list SessionFile) (s : Session) : Session :=
  mkSession (s_target s) (s_owner s) (s_expires_at s) files (s_current s) (s_sequence s).

Definition stage_session (d : Disk) (upload_id : string) (session : Session) : Disk * Session * bool :=
  match create_dir io d (session_dir upload_id) with
  | (d, Err _) => (d, session, false)
  | (d, Ok _) =>
      if negb (set_permissions io (session_dir upload_id)) then (d, session, false)
      else let '(d, files, ok) := stage_files d upload_id 0 (s_files session) in (d, set_files files session, ok)
  end.

Definition discard_staging (d : Disk) (upload_id : string) (session : Session) : Disk :=
  (remove_dir_all io (close_files d session) (session_dir upload_id)).1.

(** *** Cleanup *)

Definition expire_session (w : World) (e : string * Session) : World :=
  remove_session_dir e.1 e.2 (set_sessions (delete e.1 (sessions w)) w).

Definition expire_attachment (w : World) (e : string * AttachmentRecord) : World :=
  set_disk (remove_file io (disk w) (r_rel_path e.2)).1 (set_attachments (delete e.1 (attachments w)) w).

(** One entry of [sessions/] or [objects/]: [now.duration_since] fails for a
    time in the future, and the entry is left. *)
Definition sweep_entry (now : Z) (indexed : gset string) (dir_name : string) (ttl : Z) (acc : Disk * nat) (e : string * Node) : Disk * nat :=
  let (d, removed) := acc in
  let path := join dir_name e.1 in
  let count (r : Disk * bool) := (r.1, if r.2 then S removed else removed) in
  if negb (io_ok io (Lstat path)) then acc
  else if decide (e.2 = NLink) then count (remove_file io d path)
  else if decide (dir_name = OBJECTS_DIR /\ path ∈ indexed) then acc
  else
    let age := now - io_modified io path in
    if decide (age < 0) then acc
    else if decide (age < ttl) then acc
    else if decide (dir_name = SESSIONS_DIR /\ e.2 = NDir) then count (remove_dir_all io d path)
    else match e.2 with
    | NFile _ | NOpen => if decide (dir_name = OBJECTS_DIR) then count (remove_file io d path) else acc
    | _ => acc
    end.

Definition sweep (now : Z) (indexed : gset string) (dir_name : string) (ttl : Z) (acc : Disk * nat) : Disk * nat :=
  if io_ok io (ReadDir dir_name) then foldl (sweep_entry now indexed dir_name ttl) acc (entries acc.1 dir_name) else acc.

Definition sweep_legacy_entry (now : Z) (acc : Disk * nat) (e : string * Node) : Disk * nat :=
  let (d, removed) := acc in
  if negb (io_ok io (Lstat e.1)) then acc
  else match e.2 with
  | NFile _ | NOpen =>
      if negb (legacy_upload_filename e.1) then acc
      else
        let age := now - io_modified io e.1 in
        if decide (age < 0 \/ age < ATTACHMENT_TTL) then acc
        else let (d, ok) := remove_file io d e.1 in (d, if ok then S removed else removed)
  | _ => acc
  end.

Definition cleanup_disk (w : World) (now : Z) : World * nat :=
  let indexed : gset string := list_to_set ((fun e => r_rel_path e.2) <$> map_to_list (attachments w)) in
  let acc := sweep now indexed SESSIONS_DIR SESSION_TTL (disk w, 0%nat) in
  let acc := sweep now indexed OBJECTS_DIR ATTACHMENT_TTL acc in
  let acc := if io_ok io (ReadDir "") then foldl (sweep_legacy_entry now) acc (entries acc.1 "") else acc in
  (set_disk acc.1 w, acc.2).

Definition cleanup (w : World) : World * nat :=
  let now := io_clock io AtCleanup in
  let expired_sessions := filter (fun e => s_expires_at e.2 <= now) (map_to_list (sessions w)) in
  let expired_attachments := filter (fun e => at_expires_at (r_attachment e.2) <= now) (map_to_list (attachments w)) in
  let w := foldl expire_session w expired_sessions in
  let w := set_tombstones (filter (fun e => now < ts_expires_at e.2) (tombstones w)) w in
  let w := foldl expire_attachment w expired_attachments in
  let (w, swept) := cleanup_disk w now in
  let w := if decide (expired_attachments = []) then w else (persist_locked io w).1 in
  (w, (length expired_sessions + length expired_attachments + swept)%nat).

(** *** [begin], continued *)

Definition owner_of (owner : string) : string := if decide (trim owner = ""%string) then "unattributed"%string else trim owner.

Definition owner_sessions (w : World) (owner : string) : nat := size (filter (fun e => s_owner e.2 = owner) (sessions w)).

Definition begin (owner : string) (request : BeginRequest) (w : World) : World * result UploadError BeginResult :=
  let w := (cleanup w).1 in
  if negb (valid_target (b_target request)) then (w, Err (upload_error "upload_target_invalid"))
  else if decide (b_files request = [] \/ (MAX_FILES < length (b_files request))%nat) then
    (w, Err (with_args "upload_batch_count_invalid" [("max_files"%string, Z.of_nat MAX_FILES)]))
  else match accept_files 0 (b_files request) with
  | Err e => (w, Err e)
  | Ok files =>
      match opaque_id 0 with
      | Err e => (w, Err e)
      | Ok upload_id =>
          let expires_at := io_clock io AtSession + SESSION_TTL in
          let session := mkSession (b_target request) (owner_of owner) expires_at files 0 0 in
          if decide (MAX_SESSIONS <= size (sessions w))%nat then
            (w, Err (with_args "upload_session_limit" [("max_sessions"%string, Z.of_nat MAX_SESSIONS)]))
          else if decide (MAX_SESSIONS_PER_OWNER <= owner_sessions w (s_owner session))%nat then
            (w, Err (with_args "upload_session_limit" [("max_sessions"%string, Z.of_nat MAX_SESSIONS_PER_OWNER)]))
          else if decide (is_Some (sessions w !! upload_id)) then (w, Err (upload_error "upload_staging_failed"))
          else match stage_session (disk w) upload_id session with
          | (d, session, false) => (set_disk (discard_staging d upload_id session) w, Err (upload_error "upload_staging_failed"))
          | (d, session, true) =>
              (set_sessions (<[upload_id := session]> (sessions w)) (set_disk d w),
               Ok (mkBeginResult upload_id CHUNK_BYTES expires_at (Z.of_nat MAX_FILES) MAX_FILE_BYTES MAX_BATCH_BYTES))
          end
      end
  end.

(** *** Chunks *)

(** A chunk that passed every check is written, hashed, counted and sniffed. *)
Definition append (item : SessionFile) (file data : bytes) : SessionFile :=
  capture (mkFile (f_spec item) (f_rel_path item) (Some (file ++ data)) (f_received item + Z.of_nat (length data)) (f_hash item ++ data)
             (f_prefix item) (f_suffix item) (f_utf8_tail item) (f_invalid_utf item) (f_has_nul item)) data.

Definition chunk_locked (session : Session) (request : ChunkRequest) : Session * result UploadError ChunkResult :=
  let data := c_data request in
  match s_files session !! s_current session with
  | None => (session, Err (with_args "upload_chunk_out_of_order"
                [("expected_file_index"%string, Z.of_nat (s_current session)); ("expected_sequence"%string, s_sequence session)]))
  | Some item =>
      if decide (c_file_index request <> Z.of_nat (s_current session) \/ c_sequence request <> s_sequence session) then
        (session, Err (with_args "upload_chunk_out_of_order"
           [("expected_file_index"%string, Z.of_nat (s_current session)); ("expected_sequence"%string, s_sequence session)]))
      else if decide (data = [] \/ CHUNK_BYTES < Z.of_nat (length data)) then
        (session, Err (with_args "upload_chunk_size_invalid" [("max_bytes"%string, CHUNK_BYTES)]))
      else if negb (valid_digest (c_sha256 request)) || negb (digest_matches data (c_sha256 request)) then
        (session, Err (upload_error "upload_chunk_digest_mismatch"))
      else if decide (fs_bytes (f_spec item) - Z.of_nat (length data) < f_received item) then
        (session, Err (with_args "upload_file_too_large" [("expected_bytes"%string, fs_bytes (f_spec item))]))
      else match f_file item with
      | None => (session, Err (upload_error "upload_staging_failed"))
      | Some file =>
          if negb (io_ok io (WriteAll (f_rel_path item))) then (session, Err (upload_error "upload_staging_failed"))
          else
            let item' := append item file data in
            let sequence := s_sequence session + 1 in
            let current := if decide (f_received item' = fs_bytes (f_spec item')) then S (s_current session) else s_current session in
            (mkSession (s_target session) (s_owner session) (s_expires_at session) (<[s_current session := item']> (s_files session)) current sequence,
             Ok (mkChunkResult (c_file_index request) sequence (f_received item')))
      end
  end.

(** What both carriers do with a locked session. *)
Definition chunk_in (w : World) (upload_id : string) (session : Session) (request : ChunkRequest) : World * result UploadError ChunkResult :=
  let (session, result) := chunk_locked session request in
  let w := set_sessions (<[upload_id := session]> (sessions w)) w in
  (if is_ok result then w else discard_locked w upload_id true, result).

Definition chunk (request : ChunkRequest) (w : World) : World * result UploadError ChunkResult :=
  match lock_session w (io_clock io AtSession) (c_upload_id request) (c_target request) with
  | (w, Err e) => (w, Err e)
  | (w, Ok session) => chunk_in w (c_upload_id request) session request
  end.

Definition staged_target (upload_id : string) (w : World) : World * result UploadError (TargetRef * Z) :=
  match sessions w !! upload_id with
  | None => (w, Err (upload_error "upload_session_not_found"))
  | Some session =>
      if decide (s_expires_at session <= io_clock io AtSession) then
        (remove_session_dir upload_id session (set_sessions (delete upload_id (sessions w)) w), Err (upload_error "upload_session_expired"))
      else (w, Ok (s_target session, Z.of_nat (s_current session)))
  end.

Definition chunk_binary (upload_id : string) (sequence : Z) (data : bytes) (w : World) : World * result UploadError ChunkResult :=
  match sessions w !! upload_id with
  | None => (w, Err (upload_error "upload_session_not_found"))
  | Some session =>
      let target := s_target session in
      match lock_session w (io_clock io AtSession) upload_id target with
      | (w, Err e) => (w, Err e)
      | (w, Ok session) =>
          chunk_in w upload_id session (mkChunk target upload_id (Z.of_nat (s_current session)) sequence data (WriteAudit.sha256_hex data))
      end
  end.

(** *** Cancelling *)

Definition cancel (target : TargetRef) (upload_id : string) (w : World) : World * result UploadError unit :=
  match sessions w !! upload_id with
  | Some session =>
      if decide (s_target session <> target) then (w, Err (upload_error "upload_scope_mismatch"))
      else (discard_locked w upload_id true, Ok tt)
  | None =>
      let w :=
        match tombstones w !! upload_id with
        | Some previous => if decide (ts_expires_at previous <= io_clock io AtSession) then set_tombstones (delete upload_id (tombstones w)) w else w
        | None => w
        end in
      match tombstones w !! upload_id with
      | Some previous => if decide (ts_target previous <> target) then (w, Err (upload_error "upload_scope_mismatch")) else (w, Ok tt)
      | None => (w, Ok tt)
      end
  end.

(** *** Finishing *)

Definition changed (index : nat) : UploadError := with_args "upload_staging_changed" [("file_index"%string, Z.of_nat index)].

(** The file at the staged path must be the open one. *)
Definition same_staged (d : Disk) (item : SessionFile) (file : bytes) : bool :=
  io_ok io (Lstat (f_rel_path item)) && io_ok io (Fstat (f_rel_path item)) && bool_decide (d !! f_rel_path item = Some NOpen)
  && bool_decide (Z.of_nat (length file) = fs_bytes (f_spec item)).

(** [None] is a panic of the content check. *)
Definition verify_file (d : Disk) (index : nat) (item : SessionFile) (claimed : FileDigest) : option (result UploadError unit) :=
  let actual := WriteAudit.sha256_hex (f_hash item) in
  if decide (fd_file_index claimed <> Z.of_nat index) then
    Some (Err (with_args "upload_final_digest_mismatch" [("file_index"%string, Z.of_nat index)]))
  else if negb (valid_digest (fd_sha256 claimed)) || negb (ct_eq (as_bytes actual) (as_bytes (Protocol.to_lowercase (fd_sha256 claimed)))) then
    Some (Err (with_args "upload_final_digest_mismatch" [("file_index"%string, Z.of_nat index)]))
  else if decide (f_received item <> fs_bytes (f_spec item)) then
    Some (Err (with_args "upload_incomplete" [("file_index"%string, Z.of_nat index)]))
  else match validate_content json_ok item with
  | None => None
  | Some (Err e) => Some (Err e)
  | Some (Ok _) =>
      match f_file item with
      | None => Some (Err (upload_error "upload_staging_failed"))
      | Some file =>
          if negb (io_ok io (SyncAll (f_rel_path item))) then Some (Err (upload_error "upload_staging_failed"))
          else if same_staged d item file then Some (Ok tt) else Some (Err (changed index))
      end
  end.

Fixpoint verify_files (d : Disk) (index : nat) (items : list SessionFile) (claims : list FileDigest) : option (result UploadError unit) :=
  match items, claims with
  | item :: items, claimed :: claims =>
      match verify_file d index item claimed with
      | Some (Ok _) => verify_files d (S index) items claims
      | other => other
      end
  | [], _ => Some (Ok tt)
  | _ :: _, [] => None
  end.

Definition verify_session (d : Disk) (session : Session) (request : FinishRequest) : option (result UploadError unit) :=
  if decide (s_current session <> length (s_files session) \/ length (fr_files request) <> length (s_files session)) then
    Some (Err (upload_error "upload_incomplete"))
  else verify_files d 0 (s_files session) (fr_files request).

(** The move of each part file to its object; on an error the files moved so
    far are reported with it. *)
Fixpoint stage_objects (d : Disk) (target : TargetRef) (expires_at : Z) (draw : nat) (items : list SessionFile) :
    Disk * list SessionFile * list AttachmentRecord * option UploadError :=
  match items with
  | [] => (d, [], [], None)
  | item :: rest =>
      match opaque_id draw with
      | Err e => (d, items, [], Some e)
      | Ok reference =>
          let rel_path := object_path reference (fs_media_type (f_spec item)) in
          let (d, taken) := take_file d item in
          match rename io d (f_rel_path item) rel_path with
          | None => (d, taken :: rest, [], Some (upload_error "upload_staging_failed"))
          | Some d =>
              let attachment := mkAttachment reference (fs_name (f_spec item)) (fs_media_type (f_spec item)) (fs_bytes (f_spec item))
                                  (WriteAudit.sha256_hex (f_hash item)) expires_at (join dir rel_path) in
              let '(d, rest, pending, e) := stage_objects d target expires_at (S draw) rest in
              (d, taken :: rest, mkRecord attachment target rel_path false :: pending, e)
          end
      end
  end.

Definition remove_created (pending : list AttachmentRecord) (w : World) : World :=
  set_disk (foldl (fun d r => (remove_file io d (r_rel_path r)).1) (disk w) pending) w.

Definition sync_objects_directory : result UploadError unit :=
  if io_ok io (OpenRead OBJECTS_DIR) && io_ok io (SyncAll OBJECTS_DIR) then Ok tt else Err (upload_error "upload_metadata_unavailable").

Definition insert_all (pending : list AttachmentRecord) (m : gmap string AttachmentRecord) : gmap string AttachmentRecord :=
  foldl (fun m r => <[at_reference (r_attachment r) := r]> m) m pending.
Definition delete_all (pending : list AttachmentRecord) (m : gmap string AttachmentRecord) : gmap string AttachmentRecord :=
  foldl (fun m r => delete (at_reference (r_attachment r)) m) m pending.

Definition publish (upload_id : string) (w : World) : World * result UploadError (list Attachment) :=
  let expires_at := io_clock io AtPublish + ATTACHMENT_TTL in
  let '(w, pending, failed) :=
    match sessions w !! upload_id with
    | None => (w, [], None)
    | Some session =>
        let '(d, files, pending, e) := stage_objects (disk w) (s_target session) expires_at 0 (s_files session) in
        (set_sessions (<[upload_id := set_files files session]> (sessions w)) (set_disk d w), pending, e)
    end in
  match failed with
  | Some e => (remove_created pending w, Err e)
  | None =>
      match sync_objects_directory with
      | Err e => (remove_created pending w, Err e)
      | Ok _ =>
          if decide (Exists (fun r => is_Some (attachments w !! at_reference (r_attachment r))) pending) then
            (remove_created pending w, Err (upload_error "upload_staging_failed"))
          else
            let w := set_attachments (insert_all pending (attachments w)) w in
            match persist_locked io w with
            | (w, Ok _) => (w, Ok (r_attachment <$> pending))
            | (w, Err failure) =>
                if pf_published failure then (w, Err (pf_error failure))
                else (remove_created pending (set_attachments (delete_all pending (attachments w)) w), Err (pf_error failure))
            end
      end
  end.

(** [None] is a panic. *)
Definition finish (request : FinishRequest) (w : World) : option (World * result UploadError (list Attachment)) :=
  let upload_id := fr_upload_id request in
  match lock_session w (io_clock io AtSession) upload_id (fr_target request) with
  | (w, Err e) => Some (w, Err e)
  | (w, Ok session) =>
      verdict ← verify_session (disk w) session request;
      match verdict with
      | Err e => Some (discard_locked w upload_id true, Err e)
      | Ok _ => let (w, result) := publish upload_id w in Some (discard_locked w upload_id true, result)
      end
  end.

(** *** Resolving *)

Definition attachment_target_matches (record : AttachmentRecord) (target : TargetRef) : bool :=
  if r_persisted_scope record then
    bool_decide (t_server_session_id (r_target record) = t_server_session_id target) && bool_decide (t_pane_id (r_target record) = t_pane_id target)
    && bool_decide (t_terminal_id (r_target record) = t_terminal_id target)
    && bool_decide (t_agent_session_id (r_target record) = t_agent_session_id target)
  else bool_decide (r_target record = target).

Definition resolve (target : TargetRef) (reference : string) (w : World) : World * result UploadError Attachment :=
  let w := (cleanup w).1 in
  match attachments w !! reference with
  | None => (w, Err (upload_error "attachment_not_found"))
  | Some record =>
      if negb (attachment_target_matches record target) then (w, Err (upload_error "attachment_scope_mismatch"))
      else
        let outcome :=
          size ← open_attachment io (disk w) (r_rel_path record);
          if decide (Z.of_nat size = at_bytes (r_attachment record)) then Ok tt else Err (upload_error "attachment_changed") in
        match outcome with
        | Ok _ => (w, Ok (r_attachment record))
        | Err e =>
            let w := set_attachments (delete reference (attachments w)) w in
            let w := set_disk (remove_file io (disk w) (r_rel_path record)).1 w in
            match persist_locked io w with
            | (w, Err failure) => (w, Err (pf_error failure))
            | (w, Ok _) => (w, Err e)
            end
        end
  end.

(** *** Start *)

Definition root_unavailable : UploadError := upload_error "upload_root_unavailable".
Definition root_unsafe : UploadError := upload_error "upload_root_unsafe".

(** The directory at [path] must be a directory and no link to one, and it is
    made private. *)
Definition private_directory (d : Disk) (path : string) : result UploadError unit :=
  match lstat io d path with
  | Ok (Some NDir) => if set_permissions io path then Ok tt else Err root_unavailable
  | Ok (Some _) => Err root_unsafe
  | Ok None | Err _ => Err root_unavailable
  end.

(** [create_dir_all] follows a link; a file in the way is an error. *)
Definition create_root (d : Disk) : option Disk :=
  if negb (io_ok io (Mkdir "")) then None
  else match d !! ""%string with None => Some (<[""%string := NDir]> d) | Some (NDir | NLink) => Some d | Some _ => None end.

Definition ensure_private_directory (d : Disk) (name : string) : Disk * result UploadError unit :=
  match create_dir io d name with
  | (d, Err OtherError) => (d, Err root_unavailable)
  | (d, _) => (d, private_directory d name)
  end.

Fixpoint clear_entries (d : Disk) (names : list (string * Node)) : Disk * result UploadError unit :=
  match names with
  | [] => (d, Ok tt)
  | (name, node) :: names =>
      let path := join SESSIONS_DIR name in
      if negb (io_ok io (Lstat path)) then (d, Err root_unavailable)
      else
        let (d, ok) := if decide (node = NDir) then remove_dir_all io d path else remove_file io d path in
        if ok then clear_entries d names else (d, Err root_unavailable)
  end.

Definition clear_session_disk (d : Disk) : Disk * result UploadError unit :=
  if io_ok io (ReadDir SESSIONS_DIR) then clear_entries d (entries d SESSIONS_DIR) else (d, Err root_unavailable).

Definition initialize_dirs (d : Disk) : Disk * result UploadError unit :=
  match create_root d with
  | None => (d, Err root_unavailable)
  | Some d =>
      match private_directory d "" with
      | Err e => (d, Err e)
      | Ok _ =>
          match ensure_private_directory d SESSIONS_DIR with
          | (d, Err e) => (d, Err e)
          | (d, Ok _) =>
              match ensure_private_directory d OBJECTS_DIR with
              | (d, Err e) => (d, Err e)
              | (d, Ok _) => clear_session_disk d
              end
          end
      end
  end.

(** The attachments of the previous run, or none and the index put aside. *)
Definition restore `{DocumentJson} (w : World) : World * result UploadError unit :=
  match load_attachments dir io w with
  | (w, Ok _) => (w, Ok tt)
  | (w, Err _) => let (d, r) := quarantine_index io (disk (set_attachments ∅ w)) in (set_disk d (set_attachments ∅ w), r)
  end.

Definition initialize `{DocumentJson} (w : World) : World * result UploadError unit :=
  let (d, dirs) := initialize_dirs (disk w) in
  let w := set_disk d w in
  match dirs with
  | Err e => (w, Err e)
  | Ok _ =>
      match restore w with
      | (w, Err e) => (w, Err e)
      | (w, Ok _) =>
          let w := (cleanup w).1 in
          let (w, persisted) := persist_locked io w in
          (w, map_err pf_error persisted)
      end
  end.

(** A new manager on [d] and whether it is available. *)
Definition build `{DocumentJson} (d : Disk) : World * bool :=
  let (w, r) := initialize (mkWorld ∅ ∅ ∅ d 0) in (w, is_ok r).

End Manager.

End Uploads.
