(* ===== verification/UploadsInvariant.v ===== *)
(** * A small upload

    One text file in two chunks, with concrete stand-ins for the libraries: the
    inputs at which the theorems on [Uploads] are evaluated. *)

From S2P Require Import Prelude Utf8 Json Inbound Protocol WriteAudit E2eeCodec GoJson UploadSpec UploadFile UploadDisk UploadIndex Uploads.

Module UploadsDemo.
Import Utf8 Inbound E2eeInstances UploadSpec UploadFile UploadDisk UploadState UploadIndex Uploads.

(** ASCII lower-casing; a digest of 64 digits. *)
Definition lower_byte (c : Z) : Z := if in_range 65 90 c then c + 32 else c.
#[export] Instance ascii_lower : Protocol.CaseMapping := {| Protocol.to_lowercase s := string_of_bytes (lower_byte <$> as_bytes s) |}.
#[export] Instance length_digest : WriteAudit.Digest := {| WriteAudit.sha256_hex b := string_of_bytes (replicate 64 (48 + Z.of_nat (length b) mod 10)) |}.
#[export] Instance no_floats : GoJson.FloatText := {| GoJson.float_text _ := [48] |}.

(** Every call succeeds; two draws are available. *)
Definition draw (first n : nat) : option bytes := if (n <? 2)%nat then Some (replicate 24 (Z.of_nat (first + n))) else None.
Definition calm (first : nat) (now : Z) : Io := mkIo (fun _ => true) (fun _ => now) (draw first) (fun _ => now) (fun _ => true) (fun _ => true).

Definition json_any (b : bytes) : bool := true.
Definition demo_dir : string := "/run/lerdr/uploads".
Definition demo_target : TargetRef := mkTarget "primary" "w1:p1" "t1" 1 "agent" "" "".
Definition demo_data : bytes := as_bytes "hello".
Definition empty_world : World := mkWorld ∅ ∅ ∅ {[ ""%string := NDir; SESSIONS_DIR := NDir; OBJECTS_DIR := NDir ]} 0.

Definition demo_begin : BeginRequest := mkBegin demo_target [mkSpec "a.txt" "Text/Plain; charset=utf-8" 5].
Definition begun : World := (begin (calm 0 1000) "connection:1" demo_begin empty_world).1.
Definition demo_id : string := E2eeCodec.b64_encode (replicate 24 0).

Definition demo_chunk (sequence : Z) (data : bytes) : ChunkRequest := mkChunk demo_target demo_id 0 sequence data (WriteAudit.sha256_hex data).
Definition half : World := (chunk (calm 0 1001) (demo_chunk 0 (take 2 demo_data)) begun).1.
Definition uploaded : World := (chunk (calm 0 1002) (demo_chunk 1 (drop 2 demo_data)) half).1.

Definition demo_finish : FinishRequest := mkFinish demo_target demo_id [mkDigest 0 (WriteAudit.sha256_hex demo_data)].
Definition finished : option (World * result UploadError (list Attachment)) := finish demo_dir json_any (calm 10 1003) demo_finish uploaded.

Definition demo_session : Session := default (mkSession demo_target "" 0 [] 0 0) (sessions uploaded !! demo_id).
Definition demo_world : World := from_option fst empty_world finished.
Definition demo_attachments : list Attachment := match finished with Some (_, Ok atts) => atts | _ => [] end.
Definition demo_ref : string := E2eeCodec.b64_encode (replicate 24 10).

(** The reader of the index this upload leaves. *)
#[export] Instance demo_reader : DocumentJson := {|
  from_slice b := if decide (b = index_text (attachments demo_world)) then Some (index_json (index_of (attachments demo_world))) else None
|}.

Example demo_answers :
  (begin (calm 0 1000) "connection:1" demo_begin empty_world).2 =
    Ok (mkBeginResult demo_id CHUNK_BYTES (1000 + SESSION_TTL) 8 MAX_FILE_BYTES MAX_BATCH_BYTES) /\
  (chunk (calm 0 1001) (demo_chunk 0 (take 2 demo_data)) begun).2 = Ok (mkChunkResult 0 1 2) /\
  (chunk (calm 0 1002) (demo_chunk 1 (drop 2 demo_data)) half).2 = Ok (mkChunkResult 0 2 5) /\
  demo_attachments = [mkAttachment demo_ref "a.txt" "text/plain" 5 (WriteAudit.sha256_hex demo_data) (1003 + ATTACHMENT_TTL)
    (join demo_dir (object_path demo_ref "text/plain"))] /\
  disk demo_world !! object_path demo_ref "text/plain" = Some (NFile demo_data).
Proof. split_and!; vm_compute; reflexivity. Qed.

End UploadsDemo.

(** * What the attachment manager keeps true

    The invariant of [Uploads]: the limits on sessions and batches, and that a
    staged file is what its counters, its running digest and its sniff buffers
    say it is.  Every operation keeps it, for every outcome of every call. *)

From S2P Require Import Prelude Utf8 Json Inbound Protocol WriteAudit E2eeCodec GoJson UploadSpec UploadFile UploadDisk UploadIndex Uploads.

Module UploadsInvariant.
Import Utf8 Inbound UploadSpec UploadFile UploadDisk UploadState UploadIndex Uploads.

(** ** The invariant *)

Section Invariant.
Context `{CM : Protocol.CaseMapping}.

(** A staged file after the bytes [all]. *)
Record file_ok (path : string) (all : bytes) (item : SessionFile) : Prop := {
  fo_path : f_rel_path item = path;
  fo_file : f_file item = Some all;
  fo_hash : f_hash item = all;
  fo_received : f_received item = Z.of_nat (length all);
  fo_sniffed : sniffed (f_spec item) all item;
  fo_u8 : Forall is_u8 all;
  fo_spec : exists declared, normalize_spec declared = Ok (f_spec item);
}.

(** Files before [current] are complete, later ones untouched. *)
Definition filled (index current : nat) (item : SessionFile) : Prop :=
  ((index < current)%nat -> f_received item = fs_bytes (f_spec item)) /\ (index = current -> f_received item < fs_bytes (f_spec item)) /\
  ((current < index)%nat -> f_received item = 0).

Definition total_bytes (files : list SessionFile) : Z := foldr Z.add 0 ((fun item => fs_bytes (f_spec item)) <$> files).

Record session_ok (upload_id : string) (s : Session) : Prop := {
  so_count : (length (s_files s) <= MAX_FILES)%nat;
  so_total : total_bytes (s_files s) <= MAX_BATCH_BYTES;
  so_current : (s_current s <= length (s_files s))%nat;
  so_target : valid_target (s_target s) = true;
  so_file i item : s_files s !! i = Some item -> exists all, file_ok (part_path upload_id i) all item;
  so_filled i item : s_files s !! i = Some item -> filled i (s_current s) item;
}.

Record world_ok (w : World) : Prop := {
  wo_sessions : (size (sessions w) <= MAX_SESSIONS)%nat;
  wo_owner owner : (owner_sessions w owner <= MAX_SESSIONS_PER_OWNER)%nat;
  wo_session id s : sessions w !! id = Some s -> session_ok id s;
}.

Lemma fo_size path all item : file_ok path all item -> 1 <= fs_bytes (f_spec item) <= MAX_FILE_BYTES.
Proof. intros [? ? ? ? ? ? [declared Hd]]. by destruct (normalize_spec_ok _ _ Hd) as (_ & _ & _ & _ & ? & _). Qed.

(** ** Sessions only *)

(** [world_ok] looks at the sessions; removing or updating them keeps it. *)
Lemma world_ok_same w w' : sessions w' = sessions w -> world_ok w -> world_ok w'.
Proof. intros E [H1 H2 H3]. split; unfold owner_sessions in *; rewrite E; done. Qed.

Lemma owner_sessions_le w w' owner : sessions w' ⊆ sessions w -> (owner_sessions w' owner <= owner_sessions w owner)%nat.
Proof. intros Hsub. apply map_subseteq_size. by apply map_filter_subseteq_mono. Qed.

Lemma world_ok_subset w w' : sessions w' ⊆ sessions w -> world_ok w -> world_ok w'.
Proof.
  intros Hsub [H1 H2 H3]. split.
  - etrans; [apply map_subseteq_size, Hsub|done].
  - intros owner. etrans; [by apply owner_sessions_le|done].
  - intros id s Hs. eapply H3, lookup_weaken; eauto.
Qed.

Lemma no_sessions_ok w : sessions w = ∅ -> world_ok w.
Proof.
  intros E. split; unfold owner_sessions; rewrite ?E.
  - rewrite map_size_empty. unfold MAX_SESSIONS. lia.
  - intros owner. rewrite map_filter_empty, map_size_empty. unfold MAX_SESSIONS_PER_OWNER. lia.
  - done.
Qed.

(** An update of a session by one of the same owner. *)
Lemma world_ok_update w id s s' : world_ok w -> sessions w !! id = Some s -> s_owner s' = s_owner s -> session_ok id s' ->
  world_ok (set_sessions (<[id := s']> (sessions w)) w).
Proof.
  intros [H1 H2 H3] Hs Ho Hok. split; cbn.
  - rewrite map_size_insert, Hs. done.
  - intros owner. specialize (H2 owner). unfold owner_sessions in *. cbn. destruct (decide (s_owner s' = owner)) as [E|E].
    + rewrite map_filter_insert_True by done. rewrite map_size_insert. assert (Hin : filter (fun e => s_owner e.2 = owner) (sessions w) !! id = Some s).
      { apply map_lookup_filter_Some. split; [done|]. cbn. congruence. }
      by rewrite Hin.
    + rewrite map_filter_insert_False by done. rewrite map_filter_delete. etrans; [|exact H2]. apply map_subseteq_size, delete_subseteq.
  - intros id' t. rewrite lookup_insert_Some. intros [[<- <-]|[_ Ht]]; [done|by apply H3].
Qed.

End Invariant.

Section Keep.
Context `{CM : Protocol.CaseMapping} `{DG : WriteAudit.Digest} `{B64 : E2eeCodec.Base64} `{FT : GoJson.FloatText}.
Context (io : Io).

Lemma persist_keeps w : sessions (persist_locked io w).1 = sessions w /\ tombstones (persist_locked io w).1 = tombstones w /\
  attachments (persist_locked io w).1 = attachments w.
Proof.
  unfold persist_locked. generalize (index_text (attachments w)) as data. cbv zeta. cbn [temp_seq].
  generalize (".attachments-" +:+ lower_hex (io_clock io AtStamp) +:+ "-" +:+ lower_hex (temp_seq w) +:+ ".tmp") as temp. intros temp data.
  cbn [disk]. destruct (create_new io (disk w) temp) as [d|]; [|exact (conj eq_refl (conj eq_refl eq_refl))].
  repeat (match goal with |- context [match ?x with _ => _ end] => destruct x end; cbn [fst set_disk sessions tombstones attachments]; try exact (conj eq_refl (conj eq_refl eq_refl))).
Qed.

Lemma discard_sessions w id b : sessions (discard_locked io w id b) = delete id (sessions w).
Proof.
  unfold discard_locked. destruct (sessions w !! id) as [s|] eqn:E; [|by rewrite delete_id].
  destruct b; done.
Qed.

Lemma discard_tombstone w id s : sessions w !! id = Some s ->
  tombstones (discard_locked io w id true) = <[id := mkTombstone (s_target s) (s_expires_at s)]> (tombstones w).
Proof. intros E. unfold discard_locked. by rewrite E. Qed.

Lemma discard_attachments w id b : attachments (discard_locked io w id b) = attachments w.
Proof. unfold discard_locked. destruct (sessions w !! id); [|done]. by destruct b. Qed.

Lemma lock_session_spec w now id target w' r : lock_session io w now id target = (w', r) ->
  sessions w' ⊆ sessions w /\ attachments w' = attachments w /\
  match r with
  | Ok s => w' = w /\ sessions w !! id = Some s /\ s_target s = target /\ now < s_expires_at s
  | Err _ => forall id', id' <> id -> sessions w' !! id' = sessions w !! id'
  end.
Proof.
  unfold lock_session. destruct (sessions w !! id) as [s|] eqn:E; [|by intros [= <- <-]]. case_decide as Hx.
  - intros [= <- <-]. cbn. split; [apply delete_subseteq|]. split; [done|]. intros id' Hne. by rewrite lookup_delete_ne.
  - case_decide as Ht; intros [= <- <-]; [done|]. split; [done|]. split; [done|]. split; [done|]. split; [done|]. split; [|lia].
    by destruct (decide (s_target s = target)).
Qed.

(** ** A chunk *)

Lemma capture_fields item data : f_spec (capture item data) = f_spec item /\ f_rel_path (capture item data) = f_rel_path item /\
  f_file (capture item data) = f_file item /\ f_received (capture item data) = f_received item /\ f_hash (capture item data) = f_hash item.
Proof. unfold capture, capture_utf8. by case_match. Qed.

Lemma append_fields item file data : f_spec (append item file data) = f_spec item /\ f_received (append item file data) = f_received item + Z.of_nat (length data).
Proof. unfold append. set (mid := mkFile _ _ _ _ _ _ _ _ _ _). destruct (capture_fields mid data) as (-> & _ & _ & -> & _). done. Qed.

Lemma append_ok path all item data : file_ok path all item -> Forall is_u8 data -> file_ok path (all ++ data) (append item all data) /\
  f_spec (append item all data) = f_spec item /\ f_received (append item all data) = f_received item + Z.of_nat (length data).
Proof.
  intros [Hp Hf Hh Hr Hs Hu Hz] Hd. unfold append. set (mid := mkFile _ _ _ _ _ _ _ _ _ _). destruct (capture_fields mid data) as (Es & Ep & Ef & Er & Eh).
  split; [|by rewrite Es, Er]. split.
  - by rewrite Ep.
  - by rewrite Ef.
  - rewrite Eh. cbn. by rewrite Hh.
  - rewrite Er. cbn. rewrite Hr, length_app. lia.
  - rewrite Es. cbn. apply capture_sniffed. destruct Hs as [H1 H2 H3 H4 H5]. by split.
  - by apply Forall_app.
  - by rewrite Es.
Qed.

Lemma total_bytes_insert files i item item' : files !! i = Some item -> f_spec item' = f_spec item -> total_bytes (<[i := item']> files) = total_bytes files.
Proof. intros Hi Hs. unfold total_bytes. rewrite list_fmap_insert. f_equal. apply list_insert_id. by rewrite list_lookup_fmap, Hi, Hs. Qed.

(** What an accepted chunk does to the session. *)
Record chunk_step (id : string) (s : Session) (request : ChunkRequest) (s' : Session) (res : ChunkResult) : Prop := {
  ck_order : c_file_index request = Z.of_nat (s_current s) /\ c_sequence request = s_sequence s;
  ck_size : 0 < Z.of_nat (length (c_data request)) <= CHUNK_BYTES;
  ck_digest : WriteAudit.sha256_hex (c_data request) = Protocol.to_lowercase (c_sha256 request);
  ck_item : exists item file, s_files s !! s_current s = Some item /\ f_file item = Some file /\
    f_received item + Z.of_nat (length (c_data request)) <= fs_bytes (f_spec item) /\
    s_files s' = <[s_current s := append item file (c_data request)]> (s_files s) /\
    s_current s' = (if decide (f_received item + Z.of_nat (length (c_data request)) = fs_bytes (f_spec item)) then S (s_current s) else s_current s) /\
    cr_received_bytes res = f_received item + Z.of_nat (length (c_data request));
  ck_rest : s_target s' = s_target s /\ s_owner s' = s_owner s /\ s_expires_at s' = s_expires_at s /\ s_sequence s' = s_sequence s + 1 /\
    cr_next_sequence res = s_sequence s + 1 /\ cr_file_index res = c_file_index request;
}.

Lemma chunk_locked_ok id s request s' res : chunk_locked io s request = (s', Ok res) -> chunk_step id s request s' res.
Proof.
  unfold chunk_locked. destruct (s_files s !! s_current s) as [item|] eqn:Ei; [|done]. case_decide as H1; [done|]. case_decide as H2; [done|].
  destruct (negb (valid_digest _) || negb (digest_matches _ _)) eqn:H3; [done|]. case_decide as H4; [done|].
  destruct (f_file item) as [file|] eqn:Ef; [|done]. destruct (negb (io_ok io _)); [done|]. intros [= <- <-].
  apply orb_false_elim in H3 as [_ H3]. apply negb_false_iff, digest_matches_spec in H3.
  destruct (append_fields item file (c_data request)) as [Hsp Hre].
  split; cbn [s_files s_current s_target s_owner s_expires_at s_sequence cr_file_index cr_next_sequence cr_received_bytes].
  - destruct (decide (c_file_index request = Z.of_nat (s_current s))), (decide (c_sequence request = s_sequence s)); tauto.
  - destruct (c_data request); [naive_solver|]. cbn [length] in *. split; [lia|]. destruct (decide (CHUNK_BYTES < Z.of_nat (S (length l)))); [naive_solver|lia].
  - done.
  - exists item, file. rewrite Hre, Hsp. split_and!; [done..|lia|done|done|done].
  - done.
Qed.

Lemma chunk_locked_err s request s' e : chunk_locked io s request = (s', Err e) -> s' = s.
Proof. unfold chunk_locked. repeat case_match; by intros [= <- <-]. Qed.

Lemma chunk_step_ok id s request s' res : session_ok id s -> Forall is_u8 (c_data request) -> chunk_step id s request s' res -> session_ok id s'.
Proof.
  intros [H1 H2 H3 Ht Hfile Hfilled] Hu [Hord Hsz Hdg (item & file & Hi & Hf & Hle & Ef & Ec & _) (Et & _)].
  destruct (Hfile _ _ Hi) as [all Hok]. assert (file = all) as -> by (destruct Hok; congruence).
  destruct (append_ok _ _ _ _ Hok Hu) as (Hok' & Hsp & Hre). pose proof (lookup_lt_Some _ _ _ Hi) as Hlt. split.
  - by rewrite Ef, length_insert.
  - rewrite Ef. by erewrite total_bytes_insert.
  - rewrite Ef, length_insert, Ec. case_decide; lia.
  - by rewrite Et.
  - intros i it. rewrite Ef. intros [(<- & <- & _)|[Hne Hit]]%list_lookup_insert_Some; [eauto|by apply Hfile].
  - intros i it. rewrite Ef, Ec. intros [(<- & <- & _)|[Hne Hit]]%list_lookup_insert_Some.
    + unfold filled. rewrite Hsp, Hre. case_decide; lia.
    + destruct (Hfilled _ _ Hit) as (Ha & Hb & Hc). destruct (Hfilled _ _ Hi) as (_ & Hb' & _). unfold filled. case_decide as Hfull; [|done].
      split_and!; [intros; apply Ha; lia| |intros; apply Hc; lia]. intros ->.
      rewrite (Hc ltac:(lia)). destruct (Hfile _ _ Hit) as [? Hz%fo_size]. lia.
Qed.

(** ** Cleanup *)

Lemma foldl_delete {A} (l : list (string * A)) (m : gmap string A) k :
  foldl (fun m e => delete e.1 m) m l !! k = if decide (k ∈ l.*1) then None else m !! k.
Proof.
  revert m. induction l as [|[k' a] l IH]; intros m; [by rewrite decide_False by (cbn; set_solver)|]. cbn [foldl]. rewrite IH. cbn [fst fmap list_fmap].
  destruct (decide (k = k')) as [->|Hne].
  - rewrite (decide_True (P := k' ∈ k' :: _)) by (apply elem_of_cons; by left). case_decide; [done|]. apply lookup_delete_eq.
  - rewrite lookup_delete_ne by done. repeat case_decide; try done; exfalso; set_solver.
Qed.

Lemma delete_expired {A} (P : string * A -> Prop) `{!forall e, Decision (P e)} (m : gmap string A) :
  foldl (fun m e => delete e.1 m) m (filter P (map_to_list m)) = filter (fun e => ~ P e) m.
Proof.
  apply map_eq. intros k. rewrite foldl_delete, map_lookup_filter. case_decide as Hk.
  - apply list_elem_of_fmap in Hk as ([k' a] & -> & Ha). apply list_elem_of_filter in Ha as [HP Ha]. apply elem_of_map_to_list in Ha. cbn. rewrite Ha. cbn.
    by rewrite option_guard_False by tauto.
  - destruct (m !! k) as [a|] eqn:E; [|done]. cbn. rewrite option_guard_True; [done|]. intros HP. apply Hk. apply list_elem_of_fmap. exists (k, a).
    split; [done|]. apply list_elem_of_filter. split; [done|]. by apply elem_of_map_to_list.
Qed.

Lemma expire_sessions_all w l : let w' := foldl (expire_session io) w l in
  sessions w' = foldl (fun m e => delete e.1 m) (sessions w) l /\ attachments w' = attachments w /\ tombstones w' = tombstones w.
Proof. revert w. induction l as [|e l IH]; intros w; [done|]. cbn [foldl]. destruct (IH (expire_session io w e)) as (E1 & E2 & E3). by rewrite E1, E2, E3. Qed.

Lemma expire_attachments_all w l : let w' := foldl (expire_attachment io) w l in
  attachments w' = foldl (fun m e => delete e.1 m) (attachments w) l /\ sessions w' = sessions w /\ tombstones w' = tombstones w.
Proof. revert w. induction l as [|e l IH]; intros w; [done|]. cbn [foldl]. destruct (IH (expire_attachment io w e)) as (E1 & E2 & E3). by rewrite E1, E2, E3. Qed.

(** The sweep forgets exactly what has expired. *)
Lemma cleanup_maps w : let now := io_clock io AtCleanup in let w' := (cleanup io w).1 in
  sessions w' = filter (fun e => ~ s_expires_at e.2 <= now) (sessions w) /\
  tombstones w' = filter (fun e => now < ts_expires_at e.2) (tombstones w) /\
  attachments w' = filter (fun e => ~ at_expires_at (r_attachment e.2) <= now) (attachments w).
Proof.
  cbv zeta. unfold cleanup. cbv zeta.
  set (xs := filter _ (map_to_list (sessions w))). set (xa := filter _ (map_to_list (attachments w))).
  destruct (expire_sessions_all w xs) as (S1 & A1 & T1). set (w1 := foldl (expire_session io) w xs) in *. set (w2 := set_tombstones _ w1).
  destruct (expire_attachments_all w2 xa) as (A2 & S2 & T2). set (w3 := foldl (expire_attachment io) w2 xa) in *.
  assert (Hd : sessions (cleanup_disk io w3 (io_clock io AtCleanup)).1 = sessions w3 /\ tombstones (cleanup_disk io w3 (io_clock io AtCleanup)).1 = tombstones w3 /\
    attachments (cleanup_disk io w3 (io_clock io AtCleanup)).1 = attachments w3) by exact (conj eq_refl (conj eq_refl eq_refl)).
  destruct (cleanup_disk io w3 _) as [w4 swept]. cbn [fst] in *. destruct Hd as (S4 & T4 & A4).
  assert (Hp : forall w5, w5 = (if decide (xa = []) then w4 else (persist_locked io w4).1) ->
    sessions w5 = sessions w4 /\ tombstones w5 = tombstones w4 /\ attachments w5 = attachments w4).
  { intros w5 ->. case_decide; [done|]. apply persist_keeps. }
  destruct (Hp _ eq_refl) as (-> & -> & ->). rewrite S4, T4, A4, S2, T2, A2. unfold w2, set_tombstones. cbn [sessions tombstones attachments].
  rewrite S1, A1, T1. unfold xs, xa. by rewrite !delete_expired.
Qed.

Lemma cleanup_ok w : world_ok w -> world_ok (cleanup io w).1.
Proof. intros Hw. destruct (cleanup_maps w) as (E & _). eapply world_ok_subset; [|done]. rewrite E. apply map_filter_subseteq. Qed.

(** ** Begin *)

Lemma accept_files_ok specs total files : accept_files total specs = Ok files ->
  length files = length specs /\ total + total_bytes files <= Z.max total MAX_BATCH_BYTES /\
  Forall (fun item => exists spec, item = new spec /\ exists declared, normalize_spec declared = Ok spec) files.
Proof.
  revert total files. induction specs as [|spec specs IH]; intros total files; cbn [accept_files].
  { intros [= <-]. split; [done|]. unfold total_bytes. cbn. split; [lia|constructor]. }
  destruct (normalize_spec spec) as [n|e] eqn:En; cbn [mbind result_bind]; [|done]. case_decide as Hb; [done|].
  destruct (accept_files _ specs) as [fs|e] eqn:Ef; cbn [mbind result_bind]; [|done]. intros [= <-]. destruct (IH _ _ Ef) as (Hl & Ht & Hall).
  destruct (normalize_spec_ok _ _ En) as (_ & _ & _ & _ & Hz & _). split; [cbn; lia|]. split.
  - unfold total_bytes in *. cbn [fmap list_fmap foldr new f_spec]. lia.
  - constructor; [exists n; split; [done|by exists spec]|done].
Qed.

Lemma stage_files_ok d id index files d' files' : stage_files io d id index files = (d', files', true) ->
  length files' = length files /\ forall i item, files' !! i = Some item -> exists old, files !! i = Some old /\
    item = mkFile (f_spec old) (part_path id (index + i)) (Some []) (f_received old) (f_hash old) (f_prefix old) (f_suffix old) (f_utf8_tail old)
             (f_invalid_utf old) (f_has_nul old).
Proof.
  revert d index d' files'. induction files as [|old files IH]; intros d index d' files'; cbn [stage_files].
  { intros [= <- <-]. done. }
  destruct (create_new io d (part_path id index)) as [d1|]; [|done]. destruct (stage_files io d1 id (S index) files) as [[d2 rest] ok] eqn:E. intros [= <- <- ->].
  destruct (IH _ _ _ _ E) as [Hl Hi]. split; [cbn; lia|]. intros [|i] item; cbn.
  - intros [= <-]. exists old. by rewrite Nat.add_0_r.
  - intros Hit. destruct (Hi _ _ Hit) as (o & Ho & ->). exists o. by rewrite Nat.add_succ_r.
Qed.

Lemma total_bytes_same files files' : length files' = length files ->
  (forall i item, files' !! i = Some item -> exists old, files !! i = Some old /\ f_spec item = f_spec old) -> total_bytes files' = total_bytes files.
Proof.
  intros Hl Hi. unfold total_bytes. f_equal. apply list_eq_same_length with (length files); [by rewrite length_fmap..|by rewrite length_fmap|].
  intros i x y _. rewrite !list_lookup_fmap. destruct (files' !! i) as [item|] eqn:E; [|done]. destruct (Hi _ _ E) as (old & -> & Hs). cbn. congruence.
Qed.

Lemma begin_session_ok id target owner expires specs files d d' s : valid_target target = true -> (length specs <= MAX_FILES)%nat ->
  accept_files 0 specs = Ok files -> stage_session io d id (mkSession target owner expires files 0 0) = (d', s, true) -> session_ok id s /\ s_owner s = owner.
Proof.
  intros Ht Hn Ha. unfold stage_session. destruct (create_dir io d (session_dir id)) as [d1 [?|?]]; [|done]. destruct (negb _); [done|]. cbn [s_files].
  destruct (stage_files io d1 id 0 files) as [[d2 fs] ok] eqn:E. intros [= <- <- ->]. destruct (accept_files_ok _ _ _ Ha) as (Hl & Hb & Hall).
  destruct (stage_files_ok _ _ _ _ _ _ E) as [Hl' Hi]. split; [|done].
  assert (Hnew : forall i item, fs !! i = Some item -> exists spec, files !! i = Some (new spec) /\ (exists declared, normalize_spec declared = Ok spec) /\
    item = mkFile spec (part_path id i) (Some []) 0 [] [] [] [] false false).
  { intros i item Hit. destruct (Hi _ _ Hit) as (old & Hold & ->). rewrite Forall_lookup in Hall. destruct (Hall _ _ Hold) as (spec & -> & Hz). by exists spec. }
  split; cbn [set_files s_files s_current s_target].
  - lia.
  - rewrite (total_bytes_same files fs); [unfold MAX_BATCH_BYTES in *; lia|done|]. intros i item Hit. destruct (Hnew _ _ Hit) as (spec & Hs & _ & ->). by exists (new spec).
  - lia.
  - done.
  - intros i item Hit. destruct (Hnew _ _ Hit) as (spec & Hs & Hz & ->). exists []. split; cbn; [done..| |constructor|done].
    destruct (new_sniffed spec) as [N1 N2 N3 N4 N5]. by split.
  - intros i item Hit. destruct (Hnew _ _ Hit) as (spec & Hs & [declared Hz] & ->). apply normalize_spec_ok in Hz as (_ & _ & _ & _ & Hz & _). unfold filled. cbn. lia.
Qed.

Lemma begin_keeps owner request w : world_ok w -> world_ok (begin io owner request w).1.
Proof.
  intros Hw. apply cleanup_ok in Hw. unfold begin. set (w1 := (cleanup io w).1) in *. clearbody w1. clear w. rename w1 into w. cbv zeta.
  destruct (negb (valid_target (b_target request))) eqn:Ht; [done|]. apply negb_false_iff in Ht. case_decide as Hn; [done|].
  destruct (accept_files 0 (b_files request)) as [files|e] eqn:Ea; [|done]. destruct (opaque_id io 0) as [id|e]; [|done].
  case_decide as Hs; [done|]. case_decide as Ho; [done|]. case_decide as Hfree; [done|]. cbn [s_owner] in Ho.
  destruct (stage_session io (disk w) id _) as [[d s] [|]] eqn:Es; [|by apply (world_ok_same w)].
  assert (Hlen : (length (b_files request) <= MAX_FILES)%nat) by (apply Nat.nlt_ge; tauto).
  destruct (begin_session_ok _ _ _ _ _ _ _ _ _ Ht Hlen Ea Es) as [Hok Hown]. apply eq_None_not_Some in Hfree. destruct Hw as [H1 H2 H3].
  split; cbn [fst set_sessions set_disk sessions].
  - rewrite map_size_insert_None by done. lia.
  - intros owner'. unfold owner_sessions in *. cbn [fst set_sessions set_disk sessions].
    destruct (decide (s_owner s = owner')) as [E|E].
    + rewrite map_filter_insert_True by done. rewrite map_size_insert_None by (by apply map_lookup_filter_None; left). rewrite Hown in E. subst owner'. lia.
    + rewrite map_filter_insert_False by done. rewrite delete_id by done. apply H2.
  - intros id' t. rewrite lookup_insert_Some. intros [[<- <-]|[_ Hl]]; [done|by apply H3].
Qed.

(** ** The other operations *)

Lemma chunk_in_keeps w id s request : world_ok w -> sessions w !! id = Some s -> Forall is_u8 (c_data request) -> world_ok (chunk_in io w id s request).1.
Proof.
  intros Hw Hs Hu. unfold chunk_in. destruct (chunk_locked io s request) as [s' [res|e]] eqn:E; cbn [is_ok fst].
  - pose proof (chunk_locked_ok id _ _ _ _ E) as Hstep. eapply world_ok_update; [done|done| |]; [by destruct Hstep as [_ _ _ _ (_ & ? & _)]|].
    eapply chunk_step_ok; [by apply (wo_session w Hw)|done|exact Hstep].
  - apply chunk_locked_err in E as ->. eapply world_ok_subset; [|done]. rewrite discard_sessions. cbn. rewrite delete_insert_eq. apply delete_subseteq.
Qed.

Lemma chunk_keeps request w : world_ok w -> Forall is_u8 (c_data request) -> world_ok (chunk io request w).1.
Proof.
  intros Hw Hu. unfold chunk. destruct (lock_session io w _ _ _) as [w' [s|e]] eqn:E; destruct (lock_session_spec _ _ _ _ _ _ E) as (Hsub & _ & Hr).
  - destruct Hr as (-> & Hs & _). by apply chunk_in_keeps.
  - by eapply world_ok_subset.
Qed.

Lemma chunk_binary_keeps id sequence data w : world_ok w -> Forall is_u8 data -> world_ok (chunk_binary io id sequence data w).1.
Proof.
  intros Hw Hu. unfold chunk_binary. destruct (sessions w !! id) as [s|] eqn:Es; [|done].
  destruct (lock_session io w _ _ _) as [w' [s'|e]] eqn:E; destruct (lock_session_spec _ _ _ _ _ _ E) as (Hsub & _ & Hr).
  - destruct Hr as (-> & Hs & _). by apply chunk_in_keeps.
  - by eapply world_ok_subset.
Qed.

Lemma staged_target_keeps id w : world_ok w -> world_ok (staged_target io id w).1.
Proof. intros Hw. unfold staged_target. destruct (sessions w !! id); [|done]. case_decide; [|done]. eapply world_ok_subset; [|done]. apply delete_subseteq. Qed.

Lemma cancel_keeps target id w : world_ok w -> world_ok (cancel io target id w).1.
Proof.
  intros Hw. unfold cancel. destruct (sessions w !! id) as [s|].
  - case_decide; [done|]. eapply world_ok_subset; [|done]. cbn [fst]. rewrite discard_sessions. apply delete_subseteq.
  - apply (world_ok_same w); [|done]. repeat case_match; done.
Qed.

Lemma resolve_keeps target reference w : world_ok w -> world_ok (resolve io target reference w).1.
Proof.
  intros Hw. apply cleanup_ok in Hw. unfold resolve. set (w1 := (cleanup io w).1) in *. clearbody w1. cbv zeta.
  destruct (attachments w1 !! reference) as [r|]; [|done]. destruct (negb _); [done|]. case_match; [done|].
  set (w2 := set_disk _ _). pose proof (persist_keeps w2) as (Es & _). destruct (persist_locked io w2) as [w3 [|]]; cbn [fst] in *; by apply (world_ok_same w1).
Qed.

End Keep.

(** ** The demo upload *)

Import E2eeInstances UploadsDemo.

Lemma uploaded_ok : world_ok uploaded.
Proof.
  apply chunk_keeps; [|apply (bool_decide_eq_true_1 _); vm_compute; reflexivity]. apply chunk_keeps; [|apply (bool_decide_eq_true_1 _); vm_compute; reflexivity].
  apply begin_keeps, no_sessions_ok. reflexivity.
Qed.

End UploadsInvariant.
