(* ===== verification/UploadsFinish.v ===== *)
(** * Publishing an upload

    What [finish] of [lerdr-coord/src/actions/uploads.rs] leaves behind when it
    succeeds: each staged file, byte for byte, under a fresh object name, with
    the size that was declared and the digest that was claimed. *)

From S2P Require Import Prelude Utf8 Json Inbound Protocol WriteAudit E2eeCodec GoJson UploadSpec UploadFile UploadDisk UploadIndex Uploads UploadsInvariant.

Module UploadsFinish.
Import Utf8 Inbound UploadSpec UploadFile UploadDisk UploadState UploadIndex Uploads UploadsInvariant.

(** ** Paths do not collide *)

Definition o_char : Ascii.ascii := byte_ascii 111.
Definition s_char : Ascii.ascii := byte_ascii 115.
Definition dot_char : Ascii.ascii := byte_ascii 46.

Lemma object_path_head reference m : exists s, object_path reference m = String o_char s.
Proof. by eexists. Qed.

Lemma part_path_head id i : exists s, part_path id i = String s_char s.
Proof. by eexists. Qed.

Lemma object_not_part reference m id i : object_path reference m <> part_path id i.
Proof. destruct (object_path_head reference m) as [s ->], (part_path_head id i) as [t ->]. intros [=]. Qed.

Lemma join_inj dir a b : join dir a = join dir b -> a = b.
Proof. unfold join. intros E. by apply string_app_inj_l in E as E%string_app_inj_l. Qed.

(** References are URL-safe, extensions start with a dot. *)
Lemma extension_dot m : exists s, canonical_extension m = String dot_char s.
Proof.
  unfold canonical_extension. destruct (list_find _ extension_table) as [[i e]|] eqn:E; [|by eexists]. apply list_find_Some in E as (Hi & _ & _).
  assert (Hin : e ∈ extension_table) by (by eapply list_elem_of_lookup_2). clear Hi i.
  unfold extension_table in Hin. repeat (apply elem_of_cons in Hin as [->|Hin]; [by eexists|]). by apply not_elem_of_nil in Hin.
Qed.

Lemma dot_split (a b : string) s t : 46 ∉ as_bytes a -> 46 ∉ as_bytes b -> a +:+ String dot_char s = b +:+ String dot_char t -> a = b.
Proof.
  revert b. induction a as [|c a IH]; intros [|e b] Ha Hb; rewrite ?string_app_cons.
  - done.
  - intros [= <- _]. exfalso. apply Hb. left.
  - intros [= -> _]. exfalso. apply Ha. left.
  - intros [= <- E]. f_equal. apply IH; [set_solver..|done].
Qed.

Lemma object_path_inj a b m n : 46 ∉ as_bytes a -> 46 ∉ as_bytes b -> object_path a m = object_path b n -> a = b.
Proof.
  intros Ha Hb E. apply join_inj in E. destruct (extension_dot m) as [s Es], (extension_dot n) as [t Et]. rewrite Es, Et in E. by eapply dot_split.
Qed.

Lemma url_safe_dot b : Forall E2eeCodec.url_safe b -> 46 ∉ b.
Proof. intros Hb Hin. rewrite Forall_forall in Hb. specialize (Hb _ Hin). unfold E2eeCodec.url_safe in Hb. lia. Qed.

Lemma part_path_inj id i j : (i < MAX_FILES)%nat -> (j < MAX_FILES)%nat -> part_path id i = part_path id j -> i = j.
Proof.
  intros Hi Hj E. apply join_inj in E. assert (Hall : Forall (fun a => Forall (fun b => pad4 a +:+ ".part" = pad4 b +:+ ".part" -> a = b) (seq 0 8)) (seq 0 8)).
  { apply (bool_decide_eq_true_1 _). vm_compute. reflexivity. }
  rewrite Forall_forall in Hall. specialize (Hall i ltac:(apply elem_of_seq; unfold MAX_FILES in *; lia)). rewrite Forall_forall in Hall.
  apply Hall; [|done]. apply elem_of_seq. unfold MAX_FILES in *. lia.
Qed.

Section Finish.
Context `{CM : Protocol.CaseMapping} `{DG : WriteAudit.Digest} `{B64 : E2eeCodec.Base64} `{!E2eeCodec.Base64Laws} `{FT : GoJson.FloatText}.
Context (dir : string) (json_ok : bytes -> bool) (io : Io).

(** Random draws: 24 bytes, never the same twice. *)
Record fresh_draws : Prop := {
  fd_bytes i b : io_random io i = Some b -> Forall is_u8 b /\ length b = 24%nat;
  fd_distinct i j b : io_random io i = Some b -> io_random io j = Some b -> i = j;
}.

Lemma opaque_id_Ok n id : opaque_id io n = Ok id -> exists b, io_random io n = Some b /\ id = E2eeCodec.b64_encode b.
Proof. unfold opaque_id. destruct (io_random io n) as [b|]; [|done]. intros [= <-]. by exists b. Qed.

Lemma opaque_id_inj i j id : fresh_draws -> opaque_id io i = Ok id -> opaque_id io j = Ok id -> i = j.
Proof.
  intros Hf (b & Hb & ->)%opaque_id_Ok (c & Hc & E)%opaque_id_Ok. destruct (fd_bytes Hf _ _ Hb) as [Ub _], (fd_bytes Hf _ _ Hc) as [Uc _].
  apply (f_equal E2eeCodec.b64_decode) in E. rewrite !E2eeCodec.b64_roundtrip in E by done. injection E as ->. by eapply fd_distinct.
Qed.

Lemma opaque_id_dot n id : fresh_draws -> opaque_id io n = Ok id -> 46 ∉ as_bytes id.
Proof. intros Hf (b & Hb & ->)%opaque_id_Ok. apply url_safe_dot, E2eeCodec.b64_alphabet. by destruct (fd_bytes Hf _ _ Hb). Qed.

Lemma object_paths_differ i j a b m n : fresh_draws -> opaque_id io i = Ok a -> opaque_id io j = Ok b -> i <> j -> object_path a m <> object_path b n.
Proof.
  intros Hf Ha Hb Hne E. apply object_path_inj in E; [|by eapply opaque_id_dot..]. subst b. apply Hne. by eapply opaque_id_inj.
Qed.

(** ** Moving the files *)

Definition published_as (target : TargetRef) (expires : Z) (n : nat) (item : SessionFile) (r : AttachmentRecord) : Prop :=
  exists reference, opaque_id io n = Ok reference /\ r_rel_path r = object_path reference (fs_media_type (f_spec item)) /\
    r_target r = target /\ r_persisted_scope r = false /\
    r_attachment r = mkAttachment reference (fs_name (f_spec item)) (fs_media_type (f_spec item)) (fs_bytes (f_spec item))
      (WriteAudit.sha256_hex (f_hash item)) expires (join dir (r_rel_path r)).

(** Other paths are left alone. *)
Lemma stage_objects_other d target expires n items d' items' pending e k : stage_objects dir io d target expires n items = (d', items', pending, e) ->
  k ∉ f_rel_path <$> items -> (forall j id m, (n <= j)%nat -> opaque_id io j = Ok id -> k <> object_path id m) -> d' !! k = d !! k.
Proof.
  revert d n d' items' pending. induction items as [|item items IH]; intros d n d' items' pending; cbn [stage_objects]; [by intros [= <- <- <- <-]|].
  intros Hs Hk Hob. cbn [fmap list_fmap] in Hk. apply not_elem_of_cons in Hk as [Hk1 Hk2]. destruct (opaque_id io n) as [id|err] eqn:Eid; [|by injection Hs as <- <- <- <-].
  assert (Htake : (take_file d item).1 !! k = d !! k). { unfold take_file. destruct (f_file item); [|done]. cbn. by apply close_other. }
  destruct (take_file d item) as [d1 taken]. cbn [fst] in Htake. destruct (rename io d1 (f_rel_path item) _) as [d2|] eqn:Er; [|by injection Hs as <- <- <- <-].
  destruct (stage_objects dir io d2 target expires (S n) items) as [[[d3 rest] pend] e'] eqn:Es. injection Hs as <- <- <- <-.
  rewrite (IH _ _ _ _ _ Es Hk2) by (intros j; intros; apply (Hob j); [lia|done]). apply rename_Some in Er as (node & _ & ->).
  rewrite lookup_insert_ne by (by apply not_eq_sym, (Hob n); [lia|]). by rewrite lookup_delete_ne.
Qed.

Definition staged_ok (d : Disk) (item : SessionFile) (data : bytes) : Prop := f_file item = Some data /\ d !! f_rel_path item = Some NOpen.

Lemma stage_objects_ok id d target expires n items datas d' items' pending : fresh_draws ->
  stage_objects dir io d target expires n items = (d', items', pending, None) ->
  (forall j item, items !! j = Some item -> exists i, f_rel_path item = part_path id i) -> NoDup (f_rel_path <$> items) -> Forall2 (staged_ok d) items datas ->
  length pending = length items /\ f_rel_path <$> items' = f_rel_path <$> items /\
  forall i item data, items !! i = Some item -> datas !! i = Some data -> exists r, pending !! i = Some r /\ published_as target expires (n + i) item r /\
    d' !! r_rel_path r = Some (NFile data).
Proof.
  intros Hf. revert d n d' items' pending datas. induction items as [|item items IH]; intros d n d' items' pending datas; cbn [stage_objects].
  { intros [= <- <- <-]. done. }
  intros Hs Hparts Hnd Hall. inversion Hall as [|? data ? datas' Hst Hrest]; subst; clear Hall. destruct Hst as [Ef En].
  cbn [fmap list_fmap] in Hnd. apply NoDup_cons in Hnd as [Hnew Hnd]. destruct (opaque_id io n) as [reference|err] eqn:Eid; [|done].
  unfold take_file in Hs. rewrite Ef in Hs. cbn beta iota in Hs. unfold close in Hs. rewrite En in Hs.
  destruct (rename io _ (f_rel_path item) _) as [d2|] eqn:Er; [|done]. apply rename_Some in Er as (node & En' & Ed2). rewrite lookup_insert_eq in En'. injection En' as <-.
  destruct (stage_objects dir io d2 target expires (S n) items) as [[[d3 rest] pend] e'] eqn:Es. injection Hs as <- <- <- ->.
  assert (Hkeep : forall p, p ∈ f_rel_path <$> items -> d2 !! p = d !! p).
  { intros p Hp. rewrite Ed2. apply list_elem_of_fmap in Hp as (it & -> & Hit). apply list_elem_of_lookup in Hit as [j Hj].
    destruct (Hparts (S j) it Hj) as [i Hi]. rewrite lookup_insert_ne by (rewrite Hi; apply object_not_part).
    assert (Hne : f_rel_path item <> f_rel_path it) by (intros E; apply Hnew; rewrite E; apply list_elem_of_fmap; exists it; split; [done|by eapply list_elem_of_lookup_2]).
    rewrite lookup_delete_ne, lookup_insert_ne; done. }
  assert (Hrest2 : Forall2 (staged_ok d2) items datas').
  { apply Forall2_same_length_lookup. split; [by eapply Forall2_length|]. intros j it dt Hj Hdt. destruct (Forall2_lookup_lr _ _ _ _ _ _ Hrest Hj Hdt) as [E1 E2].
    split; [done|]. rewrite Hkeep; [done|]. apply list_elem_of_fmap. exists it. split; [done|by eapply list_elem_of_lookup_2]. }
  destruct (IH _ _ _ _ _ _ Es (fun j => Hparts (S j)) Hnd Hrest2) as (Hl & Hpaths & Hi). split; [cbn; lia|]. split; [cbn; by f_equal|].
  intros [|i] it dt; cbn.
  - intros [= <-] [= <-]. eexists. split; [done|]. rewrite Nat.add_0_r. split; [by exists reference|]. cbn [r_rel_path].
    rewrite (stage_objects_other _ _ _ _ _ _ _ _ _ _ Es).
    + rewrite Ed2. apply lookup_insert_eq.
    + intros (it & E & Hit)%list_elem_of_fmap. apply list_elem_of_lookup in Hit as [j Hj]. destruct (Hparts (S j) it Hj) as [i Hi']. rewrite Hi' in E. by apply object_not_part in E.
    + intros j id' m Hj Hid. eapply object_paths_differ; [done..|lia].
  - intros Hit Hdt. destruct (Hi _ _ _ Hit Hdt) as (r & Hr & Hp & Hd). exists r. split; [done|]. by rewrite Nat.add_succ_r.
Qed.

(** ** The checks before *)

(** What a claimed digest, the counters and the staged path were checked for. *)
Definition verified (d : Disk) (i : nat) (item : SessionFile) (claimed : FileDigest) (data : bytes) : Prop :=
  f_file item = Some data /\ d !! f_rel_path item = Some NOpen /\ Z.of_nat (length data) = fs_bytes (f_spec item) /\
  fd_file_index claimed = Z.of_nat i /\ WriteAudit.sha256_hex (f_hash item) = Protocol.to_lowercase (fd_sha256 claimed) /\
  validate_content json_ok item = Some (Ok tt).

Lemma verify_file_ok d i item claimed : verify_file json_ok io d i item claimed = Some (Ok tt) -> exists data, verified d i item claimed data.
Proof.
  unfold verify_file. case_decide as Hi; [done|]. destruct (negb (valid_digest _) || negb (ct_eq _ _)) eqn:Hdg; [done|]. case_decide as Hr; [done|].
  destruct (validate_content json_ok item) as [[[]|]|] eqn:Hv; [|done|done]. destruct (f_file item) as [data|] eqn:Ef; [|done].
  destruct (negb (io_ok io _)); [done|]. destruct (same_staged io d item data) eqn:Hs; [|done]. intros _. exists data.
  apply orb_false_elim in Hdg as [_ Hdg]. apply negb_false_iff, ct_eq_spec, as_bytes_inj in Hdg.
  unfold same_staged in Hs. rewrite !andb_true_iff, !bool_decide_eq_true in Hs. destruct Hs as [[_ Hn] Hl].
  split_and!; [done..| |done|done]. by destruct (decide (fd_file_index claimed = Z.of_nat i)).
Qed.

Lemma verify_files_ok d n items claims : verify_files json_ok io d n items claims = Some (Ok tt) -> length items = length claims ->
  exists datas, length datas = length items /\ forall i item, items !! i = Some item ->
    exists claimed data, claims !! i = Some claimed /\ datas !! i = Some data /\ verified d (n + i) item claimed data.
Proof.
  revert n claims. induction items as [|item items IH]; intros n [|claimed claims]; cbn [verify_files]; try done; [by exists []|].
  destruct (verify_file json_ok io d n item claimed) as [[[]|]|] eqn:E; [|done|done]. intros Hrest [= Hl]. destruct (IH _ _ Hrest Hl) as (datas & Hld & Hi).
  destruct (verify_file_ok _ _ _ _ E) as [data Hdata]. exists (data :: datas). split; [cbn; lia|]. intros [|i] it; cbn.
  - intros [= <-]. exists claimed, data. by rewrite Nat.add_0_r.
  - intros Hit. destruct (Hi _ _ Hit) as (c & dt & ? & ? & Hv). exists c, dt. by rewrite Nat.add_succ_r.
Qed.

Lemma verify_session_ok d s request : verify_session json_ok io d s request = Some (Ok tt) ->
  length (s_files s) = length (fr_files request) /\ verify_files json_ok io d 0 (s_files s) (fr_files request) = Some (Ok tt).
Proof. unfold verify_session. case_decide as Hc; [done|]. intros Hv. split; [lia|done]. Qed.

(** ** Registering the records *)

Lemma insert_all_other pending m k : k ∉ (fun r => at_reference (r_attachment r)) <$> pending -> insert_all pending m !! k = m !! k.
Proof.
  revert m. induction pending as [|r pending IH]; intros m Hk; [done|]. cbn [fmap list_fmap] in Hk. apply not_elem_of_cons in Hk as [H1 H2]. cbn.
  unfold insert_all in IH. rewrite IH by done. by rewrite lookup_insert_ne.
Qed.

Lemma insert_all_lookup pending m i r : NoDup ((fun r => at_reference (r_attachment r)) <$> pending) -> pending !! i = Some r ->
  insert_all pending m !! at_reference (r_attachment r) = Some r.
Proof.
  revert m i. induction pending as [|x pending IH]; intros m i; [done|]. cbn [fmap list_fmap]. intros [Hx Hnd]%NoDup_cons. destruct i as [|i]; cbn.
  - intros [= ->]. change (insert_all pending (<[at_reference (r_attachment r) := r]> m) !! at_reference (r_attachment r) = Some r).
    rewrite insert_all_other by done. apply lookup_insert_eq.
  - apply IH. done.
Qed.

(** ** Writing the index leaves the objects *)

Lemma persist_disk_other w k s : k = String o_char s -> disk (persist_locked io w).1 !! k = disk w !! k.
Proof.
  intros Hk. unfold persist_locked. generalize (index_text (attachments w)) as data. cbv zeta. cbn [temp_seq].
  assert (Ht : exists t, ".attachments-" +:+ lower_hex (io_clock io AtStamp) +:+ "-" +:+ lower_hex (temp_seq w) +:+ ".tmp" = String dot_char t) by (by eexists).
  destruct Ht as [t Ht]. rewrite Ht. clear Ht. intros data. cbn [disk]. set (temp := String dot_char t).
  assert (Hne : temp <> k) by (subst k temp; intros [=]). assert (Hni : INDEX_FILENAME <> k) by (subst k; intros [=]). clearbody temp.
  destruct (create_new io (disk w) temp) as [d|] eqn:Ec; [|done]. apply create_new_Some in Ec as [_ ->].
  assert (Hc : forall data, close (<[temp := NOpen]> (disk w)) temp data !! k = disk w !! k) by (intros; rewrite close_other, lookup_insert_ne; done).
  destruct (negb _); [cbn [fst set_disk disk]; by rewrite remove_file_other|].
  destruct (negb _); [cbn [fst set_disk disk]; by rewrite remove_file_other|].
  destruct (rename io _ temp INDEX_FILENAME) as [d'|] eqn:Er; [|cbn [fst set_disk disk]; by rewrite remove_file_other].
  apply rename_Some in Er as (node & _ & ->). assert (Hd : <[INDEX_FILENAME := node]> (delete temp (close (<[temp := NOpen]> (disk w)) temp data)) !! k = disk w !! k).
  { rewrite lookup_insert_ne, lookup_delete_ne by done. apply Hc. }
  destruct (negb _); [cbn [fst set_disk disk]; by rewrite remove_file_other|].
  destruct (negb _); [cbn [fst set_disk disk]; by rewrite remove_file_other|]. done.
Qed.

Lemma persist_ok_disk w w' : persist_locked io w = (w', Ok tt) -> disk w' !! INDEX_FILENAME = Some (NFile (index_text (attachments w))).
Proof.
  unfold persist_locked. generalize (index_text (attachments w)) as data. cbv zeta. cbn [temp_seq].
  generalize (".attachments-" +:+ lower_hex (io_clock io AtStamp) +:+ "-" +:+ lower_hex (temp_seq w) +:+ ".tmp") as temp. intros temp data.
  cbn [disk]. destruct (create_new io (disk w) temp) as [d|] eqn:Ec; [|done]. apply create_new_Some in Ec as [_ ->].
  destruct (negb _); [done|]. destruct (negb _); [done|]. destruct (rename io _ temp INDEX_FILENAME) as [d'|] eqn:Er; [|done]. apply rename_Some in Er as (node & En & ->).
  destruct (negb _); [done|]. destruct (negb _); [done|]. intros [= <-]. cbn [set_disk disk]. rewrite lookup_insert_eq.
  unfold close in En. rewrite lookup_insert_eq in En. rewrite lookup_insert_eq in En. by rewrite <- En.
Qed.

Lemma close_files_other d s k : k ∉ f_rel_path <$> s_files s -> close_files d s !! k = d !! k.
Proof.
  unfold close_files. destruct s as [? ? ? files ? ?]. cbn. revert d. induction files as [|item files IH]; intros d Hk; [done|].
  cbn [fmap list_fmap] in Hk. apply not_elem_of_cons in Hk as [H1 H2]. cbn [foldl]. rewrite IH by done. unfold take_file. destruct (f_file item); [|done]. cbn. by apply close_other.
Qed.

Lemma discard_disk_other w id s k c rest : sessions w !! id = Some s -> k ∉ f_rel_path <$> s_files s -> k = String c rest -> c <> s_char ->
  disk (discard_locked io w id true) !! k = disk w !! k.
Proof.
  intros Hs Hk -> Hc. unfold discard_locked. rewrite Hs. unfold remove_session_dir. cbn [set_tombstones set_disk set_sessions disk].
  rewrite remove_dir_all_other by (apply in_tree_head; exact (not_eq_sym Hc)). by apply close_files_other.
Qed.

(** ** Finishing *)

Lemma session_parts id s : session_ok id s ->
  (forall j item, s_files s !! j = Some item -> f_rel_path item = part_path id j) /\ NoDup (f_rel_path <$> s_files s).
Proof.
  intros Hs. assert (Hp : forall j item, s_files s !! j = Some item -> f_rel_path item = part_path id j).
  { intros j item Hj. destruct (so_file _ _ Hs _ _ Hj) as [all Hok]. by destruct Hok. }
  split; [done|]. apply NoDup_alt. intros i j p. rewrite !list_lookup_fmap.
  destruct (s_files s !! i) as [a|] eqn:Ea; [|done]. destruct (s_files s !! j) as [b|] eqn:Eb; [|done]. cbn. intros [= <-] [= E].
  rewrite (Hp _ _ Ea), (Hp _ _ Eb) in E. pose proof (so_count _ _ Hs). apply lookup_lt_Some in Ea, Eb. symmetry. eapply part_path_inj; [..|exact E]; lia.
Qed.

(** What a published file is. *)
Definition published (w : World) (request : FinishRequest) (i : nat) (item : SessionFile) (a : Attachment) : Prop :=
  exists data claimed r, f_file item = Some data /\ fr_files request !! i = Some claimed /\
    at_bytes a = Z.of_nat (length data) /\ at_bytes a = fs_bytes (f_spec item) /\
    at_sha256 a = WriteAudit.sha256_hex data /\ at_sha256 a = Protocol.to_lowercase (fd_sha256 claimed) /\
    validate_content json_ok item = Some (Ok tt) /\
    attachments w !! at_reference a = Some r /\ r_attachment r = a /\ r_target r = fr_target request /\ disk w !! r_rel_path r = Some (NFile data).

Lemma publish_ok w id s datas w' atts : fresh_draws -> session_ok id s -> sessions w !! id = Some s ->
  Forall2 (staged_ok (disk w)) (s_files s) datas -> publish dir io id w = (w', Ok atts) ->
  (exists s', sessions w' = <[id := s']> (sessions w) /\ f_rel_path <$> s_files s' = f_rel_path <$> s_files s) /\
  exists pending, atts = r_attachment <$> pending /\ length pending = length (s_files s) /\ attachments w' = insert_all pending (attachments w) /\
    disk w' !! INDEX_FILENAME = Some (NFile (index_text (attachments w'))) /\
  forall i item data, s_files s !! i = Some item -> datas !! i = Some data -> exists r, pending !! i = Some r /\
    published_as (s_target s) (io_clock io AtPublish + ATTACHMENT_TTL) i item r /\ attachments w' !! at_reference (r_attachment r) = Some r /\
    disk w' !! r_rel_path r = Some (NFile data).
Proof.
  intros Hf Hs Hin Hst. destruct (session_parts _ _ Hs) as [Hparts Hnd]. unfold publish. rewrite Hin. cbv zeta.
  destruct (stage_objects dir io (disk w) _ _ 0 (s_files s)) as [[[d files] pending] e] eqn:Es. destruct e as [e|]; [done|].
  destruct (stage_objects_ok id _ _ _ _ _ _ _ _ _ Hf Es ltac:(intros; eexists; eauto) Hnd Hst) as (Hl & Hpaths & Hi).
  destruct (sync_objects_directory io); [|done]. case_decide as Hex; [done|]. set (w1 := set_attachments _ _).
  pose proof (persist_keeps io w1) as (P1 & _ & P3). pose proof (fun k s => persist_disk_other w1 k s) as Pd. pose proof (persist_ok_disk w1) as Pi.
  destruct (persist_locked io w1) as [w2 [[]|failure]]; [|by destruct (pf_published failure)]. cbn [fst] in *. intros [= <- <-].
  split; [exists (set_files files s); rewrite P1; done|]. exists pending. split; [done|]. split; [done|]. split; [by rewrite P3|]. split; [by rewrite P3, (Pi w2 eq_refl)|].
  intros i item data Hitem Hdata. destruct (Hi _ _ _ Hitem Hdata) as (r & Hr & Hpub & Hd). exists r. split; [done|]. split; [done|]. split.
  - rewrite P3. cbn. apply insert_all_lookup with i; [|done]. apply NoDup_alt. intros p q x. rewrite !list_lookup_fmap.
    destruct (pending !! p) as [ra|] eqn:Ea; [|done]. destruct (pending !! q) as [rb|] eqn:Eb; [|done]. cbn. intros [= <-] [= E].
    assert (Hget : forall k rk, pending !! k = Some rk -> opaque_id io k = Ok (at_reference (r_attachment rk))).
    { intros k rk Hk. destruct (lookup_lt_is_Some_2 (s_files s) k) as [it Hit]; [apply lookup_lt_Some in Hk; lia|].
      destruct (lookup_lt_is_Some_2 datas k) as [dt Hdt]; [apply Forall2_length in Hst; apply lookup_lt_Some in Hit; lia|].
      destruct (Hi _ _ _ Hit Hdt) as (r' & Hr' & (reference & Hid & _ & _ & _ & Ha) & _). cbn in Hid. assert (r' = rk) as -> by congruence. rewrite Ha. done. }
    eapply opaque_id_inj; [done|apply Hget, Ea|]. rewrite <- E. by apply Hget.
  - destruct Hpub as (reference & _ & Hp & _). destruct (object_path_head reference (fs_media_type (f_spec item))) as [rest Hrest].
    rewrite (Pd _ rest) by congruence. exact Hd.
Qed.

(** Everything a successful [finish] leaves behind. *)
Lemma finish_ok w w' request s atts : world_ok w -> fresh_draws -> sessions w !! fr_upload_id request = Some s ->
  finish dir json_ok io request w = Some (w', Ok atts) ->
  sessions w' = delete (fr_upload_id request) (sessions w) /\
  exists pending, atts = r_attachment <$> pending /\ length pending = length (s_files s) /\ attachments w' = insert_all pending (attachments w) /\
    disk w' !! INDEX_FILENAME = Some (NFile (index_text (attachments w'))) /\
  forall i item, s_files s !! i = Some item -> exists r, pending !! i = Some r /\
    published_as (fr_target request) (io_clock io AtPublish + ATTACHMENT_TTL) i item r /\ attachments w' !! at_reference (r_attachment r) = Some r /\
    published w' request i item (r_attachment r).
Proof.
  intros Hw Hf Hin. pose proof (wo_session w Hw _ _ Hin) as Hs. unfold finish. set (id := fr_upload_id request) in *. cbv zeta.
  destruct (lock_session io w _ id _) as [w1 [s1|e]] eqn:El; [|done]. destruct (lock_session_spec _ _ _ _ _ _ _ El) as (_ & _ & -> & Hin1 & Ht & _).
  assert (s1 = s) as -> by congruence. clear Hin1. destruct (verify_session json_ok io (disk w) s request) as [[[]|e]|] eqn:Hv; cbn [mbind option_bind]; [|done..].
  apply verify_session_ok in Hv as [Hlen Hv]. destruct (verify_files_ok _ _ _ _ Hv Hlen) as (datas & Hld & Hver).
  assert (Hst : Forall2 (staged_ok (disk w)) (s_files s) datas).
  { apply Forall2_same_length_lookup. split; [done|]. intros i item data Hi Hd. destruct (Hver _ _ Hi) as (c & dt & _ & Hdt & Hok).
    assert (dt = data) as -> by congruence. by destruct Hok as (? & ? & _). }
  destruct (publish dir io id w) as [w2 [atts'|e]] eqn:Hp; [|done]. intros [= <- <-].
  destruct (publish_ok _ _ _ _ _ _ Hf Hs Hin Hst Hp) as ((s' & Hss & Hpaths) & pending & Hatts & Hl & Hm & Hidx & Hpub).
  assert (Hin2 : sessions w2 !! id = Some s') by (by rewrite Hss, lookup_insert_eq). destruct (session_parts _ _ Hs) as [Hparts _].
  assert (Hrest : forall k c rest, k = String c rest -> c <> s_char -> disk (discard_locked io w2 id true) !! k = disk w2 !! k).
  { intros k c rest Hk Hc. eapply discard_disk_other; [done| |done|done]. rewrite Hpaths. intros (it & E & Hit)%list_elem_of_fmap. apply list_elem_of_lookup in Hit as [j Hj].
    rewrite (Hparts _ _ Hj) in E. destruct (part_path_head id j) as [t Ht']. congruence. }
  split; [rewrite discard_sessions, Hss; apply delete_insert_eq|]. exists pending. rewrite discard_attachments. split; [done|]. split; [done|]. split; [done|].
  split; [erewrite Hrest; [done|reflexivity|intros [=]]|]. intros i item Hi. destruct (Hver _ _ Hi) as (claimed & data & Hc & Hdt & Hok).
  destruct (Hpub _ _ _ Hi Hdt) as (r & Hr & Has & Hreg & Hobj). rewrite Ht in Has. exists r. split; [done|]. split; [done|]. split; [done|].
  destruct Has as (reference & _ & Epath & Etgt & _ & Eat). destruct Hok as (Ef & _ & Esz & _ & Esha & Econt).
  destruct (so_file _ _ Hs _ _ Hi) as [all [_ Ef' Eh _ _ _ _]]. assert (all = data) as -> by congruence.
  exists data, claimed, r. destruct (object_path_head reference (fs_media_type (f_spec item))) as [rest Hhead].
  assert (Hdisk : disk (discard_locked io w2 id true) !! r_rel_path r = Some (NFile data)) by (rewrite (Hrest _ o_char rest); [done|congruence|intros [=]]).
  rewrite Eat in *. cbn [at_bytes at_sha256 at_reference] in *. rewrite Eh in *. rewrite discard_attachments. split_and!; try done; congruence.
Qed.

(** C30 — A finished upload is what was staged: when [finish] answers with
    attachments there is one for each file of the session, in order; its object
    holds exactly the staged bytes, as many as were declared, and its digest is
    that of these bytes and the one the client claimed; the content passed the
    check of its media type, the record is registered for the target of the
    session, and the session itself is gone. *)
Theorem finish_publishes_upload (w w' : World) (request : FinishRequest) (s : Session) (atts : list Attachment) :
  world_ok w -> fresh_draws -> sessions w !! fr_upload_id request = Some s -> finish dir json_ok io request w = Some (w', Ok atts) ->
  sessions w' = delete (fr_upload_id request) (sessions w) /\ length atts = length (s_files s) /\
  forall i item a, s_files s !! i = Some item -> atts !! i = Some a -> published w' request i item a.
Proof.
  intros Hw Hf Hin Hfin. destruct (finish_ok _ _ _ _ _ Hw Hf Hin Hfin) as (Hs & pending & -> & Hl & _ & _ & Hall). split; [done|]. rewrite length_fmap. split; [done|].
  intros i item a Hi Ha. destruct (Hall _ _ Hi) as (r & Hr & _ & _ & Hp). rewrite list_lookup_fmap, Hr in Ha. cbn in Ha. congruence.
Qed.

(** Finishing never panics. *)
Lemma verify_files_total d n items claims : length items = length claims ->
  (forall i item, items !! i = Some item -> forall file, f_file item = Some file -> Forall is_u8 file) -> is_Some (verify_files json_ok io d n items claims).
Proof.
  revert n claims. induction items as [|item items IH]; intros n [|c claims]; cbn [verify_files]; try done. intros [= Hl] Hu.
  assert (Hv : is_Some (verify_file json_ok io d n item c)).
  { unfold verify_file. repeat (case_match; try done). subst. destruct (validate_content_total json_ok item (Hu 0%nat item eq_refl)) as [? Hx]. congruence. }
  destruct Hv as [[[]|e] ->]; [|done]. apply IH; [done|]. intros i it Hi. by apply (Hu (S i)).
Qed.

Lemma finish_total w request : world_ok w -> is_Some (finish dir json_ok io request w).
Proof.
  intros Hw. unfold finish. cbv zeta. destruct (lock_session io w _ _ _) as [w1 [s|e]] eqn:El; [|done].
  destruct (lock_session_spec _ _ _ _ _ _ _ El) as (_ & _ & -> & Hin & _). pose proof (wo_session w Hw _ _ Hin) as Hs.
  assert (Hv : is_Some (verify_session json_ok io (disk w) s request)).
  { unfold verify_session. case_decide as Hc; [done|]. apply verify_files_total; [lia|]. intros i item Hi file Ef.
    destruct (so_file _ _ Hs _ _ Hi) as [all [_ Ef' _ _ _ Hu _]]. by assert (file = all) as -> by congruence. }
  destruct Hv as [[[]|e] ->]; cbn [mbind option_bind]; [|done]. by destruct (publish _ _ _ _).
Qed.

Lemma publish_sessions w id : sessions (publish dir io id w).1 = sessions w \/ exists s, sessions (publish dir io id w).1 = <[id := s]> (sessions w).
Proof.
  unfold publish. cbv zeta. set (stage := match sessions w !! id with Some _ => _ | None => _ end).
  assert (Hst : sessions stage.1.1 = sessions w \/ exists s, sessions stage.1.1 = <[id := s]> (sessions w)).
  { unfold stage. destruct (sessions w !! id) as [s|]; [|by left]. destruct (stage_objects _ _ _ _ _ _ _) as [[[d files] p] e]. right. by eexists. }
  destruct stage as [[w1 pending] failed]. cbn [fst] in *. destruct failed; [done|]. destruct (sync_objects_directory io); [|done]. case_decide; [done|].
  set (w2 := set_attachments _ w1). pose proof (persist_keeps io w2) as (P & _). destruct (persist_locked io w2) as [w3 [|f]]; cbn [fst] in *.
  - by rewrite P.
  - destruct (pf_published f); cbn [fst remove_created set_disk set_attachments sessions]; by rewrite P.
Qed.

Lemma finish_keeps w request w' r : world_ok w -> finish dir json_ok io request w = Some (w', r) -> world_ok w'.
Proof.
  intros Hw. unfold finish. cbv zeta. destruct (lock_session io w _ _ _) as [w1 [s|e]] eqn:El.
  - destruct (lock_session_spec _ _ _ _ _ _ _ El) as (_ & _ & -> & Hin & _). destruct (verify_session _ _ _ _ _) as [[[]|e]|]; cbn [mbind option_bind]; [..|done].
    + pose proof (publish_sessions w (fr_upload_id request)) as Hp. destruct (publish _ _ _ _) as [w2 r2]. cbn [fst] in Hp. intros [= <- <-].
      eapply world_ok_subset; [|done]. rewrite discard_sessions. destruct Hp as [->|[s' ->]]; [|rewrite delete_insert_eq]; apply delete_subseteq.
    + intros [= <- <-]. eapply world_ok_subset; [|done]. rewrite discard_sessions. apply delete_subseteq.
  - intros [= <- <-]. eapply world_ok_subset; [|done]. by destruct (lock_session_spec _ _ _ _ _ _ _ El).
Qed.

End Finish.

Import E2eeInstances UploadsDemo.

Lemma calm_fresh first now : (first < 200)%nat -> fresh_draws (calm first now).
Proof.
  intros Hf. split; cbn; unfold draw.
  - intros i b. case_match eqn:E; [|done]. intros [= <-]. apply Nat.ltb_lt in E. split; [|reflexivity]. each_of; unfold is_u8, u8_max; lia.
  - intros i j b. case_match eqn:E1; [|done]. intros [= <-]. case_match eqn:E2; [|done]. intros Eq. apply Nat.ltb_lt in E1, E2. injection Eq as Eq. lia.
Qed.

Lemma finish_publishes_upload_witness : published json_any demo_world demo_finish 0
  (default (new (mkSpec "" "" 0)) (s_files demo_session !! 0%nat)) (default (mkAttachment "" "" "" 0 "" 0 "") (demo_attachments !! 0%nat)).
Proof.
  assert (Hs : sessions uploaded !! fr_upload_id demo_finish = Some demo_session) by (vm_compute; reflexivity).
  assert (Hf : finish demo_dir json_any (calm 10 1003) demo_finish uploaded = Some (demo_world, Ok demo_attachments)) by (vm_compute; reflexivity).
  assert (Hi : s_files demo_session !! 0%nat = Some (default (new (mkSpec "" "" 0)) (s_files demo_session !! 0%nat))) by (vm_compute; reflexivity).
  assert (Ha : demo_attachments !! 0%nat = Some (default (mkAttachment "" "" "" 0 "" 0 "") (demo_attachments !! 0%nat))) by (vm_compute; reflexivity).
  exact (proj2 (proj2 (finish_publishes_upload demo_dir json_any (calm 10 1003) uploaded demo_world demo_finish demo_session demo_attachments
    uploaded_ok (calm_fresh 10 1003 ltac:(lia)) Hs Hf)) 0%nat _ _ Hi Ha).
Defined.

End UploadsFinish.
