(* ===== verification/UploadsSteps.v ===== *)
(** * The attachment manager over time

    Every sequence of operations, with every outcome of every call, keeps the
    invariants; a rejected chunk closes its session and touches nothing else;
    accepted chunks reassemble the file; [resolve] answers for exactly the
    live attachments of the asking target. *)

From S2P Require Import Prelude Utf8 Json Inbound Protocol WriteAudit E2eeCodec GoJson UploadTime UploadSpec UploadFile UploadDisk UploadIndex Uploads UploadsInvariant UploadsFinish.

Module UploadsSteps.
Import Utf8 Inbound UploadSpec UploadFile UploadDisk UploadState UploadIndex Uploads UploadsInvariant UploadsFinish.

(** [URL_SAFE_NO_PAD] accepts its own alphabet only. *)
Class StrictBase64 `{E2eeCodec.Base64} : Prop := { b64_strict s b : E2eeCodec.b64_decode s = Some b -> Forall E2eeCodec.url_safe (as_bytes s) }.

(** ** The records *)

Record record_ok (key : string) (r : AttachmentRecord) : Prop := {
  ro_key : at_reference (r_attachment r) = key;
  ro_dot : 46 ∉ as_bytes key;
  ro_path : r_rel_path r = object_path key (at_media_type (r_attachment r));
}.

Definition attachments_ok (w : World) : Prop := forall key r, attachments w !! key = Some r -> record_ok key r.

Lemma attachments_ok_subset w w' : attachments w' ⊆ attachments w -> attachments_ok w -> attachments_ok w'.
Proof. intros Hsub Hw key r Hr. eapply Hw, lookup_weaken; eauto. Qed.

Lemma attachments_ok_same w w' : attachments w' = attachments w -> attachments_ok w -> attachments_ok w'.
Proof. intros E. apply attachments_ok_subset. by rewrite E. Qed.

Section Steps.
Context `{CM : Protocol.CaseMapping} `{DG : WriteAudit.Digest} `{B64 : E2eeCodec.Base64} `{LB : !E2eeCodec.Base64Laws} `{SB : !StrictBase64} `{FT : GoJson.FloatText}.
Context `{DJ : DocumentJson} (dir : string) (json_ok : bytes -> bool).

(** One operation, whatever the calls answer. *)
Inductive step : World -> World -> Prop :=
| step_begin io owner request w : step w (begin io owner request w).1
| step_chunk io request w : Forall is_u8 (c_data request) -> step w (chunk io request w).1
| step_chunk_binary io id sequence data w : Forall is_u8 data -> step w (chunk_binary io id sequence data w).1
| step_staged_target io id w : step w (staged_target io id w).1
| step_cancel io target id w : step w (cancel io target id w).1
| step_finish io request w w' r : fresh_draws io -> finish dir json_ok io request w = Some (w', r) -> step w w'
| step_resolve io target reference w : step w (resolve io target reference w).1
| step_cleanup io w : step w (cleanup io w).1.

(** ** Attachments are kept well-formed *)

Lemma cleanup_attachments io w : attachments (cleanup io w).1 ⊆ attachments w.
Proof. destruct (cleanup_maps io w) as (_ & _ & ->). apply map_filter_subseteq. Qed.

Lemma begin_attachments io owner request w : attachments (begin io owner request w).1 = attachments (cleanup io w).1.
Proof. unfold begin. cbv zeta. repeat (case_match; try done). Qed.

Lemma lock_attachments io w now id target : attachments (lock_session io w now id target).1 = attachments w.
Proof. destruct (lock_session io w now id target) as [w' r] eqn:E. apply (lock_session_spec _ _ _ _ _ _ _ E). Qed.

Lemma chunk_in_attachments io w id s request : attachments (chunk_in io w id s request).1 = attachments w.
Proof. unfold chunk_in. destruct (chunk_locked io s request) as [s' [|]]; cbn [fst is_ok]; [done|]. by rewrite discard_attachments. Qed.

Lemma chunk_attachments io request w : attachments (chunk io request w).1 = attachments w.
Proof.
  unfold chunk. pose proof (lock_attachments io w (io_clock io AtSession) (c_upload_id request) (c_target request)) as E.
  destruct (lock_session io w _ _ _) as [w' [s|]]; cbn [fst] in *; rewrite <- E; [apply chunk_in_attachments|done].
Qed.

Lemma chunk_binary_attachments io id sequence data w : attachments (chunk_binary io id sequence data w).1 = attachments w.
Proof.
  unfold chunk_binary. destruct (sessions w !! id) as [s|]; [|done]. pose proof (lock_attachments io w (io_clock io AtSession) id (s_target s)) as E.
  destruct (lock_session io w _ _ _) as [w' [s'|]]; cbn [fst] in *; rewrite <- E; [apply chunk_in_attachments|done].
Qed.

Lemma cancel_attachments io target id w : attachments (cancel io target id w).1 = attachments w.
Proof. unfold cancel. destruct (sessions w !! id); [case_decide; [done|apply discard_attachments]|]. repeat (case_match; try done). Qed.

Lemma resolve_attachments io target reference w : attachments (resolve io target reference w).1 ⊆ attachments w.
Proof.
  etrans; [|apply (cleanup_attachments io w)]. unfold resolve. set (w1 := (cleanup io w).1). clearbody w1. cbv zeta.
  destruct (attachments w1 !! reference) as [r|]; [|done]. destruct (negb _); [done|]. case_match; [done|].
  set (w2 := set_disk _ _). pose proof (persist_keeps io w2) as (_ & _ & E). destruct (persist_locked io w2) as [w3 [|]]; cbn [fst] in *; rewrite E; apply delete_subseteq.
Qed.

Lemma stage_objects_records io d target expires n items d' items' pending e : fresh_draws io ->
  stage_objects dir io d target expires n items = (d', items', pending, e) -> Forall (fun r => record_ok (at_reference (r_attachment r)) r) pending.
Proof.
  intros Hf. revert d n d' items' pending. induction items as [|item items IH]; intros d n d' items' pending; cbn [stage_objects]; [by intros [= <- <- <- <-]|].
  destruct (opaque_id io n) as [id|err] eqn:Eid; [|by intros [= <- <- <- <-]]. destruct (take_file d item) as [d1 taken].
  destruct (rename io d1 _ _) as [d2|]; [|by intros [= <- <- <- <-]]. destruct (stage_objects dir io d2 target expires (S n) items) as [[[d3 rest] pend] e'] eqn:Es.
  intros [= <- <- <- <-]. constructor; [|by eapply IH]. split; cbn; [done|by eapply opaque_id_dot|done].
Qed.

Lemma insert_all_ok pending m : Forall (fun r => record_ok (at_reference (r_attachment r)) r) pending ->
  (forall key r, m !! key = Some r -> record_ok key r) -> forall key r, insert_all pending m !! key = Some r -> record_ok key r.
Proof.
  intros Hp. revert m. induction Hp as [|x pending Hx Hp IH]; intros m Hm; [done|]. cbn. apply IH. intros key r.
  rewrite lookup_insert_Some. intros [[<- <-]|[_ Hr]]; [done|by apply Hm].
Qed.

Lemma delete_all_subset pending m : delete_all pending m ⊆ m.
Proof. revert m. induction pending as [|r pending IH]; intros m; [done|]. cbn. etrans; [apply IH|apply delete_subseteq]. Qed.

Lemma publish_attachments_ok io w id : fresh_draws io -> attachments_ok w -> attachments_ok (publish dir io id w).1.
Proof.
  intros Hf Hw. unfold publish. cbv zeta. set (stage := match sessions w !! id with Some _ => _ | None => _ end).
  assert (Hst : attachments stage.1.1 = attachments w /\ Forall (fun r => record_ok (at_reference (r_attachment r)) r) stage.1.2).
  { unfold stage. destruct (sessions w !! id) as [s|]; [|done]. destruct (stage_objects _ _ _ _ _ _ _) as [[[d files] p] e] eqn:Es.
    split; [done|]. by eapply stage_objects_records. }
  destruct stage as [[w1 pending] failed]. cbn [fst snd] in *. destruct Hst as [Ea Hp]. assert (Hw1 : attachments_ok w1) by (by apply (attachments_ok_same w)).
  destruct failed; [by apply (attachments_ok_same w1)|]. destruct (sync_objects_directory io); [|by apply (attachments_ok_same w1)].
  case_decide; [by apply (attachments_ok_same w1)|]. set (w2 := set_attachments _ w1).
  assert (Hw2 : attachments_ok w2) by (intros key r; apply insert_all_ok; [done|exact Hw1]).
  pose proof (persist_keeps io w2) as (_ & _ & P). destruct (persist_locked io w2) as [w3 [|f]]; cbn [fst] in *; [by apply (attachments_ok_same w2)|].
  destruct (pf_published f); [by apply (attachments_ok_same w2)|]. apply (attachments_ok_subset w2); [|done]. cbn [fst remove_created set_disk set_attachments attachments].
  rewrite P. apply delete_all_subset.
Qed.

Lemma finish_attachments_ok io request w w' r : fresh_draws io -> attachments_ok w -> finish dir json_ok io request w = Some (w', r) -> attachments_ok w'.
Proof.
  intros Hf Hw. unfold finish. cbv zeta. pose proof (lock_attachments io w (io_clock io AtSession) (fr_upload_id request) (fr_target request)) as E.
  destruct (lock_session io w _ _ _) as [w1 [s|e]]; cbn [fst] in E; [|intros [= <- <-]; by apply (attachments_ok_same w)].
  assert (Hw1 : attachments_ok w1) by (by apply (attachments_ok_same w)).
  destruct (verify_session _ _ _ _ _) as [[[]|e]|]; cbn [mbind option_bind]; [..|done].
  - pose proof (publish_attachments_ok io w1 (fr_upload_id request) Hf Hw1) as Hp. destruct (publish _ _ _ _) as [w2 r2]. cbn [fst] in Hp. intros [= <- <-].
    apply (attachments_ok_same w2); [apply discard_attachments|done].
  - intros [= <- <-]. apply (attachments_ok_same w1); [apply discard_attachments|done].
Qed.

(** ** Start *)

Lemma load_record_keeps io now acc stored : (sessions (load_record dir io now acc stored).1 = sessions acc.1) /\
  (attachments_ok acc.1 -> attachments_ok (load_record dir io now acc stored).1).
Proof.
  destruct acc as [w dropped]. unfold load_record. cbn [fst]. destruct (record_usable stored) eqn:Hu; cbn [negb]; [|done]. case_decide; [done|]. case_decide; [done|].
  destruct (open_attachment io (disk w) (dr_rel_path stored)) as [len|]; [|done]. case_decide; [done|]. split; [done|].
  intros Hw key r. cbn [fst set_attachments attachments]. rewrite lookup_insert_Some. intros [[<- <-]|[_ Hr]]; [|by apply Hw].
  unfold record_usable in Hu. rewrite !andb_true_iff in Hu. destruct Hu as [[[[[Hid _] _] _] Hp] _]. apply bool_decide_eq_true in Hp.
  destruct (E2eeCodec.b64_decode _) as [b|] eqn:Ed; [|done]. split; cbn; [done| |done]. apply url_safe_dot. by eapply b64_strict.
Qed.

Lemma load_records_keep io now l acc : sessions (foldl (load_record dir io now) acc l).1 = sessions acc.1 /\
  (attachments_ok acc.1 -> attachments_ok (foldl (load_record dir io now) acc l).1).
Proof.
  revert acc. induction l as [|x l IH]; intros acc; [done|]. cbn [foldl]. destruct (IH (load_record dir io now acc x)) as [E H1].
  destruct (load_record_keeps io now acc x) as [E2 H2]. split; [congruence|]. auto.
Qed.

Lemma restore_keeps io w : attachments w = ∅ -> sessions (restore dir io w).1 = sessions w /\ attachments_ok (restore dir io w).1.
Proof.
  intros Ha. assert (Hw : attachments_ok w) by (intros key r; rewrite Ha; done). unfold restore, load_attachments.
  assert (Hq : forall w1, sessions w1 = sessions w -> let (d, r) := quarantine_index io (disk (set_attachments ∅ w1)) in
    sessions (set_disk d (set_attachments ∅ w1), r).1 = sessions w /\ attachments_ok (set_disk d (set_attachments ∅ w1), r).1).
  { intros w1 E. destruct (quarantine_index io _) as [d r]. split; [done|]. intros key r'. done. }
  repeat (match goal with
  | |- context [foldl (load_record dir io ?now) (w, 0%nat) ?l] =>
      destruct (load_records_keep io now l (w, 0%nat)) as [E H1]; destruct (foldl (load_record dir io now) (w, 0%nat) l) as [w1 dropped]; cbn [fst] in *; by auto
  | |- context [let (d, r) := quarantine_index io (disk (set_attachments ∅ ?w1)) in _] =>
      pose proof (Hq w1 eq_refl) as Hq1; by destruct (quarantine_index io (disk (set_attachments ∅ w1)))
  | |- context [match lstat ?a ?b ?c with _ => _ end] => destruct (lstat a b c) as [[[]|]|]
  | |- context [if ?b then _ else _] => destruct b
  | |- context [match ?x with Some _ => _ | None => _ end] => destruct x
  end; try done).
Qed.

Lemma start_ok io d : world_ok (build dir io d).1 /\ attachments_ok (build dir io d).1.
Proof.
  unfold build. set (w0 := mkWorld ∅ ∅ ∅ d 0). pose proof no_sessions_ok as H0.
  assert (Hinit : world_ok (initialize dir io w0).1 /\ attachments_ok (initialize dir io w0).1).
  { unfold initialize. destruct (initialize_dirs io (disk w0)) as [d1 [[]|e]]; [|split; [by apply H0|done]].
    destruct (restore_keeps io (set_disk d1 w0) eq_refl) as [Es Ea]. destruct (restore dir io (set_disk d1 w0)) as [w1 [[]|e]]; cbn [fst] in *; [|split; [by apply H0|done]].
    assert (Hc : world_ok (cleanup io w1).1) by (apply cleanup_ok, H0; by rewrite Es).
    assert (Hca : attachments_ok (cleanup io w1).1) by (eapply attachments_ok_subset; [apply cleanup_attachments|done]).
    pose proof (persist_keeps io (cleanup io w1).1) as (P1 & _ & P3). destruct (persist_locked io (cleanup io w1).1) as [w2 r]. cbn [fst] in *.
    split; [by eapply world_ok_same|by eapply attachments_ok_same]. }
  destruct (initialize dir io w0) as [w r]. exact Hinit.
Qed.

Lemma step_ok w w' : step w w' -> world_ok w /\ attachments_ok w -> world_ok w' /\ attachments_ok w'.
Proof.
  intros Hs [Hw Ha]. destruct Hs.
  - split; [by apply begin_keeps|]. eapply attachments_ok_subset; [|done]. rewrite begin_attachments. apply cleanup_attachments.
  - split; [by apply chunk_keeps|]. eapply attachments_ok_same; [apply chunk_attachments|done].
  - split; [by apply chunk_binary_keeps|]. eapply attachments_ok_same; [apply chunk_binary_attachments|done].
  - split; [by apply staged_target_keeps|]. eapply attachments_ok_same; [|done]. unfold staged_target. repeat (case_match; try done).
  - split; [by apply cancel_keeps|]. eapply attachments_ok_same; [apply cancel_attachments|done].
  - split; [by eapply finish_keeps|by eapply finish_attachments_ok].
  - split; [by apply resolve_keeps|]. eapply attachments_ok_subset; [apply resolve_attachments|done].
  - split; [by apply cleanup_ok|]. eapply attachments_ok_subset; [apply cleanup_attachments|done].
Qed.

(** From any directory, through any sequence of operations and any outcome
    of each file system call: at most 64 sessions are staged, at most 4 for one
    owner, each with at most 8 files of at most 50 MiB; each staged file holds
    as many bytes as its counter says, its running digest and its sniff buffers
    are those of these bytes, the files before the current one are complete
    and the later ones empty; every registered attachment is stored under the
    object name of its reference; and finishing never panics. *)
Theorem upload_state_stays_valid (io : Io) (d : Disk) (w : World) :
  rtc step (build dir io d).1 w -> world_ok w /\ attachments_ok w /\ forall io request, is_Some (finish dir json_ok io request w).
Proof.
  intros Hr. cut (world_ok w /\ attachments_ok w). { intros [Hw Ha]. split; [done|]. split; [done|]. intros. by apply finish_total. }
  remember (build dir io d).1 as w0 eqn:E. assert (H0 : world_ok w0 /\ attachments_ok w0) by (subst; apply start_ok). clear E.
  induction Hr as [w|w w1 w2 Hs _ IH]; [done|]. apply IH. by eapply step_ok.
Qed.

End Steps.

(** ** A concrete run *)

Import E2eeInstances UploadsDemo.

Lemma dec6_safe c n : dec6 c = Some n -> E2eeCodec.url_safe c.
Proof. unfold dec6, E2eeCodec.url_safe. repeat (case_decide; [lia|]). done. Qed.

Lemma url_decode_safe b r : url_decode b = Some r -> Forall E2eeCodec.url_safe b.
Proof.
  remember (length b) as n eqn:Hn. assert (Hle : (length b <= n)%nat) by lia. clear Hn. revert b r Hle. induction n as [|n IH]; intros b r Hle;
    destruct b as [|b1 [|b2 [|b3 [|b4 b]]]]; cbn [length url_decode] in *; try lia; try done; intros Hd;
    repeat match type of Hd with (dec6 ?c ≫= _) = _ => let E := fresh "E" in destruct (dec6 c) eqn:E; cbn in Hd; [apply dec6_safe in E|done] end; each_of; try done.
  destruct (url_decode b) as [rest|] eqn:Er; cbn in Hd; [|done]. eapply IH; [|exact Er]. lia.
Qed.

#[export] Instance url_strict : StrictBase64.
Proof. constructor. intros s b. apply url_decode_safe. Qed.

Definition started : World := (build demo_dir (calm 0 1000) {[ ""%string := NDir ]}).1.

Lemma upload_state_stays_valid_witness : exists w, size (sessions w) = 1%nat /\ world_ok w /\ attachments_ok w.
Proof.
  exists (begin (calm 0 1000) "connection:1" demo_begin started).1.
  assert (Hr : rtc (step demo_dir json_any) started (begin (calm 0 1000) "connection:1" demo_begin started).1).
  { apply rtc_once. exact (step_begin demo_dir json_any (calm 0 1000) "connection:1" demo_begin started). }
  pose proof (upload_state_stays_valid demo_dir json_any (calm 0 1000) {[ ""%string := NDir ]} _ Hr) as (Hw & Ha & _).
  assert (Hz : size (sessions (begin (calm 0 1000) "connection:1" demo_begin started).1) = 1%nat) by (vm_compute; reflexivity).
  exact (conj Hz (conj Hw Ha)).
Defined.

End UploadsSteps.
