(* ===== verification/UploadsChunks.v ===== *)
(** * Chunks of an upload

    What a chunk does to the session it belongs to and to nothing else: the
    rejected ones close the session, the accepted ones reassemble the files,
    and the binary carrier is the JSON form with the fields the server knows. *)

From S2P Require Import Prelude Utf8 Json Inbound Protocol WriteAudit E2eeCodec GoJson UploadSpec UploadFile UploadDisk UploadIndex Uploads UploadsInvariant.

Module UploadsChunks.
Import Utf8 Inbound UploadSpec UploadFile UploadDisk UploadState UploadIndex Uploads UploadsInvariant.

Section Chunks.
Context `{CM : Protocol.CaseMapping} `{DG : WriteAudit.Digest} `{B64 : E2eeCodec.Base64} `{FT : GoJson.FloatText}.

(** What is left of a session after a chunk was refused. *)
Definition refused (io : Io) (request : ChunkRequest) (w w' : World) (e : UploadError) : Prop :=
  let id := c_upload_id request in
  match sessions w !! id with
  | None => w' = w /\ e = upload_error "upload_session_not_found"
  | Some s =>
      if decide (s_expires_at s <= io_clock io AtSession) then sessions w' !! id = None /\ e = upload_error "upload_session_expired"
      else if decide (s_target s <> c_target request) then w' = w /\ e = upload_error "upload_scope_mismatch"
      else sessions w' !! id = None /\ tombstones w' !! id = Some (mkTombstone (s_target s) (s_expires_at s))
  end.

(** A refused chunk: an unknown upload or one of another target is left
    exactly as it was; an expired upload is dropped; any other error, be it
    order, size, digest, capacity or the disk, discards the session and leaves
    a tombstone with its target.  No other session and no attachment is
    touched, whether the chunk is refused or not. *)
Theorem refused_chunk_closes_session (io : Io) (request : ChunkRequest) (w : World) :
  let '(w', r) := chunk io request w in
  (forall id, id <> c_upload_id request -> sessions w' !! id = sessions w !! id) /\ attachments w' = attachments w /\
  match r with Err e => refused io request w w' e | Ok _ => is_Some (sessions w' !! c_upload_id request) end.
Proof.
  unfold chunk, lock_session, refused. set (id := c_upload_id request). destruct (sessions w !! id) as [s|] eqn:Es; [|done].
  case_decide as Hx.
  { cbn. split; [intros id' Hne; by rewrite lookup_delete_ne|]. split; [done|]. split; [apply lookup_delete_eq|done]. }
  case_decide as Ht; [done|]. unfold chunk_in. destruct (chunk_locked io s request) as [s' [res|e]] eqn:Ec; cbn [is_ok].
  - cbn [set_sessions sessions attachments]. split; [intros id' Hne; by rewrite lookup_insert_ne|]. split; [done|]. rewrite lookup_insert_eq. done.
  - apply chunk_locked_err in Ec as ->. set (w1 := set_sessions _ w). assert (E1 : sessions w1 !! id = Some s) by apply lookup_insert_eq.
    rewrite discard_sessions, discard_attachments, (discard_tombstone _ _ _ _ E1), !lookup_delete_eq, lookup_insert_eq. split; [|done].
    intros id' Hne. rewrite lookup_delete_ne by done. apply lookup_insert_ne. done.
Qed.

(** The binary carrier is the JSON form: a binary chunk for a staged
    upload does exactly what a JSON chunk does that names the target and the
    current file of the session and the digest of its bytes. *)
Theorem binary_chunk_is_json_chunk (io : Io) (id : string) (sequence : Z) (data : bytes) (w : World) (s : Session) :
  sessions w !! id = Some s ->
  chunk_binary io id sequence data w = chunk io (mkChunk (s_target s) id (Z.of_nat (s_current s)) sequence data (WriteAudit.sha256_hex data)) w.
Proof. intros Hs. unfold chunk_binary, chunk, lock_session. cbn [c_upload_id c_target]. rewrite Hs. case_decide; [done|]. case_decide; done. Qed.

(** ** Reassembly *)

(** Chunks fed to a session, each with the outcomes of its own calls; all must
    be accepted. *)
Fixpoint feed (s : Session) (requests : list (Io * ChunkRequest)) : option Session :=
  match requests with
  | [] => Some s
  | (io, request) :: requests => match chunk_locked io s request with (s', Ok _) => feed s' requests | (_, Err _) => None end
  end.

(** The bytes sent for file [i]. *)
Definition sent (i : nat) (requests : list (Io * ChunkRequest)) : bytes :=
  mjoin ((fun r => c_data r.2) <$> filter (fun r => c_file_index r.2 = Z.of_nat i) requests).

Lemma append_file item file data : f_file (append item file data) = Some (file ++ data).
Proof. unfold append. set (mid := mkFile _ _ _ _ _ _ _ _ _ _). by destruct (capture_fields mid data) as (_ & _ & -> & _). Qed.

Lemma feed_files requests s s' : feed s requests = Some s' ->
  length (s_files s') = length (s_files s) /\ s_sequence s' = s_sequence s + Z.of_nat (length requests) /\
  forall i item file, s_files s !! i = Some item -> f_file item = Some file ->
    exists item', s_files s' !! i = Some item' /\ f_spec item' = f_spec item /\ f_file item' = Some (file ++ sent i requests).
Proof.
  revert s. induction requests as [|[io request] requests IH]; intros s; cbn [feed].
  { intros [= <-]. split; [done|]. split; [cbn; lia|]. intros i item file Hi Hf. exists item. unfold sent. cbn. by rewrite app_nil_r. }
  destruct (chunk_locked io s request) as [s1 [res|e]] eqn:Ec; [|done]. intros Hfeed. destruct (IH _ Hfeed) as (Hl & Hq & Hi).
  destruct (chunk_locked_ok io ""%string _ _ _ _ Ec) as [[Hidx _] _ _ (item0 & file0 & H0 & Hf0 & _ & Ef & _) (_ & _ & _ & Eq & _)].
  split; [by rewrite Hl, Ef, length_insert|]. split; [cbn [length]; lia|]. intros i item file Hitem Hfile. unfold sent. rewrite filter_cons. cbn [snd].
  destruct (decide (i = s_current s)) as [->|Hne].
  - rewrite decide_True by done. assert (item = item0) as -> by congruence. assert (file = file0) as -> by congruence.
    destruct (Hi (s_current s) (append item0 file0 (c_data request)) (file0 ++ c_data request)) as (item' & E1 & E2 & E3).
    + rewrite Ef. apply list_lookup_insert_eq. by eapply lookup_lt_Some.
    + apply append_file.
    + exists item'. split; [done|]. split; [rewrite E2; apply append_fields|]. rewrite E3. cbn. by rewrite <- app_assoc.
  - rewrite decide_False by (rewrite Hidx; lia). apply Hi; [|done]. by rewrite Ef, list_lookup_insert_ne.
Qed.

(** Accepted chunks reassemble the files: when a session with empty files
    took a sequence of chunks, each file holds the bytes of the chunks sent for
    it, in the order they were sent, and every chunk advanced the sequence
    number by one. *)
Theorem chunks_reassemble_files (s s' : Session) (requests : list (Io * ChunkRequest)) (i : nat) (item : SessionFile) :
  (forall j it, s_files s !! j = Some it -> f_file it = Some []) -> feed s requests = Some s' -> s_files s !! i = Some item ->
  s_sequence s' = s_sequence s + Z.of_nat (length requests) /\
  exists item', s_files s' !! i = Some item' /\ f_spec item' = f_spec item /\ f_file item' = Some (sent i requests).
Proof.
  intros Hempty Hfeed Hi. destruct (feed_files _ _ _ Hfeed) as (_ & Hq & Hfiles). split; [done|]. exact (Hfiles _ _ [] Hi (Hempty _ _ Hi)).
Qed.

End Chunks.

Import E2eeInstances UploadsDemo.

Definition begun_session : Session := default demo_session (sessions begun !! demo_id).

Lemma binary_chunk_is_json_chunk_witness : (chunk_binary (calm 0 1001) demo_id 0 (take 2 demo_data) begun).2 = Ok (mkChunkResult 0 1 2).
Proof.
  assert (Hs : sessions begun !! demo_id = Some begun_session) by (vm_compute; reflexivity).
  rewrite (binary_chunk_is_json_chunk (calm 0 1001) demo_id 0 (take 2 demo_data) begun begun_session Hs). vm_compute. reflexivity.
Defined.

Definition demo_requests : list (Io * ChunkRequest) := [(calm 0 1001, demo_chunk 0 (take 2 demo_data)); (calm 0 1002, demo_chunk 1 (drop 2 demo_data))].

Lemma chunks_reassemble_files_witness : exists s' item', feed begun_session demo_requests = Some s' /\ s_files s' !! 0%nat = Some item' /\ f_file item' = Some demo_data.
Proof.
  set (item := default (new (mkSpec "" "" 0)) (s_files begun_session !! 0%nat)). set (s' := default begun_session (feed begun_session demo_requests)).
  assert (Hf : s_files begun_session = [item]) by (vm_compute; reflexivity). assert (Hnew : f_file item = Some []) by (vm_compute; reflexivity).
  assert (Hfeed : feed begun_session demo_requests = Some s') by (vm_compute; reflexivity).
  assert (Hi : s_files begun_session !! 0%nat = Some item) by (vm_compute; reflexivity).
  assert (He : forall j it, s_files begun_session !! j = Some it -> f_file it = Some []).
  { clearbody item. intros j it Hj. rewrite Hf in Hj. apply list_lookup_singleton_Some in Hj as [_ <-]. exact Hnew. }
  destruct (chunks_reassemble_files begun_session s' demo_requests 0 item He Hfeed Hi) as (_ & item' & E1 & _ & E2).
  exists s', item'. assert (Hsent : sent 0 demo_requests = demo_data) by (vm_compute; reflexivity). rewrite Hsent in E2. exact (conj Hfeed (conj E1 E2)).
Defined.

End UploadsChunks.

(** * Resolving an attachment

    [resolve] of [lerdr-coord/src/actions/uploads.rs] sweeps first.  The sweep
    never takes the object of a live record, so a reference resolves exactly
    when its record is live, belongs to the asking target and its object still
    has the recorded size. *)

From S2P Require Import Prelude Utf8 Json Inbound Protocol WriteAudit E2eeCodec GoJson UploadSpec UploadFile UploadDisk UploadIndex Uploads UploadsInvariant UploadsFinish UploadsSteps.

Module UploadsResolve.
Import Utf8 Inbound UploadSpec UploadFile UploadDisk UploadState UploadIndex Uploads UploadsInvariant UploadsFinish UploadsSteps.

(** The node at [k] stays, or it was a link and is gone. *)
Definition kept (k : string) (d d' : Disk) : Prop := d' !! k = d !! k \/ d !! k = Some NLink /\ d' !! k = None.

Lemma kept_refl k d : kept k d d.
Proof. by left. Qed.

Lemma kept_trans k d1 d2 d3 : kept k d1 d2 -> kept k d2 d3 -> kept k d1 d3.
Proof. unfold kept. intros [E1|[E1 E1']] [E2|[E2 E2']]; [left|right|right|right]; try split; congruence. Qed.

Lemma kept_eq k d d' : d' !! k = d !! k -> kept k d d'.
Proof. by left. Qed.

Lemma kept_foldl {A} k (f : Disk * nat -> A -> Disk * nat) (l : list A) acc :
  (forall acc x, x ∈ l -> kept k acc.1 (f acc x).1) -> kept k acc.1 (foldl f acc l).1.
Proof.
  revert acc. induction l as [|x l IH]; intros acc Hf; [apply kept_refl|]. cbn [foldl]. eapply kept_trans; [apply Hf; left|].
  apply IH. intros acc' y Hy. apply Hf. by right.
Qed.

(** ** Entries *)

Lemma entries_spec d dir name node : dir <> ""%string -> (name, node) ∈ entries d dir -> d !! join dir name = Some node.
Proof.
  intros Hd. unfold entries. rewrite list_elem_of_omap. intros ([path n] & Hin & E). apply elem_of_map_to_list in Hin. cbn in E. unfold entry_name in E.
  rewrite decide_False in E by done. destruct (strip_prefix (dir +:+ slash) path) as [nm|] eqn:Es; cbn in E; [|done]. destruct (plain_name nm); [|done]. injection E as -> ->.
  apply strip_path_Some in Es as ->. unfold join. by rewrite string_app_assoc.
Qed.

Lemma root_entries_plain d name node : (name, node) ∈ entries d "" -> 47 ∉ as_bytes name.
Proof.
  unfold entries. rewrite list_elem_of_omap. intros ([path n] & _ & E). cbn [fst snd] in E. unfold entry_name in E. rewrite decide_True in E by done. destruct (plain_name path) eqn:Hp; [|done]. injection E as <- <-.
  unfold plain_name in Hp. apply bool_decide_eq_true in Hp. tauto.
Qed.

Lemma object_path_slash reference m : 47 ∈ as_bytes (object_path reference m).
Proof. unfold object_path, join. rewrite as_bytes_app. apply elem_of_app. right. left. Qed.

Section Resolve.
Context `{CM : Protocol.CaseMapping} `{DG : WriteAudit.Digest} `{B64 : E2eeCodec.Base64} `{FT : GoJson.FloatText}.
Context (io : Io).

(** ** The sweep *)

Section Sweep.
Context (k reference m : string) (Hk : k = object_path reference m).

Lemma not_sessions name : in_tree (join SESSIONS_DIR name) k = false.
Proof. rewrite Hk. apply in_tree_head. intros [=]. Qed.

Lemma sweep_sessions_kept now indexed acc e : kept k acc.1 (sweep_entry io now indexed SESSIONS_DIR SESSION_TTL acc e).1.
Proof.
  destruct acc as [d removed]. unfold sweep_entry. cbn [fst].
  assert (Hne : join SESSIONS_DIR e.1 <> k) by (intros E; pose proof (not_sessions e.1) as Hn; unfold in_tree in Hn; by rewrite E, bool_decide_eq_true_2 in Hn).
  assert (H1 : kept k d (remove_file io d (join SESSIONS_DIR e.1)).1) by (by apply kept_eq, remove_file_other).
  assert (H2 : kept k d (remove_dir_all io d (join SESSIONS_DIR e.1)).1) by (apply kept_eq, remove_dir_all_other, not_sessions).
  repeat (case_match; cbn [fst]; try first [exact H1|exact H2|apply kept_refl]).
Qed.

Lemma sweep_objects_kept now indexed acc e d0 : k ∈ indexed -> e ∈ entries d0 OBJECTS_DIR -> (d0 !! k = acc.1 !! k \/ acc.1 !! k = None) ->
  kept k acc.1 (sweep_entry io now indexed OBJECTS_DIR ATTACHMENT_TTL acc e).1.
Proof.
  intros Hin He Hd0. destruct acc as [d removed], e as [name node]. apply entries_spec in He; [|done]. unfold sweep_entry. cbn [fst snd] in *.
  destruct (negb _); [apply kept_refl|]. destruct (decide (join OBJECTS_DIR name = k)) as [E|E].
  - rewrite E in *. case_decide as Hl.
    + subst node. unfold remove_file. destruct (d !! k) as [n|] eqn:Ed; [|apply kept_refl]. destruct Hd0 as [Hd0|Hd0]; [|done]. rewrite He in Hd0. injection Hd0 as <-.
      destruct (io_ok io _); [|apply kept_refl]. right. split; [done|]. apply lookup_delete_eq.
    + rewrite decide_True by done. apply kept_refl.
  - assert (H1 : kept k d (remove_file io d (join OBJECTS_DIR name)).1) by (by apply kept_eq, remove_file_other).
    case_decide; [exact H1|]. case_decide; [apply kept_refl|]. case_decide; [apply kept_refl|]. case_decide; [apply kept_refl|].
    rewrite decide_False by (intros [? _]; done). destruct node; try apply kept_refl; (case_decide; [exact H1|apply kept_refl]).
Qed.

Lemma sweep_legacy_kept now acc e d0 : e ∈ entries d0 "" -> kept k acc.1 (sweep_legacy_entry io now acc e).1.
Proof.
  intros He. destruct acc as [d removed], e as [name node]. apply root_entries_plain in He. unfold sweep_legacy_entry. cbn [fst snd].
  assert (Hne : name <> k) by (intros ->; apply He; rewrite Hk; apply object_path_slash).
  assert (H1 : kept k d (remove_file io d name).1) by (by apply kept_eq, remove_file_other).
  repeat (case_match; cbn [fst]; try first [exact H1|apply kept_refl]); destruct (remove_file io d name); exact H1.
Qed.

(** The objects sweep walks over the entries of the directory it started on. *)
Lemma sweep_objects_foldl now indexed d0 l acc : k ∈ indexed -> (forall e, e ∈ l -> e ∈ entries d0 OBJECTS_DIR) -> (d0 !! k = acc.1 !! k \/ acc.1 !! k = None) ->
  kept k acc.1 (foldl (sweep_entry io now indexed OBJECTS_DIR ATTACHMENT_TTL) acc l).1.
Proof.
  intros Hin. revert acc. induction l as [|e l IH]; intros acc Hl Hd0; [apply kept_refl|]. cbn [foldl].
  assert (H1 : kept k acc.1 (sweep_entry io now indexed OBJECTS_DIR ATTACHMENT_TTL acc e).1) by (eapply sweep_objects_kept; [done|apply Hl; left|done]).
  eapply kept_trans; [exact H1|]. apply IH; [intros x Hx; apply Hl; by right|]. destruct H1 as [E|[_ E]]; [rewrite E; done|by right].
Qed.

Lemma cleanup_disk_kept w now key r : attachments w !! key = Some r -> r_rel_path r = k -> kept k (disk w) (disk (cleanup_disk io w now).1).
Proof.
  intros Hr Hp. unfold cleanup_disk. cbv zeta. set (indexed := list_to_set _). assert (Hin : k ∈ indexed).
  { unfold indexed. apply elem_of_list_to_set, list_elem_of_fmap. exists (key, r). split; [done|]. by apply elem_of_map_to_list. }
  clearbody indexed. cbn [fst set_disk disk]. set (a1 := sweep io now indexed SESSIONS_DIR SESSION_TTL _).
  assert (H1 : kept k (disk w) a1.1). { unfold a1, sweep. case_match; [|apply kept_refl]. apply (kept_foldl k _ _ (disk w, 0%nat)). intros acc e _. apply sweep_sessions_kept. }
  set (a2 := sweep io now indexed OBJECTS_DIR ATTACHMENT_TTL a1).
  assert (H2 : kept k a1.1 a2.1). { unfold a2, sweep. case_match; [|apply kept_refl]. apply (sweep_objects_foldl now indexed a1.1); [done|done|by left]. }
  eapply kept_trans; [exact H1|]. eapply kept_trans; [exact H2|]. case_match; [|apply kept_refl]. apply kept_foldl. intros acc e He. by eapply sweep_legacy_kept.
Qed.

End Sweep.

Lemma expire_sessions_disk w l k rest : k = String o_char rest -> (forall id s, (id, s) ∈ l -> session_ok id s) ->
  disk (foldl (expire_session io) w l) !! k = disk w !! k.
Proof.
  intros Hk. revert w. induction l as [|[id s] l IH]; intros w Hl; [done|]. cbn [foldl]. rewrite IH by (intros; apply Hl; by right).
  unfold expire_session, remove_session_dir. cbn [fst snd set_disk set_sessions disk]. rewrite remove_dir_all_other by (subst k; apply in_tree_head; intros [=]).
  apply close_files_other. intros (item & E & Hin)%list_elem_of_fmap. apply list_elem_of_lookup in Hin as [j Hj]. destruct (session_parts id s) as [Hp _]; [apply Hl; left|].
  rewrite (Hp _ _ Hj) in E. subst k. destruct (part_path_head id j) as [t Ht]. rewrite Ht in E. discriminate.
Qed.

Lemma expire_attachments_disk w l k : (forall key r, (key, r) ∈ l -> r_rel_path r <> k) -> disk (foldl (expire_attachment io) w l) !! k = disk w !! k.
Proof.
  revert w. induction l as [|[key r] l IH]; intros w Hl; [done|]. cbn [foldl]. rewrite IH by (intros; eapply Hl; by right).
  unfold expire_attachment. cbn [fst snd set_disk set_attachments disk]. apply remove_file_other. eapply Hl. left.
Qed.

Lemma cleanup_kept w key r : world_ok w -> attachments_ok w -> attachments w !! key = Some r -> ~ at_expires_at (r_attachment r) <= io_clock io AtCleanup ->
  kept (r_rel_path r) (disk w) (disk (cleanup io w).1).
Proof.
  intros Hw Ha Hr Hlive. pose proof (Ha _ _ Hr) as [Hkey Hdot Hpath]. set (k := r_rel_path r) in *. destruct (object_path_head key (at_media_type (r_attachment r))) as [rest Hrest].
  assert (Hk : k = String o_char rest) by congruence. unfold cleanup. cbv zeta. set (now := io_clock io AtCleanup) in *.
  set (xs := filter _ (map_to_list (sessions w))). set (xa := filter _ (map_to_list (attachments w))).
  destruct (expire_sessions_all io w xs) as (_ & A1 & _).
  assert (D1 : disk (foldl (expire_session io) w xs) !! k = disk w !! k).
  { eapply expire_sessions_disk; [exact Hk|]. intros id s [_ Hin]%list_elem_of_filter. apply elem_of_map_to_list in Hin. by apply (wo_session w Hw). }
  set (w1 := foldl (expire_session io) w xs) in *. set (w2 := set_tombstones _ w1). destruct (expire_attachments_all io w2 xa) as (A2 & _ & _).
  assert (D2 : disk (foldl (expire_attachment io) w2 xa) !! k = disk w2 !! k).
  { apply expire_attachments_disk. intros key' r' [Hx Hin]%list_elem_of_filter E. apply elem_of_map_to_list in Hin. cbn in Hx. destruct (Ha _ _ Hin) as [_ Hdot' Hpath'].
    assert (key' = key) as -> by (eapply object_path_inj; [done..|]; rewrite <- Hpath', <- Hpath; exact E). assert (r' = r) as -> by congruence. tauto. }
  set (w3 := foldl (expire_attachment io) w2 xa) in *. assert (Hlive3 : attachments w3 !! key = Some r).
  { rewrite A2. unfold w2. cbn [set_tombstones attachments]. rewrite A1. unfold xa. rewrite delete_expired. apply map_lookup_filter_Some. done. }
  pose proof (cleanup_disk_kept k key _ Hpath w3 now key r Hlive3 eq_refl) as D3. destruct (cleanup_disk io w3 now) as [w4 swept]. cbn [fst] in *.
  assert (D4 : disk (if decide (xa = []) then w4 else (persist_locked io w4).1) !! k = disk w4 !! k) by (case_decide; [done|]; by eapply persist_disk_other).
  unfold kept in *. rewrite D4. rewrite D2 in D3. unfold w2 in D3. cbn [set_tombstones disk] in D3. by rewrite D1 in D3.
Qed.

(** A reference resolves exactly when it should: the answer is the
    attachment of a registered record which has not expired, whose scope is the
    asking target (for a record restored from disk the target without its
    generation), and whose object is still a regular file of the recorded size
    that can be opened; the sweep that runs first does not get in the way. *)
Theorem resolve_exactly_live (w : World) (target : TargetRef) (reference : string) (a : Attachment) : world_ok w -> attachments_ok w ->
  (resolve io target reference w).2 = Ok a <->
  exists r data, attachments w !! reference = Some r /\ r_attachment r = a /\ io_clock io AtCleanup < at_expires_at a /\
    attachment_target_matches r target = true /\ disk w !! r_rel_path r = Some (NFile data) /\ Z.of_nat (length data) = at_bytes a /\
    io_ok io (Lstat (r_rel_path r)) && (io_ok io (OpenRead (r_rel_path r)) && io_ok io (Fstat (r_rel_path r)) && io_same io (r_rel_path r)) = true.
Proof.
  intros Hw Ha. destruct (cleanup_maps io w) as (_ & _ & Ea). unfold resolve. cbv zeta.
  destruct (attachments (cleanup io w).1 !! reference) as [r|] eqn:Er.
  - rewrite Ea in Er. apply map_lookup_filter_Some in Er as [Hr Hlive]. cbn in Hlive. pose proof (cleanup_kept w reference r Hw Ha Hr Hlive) as Hkept.
    destruct (attachment_target_matches r target) eqn:Hm; cbn [negb]; [|split; [done|]; intros (r' & _ & Hr' & _ & _ & Hm' & _); congruence].
    unfold open_attachment, lstat. destruct (io_ok io (Lstat (r_rel_path r))) eqn:Hls.
    2:{ cbn. split; [intros Hx; exfalso; revert Hx; by destruct (persist_locked io _) as [? []]|]. intros (r' & data & Hr' & _ & _ & _ & _ & _ & Hok). assert (r' = r) as -> by congruence. by rewrite Hls in Hok. }
    split.
    + intros Hok. destruct (disk (cleanup io w).1 !! r_rel_path r) as [[| | |data|]|] eqn:Ed;
        try (exfalso; revert Hok; cbn; by destruct (persist_locked io _) as [? []]).
      destruct (io_ok io (OpenRead _) && io_ok io (Fstat _) && io_same io _) eqn:Hopen; [|exfalso; revert Hok; cbn; by destruct (persist_locked io _) as [? []]].
      cbn [mbind result_bind] in Hok. case_decide as Hsz; [|exfalso; revert Hok; cbn; by destruct (persist_locked io _) as [? []]]. cbn in Hok. injection Hok as <-.
      exists r, data. split_and!; [done|done|lia|done| |done|by rewrite Hls, Hopen]. destruct Hkept as [E|[_ E]]; congruence.
    + intros (r' & data & Hr' & <- & _ & _ & Hd & Hsz & Hok). assert (r' = r) as -> by congruence. rewrite Hls in Hok. cbn [andb] in Hok.
      assert (Ed : disk (cleanup io w).1 !! r_rel_path r = Some (NFile data)) by (destruct Hkept as [->|[E _]]; congruence).
      rewrite Ed, Hok. cbn [mbind result_bind]. by rewrite decide_True.
  - split; [done|]. intros (r & data & Hr & <- & Hlive & _). rewrite Ea in Er. apply map_lookup_filter_None in Er as [Er|Er]; [congruence|].
    exfalso. apply (Er _ Hr). cbn. lia.
Qed.

End Resolve.

Import E2eeInstances UploadsDemo.

Lemma finished_ok : world_ok demo_world /\ attachments_ok demo_world.
Proof.
  assert (Hf : finish demo_dir json_any (calm 10 1003) demo_finish uploaded = Some (demo_world, Ok demo_attachments)) by (vm_compute; reflexivity).
  split; [exact (finish_keeps demo_dir json_any (calm 10 1003) _ _ _ _ uploaded_ok Hf)|].
  apply (finish_attachments_ok demo_dir json_any (calm 10 1003) _ _ _ _ (calm_fresh 10 1003 ltac:(lia))) with (2 := Hf).
  intros key r Hr. exfalso. assert (E : attachments uploaded = ∅) by (vm_compute; reflexivity). rewrite E, lookup_empty in Hr. discriminate Hr.
Qed.

Lemma resolve_exactly_live_witness : exists a, (resolve (calm 0 2000) demo_target demo_ref demo_world).2 = Ok a /\ at_bytes a = 5.
Proof.
  assert (Ha : attachments demo_world !! demo_ref = Some (mkRecord (default (mkAttachment "" "" "" 0 "" 0 "") (demo_attachments !! 0%nat)) demo_target
    (object_path demo_ref "text/plain") false)) by (vm_compute; reflexivity).
  assert (Hd : disk demo_world !! object_path demo_ref "text/plain" = Some (NFile demo_data)) by (vm_compute; reflexivity).
  eexists. split; [|shelve]. apply (proj2 (resolve_exactly_live (calm 0 2000) demo_world demo_target demo_ref _ (proj1 finished_ok) (proj2 finished_ok))).
  eexists _, demo_data. split; [exact Ha|]. split; [reflexivity|]. split; [vm_compute; reflexivity|]. split; [vm_compute; reflexivity|].
  split; [exact Hd|]. split; vm_compute; reflexivity. Unshelve. vm_compute. reflexivity.
Defined.

End UploadsResolve.
