(* ===== verification/UploadsRestart.v ===== *)
(** * Attachments across a restart

    The index that a finished upload leaves is read back by the next run: the
    document, its timestamps and its object names survive
    [persist_locked] of one process and [load_attachments] of the next. *)

From S2P Require Import Prelude Utf8 Json JsonWire GoJson Inbound Protocol WriteAudit E2eeCodec UploadTime UploadSpec UploadFile UploadDisk UploadIndex Uploads UploadsInvariant UploadsFinish UploadsSteps.

Module UploadsRestart.
Import Utf8 Json Inbound UploadSpec UploadFile UploadDisk UploadState UploadIndex Uploads UploadsInvariant UploadsFinish UploadsSteps.

(** ** The document *)

(** What the number formats of the document hold. *)
Definition stampable (a : DiskAttachment) : Prop := is_i64 (da_bytes a) /\ - 2 ^ 64 < da_expires_at a < 2 ^ 64.

Lemma de_i64_int z : is_i64 z -> JsonWire.de_i64 (Some (json_int z)) = Some z.
Proof. unfold is_i64, json_int. intros Hz. case_decide; cbn; [rewrite decide_True by lia|]; done. Qed.

Ltac closed_fields := unfold de_closed; rewrite decide_True by (cbn [fst]; repeat constructor; set_solver); cbn [mbind option_bind].

Lemma de_attachment_json a : stampable a -> de_attachment (attachment_json a) = Some a.
Proof.
  intros [Hb Ht]. unfold de_attachment, attachment_json. closed_fields. set (n := json_int (da_bytes a)). set (t := UploadTime.format_timestamp (da_expires_at a)).
  assert (Hn : JsonWire.de_i64 (Some n) = Some (da_bytes a)) by (by apply de_i64_int).
  assert (Hp : UploadTime.parse_timestamp t = Some (da_expires_at a)) by (by apply UploadTime.parse_format). clearbody n t. destruct a as [a1 a2 a3 a4 a5 a6].
  cbn [da_reference da_name da_media_type da_bytes da_sha256 da_expires_at] in *.
  change (JsonWire.de_struct _ _) with (Some [Some (JString a1); Some (JString a2); Some (JString a3); Some n; Some (JString a5); Some (JString t)]).
  cbn [mbind option_bind JsonWire.de_string]. rewrite Hn. cbn [mbind option_bind de_or de_timestamp as_str]. by rewrite Hp.
Qed.

Lemma de_record_json r : stampable (dr_attachment r) -> de_record (record_json r) = Some r.
Proof.
  intros Ha. unfold de_record, record_json. closed_fields. pose proof (de_attachment_json _ Ha) as E.
  destruct r as [a [t1 t2 t3 t4] p]. cbn [dr_attachment dr_target dr_rel_path] in *. assert (Hobj : exists ms, attachment_json a = JObject ms) by (by eexists).
  set (v := attachment_json a) in *. clearbody v. set (t := target_json (mkDiskTarget t1 t2 t3 t4)).
  assert (Et : de_or no_target de_disk_target (Some t) = Some (mkDiskTarget t1 t2 t3 t4)) by (vm_compute; reflexivity). clearbody t.
  change (JsonWire.de_struct _ _) with (Some [Some v; Some t; Some (JString p)]). cbn [mbind option_bind]. destruct Hobj as [ms ->]. change (de_or no_attachment de_attachment (Some (JObject ms))) with (de_attachment (JObject ms)). rewrite E. cbn [mbind option_bind].
  rewrite Et. reflexivity.
Qed.

Lemma de_index_json i : di_schema_version i = INDEX_VERSION -> Forall (fun r => stampable (dr_attachment r)) (di_attachments i) -> de_index (index_json i) = Some i.
Proof.
  intros Hv Ha. unfold de_index, index_json. closed_fields. destruct i as [v l]. cbn [di_schema_version di_attachments] in *. subst v.
  change (JsonWire.de_struct _ _) with (Some [Some (json_int INDEX_VERSION); Some (JArray (record_json <$> l))]).
  cbn [mbind option_bind]. change (JsonWire.de_i64 (Some (json_int INDEX_VERSION))) with (Some INDEX_VERSION). cbn [mbind option_bind de_or as_array].
  assert (Hm : mapM de_record (record_json <$> l) = Some l) by (apply mapM_Some, Forall2_fmap_l, Forall_Forall2_diag; eapply Forall_impl; [exact Ha|exact de_record_json]).
  by rewrite Hm.
Qed.

(** ** The records of the index *)

Lemma elem_of_index m r : r ∈ di_attachments (index_of m) <-> exists key record, m !! key = Some record /\ r = disk_record record.
Proof.
  unfold index_of. cbn [di_attachments]. rewrite merge_sort_Permutation, list_elem_of_fmap. setoid_rewrite list_elem_of_fmap. split.
  - intros (record & -> & [k x] & -> & Hin). apply elem_of_map_to_list in Hin. eauto.
  - intros (key & record & Hr & ->). exists record. split; [done|]. exists (key, record). split; [done|]. by apply elem_of_map_to_list.
Qed.

Lemma index_NoDup m : (forall key r, m !! key = Some r -> record_ok key r) -> NoDup ((fun r => da_reference (dr_attachment r)) <$> di_attachments (index_of m)).
Proof.
  intros Hm. unfold index_of. cbn [di_attachments]. rewrite merge_sort_Permutation. rewrite <- !list_fmap_compose.
  assert (E : ((fun r => da_reference (dr_attachment r)) ∘ disk_record ∘ snd) <$> map_to_list m = (map_to_list m).*1).
  { apply list_fmap_ext. intros i [k r] Hi. cbn. apply (Hm k). apply elem_of_map_to_list. by eapply list_elem_of_lookup_2. }
  rewrite E. apply NoDup_fst_map_to_list.
Qed.

Section Restart.
Context `{CM : Protocol.CaseMapping} `{DG : WriteAudit.Digest} `{B64 : E2eeCodec.Base64} `{LB : !E2eeCodec.Base64Laws} `{SB : !StrictBase64} `{FT : GoJson.FloatText}.
Context `{DJ : DocumentJson} (dir : string).

(** The object of a stored record, as the loader sees it. *)
Definition intact (io : Io) (d : Disk) (stored : DiskAttachmentRecord) : Prop :=
  exists data, d !! dr_rel_path stored = Some (NFile data) /\ Z.of_nat (length data) = da_bytes (dr_attachment stored) /\
    io_ok io (Lstat (dr_rel_path stored)) = true /\
    io_ok io (OpenRead (dr_rel_path stored)) && io_ok io (Fstat (dr_rel_path stored)) && io_same io (dr_rel_path stored) = true.

Lemma usable_path stored : record_usable stored = true ->
  dr_rel_path stored = object_path (da_reference (dr_attachment stored)) (da_media_type (dr_attachment stored)) /\ 46 ∉ as_bytes (da_reference (dr_attachment stored)).
Proof.
  unfold record_usable. rewrite !andb_true_iff. intros [[[[[Hid _] _] _] Hp] _]. apply bool_decide_eq_true in Hp. split; [done|].
  destruct (E2eeCodec.b64_decode _) as [b|] eqn:E; [|done]. apply url_safe_dot. by eapply b64_strict.
Qed.

(** Loading another record leaves this one's entry and object. *)
Lemma load_other io now acc other stored : record_usable stored = true -> da_reference (dr_attachment other) <> da_reference (dr_attachment stored) ->
  attachments (load_record dir io now acc other).1 !! da_reference (dr_attachment stored) = attachments acc.1 !! da_reference (dr_attachment stored) /\
  disk (load_record dir io now acc other).1 !! dr_rel_path stored = disk acc.1 !! dr_rel_path stored.
Proof.
  intros Hu Hne. destruct acc as [w dropped]. unfold load_record. cbn [fst]. destruct (record_usable other) eqn:Ho; cbn [negb]; [|done].
  destruct (usable_path _ Hu) as [Hp Hd], (usable_path _ Ho) as [Hp' Hd'].
  case_decide; [cbn [fst set_disk attachments disk]; split; [done|]; apply remove_file_other; rewrite Hp, Hp'; intros E; by apply object_path_inj in E|].
  case_decide; [done|]. destruct (open_attachment io (disk w) _); [|done]. case_decide; [done|]. cbn [fst set_attachments attachments disk]. by rewrite lookup_insert_ne.
Qed.

Lemma load_others io now l acc stored : record_usable stored = true -> da_reference (dr_attachment stored) ∉ (fun r => da_reference (dr_attachment r)) <$> l ->
  attachments (foldl (load_record dir io now) acc l).1 !! da_reference (dr_attachment stored) = attachments acc.1 !! da_reference (dr_attachment stored) /\
  disk (foldl (load_record dir io now) acc l).1 !! dr_rel_path stored = disk acc.1 !! dr_rel_path stored.
Proof.
  intros Hu. revert acc. induction l as [|x l IH]; intros acc Hl; [done|]. cbn [fmap list_fmap] in Hl. apply not_elem_of_cons in Hl as [H1 H2]. cbn [foldl].
  destruct (IH (load_record dir io now acc x) H2) as [-> ->]. by apply load_other.
Qed.

(** A usable, live record with its object is loaded. *)
Lemma load_one io now l1 stored l2 d : record_usable stored = true -> now < da_expires_at (dr_attachment stored) -> intact io d stored ->
  NoDup ((fun r => da_reference (dr_attachment r)) <$> l1 ++ stored :: l2) ->
  attachments (foldl (load_record dir io now) (mkWorld ∅ ∅ ∅ d 0, 0%nat) (l1 ++ stored :: l2)).1 !! da_reference (dr_attachment stored) = Some (restored dir stored).
Proof.
  intros Hu Hlive (data & Hd & Hsz & Hls & Hopen) Hnd. rewrite fmap_app in Hnd. cbn [fmap list_fmap] in Hnd. apply NoDup_app in Hnd as (_ & Hdis & Hnd2).
  apply NoDup_cons in Hnd2 as [Hl2 _]. rewrite foldl_app. cbn [foldl]. destruct (load_others io now l2 (load_record dir io now (foldl (load_record dir io now) (mkWorld ∅ ∅ ∅ d 0, 0%nat) l1) stored) stored Hu Hl2) as [-> _].
  assert (Hl1 : da_reference (dr_attachment stored) ∉ (fun r => da_reference (dr_attachment r)) <$> l1) by (intros Hin; apply (Hdis _ Hin); left).
  destruct (load_others io now l1 (mkWorld ∅ ∅ ∅ d 0, 0%nat) stored Hu Hl1) as [Ea Ed]. destruct (foldl _ _ l1) as [w dropped]. cbn [fst attachments disk] in *.
  unfold load_record. rewrite Hu. cbn [negb]. rewrite decide_False by lia. rewrite decide_False by (rewrite Ea; intros [? ?]; done).
  unfold open_attachment, lstat. rewrite Hls, Ed, Hd, Hopen. rewrite decide_False by (intros Hx; by apply Hx). cbn [fst set_attachments attachments]. apply lookup_insert_eq.
Qed.

(** The next run reads the index at [now]. *)
Definition index_readable (io : Io) (m : gmap string AttachmentRecord) : Prop :=
  io_ok io (Lstat INDEX_FILENAME) = true /\ io_ok io (OpenRead INDEX_FILENAME) = true /\ Z.of_nat (length (index_text m)) <= MAX_INDEX_BYTES /\
  from_slice (index_text m) = Some (index_json (index_of m)).

Lemma load_persisted io m d key r : (forall key r, m !! key = Some r -> record_ok key r /\ stampable (dr_attachment (disk_record r))) ->
  d !! INDEX_FILENAME = Some (NFile (index_text m)) -> index_readable io m -> m !! key = Some r ->
  record_usable (disk_record r) = true -> io_clock io AtLoad < at_expires_at (r_attachment r) -> intact io d (disk_record r) ->
  attachments (load_attachments dir io (mkWorld ∅ ∅ ∅ d 0)).1 !! key = Some (restored dir (disk_record r)).
Proof.
  intros Hm Hd (H1 & H2 & H3 & H4) Hr Hu Hlive Hobj. unfold load_attachments, lstat. cbn [disk]. rewrite H1, Hd, H2. cbn [negb]. rewrite decide_False by lia.
  rewrite H4. cbn [mbind option_bind]. rewrite de_index_json; [|done|].
  2:{ apply Forall_forall. intros x (k & rec & Hk & ->)%elem_of_index. by apply (Hm k). }
  rewrite decide_False by (intros Hx; by apply Hx). assert (Hin : disk_record r ∈ di_attachments (index_of m)) by (apply elem_of_index; eauto).
  apply list_elem_of_split in Hin as (l1 & l2 & E). pose proof (index_NoDup m (fun k x Hx => proj1 (Hm k x Hx))) as Hnd. rewrite E in *.
  pose proof (load_one io (io_clock io AtLoad) l1 (disk_record r) l2 d Hu Hlive Hobj Hnd) as Hl.
  destruct (foldl _ _ _) as [w dropped]. cbn [fst] in *. assert (Ek : da_reference (dr_attachment (disk_record r)) = key) by apply (Hm key r Hr). by rewrite Ek in Hl.
Qed.

(** ** Published records are usable *)

(** Lower-casing leaves lower-case ASCII alone; a digest is written as 64 hex
    digits. *)
Definition lower_ascii (c : Z) : bool := in_range 0 127 c && negb (in_range 65 90 c).
Context (lower_fixed : forall s, forallb lower_ascii (as_bytes s) = true -> Protocol.to_lowercase s = s).
Context (digest_hex : forall b, valid_digest (WriteAudit.sha256_hex b) = true).

(** A media type of the table, as it is read again. *)
Lemma media_type_fixed m allowed : allowed_extensions m = Some allowed -> Protocol.to_lowercase (trim (string_of_bytes (before 59 (as_bytes m)))) = m.
Proof.
  unfold allowed_extensions. destruct (list_find _ _) as [[i [m' exts]]|] eqn:E; [|done]. apply list_find_Some in E as (Hi & Hm & _). cbn in Hm. subst m'. intros _.
  assert (Hall : Forall (fun e => trim (string_of_bytes (before 59 (as_bytes e.1))) = e.1 /\ forallb lower_ascii (as_bytes e.1) = true) media_types).
  { apply (bool_decide_eq_true_1 _). vm_compute. reflexivity. }
  rewrite Forall_lookup in Hall. destruct (Hall _ _ Hi) as [Ht Hl]. cbn [fst] in *. rewrite Ht. by apply lower_fixed.
Qed.

Lemma normalize_again declared spec : normalize_spec declared = Ok spec -> normalize_spec spec = Ok spec.
Proof.
  intros Hn. destruct (normalize_spec_ok _ _ Hn) as (_ & _ & _ & _ & Hb & _ & allowed & Ha & He). pose proof (media_type_fixed _ _ Ha) as Hm.
  unfold normalize_spec in Hn. cbv zeta in Hn. case_decide as Hname; [done|]. case_decide as Hbytes; [done|]. destruct (allowed_extensions _) as [al|]; [|done].
  case_decide as Hext; [|done]. injection Hn as <-. cbn [fs_name fs_media_type fs_bytes] in *.
  unfold normalize_spec. cbv zeta. cbn [fs_name fs_media_type fs_bytes]. rewrite decide_False by done. rewrite decide_False by done. rewrite Hm, Ha. by rewrite decide_True.
Qed.

Lemma published_usable io target expires n item all path r : fresh_draws io -> published_as dir io target expires n item r -> file_ok path all item ->
  valid_target target = true -> 0 <= expires < 2 ^ 64 -> record_usable (disk_record r) = true /\ stampable (dr_attachment (disk_record r)).
Proof.
  intros Hf (reference & Hid & Hp & Ht & _ & Ha) Hfile Hvt Hx. pose proof (fo_size _ _ _ Hfile) as Hsz. destruct Hfile as [_ _ _ _ _ _ [declared Hd]].
  apply opaque_id_Ok in Hid as (b & Hb & ->). destruct (fd_bytes io Hf _ _ Hb) as [Hu Hl]. split.
  - unfold record_usable, disk_record. cbn [dr_attachment dr_target dr_rel_path da_reference da_name da_media_type da_bytes da_sha256 da_expires_at].
    rewrite Ha, Ht, Hp. cbn [at_reference at_name at_media_type at_bytes at_sha256 at_expires_at]. rewrite E2eeCodec.b64_roundtrip by done.
    rewrite (bool_decide_eq_true_2 (length b = 24%nat)) by done. rewrite bool_decide_eq_true_2 by done. rewrite digest_hex.
    assert (Hn : is_ok (normalize_spec (mkSpec (fs_name (f_spec item)) (fs_media_type (f_spec item)) (fs_bytes (f_spec item)))) = true).
    { pose proof (normalize_again _ _ Hd) as E. destruct (f_spec item). cbn in *. by rewrite E. }
    rewrite Hn. unfold valid_target in Hvt. rewrite !andb_true_iff in Hvt. destruct Hvt as [[[H1 H2] H3] _]. unfold valid_disk_target. cbn. rewrite H1, H2, H3. cbn.
    unfold UploadTime.is_zero_time. rewrite bool_decide_eq_false_2 by lia. done.
  - unfold stampable, disk_record. cbn [dr_attachment da_bytes da_expires_at]. rewrite Ha. cbn [at_bytes at_expires_at]. unfold is_i64, i64_min, i64_max, MAX_FILE_BYTES in *. lia.
Qed.

(** The same agent of the same pane, in whatever generation. *)
Definition same_scope (a b : TargetRef) : Prop :=
  t_server_session_id a = t_server_session_id b /\ t_pane_id a = t_pane_id b /\ t_terminal_id a = t_terminal_id b /\ t_agent_session_id a = t_agent_session_id b.

(** A process whose reads succeed. *)
Definition reads (io : Io) : Prop := forall path, io_ok io (Lstat path) = true /\ io_ok io (OpenRead path) = true /\ io_ok io (Fstat path) = true /\ io_same io path = true.

Lemma insert_all_inv pending m key r : insert_all pending m !! key = Some r -> m !! key = Some r \/ r ∈ pending.
Proof.
  revert m. induction pending as [|x pending IH]; intros m; [by left|]. cbn. intros Hr. apply IH in Hr as [Hr|Hr]; [|right; by right].
  apply lookup_insert_Some in Hr as [[_ <-]|[_ Hr]]; [right; left|by left].
Qed.

(** An index above the limit is not read at all: no attachment of an earlier
    process is known. *)
Lemma oversized_index_refused io d b : d !! INDEX_FILENAME = Some (NFile b) -> MAX_INDEX_BYTES < Z.of_nat (length b) ->
  attachments (load_attachments dir io (mkWorld ∅ ∅ ∅ d 0)).1 = ∅ /\ is_ok (load_attachments dir io (mkWorld ∅ ∅ ∅ d 0)).2 = false.
Proof.
  intros Hd Hlen. unfold load_attachments, lstat. cbn [disk]. destruct (io_ok io (Lstat INDEX_FILENAME)); [|done]. rewrite Hd. destruct (io_ok io (OpenRead INDEX_FILENAME)); [|done]. cbn [negb]. by rewrite decide_True by done.
Qed.

(** C31 — A finished upload survives a restart: if the index which [finish] left
    is not longer than the 16 MiB the next process accepts (nothing bounds it
    when it is written, and [oversized_index_refused] says what happens above)
    and the next process can read it, then until seven days after the upload each
    attachment [finish] answered with is there again, with the same reference,
    name, type, size, digest, expiry and path, and answers for the same agent in
    whatever generation its pane is by then. *)
Theorem finished_upload_survives_restart (json_ok : bytes -> bool) (io next : Io) (w w' : World) (request : FinishRequest) (s : Session) (atts : list Attachment) :
  world_ok w -> attachments_ok w -> (forall key r, attachments w !! key = Some r -> stampable (dr_attachment (disk_record r))) -> fresh_draws io ->
  0 <= io_clock io AtPublish < 2 ^ 63 -> sessions w !! fr_upload_id request = Some s -> finish dir json_ok io request w = Some (w', Ok atts) ->
  reads next -> index_readable next (attachments w') -> io_clock next AtLoad < io_clock io AtPublish + ATTACHMENT_TTL ->
  forall a, a ∈ atts -> exists r, attachments (load_attachments dir next (mkWorld ∅ ∅ ∅ (disk w') 0)).1 !! at_reference a = Some r /\ r_attachment r = a /\
    forall target, same_scope (fr_target request) target -> attachment_target_matches r target = true.
Proof.
  intros Hw Ha Hst Hf Hclock Hin Hfin Hreads Hidx Hlive a Hin_a. pose proof (wo_session w Hw _ _ Hin) as Hs.
  pose proof (finish_attachments_ok dir json_ok io request w w' (Ok atts) Hf Ha Hfin) as Ha'.
  destruct (finish_ok _ _ _ _ _ _ _ _ Hw Hf Hin Hfin) as (_ & pending & -> & Hl & Hm & Hdisk & Hall).
  assert (Htgt : valid_target (fr_target request) = true).
  { unfold finish in Hfin. cbv zeta in Hfin. destruct (lock_session io w _ _ _) as [w1 [s1|e]] eqn:El; [|done].
    destruct (lock_session_spec _ _ _ _ _ _ _ El) as (_ & _ & _ & Hin1 & <- & _). assert (s1 = s) as -> by congruence. apply Hs. }
  assert (Hpend : forall r, r ∈ pending -> exists i item, s_files s !! i = Some item /\
    published_as dir io (fr_target request) (io_clock io AtPublish + ATTACHMENT_TTL) i item r /\ attachments w' !! at_reference (r_attachment r) = Some r /\
    published json_ok w' request i item (r_attachment r)).
  { intros r Hr. apply list_elem_of_lookup in Hr as [i Hi]. destruct (lookup_lt_is_Some_2 (s_files s) i) as [item Hitem]; [apply lookup_lt_Some in Hi; lia|].
    destruct (Hall _ _ Hitem) as (r' & Hr' & Has & Hp). assert (r' = r) as -> by congruence. exists i, item. done. }
  assert (Hx : 0 <= io_clock io AtPublish + ATTACHMENT_TTL < 2 ^ 64) by (unfold ATTACHMENT_TTL; lia).
  assert (Huse : forall r, r ∈ pending -> record_usable (disk_record r) = true /\ stampable (dr_attachment (disk_record r))).
  { intros r Hr. destruct (Hpend r Hr) as (i & item & Hi & Has & _). destruct (so_file _ _ Hs _ _ Hi) as [all Hok]. by eapply published_usable. }
  apply list_elem_of_fmap in Hin_a as (r & -> & Hr). destruct (Hpend r Hr) as (i & item & Hi & Has & Hreg & Hp). destruct (Huse r Hr) as [Hus _].
  destruct Hp as (data & claimed & r0 & Ef & _ & Eb & _ & _ & _ & _ & Hreg0 & _ & _ & Hobj). assert (r0 = r) as -> by congruence.
  exists (restored dir (disk_record r)). split; [|split].
  - eapply load_persisted; [|exact Hdisk|exact Hidx|exact Hreg|exact Hus| |].
    + intros key x Hkx. split; [by apply Ha'|]. rewrite Hm in Hkx. apply insert_all_inv in Hkx as [Hkx|Hkx]; [by eapply Hst|by apply Huse].
    + destruct Has as (reference & _ & _ & _ & _ & ->). exact Hlive.
    + exists data. destruct (Hreads (r_rel_path r)) as (H1 & H2 & H3 & H4). cbn [disk_record dr_rel_path dr_attachment da_bytes]. by rewrite H1, H2, H3, H4.
  - destruct Has as (reference & _ & _ & _ & _ & Eat). unfold restored, disk_record. cbn. rewrite Eat. reflexivity.
  - intros target (E1 & E2 & E3 & E4). destruct Has as (reference & _ & _ & Et & _). unfold attachment_target_matches, restored, disk_record, to_target_ref. cbn.
    rewrite Et, E1, E2, E3, E4. by rewrite !bool_decide_eq_true_2.
Qed.

End Restart.

Import E2eeInstances UploadsDemo.

Lemma lower_bytes b : forallb lower_ascii b = true -> lower_byte <$> b = b.
Proof.
  induction b as [|c b IH]; [done|]. cbn [forallb fmap list_fmap]. intros [Hc Hb]%andb_prop. f_equal; [|by apply IH].
  unfold lower_ascii in Hc. apply andb_prop in Hc as [_ Hc]. apply negb_true_iff in Hc. unfold lower_byte. by rewrite Hc.
Qed.

Lemma ascii_lower_fixed s : forallb lower_ascii (as_bytes s) = true -> Protocol.to_lowercase s = s.
Proof. intros Hs. cbn [Protocol.to_lowercase ascii_lower]. rewrite lower_bytes by done. apply string_of_as_bytes. Qed.

Lemma length_digest_hex b : valid_digest (WriteAudit.sha256_hex b) = true.
Proof.
  cbn [WriteAudit.sha256_hex length_digest]. set (c := 48 + Z.of_nat (length b) mod 10). pose proof (Z.mod_pos_bound (Z.of_nat (length b)) 10 ltac:(lia)) as Hb.
  assert (Hc : 48 <= c <= 57) by (unfold c; lia). clearbody c. unfold valid_digest. rewrite <- as_bytes_length.
  rewrite as_bytes_of_bytes by (cbn [replicate]; each_of; unfold is_u8, u8_max; lia). rewrite bool_decide_eq_true_2 by apply length_replicate. cbn [andb].
  assert (Hh : is_hex c = true) by (unfold is_hex, in_range; by rewrite bool_decide_eq_true_2). cbn [replicate forallb]. by rewrite Hh.
Qed.

Definition next_run : World := (load_attachments demo_dir (calm 0 5000) (mkWorld ∅ ∅ ∅ (disk demo_world) 0)).1.

Lemma finished_upload_survives_restart_witness : exists r, attachments next_run !! demo_ref = Some r /\ r_persisted_scope r = true /\ at_bytes (r_attachment r) = 5.
Proof.
  assert (Hs : sessions uploaded !! fr_upload_id demo_finish = Some demo_session) by (vm_compute; reflexivity).
  assert (Hf : finish demo_dir json_any (calm 10 1003) demo_finish uploaded = Some (demo_world, Ok demo_attachments)) by (vm_compute; reflexivity).
  assert (E : attachments uploaded = ∅) by (vm_compute; reflexivity).
  assert (Hnone : forall key r, ~ attachments uploaded !! key = Some r) by (intros key r Hr; rewrite E, lookup_empty in Hr; discriminate Hr).
  assert (Hidx : index_readable (calm 0 5000) (attachments demo_world)).
  { split; [reflexivity|]. split; [reflexivity|]. split; [|vm_compute; reflexivity]. apply (bool_decide_eq_true_1 (Z.of_nat _ <= _)). vm_compute. reflexivity. }
  set (a := default (mkAttachment "" "" "" 0 "" 0 "") (demo_attachments !! 0%nat)).
  assert (Ha : a ∈ demo_attachments) by (apply list_elem_of_lookup; exists 0%nat; vm_compute; reflexivity).
  pose proof (finished_upload_survives_restart demo_dir ascii_lower_fixed length_digest_hex json_any (calm 10 1003) (calm 0 5000) uploaded demo_world demo_finish demo_session
    demo_attachments uploaded_ok (fun key r Hr => False_ind _ (Hnone key r Hr)) (fun key r Hr => False_ind _ (Hnone key r Hr)) (calm_fresh 10 1003 ltac:(lia))
    ltac:(cbn [io_clock calm]; lia) Hs Hf (fun path => conj eq_refl (conj eq_refl (conj eq_refl eq_refl))) Hidx ltac:(unfold ATTACHMENT_TTL; cbn [io_clock calm]; lia) a Ha) as (r & Hr & Hra & _).
  assert (Eref : at_reference a = demo_ref) by (vm_compute; reflexivity). rewrite Eref in Hr. exists r. split; [exact Hr|]. split; [|rewrite Hra; vm_compute; reflexivity].
  assert (Ep : r_persisted_scope <$> attachments next_run !! demo_ref = Some true) by (vm_compute; reflexivity). unfold next_run in Ep. rewrite Hr in Ep. cbn in Ep. congruence.
Defined.

End UploadsRestart.
