(* ===== verification/UploadHandlers.v ===== *)
(** * The upload actions

    The request decoders, the reply payloads and the five handlers of
    [lerdr-coord/src/actions/uploads.rs], over the manager of [Uploads] and the
    topology; and the expansion of attachment references in prompts. *)

From S2P Require Import Prelude Utf8 Lines Json JsonWire GoJson Inbound Protocol WriteAudit E2eeCodec Topology UploadBinary UploadTime UploadSpec UploadFile UploadDisk UploadIndex Uploads UploadsInvariant.

Module UploadHandlers.
Import Utf8 Json Inbound UploadSpec UploadFile UploadDisk UploadState UploadIndex Uploads UploadsInvariant.

(** ** Decoding *)

Definition default_target : TargetRef := mkTarget "" "" "" 0 "" "" "".
Definition target_or_default (message : Inbound) : TargetRef := default default_target (in_target message).

Definition decode_string (message : Inbound) (key : string) : option string :=
  match raw message key with
  | None | Some JNull => Some ""%string
  | Some (JString value) => Some value
  | Some _ => None
  end.

(** Integral floats below 2^53 become integers; integers stay. *)
Definition upload_normalize_number (n : number) : json :=
  match as_i64 (JNumber n), GoJson.as_f64_int n with
  | None, Some z => if decide (Z.abs z < 9007199254740992) then json_int z else JNumber n
  | _, _ => JNumber n
  end.
Definition upload_normalize : json -> json := GoJson.map_numbers upload_normalize_number.

Definition decode_int (message : Inbound) (key : string) : option Z :=
  match raw message key with
  | None | Some JNull => Some 0
  | Some value => as_i64 (upload_normalize value)
  end.

Definition decode_vec {A} (zero : A) (read : json -> option A) (message : Inbound) (key : string) : option (list A) :=
  match raw message key with
  | None | Some JNull => Some []
  | Some (JArray items) => mapM (fun item => match item with JNull => Some zero | _ => read (upload_normalize item) end) items
  | Some _ => None
  end.

Definition de_spec (v : json) : option FileSpec :=
  fs ← JsonWire.de_struct ["name"; "media_type"; "bytes"]%string v;
  match fs with
  | [a; b; c] => a ← JsonWire.de_string a; b ← JsonWire.de_string b; c ← JsonWire.de_i64 c; Some (mkSpec a b c)
  | _ => None
  end.

Definition de_digest (v : json) : option FileDigest :=
  fs ← JsonWire.de_struct ["file_index"; "sha256"]%string v;
  match fs with
  | [a; b] => a ← JsonWire.de_i64 a; b ← JsonWire.de_string b; Some (mkDigest a b)
  | _ => None
  end.

(** The standard base64 alphabet; line breaks are skipped before. *)
Class StandardBase64 := { std_encode : bytes -> string; std_decode : bytes -> option bytes }.

Definition decode_base64 `{StandardBase64} (value : string) : option bytes :=
  std_decode (filter (fun b => b <> 13 /\ b <> 10) (as_bytes value)).

Definition decode_begin (message : Inbound) : option BeginRequest :=
  files ← decode_vec (mkSpec "" "" 0) de_spec message "files";
  Some (mkBegin (target_or_default message) files).

Definition decode_chunk `{StandardBase64} (message : Inbound) : option ChunkRequest :=
  upload_id ← decode_string message "upload_id";
  file_index ← decode_int message "file_index";
  sequence ← decode_int message "sequence";
  data ← decode_base64 (in_data message);
  sha256 ← decode_string message "sha256";
  Some (mkChunk (target_or_default message) upload_id file_index sequence data sha256).

Definition decode_finish (message : Inbound) : option FinishRequest :=
  upload_id ← decode_string message "upload_id";
  files ← decode_vec (mkDigest 0 "") de_digest message "files";
  Some (mkFinish (target_or_default message) upload_id files).

Definition decode_cancel (message : Inbound) : option (TargetRef * string) :=
  upload_id ← decode_string message "upload_id"; Some (target_or_default message, upload_id).

(** ** Replies *)

Inductive ResultKind := KBegin | KChunk | KFinish | KCancel.

Definition type_str (k : ResultKind) : string :=
  match k with
  | KBegin => "upload_begin_result"
  | KChunk => "upload_chunk_result"
  | KFinish => "upload_finish_result"
  | KCancel => "upload_cancel_result"
  end.

(** [UploadResultMessage] under its [Outbound] arm. *)
Record UploadReply := mkReply {
  u_kind : ResultKind;
  u_type : string;
  u_request_id : string;
  u_result : option bytes;
  u_error : option Protocol.ApiError;
}.

Definition begin_json (r : BeginResult) : json :=
  JObject [("upload_id", JString (br_upload_id r)); ("chunk_bytes", json_int (br_chunk_bytes r));
           ("expires_at", JString (UploadTime.format_timestamp (br_expires_at r)));
           ("limits", JObject [("max_files", json_int (br_max_files r)); ("max_file_bytes", json_int (br_max_file_bytes r));
                               ("max_batch_bytes", json_int (br_max_batch_bytes r))])]%string.
Definition chunk_json (r : ChunkResult) : json :=
  JObject [("file_index", json_int (cr_file_index r)); ("next_sequence", json_int (cr_next_sequence r)); ("received_bytes", json_int (cr_received_bytes r))]%string.
(** The relay-side path stays out of the payload. *)
Definition attachment_payload (a : Attachment) : json :=
  JObject [("ref", JString (at_reference a)); ("name", JString (at_name a)); ("media_type", JString (at_media_type a)); ("bytes", json_int (at_bytes a));
           ("sha256", JString (at_sha256 a)); ("expires_at", JString (UploadTime.format_timestamp (at_expires_at a)))]%string.
Definition finish_json (atts : list Attachment) : json := JObject [("attachments"%string, JArray (attachment_payload <$> atts))].

Section Replies.
Context `{CM : Protocol.CaseMapping} `{FT : GoJson.FloatText}.

Definition upload_result (request_id : string) (kind : ResultKind) (payload : json) : UploadReply :=
  mkReply kind (type_str kind) request_id (Some (GoJson.to_vec payload)) None.

Definition upload_error_reply (request_id : string) (kind : ResultKind) (code : string) (args : gmap string Z) : UploadReply :=
  mkReply kind (type_str kind) request_id None (Some (Protocol.ApiError_new code (json_int <$> args))).

Definition failed (request_id : string) (kind : ResultKind) (e : UploadError) : UploadReply :=
  upload_error_reply request_id kind (public_upload_error_code (ue_code e)) (ue_args e).

Definition answer {A} (request_id : string) (kind : ResultKind) (payload : A -> json) (r : result UploadError A) : UploadReply :=
  match r with Ok a => upload_result request_id kind (payload a) | Err e => failed request_id kind e end.

Definition undecodable (request_id : string) (kind : ResultKind) : UploadReply := upload_error_reply request_id kind "attachment_upload_failed" ∅.
Definition unavailable_reply (request_id : string) (kind : ResultKind) : UploadReply := upload_error_reply request_id kind "attachment_upload_unavailable" ∅.

End Replies.

(** ** Handlers *)

Section Handlers.
Context `{CM : Protocol.CaseMapping} `{DG : WriteAudit.Digest} `{B64 : E2eeCodec.Base64} `{SB64 : StandardBase64} `{FT : GoJson.FloatText}.
Context (dir : string) (json_ok : bytes -> bool).
(** The context of an action: the topology it was admitted under, its client,
    and whether the manager started. *)
Context (topology : Topology.Topology) (client_id : string) (available : bool) (io : Io).

Definition upload_begin (request_id : string) (message : Inbound) (w : World) : World * UploadReply :=
  match decode_begin message with
  | None => (w, undecodable request_id KBegin)
  | Some request =>
      match validate_upload_target topology (b_target request) with
      | Err e => (w, failed request_id KBegin e)
      | Ok _ =>
          if negb available then (w, unavailable_reply request_id KBegin)
          else let (w, r) := begin io ("connection:" +:+ client_id) request w in (w, answer request_id KBegin begin_json r)
      end
  end.

(** A target that is no longer live cancels the upload staged under it. *)
Definition cancel_stale (target : TargetRef) (upload_id : string) (w : World) : World := if available then (cancel io target upload_id w).1 else w.

Definition upload_chunk (request_id : string) (message : Inbound) (w : World) : World * UploadReply :=
  match decode_chunk message with
  | None => (w, undecodable request_id KChunk)
  | Some request =>
      match validate_upload_target topology (c_target request) with
      | Err e => (cancel_stale (c_target request) (c_upload_id request) w, failed request_id KChunk e)
      | Ok _ =>
          if negb available then (w, unavailable_reply request_id KChunk)
          else let (w, r) := chunk io request w in (w, answer request_id KChunk chunk_json r)
      end
  end.

(** The audit row of a binary chunk reads like that of the JSON request the
    carrier stands for; [attribution] is [audit_attribution]. *)
Definition target_value (t : TargetRef) : json :=
  JObject ([("server_session_id", JString (t_server_session_id t)); ("pane_id", JString (t_pane_id t)); ("terminal_id", JString (t_terminal_id t));
            ("generation", json_int (t_generation t)); ("agent_session_id", JString (t_agent_session_id t))]%string
           ++ (if decide (t_workspace_id t = ""%string) then [] else [("workspace_id"%string, JString (t_workspace_id t))])
           ++ (if decide (t_tab_id t = ""%string) then [] else [("tab_id"%string, JString (t_tab_id t))])).

Definition binary_audit_map (frame : UploadBinary.BinaryChunk) (staged : result UploadError (TargetRef * Z)) : WriteAudit.message_map :=
  let o := obj_insert [] "type" (JString "upload_chunk") in
  let o := obj_insert o "upload_id" (JString (UploadBinary.upload_id frame)) in
  let o := obj_insert o "sequence" (json_int (UploadBinary.sequence frame)) in
  let o := obj_insert o "data" (JString (std_encode (UploadBinary.data frame))) in
  let o := obj_insert o "sha256" (JString (WriteAudit.sha256_hex (UploadBinary.data frame))) in
  match staged with
  | Ok (target, file_index) => obj_insert (obj_insert o "target" (Inbound.to_value (target_value target))) "file_index" (json_int file_index)
  | Err _ => o
  end.

Definition binary_audit (attribution : string -> WriteAudit.Attribution) (frame : UploadBinary.BinaryChunk) (staged : result UploadError (TargetRef * Z)) :
    WriteAudit.AuditRecord :=
  let raw := binary_audit_map frame staged in
  let req := WriteAudit.from_message raw client_id in
  WriteAudit.attempt_record req raw (attribution (WriteAudit.rc_pane_id req)).

Definition upload_chunk_binary (audit_log : bool) (attribution : string -> WriteAudit.Attribution) (frame : UploadBinary.BinaryChunk) (w : World) :
    World * option WriteAudit.AuditRecord * UploadReply :=
  let upload_id := UploadBinary.upload_id frame in
  let (w, staged) := staged_target io upload_id w in
  let record := if audit_log then Some (binary_audit attribution frame staged) else None in
  match staged with
  | Err e => (w, record, failed "" KChunk e)
  | Ok (target, _) =>
      match validate_upload_target topology target with
      | Err e => (cancel_stale target upload_id w, record, failed "" KChunk e)
      | Ok _ =>
          if negb available then (w, record, unavailable_reply "" KChunk)
          else let (w, r) := chunk_binary io upload_id (UploadBinary.sequence frame) (UploadBinary.data frame) w in (w, record, answer "" KChunk chunk_json r)
      end
  end.

(** The row of the activity journal. *)
Record Activity := mkActivity { ac_kind : string; ac_status : string; ac_summary : string; ac_pane_id : string; ac_request_id : string }.

Definition attached_summary (atts : list Attachment) : string :=
  match atts with
  | [a] => "Attached " +:+ at_name a
  | _ => "Attached " +:+ decimal (Z.of_nat (length atts)) +:+ " files"
  end.

(** [None] is a panic of [finish]. *)
Definition upload_finish (request_id : string) (message : Inbound) (w : World) : option (World * option Activity * UploadReply) :=
  match decode_finish message with
  | None => Some (w, None, undecodable request_id KFinish)
  | Some request =>
      match validate_upload_target topology (fr_target request) with
      | Err e => Some (cancel_stale (fr_target request) (fr_upload_id request) w, None, failed request_id KFinish e)
      | Ok _ =>
          if negb available then Some (w, None, unavailable_reply request_id KFinish)
          else
            '(w, r) ← finish dir json_ok io request w;
            let row := match r with
                       | Ok atts => Some (mkActivity "upload" "completed" (attached_summary atts) (t_pane_id (fr_target request)) request_id)
                       | Err _ => None
                       end in
            Some (w, row, answer request_id KFinish finish_json r)
      end
  end.

Definition upload_cancel (request_id : string) (message : Inbound) (w : World) : World * UploadReply :=
  match decode_cancel message with
  | None => (w, undecodable request_id KCancel)
  | Some (target, upload_id) =>
      if negb available then (w, unavailable_reply request_id KCancel)
      else let (w, r) := cancel io target upload_id w in (w, answer request_id KCancel (fun _ => JObject []) r)
  end.

End Handlers.

(** ** References in prompts *)

Section Expansion.
Context `{CM : Protocol.CaseMapping} `{DG : WriteAudit.Digest} `{B64 : E2eeCodec.Base64} `{FT : GoJson.FloatText}.
Context (available : bool).

Definition marker : string := "Attachment: ".

Fixpoint contains_str (needle s : string) : bool :=
  bool_decide (is_Some (strip_prefix needle s)) || match s with String _ r => contains_str needle r | EmptyString => false end.

(** What a line refers to, if it is a reference. *)
Definition candidate (line : string) : option string :=
  reference ← strip_prefix marker (trim line); if valid_attachment_reference reference then Some reference else None.

(** Each resolved line makes its own calls: [ios] are their outcomes. *)
Fixpoint expand_lines (ios : nat -> Io) (n : nat) (target : option TargetRef) (lines : list string) (w : World) : World * result string (list string) :=
  match lines with
  | [] => (w, Ok [])
  | line :: rest =>
      match candidate line with
      | None => let (w, r) := expand_lines ios n target rest w in (w, cons line <$> r)
      | Some reference =>
          match target with
          | None => (w, Err ATTACHMENTS_UNAVAILABLE)
          | Some t =>
              if negb available then (w, Err ATTACHMENTS_UNAVAILABLE)
              else match resolve (ios n) t reference w with
              | (w, Err _) => (w, Err ATTACHMENTS_UNAVAILABLE)
              | (w, Ok a) => let (w, r) := expand_lines ios (S n) target rest w in (w, cons (marker +:+ at_path a) <$> r)
              end
          end
      end
  end.

Definition expand_references (ios : nat -> Io) (target : option TargetRef) (value : string) (w : World) : World * result string string :=
  if negb (contains_str marker value) then (w, Ok value)
  else let (w, r) := expand_lines ios 0 target (Lines.split_nl value) w in (w, Lines.join_nl <$> r).

End Expansion.

(** ** What the client is told *)

Definition public_codes : list string :=
  ["attachment_batch_limit"; "attachment_batch_too_large"; "attachment_file_too_large"; "attachment_invalid_name"; "attachment_unknown_mime";
   "attachment_upload_expired"; "attachment_upload_busy"; "attachment_upload_state_unknown"; "attachment_upload_failed"; "attachment_upload_unavailable"]%string.

Lemma public_code_listed code : public_upload_error_code code ∈ public_codes.
Proof. unfold public_upload_error_code. repeat case_decide; apply (bool_decide_eq_true_1 _); vm_compute; reflexivity. Qed.

Section Public.
Context `{CM : Protocol.CaseMapping} `{DG : WriteAudit.Digest} `{B64 : E2eeCodec.Base64} `{SB64 : StandardBase64} `{FT : GoJson.FloatText}.
(** Lower-casing leaves lower-case ASCII alone. *)
Context (lower_fixed : forall s, forallb (fun c => in_range 0 127 c && negb (in_range 65 90 c)) (as_bytes s) = true -> Protocol.to_lowercase s = s).

Definition public_reply (reply : UploadReply) : Prop :=
  match u_error reply with Some e => Protocol.code e ∈ public_codes /\ u_result reply = None | None => is_Some (u_result reply) end.

Lemma code_kept code args : code ∈ public_codes -> Protocol.code (Protocol.ApiError_new code args) = code.
Proof.
  intros Hin. assert (Hall : Forall (fun c => trim c = c /\ forallb (fun c => in_range 0 127 c && negb (in_range 65 90 c)) (as_bytes c) = true /\
    Protocol.bounded_utf8 c Protocol.MAX_ERROR_CODE = c) public_codes) by (apply (bool_decide_eq_true_1 _); vm_compute; reflexivity).
  rewrite Forall_forall in Hall. destruct (Hall _ Hin) as (Ht & Hl & Hb). unfold Protocol.ApiError_new. cbv zeta. rewrite Ht, (lower_fixed _ Hl), Hb. by case_decide.
Qed.

Lemma error_reply_public request_id kind code args : code ∈ public_codes -> public_reply (upload_error_reply request_id kind code args).
Proof. intros Hin. unfold public_reply, upload_error_reply. cbn [u_error u_result]. by rewrite code_kept. Qed.

Lemma failed_public request_id kind e : public_reply (failed request_id kind e).
Proof. apply error_reply_public, public_code_listed. Qed.

Lemma undecodable_public request_id kind : public_reply (undecodable request_id kind).
Proof. apply error_reply_public. apply (bool_decide_eq_true_1 _); vm_compute; reflexivity. Qed.

Lemma unavailable_public request_id kind : public_reply (unavailable_reply request_id kind).
Proof. apply error_reply_public. apply (bool_decide_eq_true_1 _); vm_compute; reflexivity. Qed.

Lemma answer_public {A} request_id kind (payload : A -> json) r : public_reply (answer request_id kind payload r).
Proof. destruct r; [|apply failed_public]. by eexists. Qed.

#[local] Hint Resolve failed_public undecodable_public unavailable_public answer_public : lerdr.

(** Every upload action answers either with a result or with one of the
    ten public attachment error codes, never with both and never with an
    internal code, whatever the request, the topology and the disk. *)
Theorem upload_errors_are_public dir json_ok topology client_id available io request_id message w audit_log attribution frame :
  public_reply (upload_begin topology client_id available io request_id message w).2 /\
  public_reply (upload_chunk topology available io request_id message w).2 /\
  public_reply (upload_chunk_binary topology client_id available io audit_log attribution frame w).2 /\
  public_reply (upload_cancel available io request_id message w).2 /\
  (forall w' row reply, upload_finish dir json_ok topology available io request_id message w = Some (w', row, reply) -> public_reply reply).
Proof.
  split_and!.
  - unfold upload_begin. repeat case_match; cbn [snd]; auto with lerdr.
  - unfold upload_chunk. repeat case_match; cbn [snd]; auto with lerdr.
  - unfold upload_chunk_binary. repeat case_match; cbn [snd]; auto with lerdr.
  - unfold upload_cancel. repeat case_match; cbn [snd]; auto with lerdr.
  - intros w' row reply. unfold upload_finish. repeat case_match; try (intros [= <- <- <-]; auto with lerdr).
    destruct (finish _ _ _ _ _) as [[w1 r]|]; cbn; [|done]. intros [= <- <- <-]. auto with lerdr.
Qed.

End Public.

(** ** Stale targets *)

Section Stale.
Context `{CM : Protocol.CaseMapping} `{DG : WriteAudit.Digest} `{B64 : E2eeCodec.Base64} `{SB64 : StandardBase64} `{FT : GoJson.FloatText}.

(** Nothing is stored: a session is as it was, or it was staged under this very
    target and is gone. *)
Definition only_cancelled (target : TargetRef) (upload_id : string) (w w' : World) : Prop :=
  attachments w' = attachments w /\ forall id, sessions w' !! id = sessions w !! id \/
    id = upload_id /\ sessions w' !! id = None /\ exists s, sessions w !! id = Some s /\ s_target s = target.

Lemma cancel_only io target upload_id w : only_cancelled target upload_id w (cancel io target upload_id w).1.
Proof.
  unfold cancel. destruct (sessions w !! upload_id) as [s|] eqn:Es.
  - case_decide as Ht; [split; [done|by left]|]. cbn [fst]. split; [apply discard_attachments|]. intros id. rewrite discard_sessions.
    destruct (decide (id = upload_id)) as [->|Hne]; [right|left; by rewrite lookup_delete_ne]. rewrite lookup_delete_eq. eauto 6.
  - set (w1 := match tombstones w !! upload_id with Some _ => _ | None => _ end).
    assert (E : sessions w1 = sessions w /\ attachments w1 = attachments w) by (unfold w1; repeat case_match; done). destruct E as [E1 E2].
    repeat case_match; cbn [fst]; (split; [done|]); left; by rewrite E1.
Qed.

(** An upload for a pane that is gone, was replaced or belongs to another
    agent stores nothing: when the target of a chunk is not the live tuple of
    the topology, no attachment changes, no session takes a byte, and at most
    the session staged under this very target is discarded. *)
Theorem stale_upload_stores_nothing topology available io request_id message request w e :
  decode_chunk message = Some request -> validate_upload_target topology (c_target request) = Err e ->
  only_cancelled (c_target request) (c_upload_id request) w (upload_chunk topology available io request_id message w).1.
Proof.
  intros Hd Hv. unfold upload_chunk. rewrite Hd, Hv. cbn [fst]. unfold cancel_stale. destruct available; [apply cancel_only|]. split; [done|by left].
Qed.

End Stale.

(** ** Prompts *)

Section Prompts.
Context `{CM : Protocol.CaseMapping} `{DG : WriteAudit.Digest} `{B64 : E2eeCodec.Base64} `{FT : GoJson.FloatText}.

(** A line stays, or it was a reference that resolved for the target. *)
Definition expanded (target : option TargetRef) (line line' : string) : Prop :=
  match candidate line with
  | None => line' = line
  | Some reference => exists t io w a, target = Some t /\ (resolve io t reference w).2 = Ok a /\ line' = marker +:+ at_path a
  end.

Lemma expand_lines_ok available ios n target lines w w' lines' :
  expand_lines available ios n target lines w = (w', Ok lines') -> Forall2 (expanded target) lines lines'.
Proof.
  revert n w w' lines'. induction lines as [|line lines IH]; intros n w w' lines'; cbn [expand_lines]; [by intros [= <- <-]; constructor|].
  destruct (candidate line) as [reference|] eqn:Hc.
  - destruct target as [t|]; [|done]. destruct (negb available); [done|]. destruct (resolve (ios n) t reference w) as [w1 [a|e]] eqn:Hr; [|done].
    destruct (expand_lines available ios (S n) (Some t) lines w1) as [w2 [ls|e]] eqn:E; [|done]. intros [= <- <-]. constructor; [|by eapply IH].
    unfold expanded. rewrite Hc. exists t, (ios n), w, a. by rewrite Hr.
  - destruct (expand_lines available ios n target lines w) as [w2 [ls|e]] eqn:E; [|done]. intros [= <- <-]. constructor; [|by eapply IH]. unfold expanded. by rewrite Hc.
Qed.

(** Expanding a prompt changes reference lines only: when it succeeds,
    the prompt has the same lines, each either untouched or, where it was a
    well-formed reference, the path of the attachment this reference resolved
    to for the target; a prompt without the marker is untouched. *)
Theorem expansion_changes_references_only available ios target value w w' value' :
  expand_references available ios target value w = (w', Ok value') ->
  (contains_str marker value = false /\ value' = value /\ w' = w) \/
  exists lines', value' = Lines.join_nl lines' /\ Forall2 (expanded target) (Lines.split_nl value) lines'.
Proof.
  unfold expand_references. destruct (contains_str marker value); cbn [negb]; [|intros [= <- <-]; by left].
  destruct (expand_lines available ios 0 target (Lines.split_nl value) w) as [w1 [lines'|e]] eqn:E; [|done]. intros [= <- <-]. right. exists lines'. split; [done|].
  by eapply expand_lines_ok.
Qed.

End Prompts.

(** ** Witnesses *)

Import E2eeInstances UploadsDemo.

#[export] Instance hex_like : StandardBase64 := {| std_encode := string_of_bytes; std_decode := Some |}.

(** A chunk for a pane that does not exist. *)
Definition stale_message : Inbound :=
  default (mkInbound "" 0 "" None "" "" "" "" "" "" "" "" "" "" "" "" [] [] false "" "" "" false "" "" "" "" "" "" None None None [] [] false "" "" 0 "" "" false 0 0 0
    "" "" "" "" "" "" [] false [] "" "" "" "" None None "" "" false false false [] [])
    (match decode_map [("type", JString "upload_chunk"); ("upload_id", JString demo_id); ("data", JString "he")]%string with Ok m => Some m | Err _ => None end).

Lemma stale_upload_stores_nothing_witness : exists request, decode_chunk stale_message = Some request /\
  only_cancelled (c_target request) demo_id begun (upload_chunk Topology.new true (calm 0 1001) "r1" stale_message begun).1.
Proof.
  exists (mkChunk default_target demo_id 0 0 (as_bytes "he") "").
  assert (Hd : decode_chunk stale_message = Some (mkChunk default_target demo_id 0 0 (as_bytes "he") "")) by (vm_compute; reflexivity).
  assert (Hv : validate_upload_target Topology.new default_target = Err (upload_error "upload_scope_mismatch")) by (vm_compute; reflexivity).
  split; [exact Hd|]. exact (stale_upload_stores_nothing Topology.new true (calm 0 1001) "r1" stale_message _ begun _ Hd Hv).
Defined.

Definition demo_prompt : string := "see" +:+ String Lines.newline (marker +:+ demo_ref).

Lemma expansion_changes_references_only_witness : exists lines', Forall2 (expanded (Some demo_target)) (Lines.split_nl demo_prompt) lines' /\
  lines' = ["see"; marker +:+ join demo_dir (object_path demo_ref "text/plain")]%string.
Proof.
  set (r := expand_references true (fun _ => calm 0 2000) (Some demo_target) demo_prompt demo_world).
  set (text := ("see" +:+ String Lines.newline (marker +:+ join demo_dir (object_path demo_ref "text/plain")))%string).
  assert (E2 : r.2 = Ok text) by (vm_compute; reflexivity).
  assert (E : expand_references true (fun _ => calm 0 2000) (Some demo_target) demo_prompt demo_world = (r.1, Ok text)).
  { rewrite <- E2. apply surjective_pairing. }
  assert (Hm : contains_str marker demo_prompt <> false) by (vm_compute; discriminate).
  destruct (expansion_changes_references_only true (fun _ => calm 0 2000) (Some demo_target) demo_prompt demo_world r.1 text E) as [(H0 & _)|(lines' & Ht & Hl)];
    [destruct (Hm H0)|].
  assert (Hlen : length lines' = 2%nat) by (rewrite <- (Forall2_length _ _ _ Hl); vm_compute; reflexivity). exists lines'. split; [exact Hl|].
  destruct lines' as [|l1 [|l2 [|l3 ls]]]; try discriminate Hlen. apply Forall2_cons in Hl as [H1 _].
  assert (E1 : candidate "see" = None) by (vm_compute; reflexivity). change (expanded (Some demo_target) "see" l1) in H1. unfold expanded in H1. rewrite E1 in H1. subst l1.
  cbn [Lines.join_nl] in Ht. unfold text in Ht. apply (string_app_inj_l "see") in Ht. injection Ht as <-. reflexivity.
Defined.

End UploadHandlers.
