(* ===== verification/Registry.v ===== *)
(** * The live-session registry — [lerdr-relay/src/server.rs]

    The hub's [Registry]: which sessions are live, under which credential, and
    the [blocked] fence per credential.  The mutex around it makes each of
    registration, teardown and the revocation sweep one step; a session's kill
    switch can fire between steps for its own reasons.  The kill switches are
    kept by client id, because the registry and the session share them. *)

From S2P Require Import Prelude SendBuffer E2eeHandshake DeviceStore SessionActor.
Import DeviceStore SessionActor.

Module Registry.

(** The sink of a registration plays no part here. *)
Record Hub := mkHub {
  clients : gmap string AuthenticatedIdentity;
  blocked : gmap string Z;
  signals : gmap string Signal;
}.

Definition empty_hub : Hub := mkHub ∅ ∅ ∅.

Definition connected_clients (h : Hub) : nat := size (clients h).

(** [close_credential_revoked] and [close_now]. *)
Definition close_credential_revoked (s : Signal) : Signal :=
  fire s (Graceful GoingAway) "device credential revoked" (Evicted CredentialRevoked).
Definition close_now (s : Signal) : Signal := fire s Now "" (Evicted CredentialRevoked).

(** The [on_connect] hook of [handle_socket]: a session at or below the fence
    is closed instead of registered. *)
Definition register (h : Hub) (client_id : string) (i : AuthenticatedIdentity) : Hub :=
  let fence := default 0 (blocked h !! id_credential i) in
  if negb (bool_decide (id_credential i = ""%string)) && bool_decide (id_version i <= fence)
  then mkHub (clients h) (blocked h) (<[client_id := close_now new_signal]> (signals h))
  else mkHub (<[client_id := i]> (clients h)) (blocked h) (<[client_id := new_signal]> (signals h)).

(** The teardown after [serve_connection] returns. *)
Definition teardown (h : Hub) (client_id : string) : Hub :=
  mkHub (delete client_id (clients h)) (blocked h) (signals h).

(** Whether the sweep of one fence closes a registration. *)
Definition swept (requester cid : string) (v : Z) (client_id : string) (i : AuthenticatedIdentity) : bool :=
  negb (bool_decide (client_id = requester)) && bool_decide (id_credential i = cid) && bool_decide (id_version i <= v).

Definition sweep_one (requester : string) (h : Hub) (pair : string * Z) : Hub :=
  let '(cid, v) := pair in
  if bool_decide (cid = ""%string) || bool_decide (v = 0) then h
  else
    let fence := Z.max (default 0 (blocked h !! cid)) v in
    mkHub (clients h) (<[cid := fence]> (blocked h))
      (map_imap (fun client_id s =>
         Some (match clients h !! client_id with
               | Some i => if swept requester cid v client_id i then close_credential_revoked s else s
               | None => s
               end)) (signals h)).

Definition disconnect_credentials (h : Hub) (requester : string) (pairs : list (string * Z)) : Hub :=
  foldl (sweep_one requester) h pairs.

(** ** Steps of the hub *)

Inductive hub_op :=
| Register (client_id : string) (i : AuthenticatedIdentity)
| Teardown (client_id : string)
| Sweep (requester : string) (pairs : list (string * Z))
| Fire (client_id : string) (mode : CloseMode) (reason : string) (e : EndKind).

Definition hub_step (h : Hub) (o : hub_op) : Hub :=
  match o with
  | Register client_id i => register h client_id i
  | Teardown client_id => teardown h client_id
  | Sweep requester pairs => disconnect_credentials h requester pairs
  | Fire client_id mode reason e =>
      mkHub (clients h) (blocked h) (alter (fun s => fire s mode reason e) client_id (signals h))
  end.

Definition hub_run (h : Hub) (os : list hub_op) : Hub := foldl hub_step h os.

(** ** Invariants *)

(** Every live session has its kill switch. *)
Definition switched (h : Hub) : Prop := forall id i, clients h !! id = Some i -> is_Some (signals h !! id).

Definition is_cancelled (h : Hub) (id : string) : Prop := exists s, signals h !! id = Some s /\ cancelled s = true.

(** The credential [cid] is fenced through version [v], but for the session
    that asked for it. *)
Definition fenced (requester cid : string) (v : Z) (h : Hub) : Prop :=
  (exists fence, blocked h !! cid = Some fence /\ v <= fence) /\
  forall id i, clients h !! id = Some i -> id_credential i = cid -> id_version i <= v -> id = requester \/ is_cancelled h id.

Lemma signals_sweep_one requester h pair id s :
  signals h !! id = Some s ->
  exists s', signals (sweep_one requester h pair) !! id = Some s' /\ (cancelled s = true -> cancelled s' = true).
Proof.
  destruct pair as [cid v]. intros Hs. unfold sweep_one. destruct (_ || _); [by exists s|]. cbn [signals].
  rewrite map_lookup_imap, Hs. cbn. eexists. split; [done|]. intros Hc. destruct (clients h !! id); [|done]. by destruct (swept _ _ _ _ _).
Qed.

Lemma clients_sweep_one requester h pair : clients (sweep_one requester h pair) = clients h.
Proof. destruct pair as [cid v]. unfold sweep_one. by destruct (_ || _). Qed.

Lemma blocked_sweep_one requester h pair cid fence :
  blocked h !! cid = Some fence -> exists fence', blocked (sweep_one requester h pair) !! cid = Some fence' /\ fence <= fence'.
Proof.
  destruct pair as [cid' v]. intros Hb. unfold sweep_one. destruct (_ || _); [by exists fence|]. cbn [blocked].
  destruct (decide (cid' = cid)) as [->|Hne].
  - rewrite lookup_insert_eq, Hb. eexists. split; [done|]. cbn. lia.
  - rewrite lookup_insert_ne by done. by exists fence.
Qed.

Lemma cancelled_sweep_one requester h pair id : is_cancelled h id -> is_cancelled (sweep_one requester h pair) id.
Proof. intros (s & Hs & Hc). destruct (signals_sweep_one requester h pair id s Hs) as (s' & Hs' & Hc'). exists s'. auto. Qed.

Lemma switched_sweep_one requester h pair : switched h -> switched (sweep_one requester h pair).
Proof.
  intros Hw id i. rewrite clients_sweep_one. intros Hi. destruct (Hw id i Hi) as [s Hs].
  destruct (signals_sweep_one requester h pair id s Hs) as (s' & Hs' & _). by exists s'.
Qed.

Lemma fenced_sweep_one r requester cid v h pair : fenced requester cid v h -> fenced requester cid v (sweep_one r h pair).
Proof.
  intros [(fence & Hb & Hv) Hf]. split.
  - destruct (blocked_sweep_one r h pair cid fence Hb) as (fence' & Hb' & Hle). exists fence'. split; [done|lia].
  - intros id i. rewrite clients_sweep_one. intros Hi Hc Hver. destruct (Hf id i Hi Hc Hver) as [?|?]; [by left|right].
    by apply cancelled_sweep_one.
Qed.

(** The sweep of a proper fence establishes it. *)
Lemma sweep_one_fences requester h cid v :
  switched h -> cid <> ""%string -> v <> 0 -> fenced requester cid v (sweep_one requester h (cid, v)).
Proof.
  intros Hw Hcid Hv. unfold sweep_one. rewrite !bool_decide_eq_false_2 by done. cbn [orb]. split.
  - eexists. cbn [blocked]. rewrite lookup_insert_eq. split; [done|]. lia.
  - cbn [clients]. intros id i Hi Hc Hver. destruct (decide (id = requester)) as [|Hne]; [by left|right].
    destruct (Hw id i Hi) as [s Hs]. unfold is_cancelled. cbn [signals]. rewrite map_lookup_imap, Hs. cbn. rewrite Hi.
    unfold swept. rewrite bool_decide_eq_false_2, !bool_decide_eq_true_2 by done. by eexists.
Qed.

Lemma switched_sweep requester h pairs : switched h -> switched (disconnect_credentials h requester pairs).
Proof.
  revert h. induction pairs as [|p pairs IH]; intros h Hw; [done|]. cbn. by apply IH, switched_sweep_one.
Qed.

Lemma fenced_sweep r requester cid v h pairs : fenced requester cid v h -> fenced requester cid v (disconnect_credentials h r pairs).
Proof. revert h. induction pairs as [|p pairs IH]; intros h Hf; [done|]. cbn. by apply IH, fenced_sweep_one. Qed.

Lemma sweep_fences requester h pairs cid v :
  switched h -> (cid, v) ∈ pairs -> cid <> ""%string -> v <> 0 ->
  fenced requester cid v (disconnect_credentials h requester pairs).
Proof.
  intros Hw Hin Hcid Hv. revert h Hw. induction pairs as [|p pairs IH]; intros h Hw; [by apply not_elem_of_nil in Hin|].
  cbn. apply elem_of_cons in Hin as [<-|Hin].
  - by apply fenced_sweep, sweep_one_fences.
  - by apply IH, switched_sweep_one.
Qed.

Lemma switched_step h o : switched h -> switched (hub_step h o).
Proof.
  intros Hw. destruct o as [id i|id|r pairs|id mode reason e]; cbn [hub_step].
  - unfold register. cbv zeta. destruct (_ && _); intros id' i'; cbn [clients signals].
    + intros Hi. destruct (decide (id = id')) as [<-|Hne]; [rewrite lookup_insert_eq; by eexists|].
      rewrite lookup_insert_ne by done. by apply (Hw id' i').
    + destruct (decide (id = id')) as [<-|Hne]; [rewrite !lookup_insert_eq; by eexists|].
      rewrite !lookup_insert_ne by done. apply Hw.
  - intros id' i'. cbn. intros [_ Hi]%lookup_delete_Some. by apply (Hw id' i').
  - by apply switched_sweep.
  - intros id' i'. cbn. intros Hi. rewrite lookup_alter_is_Some. by apply (Hw id' i').
Qed.

Lemma switched_run os : switched (hub_run empty_hub os).
Proof.
  assert (H0 : switched empty_hub) by (intros id i; cbn; intros Hi; by apply lookup_empty_Some in Hi).
  revert H0. generalize empty_hub. induction os as [|o os IH]; intros h Hw; [done|]. cbn. by apply IH, switched_step.
Qed.

Lemma fenced_register requester cid v h id i : cid <> ""%string -> fenced requester cid v h -> fenced requester cid v (register h id i).
Proof.
  intros Hcid [(fence & Hb & Hv) Hf]. unfold register. cbv zeta. destruct (_ && _) eqn:Hc; (split; [by exists fence|]); cbn [clients].
  - intros id' i' Hi' Hcred Hver. destruct (Hf id' i' Hi' Hcred Hver) as [?|(s & Hs & Hcan)]; [by left|right].
    unfold is_cancelled. cbn [signals]. destruct (decide (id = id')) as [<-|Hne]; [rewrite lookup_insert_eq; by eexists|].
    rewrite lookup_insert_ne by done. by exists s.
  - intros id' i'. destruct (decide (id = id')) as [<-|Hne].
    + rewrite lookup_insert_eq. intros [= <-] Hcred Hver. exfalso. rewrite Hcred, Hb in Hc.
      rewrite bool_decide_eq_false_2, bool_decide_eq_true_2 in Hc by (done || (cbn; lia)). done.
    + rewrite lookup_insert_ne by done. intros Hi' Hcred Hver.
      destruct (Hf id' i' Hi' Hcred Hver) as [?|(s & Hs & Hcan)]; [by left|right].
      unfold is_cancelled. cbn [signals]. rewrite lookup_insert_ne by done. by exists s.
Qed.

Lemma fenced_step requester cid v h o : cid <> ""%string -> fenced requester cid v h -> fenced requester cid v (hub_step h o).
Proof.
  intros Hcid Hf. destruct o as [id i|id|r pairs|id mode reason e]; cbn [hub_step].
  - by apply fenced_register.
  - destruct Hf as [Hb Hf]. split; [done|]. cbn. intros id' i' [_ Hi]%lookup_delete_Some. by apply Hf.
  - by apply fenced_sweep.
  - destruct Hf as [Hb Hf]. split; [done|]. cbn. intros id' i' Hi Hcred Hver.
    destruct (Hf id' i' Hi Hcred Hver) as [?|(s & Hs & Hcan)]; [by left|right]. unfold is_cancelled. cbn [signals].
    destruct (decide (id = id')) as [<-|Hne].
    + rewrite lookup_alter_eq, Hs. by eexists.
    + rewrite lookup_alter_ne by done. by exists s.
Qed.

Lemma fenced_run requester cid v h os : cid <> ""%string -> fenced requester cid v h -> fenced requester cid v (hub_run h os).
Proof. intros Hcid. revert h. induction os as [|o os IH]; intros h Hf; [done|]. cbn. by apply IH, fenced_step. Qed.

(** After a revocation sweep no session keeps using the swept credential:
    from any reachable registry, once a fence [(cid, v)] was swept, and however
    registrations, teardowns, other sweeps and session ends interleave
    afterwards, every live session of that credential at a version up to [v] is
    already told to close, except the one that requested the sweep (which
    closes itself). *)
Theorem swept_credential_stays_out (before after : list hub_op) (requester cid : string) (pairs : list (string * Z)) (v : Z)
    (client_id : string) (i : AuthenticatedIdentity) :
  (cid, v) ∈ pairs -> cid <> ""%string -> v <> 0 ->
  let h := hub_run (disconnect_credentials (hub_run empty_hub before) requester pairs) after in
  clients h !! client_id = Some i -> id_credential i = cid -> id_version i <= v -> client_id <> requester ->
  is_cancelled h client_id.
Proof.
  intros Hin Hcid Hv h Hi Hcred Hver Hne.
  assert (Hf : fenced requester cid v h) by (apply fenced_run; [done|]; apply sweep_fences; [apply switched_run|done..]).
  destruct Hf as [_ Hf]. by destruct (Hf client_id i Hi Hcred Hver).
Qed.

Definition phone (c : string) (v : Z) : AuthenticatedIdentity := mkIdentity "d" c Reader "en" v.
Definition hub_before : list hub_op := [Register "client-1" (phone "c1" 1); Register "client-2" (phone "c2" 1)].
Definition hub_after : list hub_op := [Register "client-3" (phone "c2" 2); Register "client-4" (phone "c2" 3); Teardown "client-1"].

Lemma swept_credential_stays_out_witness :
  is_cancelled (hub_run (disconnect_credentials (hub_run empty_hub hub_before) "client-1" [("c2"%string, 2)]) hub_after) "client-2".
Proof.
  apply (swept_credential_stays_out hub_before hub_after "client-1" "c2" [("c2"%string, 2)] 2 "client-2" (phone "c2" 1)).
  - by left.
  - done.
  - done.
  - vm_compute. reflexivity.
  - done.
  - cbn. lia.
  - done.
Defined.

(** A session whose handshake finished before the sweep does not register
    after it; one at a later version does. *)
Example late_registration_refused :
  let h := hub_run (disconnect_credentials (hub_run empty_hub hub_before) "client-1" [("c2"%string, 2)]) hub_after in
  clients h !! "client-3"%string = None /\ clients h !! "client-4"%string = Some (phone "c2" 3).
Proof. vm_compute. split; reflexivity. Qed.

End Registry.
