(* ===== verification/Fs.v ===== *)
(** * A directory of files with failing calls and crash points

    What the durable stores of the coordinator use of [std::fs] inside the
    one directory they own.  A file is named by its bare name.  Every call may
    fail: [w_faults] says how the coming calls end.  [w_trail] collects the
    contents of the directory after every step of a call that changes it, the
    states the process can leave behind when it dies there. *)

From S2P Require Import Prelude.

Module Fs.

(** ** Errors *)

Inductive ErrorKind := NotFound | AlreadyExists | InvalidInput | Unsupported | InvalidData | OtherKind.
#[export] Instance ErrorKind_eq_dec : EqDecision ErrorKind.
Proof. solve_decision. Defined.

Record IoError := mkIoError { e_kind : ErrorKind; e_text : string }.

(** ** The world of one operation *)

Abbreviation Files := (gmap string bytes).

(** How a call ends.  [NotFound] and [AlreadyExists] are not faults: they follow
    from the directory.  A write that fails may have written some bytes. *)
Inductive FaultKind := FaultInvalidInput | FaultUnsupported | FaultOther.
Inductive Fault := Pass | Fails (kind : FaultKind) (text : string) (written : nat).

Definition fault_error (kind : FaultKind) (text : string) : IoError :=
  mkIoError (match kind with FaultInvalidInput => InvalidInput | FaultUnsupported => Unsupported | FaultOther => OtherKind end) text.

Record World := mkWorld {
  w_files : Files;
  w_faults : list Fault;   (** exhausted: the calls pass *)
  w_clock : list Z;        (** nanoseconds since the epoch, per reading *)
  w_temp_seq : Z;          (** [TEMP_SEQUENCE] *)
  w_trail : list Files;
}.

Definition Fs (A : Type) : Type := World -> World * result IoError A.

#[export] Instance fs_ret : MRet Fs := fun A a w => (w, Ok a).
#[export] Instance fs_bind : MBind Fs := fun A B f m w =>
  match m w with
  | (w', Ok a) => f a w'
  | (w', Err e) => (w', Err e)
  end.

Definition fail {A} (e : IoError) : Fs A := fun w => (w, Err e).

(** The caller looks at the error itself. *)
Definition attempt {A} (m : Fs A) : Fs (result IoError A) := fun w => let '(w', r) := m w in (w', Ok r).

Definition with_error {A} (f : IoError -> IoError) (m : Fs A) : Fs A := fun w => let '(w', r) := m w in (w', map_err f r).

(** ** Calls *)

Definition set_faults (w : World) (faults : list Fault) : World := mkWorld (w_files w) faults (w_clock w) (w_temp_seq w) (w_trail w).

(** The directory now holds [files], having gone through [steps]. *)
Definition set_files (w : World) (files : Files) (steps : list Files) : World :=
  mkWorld files (w_faults w) (w_clock w) (w_temp_seq w) (w_trail w ++ steps).

Definition pop_fault (w : World) : World * Fault :=
  match w_faults w with [] => (w, Pass) | f :: rest => (set_faults w rest, f) end.

(** A call that changes no file: permissions, metadata, fsync. *)
Definition call : Fs unit := fun w =>
  let '(w, f) := pop_fault w in (w, match f with Pass => Ok tt | Fails k s _ => Err (fault_error k s) end).

Definition not_found : IoError := mkIoError NotFound "No such file or directory".
Definition already_exists : IoError := mkIoError AlreadyExists "File exists".

Definition files_of : Fs Files := fun w => (w, Ok (w_files w)).
Definition put_files (files : Files) : Fs unit := fun w => (set_files w files [files], Ok tt).

(** [File::open]. *)
Definition open_read (name : string) : Fs unit :=
  _ ← call; files ← files_of; match files !! name with Some _ => mret tt | None => fail not_found end.

Definition contents (files : Files) (name : string) : bytes := default [] (files !! name).

(** [metadata().len()] and [read_to_end] on an open file. *)
Definition file_len (name : string) : Fs Z := _ ← call; files ← files_of; mret (Z.of_nat (length (contents files name))).
Definition read_to_end (name : string) : Fs bytes := _ ← call; files ← files_of; mret (contents files name).

(** [OpenOptions::append.create]. *)
Definition open_append (name : string) : Fs unit :=
  _ ← call; files ← files_of; match files !! name with Some _ => mret tt | None => put_files (<[name := []]> files) end.

(** [OpenOptions::create_new]. *)
Definition create_new (name : string) : Fs unit :=
  _ ← call; files ← files_of; match files !! name with Some _ => fail already_exists | None => put_files (<[name := []]> files) end.

Definition appended (files : Files) (name : string) (data : bytes) (n : nat) : Files := <[name := contents files name ++ take n data]> files.

(** [write_all] at the end of an open file. *)
Definition write_all (name : string) (data : bytes) : Fs unit := fun w =>
  let '(w, f) := pop_fault w in
  let n := match f with Pass => length data | Fails _ _ n => n end in
  (set_files w (appended (w_files w) name data n) (appended (w_files w) name data <$> seq 0 (S n)),
   match f with Pass => Ok tt | Fails k s _ => Err (fault_error k s) end).

Definition rename (from to_ : string) : Fs unit :=
  _ ← call; files ← files_of;
  match files !! from with Some data => put_files (<[to_ := data]> (delete from files)) | None => fail not_found end.

Definition remove_file (name : string) : Fs unit :=
  _ ← call; files ← files_of;
  match files !! name with Some _ => put_files (delete name files) | None => fail not_found end.

(** [SystemTime::now] as nanoseconds; before the epoch it reads zero. *)
Definition now : Fs Z := fun w =>
  match w_clock w with
  | [] => (w, Ok 0)
  | t :: rest => (mkWorld (w_files w) (w_faults w) rest (w_temp_seq w) (w_trail w), Ok (Z.max 0 t))
  end.

(** [TEMP_SEQUENCE.fetch_add(1)]. *)
Definition next_temp : Fs Z := fun w =>
  (mkWorld (w_files w) (w_faults w) (w_clock w) ((w_temp_seq w + 1) mod 2 ^ 64) (w_trail w), Ok (w_temp_seq w)).

End Fs.
