(* ===== verification/HerdrError.v ===== *)
(** * The dispatch boundary

    [lerdr-herdr/src/error.rs]: how a failed Herdr request is classified by
    where it stopped relative to the socket write, and how the refusal of a
    subscription is read. *)

From S2P Require Import Prelude Fs.

Module HerdrError.

(** ** Phases *)

Inductive DispatchPhase := PNotStarted | PRefused | PDispatchedUnknown.
#[export] Instance DispatchPhase_eq_dec : EqDecision DispatchPhase.
Proof. solve_decision. Defined.

Definition phase_safe_to_retry (p : DispatchPhase) : bool := bool_decide (p = PNotStarted).
Definition phase_may_have_applied (p : DispatchPhase) : bool := bool_decide (p = PDispatchedUnknown).

Definition TRANSIENT_REFUSAL_CODES : list string := ["server_not_running"; "agent_pane_busy"]%string.

Definition KNOWN_REFUSAL_CODES : list string :=
  ["server_not_running"; "agent_pane_busy"; "protocol_mismatch"; "invalid_request"; "workspace_not_found"; "worktree_not_found"; "not_git_worktree";
   "linked_worktree_source"; "workspace_group_close_required"; "workspace_group_changed"; "workspace_group_primary_required"; "workspace_group_consent_invalid";
   "workspace_group_validation_unavailable"; "workspace_move_block_failed"; "unknown_method"; "method_not_found"; "unsupported_method"]%string.

(** ** Errors *)

Inductive HerdrError :=
| NotStarted (e : Fs.IoError)
| Refused (code message : string)
| DispatchedUnknown (cause : HerdrError).

Definition not_started : Fs.IoError -> HerdrError := NotStarted.
Definition not_started_msg (msg : string) : HerdrError := not_started (Fs.mkIoError Fs.OtherKind msg).
Definition refused : string -> string -> HerdrError := Refused.
Definition dispatched_unknown : HerdrError -> HerdrError := DispatchedUnknown.
Definition dispatched_io (e : Fs.IoError) : HerdrError := dispatched_unknown (not_started e).
Definition dispatched_msg (msg : string) : HerdrError := dispatched_io (Fs.mkIoError Fs.InvalidData msg).

Definition phase (e : HerdrError) : DispatchPhase :=
  match e with NotStarted _ => PNotStarted | Refused _ _ => PRefused | DispatchedUnknown _ => PDispatchedUnknown end.

Definition is_safe_to_retry (e : HerdrError) : bool := phase_safe_to_retry (phase e).
Definition may_have_applied (e : HerdrError) : bool := phase_may_have_applied (phase e).

Definition refusal_code (e : HerdrError) : option string := match e with Refused code _ => Some code | _ => None end.

Definition is_transient_refusal (e : HerdrError) : bool :=
  match refusal_code e with Some code => bool_decide (code ∈ TRANSIENT_REFUSAL_CODES) | None => false end.

Fixpoint io_error (e : HerdrError) : option Fs.IoError :=
  match e with NotStarted e => Some e | DispatchedUnknown cause => io_error cause | Refused _ _ => None end.

(** [Display]; an [io::Error] shows its text. *)
Fixpoint to_string (e : HerdrError) : string :=
  match e with
  | NotStarted e => "herdr request not dispatched: " +:+ Fs.e_text e
  | Refused code message =>
      if decide (code = ""%string) then "herdr refused the request: " +:+ message
      else if decide (message = ""%string) then "herdr refused the request: " +:+ code
      else "herdr refused the request (" +:+ code +:+ "): " +:+ message
  | DispatchedUnknown cause => "herdr request dispatched but outcome unknown: " +:+ to_string cause
  end.

(** ** Subscriptions *)

Record SubscribeError := mkSubscribeError {
  se_code : option string;
  se_message : string;
  se_pre_dispatch : bool;
  se_source : option HerdrError;
}.

Definition transport (err : HerdrError) : SubscribeError := mkSubscribeError (refusal_code err) (to_string err) (is_safe_to_retry err) (Some err).
Definition subscribe_refused (code message : string) (pre_dispatch : bool) : SubscribeError := mkSubscribeError (Some code) message pre_dispatch None.

Definition UNSUPPORTED_SUBSCRIPTION_CODES : list string :=
  ["unknown_event"; "unsupported_event"; "unknown_subscription"; "unsupported_subscription"; "invalid_subscription"]%string.

Definition is_unsupported_subscription (e : SubscribeError) : bool :=
  match se_code e with
  | Some code => if decide (code ∈ UNSUPPORTED_SUBSCRIPTION_CODES) then true else se_pre_dispatch e
  | None => se_pre_dispatch e
  end.

(** [str::find] of a substring and of a character: what follows it. *)
Fixpoint strip (p s : bytes) : option bytes :=
  match p, s with
  | [], _ => Some s
  | a :: p, b :: s => if decide (a = b) then strip p s else None
  | _, [] => None
  end.
Fixpoint after (p s : bytes) : option bytes :=
  match strip p s with
  | Some rest => Some rest
  | None => match s with [] => None | _ :: s => after p s end
  end.
Fixpoint before_char (c : Z) (s : bytes) : option bytes :=
  match s with
  | [] => None
  | x :: s => if decide (x = c) then Some [] else (cons x) <$> before_char c s
  end.

Definition MARKER : bytes := as_bytes "unknown variant `".

Definition rejected_variant (e : SubscribeError) : option string :=
  if negb (se_pre_dispatch e && bool_decide (se_code e = Some "invalid_request"%string)) then None
  else rest ← after MARKER (as_bytes (se_message e)); name ← before_char 96 rest; Some (string_of_bytes name).

Definition is_workspace_reordered_rejected (e : SubscribeError) : bool := bool_decide (rejected_variant e = Some "workspace.reordered"%string).

Example rejected_output : rejected_variant (subscribe_refused "invalid_request" "invalid request: unknown variant `pane.output_changed`" true) = Some "pane.output_changed"%string.
Proof. vm_compute. reflexivity. Qed.

(** ** Streams *)

Inductive EventStreamError :=
| EventsLost (message : string)
| Terminated (code message : string)
| Closed (e : Fs.IoError)
| Decode (message : string)
| Lagged.

Definition history_lost (e : EventStreamError) : bool := match e with EventsLost _ | Lagged => true | _ => false end.

End HerdrError.

(** * Shared in-flight requests

    [lerdr-herdr/src/singleflight.rs]: concurrent callers with the same key
    share one request.  [execute] is cut at its lock acquisitions and await
    points; any caller may move next and a caller's future may be dropped at any
    await point, which runs the drop of [LeaderGuard]. *)

From S2P Require Import Prelude.

Module Singleflight.

Section Flights.
(** The result of a request: [Result<Value, Arc<HerdrError>>]. *)
Context {R : Type}.

(** A broadcast channel as its receivers see it. *)
Inductive Channel := Open | Sent (r : R) | Closed.

(** Where a call of [execute] stands.  [fut] is still there at the top of the
    loop. *)
Inductive Phase :=
| Looping (fut : bool)
| Leading (flight : nat)                 (** awaiting its own request, guard held *)
| Publishing (flight : nat) (r : R)      (** guard dropped, result not yet sent *)
| Following (flight : nat) (fut : bool)  (** awaiting [recv] *)
| Done (r : R)
| Dropped
| Panicked.

Record Caller := mkCaller { c_key : string; c_phase : Phase; c_since : nat }.

(** A request that ended, in the order they ended. *)
Record Finish := mkFinish { f_key : string; f_flight : nat; f_result : R }.

(** [in_flight] names the flight whose sender is in the map. *)
Record State := mkState {
  in_flight : gmap string nat;
  channels : list Channel;
  callers : gmap nat Caller;
  finished : list Finish;
}.

Definition empty : State := mkState ∅ [] ∅ [].

Definition set_caller (s : State) (c : nat) (x : Caller) : State := mkState (in_flight s) (channels s) (<[c := x]> (callers s)) (finished s).
Definition set_channel (s : State) (f : nat) (ch : Channel) : State := mkState (in_flight s) (<[f := ch]> (channels s)) (callers s) (finished s).
Definition evict (s : State) (key : string) : State := mkState (delete key (in_flight s)) (channels s) (callers s) (finished s).

Definition move (x : Caller) (p : Phase) : Caller := mkCaller (c_key x) p (c_since x).

(** The lock section at the top of the loop. *)
Definition claim (s : State) (c : nat) (x : Caller) (fut : bool) : State :=
  match in_flight s !! c_key x with
  | Some f => set_caller s c (move x (Following f fut))
  | None =>
      let f := length (channels s) in
      let s' := mkState (<[c_key x := f]> (in_flight s)) (channels s ++ [Open]) (callers s) (finished s) in
      (** [fut.take().expect(...)] *)
      set_caller s' c (move x (if fut then Leading f else Panicked))
  end.

(** What may happen next. *)
Inductive Event :=
| Call (c : nat) (key : string)
| Claim (c : nat)
| Finishes (c : nat) (r : R)
| Publish (c : nat)
| Receive (c : nat)
| Cancel (c : nat).

Definition step (s : State) (e : Event) : option State :=
  match e with
  | Call c key => if decide (callers s !! c = None) then Some (set_caller s c (mkCaller key (Looping true) (length (finished s)))) else None
  | Claim c =>
      x ← callers s !! c;
      match c_phase x with Looping fut => Some (claim s c x fut) | _ => None end
  | Finishes c r =>
      x ← callers s !! c;
      match c_phase x with
      | Leading f =>
          let s := evict s (c_key x) in
          Some (set_caller (mkState (in_flight s) (channels s) (callers s) (finished s ++ [mkFinish (c_key x) f r])) c (move x (Publishing f r)))
      | _ => None
      end
  | Publish c =>
      x ← callers s !! c;
      match c_phase x with Publishing f r => Some (set_caller (set_channel s f (Sent r)) c (move x (Done r))) | _ => None end
  | Receive c =>
      x ← callers s !! c;
      match c_phase x with
      | Following f fut =>
          match channels s !! f with
          | Some (Sent r) => Some (set_caller s c (move x (Done r)))
          | Some Closed => Some (set_caller s c (move x (Looping fut)))
          | _ => None
          end
      | _ => None
      end
  | Cancel c =>
      x ← callers s !! c;
      match c_phase x with
      | Looping _ | Following _ _ => Some (set_caller s c (move x Dropped))
      | Leading f => Some (set_caller (set_channel (evict s (c_key x)) f Closed) c (move x Dropped))
      | _ => None
      end
  end.

Inductive reachable : State -> Prop :=
| reach_empty : reachable empty
| reach_step s e s' : reachable s -> step s e = Some s' -> reachable s'.

(** ** Invariant *)

(** The flight a caller answers for. *)
Definition owns (x : Caller) (f : nat) : Prop := c_phase x = Leading f \/ exists r, c_phase x = Publishing f r.

Record inv (s : State) : Prop := {
  (** the map has exactly the flights with a leader *)
  inv_map key f : in_flight s !! key = Some f <-> exists c x, callers s !! c = Some x /\ c_key x = key /\ c_phase x = Leading f;
  (** an open channel has one owner, who has the flight's key *)
  inv_owner f : channels s !! f = Some Open -> exists c x, callers s !! c = Some x /\ owns x f;
  inv_unique c c' x x' f : callers s !! c = Some x -> callers s !! c' = Some x' -> owns x f -> owns x' f -> c = c';
  inv_open c x f : callers s !! c = Some x -> owns x f -> channels s !! f = Some Open;
  (** a follower shares the key of its flight, which had not ended when it joined *)
  inv_follow c x f fut : callers s !! c = Some x -> c_phase x = Following f fut -> fut = true /\ (f < length (channels s))%nat /\
    (forall c' x', callers s !! c' = Some x' -> owns x' f -> c_key x' = c_key x) /\
    (forall i fin, finished s !! i = Some fin -> f_flight fin = f -> (c_since x <= i)%nat /\ f_key fin = c_key x);
  inv_sent f r : channels s !! f = Some (Sent r) -> exists i fin, finished s !! i = Some fin /\ f_flight fin = f /\ f_result fin = r;
  inv_publishing c x f r : callers s !! c = Some x -> c_phase x = Publishing f r ->
    exists i fin, finished s !! i = Some fin /\ f_flight fin = f /\ f_result fin = r /\ f_key fin = c_key x /\ (c_since x <= i)%nat;
  inv_leading c x f : callers s !! c = Some x -> c_phase x = Leading f -> forall i fin, finished s !! i = Some fin -> f_flight fin <> f;
  inv_once i j fin fin' : finished s !! i = Some fin -> finished s !! j = Some fin' -> f_flight fin = f_flight fin' -> i = j;
  inv_old i fin : finished s !! i = Some fin -> (f_flight fin < length (channels s))%nat;
  inv_done c x r : callers s !! c = Some x -> c_phase x = Done r -> exists i fin, finished s !! i = Some fin /\ f_key fin = c_key x /\ f_result fin = r /\ (c_since x <= i)%nat;
  inv_since c x : callers s !! c = Some x -> (c_since x <= length (finished s))%nat;
  inv_looping c x : callers s !! c = Some x -> c_phase x <> Looping false /\ c_phase x <> Panicked;
}.

Ltac look := repeat match goal with H : <[_ := _]> _ !! _ = Some _ |- _ => apply lookup_insert_Some in H as [[<- <-]|[? H]] end.
Ltac fields := cbn [set_caller set_channel evict in_flight channels callers finished move c_key c_phase c_since f_key f_flight f_result] in *.

Lemma inv_empty : inv empty.
Proof.
  constructor; unfold empty; cbn [in_flight channels callers finished].
  - intros key f. rewrite lookup_empty. split; [done|]. intros (c & x & Hc & _). by rewrite lookup_empty in Hc.
  - done.
  - intros c c' x x' f Hc. by rewrite lookup_empty in Hc.
  - intros c x f Hc. by rewrite lookup_empty in Hc.
  - intros c x f fut Hc. by rewrite lookup_empty in Hc.
  - done.
  - intros c x f r Hc. by rewrite lookup_empty in Hc.
  - intros c x f Hc. by rewrite lookup_empty in Hc.
  - done.
  - done.
  - intros c x r Hc. by rewrite lookup_empty in Hc.
  - intros c x Hc. by rewrite lookup_empty in Hc.
  - intros c x Hc. by rewrite lookup_empty in Hc.
Qed.

(** A caller that owns nothing moves to a phase that owns nothing. *)
Lemma inv_move s c x p : inv s -> callers s !! c = Some x -> (forall f, ~ owns x f) -> (forall f, ~ owns (move x p) f) ->
  (forall f fut, p = Following f fut -> fut = true /\ (f < length (channels s))%nat /\ (forall c' x', callers s !! c' = Some x' -> owns x' f -> c_key x' = c_key x) /\
     (forall i fin, finished s !! i = Some fin -> f_flight fin = f -> (c_since x <= i)%nat /\ f_key fin = c_key x)) ->
  (forall r, p = Done r -> exists i fin, finished s !! i = Some fin /\ f_key fin = c_key x /\ f_result fin = r /\ (c_since x <= i)%nat) ->
  p <> Looping false -> p <> Panicked -> inv (set_caller s c (move x p)).
Proof.
  intros I Hx Hno Hno' Hf Hd Hp1 Hp2. constructor; fields.
  - intros key f. rewrite (inv_map _ I). split.
    + intros (c' & x' & Hc' & Hk & Hl). exists c', x'. split; [|done]. rewrite lookup_insert_ne; [done|]. intros <-. rewrite Hx in Hc'. injection Hc' as <-. apply (Hno f). by left.
    + intros (c' & x' & Hc' & Hk & Hl). look; [|eauto]. exfalso. apply (Hno' f). by left.
  - intros f Ho. destruct (inv_owner _ I f Ho) as (c' & x' & Hc' & Hw). exists c', x'. split; [|done]. rewrite lookup_insert_ne; [done|]. intros <-. rewrite Hx in Hc'. injection Hc' as <-. by apply (Hno f).
  - intros c1 c2 x1 x2 f H1 H2 O1 O2. look; try done; try (exfalso; by eapply Hno'). by eapply (inv_unique _ I).
  - intros c1 x1 f H1 O1. look; [exfalso; by eapply Hno'|]. by eapply (inv_open _ I).
  - intros c1 x1 f fut H1 Hp. look.
    + fields. destruct (Hf f fut Hp) as (H2 & H3 & H4 & H5). split_and!; [done..| |done]. intros c' x' Hc' Ho. look; [done|]. by eapply H4.
    + destruct (inv_follow _ I c1 x1 f fut H1 Hp) as (H2 & H3 & H4 & H5). split_and!; [done..| |done]. intros c' x' Hc' Ho. look; [exfalso; by eapply Hno'|]. by eapply H4.
  - apply (inv_sent _ I).
  - intros c1 x1 f r H1 Hp. look; [exfalso; apply (Hno' f); right; eauto|]. by eapply (inv_publishing _ I).
  - intros c1 x1 f H1 Hp. look; [exfalso; apply (Hno' f); by left|]. by eapply (inv_leading _ I).
  - apply (inv_once _ I).
  - apply (inv_old _ I).
  - intros c1 x1 r H1 Hp. look; [fields; by apply Hd|]. by eapply (inv_done _ I).
  - intros c1 x1 H1. look; [exact (inv_since _ I c x Hx)|]. by eapply (inv_since _ I).
  - intros c1 x1 H1. look; [done|]. by eapply (inv_looping _ I).
Qed.

Lemma owns_none x p : c_phase x = p -> match p with Leading _ | Publishing _ _ => False | _ => True end -> forall f, ~ owns x f.
Proof. intros Hp Hn f [E|[r E]]; rewrite Hp in E; by rewrite E in Hn. Qed.

Lemma inv_call s c key : inv s -> callers s !! c = None -> inv (set_caller s c (mkCaller key (Looping true) (length (finished s)))).
Proof.
  intros I Hn. assert (Hno : forall f, ~ owns (mkCaller key (Looping true) (length (finished s))) f) by (intros f; by apply (owns_none _ (Looping true))).
  constructor; fields.
  - intros k f. rewrite (inv_map _ I). split; [|intros (c' & x' & Hc' & Hk & Hl); look; [done|eauto]].
    intros (c' & x' & Hc' & Hk & Hl). exists c', x'. split; [|done]. rewrite lookup_insert_ne; [done|]. by intros <-; rewrite Hn in Hc'.
  - intros f Ho. destruct (inv_owner _ I f Ho) as (c' & x' & Hc' & Hw). exists c', x'. split; [|done]. rewrite lookup_insert_ne; [done|]. by intros <-; rewrite Hn in Hc'.
  - intros c1 c2 x1 x2 f H1 H2 O1 O2. look; try done; try (exfalso; by eapply Hno). by eapply (inv_unique _ I).
  - intros c1 x1 f H1 O1. look; [exfalso; by eapply Hno|]. by eapply (inv_open _ I).
  - intros c1 x1 f fut H1 Hp. look; [done|]. destruct (inv_follow _ I c1 x1 f fut H1 Hp) as (H2 & H3 & H4 & H5). split_and!; [done..| |done].
    intros c' x' Hc' Ho. look; [exfalso; by eapply Hno|]. by eapply H4.
  - apply (inv_sent _ I).
  - intros c1 x1 f r H1 Hp. look; [done|]. by eapply (inv_publishing _ I).
  - intros c1 x1 f H1 Hp. look; [done|]. by eapply (inv_leading _ I).
  - apply (inv_once _ I).
  - apply (inv_old _ I).
  - intros c1 x1 r H1 Hp. look; [done|]. by eapply (inv_done _ I).
  - intros c1 x1 H1. look; [done|]. by eapply (inv_since _ I).
  - intros c1 x1 H1. look; [done|]. by eapply (inv_looping _ I).
Qed.

(** The first caller of a key leads a new flight. *)
Lemma inv_lead s c x : inv s -> callers s !! c = Some x -> c_phase x = Looping true -> in_flight s !! c_key x = None -> inv (claim s c x true).
Proof.
  intros I Hx Hp Hm. unfold claim. rewrite Hm. set (f := length (channels s)). pose proof (owns_none x _ Hp Logic.I) as Hno.
  assert (Hfree : forall c' x' g, callers s !! c' = Some x' -> owns x' g -> g <> f) by (intros c' x' g Hc' Ho ->; pose proof (lookup_lt_Some _ _ _ (inv_open _ I c' x' f Hc' Ho)); unfold f in *; lia).
  assert (Hch : forall g ch, channels s !! g = Some ch -> (channels s ++ [Open]) !! g = Some ch) by (intros g ch Hg; by apply lookup_app_l_Some).
  assert (Hold : forall g, (channels s ++ [Open]) !! g = Some Open -> g <> f -> channels s !! g = Some Open).
  { intros g Hg Hne. apply lookup_app_Some in Hg as [Hg|[Hlen Hg]]; [done|]. apply list_lookup_singleton_Some in Hg as [Hg _]. unfold f in Hne. lia. }
  assert (Hown : forall g, owns (move x (Leading f)) g -> g = f) by (intros g [E|[r E]]; fields; congruence).
  constructor; fields.
  - intros k g. split.
    + intros Hk. apply lookup_insert_Some in Hk as [[<- <-]|[Hne Hk]]; [exists c, (move x (Leading f)); rewrite lookup_insert_eq; done|].
      apply (inv_map _ I) in Hk as (c' & x' & Hc' & Hk & Hl). exists c', x'. split; [|done]. rewrite lookup_insert_ne; [done|]. intros <-. rewrite Hx in Hc'. injection Hc' as <-. congruence.
    + intros (c' & x' & Hc' & Hk & Hl). look; fields; [injection Hl as <-; subst k; apply lookup_insert_eq|]. rewrite lookup_insert_ne; [apply (inv_map _ I); eauto|].
      intros <-. assert (in_flight s !! c_key x = Some g) by (apply (inv_map _ I); eauto). congruence.
  - intros g Hg. destruct (decide (g = f)) as [->|Hne]; [exists c, (move x (Leading f)); rewrite lookup_insert_eq; split; [done|by left]|].
    destruct (inv_owner _ I g (Hold g Hg Hne)) as (c' & x' & Hc' & Ho). exists c', x'. split; [|done]. rewrite lookup_insert_ne; [done|]. intros <-. rewrite Hx in Hc'. injection Hc' as <-. by apply (Hno g).
  - intros c1 c2 x1 x2 g H1 H2 O1 O2. look; try done.
    + apply Hown in O2 as ->. exfalso. by eapply Hfree.
    + apply Hown in O1 as ->. exfalso. by eapply Hfree.
    + by eapply (inv_unique _ I).
  - intros c1 x1 g H1 O1. look; [apply Hown in O1 as ->; apply lookup_app_Some; right; by rewrite Nat.sub_diag|]. apply Hch. by eapply (inv_open _ I).
  - intros c1 x1 g fut H1 Hp1. look; [done|]. destruct (inv_follow _ I c1 x1 g fut H1 Hp1) as (H2 & H3 & H4 & H5). rewrite length_app. split_and!; [done|lia| |done].
    intros c' x' Hc' Ho. look; [apply Hown in Ho as ->; unfold f in H3; lia|]. by eapply H4.
  - intros g r Hg. apply (inv_sent _ I). apply lookup_app_Some in Hg as [Hg|[_ Hg]]; [done|]. by apply list_lookup_singleton_Some in Hg as [_ [=]].
  - intros c1 x1 g r H1 Hp1. look; [done|]. by eapply (inv_publishing _ I).
  - intros c1 x1 g H1 Hp1. look; [|by eapply (inv_leading _ I)]. fields. injection Hp1 as <-. intros i fin Hi E. apply (inv_old _ I) in Hi. unfold f in E. lia.
  - apply (inv_once _ I).
  - intros i fin Hi. rewrite length_app. apply (inv_old _ I) in Hi. lia.
  - intros c1 x1 r H1 Hp1. look; [done|]. by eapply (inv_done _ I).
  - intros c1 x1 H1. look; [exact (inv_since _ I c x Hx)|]. by eapply (inv_since _ I).
  - intros c1 x1 H1. look; [done|]. by eapply (inv_looping _ I).
Qed.

Lemma finished_snoc (s : State) fin i fin' : (finished s ++ [fin]) !! i = Some fin' -> finished s !! i = Some fin' \/ i = length (finished s) /\ fin' = fin.
Proof. intros H. apply lookup_app_Some in H as [H|[Hl H]]; [by left|]. apply list_lookup_singleton_Some in H as [H ->]. right. split; [lia|done]. Qed.

(** Of one key only one caller leads. *)
Lemma leader_unique s c c' x x' f f' : inv s -> callers s !! c = Some x -> callers s !! c' = Some x' -> c_phase x = Leading f -> c_phase x' = Leading f' -> c_key x = c_key x' -> c = c'.
Proof.
  intros I Hc Hc' Hl Hl' Hk. assert (E1 : in_flight s !! c_key x = Some f) by (apply (inv_map _ I); eauto). assert (E2 : in_flight s !! c_key x' = Some f') by (apply (inv_map _ I); eauto).
  rewrite Hk, E2 in E1. injection E1 as ->. eapply (inv_unique _ I); [done..|by left|by left].
Qed.

Lemma inv_finishes s c x f r : inv s -> callers s !! c = Some x -> c_phase x = Leading f ->
  inv (set_caller (mkState (delete (c_key x) (in_flight s)) (channels s) (callers s) (finished s ++ [mkFinish (c_key x) f r])) c (move x (Publishing f r))).
Proof.
  intros I Hx Hl. assert (Hown : forall g, owns (move x (Publishing f r)) g -> g = f) by (intros g [E|[r' E]]; fields; congruence).
  assert (Hfx : owns x f) by (by left). assert (Hold : forall i fin, finished s !! i = Some fin -> (finished s ++ [mkFinish (c_key x) f r]) !! i = Some fin) by (intros; by apply lookup_app_l_Some).
  assert (Hlast : (finished s ++ [mkFinish (c_key x) f r]) !! length (finished s) = Some (mkFinish (c_key x) f r)) by (apply lookup_app_Some; right; by rewrite Nat.sub_diag).
  constructor; fields.
  - intros k g. split.
    + intros Hk. apply lookup_delete_Some in Hk as [Hne Hk]. apply (inv_map _ I) in Hk as (c' & x' & Hc' & Hk & Hl'). exists c', x'. split; [|done]. rewrite lookup_insert_ne; [done|]. intros <-. rewrite Hx in Hc'. injection Hc' as <-. done.
    + intros (c' & x' & Hc' & Hk & Hl'). look; [done|]. rewrite lookup_delete_ne; [apply (inv_map _ I); eauto|]. intros E. subst k. rename select (c <> c') into Hne. apply Hne. by eapply (leader_unique s c c').
  - intros g Hg. destruct (inv_owner _ I g Hg) as (c' & x' & Hc' & Ho). destruct (decide (c = c')) as [<-|Hne]; [|exists c', x'; by rewrite lookup_insert_ne].
    rewrite Hx in Hc'. injection Hc' as <-. exists c, (move x (Publishing f r)). rewrite lookup_insert_eq. split; [done|]. right. exists r. fields. destruct Ho as [Ho|[? Ho]]; congruence.
  - intros c1 c2 x1 x2 g H1 H2 O1 O2. look; try done.
    + apply Hown in O2 as ->. symmetry. by eapply (inv_unique _ I).
    + apply Hown in O1 as ->. by eapply (inv_unique _ I).
    + by eapply (inv_unique _ I).
  - intros c1 x1 g H1 O1. look; [apply Hown in O1 as ->; by eapply (inv_open _ I)|]. by eapply (inv_open _ I).
  - intros c1 x1 g fut H1 Hp1. look; [done|]. destruct (inv_follow _ I c1 x1 g fut H1 Hp1) as (H2 & H3 & H4 & H5). split_and!; [done..| |].
    + intros c' x' Hc' Ho. look; [apply Hown in Ho as ->; exact (H4 c x Hx Hfx)|]. by eapply H4.
    + intros i fin Hi Ef. apply finished_snoc in Hi as [Hi|[-> ->]]; [by apply H5|]. fields. subst g. split; [exact (inv_since _ I c1 x1 H1)|exact (H4 c x Hx Hfx)].
  - intros g r' Hg. destruct (inv_sent _ I g r' Hg) as (i & fin & Hi & E). exists i, fin. auto.
  - intros c1 x1 g r' H1 Hp1. look.
    + fields. injection Hp1 as <- <-. exists (length (finished s)), (mkFinish (c_key x) f r). split_and!; [done..|]. exact (inv_since _ I c x Hx).
    + destruct (inv_publishing _ I c1 x1 g r' H1 Hp1) as (i & fin & Hi & E). exists i, fin. auto.
  - intros c1 x1 g H1 Hp1. look; [done|]. intros i fin Hi. apply finished_snoc in Hi as [Hi|[-> ->]]; [by eapply (inv_leading _ I)|]. fields. intros ->.
    rename select (c <> c1) into Hne. apply Hne. eapply (inv_unique _ I); [exact Hx|exact H1|exact Hfx|by left].
  - intros i j fin fin' Hi Hj E. apply finished_snoc in Hi as [Hi|[-> ->]], Hj as [Hj|[-> ->]]; [by eapply (inv_once _ I)|..|done]; fields; exfalso.
    + by eapply (inv_leading _ I c x f).
    + by eapply (inv_leading _ I c x f).
  - intros i fin Hi. apply finished_snoc in Hi as [Hi|[-> ->]]; [by eapply (inv_old _ I)|]. fields. eapply lookup_lt_Some. by eapply (inv_open _ I).
  - intros c1 x1 r' H1 Hp1. look; [done|]. destruct (inv_done _ I c1 x1 r' H1 Hp1) as (i & fin & Hi & E). exists i, fin. auto.
  - intros c1 x1 H1. rewrite length_app. look; [pose proof (inv_since _ I c x Hx); fields; lia|]. pose proof (inv_since _ I c1 x1 H1). lia.
  - intros c1 x1 H1. look; [done|]. by eapply (inv_looping _ I).
Qed.

(** The owner of a flight gives up its channel. *)
Lemma inv_settle s c x f ch p m : inv s -> callers s !! c = Some x -> owns x f -> (forall g, ~ owns (move x p) g) -> (forall g fut, p <> Following g fut) ->
  (forall k g, m !! k = Some g <-> in_flight s !! k = Some g /\ g <> f) -> ch <> Open -> (forall r, ch = Sent r -> c_phase x = Publishing f r) ->
  (forall r, p = Done r -> c_phase x = Publishing f r) -> (forall b, p <> Looping b) -> p <> Panicked ->
  inv (set_caller (mkState m (<[f := ch]> (channels s)) (callers s) (finished s)) c (move x p)).
Proof.
  intros I Hx Hfx Hno Hp1 Hm Hch Hsent Hdone Hp2 Hp3. assert (Hlt : (f < length (channels s))%nat) by (eapply lookup_lt_Some; by eapply (inv_open _ I)).
  assert (Hother : forall c' x' g, callers s !! c' = Some x' -> c <> c' -> owns x' g -> g <> f) by (intros c' x' g Hc' Hne Ho ->; apply Hne; by eapply (inv_unique _ I)).
  constructor; fields.
  - intros k g. rewrite Hm. split.
    + intros [Hk Hg]. apply (inv_map _ I) in Hk as (c' & x' & Hc' & Hk & Hl'). exists c', x'. split; [|done]. rewrite lookup_insert_ne; [done|]. intros <-. rewrite Hx in Hc'. injection Hc' as <-.
      destruct Hfx as [E|[r E]]; congruence.
    + intros (c' & x' & Hc' & Hk & Hl'). look; [exfalso; apply (Hno g); by left|]. split; [apply (inv_map _ I); eauto|]. eapply Hother; [done|done|by left].
  - intros g Hg. destruct (decide (g = f)) as [->|Hne]; [rewrite list_lookup_insert_eq in Hg by done; congruence|]. rewrite list_lookup_insert_ne in Hg by done.
    destruct (inv_owner _ I g Hg) as (c' & x' & Hc' & Ho). exists c', x'. split; [|done]. rewrite lookup_insert_ne; [done|]. intros <-. rewrite Hx in Hc'. injection Hc' as <-.
    destruct Hfx as [E|[r E]], Ho as [E'|[r' E']]; congruence.
  - intros c1 c2 x1 x2 g H1 H2 O1 O2. look; try done; try (exfalso; by eapply Hno). by eapply (inv_unique _ I).
  - intros c1 x1 g H1 O1. look; [exfalso; by eapply Hno|]. rewrite list_lookup_insert_ne; [by eapply (inv_open _ I)|]. apply not_eq_sym. by eapply Hother.
  - intros c1 x1 g fut H1 Hf. look; [exfalso; by eapply Hp1|]. destruct (inv_follow _ I c1 x1 g fut H1 Hf) as (H2 & H3 & H4 & H5). rewrite length_insert. split_and!; [done..| |done].
    intros c' x' Hc' Ho. look; [exfalso; by eapply Hno|]. by eapply H4.
  - intros g r Hg. destruct (decide (g = f)) as [->|Hne].
    + rewrite list_lookup_insert_eq in Hg by done. injection Hg as ->. destruct (inv_publishing _ I c x f r Hx (Hsent r eq_refl)) as (i & fin & Hi & E1 & E2 & _). eauto.
    + rewrite list_lookup_insert_ne in Hg by done. by apply (inv_sent _ I).
  - intros c1 x1 g r H1 Hf. look; [exfalso; apply (Hno g); right; eauto|]. by eapply (inv_publishing _ I).
  - intros c1 x1 g H1 Hf. look; [exfalso; apply (Hno g); by left|]. by eapply (inv_leading _ I).
  - apply (inv_once _ I).
  - rewrite length_insert. apply (inv_old _ I).
  - intros c1 x1 r H1 Hd. look; [|by eapply (inv_done _ I)]. fields. destruct (inv_publishing _ I c x f r Hx (Hdone r Hd)) as (i & fin & Hi & E1 & E2 & E3 & E4). exists i, fin. auto.
  - intros c1 x1 H1. look; [exact (inv_since _ I c x Hx)|]. by eapply (inv_since _ I).
  - intros c1 x1 H1. look; [split; [apply Hp2|done]|]. by eapply (inv_looping _ I).
Qed.

(** A caller joins the flight its key has. *)
Lemma inv_join s c x f : inv s -> callers s !! c = Some x -> c_phase x = Looping true -> in_flight s !! c_key x = Some f -> inv (set_caller s c (move x (Following f true))).
Proof.
  intros I Hx Hp Hm. destruct (proj1 (inv_map _ I _ _) Hm) as (cl & xl & Hcl & Hk & Hl). assert (Ho : owns xl f) by (by left).
  apply inv_move; try done.
  - by apply (owns_none _ _ Hp).
  - by apply (owns_none _ (Following f true)).
  - intros g fut [= <- <-]. split_and!; [done|exact (lookup_lt_Some _ _ _ (inv_open _ I _ _ _ Hcl Ho))| |].
    + intros c' x' Hc' Ho'. assert (c' = cl) as -> by (by eapply (inv_unique _ I)). congruence.
    + intros i fin Hi Hf. exfalso. by eapply (inv_leading _ I cl xl f Hcl Hl i).
Qed.

Lemma inv_claim s c x fut : inv s -> callers s !! c = Some x -> c_phase x = Looping fut -> inv (claim s c x fut).
Proof.
  intros I Hx Hp. assert (fut = true) as -> by (destruct fut; [done|by destruct (inv_looping _ I c x Hx)]).
  destruct (in_flight s !! c_key x) as [f|] eqn:Hm; [|by apply inv_lead]. unfold claim. rewrite Hm. by apply inv_join.
Qed.

Lemma inv_publish s c x f r : inv s -> callers s !! c = Some x -> c_phase x = Publishing f r -> inv (set_caller (set_channel s f (Sent r)) c (move x (Done r))).
Proof.
  intros I Hx Hp. assert (Ho : owns x f) by (right; eauto). apply (inv_settle s c x f (Sent r) (Done r)); try done.
  - by apply (owns_none _ (Done r)).
  - intros k g. split; [|by intros [? _]]. intros Hk. split; [done|]. intros ->. apply (inv_map _ I) in Hk as (c' & x' & Hc' & _ & Hl).
    assert (c' = c) as -> by (eapply (inv_unique _ I); [done..|by left|done]). congruence.
  - intros r' [= <-]. done.
  - intros r' [= <-]. done.
Qed.

Lemma inv_receive s c x f fut s' : inv s -> callers s !! c = Some x -> c_phase x = Following f fut -> step s (Receive c) = Some s' -> inv s'.
Proof.
  intros I Hx Hp. cbn [step]. rewrite Hx. cbn [mbind option_bind]. rewrite Hp. destruct (inv_follow _ I c x f fut Hx Hp) as (-> & _ & _ & H5).
  pose proof (owns_none x _ Hp Logic.I) as Hno. destruct (channels s !! f) as [[|r|]|] eqn:Hch; intros [= <-].
  - apply inv_move; try done; [by apply (owns_none _ (Done r))|]. intros r' [= <-]. destruct (inv_sent _ I f r Hch) as (i & fin & Hi & Hf & Hr). destruct (H5 i fin Hi Hf). eauto 10.
  - apply inv_move; try done. by apply (owns_none _ (Looping true)).
Qed.

Lemma inv_abandon s c x f : inv s -> callers s !! c = Some x -> c_phase x = Leading f -> inv (set_caller (set_channel (evict s (c_key x)) f Closed) c (move x Dropped)).
Proof.
  intros I Hx Hp. assert (Ho : owns x f) by (by left). apply (inv_settle s c x f Closed Dropped); try done; [by apply (owns_none _ Dropped)|].
  assert (Hk : in_flight s !! c_key x = Some f) by (apply (inv_map _ I); eauto).
  intros k g. fields. rewrite lookup_delete_Some. split; intros [H1 H2]; split; try done; [|congruence].
  intros ->. apply (inv_map _ I) in H2 as (c' & x' & Hc' & Hk' & Hl). assert (c' = c) as -> by (eapply (inv_unique _ I); [done..|by left|done]). congruence.
Qed.

Lemma inv_cancel s c x s' : inv s -> callers s !! c = Some x -> step s (Cancel c) = Some s' -> inv s'.
Proof.
  intros I Hx. cbn [step]. rewrite Hx. cbn [mbind option_bind]. destruct (c_phase x) as [fut|f|f r|f fut|r| |] eqn:Hp; intros [= <-]; [|by apply inv_abandon|];
    (apply inv_move; try done; [by apply (owns_none _ _ Hp)|by apply (owns_none _ Dropped)]).
Qed.

Lemma inv_step s e s' : inv s -> step s e = Some s' -> inv s'.
Proof.
  intros I. destruct e as [c key|c|c r|c|c|c]; [|intros Hs; pose proof Hs as Hs0; cbn [step] in Hs; destruct (callers s !! c) as [x|] eqn:Hx; [cbn [mbind option_bind] in Hs|done]..].
  - cbn [step]. case_decide as Hn; intros [= <-]. by apply inv_call.
  - destruct (c_phase x) as [fut| | | | | |] eqn:Hp; try done. injection Hs as <-. by apply inv_claim.
  - destruct (c_phase x) as [|f| | | | |] eqn:Hp; try done. injection Hs as <-. by apply inv_finishes.
  - destruct (c_phase x) as [| |f r| | | |] eqn:Hp; try done. injection Hs as <-. by apply inv_publish.
  - destruct (c_phase x) as [| | |f fut| | |] eqn:Hp; try done. by eapply inv_receive.
  - by eapply inv_cancel.
Qed.

Lemma flights_inv s : reachable s -> inv s.
Proof. induction 1 as [|s e s' _ IH Hs]; [exact inv_empty|by eapply inv_step]. Qed.

(** ** Progress *)

(** A sequence of events. *)
Fixpoint steps (s : State) (es : list Event) : option State :=
  match es with [] => Some s | e :: es => s' ← step s e; steps s' es end.

Lemma deliver_publishing s o xo c x f fut r : inv s -> callers s !! o = Some xo -> c_phase xo = Publishing f r -> callers s !! c = Some x -> c_phase x = Following f fut ->
  exists s', steps s [Publish o; Receive c] = Some s' /\ callers s' !! c = Some (move x (Done r)).
Proof.
  intros I Ho Hpo Hx Hp. assert (Hlt : (f < length (channels s))%nat) by (destruct (inv_follow _ I c x f fut Hx Hp) as (_ & H & _); exact H).
  assert (o <> c) by congruence. cbn [steps step]. rewrite Ho. cbn [mbind option_bind]. rewrite Hpo. cbn [mbind option_bind]. fields.
  rewrite lookup_insert_ne by done. rewrite Hx. cbn [mbind option_bind]. rewrite Hp, list_lookup_insert_eq by done. cbn [mbind option_bind].
  eexists. split; [done|]. fields. apply lookup_insert_eq.
Qed.

Lemma deliver_leading s o xo c x f fut r : inv s -> callers s !! o = Some xo -> c_phase xo = Leading f -> callers s !! c = Some x -> c_phase x = Following f fut ->
  exists s', steps s [Finishes o r; Publish o; Receive c] = Some s' /\ callers s' !! c = Some (move x (Done r)).
Proof.
  intros I Ho Hpo Hx Hp. assert (Hne : o <> c) by congruence. pose proof (inv_finishes s o xo f r I Ho Hpo) as I'.
  cbn [steps]. cbn [step]. rewrite Ho. cbn [mbind option_bind]. rewrite Hpo. cbn [mbind option_bind]. unfold evict. cbn [in_flight channels callers finished].
  apply (deliver_publishing _ o (move xo (Publishing f r)) c x f fut r I'); fields; [apply lookup_insert_eq|done| |done]. by rewrite lookup_insert_ne.
Qed.

Lemma abandon_leading s o xo c x f fut : inv s -> callers s !! o = Some xo -> c_phase xo = Leading f -> callers s !! c = Some x -> c_phase x = Following f fut ->
  exists s', steps s [Cancel o; Receive c; Claim c] = Some s' /\ exists g, callers s' !! c = Some (move x (Leading g)).
Proof.
  intros I Ho Hpo Hx Hp. assert (Hne : o <> c) by congruence. destruct (inv_follow _ I c x f fut Hx Hp) as (-> & Hlt & Hk & _).
  assert (Ek : c_key xo = c_key x) by (apply (Hk o); [done|by left]).
  cbn [steps step]. rewrite Ho. cbn [mbind option_bind]. rewrite Hpo. cbn [mbind option_bind]. fields. rewrite lookup_insert_ne by done. rewrite Hx. cbn [mbind option_bind].
  rewrite Hp, list_lookup_insert_eq by done. cbn [mbind option_bind]. fields. rewrite lookup_insert_eq. cbn [mbind option_bind c_phase move].
  unfold claim. fields. rewrite Ek, lookup_delete_eq. eexists. split; [done|]. eexists. fields. apply lookup_insert_eq.
Qed.

Lemma steps_reachable s es s' : reachable s -> steps s es = Some s' -> reachable s'.
Proof.
  revert s. induction es as [|e es IH]; intros s Hr Hs; [by injection Hs as <-|]. cbn [steps] in Hs.
  destruct (step s e) as [s1|] eqn:He; [|done]. apply (IH s1); [by eapply reach_step|done].
Qed.

(** ** The promises of [execute] *)

(** At every moment a key has at most one caller running its request, that
    caller's flight is the one the map names, and no caller ever finds its
    request already spent (the [expect] of the leader branch never fires). *)
Theorem one_request_per_key s : reachable s ->
  (forall c c' x x' f f', callers s !! c = Some x -> callers s !! c' = Some x' -> c_phase x = Leading f -> c_phase x' = Leading f' -> c_key x = c_key x' -> c = c') /\
  (forall key f, in_flight s !! key = Some f <-> exists c x, callers s !! c = Some x /\ c_key x = key /\ c_phase x = Leading f) /\
  (forall c x, callers s !! c = Some x -> c_phase x <> Panicked).
Proof.
  intros Hr. pose proof (flights_inv s Hr) as I. split_and!.
  - intros c c' x x' f f'. by apply leader_unique.
  - apply (inv_map _ I).
  - intros c x Hc. by apply (inv_looping _ I c x).
Qed.

(** A caller that waits on another's request is never stranded: its channel
    already has something for it, or the flight has an owner whose next moves
    settle it — the result of the owner's request reaches the caller, and when
    the owner is cancelled instead the caller takes over with its own request. *)
Theorem follower_never_stranded s c x f fut : reachable s -> callers s !! c = Some x -> c_phase x = Following f fut ->
  (exists s', step s (Receive c) = Some s') \/
  (exists o, (forall r, exists s', steps s [Finishes o r; Publish o; Receive c] = Some s' /\ callers s' !! c = Some (move x (Done r))) /\
     (exists s', steps s [Cancel o; Receive c; Claim c] = Some s' /\ exists g, callers s' !! c = Some (move x (Leading g)))) \/
  (exists o r s', steps s [Publish o; Receive c] = Some s' /\ callers s' !! c = Some (move x (Done r))).
Proof.
  intros Hr Hx Hp. pose proof (flights_inv s Hr) as I. destruct (inv_follow _ I c x f fut Hx Hp) as (_ & Hlt & _).
  destruct (lookup_lt_is_Some_2 _ _ Hlt) as [ch Hch]. destruct ch as [|r|].
  - right. destruct (inv_owner _ I f Hch) as (o & xo & Ho & [Hl|[r Hl]]); [left|right].
    + exists o. split; [intros r; by eapply deliver_leading|by eapply abandon_leading].
    + exists o, r. by eapply deliver_publishing.
  - left. cbn [step]. rewrite Hx. cbn [mbind option_bind]. rewrite Hp, Hch. eauto.
  - left. cbn [step]. rewrite Hx. cbn [mbind option_bind]. rewrite Hp, Hch. eauto.
Qed.

(** Whatever [execute] returns is the result of a request for the caller's
    own key that ended after the call began: sharing never hands out a result
    that was already old when it was asked for. *)
Theorem shared_result_is_fresh s c x r : reachable s -> callers s !! c = Some x -> c_phase x = Done r ->
  exists i fin, finished s !! i = Some fin /\ f_key fin = c_key x /\ f_result fin = r /\ (c_since x <= i)%nat.
Proof. intros Hr. exact (inv_done _ (flights_inv s Hr) c x r). Qed.

End Flights.
Arguments Channel : clear implicits.
Arguments Phase : clear implicits.
Arguments Caller : clear implicits.
Arguments Finish : clear implicits.
Arguments State : clear implicits.
Arguments Event : clear implicits.

(** ** Two callers of one pane and one of another *)
Definition demo_events : list (Event Z) :=
  [Call 0 "pane:a"; Call 1 "pane:a"; Call 2 "pane:b"; Claim 0; Claim 2; Claim 1; Finishes 2 9].

Definition demo : State Z := default empty (steps empty demo_events).

Lemma demo_flight_reachable : reachable demo.
Proof. apply (steps_reachable empty demo_events); [constructor|vm_compute; reflexivity]. Qed.

Definition demo_done : State Z := default empty (steps demo [Finishes 0 7; Publish 0; Receive 1]).

Lemma demo_done_reachable : reachable demo_done.
Proof. apply (steps_reachable demo [Finishes 0 7; Publish 0; Receive 1]); [exact demo_flight_reachable|vm_compute; reflexivity]. Qed.

Lemma one_request_per_key_witness : callers demo !! 0%nat = Some (mkCaller "pane:a" (Leading 0) 0) /\ in_flight demo !! "pane:a" = Some 0%nat /\
  (forall c x, callers demo !! c = Some x -> c_phase x <> Panicked).
Proof. split; [vm_compute; reflexivity|]. split; [vm_compute; reflexivity|]. exact (proj2 (proj2 (one_request_per_key demo demo_flight_reachable))). Defined.

Lemma follower_never_stranded_witness : exists x, callers demo !! 1%nat = Some x /\ c_phase x = Following 0 true /\
  ((exists s', step demo (Receive 1) = Some s') \/
  (exists o, (forall r, exists s', steps demo [Finishes o r; Publish o; Receive 1] = Some s' /\ callers s' !! 1%nat = Some (move x (Done r))) /\
     (exists s', steps demo [Cancel o; Receive 1; Claim 1] = Some s' /\ exists g, callers s' !! 1%nat = Some (move x (Leading g)))) \/
  (exists o r s', steps demo [Publish o; Receive 1] = Some s' /\ callers s' !! 1%nat = Some (move x (Done r)))).
Proof.
  exists (mkCaller "pane:a" (Following 0 true) 0). split; [vm_compute; reflexivity|]. split; [reflexivity|].
  apply (follower_never_stranded demo 1 _ 0 true demo_flight_reachable); [vm_compute; reflexivity|reflexivity].
Defined.

Lemma shared_result_is_fresh_witness : exists x, callers demo_done !! 1%nat = Some x /\ c_phase x = Done 7 /\
  exists i fin, finished demo_done !! i = Some fin /\ f_key fin = c_key x /\ f_result fin = 7 /\ (c_since x <= i)%nat.
Proof.
  exists (mkCaller "pane:a" (Done 7) 0). split; [vm_compute; reflexivity|]. split; [reflexivity|].
  apply (shared_result_is_fresh demo_done 1); [exact demo_done_reachable|vm_compute; reflexivity|reflexivity].
Defined.

End Singleflight.
