(* ===== verification/Outcome.v ===== *)
(** * Action outcomes

    [Outcome] of [lerdr-coord/src/actions/mod.rs]: the result frame and the
    receipt every routed action ends with, and the two mappings from a failed
    Herdr request ([HerdrError]) to an outcome. *)

From S2P Require Import Prelude Utf8 JsonText Json JsonWire GoJson Inbound UploadBinary Protocol SessionActor Fs HerdrError.

Module Outcome.
Import Json Protocol HerdrError.

Definition MAX_INSERT_INDEX : Z := 10000.

Record Outcome := mkOutcome {
  o_ok : bool;
  o_phase : string;
  o_error : string;
  o_pane_id : string;
  o_data : option json;
  o_receipt_phase : string;
  o_receipt_error : option ApiError;
}.

(** The pane a request addresses. *)
Definition pane_of (message : Inbound.Inbound) : string :=
  if decide (Inbound.in_pane_id message = ""%string) then match Inbound.in_target message with Some t => Inbound.t_pane_id t | None => "" end
  else Inbound.in_pane_id message.

Section Outcomes.
Context `{FT : GoJson.FloatText} `{CM : CaseMapping} `{ST : SessionActor.SerdeText}.

Definition api_error_plain (code detail : string) : ApiError := ApiError_new code {["detail"%string := JString detail]}.
Definition api_error (code : string) (err : HerdrError) : ApiError := api_error_plain code (to_string err).

Definition refusal_args (err : HerdrError) : gmap string json :=
  match err with Refused _ message => {["message"%string := JString message]} | _ => ∅ end.

(** ** Constructors *)

Definition completed (pane_id : string) (data : option json) : Outcome := mkOutcome true "completed" "" pane_id data CONFIRMED None.
Definition completed_with_warning (pane_id : string) (data : json) : Outcome := mkOutcome true "completed_with_warning" "" pane_id (Some data) CONFIRMED None.

Definition unknown_marker : json := JObject [("dispatched_unknown"%string, JBool true)].

Definition partially_applied (pane_id reason : string) : Outcome :=
  mkOutcome false "dispatched_unknown" "Part of the command already reached the agent; review it before retrying" pane_id (Some unknown_marker)
    DISPATCHED_UNKNOWN (Some (api_error_plain "dispatch_outcome_unknown" reason)).

Definition failed (pane_id message : string) : Outcome :=
  mkOutcome false "failed" message pane_id None FAILED_BEFORE_DISPATCH (Some (api_error_plain INVALID_REQUEST message)).

Definition not_started_refusal (code message : string) (data : option json) : Outcome :=
  mkOutcome false "not_started" message "" data FAILED_BEFORE_DISPATCH (Some (ApiError_new code ∅)).

Definition capability_gap (method pane_id : string) : Outcome :=
  mkOutcome false "not_started" "Herdr does not support this action" pane_id (Some (JObject [("code"%string, JString CAPABILITY_UNSUPPORTED)]))
    FAILED_BEFORE_DISPATCH (Some (ApiError_new CAPABILITY_UNSUPPORTED {["method"%string := JString method]})).

(** ** Frames *)

Definition command_result_frame (request_id action : string) (o : Outcome) : Outbound :=
  OCommandResult (mkCommandResult (Some action) ((fun v => UploadBinary.Value (SessionActor.serde_text v)) <$> o_data o) (Some (o_error o)) (Some (o_ok o))
    (Some (o_pane_id o)) (Some (o_phase o)) (non_empty request_id) "command_result").

Definition frames (o : Outcome) (request_id action action_id : string) : list Outbound :=
  [command_result_frame request_id action o;
   OActionReceipt (action_receipt_response request_id (mkReceipt action_id (o_receipt_phase o) (o_receipt_error o)))].

(** An action without a handler: the receipt alone. *)
Definition unknown (request_id action_id : string) : list Outbound :=
  [OActionReceipt (action_receipt_response request_id (mkReceipt action_id DISPATCHED_UNKNOWN None))].

(** ** Failed requests *)

Definition refusal_message (code : string) : string :=
  if decide (code = "server_not_running")%string then "Herdr server is not running"
  else if decide (code = "agent_pane_busy")%string then "Agent pane is still starting"
  else if decide (code = "agent_blocked")%string then "Agent is waiting at a question or approval"
  else if decide (code = "protocol_mismatch")%string then "Herdr server protocol is incompatible with this relay"
  else if decide (code = "workspace_group_close_required")%string then "Close the workspace group explicitly"
  else if decide (code = "workspace_group_changed")%string then "Workspace group changed; review it before closing"
  else if decide (code = "workspace_group_primary_required")%string then "Select the primary workspace to close the group"
  else if decide (code = "workspace_group_consent_invalid")%string then "Workspace group confirmation is invalid; confirm again"
  else if decide (code = "workspace_group_validation_unavailable")%string then "Current workspace membership could not be verified; try again"
  else "Herdr rejected the command before it was sent".

Definition topology_refusal_code (code : string) : bool :=
  bool_decide (code ∈ ["invalid_request"; "workspace_not_found"; "worktree_not_found"; "not_git_worktree"; "linked_worktree_source";
    "worktree_operation_in_progress"; "protocol_mismatch"; "workspace_group_close_required"; "workspace_group_changed"; "workspace_group_primary_required";
    "workspace_group_consent_invalid"; "workspace_group_validation_unavailable"]%string).

Definition group_refusal_code (code : string) : bool :=
  bool_decide (code ∈ ["protocol_mismatch"; "workspace_group_close_required"; "workspace_group_changed"; "workspace_group_primary_required";
    "workspace_group_consent_invalid"; "workspace_group_validation_unavailable"]%string).

Definition RETRY_IS_SAFE : string := "Command was not sent; retry is safe".
Definition code_data (code : string) : json := JObject [("code"%string, JString code)].

Definition dispatch_failure (pane_id : string) (err : HerdrError) : Outcome :=
  match phase err with
  | PNotStarted => mkOutcome false "not_started" RETRY_IS_SAFE pane_id None FAILED_BEFORE_DISPATCH (Some (api_error "herdr_unreachable" err))
  | PDispatchedUnknown =>
      mkOutcome false "dispatched_unknown" "Command may have executed; review the agent before retrying" pane_id (Some unknown_marker)
        DISPATCHED_UNKNOWN (Some (api_error "dispatch_outcome_unknown" err))
  | PRefused =>
      let code := default "refused"%string (refusal_code err) in
      let '(error, data) := if is_transient_refusal err then (RETRY_IS_SAFE, None) else (refusal_message code, Some (code_data code)) in
      mkOutcome false "not_started" error pane_id data CONFIRMED (Some (ApiError_new code (refusal_args err)))
  end.

(** The public text of a structured workspace refusal. *)
Definition public_refusal (code message : string) : string :=
  if decide (code = "workspace_group_consent_invalid"%string) then "Workspace group confirmation is invalid; confirm again"
  else if group_refusal_code code then refusal_message code
  else let trimmed := Utf8.trim message in if decide (trimmed = ""%string) then "Herdr refused the command" else trimmed.

(** The tail of [topology_failure]: the phase decides. *)
Definition topology_phase_failure (err : HerdrError) : Outcome :=
  match phase err with
  | PDispatchedUnknown =>
      mkOutcome false "dispatched_unknown" "Herdr may have completed this command; refresh before retrying" "" (Some unknown_marker)
        DISPATCHED_UNKNOWN (Some (api_error "dispatch_outcome_unknown" err))
  | PNotStarted => mkOutcome false "not_started" RETRY_IS_SAFE "" None FAILED_BEFORE_DISPATCH (Some (api_error "herdr_unreachable" err))
  | PRefused =>
      mkOutcome false "failed" "Command failed" "" None CONFIRMED (Some (ApiError_new (default "refused"%string (refusal_code err)) (refusal_args err)))
  end.

Definition worktree_list_failure (err : HerdrError) : Outcome :=
  let '(error, data) :=
    match err with
    | Refused code message => if decide (Utf8.trim message = ""%string) then ("Worktrees could not be listed"%string, None) else (Utf8.trim message, Some (code_data code))
    | _ => ("Worktrees could not be listed"%string, None)
    end in
  mkOutcome false "failed" error "" data FAILED_BEFORE_DISPATCH (Some (api_error "herdr_unreachable" err)).

Definition topology_failure (action : string) (err : HerdrError) : Outcome :=
  let rest := if decide (action = "worktree_list"%string) then worktree_list_failure err else topology_phase_failure err in
  match err with
  | Refused code message =>
      if decide (code = "dirty_worktree_requires_force"%string) then
        mkOutcome false "not_started" "Worktree has uncommitted changes; force removal is required" ""
          (Some (JObject [("code"%string, JString code); ("force_available"%string, JBool true)])) CONFIRMED (Some (ApiError_new code (refusal_args err)))
      else if topology_refusal_code code then
        mkOutcome false "not_started" (public_refusal code message) "" (Some (code_data code)) CONFIRMED (Some (ApiError_new code (refusal_args err)))
      else rest
  | _ => rest
  end.

(** ** Created targets *)

Record CreatedTarget := mkCreated { ct_pane_id : string; ct_tab_id : string; ct_workspace_id : string }.

(** [Value::pointer] along plain member names. *)
Fixpoint pointer (v : json) (path : list string) : option json :=
  match path with
  | [] => Some v
  | k :: path => v' ← get v k; pointer v' path
  end.

Definition str_at (v : json) (path : list string) : option string :=
  s ← pointer v path ≫= as_str; if decide (s = ""%string) then None else Some s.

Fixpoint first_of (v : json) (candidates : list (list string)) : string :=
  match candidates with
  | [] => ""
  | p :: rest => match str_at v p with Some s => s | None => first_of v rest end
  end.

Definition created_target (v : json) : CreatedTarget :=
  mkCreated (first_of v [["pane_id"]; ["root_pane"; "pane_id"]; ["agent"; "pane_id"]]%string)
    (first_of v [["tab_id"]; ["root_pane"; "tab_id"]; ["tab"; "tab_id"]]%string)
    (first_of v [["workspace_id"]; ["root_pane"; "workspace_id"]; ["tab"; "workspace_id"]; ["workspace"; "workspace_id"]]%string).

(** ** What a client may conclude *)

Definition is_receipt (m : Outbound) : option ActionReceipt := match m with OActionReceipt r => m_receipt r | _ => None end.

(** The receipt tells where a failed command stopped: whatever fails in
    dispatching a pane or agent command, the frames are one [command_result]
    with [ok] false and one receipt; the receipt says [failed_before_dispatch]
    only when no byte was written, [dispatched_unknown] exactly when the
    command may have been applied, [confirmed] exactly when Herdr answered with
    a refusal; and the text promises a safe retry only when the command was not
    applied. *)
Theorem dispatch_receipt_is_honest (pane_id request_id action action_id : string) (err : HerdrError) :
  let o := dispatch_failure pane_id err in
  exists result receipt, frames o request_id action action_id = [OCommandResult result; OActionReceipt (action_receipt_response request_id receipt)] /\
    cr_ok result = Some false /\ r_action_id receipt = action_id /\
    (r_phase receipt = FAILED_BEFORE_DISPATCH <-> phase err = PNotStarted) /\
    (r_phase receipt = DISPATCHED_UNKNOWN <-> may_have_applied err = true) /\
    (r_phase receipt = CONFIRMED <-> exists code message, err = Refused code message) /\
    (cr_error result = Some RETRY_IS_SAFE -> may_have_applied err = false).
Proof.
  cbv zeta. unfold dispatch_failure. destruct err as [e|code message|cause]; cbn [phase refusal_code default from_option id].
  - eexists _, _. split; [reflexivity|]. cbn. split_and!; try done; split; try done. by intros (code & message & ?).
  - destruct (is_transient_refusal _); eexists _, _; (split; [reflexivity|]); cbn; split_and!; try done; split; try done; eauto.
  - eexists _, _. split; [reflexivity|]. cbn. split_and!; try done; split; try done. by intros (code & message & ?).
Qed.

(** The workspace variant agrees, except for [worktree_list], whose failures are
    all reported as not dispatched. *)
Lemma topology_receipt_phase (action : string) (err : HerdrError) : action <> "worktree_list"%string ->
  o_receipt_phase (topology_failure action err) = match phase err with PNotStarted => FAILED_BEFORE_DISPATCH | PRefused => CONFIRMED | PDispatchedUnknown => DISPATCHED_UNKNOWN end.
Proof.
  intros Ha. unfold topology_failure. rewrite decide_False by done. destruct err as [e|code message|cause]; [done| |done]. case_decide; [done|]. by destruct (topology_refusal_code code).
Qed.

Lemma worktree_list_receipt_phase (cause : HerdrError) : o_receipt_phase (topology_failure "worktree_list" (DispatchedUnknown cause)) = FAILED_BEFORE_DISPATCH.
Proof. done. Qed.

End Outcomes.
End Outcome.
