(* ===== verification/Annotations.v ===== *)
(** * Watch annotations

    [lerdr-coord/src/annotations.rs]: which panes and workspaces are being
    watched, and the metadata reports queued for Herdr.  Reports are sent in
    queue order by one task, so the queue is what Herdr sees.  One operation
    runs at a time (the ledger's mutex). *)

From S2P Require Import Prelude Topology.

Module Annotations.

Definition METADATA_SOURCE : string := "lerdr-relay".
Definition METADATA_TTL_MS : Z := 5 * 60 * 1000.
Definition REFRESH_INTERVAL : Z := 150 * 1000.
Definition WATCHING_TOKEN : string := "lerdr_watching".
Definition DEVICES_TOKEN : string := "lerdr_devices".

Inductive Report :=
| RPane (pane_id : string) (watching : bool) (seq : Z)
| RWorkspace (workspace_id : string) (devices : option nat) (seq : Z).

Record PaneAnnotation := mkAnnotation { pa_workspace_id : string; pa_watchers : gset string }.

(** [AnnotationState], the report queue and the coming clock readings in
    milliseconds. *)
Record State := mkState {
  panes : gmap string PaneAnnotation;
  workspaces : gmap string (gset string);
  seqs : gmap string Z;
  queue : list Report;
  clock : list Z;
}.

(** What an operation reads outside the ledger: the committed snapshot, the
    capability states and the number of connected controllers. *)
Record Env := mkEnv {
  env_panes : list Topology.PaneInfo;
  env_pane_unsupported : bool;
  env_workspace_unsupported : bool;
  env_devices : nat;
}.

Definition empty_state (clock : list Z) : State := mkState ∅ ∅ ∅ [] clock.

Definition set_panes (s : State) (m : gmap string PaneAnnotation) : State := mkState m (workspaces s) (seqs s) (queue s) (clock s).
Definition set_workspaces (s : State) (m : gmap string (gset string)) : State := mkState (panes s) m (seqs s) (queue s) (clock s).

(** [next_seq]; a clock before the epoch reads zero. *)
Definition next_seq (s : State) (target : string) : State * Z :=
  let '(now_ms, clock') := match clock s with [] => (0, []) | t :: rest => (Z.max 0 t mod 2 ^ 64, rest) end in
  let seq := Z.max ((default 0 (seqs s !! target) + 1) mod 2 ^ 64) now_ms in
  (mkState (panes s) (workspaces s) (<[target := seq]> (seqs s)) (queue s) clock', seq).

Definition push (s : State) (r : Report) : State := mkState (panes s) (workspaces s) (seqs s) (queue s ++ [r]) (clock s).

Section Ledger.
Context (env : Env).

Definition workspace_of (pane_id : string) : option string :=
  '(_, p) ← list_find (fun p => Topology.p_pane_id p = pane_id) (env_panes env);
  if decide (Topology.p_workspace_id p = ""%string) then None else Some (Topology.p_workspace_id p).

Definition enqueue_pane (s : State) (pane_id : string) (watching : bool) : State :=
  if env_pane_unsupported env then s
  else let '(s, seq) := next_seq s pane_id in push s (RPane pane_id watching seq).

Definition enqueue_workspace_report (s : State) (workspace_id : string) (devices : option nat) : State :=
  if env_workspace_unsupported env then s
  else let '(s, seq) := next_seq s workspace_id in push s (RWorkspace workspace_id devices seq).

Definition enqueue_workspace (s : State) (workspace_id : string) : State :=
  if decide (env_devices env = 0%nat) then s else enqueue_workspace_report s workspace_id (Some (env_devices env)).

Definition enqueue_workspace_clear (s : State) (workspace_id : string) : State := enqueue_workspace_report s workspace_id None.

(** The client joins its workspace's set. *)
Definition join_workspace (s : State) (client_id workspace_id : string) : State :=
  let watchers := default ∅ (workspaces s !! workspace_id) in
  let s' := set_workspaces s (<[workspace_id := {[client_id]} ∪ watchers]> (workspaces s)) in
  if decide (client_id ∉ watchers /\ watchers = ∅) then enqueue_workspace s' workspace_id else s'.

Definition watch_started (s : State) (client_id pane_id : string) : State :=
  if decide (client_id = ""%string \/ pane_id = ""%string) then s
  else
    let workspace_id := workspace_of pane_id in
    let s :=
      match panes s !! pane_id with
      | Some a => set_panes s (<[pane_id := mkAnnotation (pa_workspace_id a) ({[client_id]} ∪ pa_watchers a)]> (panes s))
      | None =>
          enqueue_pane (set_panes s (<[pane_id := mkAnnotation (default ""%string workspace_id) {[client_id]}]> (panes s))) pane_id true
      end in
    match workspace_id with Some w => join_workspace s client_id w | None => s end.

(** The client leaves its workspace's set unless another pane keeps it there. *)
Definition leave_workspace (s : State) (client_id workspace_id : string) : State :=
  if decide (workspace_id = ""%string) then s
  else if decide (map_Exists (fun _ a => pa_workspace_id a = workspace_id /\ client_id ∈ pa_watchers a) (panes s)) then s
  else match workspaces s !! workspace_id with
  | None => s
  | Some watchers =>
      let watchers := watchers ∖ {[client_id]} in
      if decide (watchers = ∅) then enqueue_workspace_clear (set_workspaces s (delete workspace_id (workspaces s))) workspace_id
      else set_workspaces s (<[workspace_id := watchers]> (workspaces s))
  end.

Definition watch_stopped (s : State) (client_id pane_id : string) : State :=
  match panes s !! pane_id with
  | None => s
  | Some a =>
      let watchers := pa_watchers a ∖ {[client_id]} in
      if decide (watchers = ∅) then
        let s := enqueue_pane (set_panes s (delete pane_id (panes s))) pane_id false in
        leave_workspace s client_id (pa_workspace_id a)
      else set_panes s (<[pane_id := mkAnnotation (pa_workspace_id a) watchers]> (panes s))
  end.

(** A pane watched before the topology knew its workspace. *)
Definition late_workspace (s : State) (pane_id : string) : State :=
  match panes s !! pane_id with
  | Some a =>
      if decide (pa_workspace_id a = ""%string) then
        match workspace_of pane_id with
        | Some ws =>
            let s := set_panes s (<[pane_id := mkAnnotation ws (pa_watchers a)]> (panes s)) in
            let entry := default ∅ (workspaces s !! ws) in
            let s := set_workspaces s (<[ws := pa_watchers a ∪ entry]> (workspaces s)) in
            if decide (entry = ∅ /\ pa_watchers a ∪ entry <> ∅) then enqueue_workspace s ws else s
        | None => s
        end
      else s
  | None => s
  end.

Definition refresh_pane (s : State) (pane_id : string) : State := enqueue_pane (late_workspace s pane_id) pane_id true.

Definition refresh_all (s : State) : State :=
  let s := foldl refresh_pane s (btree_keys (panes s)) in
  foldl enqueue_workspace s (btree_keys (workspaces s)).

End Ledger.

(** ** What is sent *)

(** The tokens of a report: [None] clears the token. *)
Definition report_tokens (r : Report) : list (string * option string) :=
  match r with
  | RPane _ watching _ => [(WATCHING_TOKEN, if watching then Some "1"%string else None)]
  | RWorkspace _ devices _ => [(DEVICES_TOKEN, (fun n => decimal (Z.of_nat n)) <$> devices)]
  end.

Inductive TitleCall := TitleSet (title : string) | TitleClear.

(** [update_window_title]: the call it makes, if any. *)
Definition update_window_title (set_unsupported clear_unsupported : bool) (devices : nat) : option TitleCall :=
  if decide (devices = 0%nat) then if clear_unsupported then None else Some TitleClear
  else if set_unsupported then None
  else Some (TitleSet (if decide (devices = 1%nat) then "lerdr: 1 device" else "lerdr: " +:+ decimal (Z.of_nat devices) +:+ " devices")).

(** ** Runs *)

Inductive Op := Started (client_id pane_id : string) | Stopped (client_id pane_id : string) | Refresh.

Definition step (env : Env) (s : State) (op : Op) : State :=
  match op with
  | Started c p => watch_started env s c p
  | Stopped c p => watch_stopped env s c p
  | Refresh => refresh_all env s
  end.

End Annotations.

(** * What Herdr is told about watches

    Over every run of [Annotations]: the last report of a pane says whether
    somebody watches it, and the sequence numbers of a target increase.  The
    workspace token does not follow the watches: it can outlive them. *)

From S2P Require Import Prelude Topology.

Module AnnotationsInvariant.
Import Annotations.

(** ** Reports *)

Definition target_of (r : Report) : string := match r with RPane p _ _ => p | RWorkspace w _ _ => w end.
Definition seq_of (r : Report) : Z := match r with RPane _ _ n => n | RWorkspace _ _ n => n end.

(** The last pane report of [p] in the queue. *)
Definition says (p : string) (acc : option bool) (r : Report) : option bool :=
  match r with RPane q b _ => if decide (q = p) then Some b else acc | RWorkspace _ _ _ => acc end.
Definition last_watch (p : string) (q : list Report) : option bool := foldl (says p) None q.

Lemma last_watch_snoc p q r : last_watch p (q ++ [r]) = says p (last_watch p q) r.
Proof. unfold last_watch. by rewrite foldl_app. Qed.

(** ** Sequence numbers *)

(** In the queue each target's numbers increase, the ledger has the last one,
    and none exceeds the clock bound by more than the number of reports. *)
Definition ordered (B : Z) (s : State) : Prop :=
  (forall i j ri rj, (i < j)%nat -> queue s !! i = Some ri -> queue s !! j = Some rj -> target_of ri = target_of rj -> seq_of ri < seq_of rj) /\
  (forall r, r ∈ queue s -> seq_of r <= default 0 (seqs s !! target_of r)) /\
  (forall t n, seqs s !! t = Some n -> 0 <= n <= B + Z.of_nat (length (queue s))) /\
  Forall (fun t => t <= B) (clock s).

Lemma ordered_issue B s t (mk : Z -> Report) : 0 <= B -> (forall n, target_of (mk n) = t /\ seq_of (mk n) = n) -> B + Z.of_nat (length (queue s)) < 2 ^ 64 - 1 ->
  ordered B s -> ordered B (push (next_seq s t).1 (mk (next_seq s t).2)).
Proof.
  intros HB Hmk Hroom (H1 & H2 & H3 & H4). unfold next_seq. set (last := default 0 (seqs s !! t)).
  assert (Hlast : 0 <= last <= B + Z.of_nat (length (queue s))) by (unfold last; destruct (seqs s !! t) eqn:E; cbn; [by eapply H3|lia]).
  assert (Hmod : (last + 1) mod 2 ^ 64 = last + 1) by (apply Z.mod_small; lia). rewrite Hmod.
  destruct (match clock s with [] => (0, []) | t0 :: rest => (Z.max 0 t0 mod 2 ^ 64, rest) end) as [now clock'] eqn:Ec.
  assert (Hnow : 0 <= now <= B /\ Forall (fun t => t <= B) clock').
  { destruct (clock s) as [|t0 rest]; injection Ec as <- <-; [done|]. apply Forall_cons in H4 as [H4 H5]. split; [|done]. rewrite Z.mod_small by lia. lia. }
  destruct Hnow as [Hnow Hclock]. set (seq := Z.max (last + 1) now). destruct (Hmk seq) as [Ht Hs]. unfold ordered. cbn [fst snd push queue seqs clock]. split_and!; [| | |done].
  - intros i j ri rj Hij Hi Hj Htt. assert (Hlt : (i < length (queue s))%nat).
    { apply lookup_lt_Some in Hj. rewrite length_app in Hj. cbn [length] in Hj. lia. }
    rewrite lookup_app_l in Hi by done. destruct (decide (j < length (queue s))%nat) as [Hjl|Hjl].
    + rewrite lookup_app_l in Hj by done. eauto.
    + rewrite lookup_app_r in Hj by lia. apply list_lookup_singleton_Some in Hj as [_ <-]. rewrite Hs. pose proof (H2 ri (list_elem_of_lookup_2 _ _ _ Hi)) as Hle. rewrite Htt, Ht in Hle. fold last in Hle. lia.
  - intros r [Hr|Hr]%elem_of_app.
    + specialize (H2 r Hr). destruct (decide (target_of r = t)) as [E|E]; [rewrite E in *; rewrite lookup_insert_eq; cbn; fold last in H2; lia|by rewrite lookup_insert_ne by congruence].
    + apply list_elem_of_singleton in Hr as ->. rewrite Ht, Hs, lookup_insert_eq. cbn. lia.
  - intros t' n. rewrite length_app. cbn [length]. destruct (decide (t = t')) as [->|E]; [rewrite lookup_insert_eq; intros [= <-]; lia|].
    rewrite lookup_insert_ne by done. intros Hn. specialize (H3 _ _ Hn). lia.
Qed.

Section Env.
Context (env : Env).

(** An operation on the queue: it appends, or keeps the order if there is room. *)
Definition grows (B : Z) (s s' : State) : Prop :=
  (length (queue s) <= length (queue s'))%nat /\ (B + Z.of_nat (length (queue s')) < 2 ^ 64 - 1 -> ordered B s -> ordered B s').

Lemma grows_refl B s : grows B s s.
Proof. by split. Qed.

Lemma grows_trans B s1 s2 s3 : grows B s1 s2 -> grows B s2 s3 -> grows B s1 s3.
Proof. intros [H1 H2] [H3 H4]. split; [lia|]. intros Hr Ho. apply H4; [done|]. apply H2; [lia|done]. Qed.

Lemma grows_same B s s' : queue s' = queue s -> seqs s' = seqs s -> clock s' = clock s -> grows B s s'.
Proof. intros E1 E2 E3. split; [by rewrite E1|]. intros _. unfold ordered. by rewrite E1, E2, E3. Qed.

Lemma grows_pane B s p b : 0 <= B -> grows B s (enqueue_pane env s p b).
Proof.
  intros HB. unfold enqueue_pane. destruct (env_pane_unsupported env); [apply grows_refl|]. destruct (next_seq s p) as [s1 n] eqn:E.
  assert (Hq : queue s1 = queue s) by (unfold next_seq in E; destruct (clock s); injection E as <- _; done). split; [cbn [push queue]; rewrite length_app, Hq; lia|].
  intros Hr Ho. pose proof (ordered_issue B s p (RPane p b) HB ltac:(done)) as H. rewrite E in H. cbn [fst snd] in H. apply H; [|done]. cbn [push queue] in Hr. rewrite length_app, Hq in Hr. cbn [length] in Hr. lia.
Qed.

Lemma grows_report B s w d : 0 <= B -> grows B s (enqueue_workspace_report env s w d).
Proof.
  intros HB. unfold enqueue_workspace_report. destruct (env_workspace_unsupported env); [apply grows_refl|]. destruct (next_seq s w) as [s1 n] eqn:E.
  assert (Hq : queue s1 = queue s) by (unfold next_seq in E; destruct (clock s); injection E as <- _; done). split; [cbn [push queue]; rewrite length_app, Hq; lia|].
  intros Hr Ho. pose proof (ordered_issue B s w (RWorkspace w d) HB ltac:(done)) as H. rewrite E in H. cbn [fst snd] in H. apply H; [|done]. cbn [push queue] in Hr. rewrite length_app, Hq in Hr. cbn [length] in Hr. lia.
Qed.

Lemma grows_workspace B s w : 0 <= B -> grows B s (enqueue_workspace env s w).
Proof. intros HB. unfold enqueue_workspace. case_decide; [apply grows_refl|by apply grows_report]. Qed.

Lemma grows_foldl {A} B (f : State -> A -> State) l s : (forall s x, grows B s (f s x)) -> grows B s (foldl f s l).
Proof. intros Hf. revert s. induction l as [|x l IH]; intros s; [apply grows_refl|]. cbn [foldl]. eapply grows_trans; [apply Hf|apply IH]. Qed.

Ltac same := apply grows_same; reflexivity.

Lemma grows_step B s op : 0 <= B -> grows B s (step env s op).
Proof.
  intros HB. destruct op as [c p|c p|]; cbn [step].
  - unfold watch_started. case_decide; [apply grows_refl|]. set (s1 := match panes s !! p with Some a => _ | None => _ end).
    assert (H1 : grows B s s1) by (unfold s1; destruct (panes s !! p); [same|]; eapply grows_trans; [|by apply grows_pane]; same).
    eapply grows_trans; [exact H1|]. destruct (workspace_of env p) as [w|]; [|apply grows_refl]. unfold join_workspace. case_decide; [|same]. eapply grows_trans; [|by apply grows_workspace]. same.
  - unfold watch_stopped. destruct (panes s !! p) as [a|]; [|apply grows_refl]. case_decide; [|same]. set (s1 := enqueue_pane _ _ _ _).
    assert (H1 : grows B s s1) by (eapply grows_trans; [|by apply grows_pane]; same). eapply grows_trans; [exact H1|]. unfold leave_workspace. case_decide; [apply grows_refl|].
    case_decide; [apply grows_refl|]. destruct (workspaces s1 !! pa_workspace_id a); [|apply grows_refl]. case_decide; [|same]. eapply grows_trans; [|by apply grows_report]. same.
  - unfold refresh_all. eapply grows_trans; [|apply grows_foldl; intros; by apply grows_workspace]. apply grows_foldl. intros s1 p. unfold refresh_pane. eapply grows_trans; [|by apply grows_pane].
    unfold late_workspace. destruct (panes s1 !! p); [|apply grows_refl]. case_decide; [|apply grows_refl]. destruct (workspace_of env p); [|apply grows_refl]. case_decide; [|same].
    eapply grows_trans; [|by apply grows_workspace]. same.
Qed.

End Env.

(** ** Panes *)

(** Who watches what, as the callers know it. *)
Definition watch_op (w : gset (string * string)) (op : Op) : gset (string * string) :=
  match op with
  | Started c p => if decide (c = ""%string \/ p = ""%string) then w else {[(c, p)]} ∪ w
  | Stopped c p => w ∖ {[(c, p)]}
  | Refresh => w
  end.

(** The pane ledger mirrors [w], and the queue says so for every pane. *)
Definition mirrors (w : gset (string * string)) (s : State) : Prop :=
  (forall p c, (c, p) ∈ w <-> exists a, panes s !! p = Some a /\ c ∈ pa_watchers a) /\
  (forall p a, panes s !! p = Some a -> pa_watchers a <> ∅) /\
  (forall p, is_Some (panes s !! p) -> last_watch p (queue s) = Some true) /\
  (forall p, panes s !! p = None -> last_watch p (queue s) <> Some true).

Section Panes.
Context (env : Env) (Hsup : env_pane_unsupported env = false).

Lemma enqueue_pane_queue s p b : exists n, queue (enqueue_pane env s p b) = queue s ++ [RPane p b n] /\ panes (enqueue_pane env s p b) = panes s.
Proof. unfold enqueue_pane. rewrite Hsup. unfold next_seq. destruct (clock s); eexists; done. Qed.

(** Operations that only concern workspaces leave the panes' side alone. *)
Definition panes_same (s s' : State) : Prop := panes s' = panes s /\ forall p, last_watch p (queue s') = last_watch p (queue s).

Lemma panes_same_refl s : panes_same s s.
Proof. done. Qed.
Lemma panes_same_trans s1 s2 s3 : panes_same s1 s2 -> panes_same s2 s3 -> panes_same s1 s3.
Proof. intros [H1 H2] [H3 H4]. split; [congruence|]. intros p. by rewrite H4, H2. Qed.

Lemma report_panes s w d : panes_same s (enqueue_workspace_report env s w d).
Proof. unfold enqueue_workspace_report. destruct (env_workspace_unsupported env); [done|]. unfold next_seq. destruct (clock s); (split; [done|]); intros p; cbn [push queue]; by rewrite last_watch_snoc. Qed.

Lemma workspace_panes s w : panes_same s (enqueue_workspace env s w).
Proof. unfold enqueue_workspace. case_decide; [done|]. apply report_panes. Qed.

Lemma mirrors_same w s s' : panes_same s s' -> mirrors w s -> mirrors w s'.
Proof. intros [E1 E2] H. unfold mirrors in *. rewrite E1. setoid_rewrite E2. exact H. Qed.

Lemma join_panes s c w : panes_same s (join_workspace env s c w).
Proof. unfold join_workspace. case_decide; [|done]. eapply panes_same_trans; [|apply workspace_panes]. done. Qed.

Lemma leave_panes s c w : panes_same s (leave_workspace env s c w).
Proof.
  unfold leave_workspace. case_decide; [done|]. case_decide; [done|]. destruct (workspaces s !! w); [|done]. case_decide; [|done]. eapply panes_same_trans; [|apply report_panes]. done.
Qed.

Lemma mirrors_started w s c p : mirrors w s -> mirrors (watch_op w (Started c p)) (watch_started env s c p).
Proof.
  intros Hm. cbn [watch_op]. unfold watch_started. case_decide as Hne; [done|]. set (s1 := match panes s !! p with Some a => _ | None => _ end).
  assert (H1 : mirrors ({[(c, p)]} ∪ w) s1).
  { destruct Hm as (Hw & Hn & Ht & Hf). unfold s1. destruct (panes s !! p) as [a|] eqn:Ep.
    - unfold mirrors. cbn [set_panes panes queue]. split_and!.
      + intros q c'. rewrite elem_of_union, elem_of_singleton, Hw. destruct (decide (p = q)) as [<-|Hq].
        * rewrite lookup_insert_eq, Ep. split; [intros [[= ->]|(a' & [= <-] & Hc)]; eexists; (split; [done|]); cbn; set_solver|].
          intros (a' & [= <-] & Hc). cbn in Hc. apply elem_of_union in Hc as [->%elem_of_singleton|Hc]; [by left|right; eauto].
        * rewrite lookup_insert_ne by done. split; [intros [[= -> ->]|?]; [done|done]|by right].
      + intros q a'. destruct (decide (p = q)) as [<-|Hq]; [rewrite lookup_insert_eq; intros [= <-]; cbn; set_solver|rewrite lookup_insert_ne by done; by apply Hn].
      + intros q. destruct (decide (p = q)) as [<-|Hq]; [intros _; by apply Ht; rewrite Ep|rewrite lookup_insert_ne by done; apply Ht].
      + intros q. destruct (decide (p = q)) as [<-|Hq]; [by rewrite lookup_insert_eq|rewrite lookup_insert_ne by done; apply Hf].
    - match goal with |- mirrors _ (enqueue_pane _ ?x _ _) => destruct (enqueue_pane_queue x p true) as (n & Eq & Epn) end. unfold mirrors. rewrite Eq, Epn. cbn [set_panes panes queue]. setoid_rewrite last_watch_snoc. split_and!.
      + intros q c'. rewrite elem_of_union, elem_of_singleton, Hw. destruct (decide (p = q)) as [<-|Hq].
        * rewrite lookup_insert_eq, Ep. split; [intros [[= ->]|(a' & [=] & _)]; eexists; (split; [done|]); cbn; set_solver|].
          intros (a' & [= <-] & Hc). cbn in Hc. apply elem_of_singleton in Hc as ->. by left.
        * rewrite lookup_insert_ne by done. split; [intros [[= -> ->]|?]; [done|done]|by right].
      + intros q a'. destruct (decide (p = q)) as [<-|Hq]; [rewrite lookup_insert_eq; intros [= <-]; cbn; set_solver|rewrite lookup_insert_ne by done; by apply Hn].
      + intros q. cbn [says]. destruct (decide (p = q)) as [<-|Hq]; [done|rewrite lookup_insert_ne by done; apply Ht].
      + intros q. cbn [says]. destruct (decide (p = q)) as [<-|Hq]; [by rewrite lookup_insert_eq|rewrite lookup_insert_ne by done; apply Hf]. }
  destruct (workspace_of env p); [|done]. eapply mirrors_same; [apply join_panes|done].
Qed.

Lemma mirrors_stopped w s c p : mirrors w s -> mirrors (watch_op w (Stopped c p)) (watch_stopped env s c p).
Proof.
  intros (Hw & Hn & Ht & Hf). cbn [watch_op]. unfold watch_stopped. destruct (panes s !! p) as [a|] eqn:Ep.
  2:{ replace (w ∖ {[(c, p)]}) with w; [done|]. apply set_eq. intros [c' q]. rewrite elem_of_difference, elem_of_singleton. split; [|tauto]. intros Hin. split; [done|].
      intros [= -> ->]. apply Hw in Hin as (a & Ha & _). congruence. }
  assert (Hmem : forall q c' (a' : PaneAnnotation), q <> p -> (c', q) ∈ w ∖ {[(c, p)]} <-> (c', q) ∈ w) by (intros; rewrite elem_of_difference, elem_of_singleton; naive_solver).
  case_decide as Hempty.
  - eapply mirrors_same; [apply leave_panes|]. match goal with |- mirrors _ (enqueue_pane _ ?x _ _) => destruct (enqueue_pane_queue x p false) as (n & Eq & Epn) end.
    unfold mirrors. rewrite Eq, Epn. cbn [set_panes panes queue]. setoid_rewrite last_watch_snoc. split_and!.
    + intros q c'. destruct (decide (p = q)) as [<-|Hq].
      * rewrite lookup_delete_eq. split; [|by intros (? & ? & _)]. rewrite elem_of_difference, elem_of_singleton. intros [Hin Hne]. apply Hw in Hin as (a' & Ha & Hc). rewrite Ep in Ha. injection Ha as <-. set_solver.
      * rewrite lookup_delete_ne by done. rewrite Hmem by (done || exact a). apply Hw.
    + intros q a'. destruct (decide (p = q)) as [<-|Hq]; [by rewrite lookup_delete_eq|rewrite lookup_delete_ne by done; by apply Hn].
    + intros q. cbn [says]. destruct (decide (p = q)) as [<-|Hq]; [rewrite lookup_delete_eq; by intros [? ?]|rewrite lookup_delete_ne by done; apply Ht].
    + intros q. cbn [says]. destruct (decide (p = q)) as [<-|Hq]; [done|rewrite lookup_delete_ne by done; apply Hf].
  - unfold mirrors. cbn [set_panes panes queue]. split_and!.
    + intros q c'. destruct (decide (p = q)) as [<-|Hq].
      * rewrite lookup_insert_eq, elem_of_difference, elem_of_singleton, Hw. split.
        -- intros [(a' & Ha & Hc) Hne]. rewrite Ep in Ha. injection Ha as <-. eexists. split; [done|]. cbn. set_solver.
        -- intros (a' & [= <-] & Hc). cbn in Hc. split; [exists a; set_solver|]. intros [= ->]. set_solver.
      * rewrite lookup_insert_ne by done. rewrite Hmem by (done || exact a). apply Hw.
    + intros q a'. destruct (decide (p = q)) as [<-|Hq]; [rewrite lookup_insert_eq; by intros [= <-]|rewrite lookup_insert_ne by done; by apply Hn].
    + intros q. destruct (decide (p = q)) as [<-|Hq]; [intros _; by apply Ht; rewrite Ep|rewrite lookup_insert_ne by done; apply Ht].
    + intros q. destruct (decide (p = q)) as [<-|Hq]; [by rewrite lookup_insert_eq|rewrite lookup_insert_ne by done; apply Hf].
Qed.

Lemma mirrors_refresh_pane w s p : is_Some (panes s !! p) -> mirrors w s -> mirrors w (refresh_pane env s p) /\ forall q, is_Some (panes s !! q) -> is_Some (panes (refresh_pane env s p) !! q).
Proof.
  intros Hp Hm. unfold refresh_pane. set (s1 := late_workspace env s p).
  assert (H1 : mirrors w s1 /\ forall q, is_Some (panes s !! q) <-> is_Some (panes s1 !! q)).
  { unfold s1, late_workspace. destruct (panes s !! p) as [a|] eqn:Ep; [|done]. case_decide; [|done]. destruct (workspace_of env p) as [ws|]; [|done].
    set (s2 := set_panes s (<[p := mkAnnotation ws (pa_watchers a)]> (panes s))).
    assert (H2 : mirrors w s2 /\ forall q, is_Some (panes s !! q) <-> is_Some (panes s2 !! q)).
    { destruct Hm as (Hw & Hn & Ht & Hf). unfold s2. cbn [set_panes panes queue].
      assert (Hdom : forall q, is_Some (panes s !! q) <-> is_Some (<[p := mkAnnotation ws (pa_watchers a)]> (panes s) !! q)).
      { intros q. destruct (decide (p = q)) as [<-|Hq]; [rewrite lookup_insert_eq, Ep; split; by eexists|by rewrite lookup_insert_ne]. }
      split; [|exact Hdom]. unfold mirrors. cbn [set_panes panes queue]. split_and!.
      - intros q c'. rewrite Hw. destruct (decide (p = q)) as [<-|Hq]; [|by rewrite lookup_insert_ne]. rewrite lookup_insert_eq, Ep. split; intros (a' & [= <-] & Hc); eexists; (split; [done|]); exact Hc.
      - intros q a'. destruct (decide (p = q)) as [<-|Hq]; [rewrite lookup_insert_eq; intros [= <-]; cbn; by eapply Hn|rewrite lookup_insert_ne by done; by apply Hn].
      - intros q Hq. apply Ht. by apply Hdom.
      - intros q Hq. apply Hf. apply eq_None_not_Some. rewrite Hdom. by rewrite Hq; intros [? ?]. }
    destruct H2 as [H2 Hd2]. case_decide; [|done]. match goal with |- mirrors _ (enqueue_workspace _ ?x _) /\ _ => pose proof (workspace_panes x ws) as Hs end.
    split; [eapply mirrors_same; [exact Hs|done]|]. destruct Hs as [-> _]. exact Hd2. }
  destruct H1 as [Hm1 Hd1]. destruct (enqueue_pane_queue s1 p true) as (n & Eq & Epn). split; [|intros q Hq; rewrite Epn; by apply Hd1].
  destruct Hm1 as (Hw & Hn & Ht & Hf). unfold mirrors. rewrite Eq, Epn. setoid_rewrite last_watch_snoc. cbn [says]. split_and!; [done|done|..].
  - intros q Hq. destruct (decide (p = q)); [done|by apply Ht].
  - intros q Hq. destruct (decide (p = q)) as [<-|]; [|by apply Hf]. exfalso. apply Hd1 in Hp. rewrite Hq in Hp. by destruct Hp.
Qed.

Lemma mirrors_refresh_panes w l s : (forall p, p ∈ l -> is_Some (panes s !! p)) -> mirrors w s -> mirrors w (foldl (refresh_pane env) s l).
Proof.
  revert s. induction l as [|p l IH]; intros s Hall Hm; [exact Hm|]. cbn [foldl].
  destruct (mirrors_refresh_pane w s p (Hall p (list_elem_of_here _ _)) Hm) as [H2 Hd]. apply IH; [|exact H2]. intros q Hq. apply Hd, Hall. by right.
Qed.

Lemma mirrors_workspaces w l s : mirrors w s -> mirrors w (foldl (enqueue_workspace env) s l).
Proof. revert s. induction l as [|x l IH]; intros s Hm; [exact Hm|]. cbn [foldl]. apply IH. eapply mirrors_same; [apply workspace_panes|exact Hm]. Qed.

Lemma mirrors_refresh w s : mirrors w s -> mirrors w (refresh_all env s).
Proof.
  intros Hm. unfold refresh_all. apply mirrors_workspaces, mirrors_refresh_panes; [|exact Hm]. intros p. apply elem_of_btree_keys.
Qed.

Lemma mirrors_step w s op : mirrors w s -> mirrors (watch_op w op) (step env s op).
Proof. destruct op as [c p|c p|]; [apply mirrors_started|apply mirrors_stopped|apply mirrors_refresh]. Qed.

End Panes.

(** ** Runs *)

Definition run (s : State) (ops : list (Env * Op)) : State := foldl (fun s x => step x.1 s x.2) s ops.
Definition watches (ops : list (Env * Op)) : gset (string * string) := foldl (fun w x => watch_op w x.2) ∅ ops.

(** The watching token follows the watches: as long as Herdr supports pane
    reports, after any sequence of watches starting, stopping and refreshes the
    ledger has exactly the current watchers of every pane, and the last report
    queued for a pane sets the token if somebody watches it and otherwise
    clears it or was never made. *)
Theorem pane_tokens_follow_watches (ops : list (Env * Op)) (clock : list Z) (p : string) :
  Forall (fun x => env_pane_unsupported x.1 = false) ops ->
  let s := run (empty_state clock) ops in
  (forall c, (c, p) ∈ watches ops <-> exists a, panes s !! p = Some a /\ c ∈ pa_watchers a) /\
  ((exists c, (c, p) ∈ watches ops) -> last_watch p (queue s) = Some true) /\
  (~ (exists c, (c, p) ∈ watches ops) -> last_watch p (queue s) <> Some true).
Proof.
  intros Hsup. cbv zeta. assert (Hm : mirrors (watches ops) (run (empty_state clock) ops)).
  { unfold run, watches. induction ops as [|ops x IH] using rev_ind; [split_and!; try done|].
    - intros q c. cbn. split; [by intros ?%not_elem_of_empty|by intros (a & ? & _)].
    - by intros q [? ?].
    - rewrite !foldl_app. cbn [foldl]. apply Forall_app in Hsup as [Hsup Hx]. apply Forall_cons in Hx as [Hx _]. apply mirrors_step; [done|]. by apply IH. }
  destruct Hm as (Hw & Hn & Ht & Hf). split; [intros c; apply Hw|]. split.
  - intros [c Hc]. apply Hw in Hc as (a & Ha & _). apply Ht. by rewrite Ha.
  - intros Hno. apply Hf. destruct (panes _ !! p) as [a|] eqn:Ea; [|done]. exfalso. apply Hno. specialize (Hn _ _ Ea). apply set_choose_L in Hn as [c Hc]. exists c. apply Hw. eauto.
Qed.

(** Two devices watch one pane of a workspace and both leave. *)
Definition demo_env : Env := mkEnv [Topology.mkPane "p1" "t1" "w1" "tab1" 1 None] false false 2.
Definition demo_ops : list (Env * Op) := [(demo_env, Started "a" "p1"); (demo_env, Started "b" "p1"); (demo_env, Stopped "a" "p1"); (demo_env, Stopped "b" "p1")].

Lemma pane_tokens_follow_watches_witness : last_watch "p1" (queue (run (empty_state [1; 2; 3]) demo_ops)) <> Some true.
Proof.
  assert (Hs : Forall (fun x : Env * Op => env_pane_unsupported x.1 = false) demo_ops) by (unfold demo_ops; repeat (apply Forall_cons; split; [reflexivity|]); apply Forall_nil_2).
  destruct (pane_tokens_follow_watches demo_ops [1; 2; 3] "p1" Hs) as (_ & _ & H). apply H. assert (E : watches demo_ops = ∅) by (vm_compute; reflexivity). rewrite E.
  intros [c Hc]. exact (not_elem_of_empty (C := gset (string * string)) _ Hc).
Defined.

(** No report is stale: with clock readings up to a bound and fewer reports
    than the 64-bit sequence has room for above it, the sequence numbers of the
    reports for one target are strictly increasing in the order they are sent,
    whatever the clock does in between. *)
Theorem report_seqs_increase (ops : list (Env * Op)) (clock : list Z) (B : Z) (i j : nat) (ri rj : Report) :
  let s := run (empty_state clock) ops in
  0 <= B -> Forall (fun t => t <= B) clock -> B + Z.of_nat (length (queue s)) < 2 ^ 64 - 1 ->
  (i < j)%nat -> queue s !! i = Some ri -> queue s !! j = Some rj -> target_of ri = target_of rj -> seq_of ri < seq_of rj.
Proof.
  cbv zeta. intros HB Hc Hroom. assert (Ho : ordered B (run (empty_state clock) ops)).
  { assert (H0 : ordered B (empty_state clock)) by (split_and!; cbn; [done|by intros r ?%not_elem_of_nil|done|done]).
    assert (Hg : grows B (empty_state clock) (run (empty_state clock) ops)); [|by apply Hg].
    unfold run. apply (grows_foldl B (fun s x => step x.1 s x.2)). intros s x. by apply grows_step. }
  destruct Ho as [Ho _]. eauto.
Qed.

Lemma report_seqs_increase_witness : 1 < 2.
Proof.
  refine (report_seqs_increase demo_ops [1; 1; 1; 1] 5 0 2 (RPane "p1" true 1) (RPane "p1" false 2) _ _ _ _ _ _ _).
  - lia.
  - repeat (apply Forall_cons; split; [lia|]). apply Forall_nil_2.
  - vm_compute. reflexivity.
  - lia.
  - vm_compute. reflexivity.
  - vm_compute. reflexivity.
  - reflexivity.
Defined.

(** The devices token outlives the watchers: two devices watch the same
    pane and leave one after the other; nobody watches anything any more, but
    the workspace still counts the first one, its token was never cleared, and
    every refresh reports it again. *)
Theorem devices_token_outlives_watchers :
  let s := run (empty_state []) demo_ops in
  watches demo_ops = ∅ /\ panes s = ∅ /\ workspaces s = {["w1"%string := {["a"%string]}]} /\
  queue (refresh_all demo_env s) = queue s ++ [RWorkspace "w1" (Some 2%nat) 2].
Proof. vm_compute. done. Qed.

End AnnotationsInvariant.
