(* ===== verification/Activity.v ===== *)
(** * The activity journal: entries, the ring and their text

    The data of [lerdr-coord/src/actions/activity.rs] and everything in it that
    touches no file: the entry of the protocol ([ActivityEntry]) and its JSON
    line, the bounds of the ring, the timestamps and ids of loaded lines.  The
    durable half is in [ActivityStore]. *)

From S2P Require Import Prelude Utf8 JsonText Json JsonWire GoJson Inbound UploadTime UploadIndex Fs.

Module Activity.
Import Utf8 Json Fs.

Definition MAX_ITEMS : nat := 500.
Definition MAX_BYTES : Z := 2 * 1024 * 1024.
Definition MAX_EXTRACT_CHARS : nat := Z.to_nat 100000.
Definition HISTORY_LIMIT : Z := 500.
Definition JOURNAL_FILENAME : string := "activity.jsonl".
Definition TOMBSTONE_FILENAME : string := "activity.tombstones".

(** ** Entries *)

Abbreviation Details := (option (gmap string json)).

Record ActivityEntry := mkEntry {
  ae_id : string;
  ae_timestamp : Z;
  ae_kind : string;
  ae_status : string;
  ae_summary : string;
  ae_host : string;
  ae_pane_id : string;
  ae_agent : string;
  ae_project : string;
  ae_request_id : string;
  ae_extract : string;
  ae_session : string;
  ae_details : Details;
}.

Record NewEntry := mkNewEntry {
  ne_kind : string;
  ne_status : string;
  ne_summary : string;
  ne_host : string;
  ne_pane_id : string;
  ne_agent : string;
  ne_project : string;
  ne_request_id : string;
  ne_extract : string;
  ne_session : string;
  ne_details : Details;
  ne_timestamp : option Z;
}.

Definition action (kind status summary pane_id request_id : string) : NewEntry :=
  mkNewEntry kind status summary "" pane_id "" "" request_id "" "" (Some {["action"%string := JString kind]}) None.

Definition with_extract (e : NewEntry) (extract : string) : NewEntry :=
  mkNewEntry (ne_kind e) (ne_status e) (ne_summary e) (ne_host e) (ne_pane_id e) (ne_agent e) (ne_project e) (ne_request_id e) extract
    (ne_session e) (ne_details e) (ne_timestamp e).

Definition with_attribution (e : NewEntry) (agent project host session : string) : NewEntry :=
  mkNewEntry (ne_kind e) (ne_status e) (ne_summary e) host (ne_pane_id e) agent project (ne_request_id e) (ne_extract e)
    session (ne_details e) (ne_timestamp e).

Definition set_extract (e : ActivityEntry) (extract : string) : ActivityEntry :=
  mkEntry (ae_id e) (ae_timestamp e) (ae_kind e) (ae_status e) (ae_summary e) (ae_host e) (ae_pane_id e) (ae_agent e) (ae_project e)
    (ae_request_id e) extract (ae_session e) (ae_details e).

Inductive JournalEvent := Recorded (entry : ActivityEntry) | Cleared.

(** ** The JSON of an entry *)

(** [skip_serializing_if = "String::is_empty"] and [opt_map_is_empty]. *)
Definition opt_member (name value : string) : list (string * json) := if decide (value = ""%string) then [] else [(name, JString value)].
Definition details_member (d : Details) : list (string * json) :=
  match d with
  | Some m => if decide (m = ∅) then [] else [("details"%string, JObject (btree_list m))]
  | None => []
  end.

Definition entry_members (e : ActivityEntry) : list (string * json) :=
  [("id", JString (ae_id e)); ("timestamp", json_int (ae_timestamp e)); ("kind", JString (ae_kind e)); ("status", JString (ae_status e));
   ("summary", JString (ae_summary e))]%string
  ++ opt_member "host" (ae_host e) ++ opt_member "pane_id" (ae_pane_id e) ++ opt_member "agent" (ae_agent e) ++ opt_member "project" (ae_project e)
  ++ opt_member "request_id" (ae_request_id e) ++ opt_member "extract" (ae_extract e) ++ opt_member "session" (ae_session e)
  ++ details_member (ae_details e).
Definition entry_json (e : ActivityEntry) : json := JObject (entry_members e).

Definition entry_fields : list string :=
  ["id"; "timestamp"; "kind"; "status"; "summary"; "host"; "pane_id"; "agent"; "project"; "request_id"; "extract"; "session"; "details"]%string.

(** [Option<BTreeMap<String, Value>>] with [default]. *)
Definition de_details (f : option json) : option Details :=
  match f with
  | None | Some JNull => Some None
  | Some (JObject ms) => Some (Some (foldl (fun o m => <[m.1 := Inbound.to_value m.2]> o) ∅ ms))
  | Some _ => None
  end.

Definition de_entry (v : json) : option ActivityEntry :=
  fs ← JsonWire.de_struct entry_fields v;
  match fs with
  | [id; timestamp; kind; status; summary; host; pane_id; agent; project; request_id; extract; session; details] =>
      id ← JsonWire.de_string id; timestamp ← JsonWire.de_i64 timestamp; kind ← JsonWire.de_string kind; status ← JsonWire.de_string status;
      summary ← JsonWire.de_string summary; host ← JsonWire.de_string host; pane_id ← JsonWire.de_string pane_id; agent ← JsonWire.de_string agent;
      project ← JsonWire.de_string project; request_id ← JsonWire.de_string request_id; extract ← JsonWire.de_string extract;
      session ← JsonWire.de_string session; details ← de_details details;
      Some (mkEntry id timestamp kind status summary host pane_id agent project request_id extract session details)
  | _ => None
  end.

(** ** Timestamps *)

(** The zone of [rfc3339_millis]. *)
Definition zone_at (b : bytes) (index : nat) : option (nat * Z) :=
  if UploadTime.byte_is b index 90 || UploadTime.byte_is b index 122 then Some (S index, 0)
  else if UploadTime.byte_is b index 43 || UploadTime.byte_is b index 45 then
    let sign := if UploadTime.byte_is b index 45 then -1 else 1 in
    offset_hour ← UploadTime.digits b (index + 1) 2;
    if negb (UploadTime.byte_is b (index + 3) 58) then None
    else
      offset_minute ← UploadTime.digits b (index + 4) 2;
      if decide (23 < offset_hour \/ 59 < offset_minute) then None
      else Some ((index + 6)%nat, sign * (offset_hour * 3600 + offset_minute * 60))
  else None.

Definition days_in_month (month year : Z) : Z :=
  if decide (month ∈ [1; 3; 5; 7; 8; 10; 12]) then 31
  else if decide (month ∈ [4; 6; 9; 11]) then 30
  else if decide (month = 2) then
    if decide (Z.rem year 4 = 0 /\ (Z.rem year 100 <> 0 \/ Z.rem year 400 = 0)) then 29 else 28
  else 0.

Definition days_from_civil (year month day : Z) : Z :=
  let year := if decide (month <= 2) then year - 1 else year in
  let era := year / 400 in
  let year_of_era := year - era * 400 in
  let month_prime := if decide (2 < month) then month - 3 else month + 9 in
  let day_of_year := Z.quot (153 * month_prime + 2) 5 + day - 1 in
  let day_of_era := year_of_era * 365 + Z.quot year_of_era 4 - Z.quot year_of_era 100 + day_of_year in
  era * 146097 + day_of_era - 719468.

Definition rfc3339_millis (value : string) : option Z :=
  let b := as_bytes value in
  if (length b <? 20)%nat then None
  else if negb (UploadTime.byte_is b 4 45 && UploadTime.byte_is b 7 45) then None
  else
    year ← UploadTime.digits b 0 4;
    month ← UploadTime.digits b 5 2;
    day ← UploadTime.digits b 8 2;
    if decide (~ (1 <= month <= 12) \/ day < 1 \/ days_in_month month year < day) then None
    else if negb (UploadTime.byte_is b 10 84 || UploadTime.byte_is b 10 116) then None
    else
      hour ← UploadTime.digits b 11 2;
      minute ← UploadTime.digits b 14 2;
      second ← UploadTime.digits b 17 2;
      if decide (23 < hour \/ 59 < minute \/ 59 < second) then None
      else
        '(index, sub_nanos) ← UploadTime.fraction_at b 19;
        '(index, offset_seconds) ← zone_at b index;
        if decide (index = length b) then
          let seconds := days_from_civil year month day * 86400 + hour * 3600 + minute * 60 + second - offset_seconds in
          let nanos := seconds * 1000000000 + sub_nanos in
          let millis := nanos / 1000000 in
          if decide (i64_min <= millis <= i64_max) then Some millis else None
        else None.

Definition de_line `{UploadIndex.DocumentJson} (line : bytes) : option ActivityEntry := v ← UploadIndex.from_slice line; de_entry v.

(** The retry of [decode_entry]: a textual timestamp becomes its milliseconds. *)
Definition decode_entry `{UploadIndex.DocumentJson} (line : bytes) : option ActivityEntry :=
  match de_line line with
  | Some entry => Some entry
  | None =>
      value ← Inbound.to_value <$> UploadIndex.from_slice line;
      match value with
      | JObject ms =>
          timestamp ← obj_get ms "timestamp";
          text ← as_str timestamp;
          millis ← rfc3339_millis text;
          de_entry (JObject (obj_insert ms "timestamp" (json_int millis)))
      | _ => None
      end
  end.

Definition encode_line `{GoJson.FloatText} (e : ActivityEntry) : bytes := GoJson.to_vec (entry_json e) ++ [10].
Definition encoded_len `{GoJson.FloatText} (e : ActivityEntry) : Z := Z.of_nat (length (GoJson.to_vec (entry_json e))) + 1.

(** ** Text *)

Definition truncate_chars (value : string) (max : nat) : string :=
  if decide (length (Utf8.chars value) <= max)%nat then value
  else string_of_bytes (Utf8.utf8_encode (take max (Utf8.chars value))).

Definition strip_cr (raw : bytes) : bytes := if decide (last raw = Some 13) then take (length raw - 1) raw else raw.

(** [split(|byte| *byte == b'\n')]. *)
Fixpoint split_lines (b : bytes) : list bytes :=
  match b with
  | [] => [[]]
  | c :: b =>
      if decide (c = 10) then [] :: split_lines b
      else match split_lines b with [] => [[c]] | l :: ls => (c :: l) :: ls end
  end.

(** [String::from_utf8_lossy]: each maximal ill-formed piece is U+FFFD. *)
Definition second_ok (x y : Z) : bool :=
  if in_range 0xC2 0xDF x then is_cont y
  else if in_range 0xE0 0xE0 x then in_range 0xA0 0xBF y
  else if in_range 0xED 0xED x then in_range 0x80 0x9F y
  else if in_range 0xE1 0xEF x then is_cont y
  else if in_range 0xF0 0xF0 x then in_range 0x90 0xBF y
  else if in_range 0xF1 0xF3 x then is_cont y
  else if in_range 0xF4 0xF4 x then in_range 0x80 0x8F y
  else false.

Fixpoint lossy_chars (b : bytes) : list Z :=
  match b with
  | [] => []
  | x :: r1 =>
      if in_range 0 0x7F x then x :: lossy_chars r1
      else match r1 with
      | [] => [0xFFFD]
      | y :: r2 =>
          if negb (second_ok x y) then 0xFFFD :: lossy_chars r1
          else if in_range 0xC2 0xDF x then ((x - 0xC0) * 64 + (y - 0x80)) :: lossy_chars r2
          else match r2 with
          | [] => [0xFFFD]
          | z :: r3 =>
              if negb (is_cont z) then 0xFFFD :: lossy_chars r2
              else if in_range 0xE0 0xEF x then ((x - 0xE0) * 4096 + (y - 0x80) * 64 + (z - 0x80)) :: lossy_chars r3
              else match r3 with
              | [] => [0xFFFD]
              | w :: r4 =>
                  if negb (is_cont w) then 0xFFFD :: lossy_chars r3
                  else ((x - 0xF0) * 262144 + (y - 0x80) * 4096 + (z - 0x80) * 64 + (w - 0x80)) :: lossy_chars r4
              end
          end
      end
  end.

(** [str::split('-')] up to the second part. *)
Fixpoint before_dash (b : bytes) : bytes * option bytes :=
  match b with
  | [] => ([], None)
  | c :: b => if decide (c = 45) then ([], Some b) else let '(l, r) := before_dash b in (c :: l, r)
  end.

(** [str::parse::<u64>]. *)
Definition parse_u64 (b : bytes) : option Z :=
  let digits := match b with 43 :: rest => rest | _ => b end in
  if decide (digits = []) then None
  else if negb (forallb UploadTime.is_digit digits) then None
  else let v := UploadTime.digits_value digits in if decide (v <= u64_max) then Some v else None.

(** [bump_sequence]: [seq] is [ENTRY_ID_SEQUENCE]. *)
Definition bump_sequence (seq : Z) (id : string) : Z :=
  let '(nanos, rest) := before_dash (as_bytes id) in
  match parse_u64 nanos, rest with
  | Some _, Some rest => match parse_u64 (before_dash rest).1 with Some n => Z.max seq n | None => seq end
  | _, _ => seq
  end.

(** ** The ring *)

(** Rows newest last, each with the length of its line. *)
Record Inner := mkInner { i_entries : list (Z * ActivityEntry); i_bytes : Z }.
Definition empty_inner : Inner := mkInner [] 0.

Definition total (rows : list (Z * ActivityEntry)) : Z := foldr (fun r acc => r.1 + acc) 0 rows.

(** [while len > MAX_ITEMS] on a queue. *)
Definition drop_oldest (rows : list (Z * ActivityEntry)) : list (Z * ActivityEntry) := drop (length rows - MAX_ITEMS) rows.

(** [while bytes > MAX_BYTES && len > 1]. *)
Fixpoint drop_bytes (bytes : Z) (rows : list (Z * ActivityEntry)) : list (Z * ActivityEntry) * Z :=
  match rows with
  | r :: ((_ :: _) as rest) => if decide (MAX_BYTES < bytes) then drop_bytes (bytes - r.1) rest else (rows, bytes)
  | _ => (rows, bytes)
  end.

Definition limit_error : IoError := mkIoError InvalidData "activity entry exceeds 2097152 byte journal limit".

Definition retain_within_limits `{GoJson.FloatText} (entries : list ActivityEntry) : result IoError (list (Z * ActivityEntry)) :=
  let retained := (fun e => (Z.of_nat (length (encode_line e)), e)) <$> drop (length entries - MAX_ITEMS) entries in
  let '(retained, bytes) := drop_bytes (total retained) retained in
  if decide (MAX_BYTES < bytes) then Err limit_error else Ok retained.

(** The ring without a file. *)
Definition append_ring `{GoJson.FloatText} (inner : Inner) (entry : ActivityEntry) : Inner :=
  let size := encoded_len entry in
  let rows := i_entries inner ++ [(size, entry)] in
  let kept := drop_oldest rows in
  let '(kept, bytes) := drop_bytes (i_bytes inner + size - total (take (length rows - MAX_ITEMS) rows)) kept in
  mkInner kept bytes.

Definition recent (inner : Inner) (limit : nat) : list ActivityEntry :=
  let len := length (i_entries inner) in
  let limit := if decide (limit = 0%nat \/ (len < limit)%nat) then len else limit in
  snd <$> drop (len - limit) (i_entries inner).

End Activity.
