(* ===== verification/ActivityStore.v ===== *)
(** * The durable activity journal

    The file half of [lerdr-coord/src/actions/activity.rs]: the two files, the
    rewrite through a temporary sibling, [Journal::open], [record], [commit],
    [discard] and [try_clear], and the two routed actions.  One operation runs
    at a time (the journal's mutex). *)

From S2P Require Import Prelude Utf8 JsonText Json JsonWire GoJson Inbound Protocol UploadTime UploadIndex Fs Activity.

Module ActivityStore.
Import Utf8 Json Fs Activity.

Definition io_err (context : string) (e : IoError) : IoError := mkIoError (e_kind e) (context +:+ ": " +:+ e_text e).

(** ** Files *)

Definition temp_name (prefix : string) (nanos seq : Z) : string :=
  prefix +:+ "." +:+ UploadIndex.lower_hex nanos +:+ "-" +:+ UploadIndex.lower_hex seq +:+ ".tmp".

(** [for _ in 0..32]. *)
Fixpoint create_temp (tries : nat) (prefix : string) : Fs string :=
  match tries with
  | O => fail (mkIoError AlreadyExists "activity temp file name exhausted")
  | S tries =>
      nanos ← now;
      seq ← next_temp;
      let path := temp_name prefix nanos seq in
      r ← attempt (create_new path);
      match r with
      | Ok _ => mret path
      | Err e => if decide (e_kind e = AlreadyExists) then create_temp tries prefix else fail e
      end
  end.

Definition sync_directory : Fs unit :=
  _ ← call;
  r ← attempt call;
  match r with
  | Err e => if decide (e_kind e = InvalidInput \/ e_kind e = Unsupported) then mret tt else fail e
  | Ok _ => mret tt
  end.

(** The closure of [write_atomic]. *)
Definition atomic_body (temp target : string) (payload : bytes) : Fs unit :=
  _ ← call; _ ← write_all temp payload; _ ← call; _ ← rename temp target; sync_directory.

Definition write_atomic (prefix target : string) (payload : bytes) : Fs unit :=
  temp ← create_temp 32 prefix;
  r ← attempt (atomic_body temp target payload);
  match r with
  | Ok _ => mret tt
  | Err e => _ ← attempt (remove_file temp); fail e
  end.

Definition set_mode : Fs unit := call.

Section Journal.
Context `{FT : GoJson.FloatText} `{DJ : UploadIndex.DocumentJson}.

(** ** Tombstones *)

Definition tombstone_line (raw : bytes) : result IoError (option string) :=
  let line := strip_cr raw in
  if decide (MAX_BYTES < Z.of_nat (length line)) then Err (mkIoError InvalidData "scan activity tombstones: line exceeds the journal limit")
  else
    let id := string_of_bytes (Utf8.utf8_encode (Utf8.trim_chars (lossy_chars line))) in
    Ok (if decide (id = ""%string) then None else Some id).

Fixpoint scan_tombstones (lines : list bytes) (acc : gset string) : result IoError (gset string) :=
  match lines with
  | [] => Ok acc
  | raw :: lines =>
      match tombstone_line raw with
      | Err e => Err e
      | Ok None => scan_tombstones lines acc
      | Ok (Some id) => scan_tombstones lines ({[id]} ∪ acc)
      end
  end.

Definition lift {A} (r : result IoError A) : Fs A := fun w => (w, r).

Definition load_tombstones : Fs (gset string) :=
  opened ← attempt (open_read TOMBSTONE_FILENAME);
  match opened with
  | Err e => if decide (e_kind e = NotFound) then mret ∅ else fail (io_err "read activity tombstones" e)
  | Ok _ =>
      size ← with_error (io_err "read activity tombstones") (file_len TOMBSTONE_FILENAME);
      if decide (MAX_BYTES < size) then
        fail (mkIoError InvalidData ("activity tombstones are corrupt or oversized: " +:+ decimal size +:+ " bytes"))
      else
        _ ← with_error (io_err "protect activity tombstones") call;
        data ← with_error (io_err "scan activity tombstones") (read_to_end TOMBSTONE_FILENAME);
        lift (scan_tombstones (split_lines data) ∅)
  end.

(** A [BTreeSet<String>] in order. *)
Definition sorted_ids (ids : gset string) : list string := merge_sort String.le (elements ids).

Definition tombstone_text (ids : gset string) : bytes :=
  concat ((fun id => as_bytes id ++ [10]) <$> filter (fun id => trim id <> ""%string) (sorted_ids ids)).

Definition write_tombstones (ids : gset string) : Fs unit :=
  if decide (ids = ∅) then
    r ← attempt (remove_file TOMBSTONE_FILENAME);
    match r with
    | Err e => if decide (e_kind e = NotFound) then sync_directory else fail e
    | Ok _ => sync_directory
    end
  else write_atomic ".activity.tombstones" TOMBSTONE_FILENAME (tombstone_text ids).

(** ** The journal file *)

Definition journal_text (entries : list ActivityEntry) : bytes := concat (encode_line <$> entries).

Definition compact (entries : list ActivityEntry) : Fs Z :=
  let payload := journal_text entries in
  _ ← write_atomic ".activity.jsonl" JOURNAL_FILENAME payload;
  mret (Z.of_nat (length payload)).

Definition append_line (data : bytes) : Fs unit :=
  _ ← with_error (io_err "open activity journal") (open_append JOURNAL_FILENAME);
  _ ← with_error (io_err "protect activity journal") call;
  with_error (io_err "append activity journal") (_ ← write_all JOURNAL_FILENAME data; call).

Definition append_durable (inner : Inner) (entry : ActivityEntry) : Fs Inner :=
  let data := encode_line entry in
  let len := Z.of_nat (length data) in
  if decide (MAX_BYTES < len) then fail limit_error
  else if decide ((length (i_entries inner) < MAX_ITEMS)%nat /\ i_bytes inner + len <= MAX_BYTES) then
    _ ← append_line data;
    mret (mkInner (i_entries inner ++ [(len, entry)]) (i_bytes inner + len))
  else
    let retained := drop_oldest (i_entries inner ++ [(len, entry)]) in
    let retained := (drop_bytes (total retained) retained).1 in
    bytes ← compact (snd <$> retained);
    mret (mkInner retained bytes).

(** ** Opening *)

(** One line of the journal: the sequence, the entries so far and whether the
    file must be rewritten. *)
Definition scan_line (tombstones : gset string) (raw : bytes) (st : Z * list ActivityEntry * bool) : result IoError (Z * list ActivityEntry * bool) :=
  let '(seq, scanned, needs_compact) := st in
  let line := strip_cr raw in
  if decide (line = []) then Ok st
  else if decide (MAX_BYTES < Z.of_nat (length line)) then Err (mkIoError InvalidData "scan activity journal: line exceeds the journal limit")
  else match decode_entry line with
  | None => Ok st
  | Some entry =>
      let seq := bump_sequence seq (ae_id entry) in
      if decide (ae_id entry ∈ tombstones) then Ok (seq, scanned, needs_compact)
      else
        let normalized := truncate_chars (ae_extract entry) MAX_EXTRACT_CHARS in
        if decide (normalized = ae_extract entry) then Ok (seq, scanned ++ [entry], needs_compact)
        else Ok (seq, scanned ++ [set_extract entry normalized], true)
  end.

Fixpoint scan_lines (tombstones : gset string) (lines : list bytes) (st : Z * list ActivityEntry * bool) : result IoError (Z * list ActivityEntry * bool) :=
  match lines with
  | [] => Ok st
  | raw :: lines => match scan_line tombstones raw st with Err e => Err e | Ok st => scan_lines tombstones lines st end
  end.

(** [load]: the sequence and the ring afterwards. *)
Definition load (seq : Z) : Fs (Z * Inner) :=
  tombstones ← load_tombstones;
  opened ← attempt (open_read JOURNAL_FILENAME);
  match opened with
  | Err e =>
      if decide (e_kind e = NotFound) then
        _ ← (if decide (tombstones = ∅) then mret tt else with_error (io_err "clean orphaned activity tombstones") (write_tombstones ∅));
        mret (seq, empty_inner)
      else fail (io_err "read activity journal" e)
  | Ok _ =>
      size ← with_error (io_err "read activity journal") (file_len JOURNAL_FILENAME);
      if decide (MAX_BYTES * 4 < size) then
        fail (mkIoError InvalidData ("activity journal is corrupt or oversized: " +:+ decimal size +:+ " bytes"))
      else
        contents ← with_error (io_err "scan activity journal") (read_to_end JOURNAL_FILENAME);
        let dirty := bool_decide (tombstones <> ∅ \/ MAX_BYTES < size) in
        '(seq, scanned, needs_compact) ← lift (scan_lines tombstones (split_lines (take (Z.to_nat (MAX_BYTES * 4 + 1)) contents)) (seq, [], dirty));
        retained ← lift (map_err (io_err "normalize activity journal") (retain_within_limits scanned));
        let retained_bytes := total retained in
        let needs_compact := needs_compact || bool_decide (length retained <> length scanned \/ retained_bytes <> size) in
        _ ← (if needs_compact then with_error (io_err "compact activity journal") (_ ← compact (snd <$> retained); mret tt) else mret tt);
        _ ← (if decide (tombstones = ∅) then mret tt else with_error (io_err "clean recovered activity tombstones") (write_tombstones ∅));
        mret (seq, mkInner retained retained_bytes)
  end.

(** ** The journal *)

(** [j_durable] is [storage.is_some()]; [j_seq] is the process-wide
    [ENTRY_ID_SEQUENCE]; [j_listeners] says whether the broadcast channel has a
    receiver, [j_sent] is what it was sent. *)
Record Journal := mkJournal {
  j_inner : Inner;
  j_durable : bool;
  j_seq : Z;
  j_listeners : bool;
  j_sent : list JournalEvent;
}.

Definition default_journal (seq : Z) : Journal := mkJournal empty_inner false seq false [].

(** [Journal::open]. *)
Definition open (seq : Z) : Fs Journal :=
  _ ← with_error (io_err "create activity directory") call;
  _ ← with_error (io_err "protect activity directory") set_mode;
  '(seq, inner) ← load seq;
  mret (mkJournal inner true seq false []).

Definition set_inner (j : Journal) (inner : Inner) : Journal := mkJournal inner (j_durable j) (j_seq j) (j_listeners j) (j_sent j).
Definition send (j : Journal) (e : JournalEvent) : Journal :=
  mkJournal (j_inner j) (j_durable j) (j_seq j) (j_listeners j) (j_sent j ++ (if j_listeners j then [e] else [])).

Definition subscribe (j : Journal) : Journal := mkJournal (j_inner j) (j_durable j) (j_seq j) true (j_sent j).

Definition publish (j : Journal) (entry : ActivityEntry) : Journal := send j (Recorded entry).

Definition stamp (j : Journal) (e : NewEntry) (nanos : Z) : Journal * ActivityEntry :=
  let seq := (j_seq j + 1) mod 2 ^ 64 in
  (mkJournal (j_inner j) (j_durable j) seq (j_listeners j) (j_sent j),
   mkEntry (decimal nanos +:+ "-" +:+ decimal seq +:+ "-" +:+ ne_pane_id e) (default (to_signed64 (nanos / 1000000 mod 2 ^ 64)) (ne_timestamp e))
     (ne_kind e) (ne_status e) (ne_summary e) (ne_host e) (ne_pane_id e) (ne_agent e) (ne_project e) (ne_request_id e)
     (truncate_chars (ne_extract e) MAX_EXTRACT_CHARS) (ne_session e) (ne_details e)).

(** The operations below answer with a value, never with an error: [World ->
    World * A]. *)
Definition Op (A : Type) : Type := World -> World * A.

Definition append_locked (j : Journal) (entry : ActivityEntry) : Op (Journal * bool) := fun w =>
  if j_durable j then
    match append_durable (j_inner j) entry w with
    | (w, Ok inner) => (w, (set_inner j inner, true))
    | (w, Err _) => (w, (j, false))
    end
  else (w, (set_inner j (append_ring (j_inner j) entry), true)).

(** [SystemTime::now] of [stamp]. *)
Definition read_clock : Op Z := fun w => let '(w, r) := now w in (w, match r with Ok t => t | Err _ => 0 end).

Definition commit (j : Journal) (e : NewEntry) : Op (Journal * option ActivityEntry) := fun w =>
  let '(w, nanos) := read_clock w in
  let '(j, entry) := stamp j e nanos in
  let '(w, (j, ok)) := append_locked j entry w in
  (w, (j, if ok then Some entry else None)).

Definition record (j : Journal) (e : NewEntry) : Op (Journal * ActivityEntry) := fun w =>
  let '(w, nanos) := read_clock w in
  let '(j, entry) := stamp j e nanos in
  let '(w, (j, ok)) := append_locked j entry w in
  (w, (if ok then publish j entry else j, entry)).

(** The files of [discard]: [true] when the entry is gone from them. *)
Definition discard_files (id : string) (retained : list ActivityEntry) : Fs unit :=
  previous ← load_tombstones;
  _ ← write_tombstones ({[id]} ∪ previous);
  r ← attempt (compact retained);
  match r with
  | Err e => _ ← write_tombstones previous; fail e
  | Ok _ => _ ← attempt (write_tombstones previous); mret tt
  end.

Definition discard (j : Journal) (id : string) : Op Journal := fun w =>
  if decide (id = ""%string) then (w, j)
  else
    let retained := filter (fun r => ae_id r.2 <> id) (i_entries (j_inner j)) in
    if decide (length retained = length (i_entries (j_inner j))) then (w, j)
    else
      let j' := set_inner j (mkInner retained (total retained)) in
      if j_durable j then
        match discard_files id (snd <$> retained) w with
        | (w, Ok _) => (w, j')
        | (w, Err _) => (w, j)
        end
      else (w, j').

Definition entry_ids (rows : list (Z * ActivityEntry)) : gset string :=
  list_to_set (filter (fun id => id <> ""%string) ((fun r => ae_id r.2) <$> rows)).

Definition clear_files (ids : gset string) : Fs unit :=
  previous ← load_tombstones;
  _ ← with_error (io_err "prepare activity clear") (write_tombstones (ids ∪ previous));
  r ← attempt (compact []);
  match r with
  | Err e =>
      restored ← attempt (write_tombstones previous);
      match restored with
      | Ok _ => fail (io_err "clear activity journal" e)
      | Err restore =>
          fail (mkIoError OtherKind ("clear activity journal: " +:+ e_text e +:+ "; restore activity tombstones: " +:+ e_text restore))
      end
  | Ok _ => _ ← attempt (write_tombstones previous); mret tt
  end.

Definition try_clear (j : Journal) : Op (Journal * result IoError unit) := fun w =>
  let cleared := send (set_inner j empty_inner) Cleared in
  if j_durable j then
    match clear_files (entry_ids (i_entries (j_inner j))) w with
    | (w, Ok _) => (w, (cleared, Ok tt))
    | (w, Err e) => (w, (j, Err e))
    end
  else (w, (cleared, Ok tt)).

Definition clear (j : Journal) : Op Journal := fun w => let '(w, (j, _)) := try_clear j w in (w, j).

End Journal.
End ActivityStore.
