(* ===== verification/ActivityFiles.v ===== *)
(** * What the file operations of the journal leave behind

    The states of the two files [activity.jsonl] and [activity.tombstones] a
    rewrite or an append goes through, whatever calls fail, and what the
    operations do when none fails. *)

From S2P Require Import Prelude Utf8 GoJson UploadIndex Fs Activity ActivityStore.

Module ActivityFiles.
Import Fs Activity ActivityStore.

(** The two files; temporary siblings are left out. *)
Definition view (files : Files) : option bytes * option bytes := (files !! JOURNAL_FILENAME, files !! TOMBSTONE_FILENAME).

(** The directory states of a run from [w] to [w'] all satisfy [P]. *)
Definition within (P : Files -> Prop) (w w' : World) : Prop :=
  P (w_files w') /\ exists steps, w_trail w' = w_trail w ++ steps /\ Forall P steps.

Lemma within_trans P w1 w2 w3 : within P w1 w2 -> within P w2 w3 -> within P w1 w3.
Proof.
  intros [_ (s1 & E1 & F1)] [H (s2 & E2 & F2)]. split; [done|]. exists (s1 ++ s2). rewrite E2, E1, app_assoc. split; [done|]. by apply Forall_app.
Qed.

Lemma within_same (P : Files -> Prop) w w' : P (w_files w) -> w_files w' = w_files w -> w_trail w' = w_trail w -> within P w w'.
Proof. intros H E1 E2. split; [by rewrite E1|]. exists []. by rewrite E2, app_nil_r. Qed.

Lemma within_mono (P Q : Files -> Prop) w w' : (forall f, P f -> Q f) -> within P w w' -> within Q w w'.
Proof. intros HPQ [H (s & E & F)]. split; [auto|]. exists s. split; [done|]. by eapply Forall_impl. Qed.

(** An operation whose every state stays in [P] once it starts there. *)
Definition keeps (P : Files -> Prop) {A} (m : Fs A) : Prop := forall w, P (w_files w) -> within P w (m w).1.

Section Keeps.
Context (P : Files -> Prop).

Lemma keeps_ret {A} (a : A) : keeps P (mret a).
Proof. intros w Hw. by apply within_same. Qed.

Lemma keeps_fail {A} e : keeps P (fail e : Fs A).
Proof. intros w Hw. by apply within_same. Qed.

Lemma keeps_lift {A} (r : result IoError A) : keeps P (lift r).
Proof. intros w Hw. by apply within_same. Qed.

Lemma keeps_bind {A B} (m : Fs A) (k : A -> Fs B) : keeps P m -> (forall a, keeps P (k a)) -> keeps P (m ≫= k).
Proof.
  intros Hm Hk w Hw. unfold mbind, fs_bind. pose proof (Hm w Hw) as H1. destruct (m w) as [w1 [a|e]] eqn:E; cbn [fst] in *; [|done].
  eapply within_trans; [done|]. apply Hk. apply H1.
Qed.

Lemma keeps_attempt {A} (m : Fs A) : keeps P m -> keeps P (attempt m).
Proof. intros Hm w Hw. unfold attempt. pose proof (Hm w Hw). by destruct (m w). Qed.

Lemma keeps_with_error {A} f (m : Fs A) : keeps P m -> keeps P (with_error f m).
Proof. intros Hm w Hw. unfold with_error. pose proof (Hm w Hw). by destruct (m w). Qed.

Lemma keeps_call : keeps P call.
Proof. intros w Hw. unfold call, pop_fault. destruct (w_faults w); by apply within_same. Qed.

Lemma keeps_files_of : keeps P files_of.
Proof. intros w Hw. by apply within_same. Qed.

Lemma keeps_now : keeps P now.
Proof. intros w Hw. unfold now. destruct (w_clock w); by apply within_same. Qed.

Lemma keeps_next_temp : keeps P next_temp.
Proof. intros w Hw. by apply within_same. Qed.

End Keeps.

Create HintDb keeps.
#[export] Hint Resolve keeps_ret keeps_fail keeps_lift keeps_bind keeps_attempt keeps_with_error keeps_call keeps_files_of keeps_now keeps_next_temp : keeps.

Lemma keeps_open_read P name : keeps P (open_read name).
Proof. unfold open_read. apply keeps_bind; [apply keeps_call|]. intros _. apply keeps_bind; [apply keeps_files_of|]. intros files. destruct (files !! name); auto with keeps. Qed.

Lemma keeps_file_len P name : keeps P (file_len name).
Proof. unfold file_len. auto 6 with keeps. Qed.

Lemma keeps_read_to_end P name : keeps P (read_to_end name).
Proof. unfold read_to_end. auto 6 with keeps. Qed.

#[export] Hint Resolve keeps_open_read keeps_file_len keeps_read_to_end : keeps.

Lemma keeps_load_tombstones P : keeps P load_tombstones.
Proof.
  unfold load_tombstones. apply keeps_bind; [auto with keeps|]. intros [_|e]; [|case_decide; auto with keeps].
  apply keeps_bind; [auto with keeps|]. intros size. case_decide; auto 8 with keeps.
Qed.

Lemma keeps_sync_directory P : keeps P sync_directory.
Proof. unfold sync_directory. apply keeps_bind; [auto with keeps|]. intros _. apply keeps_bind; [auto with keeps|]. intros [?|e]; [|case_decide]; auto with keeps. Qed.

#[export] Hint Resolve keeps_load_tombstones keeps_sync_directory : keeps.

(** ** Temporary files *)

Definition dot : Ascii.ascii := byte_ascii 46.
Definition hidden (prefix : string) : Prop := exists rest, prefix = String dot rest.

Lemma temp_hidden prefix nanos seq : hidden prefix -> hidden (temp_name prefix nanos seq).
Proof. intros [rest ->]. unfold temp_name. rewrite string_app_cons. by eexists. Qed.

Lemma hidden_names name : hidden name -> name <> JOURNAL_FILENAME /\ name <> TOMBSTONE_FILENAME.
Proof. intros [rest ->]. split; discriminate. Qed.

(** Changing a temporary file shows in no view. *)
Lemma view_insert_hidden name data files : hidden name -> view (<[name := data]> files) = view files.
Proof. intros [H1 H2]%hidden_names. unfold view. by rewrite !lookup_insert_ne. Qed.

Lemma view_delete_hidden name files : hidden name -> view (delete name files) = view files.
Proof. intros [H1 H2]%hidden_names. unfold view. by rewrite !lookup_delete_ne. Qed.

Lemma view_insert_cong target data files files' : view files = view files' -> view (<[target := data]> files) = view (<[target := data]> files').
Proof.
  unfold view. intros [= E1 E2]. f_equal; [destruct (decide (target = JOURNAL_FILENAME)) as [->|]|destruct (decide (target = TOMBSTONE_FILENAME)) as [->|]];
    rewrite ?lookup_insert_eq, ?lookup_insert_ne by done; done.
Qed.

Lemma view_delete_cong target files files' : view files = view files' -> view (delete target files) = view (delete target files').
Proof.
  unfold view. intros [= E1 E2]. f_equal; [destruct (decide (target = JOURNAL_FILENAME)) as [->|]|destruct (decide (target = TOMBSTONE_FILENAME)) as [->|]];
    rewrite ?lookup_delete_eq, ?lookup_delete_ne by done; done.
Qed.

Lemma create_new_run name w w' r : create_new name w = (w', r) ->
  (r = Ok tt /\ w_files w !! name = None /\ w_files w' = <[name := []]> (w_files w) /\ w_trail w' = w_trail w ++ [w_files w']) \/
  (exists e, r = Err e /\ w_files w' = w_files w /\ w_trail w' = w_trail w).
Proof.
  unfold create_new, mbind, fs_bind, call, pop_fault, files_of. intros E.
  destruct (w_faults w) as [|[|k s n] faults]; cbn in E; [destruct (w_files w !! name) eqn:Hn..|]; cbn in E; injection E as <- <-; eauto 10.
Qed.

Lemma create_temp_run tries prefix w w' r : hidden prefix -> create_temp tries prefix w = (w', r) ->
  (exists path, r = Ok path /\ hidden path /\ w_files w' = <[path := []]> (w_files w) /\ w_trail w' = w_trail w ++ [w_files w']) \/
  (exists e, r = Err e /\ w_files w' = w_files w /\ w_trail w' = w_trail w).
Proof.
  intros Hp. revert w. induction tries as [|tries IH]; intros w; cbn [create_temp]; [intros [= <- <-]; eauto|].
  unfold mbind at 1, fs_bind at 1. destruct (now w) as [w1 r1] eqn:E1.
  assert (H1 : w_files w1 = w_files w /\ w_trail w1 = w_trail w /\ exists t, r1 = Ok t).
  { unfold now in E1. destruct (w_clock w); injection E1 as <- <-; eauto. }
  destruct H1 as (F1 & T1 & nanos & ->). unfold mbind at 1, fs_bind at 1. destruct (next_temp w1) as [w2 r2] eqn:E2.
  assert (H2 : w_files w2 = w_files w1 /\ w_trail w2 = w_trail w1 /\ exists t, r2 = Ok t) by (unfold next_temp in E2; injection E2 as <- <-; eauto).
  destruct H2 as (F2 & T2 & seq & ->). unfold mbind, fs_bind, attempt. destruct (create_new (temp_name prefix nanos seq) w2) as [w3 r3] eqn:E3.
  destruct (create_new_run _ _ _ _ E3) as [(-> & _ & F3 & T3)|(e & -> & F3 & T3)].
  - cbn. intros [= <- <-]. left. exists (temp_name prefix nanos seq). rewrite F3, T3, F2, T2, F1, T1. repeat split; try done; [by apply temp_hidden|congruence].
  - case_decide.
    + intros E. destruct (IH _ E) as [(path & -> & Hh & F4 & T4)|(e' & -> & F4 & T4)]; [left; exists path|right; exists e']; repeat split; try done; congruence.
    + cbn. intros [= <- <-]. right. exists e. repeat split; congruence.
Qed.

(** ** The atomic rewrite *)

Definition either (a b : Files) (f : Files) : Prop := view f = view a \/ view f = view b.

Lemma appended_view files name data n : hidden name -> view (appended files name data n) = view files.
Proof. intros H. unfold appended. by apply view_insert_hidden. Qed.

Lemma write_all_run name data w w' r : write_all name data w = (w', r) ->
  (r = Ok tt /\ w_files w' = appended (w_files w) name data (length data) \/ exists e n, r = Err e /\ w_files w' = appended (w_files w) name data n) /\
  exists n, w_files w' = appended (w_files w) name data n /\ w_trail w' = w_trail w ++ (appended (w_files w) name data <$> seq 0 (S n)).
Proof. unfold write_all, pop_fault. intros E. destruct (w_faults w) as [|[|k s n] faults]; injection E as <- <-; cbn [set_files set_faults w_files w_trail]; eauto 10. Qed.

Lemma write_all_hidden name data w w' r v : hidden name -> view (w_files w) = v -> write_all name data w = (w', r) -> within (fun f => view f = v) w w'.
Proof.
  intros Hh <- E. destruct (write_all_run _ _ _ _ _ E) as [_ (n & F & T)]. split; [rewrite F; by apply appended_view|].
  eexists. split; [done|]. apply Forall_forall. intros f (k & -> & _)%list_elem_of_fmap. by apply appended_view.
Qed.

Lemma keeps_remove_hidden name v : hidden name -> keeps (fun f => view f = v) (remove_file name).
Proof.
  intros Hh. unfold remove_file. apply keeps_bind; [auto with keeps|]. intros _ w Hw. unfold mbind, fs_bind, files_of. destruct (w_files w !! name); [|by apply within_same].
  unfold put_files. cbn [fst]. split; [cbn; by rewrite view_delete_hidden|]. eexists. split; [done|]. repeat constructor. cbn. by rewrite view_delete_hidden.
Qed.

Lemma rename_run from to_ w w' r : rename from to_ w = (w', r) ->
  (exists data, r = Ok tt /\ w_files w !! from = Some data /\ w_files w' = <[to_ := data]> (delete from (w_files w)) /\ w_trail w' = w_trail w ++ [w_files w']) \/
  (exists e, r = Err e /\ w_files w' = w_files w /\ w_trail w' = w_trail w).
Proof.
  unfold rename, mbind, fs_bind, call, pop_fault, files_of. intros E.
  destruct (w_faults w) as [|[|k s n] faults]; cbn in E; [destruct (w_files w !! from) eqn:Hn..|]; cbn in E; injection E as <- <-; eauto 10.
Qed.

Lemma call_run w w' r : call w = (w', r) -> w_files w' = w_files w /\ w_trail w' = w_trail w.
Proof. unfold call, pop_fault. intros E. destruct (w_faults w); injection E as <- <-; done. Qed.

Lemma within_left a b w w' : within (fun f => view f = view a) w w' -> within (either a b) w w'.
Proof. apply within_mono. intros f Hf. by left. Qed.

Lemma within_put (P : Files -> Prop) w w' : P (w_files w') -> w_trail w' = w_trail w ++ [w_files w'] -> within P w w'.
Proof. intros H E. split; [done|]. exists [w_files w']. by repeat constructor. Qed.

(** What the directory holds once [target] has been rewritten. *)
Abbreviation rewritten files target payload := (<[target := payload]> files).

Lemma atomic_body_run temp target payload w w' r : hidden temp -> w_files w !! temp = Some [] -> atomic_body temp target payload w = (w', r) ->
  within (either (w_files w) (rewritten (w_files w) target payload)) w w' /\ (r = Ok tt -> view (w_files w') = view (rewritten (w_files w) target payload)).
Proof.
  intros Hh Ht. unfold atomic_body, mbind, fs_bind. destruct (call w) as [w1 [[]|e]] eqn:E1; destruct (call_run _ _ _ E1) as [F1 T1];
    [|intros [= <- <-]; split; [apply within_left; by apply within_same|done]].
  assert (W1 : within (fun f => view f = view (w_files w)) w w1) by (by apply within_same).
  destruct (write_all temp payload w1) as [w2 r2] eqn:E2. pose proof (write_all_hidden _ _ _ _ _ (view (w_files w)) Hh (f_equal view F1) E2) as W2.
  destruct (write_all_run _ _ _ _ _ E2) as [[[-> F2]|(e & n & -> & F2)] _];
    [|intros [= <- <-]; split; [apply within_left; by eapply within_trans|done]].
  destruct (call w2) as [w3 [[]|e]] eqn:E3; destruct (call_run _ _ _ E3) as [F3 T3];
    (assert (W3 : within (fun f => view f = view (w_files w)) w w3); [eapply within_trans; [done|]; eapply within_trans; [done|]; apply within_same; [apply W2|done|done]|]);
    [|intros [= <- <-]; split; [by apply within_left|done]].
  destruct (rename temp target w3) as [w4 r4] eqn:E4.
  destruct (rename_run _ _ _ _ _ E4) as [(data & -> & Hdata & F4 & T4)|(e & -> & F4 & T4)];
    [|intros [= <- <-]; split; [apply within_left; eapply within_trans; [done|]; apply within_same; [apply W3|done|done]|done]].
  assert (data = payload) as ->.
  { rewrite F3, F2, F1 in Hdata. unfold appended, contents in Hdata. rewrite lookup_insert_eq, Ht in Hdata. cbn in Hdata. rewrite take_ge in Hdata by lia. congruence. }
  assert (V4 : view (w_files w4) = view (rewritten (w_files w) target payload)).
  { rewrite F4. apply view_insert_cong. rewrite view_delete_hidden by done. apply W3. }
  pose proof (keeps_sync_directory (fun f => view f = view (rewritten (w_files w) target payload)) w4 V4) as W5.
  destruct (sync_directory w4) as [w5 r5]. cbn [fst] in W5. intros [= <- <-]. split; [|intros _; apply W5].
  eapply within_trans; [by apply within_left|]. eapply within_trans; [|eapply within_mono; [|exact W5]; intros f Hf; by right].
  apply within_put; [by right|done].
Qed.

Lemma write_atomic_run prefix target payload w w' r : hidden prefix -> write_atomic prefix target payload w = (w', r) ->
  within (either (w_files w) (rewritten (w_files w) target payload)) w w' /\ (r = Ok tt -> view (w_files w') = view (rewritten (w_files w) target payload)).
Proof.
  intros Hp. unfold write_atomic, mbind, fs_bind, attempt. destruct (create_temp 32 prefix w) as [w1 r1] eqn:E1.
  destruct (create_temp_run _ _ _ _ _ Hp E1) as [(temp & -> & Hh & F1 & T1)|(e & -> & F1 & T1)];
    [|intros [= <- <-]; split; [apply within_left; by apply within_same|done]].
  assert (V1 : view (w_files w1) = view (w_files w)) by (rewrite F1; by apply view_insert_hidden).
  destruct (atomic_body temp target payload w1) as [w2 r2] eqn:E2.
  destruct (atomic_body_run _ _ _ _ _ _ Hh (ltac:(rewrite F1; apply lookup_insert_eq)) E2) as [W2 H2].
  pose proof (view_insert_cong target payload _ _ V1) as V2.
  assert (W : within (either (w_files w) (rewritten (w_files w) target payload)) w w2).
  { eapply within_trans; [apply within_put; [by left|done]|]. eapply within_mono; [|exact W2]. unfold either. by rewrite V1, V2. }
  destruct r2 as [[]|e]; [intros [= <- <-]; split; [done|]; intros _; rewrite <- V2; by apply H2|].
  destruct W as [Hw2 W]. pose proof (keeps_remove_hidden temp (view (w_files w2)) Hh w2 eq_refl) as W3. destruct (remove_file temp w2) as [w3 r3]. cbn [fst] in W3.
  intros [= <- <-]. split; [|done]. eapply within_trans; [split; [exact Hw2|exact W]|]. eapply within_mono; [|exact W3]. unfold either. by intros f ->.
Qed.

(** ** Rewriting the two files *)

Lemma compact_run `{GoJson.FloatText} entries w w' r : compact entries w = (w', r) ->
  within (either (w_files w) (rewritten (w_files w) JOURNAL_FILENAME (journal_text entries))) w w' /\
  (is_ok r = true -> r = Ok (Z.of_nat (length (journal_text entries))) /\ view (w_files w') = view (rewritten (w_files w) JOURNAL_FILENAME (journal_text entries))).
Proof.
  unfold compact, mbind, fs_bind. destruct (write_atomic _ _ _ w) as [w1 r1] eqn:E. assert (Hp : hidden ".activity.jsonl") by (by eexists).
  destruct (write_atomic_run _ _ _ _ _ _ Hp E) as [W HO]. destruct r1 as [[]|e]; intros [= <- <-]; split; try done. intros _. split; [done|]. by apply HO.
Qed.

(** The directory after [write_tombstones]. *)
Definition entombed (files : Files) (ids : gset string) : Files :=
  if decide (ids = ∅) then delete TOMBSTONE_FILENAME files else rewritten files TOMBSTONE_FILENAME (tombstone_text ids).

Lemma entombed_cong files files' ids : view files = view files' -> view (entombed files ids) = view (entombed files' ids).
Proof. intros E. unfold entombed. case_decide; [by apply view_delete_cong|by apply view_insert_cong]. Qed.

Lemma remove_file_run name w w' r : remove_file name w = (w', r) ->
  (r = Ok tt /\ w_files w' = delete name (w_files w) /\ w_trail w' = w_trail w ++ [w_files w']) \/
  (exists e, r = Err e /\ w_files w' = w_files w /\ w_trail w' = w_trail w /\ (e_kind e = NotFound -> w_files w !! name = None)).
Proof.
  unfold remove_file, mbind, fs_bind, call, pop_fault, files_of. intros E.
  destruct (w_faults w) as [|[|k s n] faults]; cbn in E; [destruct (w_files w !! name) eqn:Hn..|]; cbn in E; injection E as <- <-;
    (eauto 10 || (right; eexists; repeat split; try done; by destruct k)).
Qed.

Lemma write_tombstones_run ids w w' r : write_tombstones ids w = (w', r) ->
  within (either (w_files w) (entombed (w_files w) ids)) w w' /\ (r = Ok tt -> view (w_files w') = view (entombed (w_files w) ids)).
Proof.
  unfold write_tombstones, entombed. case_decide as Hids; [|apply write_atomic_run; by eexists]. set (f1 := delete _ _).
  unfold mbind, fs_bind, attempt. destruct (remove_file TOMBSTONE_FILENAME w) as [w1 r1] eqn:E1.
  assert (Hs : forall w2 r2, view (w_files w1) = view f1 -> within (either (w_files w) f1) w w1 -> sync_directory w1 = (w2, r2) ->
    within (either (w_files w) f1) w w2 /\ (r2 = Ok tt -> view (w_files w2) = view f1)).
  { intros w2 r2 V W E2. pose proof (keeps_sync_directory (fun f => view f = view f1) w1 V) as W2. rewrite E2 in W2. split; [|intros _; apply W2].
    eapply within_trans; [exact W|]. eapply within_mono; [|exact W2]. intros f Hf. by right. }
  destruct (remove_file_run _ _ _ _ E1) as [(-> & F1 & T1)|(e & -> & F1 & T1 & Hn)].
  - apply Hs; [by rewrite F1|]. apply within_put; [right; by rewrite F1|done].
  - assert (W1 : within (either (w_files w) f1) w w1) by (by apply within_same; [left|..]).
    case_decide as Hk; [|intros [= <- <-]; by split]. intros E. apply Hs; [|done|done].
    rewrite F1. unfold f1, view. specialize (Hn Hk). rewrite lookup_delete_ne by discriminate. by rewrite lookup_delete_eq, Hn.
Qed.

(** ** When no call fails *)

(** The next temporary name of [prefix] is free, whatever the clock says. *)
Definition fresh (prefix : string) (w : World) : Prop := forall nanos, w_files w !! temp_name prefix nanos (w_temp_seq w) = None.

(** No temporary file at all. *)
Definition tidy (w : World) : Prop := forall name, hidden name -> w_files w !! name = None.

Lemma tidy_fresh prefix w : hidden prefix -> tidy w -> fresh prefix w.
Proof. intros Hp Ht nanos. apply Ht. by apply temp_hidden. Qed.

Lemma call_pass w : w_faults w = [] -> call w = (w, Ok tt).
Proof. intros E. unfold call, pop_fault. by rewrite E. Qed.

Lemma open_read_pass name w : w_faults w = [] -> open_read name w = (w, match w_files w !! name with Some _ => Ok tt | None => Err not_found end).
Proof. intros E. unfold open_read, mbind, fs_bind. rewrite call_pass by done. cbn. by destruct (w_files w !! name). Qed.

Lemma file_len_pass name w : w_faults w = [] -> file_len name w = (w, Ok (Z.of_nat (length (contents (w_files w) name)))).
Proof. intros E. unfold file_len, mbind, fs_bind. by rewrite call_pass. Qed.

Lemma read_to_end_pass name w : w_faults w = [] -> read_to_end name w = (w, Ok (contents (w_files w) name)).
Proof. intros E. unfold read_to_end, mbind, fs_bind. by rewrite call_pass. Qed.

Lemma sync_directory_pass w : w_faults w = [] -> sync_directory w = (w, Ok tt).
Proof. intros E. unfold sync_directory, mbind, fs_bind, attempt. by rewrite !call_pass. Qed.

Lemma create_temp_pass tries prefix w : w_faults w = [] -> fresh prefix w ->
  exists w' nanos, create_temp (S tries) prefix w = (w', Ok (temp_name prefix nanos (w_temp_seq w))) /\ w_faults w' = [] /\
    w_files w' = <[temp_name prefix nanos (w_temp_seq w) := []]> (w_files w).
Proof.
  intros Hf Hn. cbn [create_temp]. unfold mbind, fs_bind, attempt, now.
  destruct (w_clock w) as [|t clock]; cbn [next_temp]; unfold create_new, mbind, fs_bind; rewrite call_pass by done; cbn; rewrite Hn; cbn; eauto.
Qed.

Lemma write_atomic_pass prefix target payload w : hidden prefix -> w_faults w = [] -> fresh prefix w ->
  exists w' temp, write_atomic prefix target payload w = (w', Ok tt) /\ w_faults w' = [] /\ hidden temp /\
    w_files w' = rewritten (delete temp (w_files w)) target payload.
Proof.
  intros Hp Hf Hn. destruct (create_temp_pass 31 prefix w Hf Hn) as (w1 & nanos & E1 & Hf1 & F1).
  unfold write_atomic, mbind, fs_bind. rewrite E1. set (temp := temp_name _ _ _) in *. unfold attempt, atomic_body, mbind, fs_bind. rewrite call_pass by done.
  unfold write_all, pop_fault. rewrite Hf1. set (w2 := set_files w1 _ _). assert (Hf2 : w_faults w2 = []) by done.
  rewrite call_pass by done. unfold rename, mbind, fs_bind. rewrite call_pass by done. cbn [files_of].
  assert (F2 : w_files w2 !! temp = Some payload).
  { unfold w2. cbn [set_files w_files]. unfold appended. rewrite lookup_insert_eq. unfold contents. rewrite F1, lookup_insert_eq. cbn. by rewrite take_ge by lia. }
  rewrite F2. cbn [put_files]. rewrite sync_directory_pass by done. eexists _, temp. split; [reflexivity|]. split; [done|]. split; [by apply temp_hidden|].
  cbn [set_files w_files]. f_equal. unfold w2. cbn [set_files w_files]. unfold appended. rewrite F1. by rewrite !delete_insert_eq.
Qed.

Lemma files_not_hidden : ~ hidden JOURNAL_FILENAME /\ ~ hidden TOMBSTONE_FILENAME.
Proof. split; intros Hh; by destruct (hidden_names _ Hh). Qed.

Lemma rewritten_tidy temp target payload w w' : ~ hidden target -> w_files w' = rewritten (delete temp (w_files w)) target payload -> tidy w -> tidy w'.
Proof. intros Ht E H name Hn. rewrite E, lookup_insert_ne by congruence. destruct (decide (temp = name)) as [->|]; [apply lookup_delete_eq|]. rewrite lookup_delete_ne by done. by apply H. Qed.

Lemma compact_pass `{GoJson.FloatText} entries w : w_faults w = [] -> fresh ".activity.jsonl" w ->
  exists w', compact entries w = (w', Ok (Z.of_nat (length (journal_text entries)))) /\ w_faults w' = [] /\ (tidy w -> tidy w') /\
    view (w_files w') = view (rewritten (w_files w) JOURNAL_FILENAME (journal_text entries)).
Proof.
  intros Hf Hn. assert (Hp : hidden ".activity.jsonl") by (by eexists).
  destruct (write_atomic_pass _ JOURNAL_FILENAME (journal_text entries) w Hp Hf Hn) as (w' & temp & E & Hf' & Ht & F). exists w'.
  unfold compact, mbind, fs_bind. rewrite E. split_and!; [done..| |rewrite F; apply view_insert_cong; by apply view_delete_hidden].
  eapply rewritten_tidy; [|exact F]; apply files_not_hidden.
Qed.

Lemma write_tombstones_pass ids w : w_faults w = [] -> (ids = ∅ \/ fresh ".activity.tombstones" w) ->
  exists w', write_tombstones ids w = (w', Ok tt) /\ w_faults w' = [] /\ (tidy w -> tidy w') /\ view (w_files w') = view (entombed (w_files w) ids).
Proof.
  intros Hf Hn. unfold write_tombstones, entombed. case_decide as Hids.
  - unfold mbind, fs_bind, attempt, remove_file, mbind, fs_bind. rewrite call_pass by done. cbn [files_of].
    destruct (w_files w !! TOMBSTONE_FILENAME) eqn:E; cbn.
    + rewrite sync_directory_pass by done. eexists. split; [reflexivity|]. split_and!; [done| |done]. intros Ht name Hh. cbn. rewrite lookup_delete_ne; [by apply Ht|]. intros <-. by destruct (hidden_names _ Hh).
    + rewrite sync_directory_pass by done. eexists. split; [reflexivity|]. split_and!; [done..|]. by rewrite delete_id.
  - destruct Hn as [|Hn]; [done|]. assert (Hp : hidden ".activity.tombstones") by (by eexists).
    destruct (write_atomic_pass _ TOMBSTONE_FILENAME (tombstone_text ids) w Hp Hf Hn) as (w' & temp & E & Hf' & Ht & F). exists w'.
    split_and!; [done..| |rewrite F; apply view_insert_cong; by apply view_delete_hidden]. eapply rewritten_tidy; [|exact F]; apply files_not_hidden.
Qed.

End ActivityFiles.
