(* ===== verification/ActivityReplay.v ===== *)
(** * Reading the journal back

    The line of an entry has no newline and is decoded to the entry; the lines
    of a journal, complete or cut short, are scanned to its entries. *)

From S2P Require Import Prelude Utf8 JsonText Json JsonWire GoJson Inbound UploadTime UploadIndex UploadsRestart Fs Activity ActivityStore ActivityFiles.

Module ActivityReplay.
Import Utf8 JsonText Json Fs Activity ActivityStore ActivityFiles.

(** ** The text of an entry *)

(** Well-formed strings, and no float (their text is serde_json's). *)
Fixpoint printable (v : json) : Prop :=
  match v with
  | JNumber (Float _) => False
  | JString s => utf8_string s
  | JArray items => foldr (fun v P => printable v /\ P) True items
  | JObject ms => foldr (fun m P => (utf8_string m.1 /\ printable m.2) /\ P) True ms
  | _ => True
  end.

(** A character that leaves the line in one piece. *)
Definition inline (c : Z) : Prop := 0 <= c /\ c <> 10.

Lemma encode_inline cs : Forall inline cs -> 10 ∉ utf8_encode cs.
Proof.
  intros H Hin. unfold utf8_encode in Hin. apply list_elem_of_bind in Hin as (c & Hb & Hc). rewrite Forall_forall in H. specialize (H _ Hc) as [H0 H10].
  pose proof (Z.mod_pos_bound c 64 ltac:(lia)). pose proof (Z.mod_pos_bound (c / 64) 64 ltac:(lia)). pose proof (Z.mod_pos_bound (c / 4096) 64 ltac:(lia)).
  pose proof (Z.div_pos c 64 H0 ltac:(lia)). pose proof (Z.div_pos c 4096 H0 ltac:(lia)). pose proof (Z.div_pos c 262144 H0 ltac:(lia)).
  unfold encode_char in Hb. repeat case_decide; rewrite ?elem_of_cons, elem_of_nil in Hb; lia.
Qed.

Lemma hex_inline n : 0 <= n < 16 -> inline (hex_digit n).
Proof. intros Hn. unfold inline, hex_digit. case_decide; lia. Qed.

Lemma escape_char_inline c : 0 <= c -> Forall inline (escape_char c).
Proof.
  intros Hc. unfold escape_char. do 10 (case_decide; [apply (bool_decide_unpack (Forall inline _)); vm_compute; exact I|]).
  case_decide as H20; [|repeat constructor; [done|congruence]]. unfold hex4, backslash.
  repeat (constructor; [first [apply hex_inline; apply Z.mod_pos_bound; lia|unfold inline; lia]|]). constructor.
Qed.

Lemma escape_string_inline s : utf8_string s -> Forall inline (escape_string [] (Utf8.chars s)).
Proof.
  intros Hs. unfold escape_string. cbn [app]. constructor; [unfold inline, quote; lia|]. apply Forall_app. split; [|repeat constructor; unfold quote; lia].
  apply Forall_bind. eapply Forall_impl; [exact (chars_scalar s Hs)|]. intros c [[Hc _] _]. by apply escape_char_inline.
Qed.

Lemma lit_inline s : forallb (fun c => bool_decide (inline c)) (as_bytes s) = true -> Forall inline (as_bytes s).
Proof. intros H. apply Forall_forall. intros c Hc. rewrite forallb_forall in H. apply (bool_decide_eq_true_1 _). apply H. by apply list_elem_of_In. Qed.

Lemma decimal_inline z : Forall inline (as_bytes (decimal z)).
Proof. eapply Forall_impl; [apply JsonWire.decimal_ascii|]. unfold inline. cbn. lia. Qed.

Lemma join_inline sep parts : Forall inline sep -> Forall (Forall inline) parts -> Forall inline (GoJson.join sep parts).
Proof. intros Hs. induction 1 as [|p parts Hp Hps IH]; [constructor|]. destruct parts; [done|]. cbn [GoJson.join]. rewrite !Forall_app. by repeat split. Qed.

Section Text.
Context `{FT : GoJson.FloatText}.

Lemma value_inline v : printable v -> Forall inline (GoJson.value_text v).
Proof.
  revert v. fix IH 1. intros [|b|n|s|items|ms] Hv; cbn [GoJson.value_text].
  - apply lit_inline. vm_compute. reflexivity.
  - destruct b; apply lit_inline; vm_compute; reflexivity.
  - destruct n; [apply decimal_inline|constructor; [unfold inline; lia|apply decimal_inline]|done].
  - by apply escape_string_inline.
  - rewrite !Forall_app. split; [repeat constructor; lia|]. split; [|repeat constructor; lia]. apply join_inline; [repeat constructor; lia|].
    cbn [printable] in Hv. induction items as [|x items IHl]; [constructor|]. cbn [foldr fmap list_fmap] in *. destruct Hv as [Hx Hv]. constructor; [by apply IH|by apply IHl].
  - rewrite !Forall_app. split; [repeat constructor; lia|]. split; [|repeat constructor; lia]. apply join_inline; [repeat constructor; lia|].
    cbn [printable] in Hv. induction ms as [|[k x] ms IHl]; [constructor|]. cbn [foldr fmap list_fmap fst snd] in *. destruct Hv as [[Hk Hx] Hv].
    constructor; [|by apply IHl]. rewrite !Forall_app. split; [by apply escape_string_inline|]. split; [repeat constructor; lia|by apply IH].
Qed.

Lemma to_vec_inline v : printable v -> 10 ∉ GoJson.to_vec v.
Proof. intros Hv. apply encode_inline. by apply value_inline. Qed.

Lemma to_vec_object ms : exists inner, GoJson.to_vec (JObject ms) = 123 :: inner ++ [125].
Proof. unfold GoJson.to_vec. cbn [GoJson.value_text]. rewrite !utf8_encode_app. eexists. reflexivity. Qed.

End Text.

(** ** Lines *)

Lemma split_lines_app l rest : 10 ∉ l -> split_lines (l ++ 10 :: rest) = l :: split_lines rest.
Proof.
  induction l as [|c l IH]; intros Hl; [done|]. apply not_elem_of_cons in Hl as [Hc Hl]. cbn [app split_lines]. rewrite decide_False by congruence. by rewrite IH.
Qed.

Lemma split_lines_one l : 10 ∉ l -> split_lines l = [l].
Proof. induction l as [|c l IH]; intros Hl; [done|]. apply not_elem_of_cons in Hl as [Hc Hl]. cbn [split_lines]. rewrite decide_False by congruence. by rewrite IH. Qed.

(** Complete lines and what comes after the last newline. *)
Lemma split_lines_concat ls p : Forall (fun l => 10 ∉ l) ls -> 10 ∉ p -> split_lines (concat ((fun l => l ++ [10]) <$> ls) ++ p) = ls ++ [p].
Proof.
  intros Hls Hp. induction Hls as [|l ls Hl _ IH]; [by apply split_lines_one|]. cbn [fmap list_fmap concat]. rewrite <- !app_assoc. cbn [app].
  rewrite split_lines_app by done. by rewrite IH.
Qed.

Lemma strip_cr_id l : last l <> Some 13 -> strip_cr l = l.
Proof. intros H. unfold strip_cr. by rewrite decide_False. Qed.

(** ** The entry of a line *)

(** What the JSON of an entry keeps: an empty map of details is dropped. *)
Definition canonical (e : ActivityEntry) : Prop :=
  is_i64 (ae_timestamp e) /\ (length (Utf8.chars (ae_extract e)) <= MAX_EXTRACT_CHARS)%nat /\
  match ae_details e with None => True | Some m => m <> ∅ /\ map_Forall (fun _ v => Inbound.to_value v = v) m end.

Definition named (ms : list (string * json)) (k : string) : list (string * json) := filter (fun m : string * json => m.1 = k) ms.

Lemma named_opt name value k : named (opt_member name value) k = if decide (name = k) then opt_member name value else [].
Proof. unfold named, opt_member. case_decide; [by case_decide|]. rewrite filter_cons. cbn [fst]. by repeat case_decide. Qed.

Lemma named_details d k : named (details_member d) k = if decide ("details"%string = k) then details_member d else [].
Proof. unfold named, details_member. destruct d as [m|]; [|by case_decide]. case_decide; [by case_decide|]. rewrite filter_cons. cbn [fst]. by repeat case_decide. Qed.

Definition only (ms : list (string * json)) : option (option json) := match ms with [] => Some None | [m] => Some (Some m.2) | _ => None end.

Lemma only_opt name value : exists f, only (opt_member name value ++ []) = Some f /\ JsonWire.de_string f = Some value.
Proof. unfold opt_member. case_decide as E; [subst; by exists None|]. by exists (Some (JString value)). Qed.

Lemma details_again (m : gmap string json) : map_Forall (fun _ v => Inbound.to_value v = v) m ->
  foldl (fun o (x : string * json) => <[x.1 := Inbound.to_value x.2]> o) ∅ (btree_list m) = m.
Proof.
  intros Hm. assert (Hf : forall l (acc : gmap string json), Forall (fun x : string * json => Inbound.to_value x.2 = x.2) l -> NoDup l.*1 ->
    foldl (fun o (x : string * json) => <[x.1 := Inbound.to_value x.2]> o) acc l = list_to_map l ∪ acc).
  { induction l as [|[k v] l IH]; intros acc Hl Hnd; [cbn; by rewrite (left_id_L ∅ (∪))|]. apply Forall_cons in Hl as [Hv Hl]. cbn [fst snd fmap list_fmap] in *.
    apply NoDup_cons in Hnd as [Hk Hnd]. cbn [foldl fst snd]. rewrite IH by done. rewrite Hv. cbn [list_to_map foldr uncurry fst snd].
    change (foldr _ ∅ l) with (list_to_map l : gmap string json). rewrite <- insert_union_r, <- insert_union_l; [done|]. by apply not_elem_of_list_to_map_1. }
  rewrite Hf; [|apply Forall_forall; intros [k v] Hin; apply elem_of_btree_list in Hin; by apply (Hm k)|apply NoDup_btree_keys].
  rewrite (right_id_L ∅ (∪)). apply map_eq. intros k. apply option_eq. intros v. rewrite <- elem_of_list_to_map by apply NoDup_btree_keys. apply elem_of_btree_list.
Qed.

Lemma only_details d : match d with None => True | Some m => m <> ∅ /\ map_Forall (fun _ v => Inbound.to_value v = v) m end ->
  exists f, only (details_member d ++ []) = Some f /\ de_details f = Some d.
Proof.
  destruct d as [m|]; intros Hd; [|by exists None]. destruct Hd as [Hne Hm]. unfold details_member. rewrite decide_False by done.
  exists (Some (JObject (btree_list m))). split; [done|]. cbn [de_details]. by rewrite details_again.
Qed.

Lemma member_entry e k : JsonWire.member (entry_members e) k =
  only (named [("id", JString (ae_id e)); ("timestamp", json_int (ae_timestamp e)); ("kind", JString (ae_kind e)); ("status", JString (ae_status e));
     ("summary", JString (ae_summary e))]%string k ++ named (opt_member "host" (ae_host e)) k ++ named (opt_member "pane_id" (ae_pane_id e)) k
     ++ named (opt_member "agent" (ae_agent e)) k ++ named (opt_member "project" (ae_project e)) k ++ named (opt_member "request_id" (ae_request_id e)) k
     ++ named (opt_member "extract" (ae_extract e)) k ++ named (opt_member "session" (ae_session e)) k ++ named (details_member (ae_details e)) k).
Proof. unfold JsonWire.member, entry_members, named. by rewrite !filter_app. Qed.

Lemma de_entry_json e : canonical e -> de_entry (entry_json e) = Some e.
Proof.
  intros (Hts & _ & Hd). unfold de_entry, entry_json, JsonWire.de_struct, entry_fields.
  destruct (only_opt "host" (ae_host e)) as (f1 & E1 & D1), (only_opt "pane_id" (ae_pane_id e)) as (f2 & E2 & D2), (only_opt "agent" (ae_agent e)) as (f3 & E3 & D3),
    (only_opt "project" (ae_project e)) as (f4 & E4 & D4), (only_opt "request_id" (ae_request_id e)) as (f5 & E5 & D5), (only_opt "extract" (ae_extract e)) as (f6 & E6 & D6),
    (only_opt "session" (ae_session e)) as (f7 & E7 & D7), (only_details (ae_details e) Hd) as (f8 & E8 & D8).
  assert (E : mapM (JsonWire.member (entry_members e)) entry_fields = Some [Some (JString (ae_id e)); Some (json_int (ae_timestamp e)); Some (JString (ae_kind e));
    Some (JString (ae_status e)); Some (JString (ae_summary e)); f1; f2; f3; f4; f5; f6; f7; f8]).
  { apply mapM_Some. unfold entry_fields. repeat (constructor; [rewrite member_entry, !named_opt, named_details|]); [..|constructor].
    all: unfold named; rewrite ?filter_cons, ?filter_nil; cbn [fst]; repeat (rewrite decide_False by discriminate); rewrite ?decide_True by reflexivity; rewrite ?app_nil_l, ?app_nil_r in *; cbn [app only snd] in *; done. }
  unfold entry_fields in E. rewrite E. cbn [mbind option_bind]. rewrite (UploadsRestart.de_i64_int _ Hts). cbn [mbind option_bind JsonWire.de_string].
  rewrite D1. cbn [mbind option_bind]. rewrite D2. cbn [mbind option_bind]. rewrite D3. cbn [mbind option_bind]. rewrite D4. cbn [mbind option_bind]. rewrite D5. cbn [mbind option_bind].
  rewrite D6. cbn [mbind option_bind]. rewrite D7. cbn [mbind option_bind]. rewrite D8. cbn [mbind option_bind]. by destruct e.
Qed.

(** ** Scanning *)

Section Scan.
Context `{FT : GoJson.FloatText} `{DJ : UploadIndex.DocumentJson}.

Definition entry_text (e : ActivityEntry) : bytes := GoJson.to_vec (entry_json e).

(** serde_json reads the object it wrote, and no proper beginning of it. *)
Definition readable (e : ActivityEntry) : Prop :=
  UploadIndex.from_slice (entry_text e) = Some (entry_json e) /\
  forall n, (n < length (entry_text e))%nat -> UploadIndex.from_slice (take n (entry_text e)) = None.

Definition entry_ok (e : ActivityEntry) : Prop := printable (entry_json e) /\ canonical e /\ readable e.

Lemma entry_text_last e : last (entry_text e) = Some 125.
Proof. unfold entry_text, entry_json. destruct (to_vec_object (entry_members e)) as [inner ->]. by rewrite app_comm_cons, last_snoc. Qed.

Lemma decode_entry_text e : entry_ok e -> decode_entry (entry_text e) = Some e.
Proof. intros (_ & Hc & Hr & _). unfold decode_entry, de_line. rewrite Hr. cbn [mbind option_bind]. by rewrite de_entry_json. Qed.

Lemma decode_entry_cut e n : entry_ok e -> (n < length (entry_text e))%nat -> decode_entry (take n (entry_text e)) = None.
Proof. intros (_ & _ & _ & Hr) Hn. unfold decode_entry, de_line. by rewrite (Hr n Hn). Qed.

Lemma encode_line_text e : encode_line e = entry_text e ++ [10].
Proof. done. Qed.

Lemma journal_text_lines es : journal_text es = concat ((fun l => l ++ [10]) <$> (entry_text <$> es)).
Proof. unfold journal_text. by rewrite <- list_fmap_compose. Qed.

Lemma split_journal es p : Forall entry_ok es -> 10 ∉ p -> split_lines (journal_text es ++ p) = (entry_text <$> es) ++ [p].
Proof.
  intros Hes Hp. rewrite journal_text_lines. apply split_lines_concat; [|done]. apply Forall_fmap. eapply Forall_impl; [exact Hes|].
  intros e (He & _). by apply to_vec_inline.
Qed.

(** An entry that is longer than the whole journal may be is never written. *)
Definition short (e : ActivityEntry) : Prop := Z.of_nat (length (encode_line e)) <= MAX_BYTES.

Lemma scan_entry ids e seq acc b : entry_ok e -> short e ->
  scan_line ids (entry_text e) (seq, acc, b) = Ok (bump_sequence seq (ae_id e), acc ++ (if decide (ae_id e ∈ ids) then [] else [e]), b).
Proof.
  intros He Hs. unfold scan_line. rewrite strip_cr_id by (rewrite entry_text_last; congruence).
  rewrite decide_False by (intros E; pose proof (entry_text_last e) as H; by rewrite E in H).
  unfold short in Hs. rewrite encode_line_text, length_app in Hs. cbn [length] in Hs. rewrite decide_False by lia. rewrite decode_entry_text by done.
  case_decide; [by rewrite app_nil_r|]. destruct He as (_ & (_ & Hx & _) & _). unfold truncate_chars. rewrite (decide_True _ _ Hx). by rewrite decide_True.
Qed.

Lemma scan_entries ids es rest seq acc b : Forall entry_ok es -> Forall short es ->
  scan_lines ids ((entry_text <$> es) ++ rest) (seq, acc, b) =
  scan_lines ids rest (foldl bump_sequence seq (ae_id <$> es), acc ++ filter (fun e => ae_id e ∉ ids) es, b).
Proof.
  intros Hes Hss. revert seq acc. induction es as [|e es IH]; intros seq acc; [cbn; by rewrite app_nil_r|]. apply Forall_cons in Hes as [He Hes], Hss as [Hs Hss].
  cbn [fmap list_fmap app scan_lines foldl]. rewrite scan_entry by done. rewrite IH by done. rewrite <- app_assoc. do 4 f_equal. rewrite filter_cons. destruct (decide (ae_id e ∈ ids)); case_decide; (done || tauto).
Qed.

(** What follows the last newline: nothing, a beginning of an entry's text, or
    all of it. *)
Lemma scan_cut ids e n st : entry_ok e -> short e -> (n < length (entry_text e))%nat -> scan_lines ids [take n (entry_text e)] st = Ok st.
Proof.
  intros He Hs Hn. destruct st as [[seq acc] b]. cbn [scan_lines]. unfold scan_line. case_decide as Hempty; [done|]. rewrite decide_False.
  2:{ unfold short in Hs. rewrite encode_line_text, length_app in Hs. cbn [length] in Hs. unfold strip_cr. case_decide; rewrite ?length_take; lia. }
  assert (Hd : decode_entry (strip_cr (take n (entry_text e))) = None).
  { unfold strip_cr. case_decide; [|by apply decode_entry_cut]. rewrite take_take. apply decode_entry_cut; [done|]. lia. }
  by rewrite Hd.
Qed.

Lemma length_journal es : Z.of_nat (length (journal_text es)) = total ((fun e => (Z.of_nat (length (encode_line e)), e)) <$> es).
Proof. induction es as [|e es IH]; [done|]. unfold journal_text in *. cbn [fmap list_fmap concat total foldr fst]. rewrite length_app, Nat2Z.inj_add, IH. done. Qed.

(** Rows that carry the length of their line. *)
Definition rows_of (es : list ActivityEntry) : list (Z * ActivityEntry) := (fun e => (Z.of_nat (length (encode_line e)), e)) <$> es.

Lemma rows_entries es : snd <$> rows_of es = es.
Proof. unfold rows_of. rewrite <- list_fmap_compose. by apply list_fmap_id. Qed.

Lemma drop_bytes_id bytes rows : bytes <= MAX_BYTES -> drop_bytes bytes rows = (rows, bytes).
Proof. intros H. destruct rows as [|r [|r' rows]]; cbn [drop_bytes]; [done..|]. by rewrite decide_False by lia. Qed.

Lemma retain_all es : (length es <= MAX_ITEMS)%nat -> total (rows_of es) <= MAX_BYTES -> retain_within_limits es = Ok (rows_of es).
Proof.
  intros Hn Hb. unfold retain_within_limits. replace (length es - MAX_ITEMS)%nat with 0%nat by lia. rewrite drop_0. fold (rows_of es).
  rewrite drop_bytes_id by done. by rewrite decide_False by lia.
Qed.

Lemma rows_total_nonneg es : 0 <= total (rows_of es).
Proof. unfold rows_of. rewrite <- length_journal. lia. Qed.

Lemma total_filter (P : ActivityEntry -> Prop) `{!forall e, Decision (P e)} es : total (rows_of (filter P es)) <= total (rows_of es).
Proof. induction es as [|e es IH]; [done|]. rewrite filter_cons. case_decide; unfold rows_of, total in *; cbn [fmap list_fmap foldr fst]; lia. Qed.

Lemma total_short es : total (rows_of es) <= MAX_BYTES -> Forall short es.
Proof.
  induction es as [|e es IH]; intros H; [constructor|]. pose proof (rows_total_nonneg es). unfold rows_of, total in *. cbn [fmap list_fmap foldr fst] in H.
  constructor; [unfold short; lia|]. apply IH. lia.
Qed.

End Scan.

End ActivityReplay.

(** * The tombstones read back

    [load_tombstones] reads the set that [write_tombstones] wrote, when the ids
    have no surrounding white space and the file is within its bound. *)

From S2P Require Import Prelude Utf8 JsonText Json GoJson UploadIndex E2eeHandshake Fs Activity ActivityStore ActivityFiles.

Module ActivityTombs.
Import Utf8 Fs Activity ActivityStore ActivityFiles ActivityReplay.

(** ** Lossy decoding of well-formed text *)

Lemma lossy_encode_char c r : is_scalar c -> lossy_chars (encode_char c ++ r) = c :: lossy_chars r.
Proof.
  intros [Hc Hs]. destruct (digits c) as (d0 & d1 & d2 & d3 & Hval & B0 & B1 & B2 & B3 & E0 & E1 & E2 & E3 & E4 & E5); [lia|].
  unfold encode_char. rewrite E0, E5, E4, E3, E2, E1. clear E0 E1 E2 E3 E4 E5.
  repeat case_decide; cbn [app lossy_chars].
  - by ranges.
  - assert (d3 = 0 /\ d2 = 0) as [-> ->] by lia. unfold second_ok. ranges. cbn [negb]. f_equal; lia.
  - assert (d3 = 0) as -> by lia. assert (Hok : second_ok (224 + (0 * 64 + d2)) (128 + d1) = true).
    { unfold second_ok, is_cont. rewrite (in_range_false 0xC2 0xDF) by lia. destruct (decide (d2 = 0)) as [->|]; [by ranges|]. rewrite (in_range_false 0xE0 0xE0) by lia.
      destruct (decide (d2 = 13)) as [->|]; by ranges. }
    rewrite Hok. cbn [negb]. ranges. cbn [negb]. f_equal; lia.
  - assert (Hok : second_ok (240 + d3) (128 + d2) = true).
    { unfold second_ok, is_cont. do 4 (rewrite in_range_false by lia). destruct (decide (d3 = 0)) as [->|]; [by ranges|]. rewrite (in_range_false 0xF0 0xF0) by lia.
      destruct (decide (d3 = 4)) as [->|]; by ranges. }
    rewrite Hok. cbn [negb]. ranges. cbn [negb]. f_equal; lia.
Qed.

Lemma lossy_encode cs : Forall is_scalar cs -> lossy_chars (utf8_encode cs) = cs.
Proof. induction 1 as [|c cs Hc _ IH]; [done|]. unfold utf8_encode in *. rewrite bind_cons, lossy_encode_char by done. by rewrite IH. Qed.

(** ** Ids *)

(** An id that survives its line: no newline, nothing for [trim]. *)
Definition clean (id : string) : Prop := utf8_string id /\ 10 ∉ as_bytes id /\ trim id = id /\ id <> ""%string.

Lemma drop_while_length p l : (length (drop_while p l) <= length l)%nat.
Proof. induction l as [|c l IH]; [done|]. cbn [drop_while]. destruct (p c); cbn [length]; lia. Qed.

Lemma drop_while_full p l : length (drop_while p l) = length l -> drop_while p l = l.
Proof. destruct l as [|c l]; [done|]. cbn [drop_while]. destruct (p c); [|done]. pose proof (drop_while_length p l). cbn [length]. lia. Qed.

Lemma trim_chars_last cs c : trim_chars cs = cs -> last cs = Some c -> is_whitespace c = false.
Proof.
  unfold trim_chars. intros E Hl. apply (f_equal length) in E. rewrite length_reverse in E. pose proof (drop_while_length is_whitespace cs).
  pose proof (drop_while_length is_whitespace (reverse (drop_while is_whitespace cs))) as H'. rewrite length_reverse in H'.
  assert (Ef : drop_while is_whitespace cs = cs) by (apply drop_while_full; lia). rewrite Ef in E. apply last_Some in Hl as [cs' ->].
  rewrite reverse_snoc in E. cbn [drop_while] in E. destruct (is_whitespace c); [|done]. pose proof (drop_while_length is_whitespace (reverse cs')) as Hr.
  rewrite length_reverse in Hr. rewrite length_app in E. cbn [length] in E. lia.
Qed.

Lemma encode_last_ascii cs b : Forall is_scalar cs -> last (utf8_encode cs) = Some b -> b < 0x80 -> last cs = Some b.
Proof.
  intros Hs Hl Hb. destruct cs as [|c cs _] using rev_ind; [done|]. rewrite last_snoc. f_equal. apply Forall_app in Hs as [_ Hc]. apply Forall_singleton in Hc as [Hc _].
  rewrite utf8_encode_app in Hl. change (utf8_encode [c]) with (encode_char c ++ []) in Hl. rewrite app_nil_r in Hl. unfold encode_char in Hl.
  repeat case_decide; rewrite last_app in Hl; cbn [last] in Hl; injection Hl as <-; [done|..]; pose proof (Z.mod_pos_bound c 64 ltac:(lia)); lia.
Qed.

Lemma trim_fixed id : utf8_string id -> trim id = id -> trim_chars (chars id) = chars id.
Proof.
  intros Hu Ht. pose proof (chars_scalar id Hu) as Hs. unfold trim in Ht. apply (f_equal as_bytes) in Ht.
  assert (Hs' : Forall is_scalar (trim_chars (chars id))).
  { assert (Hd : forall l, Forall is_scalar l -> Forall is_scalar (drop_while is_whitespace l)).
    { induction 1 as [|c l Hc Hl IH]; [constructor|]. cbn [drop_while]. destruct (is_whitespace c); [done|by constructor]. }
    unfold trim_chars. apply Forall_reverse, Hd, Forall_reverse, Hd. exact Hs. }
  rewrite as_bytes_of_bytes in Ht. 2: by apply E2eeHandshake.utf8_encode_u8.
  apply (f_equal utf8_chars) in Ht. destruct (chars_encode _ Hs') as [E _]. rewrite E in Ht. exact Ht.
Qed.

Lemma tombstone_clean id : clean id -> Z.of_nat (length (as_bytes id)) <= MAX_BYTES -> tombstone_line (as_bytes id) = Ok (Some id).
Proof.
  intros (Hu & _ & Ht & Hne) Hlen. pose proof (chars_scalar id Hu) as Hs. pose proof (trim_fixed _ Hu Ht) as Htc. unfold tombstone_line. rewrite strip_cr_id.
  2:{ rewrite <- (encode_chars id Hu). intros Hl. apply encode_last_ascii in Hl; [|done|lia]. by apply (trim_chars_last _ _ Htc) in Hl. }
  rewrite decide_False by lia. rewrite <- (encode_chars id Hu), lossy_encode, Htc, encode_chars, string_of_as_bytes by done. by rewrite decide_False.
Qed.

(** ** The file *)

Definition id_size (ids : gset string) : Z := Z.of_nat (length (tombstone_text ids)).

Lemma trim_clean id : clean id -> trim id <> ""%string.
Proof. intros (_ & _ & -> & Hne). done. Qed.

Lemma tombstone_text_clean ids : (forall id, id ∈ ids -> clean id) -> tombstone_text ids = concat ((fun l => l ++ [10]) <$> (as_bytes <$> sorted_ids ids)).
Proof.
  intros Hc. unfold tombstone_text. rewrite <- list_fmap_compose.
  assert (Hk : Forall (fun id => trim id <> ""%string) (sorted_ids ids)).
  { apply Forall_forall. intros id Hin. apply trim_clean, Hc. unfold sorted_ids in Hin. rewrite merge_sort_Permutation in Hin. by apply elem_of_elements. }
  assert (E : filter (fun id => trim id <> ""%string) (sorted_ids ids) = sorted_ids ids); [|by rewrite E].
  induction Hk as [|x l Hx _ IH]; [done|]. rewrite filter_cons_True by done. by rewrite IH.
Qed.

Lemma scan_clean (l : list string) acc : Forall clean l -> Forall (fun id => Z.of_nat (length (as_bytes id)) <= MAX_BYTES) l ->
  scan_tombstones ((as_bytes <$> l) ++ [[]]) acc = Ok (list_to_set l ∪ acc).
Proof.
  intros Hl Hs. revert acc. induction l as [|id l IH]; intros acc; [cbn; by rewrite (left_id_L ∅ (∪))|]. apply Forall_cons in Hl as [Hid Hl], Hs as [Hi Hs].
  cbn [fmap list_fmap app scan_tombstones]. rewrite tombstone_clean by done. rewrite IH by done. f_equal. set_solver.
Qed.

Lemma scan_tombstone_text ids : (forall id, id ∈ ids -> clean id) -> id_size ids <= MAX_BYTES -> scan_tombstones (split_lines (tombstone_text ids)) ∅ = Ok ids.
Proof.
  intros Hc Hs. assert (Hcl : Forall clean (sorted_ids ids)).
  { apply Forall_forall. intros id Hin. apply Hc. unfold sorted_ids in Hin. rewrite merge_sort_Permutation in Hin. by apply elem_of_elements. }
  unfold id_size in Hs. rewrite tombstone_text_clean in * by done.
  assert (Hlen : Forall (fun id => Z.of_nat (length (as_bytes id)) <= MAX_BYTES) (sorted_ids ids)).
  { clear Hc Hcl. revert Hs. induction (sorted_ids ids) as [|id l IH]; intros Hs; [constructor|]. cbn [fmap list_fmap concat] in Hs. rewrite !length_app in Hs.
    constructor; [lia|]. apply IH. lia. }
  rewrite <- (app_nil_r (concat _)). rewrite split_lines_concat; [|apply Forall_fmap; eapply Forall_impl; [exact Hcl|]; by intros id (_ & H10 & _)|apply not_elem_of_nil].
  rewrite scan_clean by done. f_equal. unfold sorted_ids. apply set_eq. intros id. rewrite elem_of_union, elem_of_list_to_set, merge_sort_Permutation, elem_of_elements. set_solver.
Qed.

(** The tombstones a directory holds. *)
Definition tombs (files : Files) (ids : gset string) : Prop :=
  (forall id, id ∈ ids -> clean id) /\ id_size ids <= MAX_BYTES /\
  files !! TOMBSTONE_FILENAME = (if decide (ids = ∅) then None else Some (tombstone_text ids)).

Lemma load_tombstones_pass w ids : w_faults w = [] -> tombs (w_files w) ids -> load_tombstones w = (w, Ok ids).
Proof.
  intros Hf (Hc & Hs & Ht). unfold load_tombstones, attempt, mbind, fs_bind. rewrite open_read_pass by done. rewrite Ht. case_decide as E.
  - cbn. by rewrite E.
  - unfold with_error. rewrite file_len_pass by done. unfold contents. rewrite Ht. cbn [default id map_err from_option]. rewrite decide_False by (unfold id_size in Hs; lia).
    rewrite call_pass by done. cbn [map_err]. rewrite read_to_end_pass by done. unfold contents. rewrite Ht. cbn [default id map_err from_option]. unfold lift. by rewrite scan_tombstone_text.
Qed.

Lemma tombs_same files files' ids : files !! TOMBSTONE_FILENAME = files' !! TOMBSTONE_FILENAME -> tombs files ids -> tombs files' ids.
Proof. intros E (H1 & H2 & H3). split_and!; [done..|]. congruence. Qed.

Lemma tombs_view files files' ids : view files = view files' -> tombs files ids -> tombs files' ids.
Proof. unfold view. intros [= _ E]. by apply tombs_same. Qed.

Lemma tombs_entombed files ids : (forall id, id ∈ ids -> clean id) -> id_size ids <= MAX_BYTES -> tombs (entombed files ids) ids.
Proof. intros H1 H2. split_and!; [done..|]. unfold entombed. case_decide; [apply lookup_delete_eq|apply lookup_insert_eq]. Qed.

Lemma entombed_journal files ids : entombed files ids !! JOURNAL_FILENAME = files !! JOURNAL_FILENAME.
Proof. unfold entombed. case_decide; [by rewrite lookup_delete_ne|by rewrite lookup_insert_ne]. Qed.

End ActivityTombs.

(** * Opening a journal

    What [Journal::open] recovers from the two files when no call fails: the
    entries of the complete lines that are not entombed, and possibly the one
    whose newline was lost. *)

From S2P Require Import Prelude Utf8 JsonText Json GoJson UploadIndex Fs Activity ActivityStore ActivityFiles.

Module ActivityLoad.
Import Fs Activity ActivityStore ActivityFiles ActivityReplay ActivityTombs.

Section Load.
Context `{FT : GoJson.FloatText} `{DJ : UploadIndex.DocumentJson}.

(** What stands after the last newline of the file, and its entries. *)
Inductive piece : bytes -> list ActivityEntry -> Prop :=
| piece_none : piece [] []
| piece_cut e n : entry_ok e -> short e -> (n < length (entry_text e))%nat -> piece (take n (entry_text e)) []
| piece_whole e : entry_ok e -> short e -> piece (entry_text e) [e].

Lemma piece_inline p extra : piece p extra -> 10 ∉ p.
Proof.
  intros [|e n (He & _)|e (He & _)]; [apply not_elem_of_nil| |by apply to_vec_inline]. intros Hin. apply elem_of_take in Hin as (i & Hi & _).
  apply list_elem_of_lookup_2 in Hi. by apply to_vec_inline in Hi.
Qed.

Lemma piece_scan ids p extra seq acc b : piece p extra ->
  scan_lines ids [p] (seq, acc, b) = Ok (foldl bump_sequence seq (ae_id <$> extra), acc ++ filter (fun e => ae_id e ∉ ids) extra, b).
Proof.
  intros [|e n He Hs Hn|e He Hs].
  - cbn. by rewrite app_nil_r.
  - rewrite scan_cut by done. cbn. by rewrite app_nil_r.
  - pose proof (scan_entries ids [e] [] seq acc b) as E. cbn [fmap list_fmap app] in E. rewrite E by (by apply Forall_singleton). done.
Qed.

(** The directory holds exactly these entries, and no tombstone. *)
Definition holds (files : Files) (es : list ActivityEntry) : Prop :=
  files !! JOURNAL_FILENAME = Some (journal_text es) /\ files !! TOMBSTONE_FILENAME = None.

Definition survivors (ids : gset string) (es : list ActivityEntry) : list ActivityEntry := filter (fun e => ae_id e ∉ ids) es.

Definition within_bounds (es : list ActivityEntry) : Prop := (length es <= MAX_ITEMS)%nat /\ total (rows_of es) <= MAX_BYTES.

Lemma survivors_bounds ids es : within_bounds es -> within_bounds (survivors ids es).
Proof. intros [H1 H2]. split; [pose proof (length_filter (fun e => ae_id e ∉ ids) es); unfold survivors; lia|]. pose proof (total_filter (fun e => ae_id e ∉ ids) es). unfold survivors. lia. Qed.

Lemma survivors_none es : survivors ∅ es = es.
Proof. unfold survivors. induction es as [|e es IH]; [done|]. rewrite filter_cons_True by set_solver. by rewrite IH. Qed.

Lemma length_rows es : length (rows_of es) = length es.
Proof. apply length_fmap. Qed.

Lemma journal_length es : Z.of_nat (length (journal_text es)) = total (rows_of es).
Proof. apply length_journal. Qed.

Lemma rows_total_app es fs : total (rows_of (es ++ fs)) = total (rows_of es) + total (rows_of fs).
Proof. rewrite <- !journal_length. unfold journal_text. rewrite fmap_app, concat_app, length_app. apply Nat2Z.inj_add. Qed.

Lemma piece_length p extra : piece p extra -> p <> [] -> Z.of_nat (length p) <> total (rows_of extra).
Proof.
  intros [|e n He Hs Hn|e He Hs] Hne; [done|..].
  - destruct n; [done|]. rewrite length_take, Nat.min_l by lia. change (total (rows_of [])) with 0. lia.
  - unfold rows_of, total. cbn [fmap list_fmap foldr fst]. rewrite encode_line_text, length_app. cbn [length]. lia.
Qed.

Lemma piece_exact p extra : piece p extra -> Z.of_nat (length p) = total (rows_of extra) -> p = [] /\ extra = [].
Proof.
  intros Hp E. destruct (decide (p = [])) as [->|Hne]; [|by apply piece_length in E]. split; [done|]. by inversion Hp.
Qed.

(** The last step of [load]: the tombstones go away. *)
Lemma clean_pass w ids context : w_faults w = [] -> tombs (w_files w) ids ->
  exists w', (if decide (ids = ∅) then mret tt else with_error (io_err context) (write_tombstones ∅)) w = (w', Ok tt) /\ w_faults w' = [] /\
    w_files w' !! JOURNAL_FILENAME = w_files w !! JOURNAL_FILENAME /\ w_files w' !! TOMBSTONE_FILENAME = None.
Proof.
  intros Hf (_ & _ & Ht). case_decide as E; [by eexists|]. destruct (write_tombstones_pass ∅ w Hf (or_introl eq_refl)) as (w' & Ew & Hf' & _ & V).
  exists w'. unfold with_error. rewrite Ew. unfold view in V. injection V as -> ->. rewrite entombed_journal. split_and!; [done..|].
  unfold entombed. rewrite decide_True by done. apply lookup_delete_eq.
Qed.

Lemma load_file w ids es p extra seq : w_faults w = [] -> fresh ".activity.jsonl" w -> tombs (w_files w) ids ->
  w_files w !! JOURNAL_FILENAME = Some (journal_text es ++ p) -> piece p extra -> Forall entry_ok es -> Forall short es ->
  Z.of_nat (length (journal_text es ++ p)) <= MAX_BYTES * 4 -> within_bounds (survivors ids (es ++ extra)) ->
  exists w', load seq w = (w', Ok (foldl bump_sequence seq (ae_id <$> es ++ extra), mkInner (rows_of (survivors ids (es ++ extra))) (total (rows_of (survivors ids (es ++ extra)))))) /\
    w_faults w' = [] /\ holds (w_files w') (survivors ids (es ++ extra)).
Proof.
  intros Hf Hn Ht Hj Hp Hes Hss Hsize [Hb1 Hb2]. unfold load, mbind, fs_bind. rewrite (load_tombstones_pass w ids) by done. unfold attempt. rewrite open_read_pass by done. rewrite Hj.
  unfold with_error at 1. rewrite file_len_pass by done. unfold contents. rewrite Hj. cbn [default from_option id map_err]. rewrite decide_False by lia.
  unfold with_error at 1. rewrite read_to_end_pass by done. unfold contents. rewrite Hj. cbn [default from_option id map_err]. rewrite take_ge by lia.
  rewrite split_journal by (done || by eapply piece_inline). rewrite scan_entries by done. rewrite (piece_scan _ _ _ _ _ _ Hp). unfold lift at 1.
  rewrite <- foldl_app, <- fmap_app, app_nil_l, <- filter_app. fold (survivors ids (es ++ extra)). set (kept := survivors ids (es ++ extra)) in *.
  unfold lift at 1. rewrite retain_all by done. cbn [map_err]. rewrite rows_entries, length_rows. set (dirty := _ || _).
  assert (Hc : exists w1, (if dirty then with_error (io_err "compact activity journal") (fun w => match compact kept w with (w', Ok a) => (mret tt : Fs unit) w' | (w', Err e) => (w', Err e) end) else mret tt) w = (w1, Ok tt)
    /\ w_faults w1 = [] /\ w_files w1 !! JOURNAL_FILENAME = Some (journal_text kept) /\ tombs (w_files w1) ids).
  { destruct dirty eqn:E.
    - destruct (compact_pass kept w Hf Hn) as (w1 & Ec & Hf1 & _ & V). exists w1. unfold with_error. rewrite Ec. injection V as V1 V2. rewrite V1, lookup_insert_eq.
      split_and!; [done..|]. eapply tombs_same; [|exact Ht]. by rewrite V2, lookup_insert_ne.
    - exists w. split_and!; [done..| |done]. apply orb_false_iff in E as [E1 E2]. apply bool_decide_eq_false in E1, E2.
      assert (ids = ∅) as -> by (destruct (decide (ids = ∅)); [done|exfalso; tauto]). unfold kept in *. rewrite survivors_none in *. rewrite Hj. f_equal.
      destruct (piece_exact p extra Hp) as [-> ->]; [|by rewrite !app_nil_r].
      assert (E3 : total (rows_of (es ++ extra)) = Z.of_nat (length (journal_text es ++ p))) by lia.
      rewrite length_app, Nat2Z.inj_add, journal_length, rows_total_app in E3. lia. }
  destruct Hc as (w1 & E1 & Hf1 & Hj1 & Ht1). rewrite E1. destruct (clean_pass w1 ids "clean recovered activity tombstones" Hf1 Ht1) as (w2 & E2 & Hf2 & Hj2 & Ht2). rewrite E2.
  eexists. split; [reflexivity|]. split; [done|]. split; [congruence|done].
Qed.

Lemma load_none w ids seq : w_faults w = [] -> tombs (w_files w) ids -> w_files w !! JOURNAL_FILENAME = None ->
  exists w', load seq w = (w', Ok (seq, empty_inner)) /\ w_faults w' = [] /\ w_files w' !! JOURNAL_FILENAME = None /\ w_files w' !! TOMBSTONE_FILENAME = None.
Proof.
  intros Hf Ht Hj. unfold load, mbind, fs_bind. rewrite (load_tombstones_pass w ids) by done. unfold attempt. rewrite open_read_pass by done. rewrite Hj. cbn [e_kind not_found].
  rewrite decide_True by done. destruct (clean_pass w ids "clean orphaned activity tombstones" Hf Ht) as (w' & E & Hf' & Hj' & Ht'). rewrite E. eexists. split; [reflexivity|].
  split_and!; [done| |done]. congruence.
Qed.

(** ** Reopening *)

(** A directory from which the next process recovers [es]. *)
Definition recovers (files : Files) (es : list ActivityEntry) : Prop :=
  exists ids, tombs files ids /\ ((files !! JOURNAL_FILENAME = None /\ es = []) \/
    exists complete p extra, files !! JOURNAL_FILENAME = Some (journal_text complete ++ p) /\ piece p extra /\ Forall entry_ok complete /\ Forall short complete /\
      Z.of_nat (length (journal_text complete ++ p)) <= MAX_BYTES * 4 /\ within_bounds es /\ es = survivors ids (complete ++ extra)).

Lemma recovers_view files files' es : view files = view files' -> recovers files es -> recovers files' es.
Proof.
  intros V (ids & Ht & H). exists ids. split; [by eapply tombs_view|]. injection V as V1 V2. rewrite V1 in H. exact H.
Qed.

(** The recovered journal: what [open] returns and what it leaves. *)
Lemma open_recovers files es seq w : recovers files es -> w_files w = files -> w_faults w = [] -> fresh ".activity.jsonl" w ->
  exists w' j, open seq w = (w', Ok j) /\ j_inner j = mkInner (rows_of es) (total (rows_of es)) /\ j_durable j = true /\ w_faults w' = [] /\
    recovers (w_files w') es.
Proof.
  intros (ids & Ht & H) <- Hf Hn. unfold open, set_mode, with_error, mbind, fs_bind. rewrite !call_pass by done. cbn [map_err].
  assert (Hnone : forall f, f !! TOMBSTONE_FILENAME = None -> tombs f ∅) by (intros f E; split_and!; [set_solver|by vm_compute|by rewrite decide_True]).
  destruct H as [[Hj ->]|(complete & p & extra & Hj & Hp & Hok & Hsh & Hlen & Hb & ->)].
  - destruct (load_none w ids seq Hf Ht Hj) as (w' & E & Hf' & Hj' & Ht'). rewrite E. eexists _, _. split; [reflexivity|]. split_and!; [done..|].
    exists ∅. split; [by apply Hnone|]. by left.
  - destruct (load_file w ids complete p extra seq Hf Hn Ht Hj Hp Hok Hsh Hlen Hb) as (w' & E & Hf' & Hj' & Ht'). rewrite E. eexists _, _. split; [reflexivity|]. split_and!; [done..|].
    exists ∅. split; [by apply Hnone|]. right. exists (survivors ids (complete ++ extra)), [], []. rewrite !app_nil_r. split; [done|]. split; [constructor|].
    assert (Hall : Forall (fun e => entry_ok e /\ short e) (complete ++ extra)).
    { apply Forall_app. split; [by apply Forall_and|]. destruct Hp; [constructor|constructor|by apply Forall_singleton]. }
    assert (Hk : Forall (fun e => entry_ok e /\ short e) (survivors ids (complete ++ extra))).
    { apply Forall_forall. intros e [_ Hin]%list_elem_of_filter. rewrite Forall_forall in Hall. by apply Hall. }
    apply Forall_and in Hk as [Hk1 Hk2].
    split_and!; [done..| |done|by rewrite survivors_none]. rewrite journal_length. destruct Hb as [_ Hb]. unfold MAX_BYTES in *. lia.
Qed.

End Load.
End ActivityLoad.
