(* ===== verification/ActivityCrash.v ===== *)
(** * The journal across crashes

    [append_durable], [discard] and [try_clear] seen from the next process: at
    every point, whatever calls fail, the files give back the ring before the
    operation or the ring after it. *)

From S2P Require Import Prelude Utf8 JsonText Json GoJson UploadIndex Fs Activity ActivityStore ActivityFiles ActivityReplay.

Module ActivityCrash.
Import Utf8 JsonText Fs Activity ActivityStore ActivityFiles ActivityReplay ActivityTombs ActivityLoad.

Section Crash.
Context `{FT : GoJson.FloatText} `{DJ : UploadIndex.DocumentJson}.

Definition ring (es : list ActivityEntry) : Inner := mkInner (rows_of es) (total (rows_of es)).

(** ** The ring of an append *)

Definition latest (es : list ActivityEntry) : list ActivityEntry := drop (length es - MAX_ITEMS) es.

Fixpoint lighten (es : list ActivityEntry) : list ActivityEntry :=
  match es with
  | e :: ((_ :: _) as rest) => if decide (MAX_BYTES < total (rows_of es)) then lighten rest else es
  | _ => es
  end.

Lemma lighten_cons e e' es : lighten (e :: e' :: es) = if decide (MAX_BYTES < total (rows_of (e :: e' :: es))) then lighten (e' :: es) else e :: e' :: es.
Proof. done. Qed.

(** What the bounds leave of [es] and a new entry. *)
Definition pushed (es : list ActivityEntry) (e : ActivityEntry) : list ActivityEntry := lighten (latest (es ++ [e])).

Lemma rows_app es fs : rows_of (es ++ fs) = rows_of es ++ rows_of fs.
Proof. apply fmap_app. Qed.

Lemma rows_drop n es : drop n (rows_of es) = rows_of (drop n es).
Proof. unfold rows_of. by rewrite fmap_drop. Qed.

Lemma total_cons e es : total (rows_of (e :: es)) = Z.of_nat (length (encode_line e)) + total (rows_of es).
Proof. done. Qed.

Lemma drop_bytes_cons b r r' rows : drop_bytes b (r :: r' :: rows) = if decide (MAX_BYTES < b) then drop_bytes (b - r.1) (r' :: rows) else (r :: r' :: rows, b).
Proof. done. Qed.

Lemma drop_bytes_rows es : drop_bytes (total (rows_of es)) (rows_of es) = (rows_of (lighten es), total (rows_of (lighten es))).
Proof.
  induction es as [|e [|e' es] IH]; [done..|]. rewrite lighten_cons, total_cons. unfold rows_of at 2. cbn [fmap list_fmap]. rewrite drop_bytes_cons. cbn [fst].
  case_decide; [|by rewrite total_cons]. rewrite <- IH. unfold rows_of at 3. cbn [fmap list_fmap]. f_equal. lia.
Qed.

Lemma lighten_suffix es : exists dropped, es = dropped ++ lighten es.
Proof.
  induction es as [|e [|e' es] [d IH]]; [by exists []..|]. rewrite lighten_cons. case_decide; [|by exists []]. exists (e :: d). cbn [app]. by rewrite <- IH.
Qed.

Lemma pushed_suffix es e : exists dropped, es ++ [e] = dropped ++ pushed es e.
Proof.
  unfold pushed. destruct (lighten_suffix (latest (es ++ [e]))) as [d Hd]. exists (take (length (es ++ [e]) - MAX_ITEMS) (es ++ [e]) ++ d).
  rewrite <- app_assoc, <- Hd. unfold latest. by rewrite take_drop.
Qed.

Lemma lighten_bound es : Forall short es -> total (rows_of (lighten es)) <= MAX_BYTES.
Proof.
  induction es as [|e [|e' es] IH]; intros Hs; [done|..].
  - apply Forall_cons in Hs as [He _]. cbn [lighten]. rewrite total_cons. change (total (rows_of [])) with 0. unfold short in He. lia.
  - apply Forall_cons in Hs as [He Hs]. rewrite lighten_cons. case_decide; [by apply IH|lia].
Qed.

Lemma pushed_bounds es e : Forall short (es ++ [e]) -> within_bounds (pushed es e).
Proof.
  intros Hs. split.
  - unfold pushed. destruct (lighten_suffix (latest (es ++ [e]))) as [d Hd]. apply (f_equal length) in Hd. rewrite length_app in Hd. unfold latest in Hd at 1. rewrite length_drop in Hd. lia.
  - apply lighten_bound. unfold latest. by apply Forall_drop.
Qed.

Lemma lighten_id es : total (rows_of es) <= MAX_BYTES -> lighten es = es.
Proof. intros H. destruct es as [|e [|e' es]]; [done..|]. rewrite lighten_cons. by rewrite decide_False by lia. Qed.

Lemma encoded_len_line e : encoded_len e = Z.of_nat (length (encode_line e)).
Proof. unfold encoded_len, encode_line. rewrite length_app. cbn [length]. lia. Qed.

(** The ring kept without a file has the same contract. *)
Lemma append_ring_pushed es e : append_ring (ring es) e = ring (pushed es e).
Proof.
  unfold append_ring, ring. cbn [i_entries i_bytes]. rewrite encoded_len_line. change ((Z.of_nat (length (encode_line e)), e)) with ((fun e => (Z.of_nat (length (encode_line e)), e)) e).
  change (rows_of es ++ [_]) with (rows_of es ++ rows_of [e]). rewrite <- rows_app. unfold drop_oldest. rewrite !length_rows, rows_drop. fold (latest (es ++ [e])).
  assert (Et : total (rows_of es) + Z.of_nat (length (encode_line e)) - total (take (length (es ++ [e]) - MAX_ITEMS) (rows_of (es ++ [e]))) = total (rows_of (latest (es ++ [e])))).
  { unfold rows_of at 2. rewrite <- fmap_take. fold (rows_of (take (length (es ++ [e]) - MAX_ITEMS) (es ++ [e]))).
    pose proof (rows_total_app (take (length (es ++ [e]) - MAX_ITEMS) (es ++ [e])) (latest (es ++ [e]))) as Ht. unfold latest in Ht at 1. rewrite take_drop, rows_total_app, total_cons in Ht.
    change (total (rows_of [])) with 0 in Ht. lia. }
  rewrite Et, drop_bytes_rows. done.
Qed.

(** ** The files of an append *)

(** The files hold exactly the entries of the ring. *)
Definition synced (files : Files) (es : list ActivityEntry) : Prop :=
  (files !! JOURNAL_FILENAME = Some (journal_text es) \/ files !! JOURNAL_FILENAME = None /\ es = []) /\ files !! TOMBSTONE_FILENAME = None.

Definition good (es : list ActivityEntry) : Prop := Forall entry_ok es /\ Forall (fun e => clean (ae_id e)) es /\ within_bounds es.

Lemma no_tombs files : files !! TOMBSTONE_FILENAME = None -> tombs files ∅.
Proof. intros E. split_and!; [set_solver|by vm_compute|by rewrite decide_True]. Qed.

Lemma good_short es : good es -> Forall short es.
Proof. intros (_ & _ & _ & H). by apply total_short. Qed.

Lemma recovers_whole files es : good es -> files !! JOURNAL_FILENAME = Some (journal_text es) -> files !! TOMBSTONE_FILENAME = None -> recovers files es.
Proof.
  intros Hg Hj Ht. exists ∅. split; [by apply no_tombs|]. right. exists es, [], []. rewrite !app_nil_r. pose proof (good_short _ Hg). destruct Hg as (Hok & _ & Hb).
  split_and!; [done|constructor|done|done| |done|by rewrite survivors_none]. rewrite journal_length. destruct Hb as [_ Hb]. unfold MAX_BYTES in *. lia.
Qed.

Lemma synced_recovers files es : good es -> synced files es -> recovers files es.
Proof. intros Hg [[Hj|[Hj ->]] Ht]; [by apply recovers_whole|]. exists ∅. split; [by apply no_tombs|]. by left. Qed.

Lemma synced_view files files' es : view files = view files' -> synced files es -> synced files' es.
Proof. unfold view, synced. by intros [= -> ->]. Qed.

Lemma good_snoc es e : good es -> entry_ok e -> clean (ae_id e) -> within_bounds (es ++ [e]) -> good (es ++ [e]).
Proof. intros (H1 & H2 & _) He Hc Hb. split; [by apply Forall_app; split; [|apply Forall_singleton]|]. split; [by apply Forall_app; split; [|apply Forall_singleton]|done]. Qed.

Definition journal_before (files : Files) (es : list ActivityEntry) : Prop := contents files JOURNAL_FILENAME = journal_text es /\ files !! TOMBSTONE_FILENAME = None.

Lemma synced_before files es : synced files es -> journal_before files es.
Proof. intros [[Hj|[Hj ->]] Ht]; (split; [|done]); unfold contents; by rewrite Hj. Qed.

(** Any beginning of the new line. *)
Lemma recovers_partial files es e n : good es -> good (es ++ [e]) -> journal_before files es ->
  let f := appended files JOURNAL_FILENAME (encode_line e) n in recovers f es \/ recovers f (es ++ [e]).
Proof.
  intros Hg Hg' [Hj Ht] f. assert (Hfj : f !! JOURNAL_FILENAME = Some (journal_text es ++ take n (encode_line e))).
  { unfold f, appended. rewrite lookup_insert_eq. by rewrite Hj. }
  assert (Hft : f !! TOMBSTONE_FILENAME = None) by (unfold f, appended; by rewrite lookup_insert_ne).
  assert (He : entry_ok e) by (destruct Hg' as [H _]; apply Forall_app in H as [_ H]; apply Forall_cons in H as [H _]; exact H).
  assert (Hs : short e) by (pose proof (good_short _ Hg') as H; apply Forall_app in H as [_ H]; apply Forall_cons in H as [H _]; exact H).
  assert (Hlen : Z.of_nat (length (journal_text es ++ take n (encode_line e))) <= MAX_BYTES * 4).
  { rewrite length_app, length_take, Nat2Z.inj_add, journal_length. destruct Hg as (_ & _ & _ & Hb). unfold short, MAX_BYTES in *. lia. }
  pose proof (good_short _ Hg) as Hss. destruct (decide (n <= length (entry_text e))%nat) as [Hn|Hn].
  - assert (E : take n (encode_line e) = take n (entry_text e)) by (rewrite encode_line_text; by rewrite take_app_le). rewrite E in *.
    destruct (decide (n < length (entry_text e))%nat); [left|right]; exists ∅; (split; [by apply no_tombs|]); right; eexists es, (take n (entry_text e)), _; rewrite survivors_none;
      (split; [exact Hfj|]); destruct Hg as (Hok & _ & Hb), Hg' as (_ & _ & Hb').
    + split_and!; [by constructor|done..| |by rewrite app_nil_r]. done.
    + rewrite take_ge in * by lia. split_and!; [by constructor|done..].
  - right. apply recovers_whole; [done| |done]. rewrite Hfj. f_equal. rewrite take_ge by (rewrite encode_line_text, length_app; cbn [length]; lia).
    unfold journal_text. rewrite fmap_app, concat_app. cbn [fmap list_fmap concat]. by rewrite app_nil_r.
Qed.

Lemma open_append_run name w w' r : open_append name w = (w', r) ->
  (w_files w' = w_files w /\ w_trail w' = w_trail w) \/ (r = Ok tt /\ w_files w !! name = None /\ w_files w' = <[name := []]> (w_files w) /\ w_trail w' = w_trail w ++ [w_files w']).
Proof.
  unfold open_append, mbind, fs_bind, call, pop_fault, files_of. intros E.
  destruct (w_faults w) as [|[|k s n] faults]; cbn in E; [destruct (w_files w !! name) eqn:Hn..|]; cbn in E; injection E as <- <-; eauto 10.
Qed.

Lemma append_line_run es e w w' r : good es -> good (es ++ [e]) -> synced (w_files w) es -> append_line (encode_line e) w = (w', r) ->
  within (fun f => recovers f es \/ recovers f (es ++ [e])) w w' /\ (r = Ok tt -> synced (w_files w') (es ++ [e])).
Proof.
  intros Hg Hg' Hsync. set (P := fun f => recovers f es \/ recovers f (es ++ [e])). assert (H0 : P (w_files w)) by (left; by apply synced_recovers).
  unfold append_line, mbind, fs_bind, with_error at 1. destruct (open_append JOURNAL_FILENAME w) as [w1 r1] eqn:E1.
  assert (H1 : within P w w1 /\ journal_before (w_files w1) es).
  { destruct (open_append_run _ _ _ _ E1) as [[F T]|(-> & Hn & F & T)]; [split; [by apply within_same|rewrite F; by apply synced_before]|].
    destruct Hsync as [[Hj|[_ ->]] Ht]; [congruence|].
    assert (Hh : w_files w1 !! JOURNAL_FILENAME = Some (journal_text []) /\ w_files w1 !! TOMBSTONE_FILENAME = None) by (rewrite F, lookup_insert_eq, lookup_insert_ne by done; done).
    destruct Hh as [Hj1 Ht1]. split; [|split; [unfold contents; by rewrite Hj1|done]]. apply within_put; [left; by apply recovers_whole|done]. }
  destruct H1 as [W1 HB1]. destruct r1 as [[]|]; cbn [map_err]; [|intros [= <- <-]; by split].
  unfold with_error at 1. destruct (call w1) as [w2 r2] eqn:E2. destruct (call_run _ _ _ E2) as [F2 T2].
  assert (W2 : within P w w2) by (eapply within_trans; [exact W1|]; apply within_same; [apply W1|done|done]).
  destruct r2 as [[]|]; cbn [map_err]; [|intros [= <- <-]; by split]. rewrite <- F2 in HB1. unfold with_error.
  destruct (write_all JOURNAL_FILENAME (encode_line e) w2) as [w3 r3] eqn:E3. destruct (write_all_run _ _ _ _ _ E3) as [Hr3 (n & F3 & T3)].
  assert (W3 : within P w w3).
  { eapply within_trans; [exact W2|]. split; [rewrite F3; by apply recovers_partial|]. eexists. split; [exact T3|]. apply Forall_forall. intros f (k & -> & _)%list_elem_of_fmap.
    by apply recovers_partial. }
  destruct Hr3 as [[-> F3']|(err & m & -> & _)]; cbn [map_err]; [|intros [= <- <-]; by split].
  destruct (call w3) as [w4 r4] eqn:E4. destruct (call_run _ _ _ E4) as [F4 T4]. intros [= <- <-].
  split; [eapply within_trans; [exact W3|]; apply within_same; [apply W3|done|done]|]. intros _. rewrite F4, F3'. destruct HB1 as [Hj Ht]. split.
  - left. unfold appended. rewrite lookup_insert_eq, Hj, take_ge by lia. f_equal. unfold journal_text. rewrite fmap_app, concat_app. cbn [fmap list_fmap concat]. by rewrite app_nil_r.
  - unfold appended. by rewrite lookup_insert_ne.
Qed.

Lemma good_pushed es e : good es -> entry_ok e -> clean (ae_id e) -> short e -> good (pushed es e).
Proof.
  intros Hg He Hc Hs. pose proof (good_short _ Hg) as Hss. destruct Hg as (H1 & H2 & _). destruct (pushed_suffix es e) as [d Hd].
  assert (A1 : Forall entry_ok (es ++ [e])) by (apply Forall_app; split; [done|by apply Forall_cons]).
  assert (A2 : Forall (fun e => clean (ae_id e)) (es ++ [e])) by (apply Forall_app; split; [done|by apply Forall_cons]).
  assert (A3 : Forall short (es ++ [e])) by (apply Forall_app; split; [done|by apply Forall_cons]).
  rewrite Hd in A1, A2. apply Forall_app in A1 as [_ A1], A2 as [_ A2]. split; [done|]. split; [done|]. by apply pushed_bounds.
Qed.

Lemma pushed_fits es e : (length es < MAX_ITEMS)%nat -> total (rows_of es) + Z.of_nat (length (encode_line e)) <= MAX_BYTES -> pushed es e = es ++ [e].
Proof.
  intros Hn Hb. unfold pushed, latest. rewrite length_app. cbn [length]. replace (length es + 1 - MAX_ITEMS)%nat with 0%nat by lia. rewrite drop_0.
  apply lighten_id. rewrite rows_total_app, total_cons. change (total (rows_of [])) with 0. lia.
Qed.

Lemma synced_rewritten files es : files !! TOMBSTONE_FILENAME = None -> synced (rewritten files JOURNAL_FILENAME (journal_text es)) es.
Proof. intros Ht. split; [left; apply lookup_insert_eq|by rewrite lookup_insert_ne]. Qed.

Lemma append_durable_run es e w w' r : good es -> entry_ok e -> clean (ae_id e) -> short e -> synced (w_files w) es -> append_durable (ring es) e w = (w', r) ->
  within (fun f => recovers f es \/ recovers f (pushed es e)) w w' /\ (forall inner, r = Ok inner -> inner = ring (pushed es e) /\ synced (w_files w') (pushed es e)).
Proof.
  intros Hg He Hc Hs Hsync. pose proof (good_pushed es e Hg He Hc Hs) as Hg'. unfold append_durable. cbn [ring i_entries i_bytes]. rewrite length_rows.
  unfold short in Hs. rewrite decide_False by lia. case_decide as Hfit.
  - destruct Hfit as [Hn Hb]. rewrite (pushed_fits es e Hn Hb) in *. unfold mbind, fs_bind. destruct (append_line (encode_line e) w) as [w1 r1] eqn:E1.
    destruct (append_line_run es e w w1 r1 Hg Hg' Hsync E1) as [W H]. destruct r1 as [[]|]; intros [= <- <-]; (split; [exact W|]); [|done].
    intros inner [= <-]. split; [|by apply H]. unfold ring. rewrite rows_total_app, rows_app. change (total (rows_of [e])) with (Z.of_nat (length (encode_line e)) + 0). by rewrite Z.add_0_r.
  - change (rows_of es ++ [_]) with (rows_of es ++ rows_of [e]). rewrite <- rows_app. unfold drop_oldest. rewrite length_rows, rows_drop. fold (latest (es ++ [e])).
    rewrite drop_bytes_rows. cbn [fst]. fold (pushed es e). rewrite rows_entries. unfold mbind, fs_bind. destruct (compact (pushed es e) w) as [w1 r1] eqn:E1.
    destruct (compact_run _ _ _ _ E1) as [W H]. pose proof (synced_rewritten (w_files w) (pushed es e) (proj2 Hsync)) as Hs'.
    assert (W' : within (fun f => recovers f es \/ recovers f (pushed es e)) w w1).
    { eapply within_mono; [|exact W]. intros f [V|V]; [left|right]; (eapply recovers_view; [symmetry; exact V|]); by apply synced_recovers. }
    destruct r1 as [n|]; intros [= <- <-]; (split; [exact W'|]); [|done]. destruct (H eq_refl) as [[= ->] V]. intros inner [= <-].
    split; [unfold ring; by rewrite journal_length|]. by eapply synced_view.
Qed.

(** ** Dooming entries *)

(** [discard_files] and [clear_files] after reading the old tombstones, of which
    there are none. *)
Definition doom (ids : gset string) (kept : list ActivityEntry) : Fs unit :=
  _ ← write_tombstones ids;
  r ← attempt (compact kept);
  match r with
  | Err e => _ ← write_tombstones ∅; fail e
  | Ok _ => _ ← attempt (write_tombstones ∅); mret tt
  end.

Section Doom.
Context (es : list ActivityEntry) (ids : gset string) (Hg : good es) (Hclean : forall id, id ∈ ids -> clean id) (Hsize : id_size ids <= MAX_BYTES).

Abbreviation kept := (survivors ids es).

Lemma good_kept : good kept.
Proof.
  destruct Hg as (H1 & H2 & H3). assert (Hin : forall e, e ∈ kept -> e ∈ es) by (intros e [_ ?]%list_elem_of_filter; done). rewrite Forall_forall in H1, H2.
  split; [apply Forall_forall; auto|]. split; [apply Forall_forall; auto|]. by apply survivors_bounds.
Qed.

(** The files during the operation: the journal whole or reduced, the
    tombstones written or not. *)
Definition dooming (f : Files) : Prop :=
  (f !! JOURNAL_FILENAME = Some (journal_text es) \/ f !! JOURNAL_FILENAME = None /\ es = [] \/ f !! JOURNAL_FILENAME = Some (journal_text kept)) /\
  (f !! TOMBSTONE_FILENAME = None \/ tombs f ids).

Lemma dooming_recovers f : dooming f -> recovers f es \/ recovers f kept.
Proof.
  pose proof good_kept as Hk. pose proof (good_short _ Hg) as Hs. intros [Hj [Ht|Ht]].
  - destruct Hj as [Hj|[[Hj E]|Hj]]; [left; by apply synced_recovers; [|split; [left|]]|left; apply synced_recovers; [done|]; split; [by right|done]|right; by apply recovers_whole].
  - right. exists ids. split; [done|]. destruct Hj as [Hj|[[Hj E]|Hj]].
    + right. exists es, [], []. rewrite !app_nil_r. destruct Hg as (H1 & _ & H2), Hk as (_ & _ & Hb). split_and!; [done|constructor|done|done| |done|done].
      rewrite journal_length. destruct H2 as [_ H2]. unfold MAX_BYTES in *. lia.
    + left. split; [done|]. by rewrite E.
    + right. exists kept, [], []. rewrite !app_nil_r. pose proof (good_short _ Hk). destruct Hk as (H1 & _ & H2). split_and!; [done|constructor|done|done| |done|].
      * rewrite journal_length. destruct H2 as [_ H2]. unfold MAX_BYTES in *. lia.
      * unfold survivors. rewrite list_filter_filter. apply list_filter_ext_in. tauto.
Qed.

Lemma dooming_view f f' : view f = view f' -> dooming f -> dooming f'.
Proof. unfold view, dooming, tombs. by intros [= -> ->]. Qed.

Lemma dooming_entombed f ids' : ids' = ids \/ ids' = ∅ -> dooming f -> dooming (entombed f ids').
Proof.
  intros Hids [Hj _]. split; [by rewrite entombed_journal|]. destruct Hids as [->| ->]; [right; by apply tombs_entombed|].
  left. unfold entombed. rewrite decide_True by done. apply lookup_delete_eq.
Qed.

Lemma keeps_doom_tombs ids' : ids' = ids \/ ids' = ∅ -> keeps dooming (write_tombstones ids').
Proof.
  intros Hids w Hw. destruct (write_tombstones ids' w) as [w' r] eqn:E. cbn [fst]. destruct (write_tombstones_run _ _ _ _ E) as [W _].
  eapply within_mono; [|exact W]. intros f [V|V]; (eapply dooming_view; [symmetry; exact V|]); [done|by apply dooming_entombed].
Qed.

Lemma keeps_doom_compact : keeps dooming (compact kept).
Proof.
  intros w Hw. destruct (compact kept w) as [w' r] eqn:E. cbn [fst]. destruct (compact_run _ _ _ _ E) as [W _].
  eapply within_mono; [|exact W]. intros f [V|V]; (eapply dooming_view; [symmetry; exact V|]); [done|]. destruct Hw as [_ Ht]. split; [right; right; apply lookup_insert_eq|].
  unfold tombs in *. by rewrite lookup_insert_ne.
Qed.

#[local] Hint Resolve keeps_doom_tombs keeps_doom_compact : keeps.

Lemma keeps_doom : keeps dooming (doom ids kept).
Proof.
  unfold doom. apply keeps_bind; [auto with keeps|]. intros _. apply keeps_bind; [auto with keeps|]. intros [n|e]; auto 6 with keeps.
Qed.

Lemma synced_dooming f : synced f es -> dooming f.
Proof. intros [[Hj|Hj] Ht]; (split; [|by left]); tauto. Qed.

Lemma doom_pass w : tidy w -> w_faults w = [] ->
  exists w', doom ids kept w = (w', Ok tt) /\ w_faults w' = [] /\ tidy w' /\ synced (w_files w') kept.
Proof.
  intros Ht Hf. assert (Hp1 : hidden ".activity.tombstones") by (by eexists). assert (Hp2 : hidden ".activity.jsonl") by (by eexists).
  unfold doom, mbind, fs_bind, attempt. destruct (write_tombstones_pass ids w Hf (or_intror (tidy_fresh _ _ Hp1 Ht))) as (w1 & E1 & F1 & T1 & V1). rewrite E1. specialize (T1 Ht).
  destruct (compact_pass kept w1 F1 (tidy_fresh _ _ Hp2 T1)) as (w2 & E2 & F2 & T2 & V2). rewrite E2. specialize (T2 T1).
  destruct (write_tombstones_pass ∅ w2 F2 (or_introl eq_refl)) as (w3 & E3 & F3 & T3 & V3). rewrite E3. exists w3. split_and!; [done..|by apply T3|].
  eapply synced_view; [symmetry; exact V3|]. split; [left|unfold entombed; rewrite decide_True by done; apply lookup_delete_eq]. rewrite entombed_journal. injection V2 as -> _. apply lookup_insert_eq.
Qed.

End Doom.

(** [load_tombstones] where there are none. *)
Lemma load_no_tombstones w w' r : w_files w !! TOMBSTONE_FILENAME = None -> load_tombstones w = (w', r) ->
  w_files w' = w_files w /\ w_trail w' = w_trail w /\ (r = Ok ∅ \/ exists e, r = Err e) /\ (w_faults w = [] -> r = Ok ∅ /\ w' = w).
Proof.
  intros Hn. unfold load_tombstones, attempt, open_read, mbind, fs_bind, call, pop_fault, files_of. destruct (w_faults w) as [|[|k s n] faults] eqn:Hf; cbn; rewrite ?Hn; cbn.
  - intros [= <- <-]. eauto 10.
  - intros [= <- <-]. split_and!; eauto; done.
  - destruct k; cbn; intros [= <- <-]; split_and!; eauto; done.
Qed.

End Crash.
End ActivityCrash.

(** * The journal's contract

    The operations of [Journal] as one state machine.  A durable journal
    behaves like the in-memory one ([Journal::default]); at every crash point
    the next process finds the ring before or after the operation; the ring
    stays within its bounds; ids are not reissued. *)

From S2P Require Import Prelude Utf8 JsonText Json JsonWire GoJson Inbound UploadTime UploadIndex Fs Activity ActivityStore ActivityFiles ActivityReplay.

Module ActivityJournal.
Import Utf8 JsonText Json Fs Activity ActivityStore ActivityFiles ActivityReplay ActivityTombs ActivityLoad ActivityCrash.

(** ** An id is shorter than its entry *)

Lemma escape_char_length c : 0 <= c -> (length (encode_char c) <= length (utf8_encode (escape_char c)))%nat.
Proof.
  intros Hc. unfold escape_char. do 10 (case_decide; [subst; vm_compute; lia|]). case_decide.
  - unfold encode_char at 1. rewrite decide_True by lia. unfold hex4, utf8_encode. rewrite bind_cons, length_app. cbn [length]. vm_compute (length (encode_char backslash)). lia.
  - unfold utf8_encode. cbn [mbind list_bind]. rewrite app_nil_r. lia.
Qed.

Lemma escape_length s : utf8_string s -> (length (as_bytes s) + 2 <= length (utf8_encode (escape_string [] (Utf8.chars s))))%nat.
Proof.
  intros Hs. unfold escape_string. cbn [app]. change (quote :: ?x) with ([quote] ++ x). rewrite !utf8_encode_app, !length_app. change (length (utf8_encode [quote])) with 1%nat.
  rewrite <- (encode_chars s Hs) at 1. pose proof (chars_scalar s Hs) as Hc. induction Hc as [|c cs Hc _ IH]; [done|].
  unfold utf8_encode in *. rewrite !bind_cons, bind_app, !length_app. pose proof (escape_char_length c ltac:(unfold is_scalar in Hc; lia)) as He. unfold utf8_encode in He. lia.
Qed.

Section Contract.
Context `{FT : GoJson.FloatText} `{DJ : UploadIndex.DocumentJson}.

Lemma id_short e : entry_ok e -> (length (as_bytes (ae_id e)) + 1 <= length (encode_line e))%nat.
Proof.
  intros (Hp & _). destruct Hp as [[_ Hid] _]. cbn [snd printable] in Hid. pose proof (escape_length _ Hid) as Hl. rewrite encode_line_text, length_app. cbn [length].
  assert (Ht : exists pre post, GoJson.value_text (entry_json e) = pre ++ escape_string [] (Utf8.chars (ae_id e)) ++ post).
  { exists ([123] ++ escape_string [] (Utf8.chars "id") ++ [58]). eexists. unfold entry_json, entry_members. cbn [GoJson.value_text app fmap list_fmap fst snd GoJson.join].
    rewrite <- !app_assoc. cbn [app]. rewrite <- !app_assoc. cbn [app]. reflexivity. }
  destruct Ht as (pre & post & Ht). unfold entry_text, GoJson.to_vec. rewrite Ht, !utf8_encode_app, !length_app. lia.
Qed.

Definition ids_of (es : list ActivityEntry) : gset string := list_to_set (ae_id <$> es).

Definition line_sizes (l : list string) : nat := foldr (fun id n => length (as_bytes id) + 1 + n)%nat 0%nat l.

Lemma line_sizes_perm l k : l ≡ₚ k -> line_sizes l = line_sizes k.
Proof. induction 1; cbn [line_sizes foldr] in *; unfold line_sizes in *; lia. Qed.

Lemma id_size_sum ids : (forall id, id ∈ ids -> clean id) -> id_size ids = Z.of_nat (line_sizes (elements ids)).
Proof.
  intros Hc. unfold id_size. rewrite tombstone_text_clean by done. f_equal. rewrite <- (line_sizes_perm (sorted_ids ids)) by apply merge_sort_Permutation.
  induction (sorted_ids ids) as [|id l IH]; [done|]. cbn [fmap list_fmap concat line_sizes foldr]. rewrite !length_app. cbn [length]. rewrite IH. unfold line_sizes. lia.
Qed.

Lemma line_sizes_set (l : list string) : (line_sizes (elements (list_to_set l : gset string)) <= line_sizes l)%nat.
Proof.
  induction l as [|x l IH]; [by vm_compute|]. cbn [list_to_set foldr]. change (foldr _ ∅ l) with (list_to_set l : gset string).
  destruct (decide (x ∈ (list_to_set l : gset string))) as [Hx|Hx].
  - replace ({[x]} ∪ list_to_set l : gset string) with (list_to_set l : gset string) by set_solver. cbn [line_sizes foldr]. unfold line_sizes in *. lia.
  - rewrite (line_sizes_perm _ _ (elements_union_singleton _ _ Hx)). cbn [line_sizes foldr]. unfold line_sizes in *. lia.
Qed.

Lemma id_size_bound es (ids : list string) : good es -> ids ⊆+ (ae_id <$> es) -> id_size (list_to_set ids) <= MAX_BYTES.
Proof.
  intros Hg Hsub. assert (Hc : forall id, id ∈ (list_to_set ids : gset string) -> clean id).
  { intros id Hid%elem_of_list_to_set. eapply elem_of_submseteq in Hid; [|exact Hsub]. apply list_elem_of_fmap in Hid as (e & -> & He). destruct Hg as (_ & Hc & _). rewrite Forall_forall in Hc. by apply Hc. }
  rewrite id_size_sum by done. pose proof (line_sizes_set ids). assert (Hs : (line_sizes ids <= line_sizes (ae_id <$> es))%nat).
  { apply submseteq_Permutation in Hsub as [k Hk]. rewrite (line_sizes_perm _ _ Hk). clear. induction ids as [|x ids IH]; cbn [line_sizes foldr app]; unfold line_sizes in *; lia. }
  assert (Ht : Z.of_nat (line_sizes (ae_id <$> es)) <= total (rows_of es)).
  { destruct Hg as (Hok & _). clear -Hok. induction Hok as [|e es He _ IH]; [done|]. rewrite total_cons. cbn [fmap list_fmap line_sizes foldr]. pose proof (id_short _ He). unfold line_sizes in *. lia. }
  destruct Hg as (_ & _ & _ & Hb). lia.
Qed.

(** ** [discard_files] and [clear_files] *)

Lemma discard_files_keeps es id w w' r : good es -> id ∈ ae_id <$> es -> synced (w_files w) es ->
  discard_files id (survivors {[id]} es) w = (w', r) -> within (dooming es {[id]}) w w'.
Proof.
  intros Hg Hid Hs. assert (Hsub : [id] ⊆+ (ae_id <$> es)) by (by apply singleton_submseteq_l). pose proof (id_size_bound es [id] Hg Hsub) as Hsz. cbn [list_to_set foldr] in Hsz. rewrite (right_id_L ∅ (∪)) in Hsz.
  assert (Hcl : forall x, x ∈ ({[id]} : gset string) -> clean x).
  { intros x ->%elem_of_singleton. apply list_elem_of_fmap in Hid as (e & -> & He). destruct Hg as (_ & Hc & _). rewrite Forall_forall in Hc. by apply Hc. }
  pose proof (synced_dooming es {[id]} _ Hs) as Hd. unfold discard_files. unfold mbind at 1, fs_bind at 1. destruct (load_tombstones w) as [w1 r1] eqn:E1.
  destruct (load_no_tombstones _ _ _ (proj2 Hs) E1) as (F1 & T1 & [->|[e ->]] & _).
  - rewrite (right_id_L ∅ (∪)). intros E. assert (Hd1 : dooming es {[id]} (w_files w1)) by (by rewrite F1).
    assert (HE : (doom {[id]} (survivors {[id]} es) w1) = (w', r)) by exact E. pose proof (keeps_doom es {[id]} Hcl Hsz w1 Hd1) as W. rewrite HE in W.
    eapply within_trans; [apply within_same; [exact Hd|done|done]|exact W].
  - intros [= <- <-]. by apply within_same.
Qed.

Lemma discard_files_pass es id w : good es -> id ∈ ae_id <$> es -> synced (w_files w) es -> tidy w -> w_faults w = [] ->
  exists w', discard_files id (survivors {[id]} es) w = (w', Ok tt) /\ w_faults w' = [] /\ tidy w' /\ synced (w_files w') (survivors {[id]} es).
Proof.
  intros Hg Hid Hs Ht Hf. unfold discard_files. unfold mbind at 1, fs_bind at 1. destruct (load_tombstones w) as [w1 r1] eqn:E1.
  destruct (load_no_tombstones _ _ _ (proj2 Hs) E1) as (_ & _ & _ & H). destruct (H Hf) as [-> ->]. rewrite (right_id_L ∅ (∪)). exact (doom_pass es {[id]} w Ht Hf).
Qed.

Lemma survivors_all es : survivors (ids_of es) es = [].
Proof.
  unfold survivors. assert (H : forall l, (forall e, e ∈ l -> e ∈ es) -> filter (fun e => ae_id e ∉ ids_of es) l = []); [|by apply H].
  induction l as [|e l IH]; intros Hl; [done|]. rewrite filter_cons_False; [by apply IH; intros; apply Hl; right|]. intros Hn. apply Hn. unfold ids_of. rewrite elem_of_list_to_set. apply list_elem_of_fmap_2. apply Hl. left.
Qed.

Lemma ids_of_clean es : good es -> forall x, x ∈ ids_of es -> clean x.
Proof.
  intros (_ & Hc & _) x Hx%elem_of_list_to_set. apply list_elem_of_fmap in Hx as (e & -> & He). rewrite Forall_forall in Hc. by apply Hc.
Qed.

Lemma clear_files_keeps es w w' r : good es -> synced (w_files w) es -> clear_files (ids_of es) w = (w', r) -> within (dooming es (ids_of es)) w w'.
Proof.
  intros Hg Hs. pose proof (id_size_bound es (ae_id <$> es) Hg (reflexivity _)) as Hsz. fold (ids_of es) in Hsz. pose proof (ids_of_clean es Hg) as Hcl.
  pose proof (synced_dooming es (ids_of es) _ Hs) as Hd. unfold clear_files. unfold mbind at 1, fs_bind at 1. destruct (load_tombstones w) as [w1 r1] eqn:E1.
  destruct (load_no_tombstones _ _ _ (proj2 Hs) E1) as (F1 & T1 & [->|[e ->]] & _); [|intros [= <- <-]; by apply within_same].
  rewrite (right_id_L ∅ (∪)). intros E. assert (Hd1 : dooming es (ids_of es) (w_files w1)) by (by rewrite F1).
  eapply within_trans; [apply within_same; [exact Hd|done|done]|].
  pose proof (keeps_doom_tombs es (ids_of es) Hcl Hsz (ids_of es) (or_introl eq_refl)) as K1. pose proof (keeps_doom_tombs es (ids_of es) Hcl Hsz ∅ (or_intror eq_refl)) as K2.
  pose proof (keeps_doom_compact es (ids_of es)) as K3. rewrite survivors_all in K3.
  assert (K : keeps (dooming es (ids_of es)) (_ ← with_error (io_err "prepare activity clear") (write_tombstones (ids_of es)); r ← attempt (compact []);
    match r with
    | Ok _ => _ ← attempt (write_tombstones ∅); mret ()
    | Err e => restored ← attempt (write_tombstones ∅);
        match restored with
        | Ok _ => fail (io_err "clear activity journal" e)
        | Err restore => fail (mkIoError OtherKind ("clear activity journal: " +:+ e_text e +:+ "; restore activity tombstones: " +:+ e_text restore))
        end
    end)).
  { apply keeps_bind; [by apply keeps_with_error|]. intros _. apply keeps_bind; [by apply keeps_attempt|]. intros [n|e]; [apply keeps_bind; [by apply keeps_attempt|auto with keeps]|].
    apply keeps_bind; [by apply keeps_attempt|]. intros [?|?]; apply keeps_fail. }
  specialize (K w1 Hd1). rewrite E in K. exact K.
Qed.

Lemma clear_files_pass es w : good es -> synced (w_files w) es -> tidy w -> w_faults w = [] ->
  exists w', clear_files (ids_of es) w = (w', Ok tt) /\ w_faults w' = [] /\ tidy w' /\ synced (w_files w') [].
Proof.
  intros Hg Hs Ht Hf. unfold clear_files. unfold mbind at 1, fs_bind at 1. destruct (load_tombstones w) as [w1 r1] eqn:E1.
  destruct (load_no_tombstones _ _ _ (proj2 Hs) E1) as (_ & _ & _ & H). destruct (H Hf) as [-> ->]. rewrite (right_id_L ∅ (∪)).
  destruct (doom_pass es (ids_of es) w Ht Hf) as (w' & E & Hf' & Ht' & Hs'). rewrite survivors_all in *. exists w'. split; [|done].
  unfold doom, mbind, fs_bind, attempt, with_error in *. destruct (write_tombstones (ids_of es) w) as [w2 [[]|e]]; [|done]. cbn [map_err].
  destruct (compact [] w2) as [w3 [n|e]]; [exact E|]. destruct (write_tombstones ∅ w3) as [w4 [[]|e']]; done.
Qed.

(** ** The operations *)

Inductive JournalOp := DoRecord (e : NewEntry) | DoCommit (e : NewEntry) | DoPublish (entry : ActivityEntry) | DoDiscard (id : string) | DoClear.

Definition run_op (j : Journal) (op : JournalOp) (w : World) : World * Journal :=
  match op with
  | DoRecord e => let '(w, (j, _)) := record j e w in (w, j)
  | DoCommit e => let '(w, (j, _)) := commit j e w in (w, j)
  | DoPublish entry => (w, publish j entry)
  | DoDiscard id => discard j id w
  | DoClear => clear j w
  end.

(** The same journal without files. *)
Definition in_memory (j : Journal) : Journal := mkJournal (j_inner j) false (j_seq j) (j_listeners j) (j_sent j).

(** The entry an operation would append. *)
Definition stamped (j : Journal) (e : NewEntry) (w : World) : ActivityEntry := (stamp j e (read_clock w).2).2.

Definition admissible (j : Journal) (op : JournalOp) (w : World) : Prop :=
  match op with
  | DoRecord e | DoCommit e => entry_ok (stamped j e w) /\ clean (ae_id (stamped j e w)) /\ short (stamped j e w)
  | _ => True
  end.

Definition stored_as (es : list ActivityEntry) (j : Journal) (files : Files) : Prop := j_durable j = true /\ j_inner j = ring es /\ good es /\ synced files es.

(** Ring and files agree. *)
Definition stored (j : Journal) (files : Files) : Prop := exists es, stored_as es j files.

(** What the next process makes of a directory. *)
Definition reopens (files : Files) (inner : Inner) : Prop :=
  forall seq w, w_files w = files -> w_faults w = [] -> fresh ".activity.jsonl" w -> exists w' j, open seq w = (w', Ok j) /\ j_inner j = inner.

Lemma recovers_reopens files es : recovers files es -> reopens files (ring es).
Proof. intros H seq w Hw Hf Hn. destruct (open_recovers _ _ seq w H Hw Hf Hn) as (w' & j & E & Hj & _). eauto. Qed.

Lemma read_clock_files w : let w1 := (read_clock w).1 in w_files w1 = w_files w /\ w_faults w1 = w_faults w /\ w_trail w1 = w_trail w.
Proof. unfold read_clock, now. by destruct (w_clock w). Qed.

Lemma append_locked_memory j e w : append_locked (in_memory j) e w = (w, (set_inner (in_memory j) (append_ring (j_inner j) e), true)).
Proof. done. Qed.

(** The append of both [record] and [commit]. *)
Lemma append_locked_run es j e w w' j' ok : stored_as es j (w_files w) -> entry_ok e -> clean (ae_id e) -> short e -> append_locked j e w = (w', (j', ok)) ->
  within (fun f => recovers f es \/ recovers f (pushed es e)) w w' /\ (ok = true -> j' = set_inner j (ring (pushed es e)) /\ stored_as (pushed es e) j' (w_files w')) /\ (ok = false -> j' = j).
Proof.
  intros (Hd & Hi & Hg & Hs) He Hc Hsh. unfold append_locked. rewrite Hd, Hi. destruct (append_durable (ring es) e w) as [w1 r1] eqn:E1.
  destruct (append_durable_run es e w w1 r1 Hg He Hc Hsh Hs E1) as [W H]. destruct r1 as [inner|err]; intros [= <- <- <-]; split_and!; try done.
  intros _. destruct (H inner eq_refl) as [-> Hs']. split; [done|]. split_and!; [done..|by apply good_pushed|done].
Qed.

Lemma append_locked_pass es j e w : stored_as es j (w_files w) -> entry_ok e -> clean (ae_id e) -> short e -> tidy w -> w_faults w = [] ->
  exists w', append_locked j e w = (w', (set_inner j (ring (pushed es e)), true)) /\ w_faults w' = [] /\ tidy w'.
Proof.
  intros Hst He Hc Hsh Ht Hf. pose proof Hst as (Hd & Hi & Hg & Hs). assert (Hp : hidden ".activity.jsonl") by (by eexists).
  assert (H : exists w' inner, append_durable (j_inner j) e w = (w', Ok inner) /\ w_faults w' = [] /\ tidy w').
  { rewrite Hi. unfold append_durable. cbn [ring i_entries i_bytes]. rewrite decide_False by (unfold short in Hsh; lia). case_decide.
    - unfold mbind, fs_bind, append_line, with_error, mbind, fs_bind. destruct (open_append JOURNAL_FILENAME w) as [w1 r1] eqn:E1.
      assert (H1 : r1 = Ok tt /\ w_faults w1 = [] /\ tidy w1).
      { unfold open_append, mbind, fs_bind in E1. rewrite call_pass in E1 by done. cbn in E1. destruct (w_files w !! JOURNAL_FILENAME) eqn:Ej; injection E1 as <- <-; split_and!; try done.
        intros name Hh. cbn. rewrite lookup_insert_ne; [by apply Ht|]. by destruct (hidden_names _ Hh). }
      destruct H1 as (-> & Hf1 & Ht1). cbn [map_err]. rewrite call_pass by done. cbn [map_err]. unfold write_all, pop_fault. rewrite Hf1. set (w2 := set_files w1 _ _).
      assert (Hf2 : w_faults w2 = []) by done. rewrite call_pass by done. cbn [map_err]. eexists _, _. split; [reflexivity|]. split; [done|].
      intros name Hh. unfold w2. cbn [set_files w_files]. unfold appended. rewrite lookup_insert_ne; [by apply Ht1|]. by destruct (hidden_names _ Hh).
    - unfold mbind, fs_bind. set (k := snd <$> _). destruct (compact_pass k w Hf (tidy_fresh _ _ Hp Ht)) as (w1 & E1 & Hf1 & Ht1 & _). rewrite E1. eexists _, _. split; [reflexivity|]. split; [done|]. by apply Ht1. }
  destruct H as (w' & inner & E & Hf' & Ht'). exists w'. unfold append_locked. rewrite Hd, E. rewrite Hi in E.
  destruct (append_durable_run es e w w' _ Hg He Hc Hsh Hs E) as [_ H]. destruct (H inner eq_refl) as [-> _]. done.
Qed.

Lemma filter_rows es id : filter (fun r : Z * ActivityEntry => ae_id r.2 <> id) (rows_of es) = rows_of (survivors {[id]} es).
Proof.
  unfold survivors. induction es as [|e es IH]; [done|]. change (rows_of (e :: es)) with ((Z.of_nat (length (encode_line e)), e) :: rows_of es). rewrite !filter_cons. cbn [snd].
  destruct (decide (ae_id e = id)) as [E|E].
  - rewrite decide_False by tauto. rewrite decide_False by set_solver. exact IH.
  - rewrite decide_True by done. rewrite decide_True by set_solver. by rewrite IH.
Qed.

Lemma entry_ids_of es : good es -> entry_ids (rows_of es) = ids_of es.
Proof.
  intros (_ & Hc & _). unfold entry_ids, ids_of. f_equal. assert (E : (fun r : Z * ActivityEntry => ae_id r.2) <$> rows_of es = ae_id <$> es) by (unfold rows_of; by rewrite <- list_fmap_compose).
  rewrite E. clear E. induction Hc as [|e es (_ & _ & _ & Hne) _ IH]; [done|]. cbn [fmap list_fmap]. rewrite filter_cons_True by done. by rewrite IH.
Qed.

Lemma survivors_same es id : length (survivors {[id]} es) <> length es -> id ∈ ae_id <$> es.
Proof.
  intros Hl. destruct (decide (id ∈ ae_id <$> es)) as [|Hn]; [done|]. exfalso. apply Hl. f_equal. unfold survivors. clear Hl. induction es as [|e es IH]; [done|].
  cbn [fmap list_fmap] in Hn. apply not_elem_of_cons in Hn as [H1 H2]. rewrite filter_cons_True by set_solver. by rewrite IH.
Qed.

Lemma stored_seq es j seq sent files : stored_as es j files -> stored_as es (mkJournal (j_inner j) (j_durable j) seq (j_listeners j) sent) files.
Proof. done. Qed.

Lemma in_memory_stamp j e nanos : stamp (in_memory j) e nanos = (in_memory (stamp j e nanos).1, (stamp j e nanos).2).
Proof. done. Qed.

(** [record] and [commit] are the append, with or without the event. *)
Definition append_op (announce : bool) (j : Journal) (e : NewEntry) (w : World) : World * Journal :=
  let '(w1, nanos) := read_clock w in
  let '(j1, entry) := stamp j e nanos in
  let '(w2, (j2, ok)) := append_locked j1 entry w1 in
  (w2, if ok && announce then publish j2 entry else j2).

Lemma record_append j e w : run_op j (DoRecord e) w = append_op true j e w.
Proof.
  cbn [run_op]. unfold record, append_op. destruct (read_clock w) as [w1 nanos], (stamp j e nanos) as [j1 entry], (append_locked j1 entry w1) as [w2 [j2 ok]]. by destruct ok.
Qed.

Lemma commit_append j e w : run_op j (DoCommit e) w = append_op false j e w.
Proof.
  cbn [run_op]. unfold commit, append_op. destruct (read_clock w) as [w1 nanos], (stamp j e nanos) as [j1 entry], (append_locked j1 entry w1) as [w2 [j2 ok]]. by destruct ok.
Qed.

Lemma append_op_memory es announce j e w : j_inner j = ring es -> j_inner (append_op announce (in_memory j) e w).2 = ring (pushed es (stamped j e w)).
Proof.
  intros Hi. unfold append_op, stamped. destruct (read_clock w) as [w1 nanos]. rewrite in_memory_stamp. cbn [snd]. rewrite append_locked_memory. cbn [snd].
  assert (E : j_inner (stamp j e nanos).1 = ring es) by exact Hi. rewrite E, append_ring_pushed. by destruct announce.
Qed.

Lemma append_op_run es announce j e w w' j' : stored_as es j (w_files w) -> entry_ok (stamped j e w) -> clean (ae_id (stamped j e w)) -> short (stamped j e w) ->
  append_op announce j e w = (w', j') -> within (fun f => recovers f es \/ recovers f (pushed es (stamped j e w))) w w'.
Proof.
  intros Hst He Hc Hs. unfold append_op, stamped in *. pose proof (read_clock_files w) as (F1 & _ & T1). destruct (read_clock w) as [w1 nanos]. cbn [fst snd] in *.
  destruct (stamp j e nanos) as [j1 entry] eqn:Ej. cbn [snd] in *. destruct (append_locked j1 entry w1) as [w2 [j2 ok]] eqn:Ea. intros [= <- <-].
  assert (Hst1 : stored_as es j1 (w_files w1)) by (unfold stamp in Ej; injection Ej as <- _; rewrite F1; exact Hst).
  destruct (append_locked_run es j1 entry w1 w2 j2 ok Hst1 He Hc Hs Ea) as [W _]. destruct W as [H1 (steps & E & H2)]. split; [done|]. exists steps. by rewrite <- T1.
Qed.

Lemma op_run es j op w w' j' : stored_as es j (w_files w) -> admissible j op w -> run_op j op w = (w', j') ->
  exists es', j_inner (run_op (in_memory j) op w).2 = ring es' /\ within (fun f => recovers f es \/ recovers f es') w w'.
Proof.
  intros Hst Ha. pose proof Hst as (Hd & Hi & Hg & Hs). pose proof (synced_recovers _ _ Hg Hs) as H0.
  assert (Hstay : forall P : Files -> Prop, P (w_files w) -> within P w w) by (intros P HP; by apply within_same).
  destruct op as [e|e|entry|id|].
  - rewrite !record_append. destruct Ha as (He & Hc & Hsh). intros E. exists (pushed es (stamped j e w)). split; [by apply append_op_memory|by eapply append_op_run].
  - rewrite !commit_append. destruct Ha as (He & Hc & Hsh). intros E. exists (pushed es (stamped j e w)). split; [by apply append_op_memory|by eapply append_op_run].
  - cbn. intros [= <- <-]. exists es. split; [done|]. apply Hstay. by left.
  - cbn [run_op]. unfold discard. cbn [in_memory j_inner j_durable]. rewrite Hi, Hd. cbn [ring i_entries]. rewrite filter_rows, !length_rows.
    case_decide as H1; [intros [= <- <-]; exists es; split; [done|]; apply Hstay; by left|]. case_decide as H2; [intros [= <- <-]; exists es; split; [done|]; apply Hstay; by left|].
    rewrite rows_entries. intros E. exists (survivors {[id]} es). split; [done|]. pose proof (survivors_same _ _ H2) as Hin.
    destruct (discard_files id (survivors {[id]} es) w) as [w1 r1] eqn:E1. assert (w' = w1) as -> by (by destruct r1; injection E).
    eapply within_mono; [|exact (discard_files_keeps es id w w1 r1 Hg Hin Hs E1)]. intros f. by apply dooming_recovers.
  - cbn [run_op]. unfold clear, try_clear. cbn [in_memory j_inner j_durable]. rewrite Hi, Hd. cbn [ring i_entries]. rewrite entry_ids_of by done.
    intros E. exists []. split; [done|]. destruct (clear_files (ids_of es) w) as [w1 r1] eqn:E1. assert (w' = w1) as -> by (by destruct r1; injection E).
    eapply within_mono; [|exact (clear_files_keeps es w w1 r1 Hg Hs E1)]. intros f. rewrite <- (survivors_all es). by apply dooming_recovers.
Qed.

Lemma op_pass es j op w : stored_as es j (w_files w) -> admissible j op w -> tidy w -> w_faults w = [] ->
  exists w' j' es', run_op j op w = (w', j') /\ in_memory j' = (run_op (in_memory j) op w).2 /\ stored_as es' j' (w_files w') /\ tidy w' /\ w_faults w' = [].
Proof.
  intros Hst Ha Ht Hf. pose proof Hst as (Hd & Hi & Hg & Hs).
  assert (Happ : forall announce e, entry_ok (stamped j e w) -> clean (ae_id (stamped j e w)) -> short (stamped j e w) ->
    exists w' j' es', append_op announce j e w = (w', j') /\ in_memory j' = (append_op announce (in_memory j) e w).2 /\ stored_as es' j' (w_files w') /\ tidy w' /\ w_faults w' = []).
  { intros announce e He Hc Hsh. unfold append_op, stamped in *. pose proof (read_clock_files w) as (F1 & Fl1 & T1). destruct (read_clock w) as [w1 nanos]. cbn [fst snd] in *.
    rewrite in_memory_stamp. destruct (stamp j e nanos) as [j1 entry] eqn:Ej. cbn [fst snd] in *.
    assert (Hst1 : stored_as es j1 (w_files w1)) by (unfold stamp in Ej; injection Ej as <- _; rewrite F1; exact Hst).
    assert (Ht1 : tidy w1) by (intros n Hn; rewrite F1; by apply Ht).
    destruct (append_locked_pass es j1 entry w1 Hst1 He Hc Hsh Ht1 ltac:(congruence)) as (w2 & E2 & Hf2 & Ht2). rewrite E2.
    destruct (append_locked_run es j1 entry w1 w2 _ true Hst1 He Hc Hsh E2) as (_ & H & _). destruct (H eq_refl) as [_ Hst2].
    rewrite append_locked_memory. destruct Hst1 as (_ & Hi1 & _). rewrite Hi1, append_ring_pushed. eexists w2, _, (pushed es entry). split; [reflexivity|]. destruct announce; done. }
  destruct op as [e|e|entry|id|].
  - rewrite !record_append. destruct Ha as (He & Hc & Hsh). by apply Happ.
  - rewrite !commit_append. destruct Ha as (He & Hc & Hsh). by apply Happ.
  - cbn [run_op]. by eexists w, _, es.
  - cbn [run_op]. unfold discard. cbn [in_memory j_inner j_durable]. rewrite Hi, Hd. cbn [ring i_entries]. rewrite filter_rows, !length_rows.
    case_decide as H1; [by eexists w, j, es|]. case_decide as H2; [by eexists w, j, es|]. rewrite rows_entries. pose proof (survivors_same _ _ H2) as Hin.
    destruct (discard_files_pass es id w Hg Hin Hs Ht Hf) as (w1 & E1 & Hf1 & Ht1 & Hs1). rewrite E1. eexists w1, _, (survivors {[id]} es). split; [reflexivity|].
    split_and!; [done| |done|done]. split_and!; [done|done| |done]. by apply good_kept.
  - cbn [run_op]. unfold clear, try_clear. cbn [in_memory j_inner j_durable]. rewrite Hi, Hd. cbn [ring i_entries]. rewrite entry_ids_of by done.
    destruct (clear_files_pass es w Hg Hs Ht Hf) as (w1 & E1 & Hf1 & Ht1 & Hs1). rewrite E1. eexists w1, _, []. split; [reflexivity|].
    split_and!; [done| |done|done]. split_and!; [done|done| |done]. split; [constructor|]. split; [constructor|]. split; [cbn; lia|vm_compute; discriminate].
Qed.

End Contract.
End ActivityJournal.
