(* ===== verification/ActivityClaims.v ===== *)
(** * What the activity journal guarantees

    Crash atomicity, agreement with the in-memory ring, the bounds, the ids, and
    a run that shows where file and ring come apart. *)

From S2P Require Import Prelude Utf8 JsonText Json JsonWire GoJson UploadTime UploadIndex Fs Activity ActivityStore ActivityFiles ActivityReplay ActivityCrash.

Module ActivityClaims.
Import Utf8 Json Fs Activity ActivityStore ActivityFiles ActivityReplay ActivityTombs ActivityLoad ActivityCrash ActivityJournal.

(** ** A small journal *)

#[local] Instance plain_floats : GoJson.FloatText := {| GoJson.float_text _ := [48] |}.
#[local] Instance flat_reader : UploadIndex.DocumentJson := {| UploadIndex.from_slice := @JsonWire.from_slice JsonWire.flat_json |}.

Definition demo_entry (pane : string) : NewEntry := mkNewEntry "send_text" "sent" "sent" "" pane "" "" "" "" "" None (Some 7).
Definition demo_world (faults : list Fault) : World := mkWorld ∅ faults [5; 6; 7] 0 [].
Definition demo_journal : Journal := mkJournal empty_inner true 0 true [].

Definition demo_stamped : ActivityEntry := stamped demo_journal (demo_entry "p1") (demo_world []).

Definition demo_prefixes : bool :=
  forallb (fun n => match UploadIndex.from_slice (take n (entry_text demo_stamped)) with None => true | Some _ => false end) (seq 0 (length (entry_text demo_stamped))).

Lemma demo_ok : entry_ok demo_stamped /\ clean (ae_id demo_stamped) /\ short demo_stamped.
Proof.
  assert (Hp : demo_prefixes = true) by (vm_compute; reflexivity). unfold demo_prefixes in Hp. rewrite forallb_forall in Hp.
  split; [|split].
  - split; [vm_compute; tauto|]. split.
    + split; [unfold is_i64, i64_min, i64_max; vm_compute; split; discriminate|]. split; [apply Nat2Z.inj_le; unfold MAX_EXTRACT_CHARS; rewrite Z2Nat.id by lia; vm_compute; discriminate|exact I].
    + split; [vm_compute; reflexivity|]. intros n Hn. specialize (Hp n (proj2 (in_seq _ _ _) (conj (Nat.le_0_l _) Hn))). by destruct (UploadIndex.from_slice _).
  - split; [vm_compute; reflexivity|]. split; [apply (bool_decide_unpack (10 ∉ as_bytes (ae_id demo_stamped))); vm_compute; exact I|]. split; [vm_compute; reflexivity|discriminate].
  - vm_compute. discriminate.
Qed.

Lemma demo_stored : stored demo_journal ∅.
Proof.
  exists []. split; [done|]. split; [done|]. split; [split; [constructor|split; [constructor|split; [cbn; lia|vm_compute; discriminate]]]|]. split; [right|]; by rewrite ?lookup_empty.
Qed.

(** ** Crashes *)

(** The directory states a process can leave behind when it dies during an
    operation from [w] to [w']. *)
Definition crash_points (w w' : World) : list Files := w_files w :: w_files w' :: drop (length (w_trail w)) (w_trail w').

(** What one operation leaves behind, given that ring and files agreed before
    it. *)
Lemma op_crash_atomic `{GoJson.FloatText} `{UploadIndex.DocumentJson} (j j' : Journal) (op : JournalOp) (w w' : World) (f : Files) :
  stored j (w_files w) -> admissible j op w -> run_op j op w = (w', j') -> f ∈ crash_points w w' ->
  reopens f (j_inner j) \/ reopens f (j_inner (run_op (in_memory j) op w).2).
Proof.
  intros (es & Hst) Ha Hrun Hf. destruct (op_run es j op w w' j' Hst Ha Hrun) as (es' & Hm & Hw' & steps & Htrail & Hsteps). rewrite Hm.
  assert (Hi : j_inner j = ring es) by apply Hst. rewrite Hi.
  assert (Hrec : recovers f es \/ recovers f es').
  { unfold crash_points in Hf. rewrite Htrail, drop_app_length in Hf. apply elem_of_cons in Hf as [->|Hf]; [left; apply synced_recovers; apply Hst|].
    apply elem_of_cons in Hf as [->|Hf]; [done|]. rewrite Forall_forall in Hsteps. by apply Hsteps. }
  destruct Hrec as [Hr|Hr]; [left|right]; by apply recovers_reopens.
Qed.

(** Both journals run the same operations; the second sees the clock of the
    first. *)
Fixpoint run_both `{GoJson.FloatText} `{UploadIndex.DocumentJson} (ops : list JournalOp) (w : World) (j m : Journal) : World * Journal * Journal :=
  match ops with
  | [] => (w, j, m)
  | op :: ops => let '(w', j') := run_op j op w in run_both ops w' j' (run_op m op w).2
  end.

Fixpoint all_admissible `{GoJson.FloatText} `{UploadIndex.DocumentJson} (ops : list JournalOp) (w : World) (j : Journal) : Prop :=
  match ops with
  | [] => True
  | op :: ops => admissible j op w /\ all_admissible ops (run_op j op w).1 (run_op j op w).2
  end.

(** Without faults ring and files keep agreeing. *)
Lemma run_both_stored `{GoJson.FloatText} `{UploadIndex.DocumentJson} ops j j' m' w w' :
  stored j (w_files w) -> tidy w -> w_faults w = [] -> all_admissible ops w j -> run_both ops w j (in_memory j) = (w', j', m') -> in_memory j' = m' /\ stored j' (w_files w').
Proof.
  intros (es & Hst) Ht Hf. revert es j w Hst Ht Hf. induction ops as [|op ops IH]; intros es j w Hst Ht Hf Ha Hrun; cbn [run_both all_admissible] in *.
  - injection Hrun as <- <- <-. split; [done|by exists es].
  - destruct Ha as [Ha1 Ha2]. destruct (op_pass es j op w Hst Ha1 Ht Hf) as (w1 & j1 & es1 & E1 & Hm & Hst1 & Ht1 & Hf1). rewrite E1 in *. rewrite <- Hm in Hrun.
    exact (IH es1 j1 w1 Hst1 Ht1 Hf1 Ha2 Hrun).
Qed.

(** C38 — Crash atomicity.  Start from a journal whose ring and files agree, with
    no temporary file around, and run any operations whose calls succeed, on
    entries whose text is no longer than the journal may be, parses back, and
    parses from no shorter prefix, with trimmed non-empty ids on one line.  Then,
    whatever calls of the next operation fail and wherever the process dies during
    it, a new process opens the journal and finds either the ring before that
    operation or the ring the in-memory journal has after it.  (After a failed
    append the torn line stays in the file, and a record after it may be lost:
    [entry_after_torn_append_lost].) *)
Theorem journal_crash_atomic `{GoJson.FloatText} `{UploadIndex.DocumentJson} (ops : list JournalOp) (j j1 m1 j2 : Journal) (w w1 w2 : World) (faults : list Fault) (op : JournalOp) (f : Files) :
  stored j (w_files w) -> tidy w -> w_faults w = [] -> all_admissible ops w j -> run_both ops w j (in_memory j) = (w1, j1, m1) ->
  admissible j1 op (set_faults w1 faults) -> run_op j1 op (set_faults w1 faults) = (w2, j2) -> f ∈ crash_points (set_faults w1 faults) w2 ->
  reopens f (j_inner m1) \/ reopens f (j_inner (run_op m1 op (set_faults w1 faults)).2).
Proof.
  intros Hst Ht Hf Ha Hrun Ha1 Hop Hin. destruct (run_both_stored ops j j1 m1 w w1 Hst Ht Hf Ha Hrun) as [<- Hst1]. exact (op_crash_atomic j1 j2 op (set_faults w1 faults) w2 f Hst1 Ha1 Hop Hin).
Qed.

(** The write of the first entry fails after three bytes. *)
Definition torn : list Fault := [Pass; Pass; Fails FaultOther "no space left on device" 3].
Definition torn_run : World * Journal := run_op demo_journal (DoRecord (demo_entry "p1")) (demo_world torn).

Lemma journal_crash_atomic_witness :
  reopens (w_files torn_run.1) (j_inner demo_journal) \/ reopens (w_files torn_run.1) (j_inner (run_op (in_memory demo_journal) (DoRecord (demo_entry "p1")) (demo_world torn)).2).
Proof.
  apply (journal_crash_atomic [] demo_journal demo_journal (in_memory demo_journal) torn_run.2 (demo_world []) (demo_world []) torn_run.1 torn (DoRecord (demo_entry "p1"))).
  - exact demo_stored.
  - intros name _. apply lookup_empty.
  - reflexivity.
  - exact Logic.I.
  - reflexivity.
  - exact demo_ok.
  - unfold torn_run. change (set_faults (demo_world []) torn) with (demo_world torn). destruct (run_op _ _ _). reflexivity.
  - unfold crash_points. right. left.
Defined.

(** ** Agreement with the in-memory journal *)

(** C39 — The durable journal refines the in-memory one: over any sequence of
    operations in which no call fails, both have the same ring, the same id
    sequence and have sent the same events, and a new process that opens the
    files has that ring too. *)
Theorem durable_matches_memory `{GoJson.FloatText} `{UploadIndex.DocumentJson} (ops : list JournalOp) (j j' m' : Journal) (w w' : World) :
  stored j (w_files w) -> tidy w -> w_faults w = [] -> all_admissible ops w j -> run_both ops w j (in_memory j) = (w', j', m') ->
  in_memory j' = m' /\ reopens (w_files w') (j_inner m').
Proof.
  intros Hst Ht Hf Ha Hrun. destruct (run_both_stored ops j j' m' w w' Hst Ht Hf Ha Hrun) as [<- (es & Hst')]. split; [done|]. assert (Hi : j_inner (in_memory j') = ring es) by apply Hst'.
  rewrite Hi. apply recovers_reopens, synced_recovers; apply Hst'.
Qed.

Definition demo_ops : list JournalOp := [DoRecord (demo_entry "p1"); DoClear].
Definition demo_both : World * Journal * Journal := run_both demo_ops (demo_world []) demo_journal (in_memory demo_journal).

Lemma durable_matches_memory_witness : in_memory demo_both.1.2 = demo_both.2 /\ reopens (w_files demo_both.1.1) (j_inner demo_both.2).
Proof.
  apply (durable_matches_memory demo_ops demo_journal demo_both.1.2 demo_both.2 (demo_world []) demo_both.1.1).
  - exact demo_stored.
  - intros name _. apply lookup_empty.
  - reflexivity.
  - split; [exact demo_ok|]. split; [exact I|exact I].
  - unfold demo_both. destruct (run_both _ _ _ _) as [[w' j'] m']. reflexivity.
Defined.

(** ** Bounds *)

Section Bounds.
Context `{FT : GoJson.FloatText} `{DJ : UploadIndex.DocumentJson}.

(** The rows carry the lengths of their lines, [bytes] is their sum, and both
    bounds hold; only a ring without a file may keep a lone oversized entry. *)
Definition bounded (j : Journal) : Prop :=
  exists es, j_inner j = ring es /\ (length es <= MAX_ITEMS)%nat /\
    (total (rows_of es) <= MAX_BYTES \/ j_durable j = false /\ length es = 1%nat).

Lemma length_lighten es : (length (lighten es) <= length es)%nat.
Proof. destruct (lighten_suffix es) as [d Hd]. apply (f_equal length) in Hd. rewrite length_app in Hd. lia. Qed.

Lemma length_pushed es e : (length (pushed es e) <= MAX_ITEMS)%nat.
Proof. unfold pushed. pose proof (length_lighten (latest (es ++ [e]))). unfold latest in *. rewrite length_drop in *. lia. Qed.

Lemma lighten_or_one es : es <> [] -> total (rows_of (lighten es)) <= MAX_BYTES \/ length (lighten es) = 1%nat.
Proof.
  intros Hne. induction es as [|e [|e' es] IH]; [done|by right|]. rewrite lighten_cons. case_decide; [by apply IH|left; lia].
Qed.

Lemma pushed_light es e : total (rows_of (pushed es e)) <= MAX_BYTES \/ length (pushed es e) = 1%nat.
Proof.
  unfold pushed. apply lighten_or_one. unfold latest. intros E. apply (f_equal length) in E. rewrite length_drop, length_app in E. cbn [length] in E. unfold MAX_ITEMS in E. lia.
Qed.

Lemma append_durable_bounded es e w w' inner : (length es <= MAX_ITEMS)%nat -> total (rows_of es) <= MAX_BYTES -> append_durable (ring es) e w = (w', Ok inner) ->
  exists es', inner = ring es' /\ (length es' <= MAX_ITEMS)%nat /\ total (rows_of es') <= MAX_BYTES.
Proof.
  intros Hn Hb. unfold append_durable. cbn [ring i_entries i_bytes]. rewrite length_rows. case_decide as Hs; [done|]. case_decide as Hfit.
  - unfold mbind, fs_bind. destruct (append_line _ w) as [w1 [[]|]]; intros [= <- <-]. destruct Hfit as [H1 H2]. exists (es ++ [e]).
    unfold ring. rewrite rows_total_app, rows_app, (length_app es [e]). change (length [e]) with 1%nat. change (total (rows_of [e])) with (Z.of_nat (length (encode_line e)) + 0). rewrite Z.add_0_r. split; [reflexivity|lia].
  - change (rows_of es ++ [_]) with (rows_of es ++ rows_of [e]). rewrite <- rows_app. unfold drop_oldest. rewrite length_rows, rows_drop. fold (latest (es ++ [e])).
    rewrite drop_bytes_rows. cbn [fst]. fold (pushed es e). rewrite rows_entries. unfold mbind, fs_bind. destruct (compact (pushed es e) w) as [w1 r1] eqn:E1.
    destruct (compact_run _ _ _ _ E1) as [_ H]. destruct r1 as [n|]; [|done]. intros [= <- <-]. destruct (H eq_refl) as [[= ->] _]. exists (pushed es e).
    rewrite journal_length. split; [done|]. split; [apply length_pushed|]. apply lighten_bound. unfold latest. apply Forall_drop, Forall_app. split; [by apply total_short|]. apply Forall_cons. split; [unfold short; lia|constructor].
Qed.

(** Journals a process can have: opened or in memory, after any operations in
    any world, calls failing or not. *)
Inductive reachable : Journal -> Prop :=
| reach_default seq : reachable (default_journal seq)
| reach_open seq w w' j : open seq w = (w', Ok j) -> reachable j
| reach_subscribe j : reachable j -> reachable (subscribe j)
| reach_op j op w w' j' : reachable j -> run_op j op w = (w', j') -> reachable j'.

Lemma retain_bounded entries rows : retain_within_limits entries = Ok rows ->
  exists es, rows = rows_of es /\ (length es <= MAX_ITEMS)%nat /\ total (rows_of es) <= MAX_BYTES /\ exists d, entries = d ++ es.
Proof.
  unfold retain_within_limits. fold (rows_of (drop (length entries - MAX_ITEMS) entries)). fold (latest entries). rewrite drop_bytes_rows. case_decide; [done|]. intros [= <-].
  exists (lighten (latest entries)). split_and!; [done| |lia|].
  - pose proof (length_lighten (latest entries)). unfold latest in *. rewrite length_drop in *. lia.
  - destruct (lighten_suffix (latest entries)) as [d Hd]. exists (take (length entries - MAX_ITEMS) entries ++ d). rewrite <- app_assoc, <- Hd. unfold latest. by rewrite take_drop.
Qed.

(** What a successful [load] returns, whatever the files hold. *)
Lemma load_shape seq w w' seq' inner : load seq w = (w', Ok (seq', inner)) ->
  seq' = seq /\ inner = empty_inner \/
  exists ids lines b scanned b' rows, scan_lines ids lines (seq, [], b) = Ok (seq', scanned, b') /\ retain_within_limits scanned = Ok rows /\ inner = mkInner rows (total rows).
Proof.
  unfold load, mbind, fs_bind. destruct (load_tombstones w) as [w1 [ids|e]]; [|done]. unfold attempt. destruct (open_read JOURNAL_FILENAME w1) as [w2 [[]|e]].
  - destruct (with_error _ (file_len _) w2) as [w3 [size|e]]; [|done]. case_decide; [done|]. destruct (with_error _ (read_to_end _) w3) as [w4 [data|e]]; [|done]. unfold lift at 1.
    destruct (scan_lines _ _ _) as [[[seq1 scanned] b1]|e] eqn:Es; [|done]. unfold lift at 1. destruct (retain_within_limits scanned) as [rows|e] eqn:Er; [|done]. cbn [map_err].
    match goal with |- context [match ?m w4 with _ => _ end] => destruct (m w4) as [w5 [[]|e]] end; [|done]. match goal with |- context [match ?m w5 with _ => _ end] => destruct (m w5) as [w6 [[]|e]] end; [|done]. intros [= <- <- <-]. right. eauto 10.
  - case_decide; [|done]. match goal with |- context [match ?m w2 with _ => _ end] => destruct (m w2) as [w3 [[]|e']] end; [|done]. intros [= <- <- <-]. by left.
Qed.

Lemma open_shape seq w w' j : open seq w = (w', Ok j) -> exists w1 w2 seq' inner, load seq w1 = (w2, Ok (seq', inner)) /\ j = mkJournal inner true seq' false [].
Proof.
  unfold open, mbind, fs_bind. destruct (with_error _ call w) as [w1 [[]|e]]; [|done]. destruct (with_error _ set_mode w1) as [w2 [[]|e]]; [|done].
  destruct (load seq w2) as [w3 [[seq' inner]|e]] eqn:E; [|done]. intros [= <- <-]. eauto 10.
Qed.

Lemma bounded_open seq w w' j : open seq w = (w', Ok j) -> bounded j.
Proof.
  intros E. destruct (open_shape _ _ _ _ E) as (w1 & w2 & seq' & inner & El & ->). destruct (load_shape _ _ _ _ _ El) as [[_ ->]|(ids & lines & b & scanned & b' & rows & _ & Er & ->)].
  - exists []. cbn [j_inner]. split; [done|]. split; [cbn; lia|left; vm_compute; discriminate].
  - destruct (retain_bounded _ _ Er) as (es & -> & H1 & H2 & _). exists es. cbn [j_inner]. auto.
Qed.

Lemma bounded_append announce j e w w' j' : bounded j -> append_op announce j e w = (w', j') -> bounded j'.
Proof.
  intros (es & Hi & Hn & Hb). unfold append_op. destruct (read_clock w) as [w1 nanos]. destruct (stamp j e nanos) as [j1 entry] eqn:Es.
  assert (H1 : j_inner j1 = ring es /\ j_durable j1 = j_durable j) by (unfold stamp in Es; injection Es as <- _; done). destruct H1 as [Hi1 Hd1]. clear Es.
  unfold append_locked. rewrite Hi1, Hd1. destruct (j_durable j) eqn:Hd.
  - destruct Hb as [Hb|[? _]]; [|done]. destruct (append_durable (ring es) entry w1) as [w2 [inner|err]] eqn:Ea.
    + destruct (append_durable_bounded es entry w1 w2 inner Hn Hb Ea) as (es' & -> & H1 & H2). intros [= _ <-]. exists es'. destruct announce; cbn; auto.
    + intros [= _ <-]. exists es. cbn. auto.
  - intros [= _ <-]. exists (pushed es entry). rewrite append_ring_pushed. assert (Hd2 : j_durable (if true && announce then publish (set_inner j1 (ring (pushed es entry))) entry else set_inner j1 (ring (pushed es entry))) = false) by (destruct announce; cbn; congruence).
    split; [by destruct announce|]. split; [apply length_pushed|]. destruct (pushed_light es entry); auto.
Qed.

Lemma bounded_op j op w w' j' : bounded j -> run_op j op w = (w', j') -> bounded j'.
Proof.
  intros Hb. destruct op as [e|e|entry|id|]; [rewrite record_append; by apply bounded_append|rewrite commit_append; by apply bounded_append|cbn; by intros [= _ <-]|..].
  - cbn [run_op]. unfold discard. case_decide; [by intros [= _ <-]|]. case_decide as Hl; [by intros [= _ <-]|]. destruct Hb as (es & Hi & Hn & Hb).
    assert (Hk : forall j0, j_durable j0 = j_durable j -> j_inner j0 = mkInner (filter (fun r => ae_id r.2 <> id) (i_entries (j_inner j))) (total (filter (fun r => ae_id r.2 <> id) (i_entries (j_inner j)))) -> bounded j0).
    { intros j0 Hd0 H0. rewrite Hi in H0. cbn [ring i_entries] in H0. rewrite filter_rows in H0. exists (survivors {[id]} es). split; [done|].
      pose proof (length_filter (fun e => ae_id e ∉ ({[id]} : gset string)) es) as Hlen. pose proof (total_filter (fun e => ae_id e ∉ ({[id]} : gset string)) es) as Htot. fold (survivors {[id]} es) in Hlen, Htot.
      split; [lia|]. destruct Hb as [Hb|[Hd H1]]; [left; lia|]. left. rewrite Hi in Hl. cbn [ring i_entries] in Hl. rewrite filter_rows, !length_rows in Hl.
      assert (Hz : length (survivors {[id]} es) = 0%nat) by lia. apply nil_length_inv in Hz. rewrite Hz. vm_compute. discriminate. }
    destruct (j_durable j) eqn:Hd; [|intros [= _ <-]; by apply Hk]. destruct (discard_files _ _ w) as [w1 [[]|e]]; intros [= _ <-]; [by apply Hk|]. destruct Hb as [Hb|[? _]]; [|done]. exists es. auto.
  - cbn [run_op]. unfold clear, try_clear. assert (H0 : bounded (send (set_inner j empty_inner) Cleared)).
    { exists []. split; [done|]. split; [cbn; lia|]. left. vm_compute. discriminate. }
    destruct (j_durable j); [|by intros [= _ <-]]. destruct (clear_files _ w) as [w1 [[]|e]]; by intros [= _ <-].
Qed.

(** C40 — The journal stays bounded: whatever the files held when it was opened
    and whatever calls fail, a journal never has more than 500 entries, its
    byte count is exactly the total length of the lines of its entries, and a
    durable one is within 2 MiB; without files the newest entry alone may
    exceed that. *)
Theorem journal_bounded (j : Journal) : reachable j ->
  (length (i_entries (j_inner j)) <= MAX_ITEMS)%nat /\
  i_bytes (j_inner j) = total (i_entries (j_inner j)) /\
  Forall (fun row => row.1 = Z.of_nat (length (encode_line row.2))) (i_entries (j_inner j)) /\
  (i_bytes (j_inner j) <= MAX_BYTES \/ j_durable j = false /\ length (i_entries (j_inner j)) = 1%nat).
Proof.
  intros H. assert (Hb : bounded j).
  { induction H as [seq|seq w w' j E|j _ IH|j op w w' j' _ IH E]; [|by eapply bounded_open|done|by eapply bounded_op].
    exists []. split; [done|]. split; [cbn; lia|]. left. vm_compute. discriminate. }
  destruct Hb as (es & -> & H1 & H2). cbn [ring i_entries i_bytes]. rewrite length_rows. split_and!; [done..| |done]. apply Forall_fmap, Forall_forall. done.
Qed.

End Bounds.

Lemma journal_bounded_witness : (length (i_entries (j_inner (run_op (default_journal 0) (DoRecord (demo_entry "p1")) (demo_world [])).2)) <= MAX_ITEMS)%nat.
Proof.
  apply (journal_bounded (run_op (default_journal 0) (DoRecord (demo_entry "p1")) (demo_world [])).2).
  apply (reach_op (default_journal 0) (DoRecord (demo_entry "p1")) (demo_world []) (run_op (default_journal 0) (DoRecord (demo_entry "p1")) (demo_world [])).1); [constructor|].
  by destruct (run_op _ _ _).
Defined.

End ActivityClaims.

(** * Entry ids, and a journal that loses an entry

    A new entry never takes the id of an entry the journal still has, across
    restarts too; and the run in which a failed append costs the next entry. *)

From S2P Require Import Prelude Utf8 JsonText Json JsonWire GoJson UploadTime UploadIndex Fs Activity ActivityStore ActivityFiles ActivityReplay ActivityCrash.

Module ActivityIds.
Import Utf8 Json Fs Activity ActivityStore ActivityFiles ActivityReplay ActivityCrash ActivityJournal ActivityClaims.

(** ** The sequence number of an id *)

Definition id_seq (id : string) : option Z :=
  let '(nanos, rest) := before_dash (as_bytes id) in
  _ ← parse_u64 nanos; rest ← rest; parse_u64 (before_dash rest).1.

Lemma bump_id_seq seq id : bump_sequence seq id = match id_seq id with Some n => Z.max seq n | None => seq end.
Proof. unfold bump_sequence, id_seq. destruct (before_dash (as_bytes id)) as [nanos [rest|]]; cbn; by destruct (parse_u64 nanos). Qed.

Lemma before_dash_app l rest : 45 ∉ l -> before_dash (l ++ 45 :: rest) = (l, Some rest).
Proof. induction l as [|c l IH]; intros Hl; [done|]. apply not_elem_of_cons in Hl as [Hc Hl]. cbn [app before_dash]. rewrite decide_False by congruence. by rewrite IH. Qed.

Lemma decimal_no_dash z : 45 ∉ as_bytes (decimal z).
Proof. intros H. pose proof (JsonWire.decimal_ascii z) as Hd. rewrite Forall_forall in Hd. specialize (Hd _ H). cbn in Hd. lia. Qed.

Lemma decimal_value z : 0 <= z -> UploadTime.digits_value (as_bytes (decimal z)) = z.
Proof.
  intros Hz. revert Hz. pattern z. apply (well_founded_induction (Z.lt_wf 0)). clear z. intros z IH Hz. destruct (decide (z < 10)).
  - rewrite UploadTime.decimal_small by lia. unfold UploadTime.digits_value. cbn. lia.
  - rewrite UploadTime.decimal_step by lia. rewrite UploadTime.digits_value_app, IH; [|split; [apply Z.div_pos; lia|apply Z.div_lt; lia]|apply Z.div_pos; lia].
    pose proof (Z.div_mod z 10 ltac:(lia)). lia.
Qed.

Lemma parse_decimal z : 0 <= z -> parse_u64 (as_bytes (decimal z)) = if decide (z <= u64_max) then Some z else None.
Proof.
  intros Hz. destruct (JsonWire.decimal_head z) as (c & r & E & Hc). pose proof (JsonWire.decimal_ascii z) as Hd. pose proof (decimal_value z Hz) as Hv. unfold parse_u64. rewrite E in *.
  assert (Hplus : (match c :: r with 43 :: rest => rest | _ => c :: r end) = c :: r) by (destruct c as [|p|]; try done; do 6 (destruct p as [p|p|]; try done); lia).
  rewrite Hplus. rewrite decide_False by done. rewrite (UploadTime.forallb_digits (c :: r)) by exact Hd. cbn [negb]. by rewrite Hv.
Qed.

Lemma id_seq_stamp n s pane : 0 <= n -> 0 <= s -> id_seq (decimal n +:+ "-" +:+ decimal s +:+ "-" +:+ pane) = if decide (n <= u64_max /\ s <= u64_max) then Some s else None.
Proof.
  intros Hn Hs. unfold id_seq. rewrite !as_bytes_app. change (as_bytes "-" ++ ?x) with (45 :: x). rewrite before_dash_app by apply decimal_no_dash. rewrite parse_decimal by done.
  destruct (decide (n <= u64_max)); cbn [mbind option_bind]; [|by rewrite decide_False by tauto].
  change (as_bytes "-" ++ ?x) with (45 :: x). rewrite before_dash_app by apply decimal_no_dash. cbn [fst]. rewrite parse_decimal by done. repeat case_decide; (done || tauto).
Qed.

Section Ids.
Context `{FT : GoJson.FloatText} `{DJ : UploadIndex.DocumentJson}.

Definition rows_covered (seq : Z) (es : list ActivityEntry) : Prop := Forall (fun e => forall n, id_seq (ae_id e) = Some n -> n <= seq) es.

Definition covered (j : Journal) : Prop := 0 <= j_seq j <= u64_max /\ rows_covered (j_seq j) (snd <$> i_entries (j_inner j)).

Lemma rows_covered_mono seq seq' es : seq <= seq' -> rows_covered seq es -> rows_covered seq' es.
Proof. intros Hle H. eapply Forall_impl; [exact H|]. intros e He n Hn. specialize (He n Hn). lia. Qed.

Lemma rows_covered_sub seq es es' : (forall e, e ∈ es' -> e ∈ es) -> rows_covered seq es -> rows_covered seq es'.
Proof. intros Hs H. apply Forall_forall. intros e He. unfold rows_covered in H. rewrite Forall_forall in H. by apply H, Hs. Qed.

Lemma id_seq_u64 id n : id_seq id = Some n -> 0 <= n <= u64_max.
Proof.
  unfold id_seq. destruct (before_dash (as_bytes id)) as [nanos [rest|]]; cbn; destruct (parse_u64 nanos); cbn; try done. unfold parse_u64. set (b := match (before_dash rest).1 with 43 :: _ => _ | _ => _ end).
  case_decide; [done|]. destruct (forallb UploadTime.is_digit b) eqn:Hd; [|done]. cbn [negb]. case_decide; [|done]. intros [= <-]. split; [|done].
  assert (Hnn : forall l acc, forallb UploadTime.is_digit l = true -> 0 <= acc -> 0 <= fold_left (fun acc b => acc * 10 + (b - 48)) l acc).
  { induction l as [|c l IH]; intros acc Hl Ha; [done|]. cbn [forallb fold_left] in *. apply andb_true_iff in Hl as [Hc Hl]. apply bool_decide_eq_true in Hc. apply IH; [done|]. lia. }
  by apply Hnn.
Qed.

(** Scanning lifts the sequence past everything it keeps. *)
Lemma scan_covered ids lines seq acc b seq' acc' b' : 0 <= seq <= u64_max -> rows_covered seq acc -> scan_lines ids lines (seq, acc, b) = Ok (seq', acc', b') ->
  0 <= seq' <= u64_max /\ rows_covered seq' acc'.
Proof.
  revert seq acc b. induction lines as [|raw lines IH]; intros seq acc b Hs Hc; cbn [scan_lines]; [by intros [= <- <- <-]|]. destruct (scan_line ids raw (seq, acc, b)) as [[[seq1 acc1] b1]|e] eqn:E; [|done].
  intros H. eapply IH; [| |exact H]; clear H IH; unfold scan_line in E; case_decide; [by injection E as <- <- <-| |by injection E as <- <- <-|]; case_decide; [done| |done|];
    (destruct (decode_entry _) as [entry|]; [|by injection E as <- <- <-]); rewrite bump_id_seq in E;
    (assert (Hle : seq <= match id_seq (ae_id entry) with Some n => Z.max seq n | None => seq end <= u64_max) by (destruct (id_seq (ae_id entry)) as [n|] eqn:En; [apply id_seq_u64 in En|]; lia));
    repeat case_decide; injection E as <- <- <-; try lia; try (eapply rows_covered_mono; [|exact Hc]; lia).
  all: apply Forall_app; split; [eapply rows_covered_mono; [|exact Hc]; lia|]; apply Forall_cons; split; [|constructor]; cbn [set_extract ae_id]; intros n ->; lia.
Qed.

Lemma covered_open seq w w' j : 0 <= seq <= u64_max -> open seq w = (w', Ok j) -> covered j.
Proof.
  intros Hs E. destruct (open_shape _ _ _ _ E) as (w1 & w2 & seq' & inner & El & ->). unfold covered. cbn [j_seq j_inner].
  destruct (load_shape _ _ _ _ _ El) as [[-> ->]|(ids & lines & b & scanned & b' & rows & Esc & Er & ->)]; [split; [done|constructor]|].
  destruct (scan_covered _ _ _ _ _ _ _ _ Hs (Forall_nil_2 _) Esc) as [H1 H2]. split; [done|]. destruct (retain_bounded _ _ Er) as (es & -> & _ & _ & d & ->). cbn [i_entries].
  rewrite rows_entries. apply Forall_app in H2. apply H2.
Qed.

Lemma drop_sub {A} n (l : list A) x : x ∈ drop n l -> x ∈ l.
Proof. intros Hx. rewrite <- (take_drop n l). apply elem_of_app. by right. Qed.

Lemma drop_bytes_sub bytes rows r : r ∈ (drop_bytes bytes rows).1 -> r ∈ rows.
Proof.
  revert bytes. induction rows as [|a [|b rows] IH]; intros bytes; [done..|]. rewrite drop_bytes_cons. case_decide; [|done]. intros Hr. right. by eapply IH.
Qed.

Lemma append_durable_sub inner e w w' inner' r : append_durable inner e w = (w', Ok inner') -> r ∈ i_entries inner' -> r ∈ i_entries inner ++ [(Z.of_nat (length (encode_line e)), e)].
Proof.
  unfold append_durable. case_decide; [done|]. case_decide; unfold mbind, fs_bind.
  - destruct (append_line _ w) as [w1 [[]|]]; [|done]. by intros [= <- <-].
  - destruct (compact _ w) as [w1 [n|]]; [|done]. intros [= <- <-]. cbn [i_entries]. intros Hr%drop_bytes_sub. unfold drop_oldest in Hr.
    by apply drop_sub in Hr.
Qed.

Lemma append_ring_sub inner e r : r ∈ i_entries (append_ring inner e) -> r ∈ i_entries inner ++ [(encoded_len e, e)].
Proof.
  unfold append_ring. destruct (drop_bytes _ _) as [kept bytes] eqn:E. cbn [i_entries]. intros Hr. assert (Hr' : r ∈ drop_oldest (i_entries inner ++ [(encoded_len e, e)])).
  { eapply drop_bytes_sub. rewrite E. exact Hr. }
  unfold drop_oldest in Hr'. by apply drop_sub in Hr'.
Qed.

Lemma covered_append announce j e w w' j' : covered j -> j_seq j < u64_max -> append_op announce j e w = (w', j') -> covered j'.
Proof.
  intros [Hs Hc] Hlt. unfold append_op. destruct (read_clock w) as [w1 nanos] eqn:Ecl.
  assert (Hn : 0 <= nanos) by (unfold read_clock, now in Ecl; destruct (w_clock w); injection Ecl as <- <-; lia).
  destruct (stamp j e nanos) as [j1 entry] eqn:Es. assert (Hseq : (j_seq j + 1) mod 2 ^ 64 = j_seq j + 1) by (apply Z.mod_small; unfold u64_max in *; lia).
  assert (H1 : j_inner j1 = j_inner j /\ j_durable j1 = j_durable j /\ j_seq j1 = j_seq j + 1 /\ (forall n, id_seq (ae_id entry) = Some n -> n <= j_seq j + 1)).
  { unfold stamp in Es. rewrite Hseq in Es. injection Es as <- <-. cbn [j_inner j_durable j_seq ae_id]. split_and!; [done..|]. intros n. rewrite id_seq_stamp by lia. case_decide; [|done]. intros [= <-]. lia. }
  destruct H1 as (Hi1 & Hd1 & Hs1 & Hid). clear Es.
  assert (Hgen : forall rows sz j2, j_seq j2 = j_seq j + 1 -> i_entries (j_inner j2) = rows -> (forall r, r ∈ rows -> r ∈ i_entries (j_inner j) ++ [(sz, entry)]) -> covered j2).
  { intros rows sz j2 H2 Hrows Hsub. split; [lia|]. rewrite Hrows, H2. eapply (rows_covered_sub _ ((snd <$> i_entries (j_inner j)) ++ [entry])).
    - intros x (r & -> & Hr)%list_elem_of_fmap. apply Hsub in Hr. apply elem_of_app in Hr as [Hr|Hr]; apply elem_of_app; [left; by apply list_elem_of_fmap_2|right]. apply list_elem_of_singleton in Hr as ->. by apply list_elem_of_singleton.
    - apply Forall_app. split; [eapply rows_covered_mono; [|exact Hc]; lia|]. apply Forall_cons. split; [done|constructor]. }
  unfold append_locked. rewrite Hi1, Hd1. destruct (j_durable j).
  - destruct (append_durable (j_inner j) entry w1) as [w2 [inner|err]] eqn:Ea; intros [= _ <-].
    + eapply (Hgen (i_entries inner)); [by destruct announce|by destruct announce|]. intros r Hr. by eapply append_durable_sub.
    + cbn [andb]. eapply (Hgen (i_entries (j_inner j)) 0); [done|by rewrite Hi1|]. intros r Hr. apply elem_of_app. by left.
  - intros [= _ <-]. eapply (Hgen (i_entries (append_ring (j_inner j) entry))); [by destruct announce|by destruct announce|]. intros r Hr. by eapply append_ring_sub.
Qed.

Lemma covered_default seq : 0 <= seq <= u64_max -> covered (default_journal seq).
Proof. intros Hs. split; [exact Hs|]. exact (Forall_nil_2 _). Qed.

Lemma covered_op j op w w' j' : covered j -> j_seq j < u64_max -> run_op j op w = (w', j') -> covered j'.
Proof.
  intros Hc Hlt. destruct op as [e|e|entry|id|]; [rewrite record_append; by apply covered_append|rewrite commit_append; by apply covered_append|cbn; by intros [= _ <-]|..]; destruct Hc as [Hs Hc]; cbn [run_op].
  - assert (Hk : forall b, covered (set_inner j (mkInner (filter (fun r => ae_id r.2 <> id) (i_entries (j_inner j))) b))).
    { intros b. split; [done|]. cbn [set_inner j_inner i_entries j_seq]. eapply rows_covered_sub; [|exact Hc]. intros x (r & -> & Hr)%list_elem_of_fmap. apply list_elem_of_filter in Hr as [_ Hr]. by apply list_elem_of_fmap_2. }
    unfold discard. case_decide; [by intros [= _ <-]|]. case_decide; [by intros [= _ <-]|]. destruct (j_durable j); [|intros [= _ <-]; apply Hk].
    destruct (discard_files _ _ w) as [w1 [[]|err]]; intros [= _ <-]; [apply Hk|done].
  - assert (H0 : covered (send (set_inner j empty_inner) Cleared)) by (split; [done|constructor]).
    unfold clear, try_clear. destruct (j_durable j); [|by intros [= _ <-]]. destruct (clear_files _ w) as [w1 [[]|err]]; by intros [= _ <-].
Qed.

(** Journals a process can have while the 64-bit sequence has not run out. *)
Inductive numbered : Journal -> Prop :=
| numbered_default seq : 0 <= seq <= u64_max -> numbered (default_journal seq)
| numbered_open seq w w' j : 0 <= seq <= u64_max -> open seq w = (w', Ok j) -> numbered j
| numbered_subscribe j : numbered j -> numbered (subscribe j)
| numbered_op j op w w' j' : numbered j -> j_seq j < u64_max -> run_op j op w = (w', j') -> numbered j'.

(** Ids are not reissued: whatever file was opened and whatever has
    happened since, the id of the next entry is not the id of an entry the
    journal has; the sequence continues behind everything that was loaded. *)
Theorem next_id_is_new (j : Journal) (e : NewEntry) (nanos : Z) :
  numbered j -> j_seq j < u64_max -> 0 <= nanos <= u64_max -> ae_id (stamp j e nanos).2 ∉ (fun row => ae_id row.2) <$> i_entries (j_inner j).
Proof.
  intros H Hlt Hn. assert (Hcov : covered j).
  { induction H as [seq Hs|seq w w' j Hs E|j H IH|j op w w' j' H IH Hl E]; [by apply covered_default|exact (covered_open _ _ _ _ Hs E)|exact (IH Hlt)|exact (covered_op _ _ _ _ _ (IH Hl) Hl E)]. }
  destruct Hcov as [Hs Hc]. intros Hin. apply list_elem_of_fmap in Hin as (row & Eid & Hrow). cbn [stamp snd ae_id] in Eid.
  assert (Hseq : (j_seq j + 1) mod 2 ^ 64 = j_seq j + 1) by (apply Z.mod_small; unfold u64_max in *; lia). rewrite Hseq in Eid.
  unfold rows_covered in Hc. rewrite Forall_forall in Hc. specialize (Hc row.2 (list_elem_of_fmap_2 _ _ _ Hrow) (j_seq j + 1)). rewrite <- Eid, id_seq_stamp in Hc by lia.
  rewrite decide_True in Hc by lia. specialize (Hc eq_refl). lia.
Qed.

End Ids.

#[local] Instance plain_floats : GoJson.FloatText := {| GoJson.float_text _ := [48] |}.
#[local] Instance flat_reader : UploadIndex.DocumentJson := {| UploadIndex.from_slice := @JsonWire.from_slice JsonWire.flat_json |}.

Lemma next_id_is_new_witness : ae_id (stamp (default_journal 4) (demo_entry "p1") 9).2 ∉ (fun row => ae_id row.2) <$> i_entries (j_inner (default_journal 4)).
Proof.
  apply (next_id_is_new (default_journal 4) (demo_entry "p1") 9).
  - apply numbered_default. unfold u64_max. lia.
  - vm_compute. reflexivity.
  - unfold u64_max. lia.
Defined.

(** ** A lost entry *)

(** One record whose write fails after three bytes, then one whose calls all
    pass. *)
Definition after_torn : World * Journal := run_op torn_run.2 (DoRecord (demo_entry "p2")) torn_run.1.

(** A failed append costs the next entry: the first record fails after
    three bytes and leaves them in the file; the second succeeds, is in the
    ring and is announced to the listeners, but its line is glued to those
    bytes and a new process opens an empty journal. *)
Theorem entry_after_torn_append_lost :
  ae_pane_id <$> (snd <$> i_entries (j_inner after_torn.2)) = ["p2"%string] /\
  length (j_sent after_torn.2) = 1%nat /\
  (open 0 (mkWorld (w_files after_torn.1) [] [9] 0 [])).2 = Ok (mkJournal empty_inner true 0 false []).
Proof. split; [vm_compute; reflexivity|]. split; vm_compute; reflexivity. Qed.

End ActivityIds.
