(* ===== verification/ActivityHandlers.v ===== *)
(** * The activity actions

    [get_activity] and [clear_activities] of
    [lerdr-coord/src/actions/activity.rs], and the frames of the live feed. *)

From S2P Require Import Prelude Utf8 JsonText Json JsonWire GoJson Inbound UploadBinary Protocol SessionActor UploadIndex Fs HerdrError Outcome Activity ActivityStore.

Module ActivityHandlers.
Import Fs Activity ActivityStore.

(** The two [Outbound] messages of the journal. *)
Inductive ActivityOutbound :=
| ActivityMessage (activity : option (UploadBinary.MaybeNull ActivityEntry)) (type_ : string)
| ActivityHistory (activities : option (UploadBinary.MaybeNull (list ActivityEntry))) (type_ : string).

Definition into_outbound (e : JournalEvent) : ActivityOutbound :=
  match e with
  | Recorded entry => ActivityMessage (Some (UploadBinary.Value entry)) "activity"
  | Cleared => ActivityHistory (Some (UploadBinary.Value [])) "activity_history"
  end.

Definition get_activity (j : Journal) (message : Inbound.Inbound) : list ActivityOutbound :=
  let limit := default HISTORY_LIMIT (Inbound.raw_int message "limit") in
  let limit := if decide (1 <= limit <= HISTORY_LIMIT) then Z.to_nat limit else Z.to_nat HISTORY_LIMIT in
  let entries := recent (j_inner j) limit in
  [ActivityHistory (Some (if decide (entries = []) then UploadBinary.Null else UploadBinary.Value entries)) "activity_history"].

Section Clear.
Context `{FT : GoJson.FloatText} `{DJ : UploadIndex.DocumentJson} `{CM : Protocol.CaseMapping} `{ST : SessionActor.SerdeText}.

Definition clear_activities (j : Journal) (request_id action_id : string) (w : World) : World * Journal * list Protocol.Outbound :=
  let '(w, (j, r)) := try_clear j w in
  match r with
  | Err _ => (w, j, Outcome.frames (Outcome.failed "" "Activity history could not be cleared") request_id "clear_activities" action_id)
  | Ok _ => (w, j, Outcome.frames (Outcome.completed "" None) request_id "clear_activities" action_id)
  end.

End Clear.

Lemma recent_suffix inner limit : exists older, snd <$> i_entries inner = older ++ recent inner limit /\
  (limit <> 0%nat -> length (recent inner limit) = Nat.min limit (length (i_entries inner))).
Proof.
  unfold recent. set (len := length (i_entries inner)). set (n := if decide _ then len else limit). exists (snd <$> take (len - n) (i_entries inner)).
  rewrite <- fmap_app, take_drop. split; [done|]. intros Hl. rewrite length_fmap, length_drop. fold len. unfold n. case_decide; lia.
Qed.

(** The history answer: [get_activity] answers the newest entries, oldest
    first and without gaps, as many as the request asks for between 1 and 500
    and the journal has; a limit that is missing, not an integer or out of
    range means 500; an empty view is [null]. *)
Theorem get_activity_newest (j : Journal) (message : Inbound.Inbound) :
  let limit := match Inbound.raw_int message "limit" with Some n => if decide (1 <= n <= 500) then Z.to_nat n else 500%nat | None => 500%nat end in
  exists older newest, snd <$> i_entries (j_inner j) = older ++ newest /\
    length newest = Nat.min limit (length (i_entries (j_inner j))) /\
    get_activity j message = [ActivityHistory (Some (if decide (newest = []) then UploadBinary.Null else UploadBinary.Value newest)) "activity_history"].
Proof.
  cbv zeta. unfold get_activity, HISTORY_LIMIT. set (limit := match Inbound.raw_int message "limit" with Some n => _ | None => _ end).
  assert (El : (if decide (1 <= default 500 (Inbound.raw_int message "limit") <= 500) then Z.to_nat (default 500 (Inbound.raw_int message "limit")) else Z.to_nat 500) = limit).
  { unfold limit. destruct (Inbound.raw_int message "limit"); cbn [default from_option id]; [|rewrite decide_True by lia]; done. }
  rewrite El. destruct (recent_suffix (j_inner j) limit) as (older & E & Hlen). exists older, (recent (j_inner j) limit). split; [done|]. split; [|done]. apply Hlen.
  unfold limit. destruct (Inbound.raw_int message "limit"); [case_decide; lia|done].
Qed.

End ActivityHandlers.
