(* ===== verification/PushTime.v ===== *)
(** * Timestamps of the notification subsystem

    [Timestamp] of [lerdr-coord/src/actions/push.rs]: seconds and nanoseconds
    since the epoch with Go's zero time, its RFC 3339 texts and their parser. *)

From S2P Require Import Prelude Utf8 Civil Delta JsonWire UploadTime.

Module PushTime.
Import UploadTime.

Definition NS_PER_MS : Z := 1000000.
Definition NS_PER_SEC : Z := 1000000000.

(** The derived order compares seconds first. *)
Record Timestamp := mkTime { secs : Z; nanos : Z }.
#[export] Instance Timestamp_eq_dec : EqDecision Timestamp.
Proof. solve_decision. Defined.

Definition ts_lt (a b : Timestamp) : Prop := secs a < secs b \/ secs a = secs b /\ nanos a < nanos b.
Definition ts_le (a b : Timestamp) : Prop := ~ ts_lt b a.
#[export] Instance ts_lt_dec : RelDecision ts_lt.
Proof. intros a b. unfold ts_lt. apply _. Defined.
#[export] Instance ts_le_dec : RelDecision ts_le.
Proof. intros a b. unfold ts_le. apply _. Defined.

(** The instant as a count of nanoseconds. *)
Definition total_ns (t : Timestamp) : Z := secs t * NS_PER_SEC + nanos t.

(** [nanos] stays below a second, [secs] is an [i64]. *)
Definition ts_ok (t : Timestamp) : Prop := is_i64 (secs t) /\ 0 <= nanos t < NS_PER_SEC.

Definition default_time : Timestamp := mkTime (-62135596800) 0.
Definition is_zero (t : Timestamp) : bool := bool_decide (t = default_time).

(** [Timestamp::now] on a clock that reads [ns]: both arms round the seconds
    down. *)
Definition from_clock (ns : Z) : Timestamp :=
  if decide (0 <= ns) then mkTime (ns / NS_PER_SEC) (ns mod NS_PER_SEC)
  else
    let d := - ns in
    if decide (d mod NS_PER_SEC = 0) then mkTime (- (d / NS_PER_SEC)) 0
    else mkTime (- (d / NS_PER_SEC) - 1) (NS_PER_SEC - d mod NS_PER_SEC).

Definition add_ns (t : Timestamp) (ns : Z) : Timestamp :=
  let total := secs t * NS_PER_SEC + nanos t + ns in
  mkTime (to_signed64 ((total / NS_PER_SEC) mod 2 ^ 64)) (total mod NS_PER_SEC).

(** ** Texts *)

Definition civil_from_days (z : Z) : Z * Z * Z :=
  let z := z + 719468 in
  let era := Z.quot (if decide (0 <= z) then z else z - 146096) 146097 in
  let doe := z - era * 146097 in
  let yoe := Z.quot (doe - Z.quot doe 1460 + Z.quot doe 36524 - Z.quot doe 146096) 365 in
  let y := yoe + era * 400 in
  let doy := doe - (365 * yoe + Z.quot yoe 4 - Z.quot yoe 100) in
  let mp := Z.quot (5 * doy + 2) 153 in
  let d := doy - Z.quot (153 * mp + 2) 5 + 1 in
  let m := if decide (mp < 10) then mp + 3 else mp - 9 in
  (if decide (m <= 2) then y + 1 else y, m, d).

Definition days_from_civil (y m d : Z) : Z :=
  let y := if decide (m <= 2) then y - 1 else y in
  let era := Z.quot (if decide (0 <= y) then y else y - 399) 400 in
  let yoe := y - era * 400 in
  let mp := Z.rem (m + 9) 12 in
  let doy := Z.quot (153 * mp + 2) 5 + d - 1 in
  let doe := yoe * 365 + Z.quot yoe 4 - Z.quot yoe 100 + doy in
  era * 146097 + doe - 719468.

Definition days_in_month (y m : Z) : Z :=
  if decide (m = 1 \/ m = 3 \/ m = 5 \/ m = 7 \/ m = 8 \/ m = 10 \/ m = 12) then 31
  else if decide (m = 4 \/ m = 6 \/ m = 9 \/ m = 11) then 30
  else if decide (m = 2) then if decide (Z.rem y 4 = 0 /\ (Z.rem y 100 <> 0 \/ Z.rem y 400 = 0)) then 29 else 28
  else 0.

Definition civil (t : Timestamp) : (Z * Z * Z) * (Z * Z * Z) :=
  let rem := secs t mod 86400 in
  (civil_from_days (secs t / 86400), (rem / 3600, rem mod 3600 / 60, rem mod 60)).

Definition to_seconds_text (t : Timestamp) : string :=
  let '(date, (hh, mm, ss)) := civil t in
  Civil.date_text date +:+ "T" +:+ Civil.pad 2 hh +:+ ":" +:+ Civil.pad 2 mm +:+ ":" +:+ Civil.pad 2 ss.

Definition to_rfc3339 (t : Timestamp) : string := to_seconds_text t +:+ "Z".

Definition to_rfc3339_nano (t : Timestamp) : string :=
  to_seconds_text t
  +:+ (if decide (0 < nanos t) then "." +:+ string_of_bytes (pop_zeros (as_bytes (Civil.pad 9 (nanos t)))) else "") +:+ "Z".

(** ** Reading *)

Definition ascii_digits (b : bytes) (start len : nat) : option Z :=
  if (length b <? start + len)%nat then None
  else if forallb is_digit (take len (drop start b)) then Some (digits_value (take len (drop start b))) else None.

(** The digits of a fraction: how many there are and their value at [scale]. *)
Fixpoint fraction_loop (b : bytes) (scale : Z) : nat * Z :=
  match b with
  | c :: rest =>
      if is_digit c then
        let '(n, v) := fraction_loop rest (if decide (0 < scale) then Z.quot scale 10 else scale) in
        (S n, (if decide (0 < scale) then (c - 48) * scale else 0) + v)
      else (0%nat, 0)
  | [] => (0%nat, 0)
  end.

Definition fraction_part (b : bytes) (index : nat) : option (nat * Z) :=
  if byte_is b index 46 || byte_is b index 44 then
    let '(n, v) := fraction_loop (drop (S index) b) 100000000 in
    if decide (n = 0%nat) then None else Some ((S index + n)%nat, v)
  else Some (index, 0).

Definition zone_part (b : bytes) (index : nat) : option (nat * Z) :=
  if byte_is b index 90 || byte_is b index 122 then Some (S index, 0)
  else if byte_is b index 43 || byte_is b index 45 then
    let sign := if byte_is b index 45 then -1 else 1 in
    oh ← ascii_digits b (index + 1) 2;
    if negb (byte_is b (index + 3) 58) then None
    else om ← ascii_digits b (index + 4) 2; Some ((index + 6)%nat, sign * (oh * 3600 + om * 60))
  else None.

(** A four-digit year: the checked arithmetic of the seconds cannot overflow. *)
Definition parse_rfc3339 (text : string) : option Timestamp :=
  let b := as_bytes text in
  if (length b <? 20)%nat then None
  else
    year ← ascii_digits b 0 4;
    if negb (byte_is b 4 45 && byte_is b 7 45 && byte_is b 13 58 && byte_is b 16 58) then None
    else
      month ← ascii_digits b 5 2;
      day ← ascii_digits b 8 2;
      if negb (byte_is b 10 84 || byte_is b 10 116) then None
      else
        hour ← ascii_digits b 11 2;
        minute ← ascii_digits b 14 2;
        second ← ascii_digits b 17 2;
        '(index, nanos) ← fraction_part b 19;
        '(index, offset_secs) ← zone_part b index;
        if decide (index <> length b) then None
        else if decide (~ (1 <= month <= 12) \/ day = 0 \/ days_in_month year month < day \/ 23 < hour \/ 59 < minute \/ 59 < second) then None
        else Some (mkTime (days_from_civil year month day * 86400 + (hour * 3600 + minute * 60 + second) - offset_secs) nanos).

Example parse_comma : parse_rfc3339 "2024-02-29t12:34:56,5+05:30" = Some (mkTime 1709190296 500000000).
Proof. vm_compute. reflexivity. Qed.
Example write_nanos : to_rfc3339_nano (mkTime 1709210096 120000000) = "2024-02-29T12:34:56.12Z"%string.
Proof. vm_compute. reflexivity. Qed.
Example write_zero : to_rfc3339 default_time = "0001-01-01T00:00:00Z"%string.
Proof. vm_compute. reflexivity. Qed.

(** ** Order and arithmetic *)

Lemma ts_lt_total a b : ts_ok a -> ts_ok b -> ts_lt a b <-> total_ns a < total_ns b.
Proof. intros [_ Ha] [_ Hb]. unfold ts_lt, total_ns, NS_PER_SEC in *. lia. Qed.

Lemma ts_le_total a b : ts_ok a -> ts_ok b -> ts_le a b <-> total_ns a <= total_ns b.
Proof. intros Ha Hb. unfold ts_le. rewrite ts_lt_total by done. lia. Qed.

#[export] Instance ts_le_refl : Reflexive ts_le.
Proof. intros a. unfold ts_le, ts_lt. lia. Qed.
#[export] Instance ts_le_trans : Transitive ts_le.
Proof. intros a b c. unfold ts_le, ts_lt. lia. Qed.
Lemma ts_le_or a b : ts_le a b \/ ts_le b a.
Proof. unfold ts_le, ts_lt. lia. Qed.
Lemma ts_lt_le a b : ts_lt a b -> ts_le a b.
Proof. unfold ts_le, ts_lt. lia. Qed.
Lemma ts_le_lt_trans a b c : ts_le a b -> ts_lt b c -> ts_lt a c.
Proof. unfold ts_le, ts_lt. lia. Qed.

Lemma from_clock_total ns : total_ns (from_clock ns) = ns /\ 0 <= nanos (from_clock ns) < NS_PER_SEC.
Proof. unfold from_clock, total_ns, NS_PER_SEC. repeat case_decide; cbn [secs nanos]; Z.to_euclidean_division_equations; lia. Qed.

(** As long as the seconds fit an [i64], adding is addition. *)
Lemma add_ns_total t ns : ts_ok t -> is_i64 ((total_ns t + ns) / NS_PER_SEC) -> total_ns (add_ns t ns) = total_ns t + ns /\ ts_ok (add_ns t ns).
Proof.
  intros _ Hr. unfold add_ns, ts_ok, total_ns in *. cbn [secs nanos]. rewrite to_signed64_mod by done.
  pose proof (Z.mod_pos_bound (secs t * NS_PER_SEC + nanos t + ns) NS_PER_SEC ltac:(done)). split; [|done].
  rewrite (Z.div_mod (secs t * NS_PER_SEC + nanos t + ns) NS_PER_SEC) at 3 by done. lia.
Qed.

(** ** The round trip *)

Lemma civil_same days : civil_from_days days = UploadTime.civil_from_days days.
Proof. change (civil_from_days days) with (Civil.civil_from_days days). by rewrite Civil.civil_is_wire, civil_is_date. Qed.

Lemma days_same y m d : 1 <= m <= 12 -> days_from_civil y m d = Civil.days_from_civil (y, m, d).
Proof.
  intros Hm. rewrite <- days_is_date by done. unfold days_from_civil, UploadTime.days_from_civil. cbv zeta.
  set (y' := if decide (m <= 2) then y - 1 else y). replace (Z.quot (if decide (0 <= y') then y' else y' - 399) 400) with (y' / 400) by (case_decide; Z.to_euclidean_division_equations; lia).
  replace (Z.rem (m + 9) 12) with (if decide (2 < m) then m - 3 else m + 9) by (case_decide; Z.to_euclidean_division_equations; lia). done.
Qed.

Lemma nano_text t : ts_ok t -> to_rfc3339_nano t = format_timestamp (total_ns t).
Proof.
  intros [_ Hn]. unfold to_rfc3339_nano, to_seconds_text, civil, format_timestamp, Civil.clock_text, total_ns, NS_PER_SEC in *.
  rewrite (Z.div_add_l (secs t) 1000000000 (nanos t)), (Z.div_small (nanos t)), Z.add_0_r by lia.
  rewrite (Z.add_comm (secs t * 1000000000)), Z_mod_plus_full, (Z.mod_small (nanos t)) by lia. rewrite civil_same.
  cbv beta iota zeta. rewrite <- !string_app_assoc. repeat f_equal. repeat case_decide; try lia; done.
Qed.

Lemma ascii_digits_same b s n : ascii_digits b s n = digits b s n.
Proof.
  unfold ascii_digits, digits. destruct (length b <? s + n)%nat eqn:E.
  - apply Nat.ltb_lt in E. unfold Delta.slice. by rewrite decide_False by lia.
  - apply Nat.ltb_ge in E. rewrite Delta.slice_Some by lia. cbn [mbind option_bind]. by rewrite Nat.add_comm, Nat.add_sub.
Qed.

(** The value of the first digit is at the scale, the rest below it. *)
Lemma digits_value_cons d l : digits_value (d :: l) = (d - 48) * 10 ^ Z.of_nat (length l) + digits_value l.
Proof.
  induction l as [|c l IH] using rev_ind; [unfold digits_value; cbn; lia|]. rewrite app_comm_cons, !digits_value_app, IH, length_app, Nat2Z.inj_add, Z.pow_add_r by lia.
  cbn [length]. lia.
Qed.

Lemma fraction_loop_digits l c rest n : Forall (fun c => 48 <= c <= 57) l -> is_digit c = false -> (length l <= n)%nat ->
  fraction_loop (l ++ c :: rest) (Z.quot (10 ^ Z.of_nat n) 10) = (length l, digits_value l * 10 ^ Z.of_nat (n - length l)).
Proof.
  revert n. induction l as [|d l IH]; intros n Hl Hc Hn; cbn [app fraction_loop length]; [by rewrite Hc|].
  apply Forall_cons in Hl as [Hd Hl]. unfold is_digit at 1. rewrite bool_decide_eq_true_2 by done. cbn [length] in Hn. destruct n as [|n]; [lia|].
  assert (Hs : Z.quot (10 ^ Z.of_nat (S n)) 10 = 10 ^ Z.of_nat n) by (rewrite Nat2Z.inj_succ, Z.pow_succ_r, Z.mul_comm, Z.quot_mul by lia; done).
  rewrite Hs. assert (0 < 10 ^ Z.of_nat n) by (apply Z.pow_pos_nonneg; lia). rewrite !decide_True by done. rewrite IH by (done || lia). f_equal.
  rewrite digits_value_cons. cbn [Nat.sub]. rewrite Z.mul_add_distr_r, <- Z.mul_assoc, <- Z.pow_add_r by lia. do 3 f_equal. lia.
Qed.

Lemma fraction_part_back pre sub : 0 <= sub < 1000000000 ->
  fraction_part (pre ++ fraction_bytes sub ++ [90]) (length pre) = Some ((length pre + length (fraction_bytes sub))%nat, sub).
Proof.
  intros Hs. unfold fraction_part, fraction_bytes. case_decide as H0.
  - cbn [app length]. unfold byte_is. rewrite list_lookup_middle by done. rewrite !bool_decide_eq_false_2 by done. by rewrite Nat.add_0_r, H0.
  - destruct (pop_zeros_value 9 sub ltac:(change (10 ^ Z.of_nat 9) with 1000000000; lia)) as (Hne & Hlen & Hd & Hv).
    set (l := pop_zeros (dec 9 sub)) in *. rewrite <- app_comm_cons, byte_at by done. cbn [orb].
    replace (drop (S (length pre)) (pre ++ 46 :: l ++ [90])) with (l ++ [90]) by (by rewrite <- Nat.add_1_r, drop_app_add).
    change 100000000 with (Z.quot (10 ^ Z.of_nat 9) 10). rewrite (fraction_loop_digits l 90 [] 9) by done. rewrite decide_False by (destruct l; [done|cbn; lia]). cbn [length].
    f_equal. f_equal; [lia|exact Hv].
Qed.

Lemma parse_written (y m d h mi s sub : Z) (value : string) :
  0 <= y <= 9999 -> 1 <= m <= 12 -> 1 <= d <= Civil.month_length y m -> 0 <= h <= 23 -> 0 <= mi <= 59 -> 0 <= s <= 59 -> 0 <= sub < 1000000000 ->
  as_bytes value = dec 4 y ++ 45 :: dec 2 m ++ 45 :: dec 2 d ++ 84 :: dec 2 h ++ 58 :: dec 2 mi ++ 58 :: dec 2 s ++ fraction_bytes sub ++ [90] ->
  parse_rfc3339 value = Some (mkTime (Civil.days_from_civil (y, m, d) * 86400 + (h * 3600 + mi * 60 + s)) sub).
Proof.
  intros Hy Hm Hd Hh Hmi Hs Hsub E. unfold parse_rfc3339. rewrite E. clear E. pose proof (month_length_bound y m) as Hml.
  assert (Hp2 : forall z, 0 <= z <= 99 -> 0 <= z < 10 ^ Z.of_nat 2) by (intros z; change (10 ^ Z.of_nat 2) with 100; lia).
  set (b := dec 4 y ++ _). set (y4 := dec 4 y ++ [45]). set (m2 := y4 ++ dec 2 m ++ [45]). set (d2 := m2 ++ dec 2 d ++ [84]).
  set (h2 := d2 ++ dec 2 h ++ [58]). set (i2 := h2 ++ dec 2 mi ++ [58]). set (s2 := i2 ++ dec 2 s).
  assert (Hlen : length b = (19 + (length (fraction_bytes sub) + 1))%nat) by (change 1%nat with (length [90]); by rewrite <- length_app).
  rewrite (proj2 (Nat.ltb_ge _ _)) by lia. rewrite !ascii_digits_same.
  assert (Hb : forall i c, b !! i = Some c -> byte_is b i c = true) by (intros i c Hi; unfold byte_is; by rewrite Hi, bool_decide_eq_true_2).
  rewrite !(Hb 4%nat), !(Hb 7%nat), !(Hb 10%nat 84), !(Hb 13%nat), !(Hb 16%nat) by done. cbn [negb andb orb].
  assert (Hy4 : digits b 0 4 = Some y) by (apply (digits_dec [] 4 y _ 0 eq_refl); change (10 ^ Z.of_nat 4) with 10000; lia).
  assert (Hm2 : digits b 5 2 = Some m) by exact (digits_dec y4 2 m _ 5 eq_refl (Hp2 m ltac:(lia))).
  assert (Hd2 : digits b 8 2 = Some d) by exact (digits_dec m2 2 d _ 8 eq_refl (Hp2 d ltac:(lia))).
  assert (Hh2 : digits b 11 2 = Some h) by exact (digits_dec d2 2 h _ 11 eq_refl (Hp2 h ltac:(lia))).
  assert (Hi2 : digits b 14 2 = Some mi) by exact (digits_dec h2 2 mi _ 14 eq_refl (Hp2 mi ltac:(lia))).
  assert (Hs2 : digits b 17 2 = Some s) by exact (digits_dec i2 2 s _ 17 eq_refl (Hp2 s ltac:(lia))).
  rewrite Hy4, Hm2, Hd2, Hh2, Hi2, Hs2. cbn [mbind option_bind].
  change b with (s2 ++ fraction_bytes sub ++ [90]). change 19%nat with (length s2).
  rewrite fraction_part_back by done. cbn [mbind option_bind]. unfold zone_part. rewrite app_assoc, byte_at by (by rewrite length_app).
  cbn [orb mbind option_bind]. rewrite decide_False by (rewrite !length_app; cbn [length]; lia).
  assert (Hdm : days_in_month y m = Civil.month_length y m) by exact (days_in_month_ok m y Hm ltac:(lia)).
  rewrite decide_False by lia. rewrite days_same by done. do 2 f_equal. lia.
Qed.

(** A time of the years 1 to 9999 written with nanoseconds is read back. *)
Lemma parse_nano t : ts_ok t -> - 719162 <= secs t / 86400 <= 2932896 -> parse_rfc3339 (to_rfc3339_nano t) = Some t.
Proof.
  intros Hok Hdays. rewrite nano_text by done. destruct Hok as [_ Hn]. set (time := total_ns t). set (days := secs t / 86400) in *. set (tod := secs t mod 86400).
  assert (Hsec : time / 1000000000 = secs t) by (unfold time, total_ns, NS_PER_SEC in *; rewrite Z.div_add_l, Z.div_small by lia; lia).
  assert (Hsub : time mod 1000000000 = nanos t) by (unfold time, total_ns, NS_PER_SEC in *; rewrite Z.add_comm, Z_mod_plus_full, Z.mod_small by lia; done).
  pose proof (date_valid days) as Hv. pose proof (date_year days Hdays) as Hy. destruct (UploadTime.civil_from_days days) as [[y m] d] eqn:E.
  destruct Hv as (Hm & Hd & Hsum). pose proof (month_length_bound y m). pose proof (Z.mod_pos_bound (secs t) 86400 ltac:(lia)) as Htod. fold tod in Htod.
  pose proof (format_bytes time y m d) as Hf. rewrite Hsec, Hsub in Hf. fold days in Hf. specialize (Hf E Hy Hm ltac:(lia)). cbv zeta in Hf. fold tod in Hf.
  unfold NS_PER_SEC in Hn. rewrite (parse_written y m d (tod / 3600) (tod mod 3600 / 60) (tod mod 60) (nanos t));
    [|try done; Z.to_euclidean_division_equations; lia..|exact Hf].
  rewrite Hsum. f_equal. destruct t as [sc nn]. cbn [secs nanos] in *. f_equal. unfold days, tod in *. clear -Htod. Z.to_euclidean_division_equations; lia.
Qed.

End PushTime.
