(* ===== verification/PushTypes.v ===== *)
(** * Notification types

    The data of [lerdr-coord/src/actions/push.rs]: event keys, device policies,
    subscriptions, queue entries and delivered records, with their validation,
    the derived ids, and the JSON documents they are stored in.  The url crate
    ([UrlParser]), SHA-256 ([Sha256]) and serde_json's pretty printer
    ([PrettyJson]) are parameters. *)

From S2P Require Import Prelude Utf8 Json JsonWire GoJson Inbound Protocol WatchFrame UploadIndex UploadHandlers PushTime.

Module PushTypes.
Import Utf8 Json Inbound PushTime.

(** ** Libraries *)

Class Sha256 := { sha256 : bytes -> bytes }.
Class PrettyJson := { to_string_pretty : json -> bytes }.

(** What [url::Url::parse] finds. *)
Record ParsedUrl := mkUrl {
  u_scheme : string;
  u_username : string;
  u_password : option string;
  u_host : option string;
  u_fragment : option string;
  u_port : option Z;
}.
Class UrlParser := { url_parse : string -> option ParsedUrl }.

(** ** Constants *)

Definition TEST_EVENT_TTL_NS : Z := 60 * NS_PER_SEC.
Definition PUBLISH_DEFAULT_TTL_NS : Z := 5 * 60 * NS_PER_SEC.
Definition MAX_PUSH_PAYLOAD_BYTES : nat := Z.to_nat 3993.
Definition MAX_IDENTIFIER_BYTES : nat := 256.
Definition PUSH_TEST_INTERVAL : Z := 10 * NS_PER_SEC.

Definition CATEGORY_ATTENTION : string := "attention".
Definition CATEGORY_QUESTION : string := "question".
Definition CATEGORY_BRIEF : string := "brief".
Definition CATEGORY_FINISHED : string := "finished".
Definition CATEGORY_UPDATE : string := "update".
Definition CATEGORY_TEST : string := "test".
Definition ALLOWED_CATEGORIES : list string := [CATEGORY_ATTENTION; CATEGORY_QUESTION; CATEGORY_BRIEF; CATEGORY_FINISHED; CATEGORY_UPDATE; CATEGORY_TEST].

Definition PREVIEW_HIDDEN : string := "hidden".
Definition PREVIEW_QUESTION : string := "question".
Definition PREVIEW_BRIEF : string := "brief".
Definition PLATFORM_OTHER : string := "other".
Definition REFERENCE_KEY_SIZE : nat := 32.

(** ** Event keys *)

Record PushEventKey := mkKey {
  k_device_id : string;
  k_server_session_id : string;
  k_pane_id : string;
  k_terminal_id : string;
  k_agent_session_id : string;
  k_generation : Z;
  k_event_id : string;
  k_interaction_revision : Z;
  k_category : string;
}.
#[export] Instance PushEventKey_eq_dec : EqDecision PushEventKey.
Proof. solve_decision. Defined.
#[export] Instance PushEventKey_countable : Countable PushEventKey.
Proof.
  refine (inj_countable
    (fun k => [inl (k_device_id k); inl (k_server_session_id k); inl (k_pane_id k); inl (k_terminal_id k); inl (k_agent_session_id k); inr (k_generation k); inl (k_event_id k);
       inr (k_interaction_revision k); inl (k_category k)] : list (string + Z))
    (fun l => match l with [inl a; inl b; inl c; inl d; inl e; inr f; inl g; inr h; inl i] => Some (mkKey a b c d e f g h i) | _ => None end) _). by intros [].
Defined.

Definition no_key : PushEventKey := mkKey "" "" "" "" "" 0 "" 0 "".
Definition with_device (k : PushEventKey) (device : string) : PushEventKey :=
  mkKey device (k_server_session_id k) (k_pane_id k) (k_terminal_id k) (k_agent_session_id k) (k_generation k) (k_event_id k) (k_interaction_revision k) (k_category k).

Definition valid_push_identifier (value : string) (required : bool) : bool :=
  if decide (value = ""%string) then negb required
  else bool_decide (String.length value <= MAX_IDENTIFIER_BYTES)%nat && bool_decide (trim value = value).

Definition valid_push_target_identifier (value : string) : bool := bool_decide (value = ""%string) || bool_decide (trim value = value).

(** [PushEventKey::validate]: the code of the refusal. *)
Definition key_error (k : PushEventKey) : option string :=
  if negb (valid_push_identifier (k_device_id k) true && valid_push_identifier (k_event_id k) true && valid_push_target_identifier (k_server_session_id k)
           && valid_push_target_identifier (k_pane_id k) && valid_push_target_identifier (k_terminal_id k) && valid_push_target_identifier (k_agent_session_id k))
  then Some "push_invalid_event_key"%string
  else if decide (k_category k ∈ [CATEGORY_ATTENTION; CATEGORY_QUESTION; CATEGORY_BRIEF; CATEGORY_FINISHED]) then
    if decide (k_server_session_id k = ""%string \/ k_pane_id k = ""%string \/ k_terminal_id k = ""%string \/ k_generation k < 0)
    then Some "push_invalid_event_key"%string else None
  else if decide (k_category k ∈ [CATEGORY_UPDATE; CATEGORY_TEST]) then None
  else Some "push_invalid_category"%string.

Definition key_target (k : PushEventKey) : TargetRef :=
  mkTarget (k_server_session_id k) (k_pane_id k) (k_terminal_id k) (k_generation k) (k_agent_session_id k) "" "".

(** [policy_slot]: the fields joined by NUL bytes. *)
Definition nul : string := String (byte_ascii 0) "".
Definition policy_slot (k : PushEventKey) : string :=
  k_device_id k +:+ nul +:+ k_server_session_id k +:+ nul +:+ k_pane_id k +:+ nul +:+ k_terminal_id k +:+ nul +:+ Protocol.z_string (k_generation k) +:+ nul
  +:+ k_agent_session_id k +:+ nul +:+ k_category k.

(** ** Device policies *)

Record DevicePolicy := mkPolicy {
  p_device_id : string;
  p_locale : string;
  p_categories : option (gmap string bool);
  p_settle : Z;
  p_cooldown : Z;
  p_snooze_until : option Timestamp;
  p_snoozed : bool;
  p_update_once : bool;
  p_update_versions : gmap string bool;
}.

Definition default_categories : gmap string bool :=
  list_to_map [(CATEGORY_ATTENTION, true); (CATEGORY_QUESTION, true); (CATEGORY_BRIEF, true); (CATEGORY_FINISHED, false); (CATEGORY_UPDATE, true); (CATEGORY_TEST, true)].

Section Locale.
Context `{CM : Protocol.CaseMapping}.

Definition underscore_to_dash (s : string) : string := string_of_bytes ((fun b => if decide (b = 95) then 45 else b) <$> as_bytes s).

Definition normalize_locale (value : string) : string :=
  let tag := Protocol.to_lowercase (underscore_to_dash (trim value)) in
  if bool_decide (tag = "zh-cn"%string) || String.prefix "zh-cn-" tag then "zh-CN" else "en".

Definition default_device_policy (device_id locale : string) : DevicePolicy :=
  mkPolicy device_id (normalize_locale locale) (Some default_categories) (2 * NS_PER_SEC) (30 * NS_PER_SEC) None false true ∅.

Definition set_locale (p : DevicePolicy) (l : string) (c : option (gmap string bool)) : DevicePolicy :=
  mkPolicy (p_device_id p) l c (p_settle p) (p_cooldown p) (p_snooze_until p) (p_snoozed p) (p_update_once p) (p_update_versions p).

Definition normalize_policy (p : DevicePolicy) : result string DevicePolicy :=
  if decide (trim (p_device_id p) = ""%string) then Err "push_device_required"%string
  else
    let p := set_locale p (normalize_locale (p_locale p)) (p_categories p) in
    if decide (p_settle p < 0 \/ p_cooldown p < 0) then Err "push_invalid_duration"%string
    else
      let categories := default default_categories (p_categories p) in
      if decide (Forall (fun c => c ∈ ALLOWED_CATEGORIES) (btree_keys categories)) then Ok (set_locale p (p_locale p) (Some categories))
      else Err "push_invalid_category"%string.

(** ** Notification texts *)

Definition localized_payload_text (locale category preview : string) (retract : bool) : result string (string * string) :=
  if retract then Ok (""%string, ""%string)
  else
    let zh := bool_decide (normalize_locale locale = "zh-CN"%string) in
    if decide (preview = PREVIEW_HIDDEN) then
      Ok (if zh then ("Lerdr 通知", "打开应用查看详情") else ("Lerdr notification", "Open the app to view details"))%string
    else if decide (preview = PREVIEW_QUESTION) then
      Ok (if zh then ("需要回复", "打开应用查看问题并回复") else ("Response needed", "Open the app to review and respond"))%string
    else if decide (preview = PREVIEW_BRIEF) then
      Ok (if decide (category = CATEGORY_FINISHED)
          then if zh then ("任务已完成", "打开应用查看已完成的任务") else ("Agent finished", "Open the app to view the completed task")
          else if zh then ("简报已就绪", "打开应用查看简报") else ("Brief ready", "Open the app to view the brief"))%string
    else Err "push_invalid_preview"%string.
End Locale.

(** ** Subscriptions *)

Record SubscriptionKeys := mkKeys { s_p256dh : string; s_auth : string }.
Record Subscription := mkSub {
  s_endpoint : string;
  s_keys : SubscriptionKeys;
  s_device_id : string;
  s_locale : string;
  s_platform : string;
  s_user_agent : string;
  s_notify_finished : bool;
  s_client_id : string;
}.
#[export] Instance SubscriptionKeys_eq_dec : EqDecision SubscriptionKeys.
Proof. solve_decision. Defined.
#[export] Instance Subscription_eq_dec : EqDecision Subscription.
Proof. solve_decision. Defined.

Definition no_sub : Subscription := mkSub "" (mkKeys "" "") "" "" "" "" false "".

Definition before_slash (b : bytes) : bytes := match list_find (fun c => c = 47) b with Some (i, _) => take i b | None => b end.

(** [valid_push_endpoint]; [None] is the panic of [&raw[scheme.len() + 3..]] on
    an endpoint without two slashes. *)
Definition valid_push_endpoint `{UrlParser} (raw : string) : option bool :=
  match url_parse raw with
  | None => Some false
  | Some u =>
      if decide (u_scheme u <> "https"%string) then Some false
      else if decide (u_username u <> ""%string \/ is_Some (u_password u)) then Some false
      else
        let b := as_bytes raw in
        let cut := (String.length (u_scheme u) + 3)%nat in
        if negb (Utf8.is_char_boundary b cut) then None
        else if decide (64 ∈ before_slash (drop cut b)) then Some false
        else match u_host u with
        | None => Some false
        | Some host =>
            if decide (host = ""%string) then Some false
            else if decide (default ""%string (u_fragment u) <> ""%string) then Some false
            else Some (bool_decide (default 443 (u_port u) = 443))
        end
  end.

(** ** Events and the queue *)

Record PushEvent := mkEvent {
  e_key : PushEventKey;
  e_payload : bytes;
  e_created_at : Timestamp;
  e_expires_at : Timestamp;
  e_retract : bool;
}.
#[export] Instance PushEvent_eq_dec : EqDecision PushEvent.
Proof. solve_decision. Defined.
Definition no_event : PushEvent := mkEvent no_key [] default_time default_time false.

Definition event_error (e : PushEvent) (now : Timestamp) : option string :=
  match key_error (e_key e) with
  | Some code => Some code
  | None =>
      if decide (e_payload e = [] \/ (MAX_PUSH_PAYLOAD_BYTES < length (e_payload e))%nat \/ is_zero (e_created_at e) = true \/ is_zero (e_expires_at e) = true
                 \/ ts_le (e_expires_at e) (e_created_at e))
      then Some "push_invalid_event"%string
      else if decide (ts_le (e_expires_at e) now) then Some "push_event_expired"%string
      else None
  end.

Record QueueEntry := mkEntry {
  q_id : string;
  q_event : PushEvent;
  q_subscription : Subscription;
  q_due_at : Timestamp;
  q_attempts : Z;
}.
#[export] Instance QueueEntry_eq_dec : EqDecision QueueEntry.
Proof. solve_decision. Defined.

Record DeliveredRecord := mkDelivered {
  d_key : PushEventKey;
  d_subscription : Subscription;
  d_tag : string;
  d_accepted_at : Timestamp;
}.

Inductive Disposition := Accepted | Retrying | Dropped | Pruned | Expired | Stale.
#[export] Instance Disposition_eq_dec : EqDecision Disposition.
Proof. solve_decision. Defined.

Record DeliveryResult := mkResult {
  dr_key : PushEventKey;
  dr_endpoint : string;
  dr_disposition : Disposition;
  dr_attempts : Z;
  dr_next_attempt : option Timestamp;
  dr_event : PushEvent;
  dr_subscription : Subscription;
}.

Definition MAX_DELIVERY_ATTEMPTS : Z := 6.

(** [checked_shl] refuses a shift of 64 or more; a smaller one shifts bits out. *)
Definition retry_delay_ns (attempts : Z) : Z :=
  let shift := Z.max attempts 1 - 1 in
  Z.min (if decide (shift < 64) then to_signed64 (Z.shiftl NS_PER_SEC shift mod 2 ^ 64) else i64_max) (60 * NS_PER_SEC).

(** ** JSON *)

Definition str_member (name value : string) : list (string * json) := if decide (value = ""%string) then [] else [(name, JString value)].
Definition true_member (name : string) (value : bool) : list (string * json) := if value then [(name, JBool true)] else [].
Definition time_json (t : Timestamp) : json := JString (to_rfc3339_nano t).
(** [go_zero_time]. *)
Definition zero_time_json (t : option Timestamp) : json := match t with Some t => time_json t | None => JString "0001-01-01T00:00:00Z" end.
Definition map_json {A} (f : A -> json) (m : gmap string A) : json := JObject (prod_map id f <$> btree_list m).

Definition key_json (k : PushEventKey) : json :=
  JObject [("device_id", JString (k_device_id k)); ("server_session_id", JString (k_server_session_id k)); ("pane_id", JString (k_pane_id k));
    ("terminal_id", JString (k_terminal_id k)); ("agent_session_id", JString (k_agent_session_id k)); ("generation", json_int (k_generation k));
    ("event_id", JString (k_event_id k)); ("interaction_revision", json_int (k_interaction_revision k)); ("category", JString (k_category k))]%string.

Definition keys_json (k : SubscriptionKeys) : json := JObject [("p256dh"%string, JString (s_p256dh k)); ("auth"%string, JString (s_auth k))].

Definition subscription_json (s : Subscription) : json :=
  JObject ([("endpoint", JString (s_endpoint s)); ("keys", keys_json (s_keys s))]%string ++ str_member "device_id" (s_device_id s) ++ str_member "locale" (s_locale s)
    ++ str_member "platform" (s_platform s) ++ str_member "user_agent" (s_user_agent s) ++ true_member "notify_finished" (s_notify_finished s)
    ++ str_member "client_id" (s_client_id s)).

Section Documents.
Context `{SB : UploadHandlers.StandardBase64}.

Definition event_json (e : PushEvent) : json :=
  JObject ([("key", key_json (e_key e)); ("payload", JString (UploadHandlers.std_encode (e_payload e))); ("created_at", time_json (e_created_at e));
    ("expires_at", time_json (e_expires_at e))]%string ++ true_member "retract" (e_retract e)).

Definition entry_json (q : QueueEntry) : json :=
  JObject [("id", JString (q_id q)); ("event", event_json (q_event q)); ("subscription", subscription_json (q_subscription q)); ("due_at", time_json (q_due_at q));
    ("attempts", json_int (q_attempts q))]%string.

Definition delivered_json (d : DeliveredRecord) : json :=
  JObject [("key", key_json (d_key d)); ("subscription", subscription_json (d_subscription d)); ("tag", JString (d_tag d)); ("accepted_at", time_json (d_accepted_at d))]%string.

Definition queue_json (entries : gmap string QueueEntry) (delivered : gmap string DeliveredRecord) : json :=
  JObject [("entries", map_json entry_json entries); ("delivered", map_json delivered_json delivered)]%string.
End Documents.

Definition policy_json (p : DevicePolicy) : json :=
  JObject ([("device_id", JString (p_device_id p)); ("locale", JString (p_locale p));
    ("categories", match p_categories p with Some c => map_json JBool c | None => JNull end); ("settle", json_int (p_settle p)); ("cooldown", json_int (p_cooldown p));
    ("snooze_until", zero_time_json (p_snooze_until p))]%string ++ true_member "snoozed" (p_snoozed p) ++ [("update_once"%string, JBool (p_update_once p))]
    ++ (if decide (p_update_versions p = ∅) then [] else [("update_versions"%string, map_json JBool (p_update_versions p))])).

Definition policies_json (global : option Timestamp) (policies : gmap string DevicePolicy) (last_accepted : gmap string Timestamp) : json :=
  JObject ([("global_snooze_until", zero_time_json global); ("policies", map_json policy_json policies)]%string
    ++ (if decide (last_accepted = ∅) then [] else [("last_accepted"%string, map_json time_json last_accepted)])).

Definition file_sub_json (s : Subscription) : json :=
  JObject ([("subscription"%string, JObject [("endpoint"%string, JString (s_endpoint s)); ("keys"%string, keys_json (s_keys s))])]
    ++ str_member "device_id" (s_device_id s) ++ str_member "locale" (s_locale s) ++ str_member "platform" (s_platform s)
    ++ [("client_id", JString (s_client_id s)); ("user_agent", JString (s_user_agent s)); ("notify_finished", JBool (s_notify_finished s))]%string).
Definition subscriptions_json (subs : list Subscription) : json := JObject [("subscriptions"%string, JArray (file_sub_json <$> subs))].

(** ** Ids *)

Section Ids.
Context `{FT : GoJson.FloatText} `{SH : Sha256}.

Definition delivery_id (k : PushEventKey) (endpoint : string) : string :=
  WatchFrame.hex_encode (sha256 (GoJson.to_vec (JObject [("key"%string, key_json k); ("endpoint"%string, JString endpoint)]))).

Definition notification_tag (k : PushEventKey) : string := "herdr-" +:+ WatchFrame.hex_encode (take 16 (sha256 (GoJson.to_vec (key_json k)))).
End Ids.

End PushTypes.
