(* ===== verification/PushDocs.v ===== *)
(** * The notification documents read back

    The derived readers of [queue.json], [subscriptions.json] and
    [policies.json] ([lerdr-coord/src/actions/push.rs], [push_queue.rs]) and
    that each reads what the writer of [PushTypes] wrote. *)

From S2P Require Import Prelude Utf8 Json JsonWire Inbound Protocol UploadIndex UploadHandlers UploadsRestart PushTime PushTypes.

Module PushDocs.
Import Json JsonWire Inbound PushTime PushTypes.
Import UploadIndex(de_or).

(** ** Readers *)

Definition de_time (v : json) : option Timestamp := s ← as_str v; parse_rfc3339 s.

(** [go_zero_time] behind a plain [default]: null is an error. *)
Definition de_zero_time (f : option json) : option (option Timestamp) :=
  match f with
  | None => Some None
  | Some v => t ← de_time v; Some (if is_zero t then None else Some t)
  end.

Definition insert_all {A} (ms : list (string * A)) : gmap string A := foldl (fun m kv => <[kv.1 := kv.2]> m) ∅ ms.

(** A [BTreeMap] field: the last of repeated members stays. *)
Definition de_map {A} (read : json -> option A) (v : json) : option (gmap string A) :=
  ms ← as_object v; pairs ← mapM (fun m => pair m.1 <$> read m.2) ms; Some (insert_all pairs).

Definition de_u32 (v : json) : option Z := n ← as_u64 v; if decide (n < 2 ^ 32) then Some n else None.

Definition key_fields : list string :=
  ["device_id"; "server_session_id"; "pane_id"; "terminal_id"; "agent_session_id"; "generation"; "event_id"; "interaction_revision"; "category"]%string.
Definition de_key (v : json) : option PushEventKey :=
  fs ← de_struct key_fields v;
  match fs with
  | [a; b; c; d; e; g; h; i; j] =>
      a ← de_string a; b ← de_string b; c ← de_string c; d ← de_string d; e ← de_string e; g ← de_i64 g; h ← de_string h; i ← de_i64 i; j ← de_string j;
      Some (mkKey a b c d e g h i j)
  | _ => None
  end.

Definition de_keys (v : json) : option SubscriptionKeys :=
  fs ← de_struct ["p256dh"; "auth"]%string v;
  match fs with [a; b] => a ← de_string a; b ← de_string b; Some (mkKeys a b) | _ => None end.

Definition subscription_fields : list string := ["endpoint"; "keys"; "device_id"; "locale"; "platform"; "user_agent"; "notify_finished"; "client_id"]%string.
Definition de_subscription (v : json) : option Subscription :=
  fs ← de_struct subscription_fields v;
  match fs with
  | [a; b; c; d; e; g; h; i] =>
      a ← de_string a; b ← de_or (mkKeys "" "") de_keys b; c ← de_string c; d ← de_string d; e ← de_string e; g ← de_string g; h ← de_bool h; i ← de_string i;
      Some (mkSub a b c d e g h i)
  | _ => None
  end.

Section Base64.
Context `{SB : UploadHandlers.StandardBase64}.

(** [go_bytes_b64]. *)
Definition de_payload (f : option json) : option bytes :=
  match f with
  | None | Some JNull => Some []
  | Some v => s ← as_str v; UploadHandlers.std_decode (as_bytes s)
  end.

Definition de_event (v : json) : option PushEvent :=
  fs ← de_struct ["key"; "payload"; "created_at"; "expires_at"; "retract"]%string v;
  match fs with
  | [a; b; c; d; e] =>
      a ← de_or no_key de_key a; b ← de_payload b; c ← de_or default_time de_time c; d ← de_or default_time de_time d; e ← de_bool e; Some (mkEvent a b c d e)
  | _ => None
  end.

Definition de_entry (v : json) : option QueueEntry :=
  fs ← de_struct ["id"; "event"; "subscription"; "due_at"; "attempts"]%string v;
  match fs with
  | [a; b; c; d; e] =>
      a ← de_string a; b ← de_or no_event de_event b; c ← de_or no_sub de_subscription c; d ← de_or default_time de_time d; e ← de_or 0 de_u32 e;
      Some (mkEntry a b c d e)
  | _ => None
  end.

Definition de_delivered (v : json) : option DeliveredRecord :=
  fs ← de_struct ["key"; "subscription"; "tag"; "accepted_at"]%string v;
  match fs with
  | [a; b; c; d] => a ← de_or no_key de_key a; b ← de_or no_sub de_subscription b; c ← de_string c; d ← de_or default_time de_time d; Some (mkDelivered a b c d)
  | _ => None
  end.

Definition Queue : Type := gmap string QueueEntry * gmap string DeliveredRecord.

(** [QueueFileRead]. *)
Definition de_queue (v : json) : option Queue :=
  fs ← de_struct ["entries"; "delivered"]%string v;
  match fs with [a; b] => a ← de_or ∅ (de_map de_entry) a; b ← de_or ∅ (de_map de_delivered) b; Some (a, b) | _ => None end.

(** [salvage_field]: the members that still decode, in the order of the parsed
    object. *)
Definition salvage_field {A} (read : json -> option A) (value : json) (field : string) : gmap string A :=
  match get value field ≫= as_object with
  | Some ms => insert_all (omap (fun m => pair m.1 <$> read m.2) ms)
  | None => ∅
  end.

Definition salvage (value : json) : Queue := (salvage_field de_entry value "entries", salvage_field de_delivered value "delivered").
End Base64.

Definition policy_fields : list string :=
  ["device_id"; "locale"; "categories"; "settle"; "cooldown"; "snooze_until"; "snoozed"; "update_once"; "update_versions"]%string.
Definition de_categories (f : option json) : option (option (gmap string bool)) :=
  match f with None | Some JNull => Some None | Some v => Some <$> de_map as_bool v end.
Definition de_policy (v : json) : option DevicePolicy :=
  fs ← de_struct policy_fields v;
  match fs with
  | [a; b; c; d; e; g; h; i; j] =>
      a ← de_string a; b ← de_string b; c ← de_categories c; d ← de_i64 d; e ← de_i64 e; g ← de_zero_time g; h ← de_bool h; i ← de_bool i; j ← de_or ∅ (de_map as_bool) j;
      Some (mkPolicy a b c d e g h i j)
  | _ => None
  end.

Record Policies := mkPolicies { pf_global : option Timestamp; pf_policies : gmap string DevicePolicy; pf_last_accepted : gmap string Timestamp }.

Definition de_policies (v : json) : option Policies :=
  fs ← de_struct ["global_snooze_until"; "policies"; "last_accepted"]%string v;
  match fs with
  | [a; b; c] => a ← de_zero_time a; b ← de_or ∅ (de_map de_policy) b; c ← de_or ∅ (de_map de_time) c; Some (mkPolicies a b c)
  | _ => None
  end.

(** Policies stored before [update_once] existed have it on. *)
Definition migrate_update_once (raw : json) (device_id : string) (p : DevicePolicy) : DevicePolicy :=
  let flag := policies ← get raw "policies" ≫= as_object; policy ← obj_get policies device_id ≫= as_object; obj_get policy "update_once" in
  if flag is Some _ then p
  else mkPolicy (p_device_id p) (p_locale p) (p_categories p) (p_settle p) (p_cooldown p) (p_snooze_until p) (p_snoozed p) true (p_update_versions p).

(** [load_policies] behind the read. *)
Definition read_policies (v : json) : option Policies :=
  file ← de_policies v;
  Some (mkPolicies (pf_global file) (map_imap (fun device p => Some (migrate_update_once (to_value v) device p)) (pf_policies file)) (pf_last_accepted file)).

Definition de_file_inner (v : json) : option (string * SubscriptionKeys) :=
  fs ← de_struct ["endpoint"; "keys"]%string v;
  match fs with [a; b] => a ← de_string a; b ← de_or (mkKeys "" "") de_keys b; Some (a, b) | _ => None end.

Definition de_file_sub (v : json) : option Subscription :=
  fs ← de_struct ["subscription"; "device_id"; "locale"; "platform"; "client_id"; "user_agent"; "notify_finished"]%string v;
  match fs with
  | [a; b; c; d; e; g; h] =>
      '(endpoint, keys) ← de_or (""%string, mkKeys "" "") de_file_inner a; b ← de_string b; c ← de_string c; d ← de_string d; e ← de_string e; g ← de_string g; h ← de_bool h;
      Some (mkSub endpoint keys b c d g h e)
  | _ => None
  end.

(** The wrapper, or [None] inside when it has no list. *)
Definition de_subscriptions_file (v : json) : option (option (list Subscription)) :=
  fs ← de_struct ["subscriptions"]%string v;
  match fs with
  | [None] | [Some JNull] => Some None
  | [Some l] => items ← as_array l; Some <$> mapM de_file_sub items
  | _ => None
  end.

Definition de_subscriptions (v : json) : option (list Subscription) :=
  match de_subscriptions_file v with
  | Some (Some l) => Some l
  | _ => items ← as_array v; mapM de_subscription items
  end.

(** ** What was written is read back *)

(** A time of the years 1 to 9999. *)
Definition writable_time (t : Timestamp) : Prop := ts_ok t /\ - 719162 <= secs t / 86400 <= 2932896.
Definition writable_key (k : PushEventKey) : Prop := is_i64 (k_generation k) /\ is_i64 (k_interaction_revision k).

Lemma de_time_json t : writable_time t -> de_time (time_json t) = Some t.
Proof. intros [H1 H2]. unfold de_time, time_json. cbn [as_str mbind option_bind]. by apply parse_nano. Qed.

Lemma de_key_json k : writable_key k -> de_key (key_json k) = Some k.
Proof.
  intros [Hg Hr]. destruct k as [a b c d e g h i j]. cbn [k_generation k_interaction_revision] in *. unfold de_key, key_json. cbn [k_device_id k_server_session_id k_pane_id k_terminal_id k_agent_session_id k_generation k_event_id k_interaction_revision k_category].
  pose proof (UploadsRestart.de_i64_int g Hg) as Eg. pose proof (UploadsRestart.de_i64_int i Hr) as Ei. generalize dependent (json_int g). generalize dependent (json_int i). intros ji Ei jg Eg.
  change (de_struct _ _) with (Some [Some (JString a); Some (JString b); Some (JString c); Some (JString d); Some (JString e); Some jg; Some (JString h); Some ji; Some (JString j)]).
  cbn [mbind option_bind de_string]. rewrite Eg. cbn [mbind option_bind]. rewrite Ei. done.
Qed.

Lemma de_subscription_json s : de_subscription (subscription_json s) = Some s.
Proof.
  destruct s as [a [p q] c d e g h i]. unfold de_subscription, subscription_json, str_member, true_member, keys_json.
  cbn [s_endpoint s_keys s_device_id s_locale s_platform s_user_agent s_notify_finished s_client_id s_p256dh s_auth].
  repeat case_decide; destruct h; subst; reflexivity.
Qed.

Lemma de_subscription_fields s : exists ms, subscription_json s = JObject ms.
Proof. unfold subscription_json. eauto. Qed.
Lemma de_or_object {A} (zero : A) read v x : (exists ms, v = JObject ms) -> read v = Some x -> de_or zero read (Some v) = Some x.
Proof. by intros [ms ->]. Qed.
Lemma de_or_time t : writable_time t -> de_or default_time de_time (Some (time_json t)) = Some t.
Proof. intros H. exact (de_time_json t H). Qed.

Section Stored.
Context `{SB : UploadHandlers.StandardBase64}.

Record writable_event (e : PushEvent) : Prop := {
  we_key : writable_key (e_key e);
  we_payload : UploadHandlers.std_decode (as_bytes (UploadHandlers.std_encode (e_payload e))) = Some (e_payload e);
  we_created : writable_time (e_created_at e);
  we_expires : writable_time (e_expires_at e);
}.
Definition writable_entry (q : QueueEntry) : Prop := writable_event (q_event q) /\ writable_time (q_due_at q) /\ 0 <= q_attempts q < 2 ^ 32.
Definition writable_record (d : DeliveredRecord) : Prop := writable_key (d_key d) /\ writable_time (d_accepted_at d).

Lemma de_event_json e : writable_event e -> de_event (event_json e) = Some e.
Proof.
  intros [Hk Hp Hc He]. destruct e as [k p c x r]. cbn [e_key e_payload e_created_at e_expires_at] in *. unfold de_event, event_json, true_member. cbn [e_key e_payload e_created_at e_expires_at e_retract].
  assert (Ek : de_or no_key de_key (Some (key_json k)) = Some k) by (apply de_or_object; [unfold key_json; eauto|by apply de_key_json]).
  pose proof (de_or_time c Hc) as Ec. pose proof (de_or_time x He) as Ex. generalize dependent (key_json k). intros jk Ek. generalize dependent (time_json c). intros jc Ec. generalize dependent (time_json x). intros jx Ex.
  assert (E : de_struct ["key"; "payload"; "created_at"; "expires_at"; "retract"]%string
     (JObject ([("key"%string, jk); ("payload"%string, JString (UploadHandlers.std_encode p)); ("created_at"%string, jc); ("expires_at"%string, jx)] ++ (if r then [("retract"%string, JBool true)] else []))) =
     Some [Some jk; Some (JString (UploadHandlers.std_encode p)); Some jc; Some jx; if r then Some (JBool true) else None]) by (destruct r; reflexivity).
  rewrite E. cbn [mbind option_bind]. rewrite Ek. cbn [mbind option_bind de_payload as_str]. rewrite Hp. cbn [mbind option_bind]. rewrite Ec. cbn [mbind option_bind]. rewrite Ex. by destruct r.
Qed.

Lemma de_queue_entry_json q : writable_entry q -> de_entry (entry_json q) = Some q.
Proof.
  intros (He & Hd & Hn). destruct q as [id e s d n]. cbn [q_event q_due_at q_attempts] in *. unfold de_entry, entry_json. cbn [q_id q_event q_subscription q_due_at q_attempts].
  assert (Ee : de_or no_event de_event (Some (event_json e)) = Some e) by (apply de_or_object; [unfold event_json; eauto|by apply de_event_json]).
  assert (Es : de_or no_sub de_subscription (Some (subscription_json s)) = Some s) by (apply de_or_object; [apply de_subscription_fields|apply de_subscription_json]).
  assert (En : de_or 0 de_u32 (Some (json_int n)) = Some n) by (unfold json_int; rewrite decide_True by lia; cbn; by rewrite decide_True by lia).
  pose proof (de_or_time d Hd) as Ed. generalize dependent (event_json e). intros je Ee. generalize dependent (subscription_json s). intros js Es. generalize dependent (time_json d). intros jd Ed. generalize dependent (json_int n). intros jn En.
  change (de_struct _ _) with (Some [Some (JString id); Some je; Some js; Some jd; Some jn]). cbn [mbind option_bind de_string]. rewrite Ee. cbn [mbind option_bind]. rewrite Es. cbn [mbind option_bind].
  rewrite Ed. cbn [mbind option_bind]. by rewrite En.
Qed.

Lemma de_delivered_json d : writable_record d -> de_delivered (delivered_json d) = Some d.
Proof.
  intros (Hk & Ht). destruct d as [k s tag t]. cbn [d_key d_accepted_at] in *. unfold de_delivered, delivered_json. cbn [d_key d_subscription d_tag d_accepted_at].
  assert (Ek : de_or no_key de_key (Some (key_json k)) = Some k) by (apply de_or_object; [unfold key_json; eauto|by apply de_key_json]).
  assert (Es : de_or no_sub de_subscription (Some (subscription_json s)) = Some s) by (apply de_or_object; [apply de_subscription_fields|apply de_subscription_json]).
  pose proof (de_or_time t Ht) as Et. generalize dependent (key_json k). intros jk Ek. generalize dependent (subscription_json s). intros js Es. generalize dependent (time_json t). intros jt Et.
  change (de_struct _ _) with (Some [Some jk; Some js; Some (JString tag); Some jt]). cbn [mbind option_bind]. rewrite Ek. cbn [mbind option_bind]. rewrite Es. cbn [mbind option_bind de_string]. by rewrite Et.
Qed.

Lemma insert_all_list {A} (l : list (string * A)) (m : gmap string A) k : NoDup l.*1 -> foldl (fun m kv => <[kv.1 := kv.2]> m) m l !! k = match list_to_map (M := gmap string A) l !! k with Some v => Some v | None => m !! k end.
Proof.
  revert m. induction l as [|[k' v] l IH]; intros m Hnd; [cbn [foldl list_to_map foldr]; by rewrite (lookup_empty (M := gmap string))|]. cbn [fmap list_fmap fst] in Hnd. apply NoDup_cons in Hnd as [Hn Hnd]. cbn [foldl fst snd list_to_map foldr]. rewrite IH by done.
  destruct (decide (k = k')) as [->|Hne].
  - rewrite lookup_insert_eq. rewrite not_elem_of_list_to_map_1 by done. by rewrite lookup_insert_eq.
  - rewrite !lookup_insert_ne by done. done.
Qed.

Lemma insert_all_btree {A} (m : gmap string A) : insert_all (btree_list m) = m.
Proof.
  apply map_eq. intros k. unfold insert_all. rewrite insert_all_list by apply NoDup_btree_keys. rewrite lookup_empty.
  assert (E : list_to_map (M := gmap string A) (btree_list m) = m) by (rewrite (list_to_map_proper (btree_list m) (map_to_list m)); [apply list_to_map_to_list|apply NoDup_btree_keys|apply btree_list_perm]).
  rewrite E. by destruct (m !! k).
Qed.

Lemma de_map_json {A} (f : A -> json) (read : json -> option A) (m : gmap string A) : map_Forall (fun _ v => read (f v) = Some v) m -> de_map read (map_json f m) = Some m.
Proof.
  intros H. unfold de_map, map_json. cbn [as_object mbind option_bind].
  assert (E : mapM (fun x : string * json => pair x.1 <$> read x.2) (prod_map id f <$> btree_list m) = Some (btree_list m)).
  { apply mapM_Some, Forall2_fmap_l, Forall_Forall2_diag, Forall_forall. intros [k v] Hk. apply elem_of_btree_list in Hk. unfold compose, prod_map. cbn [fst snd id]. by rewrite (H k v Hk). }
  rewrite E. cbn [mbind option_bind]. by rewrite insert_all_btree.
Qed.

(** The queue document is read back exactly. *)
Lemma de_queue_json e d : map_Forall (fun _ => writable_entry) e -> map_Forall (fun _ => writable_record) d -> de_queue (queue_json e d) = Some (e, d).
Proof.
  intros He Hd. unfold de_queue, queue_json.
  assert (Ee : de_or ∅ (de_map de_entry) (Some (map_json entry_json e)) = Some e) by (apply de_or_object; [unfold map_json; eauto|apply de_map_json; intros k v Hk; apply de_queue_entry_json; by eapply He]).
  assert (Ed : de_or ∅ (de_map de_delivered) (Some (map_json delivered_json d)) = Some d) by (apply de_or_object; [unfold map_json; eauto|apply de_map_json; intros k v Hk; apply de_delivered_json; by eapply Hd]).
  generalize dependent (map_json entry_json e). intros je Ee. generalize dependent (map_json delivered_json d). intros jd Ed.
  change (de_struct _ _) with (Some [Some je; Some jd]). cbn [mbind option_bind]. rewrite Ee. cbn [mbind option_bind]. by rewrite Ed.
Qed.
End Stored.

End PushDocs.
