(* ===== verification/PushState.v ===== *)
(** * Notification state and its files

    [State] of [lerdr-coord/src/actions/push.rs], the three documents it is
    persisted in, and their loading with the salvage of [push_queue.rs].  An
    operation runs on the state behind the mutex and the push directory; its
    error is the refusal code.  A call of the file system may fail ([Fs]). *)

From S2P Require Import Prelude Utf8 Json JsonWire GoJson Inbound Protocol E2eeCodec Fs UploadIndex UploadHandlers PushTime PushTypes PushDocs.

Module PushState.
Import Json Inbound Fs PushTime PushTypes PushDocs.

Definition MAX_QUEUE_ENTRIES : nat := 1024.
Definition MAX_QUEUE_BYTES : Z := 4 * 1024 * 1024.
Definition QUEUE_FILENAME : string := "queue.json".

Record State := mkState {
  dir : bool;                                   (** a push directory is set *)
  subscriptions : list Subscription;
  policies : gmap string DevicePolicy;
  global_snooze_until : option Timestamp;
  last_accepted : gmap string Timestamp;
  viewed_panes : gmap string TargetRef;
  test_last : gmap string Z;                    (** [Instant]s *)
  signer : bytes;                               (** the key of the [ReferenceSigner] *)
  entries : gmap string QueueEntry;
  delivered : gmap string DeliveredRecord;
  queue_dirty : bool;
  active : gset PushEventKey;
  retracting : gset PushEventKey;
  reconciled : bool;
  woken : bool;                                 (** the permit of [wake] *)
}.

Definition set_subscriptions (l : list Subscription) (s : State) : State :=
  mkState (dir s) l (policies s) (global_snooze_until s) (last_accepted s) (viewed_panes s) (test_last s) (signer s) (entries s) (delivered s) (queue_dirty s) (active s) (retracting s) (reconciled s) (woken s).
Definition set_policies (m : gmap string DevicePolicy) (s : State) : State :=
  mkState (dir s) (subscriptions s) m (global_snooze_until s) (last_accepted s) (viewed_panes s) (test_last s) (signer s) (entries s) (delivered s) (queue_dirty s) (active s) (retracting s) (reconciled s) (woken s).
Definition set_snooze (t : option Timestamp) (s : State) : State :=
  mkState (dir s) (subscriptions s) (policies s) t (last_accepted s) (viewed_panes s) (test_last s) (signer s) (entries s) (delivered s) (queue_dirty s) (active s) (retracting s) (reconciled s) (woken s).
Definition set_last_accepted (m : gmap string Timestamp) (s : State) : State :=
  mkState (dir s) (subscriptions s) (policies s) (global_snooze_until s) m (viewed_panes s) (test_last s) (signer s) (entries s) (delivered s) (queue_dirty s) (active s) (retracting s) (reconciled s) (woken s).
Definition set_viewed (m : gmap string TargetRef) (s : State) : State :=
  mkState (dir s) (subscriptions s) (policies s) (global_snooze_until s) (last_accepted s) m (test_last s) (signer s) (entries s) (delivered s) (queue_dirty s) (active s) (retracting s) (reconciled s) (woken s).
Definition set_test_last (m : gmap string Z) (s : State) : State :=
  mkState (dir s) (subscriptions s) (policies s) (global_snooze_until s) (last_accepted s) (viewed_panes s) m (signer s) (entries s) (delivered s) (queue_dirty s) (active s) (retracting s) (reconciled s) (woken s).
Definition set_queue (e : gmap string QueueEntry) (d : gmap string DeliveredRecord) (s : State) : State :=
  mkState (dir s) (subscriptions s) (policies s) (global_snooze_until s) (last_accepted s) (viewed_panes s) (test_last s) (signer s) e d (queue_dirty s) (active s) (retracting s) (reconciled s) (woken s).
Definition set_dirty (b : bool) (s : State) : State :=
  mkState (dir s) (subscriptions s) (policies s) (global_snooze_until s) (last_accepted s) (viewed_panes s) (test_last s) (signer s) (entries s) (delivered s) b (active s) (retracting s) (reconciled s) (woken s).
Definition set_keys (a r : gset PushEventKey) (s : State) : State :=
  mkState (dir s) (subscriptions s) (policies s) (global_snooze_until s) (last_accepted s) (viewed_panes s) (test_last s) (signer s) (entries s) (delivered s) (queue_dirty s) a r (reconciled s) (woken s).
Definition set_reconciled (b : bool) (s : State) : State :=
  mkState (dir s) (subscriptions s) (policies s) (global_snooze_until s) (last_accepted s) (viewed_panes s) (test_last s) (signer s) (entries s) (delivered s) (queue_dirty s) (active s) (retracting s) b (woken s).
Definition notify_one (s : State) : State :=
  mkState (dir s) (subscriptions s) (policies s) (global_snooze_until s) (last_accepted s) (viewed_panes s) (test_last s) (signer s) (entries s) (delivered s) (queue_dirty s) (active s) (retracting s) (reconciled s) true.

Definition in_memory (key : bytes) : State := mkState false [] ∅ None ∅ ∅ ∅ key ∅ ∅ false ∅ ∅ true false.

(** ** Operations *)

Definition M (A : Type) : Type := State * World -> State * World * result string A.

#[export] Instance m_ret : MRet M := fun A a sw => (sw, Ok a).
#[export] Instance m_bind : MBind M := fun A B f m sw =>
  match m sw with
  | (sw', Ok a) => f a sw'
  | (sw', Err e) => (sw', Err e)
  end.

Definition throw {A} (code : string) : M A := fun sw => (sw, Err code).
Definition state : M State := fun sw => (sw, Ok sw.1).
Definition modify (f : State -> State) : M unit := fun sw => (f sw.1, sw.2, Ok tt).
(** [m] with the cleanup of its error arm. *)
Definition or_else {A} (m : M A) (undo : M unit) : M A := fun sw =>
  match m sw with
  | (sw', Err e) => let '(sw'', _) := undo sw' in (sw'', Err e)
  | r => r
  end.
Definition check (e : option string) : M unit := match e with Some code => throw code | None => mret tt end.
Definition check_result {A} (r : result string A) : M A := fun sw => (sw, r).
(** A call on the directory whose error becomes a code. *)
Definition on_disk {A} (code : string) (m : Fs A) : M A := fun sw => let '(w, r) := m sw.2 in (sw.1, w, map_err (fun _ => code) r).
(** [Timestamp::now]. *)
Definition clock : M Timestamp := fun sw =>
  let w := sw.2 in
  match w_clock w with
  | [] => (sw, Ok (from_clock 0))
  | t :: rest => (sw.1, mkWorld (w_files w) (w_faults w) rest (w_temp_seq w) (w_trail w), Ok (from_clock t))
  end.

(** ** Files *)

(** [std::fs::write]: create or truncate, then write. *)
Definition create_truncate (name : string) : Fs unit := _ ← call; files ← files_of; put_files (<[name := []]> files).
Definition fs_write (name : string) (data : bytes) : Fs unit := _ ← create_truncate name; write_all name data.
Definition set_mode : Fs unit := call.

(** [Path::with_extension("tmp")] of a file of the push directory. *)
Definition strip_extension (b : bytes) : bytes :=
  match list_find (fun c => c = 46) (reverse b) with Some (i, _) => take (length b - S i) b | None => b end.
Definition tmp_of (name : string) : string := string_of_bytes (strip_extension (as_bytes name)) +:+ ".tmp".

Definition atomic_write (name : string) (data : bytes) : Fs unit :=
  let tmp := tmp_of name in
  _ ← fs_write tmp data; _ ← set_mode; _ ← rename tmp name; set_mode.

Section Persist.
Context `{PJ : PrettyJson} `{SB : UploadHandlers.StandardBase64}.

Definition document (v : json) : bytes := to_string_pretty v ++ [10].

Definition persist_subscriptions (subs : list Subscription) : M unit :=
  s ← state;
  if dir s then on_disk "push_persist_failed" (atomic_write "subscriptions.json" (document (subscriptions_json subs))) else mret tt.

Definition persist_policies : M unit :=
  s ← state;
  if dir s then on_disk "push_persist_failed" (atomic_write "policies.json" (document (policies_json (global_snooze_until s) (policies s) (last_accepted s))))
  else mret tt.

(** [push_queue::persist]. *)
Definition queue_over_limit (e : gmap string QueueEntry) (d : gmap string DeliveredRecord) : bool :=
  bool_decide (MAX_QUEUE_ENTRIES < size e + size d)%nat || bool_decide (MAX_QUEUE_BYTES < Z.of_nat (length (document (queue_json e d)))).

Definition persist_queue (e : gmap string QueueEntry) (d : gmap string DeliveredRecord) : M unit :=
  if queue_over_limit e d then throw "push_queue_limit"
  else on_disk "push_persist_failed" (atomic_write QUEUE_FILENAME (document (queue_json e d))).

Definition persist_queue_locked : M unit :=
  s ← state;
  if dir s then _ ← persist_queue (entries s) (delivered s); modify (set_dirty false) else mret tt.

(** ** Loading *)

(** [std::fs::read]; [None] when the file is not there. *)
Definition fs_read (name : string) : Fs bytes := _ ← open_read name; read_to_end name.
Definition read_optional (name : string) : Fs (option bytes) := fun w =>
  match fs_read name w with
  | (w', Ok data) => (w', Ok (Some data))
  | (w', Err e) => if decide (e_kind e = NotFound) then (w', Ok None) else (w', Err e)
  end.

Definition invalid_data (text : string) : IoError := mkIoError InvalidData text.

(** [quarantine]: the first free name of a thousand. *)
Definition quarantine_name (stamp : Z) (attempt : nat) : string :=
  if decide (attempt = 0%nat) then "queue.invalid-" +:+ decimal stamp +:+ ".json"
  else "queue.invalid-" +:+ decimal stamp +:+ "-" +:+ decimal (Z.of_nat attempt) +:+ ".json".
Definition symlink_metadata (name : string) : Fs bool := _ ← call; files ← files_of; mret (bool_decide (is_Some (files !! name))).
Fixpoint quarantine_loop (tries : nat) (stamp : Z) (attempt : nat) : Fs unit :=
  match tries with
  | O => fail (mkIoError AlreadyExists "push queue quarantine name exhausted")
  | S tries =>
      there ← symlink_metadata (quarantine_name stamp attempt);
      if (there : bool) then quarantine_loop tries stamp (S attempt) else rename QUEUE_FILENAME (quarantine_name stamp attempt)
  end.
Definition quarantine : Fs unit := stamp ← now; quarantine_loop 1000 stamp 0.

(** [serde_json::from_slice] of a document. *)
Context `{DJ : UploadIndex.DocumentJson}.

Definition rebuild (q : Queue) : Fs unit :=
  if queue_over_limit q.1 q.2 then fail (invalid_data "rebuild push queue: push_queue_limit")
  else with_error (fun _ => invalid_data "rebuild push queue: push_persist_failed") (atomic_write QUEUE_FILENAME (document (queue_json q.1 q.2))).

Definition load_queue : Fs Queue :=
  data ← read_optional QUEUE_FILENAME;
  match data with
  | None => mret (∅, ∅)
  | Some data =>
      match UploadIndex.from_slice data ≫= de_queue with
      | Some q => mret q
      | None =>
          let q := match UploadIndex.from_slice data with Some v => salvage (to_value v) | None => (∅, ∅) end in
          _ ← quarantine; _ ← rebuild q; mret q
      end
  end.

Definition load_policies : Fs Policies :=
  data ← read_optional "policies.json";
  match data with
  | None => mret (mkPolicies None ∅ ∅)
  | Some data => match UploadIndex.from_slice data ≫= read_policies with Some p => mret p | None => fail (invalid_data "policies.json") end
  end.

Context `{UP : UrlParser}.

(** [valid_push_endpoint] of every row; a panic is [None]. *)
Definition keep_valid (l : list Subscription) : option (list Subscription) :=
  flags ← mapM (fun s => valid_push_endpoint (s_endpoint s)) l;
  Some ((zip l flags) ≫= (fun x => if x.2 : bool then [x.1] else [])).

(** [load_subscriptions]; the panic is an outcome of its own. *)
Definition load_subscriptions : Fs (option (list Subscription)) :=
  data ← read_optional "subscriptions.json";
  match data with
  | None => mret (Some [])
  | Some data => match UploadIndex.from_slice data ≫= de_subscriptions with Some l => mret (keep_valid l) | None => fail (invalid_data "subscriptions.json") end
  end.

(** [ReferenceSigner::load_or_create] with the random key [fresh]. *)
Definition load_or_create (fresh : bytes) : Fs bytes :=
  data ← read_optional "action_ref.key";
  match data with
  | Some key => if decide (length key <> REFERENCE_KEY_SIZE) then fail (invalid_data "push_invalid_reference_key") else _ ← set_mode; mret key
  | None => _ ← atomic_write "action_ref.key" fresh; mret fresh
  end.

(** [queue.activeKeys]. *)
Definition queue_keys (e : gmap string QueueEntry) (d : gmap string DeliveredRecord) : gset PushEventKey :=
  list_to_set ((fun q => e_key (q_event q.2)) <$> map_to_list e) ∪ list_to_set ((fun r => d_key r.2) <$> map_to_list d).

(** [Push::new]; [None] inside is the panic of a stored endpoint. *)
Definition new (fresh : bytes) : Fs (option State) :=
  _ ← call; _ ← set_mode;
  subs ← load_subscriptions;
  match subs with
  | None => mret None
  | Some subs =>
      queue ← load_queue;
      file ← load_policies;
      key ← load_or_create fresh;
      let keys := queue_keys queue.1 queue.2 in
      mret (Some (mkState true subs (pf_policies file) (pf_global file) (pf_last_accepted file) ∅ ∅ key queue.1 queue.2 false keys ∅ (bool_decide (keys = ∅)) false))
  end.
End Persist.

End PushState.
