(* ===== verification/PushManager.v ===== *)
(** * The notification manager

    The operations of [Push] in [lerdr-coord/src/actions/push.rs]: signed
    references and payloads, policies, subscriptions, publishing, resolving and
    reconciling events, and the queue bookkeeping the delivery worker calls.
    Every operation is one section under the mutex unless noted. *)

From S2P Require Import Prelude Utf8 Json JsonWire GoJson Inbound Protocol E2eeCodec Fs UploadDisk UploadIndex UploadHandlers PushTime PushTypes PushDocs PushState.

Module PushManager.
Import Utf8 Json Inbound PushTime PushTypes PushDocs PushState.
#[local] Existing Instance UploadState.TargetRef_eq_dec.

(** ** Signed references *)

Record ReferenceClaims := mkClaims { c_key : PushEventKey; c_expires_at : Timestamp }.
Inductive RefError := RefInvalid | RefExpired | RefStale.
Definition ref_code (e : RefError) : string :=
  match e with RefInvalid => "push_invalid_reference" | RefExpired => "push_expired_reference" | RefStale => "push_stale_reference" end.

Definition claims_json (c : ReferenceClaims) : json := JObject [("key"%string, key_json (c_key c)); ("expires_at"%string, time_json (c_expires_at c))].
Definition de_claims (v : json) : option ReferenceClaims :=
  fs ← JsonWire.de_struct ["key"; "expires_at"]%string v;
  match fs with [a; b] => a ← UploadIndex.de_or no_key de_key a; b ← UploadIndex.de_or default_time de_time b; Some (mkClaims a b) | _ => None end.

(** [diff |= x ^ y] over the bytes. *)
Definition constant_time_eq (a b : bytes) : bool :=
  if decide (length a <> length b) then false
  else bool_decide (foldl (fun diff xy => Z.lor diff (Z.lxor xy.1 xy.2)) 0 (zip a b) = 0).

Section Signer.
Context `{SH : Sha256}.

Definition hmac_block (key : bytes) : bytes :=
  let k := if decide (64 < length key)%nat then sha256 key else key in k ++ replicate (64 - length k) 0.
Definition hmac_sha256 (key message : bytes) : bytes :=
  let block := hmac_block key in
  sha256 ((Z.lxor 0x5c <$> block) ++ sha256 ((Z.lxor 0x36 <$> block) ++ message)).

Context `{FT : GoJson.FloatText} `{B64 : E2eeCodec.Base64} `{DJ : UploadIndex.DocumentJson}.

Definition sign (key : bytes) (claims : ReferenceClaims) : result string string :=
  if decide (is_Some (key_error (c_key claims)) \/ is_zero (c_expires_at claims) = true) then Err "push_invalid_reference"%string
  else
    let data := GoJson.to_vec (claims_json claims) in
    Ok (E2eeCodec.b64_encode data +:+ "." +:+ E2eeCodec.b64_encode (hmac_sha256 key data)).

(** [token.split('.')] with exactly two parts. *)
Definition token_parts (token : string) : option (string * string) :=
  let b := as_bytes token in
  match list_find (fun c => c = 46) b with
  | Some (i, _) =>
      let rest := drop (S i) b in
      if decide (46 ∈ rest) then None else Some (string_of_bytes (take i b), string_of_bytes rest)
  | None => None
  end.

Definition verify (key : bytes) (token : string) (now : Timestamp) : result RefError ReferenceClaims :=
  match token_parts token with
  | None => Err RefInvalid
  | Some (payload_b64, sig_b64) =>
      match E2eeCodec.b64_decode payload_b64, E2eeCodec.b64_decode sig_b64 with
      | Some data, Some signature =>
          if negb (constant_time_eq signature (hmac_sha256 key data)) then Err RefInvalid
          else match UploadIndex.from_slice data ≫= de_claims with
          | None => Err RefInvalid
          | Some claims =>
              if decide (is_Some (key_error (c_key claims))) then Err RefInvalid
              else if decide (ts_le (c_expires_at claims) now) then Err RefExpired
              else Ok claims
          end
      | _, _ => Err RefInvalid
      end
  end.
End Signer.

(** ** Payloads *)

Section Payload.
Context `{SH : Sha256} `{FT : GoJson.FloatText} `{B64 : E2eeCodec.Base64} `{CM : Protocol.CaseMapping}.

Definition payload_json (key : PushEventKey) (title body url event_ref : string) (retract : bool) : json :=
  JObject ([("v", json_int 1); ("category", JString (k_category key)); ("key", key_json key); ("title", JString title); ("body", JString body);
    ("tag", JString (notification_tag key)); ("url", JString url); ("actions", JArray []); ("action_refs", JObject []); ("event_ref", JString event_ref)]%string
    ++ true_member "retract" retract).

Definition build_payload (key : bytes) (event_key : PushEventKey) (locale preview : string) (expires_at : option Timestamp) (retract : bool) : result string bytes :=
  match key_error event_key, expires_at with
  | Some code, _ => Err code
  | None, None => Err "push_expiry_required"%string
  | None, Some expires_at =>
      match sign key (mkClaims event_key expires_at) with
      | Err code => Err code
      | Ok event_ref =>
          match localized_payload_text locale (k_category event_key) preview retract with
          | Err code => Err code
          | Ok (title, body) =>
              let url := if decide (k_category event_key = CATEGORY_UPDATE \/ k_category event_key = CATEGORY_TEST) then "./#settings"%string else "./#push=" +:+ event_ref in
              let '(url, event_ref) := if retract then ("./"%string, ""%string) else (url, event_ref) in
              Ok (GoJson.to_vec (payload_json event_key title body url event_ref retract))
          end
      end
  end.
End Payload.

(** ** The policy gate *)

Section Gate.
Context `{CM : Protocol.CaseMapping}.

Definition policy_of (s : State) (device_id locale : string) : DevicePolicy := default (default_device_policy device_id locale) (policies s !! device_id).

Definition category_enabled (p : DevicePolicy) (category : string) : bool :=
  match p_categories p with Some c => default false (c !! category) | None => false end.

Definition zero_or_none (t : option Timestamp) : bool := match t with Some t => is_zero t | None => true end.

Definition snoozed_now (s : State) (p : DevicePolicy) (now : Timestamp) : bool :=
  (p_snoozed p && zero_or_none (p_snooze_until p))
  || match p_snooze_until p with Some until => negb (is_zero until) && bool_decide (ts_lt now until) | None => false end
  || match global_snooze_until s with Some until => bool_decide (ts_lt now until) | None => false end.

Definition being_viewed (s : State) (k : PushEventKey) : bool :=
  match viewed_panes s !! k_device_id k with Some viewed => bool_decide (viewed = key_target k) | None => false end.

Record PolicyDecision := mkDecision { pd_deliver : bool; pd_due_at : Timestamp; pd_code : string }.

Definition decide_locked (s : State) (k : PushEventKey) (locale : string) (now : Timestamp) : PolicyDecision :=
  let p := policy_of s (k_device_id k) locale in
  if negb (category_enabled p (k_category k)) then mkDecision false now "push_category_disabled"
  else if snoozed_now s p now then mkDecision false now "push_snoozed"
  else if being_viewed s k then mkDecision false now "push_viewed_pane"
  else
    let due := add_ns now (p_settle p) in
    let due := match last_accepted s !! policy_slot k with
               | Some last => let cooldown_end := add_ns last (p_cooldown p) in if decide (ts_lt due cooldown_end) then cooldown_end else due
               | None => due
               end in
    mkDecision true due "".

Definition allows_locked (s : State) (k : PushEventKey) (locale : string) (now : Timestamp) : bool :=
  let p := policy_of s (k_device_id k) locale in
  category_enabled p (k_category k) && negb (snoozed_now s p now) && negb (being_viewed s k).
End Gate.

(** ** Queue primitives *)

Section Manager.
Context `{SH : Sha256} `{FT : GoJson.FloatText} `{B64 : E2eeCodec.Base64} `{CM : Protocol.CaseMapping}.
Context `{PJ : PrettyJson} `{SB : UploadHandlers.StandardBase64} `{DJ : UploadIndex.DocumentJson} `{UP : UrlParser}.

Definition restore_queue (old : State) : M unit := modify (set_queue (entries old) (delivered old)).

Definition enqueue_locked (event : PushEvent) (subscription : Subscription) (due_at : Timestamp) : M string :=
  if decide (s_device_id subscription = ""%string \/ s_device_id subscription <> k_device_id (e_key event)) then throw "push_subscription_device_mismatch"
  else
    let id := delivery_id (e_key event) (s_endpoint subscription) in
    old ← state;
    _ ← modify (fun s => set_queue (<[id := mkEntry id event subscription due_at 0]> (entries s)) (delivered s) s);
    (** the previous entry comes back, or none does *)
    _ ← or_else persist_queue_locked
          (modify (fun s => set_queue (partial_alter (fun _ => entries old !! id) id (entries s)) (delivered s) s));
    mret id.

Definition named (endpoints : list string) : gset string := list_to_set (filter (fun e => e <> ""%string) endpoints).
Definition on_endpoints (device_id : string) (ends : gset string) (s : Subscription) : Prop := s_device_id s = device_id /\ s_endpoint s ∈ ends.
#[export] Instance on_endpoints_dec device_id ends s : Decision (on_endpoints device_id ends s).
Proof. unfold on_endpoints. apply _. Defined.

(** An entry moves to [sub], where it stays unless there is one already. *)
Definition rebind (sub : Subscription) (m : gmap string QueueEntry) (old : string * QueueEntry) : gmap string QueueEntry :=
  let m := delete old.1 m in
  let q := old.2 in
  let id := delivery_id (e_key (q_event q)) (s_endpoint sub) in
  match m !! id with
  | Some _ => m
  | None => <[id := mkEntry id (q_event q) sub (q_due_at q) (q_attempts q)]> m
  end.

Definition replace_subscriptions_locked (device_id : string) (endpoints : list string) (replacement : Subscription) : M unit :=
  let replace := named endpoints in
  if decide (replace = ∅) then mret tt
  else
    old ← state;
    let moving := filter (fun x => on_endpoints device_id replace (q_subscription x.2)) (btree_list (entries old)) in
    let entries' := foldl (rebind replacement) (entries old) moving in
    let kept := filter (fun x => ~ (on_endpoints device_id replace (d_subscription x.2) /\ s_endpoint (d_subscription x.2) <> s_endpoint replacement)) (delivered old) in
    let refresh r :=
      if decide (s_device_id (d_subscription r) = device_id /\ s_endpoint (d_subscription r) = s_endpoint replacement /\ s_endpoint replacement ∈ replace)
      then mkDelivered (d_key r) replacement (d_tag r) (d_accepted_at r) else r in
    _ ← modify (set_queue entries' (refresh <$> kept));
    or_else persist_queue_locked (restore_queue old).

Definition remove_subscriptions_locked (device_id : string) (endpoints : list string) : M unit :=
  let remove := named endpoints in
  if decide (remove = ∅) then mret tt
  else
    old ← state;
    _ ← modify (set_queue (filter (fun x => ~ on_endpoints device_id remove (q_subscription x.2)) (entries old))
                          (filter (fun x => ~ on_endpoints device_id remove (d_subscription x.2)) (delivered old)));
    or_else persist_queue_locked (restore_queue old).

(** ** Policies *)

(** [Push::policy]: an elapsed timed snooze is off in the copy. *)
Definition policy (device_id locale : string) : M DevicePolicy :=
  s ← state;
  let p := policy_of s device_id locale in
  match p_snoozed p, p_snooze_until p with
  | true, Some until =>
      if is_zero until then mret p
      else
        now ← clock;
        if decide (ts_le until now)
        then mret (mkPolicy (p_device_id p) (p_locale p) (p_categories p) (p_settle p) (p_cooldown p) None false (p_update_once p) (p_update_versions p))
        else mret p
  | _, _ => mret p
  end.

Definition set_policy (p : DevicePolicy) : M unit :=
  p ← check_result (normalize_policy p);
  old ← state;
  let device := p_device_id p in
  _ ← modify (fun s => set_policies (<[device := p]> (policies s)) s);
  or_else persist_policies (modify (fun s => set_policies (partial_alter (fun _ => policies old !! device) device (policies s)) s)).

Definition set_viewed_pane (device_id : string) (target : option TargetRef) : M unit :=
  modify (fun s => set_viewed (partial_alter (fun _ => target) device_id (viewed_panes s)) s).

(** [Instant::duration_since] saturates at zero. *)
Definition recent (now last : Z) : bool := bool_decide (Z.max 0 (now - last) < PUSH_TEST_INTERVAL).

Definition reserve_test (device_id : string) (now : Z) : M bool :=
  _ ← modify (fun s => set_test_last (filter (fun x => recent now x.2 = true) (test_last s)) s);
  s ← state;
  match test_last s !! device_id with
  | Some last => if recent now last then mret false else _ ← modify (fun s => set_test_last (<[device_id := now]> (test_last s)) s); mret true
  | None => _ ← modify (fun s => set_test_last (<[device_id := now]> (test_last s)) s); mret true
  end.

Definition mark_accepted (key : PushEventKey) (accepted_at : Timestamp) : M unit :=
  let slot := policy_slot key in
  old ← state;
  _ ← modify (fun s => set_last_accepted (<[slot := accepted_at]> (last_accepted s)) s);
  or_else persist_policies (modify (fun s => set_last_accepted (partial_alter (fun _ => last_accepted old !! slot) slot (last_accepted s)) s)).

Definition with_versions (p : DevicePolicy) (v : gmap string bool) : DevicePolicy :=
  mkPolicy (p_device_id p) (p_locale p) (p_categories p) (p_settle p) (p_cooldown p) (p_snooze_until p) (p_snoozed p) (p_update_once p) v.

Definition claim_update_version (device_id version : string) : M bool :=
  if decide (trim device_id = ""%string \/ trim version = ""%string) then throw "push_update_version_required"
  else
    s ← state;
    let p := policy_of s device_id "en" in
    if negb (p_update_once p) then mret true
    else if default false (p_update_versions p !! version) then mret false
    else
      let claimed := with_versions p (<[version := true]> (p_update_versions p)) in
      _ ← modify (fun s => set_policies (<[device_id := claimed]> (policies s)) s);
      _ ← or_else persist_policies (modify (fun s => set_policies (<[device_id := with_versions p (delete version (p_update_versions claimed))]> (policies s)) s));
      mret true.

Definition set_global_snooze (until : option Timestamp) : M unit :=
  old ← state;
  _ ← modify (set_snooze until);
  or_else persist_policies (modify (set_snooze (global_snooze_until old))).

(** ** Devices *)

Definition starts_with_device (device_id slot : string) : bool := String.prefix (device_id +:+ nul) slot.

Definition remove_device (device_id : string) : M unit :=
  if decide (trim device_id = ""%string) then throw "push_device_required"
  else
    s ← state;
    let filtered := filter (fun x => s_device_id x <> device_id) (subscriptions s) in
    _ ← persist_subscriptions filtered;
    _ ← modify (set_subscriptions filtered);
    _ ← modify (fun s => set_keys (filter (fun k => k_device_id k <> device_id) (active s)) (filter (fun k => k_device_id k <> device_id) (retracting s)) s);
    _ ← modify (fun s => set_queue (filter (fun x => s_device_id (q_subscription x.2) <> device_id) (entries s))
                                   (filter (fun x => s_device_id (d_subscription x.2) <> device_id) (delivered s)) s);
    _ ← or_else persist_queue_locked (restore_queue s);
    _ ← modify (fun s => set_viewed (delete device_id (viewed_panes s)) s);
    _ ← modify (fun s => set_policies (delete device_id (policies s)) s);
    _ ← modify (fun s => set_test_last (delete device_id (test_last s)) s);
    _ ← modify (fun s => set_last_accepted (filter (fun x => starts_with_device device_id x.1 = false) (last_accepted s)) s);
    persist_policies.

Definition remove_all_devices : M unit :=
  s ← state;
  _ ← persist_subscriptions [];
  _ ← modify (set_subscriptions []);
  _ ← modify (set_keys ∅ ∅);
  _ ← modify (set_queue ∅ ∅);
  _ ← or_else persist_queue_locked (restore_queue s);
  _ ← modify (set_viewed ∅);
  _ ← modify (set_policies ∅);
  _ ← modify (set_test_last ∅);
  _ ← modify (set_last_accepted ∅);
  persist_policies.

(** The part of a cooldown slot before its first NUL. *)
Definition slot_device (slot : string) : string :=
  let b := as_bytes slot in string_of_bytes (match list_find (fun c => c = 0) b with Some (i, _) => take i b | None => b end).

Definition device_ids (s : State) : gset string :=
  list_to_set (s_device_id <$> subscriptions s) ∪ dom (policies s) ∪ dom (viewed_panes s) ∪ dom (test_last s)
  ∪ list_to_set ((fun x => s_device_id (q_subscription x.2)) <$> map_to_list (entries s))
  ∪ list_to_set ((fun x => s_device_id (d_subscription x.2)) <$> map_to_list (delivered s))
  ∪ set_map k_device_id (active s) ∪ set_map k_device_id (retracting s) ∪ set_map slot_device (dom (last_accepted s)).

(** [reconcile_devices]: each orphan is removed in a section of its own, a
    failing one is skipped. *)
Fixpoint prune_all (ids : list string) : M (list string) :=
  match ids with
  | [] => mret []
  | id :: ids => fun sw =>
      let '(sw, r) := remove_device id sw in
      (rest ← prune_all ids; mret (match r with Ok _ => id :: rest | Err _ => rest end)) sw
  end.
Definition reconcile_devices (live : gset string) : M (list string) :=
  s ← state; prune_all (elements (device_ids s ∖ live)).

(** ** Subscriptions *)

Definition owner_rebindable (device_live : option (string -> bool)) (device_id : string) : bool :=
  match device_live with Some probe => negb (probe device_id) | None => false end.

Definition dead_owner (device_live : option (string -> bool)) (s : State) (sub : Subscription) : option string :=
  '(_, x) ← list_find (fun x => s_endpoint x = s_endpoint sub /\ s_device_id x <> s_device_id sub) (subscriptions s);
  if owner_rebindable device_live (s_device_id x) then Some (s_device_id x) else None.

(** The registry is written first; when the queue cannot be, the old registry
    is written again and the error of that is ignored. *)
Definition commit_subscription (filtered : list Subscription) (replacements : list string) (sub : Subscription) : M unit :=
  s ← state;
  _ ← persist_subscriptions filtered;
  _ ← or_else (replace_subscriptions_locked (s_device_id sub) replacements sub) (persist_subscriptions (subscriptions s));
  modify (set_subscriptions filtered).

(** The section of [subscribe] after a dead owner was evicted. *)
Definition subscribe_locked (sub : Subscription) (replace_endpoints : list string) : M unit :=
  s ← state;
  let replace := named replace_endpoints in
  let filtered := filter (fun x => ~ (s_endpoint x ∈ replace /\ s_endpoint x <> s_endpoint sub /\ s_device_id x = s_device_id sub)) (subscriptions s) in
  match list_find (fun x => s_endpoint x = s_endpoint sub) filtered with
  | Some (index, x) =>
      if decide (s_device_id x <> s_device_id sub) then throw "push_subscription_device_mismatch"
      else commit_subscription (<[index := sub]> filtered) (replace_endpoints ++ [s_endpoint sub]) sub
  | None => commit_subscription (filtered ++ [sub]) replace_endpoints sub
  end.

(** [Push::subscribe]; [None] is the panic of the endpoint check. *)
Definition subscribe (device_live : option (string -> bool)) (sub : Subscription) (replace_endpoints : list string) : option (M unit) :=
  if decide (s_p256dh (s_keys sub) = ""%string \/ s_auth (s_keys sub) = ""%string) then Some (throw "push_invalid_subscription")
  else match valid_push_endpoint (s_endpoint sub) with
  | None => None
  | Some false => Some (throw "push_subscription_endpoint_not_allowed")
  | Some true => Some (
      s ← state;
      _ ← (match dead_owner device_live s sub with Some dead => remove_device dead | None => mret tt end);
      subscribe_locked sub replace_endpoints)
  end.

Definition unsubscribe_device (device_id : string) (endpoints : list string) (client_id : string) : M unit :=
  if decide (trim device_id = ""%string) then throw "push_device_required"
  else
    s ← state;
    let remove := named endpoints in
    let matched x := s_device_id x = device_id /\ (s_endpoint x ∈ remove \/ client_id <> ""%string /\ s_client_id x = client_id) in
    let filtered := filter (fun x => ~ matched x) (subscriptions s) in
    let removed := s_endpoint <$> filter matched (subscriptions s) in
    _ ← persist_subscriptions filtered;
    _ ← modify (set_subscriptions filtered);
    if decide (removed = []) then mret tt else remove_subscriptions_locked device_id removed.

(** ** Events *)

Record PublishRequest := mkRequest { pr_key : PushEventKey; pr_preview : string; pr_created_at : option Timestamp; pr_expires_at : option Timestamp }.
Record PublishResult := mkPublished { queued : nat; suppressed : nat }.

(** The newest subscription of each device the key addresses. *)
Fixpoint select_newest (device_id : string) (seen : gset string) (newest_first : list Subscription) : list Subscription :=
  match newest_first with
  | [] => []
  | s :: rest =>
      if decide (s_device_id s = ""%string \/ s_device_id s ∈ seen \/ device_id <> ""%string /\ device_id <> s_device_id s) then select_newest device_id seen rest
      else s :: select_newest device_id ({[s_device_id s]} ∪ seen) rest
  end.
Definition selected (s : State) (device_id : string) : list Subscription := select_newest device_id ∅ (reverse (subscriptions s)).

Definition publish_one (request : PublishRequest) (now expires_at : Timestamp) (sub : Subscription) (result : PublishResult) : M PublishResult :=
  let key := with_device (pr_key request) (s_device_id sub) in
  s ← state;
  let decision := decide_locked s key (s_locale sub) now in
  if negb (pd_deliver decision) then mret (mkPublished (queued result) (S (suppressed result)))
  else
    payload ← check_result (build_payload (signer s) key (s_locale sub) (pr_preview request) (Some expires_at) false);
    let event := mkEvent key payload now expires_at false in
    _ ← check (event_error event now);
    _ ← enqueue_locked event sub (pd_due_at decision);
    _ ← modify (fun s => set_keys ({[key]} ∪ active s) (retracting s) s);
    mret (mkPublished (S (queued result)) (suppressed result)).

Fixpoint publish_all (request : PublishRequest) (now expires_at : Timestamp) (subs : list Subscription) (result : PublishResult) : M PublishResult :=
  match subs with
  | [] => mret result
  | sub :: subs => result ← publish_one request now expires_at sub result; publish_all request now expires_at subs result
  end.

Definition publish (request : PublishRequest) : M PublishResult :=
  now ← (match pr_created_at request with Some t => mret t | None => clock end);
  let expires_at := default (add_ns now PUBLISH_DEFAULT_TTL_NS) (pr_expires_at request) in
  s ← state;
  result ← publish_all request now expires_at (selected s (k_device_id (pr_key request))) (mkPublished 0 0);
  _ ← modify (fun s => if (0 <? queued result)%nat then notify_one s else s);
  mret result.

(** [cancelKey]: pending entries of the key go, and come back when the write
    fails. *)
Definition cancel_key (key : PushEventKey) : M unit :=
  s ← state;
  let removed := filter (fun x => e_key (q_event x.2) = key) (entries s) in
  _ ← modify (fun s => set_queue (filter (fun x => e_key (q_event x.2) <> key) (entries s)) (delivered s) s);
  if decide (removed = ∅) then mret tt
  else or_else persist_queue_locked (modify (fun s => set_queue (removed ∪ entries s) (delivered s) s)).

Definition forget_delivered (key : PushEventKey) (s : State) : State := set_queue (entries s) (filter (fun x => d_key x.2 <> key) (delivered s)) s.

Fixpoint retract_all (key : PushEventKey) (now expires_at : Timestamp) (records : list DeliveredRecord) : M unit :=
  match records with
  | [] => mret tt
  | r :: records =>
      s ← state;
      payload ← check_result (build_payload (signer s) key (s_locale (d_subscription r)) PREVIEW_HIDDEN (Some expires_at) true);
      _ ← enqueue_locked (mkEvent key payload now expires_at true) (d_subscription r) now;
      retract_all key now expires_at records
  end.

Definition resolve (key : PushEventKey) : M unit :=
  _ ← check (key_error key);
  _ ← cancel_key key;
  s ← state;
  let records := filter (fun r => d_key r = key) (btree_list (delivered s)).*2 in
  _ ← modify (fun s => set_keys (active s ∖ {[key]}) (retracting s) s);
  if decide (records = []) then
    _ ← modify (forget_delivered key); persist_queue_locked
  else
    _ ← modify (fun s => set_keys (active s) ({[key]} ∪ retracting s) s);
    now ← clock;
    _ ← retract_all key now (add_ns now PUBLISH_DEFAULT_TTL_NS) records;
    modify notify_one.

Fixpoint resolve_all (keys : list PushEventKey) : M unit :=
  match keys with [] => mret tt | k :: keys => _ ← resolve k; resolve_all keys end.

Definition resolve_pane_id (pane_id except_event_id : string) : M unit :=
  s ← state; resolve_all (elements (filter (fun k => k_pane_id k = pane_id /\ k_event_id k <> except_event_id) (active s))).

(** [sort_by_cached_key(notification_tag)]. *)
Definition tag_le (a b : PushEventKey) : Prop := String.le (notification_tag a) (notification_tag b).
#[export] Instance tag_le_dec : RelDecision tag_le.
Proof. intros a b. unfold tag_le, String.le. apply _. Defined.
Definition recovered_keys (s : State) : list PushEventKey := merge_sort tag_le (elements (queue_keys (entries s) (delivered s))).

Definition reconcilable (k : PushEventKey) : Prop := k_category k <> CATEGORY_UPDATE /\ k_category k <> CATEGORY_TEST.

Definition reconcile (current : list PushEventKey) : M unit :=
  let current_set := list_to_set (C := gset PushEventKey) current in
  if decide (Exists (fun k => key_error k <> None) current) then throw "push_invalid_event_key"
  else
    _ ← modify (set_reconciled false);
    s ← state;
    _ ← resolve_all (elements (filter (fun k => reconcilable k /\ k ∉ current_set) (active s)));
    _ ← modify (set_reconciled true);
    modify notify_one.

Definition verify_event_reference (s : State) (token : string) (now : Timestamp) : result RefError ReferenceClaims :=
  match verify (signer s) token now with
  | Err e => Err e
  | Ok claims => if reconciled s && bool_decide (c_key claims ∈ active s) then Ok claims else Err RefStale
  end.

Definition sign_event_reference (s : State) (key : PushEventKey) (expires_at : Timestamp) : result string string := sign (signer s) (mkClaims key expires_at).

End Manager.

End PushManager.
