(* ===== verification/PushDelivery.v ===== *)
(** * The delivery worker

    The queue sections of [lerdr-coord/src/actions/push.rs] the worker calls
    ([due_entries] to [flush_queue]) and the pass of [push_delivery.rs]:
    [drain_once] with at most four subscription groups in flight, and
    [process_group] cut at its sections under the mutex and its sends, so that
    the other operations of the manager may run in between. *)

From S2P Require Import Prelude Utf8 Json JsonWire GoJson Inbound Protocol E2eeCodec Fs UploadIndex UploadHandlers PushTime PushTypes PushDocs PushState PushManager.

Module PushDelivery.
Import PushTime PushTypes PushState PushManager.

Definition WORKER_TICK : Z := 250.
Definition MAX_IN_FLIGHT_GROUPS : nat := 4.

(** ** How a send ends *)

Inductive SendError := Status (code : Z) | Transport (what : string) | Local (what : string).

Definition is_terminal (e : SendError) : bool := match e with Status c => bool_decide (c = 404 \/ c = 410) | _ => false end.
Definition is_retryable (e : SendError) : bool :=
  match e with Status c => bool_decide (c = 408 \/ c = 429 \/ 500 <= c) | Transport _ => true | Local _ => false end.

Definition send_error_text (e : SendError) : string :=
  match e with
  | Status c => "push service returned " +:+ decimal c
  | Transport what => "push request failed (" +:+ what +:+ ")"
  | Local what => "push send refused (" +:+ what +:+ ")"
  end.

(** [truncate_endpoint]: sixty bytes, backed off to a character boundary. *)
Fixpoint back_to_boundary (b : bytes) (cut : nat) : nat :=
  if Utf8.is_char_boundary b cut then cut else match cut with O => O | S cut => back_to_boundary b cut end.
Definition truncate_endpoint (endpoint : string) : string :=
  let b := as_bytes endpoint in
  if (60 <? length b)%nat then string_of_bytes (take (back_to_boundary b 60) b) +:+ "..." else endpoint.

(** ** Sections on the queue *)

Definition due_le (a b : QueueEntry) : Prop := ts_lt (q_due_at a) (q_due_at b) \/ q_due_at a = q_due_at b /\ String.le (q_id a) (q_id b).
#[export] Instance due_le_dec : RelDecision due_le.
Proof. intros a b. unfold due_le, String.le. apply _. Defined.

Definition due_entries (s : State) (now : Timestamp) : list QueueEntry :=
  merge_sort due_le (filter (fun e => ts_le (q_due_at e) now) (btree_list (entries s)).*2).

Section Worker.
Context `{SH : Sha256} `{FT : GoJson.FloatText} `{B64 : E2eeCodec.Base64} `{CM : Protocol.CaseMapping}.
Context `{PJ : PrettyJson} `{SB : UploadHandlers.StandardBase64} `{DJ : UploadIndex.DocumentJson} `{UP : UrlParser}.

Definition entry_current (s : State) (key : PushEventKey) (now : Timestamp) : bool :=
  bool_decide (key ∈ retracting s) || bool_decide (key ∈ active s) && allows_locked s key "en" now.

Definition finish_entry (snapshot : QueueEntry) (disposition : Disposition) (now : Timestamp) : M bool :=
  s ← state;
  if decide (entries s !! q_id snapshot = Some snapshot) then
    let key := e_key (q_event snapshot) in
    let delivered' := if decide (disposition = Accepted /\ e_retract (q_event snapshot) = false)
                      then <[q_id snapshot := mkDelivered key (q_subscription snapshot) (notification_tag key) now]> (delivered s) else delivered s in
    _ ← modify (set_queue (delete (q_id snapshot) (entries s)) delivered');
    _ ← modify (set_dirty true);
    mret true
  else mret false.

Definition reschedule_entry (snapshot : QueueEntry) (attempts : Z) (next : Timestamp) : M bool :=
  s ← state;
  if decide (entries s !! q_id snapshot = Some snapshot) then
    _ ← modify (set_queue (<[q_id snapshot := mkEntry (q_id snapshot) (q_event snapshot) (q_subscription snapshot) next attempts]> (entries s)) (delivered s));
    _ ← modify (set_dirty true);
    mret true
  else mret false.

Definition note_accepted (key : PushEventKey) (accepted_at : Timestamp) : M unit :=
  s ← state; if decide (key ∈ retracting s) then mret tt else mark_accepted key accepted_at.

Definition has_entries_for (s : State) (key : PushEventKey) : bool := bool_decide (map_Exists (fun _ e => e_key (q_event e) = key) (entries s)).

Definition flush_queue : M unit := s ← state; if queue_dirty s then persist_queue_locked else mret tt.

(** ** Pruned subscriptions *)

(** The pruned results of each device and their endpoints. *)
Definition group_pruned (results : list DeliveryResult) : gmap string (gset string * list DeliveryResult) :=
  foldl (fun m r =>
    if decide (dr_disposition r = Pruned) then
      let device := s_device_id (dr_subscription r) in
      let '(ends, rs) := default (∅, []) (m !! device) in
      <[device := ({[s_endpoint (dr_subscription r)]} ∪ ends, rs ++ [r])]> m
    else m) ∅ results.

Definition pruned_ends (pruned : gmap string (gset string * list DeliveryResult)) (device : string) : gset string := default ∅ (fst <$> pruned !! device).

Definition fallback_of (s : State) (device_id : string) (ends : gset string) : option Subscription :=
  snd <$> list_find (fun x => s_device_id x = device_id /\ s_endpoint x ∉ ends) (reverse (subscriptions s)).

Definition restore_pruned (now : Timestamp) (s : State) (r : DeliveryResult) : State :=
  if decide (dr_disposition r = Pruned) then
    let id := delivery_id (e_key (dr_event r)) (s_endpoint (dr_subscription r)) in
    match entries s !! id with
    | Some _ => s
    | None =>
        let due := add_ns now (retry_delay_ns (dr_attempts r)) in
        let due := if decide (ts_le (e_expires_at (dr_event r)) due) then now else due in
        set_dirty true (set_queue (<[id := mkEntry id (dr_event r) (dr_subscription r) due (dr_attempts r)]> (entries s)) (delivered s) s)
    end
  else s.

Definition restore_pruned_locked (results : list DeliveryResult) (now : Timestamp) (s : State) : State := foldl (restore_pruned now) s results.

(** A pending entry of a pruned endpoint leaves, to the fallback if there is
    one and the slot is free. *)
Definition migrate_entry (fallback : option Subscription) (s : State) (e : QueueEntry) : State :=
  let m := delete (q_id e) (entries s) in
  let m' := match fallback with
            | Some sub =>
                let id := delivery_id (e_key (q_event e)) (s_endpoint sub) in
                match m !! id with Some _ => m | None => <[id := mkEntry id (q_event e) sub (q_due_at e) (q_attempts e)]> m end
            | None => m
            end in
  set_dirty true (set_queue m' (delivered s) s).

(** A failed event starts over on the fallback. *)
Definition requeue_result (now : Timestamp) (fallback : Subscription) (s : State) (r : DeliveryResult) : State :=
  let id := delivery_id (e_key (dr_event r)) (s_endpoint fallback) in
  match entries s !! id with
  | Some _ => s
  | None => set_dirty true (set_queue (<[id := mkEntry id (dr_event r) fallback now 0]> (entries s)) (delivered s) s)
  end.

Definition recover_device (now : Timestamp) (s : State) (device_id : string) (ends : gset string) (fallback : option Subscription) (rs : list DeliveryResult) : State :=
  let migrated := filter (fun e => on_endpoints device_id ends (q_subscription e)) (btree_list (entries s)).*2 in
  let s := foldl (migrate_entry fallback) s migrated in
  let gone := filter (fun x => on_endpoints device_id ends (d_subscription x.2)) (delivered s) in
  let s := if decide (gone = ∅) then s
           else set_dirty true (set_queue (entries s) (filter (fun x => ~ on_endpoints device_id ends (d_subscription x.2)) (delivered s)) s) in
  match fallback with Some sub => foldl (requeue_result now sub) s rs | None => s end.

(** The fallbacks are chosen from the registry before it shrinks. *)
Definition recover_pruned (results : list DeliveryResult) (now : Timestamp) : M unit :=
  let pruned := group_pruned results in
  if decide (pruned = ∅) then mret tt
  else
    old ← state;
    let filtered := filter (fun x => s_endpoint x ∉ pruned_ends pruned (s_device_id x)) (subscriptions old) in
    _ ← or_else (persist_subscriptions filtered) (modify (restore_pruned_locked results now));
    let recover s x := let '(device, (ends, rs)) := x in recover_device now s device ends (fallback_of old device ends) rs in
    _ ← modify (fun s => foldl recover s (btree_list pruned));
    _ ← modify (set_subscriptions filtered);
    let requeued := bool_decide (Exists (fun x => is_Some (fallback_of old x.1 x.2.1) /\ x.2.2 <> []) (btree_list pruned)) in
    modify (fun s => if requeued then notify_one s else s).

(** ** The sweep of finished keys *)

Definition forgets (s : State) (key : PushEventKey) : bool :=
  negb (has_entries_for s key) && (bool_decide (key ∈ retracting s) || bool_decide (k_category key = CATEGORY_TEST) || bool_decide (k_category key = CATEGORY_UPDATE)).

Definition sweep_key (s : State) (key : PushEventKey) : State :=
  let has := has_entries_for s key in
  if decide (key ∈ retracting s /\ has = false) then set_keys (active s) (retracting s ∖ {[key]}) s
  else if has then s
  else if decide (k_category key = CATEGORY_TEST \/ k_category key = CATEGORY_UPDATE \/ ~ map_Exists (fun _ r => d_key r = key) (delivered s))
  then set_keys (active s ∖ {[key]}) (retracting s) s
  else s.

Definition sweep_keys (results : list DeliveryResult) : M unit :=
  old ← state;
  let seen := elements (list_to_set (dr_key <$> results) : gset PushEventKey) in
  let forgotten := filter (fun k => forgets old k = true) seen in
  let delivered' := filter (fun x => d_key x.2 ∉ forgotten) (delivered old) in
  _ ← modify (set_queue (entries old) delivered');
  _ ← (if decide (size delivered' <> size (delivered old)) then persist_queue_locked else mret tt);
  modify (fun s => foldl sweep_key s seen).

(** ** A subscription group *)

(** Where the task of a group stands: before its next entry, awaiting a send,
    about to take the entry off the queue, about to start the cooldown. *)
Inductive GroupPhase := Ready | Sending (e : QueueEntry) | Ending (e : QueueEntry) (d : Disposition) (attempts : Z) | Noting (e : QueueEntry) (attempts : Z) | Failed (code : string).

Record Group := mkGroup { g_todo : list QueueEntry; g_terminal : bool; g_phase : GroupPhase; g_results : list DeliveryResult }.

Definition new_group (es : list QueueEntry) : Group := mkGroup es false Ready [].

Definition result_of (e : QueueEntry) (d : Disposition) (attempts : Z) (next : option Timestamp) : DeliveryResult :=
  mkResult (e_key (q_event e)) (s_endpoint (q_subscription e)) d attempts next (q_event e) (q_subscription e).

Definition push_result (g : Group) (r : DeliveryResult) : Group := mkGroup (g_todo g) (g_terminal g) Ready (g_results g ++ [r]).
Definition in_phase (g : Group) (p : GroupPhase) : Group := mkGroup (g_todo g) (g_terminal g) p (g_results g).

(** The checks before a send. *)
Definition begin_entry (s : State) (now : Timestamp) (g : Group) : Group :=
  match g_todo g with
  | [] => g
  | e :: rest =>
      let g := mkGroup rest (g_terminal g) Ready (g_results g) in
      if g_terminal g then in_phase g (Ending e Pruned (q_attempts e))
      else if decide (ts_le (e_expires_at (q_event e)) now) then in_phase g (Ending e Expired (q_attempts e))
      else if negb (entry_current s (e_key (q_event e)) now) then in_phase g (Ending e Stale (q_attempts e))
      else in_phase g (Sending e)
  end.

(** The answer to a send. *)
Definition end_send (now : Timestamp) (g : Group) (e : QueueEntry) (answer : result SendError unit) : M Group :=
  let attempts := q_attempts e + 1 in
  match answer with
  | Ok _ => mret (in_phase g (Ending e Accepted attempts))
  | Err error =>
      if is_terminal error then mret (mkGroup (g_todo g) true (Ending e Pruned attempts) (g_results g))
      else
        let next := add_ns now (retry_delay_ns attempts) in
        if decide (is_retryable error = true /\ attempts < MAX_DELIVERY_ATTEMPTS /\ ts_lt next (e_expires_at (q_event e))) then
          _ ← reschedule_entry e attempts next; mret (push_result g (result_of e Retrying attempts (Some next)))
        else mret (in_phase g (Ending e Dropped attempts))
  end.

Definition end_entry (now : Timestamp) (g : Group) (e : QueueEntry) (d : Disposition) (attempts : Z) : M Group :=
  _ ← finish_entry e d now;
  if decide (d = Accepted) then mret (in_phase g (Noting e attempts)) else mret (push_result g (result_of e d attempts None)).

(** An error of the cooldown write ends the group. *)
Definition end_noting (now : Timestamp) (g : Group) (e : QueueEntry) (attempts : Z) : M Group := fun sw =>
  match note_accepted (e_key (q_event e)) now sw with
  | (sw', Ok _) => (sw', Ok (push_result g (result_of e Accepted attempts None)))
  | (sw', Err code) => (sw', Ok (in_phase g (Failed code)))
  end.

(** The next section of a group; [answer] is used when it awaits a send. *)
Definition group_step (now : Timestamp) (answer : result SendError unit) (g : Group) : M Group :=
  match g_phase g with
  | Ready => s ← state; mret (begin_entry s now g)
  | Sending e => end_send now g e answer
  | Ending e d attempts => end_entry now g e d attempts
  | Noting e attempts => end_noting now g e attempts
  | Failed _ => mret g
  end.

(** ** A pass *)

Definition subscription_key (s : Subscription) : string := s_device_id s +:+ nul +:+ s_endpoint s.

(** Groups in the order of their first entry. *)
Fixpoint add_to_group (key : string) (e : QueueEntry) (groups : list (string * list QueueEntry)) : list (string * list QueueEntry) :=
  match groups with
  | [] => [(key, [e])]
  | (k, es) :: rest => if decide (k = key) then (k, es ++ [e]) :: rest else (k, es) :: add_to_group key e rest
  end.
Definition group_entries (es : list QueueEntry) : list (list QueueEntry) :=
  (foldl (fun groups e => add_to_group (subscription_key (q_subscription e)) e groups) [] es).*2.

Inductive PassPhase := Running | Recovering | Flushing (recovered : result string unit) | Sweeping | Ended (r : result string (list DeliveryResult)).

Record Pass := mkPass {
  ps_now : Timestamp;
  ps_pending : list (list QueueEntry);
  ps_tasks : list Group;
  ps_results : list DeliveryResult;
  ps_error : option string;
  ps_cancelled : bool;
  ps_phase : PassPhase;
}.

(** Tasks are started while there is room. *)
Definition refill (p : Pass) : Pass :=
  let room := (MAX_IN_FLIGHT_GROUPS - length (ps_tasks p))%nat in
  let tasks := ps_tasks p ++ (new_group <$> take room (ps_pending p)) in
  mkPass (ps_now p) (drop room (ps_pending p)) tasks (ps_results p) (ps_error p) (ps_cancelled p) (if decide (tasks = []) then Recovering else Running).

Definition start_pass (s : State) (now : Timestamp) : option Pass :=
  if reconciled s then Some (refill (mkPass now (group_entries (due_entries s now)) [] [] None false Running)) else None.

(** Aborting drops the tasks with what they found. *)
Definition abort_pass (p : Pass) (error : option string) (cancelled : bool) : Pass :=
  mkPass (ps_now p) (ps_pending p) [] (ps_results p) error cancelled Recovering.

Definition group_finished (g : Group) : option (result string (list DeliveryResult)) :=
  match g_phase g with
  | Failed code => Some (Err code)
  | Ready => if decide (g_todo g = []) then Some (Ok (g_results g)) else None
  | _ => None
  end.

Definition join_task (p : Pass) (i : nat) (r : result string (list DeliveryResult)) : Pass :=
  match r with
  | Ok rs => refill (mkPass (ps_now p) (ps_pending p) (delete i (ps_tasks p)) (ps_results p ++ rs) (ps_error p) (ps_cancelled p) Running)
  | Err code => abort_pass p (Some code) false
  end.

Definition set_phase (p : Pass) (ph : PassPhase) : Pass := mkPass (ps_now p) (ps_pending p) (ps_tasks p) (ps_results p) (ps_error p) (ps_cancelled p) ph.

(** The sections after the tasks: the flush is done whatever the recovery
    answered, and its error goes first. *)
Definition finish_pass (p : Pass) : State * Fs.World -> State * Fs.World * Pass := fun sw =>
  match ps_phase p with
  | Recovering => let '(sw, r) := recover_pruned (ps_results p) (ps_now p) sw in (sw, set_phase p (Flushing r))
  | Flushing recovered =>
      match flush_queue sw with
      | (sw, Err code) => (sw, set_phase p (Ended (Err code)))
      | (sw, Ok _) =>
          match recovered, ps_error p with
          | Err code, _ | Ok _, Some code => (sw, set_phase p (Ended (Err code)))
          | Ok _, None => (sw, set_phase p (if ps_cancelled p then Ended (Ok (ps_results p)) else Sweeping))
          end
      end
  | Sweeping => let '(sw, r) := sweep_keys (ps_results p) sw in (sw, set_phase p (Ended (match r with Ok _ => Ok (ps_results p) | Err code => Err code end)))
  | Running | Ended _ => (sw, p)
  end.

End Worker.

End PushDelivery.
