(* ===== verification/PushSystem.v ===== *)
(** * The manager and the worker together

    Operations of the manager and sections of a delivery pass in any order, with
    the sends logged, and the rules that carry a state invariant through them. *)

From S2P Require Import Prelude Utf8 Json JsonWire GoJson Inbound Protocol E2eeCodec Fs UploadIndex UploadHandlers PushTime PushTypes PushDocs PushState PushManager PushDelivery.

Module PushSystem.
Import Inbound Fs PushTime PushTypes PushState PushManager PushDelivery.

(** ** State invariants through operations *)

Definition forget_result {A} (m : M A) : M unit := fun sw => let '(sw, r) := m sw in (sw, match r with Ok _ => Ok tt | Err e => Err e end).

Definition keeps {A} (P : State -> Prop) (m : M A) : Prop := forall sw, P sw.1 -> P (m sw).1.1.

Lemma pkeeps_ret {A} P (a : A) : keeps P (mret a).
Proof. by intros sw. Qed.
Lemma pkeeps_bind {A B} P (m : M A) (f : A -> M B) : keeps P m -> (forall a, keeps P (f a)) -> keeps P (m ≫= f).
Proof. intros Hm Hf sw HP. unfold mbind, m_bind. specialize (Hm sw HP). destruct (m sw) as [sw' [a|e]]; [by apply Hf|done]. Qed.
Lemma keeps_state_bind {B} P (f : State -> M B) : (forall s, P s -> keeps P (f s)) -> keeps P (state ≫= f).
Proof. intros Hf sw HP. unfold mbind, m_bind, state. by apply Hf. Qed.
Lemma keeps_throw {A} P code : keeps P (@throw A code).
Proof. by intros sw. Qed.
Lemma keeps_modify P f : (forall s, P s -> P (f s)) -> keeps P (modify f).
Proof. intros Hf sw. apply Hf. Qed.
Lemma keeps_or_else {A} P (m : M A) u : keeps P m -> keeps P u -> keeps P (or_else m u).
Proof. intros Hm Hu sw HP. unfold or_else. specialize (Hm sw HP). destruct (m sw) as [sw' [a|e]]; [done|]. specialize (Hu sw' Hm). by destruct (u sw') as [sw'' r]. Qed.
Lemma keeps_on_disk {A} P code (m : Fs A) : keeps P (on_disk code m).
Proof. intros sw HP. unfold on_disk. by destruct (m sw.2). Qed.
Lemma keeps_clock P : keeps P clock.
Proof. intros sw HP. unfold clock. by destruct (w_clock sw.2). Qed.
Lemma keeps_check P e : keeps P (check e).
Proof. destruct e; [apply keeps_throw|apply pkeeps_ret]. Qed.
Lemma keeps_check_result {A} P (r : result string A) : keeps P (check_result r).
Proof. by intros sw. Qed.
Lemma keeps_forget {A} P (m : M A) : keeps P m -> keeps P (forget_result m).
Proof. intros Hm sw HP. unfold forget_result. specialize (Hm sw HP). by destruct (m sw) as [sw' [a|e]]. Qed.

(** What holds when the operation succeeds. *)
Definition gives {A} (P : State -> Prop) (m : M A) (Q : State -> Prop) : Prop := forall sw sw' a, P sw.1 -> m sw = (sw', Ok a) -> Q sw'.1.

Lemma gives_bind {A B} P Q R (m : M A) (f : A -> M B) : gives P m Q -> (forall a, gives Q (f a) R) -> gives P (m ≫= f) R.
Proof. intros Hm Hf sw sw' b HP. unfold mbind, m_bind. destruct (m sw) as [sw1 [a|e]] eqn:E; [|done]. apply Hf. by eapply Hm. Qed.
Lemma gives_keeps {A} P (m : M A) : keeps P m -> gives P m P.
Proof. intros Hm sw sw' a HP E. specialize (Hm sw HP). by rewrite E in Hm. Qed.
Lemma gives_state {B} P Q (f : State -> M B) : (forall s, P s -> gives (fun x => x = s) (f s) Q) -> gives P (state ≫= f) Q.
Proof. intros Hf sw sw' b HP E. by apply (Hf sw.1 HP sw sw' b). Qed.
Lemma gives_modify P Q f : (forall s, P s -> Q (f s)) -> gives P (modify f) Q.
Proof. intros Hf sw sw' a HP [= <- _]. by apply Hf. Qed.
Lemma gives_or_else {A} P Q (m : M A) u : gives P m Q -> gives P (or_else m u) Q.
Proof. intros Hm sw sw' a HP. unfold or_else. destruct (m sw) as [sw1 [b|e]] eqn:E; [intros [= <- <-]; by eapply Hm|]. by destruct (u sw1). Qed.

(** Walks through the binds of an operation. *)
Ltac keep :=
  repeat first
    [ apply keeps_state_bind; intros ? ?
    | apply pkeeps_bind; [|intros ?]
    | apply pkeeps_ret | apply keeps_throw | apply keeps_on_disk | apply keeps_clock | apply keeps_check | apply keeps_check_result
    | apply keeps_or_else | apply keeps_modify; intros ? ?
    | case_decide ].

Section System.
Context `{SH : Sha256} `{FT : GoJson.FloatText} `{B64 : E2eeCodec.Base64} `{CM : Protocol.CaseMapping}.
Context `{PJ : PrettyJson} `{SB : UploadHandlers.StandardBase64} `{DJ : UploadIndex.DocumentJson} `{UP : UrlParser}.
Context (device_live : option (string -> bool)).

(** ** Operations of other tasks *)

Inductive PushOp :=
| OpSetPolicy (p : DevicePolicy)
| OpSetViewedPane (device_id : string) (target : option TargetRef)
| OpReserveTest (device_id : string) (now : Z)
| OpSubscribe (sub : Subscription) (replace_endpoints : list string)
| OpUnsubscribe (device_id : string) (endpoints : list string) (client_id : string)
| OpRemoveDevice (device_id : string)
| OpRemoveAllDevices
| OpReconcileDevices (live : gset string)
| OpPublish (request : PublishRequest)
| OpResolve (key : PushEventKey)
| OpResolvePane (pane_id except_event_id : string)
| OpReconcile (current : list PushEventKey)
| OpClaimUpdate (device_id version : string)
| OpGlobalSnooze (until : option Timestamp).

Definition run_op (op : PushOp) : M unit :=
  match op with
  | OpSetPolicy p => set_policy p
  | OpSetViewedPane d t => set_viewed_pane d t
  | OpReserveTest d now => forget_result (reserve_test d now)
  | OpSubscribe sub replace => match subscribe device_live sub replace with Some m => m | None => throw "panic" end
  | OpUnsubscribe d ends c => unsubscribe_device d ends c
  | OpRemoveDevice d => remove_device d
  | OpRemoveAllDevices => remove_all_devices
  | OpReconcileDevices live => forget_result (reconcile_devices live)
  | OpPublish request => forget_result (publish request)
  | OpResolve key => resolve key
  | OpResolvePane p e => resolve_pane_id p e
  | OpReconcile current => reconcile current
  | OpClaimUpdate d v => forget_result (claim_update_version d v)
  | OpGlobalSnooze until => set_global_snooze until
  end.

(** ** Events *)

Inductive Event :=
| EvOp (op : PushOp)
| EvStart (now : Timestamp)
| EvAdvance (i : nat) (answer : result SendError unit)
| EvJoin (i : nat)
| EvCancel
| EvFinish.

(** A send, with the state it was decided in. *)
Record Sent := mkSent { se_entry : QueueEntry; se_now : Timestamp; se_state : State }.

Record Sys := mkSys { sy_state : State; sy_world : World; sy_pass : option Pass; sy_sent : list Sent }.

Definition with_tasks (p : Pass) (tasks : list Group) : Pass :=
  mkPass (ps_now p) (ps_pending p) tasks (ps_results p) (ps_error p) (ps_cancelled p) (ps_phase p).

(** The send a group starts between two of its sections. *)
Definition starts_send (g g' : Group) : option QueueEntry :=
  match g_phase g, g_phase g' with Ready, Sending e => Some e | _, _ => None end.

Definition running (p : Pass) : Prop := match ps_phase p with Running => True | _ => False end.
#[export] Instance running_dec p : Decision (running p).
Proof. unfold running. destruct (ps_phase p); apply _. Defined.

Definition step (y : Sys) (ev : Event) : option Sys :=
  let sw := (sy_state y, sy_world y) in
  match ev, sy_pass y with
  | EvOp op, p => let '(s, w, _) := run_op op sw in Some (mkSys s w p (sy_sent y))
  | EvStart now, None => Some (mkSys (sy_state y) (sy_world y) (start_pass (sy_state y) now) (sy_sent y))
  | EvAdvance i answer, Some p =>
      if decide (running p) then
        g ← ps_tasks p !! i;
        match group_step (ps_now p) answer g sw with
        | (s, w, Ok g') =>
            let log := match starts_send g g' with Some e => [mkSent e (ps_now p) (sy_state y)] | None => [] end in
            Some (mkSys s w (Some (with_tasks p (<[i := g']> (ps_tasks p)))) (sy_sent y ++ log))
        | (s, w, Err _) => Some (mkSys s w (Some p) (sy_sent y))
        end
      else None
  | EvJoin i, Some p =>
      if decide (running p) then g ← ps_tasks p !! i; r ← group_finished g; Some (mkSys (sy_state y) (sy_world y) (Some (join_task p i r)) (sy_sent y)) else None
  | EvCancel, Some p => if decide (running p) then Some (mkSys (sy_state y) (sy_world y) (Some (abort_pass p (ps_error p) true)) (sy_sent y)) else None
  | EvFinish, Some p =>
      let '(s, w, p') := finish_pass p sw in
      Some (mkSys s w (match ps_phase p' with Ended _ => None | _ => Some p' end) (sy_sent y))
  | _, _ => None
  end.

Fixpoint run (y : Sys) (evs : list Event) : option Sys :=
  match evs with [] => Some y | ev :: evs => y' ← step y ev; run y' evs end.

(** ** The three writes *)

Lemma keeps_persist_subscriptions P l : keeps P (persist_subscriptions l).
Proof. unfold persist_subscriptions. keep. destruct (dir s); keep. Qed.
Lemma keeps_persist_policies P : keeps P persist_policies.
Proof. unfold persist_policies. keep. destruct (dir s); keep. Qed.
Lemma keeps_persist_queue P : (forall s b, P s -> P (set_dirty b s)) -> keeps P persist_queue_locked.
Proof. intros Hd. unfold persist_queue_locked, persist_queue. keep. destruct (dir s); keep; [destruct (queue_over_limit _ _); keep|by apply Hd]. Qed.

End System.

End PushSystem.

(** * Notifications on concrete data

    Libraries that compute, two devices and an event, for the witnesses. *)

From S2P Require Import Prelude Utf8 Json JsonWire GoJson Inbound Protocol E2eeCodec Fs UploadIndex UploadHandlers UploadsInvariant PushTime PushTypes PushDocs PushState PushManager PushDelivery.

Module PushDemo.
Import Fs PushTime PushTypes PushState PushManager PushDelivery PushSystem.
Export E2eeInstances UploadHandlers.

#[export] Instance demo_floats : GoJson.FloatText := {| GoJson.float_text _ := [48] |}.
#[export] Instance demo_lower : Protocol.CaseMapping := {| Protocol.to_lowercase s := s |}.
(** A digest of 32 bytes: the sum of the bytes and their number. *)
#[export] Instance demo_sha : Sha256 := {| sha256 b := be_bytes 16 (foldl (fun acc x => (acc * 31 + x + 1) mod 2 ^ 64) 7 b) ++ be_bytes 16 (Z.of_nat (length b)) |}.
#[export] Instance demo_pretty : PrettyJson := {| to_string_pretty := GoJson.to_vec |}.
#[export] Instance demo_reader : UploadIndex.DocumentJson := {| UploadIndex.from_slice _ := None |}.
#[export] Instance demo_url : UrlParser :=
  {| url_parse s := if String.prefix "https:" s then Some (mkUrl "https" "" None (Some "push.example"%string) None None) else None |}.

Definition sub_a : Subscription := mkSub "https://push.example/a" (mkKeys "p" "k") "dev-a" "en" "other" "" false "client".
Definition sub_b : Subscription := mkSub "https://push.example/b" (mkKeys "p" "k") "dev-b" "en" "other" "" false "client".
Definition demo_key : PushEventKey := mkKey "" "primary" "p1" "t1" "" 0 "ev" 0 CATEGORY_ATTENTION.
Definition at_sec (n : Z) : Timestamp := mkTime n 0.

Definition demo_world : World := mkWorld ∅ [] [] 0 [].
Definition demo_start : Sys := mkSys (in_memory (replicate 32 1)) demo_world None [].

(** Two devices subscribe, an event is published for both and a pass starts. *)
Definition demo_before : list Event :=
  [EvOp (OpSubscribe sub_a []); EvOp (OpSubscribe sub_b []); EvOp (OpPublish (mkRequest demo_key PREVIEW_HIDDEN (Some (at_sec 100)) None)); EvStart (at_sec 103)].

(** Every step of the two groups, the answers of the service being [ok]. *)
Definition demo_pass : list Event := [EvAdvance 0 (Ok tt); EvAdvance 1 (Ok tt); EvAdvance 0 (Ok tt); EvAdvance 1 (Ok tt)].

Definition run_demo (y : Sys) (evs : list Event) : Sys := default y (run None y evs).

Definition runs (y : Sys) (evs : list Event) : bool := match run None y evs with Some _ => true | None => false end.
Lemma run_demo_ok y evs : runs y evs = true -> run None y evs = Some (run_demo y evs).
Proof. unfold runs, run_demo. by destruct (run None y evs). Qed.

Example demo_sends : length (sy_sent (run_demo demo_start (demo_before ++ demo_pass))) = 2%nat.
Proof. vm_compute. reflexivity. Qed.

End PushDemo.
