(* ===== verification/PushOwners.v ===== *)
(** * Whose device a notification belongs to

    Entries and delivered records carry the device of their key, and once a
    device is removed nothing of it comes back to be sent, whatever the manager
    and the delivery worker do in between. *)

From S2P Require Import Prelude Utf8 Json JsonWire GoJson Inbound Protocol E2eeCodec Fs UploadIndex UploadHandlers PushTime PushTypes PushDocs PushState PushManager PushDelivery PushSystem.

Module PushOwners.
Import Inbound Fs PushTime PushTypes PushState PushManager PushDelivery PushSystem.

Section Owners.
Context `{SH : Sha256} `{FT : GoJson.FloatText} `{B64 : E2eeCodec.Base64} `{CM : Protocol.CaseMapping}.
Context `{PJ : PrettyJson} `{SB : UploadHandlers.StandardBase64} `{DJ : UploadIndex.DocumentJson} `{UP : UrlParser}.
Context (device_live : option (string -> bool)).

Definition entry_device (e : QueueEntry) : string := s_device_id (q_subscription e).

(** Devices that may appear; [strict] when pending entries are covered too. *)
Section Clear.
Context (Dv : string -> Prop) (strict : Prop).

Definition entry_ok (e : QueueEntry) : Prop := entry_device e = k_device_id (e_key (q_event e)) /\ (strict -> Dv (entry_device e)).
Definition record_ok (r : DeliveredRecord) : Prop := s_device_id (d_subscription r) = k_device_id (d_key r) /\ Dv (k_device_id (d_key r)).

Record clear (s : State) : Prop := {
  cl_entries : map_Forall (fun _ e => entry_ok e) (entries s);
  cl_delivered : map_Forall (fun _ r => record_ok r) (delivered s);
  cl_subs : Forall (fun x => Dv (s_device_id x)) (subscriptions s);
  cl_active : set_Forall (fun k => Dv (k_device_id k)) (active s);
  cl_retracting : set_Forall (fun k => Dv (k_device_id k)) (retracting s);
}.

Lemma clear_queue s e d : clear s -> map_Forall (fun _ x => entry_ok x) e -> map_Forall (fun _ x => record_ok x) d -> clear (set_queue e d s).
Proof. intros [H1 H2 H3 H4 H5] He Hd. by constructor. Qed.
Lemma clear_keys s a r : clear s -> set_Forall (fun k => Dv (k_device_id k)) a -> set_Forall (fun k => Dv (k_device_id k)) r -> clear (set_keys a r s).
Proof. intros [H1 H2 H3 H4 H5] Ha Hr. by constructor. Qed.
Lemma clear_subs s l : clear s -> Forall (fun x => Dv (s_device_id x)) l -> clear (set_subscriptions l s).
Proof. intros [H1 H2 H3 H4 H5] Hl. by constructor. Qed.
(** The other fields do not matter. *)
Lemma clear_same s s' : clear s -> entries s' = entries s -> delivered s' = delivered s -> subscriptions s' = subscriptions s -> active s' = active s -> retracting s' = retracting s -> clear s'.
Proof. intros [H1 H2 H3 H4 H5] E1 E2 E3 E4 E5. constructor; [rewrite E1|rewrite E2|rewrite E3|rewrite E4|rewrite E5]; done. Qed.

Lemma clear_dirty s b : clear s -> clear (set_dirty b s).
Proof. by intros [H1 H2 H3 H4 H5]; constructor. Qed.

Ltac same := (eapply clear_same; [eassumption|reflexivity..]).

Lemma keeps_queue : keeps clear persist_queue_locked.
Proof. apply keeps_persist_queue. intros s b H. same. Qed.

Lemma keeps_restore s : clear s -> keeps clear (restore_queue s).
Proof. intros Hs. unfold restore_queue. apply keeps_modify. intros s' H. apply clear_queue; [done|apply Hs..]. Qed.

Lemma entries_put (m : gmap string QueueEntry) id (o : option QueueEntry) : map_Forall (fun _ e => entry_ok e) m -> (forall e, o = Some e -> entry_ok e) -> map_Forall (fun _ e => entry_ok e) (partial_alter (fun _ => o) id m).
Proof. intros Hm Ho i e. destruct (decide (i = id)) as [->|Hne]; [rewrite lookup_partial_alter_eq; apply Ho|rewrite lookup_partial_alter_ne by done; apply Hm]. Qed.

Lemma keeps_enqueue event sub due : Dv (s_device_id sub) -> keeps clear (enqueue_locked event sub due).
Proof.
  intros Hd. unfold enqueue_locked. case_decide as Hb; [apply keeps_throw|]. apply Decidable.not_or in Hb as [_ Hb].
  apply keeps_state_bind. intros s Hs. apply pkeeps_bind; [apply keeps_modify; intros s' H|intros _; apply pkeeps_bind; [apply keeps_or_else; [apply keeps_queue|apply keeps_modify; intros s' H]|intros _; apply pkeeps_ret]].
  - apply clear_queue; [done| |apply H]. apply map_Forall_insert_2; [|apply H]. split; [|by intros _]. apply dec_stable. exact Hb.
  - apply clear_queue; [done| |apply H]. apply entries_put; [apply H|]. intros e He. by eapply (cl_entries _ Hs).
Qed.

(** An entry of the device moves to another subscription of it. *)
Lemma entry_ok_moved e id sub due n : entry_ok e -> entry_device e = s_device_id sub -> entry_ok (mkEntry id (q_event e) sub due n).
Proof. intros [H1 H2] E. split; unfold entry_device in *; cbn [q_subscription q_event]; [congruence|]. intros Hs. rewrite <- E. by apply H2. Qed.

Lemma rebind_ok sub m old : map_Forall (fun _ e => entry_ok e) m -> entry_ok old.2 -> entry_device old.2 = s_device_id sub -> map_Forall (fun _ e => entry_ok e) (rebind sub m old).
Proof.
  intros Hm Ho Hd. unfold rebind. assert (Hdel : map_Forall (fun _ e => entry_ok e) (delete old.1 m)) by (by apply map_Forall_delete).
  case_match; [done|]. apply map_Forall_insert_2; [by apply entry_ok_moved|done].
Qed.

Lemma elem_of_btree_values {A} (m : gmap string A) v : v ∈ (btree_list m).*2 -> exists k, m !! k = Some v.
Proof. intros ([k v'] & -> & Hk)%list_elem_of_fmap. exists k. by apply elem_of_btree_list. Qed.

Lemma keeps_replace_subscriptions ends sub : Dv (s_device_id sub) -> keeps clear (replace_subscriptions_locked (s_device_id sub) ends sub).
Proof.
  intros Hd. unfold replace_subscriptions_locked. case_decide as Hdec; [apply pkeeps_ret|]. apply keeps_state_bind. intros s Hs.
  apply pkeeps_bind; [apply keeps_modify; intros s' H|intros _; apply keeps_or_else; [apply keeps_queue|by apply keeps_restore]]. apply clear_queue; [done|..].
  - assert (Hall : Forall (fun x => entry_ok x.2 /\ entry_device x.2 = s_device_id sub) (filter (fun x => on_endpoints (s_device_id sub) (named ends) (q_subscription x.2)) (btree_list (entries s)))).
    { apply Forall_forall. intros [id e] [[He _] Hin]%list_elem_of_filter. split; [|done]. apply elem_of_btree_list in Hin. exact (cl_entries _ Hs id e Hin). }
    revert Hall. generalize (filter (fun x : string * QueueEntry => on_endpoints (s_device_id sub) (named ends) (q_subscription x.2)) (btree_list (entries s))). intros l.
    pose proof (cl_entries _ Hs) as Hm. revert Hm. generalize (entries s). induction l as [|x l IH]; intros m Hm Hall; [done|]. apply Forall_cons in Hall as [[Hx1 Hx2] Hall].
    cbn [foldl]. apply IH; [by apply rebind_ok|done].
  - intros id r Hr. apply lookup_fmap_Some in Hr as (r0 & <- & Hr0). apply map_lookup_filter_Some in Hr0 as [Hr0 _]. pose proof (cl_delivered _ Hs id r0 Hr0) as [H1 H2].
    case_decide as Hc; [|done]. destruct Hc as [Hc _]. split; cbn [d_subscription d_key]; [congruence|done].
Qed.

Lemma map_Forall_keep {A} (Q : string * A -> Prop) `{!forall x, Decision (Q x)} (R : A -> Prop) (m : gmap string A) : map_Forall (fun _ => R) m -> map_Forall (fun _ => R) (filter Q m).
Proof. intros Hm i x [Hx _]%map_lookup_filter_Some. by eapply Hm. Qed.

Lemma Forall_keep {A} (Q R : A -> Prop) `{!forall x, Decision (Q x)} (l : list A) : Forall R l -> Forall R (filter Q l).
Proof. rewrite !Forall_forall. intros Hl x [_ Hx]%list_elem_of_filter. by apply Hl. Qed.

Lemma keeps_remove_subscriptions device ends : keeps clear (remove_subscriptions_locked device ends).
Proof.
  unfold remove_subscriptions_locked. case_decide as Hdec; [apply pkeeps_ret|]. apply keeps_state_bind. intros s Hs.
  apply pkeeps_bind; [apply keeps_modify; intros s' H|intros _; apply keeps_or_else; [apply keeps_queue|by apply keeps_restore]].
  apply clear_queue; [done|apply map_Forall_keep, Hs..].
Qed.

Lemma set_Forall_filter_keys (Q : PushEventKey -> Prop) `{!forall k, Decision (Q k)} (X : gset PushEventKey) (R : PushEventKey -> Prop) : set_Forall R X -> set_Forall R (filter Q X).
Proof. intros HX k [_ Hk]%elem_of_filter. by apply HX. Qed.

Lemma keeps_remove_device device : keeps clear (remove_device device).
Proof.
  unfold remove_device. case_decide as Hdec; [apply keeps_throw|]. apply keeps_state_bind. intros s Hs. apply pkeeps_bind; [apply keeps_persist_subscriptions|intros _].
  apply pkeeps_bind; [apply keeps_modify; intros s' H'; apply clear_subs; [done|apply Forall_keep, Hs]|intros _].
  apply pkeeps_bind; [apply keeps_modify; intros s' H'; apply clear_keys; [done|apply set_Forall_filter_keys, H'..]|intros _].
  apply pkeeps_bind; [apply keeps_modify; intros s' H'; apply clear_queue; [done|apply map_Forall_keep, H'..]|intros _].
  apply pkeeps_bind; [apply keeps_or_else; [apply keeps_queue|by apply keeps_restore]|intros _].
  do 4 (apply pkeeps_bind; [apply keeps_modify; intros s' H'; same|intros _]). apply keeps_persist_policies.
Qed.

Lemma keeps_remove_all : keeps clear remove_all_devices.
Proof.
  unfold remove_all_devices. apply keeps_state_bind. intros s Hs. apply pkeeps_bind; [apply keeps_persist_subscriptions|intros _].
  apply pkeeps_bind; [apply keeps_modify; intros s' H'; by apply clear_subs|intros _].
  apply pkeeps_bind; [apply keeps_modify; intros s' H'; apply clear_keys; [done|apply set_Forall_empty..]|intros _].
  apply pkeeps_bind; [apply keeps_modify; intros s' H'; apply clear_queue; [done|apply map_Forall_empty..]|intros _].
  apply pkeeps_bind; [apply keeps_or_else; [apply keeps_queue|by apply keeps_restore]|intros _].
  do 4 (apply pkeeps_bind; [apply keeps_modify; intros s' H'; same|intros _]). apply keeps_persist_policies.
Qed.

Lemma keeps_prune_all ids : keeps clear (prune_all ids).
Proof.
  induction ids as [|id ids IH]; [apply pkeeps_ret|]. intros sw H. cbn [prune_all]. pose proof (keeps_remove_device id sw H) as H1.
  destruct (remove_device id sw) as [sw1 r]. revert H1. generalize sw1. change (keeps clear (rest ← prune_all ids; mret (match r with Ok _ => id :: rest | Err _ => rest end))).
  apply pkeeps_bind; [exact IH|intros; apply pkeeps_ret].
Qed.

Lemma keeps_commit_subscription filtered reps sub : Dv (s_device_id sub) -> Forall (fun x => Dv (s_device_id x)) filtered -> keeps clear (commit_subscription filtered reps sub).
Proof.
  intros Hd Hf. unfold commit_subscription. apply keeps_state_bind. intros s Hs. apply pkeeps_bind; [apply keeps_persist_subscriptions|intros _].
  apply pkeeps_bind; [apply keeps_or_else; [by apply keeps_replace_subscriptions|apply keeps_persist_subscriptions]|intros _].
  apply keeps_modify. intros s' H. by apply clear_subs.
Qed.

Lemma keeps_subscribe sub reps m : Dv (s_device_id sub) -> subscribe device_live sub reps = Some m -> keeps clear m.
Proof.
  intros Hd. unfold subscribe. case_decide as Hk; [intros [= <-]; apply keeps_throw|]. destruct (valid_push_endpoint (s_endpoint sub)) as [[]|]; intros [= <-]; [|apply keeps_throw].
  apply keeps_state_bind. intros s Hs. apply pkeeps_bind; [destruct (dead_owner device_live s sub); [apply keeps_remove_device|apply pkeeps_ret]|intros _].
  unfold subscribe_locked. apply keeps_state_bind. intros s' Hs'. pose proof (cl_subs _ Hs') as Hl.
  destruct (list_find _ _) as [[i x]|] eqn:Hfind.
  - case_decide as Hm; [apply keeps_throw|]. apply keeps_commit_subscription; [done|]. apply Forall_insert; [by apply Forall_keep|done].
  - apply keeps_commit_subscription; [done|]. apply Forall_app. split; [by apply Forall_keep|by apply Forall_singleton].
Qed.

Lemma keeps_unsubscribe device ends client : keeps clear (unsubscribe_device device ends client).
Proof.
  unfold unsubscribe_device. case_decide as Hdec; [apply keeps_throw|]. apply keeps_state_bind. intros s Hs. apply pkeeps_bind; [apply keeps_persist_subscriptions|intros _].
  apply pkeeps_bind; [apply keeps_modify; intros s' H; apply clear_subs; [done|apply Forall_keep, Hs]|intros _]. case_decide; [apply pkeeps_ret|apply keeps_remove_subscriptions].
Qed.

(** ** Publishing *)

Lemma select_newest_in device seen l x : x ∈ select_newest device seen l -> x ∈ l.
Proof.
  revert seen. induction l as [|s l IH]; intros seen Hx; [done|]. cbn [select_newest] in Hx. case_decide; [right; by eapply IH|].
  apply elem_of_cons in Hx as [->|Hx]; [left|right; by eapply IH].
Qed.

Lemma selected_ok s device : clear s -> Forall (fun x => Dv (s_device_id x)) (selected s device).
Proof. intros H. apply Forall_forall. intros x Hx%select_newest_in. rewrite elem_of_reverse in Hx. pose proof (cl_subs _ H) as Hl. rewrite Forall_forall in Hl. by apply Hl. Qed.

Lemma keeps_publish_all request now expires subs result : Forall (fun x => Dv (s_device_id x)) subs -> keeps clear (publish_all request now expires subs result).
Proof.
  revert result. induction subs as [|sub subs IH]; intros result Hf; [apply pkeeps_ret|]. apply Forall_cons in Hf as [Hd Hf]. cbn [publish_all].
  apply pkeeps_bind; [|intros r; by apply IH]. unfold publish_one. apply keeps_state_bind. intros s Hs. destruct (negb _); [apply pkeeps_ret|].
  apply pkeeps_bind; [apply keeps_check_result|intros payload]. apply pkeeps_bind; [apply keeps_check|intros _]. apply pkeeps_bind; [by apply keeps_enqueue|intros _].
  apply pkeeps_bind; [apply keeps_modify; intros s' H'; apply clear_keys; [done| |apply H']|intros _; apply pkeeps_ret].
  apply set_Forall_union; [by apply set_Forall_singleton|apply H'].
Qed.

Lemma keeps_publish request : keeps clear (publish request).
Proof.
  unfold publish. apply pkeeps_bind; [destruct (pr_created_at request); [apply pkeeps_ret|apply keeps_clock]|intros now]. apply keeps_state_bind. intros s Hs.
  apply pkeeps_bind; [by apply keeps_publish_all, selected_ok|intros r]. apply pkeeps_bind; [apply keeps_modify; intros s' H'|intros _; apply pkeeps_ret].
  destruct (_ <? _)%nat; [same|done].
Qed.

(** ** Resolving *)

Lemma keeps_cancel_key key : keeps clear (cancel_key key).
Proof.
  unfold cancel_key. apply keeps_state_bind. intros s Hs. apply pkeeps_bind; [apply keeps_modify; intros s' H'; apply clear_queue; [done|apply map_Forall_keep, H'|apply H']|intros _].
  case_decide; [apply pkeeps_ret|]. apply keeps_or_else; [apply keeps_queue|]. apply keeps_modify. intros s' H'. apply clear_queue; [done| |apply H'].
  intros id e He. apply lookup_union_Some_raw in He as [He|[_ He]]; [|by eapply (cl_entries _ H')]. apply map_lookup_filter_Some in He as [He _]. by eapply (cl_entries _ Hs).
Qed.

Lemma keeps_retract_all key now expires records : Forall (fun r => Dv (s_device_id (d_subscription r))) records -> keeps clear (retract_all key now expires records).
Proof.
  induction records as [|r records IH]; intros Hf; [apply pkeeps_ret|]. apply Forall_cons in Hf as [Hd Hf]. cbn [retract_all]. apply keeps_state_bind. intros s Hs.
  apply pkeeps_bind; [apply keeps_check_result|intros payload]. apply pkeeps_bind; [by apply keeps_enqueue|intros _]. by apply IH.
Qed.

Lemma keeps_resolve key : keeps clear (resolve key).
Proof.
  unfold resolve. apply pkeeps_bind; [apply keeps_check|intros _]. apply pkeeps_bind; [apply keeps_cancel_key|intros _]. apply keeps_state_bind. intros s Hs.
  apply pkeeps_bind; [apply keeps_modify; intros s' H'; apply clear_keys; [done| |apply H']; intros k [Hk _]%elem_of_difference; by apply H'|intros _].
  set (records := filter _ _). assert (Hr : Forall (fun r => d_key r = key /\ record_ok r) records).
  { apply Forall_forall. intros r [Hk Hr]%list_elem_of_filter. apply elem_of_btree_values in Hr as [id Hr]. split; [done|by eapply (cl_delivered _ Hs)]. }
  case_decide as Hnil.
  - apply pkeeps_bind; [apply keeps_modify; intros s' H'; apply clear_queue; [done|apply H'|apply map_Forall_keep, H']|intros _; apply keeps_queue].
  - assert (Hkey : Dv (k_device_id key)) by (destruct records as [|r rs]; [done|]; apply Forall_cons in Hr as [[<- [_ H]] _]; exact H).
    apply pkeeps_bind; [apply keeps_modify; intros s' H'; apply clear_keys; [done|apply H'|]; apply set_Forall_union; [by apply set_Forall_singleton|apply H']|intros _].
    apply pkeeps_bind; [apply keeps_clock|intros now]. apply pkeeps_bind; [|intros _; apply keeps_modify; intros s' H'; same].
    apply keeps_retract_all. eapply Forall_impl; [exact Hr|]. intros r [_ [E H]]. by rewrite E.
Qed.

Lemma keeps_resolve_all keys : keeps clear (resolve_all keys).
Proof. induction keys as [|k keys IH]; [apply pkeeps_ret|]. cbn [resolve_all]. apply pkeeps_bind; [apply keeps_resolve|intros _; exact IH]. Qed.

Lemma keeps_reconcile current : keeps clear (reconcile current).
Proof.
  unfold reconcile. case_decide; [apply keeps_throw|]. apply pkeeps_bind; [apply keeps_modify; intros s' H'; same|intros _]. apply keeps_state_bind. intros s Hs.
  apply pkeeps_bind; [apply keeps_resolve_all|intros _]. apply pkeeps_bind; [apply keeps_modify; intros s' H'; same|intros _]. apply keeps_modify. intros s' H'. same.
Qed.

(** ** Policies *)

Lemma keeps_set_policy p : keeps clear (set_policy p).
Proof.
  unfold set_policy. apply pkeeps_bind; [apply keeps_check_result|intros q]. apply keeps_state_bind. intros s Hs. apply pkeeps_bind; [apply keeps_modify; intros s' H'; same|intros _].
  apply keeps_or_else; [apply keeps_persist_policies|apply keeps_modify; intros s' H'; same].
Qed.

Lemma keeps_mark_accepted key at_ : keeps clear (mark_accepted key at_).
Proof.
  unfold mark_accepted. apply keeps_state_bind. intros s Hs. apply pkeeps_bind; [apply keeps_modify; intros s' H'; same|intros _].
  apply keeps_or_else; [apply keeps_persist_policies|apply keeps_modify; intros s' H'; same].
Qed.

Lemma keeps_claim_update device version : keeps clear (claim_update_version device version).
Proof.
  unfold claim_update_version. case_decide; [apply keeps_throw|]. apply keeps_state_bind. intros s Hs. destruct (negb _); [apply pkeeps_ret|]. destruct (default _ _); [apply pkeeps_ret|].
  apply pkeeps_bind; [apply keeps_modify; intros s' H'; same|intros _]. apply pkeeps_bind; [|intros _; apply pkeeps_ret].
  apply keeps_or_else; [apply keeps_persist_policies|apply keeps_modify; intros s' H'; same].
Qed.

Lemma keeps_global_snooze until : keeps clear (set_global_snooze until).
Proof.
  unfold set_global_snooze. apply keeps_state_bind. intros s Hs. apply pkeeps_bind; [apply keeps_modify; intros s' H'; same|intros _].
  apply keeps_or_else; [apply keeps_persist_policies|apply keeps_modify; intros s' H'; same].
Qed.

Lemma keeps_reserve_test device now : keeps clear (reserve_test device now).
Proof.
  unfold reserve_test. apply pkeeps_bind; [apply keeps_modify; intros s' H'; same|intros _]. apply keeps_state_bind. intros s Hs.
  destruct (test_last s !! device); [destruct (recent now z); [apply pkeeps_ret|]|]; (apply pkeeps_bind; [apply keeps_modify; intros s' H'; same|intros _; apply pkeeps_ret]).
Qed.

(** Only a subscription brings a device in. *)
Definition op_ok (op : PushOp) : Prop := match op with OpSubscribe sub _ => Dv (s_device_id sub) | _ => True end.

Lemma keeps_run_op op : op_ok op -> keeps clear (run_op device_live op).
Proof.
  intros Hop. destruct op; cbn [run_op op_ok] in *.
  - apply keeps_set_policy.
  - apply keeps_modify. intros s H. same.
  - apply keeps_forget, keeps_reserve_test.
  - destruct (subscribe device_live sub replace_endpoints) as [m|] eqn:E; [by eapply keeps_subscribe|apply keeps_throw].
  - apply keeps_unsubscribe.
  - apply keeps_remove_device.
  - apply keeps_remove_all.
  - apply keeps_forget. unfold reconcile_devices. apply keeps_state_bind. intros s Hs. apply keeps_prune_all.
  - apply keeps_forget, keeps_publish.
  - apply keeps_resolve.
  - unfold resolve_pane_id. apply keeps_state_bind. intros s Hs. apply keeps_resolve_all.
  - apply keeps_reconcile.
  - apply keeps_forget, keeps_claim_update.
  - apply keeps_global_snooze.
Qed.

(** ** The worker's sections *)

Lemma keeps_finish_entry e disp now : (disp = Accepted -> strict \/ Dv (entry_device e)) -> keeps clear (finish_entry e disp now).
Proof.
  intros Hd. unfold finish_entry. apply keeps_state_bind. intros s Hs. case_decide as Hin; [|apply pkeeps_ret].
  apply pkeeps_bind; [apply keeps_modify; intros s' H'|intros _; apply pkeeps_bind; [apply keeps_modify; intros s' H'; same|intros _; apply pkeeps_ret]].
  apply clear_queue; [done|apply map_Forall_delete, Hs|]. case_decide as Hacc; [|apply Hs]. apply map_Forall_insert_2; [|apply Hs].
  destruct (cl_entries _ Hs _ _ Hin) as [H1 H2]. split; cbn [d_subscription d_key]; [exact H1|]. rewrite <- H1. destruct (Hd (proj1 Hacc)) as [Hst|Hdv]; [by apply H2|done].
Qed.

Lemma keeps_reschedule e n next : keeps clear (reschedule_entry e n next).
Proof.
  unfold reschedule_entry. apply keeps_state_bind. intros s Hs. case_decide as Hin; [|apply pkeeps_ret].
  apply pkeeps_bind; [apply keeps_modify; intros s' H'|intros _; apply pkeeps_bind; [apply keeps_modify; intros s' H'; same|intros _; apply pkeeps_ret]].
  apply clear_queue; [done| |apply Hs]. apply map_Forall_insert_2; [|apply Hs]. apply entry_ok_moved; [exact (cl_entries _ Hs _ _ Hin)|done].
Qed.

Lemma keeps_note_accepted key at_ : keeps clear (note_accepted key at_).
Proof. unfold note_accepted. apply keeps_state_bind. intros s Hs. case_decide; [apply pkeeps_ret|apply keeps_mark_accepted]. Qed.

Lemma keeps_flush : keeps clear flush_queue.
Proof. unfold flush_queue. apply keeps_state_bind. intros s Hs. destruct (queue_dirty s); [apply keeps_queue|apply pkeeps_ret]. Qed.

Lemma clear_sweep_key s key : clear s -> clear (sweep_key s key).
Proof.
  intros H. unfold sweep_key. case_decide; [apply clear_keys; [done|apply H|]; intros k [Hk _]%elem_of_difference; by apply (cl_retracting _ H)|].
  destruct (has_entries_for s key); [done|]. case_decide; [|done]. apply clear_keys; [done| |apply H]. intros k [Hk _]%elem_of_difference. by apply (cl_active _ H).
Qed.

Lemma keeps_sweep results : keeps clear (sweep_keys results).
Proof.
  unfold sweep_keys. apply keeps_state_bind. intros s Hs. apply pkeeps_bind; [apply keeps_modify; intros s' H'; apply clear_queue; [done|apply Hs|apply map_Forall_keep, Hs]|intros _].
  apply pkeeps_bind; [case_decide; [apply keeps_queue|apply pkeeps_ret]|intros _]. apply keeps_modify. intros s'. generalize (elements (list_to_set (dr_key <$> results) : gset PushEventKey)).
  intros l. revert s'. induction l as [|k l IH]; intros s' H'; [done|]. cbn [foldl]. by apply IH, clear_sweep_key.
Qed.

(** ** Recovering pruned subscriptions *)

Definition result_ok (r : DeliveryResult) : Prop :=
  s_device_id (dr_subscription r) = k_device_id (e_key (dr_event r)) /\ (strict -> Dv (s_device_id (dr_subscription r))).

Lemma clear_restore_pruned now s r : clear s -> result_ok r -> clear (restore_pruned now s r).
Proof.
  intros H [H1 H2]. unfold restore_pruned. case_decide; [|done]. case_match; [done|]. apply clear_dirty.
  apply clear_queue; [exact H| |apply H]. apply map_Forall_insert_2; [by split|apply H].
Qed.

Lemma clear_migrate fb s e : clear s -> entry_ok e -> (forall sub, fb = Some sub -> entry_device e = s_device_id sub) -> clear (migrate_entry fb s e).
Proof.
  intros H He Hfb. unfold migrate_entry. apply clear_dirty. apply clear_queue; [exact H| |apply H].
  assert (Hdel : map_Forall (fun _ x => entry_ok x) (delete (q_id e) (entries s))) by (apply map_Forall_delete, H).
  destruct fb as [sub|]; [|done]. case_match; [done|]. apply map_Forall_insert_2; [apply entry_ok_moved; [done|by apply Hfb]|done].
Qed.

Lemma clear_requeue now sub s r : clear s -> result_ok r -> s_device_id (dr_subscription r) = s_device_id sub -> clear (requeue_result now sub s r).
Proof.
  intros H [H1 H2] E. unfold requeue_result. case_match; [done|]. apply clear_dirty. apply clear_queue; [exact H| |apply H].
  apply map_Forall_insert_2; [|apply H]. split; unfold entry_device; cbn [q_subscription q_event]; [congruence|]. rewrite <- E. exact H2.
Qed.

Lemma clear_foldl {A} (f : State -> A -> State) (Q : A -> Prop) l s : (forall s x, clear s -> Q x -> clear (f s x)) -> Forall Q l -> clear s -> clear (foldl f s l).
Proof. intros Hf. revert s. induction l as [|x l IH]; intros s Hl Hs; [done|]. apply Forall_cons in Hl as [Hx Hl]. cbn [foldl]. apply IH; [done|by apply Hf]. Qed.

Lemma clear_recover_device now s device ends fb rs : clear s -> (forall sub, fb = Some sub -> s_device_id sub = device) ->
  Forall (fun r => result_ok r /\ s_device_id (dr_subscription r) = device) rs -> clear (recover_device now s device ends fb rs).
Proof.
  intros H Hfb Hrs. unfold recover_device. set (s1 := foldl _ s _). assert (H1 : clear s1).
  { apply (clear_foldl _ (fun e => entry_ok e /\ entry_device e = device)); [|apply Forall_forall|done].
    - intros s' e Hs' [He Hd]. apply clear_migrate; [done..|]. intros sub Hsub. by rewrite (Hfb sub Hsub).
    - intros e [[Hd _] He]%list_elem_of_filter. apply elem_of_btree_values in He as [id He]. split; [by eapply (cl_entries _ H)|done]. }
  cbv zeta. set (s2 := if decide _ then s1 else _). assert (H2 : clear s2).
  { unfold s2. case_decide; [done|]. apply clear_dirty. apply clear_queue; [exact H1|apply H1|apply map_Forall_keep, H1]. }
  destruct fb as [sub|]; [|done]. apply (clear_foldl _ (fun r => result_ok r /\ s_device_id (dr_subscription r) = device)); [|done|done].
  intros s' r Hs' [Hr Hd]. apply clear_requeue; [done..|]. by rewrite (Hfb sub eq_refl).
Qed.

(** The groups hold the pruned results of their device. *)
Lemma group_pruned_ok (Q : DeliveryResult -> Prop) results device ends rs : Forall Q results -> group_pruned results !! device = Some (ends, rs) ->
  Forall (fun r => Q r /\ s_device_id (dr_subscription r) = device) rs.
Proof.
  intros HQ. unfold group_pruned. assert (Hg : forall m : gmap string (gset string * list DeliveryResult), map_Forall (fun device x => Forall (fun r => Q r /\ s_device_id (dr_subscription r) = device) x.2) m ->
    map_Forall (fun device x => Forall (fun r => Q r /\ s_device_id (dr_subscription r) = device) x.2)
      (foldl (fun m r => if decide (dr_disposition r = Pruned) then
         let '(ends, rs) := default (∅, []) (m !! s_device_id (dr_subscription r)) in
         <[s_device_id (dr_subscription r) := ({[s_endpoint (dr_subscription r)]} ∪ ends, rs ++ [r])]> m else m) m results)); [|intros Hl; exact (Hg ∅ (map_Forall_empty _) device _ Hl)].
  induction results as [|r results IH]; intros m Hm; [done|]. apply Forall_cons in HQ as [Hr HQ]. cbn [foldl]. apply (IH HQ). case_decide; [|done].
  destruct (default _ _) as [ends0 rs0] eqn:E. apply map_Forall_insert_2; [|done]. cbn [snd]. apply Forall_app. split; [|by apply Forall_singleton].
  destruct (m !! s_device_id (dr_subscription r)) as [[e0 r0]|] eqn:Em; cbn in E; injection E as <- <-; [exact (Hm _ _ Em)|constructor].
Qed.

Lemma fallback_in s device ends sub : fallback_of s device ends = Some sub -> sub ∈ subscriptions s /\ s_device_id sub = device /\ s_endpoint sub ∉ ends.
Proof.
  unfold fallback_of. intros ([i x] & E & (Hx & [H1 H2] & _)%list_find_Some)%fmap_Some || intros ([i x] & (Hx & [H1 H2] & _)%list_find_Some & E)%fmap_Some.
  cbn in E. subst x. apply list_elem_of_lookup_2 in Hx. by rewrite elem_of_reverse in Hx.
Qed.

Lemma keeps_recover_pruned results now : Forall result_ok results -> keeps clear (recover_pruned results now).
Proof.
  intros Hres. unfold recover_pruned. case_decide; [apply pkeeps_ret|]. apply keeps_state_bind. intros s Hs.
  apply pkeeps_bind; [apply keeps_or_else; [apply keeps_persist_subscriptions|]|intros _].
  { apply keeps_modify. intros s' H'. by apply (clear_foldl _ result_ok); [intros; by apply clear_restore_pruned|..]. }
  apply pkeeps_bind; [apply keeps_modify; intros s' H'|intros _].
  - apply (clear_foldl _ (fun x => group_pruned results !! x.1 = Some x.2)); [|apply Forall_forall; intros [d x] Hx; by apply elem_of_btree_list|done].
    intros s2 [device [ends rs]] Hs2 Hx. cbn [fst snd] in Hx. apply clear_recover_device; [done| |by eapply group_pruned_ok]. intros sub Hsub. by apply fallback_in in Hsub as (_ & ? & _).
  - apply pkeeps_bind; [apply keeps_modify; intros s' H'; apply clear_subs; [done|apply Forall_keep, Hs]|intros _].
    apply keeps_modify. intros s' H'. case_bool_decide; [same|done].
Qed.

End Clear.

(** ** Passes *)

Definition snap_ok (e : QueueEntry) : Prop := entry_device e = k_device_id (e_key (q_event e)).
Definition res_ok (r : DeliveryResult) : Prop := s_device_id (dr_subscription r) = k_device_id (e_key (dr_event r)).
Definition phase_ok (ph : GroupPhase) : Prop := match ph with Sending e | Ending e _ _ | Noting e _ => snap_ok e | Ready | Failed _ => True end.

Record group_ok (g : Group) : Prop := { go_todo : Forall snap_ok (g_todo g); go_phase : phase_ok (g_phase g); go_results : Forall res_ok (g_results g) }.

Record pass_ok (p : Pass) : Prop := {
  po_pending : Forall (Forall snap_ok) (ps_pending p);
  po_tasks : Forall group_ok (ps_tasks p);
  po_results : Forall res_ok (ps_results p);
  po_idle : ~ running p -> ps_tasks p = [];
}.

Lemma group_entries_ok es : Forall snap_ok es -> Forall (Forall snap_ok) (group_entries es).
Proof.
  intros H. unfold group_entries. assert (Hg : forall gs : list (string * list QueueEntry), Forall (fun x => Forall snap_ok x.2) gs -> Forall (fun x => Forall snap_ok x.2)
    (foldl (fun groups e => add_to_group (subscription_key (q_subscription e)) e groups) gs es)); [|apply Forall_fmap; by apply (Hg [])].
  induction es as [|e es IH]; intros gs Hgs; [done|]. apply Forall_cons in H as [He H]. cbn [foldl]. apply (IH H). clear IH. generalize (subscription_key (q_subscription e)). intros key.
  induction gs as [|[k l] gs IHg]; [by repeat constructor|]. apply Forall_cons in Hgs as [Hl Hgs]. cbn [add_to_group]. case_decide; constructor; try done; [|by apply IHg].
  cbn [snd] in *. apply Forall_app. split; [done|by constructor].
Qed.

Lemma refill_ok p : pass_ok p -> pass_ok (refill p).
Proof.
  intros [H1 H2 H3 H4]. constructor; cbn [refill ps_pending ps_tasks ps_results ps_phase].
  - by apply Forall_drop.
  - apply Forall_app. split; [done|]. apply Forall_fmap. eapply Forall_impl; [by apply Forall_take|]. intros es Hes. by constructor.
  - done.
  - unfold running, refill. cbn [ps_phase]. case_decide; [done|]. intros Hr. by destruct Hr.
Qed.

Lemma abort_ok p e c : pass_ok p -> pass_ok (abort_pass p e c).
Proof. intros [H1 H2 H3 H4]. by constructor. Qed.

Section Sys.
Context (Dv : string -> Prop) {Dv_dec : forall d, Decision (Dv d)}.

(** A group whose send to a device outside [Dv] is still to be accounted for. *)
Definition outside (g : Group) : Prop :=
  exists e, ~ Dv (entry_device e) /\ (g_phase g = Sending e \/ exists n, g_phase g = Ending e Accepted n).
Definition inflight (p : Pass) : Prop := Exists outside (ps_tasks p).

Record sysinv (y : Sys) : Prop := {
  si_clear : clear Dv False (sy_state y);
  si_pass p : sy_pass y = Some p -> pass_ok p;
  si_inflight p : sy_pass y = Some p -> inflight p -> clear Dv True (sy_state y);
}.

Definition ev_ok (ev : Event) : Prop := match ev with EvOp op => op_ok Dv op | _ => True end.

Lemma refill_inflight p : inflight (refill p) -> inflight p.
Proof.
  unfold inflight, refill. cbn [ps_tasks]. rewrite Exists_app. intros [H|H]; [done|]. apply Exists_exists in H as (g & Hg & e & _ & Hp).
  apply list_elem_of_fmap in Hg as (es & -> & _). cbn in Hp. destruct Hp as [Hp|[n Hp]]; done.
Qed.

(** What [process_group] checks right before a send. *)
Definition sendable (s : State) (now : Timestamp) (e : QueueEntry) : Prop := snap_ok e /\ ts_lt now (e_expires_at (q_event e)) /\ entry_current s (e_key (q_event e)) now = true.

(** What a section of a group does to the invariant. *)
Lemma begin_entry_ok s now g : group_ok g -> group_ok (begin_entry s now g).
Proof.
  intros [H1 H2 H3]. unfold begin_entry. destruct (g_todo g) as [|e rest] eqn:E; [by constructor; [rewrite E|..]|]. apply Forall_cons in H1 as [He H1].
  repeat case_match; by constructor.
Qed.

Lemma begin_entry_sends s now g e : clear Dv False s -> group_ok g -> g_phase g = Ready -> g_phase (begin_entry s now g) = Sending e -> Dv (entry_device e) /\ sendable s now e.
Proof.
  intros Hc [H1 _ _] Hr. unfold begin_entry. destruct (g_todo g) as [|x rest]; [by rewrite Hr|]. apply Forall_cons in H1 as [Hx _]. cbn [g_terminal in_phase g_phase].
  destruct (g_terminal g); [done|]. case_decide as Hex; [done|]. destruct (entry_current s (e_key (q_event x)) now) eqn:Ec; cbn [negb]; [|done]. intros [= <-].
  split; [|split; [exact Hx|split; [by apply dec_stable in Hex|done]]].
  rewrite Hx. unfold entry_current in Ec. apply orb_true_iff in Ec as [Ec|Ec]; [apply bool_decide_eq_true in Ec; by apply (cl_retracting _ _ _ Hc)|].
  apply andb_true_iff in Ec as [Ec _]. apply bool_decide_eq_true in Ec. by apply (cl_active _ _ _ Hc).
Qed.

Lemma clear_weaken s : clear Dv True s -> clear Dv False s.
Proof. intros [H1 H2 H3 H4 H5]. constructor; try done. intros id e He. destruct (H1 id e He) as [E _]. by split. Qed.

Lemma outside_dec g : outside g \/ ~ outside g.
Proof.
  unfold outside. destruct (g_phase g) as [|e|e d n|e n|c]; try (right; intros (e' & _ & [H|[m H]]); done).
  - destruct (Dv_dec (entry_device e)) as [Hd|Hd]; [right|left; eauto]. intros (e' & Hn & [H|[m H]]); [|done]. congruence.
  - destruct (Dv_dec (entry_device e)) as [Hd|Hd]; [right; intros (e' & Hn & [H|[m H]]); [done|congruence]|]. destruct (decide (d = Accepted)) as [->|Hne]; [left; eauto 6|].
    right. intros (e' & Hn & [H|[m H]]); [done|congruence].
Qed.

Lemma keeps_group_step strict now answer g : (outside g -> strict) -> keeps (clear Dv strict) (group_step now answer g).
Proof.
  intros Hout. unfold group_step. destruct (g_phase g) as [|e|e d n|e n|c] eqn:Hp.
  - apply keeps_state_bind. intros s Hs. apply pkeeps_ret.
  - unfold end_send. destruct answer as [u|err]; [apply pkeeps_ret|]. destruct (is_terminal err); [apply pkeeps_ret|]. case_decide; [|apply pkeeps_ret].
    apply pkeeps_bind; [apply keeps_reschedule|intros; apply pkeeps_ret].
  - unfold end_entry. apply pkeeps_bind; [|intros; case_decide; apply pkeeps_ret]. apply keeps_finish_entry. intros ->.
    destruct (Dv_dec (entry_device e)) as [Hd|Hd]; [by right|left]. apply Hout. exists e. split; [done|]. right. eauto.
  - unfold end_noting. intros sw H. pose proof (keeps_note_accepted Dv strict (e_key (q_event e)) now sw H) as H'. by destruct (note_accepted _ _ sw) as [sw' [u|code]].
  - apply pkeeps_ret.
Qed.

Lemma push_result_ok g e d n next : group_ok g -> snap_ok e -> group_ok (push_result g (result_of e d n next)).
Proof. intros [H1 H2 H3] He. constructor; [done..|]. apply Forall_app. split; [done|]. by apply Forall_singleton. Qed.

Lemma in_phase_ok g ph : group_ok g -> phase_ok ph -> group_ok (in_phase g ph).
Proof. intros [H1 H2 H3] Hp. by constructor. Qed.

(** The sections of a group have no error of their own. *)
Lemma reschedule_total e n next sw : exists sw' b, reschedule_entry e n next sw = (sw', Ok b).
Proof. unfold reschedule_entry, mbind, m_bind, state, modify, mret, m_ret. case_decide; eauto. Qed.
Lemma finish_pass_total e d now sw : exists sw' b, finish_entry e d now sw = (sw', Ok b).
Proof. unfold finish_entry, mbind, m_bind, state, modify, mret, m_ret. case_decide; eauto. Qed.
Lemma group_step_total now answer g sw : exists sw' g', group_step now answer g sw = (sw', Ok g').
Proof.
  unfold group_step. destruct (g_phase g) as [|e|e d n|e n|c]; [unfold mbind, m_bind, state, mret, m_ret; eauto|unfold end_send|unfold end_entry|unfold end_noting|unfold mret, m_ret; eauto].
  - destruct answer as [u|err]; [unfold mret, m_ret; eauto|]. destruct (is_terminal err); [unfold mret, m_ret; eauto|]. case_decide; [|unfold mret, m_ret; eauto].
    unfold mbind, m_bind. destruct (reschedule_total e (q_attempts e + 1) (add_ns now (retry_delay_ns (q_attempts e + 1))) sw) as (sw1 & b & ->). unfold mret, m_ret. eauto.
  - unfold mbind, m_bind. destruct (finish_pass_total e d now sw) as (sw1 & b & ->). unfold mret, m_ret. case_decide; eauto.
  - destruct (note_accepted _ _ sw) as [sw1 [u|code]]; eauto.
Qed.

(** A section keeps a group well-formed and starts sends only inside [Dv]. *)
Lemma group_step_shape now answer g sw sw' g' : clear Dv False sw.1 -> group_ok g -> group_step now answer g sw = (sw', Ok g') ->
  group_ok g' /\ (outside g' -> outside g) /\ (forall e, starts_send g g' = Some e -> Dv (entry_device e) /\ sendable sw.1 now e).
Proof.
  intros Hc Hg. unfold group_step. pose proof (go_phase _ Hg) as Hph. destruct (g_phase g) as [|e|e d n|e n|c] eqn:Hp; cbn [phase_ok] in Hph.
  - unfold mbind, m_bind, state, mret, m_ret. intros [= <- <-]. pose proof (begin_entry_sends sw.1 now g) as Hs. split_and!; [by apply begin_entry_ok| |].
    + intros (e & Hn & [H|[n H]]); [by destruct (Hs e Hc Hg Hp H)|]. exfalso. revert H. unfold begin_entry. repeat case_match; cbn [g_phase in_phase]; congruence.
    + intros e. unfold starts_send. rewrite Hp. destruct (g_phase (begin_entry sw.1 now g)) eqn:E; try done. intros [= ->]. by apply Hs.
  - unfold starts_send. rewrite Hp. unfold end_send. destruct answer as [u|err]; [|destruct (is_terminal err); [|case_decide]].
    + intros [= <- <-]. split_and!; [by apply in_phase_ok| |done]. intros (e' & Hn & [H|[n H]]); cbn in H; [done|]. exists e'. split; [done|]. left. congruence.
    + intros [= <- <-]. destruct Hg as [H1 H2 H3]. split_and!; [by constructor| |done]. intros (e' & Hn & [H|[n H]]); cbn in H; done.
    + unfold mbind, m_bind. destruct (reschedule_entry _ _ _ sw) as [sw1 [b|code]]; [|done]. intros [= <- <-]. split_and!; [by apply push_result_ok| |done].
      intros (e' & Hn & [H0|[n H0]]); cbn in H0; done.
    + intros [= <- <-]. split_and!; [by apply in_phase_ok| |done]. intros (e' & Hn & [H0|[n H0]]); cbn in H0; done.
  - unfold starts_send. rewrite Hp. unfold end_entry, mbind, m_bind. destruct (finish_entry _ _ _ sw) as [sw1 [b|code]]; [|done]. case_decide; intros [= <- <-].
    + split_and!; [by apply in_phase_ok| |done]. intros (e' & Hn & [H0|[m H0]]); cbn in H0; done.
    + split_and!; [by apply push_result_ok| |done]. intros (e' & Hn & [H0|[m H0]]); cbn in H0; done.
  - unfold starts_send. rewrite Hp. unfold end_noting. destruct (note_accepted _ _ sw) as [sw1 [u|code]]; intros [= <- <-].
    + split_and!; [by apply push_result_ok| |done]. intros (e' & Hn & [H0|[m H0]]); cbn in H0; done.
    + split_and!; [by apply in_phase_ok| |done]. intros (e' & Hn & [H0|[m H0]]); cbn in H0; done.
  - intros [= <- <-]. split_and!; [done..|]. unfold starts_send. by rewrite Hp.
Qed.

(** ** Every event *)

Definition sent_ok (x : Sent) : Prop := Dv (entry_device (se_entry x)) /\ sendable (se_state x) (se_now x) (se_entry x).

Lemma due_entries_ok s now : clear Dv False s -> Forall snap_ok (due_entries s now).
Proof.
  intros H. apply Forall_forall. intros e He. unfold due_entries in He. rewrite merge_sort_Permutation in He. apply list_elem_of_filter in He as [_ He].
  apply elem_of_btree_values in He as [id He]. exact (proj1 (cl_entries _ _ _ H id e He)).
Qed.

Lemma step_op y op : sysinv y -> op_ok Dv op -> forall s w r, run_op device_live op (sy_state y, sy_world y) = (s, w, r) -> sysinv (mkSys s w (sy_pass y) (sy_sent y)).
Proof.
  intros [H1 H2 H3] Hop s w r E. constructor; cbn [sy_state sy_pass].
  - pose proof (keeps_run_op Dv False op Hop (sy_state y, sy_world y) H1) as H. by rewrite E in H.
  - exact H2.
  - intros p Hp Hin. pose proof (keeps_run_op Dv True op Hop (sy_state y, sy_world y) (H3 p Hp Hin)) as H. by rewrite E in H.
Qed.

Lemma step_start y now : sysinv y -> sysinv (mkSys (sy_state y) (sy_world y) (start_pass (sy_state y) now) (sy_sent y)).
Proof.
  intros [H1 H2 H3]. constructor; cbn [sy_state sy_pass]; [done|..]; unfold start_pass; destruct (reconciled (sy_state y)); try done.
  - intros p [= <-]. apply refill_ok. constructor; cbn [ps_pending ps_tasks ps_results ps_phase]; try done. by apply group_entries_ok, due_entries_ok.
  - intros p [= <-] Hin%refill_inflight. by apply Exists_nil in Hin.
Qed.

Lemma step_advance y p i g answer s w g' : sysinv y -> sy_pass y = Some p -> running p -> ps_tasks p !! i = Some g -> group_step (ps_now p) answer g (sy_state y, sy_world y) = (s, w, Ok g') ->
  forall log, sysinv (mkSys s w (Some (with_tasks p (<[i := g']> (ps_tasks p)))) log).
Proof.
  intros [H1 H2 H3] Hp Hrun Hg E log. pose proof (H2 p Hp) as Hpo. assert (Hgo : group_ok g) by (eapply Forall_lookup_1; [apply Hpo|done]).
  destruct (group_step_shape (ps_now p) answer g (sy_state y, sy_world y) (s, w) g' H1 Hgo E) as (Hgo' & Hout & _).
  assert (Hstrict : inflight p -> clear Dv True s).
  { intros Hin. pose proof (keeps_group_step True (ps_now p) answer g (fun _ => Logic.I) (sy_state y, sy_world y) (H3 p Hp Hin)) as H. by rewrite E in H. }
  constructor; cbn [sy_state sy_pass].
  - destruct (outside_dec g) as [Ho|Hno]; [apply clear_weaken, Hstrict, Exists_exists; exists g; split; [by eapply list_elem_of_lookup_2|done]|].
    pose proof (keeps_group_step False (ps_now p) answer g Hno (sy_state y, sy_world y) H1) as H. by rewrite E in H.
  - intros p' [= <-]. destruct Hpo as [P1 P2 P3 P4]. constructor; [exact P1|by apply Forall_insert|exact P3|]. intros Hn. by destruct (Hn Hrun).
  - intros p' [= <-] Hin. apply Hstrict. unfold inflight in *. cbn [with_tasks ps_tasks] in Hin. apply Exists_exists in Hin as (x & Hx & Ho). apply Exists_exists.
    apply list_elem_of_lookup in Hx as [j Hx]. destruct (decide (i = j)) as [<-|Hne].
    + rewrite list_lookup_insert_eq in Hx by (by eapply lookup_lt_Some). injection Hx as <-. exists g. split; [by eapply list_elem_of_lookup_2|by apply Hout].
    + rewrite list_lookup_insert_ne in Hx by done. exists x. split; [by eapply list_elem_of_lookup_2|done].
Qed.

Lemma step_join y p i g r : sysinv y -> sy_pass y = Some p -> running p -> ps_tasks p !! i = Some g -> group_finished g = Some r ->
  sysinv (mkSys (sy_state y) (sy_world y) (Some (join_task p i r)) (sy_sent y)).
Proof.
  intros [H1 H2 H3] Hp Hrun Hg Hr. pose proof (H2 p Hp) as Hpo. assert (Hgo : group_ok g) by (eapply Forall_lookup_1; [apply Hpo|done]). unfold join_task. destruct r as [rs|code].
  - assert (Hrs : Forall res_ok rs) by (unfold group_finished in Hr; repeat case_match; simplify_eq; apply Hgo).
    constructor; cbn [sy_state sy_pass]; [done|..].
    + intros p' [= <-]. apply refill_ok. destruct Hpo as [P1 P2 P3 P4]. constructor; cbn [ps_pending ps_tasks ps_results]; [done|by apply Forall_delete|by apply Forall_app|].
      unfold running. cbn [ps_phase]. intros Hn. by destruct Hn.
    + intros p' [= <-] Hin%refill_inflight. apply (H3 p Hp). unfold inflight in *. cbn [ps_tasks] in Hin. apply Exists_exists in Hin as (x & Hx & Ho). apply Exists_exists.
      exists x. split; [|done].
      rewrite delete_take_drop in Hx. rewrite <- (take_drop_middle (ps_tasks p) i g Hg). apply elem_of_app in Hx. apply elem_of_app. rewrite elem_of_cons. tauto.
  - constructor; cbn [sy_state sy_pass]; [done|..]; intros p' [= <-]; [by apply abort_ok|]. intros Hin. by apply Exists_nil in Hin.
Qed.

Lemma keeps_recover_results results now : Forall res_ok results -> keeps (clear Dv False) (recover_pruned results now).
Proof. intros H. apply keeps_recover_pruned. eapply Forall_impl; [exact H|]. intros r Hr. by split. Qed.

Lemma step_finish y p s w p' : sysinv y -> sy_pass y = Some p -> finish_pass p (sy_state y, sy_world y) = (s, w, p') ->
  sysinv (mkSys s w (match ps_phase p' with Ended _ => None | _ => Some p' end) (sy_sent y)).
Proof.
  intros [H1 H2 H3] Hp. pose proof (H2 p Hp) as Hpo. unfold finish_pass.
  assert (Hdone : forall s w ph, clear Dv False s -> ps_tasks p = [] -> sysinv (mkSys s w (match ph with Ended _ => None | _ => Some (set_phase p ph) end) (sy_sent y))).
  { intros s1 w1 ph Hs Ht. destruct Hpo as [P1 P2 P3 P4]. constructor; cbn [sy_state sy_pass]; [done|..]; intros q Hq; destruct ph; try done; injection Hq as <-; try (by constructor);
      intros Hin; unfold inflight in Hin; cbn [set_phase ps_tasks] in Hin; rewrite Ht in Hin; by apply Exists_nil in Hin. }
  assert (Hidle : ~ running p -> ps_tasks p = []) by apply Hpo. unfold running in Hidle. destruct (ps_phase p) as [| |recovered| |r] eqn:Hph.
  - intros [= <- <- <-]. rewrite Hph. constructor; cbn [sy_state sy_pass]; [done|..]; intros q [= <-]; [done|by apply (H3 p)].
  - pose proof (keeps_recover_results (ps_results p) (ps_now p) (po_results _ Hpo) (sy_state y, sy_world y) H1) as Hk.
    destruct (recover_pruned _ _ _) as [[s1 w1] r]. intros [= <- <- <-]. by apply (Hdone _ _ (Flushing r)); [|apply Hidle; intros []].
  - pose proof (keeps_flush Dv False (sy_state y, sy_world y) H1) as Hk. destruct (flush_queue _) as [[s1 w1] [u|code]].
    + destruct recovered as [v|code]; [destruct (ps_error p) as [code|]|]; intros [= <- <- <-]; cbn [set_phase ps_phase].
      * apply (Hdone _ _ (Ended (Err code))); [done|apply Hidle; intros []].
      * destruct (ps_cancelled p); [apply (Hdone _ _ (Ended (Ok (ps_results p))))|apply (Hdone _ _ Sweeping)]; try done; apply Hidle; intros [].
      * apply (Hdone _ _ (Ended (Err code))); [done|apply Hidle; intros []].
    + intros [= <- <- <-]. apply (Hdone _ _ (Ended (Err code))); [done|apply Hidle; intros []].
  - pose proof (keeps_sweep Dv False (ps_results p) (sy_state y, sy_world y) H1) as Hk. destruct (sweep_keys _ _) as [[s1 w1] r]. intros [= <- <- <-].
    apply (Hdone _ _ (Ended (Ok []))); [done|apply Hidle; intros []].
  - intros [= <- <- <-]. rewrite Hph. constructor; cbn [sy_state sy_pass]; [done|..]; by intros q.
Qed.

Lemma sysinv_step y ev y' : sysinv y -> ev_ok ev -> step device_live y ev = Some y' -> sysinv y' /\ exists log, sy_sent y' = sy_sent y ++ log /\ Forall sent_ok log.
Proof.
  intros Hy Hev Hs. pose proof Hy as [H1 H2 H3]. assert (Hnil : exists log, sy_sent y = sy_sent y ++ log /\ Forall sent_ok log) by (exists []; by rewrite app_nil_r).
  destruct ev as [op|now|i answer|i| |]; cbn [step] in Hs.
  - destruct (run_op device_live op _) as [[s w] r] eqn:E. injection Hs as <-. split; [by eapply step_op|done].
  - destruct (sy_pass y) eqn:Hp; [done|]. injection Hs as <-. split; [by apply step_start|done].
  - destruct (sy_pass y) as [p|] eqn:Hp; [|done]. case_decide as Hrun; [|done]. destruct (ps_tasks p !! i) as [g|] eqn:Hg; [|done]. cbn [mbind option_bind] in Hs.
    destruct (group_step _ _ g _) as [[s w] [g'|e]] eqn:E; injection Hs as <-.
    + split; [by eapply step_advance|]. cbn [sy_sent]. eexists. split; [done|]. assert (Hgo : group_ok g) by (eapply Forall_lookup_1; [apply (H2 p eq_refl)|done]).
      destruct (group_step_shape (ps_now p) answer g (sy_state y, sy_world y) (s, w) g' H1 Hgo E) as (_ & _ & Hsend). destruct (starts_send g g') as [e|] eqn:Es; [|constructor].
      constructor; [|constructor]. exact (Hsend e eq_refl).
    + destruct (group_step_total (ps_now p) answer g (sy_state y, sy_world y)) as (sw1 & g1 & E1). congruence.
  - destruct (sy_pass y) as [p|] eqn:Hp; [|done]. case_decide as Hrun; [|done]. destruct (ps_tasks p !! i) as [g|] eqn:Hg; [|done]. cbn [mbind option_bind] in Hs.
    destruct (group_finished g) as [r|] eqn:Hr; [|done]. injection Hs as <-. split; [by eapply step_join|done].
  - destruct (sy_pass y) as [p|] eqn:Hp; [|done]. case_decide as Hrun; [|done]. injection Hs as <-. split; [|done].
    constructor; cbn [sy_state sy_pass]; [done|..]; intros q [= <-]; [by apply abort_ok, H2|]. intros Hin. by apply Exists_nil in Hin.
  - destruct (sy_pass y) as [p|] eqn:Hp; [|done]. destruct (finish_pass p _) as [[s w] p'] eqn:E. injection Hs as <-. split; [by eapply step_finish|done].
Qed.

Lemma sysinv_run evs y y' : sysinv y -> Forall ev_ok evs -> run device_live y evs = Some y' -> sysinv y' /\ exists log, sy_sent y' = sy_sent y ++ log /\ Forall sent_ok log.
Proof.
  revert y. induction evs as [|ev evs IH]; intros y Hy Hev Hr; [injection Hr as <-; split; [done|]; exists []; by rewrite app_nil_r|].
  apply Forall_cons in Hev as [He Hev]. cbn [run] in Hr. destruct (step device_live y ev) as [y1|] eqn:E; [|done]. cbn [mbind option_bind] in Hr.
  destruct (sysinv_step y ev y1 Hy He E) as [Hy1 (l1 & E1 & F1)]. destruct (IH y1 Hy1 Hev Hr) as [Hy' (l2 & E2 & F2)]. split; [done|].
  exists (l1 ++ l2). rewrite E2, E1, app_assoc. split; [done|by apply Forall_app].
Qed.

End Sys.

(** ** Removing a device *)

(** Entries and records are filed under the device of their key, as
    [enqueue_locked] files them. *)
Definition bound (s : State) : Prop :=
  map_Forall (fun _ e => snap_ok e) (entries s) /\ map_Forall (fun _ r => s_device_id (d_subscription r) = k_device_id (d_key r)) (delivered s).

Definition anyone (d : string) : Prop := True.
#[export] Instance anyone_dec d : Decision (anyone d) := left Logic.I.
Definition other_than (d x : string) : Prop := x <> d.
#[export] Instance other_than_dec d x : Decision (other_than d x).
Proof. unfold other_than. apply _. Defined.

Lemma bound_clear s : bound s -> clear anyone False s.
Proof.
  intros [H1 H2]. constructor; try done.
  - intros id e He. split; [by eapply H1|done].
  - intros id r Hr. split; [by eapply H2|done].
  - by apply Forall_forall.
Qed.

Lemma remove_device_clears d : gives (clear anyone False) (remove_device d) (clear (other_than d) True).
Proof.
  unfold remove_device. case_decide as Hd; [intros sw sw' a _; done|]. apply gives_state. intros s Hs.
  apply (gives_bind _ (fun x => x = s)); [apply gives_keeps, keeps_persist_subscriptions|intros _].
  apply (gives_bind _ (fun x => x = set_subscriptions (filter (fun x => s_device_id x <> d) (subscriptions s)) s)); [apply gives_modify; by intros ? ->|intros _].
  apply (gives_bind _ (fun x => entries x = entries s /\ delivered x = delivered s /\ Forall (fun y => other_than d (s_device_id y)) (subscriptions x)
    /\ set_Forall (fun k => other_than d (k_device_id k)) (active x) /\ set_Forall (fun k => other_than d (k_device_id k)) (retracting x))); [apply gives_modify; intros ? ->; cbn|intros _].
  { split_and!; [done..| | |]; [apply Forall_forall; by intros y [Hy _]%list_elem_of_filter|by intros k [Hk _]%elem_of_filter|by intros k [Hk _]%elem_of_filter]. }
  apply (gives_bind _ (clear (other_than d) True)); [apply gives_modify; intros x (E1 & E2 & H3 & H4 & H5)|intros _].
  { destruct Hs as [C1 C2 _ _ _]. constructor; cbn; [..|done|done|done]; rewrite ?E1, ?E2.
    - intros id e [He Hne]%map_lookup_filter_Some. destruct (C1 id e He) as [Hb _]. split; [exact Hb|]. intros _. exact Hne.
    - intros id r [Hr Hne]%map_lookup_filter_Some. destruct (C2 id r Hr) as [Hb _]. split; [exact Hb|]. rewrite <- Hb. exact Hne. }
  apply (gives_bind _ (clear (other_than d) True)); [apply gives_or_else, gives_keeps, keeps_queue|intros _].
  do 4 (apply (gives_bind _ (clear (other_than d) True)); [apply gives_modify; intros x Hx; eapply clear_same; [exact Hx|reflexivity..]|intros _]).
  apply gives_keeps, keeps_persist_policies.
Qed.

Lemma sysinv_start s w : bound s -> sysinv anyone (mkSys s w None []).
Proof. intros H. constructor; cbn [sy_state sy_pass]; [by apply bound_clear|done..]. Qed.

Lemma pass_ok_any y p : sysinv anyone y -> sy_pass y = Some p -> pass_ok p.
Proof. intros H. apply H. Qed.

(** C37 — A removed device gets no more notifications: whatever the manager and
    the worker did before, once the removal of a device succeeds no send to one
    of its subscriptions is started, whatever events follow in any interleaving
    (a pass that was under way, failing writes and restored entries included),
    until the device subscribes again. *)
Theorem removed_device_gets_nothing (d : string) (s0 : State) (w0 : World) (before after : list Event) (y1 y2 : Sys) (s : State) (w : World) :
  bound s0 -> run device_live (mkSys s0 w0 None []) before = Some y1 -> remove_device d (sy_state y1, sy_world y1) = (s, w, Ok tt) ->
  Forall (fun ev => match ev with EvOp (OpSubscribe sub _) => s_device_id sub <> d | _ => True end) after ->
  run device_live (mkSys s w (sy_pass y1) (sy_sent y1)) after = Some y2 ->
  exists log, sy_sent y2 = sy_sent y1 ++ log /\ Forall (fun x => s_device_id (q_subscription (se_entry x)) <> d) log.
Proof.
  intros Hb H1 Hrem Hafter H2.
  assert (Hany : Forall (ev_ok anyone) before) by (apply Forall_forall; intros ev _; destruct ev as [op| | | | |]; [destruct op|..]; done).
  destruct (sysinv_run anyone before _ _ (sysinv_start s0 w0 Hb) Hany H1) as [Hy1 _].
  pose proof (remove_device_clears d (sy_state y1, sy_world y1) (s, w) tt (si_clear _ _ Hy1) Hrem) as Hc. cbn [fst] in Hc.
  assert (Hy : sysinv (other_than d) (mkSys s w (sy_pass y1) (sy_sent y1))).
  { constructor; cbn [sy_state sy_pass]; [by apply clear_weaken|intros p Hp; by eapply pass_ok_any|done]. }
  assert (Hok : Forall (ev_ok (other_than d)) after) by (eapply Forall_impl; [exact Hafter|]; intros ev Hev; destruct ev as [op| | | | |]; [destruct op|..]; done).
  destruct (sysinv_run (other_than d) after _ _ Hy Hok H2) as [_ (log & E & F)]. exists log. split; [exact E|]. eapply Forall_impl; [exact F|]. by intros x [Hx _].
Qed.

(** Nothing is sent that should not be: in every run, each send goes to a
    subscription of the device its event is for, before the event expires, and
    in the state it was decided in the event was either being retracted or was
    active and let through by the policy of that device (category on, not
    snoozed, pane not on screen). *)
Theorem every_send_is_allowed (s0 : State) (w0 : World) (evs : list Event) (y : Sys) (x : Sent) :
  bound s0 -> run device_live (mkSys s0 w0 None []) evs = Some y -> x ∈ sy_sent y ->
  let e := se_entry x in let key := e_key (q_event e) in
  s_device_id (q_subscription e) = k_device_id key /\ ts_lt (se_now x) (e_expires_at (q_event e)) /\
  (key ∈ retracting (se_state x) \/ key ∈ active (se_state x) /\ allows_locked (se_state x) key "en" (se_now x) = true).
Proof.
  intros Hb Hrun Hx. assert (Hany : Forall (ev_ok anyone) evs) by (apply Forall_forall; intros ev _; destruct ev as [op| | | | |]; [destruct op|..]; done).
  destruct (sysinv_run anyone evs _ _ (sysinv_start s0 w0 Hb) Hany Hrun) as [_ (log & E & F)]. cbn [sy_sent app] in E. rewrite E in Hx. rewrite Forall_forall in F.
  destruct (F x Hx) as [_ (Hsn & Hlt & Hc)]. split; [exact Hsn|]. split; [done|]. unfold entry_current in Hc. apply orb_true_iff in Hc as [Hc|Hc]; [left; by apply bool_decide_eq_true in Hc|right].
  apply andb_true_iff in Hc as [Hc Ha]. by apply bool_decide_eq_true in Hc.
Qed.

End Owners.

(** ** Two devices, one of them removed during a pass *)
Section Witness.
Import PushDemo.

Definition demo_running : Sys := run_demo demo_start (demo_before ++ [EvAdvance 0 (Ok tt)]).
Definition demo_removed : State * World * result string unit := remove_device "dev-b" (sy_state demo_running, sy_world demo_running).
Definition demo_after : Sys := mkSys demo_removed.1.1 demo_removed.1.2 (sy_pass demo_running) (sy_sent demo_running).

Lemma bound_in_memory key : bound (in_memory key).
Proof. split; apply map_Forall_empty. Qed.

Lemma removed_device_gets_nothing_witness : exists log, sy_sent (run_demo demo_after demo_pass) = sy_sent demo_running ++ log /\
  Forall (fun x => s_device_id (q_subscription (se_entry x)) <> "dev-b"%string) log /\ length log = 1%nat.
Proof.
  destruct (removed_device_gets_nothing None "dev-b" (in_memory (replicate 32 1)) demo_world (demo_before ++ [EvAdvance 0 (Ok tt)]) demo_pass demo_running (run_demo demo_after demo_pass)
    demo_removed.1.1 demo_removed.1.2) as (log & E & F).
  - apply bound_in_memory.
  - apply run_demo_ok. vm_compute. reflexivity.
  - assert (Hok : demo_removed.2 = Ok tt) by (vm_compute; reflexivity). rewrite <- Hok, <- !surjective_pairing. reflexivity.
  - repeat constructor.
  - apply run_demo_ok. vm_compute. reflexivity.
  - exists log. split; [exact E|]. split; [exact F|]. apply (f_equal length) in E. rewrite length_app in E.
    assert (H1 : length (sy_sent (run_demo demo_after demo_pass)) = 2%nat) by (vm_compute; reflexivity). assert (H2 : length (sy_sent demo_running) = 1%nat) by (vm_compute; reflexivity). lia.
Defined.

Definition demo_sent : Sent := default (mkSent (mkEntry "" no_event no_sub default_time 0) default_time (in_memory [])) (sy_sent demo_running !! 0%nat).

Lemma every_send_is_allowed_witness : s_device_id (q_subscription (se_entry demo_sent)) = "dev-b"%string /\ ts_lt (se_now demo_sent) (e_expires_at (q_event (se_entry demo_sent))).
Proof.
  destruct (every_send_is_allowed None (in_memory (replicate 32 1)) demo_world (demo_before ++ [EvAdvance 0 (Ok tt)]) demo_running demo_sent) as (_ & Hlt & _).
  - apply bound_in_memory.
  - apply run_demo_ok. vm_compute. reflexivity.
  - apply (list_elem_of_lookup_2 _ 0). unfold demo_sent. destruct (sy_sent demo_running !! 0%nat) eqn:E; [done|]. apply lookup_ge_None in E.
    assert (H : length (sy_sent demo_running) = 1%nat) by (vm_compute; reflexivity). lia.
  - split; [vm_compute; reflexivity|exact Hlt].
Defined.
End Witness.

End PushOwners.
