(* ===== verification/PushDurable.v ===== *)
(** * Pending notifications survive a restart

    As long as file calls succeed, whenever the queue is not marked dirty the
    file [queue.json] has exactly the pending entries and the delivered records
    of the memory. *)

From S2P Require Import Prelude Utf8 Json JsonWire GoJson Inbound Protocol E2eeCodec Fs History UploadIndex UploadHandlers PushTime PushTypes PushDocs PushState PushManager PushDelivery PushSystem.

Module PushDurable.
Import Json Inbound Fs PushTime PushTypes PushState PushManager PushDelivery PushSystem.

Section Durable.
Context `{SH : Sha256} `{FT : GoJson.FloatText} `{B64 : E2eeCodec.Base64} `{CM : Protocol.CaseMapping}.
Context `{PJ : PrettyJson} `{SB : UploadHandlers.StandardBase64} `{DJ : UploadIndex.DocumentJson} `{UP : UrlParser}.
Context (device_live : option (string -> bool)).

(** ** Files without faults *)

Definition calm (w : World) : Prop := w_faults w = [].

Lemma call_calm w : calm w -> call w = (w, Ok tt).
Proof. unfold calm, call, pop_fault. by intros ->. Qed.

Lemma write_all_calm name data w : calm w -> exists w', write_all name data w = (w', Ok tt) /\ calm w' /\ w_files w' = appended (w_files w) name data (length data).
Proof. unfold calm, write_all, pop_fault. intros E. rewrite E. eexists. split; [reflexivity|]. split; [exact E|done]. Qed.

Lemma atomic_write_calm name data w : calm w -> exists w', atomic_write name data w = (w', Ok tt) /\ calm w' /\
  w_files w' = <[name := data]> (delete (tmp_of name) (<[tmp_of name := data]> (w_files w))).
Proof.
  intros Hc. unfold atomic_write, fs_write, create_truncate, set_mode. cbv zeta. unfold mbind, fs_bind. rewrite call_calm by done. cbn [files_of put_files].
  set (w1 := set_files w _ _). assert (Hc1 : calm w1) by exact Hc. destruct (write_all_calm (tmp_of name) data w1 Hc1) as (w2 & -> & Hc2 & Hf). rewrite call_calm by done.
  unfold rename, mbind, fs_bind. rewrite call_calm by done. unfold files_of, put_files. rewrite Hf. unfold appended, contents, w1. cbn [set_files w_files]. rewrite !lookup_insert_eq.
  cbn [default from_option id app]. rewrite take_ge by lia. set (w3 := set_files w2 _ _). assert (Hc3 : calm w3) by exact Hc2. rewrite call_calm by done.
  exists w3. split; [done|]. split; [done|]. unfold w3. cbn [set_files w_files]. by rewrite insert_insert_eq.
Qed.

(** ** What the file holds *)

(** The queue file and what it decoded to when the process started. *)
Context (file0 : option bytes) (queue0 : PushDocs.Queue).

Definition holds (file : option bytes) (e : gmap string QueueEntry) (d : gmap string DeliveredRecord) : Prop :=
  file = Some (document (queue_json e d)) \/ file = file0 /\ (e, d) = queue0.

Definition saved (s : State) (w : World) : Prop :=
  dir s = true -> queue_dirty s = true \/ (queue_over_limit (entries s) (delivered s) = false /\ holds (w_files w !! QUEUE_FILENAME) (entries s) (delivered s)).

Definition J (s : State) (w : World) : Prop := calm w /\ saved s w.

Lemma J_same s s' w w' : J s w -> calm w' -> w_files w' !! QUEUE_FILENAME = w_files w !! QUEUE_FILENAME -> dir s' = dir s -> entries s' = entries s -> delivered s' = delivered s ->
  queue_dirty s' = queue_dirty s -> J s' w'.
Proof. intros [_ H] Hc Ef E1 E2 E3 E4. split; [done|]. unfold saved in *. by rewrite E1, E2, E3, E4, Ef. Qed.

Lemma J_dirty s w : calm w -> queue_dirty s = true -> J s w.
Proof. intros Hc Hd. split; [done|]. intros _. by left. Qed.

(** The three ways [persist_queue_locked] can end. *)
Lemma persist_cases s w : calm w ->
  (dir s = false /\ persist_queue_locked (s, w) = (s, w, Ok tt)) \/
  (queue_over_limit (entries s) (delivered s) = true /\ exists code, persist_queue_locked (s, w) = (s, w, Err code)) \/
  (exists w', persist_queue_locked (s, w) = (set_dirty false s, w', Ok tt) /\ calm w' /\ w_files w' !! QUEUE_FILENAME = Some (document (queue_json (entries s) (delivered s))) /\
    queue_over_limit (entries s) (delivered s) = false).
Proof.
  intros Hc. unfold persist_queue_locked, persist_queue. unfold mbind, m_bind, state. cbv beta iota. cbn [fst snd]. destruct (dir s) eqn:Hdir; [|by left]. right.
  destruct (queue_over_limit _ _) eqn:El; [left; split; [done|]; eexists; reflexivity|]. right. unfold on_disk. cbn [snd].
  destruct (atomic_write_calm QUEUE_FILENAME (document (queue_json (entries s) (delivered s))) w Hc) as (w' & -> & Hc' & Hf). exists w'. split; [done|]. split; [done|].
  split; [rewrite Hf; apply lookup_insert_eq|done].
Qed.

Lemma persist_J s w : calm w -> J (persist_queue_locked (s, w)).1.1 (persist_queue_locked (s, w)).1.2 \/ (exists code, persist_queue_locked (s, w) = (s, w, Err code)).
Proof.
  intros Hc. destruct (persist_cases s w Hc) as [[Hd ->]|[[_ [code E]]|(w' & -> & Hc' & Hf & Hl)]]; cbn [fst snd]; [left|by right; exists code|left].
  - split; [done|]. unfold saved. by rewrite Hd.
  - split; [done|]. intros _. right. split; [done|by left].
Qed.

(** ** Operations that leave the queue alone *)

Definition keepsw {A} (P : State -> World -> Prop) (m : M A) : Prop := forall s w, P s w -> P (m (s, w)).1.1 (m (s, w)).1.2.

Lemma kw_ret {A} P (a : A) : keepsw P (mret a).
Proof. by intros s w. Qed.
Lemma kw_throw {A} P code : keepsw P (@throw A code).
Proof. by intros s w. Qed.
Lemma kw_bind {A B} P (m : M A) (f : A -> M B) : keepsw P m -> (forall a, keepsw P (f a)) -> keepsw P (m ≫= f).
Proof. intros Hm Hf s w HP. unfold mbind, m_bind. specialize (Hm s w HP). destruct (m (s, w)) as [[s1 w1] [a|e]]; [by apply Hf|done]. Qed.
Lemma kw_state {B} P (f : State -> M B) : (forall s, keepsw P (f s)) -> keepsw P (state ≫= f).
Proof. intros Hf s w HP. unfold mbind, m_bind, state. by apply Hf. Qed.
Lemma kw_check P e : keepsw P (check e).
Proof. destruct e; [apply kw_throw|apply kw_ret]. Qed.
Lemma kw_check_result {A} P (r : result string A) : keepsw P (check_result r).
Proof. by intros s w. Qed.
Lemma kw_forget {A} P (m : M A) : keepsw P m -> keepsw P (forget_result m).
Proof. intros Hm s w HP. unfold forget_result. specialize (Hm s w HP). by destruct (m (s, w)) as [[s1 w1] [a|e]]. Qed.

(** The queue fields of [s'] are those of [s]. *)
Definition same_queue (s s' : State) : Prop := dir s' = dir s /\ entries s' = entries s /\ delivered s' = delivered s /\ queue_dirty s' = queue_dirty s.

Lemma kw_modify f : (forall s, same_queue s (f s)) -> keepsw J (modify f).
Proof. intros Hf s w H. destruct (Hf s) as (E1 & E2 & E3 & E4). eapply J_same; [exact H|apply H|done..]. Qed.

Lemma kw_clock : keepsw J clock.
Proof. intros s w H. unfold clock. cbn [snd]. destruct (w_clock w); [done|]. eapply J_same; [exact H|apply H|done..]. Qed.

(** Writes of the other documents. *)
Lemma kw_other name data : name <> QUEUE_FILENAME -> tmp_of name <> QUEUE_FILENAME -> keepsw J (on_disk "push_persist_failed" (atomic_write name data)).
Proof.
  intros H1 H2 s w H. unfold on_disk. cbn [fst snd]. destruct (atomic_write_calm name data w (proj1 H)) as (w' & -> & Hc & Hf). cbn [fst snd].
  eapply J_same; [exact H|done| |done..]. rewrite Hf, lookup_insert_ne, lookup_delete_ne, lookup_insert_ne by done. done.
Qed.

Lemma kw_persist_subscriptions l : keepsw J (persist_subscriptions l).
Proof. unfold persist_subscriptions. apply kw_state. intros s. destruct (dir s); [by apply kw_other|apply kw_ret]. Qed.
Lemma kw_persist_policies : keepsw J persist_policies.
Proof. unfold persist_policies. apply kw_state. intros s. destruct (dir s); [by apply kw_other|apply kw_ret]. Qed.

Lemma kw_or_else {A} (m : M A) u : keepsw J m -> keepsw J u -> keepsw J (or_else m u).
Proof. intros Hm Hu s w HP. unfold or_else. specialize (Hm s w HP). destruct (m (s, w)) as [[s1 w1] [a|e]]; [done|]. specialize (Hu s1 w1 Hm). by destruct (u (s1, w1)) as [[s2 w2] r]. Qed.

Lemma kw_persist_queue : keepsw J persist_queue_locked.
Proof. intros s w H. destruct (persist_J s w (proj1 H)) as [?|[code E]]; [done|]. by rewrite E. Qed.

(** ** Operations that change the queue

    [tw P m Q]: from [P] the operation ends in [Q], or refused in [J]. *)
Definition tw {A} (P : State -> World -> Prop) (m : M A) (Q : State -> World -> Prop) : Prop :=
  forall s w, P s w -> match m (s, w) with (s', w', Ok _) => Q s' w' | (s', w', Err _) => J s' w' end.

Lemma tw_bind {A B} P Q R (m : M A) (f : A -> M B) : tw P m Q -> (forall a, tw Q (f a) R) -> tw P (m ≫= f) R.
Proof. intros Hm Hf s w HP. unfold mbind, m_bind. specialize (Hm s w HP). destruct (m (s, w)) as [[s1 w1] [a|e]]; [by apply Hf|done]. Qed.
Lemma tw_kw {A} (m : M A) : keepsw J m -> tw J m J.
Proof. intros Hm s w H. specialize (Hm s w H). by destruct (m (s, w)) as [[s1 w1] [a|e]]. Qed.
Lemma kw_tw {A} (m : M A) : tw J m J -> keepsw J m.
Proof. intros Hm s w H. specialize (Hm s w H). by destruct (m (s, w)) as [[s1 w1] [a|e]]. Qed.

(** A state whose queue is still that of [s0]. *)
Definition Jat (s0 s : State) (w : World) : Prop := J s w /\ same_queue s0 s.

Lemma tw_state {B} P Q (f : State -> M B) : (forall s0, tw (fun s w => P s w /\ s = s0) (f s0) Q) -> tw P (state ≫= f) Q.
Proof. intros Hf s w HP. unfold mbind, m_bind, state. by apply Hf. Qed.

Lemma same_queue_refl s : same_queue s s.
Proof. done. Qed.

Lemma tw_start s0 {A} (m : M A) Q : tw (Jat s0) m Q -> tw (fun s w => J s w /\ s = s0) m Q.
Proof. intros Hm s w [H ->]. apply Hm. by split. Qed.

Lemma tw_frame s0 {A} (m : M A) : keepsw J m -> (forall s w, same_queue s (m (s, w)).1.1) -> tw (Jat s0) m (Jat s0).
Proof.
  intros Hm Hs s w [H Hq]. specialize (Hm s w H). specialize (Hs s w). destruct (m (s, w)) as [[s1 w1] [a|e]]; [|done]. split; [done|]. cbn [fst] in Hs.
  unfold same_queue in *. intuition congruence.
Qed.

Lemma tw_modify_at s0 f : (forall s, same_queue s (f s)) -> tw (Jat s0) (modify f) (Jat s0).
Proof. intros Hf. apply tw_frame; [by apply kw_modify|]. intros s w. apply Hf. Qed.

Lemma tw_subscriptions_at s0 l : tw (Jat s0) (persist_subscriptions l) (Jat s0).
Proof.
  apply tw_frame; [apply kw_persist_subscriptions|]. intros s w. unfold persist_subscriptions, mbind, m_bind, state. cbn [fst]. destruct (dir s); [|done].
  unfold on_disk. cbn [fst snd]. by destruct (atomic_write _ _ w).
Qed.

(** The queue is replaced and written; a refused write puts the old one back. *)
Lemma tw_change s0 f u {B} (rest : M B) : (forall s, exists e d, f s = set_queue e d s) -> (forall s, same_queue s0 s -> same_queue s0 (u (f s))) -> keepsw J rest ->
  tw (Jat s0) (_ ← modify f; _ ← or_else persist_queue_locked (modify u); rest) J.
Proof.
  intros Hf Hu Hr s w [H Hq]. unfold mbind, m_bind, modify, or_else. cbn [fst snd]. destruct (Hf s) as (e & d & E). specialize (Hu s Hq). rewrite E in *.
  destruct (persist_cases (set_queue e d s) w (proj1 H)) as [[Hd Ep]|[[_ [code Ep]]|(w' & Ep & Hc & Hfile & Hlim)]]; rewrite Ep; cbn [fst snd].
  - pose proof (tw_kw rest Hr (set_queue e d s) w) as Hk. apply Hk. split; [apply H|]. unfold saved. by rewrite Hd.
  - destruct Hq as (Q1 & Q2 & Q3 & Q4), Hu as (U1 & U2 & U3 & U4). eapply J_same; [exact H|apply H|done|congruence..].
  - pose proof (tw_kw rest Hr (set_dirty false (set_queue e d s)) w') as Hk. apply Hk. split; [done|]. intros _. right. split; [done|by left].
Qed.

Lemma change_tail (m : M unit) : (forall s w, (_ ← m; mret tt) (s, w) = m (s, w)).
Proof. intros s w. unfold mbind, m_bind, mret, m_ret. by destruct (m (s, w)) as [[s1 w1] [[]|e]]. Qed.

Lemma tw_change_last s0 f u : (forall s, exists e d, f s = set_queue e d s) -> (forall s, same_queue s0 s -> same_queue s0 (u (f s))) ->
  tw (Jat s0) (_ ← modify f; or_else persist_queue_locked (modify u)) J.
Proof.
  intros Hf Hu s w H. pose proof (tw_change s0 f u (mret tt) Hf Hu (kw_ret J tt) s w H) as Hk. unfold mbind at 1, m_bind at 1, modify at 1 in Hk. unfold mbind at 1, m_bind at 1, modify at 1.
  by rewrite change_tail in Hk.
Qed.

Lemma restore_same s0 e d s : same_queue s0 s -> same_queue s0 (set_queue (entries s0) (delivered s0) (set_queue e d s)).
Proof. by intros (Q1 & Q2 & Q3 & Q4). Qed.

Lemma kw_enqueue event sub due : keepsw J (enqueue_locked event sub due).
Proof.
  unfold enqueue_locked. case_decide; [apply kw_throw|]. apply kw_tw, tw_state. intros s0. apply tw_start.
  apply (tw_change s0 (fun s => set_queue _ _ s) (fun s => set_queue _ _ s)); [eauto| |apply kw_ret].
  intros s (Q1 & Q2 & Q3 & Q4). split_and!; cbn [dir entries delivered queue_dirty set_queue]; [done| |done|done].
  rewrite <- Q2. apply map_eq. intros i. destruct (decide (i = delivery_id (e_key event) (s_endpoint sub))) as [->|Hne]; [by rewrite lookup_partial_alter_eq|].
  by rewrite lookup_partial_alter_ne, lookup_insert_ne by done.
Qed.

Lemma kw_replace d ends sub : keepsw J (replace_subscriptions_locked d ends sub).
Proof.
  unfold replace_subscriptions_locked. case_decide; [apply kw_ret|]. apply kw_tw, tw_state. intros s0. apply tw_start. unfold restore_queue.
  apply (tw_change_last s0 (fun s => set_queue _ _ s) (fun s => set_queue _ _ s)); [eauto|intros s; apply restore_same].
Qed.

Lemma kw_remove_subscriptions d ends : keepsw J (remove_subscriptions_locked d ends).
Proof.
  unfold remove_subscriptions_locked. case_decide; [apply kw_ret|]. apply kw_tw, tw_state. intros s0. apply tw_start. unfold restore_queue.
  apply (tw_change_last s0 (fun s => set_queue _ _ s) (fun s => set_queue _ _ s)); [eauto|intros s; apply restore_same].
Qed.

Lemma kw_tail_modify {B} f (rest : M B) : (forall s, same_queue s (f s)) -> keepsw J rest -> keepsw J (_ ← modify f; rest).
Proof. intros Hf Hr. apply kw_bind; [by apply kw_modify|by intros]. Qed.

Lemma kw_remove_device d : keepsw J (remove_device d).
Proof.
  unfold remove_device. case_decide; [apply kw_throw|]. apply kw_tw, tw_state. intros s0. apply tw_start.
  apply (tw_bind _ (Jat s0)); [apply tw_subscriptions_at|intros _]. do 2 (apply (tw_bind _ (Jat s0)); [by apply tw_modify_at|intros _]). unfold restore_queue.
  apply (tw_change s0 (fun s => set_queue _ _ s) (fun s => set_queue _ _ s)); [eauto|intros s; apply restore_same|]. do 4 (apply kw_tail_modify; [done|]). apply kw_persist_policies.
Qed.

Lemma kw_remove_all : keepsw J remove_all_devices.
Proof.
  unfold remove_all_devices. apply kw_tw, tw_state. intros s0. apply tw_start. apply (tw_bind _ (Jat s0)); [apply tw_subscriptions_at|intros _].
  do 2 (apply (tw_bind _ (Jat s0)); [by apply tw_modify_at|intros _]). unfold restore_queue.
  apply (tw_change s0 (fun s => set_queue _ _ s) (fun s => set_queue _ _ s)); [eauto|intros s; apply restore_same|]. do 4 (apply kw_tail_modify; [done|]). apply kw_persist_policies.
Qed.

(** ** The other operations *)

Lemma kw_prune_all ids : keepsw J (prune_all ids).
Proof.
  induction ids as [|id ids IH]; [apply kw_ret|]. intros s w H. cbn [prune_all]. pose proof (kw_remove_device id s w H) as H1. destruct (remove_device id (s, w)) as [[s1 w1] r]. cbn [fst snd] in H1.
  assert (Hk : keepsw J (rest ← prune_all ids; mret (match r with Ok _ => id :: rest | Err _ => rest end))) by (apply kw_bind; [exact IH|intros; apply kw_ret]). exact (Hk s1 w1 H1).
Qed.

Lemma kw_commit_subscription filtered reps sub : keepsw J (commit_subscription filtered reps sub).
Proof.
  unfold commit_subscription. apply kw_state. intros s0. apply kw_bind; [apply kw_persist_subscriptions|intros _].
  apply kw_bind; [apply kw_or_else; [apply kw_replace|apply kw_persist_subscriptions]|intros _]. by apply kw_modify.
Qed.

Lemma kw_subscribe sub reps m : subscribe device_live sub reps = Some m -> keepsw J m.
Proof.
  unfold subscribe. case_decide as Hk; [intros [= <-]; apply kw_throw|]. destruct (valid_push_endpoint (s_endpoint sub)) as [[]|]; intros [= <-]; [|apply kw_throw].
  apply kw_state. intros s0. apply kw_bind; [destruct (dead_owner device_live s0 sub); [apply kw_remove_device|apply kw_ret]|intros _].
  unfold subscribe_locked. apply kw_state. intros s1. destruct (list_find _ _) as [[i x]|]; [case_decide; [apply kw_throw|]|]; apply kw_commit_subscription.
Qed.

Lemma kw_unsubscribe d ends client : keepsw J (unsubscribe_device d ends client).
Proof.
  unfold unsubscribe_device. case_decide; [apply kw_throw|]. apply kw_state. intros s0. apply kw_bind; [apply kw_persist_subscriptions|intros _]. apply kw_tail_modify; [done|].
  case_decide; [apply kw_ret|apply kw_remove_subscriptions].
Qed.

Lemma kw_publish_all request now expires subs result : keepsw J (publish_all request now expires subs result).
Proof.
  revert result. induction subs as [|sub subs IH]; intros result; [apply kw_ret|]. cbn [publish_all]. apply kw_bind; [|intros r; apply IH]. unfold publish_one. apply kw_state. intros s0.
  destruct (negb _); [apply kw_ret|]. apply kw_bind; [apply kw_check_result|intros payload]. apply kw_bind; [apply kw_check|intros _]. apply kw_bind; [apply kw_enqueue|intros _].
  apply kw_tail_modify; [done|apply kw_ret].
Qed.

Lemma kw_publish request : keepsw J (publish request).
Proof.
  unfold publish. apply kw_bind; [destruct (pr_created_at request); [apply kw_ret|apply kw_clock]|intros now]. apply kw_state. intros s0. apply kw_bind; [apply kw_publish_all|intros r].
  apply kw_tail_modify; [|apply kw_ret]. intros s. by destruct (_ <? _)%nat.
Qed.

Lemma kw_cancel_key key : keepsw J (cancel_key key).
Proof.
  unfold cancel_key. apply kw_tw, tw_state. intros s0. apply tw_start. case_decide as Hnone.
  - apply (tw_bind _ J); [|intros _; apply tw_kw, kw_ret]. intros s w [H (Q1 & Q2 & Q3 & Q4)]. unfold modify. cbn [fst snd]. eapply J_same; [exact H|apply H|done..| | |done]; cbn [set_queue entries delivered]; [|done].
    rewrite Q2. apply map_filter_id. intros id e He Ek. assert (Hin : filter (fun x : string * QueueEntry => e_key (q_event x.2) = key) (entries s0) !! id = Some e) by (by apply map_lookup_filter_Some).
    rewrite Hnone in Hin. by rewrite lookup_empty in Hin.
  - apply (tw_change_last s0 (fun s => set_queue _ _ s) (fun s => set_queue _ _ s)); [eauto|]. intros s (Q1 & Q2 & Q3 & Q4). split_and!; cbn [dir entries delivered queue_dirty set_queue]; [done| |done|done].
    rewrite Q2. apply (map_filter_union_complement (fun x : string * QueueEntry => e_key (q_event x.2) = key)).
Qed.

Lemma kw_retract_all key now expires records : keepsw J (retract_all key now expires records).
Proof.
  induction records as [|r records IH]; [apply kw_ret|]. cbn [retract_all]. apply kw_state. intros s0. apply kw_bind; [apply kw_check_result|intros payload].
  apply kw_bind; [apply kw_enqueue|intros _; exact IH].
Qed.

Lemma kw_resolve key : keepsw J (resolve key).
Proof.
  unfold resolve. apply kw_bind; [apply kw_check|intros _]. apply kw_bind; [apply kw_cancel_key|intros _]. apply kw_tw, tw_state. intros s0. apply tw_start.
  apply (tw_bind _ (Jat s0)); [by apply tw_modify_at|intros _]. set (records := filter _ _). case_decide as Hnil.
  - apply (tw_bind _ J); [|intros _; apply tw_kw, kw_persist_queue]. intros s w [H (Q1 & Q2 & Q3 & Q4)]. unfold modify, forget_delivered. cbn [fst snd].
    eapply J_same; [exact H|apply H|done..| |done]; cbn [set_queue entries delivered].
    rewrite Q3. apply map_filter_id. intros id r Hr Ek. assert (Hin : r ∈ records) by (apply list_elem_of_filter; split; [done|]; apply list_elem_of_fmap; exists (id, r); split; [done|by apply elem_of_btree_list]).
    rewrite Hnil in Hin. by apply not_elem_of_nil in Hin.
  - intros s w [H _]. revert s w H. change (tw J (_ ← modify (fun s => set_keys (active s) ({[key]} ∪ retracting s) s); now ← clock; _ ← retract_all key now (add_ns now PUBLISH_DEFAULT_TTL_NS) records; modify notify_one) J).
    apply tw_kw. apply kw_tail_modify; [done|]. apply kw_bind; [apply kw_clock|intros now]. apply kw_bind; [apply kw_retract_all|intros _]. by apply kw_modify.
Qed.

Lemma kw_resolve_all keys : keepsw J (resolve_all keys).
Proof. induction keys as [|k keys IH]; [apply kw_ret|]. cbn [resolve_all]. apply kw_bind; [apply kw_resolve|intros _; exact IH]. Qed.

Lemma kw_undoable_policies f u : (forall s, same_queue s (f s)) -> (forall s, same_queue s (u s)) -> keepsw J (_ ← modify f; or_else persist_policies (modify u)).
Proof. intros Hf Hu. apply kw_tail_modify; [done|]. apply kw_or_else; [apply kw_persist_policies|by apply kw_modify]. Qed.

Lemma kw_mark_accepted key at_ : keepsw J (mark_accepted key at_).
Proof. unfold mark_accepted. apply kw_state. intros s0. by apply kw_undoable_policies. Qed.

Lemma kw_run_op op : keepsw J (run_op device_live op).
Proof.
  destruct op; cbn [run_op].
  - unfold set_policy. apply kw_bind; [apply kw_check_result|intros q]. apply kw_state. intros s0. by apply kw_undoable_policies.
  - by apply kw_modify.
  - apply kw_forget. unfold reserve_test. apply kw_tail_modify; [done|]. apply kw_state. intros s0. destruct (test_last s0 !! device_id); [destruct (recent _ z); [apply kw_ret|]|]; (apply kw_tail_modify; [done|apply kw_ret]).
  - destruct (subscribe device_live sub replace_endpoints) as [m|] eqn:E; [by eapply kw_subscribe|apply kw_throw].
  - apply kw_unsubscribe.
  - apply kw_remove_device.
  - apply kw_remove_all.
  - apply kw_forget. unfold reconcile_devices. apply kw_state. intros s0. apply kw_prune_all.
  - apply kw_forget, kw_publish.
  - apply kw_resolve.
  - unfold resolve_pane_id. apply kw_state. intros s0. apply kw_resolve_all.
  - unfold reconcile. case_decide; [apply kw_throw|]. apply kw_tail_modify; [done|]. apply kw_state. intros s0. apply kw_bind; [apply kw_resolve_all|intros _]. apply kw_tail_modify; [done|]. by apply kw_modify.
  - apply kw_forget. unfold claim_update_version. case_decide; [apply kw_throw|]. apply kw_state. intros s0. destruct (negb _); [apply kw_ret|]. destruct (default _ _); [apply kw_ret|].
    apply kw_tail_modify; [done|]. apply kw_bind; [|intros _; apply kw_ret]. apply kw_or_else; [apply kw_persist_policies|by apply kw_modify].
  - unfold set_global_snooze. apply kw_state. intros s0. by apply kw_undoable_policies.
Qed.

(** ** The worker *)

(** Sections that mark what they change. *)
Definition touches (s s' : State) : Prop := dir s' = dir s /\ (queue_dirty s' = true \/ same_queue s s').

Lemma touches_refl s : touches s s.
Proof. split; [done|]. right. apply same_queue_refl. Qed.
Lemma touches_trans s1 s2 s3 : touches s1 s2 -> touches s2 s3 -> touches s1 s3.
Proof. intros [D1 H1] [D2 H2]. split; [congruence|]. destruct H2 as [H2|(A1 & A2 & A3 & A4)]; [by left|]. destruct H1 as [H1|(B1 & B2 & B3 & B4)]; [left|right]; unfold same_queue; intuition congruence. Qed.
Lemma touches_foldl {A} (f : State -> A -> State) l s : (forall s x, touches s (f s x)) -> touches s (foldl f s l).
Proof. intros Hf. revert s. induction l as [|x l IH]; intros s; [apply touches_refl|]. cbn [foldl]. eapply touches_trans; [apply Hf|apply IH]. Qed.

Lemma kw_touch f : (forall s, touches s (f s)) -> keepsw J (modify f).
Proof. intros Hf s w H. destruct (Hf s) as [Hd [Ht|Hs]]; [by apply J_dirty; [apply H|]|]. destruct Hs as (E1 & E2 & E3 & E4). eapply J_same; [exact H|apply H|done..]. Qed.

Lemma kw_finish_entry e d now : keepsw J (finish_entry e d now).
Proof.
  unfold finish_entry. apply kw_state. intros s0. case_decide as Hin; [|apply kw_ret]. intros s w H. unfold mbind, m_bind, modify. cbn [fst snd mret m_ret]. by apply J_dirty; [apply H|].
Qed.
Lemma kw_reschedule e n next : keepsw J (reschedule_entry e n next).
Proof.
  unfold reschedule_entry. apply kw_state. intros s0. case_decide as Hin; [|apply kw_ret]. intros s w H. unfold mbind, m_bind, modify. cbn [fst snd mret m_ret]. by apply J_dirty; [apply H|].
Qed.
Lemma kw_note_accepted key at_ : keepsw J (note_accepted key at_).
Proof. unfold note_accepted. apply kw_state. intros s0. case_decide; [apply kw_ret|apply kw_mark_accepted]. Qed.
Lemma kw_flush : keepsw J flush_queue.
Proof. unfold flush_queue. apply kw_state. intros s0. destruct (queue_dirty s0); [apply kw_persist_queue|apply kw_ret]. Qed.

Lemma touches_dirty s e d : touches s (set_dirty true (set_queue e d s)).
Proof. split; [done|by left]. Qed.

Lemma touches_recover_device now s device ends fb rs : touches s (recover_device now s device ends fb rs).
Proof.
  unfold recover_device. set (s1 := foldl _ s _). assert (H1 : touches s s1) by (apply touches_foldl; intros; apply touches_dirty). cbv zeta.
  set (s2 := if decide _ then s1 else _). assert (H2 : touches s1 s2) by (unfold s2; case_decide; [apply touches_refl|apply touches_dirty]).
  eapply touches_trans; [exact H1|]. eapply touches_trans; [exact H2|]. destruct fb as [sub|]; [|apply touches_refl]. apply touches_foldl. intros x r. unfold requeue_result. case_match; [apply touches_refl|apply touches_dirty].
Qed.

Lemma kw_recover_pruned results now : keepsw J (recover_pruned results now).
Proof.
  unfold recover_pruned. case_decide; [apply kw_ret|]. apply kw_state. intros s0. apply kw_bind; [apply kw_or_else; [apply kw_persist_subscriptions|apply kw_touch]|intros _].
  { intros s. apply touches_foldl. intros x r. unfold restore_pruned. case_decide; [|apply touches_refl]. case_match; [apply touches_refl|apply touches_dirty]. }
  apply kw_bind; [apply kw_touch; intros s; apply touches_foldl; intros x [device [ends rs]]; apply touches_recover_device|intros _]. apply kw_tail_modify; [done|].
  apply kw_modify. intros s. by case_bool_decide.
Qed.

Lemma same_queue_trans s1 s2 s3 : same_queue s1 s2 -> same_queue s2 s3 -> same_queue s1 s3.
Proof. unfold same_queue. intuition congruence. Qed.

Lemma sweep_same seen s : same_queue s (foldl sweep_key s seen).
Proof.
  revert s. induction seen as [|k seen IH]; intros s; [apply same_queue_refl|]. cbn [foldl]. eapply same_queue_trans; [|apply IH]. unfold sweep_key. repeat case_match; done.
Qed.

(** A queue with fewer delivered records fits if the larger one did, its text not
    being longer. *)
Context (shorter : forall e d d', d' ⊆ d -> (length (document (queue_json e d')) <= length (document (queue_json e d)))%nat).
Lemma fewer_fit e d d' : d' ⊆ d -> queue_over_limit e d = false -> queue_over_limit e d' = false.
Proof.
  intros Hsub. unfold queue_over_limit. rewrite !orb_false_iff, !bool_decide_eq_false. intros [H1 H2]. pose proof (shorter e d d' Hsub). pose proof (map_subseteq_size d' d Hsub). lia.
Qed.

(** The sweep forgets records and writes the queue if there were any. *)
Lemma sweep_write_J d' s w : d' ⊆ delivered s -> J s w ->
  let '(s', w', _) := (_ ← modify (set_queue (entries s) d'); if decide (size d' <> size (delivered s)) then persist_queue_locked else mret tt) (s, w) in J s' w'.
Proof.
  intros Hsub [Hc Hs]. unfold mbind, m_bind, modify. cbn [fst snd]. set (s1 := set_queue (entries s) d' s). case_decide as Hsize.
  - destruct (persist_cases s1 w Hc) as [[Hd ->]|[[Hl [code ->]]|(w' & -> & Hc' & Hf & Hl)]].
    + split; [done|]. unfold saved. by rewrite Hd.
    + split; [done|]. intros Hd. destruct (Hs Hd) as [Hdirty|[Hfit _]]; [by left|]. exfalso. pose proof (fewer_fit _ _ _ Hsub Hfit) as Hx. cbn [s1 set_queue entries delivered] in Hl. congruence.
    + split; [done|]. intros _. right. split; [done|by left].
  - assert (E : d' = delivered s) by (apply map_subseteq_size_eq; [done|]; destruct (decide (size d' = size (delivered s))); [lia|tauto]). unfold mret, m_ret. split; [done|]. unfold saved in *. cbn [s1 set_queue dir entries delivered queue_dirty]. by rewrite E.
Qed.

Lemma kw_sweep results : keepsw J (sweep_keys results).
Proof.
  unfold sweep_keys. apply kw_tw, tw_state. intros s0 s w [H ->]. cbv zeta. match goal with |- context [set_queue (entries s0) ?x] => set (d' := x) end.
  assert (Hsub : d' ⊆ delivered s0) by apply map_filter_subseteq. pose proof (sweep_write_J d' s0 w Hsub H) as Hk. clearbody d'. unfold mbind, m_bind, modify in *. cbn [fst snd] in *.
  destruct ((if decide (size d' <> size (delivered s0)) then persist_queue_locked else mret tt) (set_queue (entries s0) d' s0, w)) as [[s1 w1] [u|code]]; [|done].
  apply (kw_modify (fun s => foldl sweep_key s (elements (list_to_set (dr_key <$> results) : gset PushEventKey)))); [intros x; apply sweep_same|done].
Qed.

Lemma kw_group_step now answer g : keepsw J (group_step now answer g).
Proof.
  unfold group_step. destruct (g_phase g) as [|e|e d n|e n|c].
  - apply kw_state. intros s0. apply kw_ret.
  - unfold end_send. destruct answer as [u|err]; [apply kw_ret|]. destruct (is_terminal err); [apply kw_ret|]. case_decide; [|apply kw_ret]. apply kw_bind; [apply kw_reschedule|intros; apply kw_ret].
  - unfold end_entry. apply kw_bind; [apply kw_finish_entry|intros; case_decide; apply kw_ret].
  - unfold end_noting. intros s w H. pose proof (kw_note_accepted (e_key (q_event e)) now s w H) as Hk. by destruct (note_accepted _ _ (s, w)) as [[s1 w1] [u|code]].
  - apply kw_ret.
Qed.

Lemma J_finish_pass p s w : J s w -> J (finish_pass p (s, w)).1.1 (finish_pass p (s, w)).1.2.
Proof.
  intros H. unfold finish_pass. destruct (ps_phase p) as [| |recovered| |r]; try done.
  - pose proof (kw_recover_pruned (ps_results p) (ps_now p) s w H) as Hk. by destruct (recover_pruned _ _ (s, w)) as [[s1 w1] r].
  - pose proof (kw_flush s w H) as Hk. destruct (flush_queue (s, w)) as [[s1 w1] [u|code]]; [|done]. destruct recovered; [destruct (ps_error p)|]; done.
  - pose proof (kw_sweep (ps_results p) s w H) as Hk. by destruct (sweep_keys _ (s, w)) as [[s1 w1] r].
Qed.

Lemma J_step y ev y' : J (sy_state y) (sy_world y) -> step device_live y ev = Some y' -> J (sy_state y') (sy_world y').
Proof.
  intros H Hs. destruct ev as [op|t|i answer|i| |]; cbn [step] in Hs.
  - pose proof (kw_run_op op _ _ H) as Hk. destruct (run_op device_live op _) as [[s w] r]. by injection Hs as <-.
  - destruct (sy_pass y); [done|]. by injection Hs as <-.
  - destruct (sy_pass y) as [p|]; [|done]. case_decide; [|done]. destruct (ps_tasks p !! i) as [g|]; [|done]. cbn [mbind option_bind] in Hs.
    pose proof (kw_group_step (ps_now p) answer g _ _ H) as Hk. destruct (group_step _ _ g _) as [[s w] [g'|e]]; by injection Hs as <-.
  - destruct (sy_pass y) as [p|]; [|done]. case_decide; [|done]. destruct (ps_tasks p !! i) as [g|]; [|done]. cbn [mbind option_bind] in Hs. destruct (group_finished g); [|done]. by injection Hs as <-.
  - destruct (sy_pass y) as [p|]; [|done]. case_decide; [|done]. by injection Hs as <-.
  - destruct (sy_pass y) as [p|]; [|done]. pose proof (J_finish_pass p _ _ H) as Hk. destruct (finish_pass p _) as [[s w] p']. by injection Hs as <-.
Qed.

Lemma J_run evs y y' : J (sy_state y) (sy_world y) -> run device_live y evs = Some y' -> J (sy_state y') (sy_world y').
Proof.
  revert y. induction evs as [|ev evs IH]; intros y H Hr; [by injection Hr as <-|]. cbn [run] in Hr. destruct (step device_live y ev) as [y1|] eqn:E; [|done].
  apply (IH y1); [by eapply J_step|done].
Qed.

End Durable.

(** ** Restart *)

Section Restart.
Context `{SH : Sha256} `{FT : GoJson.FloatText} `{B64 : E2eeCodec.Base64} `{CM : Protocol.CaseMapping}.
Context `{PJ : PrettyJson} `{SB : UploadHandlers.StandardBase64} `{DJ : UploadIndex.DocumentJson} `{UP : UrlParser}.

(** What the queue file of [w] reads as. *)
Definition stored (w : World) (q : PushDocs.Queue) : Prop :=
  match w_files w !! QUEUE_FILENAME with None => q = (∅, ∅) | Some data => UploadIndex.from_slice data ≫= PushDocs.de_queue = Some q end.

Lemma read_calm name w : calm w -> read_optional name w = (w, Ok (w_files w !! name)).
Proof.
  intros Hc. unfold read_optional, fs_read, open_read, read_to_end. unfold mbind, fs_bind. rewrite call_calm by done. unfold files_of. destruct (w_files w !! name) as [data|] eqn:E.
  - cbn [mret fs_ret]. rewrite call_calm by done. unfold contents. by rewrite E.
  - unfold fail, not_found. by rewrite decide_True.
Qed.

Lemma load_stored w q : calm w -> stored w q -> load_queue w = (w, Ok q).
Proof.
  intros Hc Hs. unfold load_queue, stored in *. unfold mbind, fs_bind. rewrite read_calm by done. destruct (w_files w !! QUEUE_FILENAME) as [data|]; [|by rewrite Hs].
  unfold mbind in Hs. by rewrite Hs.
Qed.

(** The reader of documents inverts their writer on queues whose times and
    numbers have a written form. *)
Definition queues_readable : Prop := forall e d, map_Forall (fun _ => PushDocs.writable_entry) e -> map_Forall (fun _ => PushDocs.writable_record) d ->
  UploadIndex.from_slice (document (queue_json e d)) = Some (queue_json e d).

(** Forgetting delivered records does not make the text longer. *)
Definition shorter_without : Prop := forall e d d', d' ⊆ d -> (length (document (queue_json e d')) <= length (document (queue_json e d)))%nat.

(** C36 — Pending notifications survive a restart.  Start from a queue within the
    limits that was read from its file, and let client operations and delivery
    passes interleave in any way in which file calls succeed.  Whenever the queue
    is not marked dirty, and its times and numbers have a written form, a new
    process reads back exactly the pending entries, with their subscription, due
    time and attempts, and exactly the records of delivered notifications:
    nothing still owed is lost, and nothing delivered is forgotten and sent again.
    The reader of documents inverts their writer on such queues, and the writer
    does not write more for fewer records. *)
Theorem pending_survive_restart device_live y evs y' :
  calm (sy_world y) -> stored (sy_world y) (entries (sy_state y), delivered (sy_state y)) -> queue_over_limit (entries (sy_state y)) (delivered (sy_state y)) = false ->
  queues_readable -> shorter_without ->
  run device_live y evs = Some y' -> dir (sy_state y') = true -> queue_dirty (sy_state y') = false ->
  map_Forall (fun _ => PushDocs.writable_entry) (entries (sy_state y')) -> map_Forall (fun _ => PushDocs.writable_record) (delivered (sy_state y')) ->
  load_queue (sy_world y') = (sy_world y', Ok (entries (sy_state y'), delivered (sy_state y'))).
Proof.
  intros Hc Hs Hfit Hlaw Hshort Hr Hdir Hclean He Hd. set (file0 := w_files (sy_world y) !! QUEUE_FILENAME).
  destruct (J_run device_live file0 (entries (sy_state y), delivered (sy_state y)) Hshort evs y y') as [Hc' Hsaved]; [|done|].
  - split; [done|]. intros _. right. split; [done|by right].
  - destruct (Hsaved Hdir) as [Hdirty|[_ Hf]]; [congruence|]. apply load_stored; [done|]. unfold stored. destruct Hf as [->|[-> E]].
    + rewrite Hlaw by done. cbn [mbind option_bind]. by apply PushDocs.de_queue_json.
    + rewrite E. exact Hs.
Qed.
End Restart.

(** ** A writer and a reader of documents *)

Import PushDemo.

(** Prefix notation: a tag, then the parts, lists and strings after their length. *)
Definition put_string (s : string) : bytes := Z.of_nat (String.length s) :: as_bytes s.
Fixpoint put (v : json) : bytes :=
  match v with
  | JNull => [0]
  | JBool b => [1; if b then 1 else 0]
  | JNumber (PosInt z) => [2; z]
  | JNumber (NegInt z) => [3; z]
  | JNumber (Float z) => [4; z]
  | JString s => 5 :: put_string s
  | JArray l => 6 :: Z.of_nat (length l) :: concat (map put l)
  | JObject ms => 7 :: Z.of_nat (length ms) :: concat (map (fun kv => put_string kv.1 ++ put kv.2) ms)
  end.

Definition Reader (A : Type) : Type := bytes -> option (A * bytes).
Definition take_string : Reader string := fun b =>
  match b with [] => None | n :: b => Some (string_of_bytes (take (Z.to_nat n) b), drop (Z.to_nat n) b) end.
Fixpoint take_many {A} (p : Reader A) (n : nat) : Reader (list A) := fun b =>
  match n with O => Some ([], b) | S n => '(x, b) ← p b; '(l, b) ← take_many p n b; Some (x :: l, b) end.
Fixpoint take_json (fuel : nat) : Reader json := fun b =>
  match fuel, b with
  | S f, 0 :: b => Some (JNull, b)
  | S f, 1 :: x :: b => Some (JBool (bool_decide (x = 1)), b)
  | S f, 2 :: z :: b => Some (JNumber (PosInt z), b)
  | S f, 3 :: z :: b => Some (JNumber (NegInt z), b)
  | S f, 4 :: z :: b => Some (JNumber (Float z), b)
  | S f, 5 :: b => prod_map JString id <$> take_string b
  | S f, 6 :: n :: b => prod_map JArray id <$> take_many (take_json f) (Z.to_nat n) b
  | S f, 7 :: n :: b => prod_map JObject id <$> take_many (fun b => '(k, b) ← take_string b; '(v, b) ← take_json f b; Some ((k, v), b)) (Z.to_nat n) b
  | _, _ => None
  end.

Lemma take_put_string s rest : take_string (put_string s ++ rest) = Some (s, rest).
Proof.
  unfold take_string, put_string. cbn [app]. rewrite Nat2Z.id, <- as_bytes_length. rewrite take_app_length, drop_app_length. by rewrite string_of_as_bytes.
Qed.

Lemma take_put_many {A} (p : Reader A) (w : A -> bytes) (l : list A) rest : (forall x rest, x ∈ l -> p (w x ++ rest) = Some (x, rest)) ->
  take_many p (length l) (concat (map w l) ++ rest) = Some (l, rest).
Proof.
  induction l as [|x l IH]; intros Hp; [done|]. cbn [length take_many map concat]. rewrite <- app_assoc, Hp by left. cbn [mbind option_bind]. rewrite IH; [done|]. intros y r Hy. apply Hp. by right.
Qed.

Lemma part_length {A} (w : A -> bytes) l x : x ∈ l -> (length (w x) <= length (concat (map w l)))%nat.
Proof. induction 1; cbn [map concat]; rewrite length_app; lia. Qed.

Lemma take_put fuel : forall v rest, (length (put v) <= fuel)%nat -> take_json fuel (put v ++ rest) = Some (v, rest).
Proof.
  induction fuel as [|f IH]; intros v rest Hl; [by destruct v as [|b|[z|z|z]|s|l|ms]; cbn [put length] in Hl; lia|].
  destruct v as [|b|[z|z|z]|s|l|ms]; try reflexivity; [by destruct b| | |]; cbn [put app take_json] in *; cbn [length] in Hl.
  - by rewrite take_put_string.
  - rewrite Nat2Z.id, take_put_many; [done|]. intros x r Hx. apply IH. pose proof (part_length put l x Hx). lia.
  - rewrite Nat2Z.id, (take_put_many _ (fun kv => put_string kv.1 ++ put kv.2)); [done|]. intros [k x] r Hx. cbn [fst snd]. rewrite <- app_assoc, take_put_string. cbn [mbind option_bind].
    rewrite IH; [done|]. pose proof (part_length (fun kv => put_string kv.1 ++ put kv.2) ms _ Hx) as Hp. cbn [fst snd] in Hp. rewrite length_app in Hp. lia.
Qed.

#[local] Instance prefix_writer : PrettyJson := {| to_string_pretty := put |}.
#[local] Instance prefix_reader : UploadIndex.DocumentJson := {| UploadIndex.from_slice data := fst <$> take_json (length data) data |}.

Lemma prefix_readable : queues_readable.
Proof.
  intros e d _ _. unfold document. cbn [UploadIndex.from_slice prefix_reader to_string_pretty prefix_writer]. rewrite take_put; [done|]. rewrite length_app. lia.
Qed.

Lemma concat_submseteq {A} (f : A -> bytes) l l' : l ⊆+ l' -> (length (concat (map f l)) <= length (concat (map f l')))%nat.
Proof. induction 1; cbn [map concat]; rewrite ?length_app; lia. Qed.
Lemma put_map_length {A} (f : A -> json) (m m' : gmap string A) : m' ⊆ m -> (length (put (map_json f m')) <= length (put (map_json f m)))%nat.
Proof.
  intros Hsub. unfold map_json. cbn [put length]. apply le_n_S, le_n_S, concat_submseteq. apply fmap_submseteq. rewrite !btree_list_perm. by apply map_to_list_submseteq.
Qed.
Lemma prefix_shorter : shorter_without.
Proof.
  intros e d d' Hsub. unfold document, queue_json. cbn [to_string_pretty prefix_writer]. rewrite !length_app. apply Nat.add_le_mono_r.
  assert (E : forall a b, length (put (JObject [("entries"%string, a); ("delivered"%string, b)])) = (2 + length (put_string "entries") + length (put a) + length (put_string "delivered") + length (put b))%nat).
  { intros a b. cbn [put map concat fst snd length]. rewrite !length_app. cbn [length]. lia. }
  rewrite !E. pose proof (put_map_length delivered_json d d' Hsub). lia.
Qed.

#[local] Instance time_dec t : Decision (PushDocs.writable_time t).
Proof. unfold PushDocs.writable_time, ts_ok. apply _. Defined.
#[local] Instance key_dec k : Decision (PushDocs.writable_key k).
Proof. unfold PushDocs.writable_key, is_i64. apply _. Defined.
#[local] Instance entry_dec q : Decision (PushDocs.writable_entry q).
Proof.
  unfold PushDocs.writable_entry. apply and_dec; [|apply _].
  refine (match decide ((PushDocs.writable_key (e_key (q_event q)) /\ UploadHandlers.std_decode (as_bytes (UploadHandlers.std_encode (e_payload (q_event q)))) = Some (e_payload (q_event q))) /\
    PushDocs.writable_time (e_created_at (q_event q)) /\ PushDocs.writable_time (e_expires_at (q_event q))) with left H => left _ | right H => right _ end).
  - destruct H as [[H1 H2] [H3 H4]]. by split.
  - intros [H1 H2 H3 H4]. by apply H.
Defined.
#[local] Instance record_dec d : Decision (PushDocs.writable_record d).
Proof. unfold PushDocs.writable_record. apply _. Defined.

(** A new manager on an empty directory, two subscriptions, one event, a pass
    that sends one of the two notifications. *)
Definition disk_start : Sys :=
  match new (replicate 32 1) PushDemo.demo_world with (w, Ok (Some s)) => mkSys s w None [] | (w, _) => mkSys (in_memory []) w None [] end.
Definition disk_events : list Event := PushDemo.demo_before ++ [EvAdvance 0 (Ok tt); EvAdvance 0 (Ok tt); EvAdvance 0 (Ok tt); EvCancel; EvFinish; EvFinish].
Definition disk_end : Sys := default disk_start (run None disk_start disk_events).

Lemma pending_survive_restart_witness : size (entries (sy_state disk_end)) = 1%nat /\ size (delivered (sy_state disk_end)) = 1%nat /\
  load_queue (sy_world disk_end) = (sy_world disk_end, Ok (entries (sy_state disk_end), delivered (sy_state disk_end))).
Proof.
  assert (Hr : run None disk_start disk_events = Some disk_end).
  { assert (H : (match run None disk_start disk_events with Some _ => true | None => false end) = true) by (vm_compute; reflexivity). unfold disk_end. by destruct (run None disk_start disk_events). }
  assert (Hf : w_faults (sy_world disk_start) = []) by (vm_compute; reflexivity).
  assert (Hq : w_files (sy_world disk_start) !! QUEUE_FILENAME = None) by (vm_compute; reflexivity).
  assert (He : entries (sy_state disk_start) = ∅) by (vm_compute; reflexivity). assert (Hd : delivered (sy_state disk_start) = ∅) by (vm_compute; reflexivity).
  assert (Hdir : dir (sy_state disk_end) = true) by (vm_compute; reflexivity). assert (Hclean : queue_dirty (sy_state disk_end) = false) by (vm_compute; reflexivity).
  assert (H1 : size (entries (sy_state disk_end)) = 1%nat) by (vm_compute; reflexivity). assert (H2 : size (delivered (sy_state disk_end)) = 1%nat) by (vm_compute; reflexivity).
  assert (Hs : stored (sy_world disk_start) (entries (sy_state disk_start), delivered (sy_state disk_start))) by (unfold stored; rewrite Hq, He, Hd; reflexivity).
  assert (Hfit : queue_over_limit (entries (sy_state disk_start)) (delivered (sy_state disk_start)) = false) by (vm_compute; reflexivity).
  assert (We : map_Forall (fun _ => PushDocs.writable_entry) (entries (sy_state disk_end))) by (apply (bool_decide_unpack _); vm_compute; exact Logic.I).
  assert (Wd : map_Forall (fun _ => PushDocs.writable_record) (delivered (sy_state disk_end))) by (apply (bool_decide_unpack _); vm_compute; exact Logic.I).
  exact (conj H1 (conj H2 (pending_survive_restart None disk_start disk_events disk_end Hf Hs Hfit prefix_readable prefix_shorter Hr Hdir Hclean We Wd))).
Defined.

End PushDurable.
