(* ===== verification/QuestionInput.v ===== *)
(** * Answers to questions: payloads and planned keys

    The payloads of [respond], [answer_question], [clarify_question] and
    [navigate_question] with their checks ([lerdr-coord/src/classify/model.rs])
    and the keyboard plans that enter an answer into the form an agent shows
    ([classify/input.rs]).  A plan is [None] where the source panics: an index
    out of bounds or a [usize] below zero. *)

From S2P Require Import Prelude Utf8 Json Inbound Attention SessionActor WatchFrame.

Module QuestionInput.
Import Utf8 Json Inbound Attention.

(** ** Payloads *)

Definition OTHER_TEXT_MAX_RUNES : Z := 100000.

Record ApprovalPayload := mkApproval { ap_event_id : string; ap_fingerprint : string; ap_choice : string; ap_index : Z; ap_total : Z }.

Definition decode_approval (m : Inbound) : result string (ApprovalPayload * string) :=
  let p := mkApproval (in_event_id m) (in_approval_fingerprint m) (in_choice m) (default 0 (in_index m)) (default 2 (in_total m)) in
  if decide (in_pane_id m = ""%string \/ ap_event_id p = ""%string \/ ap_fingerprint p = ""%string \/ ap_choice p = ""%string)
  then Err "Agent and exact approval identity are required"%string
  else if decide (~ 2 <= ap_total p <= 20 \/ ap_index p < 0 \/ ap_total p <= ap_index p) then Err "Approval choice is no longer available"%string
  else Ok (p, in_pane_id m).

Record QuestionPayload := mkQuestion {
  qp_interaction_id : string;
  qp_selected : list Z;
  qp_other_selected : bool;
  qp_other_text : string;
  qp_clarify : bool;
  qp_navigation : string;
}.

(** [sort_unstable] and [dedup]. *)
Fixpoint dedup (l : list Z) : list Z :=
  match l with
  | x :: l' => match dedup l' with y :: r => if decide (x = y) then y :: r else x :: y :: r | [] => [x] end
  | [] => []
  end.
Definition sorted_unique (l : list Z) : list Z := dedup (merge_sort Z.le l).

Definition decode_answer (m : Inbound) : result string QuestionPayload :=
  let p := mkQuestion (in_interaction_id m) (sorted_unique (in_selected_indices m)) (in_other_selected m) (in_other_text m) false "" in
  if decide (qp_interaction_id p = ""%string) then Err "agent and question are required"%string
  else if decide (OTHER_TEXT_MAX_RUNES < Z.of_nat (length (chars (qp_other_text p)))) then Err "other answer is longer than 100,000 characters"%string
  else if decide (Exists (fun i => i < 0) (qp_selected p)) then Err "invalid question selection"%string
  else if decide (qp_selected p = [] /\ qp_other_text p = ""%string /\ qp_other_selected p = false) then Err "choose an answer or enter an Other answer"%string
  else if decide (qp_other_text p <> ""%string /\ qp_other_selected p = false) then Err "other text must be selected"%string
  else Ok p.

Definition decode_clarify (m : Inbound) : result string QuestionPayload :=
  if decide (in_interaction_id m = ""%string) then Err "Agent and question are required"%string
  else Ok (mkQuestion (in_interaction_id m) [] false "" true "").

Definition decode_navigate (m : Inbound) : result string QuestionPayload :=
  if decide (in_direction m <> "previous"%string /\ in_direction m <> "next"%string) then Err "Question navigation is no longer available"%string
  else if decide (in_interaction_id m = ""%string) then Err "Question is required"%string
  else Ok (mkQuestion (in_interaction_id m) [] false "" false (in_direction m)).

Definition other_is_choice (i : Interaction) (p : QuestionPayload) : bool :=
  qp_other_selected p && (negb (bool_decide (trim (qp_other_text p) = ""%string)) || ot_allow_empty (i_other i)).

(** [validate_question_payload]; [None] is [Ok]. *)
Definition validate_question_payload (i : Interaction) (p : QuestionPayload) : option string :=
  if decide (qp_navigation p = "previous"%string /\ i_can_go_back i = false) then Some "there is no previous question to open"%string
  else if decide (qp_navigation p = "next"%string /\ (i_question_index i = 0 \/ i_question_total i <= i_question_index i)) then Some "there is no next question to open"%string
  else if decide (qp_clarify p = true /\ (i_can_chat i = false \/ i_agent i <> "claude"%string)) then Some "this question can no longer be discussed"%string
  else if decide (qp_navigation p <> ""%string \/ qp_clarify p = true) then None
  else if decide (Exists (fun k => k < 0 \/ Z.of_nat (length (i_options i)) <= k) (qp_selected p)) then Some "question selection is no longer available"%string
  else if decide (ot_hidden (i_other i) = true /\ qp_other_selected p = true) then Some "this question does not accept a custom answer"%string
  else if decide (i_kind i = "single_select"%string /\ (length (qp_selected p) + (if other_is_choice i p then 1 else 0) <> 1)%nat)
  then Some "choose one answer or enter an Other answer"%string
  else None.

(** [hash_payload]: the hex of the JSON text. *)
Section Hash.
Context `{ST : SessionActor.SerdeText}.
Definition hash_payload (v : json) : string := WatchFrame.hex_encode (as_bytes (SessionActor.serde_text v)).
Definition approval_payload_json (p : ApprovalPayload) : json :=
  JObject [("event_id", JString (ap_event_id p)); ("fingerprint", JString (ap_fingerprint p)); ("choice", JString (ap_choice p)); ("index", json_int (ap_index p));
           ("total", json_int (ap_total p))]%string.
Definition question_payload_json (p : QuestionPayload) : json :=
  JObject [("interaction_id", JString (qp_interaction_id p)); ("selected", JArray (json_int <$> qp_selected p)); ("other_selected", JBool (qp_other_selected p));
           ("other_text", JString (qp_other_text p)); ("clarify", JBool (qp_clarify p)); ("navigation", JString (qp_navigation p))]%string.
End Hash.

(** ** Steps *)

Record InputStep := mkStep { st_keys : list string; st_text : string }.
Definition keys (l : list string) : InputStep := mkStep l "".
Definition text (t : string) : InputStep := mkStep [] t.
Definition type_text (t : string) : list InputStep := if decide (t = ""%string) then [] else [text t].

(** [vec![key; distance]] towards the target. *)
Definition travel (from to : Z) : list string :=
  let distance := to - from in
  if decide (distance < 0) then replicate (Z.to_nat (- distance)) "Up"%string else replicate (Z.to_nat distance) "Down"%string.

Definition multi (i : Interaction) : bool := bool_decide (i_kind i = "multi_select"%string).
Definition count (i : Interaction) : Z := Z.of_nat (length (i_options i)).

Definition position (i : Interaction) (f : QuestionFocus) : Z :=
  match fo_kind f with
  | FocusOption => fo_index f
  | FocusSubmit => if multi i then i_all_option_count i else 0
  | FocusChat => i_all_option_count i + (if multi i then 1 else 0)
  | FocusOther => 0
  end.
Definition qoder_position (i : Interaction) (f : QuestionFocus) : Z :=
  match fo_kind f with
  | FocusOption => fo_index f
  | FocusSubmit => count i
  | FocusOther => count i + (if multi i then 1 else 0)
  | FocusChat => 0
  end.
Definition opencode_position (i : Interaction) (f : QuestionFocus) : Z := if decide (fo_kind f = FocusOther) then count i else fo_index f.

Definition navigation_keys (i : Interaction) (target : QuestionFocus) : list string := travel (position i (i_focus i)) (position i target).
Definition qoder_navigation_keys (i : Interaction) (target : QuestionFocus) : list string := travel (qoder_position i (i_focus i)) (qoder_position i target).
Definition opencode_navigation_keys (i : Interaction) (target : QuestionFocus) : list string := travel (opencode_position i (i_focus i)) (opencode_position i target).

Definition approval_keys (target current : Z) : list string := travel current target ++ ["Enter"%string].

(** Assignments to the fields of [current]. *)
Definition with_focus (i : Interaction) (f : QuestionFocus) : Interaction :=
  mkInteraction (i_id i) (i_kind i) (i_question i) (i_options i) (i_other i) (i_submit_label i) (i_can_chat i) (i_can_go_back i) (i_question_index i) (i_question_total i)
    f (i_all_option_count i) (i_agent i) (i_notes_active i) (i_omp_space_toggle i).
Definition with_options (i : Interaction) (l : list QuestionOption) : Interaction :=
  mkInteraction (i_id i) (i_kind i) (i_question i) l (i_other i) (i_submit_label i) (i_can_chat i) (i_can_go_back i) (i_question_index i) (i_question_total i)
    (i_focus i) (i_all_option_count i) (i_agent i) (i_notes_active i) (i_omp_space_toggle i).
Definition with_other (i : Interaction) (selected : bool) (t : string) : Interaction :=
  let o := i_other i in
  mkInteraction (i_id i) (i_kind i) (i_question i) (i_options i) (mkOther selected t (ot_label o) (ot_placeholder o) (ot_allow_empty o) (ot_hidden o)) (i_submit_label i)
    (i_can_chat i) (i_can_go_back i) (i_question_index i) (i_question_total i) (i_focus i) (i_all_option_count i) (i_agent i) (i_notes_active i) (i_omp_space_toggle i).
Definition with_notes (i : Interaction) (b : bool) : Interaction :=
  mkInteraction (i_id i) (i_kind i) (i_question i) (i_options i) (i_other i) (i_submit_label i) (i_can_chat i) (i_can_go_back i) (i_question_index i) (i_question_total i)
    (i_focus i) (i_all_option_count i) (i_agent i) b (i_omp_space_toggle i).

Definition on_option (k : Z) : QuestionFocus := mkFocus FocusOption k.
Definition on_other : QuestionFocus := mkFocus FocusOther 0.
Definition on_submit : QuestionFocus := mkFocus FocusSubmit 0.

(** [interaction.all_option_count - 1]. *)
Definition last_row (i : Interaction) : option Z := if decide (i_all_option_count i < 1) then None else Some (i_all_option_count i - 1).
Definition first_selected (p : QuestionPayload) : option Z := head (qp_selected p).

(** The loop over the options shared by the multi-select plans: each option
    whose mark differs is visited and [press]ed. *)
Definition desired (p : QuestionPayload) (k : Z) : bool := bool_decide (k ∈ qp_selected p).
Definition mark (o : QuestionOption) (b : bool) : QuestionOption := mkOption (qo_index o) (qo_label o) (qo_description o) b (qo_summary o).
Fixpoint toggle_options (nav : Interaction -> QuestionFocus -> list string) (press : string) (store : bool) (p : QuestionPayload) (indices : list nat) (current : Interaction)
    : Interaction * list InputStep :=
  match indices with
  | [] => (current, [])
  | k :: rest =>
      match i_options current !! k with
      | Some o =>
          if decide (qo_selected o = desired p (Z.of_nat k)) then toggle_options nav press store p rest current
          else
            let step := keys (nav current (on_option (Z.of_nat k)) ++ [press]) in
            let next := with_focus current (on_option (Z.of_nat k)) in
            let next := if store then with_options next (<[k := mark o (desired p (Z.of_nat k))]> (i_options next)) else next in
            let '(current, steps) := toggle_options nav press store p rest next in (current, step :: steps)
      | None => toggle_options nav press store p rest current
      end
  end.
Definition all_indices (i : Interaction) : list nat := seq 0 (length (i_options i)).

(** ** The plans *)

Definition enter : InputStep := keys ["Enter"%string].
Definition clear_line : InputStep := keys ["Ctrl+U"%string].

Definition plan_codex_input (i : Interaction) (p : QuestionPayload) : option (list InputStep) :=
  match qp_selected p with
  | k :: _ => Some [keys (navigation_keys i (on_option k) ++ ["Enter"%string])]
  | [] =>
      row ← last_row i;
      let nav := navigation_keys i (on_option row) in
      if decide (qp_other_text p = ""%string) then Some [keys (nav ++ ["Enter"%string])]
      else Some [keys (if i_notes_active i then ["Ctrl+U"%string] else nav ++ ["Tab"%string]); text (qp_other_text p); enter]
  end.

Definition plan_qoder_multi_input (i : Interaction) (p : QuestionPayload) : list InputStep :=
  let notes := i_notes_active i in
  let opening := if notes then clear_line :: (if qp_other_selected p then type_text (qp_other_text p) else []) ++ [enter] else [] in
  let current := if notes then with_other (with_notes (with_focus i on_other) false) true (qp_other_text p) else i in
  let '(current, toggles) := toggle_options qoder_navigation_keys "Enter" true p (all_indices current) current in
  let '(current, others) :=
    if qp_other_selected p && negb notes then
      (with_focus current on_other, keys (qoder_navigation_keys current on_other ++ ["Enter"; "Ctrl+U"]%string) :: type_text (qp_other_text p) ++ [enter])
    else if negb (qp_other_selected p) && ot_selected (i_other current) then
      (with_focus current on_other, [keys (qoder_navigation_keys current on_other ++ ["Enter"%string])])
    else (current, []) in
  opening ++ toggles ++ others ++ [keys (qoder_navigation_keys current on_submit ++ ["Enter"%string])].

Definition plan_qoder_input (i : Interaction) (p : QuestionPayload) : option (list InputStep) :=
  if decide (i_kind i = "single_select"%string) then
    if i_notes_active i then
      let opening := clear_line :: (if qp_other_selected p then type_text (qp_other_text p) else []) ++ [enter] in
      if qp_other_selected p then Some opening
      else
        k ← first_selected p;
        Some (opening ++ [keys (qoder_navigation_keys (with_focus i on_other) (on_option k) ++ ["Enter"%string])])
    else
      match qp_selected p with
      | k :: _ => Some [keys (qoder_navigation_keys i (on_option k) ++ ["Enter"%string])]
      | [] => Some (keys (qoder_navigation_keys i on_other ++ ["Enter"; "Ctrl+U"]%string) :: type_text (qp_other_text p) ++ [enter])
      end
  else Some (plan_qoder_multi_input i p).

Definition plan_opencode_multi_input (i : Interaction) (p : QuestionPayload) : list InputStep :=
  let '(current, opening) :=
    if i_notes_active i then
      let '(current, steps) :=
        if qp_other_selected p then (with_other i true (qp_other_text p), clear_line :: type_text (qp_other_text p) ++ [enter])
        else (i, [keys ["Escape"%string]]) in
      (with_notes (with_focus current on_other) false, steps)
    else (i, []) in
  let '(current, toggles) := toggle_options opencode_navigation_keys "Enter" true p (all_indices current) current in
  let others :=
    if qp_other_selected p && (negb (ot_selected (i_other current)) || negb (bool_decide (ot_text (i_other current) = qp_other_text p))) then
      keys (opencode_navigation_keys current on_other ++ ["Enter"; "Ctrl+U"]%string) :: type_text (qp_other_text p) ++ [enter]
    else if negb (qp_other_selected p) && ot_selected (i_other current) then [keys (opencode_navigation_keys current on_other ++ ["Enter"%string])]
    else [] in
  opening ++ toggles ++ others ++ [keys ["Tab"%string]].

Definition plan_opencode_input (i : Interaction) (p : QuestionPayload) : option (list InputStep) :=
  if ot_hidden (i_other i) then Some [enter]
  else if multi i then Some (plan_opencode_multi_input i p)
  else if i_notes_active i then
    if qp_other_selected p then Some (clear_line :: type_text (qp_other_text p) ++ [enter; enter])
    else
      k ← first_selected p;
      Some [keys ["Escape"%string]; keys (opencode_navigation_keys (with_focus i on_other) (on_option k) ++ ["Enter"%string])]
  else
    match qp_selected p with
    | k :: _ => Some [keys (opencode_navigation_keys i (on_option k) ++ ["Enter"%string])]
    | [] => Some (keys (opencode_navigation_keys i on_other ++ ["Enter"; "Ctrl+U"]%string) :: type_text (qp_other_text p) ++ [enter; enter])
    end.

(** The loop of the omp plan does not store the new mark. *)
Definition plan_omp_input (i : Interaction) (p : QuestionPayload) : option (list InputStep) :=
  if decide (i_kind i = "single_select"%string) then
    match qp_selected p with
    | k :: _ => Some [keys (navigation_keys i (on_option k) ++ ["Enter"%string])]
    | [] => row ← last_row i; Some (keys (navigation_keys i (on_option row) ++ ["Enter"; "Ctrl+U"]%string) :: type_text (qp_other_text p) ++ [enter])
    end
  else
    let space := i_omp_space_toggle i in
    let '(current, toggles) := toggle_options navigation_keys (if space then "Space" else "Enter") false p (all_indices i) i in
    if qp_other_selected p || space && ot_selected (i_other current) then
      row ← last_row current;
      Some (toggles ++ keys (navigation_keys current (on_option row) ++ ["Enter"; "Ctrl+U"]%string) ::
            (if qp_other_selected p then type_text (qp_other_text p) else []) ++ [enter] ++ (if space then [keys ["Up"; "Enter"]%string] else []))
    else if space then Some (toggles ++ [enter])
    else if decide (1 < i_question_total current) then Some (toggles ++ [keys ["Right"%string]])
    else if decide (qp_selected p = []) then Some toggles
    else
      let distance := count current - fo_index (i_focus current) in
      if decide (distance < 0) then None else Some (toggles ++ [keys (replicate (Z.to_nat distance) "Down"%string ++ ["Enter"%string])]).

Definition plan_claude_input (i : Interaction) (p : QuestionPayload) : option (list InputStep) :=
  if decide (i_kind i = "single_select"%string) then
    match qp_selected p with
    | k :: _ =>
        '(current, steps) ← (if negb (ot_hidden (i_other i)) && negb (bool_decide (ot_text (i_other i) = ""%string)) && bool_decide (qp_other_text p = ""%string) then
          row ← last_row i; Some (with_focus i (on_option row), [keys (navigation_keys i (on_option row) ++ ["Ctrl+U"%string])])
        else Some (i, []));
        Some (steps ++ [keys (navigation_keys current (on_option k) ++ ["Enter"%string])])
    | [] => row ← last_row i; Some (keys (navigation_keys i (on_option row) ++ ["Ctrl+U"%string]) :: type_text (qp_other_text p) ++ [enter])
    end
  else
    let '(current, toggles) := toggle_options navigation_keys "Enter" true p (all_indices i) i in
    row ← last_row current;
    let '(current, texts) :=
      if decide (ot_text (i_other current) = qp_other_text p) then (current, [])
      else (with_focus current (on_option row), keys (navigation_keys current (on_option row) ++ ["Ctrl+U"%string]) :: type_text (qp_other_text p)) in
    let '(current, marks) :=
      if decide (ot_selected (i_other current) = qp_other_selected p) then (current, [])
      else (with_focus current (on_option row), [keys (navigation_keys current (on_option row) ++ ["Enter"%string])]) in
    Some (toggles ++ texts ++ marks ++ [keys (navigation_keys current on_submit ++ ["Enter"%string])]).

Definition plan_input (i : Interaction) (p : QuestionPayload) : option (list InputStep) :=
  let opencode := bool_decide (i_agent i = "opencode"%string) in
  if decide (qp_navigation p = "previous"%string) then Some [keys [if opencode then "Shift+Tab" else "Left"]%string]
  else if decide (qp_navigation p = "next"%string) then Some [keys [if opencode then "Tab" else "Right"]%string]
  else if qp_clarify p then Some [keys (navigation_keys i (mkFocus FocusChat 0) ++ ["Enter"%string])]
  else if decide (i_agent i = "codex"%string) then plan_codex_input i p
  else if decide (i_agent i = "qoder"%string) then plan_qoder_input i p
  else if opencode then plan_opencode_input i p
  else if decide (i_agent i = "omp"%string) then plan_omp_input i p
  else plan_claude_input i p.

(** ** What a plan presses

    The arrow keys move one row; every other key acts on the row it is pressed
    on. *)

Fixpoint walk (row : Z) (ks : list string) : Z * list (Z * string) :=
  match ks with
  | [] => (row, [])
  | k :: ks =>
      if decide (k = "Down"%string) then walk (row + 1) ks
      else if decide (k = "Up"%string) then walk (row - 1) ks
      else let '(r, l) := walk row ks in (r, (row, k) :: l)
  end.

Fixpoint trace (row : Z) (steps : list InputStep) : Z * list (Z * string) :=
  match steps with
  | [] => (row, [])
  | s :: steps => let '(r, l) := walk row (st_keys s) in let '(r', l') := trace r steps in (r', l ++ l')
  end.

(** The option rows [key] is pressed on, in order. *)
Definition presses (key : string) (n : Z) (l : list (Z * string)) : list Z := (filter (fun x => x.2 = key /\ 0 <= x.1 < n) l).*1.

(** The row of a focus in the form of the agent, and the key that marks. *)
Definition row_of (i : Interaction) : QuestionFocus -> Z :=
  if decide (i_agent i = "qoder"%string) then qoder_position i else if decide (i_agent i = "opencode"%string) then opencode_position i else position i.
Definition mark_key (i : Interaction) : string := if bool_decide (i_agent i = "omp"%string) && multi i && i_omp_space_toggle i then "Space" else "Enter".

(** The options an answer has to touch: those whose mark differs, or the one
    chosen. *)
Definition differs (i : Interaction) (p : QuestionPayload) (k : nat) : bool :=
  match i_options i !! k with Some o => negb (bool_decide (qo_selected o = desired p (Z.of_nat k))) | None => false end.
Definition differing (i : Interaction) (p : QuestionPayload) (ks : list nat) : list Z := Z.of_nat <$> filter (fun k => differs i p k = true) ks.
Definition touched (i : Interaction) (p : QuestionPayload) : list Z := if multi i then differing i p (all_indices i) else qp_selected p.

Lemma walk_app row a b : walk row (a ++ b) = let '(r, l) := walk row a in let '(r', l') := walk r b in (r', l ++ l').
Proof.
  revert row. induction a as [|k a IH]; intros row; [cbn [app walk]; by destruct (walk row b)|]. cbn [app walk]. case_decide; [apply IH|]. case_decide; [apply IH|]. rewrite IH.
  destruct (walk row a) as [r l]. by destruct (walk r b).
Qed.

Lemma walk_down row n : walk row (replicate n "Down"%string) = (row + Z.of_nat n, []).
Proof. revert row. induction n as [|n IH]; intros row; [by rewrite Z.add_0_r|]. cbn [replicate walk]. rewrite decide_True, IH by done. f_equal. lia. Qed.
Lemma walk_up row n : walk row (replicate n "Up"%string) = (row - Z.of_nat n, []).
Proof. revert row. induction n as [|n IH]; intros row; [by rewrite Z.sub_0_r|]. cbn [replicate walk]. rewrite decide_False, decide_True, IH by done. f_equal. lia. Qed.

(** Travelling ends on the target and presses nothing. *)
Lemma walk_travel from to : walk from (travel from to) = (to, []).
Proof. unfold travel. case_decide; [rewrite walk_up|rewrite walk_down]; f_equal; lia. Qed.
Lemma walk_travel_app from to ks : walk from (travel from to ++ ks) = walk to ks.
Proof. rewrite walk_app, walk_travel. by destruct (walk to ks). Qed.

Lemma trace_app row a b : trace row (a ++ b) = let '(r, l) := trace row a in let '(r', l') := trace r b in (r', l ++ l').
Proof.
  revert row. induction a as [|s a IH]; intros row; [cbn [app trace]; by destruct (trace row b)|]. cbn [app trace]. destruct (walk row (st_keys s)) as [r l]. rewrite IH.
  destruct (trace r a) as [r1 l1]. destruct (trace r1 b) as [r2 l2]. by rewrite app_assoc.
Qed.
Lemma trace_typed row t : trace row (type_text t) = (row, []).
Proof. unfold type_text. by case_decide. Qed.

Lemma presses_app key n a b : presses key n (a ++ b) = presses key n a ++ presses key n b.
Proof. unfold presses. by rewrite filter_app, fmap_app. Qed.

(** ** The loop over the options *)

(** Equal but for the focus and the marks. *)
Definition same_form (i j : Interaction) : Prop :=
  i_kind j = i_kind i /\ length (i_options j) = length (i_options i) /\ i_other j = i_other i /\ i_all_option_count j = i_all_option_count i /\
  i_question_total j = i_question_total i.

Lemma same_form_refl i : same_form i i.
Proof. done. Qed.
Lemma same_form_trans i j k : same_form i j -> same_form j k -> same_form i k.
Proof. unfold same_form. intuition congruence. Qed.

Section Toggle.
Context (nav : Interaction -> QuestionFocus -> list string) (pos : Interaction -> QuestionFocus -> Z) (press : string) (store : bool) (p : QuestionPayload).
Context (nav_travels : forall i f, nav i f = travel (pos i (i_focus i)) (pos i f)) .
Context (pos_option : forall i k, pos i (on_option k) = k) (press_acts : press <> "Down"%string /\ press <> "Up"%string).

Lemma walk_press row : walk row [press] = (row, [(row, press)]).
Proof. cbn [walk]. rewrite !decide_False by apply press_acts. done. Qed.

Lemma differing_cons i q k ks : differing i q (k :: ks) = if differs i q k then Z.of_nat k :: differing i q ks else differing i q ks.
Proof. unfold differing. cbn [filter list_filter]. destruct (differs i q k); [rewrite decide_True by done|rewrite decide_False by done]; done. Qed.
Lemma differing_ext i j q ks : (forall k, k ∈ ks -> differs i q k = differs j q k) -> differing i q ks = differing j q ks.
Proof.
  induction ks as [|k ks IH]; intros H; [done|]. rewrite !differing_cons, H by left. rewrite IH; [done|]. intros x Hx. apply H. by right.
Qed.

Lemma toggle_trace ks : forall current current' steps, NoDup ks -> toggle_options nav press store p ks current = (current', steps) ->
  same_form current current' /\ (fo_kind (i_focus current') = FocusOption \/ i_focus current' = i_focus current) /\
  (i_focus current' = i_focus current \/ 0 <= fo_index (i_focus current') < count current) /\
  trace (pos current (i_focus current)) steps = (pos current' (i_focus current'), (fun k => (k, press)) <$> differing current p ks).
Proof.
  induction ks as [|k ks IH]; intros current current' steps Hnd; [intros [= <- <-]; split_and!; [done|by right|by left|done]|].
  apply NoDup_cons in Hnd as [Hk Hnd]. cbn [toggle_options]. rewrite differing_cons. unfold differs at 1. destruct (i_options current !! k) as [o|] eqn:Eo; [|apply (IH _ _ _ Hnd)].
  case_decide as Hd; [rewrite bool_decide_eq_true_2 by done; apply (IH _ _ _ Hnd)|]. rewrite bool_decide_eq_false_2 by done. cbn [negb].
  set (next := with_focus current (on_option (Z.of_nat k))). set (next' := if store then _ else next). destruct (toggle_options nav press store p ks next') as [c steps'] eqn:E.
  intros [= <- <-]. apply lookup_lt_Some in Eo as Hlt. assert (Hf : same_form current next').
  { unfold next'. destruct store; unfold same_form, next; cbn; split_and!; try done. by rewrite length_insert. }
  assert (Hfocus : i_focus next' = on_option (Z.of_nat k)) by (unfold next'; by destruct store).
  assert (Hdiff : differing next' p ks = differing current p ks).
  { apply differing_ext. intros x Hx. unfold differs, next'. destruct store; [|done]. cbn. rewrite list_lookup_insert_ne; [done|]. by intros ->. }
  destruct (IH _ _ _ Hnd E) as (F & Hkind & Hidx & Ht). split_and!.
  - by eapply same_form_trans.
  - left. destruct Hkind as [|He]; [done|]. by rewrite He, Hfocus.
  - right. destruct Hidx as [He|Hi]; [rewrite He, Hfocus; unfold count; cbn; lia|]. destruct Hf as (_ & Hlen & _). unfold count in *. rewrite Hlen in Hi. exact Hi.
  - cbn [trace keys st_keys]. rewrite nav_travels, walk_travel_app, walk_press, pos_option. rewrite Hfocus, pos_option in Ht. rewrite Ht. cbn [app fmap list_fmap]. by rewrite Hdiff.
Qed.
End Toggle.

(** ** Forms and answers *)

(** What the parsers of the forms establish: the rows are the options and,
    unless it is hidden, the custom answer; the focus is on one of them; an open
    note field has the focus.  (The review screen of
    opencode, which any answer confirms, is apart.) *)
Record form_ok (i : Interaction) : Prop := {
  fk_kind : i_kind i = "single_select"%string \/ i_kind i = "multi_select"%string /\ i_agent i <> "codex"%string;
  fk_focus : 0 <= fo_index (i_focus i) <= count i /\ (fo_kind (i_focus i) <> FocusOption -> fo_index (i_focus i) = 0);
  fk_rows : 1 <= i_all_option_count i /\ i_all_option_count i = count i + (if ot_hidden (i_other i) then 0 else 1);
  fk_hidden : ot_hidden (i_other i) = true -> ot_selected (i_other i) = false /\ (i_kind i = "single_select"%string \/ i_agent i = "omp"%string) /\ i_agent i <> "opencode"%string;
  fk_notes : i_notes_active i = true -> if decide (i_agent i = "codex"%string) then i_focus i = on_option (count i) else fo_kind (i_focus i) = FocusOther;
}.

(** An accepted answer. *)
Record answers (i : Interaction) (p : QuestionPayload) : Prop := {
  an_valid : validate_question_payload i p = None;
  an_plain : qp_navigation p = ""%string /\ qp_clarify p = false;
}.

(** With the note field of a qoder or opencode single-select form open, an
    answer that ticks the custom answer submits the note alone. *)
Definition drops_choice (i : Interaction) (p : QuestionPayload) : bool :=
  bool_decide (i_agent i = "qoder"%string \/ i_agent i = "opencode"%string) && bool_decide (i_kind i = "single_select"%string) && i_notes_active i && qp_other_selected p.
(** The options a plan presses. *)
Definition entered (i : Interaction) (p : QuestionPayload) : list Z := if drops_choice i p then [] else touched i p.

(** The log of pressing [key] on the option rows of [ks]. *)
Lemma presses_here key n ks : Forall (fun k => 0 <= k < n) ks -> presses key n ((fun k => (k, key)) <$> ks) = ks.
Proof.
  unfold presses. induction 1 as [|k ks Hk _ IH]; [done|]. rewrite fmap_cons, filter_cons_True by done. rewrite fmap_cons. by f_equal.
Qed.
Lemma presses_away key n l : Forall (fun x => x.2 <> key \/ n <= x.1) l -> presses key n l = [].
Proof. unfold presses. induction 1 as [|x l Hx _ IH]; [done|]. rewrite filter_cons_False; [exact IH|]. intros [? ?]. destruct Hx; [done|lia]. Qed.

Lemma presses_skip key n x l : x.2 <> key \/ n <= x.1 -> presses key n (x :: l) = presses key n l.
Proof. intros H. unfold presses. rewrite filter_cons_False; [done|]. intros [? ?]. destruct H; [done|lia]. Qed.

Lemma differing_range i p : Forall (fun k => 0 <= k < count i) (differing i p (all_indices i)).
Proof.
  apply Forall_forall. intros k Hk. apply list_elem_of_fmap in Hk as (x & -> & Hx). apply list_elem_of_filter in Hx as [_ Hx]. apply elem_of_seq in Hx. unfold count. lia.
Qed.

Lemma validate_facts i p : answers i p ->
  Forall (fun k => 0 <= k < count i) (qp_selected p) /\ (qp_other_selected p = true -> ot_hidden (i_other i) = false) /\
  (i_kind i = "single_select"%string -> qp_selected p = [] /\ qp_other_selected p = true \/ exists k, qp_selected p = [k]).
Proof.
  intros [Hv [Hn Hc]]. unfold validate_question_payload in Hv. rewrite Hn, Hc in Hv. rewrite !decide_False in Hv by naive_solver. case_decide as He; [done|]. case_decide as Hh; [done|].
  case_decide as Ho; [done|]. split_and!.
  - apply Forall_forall. intros k Hk. apply not_Exists_Forall in He; [|apply _]. rewrite Forall_forall in He. specialize (He k Hk). unfold compose in He. unfold count. lia.
  - intros H. destruct (ot_hidden _); [exfalso; by apply Hh|done].
  - intros Hk. assert (E : (length (qp_selected p) + (if other_is_choice i p then 1 else 0) = 1)%nat) by (destruct (decide (length (qp_selected p) + (if other_is_choice i p then 1 else 0) = 1)%nat); [done|exfalso; by apply Ho]).
    destruct (qp_selected p) as [|k [|? ?]]; cbn in E; [left|right; by exists k|lia]. unfold other_is_choice in E. destruct (qp_other_selected p); [done|cbn in E; lia].
Qed.

Definition presses_answer (i : Interaction) (p : QuestionPayload) (steps : list InputStep) : Prop :=
  presses (mark_key i) (count i) (trace (row_of i (i_focus i)) steps).2 = touched i p.
Lemma answer_entered i p steps : drops_choice i p = false -> presses_answer i p steps -> presses (mark_key i) (count i) (trace (row_of i (i_focus i)) steps).2 = entered i p.
Proof. unfold entered. by intros ->. Qed.

Lemma mark_key_other i k : k <> "Enter"%string -> k <> "Space"%string -> k <> mark_key i.
Proof. unfold mark_key. by case_match. Qed.

(** Presses of another key or below the options. *)
Ltac away := apply presses_away; repeat first [apply Forall_nil_2|apply Forall_cons_2]; cbn [fst snd]; first [right; lia|left; discriminate|left; apply mark_key_other; discriminate].

Ltac skip := repeat (rewrite presses_skip; [|cbn [fst snd]; first [left; apply mark_key_other; discriminate|right; lia]]).

(** The rows of the travelling keys. *)
Ltac follow := repeat first [rewrite trace_typed|rewrite trace_app|progress rewrite ?walk_travel_app|progress rewrite ?walk_travel
  |progress cbn [app trace keys st_keys enter clear_line text fst snd walk]|case_decide; [done|]].

Lemma single_touched i p : i_kind i = "single_select"%string -> touched i p = qp_selected p.
Proof. intros E. unfold touched, multi. by rewrite E. Qed.

(** One visit of an option. *)
Lemma visit_presses i p k : qp_selected p = [k] -> i_kind i = "single_select"%string -> 0 <= k < count i -> presses (mark_key i) (count i) [(k, "Enter"%string)] = touched i p.
Proof.
  intros Es Ek Hk. rewrite single_touched, Es by done. unfold mark_key, multi. rewrite Ek. cbn [bool_decide]. rewrite andb_false_r. cbn [andb]. apply (presses_here _ _ [k]). by constructor.
Qed.

Lemma codex_plan i p : i_agent i = "codex"%string -> form_ok i -> answers i p -> exists steps, plan_codex_input i p = Some steps /\ presses_answer i p steps.
Proof.
  intros Ha Hf Hp. destruct (validate_facts i p Hp) as (Hr & Hh & Hs). destruct (fk_kind i Hf) as [Hk|[_ ?]]; [|done]. destruct (fk_rows i Hf) as [H1 Hrows].
  unfold presses_answer, row_of. rewrite !decide_False by (rewrite Ha; done). unfold plan_codex_input. destruct (Hs Hk) as [[Es Eo]|[k Es]]; rewrite Es.
  - rewrite (Hh Eo) in Hrows. unfold last_row. rewrite decide_False by lia. cbn [mbind option_bind]. unfold navigation_keys. rewrite single_touched, Es by done.
    pose proof (fk_notes i Hf) as Hnotes. rewrite decide_True in Hnotes by done.
    case_decide; [|destruct (i_notes_active i); [rewrite Hnotes by done|]]; (eexists; split; [reflexivity|]); follow; unfold position; cbn [on_option fo_kind fo_index]; away.
  - eexists. split; [reflexivity|]. unfold navigation_keys. follow. apply visit_presses; [done..|]. rewrite Es in Hr. by inversion Hr.
Qed.

Lemma qoder_plan_single i p : i_agent i = "qoder"%string -> i_kind i = "single_select"%string -> form_ok i -> answers i p ->
  exists steps, plan_qoder_input i p = Some steps /\ presses (mark_key i) (count i) (trace (row_of i (i_focus i)) steps).2 = entered i p.
Proof.
  intros Ha Hk Hf Hp. destruct (validate_facts i p Hp) as (Hr & Hh & Hs). pose proof (fk_notes i Hf) as Hnotes. rewrite decide_False in Hnotes by (rewrite Ha; done).
  assert (Hother : qoder_position i on_other = count i) by (unfold qoder_position, multi; cbn [on_other fo_kind]; rewrite bool_decide_eq_false_2 by (rewrite Hk; done); lia).
  assert (Hent : entered i p = if i_notes_active i && qp_other_selected p then [] else touched i p) by (unfold entered, drops_choice; by rewrite !bool_decide_eq_true_2 by auto). rewrite Hent.
  unfold row_of. rewrite (decide_True (P := i_agent i = _)) by done. unfold plan_qoder_input. rewrite decide_True by done. destruct (i_notes_active i) eqn:En.
  - assert (Hrow : qoder_position i (i_focus i) = count i) by (rewrite <- Hother; unfold qoder_position; by rewrite Hnotes). rewrite Hrow.
    destruct (qp_other_selected p) eqn:Eo; cbn [andb].
    + eexists. split; [reflexivity|]. follow. away.
    + destruct (Hs Hk) as [[_ ?]|[k Ek]]; [congruence|]. unfold first_selected. rewrite Ek. cbn [head mbind option_bind]. eexists. split; [reflexivity|].
      unfold qoder_navigation_keys. cbn [with_focus i_focus]. change (qoder_position (with_focus i on_other)) with (qoder_position i). rewrite Hother. follow.
      skip. apply visit_presses; [done..|]. rewrite Ek in Hr. by inversion Hr.
  - cbn [andb]. destruct (Hs Hk) as [[Es Eo]|[k Ek]].
    + rewrite Es. eexists. split; [reflexivity|]. rewrite single_touched, Es by done. unfold qoder_navigation_keys. rewrite Hother. follow. away.
    + rewrite Ek. eexists. split; [reflexivity|]. unfold qoder_navigation_keys. follow. apply visit_presses; [done..|]. rewrite Ek in Hr. by inversion Hr.
Qed.

Lemma single_not_multi i : i_kind i = "single_select"%string -> multi i = false.
Proof. intros E. unfold multi. by rewrite E. Qed.

Lemma opencode_plan_single i p : i_agent i = "opencode"%string -> i_kind i = "single_select"%string -> form_ok i -> answers i p ->
  exists steps, plan_opencode_input i p = Some steps /\ presses (mark_key i) (count i) (trace (row_of i (i_focus i)) steps).2 = entered i p.
Proof.
  intros Ha Hk Hf Hp. destruct (validate_facts i p Hp) as (Hr & Hh & Hs). pose proof (fk_notes i Hf) as Hnotes. rewrite decide_False in Hnotes by (rewrite Ha; done).
  assert (Hhid : ot_hidden (i_other i) = false) by (destruct (ot_hidden _) eqn:E; [|done]; by destruct (fk_hidden i Hf E) as (_ & _ & ?)).
  assert (Hother : opencode_position i on_other = count i) by done.
  assert (Hent : entered i p = if i_notes_active i && qp_other_selected p then [] else touched i p) by (unfold entered, drops_choice; by rewrite !bool_decide_eq_true_2 by auto). rewrite Hent.
  unfold row_of. rewrite decide_False, decide_True by (rewrite Ha; done). unfold plan_opencode_input. rewrite Hhid, single_not_multi by done. destruct (i_notes_active i) eqn:En.
  - assert (Hrow : opencode_position i (i_focus i) = count i) by (unfold opencode_position; by rewrite decide_True by auto). rewrite Hrow.
    destruct (qp_other_selected p) eqn:Eo; cbn [andb].
    + eexists. split; [reflexivity|]. follow. away.
    + destruct (Hs Hk) as [[_ ?]|[k Ek]]; [congruence|]. unfold first_selected. rewrite Ek. cbn [head mbind option_bind]. eexists. split; [reflexivity|].
      unfold opencode_navigation_keys. cbn [with_focus i_focus]. change (opencode_position (with_focus i on_other)) with (opencode_position i). rewrite Hother. follow.
      skip. apply visit_presses; [done..|]. rewrite Ek in Hr. by inversion Hr.
  - cbn [andb]. destruct (Hs Hk) as [[Es Eo]|[k Ek]].
    + rewrite Es. eexists. split; [reflexivity|]. rewrite single_touched, Es by done. unfold opencode_navigation_keys. rewrite Hother. follow. away.
    + rewrite Ek. eexists. split; [reflexivity|]. unfold opencode_navigation_keys. follow. apply visit_presses; [done..|]. rewrite Ek in Hr. by inversion Hr.
Qed.

Lemma omp_plan_single i p : i_agent i = "omp"%string -> i_kind i = "single_select"%string -> form_ok i -> answers i p ->
  exists steps, plan_omp_input i p = Some steps /\ presses_answer i p steps.
Proof.
  intros Ha Hk Hf Hp. destruct (validate_facts i p Hp) as (Hr & Hh & Hs). destruct (fk_rows i Hf) as [H1 Hrows].
  unfold presses_answer, row_of. rewrite !decide_False by (rewrite Ha; done). unfold plan_omp_input. rewrite decide_True by done. destruct (Hs Hk) as [[Es Eo]|[k Es]]; rewrite Es.
  - rewrite (Hh Eo) in Hrows. unfold last_row. rewrite decide_False by lia. cbn [mbind option_bind]. rewrite single_touched, Es by done. eexists. split; [reflexivity|].
    unfold navigation_keys. follow. unfold position. cbn [on_option fo_kind fo_index]. away.
  - eexists. split; [reflexivity|]. unfold navigation_keys. follow. apply visit_presses; [done..|]. rewrite Es in Hr. by inversion Hr.
Qed.

Lemma claude_plan_single i p : i_agent i <> "qoder"%string -> i_agent i <> "opencode"%string -> i_kind i = "single_select"%string -> form_ok i -> answers i p ->
  exists steps, plan_claude_input i p = Some steps /\ presses_answer i p steps.
Proof.
  intros Ha Ha' Hk Hf Hp. destruct (validate_facts i p Hp) as (Hr & Hh & Hs). destruct (fk_rows i Hf) as [H1 Hrows].
  unfold presses_answer, row_of. rewrite !decide_False by done. unfold plan_claude_input. rewrite decide_True by done. unfold last_row. rewrite decide_False by lia.
  destruct (Hs Hk) as [[Es Eo]|[k Es]]; rewrite Es.
  - rewrite (Hh Eo) in Hrows. cbn [mbind option_bind]. rewrite single_touched, Es by done. eexists. split; [reflexivity|].
    unfold navigation_keys. follow. unfold position. cbn [on_option fo_kind fo_index]. away.
  - cbn [mbind option_bind]. destruct (ot_hidden (i_other i)); cbn [negb andb].
    { eexists. split; [reflexivity|]. unfold navigation_keys. follow. apply visit_presses; [done..|]. rewrite Es in Hr. by inversion Hr. }
    destruct (negb _ && _); (eexists; split; [reflexivity|]); unfold navigation_keys; cbn [with_focus i_focus]; change (position (with_focus i ?f)) with (position i); follow; skip;
      (apply visit_presses; [done..|]; rewrite Es in Hr; by inversion Hr).
Qed.

(** ** Several marks *)

Lemma position_form i j f : same_form i j -> position j f = position i f.
Proof. intros (Ek & _ & _ & Ea & _). unfold position, multi. by rewrite Ek, Ea. Qed.
Lemma qoder_position_form i j f : same_form i j -> qoder_position j f = qoder_position i f.
Proof. intros (Ek & El & _). unfold qoder_position, multi, count. by rewrite Ek, El. Qed.
Lemma opencode_position_form i j f : same_form i j -> opencode_position j f = opencode_position i f.
Proof. intros (_ & El & _). unfold opencode_position, count. by rewrite El. Qed.

(** The toggles, and nothing else on the options before or after. *)
Lemma multi_presses i p row row' opening toggles rest press : multi i = true -> mark_key i = press ->
  presses press (count i) (trace (row_of i (i_focus i)) opening).2 = [] -> (trace (row_of i (i_focus i)) opening).1 = row ->
  trace row toggles = (row', (fun k => (k, press)) <$> differing i p (all_indices i)) -> presses press (count i) (trace row' rest).2 = [] ->
  presses_answer i p (opening ++ toggles ++ rest).
Proof.
  intros Hm <- Ho Hrow Ht Hr. unfold presses_answer, touched. rewrite Hm. rewrite trace_app. destruct (trace (row_of i (i_focus i)) opening) as [r l]. cbn [fst snd] in *. subst r.
  rewrite trace_app, Ht. destruct (trace row' rest) as [r' l']. cbn [fst snd] in *. rewrite !presses_app, Ho, Hr, app_nil_r. apply presses_here, differing_range.
Qed.

Lemma NoDup_indices i : NoDup (all_indices i).
Proof. apply NoDup_seq. Qed.

Lemma multi_kind i : form_ok i -> multi i = true -> i_kind i <> "single_select"%string /\ i_agent i <> "codex"%string /\ (i_agent i <> "omp"%string -> ot_hidden (i_other i) = false).
Proof.
  intros Hf Hm. unfold multi in Hm. apply bool_decide_eq_true in Hm. split_and!; [congruence| |].
  - destruct (fk_kind i Hf) as [?|[_ ?]]; [congruence|done].
  - intros Ha. destruct (ot_hidden (i_other i)) eqn:E; [|done]. destruct (fk_hidden i Hf E) as (_ & [?|?] & _); congruence.
Qed.

Lemma claude_plan_multi i p : i_agent i <> "qoder"%string -> i_agent i <> "opencode"%string -> i_agent i <> "omp"%string -> multi i = true -> form_ok i ->
  exists steps, plan_claude_input i p = Some steps /\ presses_answer i p steps.
Proof.
  intros Ha1 Ha2 Ha3 Hm Hf. destruct (multi_kind i Hf Hm) as (Hk & _ & Hh). destruct (fk_rows i Hf) as [H1 Hrows]. rewrite Hh in Hrows by done.
  unfold plan_claude_input. rewrite decide_False by done. destruct (toggle_options _ _ _ _ _ _) as [c toggles] eqn:E.
  destruct (toggle_trace navigation_keys position "Enter" true p (fun _ _ => eq_refl) (fun _ _ => eq_refl) ltac:(done) _ _ _ _ (NoDup_indices i) E) as (F & _ & _ & Ht).
  assert (Hpos : forall f, position c f = position i f) by (intros f; by apply position_form). unfold last_row. destruct F as (_ & _ & _ & Eall & _). rewrite Eall, decide_False by lia.
  cbn [mbind option_bind]. assert (Hrow : row_of i = position i) by (unfold row_of; by rewrite !decide_False).
  assert (Hsub : position i on_submit = count i + 1) by (unfold position; cbn [on_submit fo_kind]; by rewrite Hm).
  assert (Hopt : forall k, position i (on_option k) = k) by done.
  assert (Hkey : mark_key i = "Enter"%string) by (unfold mark_key; by rewrite bool_decide_eq_false_2).
  case_decide; case_decide; (eexists; split; [reflexivity|]);
    (eapply (multi_presses i p _ _ []); [done|done|done|by rewrite Hrow|exact Ht|]; unfold navigation_keys; cbn [with_focus i_focus]; change (position (with_focus c ?f)) with (position c);
     change (position (with_focus (with_focus c ?f) ?g)) with (position c); follow; rewrite ?Hpos, ?Hsub, ?Hopt; away).
Qed.

Lemma qoder_plan_multi i p : i_agent i = "qoder"%string -> multi i = true -> form_ok i -> presses_answer i p (plan_qoder_multi_input i p).
Proof.
  intros Ha Hm Hf. pose proof (fk_notes i Hf) as Hnotes. rewrite decide_False in Hnotes by (rewrite Ha; done).
  assert (Hrow : row_of i = qoder_position i) by (unfold row_of; by rewrite decide_True).
  assert (Hkey : mark_key i = "Enter"%string) by (unfold mark_key; by rewrite bool_decide_eq_false_2 by (rewrite Ha; done)).
  assert (Hother : qoder_position i on_other = count i + 1) by (unfold qoder_position; cbn [on_other fo_kind]; by rewrite Hm).
  assert (Hsub : qoder_position i on_submit = count i) by done.
  unfold plan_qoder_multi_input. cbv zeta. set (current := if i_notes_active i then _ else i). destruct (toggle_options _ _ _ _ _ _) as [c toggles] eqn:E.
  destruct (toggle_trace qoder_navigation_keys qoder_position "Enter" true p (fun _ _ => eq_refl) (fun _ _ => eq_refl) ltac:(done) _ _ _ _ (NoDup_indices current) E) as (F & _ & _ & Ht).
  assert (Hcur : qoder_position current = qoder_position i /\ differing current p (all_indices current) = differing i p (all_indices i)) by (unfold current; by destruct (i_notes_active i)).
  destruct Hcur as [Hcp Hcd]. rewrite Hcd in Ht. assert (Hpos : forall f, qoder_position c f = qoder_position i f) by (intros f; rewrite <- Hcp; by apply qoder_position_form).
  match goal with |- context [let '(_, _) := ?x in _] => destruct x as [c2 others] eqn:Eo end. eapply (multi_presses i p (qoder_position current (i_focus current))); [done|done| | |exact Ht|].
  - rewrite Hrow. destruct (i_notes_active i); [|done]. assert (Hr : qoder_position i (i_focus i) = count i + 1) by (rewrite <- Hother; unfold qoder_position; by rewrite Hnotes).
    rewrite Hr. destruct (qp_other_selected p); follow; away.
  - rewrite Hrow, Hcp. unfold current. destruct (i_notes_active i); [|done]. assert (Hr : qoder_position i (i_focus i) = count i + 1) by (rewrite <- Hother; unfold qoder_position; by rewrite Hnotes).
    cbn [with_other with_notes with_focus i_focus]. rewrite Hr, Hother. by destruct (qp_other_selected p); follow.
  - destruct (qp_other_selected p && negb (i_notes_active i)); [|destruct (negb (qp_other_selected p) && _)]; injection Eo as <- <-; unfold qoder_navigation_keys; cbn [with_focus i_focus];
      change (qoder_position (with_focus c ?f)) with (qoder_position c); follow; rewrite ?Hpos, ?Hother, ?Hsub; away.
Qed.

Lemma opencode_plan_multi i p : i_agent i = "opencode"%string -> multi i = true -> form_ok i -> presses_answer i p (plan_opencode_multi_input i p).
Proof.
  intros Ha Hm Hf. pose proof (fk_notes i Hf) as Hnotes. rewrite decide_False in Hnotes by (rewrite Ha; done).
  assert (Hrow : row_of i = opencode_position i) by (unfold row_of; by rewrite decide_False, decide_True by (rewrite Ha; done)).
  assert (Hkey : mark_key i = "Enter"%string) by (unfold mark_key; by rewrite bool_decide_eq_false_2 by (rewrite Ha; done)).
  assert (Hother : opencode_position i on_other = count i) by done.
  unfold plan_opencode_multi_input. match goal with |- context [let '(_, _) := ?x in _] => destruct x as [current opening] eqn:Ec end. destruct (toggle_options _ _ _ _ _ _) as [c toggles] eqn:E.
  destruct (toggle_trace opencode_navigation_keys opencode_position "Enter" true p (fun _ _ => eq_refl) (fun _ _ => eq_refl) ltac:(done) _ _ _ _ (NoDup_indices current) E) as (F & _ & _ & Ht).
  assert (Hcur : opencode_position current = opencode_position i /\ differing current p (all_indices current) = differing i p (all_indices i) /\
    trace (opencode_position i (i_focus i)) opening = (opencode_position i (i_focus current), (trace (opencode_position i (i_focus i)) opening).2) /\
    presses "Enter" (count i) (trace (opencode_position i (i_focus i)) opening).2 = []).
  { destruct (i_notes_active i); [|by injection Ec as <- <-]. assert (Hr : opencode_position i (i_focus i) = count i) by (unfold opencode_position; by rewrite decide_True by auto).
    rewrite Hr. destruct (qp_other_selected p); injection Ec as <- <-; (split_and!; [done|done| |]); cbn [with_notes with_focus with_other i_focus]; rewrite ?Hother; follow; [done|away|done|away]. }
  destruct Hcur as (Hcp & Hcd & Hop & Haw). rewrite Hcd, Hcp in Ht. assert (Hpos : forall f, opencode_position c f = opencode_position i f) by (intros f; rewrite <- Hcp; by apply opencode_position_form).
  eapply (multi_presses i p (opencode_position i (i_focus current))); [done|done| | |exact Ht|].
  - by rewrite Hrow.
  - by rewrite Hrow, Hop.
  - destruct (qp_other_selected p && _); [|destruct (negb (qp_other_selected p) && _)]; unfold opencode_navigation_keys; follow; rewrite ?Hpos, ?Hother; away.
Qed.

Lemma omp_plan_multi i p : i_agent i = "omp"%string -> multi i = true -> form_ok i -> answers i p -> exists steps, plan_omp_input i p = Some steps /\ presses_answer i p steps.
Proof.
  intros Ha Hm Hf Hp. destruct (validate_facts i p Hp) as (_ & Hh & _). destruct (multi_kind i Hf Hm) as (Hk & _ & _). destruct (fk_rows i Hf) as [H1 Hrows]. destruct (fk_focus i Hf) as [Hfo Hfo'].
  assert (Hrow : row_of i = position i) by (unfold row_of; by rewrite !decide_False by (rewrite Ha; done)). unfold plan_omp_input. rewrite decide_False by done. cbv zeta.
  set (press := (if i_omp_space_toggle i then "Space" else "Enter")%string). destruct (toggle_options _ _ _ _ _ _) as [c toggles] eqn:E.
  assert (Hkey : mark_key i = press) by (unfold mark_key, press; by rewrite bool_decide_eq_true_2, Hm).
  assert (Hact : press <> "Down"%string /\ press <> "Up"%string) by (unfold press; by destruct (i_omp_space_toggle i)).
  destruct (toggle_trace navigation_keys position press false p (fun _ _ => eq_refl) (fun _ _ => eq_refl) Hact _ _ _ _ (NoDup_indices i) E) as (F & Hkind & Hidx & Ht).
  assert (Hpos : forall f, position c f = position i f) by (intros f; by apply position_form). destruct F as (_ & Elen & Eoth & Eall & Etot).
  assert (Hopt : forall k, position i (on_option k) = k) by done. assert (Hcount : count c = count i) by (unfold count; by rewrite Elen).
  assert (Hend : fo_index (i_focus c) <= count i /\ fo_index (i_focus c) <= position c (i_focus c)).
  { rewrite Hpos. destruct Hidx as [He|Hi].
    - rewrite He. split; [lia|]. unfold position. rewrite Hm. destruct (fo_kind (i_focus i)) eqn:Ef; [lia|rewrite Hfo' by done; lia..].
    - split; [lia|]. destruct Hkind as [Hko|He]; [unfold position; by rewrite Hko|]. rewrite He. unfold position. rewrite Hm.
      destruct (fo_kind (i_focus i)) eqn:Ef; [lia|rewrite Hfo' by done; lia..]. }
  assert (Hdone : forall rest, presses press (count i) (trace (position c (i_focus c)) rest).2 = [] -> presses_answer i p (toggles ++ rest)).
  { intros rest Hr. eapply (multi_presses i p _ _ []); [done|done|done|by rewrite Hrow|exact Ht|done]. }
  unfold last_row. rewrite Eall, Eoth, Etot. destruct (qp_other_selected p || _) eqn:Eo.
  - assert (Hhid : ot_hidden (i_other i) = false).
    { destruct (ot_hidden (i_other i)) eqn:Ehid; [|done]. destruct (fk_hidden i Hf Ehid) as (Es & _). rewrite Es, andb_false_r, orb_false_r in Eo. by specialize (Hh Eo). }
    rewrite Hhid in Hrows. rewrite decide_False by lia. cbn [mbind option_bind]. eexists. split; [reflexivity|]. apply Hdone. unfold navigation_keys, press.
    destruct (i_omp_space_toggle i) eqn:Esp; destruct (qp_other_selected p); follow; rewrite Hpos, Hopt; away.
  - destruct (i_omp_space_toggle i) eqn:Esp.
    { eexists. split; [reflexivity|]. apply Hdone. unfold press. follow. apply presses_away. apply Forall_cons_2; [by left|apply Forall_nil_2]. }
    case_decide; [eexists; split; [reflexivity|]; apply Hdone; unfold press; follow; apply presses_away; apply Forall_cons_2; [by left|apply Forall_nil_2]|].
    case_decide; [exists toggles; split; [done|]; rewrite <- (app_nil_r toggles); by apply Hdone|]. rewrite decide_False by lia. eexists. split; [reflexivity|]. apply Hdone. unfold press.
    cbn [trace keys st_keys]. rewrite walk_app, walk_down. cbn [walk]. rewrite !decide_False by done. cbn [app snd]. apply presses_away. apply Forall_cons_2; [right; cbn [fst]; lia|apply Forall_nil_2].
Qed.

(** C19 — Plans enter the answer and nothing else.  For a form of any of the five
    agents whose parts fit together (a known kind; one row per option and one for
    the custom answer unless it is hidden; a focus on one of these rows; an open
    note field has the focus) and every answer the checks accept, planning does
    not panic, and on the rows of the options the planned keys press the marking
    key exactly once on each option that has to change (multi-select: those whose
    mark differs from the answer; single-select: the chosen one), in order, and on
    no other option.  The one exception: with the note field of a qoder or
    opencode single-select form open, an answer that ticks the custom answer
    presses no option at all, also when it names a choice. *)
Theorem plan_presses_the_answer i p : form_ok i -> answers i p ->
  exists steps, plan_input i p = Some steps /\
    presses (mark_key i) (count i) (trace (row_of i (i_focus i)) steps).2 = if drops_choice i p then [] else touched i p.
Proof.
  intros Hf Hp. destruct (an_plain i p Hp) as [En Ec]. change (exists steps, plan_input i p = Some steps /\ presses (mark_key i) (count i) (trace (row_of i (i_focus i)) steps).2 = entered i p).
  assert (Hplain : forall plan, (exists steps, plan = Some steps /\ presses_answer i p steps) -> drops_choice i p = false ->
    exists steps, plan = Some steps /\ presses (mark_key i) (count i) (trace (row_of i (i_focus i)) steps).2 = entered i p).
  { intros plan (steps & E & Hs) Hd. exists steps. split; [done|by apply answer_entered]. }
  unfold plan_input. rewrite En, Ec, !decide_False by done.
  destruct (decide (i_kind i = "single_select"%string)) as [Hk|Hk].
  - assert (Hnot : i_agent i <> "qoder"%string -> i_agent i <> "opencode"%string -> drops_choice i p = false) by (intros ? ?; unfold drops_choice; by rewrite bool_decide_eq_false_2 by tauto).
    case_decide as Ha; [apply Hplain; [by apply codex_plan|apply Hnot; by rewrite Ha]|]. case_decide as Hq; [by apply qoder_plan_single|]. case_bool_decide as Ho; [by apply opencode_plan_single|].
    apply Hplain; [|by apply Hnot]. case_decide; [by apply omp_plan_single|by apply claude_plan_single].
  - assert (Hm : multi i = true) by (unfold multi; apply bool_decide_eq_true; by destruct (fk_kind i Hf) as [?|[? _]]). destruct (multi_kind i Hf Hm) as (_ & Hcodex & Hh).
    apply Hplain; [|unfold drops_choice; by rewrite (bool_decide_eq_false_2 (i_kind i = _)), andb_false_r by done].
    rewrite decide_False by done. case_decide as Hq; [unfold plan_qoder_input; rewrite decide_False by done; eexists; split; [done|by apply qoder_plan_multi]|].
    case_bool_decide as Ho; [|case_decide; [by apply omp_plan_multi|by apply claude_plan_multi]].
    unfold plan_opencode_input. rewrite Hm, Hh by (rewrite Ho; done). eexists. split; [done|by apply opencode_plan_multi].
Qed.

(** Three options of which the middle one is marked, and the custom answer;
    the answer wants the first two. *)
Definition demo_option (k : Z) (label : string) (selected : bool) : QuestionOption := mkOption k label "" selected [].
Definition demo_form : Interaction :=
  mkInteraction "id" "multi_select" "Which?" [demo_option 0 "a" false; demo_option 1 "b" true; demo_option 2 "c" true] (mkOther false "" "" "" false false) "Submit"
    true false 1 1 (mkFocus FocusOption 2) 4 "claude" false false.
Definition demo_answer : QuestionPayload := mkQuestion "id" [0; 1] false "" false "".

Lemma plan_presses_the_answer_witness : exists steps, plan_input demo_form demo_answer = Some steps /\ presses "Enter" 3 (trace 2 steps).2 = [0; 2].
Proof.
  destruct (plan_presses_the_answer demo_form demo_answer) as (steps & Hs & Hp).
  - split; cbn; [by right|split; [unfold count; cbn; lia|done]|unfold count; cbn; lia|done|done].
  - split; [reflexivity|done].
  - exists steps. split; [exact Hs|]. exact Hp.
Defined.

(** A choice together with a blank custom answer counts as one answer, but with
    the note field of qoder open the plan submits the note and leaves the choice
    alone. *)
Definition note_form : Interaction :=
  mkInteraction "id" "single_select" "Which?" [demo_option 0 "a" false; demo_option 1 "b" false] (mkOther false "" "" "" false false) "Submit"
    false false 1 1 (mkFocus FocusOther 0) 3 "qoder" true false.
Example open_note_drops_choice : validate_question_payload note_form (mkQuestion "id" [1] true "" false "") = None /\
  plan_input note_form (mkQuestion "id" [1] true "" false "") = Some [clear_line; enter].
Proof. split; reflexivity. Qed.

End QuestionInput.
