(* ===== verification/Questions.v ===== *)
(** * Answering approvals and questions

    [lerdr-coord/src/actions/questions.rs]: the ledger that admits an answer
    once, replays or attaches its duplicates and refuses conflicting ones, the
    effect that checks the screen and types the answer, and the watcher that
    confirms it.  The handlers are cut at their lock sections and await points;
    the reads and writes of the terminal, the clock and the live topology are
    what events bring.  Classifying a screen is a parameter
    ([classify/attention.rs], [classify/parse.rs]). *)

From S2P Require Import Prelude Utf8 Lines Json Inbound Protocol HerdrError Outcome Attention Topology SessionActor GoJson UploadBinary QuestionInput.

Module Questions.
Import Utf8 Json Inbound Protocol HerdrError Attention QuestionInput.

(** ** Constants *)

Definition NS_PER_SEC : Z := 1000000000.
Definition APPROVAL_DEADLINE : Z := 9 * NS_PER_SEC.
Definition QUESTION_DEADLINE : Z := 16 * NS_PER_SEC.
Definition WATCH_TIMEOUT : Z := 5 * NS_PER_SEC.
Definition WATCH_INTERVAL : Z := 350 * 1000000.
Definition MAX_LEDGER_ENTRIES : nat := 256.
Definition LEDGER_RETENTION : Z := 24 * 60 * 60 * NS_PER_SEC.
Definition MAX_CUSTOM_ANSWERS : nat := 32.
Definition ERR_PANE_REPLACED : string := "pane session was replaced".
Definition SHIFT_TAB_SEQUENCE : string := String (byte_ascii 27) "[Z".

(** ** Panes *)

#[local] Existing Instance Topology.AgentStatus_eq_dec.

(** What the handlers read of an [AgentInfo]; the session is its source and
    value. *)
Record Agent := mkAgentView { ag_terminal_id : string; ag_tab_id : string; ag_session : option (string * string); ag_status : Topology.AgentStatus; ag_agent : option string }.

Record PaneToken := mkToken { tk_terminal_id : string; tk_tab_id : string; tk_session_source : string; tk_session_value : string }.
#[export] Instance PaneToken_eq_dec : EqDecision PaneToken.
Proof. solve_decision. Defined.

Definition no_token : PaneToken := mkToken "" "" "" "".
Definition token_of (a : Agent) : PaneToken := mkToken (ag_terminal_id a) (ag_tab_id a) (default "" (fst <$> ag_session a)) (default "" (snd <$> ag_session a)).

Definition Panes : Type := gmap string Agent.
Definition pane_token (t : Panes) (pane_id : string) : option PaneToken := token_of <$> t !! pane_id.
Definition token_current (t : Panes) (pane_id : string) (token : PaneToken) : bool := bool_decide (pane_token t pane_id = Some token).

Definition is_blocked (a : Agent) : bool := bool_decide (ag_status a = Topology.Blocked).
Definition is_waiting (a : Agent) : bool := is_blocked a || bool_decide (ag_status a = Topology.Done).
Definition holds_of (f : Agent -> bool) (a : option Agent) : bool := match a with Some a => f a | None => false end.
Definition agent_name (a : option Agent) : string := default "" (a ≫= ag_agent).

(** ** The ledger *)

Record StoredResult := mkStored { sr_action : string; sr_ok : bool; sr_phase : string; sr_error : string; sr_pane_id : string; sr_data : option json }.
Definition stored (action : string) (o : Outcome.Outcome) : StoredResult :=
  mkStored action (Outcome.o_ok o) (Outcome.o_phase o) (Outcome.o_error o) (Outcome.o_pane_id o) (Outcome.o_data o).

(** A waiter is named by the request that awaits it. *)
Record LedgerEntry := mkEntry { le_hash : string; le_result : option StoredResult; le_token : PaneToken; le_waiters : list nat; le_done : bool; le_created_at : Z }.

Record PendingApproval := mkPending { pa_event_id : string; pa_fingerprint : string; pa_token : PaneToken }.

Record Inner := mkInner { ledger : gmap string LedgerEntry; custom_answers : gmap string (list (string * string)); pending_approvals : gmap string PendingApproval }.
Definition set_ledger (q : Inner) (l : gmap string LedgerEntry) : Inner := mkInner l (custom_answers q) (pending_approvals q).
Definition set_pending (q : Inner) (p : gmap string PendingApproval) : Inner := mkInner (ledger q) (custom_answers q) p.
Definition set_custom (q : Inner) (c : gmap string (list (string * string))) : Inner := mkInner (ledger q) c (pending_approvals q).

(** Why an entry left the ledger. *)
Inductive Reason := Expired | Overflow | Replaced | Abandoned.
Definition Removal : Type := string * Reason * LedgerEntry.

Section Ledger.
(** The order in which a [HashMap] is visited. *)
Context (order : gmap string LedgerEntry -> list (string * LedgerEntry)).

Definition expired (now : Z) (e : LedgerEntry) : bool := le_done e && bool_decide (LEDGER_RETENTION <= Z.max 0 (now - le_created_at e)).

(** The first of the oldest finished entries. *)
Definition older (best : option (string * LedgerEntry)) (x : string * LedgerEntry) : option (string * LedgerEntry) :=
  match best with Some b => if decide (le_created_at x.2 < le_created_at b.2) then Some x else Some b | None => Some x end.
Definition oldest (l : gmap string LedgerEntry) : option (string * LedgerEntry) := foldl older None (filter (fun x => le_done x.2 = true) (order l)).

(** One round for each entry at most. *)
Fixpoint drop_overflow (fuel : nat) (l : gmap string LedgerEntry) : gmap string LedgerEntry * list Removal :=
  match fuel with
  | O => (l, [])
  | S fuel =>
      if decide (MAX_LEDGER_ENTRIES < size l)%nat then
        match oldest l with
        | Some (key, e) => let '(l', gone) := drop_overflow fuel (delete key l) in (l', (key, Overflow, e) :: gone)
        | None => (l, [])
        end
      else (l, [])
  end.

Definition prune_locked (now : Z) (l : gmap string LedgerEntry) : gmap string LedgerEntry * list Removal :=
  let kept := filter (fun x => expired now x.2 = false) l in
  let dropped := (fun x => (x.1, Expired, x.2)) <$> map_to_list (filter (fun x => expired now x.2 = true) l) in
  let '(l', gone) := drop_overflow (size kept) kept in (l', dropped ++ gone).

Definition add_waiter (task : nat) (e : LedgerEntry) : LedgerEntry :=
  mkEntry (le_hash e) (le_result e) (le_token e) (le_waiters e ++ [task]) (le_done e) (le_created_at e).

Inductive Lookup := Miss | LAttach | LReplay (r : StoredResult) | LConflict.
Inductive Admission := Fresh | AAttach | AReplay (r : StoredResult) | AConflict.

Definition replay (now : Z) (task : nat) (key hash : string) (token : PaneToken) (l : gmap string LedgerEntry) : gmap string LedgerEntry * list Removal * Lookup :=
  let '(l, gone) := prune_locked now l in
  match l !! key with
  | None => (l, gone, Miss)
  | Some e =>
      if decide (le_token e <> token) then (delete key l, gone ++ [(key, Replaced, e)], Miss)
      else if decide (le_hash e <> hash) then (l, gone, LConflict)
      else match le_result e with
           | Some r => (l, gone, LReplay r)
           | None => (<[key := add_waiter task e]> l, gone, LAttach)
           end
  end.

Definition schedule (now : Z) (task : nat) (key hash : string) (token : PaneToken) (l : gmap string LedgerEntry) : gmap string LedgerEntry * list Removal * Admission :=
  let '(l, gone) := prune_locked now l in
  let fresh := mkEntry hash None token [] false now in
  match l !! key with
  | None => (<[key := fresh]> l, gone, Fresh)
  | Some e =>
      if decide (le_token e <> token) then (<[key := fresh]> (delete key l), gone ++ [(key, Replaced, e)], Fresh)
      else if decide (le_hash e <> hash) then (l, gone, AConflict)
      else match le_result e with
           | Some r => (l, gone, AReplay r)
           | None => (<[key := add_waiter task e]> l, gone, AAttach)
           end
  end.
End Ledger.

(** [Flight::finish] and [Flight::mark_accepted]: the waiters that are sent the
    result, and whether the slot was still this flight's. *)
Definition store_result (done : bool) (r : StoredResult) (e : LedgerEntry) : LedgerEntry := mkEntry (le_hash e) (Some r) (le_token e) [] done (le_created_at e).
Definition finish (key : string) (token : PaneToken) (r : StoredResult) (l : gmap string LedgerEntry) : gmap string LedgerEntry * list nat * bool :=
  match l !! key with
  | Some e => if decide (le_token e = token) then (<[key := store_result true r e]> l, le_waiters e, true) else (l, [], false)
  | None => (l, [], false)
  end.
Definition mark_accepted (key : string) (token : PaneToken) (r : StoredResult) (l : gmap string LedgerEntry) : gmap string LedgerEntry * list nat :=
  match l !! key with
  | Some e => if decide (le_token e = token) then (<[key := store_result (le_done e) r e]> l, le_waiters e) else (l, [])
  | None => (l, [])
  end.
(** The drop of an armed [Flight]. *)
Definition drop_flight (key : string) (l : gmap string LedgerEntry) : gmap string LedgerEntry * list Removal :=
  match l !! key with Some e => (delete key l, [(key, Abandoned, e)]) | None => (l, []) end.

(** ** Custom answers and pending approvals *)

Section Texts.
Context `{CM : CaseMapping}.

(** [split_whitespace]. *)
Fixpoint words (cs : list Z) (word : list Z) : list (list Z) :=
  match cs with
  | [] => if decide (word = []) then [] else [word]
  | c :: cs => if is_whitespace c then (if decide (word = []) then words cs [] else word :: words cs []) else words cs (word ++ [c])
  end.
Fixpoint join_words (l : list (list Z)) : list Z := match l with [] => [] | [w] => w | w :: l => w ++ 32 :: join_words l end.
Definition compact (s : string) (limit : nat) : string := string_of_bytes (utf8_encode (take limit (join_words (words (chars s) [])))).

Definition trim_end_question (cs : list Z) : list Z := reverse (drop_while (fun c => bool_decide (c = 63)) (reverse cs)).
Definition summary_key (value : string) : string :=
  to_lowercase (compact (string_of_bytes (utf8_encode (trim_end_question (trim_chars (chars value))))) 500).

Definition record_custom_answer (pane_id question text : string) (q : Inner) : Inner :=
  let key := summary_key question in
  let text := trim text in
  if decide (pane_id = ""%string \/ key = ""%string \/ text = ""%string) then q
  else
    let answers := default [] (custom_answers q !! pane_id) in
    if decide ((MAX_CUSTOM_ANSWERS <= length answers)%nat /\ key ∉ answers.*1) then set_custom q (<[pane_id := answers]> (custom_answers q))
    else set_custom q (<[pane_id := filter (fun x => x.1 <> key) answers ++ [(key, text)]]> (custom_answers q)).

Definition CUSTOM_ANSWER_PLACEHOLDER : string := "custom answer".
Definition summary_line (n : nat) (e : SummaryEntry) : string :=
  decimal (Z.of_nat n + 1) +:+ ". " +:+ compact (se_question e) 1000 +:+ (if decide (se_answer e = ""%string) then "" else ": " +:+ compact (se_answer e) 1000).
Definition summary_lines (l : list SummaryEntry) : string := Lines.join_nl (imap summary_line l).

Definition fill_entry (answers : gmap string string) (e : SummaryEntry) : SummaryEntry :=
  if decide (se_answer e = CUSTOM_ANSWER_PLACEHOLDER) then
    match answers !! summary_key (se_question e) with Some t => if decide (t = ""%string) then e else mkSummary (se_question e) t | None => e end
  else e.
Definition fill_option (answers : gmap string string) (o : QuestionOption) : QuestionOption :=
  let summary := fill_entry answers <$> qo_summary o in
  let changed := existsb (fun e => match answers !! summary_key (se_question e) with Some t => bool_decide (se_answer e = CUSTOM_ANSWER_PLACEHOLDER /\ t <> ""%string) | None => false end) (qo_summary o) in
  if changed then mkOption (qo_index o) (qo_label o) (summary_lines summary) (qo_selected o) summary else o.
Definition fill_custom_answers (answers : gmap string string) (i : Interaction) : Interaction :=
  if decide (answers = ∅) then i else with_options i (fill_option answers <$> i_options i).
End Texts.

Definition pending_approval (q : Inner) (pane_id : string) (token : PaneToken) : option PendingApproval :=
  p ← pending_approvals q !! pane_id; if decide (pa_token p = token) then Some p else None.
Definition record_pending_approval (pane_id : string) (p : PendingApproval) (q : Inner) : Inner := set_pending q (<[pane_id := p]> (pending_approvals q)).
Definition clear_pending_approval (pane_id fingerprint : string) (q : Inner) : Inner :=
  match pending_approvals q !! pane_id with
  | Some p => if decide (pa_fingerprint p = fingerprint) then set_pending q (delete pane_id (pending_approvals q)) else q
  | None => q
  end.
Definition note_blocked (pane_id event_id : string) (q : Inner) : Inner :=
  set_pending q (alter (fun p => mkPending event_id (pa_fingerprint p) (pa_token p)) pane_id (pending_approvals q)).
Definition forget_pane (pane_id : string) (q : Inner) : Inner := set_pending (set_custom q (delete pane_id (custom_answers q))) (delete pane_id (pending_approvals q)).

(** ** Outcomes and frames *)

Definition AWAITING_EVIDENCE : string := "awaiting_evidence".

Section Frames.
Context `{FT : GoJson.FloatText} `{CM : CaseMapping} `{ST : SessionActor.SerdeText}.

Definition stored_frame (request_id : string) (r : StoredResult) : Outbound :=
  OCommandResult (mkCommandResult (Some (sr_action r)) ((fun v => UploadBinary.Value (SessionActor.serde_text v)) <$> sr_data r) (Some (sr_error r)) (Some (sr_ok r))
    (Some (sr_pane_id r)) (Some (sr_phase r)) (non_empty request_id) "command_result").
Definition attached_frames (request_id : string) (r : StoredResult) : list Outbound := [stored_frame request_id r].
Definition attach_failed_frames (request_id action action_id : string) : list Outbound :=
  Outcome.frames (Outcome.not_started_refusal "closed" "command was not sent; retry is safe" None) request_id action action_id.

Definition accepted_outcome (pane_id : string) (data : option json) : Outcome.Outcome := Outcome.mkOutcome true "accepted" "" pane_id data AWAITING_EVIDENCE None.
Definition accepted_frames (request_id action action_id : string) (accepted : Outcome.Outcome) : list Outbound :=
  [Outcome.command_result_frame request_id action accepted;
   OActionReceipt (action_receipt_response request_id (mkReceipt action_id (Outcome.o_receipt_phase accepted) None))].
Definition watched_frames (request_id action action_id : string) (accepted terminal : Outcome.Outcome) : list Outbound :=
  accepted_frames request_id action action_id accepted ++ [Outcome.command_result_frame request_id action terminal].

Definition step_stale (pane_id : string) (dispatched : bool) : Outcome.Outcome :=
  if dispatched then Outcome.partially_applied pane_id ERR_PANE_REPLACED else Outcome.failed pane_id ERR_PANE_REPLACED.
Definition step_failure (pane_id : string) (err : HerdrError) (dispatched : bool) : Outcome.Outcome :=
  if dispatched || may_have_applied err then Outcome.partially_applied pane_id (to_string err) else Outcome.dispatch_failure pane_id err.

Definition approval_terminal (pane_id : string) (confirmed : bool) : Outcome.Outcome :=
  Outcome.mkOutcome confirmed (if confirmed then "confirmed" else "unconfirmed") "" pane_id None CONFIRMED None.
Definition unconfirmed_question (pane_id : string) : Outcome.Outcome :=
  Outcome.mkOutcome false "unconfirmed" "The agent still shows the same question; try again" pane_id None CONFIRMED None.

(** The serialised fields of an interaction. *)
Definition option_json (o : QuestionOption) : json :=
  JObject ([("index", json_int (qo_index o)); ("label", JString (qo_label o)); ("description", JString (qo_description o)); ("selected", JBool (qo_selected o))]%string ++
           (if decide (qo_summary o = []) then [] else [("summary"%string, JArray ((fun e => JObject [("q", JString (se_question e)); ("a", JString (se_answer e))]%string) <$> qo_summary o))])).
Definition string_member (name value : string) : list (string * json) := if decide (value = ""%string) then [] else [(name, JString value)].
Definition bool_member (name : string) (b : bool) : list (string * json) := if b then [(name, JBool true)] else [].
Definition int_member (name : string) (z : Z) : list (string * json) := if decide (z = 0) then [] else [(name, json_int z)].
Definition other_json (o : QuestionOther) : json :=
  JObject ([("selected", JBool (ot_selected o)); ("text", JString (ot_text o))]%string ++ string_member "label" (ot_label o) ++ string_member "placeholder" (ot_placeholder o) ++
           bool_member "allow_empty" (ot_allow_empty o) ++ bool_member "hidden" (ot_hidden o)).
Definition interaction_json (i : Interaction) : json :=
  JObject ([("id", JString (i_id i)); ("kind", JString (i_kind i)); ("question", JString (i_question i)); ("options", JArray (option_json <$> i_options i)); ("other", other_json (i_other i));
            ("submit_label", JString (i_submit_label i)); ("can_chat", JBool (i_can_chat i)); ("can_go_back", JBool (i_can_go_back i))]%string ++
           int_member "question_index" (i_question_index i) ++ int_member "question_total" (i_question_total i)).
Definition interaction_data (i : Interaction) : json := JObject [("interaction"%string, to_value (interaction_json i))].

Definition UNEXPECTED_QUESTION : string := "The agent opened an unexpected question; the screen was refreshed".
Definition finish_question_watch (pane_id action : string) (original : Interaction) (navigation : string) (current : option Interaction) : Outcome.Outcome :=
  let confirmed := Outcome.mkOutcome true "confirmed" "" pane_id None CONFIRMED None in
  let failed data := Outcome.mkOutcome false "failed" UNEXPECTED_QUESTION pane_id data CONFIRMED None in
  if decide (navigation <> ""%string) then
    let expected := if decide (navigation = "previous"%string) then i_question_index original - 1 else i_question_index original + 1 in
    match current with
    | Some c => if decide (0 < expected /\ i_question_index c = expected) then Outcome.mkOutcome true "navigated" "" pane_id (Some (interaction_data c)) CONFIRMED None
                else failed (Some (interaction_data c))
    | None => failed None
    end
  else if decide (action = "answer_question"%string) then
    match current with
    | Some c => if decide (0 < i_question_index original /\ i_question_index c = i_question_index original + 1)
                then Outcome.mkOutcome true "advanced" "" pane_id (Some (interaction_data c)) CONFIRMED None
                else failed (Some (interaction_data c))
    | None => confirmed
    end
  else confirmed.
End Frames.

(** ** Requests *)

Inductive QuestionKind := Answer | Clarify | Navigate.
Definition question_action (k : QuestionKind) : string := match k with Answer => "answer_question" | Clarify => "clarify_question" | Navigate => "navigate_question" end.
Definition question_family (action : string) : string :=
  if decide (action = "navigate_question"%string) then "question-navigation" else if decide (action = "clarify_question"%string) then "question-clarification" else "question-answer".
Definition nul : string := String (byte_ascii 0) "".
Definition question_ledger_key (action pane_id interaction_id request_id : string) : string :=
  question_family action +:+ nul +:+ pane_id +:+ nul +:+ interaction_id +:+ nul +:+ request_id.
Definition approval_ledger_key (pane_id event_id : string) : string := "approval" +:+ nul +:+ pane_id +:+ nul +:+ event_id.

Inductive Handler := Respond | Question (k : QuestionKind).
Inductive Payload := PApproval (p : ApprovalPayload) | PQuestion (p : QuestionPayload).

(** A decoded request with what it took from its snapshot. *)
Record Job := mkJob {
  j_handler : Handler;
  j_request_id : string;
  j_action_id : string;
  j_pane_id : string;
  j_payload : Payload;
  j_key : string;
  j_hash : string;
  j_token : PaneToken;
  j_agent : string;
  j_ready : bool;
}.
Definition j_action (j : Job) : string := match j_handler j with Respond => "approval" | Question k => question_action k end.

(** One terminal write. *)
Inductive Write := WKeys (l : list string) | WText (t : string).
(** [send_key]: a lone shift+tab goes out as its escape sequence. *)
Definition ascii_lower (c : Z) : Z := if in_range 65 90 c then c + 32 else c.
Definition eq_ignore_ascii_case (a b : string) : bool := bool_decide (map ascii_lower (as_bytes a) = map ascii_lower (as_bytes b)).
Definition key_write (key : string) : Write := if eq_ignore_ascii_case key "shift+tab" then WText SHIFT_TAB_SEQUENCE else WKeys [key].
Definition step_writes (s : InputStep) : list Write := (if decide (st_text s = ""%string) then [] else [WText (st_text s)]) ++ (key_write <$> st_keys s).

(** ** The handlers as a machine *)

Inductive Phase :=
| Replaying
| Scheduling
| Attached                                                                            (** awaiting the result of another request *)
| Locking                                                                             (** awaiting the lock of the pane *)
| Checking (deadline : Z)
| Reading (deadline : Z)                                                              (** awaiting [pane.read] *)
| Approving                                                                           (** awaiting [pane.send_keys] *)
| Typing (deadline : Z) (i : Interaction) (todo : list Write) (dispatched : bool)     (** before the next write of the plan *)
| Writing (deadline : Z) (i : Interaction) (todo : list Write) (dispatched : bool)    (** awaiting its answer *)
| Accepting (submitted : option Interaction)
| Watching (deadline : Z) (submitted : option Interaction)
| WatchReading (deadline : Z) (submitted : option Interaction) (name : string)
| Settling (terminal : Outcome.Outcome)
| Clearing (frames : list Outbound)
| Ended (frames : list Outbound)
| Dropped
| Panicked.

(** The request holds an unfinished [Flight]. *)
Definition armed (p : Phase) : bool :=
  match p with Locking | Checking _ | Reading _ | Approving | Typing _ _ _ _ | Writing _ _ _ _ | Accepting _ | Watching _ _ | WatchReading _ _ _ | Settling _ => true | _ => false end.
(** The request holds the lock of its pane. *)
Definition holding (p : Phase) : bool :=
  match p with Checking _ | Reading _ | Approving | Typing _ _ _ _ | Writing _ _ _ _ | Accepting _ => true | _ => false end.

Record Task := mkTask { t_job : Job; t_phase : Phase }.

(** A write that was begun, what the screen had shown and the panes then. *)
Inductive Seen := SawApproval (c : Classification) | SawQuestion (i : Interaction).
Record Written := mkWritten { wr_task : nat; wr_job : Job; wr_what : Write; wr_seen : Seen; wr_panes : Panes }.

Record Sys := mkSys {
  y_inner : Inner;
  y_panes : Panes;
  y_locks : gmap string nat;
  y_mail : gmap nat (option StoredResult);
  y_tasks : gmap nat Task;
  y_writes : list Written;
  y_activities : list (string * string * string * string * string);
  y_gone : list Removal;
}.
Definition start_sys : Sys := mkSys (mkInner ∅ ∅ ∅) ∅ ∅ ∅ ∅ [] [] [].

Definition upd_inner (f : Inner -> Inner) (y : Sys) : Sys := mkSys (f (y_inner y)) (y_panes y) (y_locks y) (y_mail y) (y_tasks y) (y_writes y) (y_activities y) (y_gone y).
Definition set_locks (l : gmap string nat) (y : Sys) : Sys := mkSys (y_inner y) (y_panes y) l (y_mail y) (y_tasks y) (y_writes y) (y_activities y) (y_gone y).
Definition set_mail (m : gmap nat (option StoredResult)) (y : Sys) : Sys := mkSys (y_inner y) (y_panes y) (y_locks y) m (y_tasks y) (y_writes y) (y_activities y) (y_gone y).
Definition go (task : nat) (j : Job) (p : Phase) (y : Sys) : Sys :=
  mkSys (y_inner y) (y_panes y) (y_locks y) (y_mail y) (<[task := mkTask j p]> (y_tasks y)) (y_writes y) (y_activities y) (y_gone y).
Definition log_write (w : Written) (y : Sys) : Sys := mkSys (y_inner y) (y_panes y) (y_locks y) (y_mail y) (y_tasks y) (y_writes y ++ [w]) (y_activities y) (y_gone y).
Definition record_activity (kind status summary pane_id request_id : string) (y : Sys) : Sys :=
  mkSys (y_inner y) (y_panes y) (y_locks y) (y_mail y) (y_tasks y) (y_writes y) (y_activities y ++ [(kind, status, summary, pane_id, request_id)]) (y_gone y).
Definition log_gone (gone : list Removal) (y : Sys) : Sys := mkSys (y_inner y) (y_panes y) (y_locks y) (y_mail y) (y_tasks y) (y_writes y) (y_activities y) (y_gone y ++ gone).

(** [oneshot]: a result is sent, or the sender goes away unused. *)
Definition deliver (r : option StoredResult) (waiters : list nat) (y : Sys) : Sys := set_mail (foldl (fun m w => <[w := r]> m) (y_mail y) waiters) y.
Definition removed (gone : list Removal) (y : Sys) : Sys := log_gone gone (deliver None (gone ≫= (fun x => le_waiters x.2)) y).
Definition unlock (pane_id : string) (y : Sys) : Sys := set_locks (delete pane_id (y_locks y)) y.

Section Machine.
Context `{FT : GoJson.FloatText} `{CM : CaseMapping} `{ST : SessionActor.SerdeText}.
Context (order : gmap string LedgerEntry -> list (string * LedgerEntry)).
Context (classify : string -> string -> Classification) (approval_fingerprint : Classification -> string) (parse_question : string -> string -> option Interaction).

(** [pending_approval] before admission. *)
Definition approval_gate (q : Inner) (pane_id : string) (token : PaneToken) (p : ApprovalPayload) : option string :=
  pending ← pending_approval q pane_id token;
  if decide (pa_event_id pending <> ap_event_id p) then Some "This approval request is no longer current"%string
  else if decide (pa_fingerprint pending <> ap_fingerprint p) then Some "Approval choices are no longer available"%string
  else None.

Definition refuse (pane_id message request_id action action_id : string) : list Outbound := Outcome.frames (Outcome.failed pane_id message) request_id action action_id.

Definition decode_question (k : QuestionKind) (m : Inbound) : result string QuestionPayload :=
  match k with Answer => decode_answer m | Clarify => decode_clarify m | Navigate => decode_navigate m end.

(** What comes before the ledger. *)
Definition admit_job (y : Sys) (h : Handler) (request_id action_id : string) (m : Inbound) : result (list Outbound) Job :=
  match h with
  | Respond =>
      match decode_approval m with
      | Err e => Err (refuse (in_pane_id m) e request_id "approval" action_id)
      | Ok (p, pane_id) =>
          let agent := y_panes y !! pane_id in
          let blocked := holds_of is_blocked agent in
          let token := default no_token (pane_token (y_panes y) pane_id) in
          match (if blocked then approval_gate (y_inner y) pane_id token p else None) with
          | Some e => Err (refuse pane_id e request_id "approval" action_id)
          | None => Ok (mkJob h request_id action_id pane_id (PApproval p) (approval_ledger_key pane_id (ap_event_id p)) (hash_payload (approval_payload_json p)) token
                          (agent_name agent) blocked)
          end
      end
  | Question k =>
      let action := question_action k in
      match decode_question k m with
      | Err e => Err (refuse (in_pane_id m) e request_id action action_id)
      | Ok p =>
          let pane_id := in_pane_id m in
          if decide (pane_id = ""%string) then Err (refuse "" "Agent is required" request_id "answer_question" action_id)
          else
            let agent := y_panes y !! pane_id in
            Ok (mkJob h request_id action_id pane_id (PQuestion p) (question_ledger_key action pane_id (qp_interaction_id p) request_id) (hash_payload (question_payload_json p))
                  (default no_token (pane_token (y_panes y) pane_id)) (agent_name agent) (holds_of is_waiting agent))
      end
  end.

Definition fail_frames (j : Job) (message : string) : list Outbound := refuse (j_pane_id j) message (j_request_id j) (j_action j) (j_action_id j).
Definition not_waiting (j : Job) : string := match j_handler j with Respond => "Agent is no longer waiting for approval" | Question _ => "Agent is no longer waiting for a question" end.
Definition CONFLICT : string := "A different response was already submitted".

Definition do_replay (task : nat) (j : Job) (now : Z) (y : Sys) : Sys :=
  let '(l, gone, found) := replay order now task (j_key j) (j_hash j) (j_token j) (ledger (y_inner y)) in
  let y := removed gone (upd_inner (fun q => set_ledger q l) y) in
  match found with
  | Miss => go task j (if j_ready j then Scheduling else Ended (fail_frames j (not_waiting j))) y
  | LReplay r => go task j (Ended (attached_frames (j_request_id j) r)) y
  | LConflict => go task j (Ended (fail_frames j CONFLICT)) y
  | LAttach => go task j Attached y
  end.

Definition do_schedule (task : nat) (j : Job) (now : Z) (y : Sys) : Sys :=
  let '(l, gone, found) := schedule order now task (j_key j) (j_hash j) (j_token j) (ledger (y_inner y)) in
  let y := removed gone (upd_inner (fun q => set_ledger q l) y) in
  match found with
  | Fresh => go task j Locking y
  | AReplay r => go task j (Ended (attached_frames (j_request_id j) r)) y
  | AConflict => go task j (Ended (fail_frames j CONFLICT)) y
  | AAttach => go task j Attached y
  end.

(** [flight.finish] and the end of the handler: whether the slot was this
    flight's. *)
Definition do_finish (j : Job) (o : Outcome.Outcome) (y : Sys) : Sys * bool :=
  let '(l, waiters, mine) := finish (j_key j) (j_token j) (stored (j_action j) o) (ledger (y_inner y)) in
  (deliver (Some (stored (j_action j) o)) waiters (upd_inner (fun q => set_ledger q l) y), mine).

(** The effect failed. *)
Definition fail_effect (task : nat) (j : Job) (o : Outcome.Outcome) (y : Sys) : Sys :=
  go task j (Ended (Outcome.frames o (j_request_id j) (j_action j) (j_action_id j))) (unlock (j_pane_id j) (do_finish j o y).1).

Definition deadline_error : HerdrError := dispatched_msg "command deadline exceeded".
Definition has_budget (deadline now : Z) : bool := bool_decide (now <= deadline).

Definition still_current (y : Sys) (j : Job) : bool :=
  match j_payload j with
  | PApproval p => holds_of is_blocked (y_panes y !! j_pane_id j) &&
      match pending_approval (y_inner y) (j_pane_id j) (j_token j) with Some pending => bool_decide (pa_event_id pending = ap_event_id p) | None => true end
  | PQuestion _ => holds_of is_waiting (y_panes y !! j_pane_id j)
  end.
Definition no_longer_current (j : Job) : string :=
  match j_payload j with PApproval _ => "This approval request is no longer current" | PQuestion _ => "The question changed before the answer was applied" end.

Definition do_check (task : nat) (j : Job) (deadline now : Z) (y : Sys) : Sys :=
  if still_current y j then
    if has_budget deadline now then go task j (Reading deadline) y else fail_effect task j (Outcome.dispatch_failure (j_pane_id j) deadline_error) y
  else fail_effect task j (Outcome.failed (j_pane_id j) (no_longer_current j)) y.

(** The live dialog is the one the client saw. *)
Definition approval_valid (p : ApprovalPayload) (c : Classification) : bool :=
  bool_decide (cl_kind c = Approval) && bool_decide (Z.of_nat (length (cl_options c)) = ap_total p) &&
  bool_decide (cl_options c !! Z.to_nat (ap_index p) = Some (ap_choice p)) && bool_decide (approval_fingerprint c = ap_fingerprint p).

Definition do_read_approval (task : nat) (j : Job) (p : ApprovalPayload) (deadline now : Z) (text : string) (y : Sys) : Sys :=
  let c := classify text (j_agent j) in
  if negb (approval_valid p c) then fail_effect task j (Outcome.failed (j_pane_id j) "Approval choices are no longer available") y
  else if negb (token_current (y_panes y) (j_pane_id j) (j_token j)) then fail_effect task j (Outcome.failed (j_pane_id j) ERR_PANE_REPLACED) y
  else if has_budget deadline now then
    go task j Approving (log_write (mkWritten task j (WKeys (approval_keys (ap_index p) (cl_approval_focus c))) (SawApproval c) (y_panes y)) y)
  else fail_effect task j (Outcome.dispatch_failure (j_pane_id j) deadline_error) y.

(** The flight is dropped unfinished: a watcher gives up, a panic unwinds. *)
Definition abandon (j : Job) (y : Sys) : Sys :=
  let '(l, gone) := drop_flight (j_key j) (ledger (y_inner y)) in removed gone (upd_inner (fun q => set_ledger q l) y).

Definition do_read_question (task : nat) (j : Job) (p : QuestionPayload) (deadline : Z) (text : string) (y : Sys) : Sys :=
  let interaction := parse_question text (j_agent j) in
  let y := match interaction with
           | Some i => if qp_other_selected p then upd_inner (record_custom_answer (j_pane_id j) (i_question i) (qp_other_text p)) y else y
           | None => y
           end in
  match interaction with
  | Some i =>
      if decide (i_id i = qp_interaction_id p) then
        match validate_question_payload i p with
        | Some e => fail_effect task j (Outcome.failed (j_pane_id j) e) y
        | None =>
            if negb (token_current (y_panes y) (j_pane_id j) (j_token j)) then fail_effect task j (Outcome.failed (j_pane_id j) ERR_PANE_REPLACED) y
            else match plan_input i p with
                 | Some steps => go task j (Typing deadline i (steps ≫= step_writes) false) y
                 | None => go task j Panicked (unlock (j_pane_id j) (abandon j y))
                 end
        end
      else fail_effect task j (Outcome.failed (j_pane_id j) (no_longer_current j)) y
  | None => fail_effect task j (Outcome.failed (j_pane_id j) (no_longer_current j)) y
  end.

(** The next write of a plan, after its checks. *)
Definition do_type (task : nat) (j : Job) (deadline now : Z) (i : Interaction) (todo : list Write) (dispatched : bool) (y : Sys) : Sys :=
  match todo with
  | [] => go task j (Accepting (Some i)) y
  | w :: todo =>
      if negb (token_current (y_panes y) (j_pane_id j) (j_token j)) then fail_effect task j (step_stale (j_pane_id j) dispatched) y
      else if has_budget deadline now then go task j (Writing deadline i todo dispatched) (log_write (mkWritten task j w (SawQuestion i) (y_panes y)) y)
      else fail_effect task j (step_failure (j_pane_id j) deadline_error dispatched) y
  end.

Definition do_accept (task : nat) (j : Job) (now : Z) (submitted : option Interaction) (y : Sys) : Sys :=
  let r := stored (j_action j) (accepted_outcome (j_pane_id j) None) in
  let '(l, waiters) := mark_accepted (j_key j) (j_token j) r (ledger (y_inner y)) in
  let y := deliver (Some r) waiters (upd_inner (fun q => set_ledger q l) y) in
  let y := match j_payload j with
           | PApproval p => record_activity "approval" "approved" ("Approved option " +:+ decimal (ap_index p + 1)) (j_pane_id j) (j_request_id j) y
           | PQuestion _ => y
           end in
  go task j (Watching (now + WATCH_TIMEOUT) submitted) (unlock (j_pane_id j) y).

Definition accepted_of (j : Job) : Outcome.Outcome := accepted_outcome (j_pane_id j) None.
Definition accepted_only (j : Job) : list Outbound := accepted_frames (j_request_id j) (j_action j) (j_action_id j) (accepted_of j).

Definition navigation_of (j : Job) : string := match j_payload j with PQuestion p => qp_navigation p | PApproval _ => "" end.

(** One tick of the watchers up to the read. *)
Definition do_watch (task : nat) (j : Job) (deadline : Z) (submitted : option Interaction) (y : Sys) : Sys :=
  let current := pane_token (y_panes y) (j_pane_id j) in
  if decide (is_Some current /\ current <> Some (j_token j)) then go task j (Ended (accepted_only j)) (abandon j y)
  else
    let agent := y_panes y !! j_pane_id j in
    match j_payload j, submitted with
    | PQuestion _, Some i =>
        match agent with
        | None => go task j (Settling (finish_question_watch (j_pane_id j) (j_action j) i (navigation_of j) None)) y
        | Some _ => go task j (WatchReading deadline submitted (agent_name agent)) y
        end
    | PApproval p, _ =>
        let resolved := negb (holds_of is_blocked agent) ||
          match pending_approval (y_inner y) (j_pane_id j) (j_token j) with Some pending => negb (bool_decide (pa_event_id pending = ap_event_id p)) | None => true end in
        if resolved then go task j (Settling (approval_terminal (j_pane_id j) true)) y else go task j (WatchReading deadline submitted (agent_name agent)) y
    | PQuestion _, None => y
    end.

Definition expects_question (j : Job) (i : Interaction) : bool :=
  negb (bool_decide (navigation_of j = ""%string)) ||
  (bool_decide (j_action j = "answer_question"%string) && bool_decide (0 < i_question_index i) && bool_decide (i_question_index i < i_question_total i)).

Definition do_watch_approval (task : nat) (j : Job) (p : ApprovalPayload) (deadline now : Z) (name : string) (answer : result HerdrError string) (y : Sys) : Sys :=
  let gone := match answer with
              | Ok text => let c := classify text name in negb (bool_decide (cl_kind c = Approval)) || negb (bool_decide (approval_fingerprint c = ap_fingerprint p))
              | Err _ => false
              end in
  if gone then go task j (Settling (approval_terminal (j_pane_id j) true)) y
  else if decide (deadline <= now) then go task j (Settling (approval_terminal (j_pane_id j) false)) y
  else go task j (Watching deadline None) y.

(** The screen after an answer, with the custom answers filled in. *)
Definition observe (j : Job) (name text : string) (q : Inner) : Inner * option Interaction :=
  match parse_question text name with
  | Some current =>
      let q := if decide (trim (ot_text (i_other current)) = ""%string) then q else record_custom_answer (j_pane_id j) (i_question current) (ot_text (i_other current)) q in
      (q, Some (fill_custom_answers (list_to_map (default [] (custom_answers q !! j_pane_id j))) current))
  | None => (q, None)
  end.

Definition do_watch_question (task : nat) (j : Job) (original : Interaction) (deadline now : Z) (name : string) (answer : result HerdrError string) (y : Sys) : Sys :=
  let tick y := if decide (deadline <= now) then go task j (Settling (unconfirmed_question (j_pane_id j))) y else go task j (Watching deadline (Some original)) y in
  match answer with
  | Err _ => tick y
  | Ok text =>
      if decide (text = ""%string) then tick y
      else
        let '(q, current) := observe j name text (y_inner y) in
        let y := upd_inner (fun _ => q) y in
        let repainting := bool_decide (current = None) && expects_question j original && holds_of is_blocked (y_panes y !! j_pane_id j) &&
          (bool_decide (cl_kind (classify text name) = Unknown) || bool_decide (cl_kind (classify text name) = Attention.Question)) && bool_decide (now < deadline) in
        if repainting then go task j (Watching deadline (Some original)) y
        else if decide (i_id <$> current = Some (i_id original)) then tick y
        else go task j (Settling (finish_question_watch (j_pane_id j) (j_action j) original (navigation_of j) current)) y
  end.

Definition question_summary (j : Job) : option string :=
  if decide (navigation_of j = "previous"%string) then Some "Opened previous question"%string
  else if decide (navigation_of j = "next"%string) then Some "Opened next question"%string
  else if decide (j_action j = "answer_question"%string) then Some "Answered question"%string
  else None.

Definition do_settle (task : nat) (j : Job) (o : Outcome.Outcome) (y : Sys) : Sys :=
  let '(y, mine) := do_finish j o y in
  let all := watched_frames (j_request_id j) (j_action j) (j_action_id j) (accepted_of j) o in
  if mine : bool then
    match j_payload j with
    | PApproval _ => go task j (Clearing all) y
    | PQuestion _ =>
        let y := match question_summary j with
                 | Some summary =>
                     record_activity "question" (if decide (j_action j = "answer_question"%string) then "answered" else "navigated") summary (j_pane_id j) (j_request_id j) y
                 | None => y
                 end in
        go task j (Ended all) y
    end
  else go task j (Ended (accepted_only j)) y.

(** The next section of a request; [answer] is what an awaited call brought. *)
Definition advance (task : nat) (now : Z) (answer : result HerdrError string) (y : Sys) : option Sys :=
  t ← y_tasks y !! task;
  let j := t_job t in
  match t_phase t with
  | Replaying => Some (do_replay task j now y)
  | Scheduling => Some (do_schedule task j now y)
  | Attached =>
      mail ← y_mail y !! task;
      Some (go task j (Ended (match mail with Some r => attached_frames (j_request_id j) r | None => attach_failed_frames (j_request_id j) (j_action j) (j_action_id j) end)) y)
  | Locking =>
      match y_locks y !! j_pane_id j with
      | Some _ => None
      | None =>
          let budget := match j_handler j with Respond => APPROVAL_DEADLINE | Question _ => QUESTION_DEADLINE end in
          Some (go task j (Checking (now + budget)) (set_locks (<[j_pane_id j := task]> (y_locks y)) y))
      end
  | Checking deadline => Some (do_check task j deadline now y)
  | Reading deadline =>
      Some (match answer with
            | Err e => fail_effect task j (Outcome.dispatch_failure (j_pane_id j) e) y
            | Ok text => match j_payload j with PApproval p => do_read_approval task j p deadline now text y | PQuestion p => do_read_question task j p deadline text y end
            end)
  | Approving =>
      Some (match answer with
            | Err e => fail_effect task j (Outcome.dispatch_failure (j_pane_id j) e) y
            | Ok _ =>
                let y := match j_payload j with
                         | PApproval p => upd_inner (record_pending_approval (j_pane_id j) (mkPending (ap_event_id p) (ap_fingerprint p) (j_token j))) y
                         | PQuestion _ => y
                         end in
                go task j (Accepting None) y
            end)
  | Typing deadline i todo dispatched => Some (do_type task j deadline now i todo dispatched y)
  | Writing deadline i todo dispatched =>
      Some (match answer with Err e => fail_effect task j (step_failure (j_pane_id j) e dispatched) y | Ok _ => go task j (Typing deadline i todo true) y end)
  | Accepting submitted => Some (do_accept task j now submitted y)
  | Watching deadline submitted => Some (do_watch task j deadline submitted y)
  | WatchReading deadline submitted name =>
      match j_payload j, submitted with
      | PApproval p, _ => Some (do_watch_approval task j p deadline now name answer y)
      | PQuestion _, Some i => Some (do_watch_question task j i deadline now name answer y)
      | PQuestion _, None => None
      end
  | Settling o => Some (do_settle task j o y)
  | Clearing frames =>
      let y := match j_payload j with PApproval p => upd_inner (clear_pending_approval (j_pane_id j) (ap_fingerprint p)) y | PQuestion _ => y end in
      Some (go task j (Ended frames) y)
  | Ended _ | Dropped | Panicked => None
  end.

(** The future of a request is dropped: its flight, its guard, its receiver. *)
Definition cancel (task : nat) (y : Sys) : option Sys :=
  t ← y_tasks y !! task;
  let j := t_job t in
  match t_phase t with
  | Ended _ | Dropped | Panicked => None
  | p =>
      let y := if armed p then abandon j y else y in
      let y := if holding p then unlock (j_pane_id j) y else y in
      Some (go task j Dropped y)
  end.

Inductive Event :=
| EvPanes (panes : Panes)
| EvForget (pane_id : string)
| EvBlocked (pane_id event_id : string)
| EvStart (task : nat) (h : Handler) (request_id action_id : string) (m : Inbound)
| EvAdvance (task : nat) (now : Z) (answer : result HerdrError string)
| EvCancel (task : nat).

Definition step (y : Sys) (ev : Event) : option Sys :=
  match ev with
  | EvPanes panes => Some (mkSys (y_inner y) panes (y_locks y) (y_mail y) (y_tasks y) (y_writes y) (y_activities y) (y_gone y))
  | EvForget pane_id => Some (upd_inner (forget_pane pane_id) y)
  | EvBlocked pane_id event_id => Some (upd_inner (note_blocked pane_id event_id) y)
  | EvStart task h request_id action_id m =>
      if decide (y_tasks y !! task = None) then
        match admit_job y h request_id action_id m with
        | Ok j => Some (go task j Replaying y)
        | Err _ => Some y
        end
      else None
  | EvAdvance task now answer => advance task now answer y
  | EvCancel task => cancel task y
  end.

Fixpoint run (y : Sys) (evs : list Event) : option Sys := match evs with [] => Some y | ev :: evs => y' ← step y ev; run y' evs end.
End Machine.

End Questions.
