(* ===== verification/QuestionsClaims.v ===== *)
(** * What answering guarantees

    Over every interleaving of requests, topology changes, answers of the
    terminal and cancellations: an answer is typed by one request only, no
    duplicate waits for nothing, what is typed answers what the screen shows,
    and the keystrokes of two answers to a pane do not mix. *)

From S2P Require Import Prelude Utf8 Json Inbound Protocol HerdrError Outcome Attention Topology SessionActor GoJson QuestionInput Questions.

Module QuestionsClaims.
Import Inbound Protocol HerdrError Attention QuestionInput Questions.

(** ** The ledger operations *)

Section Ledger.
Context (order : gmap string LedgerEntry -> list (string * LedgerEntry)) (order_perm : forall m, order m ≡ₚ map_to_list m).

(** [l'] is [l] without the removed entries, whose keys are listed. *)
Definition shrinks (l l' : gmap string LedgerEntry) (gone : list Removal) : Prop :=
  l' ⊆ l /\ (forall k e, l !! k = Some e -> l' !! k = None -> exists r, (k, r, e) ∈ gone) /\ (forall k r e, (k, r, e) ∈ gone -> l !! k = Some e).

Lemma shrinks_refl l : shrinks l l [].
Proof. split_and!; [done|congruence|]. intros k r e H. by apply not_elem_of_nil in H. Qed.
Lemma shrinks_trans l1 l2 l3 a b : shrinks l1 l2 a -> shrinks l2 l3 b -> shrinks l1 l3 (a ++ b).
Proof.
  intros (S1 & G1 & E1) (S2 & G2 & E2). split_and!; [by etransitivity| |].
  - intros k e Hk Hn. destruct (l2 !! k) as [e'|] eqn:E.
    + assert (e' = e) as -> by (eapply lookup_weaken in E; [|exact S1]; congruence). destruct (G2 k e E Hn) as [r Hr]. exists r. apply elem_of_app. by right.
    + destruct (G1 k e Hk E) as [r Hr]. exists r. apply elem_of_app. by left.
  - intros k r e Hin. apply elem_of_app in Hin as [Hin|Hin]; [by eapply E1|]. apply E2 in Hin. by eapply lookup_weaken.
Qed.
Lemma shrinks_delete l k e r : l !! k = Some e -> shrinks l (delete k l) [(k, r, e)].
Proof.
  intros He. split_and!; [apply delete_subseteq| |].
  - intros k' e' Hk' Hn. destruct (decide (k' = k)) as [->|Hne]; [|by rewrite lookup_delete_ne in Hn by done; congruence]. exists r. assert (e' = e) as -> by congruence. by left.
  - intros k' r' e' Hin. apply list_elem_of_singleton in Hin. congruence.
Qed.

Lemma oldest_in l x : oldest order l = Some x -> l !! x.1 = Some x.2 /\ le_done x.2 = true.
Proof.
  unfold oldest. assert (H : forall xs best, (forall b, best = Some b -> l !! b.1 = Some b.2 /\ le_done b.2 = true) -> Forall (fun b => l !! b.1 = Some b.2 /\ le_done b.2 = true) xs ->
    forall b, foldl older best xs = Some b -> l !! b.1 = Some b.2 /\ le_done b.2 = true).
  { induction xs as [|y xs IH]; intros best Hb Hx b; [apply Hb|]. cbn [foldl]. apply Forall_cons in Hx as [Hy Hx]. apply IH; [|done]. intros b' Eb'. unfold older in Eb'.
    destruct best as [b0|]; [|by injection Eb' as <-]. case_decide; injection Eb' as <-; [done|by apply Hb]. }
  apply H; [done|]. apply Forall_forall. intros [k e] Hin. apply list_elem_of_filter in Hin as [Hd Hin]. rewrite order_perm in Hin. apply elem_of_map_to_list in Hin. done.
Qed.

Lemma overflow_shrinks fuel : forall l l' gone, drop_overflow order fuel l = (l', gone) -> shrinks l l' gone /\ Forall (fun x => le_done x.2 = true) gone.
Proof.
  induction fuel as [|fuel IH]; intros l l' gone; cbn [drop_overflow]; [intros [= <- <-]; split; [apply shrinks_refl|constructor]|].
  case_decide; [|intros [= <- <-]; split; [apply shrinks_refl|constructor]]. destruct (oldest order l) as [[key e]|] eqn:E; [|intros [= <- <-]; split; [apply shrinks_refl|constructor]].
  apply oldest_in in E as [He Hd]. destruct (drop_overflow order fuel (delete key l)) as [l1 g1] eqn:E1. intros [= <- <-]. destruct (IH _ _ _ E1) as [S1 D1]. split; [|by constructor].
  apply (shrinks_trans _ _ _ [_]  _ (shrinks_delete l key e Overflow He) S1).
Qed.

Lemma prune_shrinks now l l' gone : prune_locked order now l = (l', gone) -> shrinks l l' gone /\ Forall (fun x => le_done x.2 = true) gone.
Proof.
  unfold prune_locked. cbv zeta. destruct (drop_overflow _ _ _) as [l1 g1] eqn:E. intros [= <- <-]. destruct (overflow_shrinks _ _ _ _ E) as [S1 D1].
  assert (Hx : forall k e, (k, e) ∈ map_to_list (filter (fun x => expired now x.2 = true) l) <-> l !! k = Some e /\ expired now e = true).
  { intros k e. rewrite elem_of_map_to_list, map_lookup_filter_Some. done. }
  split.
  - eapply shrinks_trans; [|exact S1]. split_and!; [apply map_filter_subseteq| |].
    + intros k e Hk Hn. exists Expired. apply list_elem_of_fmap. exists (k, e). split; [done|]. apply Hx. split; [done|]. apply map_lookup_filter_None in Hn as [Hn|Hn]; [congruence|].
      specialize (Hn e Hk). cbn in Hn. by destruct (expired now e).
    + intros k r e Hin. apply list_elem_of_fmap in Hin as ([k' e'] & [= -> -> ->] & Hin). by apply Hx in Hin as [? _].
  - apply Forall_app. split; [|done]. apply Forall_fmap, Forall_forall. intros [k e] Hin. apply Hx in Hin as [_ Hex]. cbn. unfold expired in Hex. by destruct (le_done e).
Qed.
End Ledger.

(** ** What a section of a request can do *)

Section Machine.
Context `{FT : GoJson.FloatText} `{CM : CaseMapping} `{ST : SessionActor.SerdeText}.
Context (order : gmap string LedgerEntry -> list (string * LedgerEntry)) (order_perm : forall m, order m ≡ₚ map_to_list m).
Context (classify : string -> string -> Classification) (approval_fingerprint : Classification -> string) (parse_question : string -> string -> option Interaction).

Notation step := (step order classify approval_fingerprint parse_question).
Notation advance := (advance order classify approval_fingerprint parse_question).
Notation run := (run order classify approval_fingerprint parse_question).

Definition led (y : Sys) : gmap string LedgerEntry := ledger (y_inner y).
Definition sent (r : option StoredResult) (ws : list nat) (m : gmap nat (option StoredResult)) : gmap nat (option StoredResult) := foldl (fun m w => <[w := r]> m) m ws.
Definition waiters_of (gone : list Removal) : list nat := gone ≫= (fun x => le_waiters x.2).

(** The request [t] went from [p] to [p'] and did this to the rest. *)
Inductive shape (t : nat) (j : Job) (p p' : Phase) (y y' : Sys) : Prop :=
| sh_quiet : led y' = led y -> y_mail y' = y_mail y -> y_writes y' = y_writes y -> y_gone y' = y_gone y -> armed p' = armed p -> p' <> Attached -> shape t j p p' y y'
| sh_write w : led y' = led y -> y_mail y' = y_mail y -> y_writes y' = y_writes y ++ [w] -> y_gone y' = y_gone y -> wr_task w = t -> wr_job w = j -> armed p = true -> armed p' = true ->
    shape t j p p' y y'
| sh_finish r ws mine : finish (j_key j) (j_token j) r (led y) = (led y', ws, mine) -> y_mail y' = sent (Some r) ws (y_mail y) -> y_writes y' = y_writes y -> y_gone y' = y_gone y ->
    armed p = true -> armed p' = false -> p' <> Attached -> shape t j p p' y y'
| sh_accept r ws : mark_accepted (j_key j) (j_token j) r (led y) = (led y', ws) -> y_mail y' = sent (Some r) ws (y_mail y) -> y_writes y' = y_writes y -> y_gone y' = y_gone y ->
    armed p = true -> armed p' = true -> shape t j p p' y y'
| sh_abandon gone : drop_flight (j_key j) (led y) = (led y', gone) -> y_mail y' = sent None (waiters_of gone) (y_mail y) -> y_writes y' = y_writes y -> y_gone y' = y_gone y ++ gone ->
    armed p = true -> armed p' = false -> p' <> Attached -> shape t j p p' y y'
| sh_replay now gone found : p = Replaying -> replay order now t (j_key j) (j_hash j) (j_token j) (led y) = (led y', gone, found) -> y_mail y' = sent None (waiters_of gone) (y_mail y) ->
    y_writes y' = y_writes y -> y_gone y' = y_gone y ++ gone -> armed p' = false -> (p' = Attached <-> found = LAttach) -> shape t j p p' y y'
| sh_schedule now gone found : p = Scheduling -> schedule order now t (j_key j) (j_hash j) (j_token j) (led y) = (led y', gone, found) -> y_mail y' = sent None (waiters_of gone) (y_mail y) ->
    y_writes y' = y_writes y -> y_gone y' = y_gone y ++ gone -> (armed p' = true <-> found = Fresh) -> (p' = Attached <-> found = AAttach) -> shape t j p p' y y'.

Definition moves (t : nat) (y y' : Sys) : Prop :=
  exists j p p', y_tasks y !! t = Some (mkTask j p) /\ y_tasks y' = <[t := mkTask j p']> (y_tasks y) /\ shape t j p p' y y'.

Ltac quiet := eexists _, _, _; split; [eassumption|split; [reflexivity|]]; apply sh_quiet; first [reflexivity|discriminate].

Lemma fail_moves t j p o y y0 : y_tasks y !! t = Some (mkTask j p) -> armed p = true -> led y0 = led y -> y_mail y0 = y_mail y -> y_writes y0 = y_writes y -> y_gone y0 = y_gone y ->
  y_tasks y0 = y_tasks y -> moves t y (fail_effect t j o y0).
Proof.
  intros Ht Ha E1 E2 E3 E4 E5. unfold fail_effect, do_finish. destruct (finish _ _ _ _) as [[l ws] mine] eqn:E. eexists _, _, _. split; [exact Ht|]. cbn. rewrite E5. split; [reflexivity|].
  eapply (sh_finish _ _ _ _ _ _ _ ws mine); cbn; [|by rewrite E2|done|done|done|done|done]. unfold led in *. rewrite <- E1. exact E.
Qed.

Lemma abandon_fields j y : exists gone, drop_flight (j_key j) (led y) = (led (abandon j y), gone) /\ y_mail (abandon j y) = sent None (waiters_of gone) (y_mail y) /\
  y_writes (abandon j y) = y_writes y /\ y_gone (abandon j y) = y_gone y ++ gone /\ y_tasks (abandon j y) = y_tasks y.
Proof. unfold abandon, led. destruct (drop_flight _ _) as [l gone] eqn:E. exists gone. by split_and!. Qed.

Lemma abandon_moves t j p p' y y0 : y_tasks y !! t = Some (mkTask j p) -> armed p = true -> armed p' = false -> p' <> Attached ->
  led y0 = led (abandon j y) -> y_mail y0 = y_mail (abandon j y) -> y_writes y0 = y_writes y -> y_gone y0 = y_gone (abandon j y) -> y_tasks y0 = y_tasks y -> moves t y (go t j p' y0).
Proof.
  intros Ht Ha Ha' Hp E1 E2 E3 E4 E5. destruct (abandon_fields j y) as (gone & D & M & W & G & T). eexists _, _, _. split; [exact Ht|]. cbn. rewrite E5. split; [reflexivity|].
  eapply (sh_abandon _ _ _ _ _ _ gone); cbn; [by rewrite D; unfold led in *; cbn; rewrite E1|by rewrite E2|done|by rewrite E4|done..].
Qed.

Lemma replay_moves t j now y : y_tasks y !! t = Some (mkTask j Replaying) -> moves t y (do_replay order t j now y).
Proof.
  intros Ht. unfold do_replay. destruct (replay _ _ _ _ _ _ _) as [[l gone] found] eqn:E.
  destruct found; (eexists _, _, _; split; [exact Ht|]; split; [reflexivity|]); (eapply (sh_replay _ _ _ _ _ _ now gone); [reflexivity|exact E|reflexivity|reflexivity|reflexivity| |]); try (by destruct (j_ready j)); by destruct (j_ready j).
Qed.

Lemma schedule_moves t j now y : y_tasks y !! t = Some (mkTask j Scheduling) -> moves t y (do_schedule order t j now y).
Proof.
  intros Ht. unfold do_schedule. destruct (schedule _ _ _ _ _ _ _) as [[l gone] found] eqn:E.
  destruct found; (eexists _, _, _; split; [exact Ht|]; split; [reflexivity|]); (eapply (sh_schedule _ _ _ _ _ _ now gone); [reflexivity|exact E|reflexivity|reflexivity|reflexivity|done|done]).
Qed.

Lemma advance_moves t now answer y y' : advance t now answer y = Some y' -> moves t y y'.
Proof.
  unfold Questions.advance. destruct (y_tasks y !! t) as [[j p]|] eqn:Ht; [|done]. cbn [mbind option_bind t_job t_phase]. destruct p as [| | | |deadline|deadline| |deadline i todo d|deadline i todo d|sub|deadline sub|deadline sub name|o|fr|fr| |].
  - intros [= <-]. by apply replay_moves.
  - intros [= <-]. by apply schedule_moves.
  - destruct (y_mail y !! t) as [mail|]; [|done]. intros [= <-]. quiet.
  - destruct (y_locks y !! j_pane_id j); [done|]. intros [= <-]. quiet.
  - intros [= <-]. unfold do_check. destruct (still_current y j); [destruct (has_budget _ _); [quiet|]|]; by eapply fail_moves.
  - intros [= <-]. destruct answer as [text|e]; [|by eapply fail_moves]. destruct (j_payload j) as [a|q].
    + unfold do_read_approval. cbv zeta. destruct (negb (approval_valid _ _ _)); [by eapply fail_moves|]. destruct (negb (token_current _ _ _)); [by eapply fail_moves|].
      destruct (has_budget _ _); [|by eapply fail_moves]. eexists _, _, _. split; [exact Ht|]. split; [reflexivity|]. by eapply sh_write.
    + unfold do_read_question. cbv zeta. set (y0 := match parse_question text (j_agent j) with Some i => if qp_other_selected q then _ else y | None => y end).
      assert (Hy0 : led y0 = led y /\ y_mail y0 = y_mail y /\ y_writes y0 = y_writes y /\ y_gone y0 = y_gone y /\ y_tasks y0 = y_tasks y).
      { unfold y0. destruct (parse_question text (j_agent j)); [destruct (qp_other_selected q)|]; split_and!; try done. unfold led. cbn. unfold record_custom_answer. cbv zeta. repeat case_decide; done. }
      destruct Hy0 as (E1 & E2 & E3 & E4 & E5). destruct (parse_question text (j_agent j)) as [i|]; [|by eapply fail_moves].
      case_decide; [|by eapply fail_moves]. destruct (validate_question_payload i q); [by eapply fail_moves|]. destruct (negb (token_current _ _ _)); [by eapply fail_moves|].
      destruct (plan_input i q) as [steps|].
      * eexists _, _, _. split; [exact Ht|]. cbn. rewrite E5. split; [reflexivity|]. by apply sh_quiet.
      * eapply abandon_moves; [exact Ht|done|done|done|..]; unfold abandon; cbn; unfold led in *; rewrite ?E1; destruct (drop_flight _ _); cbn; by rewrite ?E2, ?E4.
  - intros [= <-]. destruct answer as [text|e]; [|by eapply fail_moves]. destruct (j_payload j); quiet.
  - intros [= <-]. unfold do_type. destruct todo as [|w todo]; [quiet|]. destruct (negb (token_current _ _ _)); [by eapply fail_moves|]. destruct (has_budget _ _); [|by eapply fail_moves].
    eexists _, _, _. split; [exact Ht|]. split; [reflexivity|]. by eapply sh_write.
  - intros [= <-]. destruct answer as [text|e]; [quiet|by eapply fail_moves].
  - intros [= <-]. unfold do_accept. destruct (mark_accepted _ _ _ _) as [l ws] eqn:E. eexists _, _, _. split; [exact Ht|]. split; [by destruct (j_payload j)|].
    eapply (sh_accept _ _ _ _ _ _ _ ws); [|by destruct (j_payload j)..]. unfold led. rewrite E. by destruct (j_payload j).
  - intros [= <-]. unfold do_watch. cbv zeta. case_decide.
    + by eapply abandon_moves; [exact Ht|done|done|done|..]; unfold abandon; destruct (drop_flight _ _).
    + destruct (j_payload j); [destruct (_ || _); quiet|]. destruct sub as [i|].
      * destruct (y_panes y !! j_pane_id j); quiet.
      * eexists _, _, _. split; [exact Ht|]. split; [by rewrite insert_id|]. by apply sh_quiet.
  - destruct (j_payload j) as [a|q]; [|destruct sub as [i|]; [|done]]; intros [= <-].
    + unfold do_watch_approval. cbv zeta. match goal with |- context [if ?b then _ else _] => destruct b end; [quiet|]. case_decide; quiet.
    + unfold do_watch_question. cbv zeta. destruct answer as [text|e]; [|case_decide; quiet]. case_decide; [case_decide; quiet|].
      destruct (observe parse_question j name text (y_inner y)) as [q' current] eqn:Eo.
      assert (Eq : ledger q' = led y).
      { unfold observe in Eo. destruct (parse_question text name); [|by injection Eo as <- _]. injection Eo as <- _. case_decide; [done|]. unfold record_custom_answer. cbv zeta. by repeat case_decide. }
      match goal with |- context [if ?b then _ else _] => destruct b end; [|case_decide; [case_decide|]]; (eexists _, _, _; split; [exact Ht|]; split; [reflexivity|]; by apply sh_quiet).
  - intros [= <-]. unfold do_settle, do_finish. destruct (finish _ _ _ _) as [[l ws] mine] eqn:E.
    destruct mine; [destruct (j_payload j); [|destruct (question_summary j)]|]; (eexists _, _, _; split; [exact Ht|]; split; [reflexivity|]; eapply (sh_finish _ _ _ _ _ _ _ ws); [exact E|done..]).
  - intros [= <-]. destruct (j_payload j); [|quiet]. eexists _, _, _. split; [exact Ht|]. split; [reflexivity|]. apply sh_quiet; try done. unfold led. cbn. unfold clear_pending_approval. by repeat case_match.
  - done.
  - done.
  - done.
Qed.

Lemma cancel_moves t y y' : cancel t y = Some y' -> moves t y y'.
Proof.
  unfold cancel. destruct (y_tasks y !! t) as [[j p]|] eqn:Ht; [|done]. cbn [mbind option_bind t_job t_phase]. intros H.
  assert (Hy : y' = go t j Dropped (let y0 := if armed p then abandon j y else y in if holding p then unlock (j_pane_id j) y0 else y0)) by (destruct p; first [discriminate H|injection H as <-; reflexivity]).
  clear H. subst y'. destruct (armed p) eqn:Ea.
  - eapply abandon_moves; [exact Ht|done|done|done|..]; destruct (holding p); try done; unfold abandon; by destruct (drop_flight _ _).
  - eexists _, _, _. split; [exact Ht|]. split; [by destruct (holding p)|]. apply sh_quiet; destruct (holding p); done.
Qed.

(** ** One request types an answer *)

(** An entry of [k] was removed on the way from [y] to [y']. *)
Definition removed_between (y y' : Sys) (k : string) : Prop := exists gone r e, y_gone y' = y_gone y ++ gone /\ (k, r, e) ∈ gone.

Lemma finish_dom key token r l l' ws mine k : finish key token r l = (l', ws, mine) -> is_Some (l !! k) -> is_Some (l' !! k).
Proof.
  unfold finish. destruct (l !! key) as [e|] eqn:E; [|by intros [= <- _ _]]. case_decide; [|by intros [= <- _ _]]. intros [= <- _ _] Hk.
  destruct (decide (k = key)) as [->|Hne]; [by rewrite lookup_insert_eq|by rewrite lookup_insert_ne].
Qed.
Lemma accept_dom key token r l l' ws k : mark_accepted key token r l = (l', ws) -> is_Some (l !! k) -> is_Some (l' !! k).
Proof.
  unfold mark_accepted. destruct (l !! key) as [e|] eqn:E; [|by intros [= <- _]]. case_decide; [|by intros [= <- _]]. intros [= <- _] Hk.
  destruct (decide (k = key)) as [->|Hne]; [by rewrite lookup_insert_eq|by rewrite lookup_insert_ne].
Qed.

(** What admission does to the ledger: it shrinks, and the own slot may change. *)
Lemma replay_spec now t key hash token l l' gone found : replay order now t key hash token l = (l', gone, found) ->
  exists l1, shrinks l l1 gone /\
    match found with
    | LAttach => exists e, l1 !! key = Some e /\ le_token e = token /\ le_hash e = hash /\ le_result e = None /\ l' = <[key := add_waiter t e]> l1
    | LReplay r => l' = l1 /\ exists e, l1 !! key = Some e /\ le_token e = token /\ le_hash e = hash /\ le_result e = Some r
    | _ => l' = l1
    end.
Proof.
  unfold replay. destruct (prune_locked order now l) as [l1 g1] eqn:E. destruct (prune_shrinks order order_perm now l l1 g1 E) as [S1 _]. destruct (l1 !! key) as [e|] eqn:Ek; [|intros [= <- <- <-]; by exists l1].
  case_decide as Ht; [intros [= <- <- <-]; exists (delete key l1); split; [|done]; eapply shrinks_trans; [exact S1|by apply shrinks_delete]|].
  case_decide as Hh; [intros [= <- <- <-]; by exists l1|]. assert (le_token e = token) by (by destruct (decide (le_token e = token))). assert (le_hash e = hash) by (by destruct (decide (le_hash e = hash))).
  destruct (le_result e) as [r|] eqn:Er; intros [= <- <- <-]; exists l1; (split; [done|]); [split; [done|]; by exists e|by exists e].
Qed.

Lemma schedule_spec now t key hash token l l' gone found : schedule order now t key hash token l = (l', gone, found) ->
  exists l1, shrinks l l1 gone /\
    match found with
    | AAttach => exists e, l1 !! key = Some e /\ le_token e = token /\ le_hash e = hash /\ le_result e = None /\ l' = <[key := add_waiter t e]> l1
    | AReplay r => l' = l1 /\ exists e, l1 !! key = Some e /\ le_token e = token /\ le_hash e = hash /\ le_result e = Some r
    | AConflict => l' = l1
    | Fresh => l1 !! key = None /\ l' = <[key := mkEntry hash None token [] false now]> l1
    end.
Proof.
  unfold schedule. destruct (prune_locked order now l) as [l1 g1] eqn:E. destruct (prune_shrinks order order_perm now l l1 g1 E) as [S1 _]. cbv zeta.
  destruct (l1 !! key) as [e|] eqn:Ek; [|intros [= <- <- <-]; by exists l1].
  case_decide as Ht; [intros [= <- <- <-]; exists (delete key l1); split; [eapply shrinks_trans; [exact S1|by apply shrinks_delete]|split; [apply lookup_delete_eq|done]]|].
  case_decide as Hh; [intros [= <- <- <-]; by exists l1|]. assert (le_token e = token) by (by destruct (decide (le_token e = token))). assert (le_hash e = hash) by (by destruct (decide (le_hash e = hash))).
  destruct (le_result e) as [r|] eqn:Er; intros [= <- <- <-]; exists l1; (split; [done|]); [split; [done|]; by exists e|by exists e].
Qed.

Lemma shrinks_kept y y' l1 gone k : shrinks (led y) l1 gone -> y_gone y' = y_gone y ++ gone -> is_Some (led y !! k) -> is_Some (l1 !! k) \/ removed_between y y' k.
Proof. intros (S1 & G & _) Eg [e He]. destruct (l1 !! k) as [e'|] eqn:E; [by left; exists e'|]. right. destruct (G k e He E) as [r Hr]. by exists gone, r, e. Qed.
Lemma drop_spec key l l' gone : drop_flight key l = (l', gone) -> shrinks l l' gone /\ l' !! key = None.
Proof.
  unfold drop_flight. destruct (l !! key) as [e|] eqn:E; intros [= <- <-]; [split; [by apply shrinks_delete|apply lookup_delete_eq]|split; [apply shrinks_refl|done]].
Qed.

(** Removed entries are logged. *)
Lemma shape_kept t j p p' y y' k : shape t j p p' y y' -> is_Some (led y !! k) -> is_Some (led y' !! k) \/ removed_between y y' k.
Proof.
  intros [El _ _ _ _ _|w El _ _ _ _ _ _ _|r ws mine El _ _ _ _ _ _|r ws El _ _ _ _ _|gone El _ _ Eg _ _ _|now gone found _ El _ _ Eg _ _|now gone found _ El _ _ Eg _ _] Hk.
  - left. by rewrite El.
  - left. by rewrite El.
  - left. by eapply finish_dom.
  - left. by eapply accept_dom.
  - destruct (drop_spec _ _ _ _ El) as [S1 _]. by eapply shrinks_kept.
  - destruct (replay_spec _ _ _ _ _ _ _ _ _ El) as (l1 & S1 & H). destruct (shrinks_kept y y' l1 gone k S1 Eg Hk) as [H1|?]; [|by right]. left.
    destruct found; [by rewrite H| |by destruct H as [-> _]|by rewrite H]. destruct H as (e & He & _ & _ & _ & ->). destruct (decide (k = j_key j)) as [->|Hne]; [by rewrite lookup_insert_eq|by rewrite lookup_insert_ne].
  - destruct (schedule_spec _ _ _ _ _ _ _ _ _ El) as (l1 & S1 & H). destruct (shrinks_kept y y' l1 gone k S1 Eg Hk) as [H1|?]; [|by right]. left.
    destruct found; [destruct H as [Hn ->]|destruct H as (e & He & _ & _ & _ & ->)|by destruct H as [-> _]|by rewrite H];
      (destruct (decide (k = j_key j)) as [->|Hne]; [by rewrite lookup_insert_eq|by rewrite lookup_insert_ne]).
Qed.

Lemma shape_gone t j p p' y y' : shape t j p p' y y' -> exists gone, y_gone y' = y_gone y ++ gone.
Proof.
  intros H. destruct H as [? ? ? Eg|? ? ? ? Eg|? ? ? ? ? ? Eg|? ? ? ? ? Eg|? ? ? ? Eg|? ? ? ? ? ? ? Eg|? ? ? ? ? ? ? Eg]; rewrite Eg; [exists []; by rewrite app_nil_r..|by eexists|by eexists|by eexists].
Qed.

(** A request that is at work on [k] or has typed for it. *)
Definition active (y : Sys) (k : string) (t : nat) : Prop :=
  (exists x, y_tasks y !! t = Some x /\ armed (t_phase x) = true /\ j_key (t_job x) = k) \/ (exists w, w ∈ y_writes y /\ wr_task w = t /\ j_key (wr_job w) = k).

(** A request is active after a section if it was before, or has just been
    admitted to a free slot. *)
Lemma shape_active t j p p' y y' k t' : y_tasks y !! t = Some (mkTask j p) -> y_tasks y' = <[t := mkTask j p']> (y_tasks y) -> shape t j p p' y y' -> active y' k t' ->
  active y k t' \/ t' = t /\ k = j_key j /\ is_Some (led y' !! k) /\ ~ active y k t /\ (led y !! k = None \/ removed_between y y' k).
Proof.
  intros Ht Et H [(x & Hx & Ha & Hk)|(w & Hw & Hwt & Hk)].
  - rewrite Et in Hx. apply lookup_insert_Some in Hx as [[<- <-]|[Hne Hx]]; [|left; left; by exists x]. cbn [t_phase t_job] in *.
    destruct (armed p) eqn:Eap; [left; left; by exists (mkTask j p)|]. destruct (decide (Exists (fun w => wr_task w = t /\ j_key (wr_job w) = k) (y_writes y))) as [Hw|Hw]; [left; right; apply Exists_exists in Hw as (w & ? & ? & ?); by exists w|].
    assert (Hna : ~ active y k t).
    { intros [(x & Hx & Hax & _)|(w & Hin & Hwt & Hwk)]; [rewrite Ht in Hx; injection Hx as <-; cbn in Hax; congruence|]. apply Hw, Exists_exists. by exists w. }
    right. destruct H as [? ? ? ? E|? ? ? ? ? ? ? E|? ? ? ? ? ? ? E|? ? ? ? ? ? E|? ? ? ? ? E|? ? ? ? ? ? ? ? E|now gone found _ El _ _ Eg Hfresh _]; try congruence.
    destruct (schedule_spec _ _ _ _ _ _ _ _ _ El) as (l1 & S1 & H). rewrite (proj1 Hfresh Ha) in H. destruct H as [Hn ->]. rewrite Hk in *. rewrite lookup_insert_eq. split_and!; [done..|].
    destruct (led y !! k) as [e|] eqn:Ee; [right|by left]. destruct S1 as (_ & G & _). destruct (G _ _ Ee Hn) as [r Hr]. by exists gone, r, e.
  - left. destruct H as [? ? Ew|w' ? ? Ew ? Hwt' Hj Hap _|? ? ? ? ? Ew|? ? ? ? Ew|? ? ? Ew|? ? ? ? ? ? Ew|? ? ? ? ? ? Ew]; rewrite Ew in Hw; try (right; by exists w).
    apply elem_of_app in Hw as [Hw|Hw]; [right; by exists w|]. apply list_elem_of_singleton in Hw as ->. left. exists (mkTask j p). rewrite <- Hwt, Hwt'. cbn. split_and!; [done|done|]. by rewrite <- Hk, Hj.
Qed.

(** *** Histories *)

(** What a step does to who is active on [k]: either nobody new is, or [k] was
    free, or its entry was removed in this step. *)
Lemma moves_active t y y' k t' : moves t y y' -> active y' k t' -> active y k t' \/ (~ active y k t' /\ is_Some (led y' !! k) /\ (led y !! k = None \/ removed_between y y' k)).
Proof. intros (j & p & p' & Ht & Et & H) Ha. destruct (shape_active _ _ _ _ _ _ _ _ Ht Et H Ha) as [?|(-> & _ & ? & ? & ?)]; [by left|right; done]. Qed.
Lemma moves_kept t y y' k : moves t y y' -> is_Some (led y !! k) -> is_Some (led y' !! k) \/ removed_between y y' k.
Proof. intros (j & p & p' & _ & _ & H). by eapply shape_kept. Qed.

(** The same for every event. *)
Definition evolves (y y' : Sys) : Prop :=
  (exists gone, y_gone y' = y_gone y ++ gone) /\
  (forall k t, active y' k t -> active y k t \/ (~ active y k t /\ is_Some (led y' !! k) /\ (led y !! k = None \/ removed_between y y' k))) /\
  (forall k, is_Some (led y !! k) -> is_Some (led y' !! k) \/ removed_between y y' k) /\
  (forall k t1 t2, active y' k t1 -> active y' k t2 -> ~ active y k t1 -> ~ active y k t2 -> t1 = t2).

Lemma moves_evolves t y y' : moves t y y' -> evolves y y'.
Proof.
  intros Hm. split_and!.
  - destruct Hm as (j & p & p' & _ & _ & H). by eapply shape_gone.
  - intros k t'. by eapply moves_active.
  - intros k. by eapply moves_kept.
  - intros k t1 t2 H1 H2 N1 N2. destruct Hm as (j & p & p' & Ht & Et & H).
    destruct (shape_active _ _ _ _ _ _ _ _ Ht Et H H1) as [?|(-> & _)]; [done|]. destruct (shape_active _ _ _ _ _ _ _ _ Ht Et H H2) as [?|(-> & _)]; done.
Qed.
Lemma step_evolves_log y ev y' : step y ev = Some y' -> evolves y y'.
Proof.
  assert (Hq : forall y1, y_gone y1 = y_gone y -> led y1 = led y -> (forall k t, active y1 k t -> active y k t) -> evolves y y1).
  { intros y1 Eg El Ha. split_and!; [exists []; by rewrite app_nil_r|intros k t H; left; by apply Ha|intros k; rewrite El; by left|]. intros k t1 t2 H1 _ N1. exfalso. by apply N1, Ha. }
  intros Hs. destruct ev as [panes|pane|pane event|t h rid aid m|t now answer|t]; cbn [Questions.step] in Hs.
  1-3: injection Hs as <-; by apply Hq.
  - case_decide as Hn; [|done]. destruct (admit_job y h rid aid m) as [j|fr]; injection Hs as <-; [|by apply Hq]. apply Hq; [done|done|].
    intros k t' [(x & Hx & Ha & Hk)|Hw]; [|by right]. cbn in Hx. apply lookup_insert_Some in Hx as [[<- <-]|[_ Hx]]; [done|left; by exists x].
  - eapply moves_evolves. by eapply advance_moves.
  - eapply moves_evolves. by eapply cancel_moves.
Qed.

Lemma removed_later y1 y2 y3 k : (exists gone, y_gone y3 = y_gone y2 ++ gone) -> removed_between y1 y2 k -> removed_between y1 y3 k.
Proof. intros [g Eg] (gone & r & e & E & Hin). exists (gone ++ g), r, e. rewrite Eg, E, app_assoc. split; [done|]. apply elem_of_app. by left. Qed.
Lemma removed_since y1 y2 y3 k : (exists gone, y_gone y2 = y_gone y1 ++ gone) -> removed_between y2 y3 k -> removed_between y1 y3 k.
Proof. intros [g Eg] (gone & r & e & E & Hin). exists (g ++ gone), r, e. rewrite E, Eg, app_assoc. split; [done|]. apply elem_of_app. by right. Qed.

(** After [n] events [a] was at work on [k] or had typed for it; the event after
    the first [m] admitted [b]; in between the entry of [k] was removed. *)
Definition handed_over (evs : list Event) (k : string) (a b : nat) : Prop :=
  exists n m y1 y2 y3, (n <= m < length evs)%nat /\ run start_sys (take n evs) = Some y1 /\ run start_sys (take m evs) = Some y2 /\ run start_sys (take (S m) evs) = Some y3 /\
    active y1 k a /\ ~ active y2 k b /\ active y3 k b /\ removed_between y1 y3 k.
(** [a] was at work on [k] when its entry was removed. *)
Definition outlived (evs : list Event) (y : Sys) (k : string) (a : nat) : Prop := exists n y1, (n <= length evs)%nat /\ run start_sys (take n evs) = Some y1 /\ active y1 k a /\ removed_between y1 y k.

Lemma run_snoc evs ev y y' : run y (evs ++ [ev]) = Some y' <-> exists y1, run y evs = Some y1 /\ step y1 ev = Some y'.
Proof.
  revert y. induction evs as [|e evs IH]; intros y; cbn [app Questions.run].
  - split; [intros H; destruct (step y ev) as [y1|] eqn:E; [|done]; injection H as <-; by exists y|intros (y1 & [= <-] & ->); done].
  - destruct (step y e) as [y1|]; [apply IH|]. split; [done|]. by intros (? & ? & _).
Qed.
Lemma take_before {A} n (l : list A) x : (n <= length l)%nat -> take n (l ++ [x]) = take n l.
Proof. intros H. by apply take_app_le. Qed.

Lemma history evs y : run start_sys evs = Some y ->
  (forall k a, active y k a -> is_Some (led y !! k) \/ outlived evs y k a) /\ (forall k a b, active y k a -> active y k b -> a <> b -> handed_over evs k a b \/ handed_over evs k b a).
Proof.
  revert y. induction evs as [|ev evs IH] using rev_ind; intros y Hr.
  { injection Hr as <-. assert (H : forall k t, ~ active start_sys k t); [|split; intros; by exfalso; eapply H].
    intros k t [(x & Hx & _)|(w & Hw & _)]; [cbn [start_sys y_tasks] in Hx; by rewrite lookup_empty in Hx|by apply not_elem_of_nil in Hw]. }
  pose proof Hr as Hrun. apply run_snoc in Hr as (y0 & Hr & Hs). destruct (IH y0 Hr) as [Ho Hh]. destruct (step_evolves_log _ _ _ Hs) as (Hg & Ha & Hk & Huni).
  assert (Hlen : length (evs ++ [ev]) = S (length evs)) by (rewrite length_app; cbn; lia).
  assert (Htake : forall n, (n <= length evs)%nat -> run start_sys (take n (evs ++ [ev])) = run start_sys (take n evs)) by (intros n Hn; by rewrite take_before).
  assert (Hnow : run start_sys (take (length evs) (evs ++ [ev])) = Some y0) by (rewrite Htake, take_ge by lia; done).
  assert (Hend : run start_sys (take (S (length evs)) (evs ++ [ev])) = Some y) by (rewrite take_ge by lia; done).
  assert (Hout : forall k a, outlived evs y0 k a -> outlived (evs ++ [ev]) y k a).
  { intros k a (n & y1 & Hn & H1 & H2 & H3). exists n, y1. rewrite Hlen, Htake by lia. split_and!; [lia|done|done|by eapply removed_later]. }
  assert (Hkeep : forall k a b, handed_over evs k a b -> handed_over (evs ++ [ev]) k a b).
  { intros k a b (n & m & y1 & y2 & y3 & Hn & H1 & H2 & H3 & H). exists n, m, y1, y2, y3. rewrite Hlen, !Htake by lia. split; [lia|]. done. }
  (* the new one of two *)
  assert (Hnew : forall k a b, active y0 k a -> active y k b -> ~ active y0 k b -> handed_over (evs ++ [ev]) k a b).
  { intros k a b Hka Hkb Hnb. destruct (Ha k b Hkb) as [?|(_ & _ & Hfree)]; [done|].
    assert (Hx : exists n y1, (n <= length evs)%nat /\ run start_sys (take n (evs ++ [ev])) = Some y1 /\ active y1 k a /\ removed_between y1 y k).
    { destruct Hfree as [Hnone|Hrem]; [|exists (length evs), y0; by split_and!]. destruct (Ho k a Hka) as [[e He]|(n & y1 & Hn & H1 & H2 & H3)]; [congruence|].
      exists n, y1. rewrite Htake by done. split_and!; [done..|by eapply removed_later]. }
    destruct Hx as (n & y1 & Hn & H1 & H2 & H3). exists n, (length evs), y1, y0, y. rewrite Hlen. split_and!; [lia|lia|done..]. }
  split.
  - intros k a Hka. destruct (Ha k a Hka) as [H0|(_ & ? & _)]; [|by left]. destruct (Ho k a H0) as [Hled|Hol]; [|right; by apply Hout]. destruct (Hk k Hled) as [?|Hrem]; [by left|right].
    exists (length evs), y0. rewrite Hlen. split_and!; [lia|done..].
  - intros k a b Hka Hkb Hne. destruct (Ha k a Hka) as [H0|(N0 & _)], (Ha k b Hkb) as [H1|(N1 & _)].
    + destruct (Hh k a b H0 H1 Hne) as [?|?]; [left|right]; by apply Hkeep.
    + left. by apply Hnew.
    + right. by apply Hnew.
    + exfalso. by apply Hne, (Huni k).
Qed.


(** ** Nobody waits for nothing *)

Record served (y : Sys) : Prop := {
  sv_owner k e : led y !! k = Some e -> le_result e = None -> exists t x, y_tasks y !! t = Some x /\ armed (t_phase x) = true /\ j_key (t_job x) = k /\ j_token (t_job x) = le_token e;
  sv_open k e : led y !! k = Some e -> le_waiters e <> [] -> le_result e = None;
  sv_waits t x : y_tasks y !! t = Some x -> t_phase x = Attached ->
    is_Some (y_mail y !! t) \/ exists e, led y !! j_key (t_job x) = Some e /\ t ∈ le_waiters e /\ le_hash e = j_hash (t_job x) /\ le_token e = j_token (t_job x);
}.

Lemma sent_keeps r ws m t : is_Some (m !! t) -> is_Some (sent r ws m !! t).
Proof.
  revert m. induction ws as [|w ws IH]; intros m Hm; [done|]. cbn [sent foldl]. apply IH. destruct (decide (w = t)) as [->|Hne]; [by rewrite lookup_insert_eq|by rewrite lookup_insert_ne].
Qed.
Lemma sent_to r ws m t : t ∈ ws -> is_Some (sent r ws m !! t).
Proof.
  revert m. induction ws as [|w ws IH]; intros m Hin; [by apply not_elem_of_nil in Hin|]. cbn [sent foldl]. apply elem_of_cons in Hin as [->|Hin]; [|by apply IH]. apply sent_keeps. by rewrite lookup_insert_eq.
Qed.

(** The entries a section leaves: old ones as they were, answered ones without
    waiters, the own slot with one waiter more or fresh. *)
Definition entry_from (t : nat) (j : Job) (p p' : Phase) (y : Sys) (k : string) (e : LedgerEntry) : Prop :=
  (led y !! k = Some e /\ (armed p = true -> armed p' = false -> le_result e = None -> k = j_key j -> le_token e <> j_token j)) \/
  (is_Some (le_result e) /\ le_waiters e = []) \/
  (k = j_key j /\ armed p = false /\ exists e0, led y !! k = Some e0 /\ e = add_waiter t e0 /\ le_result e0 = None) \/
  (k = j_key j /\ armed p' = true /\ le_token e = j_token j /\ le_waiters e = []).

Lemma shape_entries t j p p' y y' k e : shape t j p p' y y' -> led y' !! k = Some e -> entry_from t j p p' y k e.
Proof.
  intros H He.
  destruct H as [El _ _ _ Ea _|w El _ _ _ _ _ _ Ea|r ws mine El _ _ _ Ea _ _|r ws El _ _ _ _ Ea|gone El _ _ _ _ _ _|now gone found -> El _ _ _ _ _|now gone found -> El _ _ _ Hf _].
  - left. rewrite El in He. split; [done|]. congruence.
  - left. rewrite El in He. split; [done|]. congruence.
  - unfold finish in El. destruct (led y !! j_key j) as [e0|] eqn:E0; [|injection El as El _ _; rewrite <- El in He; left; split; [done|]; intros _ _ _ ->; congruence].
    case_decide as Hd; injection El as El _ _; rewrite <- El in He.
    + apply lookup_insert_Some in He as [[<- <-]|[Hne He]]; [right; left; split; [by eexists|done]|left; split; [done|]; by intros _ _ _ ->].
    + left. split; [done|]. intros _ _ _ ->. congruence.
  - unfold mark_accepted in El. destruct (led y !! j_key j) as [e0|] eqn:E0; [|injection El as El _; rewrite <- El in He; left; split; [done|congruence]].
    case_decide as Hd; injection El as El _; rewrite <- El in He; [|left; split; [done|congruence]].
    apply lookup_insert_Some in He as [[<- <-]|[Hne He]]; [right; left; split; [by eexists|done]|left; split; [done|congruence]].
  - destruct (drop_spec _ _ _ _ El) as [(Hs & _) Hn]. left. split; [by eapply lookup_weaken|]. intros _ _ _ ->. congruence.
  - destruct (replay_spec _ _ _ _ _ _ _ _ _ El) as (l1 & (Hs & _) & H). assert (Hold : forall e, l1 !! k = Some e -> entry_from t j Replaying p' y k e) by (intros e1 H1; left; split; [by eapply lookup_weaken|done]).
    destruct found; [by rewrite H in He; apply Hold| |by destruct H as [E' _]; rewrite E' in He; apply Hold|by rewrite H in He; apply Hold]. destruct H as (e0 & H0 & _ & _ & Hr & E'). rewrite E' in He.
    apply lookup_insert_Some in He as [[<- <-]|[Hne He]]; [right; right; left; split_and!; [done..|]; exists e0; split_and!; [by eapply lookup_weaken|done..]|by apply Hold].
  - destruct (schedule_spec _ _ _ _ _ _ _ _ _ El) as (l1 & (Hs & _) & H). assert (Hold : forall e, l1 !! k = Some e -> entry_from t j Scheduling p' y k e) by (intros e1 H1; left; split; [by eapply lookup_weaken|done]).
    destruct found; [| |by destruct H as [E' _]; rewrite E' in He; apply Hold|by rewrite H in He; apply Hold].
    + destruct H as [_ E']. rewrite E' in He. apply lookup_insert_Some in He as [[<- <-]|[Hne He]]; [right; right; right; split_and!; [done| |done|done]; by apply Hf|by apply Hold].
    + destruct H as (e0 & H0 & _ & _ & Hr & E'). rewrite E' in He.
      apply lookup_insert_Some in He as [[<- <-]|[Hne He]]; [right; right; left; split_and!; [done..|]; exists e0; split_and!; [by eapply lookup_weaken|done..]|by apply Hold].
Qed.

(** A waiter of an entry stays one, or is written to. *)
Lemma shape_waiters t j p p' y y' k e t' : shape t j p p' y y' -> led y !! k = Some e -> t' ∈ le_waiters e ->
  is_Some (y_mail y' !! t') \/ exists e', led y' !! k = Some e' /\ t' ∈ le_waiters e' /\ le_hash e' = le_hash e /\ le_token e' = le_token e.
Proof.
  intros H He Hin.
  assert (Hsame : led y' !! k = Some e -> exists e', led y' !! k = Some e' /\ t' ∈ le_waiters e' /\ le_hash e' = le_hash e /\ le_token e' = le_token e) by (intros; by exists e).
  assert (Hshrink : forall l1 gone, shrinks (led y) l1 gone -> y_mail y' = sent None (waiters_of gone) (y_mail y) -> is_Some (y_mail y' !! t') \/ l1 !! k = Some e).
  { intros l1 gone (Hs & G & _) Em. destruct (l1 !! k) as [e1|] eqn:E1; [right; pose proof (lookup_weaken _ _ _ _ E1 Hs); congruence|]. left. rewrite Em. apply sent_to. destruct (G k e He E1) as [r Hr].
    unfold waiters_of. apply list_elem_of_bind. by exists (k, r, e). }
  assert (Hadd : forall l1 e0, l1 !! k = Some e -> l1 !! j_key j = Some e0 -> led y' = <[j_key j := add_waiter t e0]> l1 ->
    exists e', led y' !! k = Some e' /\ t' ∈ le_waiters e' /\ le_hash e' = le_hash e /\ le_token e' = le_token e).
  { intros l1 e0 H1 H0 ->. destruct (decide (k = j_key j)) as [->|Hne]; [|rewrite lookup_insert_ne by done; by exists e]. rewrite lookup_insert_eq. assert (e0 = e) as -> by congruence.
    eexists. split_and!; [done| |done|done]. cbn. apply elem_of_app. by left. }
  destruct H as [El _ _ _ _ _|w El _ _ _ _ _ _ _|r ws mine El Em _ _ _ _ _|r ws El Em _ _ _ _|gone El Em _ _ _ _ _|now gone found -> El Em _ _ _ _|now gone found -> El Em _ _ _ _].
  - right. apply Hsame. by rewrite El.
  - right. apply Hsame. by rewrite El.
  - unfold finish in El. destruct (decide (k = j_key j)) as [->|Hne].
    + rewrite He in El. case_decide; injection El as El <- _; [left; rewrite Em; by apply sent_to|right; apply Hsame; by rewrite <- El].
    + right. apply Hsame. destruct (led y !! j_key j); [case_decide|]; injection El as El _ _; rewrite <- El; [by rewrite lookup_insert_ne|done|done].
  - unfold mark_accepted in El. destruct (decide (k = j_key j)) as [->|Hne].
    + rewrite He in El. case_decide; injection El as El <-; [left; rewrite Em; by apply sent_to|right; apply Hsame; by rewrite <- El].
    + right. apply Hsame. destruct (led y !! j_key j); [case_decide|]; injection El as El _; rewrite <- El; [by rewrite lookup_insert_ne|done|done].
  - destruct (drop_spec _ _ _ _ El) as [S1 _]. destruct (Hshrink _ _ S1 Em) as [?|H1]; [by left|right; by apply Hsame].
  - destruct (replay_spec _ _ _ _ _ _ _ _ _ El) as (l1 & S1 & H). destruct (Hshrink _ _ S1 Em) as [?|H1]; [by left|right].
    destruct found; [by apply Hsame; rewrite H| |by apply Hsame; destruct H as [-> _]|by apply Hsame; rewrite H]. destruct H as (e0 & H0 & _ & _ & _ & E'). by eapply Hadd.
  - destruct (schedule_spec _ _ _ _ _ _ _ _ _ El) as (l1 & S1 & H). destruct (Hshrink _ _ S1 Em) as [?|H1]; [by left|right].
    destruct found; [|destruct H as (e0 & H0 & _ & _ & _ & E'); by eapply Hadd|by apply Hsame; destruct H as [-> _]|by apply Hsame; rewrite H].
    destruct H as [Hn E']. apply Hsame. rewrite E', lookup_insert_ne; [done|]. intros <-. congruence.
Qed.

Lemma shape_mail t j p p' y y' t' : shape t j p p' y y' -> is_Some (y_mail y !! t') -> is_Some (y_mail y' !! t').
Proof.
  intros H Hm. destruct H as [_ Em|w _ Em|r ws mine _ Em|r ws _ Em|gone _ Em|now gone found _ _ Em|now gone found _ _ Em]; rewrite Em; [done|done|by apply sent_keeps..].
Qed.

(** A request that has just attached is among the waiters of its slot. *)
Lemma shape_attaches t j p y y' : p <> Attached -> shape t j p Attached y y' -> exists e, led y' !! j_key j = Some e /\ t ∈ le_waiters e /\ le_hash e = j_hash j /\ le_token e = j_token j.
Proof.
  intros Hp H. assert (Hadd : forall l1 e0, led y' = <[j_key j := add_waiter t e0]> l1 -> le_hash e0 = j_hash j -> le_token e0 = j_token j ->
    exists e, led y' !! j_key j = Some e /\ t ∈ le_waiters e /\ le_hash e = j_hash j /\ le_token e = j_token j).
  { intros l1 e0 -> Hh Htk. rewrite lookup_insert_eq. eexists. split_and!; [done| |done|done]. cbn. apply elem_of_app. right. by left. }
  destruct H as [_ _ _ _ _ ?|? _ _ _ _ _ _ _ ?|? ? ? _ _ _ _ _ _ ?|? ? _ _ _ _ _ ?|? _ _ _ _ _ _ ?|now gone found _ El _ _ _ _ Hf|now gone found _ El _ _ _ _ Hf]; try done.
  - destruct (replay_spec _ _ _ _ _ _ _ _ _ El) as (l1 & _ & H). rewrite (proj1 Hf eq_refl) in H. destruct H as (e0 & _ & Htk & Hh & _ & E'). by eapply Hadd.
  - destruct (schedule_spec _ _ _ _ _ _ _ _ _ El) as (l1 & _ & H). rewrite (proj1 Hf eq_refl) in H. destruct H as (e0 & _ & Htk & Hh & _ & E'). by eapply Hadd.
Qed.

Lemma moves_served t y y' : moves t y y' -> served y -> served y'.
Proof.
  intros (j & p & p' & Ht & Et & H) [Ho Hw Ha].
  assert (Hother : forall k e, led y !! k = Some e -> le_result e = None -> (armed p = true -> armed p' = false -> k = j_key j -> le_token e <> j_token j) ->
    exists t0 x, y_tasks y' !! t0 = Some x /\ armed (t_phase x) = true /\ j_key (t_job x) = k /\ j_token (t_job x) = le_token e).
  { intros k e He Hr Hmine. destruct (Ho k e He Hr) as (t0 & x & Hx & Hax & Hk & Htk). destruct (decide (t0 = t)) as [->|Hne]; [|exists t0, x; by rewrite Et, lookup_insert_ne].
    assert (x = mkTask j p) as -> by congruence. cbn in *. exists t, (mkTask j p'). rewrite Et, lookup_insert_eq. cbn. split_and!; [done| |done|done].
    destruct (armed p') eqn:E; [done|]. exfalso. by apply Hmine. }
  split.
  - intros k e He Hr. destruct (shape_entries _ _ _ _ _ _ _ _ H He) as [[He0 Hm]|[[[r Er] _]|[(-> & Hap & e0 & He0 & -> & Hr0)|(-> & Hap & Htk & _)]]].
    + apply Hother; [done..|]. intros. by apply Hm.
    + congruence.
    + apply (Hother _ e0 He0 Hr0). congruence.
    + exists t, (mkTask j p'). rewrite Et, lookup_insert_eq. by split_and!.
  - intros k e He Hne. destruct (shape_entries _ _ _ _ _ _ _ _ H He) as [[He0 _]|[[_ Hn]|[(_ & _ & e0 & _ & -> & Hr0)|(_ & _ & _ & Hn)]]]; [by eapply Hw|done|done|done].
  - intros t' x Hx Hp. rewrite Et in Hx. apply lookup_insert_Some in Hx as [[<- <-]|[Hne Hx]].
    + cbn in Hp. subst p'. right. cbn. eapply shape_attaches; [|exact H]. intros ->.
      destruct H as [_ _ _ _ _ ?|? _ _ _ _ _ _ ? _|? ? ? _ _ _ _ ? _ _|? ? _ _ _ _ ? _|? _ _ _ _ ? _ _|? ? ? ? _ _ _ _ _ _|? ? ? ? _ _ _ _ _ _]; done.
    + destruct (Ha t' x Hx Hp) as [Hm|(e & He & Hin & Hh & Htk)]; [left; by eapply shape_mail|].
      destruct (shape_waiters _ _ _ _ _ _ _ _ _ H He Hin) as [?|(e' & He' & Hin' & Hh' & Htk')]; [by left|right; exists e']. split_and!; [done|done|congruence|congruence].
Qed.

Lemma step_served y ev y' : step y ev = Some y' -> served y -> served y'.
Proof.
  intros Hs Hy. destruct ev as [panes|pane|pane event|t h rid aid m|t now answer|t]; cbn [Questions.step] in Hs.
  - injection Hs as <-. destruct Hy as [Ho Hw Ha]. split; [exact Ho|exact Hw|exact Ha].
  - injection Hs as <-. destruct Hy as [Ho Hw Ha]. split; [exact Ho|exact Hw|exact Ha].
  - injection Hs as <-. destruct Hy as [Ho Hw Ha]. split; [exact Ho|exact Hw|exact Ha].
  - case_decide as Hn; [|done]. destruct (admit_job y h rid aid m) as [j|fr]; injection Hs as <-; [|done]. destruct Hy as [Ho Hw Ha]. split; [|exact Hw|].
    + intros k e He Hr. destruct (Ho k e He Hr) as (t0 & x & Hx & H). exists t0, x. split; [|done]. cbn. rewrite lookup_insert_ne; [done|]. intros ->. congruence.
    + intros t' x Hx Hp. cbn in Hx. apply lookup_insert_Some in Hx as [[<- <-]|[Hne Hx]]; [done|]. by apply Ha.
  - eapply moves_served; [by eapply advance_moves|done].
  - eapply moves_served; [by eapply cancel_moves|done].
Qed.

Lemma run_served evs y y' : run y evs = Some y' -> served y -> served y'.
Proof.
  revert y. induction evs as [|ev evs IH]; intros y Hr Hy; [by injection Hr as <-|]. cbn [Questions.run] in Hr. destruct (step y ev) as [y1|] eqn:E; [|done].
  eapply IH; [exact Hr|]. by eapply step_served.
Qed.
Lemma start_served : served start_sys.
Proof. split; [intros k e He|intros k e He|intros t x Hx]; [cbn in He; by rewrite lookup_empty in He..|cbn in Hx; by rewrite lookup_empty in Hx]. Qed.

(** A request that ends while it holds a flight answers whoever waits for it. *)
Lemma shape_ends t j p p' y y' e w : shape t j p p' y y' -> armed p = true -> armed p' = false -> led y !! j_key j = Some e -> le_token e = j_token j -> w ∈ le_waiters e -> is_Some (y_mail y' !! w).
Proof.
  intros H Ha Ha' He Htk Hin.
  destruct H as [_ _ _ _ Ea _|? _ _ _ _ _ _ _ Ea|r ws mine El Em _ _ _ _ _|? ? _ _ _ _ _ Ea|gone El Em _ _ _ _ _|? ? ? -> _ _ _ _ _ _|? ? ? -> _ _ _ _ _ _]; try congruence; try done.
  - unfold finish in El. rewrite He in El. rewrite decide_True in El by done. injection El as _ <- _. rewrite Em. by apply sent_to.
  - unfold drop_flight in El. rewrite He in El. injection El as _ <-. rewrite Em. apply sent_to. unfold waiters_of. apply list_elem_of_bind. exists (j_key j, Abandoned, e). split; [done|by left].
Qed.

Lemma ends_answer y ev y' t x t2 x2 x2' e now answer :
  step y ev = Some y' -> y_tasks y !! t = Some x -> t_phase x = Attached -> y_tasks y !! t2 = Some x2 -> armed (t_phase x2) = true ->
  led y !! j_key (t_job x2) = Some e -> le_token e = j_token (t_job x2) -> t ∈ le_waiters e ->
  y_tasks y' !! t2 = Some x2' -> armed (t_phase x2') = false -> is_Some (advance t now answer y').
Proof.
  intros Hs Hx Hp Hx2 Ha2 He Htk Hin Hx2' Ha2'.
  assert (Hm : exists t0, moves t0 y y').
  { destruct ev as [panes|pane|pane event|t0 h rid aid m|t0 now0 answer0|t0]; cbn [Questions.step] in Hs.
    1-3: injection Hs as <-; cbn in Hx2'; congruence.
    - exfalso. case_decide as Hn; [|done]. destruct (admit_job y h rid aid m) as [j|fr]; injection Hs as <-; [|congruence]. cbn in Hx2'. rewrite lookup_insert_ne in Hx2' by (intros ->; congruence). congruence.
    - exists t0. by eapply advance_moves.
    - exists t0. by eapply cancel_moves. }
  destruct Hm as (t0 & j & p & p' & Ht0 & Et & H). rewrite Et in Hx2'. apply lookup_insert_Some in Hx2' as [[-> <-]|[_ Hx2']]; [|congruence]. assert (x2 = mkTask j p) as -> by congruence.
  cbn in *. destruct (shape_ends _ _ _ _ _ _ _ _ H Ha2 Ha2' He Htk Hin) as [mail Hmail].
  unfold Questions.advance. rewrite Et, lookup_insert_ne by (intros ->; assert (x = mkTask j p) as -> by congruence; cbn in Hp; by subst p). rewrite Hx. cbn [mbind option_bind]. rewrite Hp, Hmail. by eexists.
Qed.

(** [t2] is at work on the flight [t] waits for, and whatever ends that work
    answers [t]. *)
Definition serves (y : Sys) (t : nat) (x : Task) (t2 : nat) : Prop := exists x2 e,
  y_tasks y !! t2 = Some x2 /\ armed (t_phase x2) = true /\ j_key (t_job x2) = j_key (t_job x) /\ j_token (t_job x2) = j_token (t_job x) /\
  led y !! j_key (t_job x) = Some e /\ t ∈ le_waiters e /\ le_token e = j_token (t_job x) /\ le_hash e = j_hash (t_job x) /\ le_result e = None /\
  forall ev y' x2' now answer, step y ev = Some y' -> y_tasks y' !! t2 = Some x2' -> armed (t_phase x2') = false -> is_Some (advance t now answer y').

(** C18 — A duplicate never waits for nothing: in every reachable state a request
    that attached to another one can go on at once (the result or the news that
    the other one is gone has arrived), or it is among the waiters of the
    unanswered entry of its key, for its pane session and its payload, a request
    of that key and pane session is still at work on it, and whichever event
    ends that work, success, failure, panic or cancellation, leaves the waiting
    request able to go on. *)
Theorem attached_request_resolves (evs : list Event) (y : Sys) (t : nat) (x : Task) (now : Z) (answer : result HerdrError string) :
  run start_sys evs = Some y -> y_tasks y !! t = Some x -> t_phase x = Attached ->
  is_Some (advance t now answer y) \/ exists t2, serves y t x t2.
Proof.
  intros Hr Hx Hp. pose proof (run_served evs _ _ Hr start_served) as [Ho Hw Ha]. destruct (Ha t x Hx Hp) as [[mail Hm]|(e & He & Hin & Hh & Htk)].
  - left. unfold Questions.advance. rewrite Hx. cbn [mbind option_bind]. rewrite Hp, Hm. by eexists.
  - right. assert (Hres : le_result e = None) by (eapply Hw; [exact He|]; intros Hn; rewrite Hn in Hin; by apply not_elem_of_nil in Hin).
    destruct (Ho _ e He Hres) as (t2 & x2 & Hx2 & Ha2 & Hk2 & Htk2). exists t2, x2, e. split_and!; [done|done|done|congruence|done..|].
    intros ev y' x2' now' answer' Hs Hx2' Ha2'. eapply (ends_answer y ev y' t x t2 x2 x2' e); [done..|by rewrite Hk2|congruence|done|done|done].
Qed.

(** ** What is typed, and by whom at a time *)

(** A write answers what the screen shows, on the pane the request was for. *)
Definition write_ok (w : Written) : Prop :=
  let j := wr_job w in
  pane_token (wr_panes w) (j_pane_id j) = Some (j_token j) /\
  match j_payload j, wr_seen w with
  | PApproval a, SawApproval c => approval_valid approval_fingerprint a c = true /\ wr_what w = WKeys (approval_keys (ap_index a) (cl_approval_focus c))
  | PQuestion q, SawQuestion i =>
      i_id i = qp_interaction_id q /\ validate_question_payload i q = None /\ exists steps, plan_input i q = Some steps /\ wr_what w ∈ steps ≫= step_writes
  | _, _ => False
  end.

Definition phase_ok (j : Job) (p : Phase) : Prop :=
  match p with
  | Typing _ i todo _ | Writing _ i todo _ =>
      exists q steps before, j_payload j = PQuestion q /\ i_id i = qp_interaction_id q /\ validate_question_payload i q = None /\ plan_input i q = Some steps /\ steps ≫= step_writes = before ++ todo
  | _ => True
  end.

(** Phases before the lock of the pane. *)
Definition early (p : Phase) : bool := match p with Replaying | Scheduling | Attached | Locking => true | _ => false end.

Inductive turn (t : nat) (j : Job) (p p' : Phase) (y y' : Sys) : Prop :=
| tn_none : y_locks y' = y_locks y -> y_writes y' = y_writes y -> holding p' = holding p -> (early p' = true -> early p = true) -> turn t j p p' y y'
| tn_acquire : p = Locking -> y_locks y !! j_pane_id j = None -> y_locks y' = <[j_pane_id j := t]> (y_locks y) -> y_writes y' = y_writes y -> early p' = false -> turn t j p p' y y'
| tn_release : holding p = true -> holding p' = false -> early p' = false -> y_locks y' = delete (j_pane_id j) (y_locks y) -> y_writes y' = y_writes y -> turn t j p p' y y'
| tn_write w : holding p = true -> holding p' = true -> early p' = false -> y_locks y' = y_locks y -> y_writes y' = y_writes y ++ [w] -> wr_task w = t -> wr_job w = j -> write_ok w -> turn t j p p' y y'.

Definition turns (t : nat) (y y' : Sys) : Prop :=
  exists j p p', y_tasks y !! t = Some (mkTask j p) /\ y_tasks y' = <[t := mkTask j p']> (y_tasks y) /\ (phase_ok j p -> phase_ok j p' /\ turn t j p p' y y').

Ltac no_turn := eexists _, _, _; split; [eassumption|split; [reflexivity|]]; intros Hok; split; [exact Logic.I|]; apply tn_none; first [reflexivity|discriminate].

Lemma fail_turns t j p o y y0 : y_tasks y !! t = Some (mkTask j p) -> holding p = true -> y_locks y0 = y_locks y -> y_writes y0 = y_writes y -> y_tasks y0 = y_tasks y -> turns t y (fail_effect t j o y0).
Proof.
  intros Ht Hh E1 E2 E3. unfold fail_effect, do_finish. destruct (finish _ _ _ _) as [[l ws] mine]. eexists _, _, _. split; [exact Ht|]. cbn. rewrite E3. split; [reflexivity|]. intros _. split; [done|].
  apply tn_release; cbn; [done|done|done|by rewrite E1|done].
Qed.

Lemma token_current_spec panes pane token : token_current panes pane token = true -> pane_token panes pane = Some token.
Proof. unfold token_current. apply bool_decide_eq_true. Qed.

Lemma reading_turns t j deadline now answer y y' : y_tasks y !! t = Some (mkTask j (Reading deadline)) -> advance t now answer y = Some y' -> turns t y y'.
Proof.
  intros Ht. unfold Questions.advance. rewrite Ht. cbn [mbind option_bind t_job t_phase]. intros [= <-]. destruct answer as [text|e]; [|by eapply fail_turns]. destruct (j_payload j) as [a|q] eqn:Ep.
  - unfold do_read_approval. cbv zeta. destruct (approval_valid _ _ _) eqn:Ev; [|by eapply fail_turns]. destruct (token_current _ _ _) eqn:Etk; [|by eapply fail_turns]. cbn [negb].
    destruct (has_budget _ _); [|by eapply fail_turns]. eexists _, _, _. split; [exact Ht|]. split; [reflexivity|]. intros _. split; [done|]. eapply tn_write; try reflexivity.
    split; [by apply token_current_spec|]. cbn. rewrite Ep. done.
  - unfold do_read_question. cbv zeta. set (y0 := match parse_question text (j_agent j) with Some i => if qp_other_selected q then _ else y | None => y end).
    assert (Hy0 : y_locks y0 = y_locks y /\ y_writes y0 = y_writes y /\ y_tasks y0 = y_tasks y) by (unfold y0; destruct (parse_question text (j_agent j)); [destruct (qp_other_selected q)|]; done).
    destruct Hy0 as (E1 & E2 & E3). destruct (parse_question text (j_agent j)) as [i|]; [|by eapply fail_turns]. case_decide as Hid; [|by eapply fail_turns].
    destruct (validate_question_payload i q) eqn:Ev; [by eapply fail_turns|]. destruct (negb (token_current _ _ _)); [by eapply fail_turns|]. destruct (plan_input i q) as [steps|] eqn:Epl.
    + eexists _, _, _. split; [exact Ht|]. cbn. rewrite E3. split; [reflexivity|]. intros _. split; [exists q, steps, []; by split_and!|]. by apply tn_none.
    + eexists _, _, _. split; [exact Ht|]. unfold abandon. destruct (drop_flight _ _) as [l gone]. cbn. rewrite E3. split; [reflexivity|]. intros _. split; [done|]. apply tn_release; cbn; [done|done|done|by rewrite E1|done].
Qed.

Lemma typing_turns t j deadline i todo d now answer y y' : y_tasks y !! t = Some (mkTask j (Typing deadline i todo d)) -> advance t now answer y = Some y' -> turns t y y'.
Proof.
  intros Ht. unfold Questions.advance. rewrite Ht. cbn [mbind option_bind t_job t_phase]. intros [= <-]. unfold do_type. destruct todo as [|w todo]; [no_turn|].
  destruct (token_current _ _ _) eqn:Etk; [|by eapply fail_turns]. cbn [negb]. destruct (has_budget _ _); [|by eapply fail_turns]. eexists _, _, _. split; [exact Ht|]. split; [reflexivity|].
  intros (q & steps & before & Ep & Hid & Hv & Hpl & Htodo). split; [exists q, steps, (before ++ [w]); split_and!; try done; by rewrite <- app_assoc|]. eapply tn_write; try reflexivity.
  split; [by apply token_current_spec|]. cbn. rewrite Ep. split_and!; [done..|]. exists steps. split; [done|]. rewrite Htodo. apply elem_of_app. right. by left.
Qed.

Lemma advance_turns t now answer y y' : advance t now answer y = Some y' -> turns t y y'.
Proof.
  intros H. destruct (y_tasks y !! t) as [[j p]|] eqn:Ht; [|unfold Questions.advance in H; by rewrite Ht in H].
  destruct p as [| | | |deadline|deadline| |deadline i todo d|deadline i todo d|sub|deadline sub|deadline sub name|o|fr|fr| |];
    [..|by eapply reading_turns| |by eapply typing_turns| | | | | | | | |]; unfold Questions.advance in H; rewrite Ht in H; cbn [mbind option_bind t_job t_phase] in H.
  - injection H as <-. unfold do_replay. destruct (replay _ _ _ _ _ _ _) as [[l gone] found]. destruct found; [destruct (j_ready j)|..]; no_turn.
  - injection H as <-. unfold do_schedule. destruct (schedule _ _ _ _ _ _ _) as [[l gone] found]. destruct found; no_turn.
  - destruct (y_mail y !! t) as [mail|]; [|done]. injection H as <-. no_turn.
  - destruct (y_locks y !! j_pane_id j) eqn:El; [done|]. injection H as <-. eexists _, _, _. split; [exact Ht|]. split; [reflexivity|]. intros _. split; [done|]. by apply tn_acquire.
  - injection H as <-. unfold do_check. destruct (still_current y j); [destruct (has_budget _ _); [no_turn|]|]; by eapply fail_turns.
  - injection H as <-. destruct answer as [text|e]; [|by eapply fail_turns]. destruct (j_payload j); no_turn.
  - injection H as <-. destruct answer as [text|e]; [|by eapply fail_turns]. eexists _, _, _. split; [exact Ht|]. split; [reflexivity|]. intros Hok. split; [exact Hok|]. by apply tn_none.
  - injection H as <-. unfold do_accept. destruct (mark_accepted _ _ _ _) as [l ws]. eexists _, _, _. split; [exact Ht|]. split; [by destruct (j_payload j)|]. intros _. split; [done|].
    apply tn_release; [done|done|done|by destruct (j_payload j)..].
  - injection H as <-. unfold do_watch. cbv zeta. case_decide; [unfold abandon; destruct (drop_flight _ _); no_turn|]. destruct (j_payload j); [destruct (_ || _); no_turn|]. destruct sub as [i|].
    + destruct (y_panes y !! j_pane_id j); no_turn.
    + eexists _, _, _. split; [exact Ht|]. split; [by rewrite insert_id|]. intros _. split; [done|]. by apply tn_none.
  - destruct (j_payload j) as [a|q]; [|destruct sub as [i|]; [|done]]; injection H as <-.
    + unfold do_watch_approval. cbv zeta. match goal with |- context [if ?b then _ else _] => destruct b end; [no_turn|]. case_decide; no_turn.
    + unfold do_watch_question. cbv zeta. destruct answer as [text|e]; [|case_decide; no_turn]. case_decide; [case_decide; no_turn|]. destruct (observe _ _ _ _ _) as [q' current].
      match goal with |- context [if ?b then _ else _] => destruct b end; [no_turn|]. case_decide; [case_decide|]; no_turn.
  - injection H as <-. unfold do_settle, do_finish. destruct (finish _ _ _ _) as [[l ws] mine]. destruct mine; [destruct (j_payload j); [|destruct (question_summary j)]|]; no_turn.
  - injection H as <-. destruct (j_payload j); no_turn.
  - done.
  - done.
  - done.
Qed.

Lemma cancel_turns t y y' : cancel t y = Some y' -> turns t y y'.
Proof.
  unfold cancel. destruct (y_tasks y !! t) as [[j p]|] eqn:Ht; [|done]. cbn [mbind option_bind t_job t_phase]. intros H.
  assert (Hy : y' = go t j Dropped (let y0 := if armed p then abandon j y else y in if holding p then unlock (j_pane_id j) y0 else y0)) by (destruct p; first [discriminate H|injection H as <-; reflexivity]).
  clear H. subst y'. cbv zeta. set (y0 := if armed p then abandon j y else y). assert (Hy0 : y_locks y0 = y_locks y /\ y_writes y0 = y_writes y /\ y_tasks y0 = y_tasks y).
  { unfold y0, abandon. destruct (armed p); [by destruct (drop_flight _ _)|done]. }
  destruct Hy0 as (E1 & E2 & E3). eexists _, _, _. split; [exact Ht|]. destruct (holding p) eqn:Eh; cbn; rewrite E3; (split; [reflexivity|]); intros _; (split; [done|]).
  - apply tn_release; cbn; [done|done|done|by rewrite E1|done].
  - by apply tn_none.
Qed.

(** Every write answers a screen, every holder has its lock, and a request that
    has let another one write after it never writes again. *)
Record orderly (y : Sys) : Prop := {
  or_writes : Forall write_ok (y_writes y);
  or_phases : forall t x, y_tasks y !! t = Some x -> phase_ok (t_job x) (t_phase x);
  or_locks : forall t x, y_tasks y !! t = Some x -> holding (t_phase x) = true -> y_locks y !! j_pane_id (t_job x) = Some t;
  or_writers : forall w, w ∈ y_writes y -> exists p, y_tasks y !! wr_task w = Some (mkTask (wr_job w) p) /\ early p = false;
  or_passed : forall i k w1 w2, (i < k)%nat -> y_writes y !! i = Some w1 -> y_writes y !! k = Some w2 -> j_pane_id (wr_job w1) = j_pane_id (wr_job w2) -> wr_task w1 <> wr_task w2 ->
    forall x, y_tasks y !! wr_task w1 = Some x -> holding (t_phase x) = false;
  or_unmixed : forall i k m w1 w2 w3, (i < k < m)%nat -> y_writes y !! i = Some w1 -> y_writes y !! k = Some w2 -> y_writes y !! m = Some w3 ->
    j_pane_id (wr_job w2) = j_pane_id (wr_job w1) -> wr_task w3 = wr_task w1 -> wr_task w2 = wr_task w1;
}.

Lemma holding_late p : holding p = true -> early p = false.
Proof. by destruct p. Qed.

(** What a turn leaves of the writers and of the locks. *)
Lemma turn_writers t j p p' y y' : y_tasks y !! t = Some (mkTask j p) -> y_tasks y' = <[t := mkTask j p']> (y_tasks y) -> turn t j p p' y y' -> orderly y ->
  forall w, w ∈ y_writes y' -> exists q, y_tasks y' !! wr_task w = Some (mkTask (wr_job w) q) /\ early q = false.
Proof.
  intros Ht Et H [_ _ _ Hw _ _]. assert (Hold : (early p' = true -> early p = true) -> forall w, w ∈ y_writes y -> exists q, y_tasks y' !! wr_task w = Some (mkTask (wr_job w) q) /\ early q = false).
  { intros Hp w Hin. destruct (Hw w Hin) as (q & Hq & Hl). rewrite Et. destruct (decide (wr_task w = t)) as [E|Hne]; [|rewrite lookup_insert_ne by done; by exists q].
    rewrite E in *. rewrite Ht in Hq. injection Hq as -> ->. exists p'. rewrite lookup_insert_eq. split; [done|]. destruct (early p'); [|done]. by rewrite Hp in Hl. }
  destruct H as [_ Ew _ Hp|_ _ _ Ew Hp|_ _ Hp _ Ew|w0 _ _ Hp _ Ew <- <- _]; rewrite Ew; [by apply Hold|apply Hold; congruence..|].
  intros w [Hin| ->%list_elem_of_singleton]%elem_of_app; [apply Hold; [congruence|exact Hin]|]. exists p'. by rewrite Et, lookup_insert_eq.
Qed.

Lemma turn_locks t j p p' y y' : y_tasks y !! t = Some (mkTask j p) -> y_tasks y' = <[t := mkTask j p']> (y_tasks y) -> turn t j p p' y y' -> orderly y ->
  forall t0 x, y_tasks y' !! t0 = Some x -> holding (t_phase x) = true -> y_locks y' !! j_pane_id (t_job x) = Some t0.
Proof.
  intros Ht Et H [_ _ Hl _ _ _] t0 x Hx Hh. rewrite Et in Hx. apply lookup_insert_Some in Hx as [[<- <-]|[Hne Hx]]; cbn [t_job t_phase] in *.
  - destruct H as [El _ Ep _|_ _ El _ _|_ Hn _ _ _|w Hp _ _ El _ _ _ _]; rewrite ?El; [apply (Hl t _ Ht); cbn; congruence|apply lookup_insert_eq|congruence|by apply (Hl t _ Ht)].
  - pose proof (Hl t0 x Hx Hh) as Hlx. destruct H as [El _ _ _|_ Hfree El _ _|Hp _ _ El _|w _ _ _ El _ _ _ _]; rewrite El; [done| | |done].
    + rewrite lookup_insert_ne; [done|]. intros E. rewrite E in Hfree. congruence.
    + rewrite lookup_delete_ne; [done|]. intros E. pose proof (Hl t _ Ht Hp) as Hlt. cbn in Hlt. rewrite E in Hlt. congruence.
Qed.

(** A request that does not hold its lock does not get it back. *)
Lemma turn_settled t j p p' y y' t0 : y_tasks y !! t = Some (mkTask j p) -> y_tasks y' = <[t := mkTask j p']> (y_tasks y) -> turn t j p p' y y' ->
  (exists x, y_tasks y !! t0 = Some x /\ early (t_phase x) = false) -> (forall x, y_tasks y !! t0 = Some x -> holding (t_phase x) = false) ->
  forall x, y_tasks y' !! t0 = Some x -> holding (t_phase x) = false.
Proof.
  intros Ht Et H (x0 & Hx0 & Hl) Hn x Hx. rewrite Et in Hx. apply lookup_insert_Some in Hx as [[<- <-]|[Hne Hx]]; [|by apply Hn]. rewrite Ht in Hx0. injection Hx0 as <-. pose proof (Hn _ Ht) as Hnt. cbn in *.
  destruct H as [_ _ Ep _| -> _ _ _ _|_ ? _ _ _|w Hp _ _ _ _ _ _ _]; [congruence|done|done|congruence].
Qed.

Lemma snoc_lookup {A} (l : list A) a i x : (l ++ [a]) !! i = Some x -> l !! i = Some x \/ i = length l /\ x = a.
Proof. intros H. apply lookup_snoc_Some in H as [[_ H]|[-> <-]]; [by left|by right]. Qed.
Lemma turn_passed t j p p' y y' : y_tasks y !! t = Some (mkTask j p) -> y_tasks y' = <[t := mkTask j p']> (y_tasks y) -> turn t j p p' y y' -> orderly y ->
  forall i k w1 w2, (i < k)%nat -> y_writes y' !! i = Some w1 -> y_writes y' !! k = Some w2 -> j_pane_id (wr_job w1) = j_pane_id (wr_job w2) -> wr_task w1 <> wr_task w2 ->
    forall x, y_tasks y' !! wr_task w1 = Some x -> holding (t_phase x) = false.
Proof.
  intros Ht Et H [_ _ Hl Hw Hp _] i k w1 w2 Hik H1 H2 Hpane Hne.
  assert (Hold : y_writes y !! i = Some w1 -> y_writes y !! k = Some w2 -> forall x, y_tasks y' !! wr_task w1 = Some x -> holding (t_phase x) = false).
  { intros H1' H2'. eapply turn_settled; [exact Ht|exact Et|exact H| |by eapply Hp]. destruct (Hw w1) as (q & Hq & He); [by eapply list_elem_of_lookup_2|]. by exists (mkTask (wr_job w1) q). }
  destruct H as [_ Ew _ _|_ _ _ Ew _|_ _ _ _ Ew|w Hhp _ _ _ Ew <- <- _]; rewrite Ew in *; [by apply Hold..|].
  apply snoc_lookup in H2 as [H2|[-> ->]].
  - apply snoc_lookup in H1 as [H1|[-> ->]]; [by apply Hold|]. apply lookup_lt_Some in H2. lia.
  - apply snoc_lookup in H1 as [H1|[-> ->]]; [|done]. intros x Hx. rewrite Et, lookup_insert_ne in Hx by done. destruct (holding (t_phase x)) eqn:Eh; [|done].
    destruct (Hw w1) as (q & Hq & _); [by eapply list_elem_of_lookup_2|]. rewrite Hx in Hq. injection Hq as ->. pose proof (Hl _ _ Hx Eh) as E1. pose proof (Hl _ _ Ht Hhp) as E2. cbn in *.
    rewrite Hpane in E1. congruence.
Qed.

Lemma turn_unmixed t j p p' y y' : y_tasks y !! t = Some (mkTask j p) -> y_tasks y' = <[t := mkTask j p']> (y_tasks y) -> turn t j p p' y y' -> orderly y ->
  forall i k m w1 w2 w3, (i < k < m)%nat -> y_writes y' !! i = Some w1 -> y_writes y' !! k = Some w2 -> y_writes y' !! m = Some w3 ->
    j_pane_id (wr_job w2) = j_pane_id (wr_job w1) -> wr_task w3 = wr_task w1 -> wr_task w2 = wr_task w1.
Proof.
  intros Ht Et H [_ _ _ _ Hp Hu] i k m w1 w2 w3 Hikm H1 H2 H3 Hpane E. destruct H as [_ Ew _ _|_ _ _ Ew _|_ _ _ _ Ew|w Hhp _ _ _ Ew Ewt _ _]; rewrite Ew in *;
    [by eapply (Hu i k m)..|].
  apply snoc_lookup in H3 as [H3|[-> ->]]; [pose proof (lookup_lt_Some _ _ _ H3)|]; (apply snoc_lookup in H1 as [H1|[-> _]]; [|lia]); (apply snoc_lookup in H2 as [H2|[-> _]]; [|lia]); [by eapply (Hu i k m)|].
  destruct (decide (wr_task w2 = wr_task w1)) as [|Hne]; [done|]. pose proof (Hp i k w1 w2) as Hq. rewrite <- E, Ewt in Hq.
  specialize (Hq ltac:(lia) H1 H2 (eq_sym Hpane) ltac:(congruence) _ Ht). cbn in Hq. congruence.
Qed.

Lemma turns_orderly t y y' : turns t y y' -> orderly y -> orderly y'.
Proof.
  intros (j & p & p' & Ht & Et & H) Ho. destruct (H (or_phases y Ho t _ Ht)) as [Hok Hturn]. split; [|..|by eapply turn_locks|by eapply turn_writers|by eapply turn_passed|by eapply turn_unmixed].
  - pose proof (or_writes y Ho). destruct Hturn as [_ Ew _ _|_ _ _ Ew _|_ _ _ _ Ew|w _ _ _ _ Ew _ _ Hw]; rewrite Ew; [done..|]. apply Forall_app. split; [done|]. by apply Forall_singleton.
  - intros t0 x Hx. rewrite Et in Hx. apply lookup_insert_Some in Hx as [[_ <-]|[_ Hx]]; [exact Hok|by eapply or_phases].
Qed.

Lemma step_orderly y ev y' : step y ev = Some y' -> orderly y -> orderly y'.
Proof.
  intros Hs Hy. destruct ev as [panes|pane|pane event|t h rid aid m|t now answer|t]; cbn [Questions.step] in Hs.
  1-3: injection Hs as <-; by destruct Hy.
  - case_decide as Hn; [|done]. destruct (admit_job y h rid aid m) as [j|fr]; injection Hs as <-; [|done]. destruct Hy as [Hw Hp Hl Hr Hq Hu]. split; cbn.
    + exact Hw.
    + intros t0 x [[<- <-]|[_ Hx]]%lookup_insert_Some; [done|by eapply Hp].
    + intros t0 x [[<- <-]|[_ Hx]]%lookup_insert_Some; [done|by apply Hl].
    + intros w Hin. destruct (Hr w Hin) as (q & Hx & He). exists q. rewrite lookup_insert_ne; [done|]. congruence.
    + intros i k w1 w2 Hik H1 H2 Hpane Hne x Hx. apply lookup_insert_Some in Hx as [[_ <-]|[_ Hx]]; [done|by eapply Hq].
    + exact Hu.
  - eapply turns_orderly; [by eapply advance_turns|done].
  - eapply turns_orderly; [by eapply cancel_turns|done].
Qed.

Lemma run_orderly evs y y' : run y evs = Some y' -> orderly y -> orderly y'.
Proof.
  revert y. induction evs as [|ev evs IH]; intros y Hr Hy; [by injection Hr as <-|]. cbn [Questions.run] in Hr. destruct (step y ev) as [y1|] eqn:E; [|done].
  eapply IH; [exact Hr|]. by eapply step_orderly.
Qed.
Lemma start_orderly : orderly start_sys.
Proof. by split; cbn; [constructor|intros t x; rewrite lookup_empty..|intros w H; apply not_elem_of_nil in H| |]. Qed.

(** C15 — Nothing is typed blind.  Whatever happens to the panes and to the other
    requests, every write that is begun goes to the pane session the request was
    made for, and answers what that request read on its screen: for an approval
    the dialog shown has the fingerprint the client saw and the chosen text at
    the chosen row, and the keys walk from the focused row to that row and press
    Enter there, once and nowhere else; for a question the form shown is the one
    the client answered, accepts the answer, and the write is one of the plan
    made for it. *)
Theorem writes_answer_the_screen (evs : list Event) (y : Sys) (w : Written) : run start_sys evs = Some y -> w ∈ y_writes y ->
  pane_token (wr_panes w) (j_pane_id (wr_job w)) = Some (j_token (wr_job w)) /\
  match j_payload (wr_job w), wr_seen w with
  | PApproval a, SawApproval c =>
      cl_kind c = Approval /\ approval_fingerprint c = ap_fingerprint a /\ cl_options c !! Z.to_nat (ap_index a) = Some (ap_choice a) /\
      exists keys, wr_what w = WKeys keys /\ walk (cl_approval_focus c) keys = (ap_index a, [(ap_index a, "Enter"%string)])
  | PQuestion q, SawQuestion i =>
      i_id i = qp_interaction_id q /\ validate_question_payload i q = None /\ exists steps, plan_input i q = Some steps /\ wr_what w ∈ steps ≫= step_writes
  | _, _ => False
  end.
Proof.
  intros Hr Hin. pose proof (or_writes _ (run_orderly evs _ _ Hr start_orderly)) as Hw. rewrite Forall_forall in Hw. specialize (Hw w Hin) as [Htok Hw]. split; [exact Htok|].
  destruct (j_payload (wr_job w)) as [a|q], (wr_seen w) as [c|i]; try done. destruct Hw as [Hv Hk]. unfold approval_valid in Hv. rewrite !andb_true_iff, !bool_decide_eq_true in Hv.
  destruct Hv as [[[Hc _] Hopt] Hf]. split_and!; [done..|]. eexists. split; [exact Hk|]. unfold approval_keys. by rewrite walk_travel_app.
Qed.

(** C17 — The keystrokes of two answers to one pane never mix: between two writes
    of a request to a pane there is no write of another request to that pane,
    however the requests interleave and whichever of them fail or are
    cancelled. *)
Theorem answers_never_interleave (evs : list Event) (y : Sys) (i k m : nat) (w1 w2 w3 : Written) : run start_sys evs = Some y -> (i < k < m)%nat ->
  y_writes y !! i = Some w1 -> y_writes y !! k = Some w2 -> y_writes y !! m = Some w3 -> j_pane_id (wr_job w2) = j_pane_id (wr_job w1) -> wr_task w3 = wr_task w1 -> wr_task w2 = wr_task w1.
Proof. intros Hr. apply (or_unmixed _ (run_orderly evs _ _ Hr start_orderly)). Qed.

End Machine.

(** ** Concrete runs *)


#[local] Instance run_floats : GoJson.FloatText := {| GoJson.float_text _ := [48] |}.
#[local] Instance run_lower : CaseMapping := {| to_lowercase := id |}.
#[local] Instance run_serde : SessionActor.SerdeText := {| SessionActor.serde_text v := string_of_bytes (GoJson.to_vec v) |}.

(** A screen reading "yes?" asks for an approval whose second row is focused;
    one reading "which?" shows a form. *)
Definition run_classify (text name : string) : Classification :=
  if decide (text = "yes?"%string) then mkClassification Approval "" "" ["Yes"; "No"]%string 1 None false "fp" "" else mkClassification Unknown "" "" [] 0 None false "" "".
Definition run_parse (text name : string) : option Interaction := if decide (text = "which?"%string) then Some demo_form else None.
#[local] Notation run_demo := (run map_to_list run_classify cl_approval_identity run_parse start_sys).

Definition message (event choice interaction : string) (selected : list Z) : Inbound :=
  mkInbound "" 0 "" None "" "" "" "p" "" "" "" "" "" "" "" "" [] [] false "" "" "" false "" "" event "fp" choice interaction None (Some 0) (Some 2) [] selected false "" "" 0 "" "" false 0 0 0
    "" "" "" "" "" "" [] false [] "" "" "" "" None None "" "" false false false [] [].

Definition approve (task : nat) : list Event := [EvStart task Respond "r" "a" (message "e" "Yes" "" []); EvAdvance task 0 (Ok ""%string); EvAdvance task 0 (Ok ""%string)].
Definition type (task : nat) (screen : string) : list Event := replicate 3 (EvAdvance task 0 (Ok screen)).
Definition pane : list Event := [EvPanes {[ "p"%string := mkAgentView "t" "tab" None Topology.Blocked (Some "claude"%string) ]}].

(** The first request types, its duplicate attaches; the first is cancelled and
    a third one types. *)
Definition attach_evs : list Event := pane ++ approve 1 ++ [EvStart 2 Respond "r" "a" (message "e" "Yes" "" []); EvAdvance 2 0 (Ok ""%string)].
Definition retype_evs : list Event := pane ++ approve 1 ++ type 1 "yes?" ++ [EvCancel 1] ++ approve 3 ++ type 3 "yes?".
(** A question answered with several writes. *)
Definition answer_evs : list Event :=
  pane ++ [EvStart 1 (Question Answer) "r" "a" (message "" "" "id" [0; 1])] ++ replicate 5 (EvAdvance 1 0 (Ok "which?"%string)) ++ replicate 8 (EvAdvance 1 0 (Ok ""%string)).


Lemma attached_request_resolves_witness : exists y x, run_demo attach_evs = Some y /\ y_tasks y !! 2%nat = Some x /\ t_phase x = Attached /\
  (is_Some (advance map_to_list run_classify cl_approval_identity run_parse 2 0 (Ok ""%string) y) \/
   exists t2, serves map_to_list run_classify cl_approval_identity run_parse y 2 x t2).
Proof.
  assert (Hb : match run_demo attach_evs with Some y => match y_tasks y !! 2%nat with Some (mkTask _ Attached) => true | _ => false end | None => false end = true) by (vm_compute; reflexivity).
  destruct (run_demo attach_evs) as [y|] eqn:Er; [|discriminate Hb]. destruct (y_tasks y !! 2%nat) as [[j p]|] eqn:Ht; [|discriminate Hb]. assert (Hp : p = Attached) by (destruct p; first [reflexivity|discriminate Hb]).
  exists y, (mkTask j p). split_and!; [reflexivity|exact Ht|exact Hp|].
  exact (attached_request_resolves map_to_list (fun _ => reflexivity _) run_classify cl_approval_identity run_parse attach_evs y 2 (mkTask j p) 0 (Ok ""%string) Er Ht Hp).
Defined.

Lemma writes_answer_the_screen_witness : exists y w, run_demo retype_evs = Some y /\ w ∈ y_writes y /\ wr_what w = WKeys ["Up"; "Enter"]%string /\
  pane_token (wr_panes w) (j_pane_id (wr_job w)) = Some (j_token (wr_job w)).
Proof.
  assert (Hb : match run_demo retype_evs with
               | Some y => match y_writes y with [w; _] => match wr_what w with WKeys k => bool_decide (k = ["Up"; "Enter"]%string) | WText _ => false end | _ => false end
               | None => false end = true) by (vm_compute; reflexivity).
  destruct (run_demo retype_evs) as [y|] eqn:Er; [|discriminate Hb]. destruct (y_writes y) as [|w [|w2 [|? ?]]] eqn:Ew; try discriminate Hb.
  assert (Hin : w ∈ y_writes y) by (rewrite Ew; left). exists y, w. split_and!; [reflexivity|exact Hin| |].
  - destruct (wr_what w) as [k|]; [|discriminate Hb]. apply bool_decide_eq_true in Hb. by rewrite Hb.
  - exact (proj1 (writes_answer_the_screen map_to_list run_classify cl_approval_identity run_parse retype_evs y w Er Hin)).
Defined.

Lemma answers_never_interleave_witness : exists y w1 w2 w3 w4, run_demo answer_evs = Some y /\ y_writes y = [w1; w2; w3; w4] /\ wr_task w1 = 1%nat /\ wr_task w2 = wr_task w1.
Proof.
  assert (Hb : match run_demo answer_evs with
               | Some y => match y_writes y with [w1; w2; w3; w4] => bool_decide (wr_task w1 = 1%nat /\ wr_task w3 = wr_task w1 /\ j_pane_id (wr_job w2) = j_pane_id (wr_job w1)) | _ => false end
               | None => false end = true) by (vm_compute; reflexivity).
  destruct (run_demo answer_evs) as [y|] eqn:Er; [|discriminate Hb]. destruct (y_writes y) as [|w1 [|w2 [|w3 [|w4 [|? ?]]]]] eqn:Ew; try discriminate Hb. apply bool_decide_eq_true in Hb as (H1 & H3 & Hp).
  exists y, w1, w2, w3, w4. split_and!; [reflexivity|exact Ew|exact H1|].
  apply (answers_never_interleave map_to_list run_classify cl_approval_identity run_parse answer_evs y 0 1 2 w1 w2 w3 Er); [lia|rewrite Ew; reflexivity..|exact Hp|exact H3].
Defined.


End QuestionsClaims.
