(* ===== verification/ConvoSubs.v ===== *)
(** * Conversation feeds

    [lerdr-coord/src/convo_subs.rs]: one feed per client and pane pushes the
    transcript of the pane's agent as resets and appends.  What the feed samples
    while it runs (topology, file stamps, pages of the conversation browser,
    whether the client's queue takes the frame) is a time-indexed environment;
    a poll looks, stats, reads and fences at four instants of it. *)

From S2P Require Import Prelude Utf8 Json Inbound Protocol Outcome Topology SessionActor SendBuffer PushTypes.

Module ConvoSubs.
Import Utf8 Json Inbound Protocol PushTypes.

Definition POLL_INTERVAL : Z := 1000.
Definition READ_FRESHNESS : Z := 500.

(** ** Transcript pages *)

Record ToolActivity := mkTool { ta_id : string; ta_name : string; ta_association_id : string; ta_input : string; ta_output : string; ta_error : bool; ta_truncated : bool }.
Record Entry := mkEntry { en_id : string; en_timestamp : string; en_role : string; en_text : string; en_tools : list ToolActivity; en_truncated : bool }.

Inductive BrowseState := Ready | Preparing | Failed.
Inductive BrowseMode := Recent | Snapshot | Native.
#[export] Instance BrowseState_eq_dec : EqDecision BrowseState.
Proof. solve_decision. Defined.
#[export] Instance BrowseMode_eq_dec : EqDecision BrowseMode.
Proof. solve_decision. Defined.

(** The fields of a page that the feed reads. *)
Record BrowsePage := mkPage {
  bp_available : bool;
  bp_reason_code : string;
  bp_entries : list Entry;
  bp_state : BrowseState;
  bp_mode : BrowseMode;
  bp_source_revision : string;
  bp_total : option Z;
  bp_probe_path : string;
}.

Record BrowseScope := mkScope {
  bs_provider : string;
  bs_cwd : string;
  bs_foreground_cwd : string;
  bs_session_id : string;
  bs_pane_id : string;
  bs_server_session_id : string;
  bs_terminal_id : string;
  bs_generation : Z;
}.
Record BrowseRequest := mkRequest { br_scope : BrowseScope; br_cursor : option string; br_limit : Z; br_retry : bool }.

(** The serialised fields of an entry. *)
Definition text_member (name value : string) : list (string * json) := if decide (value = ""%string) then [] else [(name, JString value)].
Definition flag_member (name : string) (b : bool) : list (string * json) := if b then [(name, JBool true)] else [].
Definition tool_json (t : ToolActivity) : json :=
  JObject (text_member "id" (ta_id t) ++ [("name"%string, JString (ta_name t))] ++ text_member "input" (ta_input t) ++ text_member "output" (ta_output t) ++
           flag_member "error" (ta_error t) ++ flag_member "truncated" (ta_truncated t)).
Definition entry_json (e : Entry) : json :=
  JObject ([("id"%string, JString (en_id e))] ++ text_member "timestamp" (en_timestamp e) ++ [("role"%string, JString (en_role e))] ++ text_member "text" (en_text e) ++
           (if decide (length (en_tools e) = 0%nat) then [] else [("tools"%string, JArray (tool_json <$> en_tools e))]) ++ flag_member "truncated" (en_truncated e)).

(** ** Panes *)

(** What the feed reads of an [AgentInfo]; the session is its agent and
    value. *)
Record Pane := mkPane {
  pn_pane_id : string;
  pn_terminal_id : string;
  pn_workspace_id : string;
  pn_tab_id : string;
  pn_agent : option string;
  pn_session : option (string * string);
  pn_cwd : option string;
  pn_foreground_cwd : option string;
}.

Record ProjectContext := mkProject { pc_cwd : string; pc_foreground_cwd : string }.
#[export] Instance ProjectContext_eq_dec : EqDecision ProjectContext.
Proof. solve_decision. Defined.
Record ConversationTuple := mkTuple { ct_agent : string; ct_cwd : string; ct_project : ProjectContext; ct_session_id : string }.
#[export] Instance ConversationTuple_eq_dec : EqDecision ConversationTuple.
Proof. solve_decision. Defined.

Section Tuples.
Context `{CM : CaseMapping}.

Definition is_separator (c : Z) : Prop := c = 45 \/ c = 95 \/ c = 32.
#[export] Instance is_separator_dec c : Decision (is_separator c).
Proof. unfold is_separator. apply _. Defined.
Definition normalized_agent (agent : string) : string := string_of_bytes (filter (fun c => ~ is_separator c) (as_bytes (to_lowercase (trim agent)))).
Definition is_claude_provider (agent : string) : bool := bool_decide (normalized_agent agent = "claude"%string \/ normalized_agent agent = "claudecode"%string).
Definition is_absolute (path : string) : bool := bool_decide (head (as_bytes path) = Some 47).
Definition normalize_project_context (agent : string) (p : ProjectContext) : ProjectContext :=
  let hint := trim (pc_foreground_cwd p) in
  if negb (is_claude_provider agent) || bool_decide (hint = ""%string) || negb (is_absolute hint) || bool_decide (hint = pc_cwd p)
  then mkProject (pc_cwd p) "" else mkProject (pc_cwd p) hint.

Definition conversation_tuple (i : Pane) : ConversationTuple :=
  let provider := match pn_agent i with Some a => a | None => default ""%string (fst <$> pn_session i) end in
  let cwd := default ""%string (pn_cwd i) in
  mkTuple provider cwd (normalize_project_context provider (mkProject cwd (default ""%string (pn_foreground_cwd i)))) (default ""%string ((fun s => trim s.2) <$> pn_session i)).
End Tuples.

Definition browse_request (pane_id : string) (i : Pane) (generation : Z) : BrowseRequest :=
  mkRequest (mkScope (default ""%string (pn_agent i)) (default ""%string (pn_cwd i)) (default ""%string (pn_foreground_cwd i)) (default ""%string (snd <$> pn_session i)) pane_id ""
    (pn_terminal_id i) generation) None 0 false.

Definition frame_target (i : Pane) (generation : Z) : TargetRef :=
  mkTarget "primary" (pn_pane_id i) (pn_terminal_id i) generation (default ""%string ((fun s => trim s.2) <$> pn_session i)) (pn_workspace_id i) (pn_tab_id i).

(** ** Addressing a feed *)

Definition session_pane (t : Topology.Topology) (m : Inbound) : option string :=
  target ← in_target m;
  if decide (t_agent_session_id target = ""%string) then None else Topology.a_pane_id <$> Topology.pane_for_session t (t_agent_session_id target).
Definition subscribe_pane (t : Topology.Topology) (m : Inbound) : option string :=
  if decide (Outcome.pane_of m = ""%string) then session_pane t m else Topology.a_pane_id <$> Topology.pane_of t (Outcome.pane_of m).
Definition unsubscribe_pane (t : Topology.Topology) (m : Inbound) : option string :=
  if decide (Outcome.pane_of m = ""%string) then session_pane t m else Some (Outcome.pane_of m).

(** The set of a client: its task per pane, and the tasks that were aborted. *)
Record ConvoSubSet := mkSet { entries : gmap string nat; aborted : list nat }.
Definition start (pane_id : string) (task : nat) (s : ConvoSubSet) : ConvoSubSet :=
  mkSet (<[pane_id := task]> (entries s)) (match entries s !! pane_id with Some t => aborted s ++ [t] | None => aborted s end).
Definition stop (pane_id : string) (s : ConvoSubSet) : ConvoSubSet * bool :=
  match entries s !! pane_id with Some t => (mkSet (delete pane_id (entries s)) (aborted s ++ [t]), true) | None => (s, false) end.
Definition stop_all (s : ConvoSubSet) : ConvoSubSet := mkSet ∅ (aborted s ++ (map_to_list (entries s)).*2).

(** ** Stamps and signatures *)

(** [metadata]: device, inode, length and modification time. *)
Definition Meta : Type := Z * Z * Z * Z.
(** [None] is [MISSING]. *)
Definition SourceStamp : Type := option Meta.
Record ProbeStamp := mkStamp { ps_source : SourceStamp; ps_wal : SourceStamp }.
#[export] Instance ProbeStamp_eq_dec : EqDecision ProbeStamp.
Proof. solve_decision. Defined.
Definition MISSING : ProbeStamp := mkStamp None None.

Record Sig := mkSig {
  sg_resolved : bool;
  sg_available : bool;
  sg_reason_code : string;
  sg_source_revision : string;
  sg_ids : list string;
  sg_entry_digests : list bytes;
  sg_total : option Z;
}.
#[export] Instance Sig_eq_dec : EqDecision Sig.
Proof. solve_decision. Defined.
Definition no_sig : Sig := mkSig false false "" "" [] [] None.

Record LastRead := mkLast {
  lr_generation : Z;
  lr_tuple : option ConversationTuple;
  lr_stamp : ProbeStamp;
  lr_probe_path : string;
  lr_wal_path : string;
  lr_sig : Sig;
}.

Definition zero_digest : bytes := replicate 32 0.

Section Sigs.
Context `{SH : Sha256} `{ST : SessionActor.SerdeText}.

Definition entry_digest (e : Entry) : bytes := sha256 (as_bytes (SessionActor.serde_text (entry_json e))).
Definition mark (mode : BrowseMode) (e : Entry) : bytes := if decide (mode = Native \/ length (en_tools e) <> 0%nat) then entry_digest e else zero_digest.
Definition of_page (p : BrowsePage) : Sig :=
  mkSig true (bp_available p) (bp_reason_code p) (bp_source_revision p) (en_id <$> bp_entries p) (mark (bp_mode p) <$> bp_entries p) (bp_total p).
End Sigs.

(** The append tail: the new page up to the previous last id has to be a suffix
    of the previous page. *)
Definition append_delta (prev sig : Sig) (l : list Entry) : option (list Entry) :=
  anchor ← list.last (sg_ids prev);
  pos ← fst <$> list_find (fun id => id = anchor) (sg_ids sig);
  let overlap := take (S pos) (sg_ids sig) in
  let skip := (length (sg_ids prev) - length overlap)%nat in
  if decide ((length (sg_ids prev) < length overlap)%nat \/ overlap <> drop skip (sg_ids prev)) then None
  else if decide (sg_entry_digests sig <> [] /\ ~ ((skip <= length (sg_entry_digests prev))%nat /\ drop skip (sg_entry_digests prev) = take (S pos) (sg_entry_digests sig))) then None
  else let appended := drop (S pos) l in if decide (length appended = 0%nat) then None else Some appended.

(** [decide]: what to ship, and whether it is a reset. *)
Definition decide_update (last : option LastRead) (generation : Z) (sig : Sig) (l : list Entry) : option (list Entry * bool) :=
  match last with
  | None => Some (l, true)
  | Some prev =>
      if decide (lr_generation prev <> generation \/ sg_resolved (lr_sig prev) = false) then Some (l, true)
      else if decide (sig = lr_sig prev) then None
      else if decide (sg_source_revision sig <> sg_source_revision (lr_sig prev) \/ sg_available sig <> sg_available (lr_sig prev) \/ sg_reason_code sig <> sg_reason_code (lr_sig prev))
      then Some (l, true)
      else match append_delta (lr_sig prev) sig l with Some appended => Some (appended, false) | None => Some (l, true) end
  end.

(** ** The feed *)

Record Update := mkUpdate { up_generation : Z; up_messages : list json; up_reset : bool; up_target : TargetRef }.
Definition wire_generation (generation : Z) : Z := if decide (0 <= generation) then generation else 0.

(** What can be sampled at an instant. *)
Record Environment := mkEnv {
  ev_pane : nat -> option Pane;
  ev_generation : nat -> Z;
  ev_stat : nat -> string -> SourceStamp;
  ev_page : nat -> BrowseRequest -> BrowsePage;
}.

(** The instants of a poll, whether the blocking read was joined and whether
    the client's queue takes the frame. *)
Record Poll := mkPoll { at_look : nat; at_stat : nat; at_read : nat; at_fence : nat; pl_joined : bool; pl_sent : bool }.

Section Feed.
Context `{SH : Sha256} `{ST : SessionActor.SerdeText} `{CM : CaseMapping}.
Context (env : Environment) (pane_id : string).

Definition stamp_at (t : nat) (path wal_path : string) : ProbeStamp :=
  mkStamp (ev_stat env t path) (if decide (wal_path = ""%string) then None else ev_stat env t wal_path).

Definition emit_tombstone (p : Poll) (last : option LastRead) : option LastRead * option Update :=
  let generation := ev_generation env (at_stat p) in
  if decide (lr_sig <$> last = Some no_sig) then (last, None)
  else if pl_sent p
  then (Some (mkLast generation None MISSING "" "" no_sig), Some (mkUpdate (wire_generation generation) [] true (mkTarget "primary" pane_id "" generation "" "" "")))
  else (last, None).

Definition probe_stamp (p : Poll) (last : option LastRead) : option ProbeStamp :=
  prev ← last; if decide (lr_probe_path prev = ""%string) then None else Some (stamp_at (at_stat p) (lr_probe_path prev) (lr_wal_path prev)).

Definition settled (last : option LastRead) (generation : Z) (tuple : ConversationTuple) (probe : option ProbeStamp) : bool :=
  match last with
  | Some prev =>
      sg_resolved (lr_sig prev) && bool_decide (lr_generation prev = generation) && bool_decide (lr_tuple prev = Some tuple) && negb (bool_decide (lr_probe_path prev = ""%string)) &&
      bool_decide (probe = Some (lr_stamp prev))
  | None => false
  end.

(** The committed view is still the one the read was made for. *)
Definition fence_holds (t : nat) (generation : Z) (tuple : ConversationTuple) : bool :=
  match ev_pane env t with Some current => bool_decide (ev_generation env t = generation) && bool_decide (conversation_tuple current = tuple) | None => false end.

Definition is_sqlite (page : BrowsePage) : bool := bool_decide (bp_mode page = Native) && negb (bool_decide (bp_probe_path page = ""%string)).
Definition same_probe (last : option LastRead) (page : BrowsePage) : bool :=
  match last with Some prev => bool_decide (lr_probe_path prev = bp_probe_path page) && Bool.eqb (negb (bool_decide (lr_wal_path prev = ""%string))) (is_sqlite page) | None => false end.
Definition next_stamp (last : option LastRead) (page : BrowsePage) (probe : option ProbeStamp) : ProbeStamp := if same_probe last page then default MISSING probe else MISSING.
Definition fresh_wal (page : BrowsePage) : string := if is_sqlite page then bp_probe_path page +:+ "-wal" else "".

(** An unchanged page only moves the stamp. *)
Definition refresh (last : option LastRead) (page : BrowsePage) (stamp : ProbeStamp) : option LastRead :=
  prev ← last;
  Some (mkLast (lr_generation prev) (lr_tuple prev) stamp (bp_probe_path page) (if same_probe last page then lr_wal_path prev else fresh_wal page) (lr_sig prev)).

(** The WAL path of the new record: the previous one is reused. *)
Definition sent_wal (last : option LastRead) (page : BrowsePage) : string :=
  if is_sqlite page then
    match last with Some prev => if same_probe last page && negb (bool_decide (lr_wal_path prev = ""%string)) then lr_wal_path prev else fresh_wal page | None => fresh_wal page end
  else "".

Definition ship (p : Poll) (i : Pane) (generation : Z) (tuple : ConversationTuple) (probe : option ProbeStamp) (page : BrowsePage) (last : option LastRead)
    : option LastRead * option Update :=
  let stamp := next_stamp last page probe in
  let sig := of_page page in
  match decide_update last generation sig (bp_entries page) with
  | None => (refresh last page stamp, None)
  | Some (messages, reset) =>
      if pl_sent p
      then (Some (mkLast generation (Some tuple) stamp (bp_probe_path page) (sent_wal last page) sig),
            Some (mkUpdate (wire_generation generation) (entry_json <$> messages) reset (frame_target i generation)))
      else (last, None)
  end.

(** One pass: the new record and the frame the queue took. *)
Definition poll (p : Poll) (last : option LastRead) : option LastRead * option Update :=
  match ev_pane env (at_look p) with
  | None => emit_tombstone p last
  | Some i =>
      let generation := ev_generation env (at_look p) in
      let tuple := conversation_tuple i in
      let probe := probe_stamp p last in
      if settled last generation tuple probe then (last, None)
      else if negb (pl_joined p) then (last, None)
      else
        let page := ev_page env (at_read p) (browse_request pane_id i generation) in
        if negb (fence_holds (at_fence p) generation tuple) then (last, None)
        else if decide (bp_state page = Failed) then (last, None)
        else ship p i generation tuple probe page last
  end.

(** ** The loop *)

Record Feed := mkFeed { fd_last : option LastRead; fd_next_tick : Z; fd_next_read : Z; fd_sent : list Update; fd_stopped : bool }.

Inductive Event :=
| Cancelled
| Tick (before after : Z) (p : Poll)                              (** the clock around the poll *)
| Invalidated (pane : option string) (now after : Z) (p : Poll)
| Lagged (now after : Z) (p : Poll)
| Closed.

Definition polled (p : Poll) (next_tick next_read : Z) (f : Feed) : Feed :=
  let '(last, frame) := poll p (fd_last f) in
  mkFeed last next_tick next_read (fd_sent f ++ option_list frame) (fd_stopped f).
Definition stopped (f : Feed) : Feed := mkFeed (fd_last f) (fd_next_tick f) (fd_next_read f) (fd_sent f) true.

(** The first poll of a feed. *)
Definition begin_feed (now : Z) (p : Poll) : Feed := polled p (now + POLL_INTERVAL) (now + POLL_INTERVAL) (mkFeed None 0 0 [] false).

Definition early_poll (now after : Z) (p : Poll) (f : Feed) : Feed := if decide (fd_next_read f <= now) then polled p (fd_next_tick f) (after + READ_FRESHNESS) f else f.

(** The arms of the [select!], in its order: a due tick goes before a wake. *)
Definition feed_step (f : Feed) (ev : Event) : option Feed :=
  if fd_stopped f then None
  else match ev with
  | Cancelled => Some (stopped f)
  | Tick before after p => if decide (fd_next_tick f <= before) then Some (polled p (before + POLL_INTERVAL) (after + READ_FRESHNESS) f) else None
  | Invalidated pane now after p =>
      if decide (now < fd_next_tick f) then Some (if decide (pane = Some pane_id \/ pane = None) then early_poll now after p f else f) else None
  | Lagged now after p => if decide (now < fd_next_tick f) then Some (early_poll now after p f) else None
  | Closed => Some (stopped f)
  end.
Fixpoint feed_run (f : Feed) (evs : list Event) : option Feed := match evs with [] => Some f | ev :: evs => f' ← feed_step f ev; feed_run f' evs end.
End Feed.

(** The client: a reset replaces its window, anything else extends it. *)
Definition client_step (window : list json) (u : Update) : list json := if up_reset u then up_messages u else window ++ up_messages u.
Definition client (frames : list Update) : list json := foldl client_step [] frames.

End ConvoSubs.

(** ** What a subscriber sees *)

Module ConvoClaims.
Import Json PushTypes ConvoSubs.

Section Claims.
Context `{SH : Sha256} `{ST : SessionActor.SerdeText} `{CM : Protocol.CaseMapping}.
Context (env : Environment) (pane_id : string).

(** The entries of a page as they go over the wire. *)
Definition rows (p : BrowsePage) : list json := entry_json <$> bp_entries p.
Definition read (t : nat) (i : Pane) (generation : Z) : BrowsePage := ev_page env t (browse_request pane_id i generation).
Definition shown (e : Entry) (mode : BrowseMode) : Prop := exists t i g, e ∈ bp_entries (read t i g) /\ mode = bp_mode (read t i g).

(** What is relied on of digests, readers and file stamps: digests tell the
    entries of the transcripts apart and are not all zero, the id of a flat
    text entry determines it, and while two stamps around an instant are equal
    and the file is there the page read at that instant stays the page. *)
Record honest : Prop := {
  hn_digest e m e' m' : shown e m -> shown e' m' -> entry_digest e = entry_digest e' -> entry_json e = entry_json e';
  hn_nonzero e m : shown e m -> entry_digest e <> zero_digest;
  hn_flat e m e' m' : shown e m -> shown e' m' -> m <> Native -> m' <> Native -> length (en_tools e) = 0%nat -> length (en_tools e') = 0%nat -> en_id e = en_id e' -> entry_json e = entry_json e';
  hn_stamps s t u i g : (s <= t <= u)%nat -> bp_probe_path (read t i g) <> ""%string -> ev_stat env s (bp_probe_path (read t i g)) <> None ->
    stamp_at env s (bp_probe_path (read t i g)) (fresh_wal (read t i g)) = stamp_at env u (bp_probe_path (read t i g)) (fresh_wal (read t i g)) -> rows (read u i g) = rows (read t i g);
}.

Context (H : honest).

Lemma marks_tell e m e' m' : shown e m -> shown e' m' -> en_id e = en_id e' -> mark m e = mark m' e' -> entry_json e = entry_json e'.
Proof.
  intros He He' Hid. unfold mark. destruct (decide (m = Native \/ _)) as [D|D], (decide (m' = Native \/ _)) as [D'|D']; intros E.
  - exact (hn_digest H e m e' m' He He' E).
  - by destruct (hn_nonzero H e m He).
  - by destruct (hn_nonzero H e' m' He').
  - apply (hn_flat H e m e' m'); try done; [tauto|tauto|destruct (decide (length (en_tools e) = 0%nat)); tauto|destruct (decide (length (en_tools e') = 0%nat)); tauto].
Qed.

Lemma rows_by_marks m m' (l : list Entry) : forall l' : list Entry, (forall e, e ∈ l -> shown e m) -> (forall e, e ∈ l' -> shown e m') -> en_id <$> l = en_id <$> l' -> mark m <$> l = mark m' <$> l' -> entry_json <$> l = entry_json <$> l'.
Proof.
  induction l as [|e l IH]; intros [|e' l'] Hl Hl' Hi Hm; try done. cbn in *. injection Hi as Hi1 Hi. injection Hm as Hm1 Hm. f_equal.
  - eapply marks_tell; [apply Hl; left|apply Hl'; left|done|done].
  - apply IH; [|intros x Hx; apply Hl'; by right|done..]. intros x Hx. apply Hl. by right.
Qed.

Lemma shown_read t i g e : e ∈ bp_entries (read t i g) -> shown e (bp_mode (read t i g)).
Proof. intros He. by exists t, i, g. Qed.

Lemma same_sig_same_rows t i g t' i' g' : of_page (read t i g) = of_page (read t' i' g') -> rows (read t i g) = rows (read t' i' g').
Proof. unfold of_page. intros [= _ _ _ Hi Hm _]. eapply rows_by_marks; [apply shown_read|apply shown_read|done|done]. Qed.

(** A tail that is appended continues what was shown. *)
Lemma append_continues t i g t' i' g' appended : append_delta (of_page (read t i g)) (of_page (read t' i' g')) (bp_entries (read t' i' g')) = Some appended ->
  suffix (rows (read t' i' g')) (rows (read t i g) ++ (entry_json <$> appended)).
Proof.
  unfold append_delta, of_page. cbn [sg_ids sg_entry_digests]. set (l := bp_entries (read t i g)). set (l' := bp_entries (read t' i' g')).
  destruct (list.last _) as [anchor|]; [|done]. cbn [mbind option_bind]. destruct (list_find _ (en_id <$> l')) as [[pos id]|] eqn:Ef; [|done]. cbn [fmap option_fmap option_map fst].
  apply list_find_Some in Ef as (Hpos & _). apply list_lookup_fmap_Some in Hpos as (e & _ & Hpos). apply lookup_lt_Some in Hpos.
  cbn [mbind option_bind]. cbv zeta. case_decide as Ho; [done|]. case_decide as Hd; [done|]. case_decide; [done|]. intros [= <-].
  rewrite length_take, !length_fmap in Ho, Hd. replace (S pos `min` length l')%nat with (S pos) in Ho, Hd by lia. set (skip := (length l - S pos)%nat) in *.
  assert (Hle : (S pos <= length l)%nat) by (destruct (decide (length l < S pos)%nat); [tauto|lia]).
  assert (Hids : en_id <$> take (S pos) l' = en_id <$> drop skip l).
  { rewrite !fmap_take, fmap_drop. destruct (decide (take (S pos) (en_id <$> l') = drop skip (en_id <$> l))); tauto. }
  assert (Hm : mark (bp_mode (read t' i' g')) <$> take (S pos) l' = mark (bp_mode (read t i g)) <$> drop skip l).
  { rewrite fmap_take, fmap_drop. destruct (decide (drop skip (mark (bp_mode (read t i g)) <$> l) = take (S pos) (mark (bp_mode (read t' i' g')) <$> l'))) as [E|E]; [done|].
    exfalso. apply Hd. split; [|tauto]. destruct l'; [cbn in Hpos; lia|done]. }
  exists (entry_json <$> take skip l). unfold rows. fold l l'. transitivity ((entry_json <$> take skip l) ++ (entry_json <$> drop skip l) ++ (entry_json <$> drop (S pos) l')).
  { by rewrite app_assoc, <- (fmap_app entry_json (take skip l)), take_drop. }
  transitivity ((entry_json <$> take skip l) ++ (entry_json <$> take (S pos) l') ++ (entry_json <$> drop (S pos) l')); [|by rewrite <- (fmap_app entry_json (take (S pos) l')), take_drop]. do 2 f_equal.
  symmetry. apply (rows_by_marks (bp_mode (read t' i' g')) (bp_mode (read t i g))); [| |done|done].
  - intros x Hx. apply shown_read. fold l'. rewrite <- (take_drop (S pos) l'). apply elem_of_app. by left.
  - intros x Hx. apply shown_read. fold l. rewrite <- (take_drop skip l). apply elem_of_app. by right.
Qed.

(** The record of the feed against the client's window, no read later than
    [n]. *)
Definition tracks (n : nat) (l : LastRead) (window : list json) : Prop :=
  if sg_resolved (lr_sig l) then
    exists look t i, (look <= t <= n)%nat /\ ev_pane env look = Some i /\ ev_generation env look = lr_generation l /\
      let page := read t i (lr_generation l) in
      lr_sig l = of_page page /\ suffix (rows page) window /\ lr_probe_path l = bp_probe_path page /\ lr_wal_path l = fresh_wal page /\
      (lr_stamp l = MISSING \/ exists s, (s <= t)%nat /\ lr_stamp l = stamp_at env s (bp_probe_path page) (fresh_wal page))
  else window = [] /\ lr_probe_path l = ""%string /\ lr_wal_path l = ""%string.
Definition in_step (n : nat) (last : option LastRead) (window : list json) : Prop := match last with Some l => tracks n l window | None => True end.

Lemma in_step_later n n' last window : (n <= n')%nat -> in_step n last window -> in_step n' last window.
Proof.
  destruct last as [l|]; [|done]. cbn. unfold tracks. destruct (sg_resolved _); [|done]. intros Hn (look & t & i & Ht & Hrest). exists look, t, i. split; [lia|done].
Qed.

Definition see (window : list json) (u : option Update) : list json := match u with Some u => client_step window u | None => window end.
Definition well_timed (n : nat) (p : Poll) : Prop := (n <= at_look p /\ at_look p <= at_stat p /\ at_stat p <= at_read p /\ at_read p <= at_fence p)%nat.

(** A record that is kept knows the WAL of the page it is kept for. *)
Lemma wal_shape n l window : tracks n l window -> lr_wal_path l = ""%string \/ lr_wal_path l = (lr_probe_path l +:+ "-wal")%string.
Proof.
  unfold tracks. destruct (sg_resolved _); [|tauto]. intros (look & t & i & _ & _ & _ & _ & _ & -> & -> & _). unfold fresh_wal. destruct (is_sqlite _); tauto.
Qed.
Lemma same_probe_wal n prev window page : tracks n prev window -> same_probe (Some prev) page = true -> lr_probe_path prev = bp_probe_path page /\ lr_wal_path prev = fresh_wal page.
Proof.
  intros Ht. cbn [same_probe]. rewrite andb_true_iff, bool_decide_eq_true. intros [Hp Hs]. apply eqb_prop in Hs. split; [done|]. unfold fresh_wal. rewrite <- Hs, <- Hp.
  case_bool_decide as E; cbn [negb]; [done|]. by destruct (wal_shape _ _ _ Ht).
Qed.

Definition stamped (t : nat) (page : BrowsePage) (stamp : ProbeStamp) : Prop := stamp = MISSING \/ exists s, (s <= t)%nat /\ stamp = stamp_at env s (bp_probe_path page) (fresh_wal page).
Lemma next_stamp_ok n p last window page : well_timed n p -> in_step n last window -> stamped (at_read p) page (next_stamp last page (probe_stamp env p last)).
Proof.
  intros Ht Hin. unfold next_stamp, stamped. destruct (same_probe last page) eqn:E; [|by left]. destruct last as [prev|]; [|done]. cbn [probe_stamp mbind option_bind]. case_decide; [by left|]. right.
  exists (at_stat p). destruct (same_probe_wal _ _ _ _ Hin E) as [-> ->]. split; [unfold well_timed in Ht; lia|done].
Qed.

Lemma sent_wal_ok n last window page : in_step n last window -> sent_wal last page = fresh_wal page.
Proof.
  intros Hin. unfold sent_wal. destruct (is_sqlite page) eqn:E; [|unfold fresh_wal; by rewrite E]. destruct last as [prev|]; [|done].
  destruct (same_probe (Some prev) page) eqn:Es; [|done]. destruct (same_probe_wal _ _ _ _ Hin Es) as [_ ->]. by case_match.
Qed.

(** What a window shows after a poll that read. *)
Lemma ship_tracks n p i last window last' u : well_timed n p -> ev_pane env (at_look p) = Some i -> in_step n last window ->
  let g := ev_generation env (at_look p) in
  ship p i g (conversation_tuple i) (probe_stamp env p last) (read (at_read p) i g) last = (last', u) ->
  in_step (at_read p) last' (see window u) /\ (pl_sent p = true -> suffix (rows (read (at_read p) i g)) (see window u)).
Proof.
  intros Ht Hi Hin g. unfold ship. cbv zeta. set (page := read (at_read p) i g). pose proof (next_stamp_ok n p last window page Ht Hin) as Hst.
  assert (Hnow : forall w, suffix (rows page) w -> in_step (at_read p) (Some (mkLast g (Some (conversation_tuple i)) (next_stamp last page (probe_stamp env p last)) (bp_probe_path page) (sent_wal last page) (of_page page))) w).
  { intros w Hw. exists (at_look p), (at_read p), i. cbn [lr_generation lr_sig lr_stamp lr_probe_path lr_wal_path]. cbv zeta. fold page. split; [unfold well_timed in Ht; lia|]. split_and!; try done. by eapply sent_wal_ok. }
  assert (Hkeep : in_step (at_read p) last window) by (eapply in_step_later; [|exact Hin]; unfold well_timed in Ht; lia).
  unfold decide_update. destruct last as [prev|]; [|destruct (pl_sent p); intros [= <- <-]; [|done]; split; [apply Hnow; reflexivity|intros _; reflexivity]].
  case_decide as Hg; [destruct (pl_sent p); intros [= <- <-]; [|done]; split; [apply Hnow; reflexivity|intros _; reflexivity]|].
  assert (Hgen : lr_generation prev = g /\ sg_resolved (lr_sig prev) = true) by (split; [destruct (decide (lr_generation prev = g)); tauto|destruct (sg_resolved _); tauto]). destruct Hgen as [Hgen Hr].
  pose proof Hin as Hold. cbn [in_step] in Hold. unfold tracks in Hold. rewrite Hr in Hold. destruct Hold as (look & t & i0 & Hlt & Hlook & Hlg & Hsig & Hsuf & Hpp & Hwp & _).
  case_decide as Hs; [|case_decide; [|destruct (append_delta _ _ _) as [appended|] eqn:Ea]].
  - intros [= <- <-]. assert (Erows : rows page = rows (read t i0 (lr_generation prev))) by (apply same_sig_same_rows; unfold page in *; congruence). rewrite <- Erows in Hsuf. split; [|done].
    cbn [refresh mbind option_bind in_step see]. unfold tracks. cbn [lr_generation lr_sig lr_stamp lr_probe_path lr_wal_path]. rewrite Hr, Hgen. cbv zeta. exists (at_look p), (at_read p), i. fold page.
    split; [unfold well_timed in Ht; lia|]. split_and!; try done. destruct (bool_decide (lr_probe_path prev = _) && _) eqn:Esame; [|done]. by eapply (same_probe_wal n prev).
  - destruct (pl_sent p); intros [= <- <-]; [|done]. split; [apply Hnow; reflexivity|intros _; reflexivity].
  - destruct (pl_sent p); intros [= <- <-]; [|done]. rewrite Hsig in Ea. apply append_continues in Ea. cbn [see client_step up_reset up_messages].
    assert (Hw : suffix (rows page) (window ++ (entry_json <$> appended))). { etransitivity; [exact Ea|]. destruct Hsuf as [k ->]. exists k. by rewrite app_assoc. }
    split; [by apply Hnow|done].
  - destruct (pl_sent p); intros [= <- <-]; [|done]. split; [apply Hnow; reflexivity|intros _; reflexivity].
Qed.

Lemma poll_tracks n p last window last' u : well_timed n p -> in_step n last window -> poll env pane_id p last = (last', u) -> in_step (at_fence p) last' (see window u).
Proof.
  intros Ht Hin. assert (Hkeep : in_step (at_fence p) last window) by (eapply in_step_later; [|exact Hin]; unfold well_timed in Ht; lia). unfold poll. destruct (ev_pane env (at_look p)) as [i|] eqn:Ei.
  - cbv zeta. destruct (settled _ _ _ _); [by intros [= <- <-]|]. destruct (pl_joined p); [|by intros [= <- <-]]. cbn [negb]. destruct (fence_holds _ _ _ _); [|by intros [= <- <-]]. cbn [negb].
    case_decide; [by intros [= <- <-]|]. intros Hs. eapply ship_tracks in Hs as [Hs _]; [|exact Ht|exact Ei|exact Hin]. eapply in_step_later; [|exact Hs]. unfold well_timed in Ht. lia.
  - unfold emit_tombstone. cbv zeta. case_decide; [by intros [= <- <-]|]. destruct (pl_sent p); intros [= <- <-]; [done|exact Hkeep].
Qed.

Lemma client_snoc frames u : client (frames ++ option_list u) = see (client frames) u.
Proof. unfold client. rewrite foldl_app. by destruct u. Qed.

Definition poll_of (ev : Event) : option Poll := match ev with Tick _ _ p | Invalidated _ _ _ p | Lagged _ _ p => Some p | Cancelled | Closed => None end.
Fixpoint timed (n : nat) (ps : list Poll) : Prop := match ps with [] => True | p :: ps => well_timed n p /\ timed (at_fence p) ps end.

Lemma polled_tracks n p a b f : well_timed n p -> in_step n (fd_last f) (client (fd_sent f)) ->
  let f' := polled env pane_id p a b f in in_step (at_fence p) (fd_last f') (client (fd_sent f')).
Proof.
  intros Ht Hin. unfold polled. destruct (poll env pane_id p (fd_last f)) as [last u] eqn:E. cbn. rewrite client_snoc. by eapply poll_tracks.
Qed.
Lemma early_tracks n now after p f : well_timed n p -> in_step n (fd_last f) (client (fd_sent f)) ->
  let f' := early_poll env pane_id now after p f in in_step (at_fence p) (fd_last f') (client (fd_sent f')).
Proof.
  intros Ht Hin. unfold early_poll. case_decide; [by eapply polled_tracks|]. eapply in_step_later; [|exact Hin]. unfold well_timed in Ht. lia.
Qed.

Lemma run_tracks evs : forall n ps f f', feed_run env pane_id f evs = Some f' -> timed n (omap poll_of evs ++ ps) -> in_step n (fd_last f) (client (fd_sent f)) ->
  exists n', timed n' ps /\ in_step n' (fd_last f') (client (fd_sent f')).
Proof.
  induction evs as [|ev evs IH]; intros n ps f f' Hr Ht Hin; [injection Hr as <-; by exists n|]. cbn [feed_run] in Hr. destruct (feed_step env pane_id f ev) as [f1|] eqn:E; [|done]. cbn [mbind option_bind] in Hr.
  assert (Hlater : forall p, well_timed n p -> in_step (at_fence p) (fd_last f) (client (fd_sent f))) by (intros p Hp; eapply in_step_later; [|exact Hin]; unfold well_timed in Hp; lia).
  unfold feed_step in E. destruct (fd_stopped f); [done|]. destruct ev as [|before after p|pane now after p|now after p|]; cbn in Ht.
  - injection E as <-. by eapply IH.
  - case_decide; [|done]. injection E as <-. destruct Ht as [Hp Ht]. eapply IH; [exact Hr|exact Ht|by eapply polled_tracks].
  - case_decide; [|done]. injection E as <-. destruct Ht as [Hp Ht]. eapply IH; [exact Hr|exact Ht|]. case_decide; [by eapply early_tracks|by apply Hlater].
  - case_decide; [|done]. injection E as <-. destruct Ht as [Hp Ht]. eapply IH; [exact Hr|exact Ht|by eapply early_tracks].
  - injection E as <-. by eapply IH.
Qed.

(** A poll whose frame is taken shows the transcript. *)
Lemma poll_shows n p i last window last' u : well_timed n p -> in_step n last window -> poll env pane_id p last = (last', u) -> ev_pane env (at_look p) = Some i ->
  let g := ev_generation env (at_look p) in
  pl_sent p = true -> pl_joined p = true -> fence_holds env (at_fence p) g (conversation_tuple i) = true -> bp_state (read (at_read p) i g) <> Failed ->
  (forall l, last = Some l -> lr_probe_path l <> ""%string -> ps_source (lr_stamp l) = None -> ev_stat env (at_stat p) (lr_probe_path l) <> None) ->
  exists look t i', (look <= t)%nat /\ (at_stat p <= t <= at_read p)%nat /\ ev_pane env look = Some i' /\ ev_generation env look = g /\ suffix (rows (read t i' g)) (see window u).
Proof.
  intros Ht Hin Hp Hi g Hsent Hj Hf Hs Hstat. unfold poll in Hp. rewrite Hi in Hp. cbv zeta in Hp. fold g in Hp. destruct (settled _ _ _ _) eqn:Es.
  - injection Hp as <- <-. destruct last as [prev|]; [|done]. cbn [settled] in Es. rewrite !andb_true_iff, negb_true_iff, !bool_decide_eq_true, bool_decide_eq_false in Es.
    destruct Es as [[[[Hr Hg] _] Hpath] Hprobe]. cbn [in_step] in Hin. unfold tracks in Hin. rewrite Hr in Hin. destruct Hin as (look & t & i0 & Hlt & Hlook & Hlg & _ & Hsuf & Hpp & Hwp & Hst).
    exists look, (at_stat p), i0. unfold well_timed in Ht. split; [lia|]. split; [lia|]. split; [done|]. split; [congruence|]. cbn [see].
    cbn [probe_stamp mbind option_bind] in Hprobe. rewrite decide_False in Hprobe by done. injection Hprobe as Hprobe. specialize (Hstat prev eq_refl Hpath).
    assert (Hthere : ev_stat env (at_stat p) (lr_probe_path prev) <> None) by (intros Hn; apply Hstat; [rewrite <- Hprobe|]; exact Hn). clear Hstat. rename Hthere into Hstat.
    rewrite Hpp in Hpath, Hstat. rewrite Hpp, Hwp in Hprobe.
    rewrite <- Hg. destruct Hst as [Hm|(s & Hst & Hs')].
    + exfalso. rewrite Hm in Hprobe. by injection Hprobe.
    + assert (E : stamp_at env s (bp_probe_path (read t i0 (lr_generation prev))) (fresh_wal (read t i0 (lr_generation prev))) =
                  stamp_at env (at_stat p) (bp_probe_path (read t i0 (lr_generation prev))) (fresh_wal (read t i0 (lr_generation prev)))) by congruence.
      rewrite (hn_stamps H s t (at_stat p) i0 (lr_generation prev)); [done|lia|done| |done]. injection E as E _. by rewrite E.
  - rewrite Hj, Hf, decide_False in Hp by done. cbn [negb] in Hp. eapply ship_tracks in Hp as [_ Hp]; [|exact Ht|exact Hi|exact Hin]. exists (at_look p), (at_read p), i. unfold well_timed in Ht.
    split_and!; [lia|lia|lia|done|done|by apply Hp].
Qed.

End Claims.


(** ** Concrete feeds *)

#[local] Instance plain_sha : Sha256 := {| sha256 := id |}.
#[local] Instance plain_text : SessionActor.SerdeText := {| SessionActor.serde_text v := match v with JObject ((_, JString s) :: _) => s | _ => "?" end |}.
#[local] Instance plain_case : Protocol.CaseMapping := {| Protocol.to_lowercase := id |}.

Definition line (id : string) : Entry := mkEntry id "" "user" id [] false.
Definition demo_pane : Pane := mkPane "p" "t" "w" "tab" (Some "codex"%string) (Some ("codex"%string, "s1"%string)) None None.
Definition demo_page (l : list Entry) : BrowsePage := mkPage true "" l Ready Recent "rev" None "/log".

(** The transcript grows from one line to two at instant 10. *)
Definition growing : Environment :=
  mkEnv (fun _ => Some demo_pane) (fun _ => 1) (fun t _ => if decide (t < 10)%nat then Some (1, 1, 1, 1) else Some (1, 1, 2, 2))
    (fun t _ => demo_page (if decide (t < 10)%nat then [line "a"] else [line "a"; line "b"])).
Definition poll_at (t : nat) : Poll := mkPoll t t t t true true.

Lemma growing_lines e m : shown growing "p" e m -> (e = line "a" \/ e = line "b") /\ m = Recent.
Proof.
  intros (t & i & g & He & ->). split; [|done]. unfold read, growing in He. cbn [ev_page demo_page bp_entries] in He. case_decide; repeat (apply elem_of_cons in He as [->|He]; [tauto|]); by apply not_elem_of_nil in He.
Qed.
Lemma growing_honest : honest growing "p".
Proof.
  split.
  - intros e m e' m' [[-> | ->] _]%growing_lines [[-> | ->] _]%growing_lines; vm_compute; congruence.
  - intros e m [[-> | ->] _]%growing_lines; vm_compute; congruence.
  - intros e m e' m' [[-> | ->] _]%growing_lines [[-> | ->] _]%growing_lines; vm_compute; congruence.
  - intros s t u i g [Hst Htu] _ _. unfold rows, read, stamp_at, growing. cbn [ev_page ev_stat demo_page bp_entries bp_probe_path]. intros E. injection E as E. repeat case_decide; try lia; try discriminate E; reflexivity.
Qed.

Definition demo_last (f : option Feed) : Feed := default (mkFeed None 0 0 [] true) f.
Definition after_first : Feed := begin_feed growing "p" 0 (poll_at 0).
Definition after_tick : Feed := demo_last (feed_step growing "p" (demo_last (feed_run growing "p" after_first [Tick 1000 1000 (poll_at 5)])) (Tick 2000 2000 (poll_at 12))).


(** A source that vanishes before it was read a second time: the sentinel of
    the unconfirmed stamp is the stamp of a missing file, so the poll takes the
    page for settled although a read would find nothing. *)
Definition vanishing : Environment :=
  mkEnv (fun _ => Some demo_pane) (fun _ => 1) (fun t _ => if decide (t < 10)%nat then Some (1, 1, 1, 1) else None)
    (fun t _ => if decide (t < 10)%nat then demo_page [line "a"] else mkPage false "source_missing" [] Ready Recent "" None "").
Example vanished_source_is_settled : let f := demo_last (feed_run vanishing "p" (begin_feed vanishing "p" 0 (poll_at 0)) [Tick 1000 1000 (poll_at 12); Tick 2000 2000 (poll_at 20)]) in
  client (fd_sent f) = [entry_json (line "a")] /\ bp_available (read vanishing "p" 20 demo_pane 1) = false.
Proof. split; reflexivity. Qed.

(** The send buffer merges frames of this type: of a reset and an append that
    are queued together the client gets the append only. *)
Definition wire (u : Update) : bytes := as_bytes (String.concat "," ((fun v => SessionActor.serde_text v) <$> up_messages u)).
Definition push_update (b : SendBuffer.SendBuffer) (u : Update) : SendBuffer.SendBuffer :=
  fst (SendBuffer.push_typed b (wire u) "conversation_update" (SendBuffer.is_replaceable "conversation_update")).
Example queued_reset_is_lost : let sent := fd_sent after_tick in
  wire <$> sent = [as_bytes "a"; as_bytes "b"] /\ SendBuffer.data <$> SendBuffer.items (foldl push_update SendBuffer.new sent) = [as_bytes "b"].
Proof. split; reflexivity. Qed.

End ConvoClaims.
