(* ===== verification/Release.v ===== *)
(** * Release bundles

    [lerdr-coord/src/release.rs]: the manifest that pins every file of a
    bundle, building and verifying it, sealing, switching the current release
    and pruning old ones.  A directory tree is the finite map of its paths;
    reads of it succeed, and what lies behind a symbolic link is a parameter. *)

From S2P Require Import Prelude Utf8 Json JsonWire Inbound Protocol WriteAudit UploadZip UploadIndex UploadsRestart PushTypes PushDocs PushState PushDurable.

Module Release.
Import Utf8 Json JsonWire Inbound Protocol.

Definition MANIFEST_NAME : string := "release-manifest.json".
Definition MANIFEST_SCHEMA : Z := 1.
Definition REQUIRED_FILES : list string :=
  ["lerdr-relay"; "README.md"; "scripts/common.sh"; "scripts/plugin-on-event.sh"; "scripts/plugin-on-startup.sh"; "scripts/setup-link.sh"; "scripts/tailscale-serve.sh";
   "scripts/tailscale-service.sh"]%string.
Definition RELAY_BINARY : string := "lerdr-relay".
Definition ENCRYPTED_WEBSOCKET_SUBPROTOCOL : string := "herdr-e2ee-v2".

(** ** The manifest *)

Record Manifest := mkManifest {
  m_schema : Z;
  m_version : string;
  m_revision : string;
  m_target : string;
  m_web_hash : option string;
  m_app_transports : list string;
  m_relay_transports : list string;
  m_files : gmap string string;
}.

Definition strings_member (name : string) (l : list string) : list (string * json) := if decide (l = []) then [] else [(name, JArray (JString <$> l))].
Definition manifest_json (m : Manifest) : json :=
  JObject ([("schema", json_int (m_schema m)); ("version", JString (m_version m)); ("revision", JString (m_revision m)); ("target", JString (m_target m))]%string ++
           match m_web_hash m with Some h => [("web_hash"%string, JString h)] | None => [] end ++
           strings_member "app_transports" (m_app_transports m) ++ strings_member "relay_transports" (m_relay_transports m) ++ [("files"%string, PushTypes.map_json JString (m_files m))]).

Definition manifest_fields : list string := ["schema"; "version"; "revision"; "target"; "web_hash"; "app_transports"; "relay_transports"; "files"]%string.
Definition de_manifest (v : json) : option Manifest :=
  fs ← de_struct manifest_fields v;
  match fs with
  | [a; b; c; d; e; g; h; i] =>
      a ← de_i64 a; b ← de_string b; c ← de_string c; d ← de_string d; e ← de_opt_string e; g ← de_strings g; h ← de_strings h; i ← UploadIndex.de_or ∅ (PushDocs.de_map as_str) i;
      Some (mkManifest a b c d e g h i)
  | _ => None
  end.

(** ** Trees *)

Inductive Kind := KFile (mode : Z) (data : bytes) | KDir (mode : Z) | KLink (target : string) | KSpecial.
(** The root is the empty path. *)
Abbreviation Tree := (gmap (list string) Kind).

(** [filepath.WalkDir]: a directory before its children, children by name. *)
Fixpoint path_leb (p q : list string) : bool :=
  match p, q with
  | [], _ => true
  | _ :: _, [] => false
  | a :: p, b :: q => if decide (a = b) then path_leb p q else bool_decide (String.le a b)
  end.
Definition visit_le (x y : list string * Kind) : Prop := path_leb x.1 y.1 = true.
#[export] Instance visit_le_dec : RelDecision visit_le.
Proof. intros x y. unfold visit_le. apply _. Defined.
Definition walk_tree (t : Tree) : list (list string * Kind) := merge_sort visit_le (map_to_list t).

Definition split_path (name : string) : list string := string_of_bytes <$> UploadZip.split_slash (as_bytes name).
(** [slash_relative]. *)
Definition slash_relative (path : list string) : string := string_of_bytes (UploadZip.join_slash (as_bytes <$> path)).

(** ** Names *)

Inductive NameError := NotRelative | Escapes.

Definition clean_part (out : list bytes) (part : bytes) : list bytes :=
  if decide (part = [] \/ part = [46]) then out
  else if decide (part = [46; 46]) then
    match out with
    | last :: rest => if decide (last <> [46; 46]) then rest else [46; 46] :: out
    | [] => [[46; 46]]
    end
  else part :: out.
(** [path.Clean] of a relative path; the stack has its top first. *)
Definition clean_slash (name : bytes) : bytes :=
  let out := reverse (foldl clean_part [] (UploadZip.split_slash name)) in
  if decide (out = []) then [46] else UploadZip.join_slash out.
Definition clean_relative (name : string) : result NameError string :=
  let b := as_bytes name in
  if decide (b = [] \/ 92 ∈ b \/ head b = Some 47) then Err NotRelative
  else
    let clean := clean_slash b in
    if decide (clean = [46] \/ clean = [46; 46] \/ take 3 clean = [46; 46; 47]) then Err Escapes else Ok (string_of_bytes clean).

Definition lower_hex (b : Z) : bool := in_range 48 57 b || in_range 97 102 b.
Definition valid_sha256 (value : string) : bool := bool_decide (String.length value = 64%nat) && forallb lower_hex (as_bytes value).

(** ** Verification *)

Inductive HashError := Missing | NotRegular.
Inductive ReleaseError :=
| ReadManifest | ParseManifest | UnsupportedSchema (schema : Z) | IdentityMissing | ContentMissing
| TargetMismatch (found expected : string)
| InvalidPath (name : string) (why : NameError) | NotCanonical (name : string) | InvalidHash (name : string)
| Unreadable (name : string) (why : HashError) | HashMismatch (name : string) | WebHashMismatch
| HasSymlink (name : string) | HasSpecial (name : string) | NotListed (name : string) | RequiredMissing (name : string) | NotExecutable
| StampMissing | Unwritten.

Section Verify.
Context `{DG : WriteAudit.Digest} `{CM : CaseMapping} `{DJ : UploadIndex.DocumentJson} `{PJ : PushTypes.PrettyJson}.
(** What a path behind a symbolic link leads to. *)
Context (through : string -> list string -> option Kind).

(** [symlink_metadata]: links on the way are followed, the last one is not. *)
Fixpoint descend (t : Tree) (here rest : list string) : option Kind :=
  match rest with
  | [] => t !! here
  | s :: rest' =>
      match t !! here with
      | Some (KDir _) => descend t (here ++ [s]) rest'
      | Some (KLink target) => through target rest
      | _ => None
      end
  end.
Definition lstat (t : Tree) (name : string) : option Kind := descend t [] (split_path name).
Definition stat (t : Tree) (name : string) : option Kind := match lstat t name with Some (KLink target) => through target [] | k => k end.

Definition hash_regular_file (t : Tree) (name : string) : result HashError string :=
  match lstat t name with
  | None => Err Missing
  | Some (KFile _ data) => Ok (WriteAudit.sha256_hex data)
  | Some _ => Err NotRegular
  end.

Definition hash_line (x : string * string) : bytes := as_bytes x.1 ++ [0] ++ as_bytes x.2 ++ [10].
Definition hash_file_map (files : gmap string string) (prefix : string) : option string :=
  let chosen := filter (fun x => String.prefix prefix x.1 = true) (btree_list files) in
  if decide (chosen = []) then None else Some (WriteAudit.sha256_hex (chosen ≫= hash_line)).

Definition load (t : Tree) : result ReleaseError Manifest :=
  match stat t MANIFEST_NAME with
  | Some (KFile _ data) =>
      match UploadIndex.from_slice data ≫= de_manifest with
      | None => Err ParseManifest
      | Some m =>
          if decide (m_schema m <> MANIFEST_SCHEMA) then Err (UnsupportedSchema (m_schema m))
          else if decide (trim (m_version m) = ""%string \/ trim (m_revision m) = ""%string) then Err IdentityMissing
          else if decide (m_target m = ""%string \/ m_files m = ∅) then Err ContentMissing
          else Ok m
      end
  | _ => Err ReadManifest
  end.

Definition check_listed (t : Tree) (x : string * string) : option ReleaseError :=
  let '(name, expected) := x in
  match clean_relative name with
  | Err e => Some (InvalidPath name e)
  | Ok clean =>
      if decide (clean <> name) then Some (NotCanonical name)
      else if negb (valid_sha256 expected) then Some (InvalidHash name)
      else match hash_regular_file t clean with
           | Err e => Some (Unreadable name e)
           | Ok actual => if decide (actual <> to_lowercase expected) then Some (HashMismatch name) else None
           end
  end.
Definition check_visited (files : gmap string string) (x : list string * Kind) : option ReleaseError :=
  let '(path, kind) := x in
  if decide (path = []) then None
  else
    let relative := slash_relative path in
    match kind with
    | KLink _ => Some (HasSymlink relative)
    | KDir _ => None
    | _ =>
        if decide (relative = MANIFEST_NAME) then None
        else match kind with
             | KFile _ _ => if decide (files !! relative = None) then Some (NotListed relative) else None
             | _ => Some (HasSpecial relative)
             end
    end.
Definition check_required (files : gmap string string) (name : string) : option ReleaseError := if decide (files !! name = None) then Some (RequiredMissing name) else None.
Definition is_executable (mode : Z) : bool := negb (bool_decide (Z.land mode 73 = 0)).

Definition first_error {A} (check : A -> option ReleaseError) (l : list A) : option ReleaseError := head (omap check l).

Definition verify (t : Tree) (expected_target : string) : result ReleaseError Manifest :=
  match load t with
  | Err e => Err e
  | Ok m =>
      if decide (expected_target <> ""%string /\ m_target m <> expected_target) then Err (TargetMismatch (m_target m) expected_target)
      else match first_error (check_listed t) (btree_list (m_files m)) with
      | Some e => Err e
      | None =>
          if decide (m_web_hash m <> hash_file_map (m_files m) "web/") then Err WebHashMismatch
          else match first_error (check_visited (m_files m)) (walk_tree t) with
          | Some e => Err e
          | None =>
              match first_error (check_required (m_files m)) REQUIRED_FILES with
              | Some e => Err e
              | None => match stat t RELAY_BINARY with
                        | Some (KFile mode _) | Some (KDir mode) => if is_executable mode then Ok m else Err NotExecutable
                        | _ => Err NotExecutable
                        end
              end
          end
      end
  end.

(** ** Building *)

Definition check_built (x : list string * Kind) : option ReleaseError :=
  let '(path, kind) := x in
  if decide (path = []) then None
  else
    let relative := slash_relative path in
    match kind with
    | KLink _ => Some (HasSymlink relative)
    | KDir _ => None
    | KFile _ _ => None
    | KSpecial => if decide (relative = MANIFEST_NAME) then None else Some (HasSpecial relative)
    end.
Definition hashed (x : list string * Kind) : option (string * string) :=
  let '(path, kind) := x in
  match kind with
  | KFile _ data => if decide (path = [] \/ slash_relative path = MANIFEST_NAME) then None else Some (slash_relative path, WriteAudit.sha256_hex data)
  | _ => None
  end.
Definition build_files (t : Tree) : gmap string string := PushDocs.insert_all (omap hashed (walk_tree t)).

(** [written] is whether the write and the rename of the manifest succeed. *)
Definition build (t : Tree) (written : bool) (version revision target : string) : Tree * result ReleaseError Manifest :=
  if decide (trim version = ""%string \/ trim revision = ""%string \/ trim target = ""%string) then (t, Err StampMissing)
  else match first_error check_built (walk_tree t) with
  | Some e => (t, Err e)
  | None =>
      let files := build_files t in
      let m := mkManifest MANIFEST_SCHEMA version revision target (hash_file_map files "web/") [ENCRYPTED_WEBSOCKET_SUBPROTOCOL] [ENCRYPTED_WEBSOCKET_SUBPROTOCOL] files in
      if written then (<[[MANIFEST_NAME] := KFile 420 (PushState.document (manifest_json m))]> t, Ok m) else (t, Err Unwritten)
  end.

(** ** Sealing *)

Definition readonly_mode (mode : Z) : Z := Z.land (Z.land mode 511) (Z.lnot 146).
Definition readonly (k : Kind) : Kind := match k with KFile mode data => KFile (readonly_mode mode) data | KDir mode => KDir (readonly_mode mode) | k => k end.
Definition seal (t : Tree) : Tree * result ReleaseError unit := match verify t "" with Err e => (t, Err e) | Ok _ => (readonly <$> t, Ok tt) end.
End Verify.

(** ** Identity *)

Record BinaryStamp := mkBinary { b_version : string; b_revision : string; b_target : string }.
Inductive IdentityError := ExpectedVersion | ExpectedRevision | ExpectedTarget | BinaryVersion | BinaryRevision | BinaryTarget.
Definition verify_identity (m : Manifest) (expected_version expected_revision expected_target : string) (allow_cross_target : bool) (b : BinaryStamp) : option IdentityError :=
  if decide (expected_version <> ""%string /\ m_version m <> expected_version) then Some ExpectedVersion
  else if decide (expected_revision <> ""%string /\ m_revision m <> expected_revision) then Some ExpectedRevision
  else if decide (expected_target <> ""%string /\ m_target m <> expected_target) then Some ExpectedTarget
  else if decide (m_version m <> b_version b) then Some BinaryVersion
  else if decide (m_revision m <> b_revision b) then Some BinaryRevision
  else if decide (allow_cross_target = false /\ m_target m <> b_target b) then Some BinaryTarget
  else None.

(** ** Switching and pruning *)

(** A path: whether it is absolute, and its components without [.]. *)
Record FsPath := mkPath { fp_rooted : bool; fp_elems : list string }.
#[export] Instance FsPath_eq_dec : EqDecision FsPath.
Proof. solve_decision. Defined.
Definition UP : string := "..".

Definition clean_elem (rooted : bool) (out : list string) (e : string) : list string :=
  if decide (e = UP) then
    match out with
    | last :: rest => if decide (last <> UP) then rest else UP :: out
    | [] => if rooted then [] else [UP]
    end
  else e :: out.
Definition clean_elems (rooted : bool) (l : list string) : list string := reverse (foldl (clean_elem rooted) [] l).
Definition clean_path (p : FsPath) : FsPath := mkPath (fp_rooted p) (clean_elems (fp_rooted p) (fp_elems p)).
(** [Path::join]. *)
Definition join_path (p q : FsPath) : FsPath := if fp_rooted q then q else mkPath (fp_rooted p) (fp_elems p ++ fp_elems q).

Fixpoint shared_elems (a b : list string) : nat := match a, b with x :: a, y :: b => if decide (x = y) then S (shared_elems a b) else 0 | _, _ => 0 end.
(** [None] is the refusal. *)
Definition rel_path (base targ : FsPath) : option FsPath :=
  let base := clean_path base in
  let targ := clean_path targ in
  if decide (base = targ) then Some (mkPath false [])
  else if decide (fp_rooted base <> fp_rooted targ) then None
  else
    let shared := shared_elems (fp_elems base) (fp_elems targ) in
    if decide (fp_elems base !! shared = Some UP) then None
    else Some (mkPath false (replicate (length (fp_elems base) - shared) UP ++ drop shared (fp_elems targ))).

(** The target of the [current] link; [None] is the refusal. *)
Definition activate (release_root release_dir : FsPath) : option FsPath :=
  relative ← rel_path release_root release_dir;
  if decide (head (fp_elems relative) = Some UP) then None else Some relative.

Section Prune.
Context `{DG : WriteAudit.Digest} `{CM : CaseMapping} `{DJ : UploadIndex.DocumentJson}.
Context (through : string -> list string -> option Kind).

(** The candidates of [releases]: name, tree (with its own kind at the root). *)
Definition removable (releases_dir : FsPath) (kept : list FsPath) (target : string) (x : string * Tree) : bool :=
  match x.2 !! [] with
  | Some (KDir _) =>
      negb (String.prefix ".update-" x.1) && negb (bool_decide (clean_path (join_path releases_dir (mkPath false [x.1])) ∈ kept)) &&
      match verify through x.2 target with Ok _ => true | Err _ => false end
  | _ => false
  end.
(** The names that are deleted; [None] is the refusal of the root.  [keep] is
    without its empty items, which the code skips. *)
Definition prune_old_releases (release_root cwd : FsPath) (keep : list FsPath) (target : string) (dirs : list (string * Tree)) : option (list string) :=
  if decide (fp_rooted release_root = false \/ fp_elems (clean_path release_root) = []) then None
  else
    let kept := (fun p => clean_path (join_path cwd p)) <$> keep in
    Some (filter (fun x => removable (join_path release_root (mkPath false ["releases"%string])) kept target x = true) dirs).*1.
End Prune.

End Release.

(** ** What a manifest pins *)

Module ReleaseClaims.
Import Utf8 Json Release.

Definition UPB : bytes := [46; 46].
(** The name of a directory entry. *)
Definition plain_bytes (b : bytes) : Prop := b <> [] /\ 47 ∉ b /\ b <> [46] /\ b <> UPB.
Definition plain (s : string) : Prop := plain_bytes (as_bytes s).

(** A directory tree: entries have names and lie in directories. *)
Record tree_ok (t : Tree) : Prop := {
  to_root : exists mode, t !! [] = Some (KDir mode);
  to_parent p s k : t !! (p ++ [s]) = Some k -> plain s /\ exists mode, t !! p = Some (KDir mode);
}.

(** *** Splitting and joining *)

Lemma split_slash_nonempty b : UploadZip.split_slash b <> [].
Proof. induction b as [|c b IH]; [done|]. cbn. destruct (UploadZip.split_slash b); [done|]. by case_decide. Qed.
Lemma split_plain b : 47 ∉ b -> UploadZip.split_slash b = [b].
Proof. induction b as [|c b IH]; [done|]. intros H. apply not_elem_of_cons in H as [Hc H]. cbn. rewrite IH by done. by rewrite decide_False. Qed.
Lemma split_cons a rest : 47 ∉ a -> UploadZip.split_slash (a ++ 47 :: rest) = a :: UploadZip.split_slash rest.
Proof.
  induction a as [|c a IH]; intros H; cbn.
  - pose proof (split_slash_nonempty rest). by destruct (UploadZip.split_slash rest).
  - apply not_elem_of_cons in H as [Hc H]. rewrite IH by done. by rewrite decide_False.
Qed.
Lemma segs_of_join segs : segs <> [] -> Forall (fun b => 47 ∉ b) segs -> UploadZip.split_slash (UploadZip.join_slash segs) = segs.
Proof.
  induction segs as [|a [|b segs] IH]; intros Hn Hs; [done| |]; apply Forall_cons in Hs as [Ha Hs]; cbn [UploadZip.join_slash]; [by apply split_plain|].
  rewrite split_cons by done. f_equal. by apply IH.
Qed.
Lemma join_of_segs b : UploadZip.join_slash (UploadZip.split_slash b) = b.
Proof.
  induction b as [|c b IH]; [done|]. cbn. pose proof (split_slash_nonempty b). destruct (UploadZip.split_slash b) as [|seg segs] eqn:E; [done|]. case_decide as Hc.
  - cbn [UploadZip.join_slash app]. rewrite Hc. f_equal. exact IH.
  - destruct segs; cbn [UploadZip.join_slash app] in *; by rewrite <- IH.
Qed.
Lemma split_no_slash b : Forall (fun s => 47 ∉ s) (UploadZip.split_slash b).
Proof.
  induction b as [|c b IH]; [apply Forall_singleton, not_elem_of_nil|]. cbn. pose proof (split_slash_nonempty b). destruct (UploadZip.split_slash b) as [|seg segs]; [done|].
  apply Forall_cons in IH as [H1 H2]. case_decide; repeat constructor; try done; [apply not_elem_of_nil|]. by apply not_elem_of_cons.
Qed.

Lemma join_u8 segs : Forall (Forall is_u8) segs -> Forall is_u8 (UploadZip.join_slash segs).
Proof. induction 1 as [|a [|b segs] Ha Hs IH]; [constructor|done|]. cbn [UploadZip.join_slash]. apply Forall_app. split; [done|]. constructor; [unfold is_u8, u8_max; lia|exact IH]. Qed.
Lemma split_u8 b : Forall is_u8 b -> Forall (Forall is_u8) (UploadZip.split_slash b).
Proof.
  induction 1 as [|c b Hc _ IH]; [by apply Forall_singleton|]. cbn. pose proof (split_slash_nonempty b). destruct (UploadZip.split_slash b) as [|seg segs]; [done|]. apply Forall_cons in IH as [H1 H2].
  case_decide; repeat apply Forall_cons_2; done.
Qed.
Lemma relative_bytes path : as_bytes (slash_relative path) = UploadZip.join_slash (as_bytes <$> path).
Proof. unfold slash_relative. apply as_bytes_of_bytes, join_u8, Forall_fmap, Forall_true. intros x. apply as_bytes_u8. Qed.

Lemma relative_split name : slash_relative (split_path name) = name.
Proof.
  apply as_bytes_inj. rewrite relative_bytes. unfold split_path. rewrite <- list_fmap_compose. rewrite <- (join_of_segs (as_bytes name)) at 2. f_equal.
  rewrite <- (list_fmap_id (UploadZip.split_slash (as_bytes name))) at 2. apply list_fmap_ext. intros i x Hx. cbn. apply as_bytes_of_bytes.
  eapply (Forall_lookup_1 _ _ _ _ (split_u8 _ (as_bytes_u8 name)) Hx).
Qed.
Lemma split_relative path : path <> [] -> Forall plain path -> split_path (slash_relative path) = path.
Proof.
  intros Hn Hp. unfold split_path. rewrite relative_bytes, segs_of_join.
  - rewrite <- list_fmap_compose. rewrite <- (list_fmap_id path) at 2. apply list_fmap_ext. intros i x _. cbn. apply string_of_as_bytes.
  - by destruct path.
  - apply Forall_fmap. eapply Forall_impl; [exact Hp|]. by intros x (_ & ? & _).
Qed.

(** *** Canonical names *)

Definition stack_ok (st : list bytes) : Prop := exists a n, st = a ++ replicate n UPB /\ Forall plain_bytes a.
Lemma clean_part_ok st part : 47 ∉ part -> stack_ok st -> stack_ok (clean_part st part).
Proof.
  intros Hp (a & n & -> & Ha). unfold clean_part. case_decide as H1; [by exists a, n|]. case_decide as H2.
  - destruct a as [|x a]; cbn.
    + destruct n as [|n]; cbn; [by exists [], 1%nat|]. rewrite decide_False by (intros E; by apply E). by exists [], (S (S n)).
    + apply Forall_cons in Ha as [(_ & _ & _ & Hx) Ha]. rewrite decide_True by done. by exists a, n.
  - exists (part :: a), n. split; [done|]. constructor; [|done]. unfold plain_bytes, UPB. tauto.
Qed.
Lemma cleaned_stack_ok l : Forall (fun s => 47 ∉ s) l -> forall st, stack_ok st -> stack_ok (foldl clean_part st l).
Proof. induction 1 as [|x l Hx _ IH]; intros st Hst; [done|]. cbn. apply IH. by apply clean_part_ok. Qed.

Lemma clean_plain l : Forall plain_bytes l -> forall st, foldl clean_part st l = reverse l ++ st.
Proof.
  induction 1 as [|x l (H1 & _ & H2 & H3) _ IH]; intros st; [done|]. cbn [foldl]. rewrite IH, reverse_cons, <- app_assoc. f_equal. unfold clean_part. rewrite decide_False by tauto. by rewrite decide_False.
Qed.

Lemma clean_u8 b : Forall is_u8 b -> Forall is_u8 (clean_slash b).
Proof.
  intros Hb. unfold clean_slash. cbv zeta. case_decide; [repeat constructor; unfold is_u8, u8_max; lia|]. apply join_u8, Forall_reverse. pose proof (split_u8 b Hb) as Hs. clear Hb H.
  enough (H : forall st, Forall (Forall is_u8) st -> Forall (Forall is_u8) (foldl clean_part st (UploadZip.split_slash b))) by (apply H; constructor).
  induction Hs as [|x l Hx _ IH]; intros st Hst; [done|]. cbn. apply IH. assert (Hup : Forall is_u8 [46; 46]) by (repeat constructor; unfold is_u8, u8_max; lia).
  unfold clean_part. case_decide; [done|]. case_decide; [|by constructor]. destruct Hst; [by apply Forall_singleton|]. case_decide; [done|]. by repeat apply Forall_cons_2.
Qed.

(** A name that passes the canonical check is a path of entry names. *)
Lemma canonical_plain name : clean_relative name = Ok name -> Forall plain (split_path name).
Proof.
  unfold clean_relative. case_decide as H0; [done|]. cbv zeta. case_decide as H1; [done|]. intros [= E]. set (b := as_bytes name) in *.
  assert (Eb : clean_slash b = b) by (unfold b in *; rewrite <- E at 2; by rewrite as_bytes_of_bytes by apply clean_u8, as_bytes_u8). unfold clean_slash in Eb, H1. cbv zeta in Eb, H1.
  destruct (cleaned_stack_ok _ (split_no_slash b) []) as (a & n & Est & Ha); [by exists [], 0%nat|]. rewrite Est, reverse_app, reverse_replicate in Eb, H1.
  destruct (decide (replicate n UPB ++ reverse a = [])) as [Hn|Hn]; [tauto|]. assert (Hra : Forall plain_bytes (reverse a)) by (by apply Forall_reverse).
  destruct n as [|n].
  - cbn [replicate app] in *. apply Forall_fmap. fold b. rewrite <- Eb, segs_of_join; [|done|eapply Forall_impl; [exact Hra|by intros x (_ & ? & _)]].
    assert (Hu : Forall (Forall is_u8) (UploadZip.split_slash (UploadZip.join_slash (reverse a)))) by (rewrite Eb; apply split_u8, as_bytes_u8).
    rewrite segs_of_join in Hu; [|done|eapply Forall_impl; [exact Hra|by intros x (_ & ? & _)]].
    eapply Forall_impl; [exact (proj2 (Forall_and _ _) (conj Hra Hu))|]. intros x [Hx Hxu]. change (plain_bytes (as_bytes (string_of_bytes x))). by rewrite as_bytes_of_bytes.
  - exfalso. apply H1. cbn [replicate app]. destruct (replicate n UPB ++ reverse a) as [|y l]; [right; by left|]. right. right. reflexivity.
Qed.

Lemma plain_canonical path : path <> [] -> Forall plain path -> 92 ∉ as_bytes (slash_relative path) -> clean_relative (slash_relative path) = Ok (slash_relative path).
Proof.
  intros Hn Hp H92. unfold clean_relative. cbv zeta. assert (Hs : Forall plain_bytes (as_bytes <$> path)) by (by apply Forall_fmap).
  pose proof (relative_bytes path) as Hb. assert (Hne : as_bytes <$> path <> []) by (by destruct path). assert (Hout : slash_relative path = string_of_bytes (UploadZip.join_slash (as_bytes <$> path))) by done.
  rewrite Hb in *. revert Hs Hne H92 Hout. generalize (as_bytes <$> path). clear Hb. intros segs Hs Hne H92 ->. assert (Hsl : Forall (fun b => 47 ∉ b) segs) by (eapply Forall_impl; [exact Hs|by intros x (_ & ? & _)]).
  assert (Hc : clean_slash (UploadZip.join_slash segs) = UploadZip.join_slash segs).
  { unfold clean_slash. cbv zeta. rewrite segs_of_join, clean_plain, app_nil_r, reverse_involutive by done. by rewrite decide_False. }
  destruct segs as [|a segs]; [done|]. apply Forall_cons in Hs as [(Ha1 & Ha2 & Ha3 & Ha4) Hs]. destruct a as [|c a]; [done|].
  assert (Hhead : exists rest, UploadZip.join_slash ((c :: a) :: segs) = (c :: a) ++ rest /\ (rest = [] \/ head rest = Some 47)).
  { destruct segs as [|x segs]; cbn [UploadZip.join_slash]; [exists []; rewrite app_nil_r; tauto|]. eexists. split; [reflexivity|by right]. }
  destruct Hhead as (rest & Er & Hrest). apply not_elem_of_cons in Ha2 as [Hc47 Ha47]. rewrite decide_False; [|rewrite Er; cbn; intros [?|[?|?]]; [done|by rewrite Er in H92|congruence]].
  rewrite Hc, decide_False; [done|]. rewrite Er. unfold UPB in Ha4.
  intros [E|[E|E]]; destruct a as [|c2 [|c3 a]]; cbn in E; destruct rest as [|r [|r2 rest]]; cbn in E; destruct Hrest as [Hr|Hr]; cbn in Hr; try discriminate; try congruence.
  all: try (injection E; intros; subst; set_solver).
Qed.

(** *** Trees *)

Lemma parent_dir t here s rest : tree_ok t -> is_Some (t !! (here ++ s :: rest)) -> exists mode, t !! here = Some (KDir mode).
Proof.
  intros Hok. revert here s. induction rest as [|s2 rest IH]; intros here s Hk.
  - destruct Hk as [k Hk]. by apply (to_parent t Hok here s k).
  - assert (E : here ++ s :: s2 :: rest = (here ++ [s]) ++ s2 :: rest) by (by rewrite <- app_assoc). rewrite E in Hk. destruct (IH _ _ Hk) as [mode Hm]. by apply (to_parent t Hok here s (KDir mode)).
Qed.
Lemma path_plain t path k : tree_ok t -> t !! path = Some k -> Forall plain path.
Proof.
  intros Hok. revert k. induction path as [|s path IH] using rev_ind; intros k Hk; [constructor|]. destruct (to_parent t Hok path s k Hk) as [Hs [mode Hm]]. apply Forall_app. split; [by eapply IH|].
  by apply Forall_singleton.
Qed.

Section Tree.
Context `{DG : WriteAudit.Digest} `{CM : Protocol.CaseMapping} `{DJ : UploadIndex.DocumentJson} `{PJ : PushTypes.PrettyJson}.
Context (through : string -> list string -> option Kind).

Lemma descend_found t k : tree_ok t -> forall rest here, t !! (here ++ rest) = Some k -> descend through t here rest = Some k.
Proof.
  intros Hok rest. induction rest as [|s rest IH]; intros here Hk; cbn [descend]; [by rewrite app_nil_r in Hk|].
  destruct (parent_dir t here s rest Hok) as [mode ->]; [by eexists|]. apply IH. by rewrite <- app_assoc.
Qed.
Lemma descend_without_links t : (forall p l, t !! p <> Some (KLink l)) -> forall rest here k, descend through t here rest = Some k -> t !! (here ++ rest) = Some k.
Proof.
  intros Hl rest. induction rest as [|s rest IH]; intros here k; cbn [descend]; [by rewrite app_nil_r|]. destruct (t !! here) as [[m d|m|l|]|] eqn:E; try done; [|by apply Hl in E].
  intros H. apply IH in H. by rewrite <- app_assoc in H.
Qed.

Lemma first_error_None {A} (check : A -> option ReleaseError) l : first_error check l = None <-> (forall x, x ∈ l -> check x = None).
Proof.
  unfold first_error. induction l as [|a l IH]; cbn; [split; [intros _ x Hx; by apply not_elem_of_nil in Hx|done]|]. destruct (check a) as [e|] eqn:E; cbn.
  - split; [done|]. intros H. rewrite <- E. apply H. left.
  - rewrite IH. split; [|intros H x Hx; apply H; by right]. intros H x Hx. apply elem_of_cons in Hx as [->|Hx]; [done|by apply H].
Qed.
Lemma visited t path k : t !! path = Some k <-> (path, k) ∈ walk_tree t.
Proof. unfold walk_tree. rewrite merge_sort_Permutation. symmetry. apply (elem_of_map_to_list (M := gmap (list string))). Qed.

Lemma split_single name : 47 ∉ as_bytes name -> split_path name = [name].
Proof. intros H. unfold split_path. rewrite split_plain by done. cbn. by rewrite string_of_as_bytes. Qed.

(** What an accepted tree was checked for. *)
Lemma verify_spec t target m : verify through t target = Ok m ->
  load through t = Ok m /\ (target <> ""%string -> m_target m = target) /\ (forall name h, m_files m !! name = Some h -> check_listed through t (name, h) = None) /\
  (forall path k, t !! path = Some k -> check_visited (m_files m) (path, k) = None) /\ (forall name, name ∈ REQUIRED_FILES -> is_Some (m_files m !! name)) /\
  exists mode, is_executable mode = true /\ (stat through t RELAY_BINARY = Some (KDir mode) \/ exists data, stat through t RELAY_BINARY = Some (KFile mode data)).
Proof.
  unfold verify. destruct (load through t) as [m0|e]; [|done]. case_decide as Ht; [done|]. destruct (first_error (check_listed through t) _) eqn:E1; [done|]. case_decide; [done|].
  destruct (first_error (check_visited _) _) eqn:E2; [done|]. destruct (first_error (check_required _) _) eqn:E3; [done|]. rewrite first_error_None in E1. rewrite first_error_None in E2. rewrite first_error_None in E3. intros Hm.
  assert (m0 = m) as -> by (destruct (stat through t RELAY_BINARY) as [[mo d|mo|l|]|]; try done; destruct (is_executable mo); congruence). split_and!.
  - done.
  - intros Hn. destruct (decide (m_target m = target)); tauto.
  - intros name h Hh. apply E1. by apply elem_of_btree_list.
  - intros path k Hk. apply E2. by apply visited.
  - intros name Hn. apply E3 in Hn. unfold check_required in Hn. case_decide as Hx; [done|]. by destruct (m_files m !! name).
  - destruct (stat through t RELAY_BINARY) as [[mo d|mo|l|]|]; try done; exists mo; (split; [by destruct (is_executable mo)|]); [right; by exists d|by left].
Qed.

Lemma listed_file t name h : check_listed through t (name, h) = None -> (forall p l, t !! p <> Some (KLink l)) ->
  valid_sha256 h = true /\ Forall plain (split_path name) /\ exists mode data, t !! split_path name = Some (KFile mode data) /\ WriteAudit.sha256_hex data = Protocol.to_lowercase h.
Proof.
  intros H Hl. unfold check_listed in H. destruct (clean_relative name) as [clean|e] eqn:Ec; [|done]. case_decide as Hcl; [done|]. assert (clean = name) as -> by (destruct (decide (clean = name)); tauto).
  destruct (valid_sha256 h) eqn:Ev; [|done]. cbn [negb] in H. split; [done|]. split; [by apply canonical_plain|]. unfold hash_regular_file, lstat in H.
  destruct (descend through t [] (split_path name)) as [[mode data|mo|l|]|] eqn:Ed; try done. apply (descend_without_links t Hl) in Ed. cbn in Ed. exists mode, data. split; [done|]. case_decide; [done|].
  destruct (decide (WriteAudit.sha256_hex data = Protocol.to_lowercase h)); tauto.
Qed.

Lemma visited_file files path k : check_visited files (path, k) = None -> path <> [] ->
  match k with
  | KDir _ => True
  | KLink _ => False
  | KFile _ _ => slash_relative path = MANIFEST_NAME \/ is_Some (files !! slash_relative path)
  | KSpecial => slash_relative path = MANIFEST_NAME
  end.
Proof.
  intros H Hn. unfold check_visited in H. rewrite decide_False in H by done. destruct k as [mode data|mode|l|]; try done.
  - case_decide; [by left|]. case_decide as E; [done|]. right. by destruct (files !! slash_relative path).
  - by case_decide.
Qed.

Lemma manifest_plain : plain MANIFEST_NAME.
Proof. unfold plain, plain_bytes, UPB. split_and!; try (vm_compute; discriminate). intros H. apply (bool_decide_eq_true (47 ∈ as_bytes MANIFEST_NAME)) in H. vm_compute in H. discriminate. Qed.
End Tree.

(** C23 — A verified bundle is exactly what its manifest lists.  If verification
    accepts a directory tree, then the tree has no symbolic links and no special
    files, every file in it but the manifest is listed under its path with the
    digest of its content, every listed name is such a file and cannot lead out
    of the tree, the target is the one asked for, the required files are listed,
    and the relay binary is a regular file that is executable. *)
Theorem verified_release_is_pinned `{DG : WriteAudit.Digest} `{CM : Protocol.CaseMapping} `{DJ : UploadIndex.DocumentJson} (through : string -> list string -> option Kind) (t : Tree) (target : string) (m : Manifest) :
  tree_ok t -> verify through t target = Ok m ->
  (target <> ""%string -> m_target m = target) /\
  (forall path k, t !! path = Some k -> path <> [] ->
     match k with
     | KDir _ => True
     | KFile _ data => path = [MANIFEST_NAME] \/ exists h, m_files m !! slash_relative path = Some h /\ WriteAudit.sha256_hex data = Protocol.to_lowercase h
     | KLink _ | KSpecial => False
     end) /\
  (forall name h, m_files m !! name = Some h ->
     Forall plain (split_path name) /\ exists mode data, t !! split_path name = Some (KFile mode data) /\ WriteAudit.sha256_hex data = Protocol.to_lowercase h) /\
  (forall name, name ∈ REQUIRED_FILES -> is_Some (m_files m !! name)) /\
  exists mode data, t !! [RELAY_BINARY] = Some (KFile mode data) /\ is_executable mode = true.
Proof.
  intros Hok Hv. destruct (verify_spec through t target m Hv) as (Hload & Ht & Hlisted & Hvis & Hreq & mode & Hx & Hst).
  assert (Hnl : forall p l, t !! p <> Some (KLink l)).
  { intros p l Hp. destruct (decide (p = [])) as [->|Hn]; [destruct (to_root t Hok) as [mo Hr]; congruence|]. apply (visited_file _ _ _ (Hvis _ _ Hp) Hn). }
  assert (Hfile : forall name h, m_files m !! name = Some h -> Forall plain (split_path name) /\ exists mode data, t !! split_path name = Some (KFile mode data) /\ WriteAudit.sha256_hex data = Protocol.to_lowercase h).
  { intros name h Hh. by destruct (listed_file through t name h (Hlisted _ _ Hh) Hnl) as (_ & ? & ?). }
  assert (Hself : forall path, path <> [] -> Forall plain path -> slash_relative path = MANIFEST_NAME -> path = [MANIFEST_NAME]).
  { intros path Hn Hp E. rewrite <- (split_relative path Hn Hp), E. by apply split_single; apply manifest_plain. }
  split_and!; [done| |done|done|].
  - intros path k Hk Hn. pose proof (visited_file _ _ _ (Hvis _ _ Hk) Hn) as Hc. pose proof (path_plain t path k Hok Hk) as Hp. destruct k as [mo data|mo|l|]; try done.
    + destruct Hc as [Hc|[h Hh]]; [left; by apply Hself|]. right. exists h. split; [done|]. destruct (Hfile _ _ Hh) as (_ & mo' & data' & Ht' & Hd). rewrite split_relative in Ht' by done. congruence.
    + apply Hself in Hc; [|done|done]. subst path. unfold load, stat, lstat in Hload. rewrite (split_single MANIFEST_NAME) in Hload by apply manifest_plain.
      by rewrite (descend_found through t KSpecial Hok [MANIFEST_NAME] []) in Hload.
  - destruct (Hreq RELAY_BINARY) as [h Hh]; [left|]. destruct (Hfile _ _ Hh) as (_ & mo & data & Hf & _). assert (Es : split_path RELAY_BINARY = [RELAY_BINARY]) by reflexivity. rewrite Es in Hf.
    exists mo, data. split; [done|]. assert (E : stat through t RELAY_BINARY = Some (KFile mo data)) by (unfold stat, lstat; by rewrite Es, (descend_found through t (KFile mo data) Hok [RELAY_BINARY] [])).
    rewrite E in Hst. destruct Hst as [Hst|[d Hst]]; congruence.
Qed.

(** *** Building *)

Lemma insert_all_in {A} (l : list (string * A)) k v : PushDocs.insert_all l !! k = Some v -> (k, v) ∈ l.
Proof.
  unfold PushDocs.insert_all. induction l as [|[k' v'] l IH] using rev_ind; [cbn; by rewrite lookup_empty|]. rewrite foldl_snoc. cbn. intros H. apply elem_of_app.
  apply lookup_insert_Some in H as [[-> ->]|[_ H]]; [right; by left|left; by apply IH].
Qed.
Lemma insert_all_has {A} (l : list (string * A)) k v : (k, v) ∈ l -> (forall v', (k, v') ∈ l -> v' = v) -> PushDocs.insert_all l !! k = Some v.
Proof.
  unfold PushDocs.insert_all. induction l as [|[k' v'] l IH] using rev_ind; intros Hin Hu; [by apply not_elem_of_nil in Hin|]. rewrite foldl_snoc. cbn.
  destruct (decide (k' = k)) as [->|Hne].
  - rewrite lookup_insert_eq. f_equal. apply Hu, elem_of_app. right. by left.
  - rewrite lookup_insert_ne by done. apply IH; [|intros w Hw; apply Hu, elem_of_app; by left]. apply elem_of_app in Hin as [Hin|Hin]; [done|]. apply list_elem_of_singleton in Hin. congruence.
Qed.

Lemma de_manifest_json m : is_i64 (m_schema m) -> de_manifest (manifest_json m) = Some m.
Proof.
  intros Hs. destruct m as [sc v r tg wh at_ rt fs]. cbn in Hs. unfold de_manifest, manifest_json, strings_member. cbn [m_schema m_version m_revision m_target m_web_hash m_app_transports m_relay_transports m_files].
  assert (Hf : UploadIndex.de_or ∅ (PushDocs.de_map as_str) (Some (PushTypes.map_json JString fs)) = Some fs) by (apply PushDocs.de_or_object; [by eexists|]; apply PushDocs.de_map_json; by intros k x _).
  assert (Hl : forall l, mapM as_str (JString <$> l) = Some l) by (intros l; apply mapM_Some, Forall2_fmap_l, Forall_Forall2_diag, Forall_true; done).
  assert (Hd : forall l, Inbound.de_strings (if decide (l = []) then None else Some (JArray (JString <$> l))) = Some l) by (intros l; case_decide as E; [by rewrite E|]; cbn; apply Hl).
  pose proof (UploadsRestart.de_i64_int sc Hs) as Hi. generalize dependent (PushTypes.map_json JString fs). generalize dependent (json_int sc). intros js Hi files Hf.
  match goal with |- context [JsonWire.de_struct ?a ?b] => assert (E : JsonWire.de_struct a b = Some [Some js; Some (JString v); Some (JString r); Some (JString tg); JString <$> wh;
    (if decide (at_ = []) then None else Some (JArray (JString <$> at_))); (if decide (rt = []) then None else Some (JArray (JString <$> rt))); Some files]) end.
  { destruct wh as [h|]; repeat case_decide; reflexivity. }
  rewrite E. cbn [mbind option_bind]. rewrite Hi. cbn [mbind option_bind JsonWire.de_string]. assert (Ew : JsonWire.de_opt_string (JString <$> wh) = Some wh) by (by destruct wh). rewrite Ew. cbn [mbind option_bind].
  rewrite !Hd. cbn [mbind option_bind]. by rewrite Hf.
Qed.

(** What is relied on: a written document reads back, a digest prints as 64
    lower-case hex digits, which lower-casing leaves alone. *)
Record bundle_laws `{DG : WriteAudit.Digest} `{CM : Protocol.CaseMapping} `{DJ : UploadIndex.DocumentJson} `{PJ : PushTypes.PrettyJson} : Prop := {
  bl_document m : UploadIndex.from_slice (PushState.document (manifest_json m)) = Some (manifest_json m);
  bl_digest data : valid_sha256 (WriteAudit.sha256_hex data) = true;
  bl_lower s : valid_sha256 s = true -> Protocol.to_lowercase s = s;
}.

Section Build.
Context `{DG : WriteAudit.Digest} `{CM : Protocol.CaseMapping} `{DJ : UploadIndex.DocumentJson} `{PJ : PushTypes.PrettyJson}.

(** The files a build lists. *)
Lemma built_files t name h : tree_ok t -> build_files t !! name = Some h <->
  exists path mode data, t !! path = Some (KFile mode data) /\ path <> [] /\ name = slash_relative path /\ name <> MANIFEST_NAME /\ h = WriteAudit.sha256_hex data.
Proof.
  intros Hok. assert (Hin : forall n x, (n, x) ∈ omap hashed (walk_tree t) <-> exists path mode data, t !! path = Some (KFile mode data) /\ path <> [] /\ n = slash_relative path /\ n <> MANIFEST_NAME /\ x = WriteAudit.sha256_hex data).
  { intros n x. rewrite list_elem_of_omap. split.
    - intros ([path k] & Hv & Hh). apply visited in Hv. unfold hashed in Hh. destruct k as [mode data|?|?|]; try done. case_decide as Hc; [done|]. injection Hh as <- <-. exists path, mode, data. tauto.
    - intros (path & mode & data & Hp & Hn & -> & Hm & ->). exists (path, KFile mode data). split; [by apply visited|]. unfold hashed. rewrite decide_False by tauto. done. }
  rewrite <- Hin. split; [apply insert_all_in|]. intros H. apply insert_all_has; [done|]. intros v' Hv'. apply Hin in H as (p1 & m1 & d1 & H1 & Hn1 & E1 & _ & ->). apply Hin in Hv' as (p2 & m2 & d2 & H2 & Hn2 & E2 & _ & ->).
  assert (p1 = p2) as <-. { rewrite <- (split_relative p1), <- (split_relative p2) by (try done; by eapply path_plain). congruence. } congruence.
Qed.

(** The tree with its manifest. *)
Definition with_manifest (t : Tree) (data : bytes) : Tree := <[[MANIFEST_NAME] := KFile 420 data]> t.
Lemma with_manifest_ok t data : tree_ok t -> (forall mode, t !! [MANIFEST_NAME] <> Some (KDir mode)) -> tree_ok (with_manifest t data).
Proof.
  intros Hok Hnd. unfold with_manifest. split.
  - destruct (to_root t Hok) as [mode Hr]. exists mode. by rewrite lookup_insert_ne.
  - intros p s k Hk. assert (H : plain s /\ exists mode, t !! p = Some (KDir mode)).
    { apply lookup_insert_Some in Hk as [[E _]|[_ Hk]]; [|by eapply to_parent]. apply (app_inj_2 [] p [MANIFEST_NAME] [s]) in E as [<- [= <-]]; [|done]. split; [apply manifest_plain|by apply to_root]. }
    destruct H as [Hs [mode Hm]]. split; [done|]. exists mode. rewrite lookup_insert_ne; [done|]. intros <-. by apply Hnd in Hm.
Qed.

Lemma required_not_manifest name : name ∈ REQUIRED_FILES -> name <> MANIFEST_NAME.
Proof. intros H ->. apply (bool_decide_eq_true (MANIFEST_NAME ∈ REQUIRED_FILES)) in H. vm_compute in H. discriminate. Qed.

Context (through : string -> list string -> option Kind) (Hlaw : bundle_laws).

Lemma built_listed t data name h : tree_ok t -> (forall mode, t !! [MANIFEST_NAME] <> Some (KDir mode)) -> (forall path mode data, t !! path = Some (KFile mode data) -> 92 ∉ as_bytes (slash_relative path)) ->
  build_files t !! name = Some h -> check_listed through (with_manifest t data) (name, h) = None.
Proof.
  intros Hok Hnd Hs Hh. apply (built_files t name h Hok) in Hh as (path & mode & d & Hp & Hn & -> & Hm & ->). pose proof (path_plain t path _ Hok Hp) as Hpl. unfold check_listed.
  rewrite (plain_canonical path Hn Hpl) by (by eapply Hs). rewrite decide_False by tauto. rewrite (bl_digest Hlaw d). cbn [negb]. unfold hash_regular_file, lstat. rewrite (split_relative path Hn Hpl).
  assert (Hp' : with_manifest t data !! path = Some (KFile mode d)). { unfold with_manifest. rewrite lookup_insert_ne; [done|]. intros <-. apply Hm. apply (relative_split MANIFEST_NAME). }
  rewrite (descend_found through _ (KFile mode d) (with_manifest_ok t data Hok Hnd) path [] Hp'). rewrite (bl_lower Hlaw) by apply (bl_digest Hlaw). by rewrite decide_False by tauto.
Qed.

Lemma built_visited t data path k : tree_ok t -> (forall x, x ∈ walk_tree t -> check_built x = None) -> with_manifest t data !! path = Some k -> check_visited (build_files t) (path, k) = None.
Proof.
  intros Hok Hc Hk. unfold check_visited. case_decide as Hn; [done|]. unfold with_manifest in Hk. apply lookup_insert_Some in Hk as [[<- <-]|[Hne Hk]].
  - cbv zeta. rewrite decide_True; [done|]. apply (relative_split MANIFEST_NAME).
  - specialize (Hc (path, k) (proj1 (visited t path k) Hk)). unfold check_built in Hc. rewrite decide_False in Hc by done. cbv zeta in *. destruct k as [mode d|mode|l|]; try done.
    case_decide as Hm; [done|]. rewrite decide_False; [done|]. intros E. assert (Hf : build_files t !! slash_relative path = Some (WriteAudit.sha256_hex d)) by (apply (built_files t _ _ Hok); by exists path, mode, d). congruence.
Qed.

Lemma built_loads t m : tree_ok t -> (forall mode, t !! [MANIFEST_NAME] <> Some (KDir mode)) -> m_schema m = MANIFEST_SCHEMA -> trim (m_version m) <> ""%string -> trim (m_revision m) <> ""%string ->
  m_target m <> ""%string -> m_files m <> ∅ -> load through (with_manifest t (PushState.document (manifest_json m))) = Ok m.
Proof.
  intros Hok Hnd Hs Hv Hr Ht Hf. unfold load, stat, lstat. rewrite (split_single MANIFEST_NAME) by apply manifest_plain.
  rewrite (descend_found through _ (KFile 420 (PushState.document (manifest_json m))) (with_manifest_ok t _ Hok Hnd) [MANIFEST_NAME] []) by (unfold with_manifest; by rewrite lookup_insert_eq).
  rewrite (bl_document Hlaw). cbn [mbind option_bind]. rewrite de_manifest_json by (rewrite Hs; vm_compute; split; discriminate). rewrite !decide_False by (rewrite ?Hs; tauto). done.
Qed.
End Build.

(** A bundle that is built verifies.  Building over a tree without links
    whose file names have no backslash, which holds the required files and an
    executable relay binary, writes a manifest that loads back as it was built
    and with which the tree is accepted, for its own target and for any. *)
Theorem built_release_verifies `{DG : WriteAudit.Digest} `{CM : Protocol.CaseMapping} `{DJ : UploadIndex.DocumentJson} `{PJ : PushTypes.PrettyJson} (through : string -> list string -> option Kind)
    (t t' : Tree) (version revision target expected : string) (m : Manifest) :
  bundle_laws -> tree_ok t -> build t true version revision target = (t', Ok m) ->
  (forall mode, t !! [MANIFEST_NAME] <> Some (KDir mode)) ->
  (forall path mode data, t !! path = Some (KFile mode data) -> 92 ∉ as_bytes (slash_relative path)) ->
  (forall name, name ∈ REQUIRED_FILES -> exists mode data, t !! split_path name = Some (KFile mode data)) ->
  (forall mode data, t !! [RELAY_BINARY] = Some (KFile mode data) -> is_executable mode = true) ->
  expected = ""%string \/ expected = target -> verify through t' expected = Ok m.
Proof.
  intros Hlaw Hok Hb Hnodir Hslash Hreq Hexec Hexp. unfold build in Hb. case_decide as Hst; [done|]. destruct (first_error check_built _) as [e|] eqn:Ec; [done|]. rewrite first_error_None in Ec.
  injection Hb as <- Hm. set (data := PushState.document _). change (<[[MANIFEST_NAME]:=KFile 420 data]> t) with (with_manifest t data). unfold data. rewrite Hm. subst data.
  assert (Hfiles : m_files m = build_files t) by (by rewrite <- Hm). assert (Hrq : forall name, name ∈ REQUIRED_FILES -> is_Some (build_files t !! name)).
  { intros name Hn. destruct (Hreq name Hn) as (mode & d & Hd). exists (WriteAudit.sha256_hex d). apply (built_files t name _ Hok). exists (split_path name), mode, d. rewrite relative_split.
    split_and!; [done| |done|by apply required_not_manifest|done]. unfold split_path. pose proof (split_slash_nonempty (as_bytes name)). by destruct (UploadZip.split_slash _). }
  unfold verify. rewrite (built_loads through Hlaw); [|done|done|by rewrite <- Hm|rewrite <- Hm; tauto|rewrite <- Hm; tauto|rewrite <- Hm; cbn; intros ->; by apply Hst; right; right|].
  2:{ rewrite Hfiles. intros E. destruct (Hrq RELAY_BINARY) as [h Hh]; [left|]. by rewrite E, lookup_empty in Hh. }
  rewrite decide_False by (rewrite <- Hm; cbn; intros [H1 H2]; destruct Hexp; congruence). rewrite (proj2 (first_error_None _ _)); [|intros [name h] Hin; apply elem_of_btree_list in Hin; rewrite Hfiles in Hin; by apply built_listed].
  rewrite decide_False by (rewrite <- Hm; cbn; tauto). rewrite (proj2 (first_error_None _ _)); [|intros [path k] Hin; apply visited in Hin; rewrite Hfiles; by eapply built_visited].
  rewrite (proj2 (first_error_None _ _)); [|intros name Hn; unfold check_required; rewrite Hfiles, decide_False; [done|]; by destruct (Hrq name Hn) as [h ->]].
  destruct (Hreq RELAY_BINARY) as (mode & d & Hd); [left|]. assert (Es : split_path RELAY_BINARY = [RELAY_BINARY]) by reflexivity. rewrite Es in Hd. unfold stat, lstat. rewrite Es.
  rewrite (descend_found through _ (KFile mode d) (with_manifest_ok t _ Hok Hnodir) [RELAY_BINARY] []) by (unfold with_manifest; by rewrite lookup_insert_ne). by rewrite (Hexec mode d Hd).
Qed.

(** *** The current link *)

Definition cleaned (rooted : bool) (st : list string) : Prop := exists a n, st = a ++ replicate n UP /\ Forall (fun e => e <> UP) a /\ (rooted = true -> n = 0%nat).
Lemma clean_elem_ok rooted st e : cleaned rooted st -> cleaned rooted (clean_elem rooted st e).
Proof.
  intros (a & n & -> & Ha & Hn). unfold clean_elem. case_decide as He; [|exists (e :: a), n; split_and!; [done|by constructor|done]].
  destruct a as [|x a]; cbn.
  - destruct n as [|n]; cbn; [destruct rooted; [by exists [], 0%nat|by exists [], 1%nat]|]. rewrite decide_False by tauto. exists [], (S (S n)). split_and!; [done|done|]. intros Hr. by specialize (Hn Hr).
  - apply Forall_cons in Ha as [Hx Ha]. rewrite decide_True by done. by exists a, n.
Qed.
Lemma clean_fold_ok rooted l : forall st, cleaned rooted st -> cleaned rooted (foldl (clean_elem rooted) st l).
Proof. induction l as [|e l IH]; intros st Hst; [done|]. cbn. apply IH. by apply clean_elem_ok. Qed.

Lemma fold_plain rooted a : Forall (fun e => e <> UP) a -> forall st, foldl (clean_elem rooted) st a = reverse a ++ st.
Proof. induction 1 as [|x a Hx _ IH]; intros st; [done|]. cbn [foldl]. rewrite IH, reverse_cons, <- app_assoc. f_equal. unfold clean_elem. by rewrite decide_False. Qed.
Lemma fold_ups n : forall m, foldl (clean_elem false) (replicate m UP) (replicate n UP) = replicate (n + m) UP.
Proof.
  induction n as [|n IH]; intros m; [done|]. cbn [replicate foldl]. assert (E : clean_elem false (replicate m UP) UP = replicate (S m) UP) by (unfold clean_elem; rewrite decide_True by done; destruct m; [done|]; cbn; by rewrite decide_False by tauto).
  rewrite E, IH. f_equal. lia.
Qed.
(** Cleaning again changes nothing. *)
Lemma clean_again rooted st : cleaned rooted st -> foldl (clean_elem rooted) [] (reverse st) = st.
Proof.
  intros (a & n & -> & Ha & Hn). rewrite reverse_app, reverse_replicate, foldl_app. assert (E : foldl (clean_elem rooted) [] (replicate n UP) = replicate n UP).
  { destruct rooted; [by rewrite Hn|]. pose proof (fold_ups n 0) as H. cbn in H. by rewrite Nat.add_0_r in H. }
  rewrite E, fold_plain by (by apply Forall_reverse). by rewrite reverse_involutive.
Qed.

Lemma shared_spec a : forall b, (shared_elems a b <= length a)%nat /\ take (shared_elems a b) a = take (shared_elems a b) b.
Proof.
  induction a as [|x a IH]; intros [|y b]; cbn [shared_elems]; try (split; [cbn; lia|done]). case_decide as E; [|split; [cbn; lia|done]]. destruct (IH b) as [Hl Ht]. cbn. split; [lia|]. by rewrite E, Ht.
Qed.

(** The current link points inside.  When activation accepts a release
    directory, the relative link it stores, followed from the release root,
    leads to that directory, which lies below the release root: no release
    outside of it is ever made current. *)
Theorem activated_release_is_inside (release_root release_dir relative : FsPath) : activate release_root release_dir = Some relative ->
  fp_rooted relative = false /\ clean_path (join_path release_root relative) = clean_path release_dir /\
  exists below, fp_elems (clean_path release_dir) = fp_elems (clean_path release_root) ++ below.
Proof.
  unfold activate, rel_path. cbv zeta. case_decide as Ebt.
  - cbn [mbind option_bind fp_elems head]. rewrite decide_False by done. intros [= <-]. split; [done|]. unfold join_path. cbn [fp_rooted fp_elems]. rewrite app_nil_r. split; [destruct release_root; exact Ebt|]. exists []. by rewrite app_nil_r, Ebt.
  - case_decide as Er; [done|]. case_decide as Eu; [done|]. cbn [mbind option_bind fp_elems]. set (B := fp_elems (clean_path release_root)) in *. set (T := fp_elems (clean_path release_dir)) in *. destruct (shared_spec B T) as [Hl Ht].
    set (k := shared_elems B T) in *. case_decide as Eh; [done|]. intros [= <-]. destruct (length B - k)%nat as [|n] eqn:En; [|done]. assert (Hk : k = length B) by lia. cbn [replicate app] in *. rewrite Hk in *.
    assert (HT : T = B ++ drop (length B) T) by (rewrite <- (take_drop (length B) T) at 1; by rewrite <- Ht, firstn_all). split; [done|]. split; [|by exists (drop (length B) T)].
    assert (Hr : fp_rooted release_root = fp_rooted release_dir) by (cbn in Er; destruct (decide (fp_rooted release_root = fp_rooted release_dir)); tauto).
    unfold join_path, clean_path. cbn [fp_rooted fp_elems]. rewrite Hr. f_equal. change (clean_elems (fp_rooted release_dir) (fp_elems release_dir)) with T. unfold clean_elems. rewrite foldl_app.
    set (sB := foldl (clean_elem (fp_rooted release_dir)) [] (fp_elems release_root)). assert (HB : B = reverse sB) by (unfold B, sB, clean_path, clean_elems; cbn [fp_elems]; by rewrite Hr).
    assert (HsB : cleaned (fp_rooted release_dir) sB) by (apply clean_fold_ok; by exists [], 0%nat).
    assert (HsT : cleaned (fp_rooted release_dir) (reverse T)) by (unfold T, clean_path, clean_elems; cbn [fp_elems]; rewrite reverse_involutive; apply clean_fold_ok; by exists [], 0%nat).
    pose proof (clean_again _ _ HsT) as HfT. rewrite reverse_involutive in HfT. rewrite HT in HfT at 1. rewrite foldl_app in HfT. rewrite HB in HfT at 1. rewrite (clean_again _ _ HsB) in HfT.
    rewrite HfT. apply reverse_involutive.
Qed.

(** *** A small bundle *)

#[local] Instance demo_digest : WriteAudit.Digest := {| WriteAudit.sha256_hex data := string_of_bytes (replicate 64 (48 + Z.of_nat (length data) mod 10)) |}.
#[local] Instance demo_lower : Protocol.CaseMapping := {| Protocol.to_lowercase := id |}.
#[local] Instance demo_writer : PushTypes.PrettyJson := {| PushTypes.to_string_pretty := PushDurable.put |}.
#[local] Instance demo_reader : UploadIndex.DocumentJson := {| UploadIndex.from_slice data := fst <$> PushDurable.take_json (length data) data |}.

Lemma demo_laws : bundle_laws.
Proof.
  split.
  - intros m. unfold PushState.document. cbn [UploadIndex.from_slice demo_reader PushTypes.to_string_pretty demo_writer]. rewrite PushDurable.take_put; [done|]. rewrite length_app. lia.
  - intros data. cbn [WriteAudit.sha256_hex demo_digest]. generalize (Z.mod_pos_bound (Z.of_nat (length data)) 10 ltac:(lia)). generalize (Z.of_nat (length data) mod 10). intros z Hz.
    assert (Hd : z ∈ [0; 1; 2; 3; 4; 5; 6; 7; 8; 9]) by (rewrite !elem_of_cons; lia). clear Hz. repeat (apply elem_of_cons in Hd as [->|Hd]; [reflexivity|]). by apply not_elem_of_nil in Hd.
  - done.
Qed.

Definition entry_okb (t : Tree) (x : list string * Kind) : bool :=
  match list.last x.1 with
  | None => match x.2 with KDir _ => true | _ => false end
  | Some s => negb (bool_decide (as_bytes s = [] \/ 47 ∈ as_bytes s \/ as_bytes s = [46] \/ as_bytes s = UPB)) && match t !! removelast x.1 with Some (KDir _) => true | _ => false end
  end.
Lemma tree_okb_spec t : (exists mode, t !! [] = Some (KDir mode)) -> forallb (entry_okb t) (map_to_list t) = true -> tree_ok t.
Proof.
  intros Hr Hb. split; [done|]. intros p s k Hk. rewrite forallb_forall in Hb. specialize (Hb (p ++ [s], k)). rewrite <- list_elem_of_In, elem_of_map_to_list in Hb. specialize (Hb Hk). unfold entry_okb in Hb. cbn [fst] in Hb.
  rewrite last_snoc, removelast_last in Hb. apply andb_true_iff in Hb as [H1 H2]. apply negb_true_iff, bool_decide_eq_false in H1. split; [unfold plain, plain_bytes; tauto|].
  destruct (t !! p) as [[m d|m|l|]|]; try discriminate H2. by exists m.
Qed.

Definition demo_tree : Tree :=
  list_to_map ([([], KDir 493); (["scripts"%string], KDir 493); ([RELAY_BINARY], KFile 493 [1; 2; 3]); (["web"; "index.html"]%string, KFile 420 [60]); (["web"%string], KDir 493)] ++
               ((fun name => (split_path name, KFile 420 (as_bytes name))) <$> drop 1 REQUIRED_FILES)).
Definition demo_build : Tree * result ReleaseError Manifest := build demo_tree true "1.0.0" "abc" "linux/amd64".
Definition no_links (target : string) (rest : list string) : option Kind := None.
Definition demo_manifest : Manifest := match demo_build.2 with Ok m => m | Err _ => mkManifest 0 "" "" "" None [] [] ∅ end.

Lemma demo_tree_ok : tree_ok demo_tree.
Proof. apply tree_okb_spec; [by exists 493|]. vm_compute. reflexivity. Qed.
Lemma demo_file path mode data : demo_tree !! path = Some (KFile mode data) -> bool_decide (92 ∈ as_bytes (slash_relative path)) = false.
Proof.
  intros H. assert (Hb : forallb (fun x => negb (bool_decide (92 ∈ as_bytes (slash_relative x.1)))) (map_to_list demo_tree) = true) by (vm_compute; reflexivity).
  rewrite forallb_forall in Hb. specialize (Hb (path, KFile mode data)). rewrite <- list_elem_of_In, elem_of_map_to_list in Hb. by apply negb_true_iff, Hb.
Qed.

Lemma built_release_verifies_witness : demo_build.2 = Ok demo_manifest /\ size (m_files demo_manifest) = 9%nat /\ verify no_links demo_build.1 "linux/amd64" = Ok demo_manifest.
Proof.
  assert (Hb : demo_build.2 = Ok demo_manifest) by (vm_compute; reflexivity). split; [exact Hb|]. split; [vm_compute; reflexivity|].
  apply (built_release_verifies no_links demo_tree demo_build.1 "1.0.0" "abc" "linux/amd64" "linux/amd64" demo_manifest).
  - exact demo_laws.
  - exact demo_tree_ok.
  - transitivity (demo_build.1, demo_build.2); [|by rewrite Hb]. apply surjective_pairing.
  - intros mode H. vm_compute in H. discriminate H.
  - intros path mode data H. apply demo_file in H. by apply bool_decide_eq_false in H.
  - intros name Hn. assert (Ha : forallb (fun n => match demo_tree !! split_path n with Some (KFile _ _) => true | _ => false end) REQUIRED_FILES = true) by (vm_compute; reflexivity).
    rewrite forallb_forall in Ha. specialize (Ha name). rewrite <- list_elem_of_In in Ha. specialize (Ha Hn). destruct (demo_tree !! split_path name) as [[mode data|?|?|]|]; try discriminate Ha. by exists mode, data.
  - intros mode data H. assert (E : demo_tree !! [RELAY_BINARY] = Some (KFile 493 [1; 2; 3])) by (vm_compute; reflexivity). rewrite E in H. injection H as <- _. vm_compute. reflexivity.
  - by right.
Defined.

Lemma verified_release_is_pinned_witness : exists mode data, demo_build.1 !! [RELAY_BINARY] = Some (KFile mode data) /\ is_executable mode = true.
Proof.
  assert (Hv : verify no_links demo_build.1 "" = Ok demo_manifest) by (vm_compute; reflexivity).
  assert (Hok : tree_ok demo_build.1) by (apply tree_okb_spec; [exists 493; vm_compute; reflexivity|vm_compute; reflexivity]).
  exact (proj2 (proj2 (proj2 (proj2 (verified_release_is_pinned no_links demo_build.1 "" demo_manifest Hok Hv))))).
Defined.

Lemma activated_release_is_inside_witness : clean_path (join_path (mkPath true ["opt"; "lerdr"]%string) (mkPath false ["releases"; "v2"]%string)) = clean_path (mkPath true ["opt"; "x"; ".."; "lerdr"; "releases"; "v2"]%string).
Proof.
  exact (proj1 (proj2 (activated_release_is_inside (mkPath true ["opt"; "lerdr"]%string) (mkPath true ["opt"; "x"; ".."; "lerdr"; "releases"; "v2"]%string) (mkPath false ["releases"; "v2"]%string) eq_refl))).
Defined.

End ReleaseClaims.
