(* ===== verification/UpdateWorker.v ===== *)
(** * The update worker

    [lerdr-coord/src/update_worker.rs], with the state and job types and the
    version rules of [actions/misc.rs]: the detached process that stages and
    checks a release, has Herdr install it and waits for the new relay to
    report itself.  The answers of the file system, the network, the child
    processes and the clock are arguments; the effects of a run are its log. *)

From S2P Require Import Prelude Utf8 Lines Json JsonWire Inbound Protocol WriteAudit Activity UploadZip UploadIndex PushTypes PushDurable QuestionInput Questions Release.

Module UpdateWorker.
Import Utf8 Json Protocol Release.

Definition MAX_CHECKSUM_BYTES : Z := 1024 * 1024.
Definition MAX_ARCHIVE_BYTES : Z := 128 * 1024 * 1024.
Definition MAX_EXTRACTED_BYTES : Z := 256 * 1024 * 1024.
Definition MAX_ARCHIVE_ENTRIES : nat := 4096.
Definition MAX_TRANSPORT_CAPABILITIES : nat := 8.
Definition LEGACY_TRANSPORT : string := "herdr-e2ee-v1".
Definition CANONICAL_RELEASE_ASSETS : string := "https://github.com/IGUNUBLUE/lerdr-rust-kotlin/releases/download".
Definition HEALTH_BODY_CAP : nat := 64 * 1024.

(** ** Jobs and states *)

Record UpdateJob := mkJob { jb_release_root : string; jb_herdr_bin : string; jb_target_version : string; jb_target_revision : string; jb_state_path : string; jb_health_url : string }.

Record UpdateState := mkState {
  us_state : string;
  us_current_version : string;
  us_current_revision : string;
  us_available_version : string;
  us_available_revision : string;
  us_upstream_version : string;
  us_upstream_revision : string;
  us_target_version : string;
  us_target_revision : string;
  us_target : string;
  us_checked_at : Z;
  us_started_at : string;
  us_finished_at : string;
  us_mode : string;
  us_eligible : bool;
  us_can_install : bool;
  us_reason : string;
  us_error : string;
}.
Definition set_state (name : string) (s : UpdateState) : UpdateState :=
  mkState name (us_current_version s) (us_current_revision s) (us_available_version s) (us_available_revision s) (us_upstream_version s) (us_upstream_revision s) (us_target_version s)
    (us_target_revision s) (us_target s) (us_checked_at s) (us_started_at s) (us_finished_at s) (us_mode s) (us_eligible s) (us_can_install s) (us_reason s) (us_error s).
Definition failed_state (error finished_at : string) (s : UpdateState) : UpdateState :=
  mkState "failed" (us_current_version s) (us_current_revision s) (us_available_version s) (us_available_revision s) (us_upstream_version s) (us_upstream_revision s) (us_target_version s)
    (us_target_revision s) (us_target s) (us_checked_at s) (us_started_at s) finished_at (us_mode s) (us_eligible s) (us_can_install s) (us_reason s) error.
Definition succeeded_state (j : UpdateJob) (checked_at : Z) (finished_at : string) (s : UpdateState) : UpdateState :=
  mkState "succeeded" (jb_target_version j) (jb_target_revision j) (us_available_version s) (us_available_revision s) (us_upstream_version s) (us_upstream_revision s) (us_target_version s)
    (us_target_revision s) (us_target s) checked_at (us_started_at s) finished_at (us_mode s) (us_eligible s) (us_can_install s) (us_reason s) "".
Definition first_state (j : UpdateJob) (target started_at : string) : UpdateState :=
  mkState "scheduled" "" "" "" "" "" "" (jb_target_version j) (jb_target_revision j) target 0 started_at "" "plugin" true false "" "".

(** ** Versions, revisions, names *)

Definition is_digit (b : Z) : bool := in_range 48 57 b.
Fixpoint split_on (c : Z) (b : bytes) : list bytes :=
  match b with
  | [] => [[]]
  | x :: b => match split_on c b with seg :: segs => if decide (x = c) then [] :: seg :: segs else (x :: seg) :: segs | [] => [[x]] end
  end.
Definition number (part : bytes) : Z := foldl (fun acc b => acc * 10 + (b - 48)) 0 part.
(** A group of a version; it has to fit a [u64]. *)
Definition semver_part (part : bytes) : option Z :=
  if decide (part = [] \/ (1 < length part)%nat /\ head part = Some 48 \/ forallb is_digit part = false) then None
  else if decide (number part <= u64_max) then Some (number part) else None.
Definition parse_semver (value : string) : option (Z * Z * Z) :=
  match split_on 46 (as_bytes value) with
  | [a; b; c] => a ← semver_part a; b ← semver_part b; c ← semver_part c; Some (a, b, c)
  | _ => None
  end.
Definition semver_valid (value : string) : bool := bool_decide (is_Some (parse_semver value)).
Definition is_hexdigit (b : Z) : bool := in_range 48 57 b || in_range 65 70 b || in_range 97 102 b.
Definition valid_revision (value : string) : bool := bool_decide (String.length value = 40%nat) && forallb is_hexdigit (as_bytes value).
Definition compact (value : string) (limit : nat) : string := Questions.compact value limit.
Definition eq_ignore_ascii_case (a b : string) : bool := Questions.eq_ignore_ascii_case a b.
Definition is_absolute (path : string) : bool := bool_decide (head (as_bytes path) = Some 47).

Definition KEEP : bytes := as_bytes "ABCDEFGHIJKLMNOPQRSTUVWXYZabcdefghijklmnopqrstuvwxyz0123456789-._~!$&'()*+,;=:@".
Definition upper_hex (n : Z) : Z := if decide (n < 10) then 48 + n else 55 + n.
Definition path_escape (value : string) : string := string_of_bytes (as_bytes value ≫= (fun b => if decide (b ∈ KEEP) then [b] else [37; upper_hex (b / 16); upper_hex (b mod 16)])).

Section Job.
Context `{UP : PushTypes.UrlParser}.

Definition is_loopback_host (host : option string) : bool := bool_decide (host = Some "localhost"%string \/ host = Some "127.0.0.1"%string \/ host = Some "[::1]"%string).
(** [executable] is the answer for [herdr_bin]. *)
Definition validate_job (executable : bool) (j : UpdateJob) : option string :=
  if negb (is_absolute (jb_release_root j)) then Some "release_root must be absolute"%string
  else if negb (is_absolute (jb_herdr_bin j)) then Some "herdr_bin must be absolute"%string
  else if negb executable then Some "herdr_bin must be an executable file"%string
  else if negb (semver_valid (jb_target_version j)) then Some "target_version must be semantic versioned"%string
  else if negb (valid_revision (jb_target_revision j)) then Some "target_revision must be an exact commit"%string
  else if negb (is_absolute (jb_state_path j)) then Some "state_path must be absolute"%string
  else match PushTypes.url_parse (jb_health_url j) with
       | Some u => if bool_decide (PushTypes.u_scheme u = "http"%string) && is_loopback_host (PushTypes.u_host u) then None else Some "health_url must use HTTP on loopback"%string
       | None => Some "health_url must use HTTP on loopback"%string
       end.
End Job.

(** [{:?}] of a string. *)
Class DebugText := { debug_text : string -> string }.

Section Checks.
Context `{DT : DebugText}.

(** ** Archives *)

(** The refusal of a name that leads out of the destination. *)
Definition clean_archive_path (name : string) : option string :=
  let stack := foldl Release.clean_part [] (UploadZip.split_slash (as_bytes name)) in
  if decide (head (as_bytes name) = Some 47 \/ list.last stack = Some [46; 46]) then Some ("release archive path " +:+ debug_text name +:+ " escapes its destination") else None.

(** [normalize_tree]: the sizes add up under the cap, modes are normalised. *)
Definition normal_mode (k : Kind) : Kind := match k with KDir _ => KDir 493 | KFile mode data => KFile (if Release.is_executable mode then 493 else 420) data | k => k end.
Fixpoint sizes_ok (extracted : Z) (l : list (list string * Kind)) : option string :=
  match l with
  | [] => None
  | (path, k) :: l =>
      if decide (path = []) then sizes_ok extracted l
      else match k with
           | KDir _ => sizes_ok extracted l
           | KFile _ data => let extracted := extracted + Z.of_nat (length data) in if decide (MAX_EXTRACTED_BYTES < extracted) then Some "release archive exceeds extracted size limit"%string else sizes_ok extracted l
           | KLink _ | KSpecial => Some ("release archive contains unsupported entry " +:+ debug_text (default ""%string (list.last path)))
           end
  end.
Definition normalize_tree (t : Tree) : result string Tree :=
  match sizes_ok 0 (walk_tree t) with
  | Some e => Err e
  | None => Ok (map_imap (fun path k => Some (if decide (path = []) then k else normal_mode k)) t)
  end.

(** What [tar] lists and what it leaves in the directory. *)
Definition extract_release_archive (listing : result string (list string)) (extracted : result string Tree) : result string Tree :=
  match listing with
  | Err e => Err e
  | Ok names =>
      if decide (MAX_ARCHIVE_ENTRIES < length names)%nat then Err "release archive has too many entries"%string
      else match head (omap clean_archive_path names) with
           | Some e => Err e
           | None => match extracted with Err e => Err e | Ok t => normalize_tree t end
           end
  end.

(** ** Transports *)

Definition transport_capabilities (m : Manifest) : list string * list string :=
  (if decide (m_app_transports m = []) then [LEGACY_TRANSPORT] else m_app_transports m, if decide (m_relay_transports m = []) then [LEGACY_TRANSPORT] else m_relay_transports m).
Fixpoint check_transports (owner : string) (seen l : list string) : option string :=
  match l with
  | [] => None
  | t :: l =>
      if decide (t = ""%string \/ trim t <> t \/ (64 < String.length t)%nat) then Some (owner +:+ " declares invalid transport " +:+ debug_text t)
      else if decide (t ∈ seen) then Some (owner +:+ " declares duplicate transport " +:+ debug_text t)
      else check_transports owner (t :: seen) l
  end.
Definition validate_transport_capabilities (owner : string) (l : list string) : option string :=
  if decide (MAX_TRANSPORT_CAPABILITIES < length l)%nat then Some (owner +:+ " declares too many transports") else check_transports owner [] l.
Definition transports_intersect (left right : list string) : bool := existsb (fun c => bool_decide (c ∈ right)) left.

(** The first refusal of a list of checks. *)
Fixpoint first_refusal (l : list (option string)) : option string := match l with [] => None | Some e :: _ => Some e | None :: l => first_refusal l end.
(** [None] is compatibility. *)
Definition validate_upgrade_compatibility (current target : Manifest) : option string :=
  let '(current_app, current_relay) := transport_capabilities current in
  first_refusal
    [if decide (m_app_transports target = [] \/ m_relay_transports target = []) then Some "target release does not declare app/relay transport compatibility"%string else None;
     validate_transport_capabilities "target app" (m_app_transports target);
     validate_transport_capabilities "target relay" (m_relay_transports target);
     validate_transport_capabilities "current app" current_app;
     validate_transport_capabilities "current relay" current_relay;
     if transports_intersect (m_app_transports target) current_relay then None else Some "target app cannot connect to the current relay; install a bridge release first"%string;
     if transports_intersect current_app (m_relay_transports target) then None else Some "current app cannot connect to the target relay; install a bridge release first"%string].
End Checks.

(** ** Checksums *)

Section Checksums.
Context `{CM : CaseMapping}.

Definition hex_digest (field : string) : bool := bool_decide (String.length field = 64%nat) && forallb is_hexdigit (as_bytes field).
Definition line_fields (line : string) : list string := (fun w => string_of_bytes (utf8_encode w)) <$> Questions.words (chars line) [].
Definition strip_star (name : string) : string := match as_bytes name with 42 :: rest => string_of_bytes rest | _ => name end.
Fixpoint checksum_in (lines : list string) (archive_name : string) : result string string :=
  match lines with
  | [] => Err ("checksums.txt does not list " +:+ archive_name)
  | line :: lines =>
      match line_fields line with
      | sum :: name :: _ => if decide (strip_star name = archive_name) then (if hex_digest sum then Ok (to_lowercase sum) else Err "release archive checksum is invalid"%string) else checksum_in lines archive_name
      | _ => checksum_in lines archive_name
      end
  end.
Definition checksum_for_archive (data : bytes) (archive_name : string) : result string string :=
  checksum_in (Lines.split_nl (string_of_bytes (utf8_encode (Activity.lossy_chars data)))) archive_name.
End Checksums.

(** ** A run *)

Inductive WorkerError := Concurrent | Failed (message : string).

Inductive Effect :=
| EWrite (s : UpdateState) (ok : bool)      (** a write of the state file *)
| EStage                                    (** the scratch directory is created *)
| EDiscard                                  (** and removed *)
| EInstall (revision : string)              (** [herdr plugin install --ref] *)
| ERemoveJob.
Definition Log : Type := list Effect.

(** What the world answers. *)
Record Answers := mkAnswers {
  wa_job : result string UpdateJob;                           (** reading and parsing the job *)
  wa_target : string;
  wa_started : string;
  wa_finished : string;
  wa_checked : Z;
  wa_executable : bool;
  wa_mkdir_root : option string;
  wa_lock : option WorkerError;
  wa_write : nat -> option string;                            (** the error of the n-th state write *)
  wa_current : Tree;
  wa_get : string -> result string (Z * bytes);               (** status and body *)
  wa_stage : option string;
  wa_download : string -> result string (Z * string);         (** size and digest of the file *)
  wa_mkdir_release : option string;
  wa_listing : result string (list string);
  wa_extracted : result string Tree;
  wa_remove_archive : option string;
  wa_install : string -> option string;
  wa_health : list (result string (Z * bytes) * Z);           (** replies, and the clock after each *)
  wa_deadline : Z;
  wa_health_deadline : Z;
}.

Record HealthReply := mkHealth { hr_status : string; hr_release_version : string; hr_revision : string; hr_bundle_hash : string }.

Section Run.
Context `{DG : WriteAudit.Digest} `{CM : CaseMapping} `{DJ : UploadIndex.DocumentJson} `{UP : PushTypes.UrlParser} `{DT : DebugText}.
(** What lies behind links, and the text of a verification error. *)
Context (through : string -> list string -> option Kind) (error_text : ReleaseError -> string).

Definition archive_name (j : UpdateJob) (target : string) : string :=
  "lerdr-relay_" +:+ jb_target_version j +:+ "_" +:+ string_of_bytes ((fun b => if decide (b = 47) then 95 else b) <$> as_bytes target) +:+ ".tar.gz".
Definition asset_base (j : UpdateJob) : string := CANONICAL_RELEASE_ASSETS +:+ "/v" +:+ path_escape (jb_target_version j).

Definition download_bytes (a : Answers) (endpoint : string) (maximum : Z) : result string bytes :=
  match wa_get a endpoint with
  | Err e => Err e
  | Ok (code, body) =>
      if decide (code <> 200) then Err ("HTTP " +:+ decimal code)
      else if decide (maximum < Z.of_nat (length body)) then Err "response exceeds size limit"%string
      else Ok body
  end.
Definition download_file (a : Answers) (endpoint : string) (maximum : Z) : result string string :=
  match wa_download a endpoint with
  | Err e => Err e
  | Ok (size, sum) => if decide (maximum < size) then Err "response exceeds size limit"%string else Ok sum
  end.

Definition context {A} (prefix : string) (r : result string A) : result string A := match r with Err e => Err (prefix +:+ e) | Ok x => Ok x end.
Definition or_error (e : option string) : result string unit := match e with Some e => Err e | None => Ok tt end.
Definition then_ {A B} (r : result string A) (f : A -> result string B) : result string B := match r with Err e => Err e | Ok x => f x end.

(** What is done inside the scratch directory. *)
Definition stage (a : Answers) (j : UpdateJob) (current : Manifest) (expected : string) : result string Manifest :=
  let name := archive_name j (wa_target a) in
  then_ (context "download target release: " (download_file a (asset_base j +:+ "/" +:+ path_escape name) MAX_ARCHIVE_BYTES)) (fun actual =>
  if negb (eq_ignore_ascii_case actual expected) then Err "target release archive checksum mismatch"%string
  else
  then_ (or_error (wa_mkdir_release a)) (fun _ =>
  then_ (context "extract target release: " (extract_release_archive (wa_listing a) (wa_extracted a))) (fun tree =>
  then_ (context "remove staged archive: " (or_error (wa_remove_archive a))) (fun _ =>
  then_ (context "verify target release: " (match Release.verify through tree (wa_target a) with Ok m => Ok m | Err e => Err (error_text e) end)) (fun m =>
  if decide (m_version m <> jb_target_version j \/ eq_ignore_ascii_case (m_revision m) (jb_target_revision j) = false) then Err "target release identity does not match the advertised update"%string
  else then_ (context "transport compatibility: " (or_error (validate_upgrade_compatibility current m))) (fun _ => Ok m)))))).

(** [prepare_target_release]: a failed stage is removed at once, and again by
    the drop of its guard. *)
Definition prepare_target_release (a : Answers) (j : UpdateJob) (log : Log) : Log * result string Manifest :=
  match Release.load through (wa_current a) with
  | Err e => (log, Err ("load current release: " +:+ error_text e))
  | Ok current =>
      match context "download release checksums: " (download_bytes a (asset_base j +:+ "/checksums.txt") MAX_CHECKSUM_BYTES) with
      | Err e => (log, Err e)
      | Ok checksums =>
          match checksum_for_archive checksums (archive_name j (wa_target a)) with
          | Err e => (log, Err e)
          | Ok expected =>
              match wa_stage a with
              | Some e => (log, Err ("create update stage: " +:+ e))
              | None => match stage a j current expected with
                        | Err e => (log ++ [EStage; EDiscard; EDiscard], Err e)
                        | Ok m => (log ++ [EStage], Ok m)
                        end
              end
          end
      end
  end.

(** A string field with [serde(default)]. *)
Definition health_field (f : option json) : option string := match f with None => Some ""%string | Some (JString s) => Some s | Some _ => None end.
Definition de_health (v : json) : option HealthReply :=
  fs ← JsonWire.de_struct ["status"; "release_version"; "revision"; "bundle_hash"]%string v;
  match fs with
  | [a; b; c; d] => a ← health_field a; b ← health_field b; c ← health_field c; d ← health_field d; Some (mkHealth a b c d)
  | _ => None
  end.
Definition read_health (body : bytes) : HealthReply := default (mkHealth "" "" "" "") (UploadIndex.from_slice (take HEALTH_BODY_CAP body) ≫= de_health).
Definition reports (m : Manifest) (h : HealthReply) : bool :=
  bool_decide (hr_status h = "ok"%string) && bool_decide (hr_release_version h = m_version m) && eq_ignore_ascii_case (hr_revision h) (m_revision m) &&
  (bool_decide (default ""%string (m_web_hash m) = ""%string) || eq_ignore_ascii_case (hr_bundle_hash h) (default ""%string (m_web_hash m))).
(** [None]: the replies are used up and the worker is still polling. *)
Fixpoint verify_health (deadline health_deadline : Z) (m : Manifest) (replies : list (result string (Z * bytes) * Z)) : option (result string unit) :=
  match replies with
  | [] => None
  | (reply, now) :: replies =>
      if (match reply with Ok (code, body) => bool_decide (code = 200) && reports m (read_health body) | Err _ => false end) then Some (Ok tt)
      else if decide (deadline <= now) then Some (Err "context deadline exceeded"%string)
      else if decide (health_deadline <= now) then Some (Err ("relay did not report release " +:+ m_version m +:+ " (" +:+ m_revision m +:+ ")"))
      else verify_health deadline health_deadline m replies
  end.

Definition is_write (e : Effect) : bool := match e with EWrite _ _ => true | _ => false end.
Definition writes (log : Log) : nat := length (filter (fun e => is_write e = true) log).
Definition write_state (a : Answers) (s : UpdateState) (log : Log) : Log * option string :=
  let err := wa_write a (writes log) in (log ++ [EWrite s (bool_decide (err = None))], err).
Definition fail (a : Answers) (s : UpdateState) (e : string) (log : Log) : Log * option (result WorkerError unit) :=
  ((write_state a (failed_state (compact e 500) (wa_finished a) s) log).1, Some (Err (Failed e))).

(** The run after the release was staged. *)
Definition finish_run (a : Answers) (j : UpdateJob) (s : UpdateState) (m : Manifest) (log : Log) : Log * option (result WorkerError unit) :=
  let s := set_state "installing" s in
  let '(log, err) := write_state a s log in
  match err with
  | Some e => (log, Some (Err (Failed ("write installing state: " +:+ e))))
  | None =>
      let revision := to_lowercase (jb_target_revision j) in
      let log := log ++ [EInstall revision] in
      match wa_install a revision with
      | Some e => fail a s e log
      | None =>
          let s := set_state "restarting" s in
          let '(log, err) := write_state a s log in
          match err with
          | Some e => (log, Some (Err (Failed e)))
          | None =>
              match verify_health (wa_deadline a) (wa_health_deadline a) m (wa_health a) with
              | None => (log, None)
              | Some (Err e) => fail a s ("verify Herdr plugin update: " +:+ e) log
              | Some (Ok _) =>
                  let '(log, err) := write_state a (succeeded_state j (wa_checked a) (wa_finished a) s) log in
                  match err with Some e => (log, Some (Err (Failed e))) | None => (log ++ [ERemoveJob], Some (Ok tt)) end
              end
          end
      end
  end.

(** The guard of the staged tree is dropped when the run returns. *)
Definition drop_staged (x : Log * option (result WorkerError unit)) : Log * option (result WorkerError unit) := match x.2 with Some _ => (x.1 ++ [EDiscard], x.2) | None => x end.

Definition run (a : Answers) : Log * option (result WorkerError unit) :=
  match wa_job a with
  | Err e => ([], Some (Err (Failed e)))
  | Ok j =>
      let s := first_state j (wa_target a) (wa_started a) in
      let fail_startup e := if is_absolute (jb_state_path j) then fail a s e [] else ([], Some (Err (Failed e))) in
      match validate_job (wa_executable a) j with
      | Some e => fail_startup e
      | None =>
          match wa_mkdir_root a with
          | Some e => fail_startup e
          | None =>
              match wa_lock a with
              | Some Concurrent => ([], Some (Err Concurrent))
              | Some (Failed e) => fail_startup e
              | None =>
                  let s := set_state "preparing" s in
                  let '(log, err) := write_state a s [] in
                  match err with
                  | Some e => (log, Some (Err (Failed ("write preparing state: " +:+ e))))
                  | None =>
                      let '(log, staged) := prepare_target_release a j log in
                      match staged with
                      | Err e => fail a s ("prepare target release: " +:+ e) log
                      | Ok m => drop_staged (finish_run a j s m log)
                      end
                  end
              end
          end
      end
  end.
End Run.

End UpdateWorker.

Module UpdateClaims.
Import Utf8 Json Protocol Release UpdateWorker.

(** ** What each check establishes *)

Lemma then_Ok {A B} (r : result string A) (f : A -> result string B) y : then_ r f = Ok y -> exists x, r = Ok x /\ f x = Ok y.
Proof. destruct r as [x|e]; [|discriminate]. intros H. by exists x. Qed.
Lemma context_Ok {A} p (r : result string A) x : context p r = Ok x -> r = Ok x.
Proof. by destruct r. Qed.
Lemma or_error_Ok e x : or_error e = Ok x -> e = None.
Proof. by destruct e. Qed.

Lemma first_refusal_None l : first_refusal l = None -> Forall (fun o => o = None) l.
Proof. induction l as [|[e|] l IH]; cbn; [constructor|discriminate|]. intros H. constructor; [reflexivity|exact (IH H)]. Qed.

Section Genuine.
Context `{DG : WriteAudit.Digest} `{CM : CaseMapping} `{DJ : UploadIndex.DocumentJson} `{UP : PushTypes.UrlParser} `{DT : DebugText}.
Context (through : string -> list string -> option Kind) (error_text : ReleaseError -> string).

Lemma compatible_transports current target :
  validate_upgrade_compatibility current target = None ->
  transports_intersect (m_app_transports target) (transport_capabilities current).2 = true /\
  transports_intersect (transport_capabilities current).1 (m_relay_transports target) = true.
Proof.
  unfold validate_upgrade_compatibility. destruct (transport_capabilities current) as [app relay]. intros H%first_refusal_None.
  do 5 (apply Forall_cons in H as [_ H]). apply Forall_cons in H as [H1 H]. apply Forall_cons in H as [H2 _]. cbn [fst snd].
  split; [by destruct (transports_intersect (m_app_transports target) relay)|by destruct (transports_intersect app (m_relay_transports target))].
Qed.

Lemma checksum_is_listed lines name sum :
  checksum_in lines name = Ok sum -> exists line s n rest, line ∈ lines /\ line_fields line = s :: n :: rest /\ strip_star n = name /\ hex_digest s = true /\ sum = to_lowercase s.
Proof.
  induction lines as [|line lines IH]; cbn [checksum_in]; [discriminate|].
  assert (Hrec : checksum_in lines name = Ok sum -> exists l s n rest, l ∈ line :: lines /\ line_fields l = s :: n :: rest /\ strip_star n = name /\ hex_digest s = true /\ sum = to_lowercase s).
  { intros (l & s & n & r & Hl & H)%IH. exists l, s, n, r. split; [by right|exact H]. }
  destruct (line_fields line) as [|s [|n rest]] eqn:Ef; [exact Hrec..|].
  destruct (decide _) as [Hn|_]; [|exact Hrec]. destruct (hex_digest s) eqn:Hh; [|discriminate]. intros [= <-].
  exists line, s, n, rest. split; [left|done].
Qed.

(** The release a job names, downloaded, unpacked and checked. *)
Record genuine (a : Answers) (j : UpdateJob) (m : Manifest) : Prop := {
  gn_valid : validate_job (wa_executable a) j = None;
  gn_archive : exists checksums line sum name rest actual,
    download_bytes a (asset_base j +:+ "/checksums.txt") MAX_CHECKSUM_BYTES = Ok checksums /\
    line ∈ Lines.split_nl (string_of_bytes (utf8_encode (Activity.lossy_chars checksums))) /\
    line_fields line = sum :: name :: rest /\ strip_star name = archive_name j (wa_target a) /\ hex_digest sum = true /\
    download_file a (asset_base j +:+ "/" +:+ path_escape (archive_name j (wa_target a))) MAX_ARCHIVE_BYTES = Ok actual /\ eq_ignore_ascii_case actual (to_lowercase sum) = true;
  gn_tree : exists tree, extract_release_archive (wa_listing a) (wa_extracted a) = Ok tree /\ Release.verify through tree (wa_target a) = Ok m;
  gn_version : m_version m = jb_target_version j;
  gn_revision : eq_ignore_ascii_case (m_revision m) (jb_target_revision j) = true;
  gn_compatible : exists current, Release.load through (wa_current a) = Ok current /\
    transports_intersect (m_app_transports m) (transport_capabilities current).2 = true /\ transports_intersect (transport_capabilities current).1 (m_relay_transports m) = true;
}.

Lemma stage_Ok a j current expected m :
  stage through error_text a j current expected = Ok m ->
  exists actual tree,
    download_file a (asset_base j +:+ "/" +:+ path_escape (archive_name j (wa_target a))) MAX_ARCHIVE_BYTES = Ok actual /\ eq_ignore_ascii_case actual expected = true /\
    extract_release_archive (wa_listing a) (wa_extracted a) = Ok tree /\ Release.verify through tree (wa_target a) = Ok m /\
    m_version m = jb_target_version j /\ eq_ignore_ascii_case (m_revision m) (jb_target_revision j) = true /\ validate_upgrade_compatibility current m = None.
Proof.
  unfold stage. intros (actual & Hd%context_Ok & H)%then_Ok. destruct (eq_ignore_ascii_case actual expected) eqn:He; [|discriminate]. cbn [negb] in H.
  apply then_Ok in H as ([] & _ & H). apply then_Ok in H as (tree & Hx%context_Ok & H). apply then_Ok in H as ([] & _ & H).
  apply then_Ok in H as (m' & Hv%context_Ok & H). destruct (decide _) as [_|Hid]; [discriminate|]. apply then_Ok in H as ([] & Hc%context_Ok%or_error_Ok & [= ->]).
  exists actual, tree. split_and!; try done.
  - destruct (Release.verify through tree (wa_target a)); congruence.
  - destruct (decide (m_version m = jb_target_version j)); [done|]. destruct Hid. by left.
  - destruct (eq_ignore_ascii_case (m_revision m) (jb_target_revision j)) eqn:E; [done|]. destruct Hid. by right.
Qed.

Lemma prepared_is_genuine a j log log' m :
  validate_job (wa_executable a) j = None -> prepare_target_release through error_text a j log = (log', Ok m) -> genuine a j m /\ log' = log ++ [EStage].
Proof.
  intros Hjob. unfold prepare_target_release.
  destruct (Release.load through (wa_current a)) as [current|] eqn:Hload; [|discriminate].
  destruct (context _ (download_bytes _ _ _)) as [checksums|] eqn:Hsum; [|discriminate].
  apply context_Ok in Hsum.
  destruct (checksum_for_archive checksums _) as [expected|] eqn:Hexp; [|discriminate].
  destruct (wa_stage a); [discriminate|]. destruct (stage through error_text a j current expected) as [m'|] eqn:Hst; [|discriminate]. intros [= <- ->].
  apply stage_Ok in Hst as (actual & tree & Hd & He & Hx & Hv & Hver & Hrev & Hc%compatible_transports). apply checksum_is_listed in Hexp as (line & s & n & rest & Hl & Hf & Hn & Hh & ->).
  split; [|done]. constructor; [done| |by exists tree|done|done|by exists current].
  exists checksums, line, s, n, rest, actual. by split_and!.
Qed.

Lemma health_is_reported deadline health_deadline m replies :
  verify_health deadline health_deadline m replies = Some (Ok tt) -> exists body now, (Ok (200, body), now) ∈ replies /\ reports m (read_health body) = true.
Proof.
  induction replies as [|[reply now] replies IH]; cbn [verify_health]; [discriminate|].
  destruct (match reply with Ok _ => _ | Err _ => false end) eqn:Hr.
  - destruct reply as [[code body]|e]; [|discriminate]. apply andb_true_iff in Hr as [Hcode%bool_decide_eq_true Hr]. subst code. intros _. exists body, now. split; [left|done].
  - destruct (decide (deadline <= now)); [discriminate|]. destruct (decide (health_deadline <= now)); [discriminate|].
    intros (body & later & Hin & H)%IH. exists body, later. split; [by right|done].
Qed.
Lemma health_times_out deadline health_deadline m replies :
  Exists (fun r => health_deadline <= r.2) replies -> exists r, verify_health deadline health_deadline m replies = Some r.
Proof.
  induction 1 as [[reply now] replies Hn|[reply now] replies Hn IH]; cbn [verify_health snd] in *; destruct (match reply with Ok _ => _ | Err _ => false end); eauto;
    destruct (decide (deadline <= now)); eauto; destruct (decide (health_deadline <= now)); eauto; lia.
Qed.

Notation go a := (run through error_text a).
Definition state_named (name : string) (j : UpdateJob) (a : Answers) : UpdateState := set_state name (first_state j (wa_target a) (wa_started a)).

(** How a run ends once the release is staged: the effects, in order, and the
    result. *)
Inductive ending (a : Answers) (j : UpdateJob) (s : UpdateState) (m : Manifest) : Log -> option (result WorkerError unit) -> Prop :=
| end_unwritten n e : wa_write a n = Some e ->
    ending a j s m [EWrite (set_state "installing" s) false] (Some (Err (Failed ("write installing state: " +:+ e))))
| end_uninstalled e n : wa_install a (to_lowercase (jb_target_revision j)) = Some e ->
    ending a j s m
      [EWrite (set_state "installing" s) true; EInstall (to_lowercase (jb_target_revision j));
       EWrite (failed_state (compact e 500) (wa_finished a) (set_state "installing" s)) (bool_decide (wa_write a n = None))] (Some (Err (Failed e)))
| end_unmarked n e : wa_write a n = Some e ->
    ending a j s m [EWrite (set_state "installing" s) true; EInstall (to_lowercase (jb_target_revision j)); EWrite (set_state "restarting" s) false] (Some (Err (Failed e)))
| end_polling : verify_health (wa_deadline a) (wa_health_deadline a) m (wa_health a) = None ->
    ending a j s m [EWrite (set_state "installing" s) true; EInstall (to_lowercase (jb_target_revision j)); EWrite (set_state "restarting" s) true] None
| end_unhealthy e n : verify_health (wa_deadline a) (wa_health_deadline a) m (wa_health a) = Some (Err e) ->
    ending a j s m
      [EWrite (set_state "installing" s) true; EInstall (to_lowercase (jb_target_revision j)); EWrite (set_state "restarting" s) true;
       EWrite (failed_state (compact ("verify Herdr plugin update: " +:+ e) 500) (wa_finished a) (set_state "restarting" s)) (bool_decide (wa_write a n = None))]
      (Some (Err (Failed ("verify Herdr plugin update: " +:+ e))))
| end_unrecorded n e : wa_write a n = Some e ->
    ending a j s m
      [EWrite (set_state "installing" s) true; EInstall (to_lowercase (jb_target_revision j)); EWrite (set_state "restarting" s) true;
       EWrite (succeeded_state j (wa_checked a) (wa_finished a) (set_state "restarting" s)) false] (Some (Err (Failed e)))
| end_installed : verify_health (wa_deadline a) (wa_health_deadline a) m (wa_health a) = Some (Ok tt) ->
    ending a j s m
      [EWrite (set_state "installing" s) true; EInstall (to_lowercase (jb_target_revision j)); EWrite (set_state "restarting" s) true;
       EWrite (succeeded_state j (wa_checked a) (wa_finished a) (set_state "restarting" s)) true; ERemoveJob] (Some (Ok tt)).

Lemma set_state_again x y s : set_state x (set_state y s) = set_state x s.
Proof. reflexivity. Qed.
Lemma finish_run_ending a j s m log : exists tail, (finish_run a j s m log).1 = log ++ tail /\ ending a j s m tail (finish_run a j s m log).2.
Proof.
  unfold finish_run, fail, write_state. destruct (wa_write a (writes log)) as [e|] eqn:E0; cbn [fst snd].
  { eexists. split; [reflexivity|]. rewrite bool_decide_false by done. by eapply end_unwritten. }
  rewrite bool_decide_true by done. destruct (wa_install a _) as [e|] eqn:Ei; cbn [fst snd].
  { eexists. split; [by rewrite <- !app_assoc|]. by apply end_uninstalled. }
  match goal with |- context [wa_write a ?n] => destruct (wa_write a n) as [e|] eqn:E1 end; cbn [fst snd]; rewrite ?set_state_again.
  { eexists. split; [by rewrite <- !app_assoc|]. rewrite bool_decide_false by done. by eapply end_unmarked. }
  rewrite bool_decide_true by done. destruct (verify_health _ _ _ _) as [[[]|e]|] eqn:Ev; cbn [fst snd].
  - match goal with |- context [wa_write a ?n] => destruct (wa_write a n) as [e|] eqn:E2 end; cbn [fst snd].
    + eexists. split; [by rewrite <- !app_assoc|]. rewrite bool_decide_false by done. by eapply end_unrecorded.
    + eexists. split; [by rewrite <- !app_assoc|]. rewrite bool_decide_true by done. by apply end_installed.
  - eexists. split; [by rewrite <- !app_assoc|]. by apply end_unhealthy.
  - eexists. split; [by rewrite <- !app_assoc|]. by apply end_polling.
Qed.

(** How a run ends. *)
Inductive course (a : Answers) : Log -> option (result WorkerError unit) -> Prop :=
| run_unread e : wa_job a = Err e -> course a [] (Some (Err (Failed e)))
| run_mute j e : wa_job a = Ok j -> is_absolute (jb_state_path j) = false -> course a [] (Some (Err (Failed e)))
| run_refused j e : wa_job a = Ok j ->
    course a [EWrite (failed_state (compact e 500) (wa_finished a) (first_state j (wa_target a) (wa_started a))) (bool_decide (wa_write a 0 = None))] (Some (Err (Failed e)))
| run_concurrent : course a [] (Some (Err Concurrent))
| run_unwritten j e : wa_job a = Ok j -> wa_write a 0 = Some e -> course a [EWrite (state_named "preparing" j a) false] (Some (Err (Failed ("write preparing state: " +:+ e))))
| run_unprepared j e mid : wa_job a = Ok j -> mid = [] \/ mid = [EStage; EDiscard; EDiscard] ->
    course a (EWrite (state_named "preparing" j a) true :: mid ++
       [EWrite (failed_state (compact ("prepare target release: " +:+ e) 500) (wa_finished a) (state_named "preparing" j a)) (bool_decide (wa_write a 1 = None))])
      (Some (Err (Failed ("prepare target release: " +:+ e))))
| run_staged j m tail r : wa_job a = Ok j -> genuine a j m -> ending a j (state_named "preparing" j a) m tail r ->
    course a (EWrite (state_named "preparing" j a) true :: EStage :: tail ++ (match r with Some _ => [EDiscard] | None => [] end)) r.

Lemma refused_log a j log log' e : prepare_target_release through error_text a j log = (log', Err e) -> exists mid, log' = log ++ mid /\ (mid = [] \/ mid = [EStage; EDiscard; EDiscard]).
Proof.
  unfold prepare_target_release.
  destruct (Release.load _ _); [destruct (context _ _); [destruct (checksum_for_archive _ _); [destruct (wa_stage a); [|destruct (stage _ _ _ _ _ _)]|]|]|]; intros [= <- _];
    first [exists []; split; [by rewrite app_nil_r|by left]|eexists; split; [reflexivity|by right]].
Qed.

Lemma startup_course a j e : wa_job a = Ok j ->
  course a ((if is_absolute (jb_state_path j) then fail a (first_state j (wa_target a) (wa_started a)) e [] else ([], Some (Err (Failed e)))).1)
    ((if is_absolute (jb_state_path j) then fail a (first_state j (wa_target a) (wa_started a)) e [] else ([], Some (Err (Failed e)))).2).
Proof. intros Hj. destruct (is_absolute (jb_state_path j)) eqn:Ha; [by apply run_refused|by eapply run_mute]. Qed.

Lemma run_course a : course a (go a).1 (go a).2.
Proof.
  unfold run. destruct (wa_job a) as [j|e] eqn:Hj; [|by apply run_unread].
  destruct (validate_job _ j) as [e|] eqn:Hval; [by apply startup_course|]. destruct (wa_mkdir_root a); [by apply startup_course|].
  destruct (wa_lock a) as [[|e]|]; [constructor|by apply startup_course|]. cbn [write_state writes is_write length filter].
  unfold write_state. change (writes []) with 0%nat. destruct (wa_write a 0) as [e|] eqn:E0; cbn [app].
  { rewrite bool_decide_false by done. by eapply run_unwritten. }
  rewrite bool_decide_true by done. destruct (prepare_target_release _ _ _ _ _) as [log [m|e]] eqn:Hp.
  - apply prepared_is_genuine in Hp as [Hg ->]; [|done]. destruct (finish_run_ending a j (state_named "preparing" j a) m [EWrite (state_named "preparing" j a) true; EStage]) as (tail & Hlog & Hend).
    unfold drop_staged. cbn [app]. change (set_state "preparing" _) with (state_named "preparing" j a). destruct (finish_run _ _ _ _ _) as [log r]. cbn [fst snd] in *. subst log.
    pose proof (run_staged a j m tail r Hj Hg Hend) as Hc. destruct r; [exact Hc|]. by rewrite app_nil_r in Hc.
  - apply refused_log in Hp as (mid & -> & Hmid). unfold fail, write_state. cbn [fst snd].
    pose proof (run_unprepared a j e mid Hj Hmid) as Hc. replace (writes ([EWrite (set_state "preparing" (first_state j (wa_target a) (wa_started a))) true] ++ mid)) with 1%nat by (destruct Hmid as [->| ->]; reflexivity).
    rewrite <- app_assoc. exact Hc.
Qed.

(** C20 — An update is reported as installed only for the release the job names:
    a run that succeeds was given a valid job; the archive it downloaded has the
    digest that checksums.txt lists for its name; what the archive unpacked to is
    a verified release of the job's version and revision whose transports meet
    those of the running one in both directions; and a relay answered its health
    check with exactly this release.  The states it wrote are preparing,
    installing, restarting and succeeded, in this order, the plugin is installed
    after the checks and before the restart, and the job file goes only after
    success is on disk. *)
Theorem update_succeeds_only_verified a log :
  go a = (log, Some (Ok tt)) ->
  exists j m body now,
    wa_job a = Ok j /\ genuine a j m /\ (Ok (200, body), now) ∈ wa_health a /\ reports m (read_health body) = true /\
    log = [EWrite (state_named "preparing" j a) true; EStage; EWrite (state_named "installing" j a) true; EInstall (to_lowercase (jb_target_revision j));
           EWrite (state_named "restarting" j a) true; EWrite (succeeded_state j (wa_checked a) (wa_finished a) (state_named "restarting" j a)) true; ERemoveJob; EDiscard].
Proof.
  intros H. pose proof (run_course a) as Hc. rewrite H in Hc. cbn [fst snd] in Hc. inversion Hc as [| | | | | |j m tail r Hj Hg Hend]; subst.
  inversion Hend as [| | | | | |Hh]; subst. apply health_is_reported in Hh as (body & now & Hin & Hr). by exists j, m, body, now.
Qed.

(** The last state that was written. *)
Definition last_write (log : Log) : option Effect := list.last (filter (fun e => is_write e = true) log).

(** C21 — A run that fails leaves the update to be retried and says so: the job
    file is kept; Herdr was asked to install nothing but the job's revision, and
    only after its release passed every check; a scratch directory that was
    created is removed afterwards; and, unless another worker holds the lock or
    the job could not be read or names no usable state file, when no write of the
    state file fails the last state written is the failed one, with the error and
    the job's target. *)
Theorem failed_update_is_retryable a log e :
  go a = (log, Some (Err e)) ->
  ERemoveJob ∉ log /\
  (forall revision, EInstall revision ∈ log -> exists j m, wa_job a = Ok j /\ genuine a j m /\ revision = to_lowercase (jb_target_revision j)) /\
  (EStage ∈ log -> exists before after, log = before ++ EStage :: after /\ EDiscard ∈ after) /\
  (forall j message, wa_job a = Ok j -> is_absolute (jb_state_path j) = true -> e = Failed message -> (forall n, wa_write a n = None) ->
     exists s, last_write log = Some (EWrite s true) /\ us_state s = "failed"%string /\ us_error s = compact message 500 /\
       us_target_version s = jb_target_version j /\ us_target_revision s = jb_target_revision j).
Proof.
  intros H. pose proof (run_course a) as Hc. rewrite H in Hc. cbn [fst snd] in Hc. clear H.
  inversion Hc as [e' Hj|j e' Hj Ha|j e' Hj| |j e' Hj Hw|j e' mid Hj Hmid|j m tail r Hj Hg Hend]; subst.
  - split_and!; [set_solver..|]. intros j m Hj'. congruence.
  - split_and!; [set_solver..|]. intros j' m Hj'. congruence.
  - split_and!; [set_solver..|]. intros j' m Hj' _ [= <-] Hok. rewrite Hj in Hj'. injection Hj' as <-. eexists. split; [rewrite Hok; reflexivity|done].
  - split_and!; [set_solver..|]. intros j m _ _ [=].
  - split_and!; [set_solver..|]. intros j' m _ _ _ Hok. by rewrite Hok in Hw.
  - split_and!.
    + destruct Hmid as [->| ->]; set_solver.
    + destruct Hmid as [->| ->]; set_solver.
    + intros Hst. destruct Hmid as [->| ->]; [set_solver|]. eexists [_], _. split; [reflexivity|]. set_solver.
    + intros j' m Hj' _ [= <-] Hok. rewrite Hj in Hj'. injection Hj' as <-. eexists. split; [destruct Hmid as [->| ->]; rewrite Hok; reflexivity|done].
  - split_and!.
    + inversion Hend; subst; set_solver.
    + intros revision Hin. exists j, m. split_and!; [done..|]. inversion Hend; subst; set_solver.
    + intros _. eexists [_], _. split; [reflexivity|]. set_solver.
    + intros j' message Hj' _ [= ->] Hok. rewrite Hj in Hj'. injection Hj' as <-. inversion Hend as [n e Hw|e n Hi|n e Hw| |e n Hh|n e Hw|]; subst; try (by rewrite Hok in Hw).
      all: eexists; split; [rewrite Hok; reflexivity|done].
Qed.
(** A run comes to an end: whatever the file system, the network and the
    child processes answer, the worker returns as soon as one of the health
    checks it polls is answered at or after the health deadline. *)
Theorem update_run_returns a : Exists (fun reply => wa_health_deadline a <= reply.2) (wa_health a) -> exists r, (go a).2 = Some r.
Proof.
  intros Hd. pose proof (run_course a) as Hc. inversion Hc as [| | | | | |j m tail r Hj Hg Hend]; subst; eauto.
  inversion Hend as [| | |Hpoll| | |]; subst; eauto. destruct (health_times_out (wa_deadline a) _ m _ Hd) as [r Hr]. congruence.
Qed.
End Genuine.

(** ** An update, and one Herdr refuses *)

#[local] Instance up_digest : WriteAudit.Digest := ReleaseClaims.demo_digest.
#[local] Instance up_lower : CaseMapping := ReleaseClaims.demo_lower.
#[local] Instance up_writer : PushTypes.PrettyJson := ReleaseClaims.demo_writer.
#[local] Instance up_reader : UploadIndex.DocumentJson := ReleaseClaims.demo_reader.
#[local] Instance up_url : PushTypes.UrlParser := {| PushTypes.url_parse s := if String.prefix "http://127.0.0.1" s then Some (PushTypes.mkUrl "http" "" None (Some "127.0.0.1"%string) None (Some 8375)) else None |}.
#[local] Instance up_debug : DebugText := {| debug_text := id |}.

Definition demo_revision : string := "0123456789abcdef0123456789abcdef01234567".
Definition demo_sum : string := "00112233445566778899aabbccddeeff00112233445566778899aabbccddeeff".
Definition target_build : Tree * result ReleaseError Manifest := build ReleaseClaims.demo_tree true "1.1.0" demo_revision "linux/amd64".
Definition demo_job : UpdateJob := mkJob "/opt/lerdr" "/usr/bin/herdr" "1.1.0" demo_revision "/var/lerdr/update-state.json" "http://127.0.0.1:8375/healthz".
Definition demo_health : bytes :=
  PushDurable.put (JObject ([("status", JString "ok"); ("release_version", JString "1.1.0"); ("revision", JString demo_revision)]%string ++
                            match target_build.2 with Ok m => [("bundle_hash"%string, JString (default ""%string (m_web_hash m)))] | Err _ => [] end)).
Definition demo_answers (installer : string -> option string) : Answers :=
  mkAnswers (Ok demo_job) "linux/amd64" "10:00" "10:05" 1700 true None None (fun _ => None) ReleaseClaims.demo_build.1
    (fun _ => Ok (200, as_bytes (demo_sum +:+ "  *" +:+ archive_name demo_job "linux/amd64"))) None (fun _ => Ok (1000, demo_sum)) None (Ok ["lerdr-relay"; "web/"; "web/index.html"]%string)
    (Ok target_build.1) None installer [(Err "connection refused"%string, 5); (Ok (200, demo_health), 10); (Err "timed out"%string, 20)] 900 15.

Notation worker a := (run ReleaseClaims.no_links (fun _ => "unreadable"%string) a).

Definition ends_ok (x : Log * option (result WorkerError unit)) : bool := match x.2 with Some (Ok _) => true | _ => false end.
Definition ends_failed (message : string) (x : Log * option (result WorkerError unit)) : bool := match x.2 with Some (Err (Failed e)) => bool_decide (e = message) | _ => false end.
Lemma ends_ok_spec x : ends_ok x = true -> x = (x.1, Some (Ok tt)).
Proof. destruct x as [log [[[]|]|]]; cbn; congruence. Qed.
Lemma ends_failed_spec m x : ends_failed m x = true -> x = (x.1, Some (Err (Failed m))).
Proof. destruct x as [log [[|[|e]]|]]; cbn; try discriminate. intros ->%bool_decide_eq_true. reflexivity. Qed.

Lemma update_succeeds_only_verified_witness : exists m, genuine ReleaseClaims.no_links (demo_answers (fun _ => None)) demo_job m.
Proof.
  assert (H : ends_ok (worker (demo_answers (fun _ => None))) = true) by (vm_compute; reflexivity).
  destruct (update_succeeds_only_verified _ _ (demo_answers (fun _ => None)) _ (ends_ok_spec _ H)) as (j & m & body & now & [= <-] & Hg & _). exists m. exact Hg.
Defined.

Lemma failed_update_is_retryable_witness : exists s, last_write (worker (demo_answers (fun _ => Some "no such plugin"%string))).1 = Some (EWrite s true) /\ us_error s = "no such plugin"%string.
Proof.
  assert (H : ends_failed "no such plugin" (worker (demo_answers (fun _ => Some "no such plugin"%string))) = true) by (vm_compute; reflexivity).
  destruct (failed_update_is_retryable _ _ (demo_answers (fun _ => Some "no such plugin"%string)) _ _ (ends_failed_spec _ _ H)) as (_ & _ & _ & Hw).
  destruct (Hw demo_job "no such plugin"%string eq_refl eq_refl eq_refl (fun _ => eq_refl)) as (s & Hs & _ & He & _). exists s. split; [exact Hs|]. rewrite He. vm_compute. reflexivity.
Defined.

Lemma update_run_returns_witness : exists r, (worker (demo_answers (fun _ => None))).2 = Some r.
Proof.
  apply (update_run_returns ReleaseClaims.no_links (fun _ => "unreadable"%string) (demo_answers (fun _ => None))).
  cbn [wa_health demo_answers wa_health_deadline]. do 2 apply Exists_cons_tl. apply Exists_cons_hd. cbn [snd]. lia.
Defined.

End UpdateClaims.
