(* ===== verification/UpdateManager.v ===== *)
(** * The update manager

    The update part of [lerdr-coord/src/actions/misc.rs]: looking for a newer
    release, keeping the state of an update on disk beside the worker of
    [UpdateWorker], scheduling that worker, and settling what a worker that died
    left behind.  What the file system, the network, the clock and the launcher
    answer during an operation is its environment. *)

From S2P Require Import Prelude Utf8 Lines Civil Json JsonWire GoJson Protocol Outcome WriteAudit UploadTime UploadZip Activity UploadIndex PushTypes PushState PushDurable Questions Release UpdateWorker.

Module UpdateManager.
Import Utf8 Json UpdateWorker.

Definition CANONICAL_API : string := "https://api.github.com/repos/IGUNUBLUE/lerdr-rust-kotlin".
Definition CANONICAL_WEB : string := "https://github.com/IGUNUBLUE/lerdr-rust-kotlin".
Definition MAX_RESPONSE_BYTES : nat := Z.to_nat (2 * 1024 * 1024).
Definition STARTUP_GRACE_SECS : Z := 30.
Definition UPDATE_WORKER_SUPPORTED : bool := true.

(** ** The state file and the job file *)

Definition text_field (name value : string) : list (string * json) := if decide (value = ""%string) then [] else [(name, JString value)].
Definition state_json (s : UpdateState) : json :=
  JObject ([("state"%string, JString (us_state s))] ++ text_field "current_version" (us_current_version s) ++ text_field "current_revision" (us_current_revision s) ++
           text_field "available_version" (us_available_version s) ++ text_field "available_revision" (us_available_revision s) ++ text_field "upstream_version" (us_upstream_version s) ++
           text_field "upstream_revision" (us_upstream_revision s) ++ text_field "target_version" (us_target_version s) ++ text_field "target_revision" (us_target_revision s) ++
           text_field "target" (us_target s) ++ (if decide (us_checked_at s = 0) then [] else [("checked_at"%string, json_int (us_checked_at s))]) ++ text_field "started_at" (us_started_at s) ++
           text_field "finished_at" (us_finished_at s) ++ text_field "mode" (us_mode s) ++ [("eligible"%string, JBool (us_eligible s)); ("can_install"%string, JBool (us_can_install s))] ++
           text_field "reason" (us_reason s) ++ text_field "error" (us_error s)).
(** A field of a struct with [serde(default)]: only a missing one is the
    default. *)
Definition de_plain {A} (zero : A) (read : json -> option A) (f : option json) : option A := match f with None => Some zero | Some v => read v end.
Definition plain_text : option json -> option string := de_plain ""%string as_str.
Definition state_fields : list string :=
  ["state"; "current_version"; "current_revision"; "available_version"; "available_revision"; "upstream_version"; "upstream_revision"; "target_version"; "target_revision"; "target"; "checked_at";
   "started_at"; "finished_at"; "mode"; "eligible"; "can_install"; "reason"; "error"]%string.
Definition de_state (v : json) : option UpdateState :=
  fs ← JsonWire.de_struct state_fields v;
  match fs with
  | [a; b; c; d; e; f; g; h; i; j; k; l; m; n; o; p; q; r] =>
      a ← plain_text a; b ← plain_text b; c ← plain_text c; d ← plain_text d; e ← plain_text e; f ← plain_text f; g ← plain_text g; h ← plain_text h; i ← plain_text i; j ← plain_text j;
      k ← de_plain 0 as_i64 k; l ← plain_text l; m ← plain_text m; n ← plain_text n; o ← de_plain false as_bool o; p ← de_plain false as_bool p; q ← plain_text q; r ← plain_text r;
      Some (mkState a b c d e f g h i j k l m n o p q r)
  | _ => None
  end.

Definition job_json (j : UpdateJob) : json :=
  JObject [("release_root", JString (jb_release_root j)); ("herdr_bin", JString (jb_herdr_bin j)); ("target_version", JString (jb_target_version j)); ("target_revision", JString (jb_target_revision j));
           ("state_path", JString (jb_state_path j)); ("health_url", JString (jb_health_url j))]%string.
Definition de_job (v : json) : option UpdateJob :=
  fs ← JsonWire.de_struct ["release_root"; "herdr_bin"; "target_version"; "target_revision"; "state_path"; "health_url"]%string v;
  match fs with
  | [a; b; c; d; e; f] => a ← plain_text a; b ← plain_text b; c ← plain_text c; d ← plain_text d; e ← plain_text e; f ← plain_text f; Some (mkJob a b c d e f)
  | _ => None
  end.

(** ** Clock text *)

Definition civil_from_days (z : Z) : Z * Z * Z := UploadTime.civil_from_days z.
Definition rfc3339 (secs : Z) : string := Civil.date_text (civil_from_days (secs / 86400)) +:+ "T" +:+ Civil.clock_text (secs mod 86400) +:+ "Z".

(** [str::get] of a range, and [parse::<i64>]. *)
Definition get_range (b : bytes) (from to : nat) : option bytes := if is_char_boundary b from && is_char_boundary b to && bool_decide (from <= to <= length b)%nat then Some (take (to - from) (drop from b)) else None.
Definition unsigned (digits : bytes) : option Z := if decide (digits = []) then None else if forallb UploadTime.is_digit digits then Some (UploadTime.digits_value digits) else None.
Definition parse_i64 (b : bytes) : option Z :=
  v ← match b with 45 :: rest => Z.opp <$> unsigned rest | 43 :: rest => unsigned rest | _ => unsigned b end;
  if decide (- 2 ^ 63 <= v <= i64_max) then Some v else None.
Definition number_at (b : bytes) (from to : nat) : option Z := get_range b from to ≫= parse_i64.
Definition parse_rfc3339 (value : string) : option Z :=
  let v := as_bytes (trim value) in
  if decide (length v < 20)%nat then None
  else
    year ← number_at v 0 4; month ← number_at v 5 7; day ← number_at v 8 10; hour ← number_at v 11 13; minute ← number_at v 14 16; second ← number_at v 17 19;
    if decide (~ (1 <= month <= 12 /\ 1 <= day <= 31)) then None
    else Some (UploadTime.days_from_civil year month day * 86400 + hour * 3600 + minute * 60 + second).

(** ** States *)

Definition valid_state (value : string) : bool :=
  bool_decide (value ∈ ["current"; "checking"; "available"; "blocked"; "scheduled"; "preparing"; "installing"; "restarting"; "recovering"; "succeeded"; "failed"; "rolled_back"; "unsupported"]%string).
Definition transient_update_state (value : string) : bool := bool_decide (value ∈ ["scheduled"; "preparing"; "installing"; "restarting"; "recovering"]%string).
Definition short_revision (value : string) : string := match get_range (as_bytes value) 0 12 with Some b => string_of_bytes b | None => value end.
Definition version_ltb (a b : Z * Z * Z) : bool :=
  let '(a1, a2, a3) := a in
  let '(b1, b2, b3) := b in
  bool_decide (a1 < b1 \/ (a1 = b1 /\ (a2 < b2 \/ (a2 = b2 /\ a3 < b3)))).
Definition newer_version (candidate current : string) : bool := match parse_semver candidate, parse_semver current with Some next, Some installed => version_ltb installed next | _, _ => false end.

Record ReleaseMetadata := mkMetadata { rm_version : string; rm_revision : string }.
#[export] Instance ReleaseMetadata_eq_dec : EqDecision ReleaseMetadata.
Proof. solve_decision. Defined.

Record Manager := mkManager {
  mg_release_root : string;
  mg_runtime_dir : string;
  mg_herdr_bin : string;
  mg_version : string;
  mg_revision : string;
  mg_health_url : string;
  mg_metadata : ReleaseMetadata;
  mg_state : UpdateState;
}.
Definition with_state (s : UpdateState) (m : Manager) : Manager := mkManager (mg_release_root m) (mg_runtime_dir m) (mg_herdr_bin m) (mg_version m) (mg_revision m) (mg_health_url m) (mg_metadata m) s.
Definition with_metadata (d : ReleaseMetadata) (m : Manager) : Manager := mkManager (mg_release_root m) (mg_runtime_dir m) (mg_herdr_bin m) (mg_version m) (mg_revision m) (mg_health_url m) d (mg_state m).
Definition state_path (m : Manager) : string := mg_runtime_dir m +:+ "/update-state.json".

(** The runtime directory: the state file, when it can be read, the job files,
    and the workers that were launched. *)
Record World := mkWorld { w_state : option bytes; w_jobs : gmap string bytes; w_launched : list string }.
Definition put_state (b : bytes) (w : World) : World := mkWorld (Some b) (w_jobs w) (w_launched w).
Definition put_job (path : string) (b : bytes) (w : World) : World := mkWorld (w_state w) (<[path := b]> (w_jobs w)) (w_launched w).
Definition drop_job (path : string) (w : World) : World := mkWorld (w_state w) (delete path (w_jobs w)) (w_launched w).
Definition launched (path : string) (w : World) : World := mkWorld (w_state w) (w_jobs w) (w_launched w ++ [path]).

(** What an operation meets: the clock, which of its writes fail and how, and
    what the network, the lock and the launcher say. *)
Record Env := mkEnv {
  en_now : Z;
  en_nanos : Z;
  en_target : string;
  en_executable : bool;
  en_lock_acquirable : bool;
  en_root_made : bool;
  en_orphan_write : option string;
  en_load_write : option string;
  en_write : option string;
  en_failed_write : option string;
  en_mkdir : option string;
  en_job_write : option string;
  en_remove : bool;
  en_launch : option string;
  en_curl : string -> result string (bool * bytes * bytes);      (** exit status, output, error output *)
}.

Section Operations.
Context `{CM : Protocol.CaseMapping} `{DJ : UploadIndex.DocumentJson} `{PJ : PushTypes.PrettyJson} `{DT : DebugText} `{FT : GoJson.FloatText}.
(** The text of a JSON error, and the path [Url::path] finds. *)
Context (json_error : bytes -> string) (url_path : string -> option string).

(** [write_state], with the error the file system reports. *)
Definition write_state (err : option string) (s : UpdateState) (w : World) : World := match err with None => put_state (PushState.document (state_json s)) w | Some _ => w end.
Definition read_state (w : World) : option UpdateState := b ← w_state w; v ← UploadIndex.from_slice b; de_state v.

(** [load_job] of the worker. *)
Definition load_job (b : bytes) : option UpdateJob := UploadIndex.from_slice b ≫= de_job.

Definition public_state (m : Manager) (s : UpdateState) : UpdateState :=
  mkState (us_state s) (mg_version m) (mg_revision m) (us_available_version s) (short_revision (us_available_revision s)) (us_upstream_version s) (us_upstream_revision s) (us_target_version s)
    (us_target_revision s) (us_target s) (us_checked_at s) (us_started_at s) (us_finished_at s) (us_mode s) (us_eligible s) (us_can_install s) (compact (us_reason s) 500) (compact (us_error s) 500).

Definition is_build (m : Manager) (s : UpdateState) : bool := bool_decide (us_target_version s = mg_version m) && eq_ignore_ascii_case (us_target_revision s) (mg_revision m).
Definition reconcilable (s : UpdateState) : bool := transient_update_state (us_state s) || (bool_decide (us_state s = "failed"%string) && negb (bool_decide (us_started_at s = ""%string))).

Definition default_state (m : Manager) (e : Env) : UpdateState := mkState "checking" (mg_version m) (mg_revision m) "" "" "" "" "" "" (en_target e) 0 "" "" "" false false "" "".
Definition stamped (m : Manager) (s : UpdateState) : UpdateState :=
  mkState (us_state s) (mg_version m) (mg_revision m) (us_available_version s) (us_available_revision s) (us_upstream_version s) (us_upstream_revision s) (us_target_version s)
    (us_target_revision s) (us_target s) (us_checked_at s) (us_started_at s) (us_finished_at s) (us_mode s) (us_eligible s) (us_can_install s) (us_reason s) (us_error s).
Definition reconciled (finished : string) (s : UpdateState) : UpdateState :=
  mkState (us_state s) (us_current_version s) (us_current_revision s) (us_available_version s) (us_available_revision s) (us_upstream_version s) (us_upstream_revision s) (us_target_version s)
    (us_target_revision s) (us_target s) (us_checked_at s) (us_started_at s) finished "plugin" true false (us_reason s) "".
(** The state an [available] or [blocked] one becomes when it is not newer. *)
Definition demoted (m : Manager) (e : Env) (candidate : string) (s : UpdateState) : UpdateState :=
  mkState "current" (mg_version m) (mg_revision m) "" "" (if decide (us_upstream_version s = ""%string) then candidate else us_upstream_version s)
    (if decide (us_upstream_revision s = ""%string) then us_target_revision s else us_upstream_revision s) "" "" (en_target e) (us_checked_at s) "" "" (us_mode s) (us_eligible s) false "" "".
Definition candidate_of (s : UpdateState) : string := if decide (us_available_version s = ""%string) then us_target_version s else us_available_version s.

Definition load_state (m : Manager) (e : Env) (w : World) : World * UpdateState :=
  match read_state w with
  | None => (w, default_state m e)
  | Some s =>
      if negb (valid_state (us_state s)) then (w, default_state m e)
      else
        let s := stamped m s in
        if reconcilable s && is_build m s then
          let s := reconciled (if decide (us_finished_at s = ""%string) then rfc3339 (en_now e) else us_finished_at s) s in
          (write_state (en_load_write e) s w, s)
        else if bool_decide (us_state s = "available"%string \/ us_state s = "blocked"%string) && negb (newer_version (candidate_of s) (mg_version m)) then (w, demoted m e (candidate_of s) s)
        else (w, s)
  end.

(** ** Orphans *)

Definition settled (m : Manager) (e : Env) (s : UpdateState) : UpdateState :=
  mkState "succeeded" (mg_version m) (mg_revision m) (us_available_version s) (us_available_revision s) (us_upstream_version s) (us_upstream_revision s) (us_target_version s)
    (us_target_revision s) (us_target s) (us_checked_at s) (us_started_at s) (rfc3339 (en_now e)) "plugin" true false (us_reason s) "".
Definition ORPHANED : string := "Herdr plugin update worker stopped before completion; run the update again".
Definition orphaned (e : Env) (s : UpdateState) : UpdateState := failed_state ORPHANED (rfc3339 (en_now e)) s.

Definition orphan_candidate (m : Manager) (e : Env) (include_scheduled : bool) (w : World) : World * option UpdateState :=
  match read_state w with
  | None => (w, None)
  | Some s =>
      if negb (reconcilable s) then (w, None)
      else if is_build m s then (write_state (en_orphan_write e) (settled m e s) w, None)
      else if decide (us_state s = "failed"%string) then (w, None)
      else
        let started := parse_rfc3339 (us_started_at s) in
        if match started with Some t => bool_decide (en_now e - t < STARTUP_GRACE_SECS) | None => false end then (w, None)
        else if bool_decide (us_state s = "scheduled"%string) && negb include_scheduled && bool_decide (started = None) then (w, None)
        else if negb (is_absolute (mg_release_root m)) then (w, None)
        else if negb (en_root_made e) then (w, None)
        else (w, Some s)
  end.
Definition recover_orphan (m : Manager) (e : Env) (include_scheduled : bool) (w : World) : World :=
  let '(w, found) := orphan_candidate m e include_scheduled w in
  match found with Some s => if en_lock_acquirable e then write_state (en_orphan_write e) (orphaned e s) w else w | None => w end.

(** [from_env] once its configuration is read: [m] carries it. *)
Definition from_env (m : Manager) (first second : Env) (w : World) : Manager * World :=
  let m := with_metadata (mkMetadata "" "") m in
  let '(w, s) := load_state m first w in
  let m := with_state s m in
  let w := recover_orphan m second true w in
  let '(w, s) := load_state m second w in
  (with_state s m, w).

(** ** Fetching the latest release *)

Fixpoint before_newline (b : bytes) : option (bytes * bytes) :=     (** split at the last newline *)
  match b with
  | [] => None
  | c :: b => match before_newline b with Some (l, r) => Some (c :: l, r) | None => if decide (c = 10) then Some ([], b) else None end
  end.
Definition lossy_text (b : bytes) : string := string_of_bytes (utf8_encode (Activity.lossy_chars b)).
Definition parse_u16 (s : string) : option Z :=
  v ← unsigned (match as_bytes s with 43 :: rest => rest | b => b end); if decide (v <= 65535) then Some v else None.

Definition curl_output (e : Env) (endpoint : string) : result string bytes :=
  match en_curl e endpoint with
  | Err err => Err err
  | Ok (success, out, err) => if success : bool then Ok out else Err ("curl failed: " +:+ compact (lossy_text err) 300)
  end.
Definition curl_get (e : Env) (endpoint : string) : result string (Z * bytes) :=
  match curl_output e endpoint with
  | Err err => Err err
  | Ok out =>
      match before_newline out with
      | None => Err "malformed curl output"%string
      | Some (body, status) => match parse_u16 (trim (lossy_text status)) with Some code => Ok (code, body) | None => Err "malformed curl status"%string end
      end
  end.
(** The first two lines; a carriage return at their end is trimmed by the
    callers. *)
Definition curl_redirect (e : Env) (endpoint : string) : result string (Z * string) :=
  match curl_output e endpoint with
  | Err err => Err err
  | Ok out =>
      let lines := Lines.split_nl (lossy_text out) in
      match parse_u16 (trim (default ""%string (lines !! 0%nat))) with
      | Some code => Ok (code, default ""%string (lines !! 1%nat))
      | None => Err "malformed curl status"%string
      end
  end.

Definition get_body (e : Env) (endpoint : string) : result string bytes :=
  match curl_get e endpoint with
  | Err err => Err err
  | Ok (code, body) => if decide (code <> 200) then Err ("HTTP " +:+ decimal code) else Ok (take MAX_RESPONSE_BYTES body)
  end.
Definition get_json {A} (e : Env) (de : bytes -> json -> option A) (endpoint : string) : result string A :=
  match get_body e endpoint with
  | Err err => Err err
  | Ok body => match UploadIndex.from_slice body ≫= de body with Some v => Ok v | None => Err (json_error body) end
  end.

Record GithubRelease := mkGithub { gr_tag_name : string; gr_draft : bool; gr_prerelease : bool }.
Definition de_release (_ : bytes) (v : json) : option GithubRelease :=
  fs ← JsonWire.de_struct ["tag_name"; "draft"; "prerelease"]%string v;
  match fs with [a; b; c] => a ← plain_text a; b ← de_plain false as_bool b; c ← de_plain false as_bool c; Some (mkGithub a b c) | _ => None end.

Inductive GitObject := mkGit (sha object_type url : string) (object : option GitObject).
Definition no_object : GitObject := mkGit "" "" "" None.
(** The nesting is bounded by the length of the text. *)
Fixpoint de_object (fuel : nat) (v : json) : option GitObject :=
  match fuel with
  | O => None
  | S fuel =>
      fs ← JsonWire.de_struct ["sha"; "type"; "url"; "object"]%string v;
      match fs with
      | [a; b; c; d] =>
          a ← plain_text a; b ← plain_text b; c ← plain_text c; d ← match d with None | Some JNull => Some None | Some v => Some <$> de_object fuel v end;
          Some (mkGit a b c d)
      | _ => None
      end
  end.
Definition de_git (body : bytes) (v : json) : option GitObject := de_object (S (length body)) v.
(** [TagRef]. *)
Definition de_tag_ref (body : bytes) (v : json) : option GitObject :=
  fs ← JsonWire.de_struct ["object"]%string v;
  match fs with [a] => de_plain no_object (de_object (S (length body))) a | _ => None end.

Definition NOT_EXACT : string := "release tag did not resolve to an exact commit".
Fixpoint resolve_object (e : Env) (rounds : nat) (o : GitObject) : result string string :=
  match rounds with
  | O => Err NOT_EXACT
  | S rounds =>
      let 'mkGit sha object_type url _ := o in
      if decide (object_type = "commit"%string /\ valid_revision sha = true) then Ok (Protocol.to_lowercase sha)
      else if decide (object_type <> "tag"%string \/ url = ""%string) then Err NOT_EXACT
      else match get_json e de_git url with
           | Err err => Err ("resolve annotated release tag: " +:+ err)
           | Ok (mkGit _ _ _ None) => Err NOT_EXACT
           | Ok (mkGit _ _ _ (Some (mkGit sha object_type url _))) => resolve_object e rounds (mkGit sha object_type url None)
           end
  end.
Definition fetch_tag_revision (e : Env) (tag : string) : result string string :=
  match get_json e de_tag_ref (CANONICAL_API +:+ "/git/ref/tags/" +:+ path_escape tag) with
  | Err err => Err ("resolve release tag: " +:+ err)
  | Ok o => resolve_object e 3 o
  end.

Definition strip_v (tag : string) : string := match as_bytes tag with 118 :: rest => string_of_bytes rest | _ => tag end.
Definition trim_v (tag : string) : string := string_of_bytes (drop_while (fun c => bool_decide (c = 118)) (as_bytes tag)).
Definition release_metadata_for_tag (e : Env) (tag : string) (draft prerelease : bool) : result string ReleaseMetadata :=
  if draft || prerelease then Err "canonical latest release is not a stable published release"%string
  else if negb (semver_valid (strip_v tag)) then Err ("release tag " +:+ debug_text tag +:+ " is not semantic versioned")
  else match fetch_tag_revision e tag with Err err => Err err | Ok revision => Ok (mkMetadata (strip_v tag) revision) end.

(** The last segment, once trailing slashes are gone. *)
Definition trim_end_slashes (b : bytes) : bytes := reverse (drop_while (fun c => bool_decide (c = 47)) (reverse b)).
Definition last_segment (b : bytes) : bytes := default b (list.last (UploadZip.split_slash b)).
Definition fetch_latest_stable_tag (e : Env) : result string string :=
  match curl_redirect e (CANONICAL_WEB +:+ "/releases/latest") with
  | Err err => Err err
  | Ok (code, location) =>
      if decide (~ code ∈ [301; 302; 303; 307; 308]) then Err ("latest release did not redirect: HTTP " +:+ decimal code)
      else
        let location := trim location in
        if decide (location = ""%string) then Err "latest release redirect has no Location header"%string
        else
          let path := default location (url_path location) in
          let tag := string_of_bytes (last_segment (trim_end_slashes (as_bytes path))) in
          if decide (head (as_bytes tag) <> Some 118 \/ semver_valid (trim_v tag) = false) then Err ("latest release tag " +:+ debug_text tag +:+ " is not semantic versioned")
          else Ok tag
  end.

(** [str::find]. *)
Fixpoint find_text (b needle : bytes) : option nat :=
  if decide (take (length needle) b = needle) then Some 0%nat
  else match b with [] => None | _ :: b => S <$> find_text b needle end.
Definition entry_id (entry : bytes) : option bytes :=
  start ← find_text entry (as_bytes "<id>");
  let rest := drop (start + 4) entry in
  stop ← find_text rest (as_bytes "</id>");
  Some (take stop rest).
(** Each round drops the six bytes of a tag. *)
Fixpoint atom_entries (fuel : nat) (rest : bytes) : list bytes :=
  match fuel with
  | O => []
  | S fuel =>
      match find_text rest (as_bytes "<entry") with
      | None => []
      | Some start =>
          let rest := drop (start + 6) rest in
          let stop := default (length rest) (find_text rest (as_bytes "</entry>")) in
          option_list (entry_id (take stop rest)) ++ atom_entries fuel (drop stop rest)
      end
  end.
Definition atom_entry_ids (body : bytes) : list bytes := let text := utf8_encode (Activity.lossy_chars body) in atom_entries (S (length text)) text.

Definition exact_revision (id : bytes) : option string :=
  let revision := string_of_bytes (last_segment (as_bytes (trim (string_of_bytes id)))) in
  if valid_revision revision then Some (Protocol.to_lowercase revision) else None.
Definition fetch_feed_tag_revision (e : Env) (tag : string) : result string string :=
  match get_body e (CANONICAL_WEB +:+ "/commits/" +:+ path_escape tag +:+ ".atom") with
  | Err err => Err ("read commit feed: " +:+ err)
  | Ok body => match head (omap exact_revision (atom_entry_ids body)) with Some r => Ok r | None => Err "commit feed did not contain an exact revision"%string end
  end.
Definition fetch_latest_stable_release (e : Env) : result string ReleaseMetadata :=
  match fetch_latest_stable_tag e with
  | Err err => Err err
  | Ok tag =>
      match fetch_feed_tag_revision e tag with
      | Err err => Err ("resolve release tag " +:+ tag +:+ ": " +:+ err)
      | Ok revision => Ok (mkMetadata (strip_v tag) revision)
      end
  end.

Definition github_api_rate_limited (err : string) : bool :=
  bool_decide (is_Some (find_text (as_bytes err) (as_bytes "HTTP 403")) \/ is_Some (find_text (as_bytes err) (as_bytes "HTTP 429"))).
Definition fetch_release (e : Env) : result string ReleaseMetadata :=
  let api :=
    match get_json e de_release (CANONICAL_API +:+ "/releases/latest") with
    | Err err => Err err
    | Ok r => release_metadata_for_tag e (gr_tag_name r) (gr_draft r) (gr_prerelease r)
    end in
  match api with
  | Ok d => Ok d
  | Err api_err =>
      if negb (github_api_rate_limited api_err) then Err ("read canonical release: " +:+ api_err)
      else match fetch_latest_stable_release e with
           | Ok d => Ok d
           | Err fallback => Err ("read canonical release: " +:+ api_err +:+ "; web fallback: " +:+ fallback)
           end
  end.

(** ** Checking *)

Definition eligibility (m : Manager) (e : Env) : bool * string * string :=
  if negb (semver_valid (mg_version m)) || negb (valid_revision (mg_revision m)) then (false, "unsupported", "Managed updates require a released relay build")%string
  else if negb (is_absolute (mg_herdr_bin m)) then (false, "unsupported", "Managed updates require an absolute Herdr executable path")%string
  else if negb (en_executable e) then (false, "unsupported", "The Herdr executable is unavailable")%string
  else if negb UPDATE_WORKER_SUPPORTED then (false, "unsupported", "Managed updates are unavailable in this build")%string
  else (true, "plugin", "")%string.

Definition checking (m : Manager) (s : UpdateState) : UpdateState :=
  mkState "checking" (mg_version m) (mg_revision m) (us_available_version s) (us_available_revision s) (us_upstream_version s) (us_upstream_revision s) "" "" (us_target s) (us_checked_at s) "" ""
    (us_mode s) (us_eligible s) (us_can_install s) (us_reason s) "".
(** [Some] is the early answer. *)
Definition check_begin (m : Manager) (e : Env) (w : World) : Manager * World * option UpdateState :=
  let w := recover_orphan m e false w in
  let '(w, current) := load_state m e w in
  if transient_update_state (us_state current) then (with_state current m, w, Some (public_state m current))
  else
    let s := checking m current in
    (with_state s m, write_state (en_write e) s w, None).

Definition check_failed (err : string) (now : Z) (s : UpdateState) : UpdateState :=
  mkState "failed" (us_current_version s) (us_current_revision s) (us_available_version s) (us_available_revision s) (us_upstream_version s) (us_upstream_revision s) (us_target_version s)
    (us_target_revision s) (us_target s) now (us_started_at s) (us_finished_at s) (us_mode s) false false (us_reason s) (compact err 500).
Definition advertised (m : Manager) (e : Env) (d : ReleaseMetadata) : UpdateState :=
  let newer := newer_version (rm_version d) (mg_version m) in
  let '(eligible, mode, reason) := eligibility m e in
  if newer
  then mkState (if eligible : bool then "available" else "blocked") (mg_version m) (mg_revision m) (rm_version d) (short_revision (rm_revision d)) (rm_version d) (rm_revision d) (rm_version d)
         (rm_revision d) (en_target e) (en_now e) "" "" mode eligible eligible (if eligible : bool then "" else reason) ""
  else mkState "current" (mg_version m) (mg_revision m) "" "" (rm_version d) (rm_revision d) "" "" (en_target e) (en_now e) "" "" mode eligible false "" "".
Definition check_finish (m : Manager) (e : Env) (fetched : result string ReleaseMetadata) (w : World) : Manager * World * UpdateState :=
  let w := recover_orphan m e false w in
  let '(w, current) := load_state m e w in
  if transient_update_state (us_state current) then (with_state current m, w, public_state m current)
  else match fetched with
       | Err err => let s := check_failed err (en_now e) (mg_state m) in (with_state s m, write_state (en_write e) s w, public_state m s)
       | Ok d => let s := advertised m e d in (with_state s (with_metadata d m), write_state (en_write e) s w, public_state m s)
       end.

(** ** Scheduling *)

Definition NOT_AVAILABLE : string := "No installable update is available".
Definition CHANGED : string := "The advertised update changed; check again before installing".
Definition scheduled (e : Env) (s : UpdateState) : UpdateState :=
  mkState "scheduled" (us_current_version s) (us_current_revision s) (us_available_version s) (us_available_revision s) (us_upstream_version s) (us_upstream_revision s) (us_target_version s)
    (us_target_revision s) (us_target s) (us_checked_at s) (rfc3339 (en_now e)) "" (us_mode s) true false "" "".
Definition launch_failed (err : string) (s : UpdateState) : UpdateState :=
  mkState "failed" (us_current_version s) (us_current_revision s) (us_available_version s) (us_available_revision s) (us_upstream_version s) (us_upstream_revision s) (us_target_version s)
    (us_target_revision s) (us_target s) (us_checked_at s) (us_started_at s) (us_finished_at s) (us_mode s) (us_eligible s) (us_can_install s) (us_reason s) (compact err 500).
Definition job_name (e : Env) : string := "update-job-" +:+ decimal (en_nanos e) +:+ ".json".
Definition job_of (m : Manager) : UpdateJob := mkJob (mg_release_root m) (mg_herdr_bin m) (rm_version (mg_metadata m)) (rm_revision (mg_metadata m)) (state_path m) (mg_health_url m).
Definition remove_job (e : Env) (w : World) : World := if en_remove e then drop_job (job_name e) w else w.

Definition Scheduling : Type := Manager * World * result (string * UpdateState) (string * UpdateState).
Definition refuse (m : Manager) (message : string) (w : World) : Scheduling := (m, w, Err (message, public_state m (mg_state m))).

(** From the job file on. *)
Definition commit_job (m : Manager) (e : Env) (w : World) : Scheduling :=
  match en_mkdir e with
  | Some err => refuse m err w
  | None =>
      match en_job_write e with
      | Some err => refuse m ("persist update job: " +:+ err) w
      | None =>
          let w := put_job (job_name e) (PushState.document (job_json (job_of m))) w in
          let m := with_state (scheduled e (mg_state m)) m in
          match en_write e with
          | Some err => refuse m ("persist scheduled update: " +:+ err) (remove_job e w)
          | None =>
              let w := write_state None (mg_state m) w in
              match en_launch e with
              | Some err =>
                  let m := with_state (launch_failed err (mg_state m)) m in
                  refuse m err (remove_job e (write_state (en_failed_write e) (mg_state m) w))
              | None => (m, launched (job_name e) w, Ok (job_name e, public_state m (mg_state m)))
              end
          end
      end
  end.
Definition schedule (m : Manager) (e : Env) (expected_version expected_revision : string) (w : World) : Scheduling :=
  let '(w, current) := load_state m e w in
  let m := if decide (us_state current = ""%string) then m else with_state current m in
  if decide (us_state (mg_state m) <> "available"%string \/ us_can_install (mg_state m) = false)
  then refuse m (if decide (us_reason (mg_state m) = ""%string) then NOT_AVAILABLE else us_reason (mg_state m)) w
  else if decide (expected_version <> us_available_version (mg_state m) \/ expected_revision <> us_target_revision (mg_state m)) then refuse m CHANGED w
  else if decide (mg_metadata m = mkMetadata expected_version expected_revision) then commit_job m e w
  else match fetch_release e with
       | Ok d => if decide (d = mkMetadata expected_version expected_revision) then commit_job (with_metadata d m) e w else refuse m CHANGED w
       | Err _ => refuse m CHANGED w
       end.

(** ** Handlers *)

Inductive Frame := UpdateStatus (update : json) | Result (o : Outcome.Outcome).
Definition checking_json (m : Manager) : json := JObject [("state", JString "checking"); ("current_version", JString (mg_version m)); ("current_revision", JString (mg_revision m))]%string.
Definition update_data (s : UpdateState) : json := JObject [("update"%string, state_json s)].
(** The frames of a check that ended in a state, notices and reply alike. *)
Definition check_frames (m : Manager) (s : UpdateState) : list Frame := [UpdateStatus (checking_json m); UpdateStatus (state_json s); Result (Outcome.completed "" (Some (update_data s)))].
Definition install_frames (r : result (string * UpdateState) (string * UpdateState)) : list Frame :=
  match r with
  | Ok (job, s) =>
      [UpdateStatus (state_json s);
       Result (Outcome.mkOutcome true "scheduled" "" "" (Some (JObject [("job"%string, JString job); ("update"%string, state_json s)])) Protocol.CONFIRMED None)]
  | Err (message, s) =>
      [Result (Outcome.mkOutcome false "failed" message "" (Some (update_data s)) Protocol.FAILED_BEFORE_DISPATCH (Some (Outcome.api_error_plain Protocol.INVALID_REQUEST message)))]
  end.
End Operations.

End UpdateManager.

Module ManagerClaims.
Import Utf8 Json UpdateWorker UpdateClaims UpdateManager.

(** ** Written files read back *)

(** A struct whose fields are optional members under distinct names. *)
Definition opt_field (f : string * option json) : list (string * json) := match f.2 with Some v => [(f.1, v)] | None => [] end.
Lemma member_fields fields name v : NoDup fields.*1 -> (name, v) ∈ fields -> JsonWire.member (fields ≫= opt_field) name = Some v.
Proof.
  unfold JsonWire.member. intros Hd Hin.
  assert (Hf : filter (fun m : string * json => m.1 = name) (fields ≫= opt_field) = opt_field (name, v)).
  { induction fields as [|[n o] fields IH]; [by apply not_elem_of_nil in Hin|]. cbn [fmap list_fmap] in Hd. apply NoDup_cons in Hd as [Hn Hd]. cbn [mbind list_bind]. rewrite filter_app.
    apply elem_of_cons in Hin as [[= <- <-]|Hin].
    - assert (Hrest : filter (fun m : string * json => m.1 = name) (fields ≫= opt_field) = []).
      { clear IH Hd. induction fields as [|[n' o'] fields IH]; [done|]. cbn [fmap list_fmap] in Hn. apply not_elem_of_cons in Hn as [Hne Hn]. cbn [mbind list_bind]. rewrite filter_app, (IH Hn), app_nil_r.
        destruct o'; [|done]. cbn [opt_field fst snd]. by rewrite filter_cons_False by (cbn in *; intros ->; by apply Hne). }
      rewrite Hrest, app_nil_r. destruct v; [|done]. cbn [opt_field fst snd]. by rewrite filter_cons_True by done.
    - rewrite IH by done. destruct o as [x|]; [|done]. cbn [opt_field fst snd]. rewrite filter_cons_False; [done|]. cbn. intros ->. apply Hn. apply (list_elem_of_fmap_2 fst _ (name, v)) in Hin. exact Hin. }
  rewrite Hf. by destruct v.
Qed.
Lemma de_struct_fields fields : NoDup fields.*1 -> JsonWire.de_struct fields.*1 (JObject (fields ≫= opt_field)) = Some fields.*2.
Proof.
  intros Hd. cbn [JsonWire.de_struct]. apply mapM_Some. apply Forall2_fmap. apply Forall_Forall2_diag, Forall_forall. intros [name v] Hin. by apply member_fields.
Qed.

Definition opt_text (s : string) : option json := if decide (s = ""%string) then None else Some (JString s).
Lemma opt_text_back s : plain_text (opt_text s) = Some s.
Proof. unfold opt_text. case_decide as E; [by rewrite E|done]. Qed.
Lemma text_field_opt name s : text_field name s = opt_field (name, opt_text s).
Proof. unfold text_field, opt_text, opt_field. cbn. by case_decide. Qed.
Definition state_parts (s : UpdateState) : list (string * option json) :=
  zip state_fields
    [Some (JString (us_state s)); opt_text (us_current_version s); opt_text (us_current_revision s); opt_text (us_available_version s); opt_text (us_available_revision s); opt_text (us_upstream_version s);
     opt_text (us_upstream_revision s); opt_text (us_target_version s); opt_text (us_target_revision s); opt_text (us_target s); (if decide (us_checked_at s = 0) then None else Some (json_int (us_checked_at s)));
     opt_text (us_started_at s); opt_text (us_finished_at s); opt_text (us_mode s); Some (JBool (us_eligible s)); Some (JBool (us_can_install s)); opt_text (us_reason s); opt_text (us_error s)].

Lemma state_json_parts s : state_json s = JObject (state_parts s ≫= opt_field).
Proof.
  unfold state_json. rewrite !text_field_opt. f_equal. unfold state_parts, state_fields. cbn [zip zip_with mbind list_bind app].
  assert (Hc : (if decide (us_checked_at s = 0) then [] else [("checked_at"%string, json_int (us_checked_at s))]) = opt_field ("checked_at"%string, if decide (us_checked_at s = 0) then None else Some (json_int (us_checked_at s))))
    by (by case_decide).
  rewrite Hc. unfold opt_field at 10 13. cbn [fst snd]. rewrite app_nil_r. reflexivity.
Qed.
Lemma checked_back z : z <= i64_max -> de_plain 0 as_i64 (if decide (z = 0) then None else Some (json_int z)) = Some z.
Proof. intros Hz. case_decide as E; [by rewrite E|]. cbn [de_plain]. unfold json_int. case_decide; cbn [as_i64]; [by rewrite decide_True|done]. Qed.
Lemma de_state_json s : us_checked_at s <= i64_max -> de_state (state_json s) = Some s.
Proof.
  intros Hz. unfold de_state. rewrite state_json_parts. change state_fields with (state_parts s).*1. rewrite de_struct_fields by (vm_compute; repeat constructor; set_solver).
  unfold state_parts, state_fields. cbn [zip zip_with fmap list_fmap snd mbind option_bind plain_text de_plain as_str as_bool]. rewrite !opt_text_back, checked_back by done. by destruct s.
Qed.
Lemma de_job_json j : de_job (job_json j) = Some j.
Proof. by destruct j. Qed.

(** ** The clock text reads back *)

Lemma trim_kept s c0 mid c1 : as_bytes s = c0 :: mid ++ [c1] -> Forall (fun c => 0 <= c <= 0x7F) (as_bytes s) -> is_whitespace c0 = false -> is_whitespace c1 = false -> trim s = s.
Proof.
  intros E Ha H0 H1. unfold trim, trim_chars. rewrite chars_ascii by done. rewrite E. cbn [drop_while]. rewrite H0. rewrite app_comm_cons, reverse_snoc. cbn [drop_while]. rewrite H1.
  rewrite reverse_cons, reverse_involutive. rewrite <- app_comm_cons, <- E, utf8_encode_ascii by done. apply string_of_as_bytes.
Qed.
Lemma boundary_ascii b i : Forall (fun c => 0 <= c <= 0x7F) b -> (i <= length b)%nat -> is_char_boundary b i = true.
Proof.
  intros Hb Hi. unfold is_char_boundary. destruct (b !! i) as [z|] eqn:E; [|apply lookup_ge_None in E; apply bool_decide_eq_true; lia].
  eapply Forall_lookup_1 in Hb; [|exact E]. apply orb_true_iff. right. apply negb_true_iff. unfold is_cont, in_range. apply bool_decide_eq_false. cbn in Hb. lia.
Qed.
Lemma parse_plain c l z : c <> 45 -> c <> 43 -> unsigned (c :: l) = Some z -> - 2 ^ 63 <= z <= i64_max -> parse_i64 (c :: l) = Some z.
Proof.
  intros H1 H2 Hu Hz. unfold parse_i64.
  assert (E : match c :: l with 45 :: rest => Z.opp <$> unsigned rest | 43 :: rest => unsigned rest | _ => unsigned (c :: l) end = Some z) by (destruct c as [|p|p]; [exact Hu| |exact Hu]; do 6 (destruct p; try exact Hu; try lia)).
  rewrite E. cbn [mbind option_bind]. by rewrite decide_True.
Qed.
Lemma parse_dec w z : (0 < w <= 18)%nat -> 0 <= z < 10 ^ Z.of_nat w -> parse_i64 (UploadTime.dec w z) = Some z.
Proof.
  intros Hw Hz. pose proof (UploadTime.dec_length w z) as Hl. pose proof (UploadTime.dec_digits w z) as Hd. pose proof (UploadTime.dec_value w z Hz) as Hv.
  destruct (UploadTime.dec w z) as [|c l] eqn:E; [cbn in Hl; lia|]. pose proof (Forall_cons_1 _ _ _ Hd) as [Hc _]. cbn in Hc.
  assert (Hmax : 10 ^ Z.of_nat w <= 10 ^ 18) by (apply Z.pow_le_mono_r; lia). apply parse_plain; [lia..| |unfold i64_max; lia].
  unfold unsigned. rewrite decide_False by done. by rewrite UploadTime.forallb_digits, Hv.
Qed.
Lemma number_dec b pre w z post from to : b = pre ++ UploadTime.dec w z ++ post -> Forall (fun c => 0 <= c <= 0x7F) b -> from = length pre -> to = (from + w)%nat -> (0 < w <= 18)%nat -> 0 <= z < 10 ^ Z.of_nat w ->
  number_at b from to = Some z.
Proof.
  intros Eb Ha Ef Et Hw Hz. assert (Hlen : (to <= length b)%nat) by (subst; rewrite !length_app, UploadTime.dec_length; lia). unfold number_at, get_range.
  rewrite !boundary_ascii by (done || lia). rewrite bool_decide_true by lia. cbn [andb mbind option_bind]. subst b from to. rewrite drop_app_length. replace (length pre + w - length pre)%nat with (length (UploadTime.dec w z)) by (rewrite UploadTime.dec_length; lia).
  rewrite take_app_length. by apply parse_dec.
Qed.

Lemma rfc3339_format secs : rfc3339 secs = UploadTime.format_timestamp (secs * 1000000000).
Proof. unfold rfc3339, UploadTime.format_timestamp. rewrite Z.div_mul by lia. rewrite Z_mod_mult. rewrite decide_True by done. reflexivity. Qed.

Lemma dec_ascii w z : Forall (fun c => 0 <= c <= 0x7F) (UploadTime.dec w z).
Proof. eapply Forall_impl; [apply UploadTime.dec_digits|]. cbn. lia. Qed.
Lemma digit_not_space c : 48 <= c <= 57 -> is_whitespace c = false.
Proof. intros Hc. assert (Hin : c ∈ [48; 49; 50; 51; 52; 53; 54; 55; 56; 57]) by (rewrite !elem_of_cons; lia). clear Hc. repeat (apply elem_of_cons in Hin as [->|Hin]; [reflexivity|]). by apply not_elem_of_nil in Hin. Qed.

(** The time an update began survives the state file: for every second up
    to the year 9999, reading the timestamp that is written gives that second
    back, so the grace of a fresh worker is measured from its start. *)
Theorem clock_text_roundtrip secs : 0 <= secs < 253402300800 -> parse_rfc3339 (rfc3339 secs) = Some secs.
Proof.
  intros Hs. rewrite rfc3339_format. pose proof (UploadTime.date_valid (secs / 86400)) as Hv. pose proof (UploadTime.date_year (secs / 86400)) as Hy.
  destruct (UploadTime.civil_from_days (secs / 86400)) as [[y m] d] eqn:Ed. destruct Hv as (Hm & Hd & Hdays). pose proof (UploadTime.month_length_bound y m) as Hml.
  assert (Hyr : 0 <= y <= 9999) by (apply Hy; Z.to_euclidean_division_equations; lia). clear Hy.
  pose proof (UploadTime.format_bytes (secs * 1000000000) y m d) as Hb. cbv zeta in Hb. rewrite Z.div_mul, Z_mod_mult in Hb by lia. specialize (Hb Ed Hyr Hm ltac:(lia)).
  set (tod := secs mod 86400) in *. assert (Ht : 0 <= tod < 86400) by (subst tod; apply Z.mod_pos_bound; lia).
  change (UploadTime.fraction_bytes 0) with (@nil Z) in Hb. cbn [app] in Hb. set (text := UploadTime.format_timestamp (secs * 1000000000)) in *.
  assert (Ha : Forall (fun c => 0 <= c <= 0x7F) (as_bytes text)).
  { rewrite Hb. repeat (apply Forall_app; split; [apply dec_ascii|]; apply Forall_cons; split; [lia|]). by apply Forall_nil. }
  assert (Htrim : trim text = text).
  { pose proof (UploadTime.dec_digits 4 y) as Hd4. pose proof (UploadTime.dec_length 4 y) as Hl4. destruct (UploadTime.dec 4 y) as [|c0 r] eqn:E4; [discriminate|]. apply Forall_cons_1 in Hd4 as [Hc0 _].
    apply (trim_kept text c0 (r ++ 45 :: UploadTime.dec 2 m ++ 45 :: UploadTime.dec 2 d ++ 84 :: UploadTime.dec 2 (tod / 3600) ++ 58 :: UploadTime.dec 2 (tod mod 3600 / 60) ++ 58 :: UploadTime.dec 2 (tod mod 60)) 90);
      [|done|by apply digit_not_space|reflexivity]. rewrite Hb. cbn [app]. f_equal. by repeat (rewrite <- app_assoc; cbn [app]). }
  unfold parse_rfc3339. rewrite Htrim. set (b := as_bytes text) in *.
  assert (Hlen : length b = 20%nat) by (rewrite Hb; repeat rewrite ?length_app, ?length_cons, ?UploadTime.dec_length; reflexivity). rewrite decide_False by lia.
  assert (H2 : forall z, 0 <= z <= 99 -> 0 <= z < 10 ^ Z.of_nat 2) by (intros z; change (10 ^ Z.of_nat 2) with 100; lia).
  set (y4 := UploadTime.dec 4 y ++ [45]) in *. set (m2 := y4 ++ UploadTime.dec 2 m ++ [45]). set (d2 := m2 ++ UploadTime.dec 2 d ++ [84]). set (h2 := d2 ++ UploadTime.dec 2 (tod / 3600) ++ [58]).
  set (i2 := h2 ++ UploadTime.dec 2 (tod mod 3600 / 60) ++ [58]).
  assert (Ey : number_at b 0 4 = Some y) by (apply (number_dec b [] 4 y _ 0 4 Hb Ha); [done|done|lia|change (10 ^ Z.of_nat 4) with 10000; lia]).
  assert (Em : number_at b 5 7 = Some m) by (apply (number_dec b y4 2 m _ 5 7 Hb Ha); [done|done|lia|apply H2; lia]).
  assert (Ead : number_at b 8 10 = Some d) by (apply (number_dec b m2 2 d _ 8 10 Hb Ha); [done|done|lia|apply H2; lia]).
  assert (Eh : number_at b 11 13 = Some (tod / 3600)) by (apply (number_dec b d2 2 _ _ 11 13 Hb Ha); [done|done|lia|apply H2; Z.to_euclidean_division_equations; lia]).
  assert (Ei : number_at b 14 16 = Some (tod mod 3600 / 60)) by (apply (number_dec b h2 2 _ _ 14 16 Hb Ha); [done|done|lia|apply H2; Z.to_euclidean_division_equations; lia]).
  assert (Es : number_at b 17 19 = Some (tod mod 60)) by (apply (number_dec b i2 2 _ _ 17 19 Hb Ha); [done|done|lia|apply H2; Z.to_euclidean_division_equations; lia]).
  rewrite Ey, Em, Ead, Eh, Ei, Es. cbn [mbind option_bind]. rewrite decide_False by lia. rewrite UploadTime.days_is_date, Hdays by done. f_equal. subst tod. Z.to_euclidean_division_equations. lia.
Qed.


(** What is relied on of the JSON library: documents of these two shapes read
    back. *)
Record file_laws `{DJ : UploadIndex.DocumentJson} `{PJ : PushTypes.PrettyJson} : Prop := {
  fl_state s : UploadIndex.from_slice (PushState.document (state_json s)) = Some (state_json s);
  fl_job j : UploadIndex.from_slice (PushState.document (job_json j)) = Some (job_json j);
}.

Section Claims.
Context `{CM : Protocol.CaseMapping} `{DJ : UploadIndex.DocumentJson} `{PJ : PushTypes.PrettyJson}.

Lemma read_written (Hl : file_laws) s w : us_checked_at s <= i64_max -> read_state (write_state None s w) = Some s.
Proof. intros Hz. unfold read_state, write_state. cbn [w_state put_state mbind option_bind]. rewrite (fl_state Hl). cbn [mbind option_bind]. by apply de_state_json. Qed.
Lemma job_reaches_worker (Hl : file_laws) j : load_job (PushState.document (job_json j)) = Some j.
Proof. unfold load_job. rewrite (fl_job Hl). apply de_job_json. Qed.

(** ** A running update *)

(** A running update is left alone: while the state on disk is one of a
    pending update to another build whose worker holds the lock or started less
    than half a minute ago, neither half of a check, whatever it fetched, nor a
    request to install changes a file or starts a worker; the check answers with
    the state of the update and the request is refused. *)
Theorem running_update_is_left_alone `{DT : DebugText} json_error url_path m e w s v r :
  read_state w = Some s -> transient_update_state (us_state s) = true -> is_build m s = false ->
  en_lock_acquirable e = false \/ (exists t, parse_rfc3339 (us_started_at s) = Some t /\ en_now e - t < STARTUP_GRACE_SECS) ->
  check_begin m e w = (with_state (stamped m s) m, w, Some (public_state m s)) /\
  (forall fetched, check_finish m e fetched w = (with_state (stamped m s) m, w, public_state m s)) /\
  exists reason shown, schedule json_error url_path m e v r w = (with_state (stamped m s) m, w, Err (reason, shown)).
Proof.
  intros Hr Ht Hb Hbusy.
  assert (Hvalid : valid_state (us_state s) = true).
  { unfold transient_update_state, valid_state in *. apply bool_decide_eq_true in Ht. apply bool_decide_eq_true. set_solver. }
  assert (Hnot : us_state s <> "available"%string /\ us_state s <> "blocked"%string /\ us_state s <> ""%string).
  { apply bool_decide_eq_true in Ht. repeat (apply elem_of_cons in Ht as [->|Ht]; [done|]). by apply not_elem_of_nil in Ht. }
  assert (Hload : load_state m e w = (w, stamped m s)).
  { unfold load_state. rewrite Hr, Hvalid. cbn [negb]. change (is_build m (stamped m s)) with (is_build m s). rewrite Hb, andb_false_r. cbn [us_state stamped].
    rewrite bool_decide_false by tauto. done. }
  assert (Hrec : recover_orphan m e false w = w).
  { unfold recover_orphan, orphan_candidate. rewrite Hr. unfold reconcilable. rewrite Ht. cbn [orb negb]. rewrite Hb. case_decide; [done|].
    destruct Hbusy as [Hlock|(t & Ept & Hg)].
    - rewrite Hlock. by repeat case_match; simplify_eq.
    - rewrite Ept, bool_decide_true by done. done. }
  split; [|split].
  - unfold check_begin. by rewrite Hrec, Hload; cbn [us_state stamped]; rewrite Ht.
  - intros fetched. unfold check_finish. by rewrite Hrec, Hload; cbn [us_state stamped]; rewrite Ht.
  - unfold schedule. rewrite Hload. cbn [us_state stamped]. rewrite (decide_False (P := us_state s = ""%string)) by tauto. cbn [mg_state with_state us_state].
    rewrite decide_True by (left; cbn; tauto). by eexists _, _.
Qed.

(** ** Settling after a restart *)

(** The state on disk after the effects of a worker. *)
Definition on_disk (log : Log) (s : UpdateState) : UpdateState := foldl (fun s e => match e with EWrite s' true => s' | _ => s end) s log.

(** A state some worker, or the manager that scheduled it, left of a job. *)
Record of_job (j : UpdateJob) (s : UpdateState) : Prop := {
  oj_version : us_target_version s = jb_target_version j;
  oj_revision : us_target_revision s = jb_target_revision j;
  oj_started : us_started_at s <> ""%string;
  oj_checked : us_checked_at s <= i64_max;
  oj_state : us_state s ∈ ["scheduled"; "preparing"; "installing"; "restarting"; "failed"; "succeeded"]%string;
}.
Lemma on_disk_of_job j log s0 : of_job j s0 -> Forall (fun e => match e with EWrite s _ => of_job j s | _ => True end) log -> of_job j (on_disk log s0).
Proof.
  intros H0 Hl. unfold on_disk. revert s0 H0. induction Hl as [|e log He Hl IH]; intros s0 H0; [done|]. cbn [foldl]. apply IH. by destruct e as [s []| | | |].
Qed.

Section Worker.
Context `{DG : WriteAudit.Digest} `{UP : PushTypes.UrlParser} `{DT : DebugText}.
Context (through : string -> list string -> option Release.Kind) (error_text : Release.ReleaseError -> string).

Lemma worker_writes_of_job a j : wa_job a = Ok j -> wa_started a <> ""%string -> wa_checked a <= i64_max ->
  Forall (fun e => match e with EWrite s _ => of_job j s | _ => True end) (run through error_text a).1.
Proof.
  intros Hj Hs Hc.
  assert (Hn : forall name, name ∈ ["preparing"; "installing"; "restarting"]%string -> of_job j (state_named name j a)) by (intros name Hn; split; cbn; try done; set_solver).
  assert (Hf : forall e f s, of_job j s -> of_job j (failed_state e f s)) by (intros e f s []; split; cbn; try done; set_solver).
  assert (H0 : of_job j (first_state j (wa_target a) (wa_started a))) by (split; cbn; try done; set_solver).
  assert (Hd : forall s, of_job j s -> of_job j (succeeded_state j (wa_checked a) (wa_finished a) s)) by (intros s []; split; cbn; try done; set_solver).
  pose proof (run_course through error_text a) as Hrun. inversion Hrun as [e E|j' e E Ha|j' e E| |j' e E Hw|j' e mid E Hmid|j' m tail r E Hg Hend]; try (rewrite Hj in E; first [discriminate E|injection E as <-]).
  all: repeat first [apply Forall_nil; exact I|apply Forall_cons; split|apply Forall_app; split]; try exact I.
  - by apply Hf.
  - apply Hn. set_solver.
  - apply Hn. set_solver.
  - destruct Hmid as [->| ->]; [by apply Forall_nil|by repeat (apply Forall_cons; split)].
  - apply Hf, Hn. set_solver.
  - apply Hn. set_solver.
  - inversion Hend; repeat first [apply Forall_nil; exact I|apply Forall_cons; split]; try exact I; first [apply Hn; set_solver|apply Hf, (Hn "installing"%string); set_solver|apply Hf, (Hn "restarting"%string); set_solver|apply Hd, (Hn "restarting"%string); set_solver].
  - destruct ((run through error_text a).2); [apply Forall_cons; split; [done|]|]; by apply Forall_nil.
Qed.

(** What the next start makes of such a state. *)
Lemma load_other_build m e w s : read_state w = Some s -> is_build m s = false -> us_state s ∈ ["scheduled"; "preparing"; "installing"; "restarting"; "failed"; "succeeded"]%string -> load_state m e w = (w, stamped m s).
Proof.
  intros Hr Hb Hs. unfold load_state. rewrite Hr.
  assert (Hv : valid_state (us_state s) = true) by (apply bool_decide_eq_true; set_solver). rewrite Hv. cbn [negb]. change (is_build m (stamped m s)) with (is_build m s). rewrite Hb, andb_false_r.
  rewrite bool_decide_false; [done|]. cbn [us_state stamped]. intros [E|E]; rewrite E in Hs; set_solver.
Qed.
Lemma load_succeeded m e w s : read_state w = Some s -> us_state s = "succeeded"%string -> load_state m e w = (w, stamped m s).
Proof. intros Hr Hs. unfold load_state. rewrite Hr. unfold reconcilable. cbn [us_state stamped]. by rewrite Hs. Qed.

Lemma is_build_eq m s s' : us_target_version s' = us_target_version s -> us_target_revision s' = us_target_revision s -> is_build m s' = is_build m s.
Proof. unfold is_build. by intros -> ->. Qed.

Lemma pending_or_failed j s : of_job j s -> us_state s <> "succeeded"%string -> reconcilable s = true.
Proof.
  intros [_ _ Hst _ Hs] Hn. unfold reconcilable. rewrite (bool_decide_false (us_started_at s = ""%string)) by done. cbn [negb]. rewrite andb_true_r. apply orb_true_iff.
  unfold transient_update_state. rewrite !bool_decide_eq_true. set_solver.
Qed.

(** The first load may write, but only what is still of the job. *)
Lemma load_of_job (Hl : file_laws) m e w s j : read_state w = Some s -> of_job j s ->
  exists s', read_state (load_state m e w).1 = Some s' /\ of_job j s' /\ us_started_at s' = us_started_at s.
Proof.
  intros Hr Hj. destruct (decide (us_state s = "succeeded"%string)) as [Hsucc|Hns]; [rewrite (load_succeeded m e w s Hr Hsucc); by exists s|].
  destruct (is_build m s) eqn:Hb; [|rewrite (load_other_build m e w s Hr Hb (oj_state _ _ Hj)); by exists s].
  pose proof Hj as [Hv Hrev Hst Hck Hs]. unfold load_state. rewrite Hr. assert (Hvs : valid_state (us_state s) = true) by (apply bool_decide_eq_true; set_solver). rewrite Hvs. cbn [negb].
  change (is_build m (stamped m s)) with (is_build m s). change (reconcilable (stamped m s)) with (reconcilable s). rewrite Hb, (pending_or_failed j s Hj Hns). cbn [andb fst].
  destruct (en_load_write e); [by exists s|]. rewrite read_written by done. eexists. by split_and!.
Qed.

Lemma recovered_of_job (Hl : file_laws) m e w s j :
  read_state w = Some s -> of_job j s -> en_lock_acquirable e = true -> en_root_made e = true -> is_absolute (mg_release_root m) = true -> en_orphan_write e = None ->
  (forall t, parse_rfc3339 (us_started_at s) = Some t -> STARTUP_GRACE_SECS <= en_now e - t) ->
  exists s', read_state (recover_orphan m e true w) = Some s' /\ of_job j s' /\ (us_state s' = "succeeded"%string \/ (us_state s' = "failed"%string /\ is_build m s' = false)).
Proof.
  intros Hr Hj Hlock Hroot Habs Hw Hgrace. pose proof Hj as [Hv Hrev Hst Hck Hs]. unfold recover_orphan, orphan_candidate. rewrite Hr.
  destruct (decide (us_state s = "succeeded"%string)) as [Hsucc|Hns].
  { unfold reconcilable. rewrite Hsucc. cbn. exists s. split_and!; [done..|by left]. }
  rewrite (pending_or_failed j s Hj Hns). cbn [negb]. destruct (is_build m s) eqn:Hb.
  { rewrite Hw, read_written by done. eexists. split_and!; [done| |by left]. split; cbn; try done. set_solver. }
  case_decide as Hfail; [exists s; split_and!; [done..|by right]|].
  assert (Hg : match parse_rfc3339 (us_started_at s) with Some t => bool_decide (en_now e - t < STARTUP_GRACE_SECS) | None => false end = false)
    by (destruct (parse_rfc3339 (us_started_at s)) as [t|] eqn:Et; [apply bool_decide_eq_false; specialize (Hgrace t eq_refl); lia|done]).
  rewrite Hg, andb_false_r, Habs, Hroot, Hlock, Hw. cbn [andb negb]. rewrite read_written by done. eexists. split_and!; [done| |].
  - split; cbn; try done. set_solver.
  - right. split; [done|]. by rewrite (is_build_eq m s).
Qed.

(** C22 — No update stays pending: when a worker was killed at any point of its
    run, and the relay is started again once the lock is free and half a minute
    has passed since the update began, the state it loads and the state on disk
    agree and are settled: succeeded when the relay that starts is the build the
    job names, and succeeded or failed otherwise, so that an update can be
    checked for and installed again. *)
Theorem killed_update_is_settled (Hl : file_laws) a j done_ rest s0 m first second w :
  wa_job a = Ok j -> wa_started a <> ""%string -> wa_checked a <= i64_max -> (run through error_text a).1 = done_ ++ rest -> of_job j s0 -> read_state w = Some (on_disk done_ s0) ->
  en_lock_acquirable second = true -> en_root_made second = true -> is_absolute (mg_release_root m) = true -> en_orphan_write second = None ->
  (forall t, parse_rfc3339 (us_started_at (on_disk done_ s0)) = Some t -> STARTUP_GRACE_SECS <= en_now second - t) ->
  exists s, read_state (from_env m first second w).2 = Some s /\ mg_state (from_env m first second w).1 = stamped m s /\ us_target_version s = jb_target_version j /\ us_target_revision s = jb_target_revision j /\
    (us_state s = "succeeded"%string \/ us_state s = "failed"%string) /\
    (mg_version m = jb_target_version j -> eq_ignore_ascii_case (jb_target_revision j) (mg_revision m) = true -> us_state s = "succeeded"%string).
Proof.
  intros Hj Hs Hc Hrun H0 Hr Hlock Hroot Habs Hw Hgrace.
  assert (Hd : of_job j (on_disk done_ s0)).
  { apply on_disk_of_job; [done|]. pose proof (worker_writes_of_job a j Hj Hs Hc) as Hall. rewrite Hrun in Hall. by apply Forall_app in Hall as [? _]. }
  destruct (load_of_job Hl m first w _ j Hr Hd) as (s1 & Hr1 & Hj1 & Est). unfold from_env.
  change (load_state (with_metadata (mkMetadata "" "") m) first w) with (load_state m first w). destruct (load_state m first w) as [w1 x1]. cbn [fst] in Hr1.
  destruct (recovered_of_job Hl m second w1 s1 j Hr1 Hj1 Hlock Hroot Habs Hw) as (s2 & Hr2 & Hj2 & Hend); [by rewrite Est|].
  change (recover_orphan (with_state x1 (with_metadata (mkMetadata "" "") m)) second true w1) with (recover_orphan m second true w1). cbv zeta.
  change (load_state (with_state x1 (with_metadata (mkMetadata "" "") m)) second (recover_orphan m second true w1)) with (load_state m second (recover_orphan m second true w1)).
  assert (Hload : load_state m second (recover_orphan m second true w1) = (recover_orphan m second true w1, stamped m s2)).
  { destruct Hend as [E|[E Hb]]; [by apply load_succeeded|]. apply load_other_build; [done..|]. apply (oj_state _ _ Hj2). }
  rewrite Hload. cbn [fst snd mg_state with_state]. exists s2. pose proof Hj2 as [Ev Erev _ _ _]. split_and!; [done..|tauto|].
  intros Em Er. destruct Hend as [E|[_ Hb]]; [done|]. unfold is_build in Hb. rewrite Ev, Erev, Er, andb_true_r in Hb. by apply bool_decide_eq_false in Hb.
Qed.
End Worker.

(** ** What is scheduled *)

(** Lower-casing maps the ASCII letters. *)
Definition lower_byte (b : Z) : Z := if decide (65 <= b <= 90) then b + 32 else b.
Definition lower_law : Prop := forall s, Forall (fun b => 0 <= b < 128) (as_bytes s) -> as_bytes (Protocol.to_lowercase s) = lower_byte <$> as_bytes s.

Lemma hexdigit_cases b : is_hexdigit b = true -> 48 <= b <= 57 \/ 65 <= b <= 70 \/ 97 <= b <= 102.
Proof. unfold is_hexdigit, in_range. rewrite !orb_true_iff, !bool_decide_eq_true. tauto. Qed.
Lemma hexdigit_lower b : is_hexdigit b = true -> is_hexdigit (lower_byte b) = true.
Proof. intros H%hexdigit_cases. unfold is_hexdigit, in_range, lower_byte. rewrite !orb_true_iff, !bool_decide_eq_true. case_decide; lia. Qed.
Lemma valid_revision_lower (Hlow : lower_law) s : valid_revision s = true -> valid_revision (Protocol.to_lowercase s) = true.
Proof.
  unfold valid_revision. rewrite !andb_true_iff, !bool_decide_eq_true, <- !as_bytes_length. intros [Hn Hh].
  assert (Hascii : Forall (fun b => 0 <= b < 128) (as_bytes s)).
  { apply Forall_forall. intros b Hb. rewrite forallb_forall in Hh. specialize (Hh b). rewrite <- list_elem_of_In in Hh. apply Hh, hexdigit_cases in Hb. lia. }
  rewrite (Hlow s Hascii). split; [by rewrite length_fmap|]. clear Hn Hascii. induction (as_bytes s) as [|b l IH]; [done|]. cbn in *. apply andb_true_iff in Hh as [H1 H2]. by rewrite hexdigit_lower, IH.
Qed.

Section Fetch.
Context `{DT : DebugText} (json_error : bytes -> string) (url_path : string -> option string) (Hlow : lower_law).

Lemma resolved_is_exact e rounds o r : resolve_object json_error e rounds o = Ok r -> valid_revision r = true.
Proof.
  revert o. induction rounds as [|rounds IH]; intros o; cbn [resolve_object]; [discriminate|]. destruct o as [sha ty url ob].
  case_decide as Hc; [intros [= <-]; apply valid_revision_lower; tauto|]. case_decide; [discriminate|]. destruct (get_json json_error e de_git url) as [[? ? ? [[? ? ? ?]|]]|]; [apply IH|discriminate..].
Qed.
Lemma feed_is_exact e tag r : fetch_feed_tag_revision e tag = Ok r -> valid_revision r = true.
Proof.
  unfold fetch_feed_tag_revision. destruct (get_body _ _) as [body|]; [|discriminate]. destruct (head _) as [x|] eqn:E; [|discriminate]. intros [= <-].
  apply head_Some_elem_of in E. apply list_elem_of_omap in E as (id & _ & E). unfold exact_revision in E. destruct (valid_revision _) eqn:Hv; [|discriminate]. injection E as <-. by apply valid_revision_lower.
Qed.
Lemma fetched_is_exact e d : fetch_release json_error url_path e = Ok d -> valid_revision (rm_revision d) = true.
Proof.
  unfold fetch_release. set (api := match get_json _ _ _ _ with Ok _ => _ | Err _ => _ end). destruct api as [d'|err] eqn:Eapi.
  - intros [= <-]. subst api. destruct (get_json _ _ _ _) as [r|]; [|discriminate]. unfold release_metadata_for_tag in Eapi. destruct (_ || _); [discriminate|]. destruct (negb _); [discriminate|].
    unfold fetch_tag_revision in Eapi. destruct (get_json _ _ de_tag_ref _) as [o|]; [|discriminate]. destruct (resolve_object _ _ _ o) as [rev|] eqn:Er; [|discriminate]. injection Eapi as <-. by apply resolved_is_exact in Er.
  - destruct (negb _); [discriminate|]. unfold fetch_latest_stable_release. destruct (fetch_latest_stable_tag _ _) as [tag|]; [|discriminate]. destruct (fetch_feed_tag_revision _ _) as [rev|] eqn:Er; [|discriminate].
    intros [= <-]. by apply feed_is_exact in Er.
Qed.

(** ** Runs of the manager *)

Inductive MEvent :=
| MBegin (e : Env)
| MFinish (fetch finish : Env)                      (** the fetch is not under the lock *)
| MInstall (e : Env) (expected_version expected_revision : string)
| MDisk (b : option bytes).                         (** the worker writes, or the file is lost *)

Definition mstep (x : Manager * World) (ev : MEvent) : Manager * World :=
  let '(m, w) := x in
  match ev with
  | MBegin e => (check_begin m e w).1
  | MFinish fetch finish => (check_finish m finish (fetch_release json_error url_path fetch) w).1
  | MInstall e v r => (schedule json_error url_path m e v r w).1
  | MDisk b => (m, mkWorld b (w_jobs w) (w_launched w))
  end.
Definition mrun (x : Manager * World) (evs : list MEvent) : Manager * World := foldl mstep x evs.

(** The configuration never changes, and what is cached of a release came from
    a fetch. *)
Record same_config (m m' : Manager) : Prop := {
  sc_root : mg_release_root m' = mg_release_root m;
  sc_dir : mg_runtime_dir m' = mg_runtime_dir m;
  sc_bin : mg_herdr_bin m' = mg_herdr_bin m;
  sc_version : mg_version m' = mg_version m;
  sc_revision : mg_revision m' = mg_revision m;
  sc_url : mg_health_url m' = mg_health_url m;
}.
Lemma same_config_refl m : same_config m m.
Proof. by split. Qed.
Lemma same_config_trans m1 m2 m3 : same_config m1 m2 -> same_config m2 m3 -> same_config m1 m3.
Proof. intros [] []. split; congruence. Qed.
Definition known (m : Manager) : Prop := mg_metadata m = mkMetadata "" "" \/ valid_revision (rm_revision (mg_metadata m)) = true.
Definition keeps (m m' : Manager) : Prop := same_config m m' /\ (known m -> known m').
Lemma keeps_state s m : keeps m (with_state s m).
Proof. split; [by split|done]. Qed.
Lemma keeps_trans m1 m2 m3 : keeps m1 m2 -> keeps m2 m3 -> keeps m1 m3.
Proof. intros [H1 K1] [H2 K2]. split; [by eapply same_config_trans|tauto]. Qed.
Lemma keeps_fetched e d m : fetch_release json_error url_path e = Ok d -> keeps m (with_metadata d m).
Proof. intros H. split; [by split|]. intros _. right. by apply fetched_is_exact in H. Qed.

Lemma check_begin_keeps m e w : keeps m (check_begin m e w).1.1.
Proof. unfold check_begin. destruct (load_state _ _ _) as [w' c]. destruct (transient_update_state _); apply keeps_state. Qed.
Lemma check_finish_keeps m fetch e w : keeps m (check_finish m e (fetch_release json_error url_path fetch) w).1.1.
Proof.
  unfold check_finish. destruct (load_state _ _ _) as [w' c]. destruct (transient_update_state _); [apply keeps_state|]. destruct (fetch_release _ _ fetch) as [d|] eqn:Ef; cbn [fst]; [|apply keeps_state].
  eapply keeps_trans; [by eapply keeps_fetched|apply keeps_state].
Qed.
Lemma commit_keeps m e w : keeps m (commit_job m e w).1.1.
Proof. unfold commit_job, refuse. repeat case_match; cbn [fst]; first [split; [apply same_config_refl|done]|eapply keeps_trans; apply keeps_state|apply keeps_state]. Qed.
Lemma schedule_keeps m e v r w : keeps m (schedule json_error url_path m e v r w).1.1.
Proof.
  unfold schedule. destruct (load_state m e w) as [w' c]. set (m1 := if decide (us_state c = ""%string) then m else with_state c m).
  assert (H1 : keeps m m1) by (subst m1; case_decide; [split; [apply same_config_refl|done]|apply keeps_state]).
  case_decide; [exact H1|]. case_decide; [exact H1|]. case_decide; [eapply keeps_trans; [exact H1|apply commit_keeps]|].
  destruct (fetch_release _ _ e) as [d|] eqn:Ef; [|exact H1]. case_decide; [|exact H1]. eapply keeps_trans; [exact H1|]. eapply keeps_trans; [by eapply keeps_fetched|apply commit_keeps].
Qed.
Lemma mstep_keeps x ev : keeps x.1 (mstep x ev).1.
Proof. destruct x as [m w], ev; cbn [mstep fst]; [apply check_begin_keeps|apply check_finish_keeps|apply schedule_keeps|split; [apply same_config_refl|done]]. Qed.
Lemma run_keeps evs x : keeps x.1 (mrun x evs).1.
Proof. revert x. induction evs as [|ev evs IH]; intros x; [split; [apply same_config_refl|done]|]. eapply keeps_trans; [apply mstep_keeps|apply IH]. Qed.
Lemma start_keeps m first second w : same_config m (from_env m first second w).1 /\ known (from_env m first second w).1.
Proof. unfold from_env. destruct (load_state _ first w) as [w1 s1]. destruct (load_state _ second _) as [w2 s2]. split; [by split|by left]. Qed.

Lemma load_frame m e w : w_jobs (load_state m e w).1 = w_jobs w /\ w_launched (load_state m e w).1 = w_launched w.
Proof. unfold load_state. repeat case_match; try done; cbn [fst]; unfold write_state; by destruct (en_load_write e). Qed.
Lemma load_valid m e w : valid_state (us_state (load_state m e w).2) = true.
Proof.
  unfold load_state. destruct (read_state w) as [s|]; [|done]. destruct (valid_state (us_state s)) eqn:Hv; [|done]. cbn [negb]. cbv zeta.
  destruct (_ && is_build _ _); [exact Hv|]. destruct (_ && negb _); [done|exact Hv].
Qed.
Lemma reconcilable_not_available s : us_state s = "available"%string -> reconcilable s = false.
Proof. unfold reconcilable. by intros ->. Qed.
Lemma load_available m e w : us_state (load_state m e w).2 = "available"%string -> newer_version (candidate_of (load_state m e w).2) (mg_version m) = true.
Proof.
  unfold load_state. destruct (read_state w) as [s|]; [|discriminate]. destruct (valid_state (us_state s)) eqn:Hv; [|discriminate]. cbn [negb]. cbv zeta.
  destruct (reconcilable (stamped m s) && is_build m (stamped m s)) eqn:Hr.
  - cbn [snd reconciled us_state]. intros H. apply andb_true_iff in Hr as [Hr _]. by rewrite reconcilable_not_available in Hr.
  - destruct (newer_version (candidate_of (stamped m s)) (mg_version m)) eqn:Hn; [by rewrite andb_false_r|]. cbn [negb]. rewrite andb_true_r. case_bool_decide as Hs; [discriminate|]. cbn [snd]. intros H. tauto.
Qed.

Lemma commit_Ok m e w m' w' name s : commit_job m e w = (m', w', Ok (name, s)) ->
  name = job_name e /\ m' = with_state (scheduled e (mg_state m)) m /\
  w' = launched name (put_state (PushState.document (state_json (scheduled e (mg_state m)))) (put_job name (PushState.document (job_json (job_of m))) w)).
Proof. unfold commit_job, refuse. repeat case_match; intros [= <- <- <- _]; done || discriminate. Qed.

Lemma newer_semver v current : newer_version v current = true -> semver_valid v = true.
Proof. unfold newer_version, semver_valid. destruct (parse_semver v); [intros _; by apply bool_decide_eq_true|discriminate]. Qed.

(** A manager whose paths are absolute and whose health check is on loopback,
    as a service installs it. *)
Record configured `{UP : PushTypes.UrlParser} (m : Manager) : Prop := {
  cf_root : is_absolute (mg_release_root m) = true;
  cf_bin : is_absolute (mg_herdr_bin m) = true;
  cf_dir : is_absolute (mg_runtime_dir m) = true;
  cf_url : exists u, PushTypes.url_parse (mg_health_url m) = Some u /\ PushTypes.u_scheme u = "http"%string /\ is_loopback_host (PushTypes.u_host u) = true;
}.
Lemma state_path_absolute m : is_absolute (mg_runtime_dir m) = true -> is_absolute (state_path m) = true.
Proof. unfold is_absolute, state_path. rewrite !bool_decide_eq_true, as_bytes_app. by destruct (as_bytes (mg_runtime_dir m)). Qed.
Lemma job_is_valid `{UP : PushTypes.UrlParser} m : configured m -> semver_valid (rm_version (mg_metadata m)) = true -> valid_revision (rm_revision (mg_metadata m)) = true -> validate_job true (job_of m) = None.
Proof.
  intros [Hr Hb Hd (u & Hu & Hs & Hh)] Hv Hrev. unfold validate_job, job_of. cbn [jb_release_root jb_herdr_bin jb_target_version jb_target_revision jb_state_path jb_health_url].
  by rewrite Hr, Hb, Hv, Hrev, (state_path_absolute m Hd), Hu, bool_decide_true, Hh by done.
Qed.
Lemma configured_same `{UP : PushTypes.UrlParser} m m' : same_config m m' -> configured m -> configured m'.
Proof. intros [E1 E2 E3 E4 E5 E6] [H1 H2 H3 H4]. split; rewrite ?E1, ?E2, ?E3, ?E6; done. Qed.

(** What is installed is what was offered: in every run of the manager,
    whatever the worker or anyone else does to the state file, an accepted
    request to install names the version and the revision that the state file
    then offers as available and installable, a version newer than the running
    one; the worker is launched once, its job file carries exactly this version
    and revision, reads back in the worker and passes its validation, and the
    state file says that the update is scheduled. *)
Theorem scheduled_update_was_offered `{UP : PushTypes.UrlParser} (Hl : file_laws) m0 first second w0 evs m w e v r m' w' name shown :
  configured m0 -> mrun (from_env m0 first second w0) evs = (m, w) -> v <> ""%string ->
  schedule json_error url_path m e v r w = (m', w', Ok (name, shown)) ->
  (exists s, (load_state m e w).2 = s /\ us_state s = "available"%string /\ us_can_install s = true /\ us_available_version s = v /\ us_target_revision s = r /\ newer_version v (mg_version m0) = true) /\
  w_launched w' = w_launched w ++ [name] /\
  (exists b j, w_jobs w' !! name = Some b /\ load_job b = Some j /\ jb_target_version j = v /\ jb_target_revision j = r /\ validate_job true j = None) /\
  exists s, w_state w' = Some (PushState.document (state_json s)) /\ us_state s = "scheduled"%string /\ us_target_revision s = r.
Proof.
  intros Hcf Hrun Hv0 Hsch. destruct (start_keeps m0 first second w0) as [Hsame0 Hk0]. destruct (run_keeps evs (from_env m0 first second w0)) as [Hsame Hk]. rewrite Hrun in Hsame, Hk. cbn [fst] in Hsame, Hk.
  pose proof (same_config_trans _ _ _ Hsame0 Hsame) as Hsm. specialize (Hk Hk0). pose proof (configured_same _ _ Hsm Hcf) as Hcm.
  unfold schedule in Hsch. pose proof (load_frame m e w) as [Fj Fl]. pose proof (load_valid m e w) as Hval. pose proof (load_available m e w) as Hav. destruct (load_state m e w) as [w1 c]. cbn [fst snd] in *.
  rewrite (decide_False (P := us_state c = ""%string)) in Hsch by (intros E; by rewrite E in Hval). cbn [mg_state with_state mg_metadata] in Hsch.
  case_decide as Ha; [discriminate|]. case_decide as Hx; [discriminate|].
  assert (Hs : us_state c = "available"%string /\ us_can_install c = true) by (destruct (us_can_install c); split; [destruct (decide (us_state c = "available"%string)); tauto|done|tauto..]).
  assert (Hexp : v = us_available_version c /\ r = us_target_revision c) by (destruct (decide (v = us_available_version c)), (decide (r = us_target_revision c)); tauto). destruct Hs as [Hsa Hsc], Hexp as [Ev Er].
  specialize (Hav Hsa). unfold candidate_of in Hav. rewrite decide_False, <- Ev in Hav by congruence.
  assert (Hcommit : exists m1, commit_job m1 e w1 = (m', w', Ok (name, shown)) /\ mg_state m1 = c /\ mg_metadata m1 = mkMetadata v r /\ valid_revision r = true /\ configured m1).
  { case_decide as Hmd.
    - eexists. split; [exact Hsch|]. split_and!; [done|done| |by apply (configured_same m); [split|]]. destruct Hk as [Hk|Hk]; rewrite Hmd in Hk; [by injection Hk|done].
    - destruct (fetch_release json_error url_path e) as [d|] eqn:Ef; [|discriminate]. case_decide as Hd; [|discriminate]. eexists. split; [exact Hsch|]. split_and!; [done|done| |by apply (configured_same m); [split|]].
      apply fetched_is_exact in Ef. by rewrite Hd in Ef. }
  destruct Hcommit as (m1 & Hc & Es & Em & Hrev & Hcf1). apply commit_Ok in Hc as (-> & -> & ->). split_and!.
  - exists c. rewrite <- (sc_version _ _ Hsm). by split_and!.
  - cbn. by rewrite Fl.
  - eexists _, _. split; [cbn; apply lookup_insert_eq|]. split; [by apply job_reaches_worker|]. unfold job_of at 1 2. cbn [jb_target_version jb_target_revision]. rewrite Em. split_and!; [done..|].
    apply job_is_valid; rewrite ?Em; [done| |done]. by apply newer_semver in Hav.
  - eexists. split; [done|]. rewrite Es. by split.
Qed.

(** A refused request to install leaves nothing behind: no worker is
    launched, and the job files are those from before, when the name of the new
    one was free and a job file that was written can be deleted again. *)
Theorem refused_install_leaves_nothing m e v r w m' w' refusal :
  schedule json_error url_path m e v r w = (m', w', Err refusal) -> w_jobs w !! job_name e = None -> en_remove e = true -> w_launched w' = w_launched w /\ w_jobs w' = w_jobs w.
Proof.
  intros Hsch Hfree Hrm. unfold schedule in Hsch. pose proof (load_frame m e w) as [Fj Fl]. destruct (load_state m e w) as [w1 c]. cbn [fst] in *. rewrite <- Fj, <- Fl. rewrite <- Fj in Hfree. clear Fj Fl.
  assert (Hcommit : forall m1, commit_job m1 e w1 = (m', w', Err refusal) -> w_launched w' = w_launched w1 /\ w_jobs w' = w_jobs w1).
  { intros m1. unfold commit_job, refuse, remove_job, write_state. rewrite Hrm. repeat case_match; intros [= _ <- _]; cbn; rewrite ?delete_insert_id by done; done. }
  unfold refuse in Hsch. repeat case_decide; try (by injection Hsch as _ <- _); try (by eapply Hcommit).
  all: destruct (fetch_release json_error url_path e); repeat case_decide; first [by injection Hsch as _ <- _|by eapply Hcommit].
Qed.
End Fetch.
End Claims.

(** ** A relay that finds, installs and survives an update *)

#[local] Instance mc_digest : WriteAudit.Digest := ReleaseClaims.demo_digest.
#[local] Instance mc_lower : Protocol.CaseMapping := {| Protocol.to_lowercase s := string_of_bytes (lower_byte <$> as_bytes s) |}.
#[local] Instance mc_writer : PushTypes.PrettyJson := ReleaseClaims.demo_writer.
#[local] Instance mc_reader : UploadIndex.DocumentJson := ReleaseClaims.demo_reader.
#[local] Instance mc_url : PushTypes.UrlParser := UpdateClaims.up_url.
#[local] Instance mc_debug : DebugText := UpdateClaims.up_debug.

Lemma mc_files : file_laws.
Proof.
  assert (H : forall v, UploadIndex.from_slice (PushState.document v) = Some v).
  { intros v. unfold PushState.document. cbn [UploadIndex.from_slice mc_reader ReleaseClaims.demo_reader PushTypes.to_string_pretty mc_writer ReleaseClaims.demo_writer]. rewrite PushDurable.take_put; [done|]. rewrite length_app. lia. }
  split; intros; apply H.
Qed.
Lemma mc_lowers : lower_law.
Proof. intros s Hs. cbn [Protocol.to_lowercase mc_lower]. apply as_bytes_of_bytes, Forall_fmap. eapply Forall_impl; [exact Hs|]. intros b Hb. cbn in Hb |- *. unfold lower_byte, is_u8, u8_max. case_decide; lia. Qed.

Definition reply (v : json) : result string (bool * bytes * bytes) := Ok (true, PushDurable.put v ++ 10 :: as_bytes "200", []).
Definition demo_curl (endpoint : string) : result string (bool * bytes * bytes) :=
  if decide (endpoint = CANONICAL_API +:+ "/releases/latest") then reply (JObject [("tag_name"%string, JString "v1.1.0")])
  else if decide (endpoint = CANONICAL_API +:+ "/git/ref/tags/v1.1.0") then reply (JObject [("object"%string, JObject [("sha", JString demo_revision); ("type", JString "commit")]%string)])
  else Err "curl: offline"%string.
Definition demo_env (now : Z) (lock : bool) : Env := mkEnv now now "linux/amd64" true lock true None None None None None None true None demo_curl.
Definition old_revision : string := "00000000000000000000000000000000000000aa".
Definition relay (version revision : string) : Manager :=
  mkManager "/opt/lerdr" "/var/lerdr" "/usr/bin/herdr" version revision "http://127.0.0.1:8375/healthz" (mkMetadata "" "") (mkState "" "" "" "" "" "" "" "" "" "" 0 "" "" "" false false "" "").
Definition empty_world : World := mkWorld None ∅ [].
Notation no_error := (fun _ : bytes => "not JSON"%string).
Notation no_path := (fun _ : string => @None string).

Notation checked := (mrun no_error no_path (from_env (relay "1.0.0" old_revision) (demo_env 0 true) (demo_env 0 true) empty_world) [MBegin (demo_env 5 true); MFinish (demo_env 5 true) (demo_env 6 true)]).
Notation installing := (schedule no_error no_path checked.1 (demo_env 9 true) "1.1.0" demo_revision checked.2).

Definition accepted (x : Scheduling) : bool := match x.2 with Ok (name, _) => bool_decide (name = "update-job-9.json"%string) | Err _ => false end.
Lemma accepted_spec x : accepted x = true -> exists shown, x = (x.1.1, x.1.2, Ok ("update-job-9.json"%string, shown)).
Proof. destruct x as [[m w] [[name s]|]]; cbn; [|discriminate]. intros ->%bool_decide_eq_true. by exists s. Qed.

Lemma relay_configured v r : configured (relay v r).
Proof. split; [reflexivity..|]. eexists. split; [reflexivity|]. split; reflexivity. Qed.

Lemma scheduled_update_was_offered_witness : w_launched installing.1.2 = ["update-job-9.json"%string].
Proof.
  assert (Ha : accepted installing = true) by (vm_compute; reflexivity). destruct (accepted_spec _ Ha) as [shown E].
  assert (Hw : w_launched checked.2 = []) by (vm_compute; reflexivity).
  assert (Hv : "1.1.0"%string <> ""%string) by discriminate. pose proof (surjective_pairing checked) as Ec.
  destruct (scheduled_update_was_offered no_error no_path mc_lowers mc_files (relay "1.0.0" old_revision) (demo_env 0 true) (demo_env 0 true) empty_world
              [MBegin (demo_env 5 true); MFinish (demo_env 5 true) (demo_env 6 true)] checked.1 checked.2 (demo_env 9 true) "1.1.0" demo_revision installing.1.1 installing.1.2 "update-job-9.json" shown
              (relay_configured _ _) Ec Hv E) as (_ & Hl & _).
  rewrite Hl, Hw. reflexivity.
Defined.

Lemma refused_install_leaves_nothing_witness : w_jobs (schedule no_error no_path (relay "1.0.0" old_revision) (demo_env 9 true) "1.1.0" demo_revision empty_world).1.2 = ∅.
Proof.
  assert (Ha : schedule no_error no_path (relay "1.0.0" old_revision) (demo_env 9 true) "1.1.0" demo_revision empty_world =
    (with_state (default_state (relay "1.0.0" old_revision) (demo_env 9 true)) (relay "1.0.0" old_revision), empty_world, Err (NOT_AVAILABLE, public_state (relay "1.0.0" old_revision) (default_state (relay "1.0.0" old_revision) (demo_env 9 true)))))
    by reflexivity.
  destruct (refused_install_leaves_nothing no_error no_path (relay "1.0.0" old_revision) (demo_env 9 true) "1.1.0" demo_revision empty_world _ _ _ Ha eq_refl eq_refl) as [_ H]. rewrite Ha. exact H.
Defined.

Definition pending : UpdateState := mkState "installing" "1.0.0" old_revision "" "" "" "" "1.1.0" demo_revision "linux/amd64" 0 "2026-01-01T00:00:00Z" "" "plugin" true false "" "".
Lemma running_update_is_left_alone_witness :
  check_begin (relay "1.0.0" old_revision) (demo_env 0 false) (write_state None pending empty_world) =
    (with_state (stamped (relay "1.0.0" old_revision) pending) (relay "1.0.0" old_revision), write_state None pending empty_world, Some (public_state (relay "1.0.0" old_revision) pending)).
Proof.
  refine (proj1 (running_update_is_left_alone no_error no_path (relay "1.0.0" old_revision) (demo_env 0 false) (write_state None pending empty_world) pending "" "" _ _ _ _)).
  - apply (read_written mc_files). cbn. unfold i64_max. lia.
  - reflexivity.
  - reflexivity.
  - by left.
Defined.

Definition begun : UpdateState := mkState "scheduled" "1.0.0" old_revision "" "" "" "" "1.1.0" demo_revision "linux/amd64" 0 "2026-01-01T00:00:00Z" "" "plugin" true false "" "".
Notation worker_log := (run ReleaseClaims.no_links (fun _ => "unreadable"%string) (demo_answers (fun _ => None))).1.
Notation left_over := (on_disk (take 4 worker_log) begun).
Lemma killed_update_is_settled_witness :
  exists s, mg_state (from_env (relay "1.1.0" demo_revision) (demo_env 0 true) (demo_env 99 true) (write_state None left_over empty_world)).1 = stamped (relay "1.1.0" demo_revision) s /\ us_state s = "succeeded"%string.
Proof.
  assert (Hb : of_job demo_job begun) by (split; [reflexivity|reflexivity|discriminate|vm_compute; discriminate|by left]).
  destruct (killed_update_is_settled ReleaseClaims.no_links (fun _ => "unreadable"%string) mc_files (demo_answers (fun _ => None)) demo_job (take 4 worker_log) (drop 4 worker_log) begun (relay "1.1.0" demo_revision)
              (demo_env 0 true) (demo_env 99 true) (write_state None left_over empty_world)) as (s & _ & Hm & _ & _ & _ & Hs).
  - reflexivity.
  - discriminate.
  - vm_compute. discriminate.
  - symmetry. apply take_drop.
  - exact Hb.
  - apply (read_written mc_files). vm_compute. discriminate.
  - reflexivity.
  - reflexivity.
  - reflexivity.
  - reflexivity.
  - intros t Ht. assert (E : parse_rfc3339 (us_started_at left_over) = None) by (vm_compute; reflexivity). rewrite E in Ht. discriminate Ht.
  - exists s. split; [exact Hm|]. apply Hs; reflexivity.
Defined.

Lemma clock_text_roundtrip_witness : parse_rfc3339 (rfc3339 1767225600) = Some 1767225600.
Proof. apply clock_text_roundtrip. lia. Defined.

(** A tag with two leading letters passes the check of the web fallback, which
    strips them all, and is cut by one. *)
Definition doubled (endpoint : string) : result string (bool * bytes * bytes) :=
  if decide (endpoint = CANONICAL_WEB +:+ "/releases/latest") then Ok (true, as_bytes "302" ++ 10 :: as_bytes "https://github.com/x/releases/tag/vv1.1.0", [])
  else if decide (endpoint = CANONICAL_WEB +:+ "/commits/vv1.1.0.atom") then Ok (true, as_bytes ("<entry><id>Commit/" +:+ demo_revision +:+ "</id></entry>") ++ 10 :: as_bytes "200", [])
  else Ok (true, 10 :: as_bytes "429", []).
Example web_tag_keeps_a_letter :
  fetch_release no_error no_path (mkEnv 0 0 "linux/amd64" true true true None None None None None None true None doubled) = Ok (mkMetadata "v1.1.0" demo_revision) /\ semver_valid "v1.1.0" = false.
Proof. split; vm_compute; reflexivity. Qed.

End ManagerClaims.
