(* ===== verification/PaneLease.v ===== *)
(** * Pane-size leases over native controllers

    [lerdr-coord/src/actions/leases.rs]: which clients want a pane how wide, and
    the one controller per pane through which Herdr is told.  Calls that leave
    the relay are answered by a script, and another script says which controllers
    turn out to be dead, so that theorems hold for every answer and every death;
    the controllers that are open, with the size each last confirmed, are part of
    the world.  One operation runs at a time (the manager's mutex). *)

From S2P Require Import Prelude Utf8 Json Inbound UploadBinary Protocol SessionActor Activity UploadTime UpdateManager.

Module PaneLease.
Import Utf8 Json Protocol Activity.

Definition MIN_COLUMNS : Z := 40.
Definition MAX_COLUMNS : Z := 240.
Definition MIN_ROWS : Z := 10.
Definition MAX_ROWS : Z := 120.
(** In milliseconds. *)
Definition LEASE_TTL : Z := 120 * 1000.
Definition RELEASE_GRACE : Z := 10 * 1000.
Definition HISTORY_HOLD : Z := 30 * 1000.
Definition HISTORY_OWNER : string := "internal-history-recovery".

Definition ERR_INVALID_COLUMNS : string := "Columns must be between 40 and 240".
Definition ERR_INVALID_ROWS : string := "Rows must be between 10 and 120".
Definition ERR_INVALID_LEASE : string := "Pane and lease owner are required".
Definition ERR_OWNER_GONE : string := "Pane size lease owner is disconnected".
Definition ERR_PROCESS_UNAVAILABLE : string := "Pane foreground process information is unavailable".
Definition ERR_TTY_UNAVAILABLE : string := "Pane foreground process does not have a TTY".
Definition ERR_SIZE_UNAVAILABLE : string := "Pane terminal size is unavailable".
Definition ERR_RESIZE_FAILED : string := "Pane terminal size could not be changed".
Definition ERR_CLOSED : string := "Pane size leasing is shut down".

(** ** State *)

Record Lease := mkLease { lease_columns : Z; lease_rows : Z; expires_at : Z }.
(** [controller]: the handle of an open controller. *)
Record PaneState := mkPane {
  controller : option nat;
  baseline_rows : Z;
  applied_rows : Z;
  applied_columns : Z;
  resized_at : option Z;
  leases : gmap string Lease;
}.
Definition set_controller (c : option nat) (p : PaneState) : PaneState := mkPane c (baseline_rows p) (applied_rows p) (applied_columns p) (resized_at p) (leases p).
Definition set_leases (l : gmap string Lease) (p : PaneState) : PaneState := mkPane (controller p) (baseline_rows p) (applied_rows p) (applied_columns p) (resized_at p) l.
Definition set_applied (columns rows at_ : Z) (p : PaneState) : PaneState := mkPane (controller p) (baseline_rows p) rows columns (Some at_) (leases p).

(** An answer of Herdr, or of the operating system: done, failed (or timed out),
    or the owner left while it was awaited. *)
Inductive Answer := Yes | No | Gone.
#[export] Instance Answer_eq_dec : EqDecision Answer.
Proof. solve_decision. Defined.

(** An open controller: its pane, and the size it last confirmed ([None] after a
    resize that was not). *)
Record Controller := mkController { c_pane : string; c_size : option (Z * Z) }.
(** [w_dead]: the controllers whose process is gone, as found by the last look;
    [w_news]: what the looks to come will find. *)
Record World := mkWorld { w_open : gmap nat Controller; w_next : nat; w_answers : list Answer; w_clock : list Z; w_dead : gset nat; w_news : list (gset nat) }.

Definition ask (w : World) : Answer * World :=
  match w_answers w with [] => (No, w) | a :: l => (a, mkWorld (w_open w) (w_next w) l (w_clock w) (w_dead w) (w_news w)) end.
(** An await that nothing cancels. *)
Definition await (cancellable : bool) (w : World) : Answer * World :=
  let '(a, w) := ask w in (if cancellable then a else if decide (a = Yes) then Yes else No, w).
Definition clock_now (w : World) : Z * World :=
  match w_clock w with [] => (0, w) | t :: l => (t, mkWorld (w_open w) (w_next w) (w_answers w) l (w_dead w) (w_news w)) end.
Definition set_open (o : gmap nat Controller) (w : World) : World := mkWorld o (w_next w) (w_answers w) (w_clock w) (w_dead w) (w_news w).
Definition opened (c : Controller) (w : World) : World := mkWorld (<[w_next w := c]> (w_open w)) (S (w_next w)) (w_answers w) (w_clock w) (w_dead w) (w_news w).

(** [is_live]: the handle of the controller, if it is live. *)
Definition look (w : World) : World := match w_news w with [] => w | d :: l => mkWorld (w_open w) (w_next w) (w_answers w) (w_clock w) d l end.
Definition is_live (p : PaneState) (w : World) : option nat * World :=
  match controller p with
  | None => (None, w)
  | Some id => let w := look w in (if decide (id ∈ w_dead w) then None else Some id, w)
  end.

(** The handle is taken before the call is awaited: however it ends, it is gone. *)
Definition release_control (cancellable : bool) (p : PaneState) (w : World) : Answer * PaneState * World :=
  match controller p with
  | None => (Yes, p, w)
  | Some id => let '(a, w) := await cancellable (set_open (delete id (w_open w)) w) in (a, set_controller None p, w)
  end.

(** [Gone]: the future was dropped. *)
Definition not_live (cancellable : bool) (p : PaneState) (w : World) : Answer * PaneState * World :=
  let '(a, p, w) := release_control cancellable p w in (if decide (a = Gone) then Gone else No, p, w).

Definition spawn_controller (cancellable : bool) (pane_id : string) (columns rows : Z) (p : PaneState) (w : World) : Answer * PaneState * World :=
  let '(r, p, w) := release_control cancellable p w in
  if decide (r = Gone) then (Gone, p, w)
  else let '(a, w) := await cancellable w in
       if decide (a = Yes) then (Yes, set_controller (Some (w_next w)) p, opened (mkController pane_id (Some (columns, rows))) w) else (a, p, w).

Definition resize_controller (cancellable : bool) (id : nat) (columns rows : Z) (p : PaneState) (w : World) : Answer * PaneState * World :=
  let '(a, w) := await cancellable w in
  match a with
  | Yes => (Yes, p, set_open (alter (fun c => mkController (c_pane c) (Some (columns, rows))) id (w_open w)) w)
  | Gone => (Gone, p, set_open (alter (fun c => mkController (c_pane c) None) id (w_open w)) w)
  | No => not_live cancellable p (set_open (alter (fun c => mkController (c_pane c) None) id (w_open w)) w)
  end.

(** [u16::try_from]. *)
Definition is_u16 (v : Z) : bool := (0 <=? v) && (v <? 2 ^ 16).

(** The last check, and the size that was confirmed. *)
Definition confirm (cancellable : bool) (columns rows : Z) (p : PaneState) (w : World) : Answer * PaneState * World :=
  let '(live, w) := is_live p w in
  match live with
  | None => not_live cancellable p w
  | Some _ => let '(now, w) := clock_now w in (Yes, set_applied columns rows now p, w)
  end.

Definition change_size (cancellable : bool) (pane_id : string) (columns rows : Z) (p : PaneState) (w : World) : Answer * PaneState * World :=
  let '(live, w) := is_live p w in
  let '(a, p, w) := match live with None => spawn_controller cancellable pane_id columns rows p w | Some id => resize_controller cancellable id columns rows p w end in
  if decide (a = Yes) then confirm cancellable columns rows p w else (a, p, w).

Definition apply_size (cancellable : bool) (pane_id : string) (columns rows : Z) (p : PaneState) (w : World) : Answer * PaneState * World :=
  if negb (is_u16 columns && is_u16 rows) then (No, p, w)
  else
    let '(live, w) := is_live p w in
    if decide (is_Some live /\ applied_columns p = columns /\ applied_rows p = rows) then (Yes, p, w) else change_size cancellable pane_id columns rows p w.

(** ** The size of a pane *)

(** Over the values in the order of the map, which the minimum does not depend on. *)
Definition values (l : gmap string Lease) : list Lease := (map_to_list l).*2.
Definition minimum_columns (l : gmap string Lease) : Z * bool :=
  let minimum := foldl (fun m x => if decide (m = 0 \/ lease_columns x < m) then lease_columns x else m) 0 (values l) in (minimum, negb (minimum =? 0)).
Definition minimum_rows (l : gmap string Lease) : Z :=
  foldl (fun m x => if decide (lease_rows x <= 0) then m else if decide (m = 0 \/ lease_rows x < m) then lease_rows x else m) 0 (values l).
Definition remove_expired (now : Z) (l : gmap string Lease) : gmap string Lease := filter (fun x => now < expires_at x.2) l.
Definition target_rows (p : PaneState) : Z := if decide (minimum_rows (leases p) = 0) then baseline_rows p else minimum_rows (leases p).

(** The manager. *)
Record State := mkState { panes : gmap string PaneState; closed : bool }.
Definition new : State := mkState ∅ false.
Definition set_pane (pane_id : string) (p : PaneState) (s : State) : State := mkState (<[pane_id := p]> (panes s)) (closed s).

Definition reconcile (pane_id : string) (s : State) (w : World) : result string unit * State * World :=
  match panes s !! pane_id with
  | None => (Ok tt, s, w)
  | Some p =>
      let '(columns, active) := minimum_columns (leases p) in
      let '(a, p, w) := if active : bool then apply_size false pane_id columns (target_rows p) p w else release_control false p w in
      (if decide (a = Yes) then Ok tt else Err ERR_RESIZE_FAILED, if active then set_pane pane_id p s else mkState (delete pane_id (panes s)) (closed s), w)
  end.

(** ** The terminal of a pane *)

Record PaneProcessInfo := mkInfo { pi_pane_id : string; pi_foreground_process_group_id : Z; pi_foreground_processes : list Z }.
Definition foreground_pid (info : PaneProcessInfo) (pane_id : string) : result string Z :=
  if decide (pi_pane_id info = ""%string \/ pi_pane_id info <> pane_id \/ pi_foreground_process_group_id info <= 0 \/ pi_foreground_processes info = []) then Err ERR_PROCESS_UNAVAILABLE
  else match list_find (fun pid => pid = pi_foreground_process_group_id info) (pi_foreground_processes info) with
       | Some (_, pid) => Ok pid
       | None => match list_find (fun pid => 0 < pid) (pi_foreground_processes info) with Some (_, pid) => Ok pid | None => Err ERR_PROCESS_UNAVAILABLE end
       end.

(** [split_whitespace] of what a program printed. *)
Fixpoint fields_of (cs word : list Z) : list (list Z) :=
  match cs with
  | [] => if decide (word = []) then [] else [word]
  | c :: cs => if is_whitespace c then (if decide (word = []) then fields_of cs [] else word :: fields_of cs []) else fields_of cs (word ++ [c])
  end.
Definition output_fields (output : bytes) : list bytes := utf8_encode <$> fields_of (lossy_chars output) [].

(** The parts of a path, by slashes. *)
Fixpoint path_parts (b part : bytes) : list bytes :=
  match b with [] => [part] | c :: b => if decide (c = 47) then part :: path_parts b [] else path_parts b (part ++ [c]) end.
Definition DEV : bytes := as_bytes "/dev/".
Definition strip_dev (b : bytes) : bytes := if decide (take (length DEV) b = DEV) then drop (length DEV) b else b.
Definition tty_path (output : bytes) : result string bytes :=
  match output_fields output with
  | [field] =>
      if decide (field = as_bytes "?" \/ field = as_bytes "??" \/ field = as_bytes "-") then Err ERR_TTY_UNAVAILABLE
      else
        let tty := strip_dev field in
        if decide (tty = [] \/ head tty = Some 47) then Err ERR_TTY_UNAVAILABLE
        else if decide (as_bytes ".." ∈ path_parts tty []) then Err ERR_TTY_UNAVAILABLE
        else Ok (DEV ++ tty)
  | _ => Err ERR_TTY_UNAVAILABLE
  end.
Definition terminal_size (output : bytes) : result string (Z * Z) :=
  match output_fields output with
  | [rows; columns] =>
      let rows := default 0 (UpdateManager.parse_i64 rows) in
      let columns := default 0 (UpdateManager.parse_i64 columns) in
      if decide (rows < 1 \/ columns < 1) then Err ERR_SIZE_UNAVAILABLE else Ok (rows, columns)
  | _ => Err ERR_SIZE_UNAVAILABLE
  end.

(** What the three calls that look at a pane answer; [None] is a failure. *)
Record Probe := mkProbe { pr_info : option PaneProcessInfo; pr_ps : Z -> option bytes; pr_stty : bytes -> option bytes }.
Definition or_error {A} (e : string) (o : option A) : result string A := match o with Some a => Ok a | None => Err e end.
Definition resolve_pane (probe : Probe) (pane_id : string) : result string PaneState :=
  info ← or_error ERR_PROCESS_UNAVAILABLE (pr_info probe);
  pid ← foreground_pid info pane_id;
  output ← or_error ERR_TTY_UNAVAILABLE (pr_ps probe pid);
  tty ← tty_path output;
  output ← or_error ERR_SIZE_UNAVAILABLE (pr_stty probe tty);
  '(rows, columns) ← terminal_size output;
  Ok (mkPane None rows rows columns None ∅).

(** ** Operations *)

Definition owner_gone (w : World) : bool * World := let '(a, w) := ask w in (bool_decide (a = Gone), w).

(** The pane to lease: known, or resolved while the owner stays. *)
Definition lease_target (probe : Probe) (pane_id : string) (now : Z) (s : State) (w : World) : result string PaneState * World :=
  match panes s !! pane_id with
  | Some p => (Ok (set_leases (remove_expired now (leases p)) p), w)
  | None => let '(gone, w) := owner_gone w in (if gone then Err ERR_OWNER_GONE else resolve_pane probe pane_id, w)
  end.

(** [insert] or [remove] the previous lease. *)
Definition restore_lease (client_id : string) (previous : option Lease) (p : PaneState) : PaneState := set_leases (partial_alter (fun _ => previous) client_id (leases p)) p.

Definition acquire_size (client_id pane_id : string) (columns rows now : Z) (p : PaneState) (w : World) : result string (Z * Z) * PaneState * World :=
  let previous := leases p !! client_id in
  let p := set_leases (<[client_id := mkLease columns rows (now + LEASE_TTL)]> (leases p)) p in
  let target := ((minimum_columns (leases p)).1, target_rows p) in
  let '(a, p, w) := apply_size true pane_id target.1 target.2 p w in
  let '(gone, w) := owner_gone w in
  if decide (a = Yes /\ gone = false) then (Ok target, p, w)
  else
    let '(_, p, w) := release_control false (restore_lease client_id previous p) w in
    (Err (if gone || bool_decide (a = Gone) then ERR_OWNER_GONE else ERR_RESIZE_FAILED), p, w).

Definition acquire (probe : Probe) (client_id pane_id : string) (columns rows now : Z) (s : State) (w : World) : result string (Z * Z) * State * World :=
  if decide (client_id = ""%string \/ pane_id = ""%string) then (Err ERR_INVALID_LEASE, s, w)
  else if decide (~ (MIN_COLUMNS <= columns <= MAX_COLUMNS)) then (Err ERR_INVALID_COLUMNS, s, w)
  else if decide (rows <> 0 /\ ~ (MIN_ROWS <= rows <= MAX_ROWS)) then (Err ERR_INVALID_ROWS, s, w)
  else if closed s then (Err ERR_CLOSED, s, w)
  else
    let '(gone, w) := owner_gone w in
    if gone : bool then (Err ERR_OWNER_GONE, s, w)
    else
      let '(target, w) := lease_target probe pane_id now s w in
      match target with
      | Err e => (Err e, s, w)
      | Ok p =>
          let '(gone, w) := owner_gone w in
          if gone : bool then (Err ERR_OWNER_GONE, set_pane pane_id p s, w)
          else let '(r, p, w) := acquire_size client_id pane_id columns rows now p w in (r, set_pane pane_id p s, w)
      end.

Definition release (client_id pane_id : string) (now : Z) (s : State) (w : World) : result string unit * State * World :=
  if decide (client_id = ""%string \/ pane_id = ""%string) then (Err ERR_INVALID_LEASE, s, w)
  else if closed s then (Ok tt, s, w)
  else match panes s !! pane_id with
       | None => (Ok tt, s, w)
       | Some p =>
           match leases p !! client_id with
           | None => (Ok tt, s, w)
           | Some l =>
               let expires := Z.min (expires_at l) (now + RELEASE_GRACE) in
               if decide (now < expires) then (Ok tt, set_pane pane_id (set_leases (<[client_id := mkLease (lease_columns l) (lease_rows l) expires]> (leases p)) p) s, w)
               else reconcile pane_id (set_pane pane_id (set_leases (delete client_id (leases p)) p) s) w
           end
       end.

(** Errors of several panes, one after the other. *)
Definition pane_error (pane_id : string) (r : result string unit) : list string := match r with Ok _ => [] | Err e => ["pane " +:+ pane_id +:+ ": " +:+ e]%string end.
Definition joined (errors : list string) : result string unit := if decide (errors = []) then Ok tt else Err (String.concat "; " errors).

(** A pass over the panes: [f] prepares a pane and says whether it is reconciled. *)
Definition visit (f : PaneState -> World -> PaneState * bool * World) (x : list string * State * World) (pane_id : string) : list string * State * World :=
  let '(errors, s, w) := x in
  match panes s !! pane_id with
  | None => x
  | Some p =>
      let '(p, due, w) := f p w in
      let s := set_pane pane_id p s in
      if due : bool then let '(r, s, w) := reconcile pane_id s w in (errors ++ pane_error pane_id r, s, w) else (errors, s, w)
  end.

Section Order.
(** The order in which a hash map gives its keys. *)
Context (order : gmap string PaneState -> list string).

Definition pass (f : PaneState -> World -> PaneState * bool * World) (s : State) (w : World) : result string unit * State * World :=
  let '(errors, s, w) := foldl (visit f) ([], s, w) (order (panes s)) in (joined errors, s, w).

Definition release_client_pane (client_id : string) (p : PaneState) (w : World) : PaneState * bool * World :=
  let p' := set_leases (delete client_id (leases p)) p in
  (p', bool_decide (is_Some (leases p !! client_id)) || negb (minimum_columns (leases p')).2, w).
Definition release_client (client_id : string) (s : State) (w : World) : result string unit * State * World :=
  if decide (client_id = ""%string) then (Err ERR_INVALID_LEASE, s, w) else if closed s then (Ok tt, s, w) else pass (release_client_pane client_id) s w.

Definition sweep_pane (now : Z) (p : PaneState) (w : World) : PaneState * bool * World :=
  let p' := set_leases (remove_expired now (leases p)) p in
  let removed := negb (bool_decide (size (leases p') = size (leases p))) in
  let '(target, active) := minimum_columns (leases p') in
  if removed || negb active then (p', true, w)
  else let '(live, w) := is_live p' w in (p', negb (bool_decide (is_Some live /\ applied_columns p' = target /\ applied_rows p' = target_rows p')), w).
Definition sweep_expired (now : Z) (s : State) (w : World) : result string unit * State * World := if closed s then (Ok tt, s, w) else pass (sweep_pane now) s w.

Definition shutdown (s : State) (w : World) : result string unit * State * World := pass (fun p w => (set_leases ∅ p, true, w)) (mkState (panes s) true) w.
End Order.

(** *** Harvesting history through the controller *)

Definition hold_history (pane_id : string) (now : Z) (s : State) (w : World) : bool * State * World :=
  match panes s !! pane_id with
  | None => (false, s, w)
  | Some p =>
      let '(live, w) := is_live p w in
      match live with
      | None => (false, s, w)
      | Some _ => (true, set_pane pane_id (set_leases (<[HISTORY_OWNER := mkLease (applied_columns p) (applied_rows p) (now + HISTORY_HOLD)]> (leases p)) p) s, w)
      end
  end.
Definition history_scroll (pane_id : string) (s : State) (w : World) : bool * World :=
  match panes s !! pane_id ≫= controller with None => (false, w) | Some _ => let '(a, w) := await false w in (bool_decide (a = Yes), w) end.
Definition release_history (pane_id : string) (s : State) (w : World) : State * World :=
  let s := match panes s !! pane_id with Some p => set_pane pane_id (set_leases (delete HISTORY_OWNER (leases p)) p) s | None => s end in
  let '(_, s, w) := reconcile pane_id s w in (s, w).

(** *** What is asked *)

Definition live_pane (pane_id : string) (s : State) (w : World) : option PaneState * World :=
  if closed s then (None, w)
  else match panes s !! pane_id with None => (None, w) | Some p => let '(live, w) := is_live p w in (if decide (is_Some live) then Some p else None, w) end.
Definition u16_of (v : Z) : option Z := if is_u16 v then Some v else None.
Definition capture_size (pane_id : string) (s : State) (w : World) : option (Z * Z) * World :=
  let '(p, w) := live_pane pane_id s w in (p ← p; columns ← u16_of (applied_columns p); rows ← u16_of (applied_rows p); Some (columns, rows), w).
Definition active_columns (pane_id : string) (now : Z) (s : State) (w : World) : option Z * World :=
  let '(p, w) := live_pane pane_id s w in
  (p ← p;
   let minimum := foldl (fun m x => if decide (expires_at x <= now) then m else if decide (m = 0 \/ lease_columns x < m) then lease_columns x else m) 0 (values (leases p)) in
   if decide (minimum = 0) then None else Some minimum, w).
Definition active_rows (pane_id : string) (now : Z) (s : State) (w : World) : option Z * World :=
  let '(p, w) := live_pane pane_id s w in
  (p ← p;
   let '(active, minimum) := foldl (fun '(active, m) x =>
     if decide (expires_at x <= now) then (active, m) else (true, if decide (0 < lease_rows x /\ (m = 0 \/ lease_rows x < m)) then lease_rows x else m)) (false, 0) (values (leases p)) in
   if active then Some (if decide (minimum = 0) then baseline_rows p else minimum) else None, w).
Definition resized_within (pane_id : string) (window now : Z) (s : State) : bool :=
  negb (closed s) && match panes s !! pane_id ≫= resized_at with Some t => bool_decide (Z.max 0 (now - t) < window) | None => false end.

(** ** Replies *)

Section Replies.
Context `{ST : SessionActor.SerdeText}.

Definition lease_result (request_id pane_id : string) (ok : bool) (error : string) (data : option string) : Outbound :=
  OCommandResult (mkCommandResult (Some "lease_pane_size"%string) (UploadBinary.Value <$> data) (Some error) (Some ok) (Some pane_id)
    (Some (if ok then "completed" else "failed")%string) (non_empty request_id) "command_result").
Definition size_json (size : Z * Z) : string := SessionActor.serde_text (JObject [("columns", JNumber (PosInt size.1)); ("rows", JNumber (PosInt size.2))]%string).
Definition lease_reply (request_id : string) (m : Inbound.Inbound) (r : result string (Z * Z)) : Outbound :=
  match r with
  | Err e => lease_result request_id (Inbound.in_pane_id m) false e None
  | Ok size => lease_result request_id (Inbound.in_pane_id m) true "" (Some (size_json size))
  end.
Definition release_reply (request_id : string) (m : Inbound.Inbound) (r : result string unit) : Outbound :=
  match r with
  | Err e => lease_result request_id (Inbound.in_pane_id m) false e None
  | Ok _ => lease_result request_id (Inbound.in_pane_id m) true "" None
  end.
Definition lease_pane_size (probe : Probe) (client_id request_id : string) (m : Inbound.Inbound) (now : Z) (s : State) (w : World) : Outbound * State * World :=
  let '(r, s, w) := acquire probe client_id (Inbound.in_pane_id m) (Inbound.in_columns m) (Inbound.in_rows m) now s w in (lease_reply request_id m r, s, w).
Definition release_pane_size (client_id request_id : string) (m : Inbound.Inbound) (now : Z) (s : State) (w : World) : Outbound * State * World :=
  let '(r, s, w) := release client_id (Inbound.in_pane_id m) now s w in (release_reply request_id m r, s, w).
End Replies.

(** ** Runs *)

Inductive Op :=
| OpAcquire (probe : Probe) (client_id pane_id : string) (columns rows now : Z)
| OpRelease (client_id pane_id : string) (now : Z)
| OpReleaseClient (client_id : string)
| OpSweep (now : Z)
| OpShutdown
| OpHoldHistory (pane_id : string) (now : Z)
| OpScroll (pane_id : string)
| OpReleaseHistory (pane_id : string).
Definition step (order : gmap string PaneState -> list string) (x : State * World) (o : Op) : State * World :=
  let '(s, w) := x in
  match o with
  | OpAcquire probe c p columns rows now => let '(_, s, w) := acquire probe c p columns rows now s w in (s, w)
  | OpRelease c p now => let '(_, s, w) := release c p now s w in (s, w)
  | OpReleaseClient c => let '(_, s, w) := release_client order c s w in (s, w)
  | OpSweep now => let '(_, s, w) := sweep_expired order now s w in (s, w)
  | OpShutdown => let '(_, s, w) := shutdown order s w in (s, w)
  | OpHoldHistory p now => let '(_, s, w) := hold_history p now s w in (s, w)
  | OpScroll p => let '(_, w) := history_scroll p s w in (s, w)
  | OpReleaseHistory p => release_history p s w
  end.

End PaneLease.

Module PaneLeaseClaims.
Import PaneLease.

(** ** Minima *)

Section Minimum.
Context {A : Type} (f : A -> Z).
Notation smaller := (fun m x => if decide (m = 0 \/ f x < m) then f x else m).

Lemma foldl_minimum xs acc : 0 <= acc -> Forall (fun x => 0 < f x) xs ->
  let m := foldl smaller acc xs in
  (m = 0 <-> acc = 0 /\ xs = []) /\ 0 <= m /\ (m = acc \/ exists x, x ∈ xs /\ f x = m) /\ (acc = 0 \/ m <= acc) /\ forall x, x ∈ xs -> m <= f x.
Proof.
  revert acc. induction xs as [|x xs IH]; intros acc Ha Hxs; cbn [foldl].
  - split_and!; [naive_solver|done|by left|lia|by intros x ?%not_elem_of_nil].
  - apply Forall_cons in Hxs as [Hx Hxs]. set (acc' := if decide (acc = 0 \/ f x < acc) then f x else acc).
    assert (Hacc : 0 < acc' /\ acc' <= f x /\ (acc = 0 \/ acc' <= acc) /\ (acc' = acc \/ acc' = f x)) by (unfold acc'; case_decide; lia).
    destruct (IH acc' ltac:(lia) Hxs) as (H1 & H2 & H3 & H4 & H5). split_and!.
    + rewrite H1. split; [lia|]. intros [_ ?]. discriminate.
    + done.
    + destruct H3 as [->|(y & Hy & Ey)]; [|right; exists y; split; [by right|done]]. destruct Hacc as (_ & _ & _ & [->| ->]); [by left|]. right. exists x. split; [by left|done].
    + lia.
    + intros y [->|Hy]%elem_of_cons; [lia|by apply H5].
Qed.
Lemma pane_foldl_skip (P : A -> Prop) `{forall x, Decision (P x)} xs acc : foldl (fun m x => if decide (P x) then m else smaller m x) acc xs = foldl smaller acc (filter (fun x => ~ P x) xs).
Proof. revert acc. induction xs as [|x xs IH]; intros acc; [done|]. cbn [foldl]. rewrite filter_cons. rewrite IH. by destruct (decide (P x)), (decide (~ P x)). Qed.
End Minimum.

Lemma elem_values l x : x ∈ values l <-> exists o, l !! o = Some x.
Proof. unfold values. rewrite list_elem_of_fmap. split; [intros ([o y] & -> & H%elem_of_map_to_list); eauto|]. intros [o H]. exists (o, x). split; [done|]. by apply elem_of_map_to_list. Qed.

(** Leases a client may have. *)
Definition lease_ok (x : Lease) : Prop := MIN_COLUMNS <= lease_columns x <= MAX_COLUMNS /\ 0 <= lease_rows x < 2 ^ 16.
Definition leases_ok (l : gmap string Lease) : Prop := forall o x, l !! o = Some x -> lease_ok x.

Lemma pane_minimum_columns_spec l : leases_ok l ->
  ((minimum_columns l).2 = true <-> l <> ∅) /\ (l <> ∅ -> exists o x, l !! o = Some x /\ lease_columns x = (minimum_columns l).1) /\ (forall o x, l !! o = Some x -> (minimum_columns l).1 <= lease_columns x).
Proof.
  intros Hok. assert (Hpos : Forall (fun x => 0 < lease_columns x) (values l)).
  { apply Forall_forall. intros x [o Hx]%elem_values. apply Hok in Hx as [Hx _]. unfold MIN_COLUMNS in Hx. lia. }
  destruct (foldl_minimum lease_columns (values l) 0 ltac:(lia) Hpos) as (H1 & H2 & H3 & _ & H5).
  assert (Hne : l <> ∅ <-> values l <> []).
  { unfold values. rewrite <- map_to_list_empty_iff. by destruct (map_to_list l). }
  unfold minimum_columns. cbn [fst snd]. set (m := foldl _ 0 (values l)) in *. split_and!.
  - rewrite negb_true_iff, Z.eqb_neq, Hne, H1. naive_solver.
  - rewrite Hne. intros Hl. destruct H3 as [H3|(x & Hx & Ex)]; [exfalso; naive_solver|]. apply elem_values in Hx as [o Ho]. eauto.
  - intros o x Hx. apply H5, elem_values. eauto.
Qed.

Lemma pane_minimum_rows_spec l : leases_ok l ->
  0 <= minimum_rows l /\ (minimum_rows l = 0 \/ exists o x, l !! o = Some x /\ lease_rows x = minimum_rows l) /\ (forall o x, l !! o = Some x -> 0 < lease_rows x -> 0 < minimum_rows l <= lease_rows x).
Proof.
  intros Hok. unfold minimum_rows. rewrite (pane_foldl_skip lease_rows (fun x => lease_rows x <= 0)). set (xs := filter _ (values l)).
  assert (Hpos : Forall (fun x => 0 < lease_rows x) xs) by (apply Forall_forall; intros x [H _]%list_elem_of_filter; lia).
  destruct (foldl_minimum lease_rows xs 0 ltac:(lia) Hpos) as (H1 & H2 & H3 & _ & H5). set (m := foldl _ 0 xs) in *. split_and!; [done|..].
  - destruct H3 as [H3|(x & Hx & Ex)]; [by left|]. right. apply list_elem_of_filter in Hx as [_ [o Hx]%elem_values]. eauto.
  - intros o x Hx Hr. assert (Hin : x ∈ xs) by (apply list_elem_of_filter; split; [lia|]; apply elem_values; eauto). specialize (H5 _ Hin). split; [|done].
    assert (m <> 0); [|lia]. rewrite H1. intros [_ E]. rewrite E in Hin. by apply not_elem_of_nil in Hin.
Qed.

(** ** Who holds which controller *)

Definition applied (p : PaneState) : Z * Z := (applied_columns p, applied_rows p).
Definition exactly (pane_id : string) (p : PaneState) : Controller := mkController pane_id (Some (applied p)).

(** The controllers of all panes but [pane_id] are those of [rest], at the sizes
    applied there; that of [pane_id] is the one of [p], at the size [k] if that is
    known; nothing else is open. *)
Record holds (k : option (Z * Z)) (pane_id : string) (p : PaneState) (rest : gmap string PaneState) (w : World) : Prop := {
  hd_rest : forall q qs id, rest !! q = Some qs -> controller qs = Some id -> w_open w !! id = Some (exactly q qs);
  hd_own : forall id, controller p = Some id -> exists sz, w_open w !! id = Some (mkController pane_id sz) /\ (is_Some k -> sz = k);
  hd_open : forall id c, w_open w !! id = Some c -> (c_pane c = pane_id /\ controller p = Some id) \/ (exists qs, rest !! c_pane c = Some qs /\ controller qs = Some id);
  hd_fresh : forall id, (w_next w <= id)%nat -> w_open w !! id = None;
}.
Definition owned (m : gmap string PaneState) (w : World) : Prop :=
  (forall q qs id, m !! q = Some qs -> controller qs = Some id -> w_open w !! id = Some (exactly q qs)) /\
  (forall id c, w_open w !! id = Some c -> exists qs, m !! c_pane c = Some qs /\ controller qs = Some id) /\
  (forall id, (w_next w <= id)%nat -> w_open w !! id = None).

(** What reading answers and the clock keeps. *)
Definition quiet (w w' : World) : Prop := w_open w' = w_open w /\ w_next w' = w_next w.
Lemma quiet_refl w : quiet w w.
Proof. done. Qed.
Lemma quiet_trans w1 w2 w3 : quiet w1 w2 -> quiet w2 w3 -> quiet w1 w3.
Proof. intros [H1 H2] [H3 H4]. split; congruence. Qed.
Lemma ask_quiet w : quiet w (ask w).2.
Proof. unfold ask. by destruct (w_answers w). Qed.
Lemma await_quiet b w : quiet w (await b w).2.
Proof. unfold await. pose proof (ask_quiet w) as H. by destruct (ask w). Qed.
Lemma await_firm w : (await false w).1 <> Gone.
Proof. unfold await. destruct (ask w) as [[] w']; cbn; by case_decide. Qed.
Lemma clock_quiet w : quiet w (clock_now w).2.
Proof. unfold clock_now. by destruct (w_clock w). Qed.
Lemma owner_gone_quiet w : quiet w (owner_gone w).2.
Proof. unfold owner_gone. pose proof (ask_quiet w) as H. by destruct (ask w). Qed.
Lemma look_quiet w : quiet w (look w).
Proof. unfold look. by destruct (w_news w). Qed.
Lemma is_live_spec p w : quiet w (is_live p w).2 /\ forall id, (is_live p w).1 = Some id -> controller p = Some id.
Proof.
  unfold is_live. destruct (controller p) as [id|]; [|done]. cbn [fst snd]. split; [apply look_quiet|]. intros id'. by case_decide; intros [=->].
Qed.

Lemma holds_quiet k i p m w w' : quiet w w' -> holds k i p m w -> holds k i p m w'.
Proof. intros [E1 E2] [H1 H2 H3 H4]. split; rewrite ?E1, ?E2; done. Qed.
Lemma owned_quiet m w w' : quiet w w' -> owned m w -> owned m w'.
Proof. intros [E1 E2]. unfold owned. by rewrite E1, E2. Qed.
Lemma holds_forget k i p m w : holds k i p m w -> holds None i p m w.
Proof. intros [H1 H2 H3 H4]. split; [done| |done..]. intros id Hid. destruct (H2 id Hid) as (sz & Hsz & _). exists sz. split; [done|]. by intros [? ?]. Qed.
(** A pane without a controller has any size. *)
Lemma holds_none k k' i p p' m w : controller p = None -> controller p' = None -> holds k i p m w -> holds k' i p' m w.
Proof. intros E E' [H1 H2 H3 H4]. split; [done| |..|done]; rewrite ?E'; [done|]. intros id c Hc. destruct (H3 id c Hc) as [[_ ?]|?]; [congruence|by right]. Qed.
(** Only the controller counts. *)
Lemma holds_same k i p p' m w : controller p' = controller p -> holds k i p m w -> holds k i p' m w.
Proof. intros E [H1 H2 H3 H4]. split; rewrite ?E; done. Qed.

Lemma owned_take m i p w : m !! i = Some p -> owned m w -> holds (Some (applied p)) i p (delete i m) w.
Proof.
  intros Hi (H1 & H2 & H3). split; [| | |done].
  - intros q qs id [_ Hq]%lookup_delete_Some. by apply H1.
  - intros id Hid. exists (Some (applied p)). split; [|done]. by apply H1.
  - intros id c Hc. destruct (H2 id c Hc) as (qs & Hq & Hid). destruct (decide (i = c_pane c)) as [->|Hne]; [left; split; [done|congruence]|]. right. exists qs. by rewrite lookup_delete_ne.
Qed.
Lemma owned_new m i p w : m !! i = None -> controller p = None -> owned m w -> holds (Some (applied p)) i p (delete i m) w.
Proof.
  intros Hi Hp (H1 & H2 & H3). rewrite delete_id by done. split; [done| |..|done].
  - intros id Hid. congruence.
  - intros id c Hc. right. eauto.
Qed.
Lemma holds_put m i p w : holds (Some (applied p)) i p (delete i m) w -> owned (<[i := p]> m) w.
Proof.
  intros [H1 H2 H3 H4]. split_and!; [..|done].
  - intros q qs id. destruct (decide (i = q)) as [<-|Hq].
    + rewrite lookup_insert_eq. intros [= <-] Hid. destruct (H2 id Hid) as (sz & Hsz & Ek). by rewrite Ek in Hsz.
    + rewrite lookup_insert_ne by done. intros Hqs. apply H1. by rewrite lookup_delete_ne.
  - intros id c Hc. destruct (H3 id c Hc) as [[-> Hid]|(qs & Hq & Hid)]; [exists p; by rewrite lookup_insert_eq|]. apply lookup_delete_Some in Hq as [Hne Hq]. exists qs. by rewrite lookup_insert_ne.
Qed.
Lemma holds_drop k m i p w : controller p = None -> holds k i p (delete i m) w -> owned (delete i m) w.
Proof. intros Hp [H1 H2 H3 H4]. split_and!; [done|..|done]. intros id c Hc. destruct (H3 id c Hc) as [[_ ?]|?]; [congruence|done]. Qed.

(** ** Sizing a controller *)

(** What sizing leaves alone. *)
Definition keeps (p p' : PaneState) : Prop := leases p' = leases p /\ baseline_rows p' = baseline_rows p.

Lemma release_control_spec b k i p m w : holds k i p m w -> m !! i = None ->
  let '(a, p', w') := release_control b p w in
  holds k i p' m w' /\ controller p' = None /\ keeps p p' /\ applied p' = applied p /\ (b = false -> a <> Gone).
Proof.
  intros Hh Hi. unfold release_control. destruct (controller p) as [id|] eqn:Ep; [|split_and!; try done]. set (w1 := set_open _ w).
  assert (H1 : holds k i (set_controller None p) m w1).
  { destruct Hh as [H1 H2 H3 H4]. destruct (H2 id Ep) as (sz & Hsz & _). split; cbn.
    - intros q qs id' Hq Hid. pose proof (H1 q qs id' Hq Hid) as Ho. rewrite lookup_delete_ne; [done|]. intros ->. rewrite Ho in Hsz. injection Hsz as -> _. congruence.
    - done.
    - intros id' c [Hne Hc]%lookup_delete_Some. destruct (H3 id' c Hc) as [[_ ?]|?]; [congruence|by right].
    - intros id' Hid'. rewrite lookup_delete_None. by right; apply H4. }
  pose proof (await_quiet b w1) as Hq. pose proof (await_firm w1) as Hf. destruct (await b w1) as [a w2] eqn:Ea. cbn [fst snd] in *. split_and!; [by eapply holds_quiet|done..|]. intros ->. by rewrite Ea in Hf.
Qed.

Lemma not_live_spec b k i p m w : holds k i p m w -> m !! i = None ->
  let '(a, p', w') := not_live b p w in
  holds k i p' m w' /\ controller p' = None /\ keeps p p' /\ applied p' = applied p /\ a <> Yes /\ (b = false -> a <> Gone).
Proof.
  intros Hh Hi. unfold not_live. pose proof (release_control_spec b k i p m w Hh Hi) as H. destruct (release_control b p w) as [[a p'] w']. destruct H as (H1 & H2 & H3 & H4 & H5).
  split_and!; [done|done|done|done|by case_decide|]. intros Hb. case_decide as E; [intros _; by apply (H5 Hb)|done].
Qed.

Lemma spawn_spec b k i columns rows p m w : holds k i p m w -> m !! i = None ->
  let '(a, p', w') := spawn_controller b i columns rows p w in
  holds (Some (columns, rows)) i p' m w' /\ keeps p p' /\ applied p' = applied p /\ (a = Yes -> is_Some (controller p')) /\ (a <> Yes -> controller p' = None) /\ (b = false -> a <> Gone).
Proof.
  intros Hh Hi. unfold spawn_controller. pose proof (release_control_spec b k i p m w Hh Hi) as H. destruct (release_control b p w) as [[r p1] w1]. destruct H as (H1 & H2 & H3 & H4 & H5).
  assert (Hany : forall w', quiet w1 w' -> holds (Some (columns, rows)) i p1 m w') by (intros w' Hq; eapply holds_quiet; [exact Hq|]; by eapply holds_none).
  case_decide as Hr; [split_and!; try done; [by apply Hany|intros ->; exfalso; by apply H5]|]. pose proof (await_quiet b w1) as Hq. pose proof (await_firm w1) as Hf.
  destruct (await b w1) as [a w2] eqn:Ea. cbn [fst snd] in *. specialize (Hany w2 Hq). case_decide as Ha.
  - split_and!; [|done..]. destruct Hany as [A1 A2 A3 A4]. split; cbn.
    + intros q qs id Hqs Hid. pose proof (A1 q qs id Hqs Hid) as Ho. rewrite lookup_insert_ne; [done|]. intros <-. by rewrite A4 in Ho.
    + intros id [= <-]. exists (Some (columns, rows)). by rewrite lookup_insert_eq.
    + intros id c [[<- <-]|[Hne Hc]]%lookup_insert_Some; [by left|]. destruct (A3 id c Hc) as [[_ ?]|?]; [congruence|by right].
    + intros id Hid. rewrite lookup_insert_ne by lia. apply A4. lia.
  - split_and!; try done. intros ->. by rewrite Ea in Hf.
Qed.

Lemma sized_holds k k' i id p m w : controller p = Some id -> holds k i p m w -> m !! i = None ->
  holds k' i p m (set_open (alter (fun c => mkController (c_pane c) k') id (w_open w)) w).
Proof.
  intros Hid [H1 H2 H3 H4] Hi. destruct (H2 id Hid) as (sz & Hsz & _). split; cbn.
  - intros q qs id' Hq Hid'. pose proof (H1 q qs id' Hq Hid') as Ho. rewrite lookup_alter_ne; [done|]. intros ->. rewrite Ho in Hsz. injection Hsz as -> _. congruence.
  - intros id' Hid'. rewrite Hid in Hid'. injection Hid' as <-. exists k'. rewrite lookup_alter_eq, Hsz. done.
  - intros id' c Hc. apply lookup_alter_Some in Hc as [(<- & c0 & Hc & ->)|[_ Hc]]; [|by apply H3]. cbn. by apply H3.
  - intros id' Hid'. destruct (decide (id = id')) as [->|Hne]; [rewrite lookup_alter_eq; by rewrite H4|]. rewrite lookup_alter_ne by done. by apply H4.
Qed.

Lemma resize_spec b k i id columns rows p m w : controller p = Some id -> holds k i p m w -> m !! i = None ->
  let '(a, p', w') := resize_controller b id columns rows p w in
  keeps p p' /\ applied p' = applied p /\ (a = Yes -> holds (Some (columns, rows)) i p' m w' /\ is_Some (controller p')) /\ (a = No -> controller p' = None) /\ holds None i p' m w' /\ (b = false -> a <> Gone).
Proof.
  intros Hid Hh Hi. unfold resize_controller. pose proof (await_quiet b w) as Hq. pose proof (await_firm w) as Hf. destruct (await b w) as [a w1] eqn:Ea. cbn [fst snd] in *.
  pose proof (holds_quiet _ _ _ _ _ _ Hq Hh) as H1. destruct a.
  - pose proof (sized_holds k (Some (columns, rows)) i id p m w1 Hid H1 Hi) as H2. split; [done|]. split; [done|]. split; [intros _; split; [done|by rewrite Hid]|]. split; [done|]. split; [by eapply holds_forget|done].
  - pose proof (sized_holds k None i id p m w1 Hid H1 Hi) as H2. pose proof (not_live_spec b None i p m _ H2 Hi) as H3.
    destruct (not_live b p _) as [[a' p'] w']. destruct H3 as (A & B & C & D & E & F). split_and!; try done.
  - pose proof (sized_holds k None i id p m w1 Hid H1 Hi) as H2. split_and!; try done. intros ->. by rewrite Ea in Hf.
Qed.

(** After [apply_size]: done at the size asked for, or without a controller (or
    untouched), or cut short with a controller of unknown size. *)
Definition sized (b : bool) (i : string) (columns rows : Z) (p : PaneState) (m : gmap string PaneState) (x : Answer * PaneState * World) : Prop :=
  let '(a, p', w') := x in
  keeps p p' /\ holds None i p' m w' /\ (b = false -> a <> Gone) /\ (a <> Gone -> holds (Some (applied p')) i p' m w') /\
  (a = Yes -> is_Some (controller p') /\ applied p' = (columns, rows) /\ rows < 2 ^ 16) /\ (a <> Yes -> applied p' = applied p) /\ (a = No -> controller p' = None \/ controller p' = controller p).

Lemma confirm_spec b i columns rows p0 p m w : keeps p0 p -> applied p = applied p0 -> holds (Some (columns, rows)) i p m w -> is_Some (controller p) -> m !! i = None -> rows < 2 ^ 16 ->
  sized b i columns rows p0 m (confirm b columns rows p w).
Proof.
  intros [K1 K2] Ha Hh Hc Hi H16. unfold confirm. destruct (is_live_spec p w) as [Hq Hl]. destruct (is_live p w) as [live w1]. cbn [fst snd] in *. pose proof (holds_quiet _ _ _ _ _ _ Hq Hh) as H1.
  destruct live as [id|].
  - pose proof (clock_quiet w1) as Hq2. destruct (clock_now w1) as [now w2]. cbn [fst snd] in *. pose proof (holds_quiet _ _ _ _ _ _ Hq2 H1) as H2.
    assert (H3 : holds (Some (columns, rows)) i (set_applied columns rows now p) m w2) by (by eapply holds_same; [|exact H2]).
    unfold sized. split_and!; try done. by eapply holds_forget.
  - pose proof (not_live_spec b _ i p m w1 H1 Hi) as H2. destruct (not_live b p w1) as [[a p'] w']. destruct H2 as (A & B & [C1 C2] & D & E & F). split; [by split; congruence|]. split; [by eapply holds_forget|]. split; [done|].
    split; [intros _; by eapply holds_none|]. split; [done|]. split; [intros _; congruence|by left].
Qed.

Lemma apply_size_spec b i columns rows p m w : holds (Some (applied p)) i p m w -> m !! i = None -> sized b i columns rows p m (apply_size b i columns rows p w).
Proof.
  intros Hh Hi. unfold apply_size. destruct (negb _) eqn:E16.
  { unfold sized. split; [done|]. split; [by eapply holds_forget|]. do 3 (split; [done|]). split; [done|by right]. }
  assert (H16 : rows < 2 ^ 16).
  { apply negb_false_iff, andb_true_iff in E16 as [_ E16]. apply andb_true_iff in E16 as [_ E16]. by apply Z.ltb_lt in E16. }
  destruct (is_live_spec p w) as [Hq Hl]. destruct (is_live p w) as [live w1]. cbn [fst snd] in *.
  pose proof (holds_quiet _ _ _ _ _ _ Hq Hh) as H1. case_decide as Hd.
  { destruct Hd as ([id ->] & <- & <-). unfold sized. split; [done|]. split; [by eapply holds_forget|]. do 2 (split; [done|]). split; [|done]. intros _. split; [|done]. by rewrite (Hl id eq_refl). }
  unfold change_size. destruct (is_live_spec p w1) as [Hq2 Hl2]. destruct (is_live p w1) as [live2 w2]. cbn [fst snd] in *. pose proof (holds_quiet _ _ _ _ _ _ Hq2 H1) as H2. destruct live2 as [id|].
  - pose proof (resize_spec b _ i id columns rows p m w2 (Hl2 id eq_refl) H2 Hi) as H3. destruct (resize_controller b id columns rows p w2) as [[a p'] w']. destruct H3 as (K & A & B & C & D & E).
    case_decide as Ha; [destruct (B Ha); by apply confirm_spec|]. unfold sized. do 3 (split; [done|]). split.
    + intros Hg. destruct a; [done|..|done]. by eapply holds_none; [apply C|apply C|exact D].
    + split; [done|]. split; [done|]. intros Hn. left. by apply C.
  - pose proof (spawn_spec b _ i columns rows p m w2 H2 Hi) as H3. destruct (spawn_controller b i columns rows p w2) as [[a p'] w']. destruct H3 as (A & K & B & C & D & E).
    case_decide as Ha; [apply confirm_spec; auto|]. unfold sized. split; [done|]. split; [by eapply holds_forget|]. split; [done|].
    split; [intros _; by eapply holds_none; [apply D|apply D|exact A]|]. split; [done|]. split; [done|]. intros _. left. by apply D.
Qed.

(** ** Panes *)

Record pane_ok (p : PaneState) : Prop := {
  po_leases : leases_ok (leases p);
  po_baseline : 0 < baseline_rows p;
  po_rows : 0 < applied_rows p;
  po_columns : is_Some (controller p) -> MIN_COLUMNS <= applied_columns p <= MAX_COLUMNS /\ applied_rows p < 2 ^ 16;
}.
Definition good (s : State) (w : World) : Prop := owned (panes s) w /\ map_Forall (fun _ => pane_ok) (panes s).
(** The size the leases of a pane ask for. *)
Definition wanted (p : PaneState) : Z * Z := ((minimum_columns (leases p)).1, target_rows p).
Definition settled (p : PaneState) : Prop := is_Some (controller p) /\ applied p = wanted p.

Lemma good_quiet s w w' : quiet w w' -> good s w -> good s w'.
Proof. intros Hq [H1 H2]. split; [by eapply owned_quiet|done]. Qed.
Lemma good_put s i p w : holds (Some (applied p)) i p (delete i (panes s)) w -> pane_ok p -> map_Forall (fun _ => pane_ok) (panes s) -> good (set_pane i p s) w.
Proof. intros H1 H2 H3. split; [by apply holds_put|]. by apply map_Forall_insert_2. Qed.
(** Changing the leases of a pane. *)
Lemma good_leases s i p l w : panes s !! i = Some p -> leases_ok l -> good s w -> good (set_pane i (set_leases l p) s) w.
Proof.
  intros Hi Hl [Ho Hk]. pose proof (Hk i p Hi) as [K1 K2 K3 K4]. apply good_put; [|by split|done]. apply (holds_same _ _ p); [done|]. by apply (owned_take (panes s) i p w).
Qed.

Lemma pane_leases_ok_delete l o : leases_ok l -> leases_ok (delete o l).
Proof. intros H o' x [_ Hx]%lookup_delete_Some. by eapply H. Qed.
Lemma pane_leases_ok_insert l o x : lease_ok x -> leases_ok l -> leases_ok (<[o := x]> l).
Proof. intros Hx H o' y [[<- <-]|[_ Hy]]%lookup_insert_Some; [done|]. by eapply H. Qed.
Lemma leases_ok_expired l now : leases_ok l -> leases_ok (remove_expired now l).
Proof. intros H o x [Hx _]%map_lookup_filter_Some. by eapply H. Qed.

Lemma wanted_ok p : leases_ok (leases p) -> 0 < baseline_rows p -> leases p <> ∅ -> MIN_COLUMNS <= (wanted p).1 <= MAX_COLUMNS /\ 0 < (wanted p).2.
Proof.
  intros Hl Hb Hne. destruct (pane_minimum_columns_spec _ Hl) as (_ & H2 & _). destruct (H2 Hne) as (o & x & Hx & E). destruct (pane_minimum_rows_spec _ Hl) as (R1 & _). unfold wanted, target_rows. cbn [fst snd]. rewrite <- E. split; [by eapply Hl|].
  case_decide; lia.
Qed.
Lemma sized_ok b i p m x : pane_ok p -> leases p <> ∅ -> sized b i (wanted p).1 (wanted p).2 p m x -> x.1.1 <> Gone -> pane_ok x.1.2.
Proof.
  destruct x as [[a p'] w']. cbn [fst snd]. intros [K1 K2 K3 K4] Hne ([S1 S2] & _ & _ & _ & S5 & S6 & S7) Ha. destruct (wanted_ok p K1 K2 Hne) as [W1 W2]. unfold applied in *. destruct a; [| |done].
  - destruct (S5 eq_refl) as (_ & [= E1 E2] & E3). split; rewrite ?S1, ?S2, ?E1, ?E2; done.
  - injection (S6 ltac:(done)) as E1 E2. split; rewrite ?S1, ?S2, ?E1, ?E2; [done..|]. destruct (S7 eq_refl) as [->| ->]; [by intros []|done].
Qed.

(** ** Reconciling *)

Definition reconciled (i : string) (s s' : State) (r : result string unit) : Prop :=
  closed s' = closed s /\ (forall q, q <> i -> panes s' !! q = panes s !! q) /\
  match panes s !! i with
  | None => panes s' !! i = None
  | Some p => if decide (leases p = ∅) then panes s' !! i = None else exists p', panes s' !! i = Some p' /\ leases p' = leases p /\ baseline_rows p' = baseline_rows p /\ (r = Ok tt -> settled p')
  end.

Lemma reconcile_spec i s w : good s w -> let '(r, s', w') := reconcile i s w in good s' w' /\ reconciled i s s' r.
Proof.
  intros [Ho Hk]. unfold reconcile, reconciled. destruct (panes s !! i) as [p|] eqn:Ei; [|done]. pose proof (Hk i p Ei) as Kp. pose proof (owned_take _ _ _ _ Ei Ho) as Hh.
  assert (Hd : delete i (panes s) !! i = None) by apply lookup_delete_eq. destruct (pane_minimum_columns_spec (leases p) (po_leases p Kp)) as (M1 & _). destruct (minimum_columns (leases p)) as [columns active] eqn:Em. cbn [fst snd] in M1.
  destruct active.
  - pose proof (apply_size_spec false i columns (target_rows p) p _ w Hh Hd) as Hs.
    assert (Ew : wanted p = (columns, target_rows p)) by (unfold wanted; by rewrite Em).
    pose proof (sized_ok false i p (delete i (panes s)) (apply_size false i columns (target_rows p) p w) Kp) as Hsz. rewrite Ew in Hsz. cbn [fst snd] in Hsz.
    destruct (apply_size false i columns (target_rows p) p w) as [[a p'] w']. cbn [fst snd] in Hsz. pose proof Hs as ([S1 S2] & _ & S3 & S4 & S5 & _). specialize (S3 eq_refl). rewrite (decide_False (P := leases p = ∅)) by (by apply M1).
    split; [apply good_put; [by apply S4|by apply Hsz; [apply M1|..]|done]|]. cbn [panes closed set_pane]. split; [done|]. split; [intros q Hq; by rewrite lookup_insert_ne|].
    exists p'. rewrite lookup_insert_eq. do 3 (split; [done|]). intros Hr. case_decide as Ha; [|discriminate]. destruct (S5 Ha) as (C1 & C2 & _). split; [done|]. rewrite C2. unfold wanted, target_rows. by rewrite S1, S2, Em.
  - assert (El : leases p = ∅) by (destruct (decide (leases p = ∅)) as [|Hne]; [done|]; by apply M1 in Hne).
    pose proof (release_control_spec false _ i p _ w Hh Hd) as Hr. destruct (release_control false p w) as [[a p'] w']. destruct Hr as (R1 & R2 & _). rewrite (decide_True (P := leases p = ∅)) by done. cbn [panes closed]. split; [split; cbn [panes]|].
    + by eapply holds_drop.
    + by apply map_Forall_delete.
    + split; [done|]. split; [intros q Hq; by rewrite lookup_delete_ne|done].
Qed.

(** ** Passes over the panes *)

(** What a pass makes of a pane whose leases it prepares with [prep]. *)
Definition passed (prep : gmap string Lease -> gmap string Lease) (s s' : State) (q : string) : Prop :=
  match panes s !! q with
  | None => panes s' !! q = None
  | Some p => if decide (prep (leases p) = ∅) then panes s' !! q = None else exists p', panes s' !! q = Some p' /\ leases p' = prep (leases p)
  end.

Section Pass.
Context (prep : gmap string Lease -> gmap string Lease) (f : PaneState -> World -> PaneState * bool * World).
Context (prep_ok : forall l, leases_ok l -> leases_ok (prep l)) (prep_twice : forall l, prep (prep l) = prep l).
Context (f_prep : forall p w, (f p w).1.1 = set_leases (prep (leases p)) p /\ quiet w (f p w).2).
Context (f_due : forall p w, leases_ok (leases p) -> prep (leases p) = ∅ -> (f p w).1.2 = true).

Lemma visit_spec e s w i : good s w ->
  let '(e', s', w') := visit f (e, s, w) i in
  good s' w' /\ closed s' = closed s /\ (forall q, q <> i -> panes s' !! q = panes s !! q) /\ passed prep s s' i.
Proof.
  intros Hg. unfold visit, passed. destruct (panes s !! i) as [p|] eqn:Ei; [|done]. pose proof (proj2 Hg i p Ei) as Kp. destruct (f_prep p w) as [Hp Hq]. pose proof (f_due p w (po_leases p Kp)) as Hdue.
  destruct (f p w) as [[p1 due] w1]. cbn [fst snd] in *. subst p1.
  assert (Hg1 : good (set_pane i (set_leases (prep (leases p)) p) s) w1) by (eapply good_quiet; [exact Hq|]; apply good_leases; [done|by apply prep_ok, po_leases|done]).
  assert (Hfr : forall q, q <> i -> panes (set_pane i (set_leases (prep (leases p)) p) s) !! q = panes s !! q) by (intros q Hq'; by apply lookup_insert_ne).
  destruct due.
  - pose proof (reconcile_spec i _ w1 Hg1) as Hr. destruct (reconcile i _ w1) as [[r s'] w']. destruct Hr as (G & C & R1 & R2). cbn [set_pane panes] in R2. rewrite lookup_insert_eq in R2. cbn [set_leases leases] in R2.
    split; [done|]. split; [done|]. split; [intros q Hne; by rewrite R1, Hfr|]. case_decide; [done|]. destruct R2 as (p' & H1 & H2 & _). eauto.
  - case_decide as Hd; [by specialize (Hdue Hd)|]. do 3 (split; [done|]). eexists. cbn [set_pane panes]. rewrite lookup_insert_eq. done.
Qed.

Lemma passed_trans s s1 s2 q : passed prep s s1 q -> passed prep s1 s2 q -> passed prep s s2 q.
Proof.
  unfold passed. destruct (panes s !! q) as [p|]; [|by intros ->]. case_decide as Hd; [by intros ->|]. intros (p1 & -> & E1). rewrite E1, prep_twice. case_decide; [done|]. done.
Qed.
Lemma pass_spec l e s w : good s w ->
  let '(e', s', w') := foldl (visit f) (e, s, w) l in
  good s' w' /\ closed s' = closed s /\ (forall q, q ∉ l -> panes s' !! q = panes s !! q) /\ (forall q, q ∈ l -> passed prep s s' q).
Proof.
  revert e s w. induction l as [|i l IH]; intros e s w Hg; [split; [done|]; split; [done|]; split; [done|]; by intros q ?%not_elem_of_nil|]. cbn [foldl].
  pose proof (visit_spec e s w i Hg) as Hv. destruct (visit f (e, s, w) i) as [[e1 s1] w1]. destruct Hv as (G1 & C1 & F1 & P1). specialize (IH e1 s1 w1 G1).
  destruct (foldl (visit f) (e1, s1, w1) l) as [[e2 s2] w2]. destruct IH as (G2 & C2 & F2 & P2). split; [done|]. split; [congruence|]. split.
  - intros q [H1 H2]%not_elem_of_cons. by rewrite F2, F1.
  - intros q Hq. destruct (decide (q = i)) as [->|Hne]; destruct (decide (q ∈ l)) as [Hl|Hl] || destruct (decide (i ∈ l)) as [Hl|Hl].
    + eapply passed_trans; [exact P1|by apply P2].
    + unfold passed in *. by rewrite F2.
    + specialize (P2 q Hl). unfold passed in *. by rewrite F1 in P2.
    + exfalso. apply elem_of_cons in Hq as [?|?]; done.
Qed.

(** A pass without errors whose untouched panes are settled settles all. *)
Lemma visit_settled e s w i : good s w -> (forall p w, leases_ok (leases p) -> (f p w).1.2 = false -> settled (f p w).1.1) ->
  let '(e', s', w') := visit f (e, s, w) i in e' = [] -> e = [] /\ forall p', panes s' !! i = Some p' -> settled p'.
Proof.
  intros Hg Hnd. unfold visit. destruct (panes s !! i) as [p|] eqn:Ei; [|intros ->; by rewrite Ei]. pose proof (proj2 Hg i p Ei) as Kp. destruct (f_prep p w) as [Hp Hq]. specialize (Hnd p w (po_leases p Kp)).
  destruct (f p w) as [[p1 due] w1]. cbn [fst snd] in *. subst p1.
  assert (Hg1 : good (set_pane i (set_leases (prep (leases p)) p) s) w1) by (eapply good_quiet; [exact Hq|]; apply good_leases; [done|by apply prep_ok, po_leases|done]).
  destruct due; [|intros ->; split; [done|]; intros p'; cbn [set_pane panes]; rewrite lookup_insert_eq; intros [= <-]; by apply Hnd].
  pose proof (reconcile_spec i _ w1 Hg1) as Hr. destruct (reconcile i _ w1) as [[r s'] w']. destruct Hr as (_ & _ & _ & R2). cbn [set_pane panes] in R2. rewrite lookup_insert_eq in R2.
  intros [He Hr]%app_eq_nil. split; [done|]. destruct r as [[]|]; [|discriminate]. intros p' Hp'. case_decide; [congruence|]. destruct R2 as (p2 & H1 & _ & _ & H2). rewrite Hp' in H1. injection H1 as <-. by apply H2.
Qed.
Lemma pass_settled l e s w : good s w -> (forall p w, leases_ok (leases p) -> (f p w).1.2 = false -> settled (f p w).1.1) ->
  let '(e', s', w') := foldl (visit f) (e, s, w) l in e' = [] -> e = [] /\ forall q p', q ∈ l -> panes s' !! q = Some p' -> settled p'.
Proof.
  intros Hg Hnd. revert e s w Hg. induction l as [|i l IH]; intros e s w Hg; [cbn; intros ->; split; [done|]; by intros q p' ?%not_elem_of_nil|]. cbn [foldl].
  pose proof (visit_spec e s w i Hg) as Hv. pose proof (visit_settled e s w i Hg Hnd) as Hs. destruct (visit f (e, s, w) i) as [[e1 s1] w1]. destruct Hv as (G1 & _). specialize (IH e1 s1 w1 G1).
  pose proof (pass_spec l e1 s1 w1 G1) as Hp. destruct (foldl (visit f) (e1, s1, w1) l) as [[e2 s2] w2]. destruct Hp as (_ & _ & F2 & _). intros He. destruct (IH He) as [He1 Hl]. destruct (Hs He1) as [He0 Hi]. split; [done|].
  intros q p' Hq Hp'. destruct (decide (q ∈ l)) as [Hin|Hin]; [by eapply Hl|]. apply elem_of_cons in Hq as [->|?]; [|done]. apply Hi. by rewrite <- F2.
Qed.
End Pass.

(** ** The three passes *)

Lemma remove_expired_twice now l : remove_expired now (remove_expired now l) = remove_expired now l.
Proof. unfold remove_expired. rewrite map_filter_filter. apply map_filter_ext. naive_solver. Qed.

(** The preconditions of the passes hold for the one of a sweep. *)
Lemma sweep_prep now p w : (sweep_pane now p w).1.1 = set_leases (remove_expired now (leases p)) p /\ quiet w (sweep_pane now p w).2.
Proof.
  unfold sweep_pane. cbn [set_leases leases]. destruct (minimum_columns _) as [t a]. destruct (_ || _); [done|]. destruct (is_live_spec (set_leases (remove_expired now (leases p)) p) w) as [Hq _]. by destruct (is_live _ w).
Qed.
Lemma sweep_due now p w : leases_ok (leases p) -> remove_expired now (leases p) = ∅ -> (sweep_pane now p w).1.2 = true.
Proof. intros Hl E. unfold sweep_pane. cbn [set_leases leases]. rewrite E. change (minimum_columns ∅) with (0, false). cbn [negb]. by rewrite orb_true_r. Qed.

Section Order.
Context (order : gmap string PaneState -> list string) (order_keys : forall m q, q ∈ order m <-> is_Some (m !! q)).

(** What a pass does to all panes. *)
Definition passed_all (prep : gmap string Lease -> gmap string Lease) (s s' : State) : Prop := closed s' = closed s /\ forall q, passed prep s s' q.

Lemma pass_all prep f s w :
  (forall l, leases_ok l -> leases_ok (prep l)) -> (forall l, prep (prep l) = prep l) -> (forall p w, (f p w).1.1 = set_leases (prep (leases p)) p /\ quiet w (f p w).2) ->
  (forall p w, leases_ok (leases p) -> prep (leases p) = ∅ -> (f p w).1.2 = true) -> good s w ->
  let '(r, s', w') := pass order f s w in
  good s' w' /\ passed_all prep s s' /\ ((forall p w, leases_ok (leases p) -> (f p w).1.2 = false -> settled (f p w).1.1) -> r = Ok tt -> map_Forall (fun _ => settled) (panes s')).
Proof.
  intros H1 H2 H3 H4 Hg. unfold pass. pose proof (pass_spec prep f H1 H2 H3 H4 (order (panes s)) [] s w Hg) as Hp. pose proof (pass_settled prep f H1 H2 H3 H4 (order (panes s)) [] s w Hg) as Hs.
  destruct (foldl (visit f) ([], s, w) (order (panes s))) as [[e s'] w']. destruct Hp as (G & C & F & P). split; [done|]. split; [split; [done|]|].
  - intros q. destruct (decide (q ∈ order (panes s))) as [Hq|Hq]; [by apply P|]. unfold passed. rewrite F by done. rewrite order_keys in Hq. apply eq_None_not_Some in Hq. by rewrite Hq.
  - intros Hnd Hr q p' Hq. destruct (Hs Hnd) as [_ Hall]; [unfold joined in Hr; by case_decide|]. apply (Hall q); [|done]. destruct (decide (q ∈ order (panes s))) as [?|Hn]; [done|]. exfalso.
    rewrite F in Hq by done. apply Hn, order_keys. by rewrite Hq.
Qed.

Lemma release_client_pass c s w : good s w -> let '(r, s', w') := pass order (release_client_pane c) s w in good s' w' /\ passed_all (delete c) s s'.
Proof.
  intros Hg. pose proof (pass_all (delete c) (release_client_pane c) s w) as H. destruct (pass order (release_client_pane c) s w) as [[r s'] w']. destruct H as (H1 & H2 & _); [..|done].
  - intros l. apply pane_leases_ok_delete.
  - intros l. apply delete_delete_eq.
  - done.
  - intros p w0 Hl E. unfold release_client_pane. cbn [fst snd set_leases leases]. rewrite E. apply orb_true_r.
  - done.
Qed.
Lemma sweep_pass now s w : good s w ->
  let '(r, s', w') := pass order (sweep_pane now) s w in good s' w' /\ passed_all (remove_expired now) s s' /\ (r = Ok tt -> map_Forall (fun _ => settled) (panes s')).
Proof.
  intros Hg. pose proof (pass_all (remove_expired now) (sweep_pane now) s w) as H. destruct (pass order (sweep_pane now) s w) as [[r s'] w'].
  destruct H as (H1 & H2 & H3); [..|split; [done|split; [done|]]].
  - intros l. apply leases_ok_expired.
  - apply remove_expired_twice.
  - apply sweep_prep.
  - apply sweep_due.
  - done.
  - apply H3. intros p w0 Hl. unfold sweep_pane. cbn [set_leases leases]. set (p1 := set_leases _ p). destruct (minimum_columns _) as [t a] eqn:Em. destruct (_ || _); [done|].
    destruct (is_live_spec p1 w0) as [_ Hlive]. destruct (is_live p1 w0) as [live w1]. cbn [fst snd] in *. intros Hd%negb_false_iff%bool_decide_eq_true. destruct Hd as ([id ->] & E1 & E2).
    split; [by rewrite (Hlive id eq_refl)|]. unfold applied, wanted. cbn [p1 set_leases leases]. rewrite Em. cbn [fst]. by rewrite <- E1, <- E2.
Qed.
Lemma shutdown_pass s w : good s w -> let '(r, s', w') := shutdown order s w in good s' w' /\ closed s' = true /\ panes s' = ∅.
Proof.
  intros Hg. unfold shutdown. pose proof (pass_all (fun _ => ∅) (fun p w => (set_leases ∅ p, true, w)) (mkState (panes s) true) w) as H. destruct (pass order _ _ w) as [[r s'] w'].
  destruct H as (H1 & [H2 H3] & _); [..|split; [done|split; [done|]]].
  - intros l _ o x. by rewrite lookup_empty.
  - done.
  - done.
  - done.
  - done.
  - apply map_empty. intros q. specialize (H3 q). unfold passed in H3. destruct (panes (mkState (panes s) true) !! q); [|done]. by case_decide.
Qed.
End Order.

(** ** Acquiring *)

(** The leases of a pane that have not expired. *)
Definition remaining (s : State) (i : string) (now : Z) : gmap string Lease := match panes s !! i with Some p => remove_expired now (leases p) | None => ∅ end.
(** Neither controller nor size was touched. *)
Definition same_controller (s : State) (i : string) (p' : PaneState) : Prop := exists p, panes s !! i = Some p /\ controller p' = controller p /\ applied p' = applied p.

Lemma restore_insert c (x : Lease) (l : gmap string Lease) : partial_alter (fun _ => l !! c) c (<[c := x]> l) = l.
Proof. apply map_eq. intros o. destruct (decide (c = o)) as [<-|Hne]; [by rewrite lookup_partial_alter_eq|]. by rewrite lookup_partial_alter_ne, lookup_insert_ne. Qed.

Lemma resolve_pane_ok probe i p : resolve_pane probe i = Ok p -> controller p = None /\ leases p = ∅ /\ pane_ok p.
Proof.
  unfold resolve_pane, or_error. destruct (pr_info probe) as [info|]; [|done]. cbn. destruct (foreground_pid info i) as [pid|]; [|done]. cbn. destruct (pr_ps probe pid) as [out|]; [|done]. cbn.
  destruct (tty_path out) as [tty|]; [|done]. cbn. destruct (pr_stty probe tty) as [out2|]; [|done]. cbn. destruct (terminal_size out2) as [[rows columns]|] eqn:Et; [|done]. cbn. intros [= <-]. split; [done|]. split; [done|].
  assert (Hr : 0 < rows). { unfold terminal_size in Et. destruct (output_fields out2) as [|a [|b [|? ?]]]; try discriminate. case_decide; [discriminate|]. injection Et as <- _. lia. }
  split; cbn; [intros o x; by rewrite lookup_empty|done|done|by intros []].
Qed.

Section Acquire.
Context (client i : string) (columns rows now : Z) (Hcol : MIN_COLUMNS <= columns <= MAX_COLUMNS) (Hrow : rows = 0 \/ MIN_ROWS <= rows <= MAX_ROWS).
Notation lease := (mkLease columns rows (now + LEASE_TTL)).

Lemma new_lease_ok : lease_ok lease.
Proof. split; [done|]. cbn. unfold MIN_ROWS, MAX_ROWS in *. lia. Qed.

Lemma acquire_size_spec p m w : holds (Some (applied p)) i p m w -> m !! i = None -> pane_ok p ->
  let '(r, p', w') := acquire_size client i columns rows now p w in
  holds (Some (applied p')) i p' m w' /\ pane_ok p' /\
  match r with Ok sz => leases p' = <[client := lease]> (leases p) /\ settled p' /\ applied p' = sz | Err _ => leases p' = leases p /\ controller p' = None end.
Proof.
  intros Hh Hi Kp. unfold acquire_size. set (p1 := set_leases (<[client := lease]> (leases p)) p).
  assert (K1 : pane_ok p1). { destruct Kp as [A B C D]. split; [|done..]. by apply pane_leases_ok_insert; [apply new_lease_ok|]. }
  assert (Hne : leases p1 <> ∅) by apply insert_non_empty. assert (H1 : holds (Some (applied p1)) i p1 m w) by (by apply (holds_same _ _ p)).
  cbv zeta. change ((minimum_columns (leases p1)).1, target_rows p1) with (wanted p1). pose proof (apply_size_spec true i (wanted p1).1 (wanted p1).2 p1 m w H1 Hi) as Hs.
  pose proof (sized_ok true i p1 m _ K1 Hne Hs) as Hok. destruct (apply_size true i (wanted p1).1 (wanted p1).2 p1 w) as [[a p2] w2]. cbn [fst snd] in Hok. destruct Hs as ([S1 S2] & S3 & _ & S4 & S5 & S6 & _).
  pose proof (owner_gone_quiet w2) as Hq. destruct (owner_gone w2) as [gone w3]. cbn [snd] in Hq. case_decide as Hd.
  - destruct Hd as [-> _]. destruct (S5 eq_refl) as (C1 & C2 & _). rewrite <- surjective_pairing in C2. split; [eapply holds_quiet; [exact Hq|by apply S4]|]. split; [by apply Hok|]. split; [done|]. split; [|done].
    split; [done|]. rewrite C2. unfold wanted, target_rows. by rewrite S1, S2.
  - pose proof (holds_quiet _ _ _ _ _ _ Hq S3) as H3. assert (H4 : holds None i (restore_lease client (leases p !! client) p2) m w3) by (by apply (holds_same _ _ p2)).
    pose proof (release_control_spec false None i _ m w3 H4 Hi) as Hr. destruct (release_control false _ w3) as [[a' p3] w4]. destruct Hr as (R1 & R2 & [R3 R4] & R5 & _).
    assert (El : leases p3 = leases p) by (rewrite R3; cbn [restore_lease set_leases leases]; rewrite S1; apply restore_insert). split; [by eapply holds_none|]. split; [|done].
    assert (Hrows : 0 < applied_rows p3).
    { assert (E3 : applied_rows p3 = applied_rows p2) by (by injection R5). rewrite E3. destruct (decide (a = Yes)) as [->|Ha].
      - apply (Hok ltac:(done)).
      - assert (E2 : applied_rows p2 = applied_rows p1) by (by injection (S6 Ha)). rewrite E2. apply Kp. }
    destruct Kp as [A B C D]. split; [by rewrite El|by rewrite R4; cbn; rewrite S2|done|rewrite R2; by intros []].
Qed.

Lemma lease_target_spec probe s w : good s w ->
  let '(t, w') := lease_target probe i now s w in
  quiet w w' /\ match t with
  | Err _ => panes s !! i = None
  | Ok p => leases p = remaining s i now /\ pane_ok p /\ holds (Some (applied p)) i p (delete i (panes s)) w' /\ (controller p = None \/ same_controller s i p)
  end.
Proof.
  intros [Ho Hk]. unfold lease_target, remaining, same_controller. destruct (panes s !! i) as [p|] eqn:Ei.
  - pose proof (Hk i p Ei) as [A B C D]. split; [done|]. split; [done|]. split; [split; [by apply leases_ok_expired|done..]|]. split; [apply (holds_same _ _ p); [done|]; by apply (owned_take (panes s) i p w)|]. right. eauto.
  - pose proof (owner_gone_quiet w) as Hq. destruct (owner_gone w) as [gone w']. cbn [snd] in Hq. split; [done|]. destruct gone; [done|]. destruct (resolve_pane probe i) as [p|] eqn:Er; [|done].
    destruct (resolve_pane_ok _ _ _ Er) as (R1 & R2 & R3). do 2 (split; [done|]). split; [|by left]. eapply holds_quiet; [exact Hq|]. by apply owned_new.
Qed.
End Acquire.

Definition acquired (client i : string) (columns rows now : Z) (s s' : State) (r : result string (Z * Z)) : Prop :=
  closed s' = closed s /\ (forall q, q <> i -> panes s' !! q = panes s !! q) /\
  match r with
  | Ok sz => closed s = false /\ MIN_COLUMNS <= columns <= MAX_COLUMNS /\ exists p', panes s' !! i = Some p' /\ leases p' = <[client := mkLease columns rows (now + LEASE_TTL)]> (remaining s i now) /\ settled p' /\ applied p' = sz
  | Err _ => panes s' !! i = panes s !! i \/ exists p', panes s' !! i = Some p' /\ leases p' = remaining s i now /\ (controller p' = None \/ same_controller s i p')
  end /\ (closed s = true -> s' = s).

Lemma acquire_spec probe client i columns rows now s w : good s w ->
  let '(r, s', w') := acquire probe client i columns rows now s w in good s' w' /\ acquired client i columns rows now s s' r.
Proof.
  intros Hg. unfold acquire, acquired. case_decide; [split; [done|]; split_and!; auto|]. case_decide as Hc; [split; [done|]; split_and!; auto|]. case_decide as Hr; [split; [done|]; split_and!; auto|].
  destruct (closed s) eqn:Ec; [split; [done|]; split_and!; auto|]. pose proof (owner_gone_quiet w) as Hq. destruct (owner_gone w) as [gone w1]. cbn [snd] in Hq. pose proof (good_quiet _ _ _ Hq Hg) as Hg1.
  destruct gone; [split; [done|]; split_and!; auto|]. pose proof (lease_target_spec i now probe s w1 Hg1) as Ht. destruct (lease_target probe i now s w1) as [t w2]. destruct Ht as [Hq2 Ht].
  pose proof (good_quiet _ _ _ Hq2 Hg1) as Hg2. destruct t as [p|e]; [|split; [done|]; split_and!; auto]. destruct Ht as (El & Kp & Hh & Hsame).
  pose proof (owner_gone_quiet w2) as Hq3. destruct (owner_gone w2) as [gone w3]. cbn [snd] in Hq3. pose proof (holds_quiet _ _ _ _ _ _ Hq3 Hh) as Hh3.
  assert (Hfr : forall p' q, q <> i -> panes (set_pane i p' s) !! q = panes s !! q) by (intros p' q Hq'; by apply lookup_insert_ne).
  destruct gone.
  - split; [apply good_put; [done|done|apply Hg]|]. cbn [closed set_pane]. split; [done|]. split; [by apply Hfr|]. split; [|done]. right. exists p. cbn [panes set_pane]. by rewrite lookup_insert_eq.
  - pose proof (acquire_size_spec client i columns rows now ltac:(tauto) ltac:(lia) p _ w3 Hh3 (lookup_delete_eq _ _) Kp) as Ha. destruct (acquire_size client i columns rows now p w3) as [[r p'] w4]. destruct Ha as (A1 & A2 & A3).
    split; [apply good_put; [done|done|apply Hg]|]. cbn [closed set_pane]. split; [done|]. split; [by apply Hfr|]. split; [|done]. destruct r as [sz|e].
    + split; [done|]. split; [tauto|]. exists p'. cbn [panes set_pane]. rewrite lookup_insert_eq, <- El. naive_solver.
    + right. exists p'. cbn [panes set_pane]. rewrite lookup_insert_eq, <- El. naive_solver.
Qed.

(** ** Runs *)

Definition inv (s : State) (w : World) : Prop := good s w /\ (closed s = true -> panes s = ∅).

Section Runs.
Context (order : gmap string PaneState -> list string) (order_keys : forall m q, q ∈ order m <-> is_Some (m !! q)).

Lemma reconcile_empty i s w : panes s = ∅ -> reconcile i s w = (Ok tt, s, w).
Proof. intros E. unfold reconcile. by rewrite E, lookup_empty. Qed.

Lemma release_good c i now s w : good s w -> let '(r, s', w') := release c i now s w in good s' w' /\ (closed s = true -> s' = s) /\ closed s' = closed s.
Proof.
  intros Hg. unfold release. case_decide; [done|]. destruct (closed s) eqn:Ec; [done|]. destruct (panes s !! i) as [p|] eqn:Ei; [|done]. destruct (leases p !! c) as [x|] eqn:El; [|done].
  pose proof (po_leases p (proj2 Hg i p Ei)) as Hok. case_decide.
  - split; [|done]. apply good_leases; [done| |done]. apply pane_leases_ok_insert; [|done]. exact (Hok c x El).
  - pose proof (reconcile_spec i (set_pane i (set_leases (delete c (leases p)) p) s) w) as Hr. destruct (reconcile i _ w) as [[r s'] w'].
    destruct Hr as (G & C & _); [apply good_leases; [done|by apply pane_leases_ok_delete|done]|]. split; [done|]. split; [done|]. rewrite C. done.
Qed.
Lemma hold_good i now s w : good s w -> let '(r, s', w') := hold_history i now s w in good s' w' /\ closed s' = closed s /\ (panes s = ∅ -> panes s' = ∅).
Proof.
  intros Hg. unfold hold_history. destruct (panes s !! i) as [p|] eqn:Ei; [|done]. destruct (is_live_spec p w) as [Hq Hl]. destruct (is_live p w) as [live w']. cbn [fst snd] in *. pose proof (good_quiet _ _ _ Hq Hg) as Hg'.
  destruct live as [id|]; [|done]. split; [|split; [done|intros E; by rewrite E, lookup_empty in Ei]]. pose proof (proj2 Hg i p Ei) as [A B C D]. specialize (D ltac:(by rewrite (Hl id eq_refl))).
  apply good_leases; [done| |done]. apply pane_leases_ok_insert; [|done]. split; cbn; lia.
Qed.
Lemma release_history_good i s w : good s w -> let '(s', w') := release_history i s w in good s' w' /\ closed s' = closed s /\ (panes s = ∅ -> panes s' = ∅).
Proof.
  intros Hg. unfold release_history. destruct (panes s !! i) as [p|] eqn:Ei.
  - pose proof (reconcile_spec i (set_pane i (set_leases (delete HISTORY_OWNER (leases p)) p) s) w) as Hr. destruct (reconcile i _ w) as [[r s'] w'].
    destruct Hr as (G & C & _); [apply good_leases; [done|apply pane_leases_ok_delete, (proj2 Hg i p Ei)|done]|]. split; [done|]. split; [done|]. intros E. by rewrite E, lookup_empty in Ei.
  - pose proof (reconcile_spec i s w Hg) as Hr. pose proof (reconcile_empty i s w) as He. destruct (reconcile i s w) as [[r s'] w']. destruct Hr as (G & C & _). split; [done|]. split; [done|]. intros E. by injection (He E) as _ -> _.
Qed.

Lemma pane_step_inv x o : inv x.1 x.2 -> inv (step order x o).1 (step order x o).2.
Proof.
  destruct x as [s w]. cbn [fst snd]. intros [Hg Hc]. destruct o as [probe c p columns rows now|c p now|c|now| |p now|p|p]; cbn [step].
  - pose proof (acquire_spec probe c p columns rows now s w Hg) as H. destruct (acquire _ _ _ _ _ _ s w) as [[r s'] w']. destruct H as (G & C & _ & _ & E). split; [done|]. cbn [fst]. rewrite C. intros Hcl. rewrite (E Hcl). by apply Hc.
  - pose proof (release_good c p now s w Hg) as H. destruct (release _ _ _ s w) as [[r s'] w']. destruct H as (G & E & C). split; [done|]. cbn [fst]. rewrite C. intros Hcl. rewrite (E Hcl). by apply Hc.
  - unfold release_client. case_decide as Hcl; [done|]. destruct (closed s) eqn:Ec; [by split; [|intros _; apply Hc]|]. pose proof (release_client_pass order order_keys c s w Hg) as H. destruct (pass _ _ s w) as [[r s'] w']. destruct H as (G & C & _). split; [done|]. cbn [fst]. congruence.
  - unfold sweep_expired. destruct (closed s) eqn:Ec; [by split; [|intros _; apply Hc]|]. pose proof (sweep_pass order order_keys now s w Hg) as H. destruct (pass _ _ s w) as [[r s'] w']. destruct H as (G & (C & _) & _). split; [done|]. cbn [fst]. congruence.
  - pose proof (shutdown_pass order order_keys s w Hg) as H. destruct (shutdown order s w) as [[r s'] w']. destruct H as (G & _ & E). split; [done|]. done.
  - pose proof (hold_good p now s w Hg) as H. destruct (hold_history p now s w) as [[r s'] w']. destruct H as (G & C & E). split; [done|]. cbn [fst]. rewrite C. auto.
  - unfold history_scroll. destruct (_ ≫= controller); [|done]. pose proof (await_quiet false w) as Hq. destruct (await false w) as [a w']. cbn [snd] in *. split; [by eapply good_quiet|done].
  - pose proof (release_history_good p s w Hg) as H. destruct (release_history p s w) as [s' w']. destruct H as (G & C & E). split; [done|]. cbn [fst]. rewrite C. auto.
Qed.
Lemma pane_run_inv ops x : inv x.1 x.2 -> inv (foldl (step order) x ops).1 (foldl (step order) x ops).2.
Proof. revert x. induction ops as [|o ops IH]; intros x Hx; [done|]. cbn [foldl]. by apply IH, pane_step_inv. Qed.
End Runs.

Definition start (answers : list Answer) (clock : list Z) (news : list (gset nat)) : State * World := (new, mkWorld ∅ 0 answers clock ∅ news).
Lemma pane_start_inv answers clock news : inv (start answers clock news).1 (start answers clock news).2.
Proof. split; [|done]. split; [|apply map_Forall_empty]. split_and!; cbn; [by intros q qs id; rewrite lookup_empty|by intros id c; rewrite lookup_empty|done]. Qed.

(** ** Herdr answers *)

(** The next [n] calls succeed, and meanwhile exactly the controllers of [d] are
    dead, none of them one that is yet to be opened. *)
Definition steady (d : gset nat) (w : World) : Prop := match w_news w with [] => w_dead w = d | _ => Forall (eq d) (w_news w) end.
Definition ready (n : nat) (d : gset nat) (w : World) : Prop := (exists l, w_answers w = replicate n Yes ++ l) /\ steady d w /\ forall id, (w_next w <= id)%nat -> id ∉ d.
Definition alive (d : gset nat) (p : PaneState) : Prop := exists id, controller p = Some id /\ id ∉ d.

Section Ready.
Context (d : gset nat).
Notation ready n w := (ready n d w).
Notation alive p := (alive d p).

Lemma ready_less n w : ready (S n) w -> ready n w.
Proof. intros [[l E] H]. split; [|done]. exists (Yes :: l). rewrite E. rewrite replicate_S_end, <- app_assoc. done. Qed.
Lemma ask_ready n w : ready (S n) w -> exists w', ask w = (Yes, w') /\ ready n w'.
Proof. intros [[l E] H]. unfold ask. rewrite E. cbn [replicate app]. eexists. split; [done|]. split; [by exists l|exact H]. Qed.
Lemma await_ready n w : ready (S n) w -> exists w', await false w = (Yes, w') /\ ready n w'.
Proof. intros (w' & E & H)%ask_ready. exists w'. unfold await. rewrite E. done. Qed.
Lemma look_ready n w : ready n w -> ready n (look w) /\ w_dead (look w) = d.
Proof.
  intros (H1 & H2 & H3). unfold look, steady in *. destruct (w_news w) as [|d' l] eqn:E; [split; [|done]; split; [done|]; split; [unfold steady; by rewrite E|done]|]. apply Forall_cons in H2 as [<- H2].
  split; [|done]. split; [done|]. split; [|done]. unfold steady. cbn. by destruct l.
Qed.
(** What a look finds. *)
Definition found (p : PaneState) : option nat := match controller p with Some id => if decide (id ∈ d) then None else Some id | None => None end.
Lemma is_live_ready n p w : ready n w -> exists w', is_live p w = (found p, w') /\ ready n w'.
Proof.
  intros H. unfold is_live, found. destruct (controller p) as [id|]; [|by exists w]. destruct (look_ready n w H) as [H1 ->]. by exists (look w).
Qed.
Lemma found_alive p : is_Some (found p) <-> alive p.
Proof. unfold found, alive. destruct (controller p) as [id|]; [|split; [by intros []|by intros (? & ? & _)]]. case_decide; split; [by intros []|by intros (? & [= <-] & ?)|by exists id|done]. Qed.
Lemma release_ready n p w : ready (S n) w -> exists w', release_control false p w = (Yes, set_controller None p, w') /\ ready n w'.
Proof.
  intros H. unfold release_control. destruct (controller p) as [id|] eqn:E; [|exists w; split; [destruct p; cbn in E; by subst|by apply ready_less]]. destruct (await_ready n (set_open (delete id (w_open w)) w) H) as (w' & -> & H'). exists w'. done.
Qed.
Lemma confirm_ready n columns rows p w : ready n w -> alive p -> exists p' w', confirm false columns rows p w = (Yes, p', w') /\ ready n w' /\ alive p'.
Proof.
  intros H Hp. unfold confirm. destruct (is_live_ready n p w H) as (w' & -> & H'). pose proof (proj2 (found_alive p) Hp) as [id ->]. destruct (clock_now w') as [t w2] eqn:Ec. do 2 eexists. split; [done|]. split; [|exact Hp].
  unfold clock_now in Ec. destruct (w_clock w'); injection Ec as _ <-; done.
Qed.
Lemma apply_size_ready n i columns rows p w : is_u16 columns = true -> is_u16 rows = true -> ready (2 + n) w -> exists p' w', apply_size false i columns rows p w = (Yes, p', w') /\ ready n w' /\ alive p'.
Proof.
  intros H1 H2 H. unfold apply_size. rewrite H1, H2. cbn [andb negb]. destruct (is_live_ready (2 + n) p w H) as (w1 & -> & R1). case_decide as Hd.
  { do 2 eexists. split; [done|]. split; [by do 2 apply ready_less|]. by apply found_alive, Hd. }
  unfold change_size. destruct (is_live_ready (2 + n) p w1 R1) as (w2 & -> & R2). destruct (found p) as [id|] eqn:Ef.
  - assert (Hp : alive p) by (apply found_alive; by rewrite Ef). unfold resize_controller. destruct (await_ready (1 + n) w2 R2) as (w3 & -> & R3). rewrite decide_True by done. apply confirm_ready; [by apply ready_less|done].
  - unfold spawn_controller. destruct (release_ready (1 + n) p w2 R2) as (w3 & -> & R3). rewrite decide_False by done. destruct (await_ready n w3 R3) as (w4 & -> & R4). rewrite !decide_True by done. destruct R4 as (A & B & C).
    apply confirm_ready; [|exists (w_next w4); split; [done|by apply C]]. split; [exact A|]. split; [exact B|]. intros id Hid. apply C. cbn in Hid. lia.
Qed.

Definition low (s : State) : Prop := map_Forall (fun _ p => baseline_rows p < 2 ^ 16) (panes s).
Lemma wanted_u16 p : pane_ok p -> baseline_rows p < 2 ^ 16 -> leases p <> ∅ -> is_u16 (minimum_columns (leases p)).1 = true /\ is_u16 (target_rows p) = true.
Proof.
  intros Kp Hb Hne. destruct (wanted_ok p (po_leases p Kp) (po_baseline p Kp) Hne) as [W1 W2]. unfold wanted in *. cbn [fst snd] in *. unfold is_u16, MIN_COLUMNS, MAX_COLUMNS in *. split; apply andb_true_iff; split; try (apply Z.leb_le; lia); apply Z.ltb_lt; [lia|].
  unfold target_rows. case_decide as H0; [done|]. destruct (pane_minimum_rows_spec _ (po_leases p Kp)) as (_ & [?|(o & x & Hx & <-)] & _); [done|]. apply (po_leases p Kp o x Hx).
Qed.
Lemma reconcile_ready n i s w : good s w -> low s -> ready (2 + n) w -> exists s' w', reconcile i s w = (Ok tt, s', w') /\ ready n w' /\ low s' /\ forall p, panes s' !! i = Some p -> alive p.
Proof.
  intros Hg Hl H. pose proof (reconcile_spec i s w Hg) as Hspec. assert (Hr : exists s' w', reconcile i s w = (Ok tt, s', w') /\ ready n w' /\ forall p, panes s' !! i = Some p -> alive p).
  { unfold reconcile. destruct (panes s !! i) as [p|] eqn:Ei; [|do 2 eexists; split; [done|]; split; [by do 2 apply ready_less|congruence]]. pose proof (proj2 Hg i p Ei) as Kp. pose proof (pane_minimum_columns_spec _ (po_leases p Kp)) as (M & _).
    pose proof (wanted_u16 p Kp (Hl i p Ei)) as Hu. destruct (minimum_columns (leases p)) as [columns []]; cbn [fst snd] in *.
    - destruct (Hu (proj1 M eq_refl)) as [U1 U2]. destruct (apply_size_ready n i columns (target_rows p) p w U1 U2 H) as (p' & w' & -> & R & A). do 2 eexists. split; [done|]. split; [done|]. cbn [set_pane panes]. rewrite lookup_insert_eq. by intros ? [= <-].
    - destruct (release_ready n p w) as (w' & -> & R); [by apply ready_less|]. do 2 eexists. split; [done|]. split; [done|]. cbn [panes]. rewrite lookup_delete_eq. done. }
  destruct Hr as (s' & w' & E & R & A). rewrite E in Hspec. destruct Hspec as (_ & _ & F & Hi). exists s', w'. split; [done|]. split; [done|]. split; [|done]. intros q p' Hq. destruct (decide (q = i)) as [->|Hne]; [|rewrite F in Hq by done; by eapply Hl].
  destruct (panes s !! i) as [p|] eqn:Ei; [|congruence]. case_decide; [congruence|]. destruct Hi as (p2 & H2 & _ & H3 & _). rewrite Hq in H2. injection H2 as <-. rewrite H3. by eapply Hl.
Qed.
Lemma sweep_visit_ready now i n s w : good s w -> low s -> ready (2 + n) w ->
  exists s1 w1, visit (sweep_pane now) ([], s, w) i = ([], s1, w1) /\ low s1 /\ ready n w1 /\ forall p, panes s1 !! i = Some p -> alive p.
Proof.
  intros Hg Hl H. unfold visit. destruct (panes s !! i) as [p|] eqn:Ei; [|exists s, w; split; [done|]; split; [done|]; split; [by do 2 apply ready_less|congruence]].
  pose proof (proj2 Hg i p Ei) as Kp. set (p1 := set_leases (remove_expired now (leases p)) p).
  assert (Hf : exists due w1, sweep_pane now p w = (p1, due, w1) /\ quiet w w1 /\ ready (2 + n) w1 /\ (due = false -> alive p1)).
  { unfold sweep_pane. fold p1. destruct (minimum_columns _) as [t a]. destruct (_ || _); [do 2 eexists; split; [done|]; split; [done|]; split; [done|discriminate]|].
    pose proof (is_live_spec p1 w) as [Hq _]. destruct (is_live_ready _ p1 w H) as (w1 & E & R). rewrite E in *. do 2 eexists. split; [done|]. split; [done|]. split; [done|].
    intros Hd%negb_false_iff%bool_decide_eq_true. by apply found_alive, Hd. }
  destruct Hf as (due & w1 & -> & Hq & R & Hal). set (s1 := set_pane i _ s).
  assert (Hg1 : good s1 w1) by (eapply good_quiet; [exact Hq|]; apply good_leases; [done|by apply leases_ok_expired, po_leases|done]).
  assert (Hl1 : low s1) by (apply map_Forall_insert_2; [by apply (Hl i p Ei)|done]). destruct due.
  - destruct (reconcile_ready _ i s1 w1 Hg1 Hl1 R) as (s2 & w2 & E & R2 & L2 & A2). rewrite E. exists s2, w2. done.
  - exists s1, w1. split; [done|]. split; [done|]. split; [by do 2 apply ready_less|]. cbn [s1 set_pane panes]. rewrite lookup_insert_eq. intros ? [= <-]. by apply Hal.
Qed.
End Ready.

Lemma sweep_ready d now l n s w : good s w -> low s -> ready (2 * length l + n) d w ->
  let '(e, s', w') := foldl (visit (sweep_pane now)) ([], s, w) l in e = [] /\ forall q p, q ∈ l -> panes s' !! q = Some p -> alive d p.
Proof.
  revert s w. induction l as [|i l IH]; intros s w Hg Hl H; [split; [done|]; by intros q p ?%not_elem_of_nil|]. cbn [foldl length] in *. replace (2 * S (length l) + n)%nat with (2 + (2 * length l + n))%nat in H by lia.
  destruct (sweep_visit_ready d now i _ s w Hg Hl H) as (s1 & w1 & E & L1 & R1 & A1). rewrite E.
  assert (Hprep : forall l, leases_ok l -> leases_ok (remove_expired now l)) by (intros; by apply leases_ok_expired).
  pose proof (visit_spec (remove_expired now) (sweep_pane now) Hprep (sweep_prep now) (sweep_due now) [] s w i Hg) as Hv. rewrite E in Hv. destruct Hv as (G1 & _).
  pose proof (pass_spec (remove_expired now) (sweep_pane now) Hprep (remove_expired_twice now) (sweep_prep now) (sweep_due now) l [] s1 w1 G1) as Hp. specialize (IH s1 w1 G1 L1 R1).
  destruct (foldl (visit (sweep_pane now)) ([], s1, w1) l) as [[e s'] w']. destruct IH as [He Ha]. destruct Hp as (_ & _ & F & _). split; [done|]. intros q p Hq Hqp.
  destruct (decide (q ∈ l)) as [Hin|Hin]; [by eapply Ha|]. apply elem_of_cons in Hq as [->|?]; [|done]. apply A1. by rewrite <- F.
Qed.

(** ** Claims *)

Section Claims.
Context (order : gmap string PaneState -> list string) (order_keys : forall m q, q ∈ order m <-> is_Some (m !! q)).

Lemma reached_inv ops answers clock news s w : foldl (step order) (start answers clock news) ops = (s, w) -> inv s w.
Proof. intros E. pose proof (pane_run_inv order order_keys ops _ (pane_start_inv answers clock news)) as H. by rewrite E in H. Qed.

(** C27 — No controller is lost.  After any operations, whatever Herdr, the
    operating system and the clients' connections do at each call, every open
    controller is the one the manager holds for its pane, so a pane has at most
    one, and the size it confirmed last is the one the manager has on record for
    the pane; after a shutdown none is open. *)
Theorem controllers_are_owned ops answers clock news s w :
  foldl (step order) (start answers clock news) ops = (s, w) ->
  (forall id c, w_open w !! id = Some c -> exists p, panes s !! c_pane c = Some p /\ controller p = Some id /\ c_size c = Some (applied_columns p, applied_rows p)) /\
  (closed s = true -> w_open w = ∅).
Proof.
  intros E. destruct (reached_inv _ _ _ _ _ _ E) as [[(H1 & H2 & _) _] Hc]. split.
  - intros id c Hid. destruct (H2 id c Hid) as (p & Hp & Hcp). exists p. split; [done|]. split; [done|]. pose proof (H1 _ _ _ Hp Hcp) as Ho. rewrite Hid in Ho. by injection Ho as ->.
  - intros Hcl. apply map_empty. intros id. apply eq_None_not_Some. intros [c Hid]. destruct (H2 id c Hid) as (p & Hp & _). by rewrite (Hc Hcl), lookup_empty in Hp.
Qed.

(** C28 — A granted size is the smallest anyone asked for.  When a lease is
    granted, the pane has an open controller that confirmed exactly the size
    answered; the leases of the pane are those of the other clients that have not
    expired, and this one; the width is the smallest among them, and the height
    is at most any they ask for. *)
Theorem granted_size_is_minimum ops answers clock news s w probe client i columns rows now c r s' w' :
  foldl (step order) (start answers clock news) ops = (s, w) -> acquire probe client i columns rows now s w = (Ok (c, r), s', w') ->
  exists p id, panes s' !! i = Some p /\ controller p = Some id /\ w_open w' !! id = Some (mkController i (Some (c, r))) /\
    leases p = <[client := mkLease columns rows (now + LEASE_TTL)]> (remaining s i now) /\
    (exists o x, leases p !! o = Some x /\ lease_columns x = c) /\ (forall o x, leases p !! o = Some x -> c <= lease_columns x /\ (0 < lease_rows x -> r <= lease_rows x)).
Proof.
  intros E Ha. destruct (reached_inv _ _ _ _ _ _ E) as [Hg _]. pose proof (acquire_spec probe client i columns rows now s w Hg) as Hs. rewrite Ha in Hs. destruct Hs as ([(H1 & _) Hk] & _ & _ & (_ & _ & p & Hp & Hl & [[id Hid] Hw] & Hap) & _).
  exists p, id. do 2 (split; [done|]). split; [rewrite (H1 _ _ _ Hp Hid); unfold exactly; by rewrite Hap|]. split; [done|]. pose proof (po_leases p (Hk i p Hp)) as Hok.
  assert (Hne : leases p <> ∅) by (rewrite Hl; apply insert_non_empty). destruct (pane_minimum_columns_spec _ Hok) as (_ & M2 & M3). rewrite Hap in Hw. injection Hw as -> ->. split; [by apply M2|].
  intros o x Hx. split; [by eapply M3|]. intros Hr. destruct (pane_minimum_rows_spec _ Hok) as (_ & _ & M4). specialize (M4 o x Hx Hr). unfold target_rows. case_decide; lia.
Qed.

(** A refused lease costs nobody a lease.  When a lease is refused, at any
    stage and for any reason, every pane keeps its leases, except that those of
    the pane in question that had expired may be dropped, and every controller
    open afterwards was open before at the same size. *)
Theorem refused_lease_keeps_leases ops answers clock news s w probe client i columns rows now e s' w' :
  foldl (step order) (start answers clock news) ops = (s, w) -> acquire probe client i columns rows now s w = (Err e, s', w') ->
  (forall q, default ∅ (leases <$> panes s' !! q) = default ∅ (leases <$> panes s !! q) \/ (q = i /\ default ∅ (leases <$> panes s' !! q) = remaining s i now)) /\
  w_open w' ⊆ w_open w.
Proof.
  intros E Ha. destruct (reached_inv _ _ _ _ _ _ E) as [Hg _]. pose proof (acquire_spec probe client i columns rows now s w Hg) as Hs. rewrite Ha in Hs. destruct Hs as ([(W1 & H2 & _) _] & _ & F & Hi & _). destruct Hg as [(G1 & _) _]. split.
  - intros q. destruct (decide (q = i)) as [->|Hne]; [|left; by rewrite F]. destruct Hi as [->|(p' & -> & El & _)]; [by left|]. right. done.
  - apply map_subseteq_spec. intros id c Hid. destruct (H2 id c Hid) as (p & Hp & Hcp). pose proof (W1 _ _ _ Hp Hcp) as Ho. assert (Ec : c = exactly (c_pane c) p) by congruence. rewrite Ec. clear Ec Hid Ho. destruct c as [q sz]. cbn [c_pane] in *. destruct (decide (q = i)) as [->|Hne].
    + destruct Hi as [Heq|(p' & Hp' & _ & Hs)]; [apply G1; congruence|]. rewrite Hp in Hp'. injection Hp' as <-. destruct Hs as [?|(p0 & Hp0 & Hc0 & Hap)]; [congruence|]. unfold exactly. rewrite Hap. apply G1; congruence.
    + rewrite F in Hp by done. by apply G1.
Qed.

(** C29 — Abandoned leases end, and the others hold.  A sweep leaves exactly the
    panes with a lease that has not expired, with exactly these leases; no
    controller stays open for another pane, whatever Herdr answers and whichever
    controllers are dead.  If Herdr answers and no controller dies while the sweep
    runs, with heights a terminal can have, the sweep succeeds and each pane that
    is left has a live controller, open at the size its leases ask for, whichever
    controllers had died or been given up before the sweep. *)
Theorem sweep_settles ops answers clock news s w now r s' w' :
  foldl (step order) (start answers clock news) ops = (s, w) -> closed s = false -> sweep_expired order now s w = (r, s', w') ->
  (forall q, (leases <$> panes s' !! q) = if decide (remaining s q now = ∅) then None else Some (remaining s q now)) /\
  (forall id c, w_open w' !! id = Some c -> remaining s (c_pane c) now <> ∅) /\
  (forall dead, ready (2 * length (order (panes s))) dead w -> low s ->
   r = Ok tt /\ forall q p, panes s' !! q = Some p -> exists id, controller p = Some id /\ id ∉ dead /\ w_open w' !! id = Some (mkController q (Some (wanted p)))).
Proof.
  intros E Hc Hsw. destruct (reached_inv _ _ _ _ _ _ E) as [Hg _]. unfold sweep_expired in Hsw. rewrite Hc in Hsw. pose proof (sweep_pass order order_keys now s w Hg) as Hs. rewrite Hsw in Hs. destruct Hs as ([(G1 & G2 & _) _] & [_ Hp] & Hset).
  assert (H1 : forall q, (leases <$> panes s' !! q) = if decide (remaining s q now = ∅) then None else Some (remaining s q now)).
  { intros q. specialize (Hp q). unfold passed in Hp. unfold remaining. destruct (panes s !! q) as [p|]; [|by rewrite Hp]. case_decide; [by rewrite Hp|]. destruct Hp as (p' & -> & El). cbn. by rewrite El. }
  split; [done|]. split.
  - intros id c Hid Hr. destruct (G2 id c Hid) as (p & Hpp & _). specialize (H1 (c_pane c)). rewrite Hpp in H1. by rewrite decide_True in H1.
  - intros dead Hready Hlow. assert (Hok : r = Ok tt /\ forall q p, panes s' !! q = Some p -> alive dead p).
    { unfold pass in Hsw. pose proof (sweep_ready dead now (order (panes s)) 0 s w Hg Hlow) as He. rewrite Nat.add_0_r in He. specialize (He Hready).
      destruct (foldl (visit (sweep_pane now)) ([], s, w) (order (panes s))) as [[e2 s2] w2]. destruct He as [-> Ha]. injection Hsw as <- <- _. split; [done|]. intros q p Hq. apply (Ha q); [|done].
      apply order_keys. specialize (Hp q). unfold passed in Hp. destruct (panes s !! q); [by eexists|congruence]. }
    destruct Hok as [Hok Hal]. split; [done|]. intros q p Hq. destruct (Hset Hok q p Hq) as [_ Hap]. destruct (Hal q p Hq) as (id & Hid & Hd). exists id. split; [done|]. split; [done|]. rewrite (G1 _ _ _ Hq Hid). unfold exactly. by rewrite Hap.
Qed.
End Claims.

(** A terminal is looked for below [/dev] only. *)
Lemma tty_below_dev output tty : tty_path output = Ok tty -> exists rest, tty = DEV ++ rest /\ rest <> [] /\ as_bytes ".." ∉ path_parts rest [].
Proof. unfold tty_path. destruct (output_fields output) as [|f [|? ?]]; try discriminate. repeat case_decide; try discriminate. intros [= <-]. eexists. split; [done|]. naive_solver. Qed.

(** ** Runs *)

Definition keys_of (m : gmap string PaneState) : list string := (map_to_list m).*1.
Lemma keys_of_spec m q : q ∈ keys_of m <-> is_Some (m !! q).
Proof. unfold keys_of. rewrite list_elem_of_fmap. split; [intros ([k x] & -> & H%elem_of_map_to_list); by eexists|]. intros [x Hx]. exists (q, x). split; [done|]. by apply elem_of_map_to_list. Qed.

Definition demo_probe : Probe := mkProbe (Some (mkInfo "p" 7 [3; 7])) (fun _ => Some (as_bytes "pts/4")) (fun _ => Some (as_bytes "50 200")).
(** Two clients lease a pane; a third one goes while its resize is awaited. *)
Definition demo_ops : list Op := [OpAcquire demo_probe "a" "p" 100 0 1000; OpAcquire demo_probe "b" "p" 80 30 2000].
Definition third : Op := OpAcquire demo_probe "c" "p" 60 40 3000.
Definition calm : list Answer := replicate 30 Yes.
Definition leaving : list Answer := replicate 11 Yes ++ [Gone] ++ replicate 8 Yes.
(** The first controller dies after the second lease. *)
Definition dying : list (gset nat) := replicate 4 ∅ ++ [{[0%nat]}].
#[local] Notation demo_end answers ops := (foldl (step keys_of) (start answers [1; 2; 3; 4; 5; 6] []) ops).
#[local] Notation demo_acquire answers := (acquire demo_probe "c" "p" 60 40 3000 (demo_end answers demo_ops).1 (demo_end answers demo_ops).2).
#[local] Notation third_sweep := (sweep_expired keys_of 121500 (demo_end leaving (demo_ops ++ [third])).1 (demo_end leaving (demo_ops ++ [third])).2).
#[local] Notation dead_end := (foldl (step keys_of) (start calm [1; 2; 3; 4; 5; 6] dying) demo_ops).
#[local] Notation demo_sweep := (sweep_expired keys_of 3000 dead_end.1 dead_end.2).

Lemma controllers_are_owned_witness :
  (forall id c, w_open (demo_end calm demo_ops).2 !! id = Some c -> exists p, panes (demo_end calm demo_ops).1 !! c_pane c = Some p /\ controller p = Some id /\ c_size c = Some (applied_columns p, applied_rows p)) /\
  (closed (demo_end calm demo_ops).1 = true -> w_open (demo_end calm demo_ops).2 = ∅).
Proof. apply (controllers_are_owned keys_of keys_of_spec demo_ops calm [1; 2; 3; 4; 5; 6] [] (demo_end calm demo_ops).1 (demo_end calm demo_ops).2). apply surjective_pairing. Defined.

Lemma granted_size_is_minimum_witness :
  exists p id, panes (demo_acquire calm).1.2 !! "p"%string = Some p /\ controller p = Some id /\ w_open (demo_acquire calm).2 !! id = Some (mkController "p" (Some (60, 30))) /\
    leases p = <["c"%string := mkLease 60 40 (3000 + LEASE_TTL)]> (remaining (demo_end calm demo_ops).1 "p" 3000) /\
    (exists o x, leases p !! o = Some x /\ lease_columns x = 60) /\ (forall o x, leases p !! o = Some x -> 60 <= lease_columns x /\ (0 < lease_rows x -> 30 <= lease_rows x)).
Proof.
  apply (granted_size_is_minimum keys_of keys_of_spec demo_ops calm [1; 2; 3; 4; 5; 6] [] (demo_end calm demo_ops).1 (demo_end calm demo_ops).2 demo_probe "c" "p" 60 40 3000 60 30 (demo_acquire calm).1.2 (demo_acquire calm).2).
  - apply surjective_pairing.
  - vm_compute. reflexivity.
Defined.

Lemma refused_lease_keeps_leases_witness :
  (forall q, default ∅ (leases <$> panes (demo_acquire leaving).1.2 !! q) = default ∅ (leases <$> panes (demo_end leaving demo_ops).1 !! q) \/
     (q = "p"%string /\ default ∅ (leases <$> panes (demo_acquire leaving).1.2 !! q) = remaining (demo_end leaving demo_ops).1 "p" 3000)) /\
  w_open (demo_acquire leaving).2 ⊆ w_open (demo_end leaving demo_ops).2.
Proof.
  apply (refused_lease_keeps_leases keys_of keys_of_spec demo_ops leaving [1; 2; 3; 4; 5; 6] [] (demo_end leaving demo_ops).1 (demo_end leaving demo_ops).2 demo_probe "c" "p" 60 40 3000 ERR_OWNER_GONE (demo_acquire leaving).1.2 (demo_acquire leaving).2).
  - apply surjective_pairing.
  - vm_compute. reflexivity.
Defined.

(** The controller of the pane has died, which the sweep finds out. *)
Lemma sweep_settles_witness : demo_sweep.1.1 = Ok tt /\
  forall q p, panes demo_sweep.1.2 !! q = Some p -> exists id, controller p = Some id /\ id ∉ ({[0%nat]} : gset nat) /\ w_open demo_sweep.2 !! id = Some (mkController q (Some (wanted p))).
Proof.
  apply (sweep_settles keys_of keys_of_spec demo_ops calm [1; 2; 3; 4; 5; 6] dying dead_end.1 dead_end.2 3000 demo_sweep.1.1 demo_sweep.1.2 demo_sweep.2).
  - apply surjective_pairing.
  - vm_compute. reflexivity.
  - destruct demo_sweep as [[r s'] w']. reflexivity.
  - split; [exists (replicate 19 Yes); vm_compute; reflexivity|]. 
    split; [assert (E : w_news dead_end.2 = [{[0%nat]}]) by (vm_compute; reflexivity); unfold steady; rewrite E; by repeat constructor|].
    assert (E : w_next dead_end.2 = 1%nat) by (vm_compute; reflexivity). intros id Hid. rewrite E in Hid. rewrite elem_of_singleton. lia.
  - apply (bool_decide_unpack _). vm_compute. exact I.
Defined.
Example dead_controller_replaced : w_open dead_end.2 = {[0%nat := mkController "p" (Some (80, 30))]} /\ w_open demo_sweep.2 = {[1%nat := mkController "p" (Some (80, 30))]}.
Proof. vm_compute. done. Qed.
(** The first lease has expired, the third was refused: the second one's size is
    applied again. *)
Example swept_size : w_open (demo_end leaving (demo_ops ++ [third])).2 = ∅ /\ w_open third_sweep.2 = {[1%nat := mkController "p" (Some (80, 30))]}.
Proof. vm_compute. done. Qed.

End PaneLeaseClaims.
