(* ===== verification/Router.v ===== *)
(** * Inventory broadcasts and the coordinator's router

    Module [Inventory]: [lerdr-coord/src/snapshot.rs], the publishing of
    [actor.rs] and the topology forwarder of [router.rs]: what a client is told
    of panes, workspaces, the Herdr server and capabilities.  Module [Router]:
    the session state and the routing table of [router.rs]. *)

From S2P Require Import Prelude Utf8 Json Inbound Protocol Attention Topology Annotations Outcome SessionActor ConvoSubs.

Module Inventory.
Import Json Protocol Topology.

(** ** What is committed *)

Record HerdrFeatureStatus := mkFeature { hf_state : string; hf_reason : string; hf_generation : Z }.
Record HerdrStatus := mkHerdr {
  hs_installed_client_version : string;
  hs_server_version : string;
  hs_server_protocol : Z;
  hs_server_protocol_known : bool;
  hs_endpoint_protocol_generation : option Z;
  hs_surface_interest : option bool;
  hs_health_check : option bool;
  hs_generation : Z;
  hs_features : option (gmap string HerdrFeatureStatus);       (** [None] is null *)
}.
Record AgentProfile := mkProfile { ap_id : string; ap_label : string }.
#[export] Instance AgentProfile_eq_dec : EqDecision AgentProfile.
Proof. solve_decision. Defined.
#[export] Instance HerdrFeatureStatus_eq_dec : EqDecision HerdrFeatureStatus.
Proof. solve_decision. Defined.
#[export] Instance HerdrStatus_eq_dec : EqDecision HerdrStatus.
Proof. solve_decision. Defined.

(** The fields of the actor's [Topology]: those of the model, the rows of its
    workspaces, the version and protocol of the snapshot, the capability
    evidence, the facts about speech and the launch profiles.  The attention
    ledger of [st_topology] is the one of the commit; the ledger itself is shared
    with every published clone and goes on changing, so whoever reads the rows
    later reads them against the ledger as it is then. *)
Record State := mkCommitted {
  st_topology : Topology;
  st_workspaces : list json;
  st_version : string;
  st_protocol : Z;
  st_herdr_status : HerdrStatus;
  st_languages : list string;
  st_management_supported : bool;
  st_agent_profiles : option (list AgentProfile);     (** the rows of the picker *)
}.

(** ** Methods behind a capability *)

Definition FOCUS_METHODS : list string := ["pane.focus"; "tab.focus"; "workspace.focus"; "agent.focus"]%string.
Definition PANE_SEARCH_METHODS : list string := ["pane.copy_search"; "pane.selection.read"; "pane.copy_motion"]%string.
Definition PANE_LINK_METHODS : list string := ["pane.link.resolve"; "pane.link.activate"]%string.
Definition LAYOUT_METHODS : list string := ["layout.export"; "layout.apply"]%string.
Definition PANE_READ : string := "pane.read".
Definition TAB_MOVE : string := "tab.move".
Definition WORKSPACE_MOVE_BLOCK : string := "workspace.move_block".

Definition family_refuted (s : State) (methods : list string) : bool :=
  forallb (fun m => match hs_features (st_herdr_status s) ≫= (fun f => f !! m) with Some st => bool_decide (hf_state st = "unsupported"%string) | None => false end) methods.
Definition refuted (s : State) : list (string * bool) :=
  [("focus", family_refuted s FOCUS_METHODS); ("pane_search", family_refuted s PANE_SEARCH_METHODS); ("pane_links", family_refuted s PANE_LINK_METHODS); ("layout", family_refuted s LAYOUT_METHODS);
   ("pane_realtime_delta", family_refuted s [PANE_READ]); ("tab_reorder", family_refuted s [TAB_MOVE]); ("workspace_reorder_block", family_refuted s [WORKSPACE_MOVE_BLOCK]);
   ("speech_synthesis", bool_decide (st_languages s = [])); ("speech_voice_management", negb (st_management_supported s))]%string.
Definition effective_capabilities (s : State) : list string := filter (fun cap => existsb (fun x => bool_decide (x.1 = cap) && x.2) (refuted s) = false) CAPABILITIES.

(** ** Frames *)

Record InventoryStatus := mkStatus { is_state : string; is_error_code : string; is_message : string; is_last_attempt_at : Z; is_last_success_at : Z; is_stale : bool }.
Definition inventory_status (s : State) : InventoryStatus :=
  let t := st_topology s in
  let state := if inventory_ready t then "ready"%string else if decide (inventory_error_code t <> ""%string) then "error"%string else "starting"%string in
  mkStatus state (inventory_error_code t) (inventory_message t) (Z.quot (attempted_at t) 1000) (Z.quot (accepted_at t) 1000) (negb (bool_decide (state = "ready"%string)) && bool_decide (0 < accepted_at t)).

Definition herdr_status (s : State) : HerdrStatus :=
  let h := st_herdr_status s in
  mkHerdr (hs_installed_client_version h) (st_version s) (st_protocol s) (bool_decide (0 < st_protocol s) || hs_server_protocol_known h) (hs_endpoint_protocol_generation h)
    (hs_surface_interest h) (hs_health_check h) (hs_generation h) (Some (default ∅ (hs_features h))).

Inductive Frame :=
| FPushConfig (capabilities : list string) (herdr : HerdrStatus) (speech_languages : option (list string)) (agent_profiles : option (list AgentProfile))
| FHerdrStatus (status : HerdrStatus)
| FWorkspaces (rows : list json)
| FAgents (rows : list AgentState)
| FInventoryStatus (status : InventoryStatus)
| FCapsUpdate (capabilities : list string).

Definition row_le (a b : AgentState) : Prop := String.le (as_pane_id a) (as_pane_id b).
#[export] Instance row_le_dec : RelDecision row_le.
Proof. intros a b. unfold row_le, String.le. apply _. Defined.

(** [serde_json::to_vec] of what is broadcast. *)
Class InventoryJson := {
  agents_bytes : list AgentState -> bytes;
  workspaces_bytes : list json -> bytes;
  herdr_bytes : HerdrStatus -> bytes;
  capabilities_bytes : list string -> bytes;
}.

Section Inventory.
Context (supported : string -> bool) `{IJ : InventoryJson}.

(** [Topology::agents], read while the shared ledger is [live]. *)
Definition agent_rows (live : Attention.AttentionLedger) (s : State) : list AgentState :=
  merge_sort row_le (agent_state supported (set_ledger (st_topology s) live) <$> agents (snapshot (st_topology s))).
(** The ledger at the commit, which the actor reads when it publishes. *)
Definition own_ledger (s : State) : Attention.AttentionLedger := attention (st_topology s).
Definition without_revision (a : AgentState) : AgentState :=
  mkState (as_pane_id a) (as_terminal_id a) (as_server_session_id a) (as_generation a) (as_agent_session_id a) (as_tab_id a) (as_tab a) (as_workspace_id a) (as_agent a) (as_name a) (as_status a)
    (as_focused a) (as_cwd a) (as_project a) (as_session a) (as_session_name a) (as_times a) (as_activity_seq a) (as_blocked a) (as_history_available a) 0.

Definition compose_snapshot (live : Attention.AttentionLedger) (s : State) : list Frame :=
  [FPushConfig (effective_capabilities s) (herdr_status s) (if decide (st_languages s = []) then None else Some (st_languages s)) (st_agent_profiles s); FHerdrStatus (herdr_status s); FWorkspaces (st_workspaces s);
   FAgents (agent_rows live s); FInventoryStatus (inventory_status s)].
Definition committed_inventory (live : Attention.AttentionLedger) (s : State) : list Frame := [FInventoryStatus (inventory_status s); FAgents (agent_rows live s); FWorkspaces (st_workspaces s)].
Definition full_inventory (live : Attention.AttentionLedger) (s : State) : list Frame := committed_inventory live s ++ [FHerdrStatus (herdr_status s); FCapsUpdate (effective_capabilities s)].

(** ** Publishing *)

Record PublishedView := mkPublished { pv_agents : bytes; pv_workspaces : bytes; pv_inventory : option (string * string * string * bool); pv_herdr_status : bytes; pv_capabilities : bytes }.
Definition empty_view : PublishedView := mkPublished [] [] None [] [].
Definition inventory_key (st : InventoryStatus) : string * string * string * bool := (is_state st, is_error_code st, is_message st, is_stale st).

Definition broadcast_diff (s : State) (view : PublishedView) : PublishedView * list Frame :=
  let status := inventory_status s in
  let rows := without_revision <$> agent_rows (own_ledger s) s in
  let caps := effective_capabilities s in
  let status_changed := negb (bool_decide (pv_inventory view = Some (inventory_key status))) in
  let ready_recovery := bool_decide (is_state status = "ready"%string) && negb (bool_decide ((fun k => k.1.1.1) <$> pv_inventory view = Some "ready"%string)) in
  let send_agents := negb (bool_decide (pv_agents view = agents_bytes rows)) || ready_recovery in
  let send_workspaces := negb (bool_decide (pv_workspaces view = workspaces_bytes (st_workspaces s))) || ready_recovery in
  let send_herdr := negb (bool_decide (pv_herdr_status view = herdr_bytes (herdr_status s))) in
  let send_caps := negb (bool_decide (pv_capabilities view = [])) && negb (bool_decide (pv_capabilities view = capabilities_bytes caps)) in
  (mkPublished (if send_agents then agents_bytes rows else pv_agents view) (if send_workspaces then workspaces_bytes (st_workspaces s) else pv_workspaces view) (Some (inventory_key status))
     (if send_herdr then herdr_bytes (herdr_status s) else pv_herdr_status view) (capabilities_bytes caps),
   (if status_changed then [FInventoryStatus status] else []) ++ (if send_agents then [FAgents rows] else []) ++ (if send_workspaces then [FWorkspaces (st_workspaces s)] else []) ++
   (if send_herdr then [FHerdrStatus (herdr_status s)] else []) ++ (if send_caps then [FCapsUpdate caps] else [])).

(** A published projection and its batch. *)
Record Published := mkPub { pb_state : State; pb_frames : list Frame }.
Definition publish (s : State) (view : PublishedView) : PublishedView * Published := let '(view, frames) := broadcast_diff s view in (view, mkPub s frames).

(** The states an actor publishes, in order. *)
Fixpoint publish_all (view : PublishedView) (l : list State) : list Published := match l with [] => [] | s :: l => let '(view, p) := publish s view in p :: publish_all view l end.

(** ** The actor's changes *)

Inductive Change :=
| Committed (o : op) (workspaces : list json) (version : string) (protocol : Z)      (** the rest of a snapshot, for [OpAccept] *)
| SetHerdrStatus (h : HerdrStatus)
| SetLocalSpeech (languages : list string) (management : bool)
| SetAgentProfiles (profiles : list AgentProfile).

Definition bumped (t : Topology) : Topology :=
  mkTopology (snapshot t) (revision t + 1) (stale t) (generations t) (agent_times t) (attention t) (accepted_at t) (attempted_at t) (inventory_ready t) (inventory_error_code t) (inventory_message t).
(** The state after a change, and whether it is published. *)
Definition change (h : Attention.Classification -> string) (c : Change) (s : State) : State * bool :=
  let t := st_topology s in
  match c with
  | Committed o workspaces version protocol =>
      let t' := run_op h t o in
      match o with
      | OpAccept _ _ _ _ _ _ => (mkCommitted t' workspaces version protocol (st_herdr_status s) (st_languages s) (st_management_supported s) (st_agent_profiles s), true)
      | OpStatus e now mint => (mkCommitted t' (st_workspaces s) (st_version s) (st_protocol s) (st_herdr_status s) (st_languages s) (st_management_supported s) (st_agent_profiles s), bool_decide (is_Some (commit_agent_status t e now mint)))
      | OpBump _ _ => (mkCommitted t' (st_workspaces s) (st_version s) (st_protocol s) (st_herdr_status s) (st_languages s) (st_management_supported s) (st_agent_profiles s), true)
      | OpStale => (mkCommitted t' (st_workspaces s) (st_version s) (st_protocol s) (st_herdr_status s) (st_languages s) (st_management_supported s) (st_agent_profiles s), (mark_stale t).2)
      | OpInventoryFailure now => (mkCommitted t' (st_workspaces s) (st_version s) (st_protocol s) (st_herdr_status s) (st_languages s) (st_management_supported s) (st_agent_profiles s), (mark_inventory_failure t now).2)
      | _ => (mkCommitted t' (st_workspaces s) (st_version s) (st_protocol s) (st_herdr_status s) (st_languages s) (st_management_supported s) (st_agent_profiles s), false)
      end
  | SetHerdrStatus st =>
      if decide (st_herdr_status s = st) then (s, false)
      else (mkCommitted (bumped t) (st_workspaces s) (st_version s) (st_protocol s) st (st_languages s) (st_management_supported s) (st_agent_profiles s), true)
  | SetLocalSpeech languages management =>
      if decide (st_languages s = languages /\ st_management_supported s = management) then (s, false)
      else (mkCommitted (bumped t) (st_workspaces s) (st_version s) (st_protocol s) (st_herdr_status s) languages management (st_agent_profiles s), true)
  | SetAgentProfiles profiles =>
      if decide (st_agent_profiles s = Some profiles) then (s, false)
      else (mkCommitted (bumped t) (st_workspaces s) (st_version s) (st_protocol s) (st_herdr_status s) (st_languages s) (st_management_supported s) (Some profiles), true)
  end.

(** ** The forwarder of a client *)

Record Forwarder := mkForwarder { fw_sent : option Z; fw_gone : bool }.
Definition new_forwarder : Forwarder := mkForwarder None false.

Definition wake_frames (live : Attention.AttentionLedger) (f : Forwarder) (p : Published) : list Frame :=
  match fw_sent f with
  | Some last => if decide (last + 1 < revision (st_topology (pb_state p))) then full_inventory live (pb_state p) ++ pb_frames p else pb_frames p
  | None => pb_frames p
  end.
(** One pass of the loop: [live] is the shared ledger, [room] how many frames
    the client's queue takes, [None] that the client has no queue. *)
Definition wake (live : Attention.AttentionLedger) (p : Published) (room : option nat) (f : Forwarder) : Forwarder * list Frame :=
  match room with
  | None => (f, [])
  | Some n =>
      let frames := wake_frames live f p in
      if decide (n < length frames)%nat then (mkForwarder (fw_sent f) true, take n frames)
      else (mkForwarder (Some (revision (st_topology (pb_state p)))) (fw_gone f), frames)
  end.
End Inventory.

End Inventory.

Module InventoryClaims.
Import Json Protocol Topology Inventory.

(** ** Sorting and projecting *)

Section Sort.
Context {A B : Type} (R : relation A) `{!RelDecision R} (R' : relation B) `{!RelDecision R'} (f : A -> B) (HR : forall a b, R' (f a) (f b) <-> R a b).

#[local] Notation stack_map := (fmap (M := list) (fmap (M := option) (fmap (M := list) f))).

Lemma list_merge_fmap l1 l2 : f <$> list_merge R l1 l2 = list_merge R' (f <$> l1) (f <$> l2).
Proof.
  revert l2. induction l1 as [|x l1 IH1]; intros l2; [by destruct l2|]. induction l2 as [|y l2 IH2]; [done|]. cbn [fmap list_fmap].
  change (f <$> (if decide (R x y) then x :: list_merge R l1 (y :: l2) else y :: list_merge R (x :: l1) l2) =
    (if decide (R' (f x) (f y)) then f x :: list_merge R' (f <$> l1) (f <$> y :: l2) else f y :: list_merge R' (f <$> x :: l1) (f <$> l2))).
  destruct (decide (R x y)) as [H|H].
  - rewrite decide_True by (by apply HR). cbn [fmap list_fmap]. f_equal. apply IH1.
  - rewrite decide_False by (by rewrite HR). cbn [fmap list_fmap]. f_equal. exact IH2.
Qed.
Lemma merge_stack_fmap st l : stack_map (merge_list_to_stack R st l) = merge_list_to_stack R' (stack_map st) (f <$> l).
Proof.
  revert l. induction st as [|[l'|] st IH]; intros l; [done| |done]. cbn [merge_list_to_stack fmap list_fmap option_fmap option_map]. f_equal. rewrite IH. by rewrite list_merge_fmap.
Qed.
Lemma merge_stack_all_fmap st : f <$> merge_stack R st = merge_stack R' (stack_map st).
Proof. induction st as [|[l|] st IH]; [done| |exact IH]. cbn [merge_stack fmap list_fmap option_fmap option_map]. by rewrite list_merge_fmap, IH. Qed.
Lemma merge_sort_fmap l : f <$> merge_sort R l = merge_sort R' (f <$> l).
Proof.
  unfold merge_sort. change (@nil (option (list B))) with (stack_map (@nil (option (list A)))). generalize (@nil (option (list A))). induction l as [|x l IH]; intros st; cbn [merge_sort_aux fmap list_fmap].
  - apply merge_stack_all_fmap.
  - rewrite IH. f_equal. apply (merge_stack_fmap st [x]).
Qed.
End Sort.

(** The part of a row that does not come from the ledger: all but the session
    title, the time it was last seen, the blocked details and the revision; of
    the status, not whether a finished agent is done or idle. *)
Definition plain_status (status : string) : string := if Attention.is_done_status status || bool_decide (status = "idle"%string) then "idle" else status.
Definition plain (a : AgentState) : AgentState :=
  mkState (as_pane_id a) (as_terminal_id a) (as_server_session_id a) (as_generation a) (as_agent_session_id a) (as_tab_id a) (as_tab a) (as_workspace_id a) (as_agent a) (as_name a)
    (plain_status (as_status a)) (as_focused a) (as_cwd a) (as_project a) "" "" ((as_times a).1, 0) (as_activity_seq a) Attention.no_details (as_history_available a) 0.

Lemma plain_displayed c status : plain_status (Attention.displayed_status c status) = plain_status status.
Proof.
  unfold Attention.displayed_status. destruct (Attention.is_done_status status) eqn:E; cbn [andb].
  - destruct (Attention.ack_done c); [unfold plain_status at 2; by rewrite E|]. case_bool_decide as Ei; cbn [andb]; [|done]. subst. by vm_compute in E.
  - case_bool_decide as Ei; cbn [andb]; [|done]. subst. by destruct (Attention.unseen_done c).
Qed.
Lemma plain_state supported t l l' a : plain (agent_state supported (set_ledger t l) a) = plain (agent_state supported (set_ledger t l') a).
Proof. unfold plain, agent_state. cbv zeta. cbn [as_status as_pane_id as_times]. by rewrite !plain_displayed. Qed.

Lemma plain_rows supported l l' s : plain <$> agent_rows supported l s = plain <$> agent_rows supported l' s.
Proof.
  unfold agent_rows. rewrite !(merge_sort_fmap row_le row_le plain) by done. f_equal. rewrite <- !list_fmap_compose. apply list_fmap_ext. intros i a _. apply plain_state.
Qed.
Lemma plain_without_revision (l : list AgentState) : plain <$> (without_revision <$> l) = plain <$> l.
Proof. rewrite <- list_fmap_compose. apply list_fmap_ext. by intros i []. Qed.

(** What the forwarder relies on of the serialisation: rows with the same text
    (their revisions apart) are the same rows as far as [plain] goes, and a list
    of capabilities has a text. *)
Class InventoryJsonLaws `{IJ : InventoryJson} : Prop := {
  rows_told (l l' : list AgentState) : agents_bytes (without_revision <$> l) = agents_bytes (without_revision <$> l') -> plain <$> l = plain <$> l';
  capabilities_told caps : capabilities_bytes caps <> [];
}.

(** ** A client *)

(** What a client has been told: the rows of the panes, and the serialisation of
    the other legs. *)
Record Client := mkClient { cl_agents : list AgentState; cl_workspaces : bytes; cl_inventory : option (string * string * string * bool); cl_herdr : bytes; cl_capabilities : bytes }.

Section Claims.
Context (supported : string -> bool) `{IJ : InventoryJson} `{IL : !InventoryJsonLaws}.

Definition apply_frame (c : Client) (f : Frame) : Client :=
  match f with
  | FPushConfig caps herdr _ _ => mkClient (cl_agents c) (cl_workspaces c) (cl_inventory c) (herdr_bytes herdr) (capabilities_bytes caps)
  | FHerdrStatus herdr => mkClient (cl_agents c) (cl_workspaces c) (cl_inventory c) (herdr_bytes herdr) (cl_capabilities c)
  | FWorkspaces rows => mkClient (cl_agents c) (workspaces_bytes rows) (cl_inventory c) (cl_herdr c) (cl_capabilities c)
  | FAgents rows => mkClient rows (cl_workspaces c) (cl_inventory c) (cl_herdr c) (cl_capabilities c)
  | FInventoryStatus st => mkClient (cl_agents c) (cl_workspaces c) (Some (inventory_key st)) (cl_herdr c) (cl_capabilities c)
  | FCapsUpdate caps => mkClient (cl_agents c) (cl_workspaces c) (cl_inventory c) (cl_herdr c) (capabilities_bytes caps)
  end.
Definition apply_frames (c : Client) (l : list Frame) : Client := foldl apply_frame c l.

Definition committed_rows (s : State) : list AgentState := agent_rows supported (own_ledger s) s.
(** The legs other than the panes are those of a committed state, … *)
Definition legs_shown (c : Client) (s : State) : Prop :=
  cl_workspaces c = workspaces_bytes (st_workspaces s) /\ cl_inventory c = Some (inventory_key (inventory_status s)) /\ cl_herdr c = herdr_bytes (herdr_status s) /\
  cl_capabilities c = capabilities_bytes (effective_capabilities s).
(** … the panes are, up to what the ledger adds to their rows, … *)
Definition panes_shown (c : Client) (s : State) : Prop := plain <$> cl_agents c = plain <$> committed_rows s.
(** … and the text of the rows is, up to their revisions. *)
Definition rows_shown (c : Client) (s : State) : Prop := agents_bytes (without_revision <$> cl_agents c) = agents_bytes (without_revision <$> committed_rows s).
(** [exact]: every row so far was read against the ledger of its commit. *)
Definition shown (exact : Prop) (c : Client) (s : State) : Prop := legs_shown c s /\ panes_shown c s /\ (exact -> rows_shown c s).

Definition view_of (s : State) : PublishedView :=
  mkPublished (agents_bytes (without_revision <$> committed_rows s)) (workspaces_bytes (st_workspaces s)) (Some (inventory_key (inventory_status s))) (herdr_bytes (herdr_status s))
    (capabilities_bytes (effective_capabilities s)).

Lemma without_revision_twice (l : list AgentState) : without_revision <$> (without_revision <$> l) = without_revision <$> l.
Proof. rewrite <- list_fmap_compose. apply list_fmap_ext. by intros i []. Qed.

Lemma snapshot_shown c live s : shown (live = own_ledger s) (apply_frames c (compose_snapshot supported live s)) s.
Proof. split; [done|]. split; [apply plain_rows|]. by intros ->. Qed.
Lemma full_shown c live s : shown (live = own_ledger s) (apply_frames c (full_inventory supported live s)) s.
Proof. split; [done|]. split; [apply plain_rows|]. by intros ->. Qed.

Lemma diff_view s view : (broadcast_diff supported s view).1 = view_of s.
Proof.
  unfold broadcast_diff, view_of, committed_rows. cbv zeta. cbn [fst]. f_equal.
  - case_bool_decide as E; [|done]. rewrite E. by destruct (_ && _).
  - case_bool_decide as E; [|done]. rewrite E. by destruct (_ && _).
  - case_bool_decide as E; [|done]. by rewrite E.
Qed.

(** The rows of a batch, if it has any, are those of the commit. *)
Lemma fresh_rows (exact : Prop) s c : legs_shown c s -> cl_agents c = without_revision <$> committed_rows s -> shown exact c s.
Proof. intros Hl Hr. split; [done|]. unfold panes_shown, rows_shown. rewrite Hr, plain_without_revision, without_revision_twice. done. Qed.

(** A batch brings a client that shows the previous view to the new one. *)
Lemma diff_applies exact c s s' : shown exact c s -> shown exact (apply_frames c (broadcast_diff supported s' (view_of s)).2) s'.
Proof.
  intros ((H1 & H2 & H3 & H4) & Hp & Hr). unfold broadcast_diff. cbv zeta. cbn [snd]. set (rec := bool_decide (is_state _ = _) && _). cbn [pv_agents pv_workspaces pv_inventory pv_herdr_status pv_capabilities view_of].
  rewrite (bool_decide_false (capabilities_bytes (effective_capabilities s) = [])) by apply capabilities_told. cbn [negb andb]. fold (committed_rows s').
  unfold apply_frames. rewrite !foldl_app. destruct (bool_decide (agents_bytes _ = _)) eqn:Ea; [destruct rec|]; cbn [negb orb].
  - apply fresh_rows; [|by repeat case_bool_decide]. unfold legs_shown. repeat case_bool_decide; cbn [negb orb foldl apply_frame cl_workspaces cl_inventory cl_herdr cl_capabilities]; split_and!; congruence.
  - apply bool_decide_eq_true in Ea. split; [|split].
    + unfold legs_shown. repeat case_bool_decide; cbn [negb orb foldl apply_frame cl_workspaces cl_inventory cl_herdr cl_capabilities]; split_and!; congruence.
    + unfold panes_shown in *. rewrite (rows_told _ _ Ea) in Hp. repeat case_bool_decide; exact Hp.
    + intros Hx. specialize (Hr Hx). unfold rows_shown in *. rewrite Ea in Hr. repeat case_bool_decide; exact Hr.
  - apply fresh_rows; [|by repeat case_bool_decide; destruct rec]. unfold legs_shown.
    repeat case_bool_decide; destruct rec; cbn [negb orb foldl apply_frame cl_workspaces cl_inventory cl_herdr cl_capabilities]; split_and!; congruence.
Qed.
(** After a full push it changes nothing but the rows. *)
Lemma diff_after_full (exact : Prop) c s view : shown exact c s -> shown exact (apply_frames c (broadcast_diff supported s view).2) s.
Proof.
  assert (Hif : forall (b : bool) f c, (forall c, shown exact c s -> shown exact (apply_frame c f) s) -> shown exact c s -> shown exact (foldl apply_frame c (if b then [f] else [])) s) by (intros [] f c' Hf; [apply Hf|done]).
  intros Hs. unfold broadcast_diff. cbv zeta. cbn [snd]. fold (committed_rows s). unfold apply_frames. rewrite !foldl_app.
  repeat (apply Hif; [intros c' ((H1 & H2 & H3 & H4) & Hp & Hr); first [split; [done|split; [exact Hp|exact Hr]]|apply fresh_rows; done]|]). done.
Qed.

(** ** What is published *)

Lemma published_at l view i p : publish_all supported view l !! i = Some p ->
  exists s v, l !! i = Some s /\ pb_state p = s /\ pb_frames p = (broadcast_diff supported s v).2 /\ (i = 0%nat -> v = view) /\ (forall j s0, i = S j -> l !! j = Some s0 -> v = view_of s0).
Proof.
  revert view i. induction l as [|s l IH]; intros view i; [by rewrite lookup_nil|]. cbn [publish_all]. unfold publish. pose proof (diff_view s view) as Hv. destruct (broadcast_diff supported s view) as [v' frames] eqn:Ed. cbn [fst] in Hv.
  destruct i as [|i]; cbn [lookup list_lookup].
  - intros [= <-]. exists s, view. rewrite Ed. split_and!; [done..|]. intros j s0 Hj. discriminate.
  - intros H. destruct (IH v' i H) as (x & v & Hx & Hp & Hf & H0 & Hc). exists x, v. split_and!; [done..|]. intros j s0 [= <-] Hs0. destruct i as [|i]; [|by apply (Hc i)]. injection Hs0 as <-. by rewrite H0.
Qed.

Lemma publish_length l view : length (publish_all supported view l) = length l.
Proof. revert view. induction l as [|s l IH]; intros view; [done|]. cbn [publish_all]. unfold publish. destruct (broadcast_diff supported s view). cbn [length]. by rewrite IH. Qed.

(** The published states of a run of the actor. *)
Fixpoint commits (h : Attention.Classification -> string) (s : State) (cs : list Change) : list State :=
  match cs with [] => [] | c :: cs => let '(s', published) := change h c s in if published : bool then s' :: commits h s' cs else commits h s' cs end.

Lemma change_revision h c s : revision (st_topology (change h c s).1) = revision (st_topology s) + (if (change h c s).2 then 1 else 0).
Proof.
  destruct c as [o ws v p|hs|langs mg|ps]; unfold change.
  - destruct o; cbn [fst snd st_topology run_op].
    + unfold accept_enriched. cbv zeta. destruct (foldl (drop_pane _) _ _) as [m removed]. reflexivity.
    + destruct (commit_agent_status (st_topology s) e now mint) as [[t' out]|] eqn:E; [|rewrite bool_decide_false by (by intros []); lia]. rewrite bool_decide_true by done.
      unfold commit_agent_status in E. destruct (find_agent _ _) as [[i a]|]; [|discriminate]. cbn [mbind option_bind] in E. destruct (status_unchanged a e); [discriminate|]. cbv zeta in E.
      destruct (status_cell _ _ _ _ _ _) as [cell tr]. injection E as <- _. reflexivity.
    + reflexivity.
    + unfold mark_stale. destruct (stale _); cbn; lia.
    + unfold mark_inventory_failure. destruct (_ && _); cbn; lia.
    + cbn. lia.
    + destruct (acknowledge _ _ _) as [[t' x]|] eqn:E; [|lia]. unfold acknowledge in E. destruct (pane_of _ _); [|discriminate]. injection E as <- _. cbn. lia.
    + unfold register_finished_notification. repeat case_match; cbn; lia.
    + unfold commit_attention. repeat case_match; cbn; lia.
  - case_decide; cbn; lia.
  - case_decide; cbn; lia.
  - case_decide; cbn; lia.
Qed.
Lemma commits_above h cs s i x : commits h s cs !! i = Some x -> revision (st_topology s) + Z.of_nat i < revision (st_topology x).
Proof.
  revert s i. induction cs as [|c cs IH]; intros s i; [by intros Hi%lookup_lt_Some; cbn in Hi; lia|]. cbn [commits]. pose proof (change_revision h c s) as Hr. destruct (change h c s) as [s' []]; cbn [fst snd] in Hr.
  - destruct i as [|i]; [intros [= <-]; lia|]. intros Hi%IH. lia.
  - intros Hi%IH. lia.
Qed.
Lemma published_increase h s cs i j x y : (i < j)%nat -> (s :: commits h s cs) !! i = Some x -> (s :: commits h s cs) !! j = Some y -> revision (st_topology x) + Z.of_nat (j - i) <= revision (st_topology y).
Proof.
  revert s i j. induction cs as [|c cs IH]; intros s i j Hij.
  - intros _ Hj%lookup_lt_Some. cbn in Hj. lia.
  - cbn [commits]. pose proof (change_revision h c s) as Hr. destruct (change h c s) as [s' []] eqn:Ec; cbn [fst snd] in Hr.
    + destruct i as [|i], j as [|j]; try lia; cbn [lookup list_lookup].
      * intros [= <-]. destruct j as [|j]; [intros [= <-]; lia|]. intros Hj%commits_above. lia.
      * intros Hi Hj. pose proof (IH s' i j ltac:(lia) Hi Hj). replace (S j - S i)%nat with (j - i)%nat by lia. lia.
    + intros Hi Hj. destruct i as [|i].
      * injection Hi as <-. destruct j as [|j]; [lia|]. apply commits_above in Hj. lia.
      * destruct j as [|j]; [lia|]. exact (IH s' (S i) (S j) Hij Hi Hj).
Qed.

(** ** The forwarder *)

(** A wake of a forwarder: which published state it sees, the room of the
    client's queue, and the shared ledger then. *)
Record Wake := mkWake { wk_state : nat; wk_room : option nat; wk_ledger : Attention.AttentionLedger }.

(** After a full queue the loop has returned. *)
Definition forward1 (ps : list Published) (x : Forwarder * Client) (wk : Wake) : Forwarder * Client :=
  let '(f, c) := x in
  if fw_gone f then x
  else match ps !! wk_state wk with
       | None => x
       | Some p => let '(f', frames) := wake supported (wk_ledger wk) p (wk_room wk) f in (f', apply_frames c frames)
       end.
Definition forward_all (ps : list Published) (x : Forwarder * Client) (wks : list Wake) : Forwarder * Client := foldl (forward1 ps) x wks.

(** The index of the last wake that had a queue. *)
Definition last_seen (k : nat) (wks : list Wake) : nat := foldl (fun k wk => match wk_room wk with Some _ => wk_state wk | None => k end) k wks.

Section Run.
Context (h : Attention.Classification -> string) (s : State) (cs : list Change).
Notation states := (s :: commits h s cs).
Notation batches := (publish_all supported empty_view states).

(** The rows are read before the ledger moves on. *)
Definition read_in_time (wks : list Wake) : Prop := forall wk x, wk ∈ wks -> states !! wk_state wk = Some x -> wk_ledger wk = own_ledger x.

(** Where a forwarder stands: it sent the state at [k], which the client
    shows. *)
Definition stands (exact : Prop) (k : nat) (x : Forwarder * Client) : Prop :=
  fw_gone x.1 = false -> exists sk, states !! k = Some sk /\ fw_sent x.1 = Some (revision (st_topology sk)) /\ shown exact x.2 sk.

Lemma shown_weaken (e e' : Prop) c x : (e' -> e) -> shown e c x -> shown e' c x.
Proof. intros He (H1 & H2 & H3). split; [done|]. split; [done|]. intros He'. by apply H3, He. Qed.

Lemma forward1_stands (exact : Prop) k x wk : (k < wk_state wk)%nat -> (wk_state wk < length states)%nat -> (exact -> read_in_time [wk]) -> stands exact k x ->
  stands exact (match wk_room wk with Some _ => wk_state wk | None => k end) (forward1 batches x wk).
Proof.
  destruct x as [f c], wk as [j room live]. cbn [wk_state wk_room wk_ledger]. intros Hj Hlen Hread Hst. unfold forward1. cbn [wk_state wk_room wk_ledger]. destruct (fw_gone f) eqn:Eg; [intros Hg; cbn [fst] in Hg; congruence|].
  destruct (Hst Eg) as (sk & Hk & Hsent & Hc). cbn [fst snd] in *.
  pose proof (publish_length states empty_view) as Hlb.
  destruct (lookup_lt_is_Some_2 batches j ltac:(lia)) as [p Hp]. rewrite Hp. destruct (published_at _ _ _ _ Hp) as (sj & v & Hsj & Eps & Efr & _ & Hv).
  unfold wake. destruct room as [n|]; [|exact Hst]. case_decide as Hn; [intros Hg; discriminate Hg|]. intros _. exists sj. cbn [fst snd fw_sent]. rewrite Eps. split; [done|]. split; [done|].
  unfold wake_frames. rewrite Hsent, Eps, Efr. case_decide as Hgap.
  - unfold apply_frames. rewrite foldl_app. fold (apply_frames c (full_inventory supported live sj)). apply diff_after_full.
    eapply shown_weaken; [|apply full_shown]. intros He. apply (Hread He (mkWake j (Some n) live)); [by left|done].
  - pose proof (published_increase h s cs k j sk sj Hj Hk Hsj) as Hinc. assert (Ej : j = S k) by lia. rewrite (Hv k sk Ej Hk). by apply diff_applies.
Qed.
Lemma forward_all_stands (exact : Prop) wks k x : StronglySorted lt (k :: (wk_state <$> wks)) -> Forall (fun j => (j < length states)%nat) (wk_state <$> wks) -> (exact -> read_in_time wks) -> stands exact k x ->
  stands exact (last_seen k wks) (forward_all batches x wks).
Proof.
  revert k x. induction wks as [|wk wks IH]; intros k x Hs Hl Hread Hst; [done|]. cbn [last_seen forward_all foldl fmap list_fmap] in *. apply StronglySorted_inv in Hs as [Hs Hk]. apply Forall_cons in Hl as [Hj Hl]. apply Forall_cons in Hk as [Hkj Hk].
  apply IH; [|done|intros He w x0 Hw; apply Hread; [done|by right]|apply forward1_stands; [done..|intros He w x0 Hw; apply Hread; [done|]; apply list_elem_of_singleton in Hw as ->; by left|done]].
  apply StronglySorted_inv in Hs as [Hs Hj']. constructor; [done|]. by destruct (wk_room wk).
Qed.

End Run.
End Claims.
(** ** A run *)

(** A serialisation of the fields the run changes. *)
Definition row_fields (a : AgentState) :=
  (as_pane_id a, as_terminal_id a, as_server_session_id a, as_generation a, as_agent_session_id a, as_tab_id a, as_tab a, as_workspace_id a, as_agent a, as_name a,
   (as_status a, as_focused a, as_cwd a, as_project a, (as_times a).1, as_activity_seq a, as_history_available a)).
#[local] Instance demo_json : InventoryJson := {|
  agents_bytes rows := [91; Zpos (countable.encode (row_fields <$> rows))];
  workspaces_bytes rows := [91; Z.of_nat (length rows)];
  herdr_bytes h := 123 :: as_bytes (hs_installed_client_version h);
  capabilities_bytes caps := 91 :: concat (as_bytes <$> caps);
|}.
#[local] Instance demo_laws : InventoryJsonLaws.
Proof.
  split; [|done]. intros l l' [= E]. apply (inj countable.encode) in E. revert l' E. induction l as [|a l IH]; intros [|b l'] E; try done. cbn [fmap list_fmap] in E. injection E as E1 E2. cbn [fmap list_fmap].
  f_equal; [|by apply IH]. destruct a as [? ? ? ? ? ? ? ? ? ? ? ? ? ? ? ? [[? ?] ?]], b as [? ? ? ? ? ? ? ? ? ? ? ? ? ? ? ? [[? ?] ?]]. unfold plain. cbn in *. congruence.
Qed.
Definition herdr_of (version : string) : HerdrStatus := mkHerdr version "" 0 false None None None 0 None.
Definition demo_start : State := mkCommitted Topology.new [] "" 0 (herdr_of "1") [] false None.
Definition demo_changes : list Change := [SetHerdrStatus (herdr_of "2"); Committed (OpInventoryFailure 5000) [] "" 0; SetLocalSpeech ["en"]%string true; SetHerdrStatus (herdr_of "2"); SetHerdrStatus (herdr_of "3")].
Definition demo_hash (_ : Attention.Classification) : string := "".
Definition yes (_ : string) : bool := true.
Definition first_ledger : Attention.AttentionLedger := attention Topology.new.
#[local] Notation demo_states := (demo_start :: commits demo_hash demo_start demo_changes).
#[local] Notation demo_batches := (publish_all yes empty_view demo_states).
#[local] Notation no_client := (mkClient [] [] None [] []).
#[local] Notation demo_run wks := (forward_all yes demo_batches (new_forwarder, apply_frames no_client (compose_snapshot yes first_ledger demo_start)) wks).
Definition demo_wakes : list Wake := [mkWake 3 None first_ledger; mkWake 4 (Some 9%nat) first_ledger].


(** A forwarder that first wakes two states after the snapshot, or whose first
    wake finds no queue, has no watermark, so it sends the last batch alone: the
    client never learns of the version in between, at that wake or a later one. *)
Example late_first_wake_strands :
  cl_herdr (demo_run [mkWake 2 (Some 9%nat) first_ledger]).2 = herdr_bytes (herdr_status demo_start) /\ option_map (fun s => herdr_bytes (herdr_status s)) (demo_states !! 2%nat) = Some (123 :: as_bytes "2"%string) /\
  cl_herdr (demo_run [mkWake 2 (Some 9%nat) first_ledger; mkWake 3 (Some 9%nat) first_ledger]).2 = 123 :: as_bytes "1"%string /\
  cl_herdr (demo_run [mkWake 1 None first_ledger; mkWake 2 (Some 9%nat) first_ledger; mkWake 3 (Some 9%nat) first_ledger]).2 = 123 :: as_bytes "1"%string.
Proof. vm_compute. done. Qed.

End InventoryClaims.

Module Router.
Import Json Inbound Protocol.

(** ** The routing table *)

(** The handlers whose failures are journalled and whose writes are audited. *)
Definition SPAWNED_panes : list (string * string) :=
  [("send_text", "input::send_text"); ("send_keys", "input::send_keys"); ("send_input", "input::send_input"); ("send_secret", "input::send_secret");
   ("submit_prompt", "input::submit_prompt"); ("agent_stop", "input::agent_stop"); ("respond", "questions::respond"); ("answer_question", "questions::answer_question");
   ("clarify_question", "questions::clarify_question"); ("navigate_question", "questions::navigate_question"); ("focus_pane", "focus::focus_pane"); ("focus_tab", "focus::focus_tab");
   ("focus_workspace", "focus::focus_workspace"); ("focus_agent", "focus::focus_agent"); ("pane_search", "content::pane_search"); ("pane_selection_read", "content::pane_selection_read");
   ("pane_link_resolve", "content::pane_link_resolve"); ("pane_link_activate", "content::pane_link_activate"); ("layout_export", "content::layout_export"); ("layout_apply", "content::layout_apply")]%string.
Definition SPAWNED_services : list (string * string) :=
  [("upload_begin", "uploads::upload_begin"); ("upload_chunk", "uploads::upload_chunk"); ("upload_finish", "uploads::upload_finish"); ("upload_cancel", "uploads::upload_cancel");
   ("get_activity", "activity::get_activity"); ("clear_activities", "activity::clear_activities"); ("push_policy_get", "push::policy_get"); ("push_policy_set", "push::policy_set");
   ("push_subscribe", "push::subscribe"); ("push_unsubscribe", "push::unsubscribe"); ("push_test_device", "push::test_device"); ("push_snooze", "push::snooze");
   ("push_viewed_pane", "push::viewed_pane"); ("push_open_ref", "push::open_ref"); ("speak_text", "speech::speak_text"); ("cancel_speech", "speech::cancel_speech");
   ("speech_voices_list", "speech::voices_list"); ("speech_voice_install", "speech::voice_install"); ("speech_voice_remove", "speech::voice_remove")]%string.
Definition SPAWNED_host : list (string * string) :=
  [("check_update", "misc::check_update");
   ("install_update", "misc::install_update"); ("get_conversation_history", "conversation::conversation_history"); ("list_slash_commands", "misc::slash_commands"); ("inventory_status", "misc::inventory_status");
   ("copy_agent_response", "misc::copy_agent_response"); ("register_app_origin", "misc::register_app_origin"); ("workspace_create", "workspace::workspace_create"); ("workspace_rename", "workspace::workspace_rename");
   ("workspace_reorder", "workspace::workspace_reorder"); ("workspace_close", "workspace::workspace_close"); ("worktree_list", "worktree::worktree_list"); ("worktree_create", "worktree::worktree_create");
   ("worktree_open", "worktree::worktree_open"); ("worktree_remove", "worktree::worktree_remove"); ("agent_rename", "tabs::agent_rename"); ("tab_reorder", "tabs::tab_reorder");
   ("acknowledge_pane", "tabs::acknowledge_pane"); ("agent_start", "agents::agent_start"); ("agent_clear", "agents::agent_clear"); ("agent_restart", "agents::agent_clear")]%string.
Definition SPAWNED : list (string * string) := SPAWNED_panes ++ SPAWNED_services ++ SPAWNED_host.
(** Those whose frames are pushed as they are. *)
Definition PUSHED : list (string * string) :=
  [("refresh_agents", "agents::refresh_agents"); ("lease_pane_size", "leases::lease_pane_size"); ("release_pane_size", "leases::release_pane_size"); ("list_directories", "local::list_directories");
   ("qr_code", "local::qr_code"); ("workspace_tree", "inspect::inspect"); ("workspace_file", "inspect::inspect"); ("workspace_git_status", "inspect::inspect");
   ("workspace_git_diff", "inspect::inspect")]%string.
(** Those that change the session itself. *)
Definition SESSION : list string := ["read_pane"; "watch_pane"; "unwatch_pane"; "pane_applied"; "pane_resync"; "subscribe_conversation"; "unsubscribe_conversation"]%string.

Inductive Route := InSession | Spawned (handler : string) | Pushed (handler : string) | Unrouted.
Definition route_of (kind : string) : Route :=
  if decide (kind ∈ SESSION) then InSession
  else match list_find (fun x => x.1 = kind) SPAWNED with
       | Some (_, x) => Spawned x.2
       | None => match list_find (fun x => x.1 = kind) PUSHED with Some (_, x) => Pushed x.2 | None => Unrouted end
       end.

(** ** What follows a spawned handler *)

(** Journal rows and audit rows, in order. *)
Inductive Row := Failure (action pane_id request_id error : string) | Audited (result : CommandResultMessage).
Definition result_rows (audited : bool) (rid : string) (f : Outbound) : list Row :=
  match f with
  | OCommandResult r =>
      (if decide (cr_ok r = Some false) then [Failure (default ""%string (cr_action r)) (default ""%string (cr_pane_id r)) (default rid (cr_request_id r)) (default ""%string (cr_error r))] else []) ++
      (if audited then [Audited r] else [])
  | _ => []
  end.
(** [audited]: there is a log and the type is an audited one. *)
Definition spawned_rows (audited : bool) (rid : string) (frames : list Outbound) : list Row := frames ≫= result_rows audited rid.

(** ** A session *)

Record Session := mkSession { ro_client_id : option string; ro_watches : gset string; ro_feeds : ConvoSubs.ConvoSubSet }.
Definition new_session : Session := mkSession None ∅ (ConvoSubs.mkSet ∅ []).
Definition ensure_started (client_id : string) (s : Session) : Session := match ro_client_id s with Some _ => s | None => mkSession (Some client_id) (ro_watches s) (ro_feeds s) end.
Definition client_of (s : Session) : string := default ""%string (ro_client_id s).
Definition set_watches (w : gset string) (s : Session) : Session := mkSession (ro_client_id s) w (ro_feeds s).
Definition set_feeds (f : ConvoSubs.ConvoSubSet) (s : Session) : Session := mkSession (ro_client_id s) (ro_watches s) f.

Inductive Reply := RConfirmed | RInvalid (detail : string) | RRefused (code : string) | RUnavailable (pane_id : string) | REmptyPane | RLater.

(** Each gives the session, the calls on the annotation ledger and the reply;
    [sink] is whether the client can be pushed to. *)
Definition route_watch_pane (sink : bool) (m : Inbound) (s : Session) : Session * list Annotations.Op * Reply :=
  if decide (in_pane_id m = ""%string) then (s, [], RInvalid "pane_id is required")
  else if negb sink then (s, [], RRefused "session_not_ready")
  else (set_watches ({[in_pane_id m]} ∪ ro_watches s) s, [Annotations.Started (client_of s) (in_pane_id m)], RConfirmed).
Definition route_unwatch_pane (m : Inbound) (s : Session) : Session * list Annotations.Op * Reply :=
  if decide (in_pane_id m ∈ ro_watches s) then (set_watches (ro_watches s ∖ {[in_pane_id m]}) s, [Annotations.Stopped (client_of s) (in_pane_id m)], RConfirmed) else (s, [], RConfirmed).
(** The read itself comes later. *)
Definition route_read_pane (sink : bool) (m : Inbound) (s : Session) : Session * list Annotations.Op * Reply :=
  if decide (in_pane_id m = ""%string) then (s, [], REmptyPane)
  else if negb sink then (s, [], RRefused "session_not_ready")
  else (set_watches (ro_watches s ∖ {[in_pane_id m]}) s, [], RLater).
Definition has_address (m : Inbound) : bool :=
  negb (bool_decide (Outcome.pane_of m = ""%string)) || match in_target m with Some t => negb (bool_decide (t_agent_session_id t = ""%string)) | None => false end.
Definition route_subscribe_conversation (sink : bool) (t : Topology.Topology) (task : nat) (m : Inbound) (s : Session) : Session * list Annotations.Op * Reply :=
  if negb (has_address m) then (s, [], RInvalid "target.pane_id or target.agent_session_id is required")
  else match ConvoSubs.subscribe_pane t m with
       | None => (s, [], RUnavailable (Outcome.pane_of m))
       | Some pane_id => if negb sink then (s, [], RRefused "session_not_ready") else (set_feeds (ConvoSubs.start pane_id task (ro_feeds s)) s, [], RConfirmed)
       end.
Definition route_unsubscribe_conversation (t : Topology.Topology) (m : Inbound) (s : Session) : Session * list Annotations.Op * Reply :=
  match ConvoSubs.unsubscribe_pane t m with
  | Some pane_id => (set_feeds (ConvoSubs.stop pane_id (ro_feeds s)).1 s, [], RConfirmed)
  | None => (s, [], RConfirmed)
  end.
(** The drop of the router. *)
Definition drop_session (s : Session) : Session * list Annotations.Op :=
  (mkSession (ro_client_id s) ∅ (ConvoSubs.stop_all (ro_feeds s)), match ro_client_id s with Some c => Annotations.Stopped c <$> elements (ro_watches s) | None => [] end).

(** ** The fence of a read *)

Inductive Fence := Replaced | Changed | Held.
Definition mid_read_fence (t : Topology.Topology) (pane_id : string) (generation content_rev : Z) : Fence :=
  if decide (Topology.generation_of t pane_id <> generation) then Replaced else if decide (Topology.content_rev_of t pane_id <> content_rev) then Changed else Held.

(** ** A run of a session *)

Inductive Event :=
| EvWatch (sink : bool) (m : Inbound)
| EvUnwatch (m : Inbound)
| EvRead (sink : bool) (m : Inbound)
| EvSubscribe (sink : bool) (t : Topology.Topology) (task : nat) (m : Inbound)
| EvUnsubscribe (t : Topology.Topology) (m : Inbound)
| EvOther (m : Inbound).
Definition route (client_id : string) (ev : Event) (s : Session) : Session * list Annotations.Op * Reply :=
  let s := ensure_started client_id s in
  match ev with
  | EvWatch sink m => route_watch_pane sink m s
  | EvUnwatch m => route_unwatch_pane m s
  | EvRead sink m => route_read_pane sink m s
  | EvSubscribe sink t task m => route_subscribe_conversation sink t task m s
  | EvUnsubscribe t m => route_unsubscribe_conversation t m s
  | EvOther m => (s, [], RLater)
  end.
Fixpoint session_run (client_id : string) (s : Session) (evs : list Event) : Session * list Annotations.Op :=
  match evs with
  | [] => (s, [])
  | ev :: evs => let '(s', ops, _) := route client_id ev s in let '(s'', ops') := session_run client_id s' evs in (s'', ops ++ ops')
  end.

End Router.

Module RouterClaims.
Import Json Inbound Protocol Annotations AnnotationsInvariant Router.

(** ** Routing *)

Definition is_catalogued (kind : string) : bool := bool_decide (is_Some (classify_action kind)).
Definition is_routed (kind : string) : bool := match route_of kind with Unrouted => false | _ => true end.
Definition routed_types : list string := SESSION ++ SPAWNED.*1 ++ PUSHED.*1.
(** Those the session answers itself. *)
Definition answered_by_session : list string :=
  ["reset_devices"; "create_device_invitation"; "caps_update"; "rename_device"; "device_list"; "revoke_device"; "client_caps"; "webrtc_ice"; "webrtc_close"; "webrtc_offer"; "deploy_app_update"]%string.

Lemma routed_in_table kind : is_routed kind = true -> kind ∈ routed_types.
Proof.
  unfold is_routed, route_of, routed_types. rewrite !elem_of_app. case_decide; [by left|]. right.
  destruct (list_find _ SPAWNED) as [[i x]|] eqn:E1; [apply list_find_Some in E1 as (Hx & <- & _); left; apply list_elem_of_fmap; exists x; split; [done|]; by eapply list_elem_of_lookup_2|].
  destruct (list_find _ PUSHED) as [[i x]|] eqn:E2; [|done]. apply list_find_Some in E2 as (Hx & <- & _). right. apply list_elem_of_fmap. exists x. split; [done|]. by eapply list_elem_of_lookup_2.
Qed.

(** Routing is total over the catalogue.  Every action the session admits is
    either answered by the session itself or has a handler here, and every
    handler's type is one the session admits, but for two that it refuses as
    unknown before they get here. *)
Theorem every_action_is_handled (kind : string) :
  (is_Some (classify_action kind) -> is_routed kind = true \/ kind ∈ answered_by_session) /\
  (is_routed kind = true -> is_Some (classify_action kind) \/ kind ∈ ["pane_resync"; "inventory_status"]%string).
Proof.
  split.
  - intros [m Hm]. apply (catalog_forall (fun r => is_routed r.1 || bool_decide (r.1 ∈ answered_by_session))) in Hm; [|by vm_compute].
    apply orb_true_iff in Hm as [Hm|Hm]; [by left|]. right. by apply bool_decide_eq_true in Hm.
  - intros Hr%routed_in_table.
    assert (Hall : forallb (fun k => is_catalogued k || bool_decide (k ∈ ["pane_resync"; "inventory_status"]%string)) routed_types = true) by by vm_compute.
    rewrite forallb_forall in Hall. apply list_elem_of_In, Hall, orb_true_iff in Hr as [Hr|Hr]; apply bool_decide_eq_true in Hr; [by left|by right].
Qed.

Lemma every_action_is_handled_witness : is_routed "agent_restart" = true \/ "agent_restart"%string ∈ answered_by_session.
Proof. apply (every_action_is_handled "agent_restart"). vm_compute. eauto. Defined.

(** The two arms nothing reaches. *)
Example dead_routes : is_routed "pane_resync" = true /\ classify_action "pane_resync" = None /\ is_routed "inventory_status" = true /\ classify_action "inventory_status" = None.
Proof. vm_compute. done. Qed.

(** ** What a session leaves behind *)

Lemma elem_watch_op w o c p :
  (c, p) ∈ watch_op w o <->
  match o with
  | Started c' p' => (c <> ""%string /\ p <> ""%string /\ c = c' /\ p = p') \/ (c, p) ∈ w
  | Stopped c' p' => (c, p) ∈ w /\ ~ (c = c' /\ p = p')
  | Refresh => (c, p) ∈ w
  end.
Proof.
  destruct o as [c' p'|c' p'|]; cbn [watch_op]; [case_decide as H|..].
  - split; [by right|]. intros [(H1 & H2 & -> & ->)|Hin]; [by destruct H|done].
  - rewrite elem_of_union, elem_of_singleton. split; [intros [[= -> ->]|Hin]; [left; tauto|by right]|]. intros [(_ & _ & -> & ->)|Hin]; [by left|by right].
  - rewrite elem_of_difference, elem_of_singleton. split; (intros [Hin Hne]; split; [done|]); [intros [-> ->]; by apply Hne|intros [= -> ->]; by apply Hne].
  - done.
Qed.

Definition of_client (client : string) (x : Env * Op) : Prop := match x.2 with Started c _ | Stopped c _ => c = client | Refresh => False end.
#[export] Instance of_client_dec client x : Decision (of_client client x).
Proof. unfold of_client. destruct (x.2); apply _. Defined.

Section Session.
Context (client : string).

(** A session before its first message has nothing. *)
Definition started (s : Session) : Prop := ro_client_id s = Some client \/ (ro_client_id s = None /\ ro_watches s = ∅).

(** No pane is read while the session watches it. *)
Fixpoint reads_unwatched (s : Session) (evs : list Event) : bool :=
  match evs with
  | [] => true
  | ev :: evs =>
      (match ev with EvRead true m => negb (bool_decide (in_pane_id m ∈ ro_watches s)) | _ => true end) && reads_unwatched (route client ev s).1.1 evs
  end.

(** The ledger of this client is the watches of the session. *)
Definition in_step (w : gset (string * string)) (s : Session) : Prop :=
  started s /\ forall p, (client, p) ∈ w <-> client <> ""%string /\ p <> ""%string /\ p ∈ ro_watches s.

Lemma route_in_step ev s w :
  (match ev with EvRead true m => negb (bool_decide (in_pane_id m ∈ ro_watches s)) | _ => true end) = true ->
  in_step w s -> in_step (foldl watch_op w (route client ev s).1.2) (route client ev s).1.1.
Proof.
  intros Hr [Hs Hw]. set (s1 := ensure_started client s).
  assert (H1 : ro_client_id s1 = Some client /\ ro_watches s1 = ro_watches s) by (unfold s1, ensure_started; destruct Hs as [E|[E _]]; rewrite E; done).
  destruct H1 as [Hid Hsame]. assert (Hst : in_step w s1) by (split; [by left|]; by rewrite Hsame).
  assert (Hof : client_of s1 = client) by (unfold client_of; by rewrite Hid).
  destruct ev as [sink m|m|sink m|sink t task m|t m|m]; unfold route; cbv zeta; fold s1.
  - unfold route_watch_pane. case_decide as Hp; [done|]. destruct sink; [|done]. cbn [negb fst snd foldl watch_op set_watches ro_client_id ro_watches]. split; [by left|]. cbn [ro_watches]. rewrite Hof. intros p.
    destruct Hst as [_ Hst]. specialize (Hst p). case_decide as Hc; [set_solver|]. set_solver.
  - unfold route_unwatch_pane. case_decide as Hp; [|done]. cbn [fst snd foldl watch_op set_watches ro_watches]. split; [by left|]. cbn [ro_watches]. rewrite Hof. intros p. destruct Hst as [_ Hst]. specialize (Hst p). set_solver.
  - unfold route_read_pane. destruct (decide (in_pane_id m = ""%string)) as [Hp|Hp]; [done|]. destruct sink; [|done]. cbn [negb fst snd foldl set_watches ro_watches]. split; [by left|]. cbn [ro_watches]. destruct Hst as [_ Hst]. intros p. rewrite Hst.
    apply negb_true_iff, bool_decide_eq_false in Hr. rewrite <- Hsame in Hr. set_solver.
  - unfold route_subscribe_conversation. destruct (has_address m); [|done]. destruct (ConvoSubs.subscribe_pane t m); [|done]. by destruct sink.
  - unfold route_unsubscribe_conversation. by destruct (ConvoSubs.unsubscribe_pane t m).
  - done.
Qed.

Lemma run_in_step evs s w : reads_unwatched s evs = true -> in_step w s -> in_step (foldl watch_op w (session_run client s evs).2) (session_run client s evs).1.
Proof.
  revert s w. induction evs as [|ev evs IH]; intros s w Hr Hw; [done|]. cbn [reads_unwatched] in Hr. apply andb_true_iff in Hr as [Hr Hrs]. pose proof (route_in_step ev s w Hr Hw) as H1. cbn [session_run].
  destruct (route client ev s) as [[s' ops] r]. cbn [fst snd] in H1, Hrs. pose proof (IH s' _ Hrs H1) as H2. destruct (session_run client s' evs) as [s'' ops']. cbn [fst snd] in *. by rewrite foldl_app.
Qed.

Lemma stop_each l w p : (client, p) ∈ foldl watch_op w (Stopped client <$> l) <-> (client, p) ∈ w /\ p ∉ l.
Proof. revert w. induction l as [|x l IH]; intros w; [set_solver|]. cbn [fmap list_fmap foldl]. rewrite IH, elem_watch_op, not_elem_of_cons. tauto. Qed.

Lemma drop_leaves_none w s p : in_step w s -> (client, p) ∉ foldl watch_op w (drop_session s).2.
Proof.
  intros [Hs Hw]. unfold drop_session. cbn [snd]. destruct Hs as [->|[-> E]].
  - rewrite stop_each, Hw, elem_of_elements. tauto.
  - cbn [foldl]. rewrite Hw, E. set_solver.
Qed.

(** ** Among other clients *)

#[local] Notation of_client := (of_client client).

Lemma interleaved all w c p :
  (c, p) ∈ foldl (fun w x => watch_op w x.2) w all <->
  (c, p) ∈ foldl (fun w x => watch_op w x.2) w (if decide (c = client) then filter of_client all else filter (fun x => ~ of_client x) all).
Proof.
  revert w. induction all as [|x all IH]; intros w; [by destruct (decide (c = client))|]. cbn [foldl]. rewrite IH.
  assert (Hother : forall w1 w2 l, ((c, p) ∈ w1 <-> (c, p) ∈ w2) -> (c, p) ∈ foldl (fun w x => watch_op w x.2) w1 l <-> (c, p) ∈ foldl (fun w (x : Env * Op) => watch_op w x.2) w2 l).
  { intros w1 w2 l. revert w1 w2. induction l as [|[e o] l IHl]; intros w1 w2 H12; [done|]. cbn [foldl snd]. apply IHl. rewrite !elem_watch_op. destruct o; by rewrite H12. }
  destruct (decide (c = client)) as [->|Hc].
  - rewrite filter_cons. case_decide as Hx; [done|]. apply Hother. rewrite elem_watch_op. unfold RouterClaims.of_client in Hx. destruct x as [e []]; cbn [snd] in *; naive_solver.
  - rewrite filter_cons. case_decide as Hx; [done|]. apply Hother. rewrite elem_watch_op. unfold RouterClaims.of_client in Hx. destruct x as [e []]; cbn [snd] in *; naive_solver.
Qed.

(** C26 — A session that ends leaves no pane watch behind.  Take any run of a
    session that reads no pane while it watches it, any order in which its calls
    on the annotation ledger, those of its drop included, fall among the calls of
    other sessions and the refreshes, and a Herdr that takes pane reports all
    along.  Then the pane entries of the ledger are exactly the watches of the
    other sessions, and the last report of each pane says whether one of them
    watches it.  (The workspace sets of the ledger are not covered: a
    client stays in them when the pane it leaves keeps other watchers.) *)
Theorem ended_session_leaves_no_watch (evs : list Event) (w : gset (string * string)) (a : State) (all : list (Env * Op)) :
  reads_unwatched new_session evs = true -> (forall p, (client, p) ∉ w) -> mirrors w a ->
  Forall (fun x => env_pane_unsupported x.1 = false) all ->
  (filter of_client all).*2 = (session_run client new_session evs).2 ++ (drop_session (session_run client new_session evs).1).2 ->
  mirrors (foldl (fun w x => watch_op w x.2) w (filter (fun x => ~ of_client x) all)) (AnnotationsInvariant.run a all).
Proof.
  intros Hr Hnone Hm Hsup Hops.
  assert (Hrun : mirrors (foldl (fun w x => watch_op w x.2) w all) (AnnotationsInvariant.run a all)).
  { clear Hops Hnone. unfold AnnotationsInvariant.run. revert w a Hm. induction Hsup as [|x all Hx Hsup IH]; intros w a Hm; [done|]. cbn [foldl]. apply IH. by apply mirrors_step. }
  replace (foldl _ w (filter (fun x => ~ of_client x) all)) with (foldl (fun w x => watch_op w x.2) w all); [done|]. apply set_eq. intros [c p]. rewrite interleaved. case_decide as Hc; [|done]. subst c.
  assert (Hfold : forall l w, foldl (fun w (x : Env * Op) => watch_op w x.2) w l = foldl watch_op w l.*2) by (intros l; induction l as [|x l IH]; intros w'; [done|]; apply IH).
  rewrite Hfold, Hops, foldl_app. split; intros Hin; exfalso.
  - revert Hin. apply drop_leaves_none, run_in_step; [done|]. split; [right; done|]. intros q. split; [intros Hq; by apply Hnone in Hq|]. intros (_ & _ & Hq). exfalso. cbn in Hq. set_solver.
  - revert Hin. generalize (Hnone p). generalize w. clear. induction all as [|[e o] all IH]; intros w Hp; [done|]. rewrite filter_cons. case_decide as Hx; [|by apply IH]. cbn [foldl]. apply IH.
    rewrite elem_watch_op. unfold RouterClaims.of_client in Hx. destruct o; cbn [snd] in *; naive_solver.
Qed.
End Session.

(** ** Runs *)

Definition pane_message (pane_id : string) : Inbound :=
  mkInbound "" 0 "" None "" "" "" pane_id "" "" "" "" "" "" "" "" [] [] false "" "" "" false "" "" "" "" "" "" None None None [] [] false "" "" 0 "" "" false 0 0 0
    "" "" "" "" "" "" [] false [] "" "" "" "" None None "" "" false false false [] [].
Definition watching_evs : list Event := [EvWatch true (pane_message "p1"); EvRead true (pane_message "p2"); EvWatch true (pane_message "p1"); EvWatch true (pane_message "p3"); EvUnwatch (pane_message "p3")].
Definition among_others : list (Env * Op) :=
  (fun o => (demo_env, o)) <$> [Started "a" "p1"; Started "b" "p1"; Started "a" "p1"; Refresh; Started "a" "p3"; Stopped "a" "p3"; Stopped "a" "p1"; Started "b" "p3"]%string.

Lemma ended_session_leaves_no_watch_witness : mirrors (foldl (fun w x => watch_op w x.2) ∅ (filter (fun x => ~ of_client "a" x) among_others)) (AnnotationsInvariant.run (empty_state [1; 2; 3]) among_others).
Proof.
  apply (ended_session_leaves_no_watch "a" watching_evs ∅ (empty_state [1; 2; 3]) among_others).
  - vm_compute. reflexivity.
  - intros p. apply not_elem_of_empty.
  - split_and!; [|done|by intros q [? ?]|done]. intros q c. cbn. split; [by intros ?%not_elem_of_empty|by intros (a & ? & _)].
  - unfold among_others. repeat (apply Forall_cons; split; [reflexivity|]). apply Forall_nil_2.
  - vm_compute. reflexivity.
Defined.

(** Reading a watched pane stops its task but not its annotation: the drop does
    not clear it either, so the token outlives the session. *)
Example read_keeps_the_annotation :
  let '(s, ops) := session_run "a" new_session [EvWatch true (pane_message "p1"); EvRead true (pane_message "p1")] in
  ro_watches s = ∅ /\ ops ++ (drop_session s).2 = [Started "a" "p1"]%string /\
  last_watch "p1" (queue (AnnotationsInvariant.run (empty_state [1]) ((fun o => (demo_env, o)) <$> ops ++ (drop_session s).2))) = Some true.
Proof. vm_compute. done. Qed.

End RouterClaims.
